(* ===== verification/_CoqProject ===== *)
-Q . S2P
Prelude.v
BitArray.v
SafeMath.v
Crypto.v
Rand.v
Validator.v
ValidatorSet.v
ValidatorLists.v
ValidatorSetPriority.v
ValidatorSetUpdate.v
Proto.v
ProtoDecode.v
Block.v
VoterSet.v
VerifyCommit.v
Election.v
Slots.v
VoteSet.v
VoteSetInv.v
VoteSetProps.v
MakeCommit.v
Merkle.v
MerkleProps.v
PartSet.v
PartSetProps.v
PrivVal.v
PrivValSafety.v
HeightVoteSet.v
HeightVotesInv.v
Consensus.v
ConsensusSpec.v
ConsensusRefine.v
Quorum.v
Agreement.v
ConsensusToy.v
Header.v
BlockTime.v
Light.v
BlockProto.v
Evidence.v
EvidenceProps.v
ChainState.v
ChainProps.v
StateStore.v
StateProps.v
StoreHistory.v
BlockStore.v
BlockStoreProps.v
EvidencePool.v
EvidencePoolProps.v
BlockExec.v
BlockExecProps.v
FastSync.v
FastSyncProps.v
FastSyncChain.v
Mempool.v
MempoolProps.v
LightStore.v
LightClient.v
LightClientProps.v
LightClientEnds.v
Handshake.v
HandshakeProps.v
Recovery.v
RecoveryProps.v
ConsensusMsgs.v
PeerState.v
PeerStateProps.v
Gossip.v
GossipProps.v
