(* ===== verification/Prelude.v ===== *)
(** * Ostracon

    A verification of Ostracon (src/), a Byzantine fault tolerant replicated
    state machine in Go: a fork of Tendermint in which the voters of a height are
    elected from the validators by verifiable randomness.  This file is the root:
    it documents the development and holds the prelude.

    ** The parts of the program and how they interact

    A node keeps a [State] of the chain: the validators with their proposer
    priorities, the voters elected from them, the parameters and the hash of the
    application.  Consensus (src/consensus) drives rounds of proposals, prevotes
    and precommits; votes are signed by the signer (src/privval), collected in
    vote sets (src/types), and more than two thirds of the weight for a block make
    a commit.  A block travels in parts with Merkle proofs (src/crypto/merkle).
    A committed block is saved in the block store (src/store) and executed
    (src/state): its header is checked against the state, the evidence in it
    against the evidence pool (src/evidence), the application is run, and the next
    state is saved in the state store.  Transactions wait in the mempool
    (src/mempool).  A node that starts again asks the application how far it is and
    replays to it the blocks it misses (src/consensus/replay.go).  The consensus
    reactor (src/consensus/reactor.go) keeps for each peer what it has and sends it
    what it lacks.  A node that is behind fetches blocks from its peers
    (src/blockchain).  A light client (src/light) follows the headers only: it verifies
    light blocks of a primary provider and compares them with its witnesses.

    ** How Go is modelled

    A function of the source is a function here with the same name where Rocq
    allows it; a method that changes its receiver is a computation of the monad
    [GoM], which returns a value, an error or a panic together with the new
    receiver.  Integers are in Z with the wrap-around of their width written out
    ([+i64] and the like).  Bytes are lists of integers; a nil slice or pointer is
    [None] where the code tells it from an empty one.  Maps are [gmap].  A mutex
    that a method holds for its whole body makes the method one step; where
    goroutines interact the steps are a relation and any interleaving is
    considered.  Loops are structural recursions on the data they go through, or
    take the number of steps from the quantity that bounds them in the code
    (the distance to the last height, the size of a window, the length of the
    data); the loops without such a bound take fuel, and a theorem says how
    much is enough (Light.skipping_ends with LightClientEnds.client_ends, PartSetProps.part_set_roundtrip).

    Third-party code is a parameter: the hashes and curves (class [CryptoLib] of
    Crypto.v), the encoding of times and wrapper messages ([TimeCodec],
    [WrapperLib]), the verifiable random function ([VrfLib]), the generated decoder of
    evidence ([EvidenceCodec]).  What is assumed of it is a class of laws or a
    hypothesis where it is used (hashes have 32 bytes, signatures are not forged,
    times decode), with toy instances in the witnesses.  Interfaces of the program
    are classes and records too: the application, the mempool and the evidence pool
    of BlockExec.v, the connections to the application of Handshake.v, the block
    library and executor of Consensus.v.

    ** Files

    - BitArray.v, SafeMath.v, Rand.v: src/libs/bits, src/libs/math, sampling of
      src/libs/rand.
    - Crypto.v, Merkle.v, MerkleProps.v: public keys and aggregation; Merkle trees,
      the iterative hash equals the recursive one, proofs are complete and sound.
    - Validator.v, ValidatorSet.v, ValidatorLists.v, ValidatorSetPriority.v,
      ValidatorSetUpdate.v: validators, updates as edits of a map, priorities that
      are never clipped, fairness of the rotation.
    - Proto.v, ProtoDecode.v, BlockProto.v: the generated encodings of signed
      messages and of blocks, and that decoding inverts encoding.
    - Block.v, VoterSet.v, VerifyCommit.v, Election.v: votes, proposals and commits,
      what their signatures bind; voters, the verification of commits, elections.
    - Slots.v, VoteSet.v, VoteSetInv.v, VoteSetProps.v, MakeCommit.v,
      HeightVoteSet.v, HeightVotesInv.v: votes of a step and of a height; the
      majority they report is real, and commits made from them verify.
    - PartSet.v, PartSetProps.v: blocks in parts.
    - PrivVal.v, PrivValSafety.v: the file signer never signs twice for a step, also
      over crashes.
    - Consensus.v, ConsensusSpec.v, ConsensusRefine.v, Quorum.v, Agreement.v,
      ConsensusToy.v: the consensus state machine, that it refines the rules of an
      abstract node, and that honest nodes never commit different blocks.
    - ConsensusMsgs.v, PeerState.v, PeerStateProps.v, Gossip.v, GossipProps.v: the
      messages between peers and of the write-ahead log; what the reactor knows of
      a peer, with the bit arrays its routines share; its handlers and the turns of
      its gossip routines.  Votes reach a peer once each, and well-formed messages
      never make the reactor panic.
    - Header.v, BlockTime.v, Light.v: what the hash of a header binds, the median
      time, the verification of light clients.
    - Evidence.v, EvidenceProps.v, EvidencePool.v, EvidencePoolProps.v: honest voters
      are not convicted, conflicting votes are, evidence is committed once unless a
      peer sends it again while its block is executed.
    - ChainState.v, ChainProps.v: genesis, making and checking blocks, the next
      state; accepted blocks form a chain.
    - StateStore.v, StateProps.v, StoreHistory.v, BlockStore.v, BlockStoreProps.v:
      the stores answer for the past as the states and blocks did.
    - BlockExec.v, BlockExecProps.v: execution of blocks ties these together; a node
      stays consistent whatever the application answers.
    - Handshake.v, HandshakeProps.v, Recovery.v, RecoveryProps.v: the handshake with
      the application and the replay of blocks; a node that crashed at any point of
      any block, any number of times, is brought back to the state of its chain, but
      for the first block of a chain with an initial height above 1.
    - Mempool.v, MempoolProps.v: the mempool with its concurrent checks, step by
      step; its limits, its counters, no duplicates as long as the cache remembers what
      is under check, and what is reaped for a block.
    - LightStore.v, LightClient.v, LightClientProps.v, LightClientEnds.v: the store, the
      provider and the client of light blocks with the detector of attacks; what a
      client comes to trust, and that its loops end.
    - FastSync.v, FastSyncProps.v, FastSyncChain.v: fast sync (version 2) builds the
      chain the voters signed.

    ** What the theorems show

    - Safety of consensus: agreement, refinement of the abstract rules, no double
      signing, soundness of majorities, commits and elections.
    - Consistency of a node: well-formed states over every execution, stores that
      refine lists of states and blocks, evidence committed once, recovery from
      crashes.
    - Authenticity: what headers, parts, proofs, sign bytes and voter hashes bind.
    - Accounting: priorities, totals and bounds at machine width, without clipping
      or overflow.
    - Failures: inputs on which the code panics, accepts a forgery or gets stuck,
      stated as theorems with the input exhibited.

    ** Not modelled

    Network and processes: the peer-to-peer layer, RPC, ABCI transports, the remote
    signers, the node that wires the parts together, command lines and
    configuration files are sockets, goroutines and formats without a contract
    beyond passing messages on.  The gossip routines of evidence and of the mempool
    decide what to send and when; the state machines here accept any
    message in any order, which covers whatever they do.  Of the write-ahead log
    only the messages are modelled, not its files.  Databases
    are maps whose own failures are left out.  Printers, JSON forms, metrics, logs
    and events have no effect on the state.  Private keys, curve arithmetic and
    ciphers are third-party code or bindings to it. *)

From Stdlib Require Import ZArith Lia.
From stdpp Require Import prelude gmap strings list sorting.

(** ** Outcomes of Go code

    A Go function returns a value, returns a non-nil [error], or panics. *)

Inductive outcome (E A : Type) : Type :=
| Ok (a : A)
| Err (e : E)
| Panic.
Arguments Ok {E A} a.
Arguments Err {E A} e.
Arguments Panic {E A}.

#[global] Instance outcome_ret {E} : MRet (outcome E) := fun A a => Ok a.
#[global] Instance outcome_bind {E} : MBind (outcome E) :=
  fun A B f m => match m with Ok a => f a | Err e => Err e | Panic => Panic end.

(** A method that mutates its receiver: the receiver's new value comes back
    with every result, with an error as well. *)
Definition GoM (S E A : Type) : Type := S -> outcome E A * S.

#[global] Instance gom_ret {S E} : MRet (GoM S E) := fun A a s => (Ok a, s).
#[global] Instance gom_bind {S E} : MBind (GoM S E) :=
  fun A B f m s =>
    match m s with
    | (Ok a, s') => f a s'
    | (Err e, s') => (Err e, s')
    | (Panic, s') => (Panic, s')
    end.

Section gom_ops.
  Context {S E : Type}.

Definition gget : GoM S E S := fun s => (Ok s, s).

Definition gput (s : S) : GoM S E unit := fun _ => (Ok tt, s).

Definition gmodify (f : S -> S) : GoM S E unit := fun s => (Ok tt, f s).

Definition gfail {A} (e : E) : GoM S E A := fun s => (Err e, s).

Definition gpanic {A} : GoM S E A := fun s => (Panic, s).

Definition glift {A} (o : outcome E A) : GoM S E A := fun s => (o, s).

End gom_ops.

(** The error of a call in the caller's type. *)
Definition lift_err {E E' A} (f : E -> E') (o : outcome E A) : outcome E' A :=
  match o with Ok a => Ok a | Err e => Err (f e) | Panic => Panic end.

Lemma lift_err_Ok {E E' A} (f : E -> E') (o : outcome E A) x : lift_err f o = Ok x <-> o = Ok x.
Proof. destruct o; naive_solver. Qed.

(** Case analysis on a bind: only a successful first computation reaches the
    continuation. *)
Lemma obind_Ok {E A B} (m : outcome E A) (f : A -> outcome E B) b :
  m ≫= f = Ok b <-> exists a, m = Ok a /\ f a = Ok b.
Proof. destruct m; cbn; naive_solver. Qed.

Lemma gbind_Ok {S E A B} (m : GoM S E A) (f : A -> GoM S E B) s b s' :
  (m ≫= f) s = (Ok b, s') <-> exists a s1, m s = (Ok a, s1) /\ f a s1 = (Ok b, s').
Proof.
  unfold mbind, gom_bind. destruct (m s) as [[a|e|] s1]; split; naive_solver.
Qed.

Lemma gbind_step {S E A B} (m : GoM S E A) (f : A -> GoM S E B) s a s1 : m s = (Ok a, s1) -> (m ≫= f) s = f a s1.
Proof. intros Hm. unfold mbind, gom_bind. by rewrite Hm. Qed.

Lemma glift_step {S E A B} (o : outcome E A) (f : A -> GoM S E B) s a : o = Ok a -> (glift o ≫= f) s = f a s.
Proof. intros ->. done. Qed.

Lemma glift_Ok {S E A} (o : outcome E A) (s s' : S) a : glift o s = (Ok a, s') -> o = Ok a /\ s' = s.
Proof. unfold glift. intros [= -> ->]. done. Qed.

(** Every outcome of a computation is related to the state it started from. *)
Definition keeps {S E A} (R : relation S) (m : GoM S E A) : Prop := forall s, R s (snd (m s)).

Section keeps.
  Context {S E : Type} (R : relation S) `{!PreOrder R}.

Lemma keeps_bind {A B} (m : GoM S E A) (f : A -> GoM S E B) : keeps R m -> (forall a, keeps R (f a)) -> keeps R (m ≫= f).
Proof.
  intros Hm Hf s. specialize (Hm s). unfold mbind, gom_bind. destruct (m s) as [[a|e|] s']; cbn in *; [|done..].
  etrans; [exact Hm|apply Hf].
Qed.

Lemma keeps_same {A} (m : GoM S E A) : (forall s, snd (m s) = s) -> keeps R m.
Proof. intros Hm s. rewrite Hm. done. Qed.

Lemma keeps_modify (f : S -> S) : (forall s, R s (f s)) -> keeps R (gmodify (E:=E) f).
Proof. intros Hf s. apply Hf. Qed.

End keeps.

Ltac kept_same := apply keeps_same; [apply _|done].
Ltac kept_bind := apply keeps_bind; [apply _| |].

Definition is_ok {E A} (o : outcome E A) : bool :=
  match o with Ok _ => true | _ => false end.

(** ** Machine integers *)

Declare Scope go_scope.
Delimit Scope go_scope with go.

Definition int64_max : Z := 9223372036854775807.
Definition int64_min : Z := -9223372036854775808.
Definition int32_max : Z := 2147483647.
Definition int32_min : Z := -2147483648.
Definition two63 : Z := 9223372036854775808.
Definition two64 : Z := 18446744073709551616.

Definition int64 (x : Z) : Prop := (int64_min <= x <= int64_max)%Z.
Definition int32 (x : Z) : Prop := (int32_min <= x <= int32_max)%Z.
Definition uint64 (x : Z) : Prop := (0 <= x < two64)%Z.

#[global] Instance int64_dec x : Decision (int64 x).
Proof. unfold int64. apply _. Defined.
#[global] Instance int32_dec x : Decision (int32 x).
Proof. unfold int32. apply _. Defined.
#[global] Instance uint64_dec x : Decision (uint64 x).
Proof. unfold uint64. apply _. Defined.

(** Conversion to [int64], [int32], [uint64]: two's complement wrap-around. *)
Definition wrap64 (x : Z) : Z := ((x + two63) mod two64 - two63)%Z.
Definition wrap32 (x : Z) : Z := ((x + 2147483648) mod 4294967296 - 2147483648)%Z.
Definition wrapu64 (x : Z) : Z := (x mod two64)%Z.
Definition wrapu32 (x : Z) : Z := (x mod 4294967296)%Z.
Definition wrapu16 (x : Z) : Z := (x mod 65536)%Z.

Notation "x +i64 y" := (wrap64 (x + y)) (at level 50, left associativity) : go_scope.
Notation "x -i64 y" := (wrap64 (x - y)) (at level 50, left associativity) : go_scope.
Notation "x *i64 y" := (wrap64 (x * y)) (at level 40, left associativity) : go_scope.
(** Go's [/] truncates toward zero; the divisor is checked by the caller. *)
Notation "x /i64 y" := (wrap64 (Z.quot x y)) (at level 40, left associativity) : go_scope.
Notation "x +u64 y" := (wrapu64 (x + y)) (at level 50, left associativity) : go_scope.
Notation "x *u64 y" := (wrapu64 (x * y)) (at level 40, left associativity) : go_scope.

Create HintDb go discriminated.

Ltac unfold_ints :=
  unfold int64, int32, uint64, wrap64, wrap32, wrapu64,
    int64_max, int64_min, int32_max, int32_min, two63, two64 in *.

Lemma wrap64_id x : int64 x -> wrap64 x = x.
Proof. unfold_ints. intros. rewrite Z.mod_small; lia. Qed.

Lemma wrap64_range x : int64 (wrap64 x).
Proof. unfold_ints. pose proof (Z.mod_pos_bound (x + 9223372036854775808) 18446744073709551616). lia. Qed.

Lemma wrap32_id x : int32 x -> wrap32 x = x.
Proof. unfold_ints. intros. rewrite Z.mod_small; lia. Qed.

Lemma wrapu64_id x : uint64 x -> wrapu64 x = x.
Proof. unfold_ints. intros. rewrite Z.mod_small; lia. Qed.

Lemma wrapu64_range x : uint64 (wrapu64 x).
Proof. unfold_ints. apply Z.mod_pos_bound. lia. Qed.

#[export] Hint Resolve wrap64_range wrapu64_range : go.

(** [wrapped] removes every conversion whose argument [lia] can bound. *)
Ltac wrapped :=
  repeat match goal with
    | |- context [wrap64 ?x] => rewrite (wrap64_id x) by (unfold_ints; lia)
    | |- context [wrapu64 ?x] => rewrite (wrapu64_id x) by (unfold_ints; lia)
    | |- context [wrap32 ?x] => rewrite (wrap32_id x) by (unfold_ints; lia)
    end.

Ltac wrapped_in H :=
  repeat match type of H with
    | context [wrap64 ?x] => rewrite (wrap64_id x) in H by (unfold_ints; lia)
    | context [wrapu64 ?x] => rewrite (wrapu64_id x) in H by (unfold_ints; lia)
    | context [wrap32 ?x] => rewrite (wrap32_id x) in H by (unfold_ints; lia)
    end.

(** Case analysis on the integer comparisons of the code. *)
Ltac zcase :=
  repeat match goal with
    | |- context [Z.eqb ?a ?b] => destruct (Z.eqb_spec a b); cbn [andb orb negb]
    | |- context [Z.ltb ?a ?b] => destruct (Z.ltb_spec a b); cbn [andb orb negb]
    | |- context [Z.leb ?a ?b] => destruct (Z.leb_spec a b); cbn [andb orb negb]
    end.

(** Decides the comparisons that arithmetic settles. *)
Ltac zdecide :=
  repeat match goal with
    | |- context [Z.eqb ?a ?b] => first [rewrite (proj2 (Z.eqb_eq a b)) by lia | rewrite (proj2 (Z.eqb_neq a b)) by lia]
    | |- context [Z.ltb ?a ?b] => first [rewrite (proj2 (Z.ltb_lt a b)) by lia | rewrite (proj2 (Z.ltb_ge a b)) by lia]
    | |- context [Z.leb ?a ?b] => first [rewrite (proj2 (Z.leb_le a b)) by lia | rewrite (proj2 (Z.leb_gt a b)) by lia]
    end; cbn [andb orb negb].

Ltac zcase_in H :=
  repeat match type of H with
    | context [Z.eqb ?a ?b] => destruct (Z.eqb_spec a b); cbn [andb orb negb] in H
    | context [Z.ltb ?a ?b] => destruct (Z.ltb_spec a b); cbn [andb orb negb] in H
    | context [Z.leb ?a ?b] => destruct (Z.leb_spec a b); cbn [andb orb negb] in H
    end.

(** ** Slices *)

(** [l[i]] for a Go [int] index: a panic out of range. *)
Definition idx {E A} (l : list A) (i : Z) : outcome E A :=
  if (i <? 0)%Z then Panic
  else match l !! Z.to_nat i with Some x => Ok x | None => Panic end.

(** [l[i] = x]. *)
Definition upd {E A} (l : list A) (i : Z) (x : A) : outcome E (list A) :=
  if (i <? 0)%Z then Panic
  else if bool_decide (Z.to_nat i < length l) then Ok (<[Z.to_nat i := x]> l) else Panic.

Definition lenZ {A} (l : list A) : Z := Z.of_nat (length l).

Lemma idx_Ok {E A} (l : list A) i x :
  idx (E:=E) l i = Ok x <-> (0 <= i)%Z /\ l !! Z.to_nat i = Some x.
Proof.
  unfold idx. zcase; [split; [done|lia]|].
  destruct (l !! Z.to_nat i); split; naive_solver.
Qed.

Lemma idx_nat {E A} (l : list A) (i : nat) :
  idx (E:=E) l (Z.of_nat i) = match l !! i with Some x => Ok x | None => Panic end.
Proof. unfold idx. zcase; [lia|]. by rewrite Nat2Z.id. Qed.

Lemma upd_Ok {E A} (l : list A) i x l' :
  upd (E:=E) l i x = Ok l' <-> (0 <= i < lenZ l)%Z /\ l' = <[Z.to_nat i := x]> l.
Proof.
  unfold upd, lenZ. zcase; [split; [done|lia]|].
  case_bool_decide; split; intros; naive_solver lia.
Qed.

(** ** Byte strings

    A [[]byte] is a list of integers below 256; where the code tells a nil
    slice from an empty one the field is an [option]. *)

Abbreviation bytes := (list Z).

(** [bytes.Compare]: lexicographic. *)
Fixpoint bytes_compare (a b : bytes) : comparison :=
  match a, b with
  | [], [] => Eq
  | [], _ :: _ => Lt
  | _ :: _, [] => Gt
  | x :: a', y :: b' =>
      match Z.compare x y with Eq => bytes_compare a' b' | c => c end
  end.

(** [bytes.Equal]. *)
Definition bytes_eqb (a b : bytes) : bool := bool_decide (a = b).

Definition bytes_ltb (a b : bytes) : bool :=
  match bytes_compare a b with Lt => true | _ => false end.

Lemma bytes_compare_Eq a b : bytes_compare a b = Eq <-> a = b.
Proof.
  revert b. induction a as [|x a IH]; intros [|y b]; cbn; try (split; congruence).
  destruct (Z.compare_spec x y); subst; [rewrite IH|..];
    split; intros H'; simplify_eq; try done; lia.
Qed.

Lemma bytes_compare_antisym a b : bytes_compare b a = CompOpp (bytes_compare a b).
Proof.
  revert b. induction a as [|x a IH]; intros [|y b]; cbn; try done.
  rewrite (Z.compare_antisym x y). destruct (Z.compare x y); cbn; auto.
Qed.

Lemma bytes_compare_trans a b c :
  bytes_compare a b = Lt -> bytes_compare b c = Lt -> bytes_compare a c = Lt.
Proof.
  revert b c. induction a as [|x a IH]; intros [|y b] [|z c]; cbn; try done.
  destruct (Z.compare_spec x y), (Z.compare_spec y z), (Z.compare_spec x z);
    subst; intros; try done; try lia; eauto.
Qed.

Lemma bytes_ltb_Lt a b : bytes_ltb a b = true <-> bytes_compare a b = Lt.
Proof. unfold bytes_ltb. destruct (bytes_compare a b); naive_solver. Qed.

Lemma bytes_ltb_irrefl a : bytes_ltb a a = false.
Proof. unfold bytes_ltb. by rewrite (proj2 (bytes_compare_Eq a a) eq_refl). Qed.

Lemma bytes_ltb_trans a b c : bytes_ltb a b = true -> bytes_ltb b c = true -> bytes_ltb a c = true.
Proof. rewrite !bytes_ltb_Lt. apply bytes_compare_trans. Qed.

Lemma bytes_ltb_asym a b : bytes_ltb a b = true -> bytes_ltb b a = false.
Proof. unfold bytes_ltb. rewrite (bytes_compare_antisym a b). by destruct (bytes_compare a b). Qed.

Lemma bytes_ltb_total a b : a <> b -> bytes_ltb a b = false -> bytes_ltb b a = true.
Proof.
  unfold bytes_ltb. rewrite (bytes_compare_antisym a b).
  destruct (bytes_compare a b) eqn:E; cbn; try done.
  by apply bytes_compare_Eq in E.
Qed.

Lemma bytes_eqb_true a b : bytes_eqb a b = true <-> a = b.
Proof. unfold bytes_eqb. apply bool_decide_eq_true. Qed.

Lemma bytes_eqb_refl a : bytes_eqb a a = true.
Proof. by apply bytes_eqb_true. Qed.

Lemma bytes_eqb_false a b : bytes_eqb a b = false <-> a <> b.
Proof. unfold bytes_eqb. apply bool_decide_eq_false. Qed.

(** ** [binary.LittleEndian] *)

Definition le_uint64 (b : bytes) : Z := foldr (fun x acc => x + 256 * acc)%Z 0%Z b.

Definition put_uint64 (x : Z) : bytes :=
  (fun k : nat => Z.land (Z.shiftr x (8 * Z.of_nat k)) 255) <$> seq 0 8.

Lemma put_uint64_length x : length (put_uint64 x) = 8%nat.
Proof. done. Qed.

(** The bytes of a word, low ones first, give it back. *)
Lemma le_uint64_digits (x : Z) (s n : nat) :
  le_uint64 ((fun k : nat => Z.land (Z.shiftr x (8 * Z.of_nat k)) 255) <$> seq s n) =
  (x / 256 ^ Z.of_nat s mod 256 ^ Z.of_nat n)%Z.
Proof.
  revert s. induction n as [|n IH]; intros s; [by rewrite Z.mod_1_r|].
  cbn [seq]. rewrite fmap_cons. cbn [le_uint64 foldr]. fold (le_uint64 ((fun k : nat => Z.land (Z.shiftr x (8 * Z.of_nat k)) 255) <$> seq (S s) n)).
  rewrite IH. change 255%Z with (Z.ones 8). rewrite Z.land_ones, Z.shiftr_div_pow2 by lia.
  rewrite Z.pow_mul_r by lia. change (2 ^ 8)%Z with 256%Z.
  rewrite !Nat2Z.inj_succ, !Z.pow_succ_r by lia.
  rewrite (Z.mul_comm 256 (256 ^ Z.of_nat s)), <- Z.div_div by lia.
  set (y := (x / 256 ^ Z.of_nat s)%Z). rewrite Z.rem_mul_r by lia. done.
Qed.

Lemma le_uint64_put x : uint64 x -> le_uint64 (put_uint64 x) = x.
Proof.
  intros Hx. unfold put_uint64. rewrite le_uint64_digits. change (256 ^ Z.of_nat 0)%Z with 1%Z.
  rewrite Z.div_1_r. apply Z.mod_small. unfold_ints. change (256 ^ Z.of_nat 8)%Z with 18446744073709551616%Z. lia.
Qed.

Lemma put_uint64_inj x y : uint64 x -> uint64 y -> put_uint64 x = put_uint64 y -> x = y.
Proof. intros Hx Hy H. rewrite <- (le_uint64_put x), <- (le_uint64_put y) by done. by rewrite H. Qed.

(** ** Sums of integers *)

Fixpoint Zsum (l : list Z) : Z :=
  match l with [] => 0 | x :: l' => (x + Zsum l')%Z end.

Section Zsum_facts.
  Local Open Scope Z_scope.

Lemma Zsum_app l1 l2 : Zsum (l1 ++ l2) = Zsum l1 + Zsum l2.
Proof. induction l1; cbn; lia. Qed.

#[global] Instance Zsum_Permutation : Proper (Permutation ==> eq) Zsum.
Proof. induction 1; cbn; lia. Qed.

Lemma Zsum_nonneg l : Forall (fun x => 0 <= x) l -> 0 <= Zsum l.
Proof. induction 1; cbn; lia. Qed.

Lemma Zsum_elem_le l x : Forall (fun x => 0 <= x) l -> x ∈ l -> x <= Zsum l.
Proof.
  induction 1 as [|y l Hy Hl IH]; [by intros ?%elem_of_nil|].
  pose proof (Zsum_nonneg l Hl). cbn. intros [->|Hin]%elem_of_cons; [lia|]. specialize (IH Hin). lia.
Qed.

Lemma Zsum_insert (l : list Z) i x y :
  l !! i = Some x -> Zsum (<[i := y]> l) = Zsum l - x + y.
Proof.
  revert i. induction l as [|z l IH]; intros [|i] H; csimpl in *; simplify_eq; [lia|].
  cbn. rewrite (IH i) by done. lia.
Qed.

End Zsum_facts.
