(* ===== verification/BitArray.v ===== *)
(** * Bit arrays: src/libs/bits/bit_array.go

    [BitArray] is the code's structure: the number of bits and the 64-bit
    words holding them, bit [i] in word [i/64].  A nil pointer is [None].
    The lock of the structure is not modelled: every method takes it for its
    whole body, so each definition below is one atomic step. *)

From Stdlib Require Import ZArith Lia Ascii.
From stdpp Require Import prelude list sorting strings.
From S2P Require Import Prelude.

Local Open Scope Z_scope.

Record BitArray := mkBitArray { Bits : Z; Elems : list Z }.

(** [uint64(1) << uint(n)]: zero for a shift count of 64 or more, and a
    negative [n] converts to such a count. *)
Definition shl1 (n : Z) : Z := if (0 <=? n) && (n <? 64) then Z.shiftl 1 n else 0.

(** [^x] on [uint64]. *)
Definition not64 (x : Z) : Z := Z.lxor x (two64 - 1).

(** [copy(dst, src)] on slices. *)
Definition go_copy {A} (dst src : list A) : list A :=
  take (length dst) src ++ drop (length src) dst.

(** The number of words for [bits] bits, [(bits+63)/64]. *)
Definition words (bits : Z) : nat := Z.to_nat (Z.quot (bits + 63) 64).

Definition NewBitArray (bits : Z) : option BitArray :=
  if bits <=? 0 then None else Some (mkBitArray bits (replicate (words bits) 0)).

Definition Size (bA : option BitArray) : Z :=
  match bA with None => 0 | Some b => Bits b end.

Definition getIndex {E} (bA : BitArray) (i : Z) : outcome E bool :=
  if Bits bA <=? i then Ok false
  else e ← idx (Elems bA) (Z.quot i 64);
       Ok (0 <? Z.land e (shl1 (Z.rem i 64))).

Definition GetIndex {E} (bA : option BitArray) (i : Z) : outcome E bool :=
  match bA with None => Ok false | Some b => getIndex b i end.

(** The returned flag and the updated array. *)
Definition setIndex {E} (bA : BitArray) (i : Z) (v : bool) : outcome E (bool * BitArray) :=
  if Bits bA <=? i then Ok (false, bA)
  else e ← idx (Elems bA) (Z.quot i 64);
       let e' := if v then Z.lor e (shl1 (Z.rem i 64))
                 else Z.land e (not64 (shl1 (Z.rem i 64))) in
       es ← upd (Elems bA) (Z.quot i 64) e';
       Ok (true, mkBitArray (Bits bA) es).

Definition SetIndex {E} (bA : option BitArray) (i : Z) (v : bool)
  : outcome E (bool * option BitArray) :=
  match bA with
  | None => Ok (false, None)
  | Some b => '(r, b') ← setIndex b i v; Ok (r, Some b')
  end.

Definition Copy (bA : option BitArray) : option BitArray := bA.

Definition copyBits (bA : BitArray) (bits : Z) : BitArray :=
  mkBitArray bits (go_copy (replicate (words bits) 0) (Elems bA)).

(** [for i := 0; i < n; i++ { c[i] = f(c[i], o[i]) }]. *)
Fixpoint combine_upto {E} (f : Z -> Z -> Z) (n : nat) (c o : list Z) : outcome E (list Z) :=
  match n with
  | O => Ok c
  | S n' =>
      match c, o with
      | x :: c', y :: o' => r ← combine_upto f n' c' o'; Ok (f x y :: r)
      | _, _ => Panic
      end
  end.

Definition Or {E} (bA o : option BitArray) : outcome E (option BitArray) :=
  match bA, o with
  | None, None => Ok None
  | None, Some _ => Ok (Copy o)
  | Some _, None => Ok (Copy bA)
  | Some a, Some b =>
      let c := copyBits a (Z.max (Bits a) (Bits b)) in
      let smaller := Nat.min (length (Elems a)) (length (Elems b)) in
      es ← combine_upto Z.lor smaller (Elems c) (Elems b);
      Ok (Some (mkBitArray (Bits c) es))
  end.

Definition and_ {E} (bA o : BitArray) : outcome E BitArray :=
  let c := copyBits bA (Z.min (Bits bA) (Bits o)) in
  es ← combine_upto Z.land (length (Elems c)) (Elems c) (Elems o);
  Ok (mkBitArray (Bits c) es).

Definition And {E} (bA o : option BitArray) : outcome E (option BitArray) :=
  match bA, o with
  | Some a, Some b => c ← and_ a b; Ok (Some c)
  | _, _ => Ok None
  end.

Definition not_ (bA : BitArray) : BitArray :=
  mkBitArray (Bits bA) (not64 <$> Elems bA).

Definition Not (bA : option BitArray) : option BitArray := not_ <$> bA.

Definition Sub {E} (bA o : option BitArray) : outcome E (option BitArray) :=
  match bA, o with
  | Some a, Some b =>
      let c := copyBits a (Bits a) in
      let smaller := Nat.min (length (Elems a)) (length (Elems b)) in
      es ← combine_upto Z.ldiff smaller (Elems c) (Elems b);
      Ok (Some (mkBitArray (Bits c) es))
  | _, _ => Ok None
  end.

Definition IsEmpty (bA : option BitArray) : bool :=
  match bA with
  | None => true
  | Some b => forallb (fun e => negb (0 <? e)) (Elems b)
  end.

Definition IsFull {E} (bA : option BitArray) : outcome E bool :=
  match bA with
  | None => Ok true
  | Some b =>
      match last (Elems b) with
      | None => Panic (* [bA.Elems[:len(bA.Elems)-1]] of an empty slice *)
      | Some lastElem =>
          if forallb (fun e => not64 e =? 0) (removelast (Elems b)) then
            let lastElemBits := Z.rem (Bits b + 63) 64 + 1 in
            Ok (Z.land (wrapu64 (lastElem + 1)) (wrapu64 (shl1 lastElemBits - 1)) =? 0)
          else Ok false
      end
  end.

(** The indices [curBit + j], [j < n], whose bit [j] of [elem] is set. *)
Definition elem_indices (elem curBit : Z) (n : nat) : list Z :=
  omap (fun j : nat =>
          if 0 <? Z.land elem (shl1 (Z.of_nat j)) then Some (curBit + Z.of_nat j) else None)
    (seq 0 n).

Fixpoint true_indices_loop (elems : list Z) (curBit : Z) : list Z * Z :=
  match elems with
  | [] => ([], curBit)
  | elem :: rest =>
      let found := if elem =? 0 then [] else elem_indices elem curBit 64 in
      let '(more, c) := true_indices_loop rest (curBit + 64) in
      (found ++ more, c)
  end.

Definition getTrueIndices {E} (bA : BitArray) : outcome E (list Z) :=
  match last (Elems bA) with
  | None => Panic
  | Some lastElem =>
      let '(trueIndices, curBit) := true_indices_loop (removelast (Elems bA)) 0 in
      let numFinalBits := Bits bA - curBit in
      Ok (trueIndices ++ elem_indices lastElem curBit (Z.to_nat numFinalBits))
  end.

(** [intn] is [tmrand.Intn], the process's random source. *)
Definition PickRandom {E} (intn : Z -> Z) (bA : option BitArray) : outcome E (Z * bool) :=
  match bA with
  | None => Ok (0, false)
  | Some b =>
      trueIndices ← getTrueIndices b;
      if lenZ trueIndices =? 0 then Ok (0, false)
      else i ← idx trueIndices (intn (lenZ trueIndices)); Ok (i, true)
  end.

(** [binary.LittleEndian.PutUint64]. *)
Definition le_bytes (x : Z) : bytes :=
  (fun k : nat => Z.land (Z.shiftr x (8 * Z.of_nat k)) 255) <$> seq 0 8.

(** The loop of [Bytes] on the suffix [bytes[i*8:]] of the buffer; slicing
    past the end of the buffer panics. *)
Fixpoint put_elems {E} (elems : list Z) (buf : bytes) : outcome E bytes :=
  match elems with
  | [] => Ok buf
  | e :: rest =>
      let h := go_copy buf (le_bytes e) in
      match rest with
      | [] => Ok h
      | _ :: _ =>
          if bool_decide (length buf < 8)%nat then Panic
          else r ← put_elems rest (drop 8 buf); Ok (take 8 h ++ r)
      end
  end.

Definition Bytes {E} (bA : BitArray) : outcome E bytes :=
  put_elems (Elems bA) (replicate (Z.to_nat (Z.quot (Bits bA + 7) 8)) 0).

(** The receiver after [bA.Update(o)]. *)
Definition Update (bA o : option BitArray) : option BitArray :=
  match bA, o with
  | Some a, Some b => Some (mkBitArray (Bits a) (go_copy (Elems a) (Elems b)))
  | _, _ => bA
  end.

Definition dquote : ascii := "034"%char.
Definition bit_char (b : bool) : ascii := if b then "x"%char else "_"%char.
Definition null_text : list ascii := String.list_ascii_of_string "null".

(** The bits [0 .. n-1] in order, read with [getIndex]. *)
Fixpoint read_bits {E} (bA : BitArray) (i : Z) (n : nat) : outcome E (list bool) :=
  match n with
  | O => Ok []
  | S n' => b ← getIndex bA i; r ← read_bits bA (i + 1) n'; Ok (b :: r)
  end.

Definition MarshalJSON {E} (bA : option BitArray) : outcome E (list ascii) :=
  match bA with
  | None => Ok null_text
  | Some b =>
      bits ← read_bits b 0 (Z.to_nat (Bits b));
      Ok (dquote :: (bit_char <$> bits) ++ [dquote])
  end.

(** [bitArrayJSONRegexp.FindStringSubmatch(b)[1]]: the whole text is a quote,
    characters [x] and [_], and a quote; the result is what the quotes enclose. *)
Definition json_match (b : list ascii) : option (list ascii) :=
  match b with
  | c :: rest =>
      match last rest with
      | Some d =>
          if bool_decide (c = dquote) && bool_decide (d = dquote)
             && forallb (fun a => bool_decide (a = "x"%char) || bool_decide (a = "_"%char))
                  (removelast rest)
          then Some (removelast rest) else None
      | None => None
      end
  | [] => None
  end.

Inductive json_error := ErrBitArrayFormat.

(** [for i := 0; i < numBits; i++ { if bits[i] == 'x' { bA2.SetIndex(i, true) } }]. *)
Fixpoint set_bits {E} (bits : list ascii) (i : Z) (bA2 : option BitArray)
  : outcome E (option BitArray) :=
  match bits with
  | [] => Ok bA2
  | c :: rest =>
      if bool_decide (c = "x"%char)
      then '(_, bA') ← SetIndex bA2 i true; set_bits rest (i + 1) bA'
      else set_bits rest (i + 1) bA2
  end.

(** The receiver's new value. *)
Definition UnmarshalJSON (bz : list ascii) : outcome json_error BitArray :=
  if bool_decide (bz = null_text) then Ok (mkBitArray 0 [])
  else match json_match bz with
       | None => Err ErrBitArrayFormat
       | Some bits =>
           let numBits := lenZ bits in
           bA2 ← set_bits bits 0 (NewBitArray numBits);
           match bA2 with
           | None => Panic (* [*bA = *bA2] through a nil pointer *)
           | Some b => Ok b
           end
       end.

(** The protobuf message [BitArray]. *)
Record BitArrayProto := mkBitArrayProto { pb_Bits : Z; pb_Elems : list Z }.

Definition ToProto (bA : option BitArray) : option BitArrayProto :=
  match bA with
  | None => None
  | Some b =>
      if bool_decide (Elems b = []) then None
      else Some (mkBitArrayProto (Bits b) (Elems b))
  end.

(** The receiver after the call: a nil message leaves it as it was. *)
Definition FromProto (bA : BitArray) (p : option BitArrayProto) : BitArray :=
  match p with
  | None => bA
  | Some p =>
      mkBitArray (pb_Bits p)
        (if bool_decide (pb_Elems p = []) then Elems bA else pb_Elems p)
  end.

(** ** The words of an array and its abstract bits *)

Definition word (bA : BitArray) (k : nat) : Z := default 0 (Elems bA !! k).

(** The abstract value: bit [i], false out of range. *)
Definition bit (bA : BitArray) (i : Z) : bool :=
  (0 <=? i) && (i <? Bits bA) && Z.testbit (word bA (Z.to_nat (i / 64))) (i mod 64).

Record wf (bA : BitArray) : Prop := {
  wf_bits : 0 < Bits bA;
  wf_len : length (Elems bA) = words (Bits bA);
  wf_elems : Forall uint64 (Elems bA)
}.

(** No bit is set past the end. *)
Definition clean (bA : BitArray) : Prop :=
  forall k j, 0 <= j < 64 -> Bits bA <= 64 * Z.of_nat k + j -> Z.testbit (word bA k) j = false.

Lemma shl1_pow j : 0 <= j < 64 -> shl1 j = 2 ^ j.
Proof. intros. unfold shl1. zcase; try lia. cbn. by rewrite Z.shiftl_1_l. Qed.

Lemma mask_testbit e j : 0 <= e -> 0 <= j < 64 -> (0 <? Z.land e (shl1 j)) = Z.testbit e j.
Proof.
  intros He Hj. rewrite shl1_pow by done.
  assert (Z.land e (2 ^ j) = if Z.testbit e j then 2 ^ j else 0) as ->.
  { apply Z.bits_inj'. intros n Hn. rewrite Z.land_spec, Z.pow2_bits_eqb by lia.
    destruct (Z.eqb_spec j n) as [->|Hne].
    - destruct (Z.testbit e n) eqn:?; [|by rewrite Z.bits_0].
      by rewrite Z.pow2_bits_true by lia.
    - rewrite andb_false_r. destruct (Z.testbit e j); [|by rewrite Z.bits_0].
      by rewrite Z.pow2_bits_false by lia. }
  destruct (Z.testbit e j); [|done]. apply Z.ltb_lt. lia.
Qed.

Lemma uint64_testbit e j : uint64 e -> 64 <= j -> Z.testbit e j = false.
Proof.
  intros [He1 He2] Hj. destruct (Z.eq_dec e 0) as [->|]; [apply Z.bits_0|].
  apply Z.bits_above_log2; [lia|].
  apply Z.log2_lt_pow2; [lia|]. unfold two64 in *.
  assert (2 ^ 64 <= 2 ^ j) by (apply Z.pow_le_mono_r; lia). lia.
Qed.

Lemma uint64_of_bits e : 0 <= e -> (forall j, 64 <= j -> Z.testbit e j = false) -> uint64 e.
Proof.
  intros He Hb. split; [done|]. destruct (Z.eq_dec e 0) as [->|]; [unfold two64; lia|].
  change two64 with (2 ^ 64). apply Z.log2_lt_pow2; [lia|].
  destruct (Z_lt_le_dec (Z.log2 e) 64) as [|Hl]; [done|].
  specialize (Hb _ Hl). rewrite Z.bit_log2 in Hb by lia. done.
Qed.

Lemma uint64_lor a b : uint64 a -> uint64 b -> uint64 (Z.lor a b).
Proof.
  intros Ha Hb. apply uint64_of_bits; [apply Z.lor_nonneg; split; [apply Ha|apply Hb]|].
  intros. rewrite Z.lor_spec, !uint64_testbit by done. done.
Qed.

Lemma uint64_land a b : uint64 a -> uint64 (Z.land a b).
Proof.
  intros Ha. apply uint64_of_bits; [apply Z.land_nonneg; left; apply Ha|].
  intros. rewrite Z.land_spec, uint64_testbit by done. done.
Qed.

Lemma uint64_ldiff a b : uint64 a -> uint64 (Z.ldiff a b).
Proof.
  intros Ha. apply uint64_of_bits; [apply Z.ldiff_nonneg; left; apply Ha|].
  intros. rewrite Z.ldiff_spec, uint64_testbit by done. done.
Qed.

Lemma ones64_testbit j : 0 <= j -> Z.testbit (two64 - 1) j = (j <? 64).
Proof.
  intros. change (two64 - 1) with (Z.ones 64). rewrite Z.testbit_ones by lia. zcase; try done; lia.
Qed.

Lemma not64_testbit e j : 0 <= j < 64 -> Z.testbit (not64 e) j = negb (Z.testbit e j).
Proof.
  intros. unfold not64. rewrite Z.lxor_spec, ones64_testbit by lia.
  zcase; [|lia]. by destruct (Z.testbit e j).
Qed.

Lemma uint64_not64 e : uint64 e -> uint64 (not64 e).
Proof.
  intros He. apply uint64_of_bits.
  { apply Z.lxor_nonneg. destruct He. unfold two64 in *. lia. }
  intros. unfold not64. rewrite Z.lxor_spec, ones64_testbit, uint64_testbit by (done || lia).
  zcase; [lia|done].
Qed.

Lemma uint64_shl1 j : uint64 (shl1 j).
Proof.
  unfold shl1. zcase; cbn; try (split; unfold two64; lia).
  rewrite Z.shiftl_1_l. split; [lia|]. change two64 with (2 ^ 64). apply Z.pow_lt_mono_r; lia.
Qed.

Lemma words_pos bits : 0 < bits -> 64 * (Z.of_nat (words bits) - 1) < bits <= 64 * Z.of_nat (words bits).
Proof.
  intros. unfold words. rewrite Z.quot_div_nonneg by lia.
  pose proof (Z.div_mod (bits + 63) 64). pose proof (Z.mod_pos_bound (bits + 63) 64).
  rewrite Z2Nat.id by (apply Z.div_pos; lia). lia.
Qed.

Lemma word_uint64 bA k : wf bA -> uint64 (word bA k).
Proof.
  intros [_ _ H]. unfold word. destruct (Elems bA !! k) eqn:E; cbn.
  - by eapply Forall_lookup_1 in H.
  - split; unfold two64; lia.
Qed.

(** In range, the word of an index exists. *)
Lemma elem_in_range bA i :
  wf bA -> 0 <= i < Bits bA ->
  Elems bA !! Z.to_nat (i / 64) = Some (word bA (Z.to_nat (i / 64))).
Proof.
  intros Hwf Hi. unfold word. destruct (Elems bA !! _) eqn:E; [done|].
  apply lookup_ge_None in E. rewrite (wf_len _ Hwf) in E.
  pose proof (words_pos _ (wf_bits _ Hwf)). pose proof (Z.div_mod i 64).
  pose proof (Z.mod_pos_bound i 64). lia.
Qed.

(** The array reads as its abstract bits. *)
Lemma getIndex_bit {E} bA i : wf bA -> 0 <= i -> getIndex (E:=E) bA i = Ok (bit bA i).
Proof.
  intros Hwf Hi. unfold getIndex, bit. zcase; try lia; [|done].
  rewrite Z.quot_div_nonneg, Z.rem_mod_nonneg by lia.
  pose proof (Z.div_pos i 64). unfold idx. zcase; [lia|].
  rewrite elem_in_range by (done || lia). cbn.
  rewrite mask_testbit; [done|by apply word_uint64|]. apply Z.mod_pos_bound. lia.
Qed.

Lemma word_upd bA es k i v :
  (i < length (Elems bA))%nat -> es = <[i := v]> (Elems bA) ->
  word (mkBitArray (Bits bA) es) k = if decide (k = i) then v else word bA k.
Proof.
  intros Hi ->. unfold word. cbn. case_decide as Hk.
  - subst. by rewrite list_lookup_insert_eq.
  - by rewrite list_lookup_insert_ne.
Qed.

(** Splitting an index into word and offset. *)
Lemma split_index i : 0 <= i -> i = 64 * Z.of_nat (Z.to_nat (i / 64)) + i mod 64 /\ 0 <= i mod 64 < 64.
Proof.
  intros. pose proof (Z.div_mod i 64). pose proof (Z.mod_pos_bound i 64). pose proof (Z.div_pos i 64). lia.
Qed.

Lemma set_testbit e j j' v :
  0 <= j < 64 -> 0 <= j' < 64 ->
  Z.testbit (if v : bool then Z.lor e (shl1 j) else Z.land e (not64 (shl1 j))) j' =
  if j' =? j then v else Z.testbit e j'.
Proof.
  intros. rewrite shl1_pow by done. destruct v.
  - rewrite Z.lor_spec, Z.pow2_bits_eqb by lia.
    destruct (Z.eqb_spec j j'), (Z.eqb_spec j' j); subst; try lia; auto using orb_true_r, orb_false_r.
  - rewrite Z.land_spec, not64_testbit, Z.pow2_bits_eqb by lia.
    destruct (Z.eqb_spec j j'), (Z.eqb_spec j' j); subst; try lia; auto using andb_false_r, andb_true_r.
Qed.

Lemma setIndex_spec {E} bA i v :
  wf bA -> 0 <= i < Bits bA ->
  exists bA', setIndex (E:=E) bA i v = Ok (true, bA') /\ wf bA' /\ Bits bA' = Bits bA /\
    (clean bA -> clean bA') /\
    forall j, bit bA' j = if j =? i then v else bit bA j.
Proof.
  intros Hwf Hi. unfold setIndex. zcase; [lia|].
  rewrite Z.quot_div_nonneg, Z.rem_mod_nonneg by lia.
  pose proof (Z.div_pos i 64). destruct (split_index i) as [Hi1 Hi2]; [lia|].
  unfold idx. zcase; [lia|]. pose proof (elem_in_range bA i Hwf Hi) as Hel. rewrite Hel. cbn [mbind outcome_bind].
  set (e' := if v then _ else _). pose proof (lookup_lt_Some _ _ _ Hel) as Hlt.
  assert (Hupd : upd (E:=E) (Elems bA) (i / 64) e' = Ok (<[Z.to_nat (i / 64) := e']> (Elems bA)))
    by (apply upd_Ok; unfold lenZ; split; [lia|done]).
  rewrite Hupd. cbn [mbind outcome_bind].
  assert (He' : forall j', 0 <= j' < 64 -> Z.testbit e' j' =
      if j' =? i mod 64 then v else Z.testbit (word bA (Z.to_nat (i / 64))) j')
    by (intros; by apply set_testbit).
  eexists; split; [done|]. cbn [Bits]. split_and!; [|done|..].
  - constructor; cbn; [apply Hwf|rewrite length_insert; apply Hwf|].
    apply Forall_insert; [apply Hwf|]. pose proof (word_uint64 bA (Z.to_nat (i / 64)) Hwf).
    destruct v; [by apply uint64_lor, uint64_shl1|by apply uint64_land].
  - intros Hc k j Hj Hge. cbn in Hge. erewrite word_upd by (exact Hlt || reflexivity).
    case_decide; [subst k|by apply Hc]. rewrite He' by done. zcase; [lia|by apply Hc].
  - intros j. unfold bit. cbn [Bits]. destruct (Z.leb_spec 0 j); cbn [andb]; [|zcase; [lia|done]].
    erewrite word_upd by (exact Hlt || reflexivity).
    destruct (split_index j) as [Hj1 Hj2]; [lia|].
    destruct (Z.ltb_spec j (Bits bA)); cbn [andb]; [|zcase; [lia|done]].
    case_decide as Hd; [rewrite He' by lia; rewrite Hd in *|]; zcase; try done; lia.
Qed.

Lemma NewBitArray_spec n bA :
  NewBitArray n = Some bA -> wf bA /\ clean bA /\ Bits bA = n /\ forall i, bit bA i = false.
Proof.
  unfold NewBitArray. zcase; [done|]. intros [= <-].
  assert (forall k, word (mkBitArray n (replicate (words n) 0)) k = 0) as Hw.
  { intros k. unfold word. cbn. destruct (_ !! k) eqn:E; [|done].
    by apply lookup_replicate in E as [-> _]. }
  split_and!; [constructor; cbn|intros ? ? ?|done|intros i]; try done.
  - by rewrite length_replicate.
  - apply Forall_replicate. split; unfold two64; lia.
  - by rewrite Hw, Z.bits_0.
  - unfold bit. rewrite Hw, Z.bits_0. apply andb_false_r.
Qed.

(** ** Word-wise operations *)

Lemma combine_upto_spec {E} f n c o :
  (n <= length c)%nat -> (n <= length o)%nat ->
  exists r, combine_upto (E:=E) f n c o = Ok r /\ length r = length c /\
    (forall k, default 0 (r !! k) =
       if bool_decide (k < n)%nat then f (default 0 (c !! k)) (default 0 (o !! k))
       else default 0 (c !! k)) /\
    (Forall uint64 c -> Forall uint64 o ->
     (forall a b, uint64 a -> uint64 b -> uint64 (f a b)) -> Forall uint64 r).
Proof.
  revert c o. induction n as [|n IH]; intros c o Hc Ho.
  { exists c. split_and!; [done|done|intros; by case_bool_decide; [lia|]|done]. }
  destruct c as [|x c], o as [|y o]; cbn in *; try lia.
  destruct (IH c o) as (r & -> & Hl & Hk & Hu); [lia..|]. cbn.
  eexists; split; [done|]. split_and!; [cbn; by rewrite Hl|..].
  - intros [|k]; cbn; [done|]. rewrite Hk. by repeat case_bool_decide; try lia.
  - intros [??]%Forall_cons [??]%Forall_cons ?. constructor; auto.
Qed.

Lemma go_copy_lookup (w : nat) (es : list Z) k :
  default 0 (go_copy (replicate w 0) es !! k) =
  if bool_decide (k < w)%nat then default 0 (es !! k) else 0.
Proof.
  unfold go_copy. rewrite length_replicate, drop_replicate.
  destruct (decide (k < length (take w es))%nat) as [H|H].
  - rewrite lookup_app_l by done. rewrite length_take in H.
    rewrite lookup_take_lt by lia. case_bool_decide; [done|lia].
  - rewrite lookup_app_r by lia. rewrite length_take in *.
    destruct (decide (k < w)%nat).
    + case_bool_decide; [|done]. rewrite (lookup_ge_None_2 es) by lia.
      destruct (_ !! _) eqn:E; [|done]. by apply lookup_replicate in E as [-> _].
    + case_bool_decide; [lia|]. destruct (_ !! _) eqn:E; [|done]. by apply lookup_replicate in E as [-> _].
Qed.

Lemma copyBits_wf bA n : wf bA -> 0 < n -> wf (copyBits bA n).
Proof.
  intros Hwf Hn. constructor; cbn; [done|..].
  - unfold go_copy. rewrite length_app, length_take, length_drop, length_replicate. lia.
  - apply Forall_app; split; [apply Forall_take, Hwf|apply Forall_drop, Forall_replicate].
    split; unfold two64; lia.
Qed.

Lemma copyBits_word bA n k :
  word (copyBits bA n) k = if bool_decide (k < words n)%nat then word bA k else 0.
Proof. unfold word. cbn. apply go_copy_lookup. Qed.

Lemma words_mono a b : 0 < a -> a <= b -> (words a <= words b)%nat.
Proof. intros. pose proof (words_pos a). pose proof (words_pos b). lia. Qed.

Lemma index_words n i : 0 <= i < n -> (Z.to_nat (i / 64) < words n)%nat.
Proof. intros. pose proof (words_pos n). destruct (split_index i); lia. Qed.

Lemma clean_bit bA i :
  clean bA -> 0 <= i -> bit bA i = Z.testbit (word bA (Z.to_nat (i / 64))) (i mod 64).
Proof.
  intros Hc Hi. unfold bit. destruct (split_index i) as [H1 H2]; [done|].
  zcase; cbn; try done; try lia. symmetry. apply Hc; lia.
Qed.

Lemma bit_in_range bA i :
  0 <= i < Bits bA -> bit bA i = Z.testbit (word bA (Z.to_nat (i / 64))) (i mod 64).
Proof. intros. unfold bit. zcase; try lia. done. Qed.

Lemma bit_out_of_range bA i : i < 0 \/ Bits bA <= i -> bit bA i = false.
Proof. intros. unfold bit. zcase; try lia; done. Qed.

Lemma word_len bA k : wf bA -> (length (Elems bA) <= k)%nat -> word bA k = 0.
Proof. intros. unfold word. by rewrite lookup_ge_None_2. Qed.

(** The bits of a result whose words are [f] of the operands' words up to
    [n] and the first operand's words beyond. *)
Lemma combine_result {E} f n (c o : BitArray) :
  wf c -> wf o -> (n <= length (Elems c))%nat -> (n <= length (Elems o))%nat ->
  (forall a b, uint64 a -> uint64 b -> uint64 (f a b)) ->
  exists r, combine_upto (E:=E) f n (Elems c) (Elems o) = Ok (Elems r) /\ wf r /\ Bits r = Bits c /\
    forall k, word r k = if bool_decide (k < n)%nat then f (word c k) (word o k) else word c k.
Proof.
  intros Hc Ho Hn1 Hn2 Hf.
  destruct (combine_upto_spec (E:=E) f n (Elems c) (Elems o)) as (r & Hr & Hl & Hk & Hu); [done..|].
  exists (mkBitArray (Bits c) r). split_and!; [done| |done|done].
  constructor; cbn; [apply Hc|rewrite Hl; apply Hc|]. apply Hu; [apply Hc|apply Ho|done].
Qed.

(** [Or] keeps the bits of the argument only in the words its receiver has. *)
Lemma Or_spec {E} a b :
  wf a -> wf b -> clean a -> clean b ->
  exists c, Or (E:=E) (Some a) (Some b) = Ok (Some c) /\ wf c /\ clean c /\
    Bits c = Z.max (Bits a) (Bits b) /\
    forall i, bit c i = bit a i || (bit b i && (i <? 64 * lenZ (Elems a))).
Proof.
  intros Ha Hb Ca Cb. pose proof (wf_bits _ Ha). pose proof (wf_bits _ Hb).
  set (m := Z.max (Bits a) (Bits b)).
  assert (Hwm := copyBits_wf a m Ha ltac:(lia)).
  pose proof (words_mono (Bits a) m ltac:(lia) ltac:(lia)). pose proof (words_mono (Bits b) m ltac:(lia) ltac:(lia)).
  destruct (combine_result (E:=E) Z.lor (Nat.min (length (Elems a)) (length (Elems b))) (copyBits a m) b)
    as (r & Hr & Hwr & Hbr & Hk); [done|done|..].
  { rewrite (wf_len _ Hwm), (wf_len _ Ha). cbn. lia. }
  { lia. }
  { apply uint64_lor. }
  assert (Hw : forall k, word r k = Z.lor (word a k) (if bool_decide (k < length (Elems a))%nat then word b k else 0)).
  { intros k. rewrite Hk, copyBits_word.
    destruct (decide (k < words m)%nat);
      [|rewrite !word_len by (try done; rewrite ?(wf_len _ Ha), ?(wf_len _ Hb); lia); by repeat case_bool_decide].
    rewrite (bool_decide_eq_true_2 (k < words m)%nat) by done.
    destruct (decide (k < length (Elems a))%nat); repeat case_bool_decide; try lia;
      rewrite ?Z.lor_0_r; try done. by rewrite (word_len b), Z.lor_0_r by (done || lia). }
  unfold Or. cbn zeta. fold m. rewrite Hr. cbn [mbind outcome_bind]. rewrite <- Hbr.
  replace (mkBitArray (Bits r) (Elems r)) with r by (by destruct r). cbn in Hbr.
  exists r. split_and!; [done|done|..].
  - intros k j Hj Hge. rewrite Hw, Z.lor_spec.
    rewrite Hbr in Hge. rewrite Ca by (done || lia).
    case_bool_decide; [|by rewrite Z.bits_0]. rewrite Cb by (done || lia). done.
  - done.
  - intros i. destruct (decide (0 <= i < m)) as [Hi|Hi].
    + rewrite bit_in_range by (rewrite Hbr; lia).
      rewrite Hw, Z.lor_spec, !clean_bit by (done || lia).
      f_equal. destruct (split_index i) as [Hi1 Hi2]; [lia|].
      case_bool_decide; zcase; unfold lenZ in *; try lia; by rewrite ?andb_true_r, ?andb_false_r, ?Z.bits_0.
    + rewrite !bit_out_of_range; try done; rewrite ?Hbr; lia.
Qed.

Lemma And_spec {E} a b :
  wf a -> wf b -> clean a -> clean b ->
  exists c, And (E:=E) (Some a) (Some b) = Ok (Some c) /\ wf c /\ clean c /\
    Bits c = Z.min (Bits a) (Bits b) /\ forall i, bit c i = bit a i && bit b i.
Proof.
  intros Ha Hb Ca Cb. pose proof (wf_bits _ Ha). pose proof (wf_bits _ Hb).
  set (m := Z.min (Bits a) (Bits b)).
  assert (Hwm := copyBits_wf a m Ha ltac:(lia)).
  pose proof (words_mono m (Bits a) ltac:(lia) ltac:(lia)). pose proof (words_mono m (Bits b) ltac:(lia) ltac:(lia)).
  destruct (combine_result (E:=E) Z.land (length (Elems (copyBits a m))) (copyBits a m) b)
    as (r & Hr & Hwr & Hbr & Hk); [done|done|lia|..].
  { rewrite (wf_len _ Hwm), (wf_len _ Hb). cbn. lia. }
  { intros. by apply uint64_land. }
  assert (Hw : forall k, word r k = if bool_decide (k < words m)%nat then Z.land (word a k) (word b k) else 0).
  { intros k. rewrite Hk, copyBits_word, (wf_len _ Hwm). cbn. by repeat case_bool_decide. }
  unfold And, and_. cbn zeta. fold m. rewrite Hr. cbn [mbind outcome_bind]. rewrite <- Hbr.
  replace (mkBitArray (Bits r) (Elems r)) with r by (by destruct r). cbn in Hbr.
  exists r. split_and!; [done|done|..].
  - intros k j Hj Hge. rewrite Hw.
    rewrite Hbr in Hge. case_bool_decide; [|apply Z.bits_0]. rewrite Z.land_spec.
    destruct (decide (Bits a <= Bits b)).
    + rewrite Ca by (done || lia). done.
    + rewrite Cb by (done || lia). apply andb_false_r.
  - done.
  - intros i. destruct (decide (0 <= i < m)) as [Hi|Hi].
    + rewrite bit_in_range by (rewrite Hbr; lia).
      rewrite Hw, bool_decide_eq_true_2 by (by apply index_words).
      by rewrite Z.land_spec, !clean_bit by (done || lia).
    + rewrite (bit_out_of_range r) by (rewrite Hbr; lia).
      destruct (decide (Bits a <= Bits b));
        [rewrite (bit_out_of_range a) by lia|rewrite (bit_out_of_range b) by lia];
        by rewrite ?andb_false_r.
Qed.

Lemma Sub_spec {E} a b :
  wf a -> wf b -> clean a -> clean b ->
  exists c, Sub (E:=E) (Some a) (Some b) = Ok (Some c) /\ wf c /\ clean c /\
    Bits c = Bits a /\ forall i, bit c i = bit a i && negb (bit b i).
Proof.
  intros Ha Hb Ca Cb. pose proof (wf_bits _ Ha). pose proof (wf_bits _ Hb).
  assert (Hwm := copyBits_wf a (Bits a) Ha ltac:(lia)).
  destruct (combine_result (E:=E) Z.ldiff (Nat.min (length (Elems a)) (length (Elems b))) (copyBits a (Bits a)) b)
    as (r & Hr & Hwr & Hbr & Hk); [done|done|..].
  { rewrite (wf_len _ Hwm), (wf_len _ Ha). cbn. lia. }
  { lia. }
  { intros. by apply uint64_ldiff. }
  assert (Hw : forall k, word r k = Z.ldiff (word a k) (word b k)).
  { intros k. rewrite Hk, copyBits_word.
    destruct (decide (k < words (Bits a))%nat); [rewrite (bool_decide_eq_true_2 (k < words _)%nat) by done|].
    - case_bool_decide; [done|]. pose proof (wf_len _ Ha).
      by rewrite (word_len b), Z.ldiff_0_r by (done || lia).
    - pose proof (wf_len _ Ha). rewrite (word_len a), Z.ldiff_0_l by (done || lia).
      repeat case_bool_decide; rewrite ?Z.ldiff_0_l; (done || lia). }
  unfold Sub. cbn zeta. rewrite Hr. cbn [mbind outcome_bind]. rewrite <- Hbr.
  replace (mkBitArray (Bits r) (Elems r)) with r by (by destruct r). cbn in Hbr.
  exists r. split_and!; [done|done|..].
  - intros k j Hj Hge. rewrite Hw, Z.ldiff_spec.
    rewrite Hbr in Hge. by rewrite Ca.
  - done.
  - intros i. destruct (decide (0 <= i < Bits a)) as [Hi|Hi].
    + rewrite bit_in_range by (rewrite Hbr; lia).
      by rewrite Hw, Z.ldiff_spec, !clean_bit by (done || lia).
    + rewrite (bit_out_of_range r), (bit_out_of_range a); try done; rewrite ?Hbr; lia.
Qed.

Lemma Not_spec a :
  wf a -> exists c, Not (Some a) = Some c /\ wf c /\ Bits c = Bits a /\
    forall i, bit c i = (0 <=? i) && (i <? Bits a) && negb (bit a i).
Proof.
  intros Ha. exists (not_ a). split_and!; [done| |done|].
  - constructor; cbn; [apply Ha|rewrite length_fmap; apply Ha|].
    apply Forall_fmap. eapply Forall_impl; [apply Ha|]. intros. by apply uint64_not64.
  - intros i. destruct (decide (0 <= i < Bits a)) as [Hi|Hi].
    + rewrite !bit_in_range by done. unfold word. cbn. rewrite list_lookup_fmap, elem_in_range by done.
      cbn. rewrite not64_testbit by (apply Z.mod_pos_bound; lia). zcase; (done || lia).
    + rewrite bit_out_of_range by (cbn; lia). zcase; (done || lia).
Qed.

(** ** Enumerating the set bits *)

Lemma omap_filter_map {A B} (P : A -> bool) (f : A -> B) (Q : B -> Prop) `{!forall x, Decision (Q x)} (l : list A) :
  (forall x, x ∈ l -> P x = true <-> Q (f x)) ->
  omap (fun j => if P j then Some (f j) else None) l = filter Q (f <$> l).
Proof.
  induction l as [|x l IH]; intros Hl; [done|]. cbn -[filter].
  rewrite filter_cons. pose proof (Hl x ltac:(left)).
  rewrite <- IH by (intros; apply Hl; by right).
  destruct (P x), (decide (Q (f x))); naive_solver.
Qed.

Lemma filter_ext_elem {A} (P Q : A -> Prop) `{!forall x, Decision (P x), !forall x, Decision (Q x)} (l : list A) :
  (forall x, x ∈ l -> P x <-> Q x) -> filter P l = filter Q l.
Proof.
  induction l as [|x l IH]; intros Hl; [done|]. rewrite !filter_cons.
  rewrite IH by (intros; apply Hl; by right). pose proof (Hl x ltac:(left)).
  repeat case_decide; naive_solver.
Qed.

(** The stored bit at an index, in range or not. *)
Definition raw (bA : BitArray) (i : Z) : bool := Z.testbit (word bA (Z.to_nat (i / 64))) (i mod 64).

Lemma raw_word bA k j : 0 <= j < 64 -> raw bA (64 * Z.of_nat k + j) = Z.testbit (word bA k) j.
Proof.
  intros. unfold raw. rewrite (Z.add_comm (64 * _)), (Z.mul_comm 64).
  rewrite Z.div_add, Z.mod_add by lia. rewrite Z.div_small, Z.mod_small by lia.
  by replace (Z.to_nat (0 + Z.of_nat k)) with k by lia.
Qed.

Lemma elem_indices_filter bA k e n :
  wf bA -> e = word bA k -> (n <= 64)%nat ->
  elem_indices e (64 * Z.of_nat k) n = filter (fun i => raw bA i = true) (seqZ (64 * Z.of_nat k) (Z.of_nat n)).
Proof.
  intros Hwf -> Hn. unfold elem_indices, seqZ. rewrite Nat2Z.id.
  rewrite (list_fmap_ext (fun i => Z.of_nat i + 64 * Z.of_nat k) (fun j => 64 * Z.of_nat k + Z.of_nat j))
    by (intros; lia).
  apply omap_filter_map. intros j Hj%elem_of_seq.
  rewrite mask_testbit by (try apply word_uint64; try done; lia). by rewrite raw_word by lia.
Qed.

Lemma true_indices_loop_spec bA es k :
  wf bA -> (forall i, (i < length es)%nat -> es !! i = Some (word bA (k + i))) ->
  true_indices_loop es (64 * Z.of_nat k) =
  (filter (fun i => raw bA i = true) (seqZ (64 * Z.of_nat k) (64 * lenZ es)),
   64 * Z.of_nat (k + length es)).
Proof.
  intros Hwf. revert k. induction es as [|e es IH]; intros k Hes; cbn [true_indices_loop length].
  { by rewrite Nat.add_0_r. }
  replace (64 * Z.of_nat k + 64) with (64 * Z.of_nat (S k)) by lia.
  rewrite IH. 2:{ intros i Hi. rewrite Nat.add_succ_comm. apply (Hes (S i)). cbn. lia. }
  assert (e = word bA k) as He.
  { specialize (Hes 0%nat ltac:(cbn; lia)). cbn in Hes. rewrite Nat.add_0_r in Hes. congruence. }
  assert ((if e =? 0 then [] else elem_indices e (64 * Z.of_nat k) 64)
          = filter (fun i => raw bA i = true) (seqZ (64 * Z.of_nat k) 64)) as ->.
  { change (seqZ ?a 64) with (seqZ a (Z.of_nat 64)). rewrite <- (elem_indices_filter bA k e) by (done || lia).
    destruct (Z.eqb_spec e 0) as [->|]; [|done]. reflexivity. }
  rewrite <- filter_app. f_equal; [|lia]. unfold lenZ. cbn [length].
  replace (64 * Z.of_nat (S (length es))) with (64 + 64 * Z.of_nat (length es)) by lia.
  rewrite seqZ_app by lia. do 3 f_equal. lia.
Qed.

(** The elements of a well-formed array: all but the last, and the last. *)
Lemma elems_split bA :
  wf bA -> exists l, last (Elems bA) = Some l /\ Elems bA = removelast (Elems bA) ++ [l] /\
    S (length (removelast (Elems bA))) = words (Bits bA) /\ l = word bA (length (removelast (Elems bA))).
Proof.
  intros Hwf. pose proof (words_pos _ (wf_bits _ Hwf)). pose proof (wf_bits _ Hwf). pose proof (wf_len _ Hwf) as Hl.
  destruct (last (Elems bA)) as [l|] eqn:El.
  2:{ apply last_None in El. rewrite El in Hl. cbn in Hl. lia. }
  exists l. apply last_Some in El as [l' El]. rewrite El, removelast_last in *.
  rewrite length_app in Hl. cbn in Hl. split_and!; [done|done|lia|].
  unfold word. rewrite El, lookup_app_r, Nat.sub_diag by lia. done.
Qed.

Lemma getTrueIndices_spec {E} bA :
  wf bA -> getTrueIndices (E:=E) bA = Ok (filter (fun i => bit bA i = true) (seqZ 0 (Bits bA))).
Proof.
  intros Hwf. destruct (elems_split bA Hwf) as (l & Hl & Hs & Hn & Hw).
  set (n := length (removelast (Elems bA))) in *.
  pose proof (words_pos _ (wf_bits _ Hwf)). unfold getTrueIndices. rewrite Hl.
  change 0 with (64 * Z.of_nat 0) at 1. rewrite (true_indices_loop_spec bA).
  2: done.
  2:{ intros i Hi. cbn. unfold word. rewrite Hs at 2. rewrite lookup_app_l by done.
      by destruct (lookup_lt_is_Some_2 _ _ Hi) as [x ->]. }
  cbn [Nat.add]. fold n. rewrite (elem_indices_filter bA n l) by (done || lia).
  rewrite <- filter_app. unfold lenZ. fold n. do 2 f_equal.
  rewrite Z2Nat.id by lia. change (64 * Z.of_nat 0) with 0.
  replace (64 * Z.of_nat n) with (0 + 64 * Z.of_nat n) at 2 by lia.
  rewrite <- seqZ_app by lia. replace (64 * Z.of_nat n + (Bits bA - 64 * Z.of_nat n)) with (Bits bA) by lia.
  apply filter_ext_elem. intros i Hi%elem_of_seqZ. by rewrite bit_in_range by lia.
Qed.

Lemma PickRandom_spec {E} intn bA :
  wf bA -> (forall n, 0 < n -> 0 <= intn n < n) ->
  exists i ok, PickRandom (E:=E) intn (Some bA) = Ok (i, ok) /\
    if ok then bit bA i = true else forall j, bit bA j = false.
Proof.
  intros Hwf Hr. unfold PickRandom. rewrite getTrueIndices_spec by done. cbn [mbind outcome_bind].
  set (l := filter _ _). destruct (Z.eqb_spec (lenZ l) 0) as [Hz|Hz].
  - exists 0, false. split; [done|]. intros j. destruct (bit bA j) eqn:Ej; [|done].
    assert (j ∈ l) as Hj.
    { apply list_elem_of_filter. split; [done|]. apply elem_of_seqZ.
      unfold bit in Ej. zcase_in Ej; done || lia. }
    unfold lenZ in Hz. destruct l; [by apply elem_of_nil in Hj|done].
  - specialize (Hr (lenZ l)). unfold lenZ in *.
    destruct (lookup_lt_is_Some_2 l (Z.to_nat (intn (Z.of_nat (length l))))) as [x Hx]; [lia|].
    exists x, true. assert (idx (E:=E) l (intn (Z.of_nat (length l))) = Ok x) as ->
      by (apply idx_Ok; split; [lia|done]).
    split; [done|]. apply list_elem_of_lookup_2, list_elem_of_filter in Hx. tauto.
Qed.

(** ** [IsFull] *)

Lemma low_ones_full n x :
  0 < n <= 64 -> uint64 x ->
  (Z.land (wrapu64 (x + 1)) (wrapu64 (shl1 n - 1)) =? 0) = true <->
  forall j, 0 <= j < n -> Z.testbit x j = true.
Proof.
  intros Hn [Hx0 Hx1]. assert (wrapu64 (shl1 n - 1) = Z.ones n) as ->.
  { destruct (Z.eq_dec n 64) as [->|]; [done|]. rewrite shl1_pow by lia.
    rewrite Z.ones_equiv, Z.sub_1_r. apply wrapu64_id. split; [|].
    - assert (0 < 2 ^ n) by lia. lia.
    - assert (2 ^ n < 2 ^ 64) by (apply Z.pow_lt_mono_r; lia). unfold two64. lia. }
  rewrite Z.land_ones, Z.eqb_eq by lia. unfold wrapu64, two64.
  replace 18446744073709551616 with (2 ^ (64 - n) * 2 ^ n)
    by (rewrite <- Z.pow_add_r by lia; replace (64 - n + n) with 64 by lia; done).
  assert (Hmod : forall y, (y mod (2 ^ (64 - n) * 2 ^ n)) mod 2 ^ n = y mod 2 ^ n).
  { intros y. apply Z.mod_mod_divide. by exists (2 ^ (64 - n)). }
  rewrite Hmod.
  assert (Hp : 0 < 2 ^ n) by lia.
  pose proof (Z.mod_pos_bound x (2 ^ n) Hp) as Hb. pose proof (Z.div_mod x (2 ^ n) ltac:(lia)) as Hd.
  assert ((x + 1) mod 2 ^ n = 0 <-> x mod 2 ^ n = Z.ones n) as ->.
  { rewrite Z.ones_equiv. rewrite <- Z.add_mod_idemp_l by lia.
    destruct (Z.eq_dec (x mod 2 ^ n) (2 ^ n - 1)) as [->|].
    - replace (2 ^ n - 1 + 1) with (2 ^ n) by lia. rewrite Z.mod_same by lia. lia.
    - rewrite Z.mod_small by lia. lia. }
  split.
  - intros Heq j Hj. assert (Z.testbit (x mod 2 ^ n) j = true) as Hbit
      by (rewrite Heq, Z.testbit_ones by lia; zcase; (done || lia)).
    rewrite Z.mod_pow2_bits_low in Hbit by lia. done.
  - intros Hall. apply Z.bits_inj'. intros j Hj. rewrite Z.testbit_ones by lia.
    zcase; try lia.
    + rewrite Z.mod_pow2_bits_low by lia. apply Hall. lia.
    + by rewrite Z.mod_pow2_bits_high by lia.
Qed.

Lemma not64_zero e : uint64 e -> (not64 e =? 0) = true <-> forall j, 0 <= j < 64 -> Z.testbit e j = true.
Proof.
  intros He. rewrite Z.eqb_eq. split.
  - intros H j Hj. assert (Z.testbit (not64 e) j = false) as Hb by (by rewrite H, Z.bits_0).
    rewrite not64_testbit in Hb by done. by destruct (Z.testbit e j).
  - intros H. apply Z.bits_inj'. intros j Hj. rewrite Z.bits_0.
    destruct (decide (j < 64)); [rewrite not64_testbit, H by lia; done|].
    apply uint64_testbit; [by apply uint64_not64|lia].
Qed.

Lemma IsFull_spec {E} bA :
  wf bA -> exists r, IsFull (E:=E) (Some bA) = Ok r /\
    (r = true <-> forall i, 0 <= i < Bits bA -> bit bA i = true).
Proof.
  intros Hwf. destruct (elems_split bA Hwf) as (l & Hl & Hs & Hn & Hw).
  set (n := length (removelast (Elems bA))) in *.
  pose proof (words_pos _ (wf_bits _ Hwf)) as Hwp. pose proof (wf_bits _ Hwf).
  assert (Hrem : 0 < Z.rem (Bits bA + 63) 64 + 1 <= 64 /\ Bits bA = 64 * Z.of_nat n + (Z.rem (Bits bA + 63) 64 + 1)).
  { rewrite Z.rem_mod_nonneg by lia. pose proof (Z.mod_pos_bound (Bits bA + 63) 64).
    pose proof (Z.div_mod (Bits bA + 63) 64).
    assert ((Bits bA + 63) / 64 = Z.of_nat (S n)); [|lia].
    rewrite Hn. unfold words. rewrite Z.quot_div_nonneg by lia. rewrite Z2Nat.id; [done|]. apply Z.div_pos; lia. }
  assert (Hlast : (Z.land (wrapu64 (l + 1)) (wrapu64 (shl1 (Z.rem (Bits bA + 63) 64 + 1) - 1)) =? 0) = true
    <-> forall i, 64 * Z.of_nat n <= i < Bits bA -> bit bA i = true).
  { rewrite low_ones_full by (tauto || (rewrite Hw; by apply word_uint64)). split.
    - intros Hj i Hi. rewrite bit_in_range by lia.
      replace i with (64 * Z.of_nat n + (i - 64 * Z.of_nat n)) by lia.
      change (raw bA (64 * Z.of_nat n + (i - 64 * Z.of_nat n)) = true).
      rewrite raw_word, <- Hw by lia. apply Hj. lia.
    - intros Hi j Hj. specialize (Hi (64 * Z.of_nat n + j) ltac:(lia)). rewrite bit_in_range in Hi by lia.
      change (raw bA (64 * Z.of_nat n + j) = true) in Hi. by rewrite raw_word, <- Hw in Hi by lia. }
  assert (Hinit : forallb (fun e => not64 e =? 0) (removelast (Elems bA)) = true
    <-> forall i, 0 <= i < 64 * Z.of_nat n -> bit bA i = true).
  { rewrite forallb_forall. split.
    - intros Hall i Hi. destruct (split_index i) as [Hi1 Hi2]; [lia|]. rewrite bit_in_range by lia.
      destruct (lookup_lt_is_Some_2 (removelast (Elems bA)) (Z.to_nat (i / 64))) as [e He]; [lia|].
      specialize (Hall e). rewrite not64_zero in Hall.
      + unfold word. rewrite Hs, lookup_app_l, He by lia. apply Hall; [|lia].
        by eapply list_elem_of_In, list_elem_of_lookup_2.
      + pose proof (wf_elems _ Hwf) as HF. rewrite Hs in HF. apply Forall_app in HF as [HF _].
        by eapply Forall_lookup_1.
    - intros Hb e [k Hk]%list_elem_of_In%list_elem_of_lookup_1. apply lookup_lt_Some in Hk as Hlt.
      assert (word bA k = e) as <- by (unfold word; rewrite Hs, lookup_app_l, Hk by done; done).
      apply not64_zero; [by apply word_uint64|]. intros j Hj. rewrite <- raw_word by done.
      specialize (Hb (64 * Z.of_nat k + j) ltac:(lia)). by rewrite bit_in_range in Hb by lia. }
  unfold IsFull. rewrite Hl. destruct (forallb _ _).
  - eexists; split; [done|]. rewrite Hlast. split; [|intros Hb i Hi; apply Hb; lia].
    intros Hl2 i Hi. destruct (decide (i < 64 * Z.of_nat n)); [apply Hinit; [done|lia]|apply Hl2; lia].
  - exists false. split; [done|]. split; [done|]. intros Hb. apply Hinit. intros. apply Hb. lia.
Qed.

(** ** JSON *)

(** Two clean arrays with the same bits are the same structure. *)
Lemma bits_ext a b :
  wf a -> wf b -> clean a -> clean b -> Bits a = Bits b ->
  (forall i, 0 <= i < Bits a -> bit a i = bit b i) -> a = b.
Proof.
  intros Ha Hb Ca Cb HB Hbits.
  assert (Hw : forall k, word a k = word b k).
  { intros k. apply Z.bits_inj'. intros j Hj.
    destruct (decide (j < 64)); [|rewrite !uint64_testbit by (try apply word_uint64; done || lia); done].
    destruct (decide (64 * Z.of_nat k + j < Bits a)).
    - specialize (Hbits (64 * Z.of_nat k + j) ltac:(lia)). rewrite !bit_in_range in Hbits by lia.
      change (raw a (64 * Z.of_nat k + j) = raw b (64 * Z.of_nat k + j)) in Hbits.
      by rewrite !raw_word in Hbits by lia.
    - rewrite Ca, Cb by (done || lia). done. }
  destruct a as [na ea], b as [nb eb]. cbn in HB. subst nb. f_equal. apply list_eq. intros k.
  specialize (Hw k). unfold word in Hw. cbn in Hw. pose proof (wf_len _ Ha). pose proof (wf_len _ Hb). cbn in *.
  destruct (decide (k < words na)%nat).
  - destruct (lookup_lt_is_Some_2 ea k) as [? E1]; [lia|]. destruct (lookup_lt_is_Some_2 eb k) as [? E2]; [lia|].
    rewrite E1, E2 in *. by cbn in Hw; subst.
  - rewrite !lookup_ge_None_2 by lia. done.
Qed.

Lemma read_bits_spec {E} bA i n :
  wf bA -> 0 <= i -> read_bits (E:=E) bA i n = Ok (bit bA <$> seqZ i (Z.of_nat n)).
Proof.
  intros Hwf. revert i. induction n as [|n IH]; intros i Hi; [done|]. cbn [read_bits].
  rewrite getIndex_bit by done. cbn [mbind outcome_bind]. rewrite IH by lia. cbn [mbind outcome_bind].
  rewrite (seqZ_cons i (Z.of_nat (S n))) by lia. rewrite <- Z.add_1_r.
  do 2 f_equal. rewrite fmap_cons. by replace (Z.pred (Z.of_nat (S n))) with (Z.of_nat n) by lia.
Qed.

Lemma set_bits_spec {E} bits i bA :
  wf bA -> clean bA -> 0 <= i -> i + lenZ bits <= Bits bA ->
  exists bA', set_bits (E:=E) bits i (Some bA) = Ok (Some bA') /\ wf bA' /\ clean bA' /\ Bits bA' = Bits bA /\
    (forall j, j < i -> bit bA' j = bit bA j) /\
    (forall (k : nat) c, bits !! k = Some c ->
       bit bA' (i + Z.of_nat k) = bool_decide (c = "x"%char) || bit bA (i + Z.of_nat k)).
Proof.
  revert i bA. induction bits as [|c bits IH]; intros i bA Hwf Hc Hi Hn; cbn [set_bits].
  { exists bA. split_and!; done. }
  unfold lenZ in Hn. cbn [length] in Hn.
  assert (exists bA1, (if bool_decide (c = "x"%char)
      then '(_, bA') ← SetIndex (E:=E) (Some bA) i true; set_bits bits (i + 1) bA'
      else set_bits bits (i + 1) (Some bA)) = set_bits bits (i + 1) (Some bA1) /\
      wf bA1 /\ clean bA1 /\ Bits bA1 = Bits bA /\
      forall j, bit bA1 j = (bool_decide (c = "x"%char) && (j =? i)) || bit bA j)
    as (bA1 & -> & Hwf1 & Hc1 & HB1 & Hb1).
  { case_bool_decide.
    - destruct (setIndex_spec (E:=E) bA i true) as (b & Hs & ? & ? & Hcl & Hbit); [done|lia|].
      exists b. cbn. rewrite Hs. cbn. split_and!; auto.
    - exists bA. done. }
  destruct (IH (i + 1) bA1) as (b & -> & ? & ? & HB & Hlo & Hhi); [done|done|lia|unfold lenZ; lia|].
  exists b. split_and!; try done; [lia|..].
  - intros j Hj. rewrite Hlo, Hb1 by lia. zcase; [lia|]. by rewrite andb_false_r.
  - intros [|k] c' Hk; cbn in Hk.
    + simplify_eq. rewrite Hlo, Hb1 by lia. zcase; [|lia]. by rewrite andb_true_r.
    + replace (i + Z.of_nat (S k)) with (i + 1 + Z.of_nat k) by lia. rewrite (Hhi _ c') by done.
      rewrite Hb1. zcase; [lia|]. by rewrite andb_false_r.
Qed.

Lemma json_match_marshal bs :
  json_match (dquote :: (bit_char <$> bs) ++ [dquote]) = Some (bit_char <$> bs).
Proof.
  unfold json_match. rewrite last_snoc, removelast_last. cbn [andb].
  rewrite !bool_decide_eq_true_2 by done. cbn [andb].
  assert (forallb (fun a => bool_decide (a = "x"%char) || bool_decide (a = "_"%char)) (bit_char <$> bs) = true) as ->; [|done].
  apply forallb_forall. intros a Ha%list_elem_of_In. apply list_elem_of_fmap in Ha as (b & -> & _). by destruct b.
Qed.

Lemma json_roundtrip_spec b :
  wf b -> clean b ->
  exists t, MarshalJSON (E:=json_error) (Some b) = Ok t /\ UnmarshalJSON t = Ok b.
Proof.
  intros Hwf Hc. pose proof (wf_bits _ Hwf). unfold MarshalJSON. rewrite read_bits_spec by (done || lia).
  rewrite Z2Nat.id by lia. cbn [mbind outcome_bind].
  set (bs := bit b <$> seqZ 0 (Bits b)).
  assert (Hlen : lenZ (bit_char <$> bs) = Bits b).
  { unfold lenZ, bs. rewrite !length_fmap, length_seqZ. lia. }
  eexists; split; [done|]. unfold UnmarshalJSON.
  rewrite bool_decide_eq_false_2 by (intros [=]). rewrite json_match_marshal, Hlen. cbn zeta.
  destruct (NewBitArray (Bits b)) as [b0|] eqn:E; [|unfold NewBitArray in E; zcase_in E; done || lia].
  apply NewBitArray_spec in E as (Hwf0 & Hc0 & HB0 & Hb0).
  destruct (set_bits_spec (E:=json_error) (bit_char <$> bs) 0 b0) as (b' & -> & Hwf' & Hc' & HB' & _ & Hhi);
    [done|done|lia|lia|]. cbn. f_equal.
  apply bits_ext; auto; [lia|]. intros i Hi. replace i with (0 + Z.of_nat (Z.to_nat i)) by lia.
  rewrite (Hhi _ (bit_char (bit b i))).
  - rewrite Hb0, orb_false_r. replace (0 + Z.of_nat (Z.to_nat i)) with i by lia. by destruct (bit b i).
  - unfold bs. rewrite !list_lookup_fmap. rewrite lookup_seqZ_lt by lia. cbn.
    by replace (0 + Z.of_nat (Z.to_nat i)) with i by lia.
Qed.

(** ** Properties *)

(** A small array for the witnesses: five bits, the second one set. *)
Definition sample : BitArray := mkBitArray 5 [2].

Lemma sample_wf : wf sample.
Proof. constructor; [done|done|]. repeat constructor; unfold two64; lia. Qed.

Lemma sample_clean : clean sample.
Proof.
  intros k j Hj Hge. destruct k as [|[|k]]; cbn in *; [|apply Z.bits_0..].
  apply Z.bits_above_log2; cbn; lia.
Qed.

(** Setting an index in range succeeds and keeps the array well formed;
    afterwards that index reads the value set and every other index reads what
    it read before, out of range included. *)
Theorem SetIndex_GetIndex bA i v :
  wf bA -> 0 <= i < Bits bA ->
  exists bA', SetIndex (E:=unit) (Some bA) i v = Ok (true, Some bA') /\ wf bA' /\ Bits bA' = Bits bA /\
    forall j, 0 <= j ->
      GetIndex (E:=unit) (Some bA') j = if j =? i then Ok v else GetIndex (Some bA) j.
Proof.
  intros Hwf Hi. destruct (setIndex_spec (E:=unit) bA i v) as (b & Hs & Hw & HB & _ & Hb); [done..|].
  exists b. cbn. rewrite Hs. split_and!; [done..|]. intros j Hj.
  rewrite !getIndex_bit, Hb by done. by destruct (j =? i).
Qed.

Lemma SetIndex_GetIndex_witness :
  exists bA', SetIndex (E:=unit) (Some sample) 3 true = Ok (true, Some bA') /\ wf bA' /\ Bits bA' = 5 /\
    forall j, 0 <= j ->
      GetIndex (E:=unit) (Some bA') j = if j =? 3 then Ok true else GetIndex (Some sample) j.
Proof. apply (SetIndex_GetIndex sample 3 true sample_wf). cbn. lia. Defined.

(** On well-formed arrays without stray bits, [And] and [Sub] are the
    pointwise operations with the shorter array padded by zeroes, [Not] flips
    every bit in range, and [Or] is the pointwise or only for the indices that
    fall in the words of its receiver: the argument's bits beyond them are lost. *)
Theorem bit_operations_pointwise a b :
  wf a -> wf b -> clean a -> clean b ->
  (exists c, And (E:=unit) (Some a) (Some b) = Ok (Some c) /\ wf c /\ clean c /\
     Bits c = Z.min (Bits a) (Bits b) /\ forall i, bit c i = bit a i && bit b i) /\
  (exists c, Sub (E:=unit) (Some a) (Some b) = Ok (Some c) /\ wf c /\ clean c /\
     Bits c = Bits a /\ forall i, bit c i = bit a i && negb (bit b i)) /\
  (exists c, Not (Some a) = Some c /\ wf c /\ Bits c = Bits a /\
     forall i, bit c i = (0 <=? i) && (i <? Bits a) && negb (bit a i)) /\
  (exists c, Or (E:=unit) (Some a) (Some b) = Ok (Some c) /\ wf c /\ clean c /\
     Bits c = Z.max (Bits a) (Bits b) /\
     forall i, bit c i = bit a i || (bit b i && (i <? 64 * lenZ (Elems a)))).
Proof. intros. split_and!; auto using And_spec, Sub_spec, Not_spec, Or_spec. Qed.

Lemma bit_operations_pointwise_witness :
  exists c, Or (E:=unit) (Some sample) (Some sample) = Ok (Some c) /\ bit c 1 = true.
Proof.
  destruct (bit_operations_pointwise sample sample sample_wf sample_wf sample_clean sample_clean)
    as (_ & _ & _ & c & Hc & _ & _ & _ & Hb).
  exists c. split; [exact Hc|]. rewrite Hb. reflexivity.
Defined.

(** The receiver of [Or] decides how many words are combined.  A one-bit
    receiver and a 65-bit argument with bit 64 set give a 65-bit array in which
    bit 64 is clear, where the comment on [Or] promises zero padding of the
    smaller operand. *)
Theorem Or_drops_high_words :
  exists o c,
    SetIndex (E:=unit) (NewBitArray 65) 64 true = Ok (true, o) /\
    Or (E:=unit) (NewBitArray 1) o = Ok c /\ Size c = 65 /\
    GetIndex (E:=unit) o 64 = Ok true /\ GetIndex (E:=unit) c 64 = Ok false.
Proof. do 2 eexists. split_and!; vm_compute; reflexivity. Qed.

(** [getTrueIndices] lists exactly the set bits in increasing order, so
    [PickRandom] never panics, returns a set bit when there is one and reports
    none otherwise, for every random source that honours the range of [Intn];
    [IsFull] holds exactly when every bit in range is set. *)
Theorem true_indices_exact bA (intn : Z -> Z) :
  wf bA -> (forall n, 0 < n -> 0 <= intn n < n) ->
  getTrueIndices (E:=unit) bA = Ok (filter (fun i => bit bA i = true) (seqZ 0 (Bits bA))) /\
  (exists i ok, PickRandom (E:=unit) intn (Some bA) = Ok (i, ok) /\
     if ok then bit bA i = true else forall j, bit bA j = false) /\
  (exists r, IsFull (E:=unit) (Some bA) = Ok r /\
     (r = true <-> forall i, 0 <= i < Bits bA -> bit bA i = true)).
Proof. intros. split_and!; auto using getTrueIndices_spec, PickRandom_spec, IsFull_spec. Qed.

Lemma true_indices_exact_witness : getTrueIndices (E:=unit) sample = Ok [1].
Proof.
  rewrite (proj1 (true_indices_exact sample (fun _ => 0) sample_wf ltac:(lia))). reflexivity.
Defined.

(** The JSON text of an array reads back as the same array; the text of
    an array of length zero, which the format's pattern accepts, makes
    [UnmarshalJSON] dereference the nil array [NewBitArray(0)]. *)
Theorem json_roundtrip b :
  wf b -> clean b ->
  (exists t, MarshalJSON (E:=json_error) (Some b) = Ok t /\ UnmarshalJSON t = Ok b) /\
  json_match [dquote; dquote] = Some [] /\ UnmarshalJSON [dquote; dquote] = Panic.
Proof. intros. split; [by apply json_roundtrip_spec|done]. Qed.

Lemma json_roundtrip_witness :
  exists t, MarshalJSON (E:=json_error) (Some sample) = Ok t /\ UnmarshalJSON t = Ok sample.
Proof. apply (json_roundtrip sample sample_wf sample_clean). Defined.
