(* ===== verification/SafeMath.v ===== *)
(** * Checked integer arithmetic

    - src/libs/math/math.go and src/libs/math/safemath.go;
    - the [safe*] functions at the end of src/types/validator_set.go.

    Every [int64] and [int32] operation of the source is written with its
    wrap-around, so that a missed overflow would be visible. *)

From Stdlib Require Import ZArith Lia.
From stdpp Require Import prelude.
From S2P Require Import Prelude.

Local Open Scope Z_scope.
Local Open Scope go_scope.

(** ** src/libs/math *)

Definition MaxInt64 (a b : Z) : Z := if b <? a then a else b.
Definition MaxInt (a b : Z) : Z := if b <? a then a else b.
Definition MinInt64 (a b : Z) : Z := if a <? b then a else b.
Definition MinInt (a b : Z) : Z := if a <? b then a else b.

(** A panic is [Panic]. *)
Definition SafeAddInt32 {E} (a b : Z) : outcome E Z :=
  if (0 <? b) && (wrap32 (int32_max - b) <? a) then Panic
  else if (b <? 0) && (a <? wrap32 (int32_min - b)) then Panic
  else Ok (wrap32 (a + b)).

Definition SafeSubInt32 {E} (a b : Z) : outcome E Z :=
  if (0 <? b) && (a <? wrap32 (int32_min + b)) then Panic
  else if (b <? 0) && (wrap32 (int32_max + b) <? a) then Panic
  else Ok (wrap32 (a - b)).

Definition SafeConvertInt32 {E} (a : Z) : outcome E Z :=
  if int32_max <? a then Panic else if a <? int32_min then Panic else Ok (wrap32 a).

Inductive math_error := ErrOverflowUint8 | ErrOverflowInt8.

Definition SafeConvertUint8 (a : Z) : outcome math_error Z :=
  if 255 <? a then Err ErrOverflowUint8 else if a <? 0 then Err ErrOverflowUint8 else Ok a.

Definition SafeConvertInt8 (a : Z) : outcome math_error Z :=
  if 127 <? a then Err ErrOverflowInt8 else if a <? -128 then Err ErrOverflowInt8 else Ok a.

(** A fraction of two [uint64]. *)
Record Fraction := mkFraction { Numerator : Z; Denominator : Z }.

(** ** src/types/validator_set.go *)

(** The value and the overflow flag. *)
Definition safeAdd (a b : Z) : Z * bool :=
  if (0 <? b) && (int64_max -i64 b <? a) then (-1, true)
  else if (b <? 0) && (a <? int64_min -i64 b) then (-1, true)
  else (a +i64 b, false).

Definition safeSub (a b : Z) : Z * bool :=
  if (0 <? b) && (a <? int64_min +i64 b) then (-1, true)
  else if (b <? 0) && (int64_max +i64 b <? a) then (-1, true)
  else (a -i64 b, false).

Definition safeAddClip (a b : Z) : Z :=
  let '(c, overflow) := safeAdd a b in
  if overflow then if b <? 0 then int64_min else int64_max else c.

Definition safeSubClip (a b : Z) : Z :=
  let '(c, overflow) := safeSub a b in
  if overflow then if 0 <? b then int64_min else int64_max else c.

(** The quotient is only reached with a non-zero divisor. *)
Definition safeMul (a b : Z) : Z * bool :=
  if (a =? 0) || (b =? 0) then (0, false)
  else
    let absOfB := if b <? 0 then wrap64 (- b) else b in
    let absOfA := if a <? 0 then wrap64 (- a) else a in
    if int64_max /i64 absOfB <? absOfA then (0, true) else (a *i64 b, false).

(** ** Lemmas *)

Definition clip (x : Z) : Z := Z.max int64_min (Z.min int64_max x).

Lemma safeAddClip_clip a b : int64 a -> int64 b -> safeAddClip a b = clip (a + b).
Proof.
  intros Ha Hb. unfold safeAddClip, safeAdd, clip. unfold_ints.
  zcase; wrapped; rewrite ?Z.mod_small in * by lia; zcase; try lia.
Qed.

Lemma safeSubClip_clip a b : int64 a -> int64 b -> safeSubClip a b = clip (a - b).
Proof.
  intros Ha Hb. unfold safeSubClip, safeSub, clip. unfold_ints.
  zcase; wrapped; rewrite ?Z.mod_small in * by lia; zcase; try lia.
Qed.

Lemma clip_id x : int64 x -> clip x = x.
Proof. unfold clip. unfold_ints. lia. Qed.

Lemma safeAddClip_exact a b : int64 a -> int64 b -> int64 (a + b) -> safeAddClip a b = a + b.
Proof. intros. rewrite safeAddClip_clip by done. by apply clip_id. Qed.

Lemma safeSubClip_exact a b : int64 a -> int64 b -> int64 (a - b) -> safeSubClip a b = a - b.
Proof. intros. rewrite safeSubClip_clip by done. by apply clip_id. Qed.

Lemma safeAddClip_range a b : int64 a -> int64 b -> int64 (safeAddClip a b).
Proof. intros. rewrite safeAddClip_clip by done. unfold clip. unfold_ints. lia. Qed.

Lemma safeSubClip_range a b : int64 a -> int64 b -> int64 (safeSubClip a b).
Proof. intros. rewrite safeSubClip_clip by done. unfold clip. unfold_ints. lia. Qed.

#[export] Hint Resolve safeAddClip_range safeSubClip_range : go.

Lemma div_lt_mul m a b : 0 < b -> m / b < a <-> m < a * b.
Proof.
  intros Hb. split; intros H.
  - destruct (Z_lt_le_dec m (a * b)) as [|Hc]; [done|].
    assert (a <= m / b) by (apply Z.div_le_lower_bound; lia). lia.
  - apply Z.div_lt_upper_bound; lia.
Qed.

Lemma safeMul_exact a b :
  int64 a -> int64 b -> a <> int64_min -> b <> int64_min ->
  safeMul a b = if Z.abs (a * b) <=? int64_max then (a * b, false) else (0, true).
Proof.
  intros Ha Hb Na Nb. unfold safeMul.
  destruct (Z.eqb_spec a 0) as [->|Ha0]; [reflexivity|].
  destruct (Z.eqb_spec b 0) as [->|Hb0]; [rewrite Z.mul_0_r; reflexivity|]. cbn [orb].
  assert ((if b <? 0 then wrap64 (- b) else b) = Z.abs b) as ->
    by (zcase; wrapped; unfold_ints; lia).
  assert ((if a <? 0 then wrap64 (- a) else a) = Z.abs a) as ->
    by (zcase; wrapped; unfold_ints; lia).
  rewrite Z.quot_div_nonneg by (unfold_ints; lia).
  rewrite wrap64_id.
  2:{ assert (0 <= int64_max / Z.abs b <= int64_max).
      { split; [apply Z.div_pos; unfold_ints; lia|].
        apply Z.div_le_upper_bound; unfold_ints; nia. }
      unfold_ints. lia. }
  rewrite Z.abs_mul. zcase.
  - apply div_lt_mul in H; [|lia]. lia.
  - done.
  - rewrite wrap64_id; [done|]. assert (Hm := Z.abs_mul a b). unfold_ints. lia.
  - assert (int64_max / Z.abs b < Z.abs a) by (apply div_lt_mul; lia). lia.
Qed.

(** ** Properties *)

(** The clipped sums and differences are the exact ones brought into the
    range of [int64]; [safeMul] returns the exact product when it fits and
    flags an overflow otherwise, for every pair of arguments but the smallest
    [int64]; for that one an overflowing product is returned unflagged. *)
Theorem safe_arithmetic a b :
  int64 a -> int64 b ->
  safeAddClip a b = clip (a + b) /\ safeSubClip a b = clip (a - b) /\
  (a <> int64_min -> b <> int64_min ->
   safeMul a b = if Z.abs (a * b) <=? int64_max then (a * b, false) else (0, true)) /\
  safeMul int64_min 2 = (0, false).
Proof.
  intros. split_and!; auto using safeAddClip_clip, safeSubClip_clip, safeMul_exact.
Qed.

Lemma safe_arithmetic_witness : safeMul 3037000500 3037000500 = (0, true).
Proof.
  rewrite (proj1 (proj2 (proj2 (safe_arithmetic 3037000500 3037000500
    ltac:(unfold_ints; lia) ltac:(unfold_ints; lia)))) ltac:(discriminate) ltac:(discriminate)).
  reflexivity.
Defined.
