(* ===== verification/Crypto.v ===== *)
(** * Keys and signatures

    - src/crypto/tmhash/hash.go, the public keys of src/crypto/ed25519,
      src/crypto/secp256k1, src/crypto/sr25519, src/crypto/bls and
      src/crypto/composite;
    - [GetSignatureKey] of src/types/block.go.

    The hash functions and the curve libraries the packages call are the
    operations of the class [CryptoLib]; what those packages do around them
    (length checks, aggregation, the composite key) is defined here. *)

From Stdlib Require Import ZArith Lia.
From stdpp Require Import prelude list.
From S2P Require Import Prelude.

Local Open Scope Z_scope.

(** ** Third-party libraries *)

Class CryptoLib := {
  sha256 : bytes -> bytes;
  ripemd160 : bytes -> bytes;
  sha512_256 : bytes -> bytes;
  ed25519_Verify : bytes -> bytes -> bytes -> bool;
  (** btcec: whether the key parses, half the order, and the ECDSA check. *)
  secp256k1_ParsePubKey : bytes -> bool;
  secp256k1_halfN : Z;
  secp256k1_Verify : bytes -> bytes -> bytes -> bool;
  (** schnorrkel: decoding of keys and signatures, and the check. *)
  sr25519_DecodeKey : bytes -> bool;
  sr25519_DecodeSig : bytes -> bool;
  sr25519_Verify : bytes -> bytes -> bytes -> bool;
  (** herumi/bls: signatures and public keys are curve points. *)
  BlsSign : Type;
  BlsPublicKey : Type;
  bls_Sign_zero : BlsSign;
  bls_Sign_Deserialize : bytes -> option BlsSign;
  bls_Sign_Serialize : BlsSign -> bytes;
  bls_Sign_Add : BlsSign -> BlsSign -> BlsSign;
  bls_PublicKey_Deserialize : bytes -> option BlsPublicKey;
  bls_VerifyHash : BlsSign -> BlsPublicKey -> bytes -> bool;
  bls_VerifyAggregateHashes : BlsSign -> list BlsPublicKey -> list bytes -> bool
}.

(** ** Public keys *)

(** The dynamic types of [crypto.PubKey]; the payload is the key's bytes. *)
Inductive PubKey :=
| PubKeyEd25519 (key : bytes)
| PubKeySecp256k1 (key : bytes)
| PubKeySr25519 (key : bytes)
| PubKeyBls (key : bytes)
| PubKeyComposite (SignKey VrfKey : PubKey).

#[global] Instance PubKey_eq_dec : EqDecision PubKey.
Proof. solve_decision. Defined.

Definition ed25519_PubKeySize : nat := 32.
Definition ed25519_SignatureSize : nat := 64.
Definition secp256k1_PubKeySize : nat := 33.
Definition bls_SignatureSize : nat := 96.
Definition MaxSignatureSize : nat := Nat.max ed25519_SignatureSize bls_SignatureSize.
Definition AddressSize : nat := 20.
Definition tmhash_Size : nat := 32.

(** The message a library may report; only that there is one matters. *)
Inductive bls_error :=
| ErrBlsAggregateSize | ErrBlsSize | ErrBlsDeserialize
| ErrBlsCountMismatch | ErrBlsOmitted | ErrBlsVerify.

(** [big.Int.SetBytes]: big-endian. *)
Definition be_int (b : bytes) : Z := foldl (fun acc x => 256 * acc + x) 0 b.

Section crypto.
  Context `{CryptoLib}.

Definition SumTruncated (bz : bytes) : bytes := take AddressSize (sha256 bz).

Fixpoint PubKey_Bytes (pk : PubKey) : bytes :=
  match pk with
  | PubKeyEd25519 k | PubKeySecp256k1 k | PubKeySr25519 k | PubKeyBls k => k
  | PubKeyComposite s v => PubKey_Bytes s ++ PubKey_Bytes v
  end.

Definition ed25519_Address {E} (k : bytes) : outcome E bytes :=
  if bool_decide (length k <> ed25519_PubKeySize) then Panic else Ok (SumTruncated k).

Definition secp256k1_Address {E} (k : bytes) : outcome E bytes :=
  if bool_decide (length k <> secp256k1_PubKeySize) then Panic else Ok (ripemd160 (sha256 k)).

Definition sr25519_Address (k : bytes) : bytes := SumTruncated k.

Definition bls_Address (k : bytes) : bytes := SumTruncated k.

Definition composite_Address (pk : PubKey) : bytes := SumTruncated (PubKey_Bytes pk).

(** The method of the key's dynamic type. *)
Definition PubKey_Address {E} (pk : PubKey) : outcome E bytes :=
  match pk with
  | PubKeyEd25519 k => ed25519_Address k
  | PubKeySecp256k1 k => secp256k1_Address k
  | PubKeySr25519 k => Ok (sr25519_Address k)
  | PubKeyBls k => Ok (bls_Address k)
  | PubKeyComposite _ _ => Ok (composite_Address pk)
  end.

Definition ed25519_VerifySignature (k msg sig : bytes) : bool :=
  if bool_decide (length sig <> ed25519_SignatureSize) then false else ed25519_Verify k msg sig.

Definition secp256k1_VerifySignature (k msg sig : bytes) : bool :=
  if bool_decide (length sig <> 64%nat) then false
  else if negb (secp256k1_ParsePubKey k) then false
  else if secp256k1_halfN <? be_int (drop 32 sig) then false
  else secp256k1_Verify k (sha256 msg) sig.

(** The key is copied into an array of 32 bytes first. *)
Definition sr25519_VerifySignature (k msg sig : bytes) : bool :=
  let p := take 32 (k ++ replicate 32 0) in
  if bool_decide (length sig <> 64%nat) then false
  else if negb (sr25519_DecodeKey p) then false
  else if negb (sr25519_DecodeSig sig) then false
  else sr25519_Verify p msg sig.

Definition bls_VerifySignature (k msg sig : bytes) : bool :=
  if bool_decide (length sig <> bls_SignatureSize) then false
  else match bls_PublicKey_Deserialize k with
       | None => false
       | Some blsPubKey =>
           match bls_Sign_Deserialize sig with
           | None => false
           | Some blsSign => bls_VerifyHash blsSign blsPubKey (sha512_256 msg)
           end
       end.

Fixpoint VerifySignature (pk : PubKey) (msg sig : bytes) : bool :=
  match pk with
  | PubKeyEd25519 k => ed25519_VerifySignature k msg sig
  | PubKeySecp256k1 k => secp256k1_VerifySignature k msg sig
  | PubKeySr25519 k => sr25519_VerifySignature k msg sig
  | PubKeyBls k => bls_VerifySignature k msg sig
  | PubKeyComposite s _ => VerifySignature s msg sig
  end.

(** ** Aggregated signatures *)

(** [init] is a slice that may be nil. *)
Definition AddSignature (init : option bytes) (signature : bytes) : outcome bls_error bytes :=
  init ← match init with
         | None => Ok (bls_Sign_Serialize bls_Sign_zero)
         | Some i => if bool_decide (length i <> bls_SignatureSize) then Err ErrBlsAggregateSize else Ok i
         end;
  if bool_decide (length signature <> bls_SignatureSize) then Err ErrBlsSize
  else match bls_Sign_Deserialize signature with
       | None => Err ErrBlsDeserialize
       | Some blsSign =>
           match bls_Sign_Deserialize init with
           | None => Err ErrBlsDeserialize
           | Some aggrBLSSign => Ok (bls_Sign_Serialize (bls_Sign_Add aggrBLSSign blsSign))
           end
       end.

(** The keys are the raw keys of [bls.PubKey]. *)
Definition VerifyAggregatedSignature (aggregatedSignature : option bytes)
    (pubKeys : list bytes) (msgs : list bytes) : outcome bls_error unit :=
  if bool_decide (length pubKeys <> length msgs) then Err ErrBlsCountMismatch
  else match aggregatedSignature with
       | None => if bool_decide (pubKeys = []) then Ok tt else Err ErrBlsOmitted
       | Some sig =>
           match bls_Sign_Deserialize sig with
           | None => Err ErrBlsDeserialize
           | Some aggrSign =>
               match mapM bls_PublicKey_Deserialize pubKeys with
               | None => Err ErrBlsDeserialize
               | Some blsPubKeys =>
                   if bls_VerifyAggregateHashes aggrSign blsPubKeys (sha512_256 <$> msgs)
                   then Ok tt else Err ErrBlsVerify
               end
           end
       end.

End crypto.

(** [GetSignatureKey]: the BLS key below any number of composite keys. *)
Fixpoint GetSignatureKey (pubKey : PubKey) : option bytes :=
  match pubKey with
  | PubKeyComposite s _ => GetSignatureKey s
  | PubKeyBls k => Some k
  | _ => None
  end.

(** ** A toy instance

    Additive checksums stand for the curves: a signature of [msg] under [k] is
    the sum of their bytes, and aggregation adds.  The witnesses run on it. *)

Definition checksum (b : bytes) : Z := foldr Z.add 0 b mod 251.

Definition toy_sign (k msg : bytes) : bytes := checksum (k ++ msg) :: replicate 63 0.

Definition toy_crypto : CryptoLib := {|
  sha256 b := take 32 (checksum b :: b ++ replicate 32 0);
  ripemd160 b := take 20 (b ++ replicate 20 0);
  sha512_256 b := b;
  ed25519_Verify k m s := bytes_eqb s (toy_sign k m);
  secp256k1_ParsePubKey _ := false;
  secp256k1_halfN := 0;
  secp256k1_Verify _ _ _ := false;
  sr25519_DecodeKey _ := false;
  sr25519_DecodeSig _ := false;
  sr25519_Verify _ _ _ := false;
  BlsSign := Z;
  BlsPublicKey := bytes;
  bls_Sign_zero := 0;
  bls_Sign_Deserialize b := head b;
  bls_Sign_Serialize s := s :: replicate 95 0;
  bls_Sign_Add a b := (a + b) mod 251;
  bls_PublicKey_Deserialize b := Some b;
  bls_VerifyHash s k m := s =? checksum (k ++ m);
  bls_VerifyAggregateHashes s ks ms := s =? checksum (concat ks ++ concat ms)
|}.
