(* ===== verification/Rand.v ===== *)
(** * Weighted deterministic sampling: src/libs/rand/sampling.go

    A candidate is any type with a [Priority], the interface [Candidate]; the
    seed is threaded where the code updates it through a pointer. *)

From Stdlib Require Import ZArith Lia.
From stdpp Require Import prelude list sorting.
From S2P Require Import Prelude.

Local Open Scope Z_scope.
Local Open Scope go_scope.

Definition uint64Mask : Z := 0x7FFFFFFFFFFFFFFF.
Definition divider : Z := uint64Mask + 1.

(** SplitMix64: the random value and the advanced state. *)
Definition nextRandom (rand : Z) : Z * Z :=
  let rand := rand +u64 0x9e3779b97f4a7c15 in
  let z := rand in
  let z := Z.lxor z (Z.shiftr z 30) *u64 0xbf58476d1ce4e5b9 in
  let z := Z.lxor z (Z.shiftr z 27) *u64 0x94d049bb133111eb in
  (Z.lxor z (Z.shiftr z 31), rand).

(** The threshold and the advanced seed; [a.Div] on non-negative integers. *)
Definition RandomThreshold (seed total : Z) : Z * Z :=
  let '(r, seed) := nextRandom seed in
  let a := Z.land r uint64Mask in
  (wrapu64 (a * total / divider), seed).

(** The interface [Candidate]. *)
Class Candidate (C : Type) := Priority : C -> Z.

Inductive sampling_error := ErrCandidatesEmpty | ErrPriorityZero | ErrPriorityMismatch.

Section sampling.
  Context {C : Type} `{!Candidate C}.

Definition totalPriorityOf (candidates : list C) : Z :=
  foldl (fun acc c => acc +u64 Priority c) 0 candidates.

Definition checkInvalidPriority (candidates : list C) (totalPriority : Z) : outcome sampling_error unit :=
  let actualTotalPriority := totalPriorityOf candidates in
  if bool_decide (candidates = []) then Err ErrCandidatesEmpty
  else if (totalPriority =? 0) || (actualTotalPriority =? 0) then Err ErrPriorityZero
  else if negb (actualTotalPriority =? totalPriority) then Err ErrPriorityMismatch
  else Ok tt.

Fixpoint draw_thresholds (seed totalPriority : Z) (n : nat) : list Z :=
  match n with
  | O => []
  | S n' => let '(t, seed) := RandomThreshold seed totalPriority in t :: draw_thresholds seed totalPriority n'
  end.

(** The inner loop: how many thresholds the candidate whose cumulative
    priority ends at [upto] takes, and the thresholds left. *)
Fixpoint take_below (upto : Z) (thresholds : list Z) : nat * list Z :=
  match thresholds with
  | [] => (O, [])
  | t :: rest =>
      if t <? upto then let '(n, r) := take_below upto rest in (S n, r) else (O, thresholds)
  end.

(** The outer loop; running out of candidates is the final panic. *)
Fixpoint sample_loop {E} (candidates : list C) (thresholds : list Z) (cumulativePriority : Z)
  : outcome E (list C) :=
  match candidates with
  | [] => Panic
  | candidate :: rest =>
      let upto := cumulativePriority +u64 Priority candidate in
      let '(n, undrawn) := take_below upto thresholds in
      if bool_decide (undrawn = []) then Ok (replicate n candidate)
      else r ← sample_loop rest undrawn upto; Ok (replicate n candidate ++ r)
  end.

(** [thresholds[0]] panics for a sample size of zero, [make] for a negative one. *)
Definition RandomSamplingWithPriority {E} (seed : Z) (candidates : list C) (sampleSize totalPriority : Z)
  : outcome E (list C) :=
  match checkInvalidPriority candidates totalPriority with
  | Ok _ =>
      if sampleSize <=? 0 then Panic
      else
        let thresholds := draw_thresholds seed totalPriority (Z.to_nat sampleSize) in
        sample_loop candidates (merge_sort Z.le thresholds) 0
  | _ => Panic
  end.

(** ** Lemmas *)

Lemma nextRandom_range r v r' : nextRandom r = (v, r') -> 0 <= v.
Proof.
  unfold nextRandom. intros [= <- _]. apply Z.lxor_nonneg.
  set (z := wrapu64 _). pose proof (wrapu64_range (Z.lxor (wrapu64 (Z.lxor (wrapu64 (r + 0x9e3779b97f4a7c15))
    (Z.shiftr (wrapu64 (r + 0x9e3779b97f4a7c15)) 30) * 0xbf58476d1ce4e5b9))
    (Z.shiftr (wrapu64 (Z.lxor (wrapu64 (r + 0x9e3779b97f4a7c15))
    (Z.shiftr (wrapu64 (r + 0x9e3779b97f4a7c15)) 30) * 0xbf58476d1ce4e5b9)) 27) * 0x94d049bb133111eb)) as Hz.
  fold z in Hz. destruct Hz as [Hz _]. split; intros _; [by apply Z.shiftr_nonneg|done].
Qed.

(** A threshold is below the total it is drawn for. *)
Lemma RandomThreshold_range seed total t seed' :
  0 < total < two64 -> RandomThreshold seed total = (t, seed') -> 0 <= t < total.
Proof.
  intros Ht. unfold RandomThreshold. destruct (nextRandom seed) as [r s] eqn:E.
  apply nextRandom_range in E. intros [= <- _].
  assert (0 <= Z.land r uint64Mask < divider) as Ha.
  { change uint64Mask with (Z.ones 63). rewrite Z.land_ones by lia.
    change divider with (2 ^ 63). apply Z.mod_pos_bound. lia. }
  assert (0 <= Z.land r uint64Mask * total / divider < total) as Hd.
  { split; [apply Z.div_pos; [nia|done]|]. apply Z.div_lt_upper_bound; [done|]. nia. }
  rewrite wrapu64_id; [done|]. unfold uint64. lia.
Qed.

Lemma draw_thresholds_range seed total n :
  0 < total < two64 -> Forall (fun t => 0 <= t < total) (draw_thresholds seed total n).
Proof.
  intros Ht. revert seed. induction n as [|n IH]; intros seed; cbn; [constructor|].
  destruct (RandomThreshold seed total) as [t s] eqn:E. constructor; [by eapply RandomThreshold_range|apply IH].
Qed.

Lemma draw_thresholds_length seed total n : length (draw_thresholds seed total n) = n.
Proof.
  revert seed. induction n as [|n IH]; intros seed; cbn; [done|].
  destruct (RandomThreshold seed total). cbn. by rewrite IH.
Qed.

Definition sumPriority (l : list C) : Z := Zsum (Priority <$> l).

Lemma totalPriorityOf_sum l acc :
  Forall (fun c => 0 <= Priority c) l -> 0 <= acc -> acc + sumPriority l < two64 ->
  foldl (fun acc c => acc +u64 Priority c) acc l = acc + sumPriority l.
Proof.
  intros Hl. revert acc. induction Hl as [|c l Hc Hl IH]; intros acc Ha Hs; cbn; unfold sumPriority in *; cbn in *; [lia|].
  pose proof (Zsum_nonneg (Priority <$> l)) as Hn. rewrite Forall_fmap in Hn. specialize (Hn Hl).
  rewrite wrapu64_id by (split; lia). rewrite IH by lia. lia.
Qed.

Lemma take_below_spec upto ths :
  StronglySorted Z.le ths ->
  exists n, take_below upto ths = (n, drop n ths) /\ (n <= length ths)%nat /\
    Forall (fun t => t < upto) (take n ths) /\ Forall (fun t => upto <= t) (drop n ths).
Proof.
  induction 1 as [|t l Hl IH Ht]; cbn; [by exists 0%nat|].
  destruct (Z.ltb_spec t upto).
  - destruct IH as (n & -> & Hn & Hf & Hd). exists (S n). cbn. split_and!; [done|lia|by constructor|done].
  - exists 0%nat. cbn. split_and!; [done|lia|constructor|]. constructor; [done|].
    eapply Forall_impl; [exact Ht|]. cbn. lia.
Qed.

(** [c] is the candidate of [cands] whose half-open interval of cumulative
    priority, starting at [cum], contains [t]. *)
Definition covers (cands : list C) (cum : Z) (c : C) (t : Z) : Prop :=
  exists pre post, cands = pre ++ c :: post /\
    cum + sumPriority pre <= t < cum + sumPriority pre + Priority c.

Lemma sample_loop_spec {E} cands ths cum :
  StronglySorted Z.le ths -> ths <> [] ->
  Forall (fun c => 0 <= Priority c) cands -> 0 <= cum -> cum + sumPriority cands < two64 ->
  Forall (fun t => cum <= t < cum + sumPriority cands) ths ->
  exists samples, sample_loop (E:=E) cands ths cum = Ok samples /\ Forall2 (covers cands cum) samples ths.
Proof.
  revert ths cum. induction cands as [|c cands IH]; intros ths cum Hs Hne Hp Hc Htot Hths.
  { destruct ths as [|t ths]; [done|]. apply Forall_cons in Hths as [Ht _]. cbn in Ht. lia. }
  apply Forall_cons in Hp as [Hpc Hp].
  assert (Hn : 0 <= sumPriority cands) by (apply Zsum_nonneg, Forall_fmap; exact Hp).
  change (sumPriority (c :: cands)) with (Priority c + sumPriority cands) in *.
  cbn [sample_loop]. rewrite wrapu64_id by (split; lia).
  destruct (take_below_spec (cum + Priority c) ths Hs) as (n & -> & Hnl & Hlow & Hhigh).
  assert (Hfirst : Forall2 (covers (c :: cands) cum) (replicate n c) (take n ths)).
  { apply Forall2_replicate_l; [by rewrite length_take; lia|].
    apply Forall_forall. intros t Ht. exists [], cands. split; [done|]. cbn.
    rewrite Forall_forall in Hlow, Hths. specialize (Hlow t Ht).
    assert (t ∈ ths) as Hin by (rewrite <- (take_drop n ths); apply elem_of_app; by left).
    specialize (Hths t Hin). cbn. lia. }
  case_bool_decide as Hd.
  { eexists; split; [done|]. apply (f_equal length) in Hd. rewrite length_drop in Hd. cbn in Hd.
    by rewrite take_ge in Hfirst by lia. }
  destruct (IH (drop n ths) (cum + Priority c)) as (r & -> & Hr).
  { rewrite <- (take_drop n ths) in Hs. by apply StronglySorted_app_1_r in Hs. }
  { done. } { done. } { lia. } { lia. }
  { rewrite Forall_forall in Hhigh, Hths |- *. intros t Ht. specialize (Hhigh t Ht).
    assert (t ∈ ths) as Hin by (rewrite <- (take_drop n ths); apply elem_of_app; by right).
    specialize (Hths t Hin). lia. }
  cbn. eexists; split; [done|]. rewrite <- (take_drop n ths) at 1. apply Forall2_app; [done|].
  eapply Forall2_impl; [exact Hr|]. intros x t (pre & post & -> & Hx).
  exists (c :: pre), post. split; [done|].
  change (sumPriority (c :: pre)) with (Priority c + sumPriority pre). lia.
Qed.

Lemma checkInvalidPriority_ok cands :
  Forall (fun c => 0 <= Priority c) cands -> 0 < sumPriority cands < two64 ->
  checkInvalidPriority cands (sumPriority cands) = Ok tt.
Proof.
  intros Hp Hs. unfold checkInvalidPriority, totalPriorityOf.
  rewrite totalPriorityOf_sum by (done || lia).
  destruct cands; [cbn in Hs; lia|]. rewrite bool_decide_eq_false_2 by done. zcase; done || lia.
Qed.

Lemma sampling_spec {E} seed cands n :
  Forall (fun c => 0 <= Priority c) cands -> 0 < sumPriority cands < two64 -> 0 < n ->
  exists samples, RandomSamplingWithPriority (E:=E) seed cands n (sumPriority cands) = Ok samples /\
    Forall2 (covers cands 0) samples (merge_sort Z.le (draw_thresholds seed (sumPriority cands) (Z.to_nat n))).
Proof.
  intros Hp Hs Hn. unfold RandomSamplingWithPriority. rewrite checkInvalidPriority_ok by done.
  zcase; [lia|]. apply sample_loop_spec; try done; try lia.
  - apply StronglySorted_merge_sort; apply _.
  - intros Hnil. assert (Hl : length (merge_sort Z.le (draw_thresholds seed (sumPriority cands) (Z.to_nat n))) = Z.to_nat n)
      by (rewrite merge_sort_Permutation; apply draw_thresholds_length).
    rewrite Hnil in Hl. cbn in Hl. lia.
  - rewrite merge_sort_Permutation. eapply Forall_impl; [by apply draw_thresholds_range|]. cbn. lia.
Qed.

End sampling.

(** ** Properties *)

#[local] Instance Candidate_Z : Candidate Z := fun z => z.

(** With the exact total of non-negative priorities, not all zero, the
    sampling never panics and returns as many samples as asked for; each sample
    is the candidate whose interval of cumulative priority contains the
    corresponding threshold, so a candidate of priority zero is never drawn. *)
Theorem sampling_total {C} `{!Candidate C} (seed n : Z) (cands : list C) :
  Forall (fun c => 0 <= Priority c) cands -> 0 < sumPriority cands < two64 -> 0 < n ->
  exists samples,
    RandomSamplingWithPriority (E:=unit) seed cands n (sumPriority cands) = Ok samples /\
    lenZ samples = n /\
    Forall2 (covers cands 0) samples
      (merge_sort Z.le (draw_thresholds seed (sumPriority cands) (Z.to_nat n))) /\
    Forall (fun c => c ∈ cands /\ 0 < Priority c) samples.
Proof.
  intros Hp Hs Hn. destruct (sampling_spec (E:=unit) seed cands n Hp Hs Hn) as (l & Hl & Hc).
  exists l. split_and!; [done| |done|].
  - apply Forall2_length in Hc. unfold lenZ. rewrite Hc, merge_sort_Permutation, draw_thresholds_length. lia.
  - eapply Forall2_Forall_l; [exact Hc|]. apply Forall_forall. intros t _ c (pre & post & -> & Ht).
    split; [apply elem_of_app; right; left|lia].
Qed.

Lemma sampling_total_witness :
  exists samples, RandomSamplingWithPriority (E:=unit) 7 [3; 0; 5] 2 8 = Ok samples /\ lenZ samples = 2.
Proof.
  destruct (sampling_total 7 2 [3; 0; 5]) as (l & Hl & Hn & _).
  - repeat constructor; discriminate.
  - split; reflexivity.
  - reflexivity.
  - exists l. split; [exact Hl|exact Hn].
Defined.
