(* ===== verification/Validator.v ===== *)
(** * Validators: src/types/validator.go

    The structure, its basic validation, and the comparison of proposer
    priorities. *)

From Stdlib Require Import ZArith Lia.
From stdpp Require Import prelude list.
From S2P Require Import Prelude Crypto.

Local Open Scope Z_scope.

(** A nil public key is [None]. *)
Record Validator := mkValidator {
  Address : bytes;
  vPubKey : option PubKey;
  VotingPower : Z;
  VotingWeight : Z;
  ProposerPriority : Z
}.

#[global] Instance Validator_eq_dec : EqDecision Validator.
Proof. solve_decision. Defined.

Definition set_power (v : Validator) (p : Z) : Validator :=
  mkValidator (Address v) (vPubKey v) p (VotingWeight v) (ProposerPriority v).
Definition set_weight (v : Validator) (w : Z) : Validator :=
  mkValidator (Address v) (vPubKey v) (VotingPower v) w (ProposerPriority v).
Definition set_priority (v : Validator) (p : Z) : Validator :=
  mkValidator (Address v) (vPubKey v) (VotingPower v) (VotingWeight v) p.

Definition NewValidator `{CryptoLib} {E} (pubKey : PubKey) (votingPower : Z) : outcome E Validator :=
  addr ← PubKey_Address pubKey; Ok (mkValidator addr (Some pubKey) votingPower 0 0).

Inductive validator_error :=
| ErrNilValidator | ErrNoPubKey | ErrNegativePower | ErrAddressSize.

Definition ValidateBasic (v : option Validator) : outcome validator_error unit :=
  match v with
  | None => Err ErrNilValidator
  | Some v =>
      if bool_decide (vPubKey v = None) then Err ErrNoPubKey
      else if VotingPower v <? 0 then Err ErrNegativePower
      else if bool_decide (length (Address v) <> AddressSize) then Err ErrAddressSize
      else Ok tt
  end.

(** Which of the two the method returns: [true] for the receiver. *)
Definition CompareProposerPriority {E} (v : option Validator) (other : Validator) : outcome E bool :=
  match v with
  | None => Ok false
  | Some v =>
      if ProposerPriority other <? ProposerPriority v then Ok true
      else if ProposerPriority v <? ProposerPriority other then Ok false
      else match bytes_compare (Address v) (Address other) with
           | Lt => Ok true
           | Gt => Ok false
           | Eq => Panic
           end
  end.
