(* ===== verification/ValidatorSet.v ===== *)
(** * The validator set: src/types/validator_set.go

    Definitions only; the theorems are in [ValidatorSetUpdate] and
    [ValidatorSetPriority].  A set is the code's slice of validators and its
    cached total.  The validators are pointers owned by the set: the methods
    that mutate them are functions from the old slice to the new one, and the
    one place where a method keeps a pointer into the slice
    ([getValWithMostPriority]) returns the element's position. *)

From Stdlib Require Import ZArith Lia.
From stdpp Require Import prelude list sorting.
From S2P Require Import Prelude Crypto SafeMath Rand Validator.

Local Open Scope Z_scope.
Local Open Scope go_scope.

Definition MaxTotalVotingPower : Z := Z.quot int64_max 8.
Definition MaxTotalVotingWeight : Z := MaxTotalVotingPower + 1000.
Definition PriorityWindowSizeFactor : Z := 2.

Record ValidatorSet := mkValidatorSet { Validators : list Validator; totalVotingPower : Z }.

Definition set_validators (vals : ValidatorSet) (l : list Validator) : ValidatorSet :=
  mkValidatorSet l (totalVotingPower vals).

(** ** Sorting

    [sort.Sort] and [sort.Slice] reorder a slice so that no element is less
    than one before it; the order of elements that compare equal is not
    specified.  Where the code sorts, the keys are distinct, or the result does
    not depend on the order of ties (see [ValidatorSetUpdate]). *)

Definition not_after {A} (less : A -> A -> bool) (a b : A) : Prop := less b a = false.

#[global] Instance not_after_dec {A} (less : A -> A -> bool) : RelDecision (not_after less).
Proof. intros a b. unfold not_after. apply _. Defined.

Fixpoint insert_by {A} (less : A -> A -> bool) (x : A) (l : list A) : list A :=
  match l with
  | [] => [x]
  | y :: l' => if less y x then y :: insert_by less x l' else x :: l
  end.

Definition sort_by {A} (less : A -> A -> bool) (l : list A) : list A := foldr (insert_by less) [] l.

(** [ValidatorsByAddress.Less]. *)
Definition less_by_address (a b : Validator) : bool := bytes_ltb (Address a) (Address b).

(** [ValidatorsByVotingPower.Less]. *)
Definition less_by_power (a b : Validator) : bool :=
  if VotingPower a =? VotingPower b then bytes_ltb (Address a) (Address b)
  else VotingPower b <? VotingPower a.

(** ** Lookups *)

Definition IsNilOrEmpty (vals : ValidatorSet) : bool := bool_decide (Validators vals = []).

Definition HasAddress (vals : ValidatorSet) (address : bytes) : bool :=
  existsb (fun val => bytes_eqb (Address val) address) (Validators vals).

Fixpoint find_address (l : list Validator) (address : bytes) (i : Z) : Z * option Validator :=
  match l with
  | [] => (-1, None)
  | val :: rest =>
      if bytes_eqb (Address val) address then (wrap32 i, Some val)
      else find_address rest address (i + 1)
  end.

Definition GetByAddress (vals : ValidatorSet) (address : bytes) : Z * option Validator :=
  find_address (Validators vals) address 0.

Definition GetByIndex (vals : ValidatorSet) (index : Z) : option (bytes * Validator) :=
  if (index <? 0) || (lenZ (Validators vals) <=? index) then None
  else (fun val => (Address val, val)) <$> (Validators vals !! Z.to_nat index).

Definition Size (vals : ValidatorSet) : Z := lenZ (Validators vals).

Inductive valset_error :=
| ErrSetEmpty
| ErrInvalidValidator (e : validator_error)
| ErrDuplicateEntry
| ErrNegativeVotingPower
| ErrVotingPowerTooHigh
| ErrDeletesNotAllowed
| ErrWouldBeEmpty
| ErrFailedToFind
| ErrTotalVotingPowerOverflow.

Fixpoint validate_all (l : list Validator) : outcome valset_error unit :=
  match l with
  | [] => Ok tt
  | v :: rest =>
      match ValidateBasic (Some v) with
      | Ok _ => validate_all rest
      | Err e => Err (ErrInvalidValidator e)
      | Panic => Panic
      end
  end.

Definition ValidateBasicSet (vals : ValidatorSet) : outcome valset_error unit :=
  if IsNilOrEmpty vals then Err ErrSetEmpty else validate_all (Validators vals).

(** ** Total voting power *)

Fixpoint sum_power {E} (l : list Validator) (sum : Z) : outcome E Z :=
  match l with
  | [] => Ok sum
  | val :: rest =>
      let sum := safeAddClip sum (VotingPower val) in
      if MaxTotalVotingPower <? sum then Panic else sum_power rest sum
  end.

Definition updateTotalVotingPower {E} (vals : ValidatorSet) : outcome E ValidatorSet :=
  sum ← sum_power (Validators vals) 0; Ok (mkValidatorSet (Validators vals) sum).

(** The value and the set with its cache filled. *)
Definition TotalVotingPower {E} (vals : ValidatorSet) : outcome E (Z * ValidatorSet) :=
  vals ← (if totalVotingPower vals =? 0 then updateTotalVotingPower vals else Ok vals);
  Ok (totalVotingPower vals, vals).

(** ** Proposer priorities *)

Definition min_max_priority (l : list Validator) : Z * Z :=
  foldl (fun '(mn, mx) v =>
           (if ProposerPriority v <? mn then ProposerPriority v else mn,
            if mx <? ProposerPriority v then ProposerPriority v else mx))
    (int64_max, int64_min) l.

Definition computeMaxMinPriorityDiff {E} (vals : ValidatorSet) : outcome E Z :=
  if IsNilOrEmpty vals then Panic
  else
    let '(mn, mx) := min_max_priority (Validators vals) in
    let diff := mx -i64 mn in
    Ok (if diff <? 0 then -1 *i64 diff else diff).

(** [val.ProposerPriority /= ratio] panics on a zero ratio. *)
Definition RescalePriorities {E} (vals : ValidatorSet) (diffMax : Z) : outcome E ValidatorSet :=
  if IsNilOrEmpty vals then Panic
  else if diffMax <=? 0 then Ok vals
  else
    diff ← computeMaxMinPriorityDiff vals;
    let ratio := (wrap64 (diff +i64 diffMax - 1)) /i64 diffMax in
    if diffMax <? diff then
      if ratio =? 0 then Panic
      else Ok (set_validators vals
                 ((fun val => set_priority val (ProposerPriority val /i64 ratio)) <$> Validators vals))
    else Ok vals.

(** [big.Int.Div] is the Euclidean quotient, the floor for a positive divisor. *)
Definition computeAvgProposerPriority {E} (vals : ValidatorSet) : outcome E Z :=
  let n := lenZ (Validators vals) in
  let sum := foldl Z.add 0 (ProposerPriority <$> Validators vals) in
  if n =? 0 then Panic
  else let avg := sum / n in
       if bool_decide (int64 avg) then Ok avg else Panic.

Definition shiftByAvgProposerPriority {E} (vals : ValidatorSet) : outcome E ValidatorSet :=
  if IsNilOrEmpty vals then Panic
  else
    avg ← computeAvgProposerPriority vals;
    Ok (set_validators vals
          ((fun val => set_priority val (safeSubClip (ProposerPriority val) avg)) <$> Validators vals)).

(** The position of the validator with most priority. *)
Fixpoint most_priority_loop {E} (l : list Validator) (i : nat) (res : option (nat * Validator))
  : outcome E (option (nat * Validator)) :=
  match l with
  | [] => Ok res
  | val :: rest =>
      keep ← CompareProposerPriority (snd <$> res) val;
      most_priority_loop rest (S i) (if keep : bool then res else Some (i, val))
  end.

Definition getValWithMostPriority {E} (vals : ValidatorSet) : outcome E (option (nat * Validator)) :=
  most_priority_loop (Validators vals) 0 None.

(** The set and the position of the validator that was decremented; reading
    the priority of a nil result panics. *)
Definition incrementProposerPriority {E} (vals : ValidatorSet) : outcome E (ValidatorSet * nat) :=
  let vals := set_validators vals
    ((fun val => set_priority val (safeAddClip (ProposerPriority val) (VotingPower val))) <$> Validators vals) in
  mostest ← getValWithMostPriority vals;
  match mostest with
  | None => Panic
  | Some (i, m) =>
      '(total, vals) ← TotalVotingPower vals;
      Ok (set_validators vals
            (<[i := set_priority m (safeSubClip (ProposerPriority m) total)]> (Validators vals)), i)
  end.

Fixpoint increment_times {E} (n : nat) (vals : ValidatorSet) : outcome E ValidatorSet :=
  match n with
  | O => Ok vals
  | S n' => '(vals, _) ← incrementProposerPriority vals; increment_times n' vals
  end.

Definition IncrementProposerPriority {E} (vals : ValidatorSet) (times : Z) : outcome E ValidatorSet :=
  if IsNilOrEmpty vals then Panic
  else if times <=? 0 then Panic
  else
    '(total, vals) ← TotalVotingPower vals;
    let diffMax := PriorityWindowSizeFactor *i64 total in
    vals ← RescalePriorities vals diffMax;
    vals ← shiftByAvgProposerPriority vals;
    increment_times (Z.to_nat times) vals.

(** A deep copy, so the receiver stays as it was. *)
Definition CopyIncrementProposerPriority {E} (vals : ValidatorSet) (times : Z) : outcome E ValidatorSet :=
  IncrementProposerPriority vals times.

(** ** Applying changes *)

(** The scan over the changes sorted by address; [prevAddr] starts nil, which
    [bytes.Equal] identifies with the empty address. *)
Fixpoint scan_changes (changes : list Validator) (prevAddr : bytes) (updates removals : list Validator)
  : outcome valset_error (list Validator * list Validator) :=
  match changes with
  | [] => Ok (updates, removals)
  | valUpdate :: rest =>
      if bytes_eqb (Address valUpdate) prevAddr then Err ErrDuplicateEntry
      else if VotingPower valUpdate <? 0 then Err ErrNegativeVotingPower
      else if MaxTotalVotingPower <? VotingPower valUpdate then Err ErrVotingPowerTooHigh
      else if VotingPower valUpdate =? 0
      then scan_changes rest (Address valUpdate) updates (removals ++ [valUpdate])
      else scan_changes rest (Address valUpdate) (updates ++ [valUpdate]) removals
  end.

Definition processChanges (origChanges : list Validator)
  : outcome valset_error (list Validator * list Validator) :=
  scan_changes (sort_by less_by_address origChanges) [] [] [].

(** [delta] of [verifyUpdates]. *)
Definition delta (vals : ValidatorSet) (update : Validator) : Z :=
  match snd (GetByAddress vals (Address update)) with
  | Some val => VotingPower update -i64 VotingPower val
  | None => VotingPower update
  end.

Fixpoint add_deltas (vals : ValidatorSet) (updates : list Validator) (tvpAfterRemovals : Z)
  : outcome valset_error Z :=
  match updates with
  | [] => Ok tvpAfterRemovals
  | upd :: rest =>
      let tvp := tvpAfterRemovals +i64 delta vals upd in
      if MaxTotalVotingPower <? tvp then Err ErrTotalVotingPowerOverflow
      else add_deltas vals rest tvp
  end.

(** Reads the set's total, which fills its cache. *)
Definition verifyUpdates (updates : list Validator) (removedPower : Z) : GoM ValidatorSet valset_error Z :=
  fun vals =>
    match TotalVotingPower vals with
    | Ok (total, vals) =>
        match add_deltas vals (sort_by (fun a b => delta vals a <? delta vals b) updates)
                (total -i64 removedPower) with
        | Ok tvpAfterRemovals => (Ok (tvpAfterRemovals +i64 removedPower), vals)
        | Err e => (Err e, vals)
        | Panic => (Panic, vals)
        end
    | Err e => (Err e, vals)
    | Panic => (Panic, vals)
    end.

Definition numNewValidators (updates : list Validator) (vals : ValidatorSet) : Z :=
  lenZ (filter (fun valUpdate => HasAddress vals (Address valUpdate) = false) updates).

Definition computeNewPriorities (updates : list Validator) (vals : ValidatorSet)
    (updatedTotalVotingPower : Z) : list Validator :=
  (fun valUpdate =>
     match snd (GetByAddress vals (Address valUpdate)) with
     | None => set_priority valUpdate
                 (wrap64 (- (updatedTotalVotingPower +i64 Z.shiftr updatedTotalVotingPower 3)))
     | Some val => set_priority valUpdate (ProposerPriority val)
     end) <$> updates.

(** The merge of [applyUpdates] on the two sorted slices. *)
Fixpoint merge_updates (existing : list Validator) : list Validator -> list Validator :=
  fix go (updates : list Validator) : list Validator :=
    match existing, updates with
    | [], _ => updates
    | _, [] => existing
    | e :: existing', u :: updates' =>
        if bytes_ltb (Address e) (Address u) then e :: merge_updates existing' updates
        else if bytes_eqb (Address e) (Address u) then u :: merge_updates existing' updates'
        else u :: go updates'
    end.

Definition applyUpdates (vals : ValidatorSet) (updates : list Validator) : ValidatorSet :=
  set_validators vals (merge_updates (sort_by less_by_address (Validators vals)) updates).

Fixpoint sum_removed (vals : ValidatorSet) (deletes : list Validator) (removedVotingPower : Z)
  : outcome valset_error Z :=
  match deletes with
  | [] => Ok removedVotingPower
  | valUpdate :: rest =>
      match snd (GetByAddress vals (Address valUpdate)) with
      | None => Err ErrFailedToFind
      | Some val => sum_removed vals rest (removedVotingPower +i64 VotingPower val)
      end
  end.

Definition verifyRemovals (deletes : list Validator) (vals : ValidatorSet) : outcome valset_error Z :=
  removedVotingPower ← sum_removed vals deletes 0;
  if lenZ (Validators vals) <? lenZ deletes then Panic else Ok removedVotingPower.

(** The loop of [applyRemovals]: [existing[0]] of an exhausted slice panics. *)
Fixpoint remove_loop {E} (existing deletes : list Validator) : outcome E (list Validator) :=
  match deletes with
  | [] => Ok existing
  | d :: deletes' =>
      match existing with
      | [] => Panic
      | e :: existing' =>
          if bytes_eqb (Address e) (Address d) then remove_loop existing' deletes'
          else r ← remove_loop existing' deletes; Ok (e :: r)
      end
  end.

Definition applyRemovals {E} (vals : ValidatorSet) (deletes : list Validator) : outcome E ValidatorSet :=
  if lenZ (Validators vals) <? lenZ deletes then Panic
  else l ← remove_loop (Validators vals) deletes; Ok (set_validators vals l).

(** The receiver is the state: it comes back with an error too. *)
Definition updateWithChangeSet (changes : list Validator) (allowDeletes : bool)
  : GoM ValidatorSet valset_error unit :=
  if bool_decide (changes = []) then mret tt
  else
    '(updates, deletes) ← glift (processChanges changes);
    if negb allowDeletes && bool_decide (deletes <> []) then gfail ErrDeletesNotAllowed
    else
      vals ← gget;
      if (numNewValidators updates vals =? 0) && (lenZ (Validators vals) =? lenZ deletes)
      then gfail ErrWouldBeEmpty
      else
        removedVotingPower ← glift (verifyRemovals deletes vals);
        tvpAfterUpdatesBeforeRemovals ← verifyUpdates updates removedVotingPower;
        vals ← gget;
        let updates := computeNewPriorities updates vals tvpAfterUpdatesBeforeRemovals in
        gput (applyUpdates vals updates);;
        vals ← gget;
        vals ← glift (applyRemovals vals deletes);
        vals ← glift (updateTotalVotingPower vals);
        '(total, vals) ← glift (TotalVotingPower vals);
        vals ← glift (RescalePriorities vals (PriorityWindowSizeFactor *i64 total));
        vals ← glift (shiftByAvgProposerPriority vals);
        gput (set_validators vals (sort_by less_by_power (Validators vals))).

Definition UpdateWithChangeSet (changes : list Validator) : GoM ValidatorSet valset_error unit :=
  updateWithChangeSet changes true.

(** The constructor panics on an error. *)
Definition NewValidatorSet {E} (valz : list Validator) : outcome E ValidatorSet :=
  match updateWithChangeSet valz false (mkValidatorSet [] 0) with
  | (Ok _, vals) => Ok vals
  | _ => Panic
  end.

Definition ValidatorSetFromExistingValidators (valz : list Validator)
  : outcome valset_error ValidatorSet :=
  if bool_decide (valz = []) then Err ErrSetEmpty
  else
    _ ← validate_all valz;
    vals ← updateTotalVotingPower (mkValidatorSet valz 0);
    Ok (set_validators vals (sort_by less_by_power (Validators vals))).

(** ** Proposer selection *)

(** [hash[:8]] of the padded hash. *)
Definition hashToSeed (hash : bytes) : Z := le_uint64 (take 8 (hash ++ replicate 8 0)).

Section proposer.
  Context `{CryptoLib}.

(** [uint64(height)] and [uint64(round)] sign-extend. *)
Definition MakeRoundHash (proofHash : bytes) (height round : Z) : bytes :=
  sha256 (proofHash ++ put_uint64 (wrapu64 height) ++ put_uint64 (wrapu64 round)).

(** The structure [candidate]; its priority is [uint64(val.VotingPower)]. *)
#[global] Instance candidate_priority : Candidate Validator := fun val => wrapu64 (VotingPower val).

(** The selected validator and the set with its cache filled. *)
Definition SelectProposer {E} (vals : ValidatorSet) (proofHash : bytes) (height round : Z)
  : outcome E (Validator * ValidatorSet) :=
  if IsNilOrEmpty vals then Panic
  else
    let seed := hashToSeed (MakeRoundHash proofHash height round) in
    '(total, vals) ← TotalVotingPower vals;
    samples ← RandomSamplingWithPriority seed (Validators vals) 1 (wrapu64 total);
    match samples with
    | val :: _ => Ok (val, vals)
    | [] => Panic
    end.

End proposer.
