(* ===== verification/ValidatorLists.v ===== *)
(** * Lists of validators: sorting, lookup by address, merging, removing

    Lemmas on the slice-level helpers of [ValidatorSet], shared by the theorems
    on updates, voters and elections.  No definition here models code. *)

From Stdlib Require Import ZArith Lia.
From stdpp Require Import prelude list sorting.
From S2P Require Import Prelude Crypto SafeMath Validator ValidatorSet.

Local Open Scope Z_scope.

Create HintDb vals discriminated.

Abbreviation addrs l := (Address <$> l).
Abbreviation powers l := (VotingPower <$> l).

(** ** Sorting *)

Lemma insert_by_perm {A} (less : A -> A -> bool) x l : insert_by less x l ≡ₚ x :: l.
Proof.
  induction l as [|y l IH]; cbn [insert_by]; [done|]. destruct (less y x); [|done].
  rewrite IH. apply Permutation_swap.
Qed.

Lemma sort_by_perm {A} (less : A -> A -> bool) l : sort_by less l ≡ₚ l.
Proof. induction l as [|x l IH]; [done|]. cbn. by rewrite insert_by_perm, IH. Qed.

(** Sorting a list on which [less] is a strict weak order. *)
Lemma sort_by_sorted_on {A} (P : A -> Prop) (less : A -> A -> bool) l :
  (forall a b, P a -> P b -> less a b = true -> less b a = false) ->
  (forall a b c, P a -> P b -> P c -> less b a = false -> less c b = false -> less c a = false) ->
  Forall P l -> StronglySorted (not_after less) (sort_by less l).
Proof.
  intros Hasym Htrans. induction l as [|x l IH]; intros Hl; [constructor|].
  apply Forall_cons in Hl as [Hx Hl]. change (sort_by less (x :: l)) with (insert_by less x (sort_by less l)).
  specialize (IH Hl). assert (Hs : Forall P (sort_by less l)) by (by rewrite sort_by_perm). revert IH Hs. generalize (sort_by less l) as k.
  clear l Hl. intros l. induction 1 as [|y l Hl IH Hy]; intros Hs; cbn [insert_by]; [repeat constructor|].
  apply Forall_cons in Hs as [Py Hs]. destruct (less y x) eqn:E.
  - constructor; [auto|]. rewrite insert_by_perm. constructor; [by apply Hasym|done].
  - constructor; [by constructor|]. constructor; [done|]. rewrite Forall_forall in *. intros z Hz.
    unfold not_after in *. apply (Htrans x y z); auto.
Qed.

(** A strict weak order, as [sort] requires of a [Less]. *)
Class WeakOrder {A} (less : A -> A -> bool) : Prop := {
  weak_asym : forall a b, less a b = true -> less b a = false;
  weak_trans : forall a b c, less b a = false -> less c b = false -> less c a = false
}.

Lemma sort_by_sorted {A} (less : A -> A -> bool) `{!WeakOrder less} l :
  StronglySorted (not_after less) (sort_by less l).
Proof.
  apply (sort_by_sorted_on (fun _ => True)).
  - intros a b _ _. apply weak_asym.
  - intros a b c _ _ _. apply weak_trans.
  - by apply Forall_true.
Qed.

#[global] Instance less_by_address_weak : WeakOrder less_by_address.
Proof.
  unfold less_by_address. split.
  - intros. by apply bytes_ltb_asym.
  - intros a b c Hba Hcb. destruct (bytes_ltb (Address c) (Address a)) eqn:E; [|done].
    destruct (decide (Address a = Address b)) as [Hab|Hab].
    + by rewrite <- Hab, E in Hcb.
    + rewrite (bytes_ltb_trans _ _ _ E) in Hcb; [done|]. by apply bytes_ltb_total.
Qed.

#[global] Instance less_by_power_weak : WeakOrder less_by_power.
Proof.
  unfold less_by_power. split.
  - intros a b. zcase; try done; try lia. apply bytes_ltb_asym.
  - intros a b c. zcase; try done; try lia.
    intros H1 H2. exact (weak_trans (less:=less_by_address) _ _ _ H1 H2).
Qed.

Definition addr_lt (a b : Validator) : Prop := bytes_ltb (Address a) (Address b) = true.

#[global] Instance addr_lt_trans : Transitive addr_lt.
Proof. intros a b c. unfold addr_lt. apply bytes_ltb_trans. Qed.

Lemma addr_lt_ne a b : addr_lt a b -> Address a <> Address b.
Proof. unfold addr_lt. intros H Heq. by rewrite Heq, bytes_ltb_irrefl in H. Qed.

(** Distinct addresses make the sorted order strict. *)
Lemma sorted_strict l :
  StronglySorted (not_after less_by_address) l -> NoDup (addrs l) -> StronglySorted addr_lt l.
Proof.
  induction 1 as [|v l Hl IH Hv]; [constructor|]. rewrite fmap_cons.
  intros [Hn Hd]%NoDup_cons. constructor; [auto|]. rewrite Forall_forall in Hv |- *.
  intros w Hw. specialize (Hv w Hw). unfold not_after, less_by_address, addr_lt in *.
  apply bytes_ltb_total; [|done]. intros Heq. apply Hn. rewrite <- Heq. by apply list_elem_of_fmap_2.
Qed.

Lemma strict_NoDup l : StronglySorted addr_lt l -> NoDup (addrs l).
Proof.
  induction 1 as [|v l Hl IH Hv]; [constructor|]. rewrite fmap_cons. constructor; [|done].
  rewrite list_elem_of_fmap. intros (w & Heq & Hw). rewrite Forall_forall in Hv.
  by apply (addr_lt_ne v w (Hv w Hw)).
Qed.

Lemma sort_by_address_strict l :
  NoDup (addrs l) -> StronglySorted addr_lt (sort_by less_by_address l).
Proof. intros. apply sorted_strict; [apply sort_by_sorted, _|]. by rewrite sort_by_perm. Qed.

(** The result does not depend on the sorting algorithm. *)
Lemma sort_by_address_unique l l' :
  NoDup (addrs l) -> l' ≡ₚ l -> StronglySorted (not_after less_by_address) l' ->
  l' = sort_by less_by_address l.
Proof.
  intros Hnd Hp Hs. assert (Hs' : StronglySorted addr_lt l') by (apply sorted_strict; [done|by rewrite Hp]).
  assert (Hs2 := sort_by_address_strict l Hnd). assert (Hp2 : sort_by less_by_address l ≡ₚ l') by (by rewrite sort_by_perm, Hp).
  revert Hs2 Hp2. generalize (sort_by less_by_address l). clear -Hs'.
  induction Hs' as [|v l' Hl IH Hv]; intros k Hk Hp; [by apply Permutation_nil_r in Hp|].
  destruct k as [|w k]; [by apply Permutation_nil_l in Hp|]. inversion Hk as [|? ? Hk' Hw]; subst.
  assert (w = v) as ->.
  { assert (w ∈ v :: l') as [->|Hin]%elem_of_cons by (rewrite <- Hp; left); [done|].
    assert (v ∈ w :: k) as [->|Hin']%elem_of_cons by (rewrite Hp; left); [done|].
    rewrite Forall_forall in Hv, Hw. specialize (Hv w Hin). specialize (Hw v Hin').
    unfold addr_lt in *. by rewrite (bytes_ltb_asym _ _ Hv) in Hw. }
  f_equal. apply IH; [done|]. by apply Permutation_cons_inv in Hp.
Qed.

(** ** Lookup by address *)

Definition lookup_addr (l : list Validator) (a : bytes) : option Validator := snd (find_address l a 0).

Lemma find_address_snd l a i : snd (find_address l a i) = lookup_addr l a.
Proof.
  unfold lookup_addr. generalize 0. revert i.
  induction l as [|v l IH]; intros i j; cbn; [done|]. destruct (bytes_eqb _ _); [done|apply IH].
Qed.

Lemma lookup_addr_cons v l a :
  lookup_addr (v :: l) a = if bytes_eqb (Address v) a then Some v else lookup_addr l a.
Proof. unfold lookup_addr at 1. cbn. destruct (bytes_eqb _ _); [done|apply find_address_snd]. Qed.

Lemma GetByAddress_lookup vals a : snd (GetByAddress vals a) = lookup_addr (Validators vals) a.
Proof. done. Qed.

Lemma lookup_addr_Some l a v : lookup_addr l a = Some v -> v ∈ l /\ Address v = a.
Proof.
  induction l as [|w l IH]; [done|]. rewrite lookup_addr_cons.
  destruct (bytes_eqb (Address w) a) eqn:E.
  - intros [= <-]. apply bytes_eqb_true in E. split; [left|done].
  - intros [? ?]%IH. split; [by right|done].
Qed.

Lemma lookup_addr_None l a : lookup_addr l a = None <-> a ∉ addrs l.
Proof.
  induction l as [|w l IH]; [split; [intros _ H; by apply elem_of_nil in H|done]|].
  rewrite lookup_addr_cons, fmap_cons, not_elem_of_cons.
  destruct (bytes_eqb (Address w) a) eqn:E.
  - apply bytes_eqb_true in E as <-. naive_solver.
  - rewrite IH. assert (a <> Address w) by (intros ->; by rewrite bytes_eqb_refl in E). naive_solver.
Qed.

Lemma lookup_addr_elem l v : NoDup (addrs l) -> v ∈ l -> lookup_addr l (Address v) = Some v.
Proof.
  induction l as [|w l IH]; intros Hnd Hv; [by apply elem_of_nil in Hv|].
  rewrite fmap_cons in Hnd. apply NoDup_cons in Hnd as [Hn Hd]. rewrite lookup_addr_cons.
  apply elem_of_cons in Hv as [->|Hv]; [by rewrite bytes_eqb_refl|].
  destruct (bytes_eqb (Address w) (Address v)) eqn:E; [|auto].
  apply bytes_eqb_true in E. destruct Hn. rewrite E. by apply list_elem_of_fmap_2.
Qed.

Lemma lookup_addr_perm l l' a : l ≡ₚ l' -> NoDup (addrs l) -> lookup_addr l a = lookup_addr l' a.
Proof.
  intros Hp Hnd. destruct (lookup_addr l' a) as [v|] eqn:E.
  - apply lookup_addr_Some in E as [Hv <-]. apply lookup_addr_elem; [done|by rewrite Hp].
  - apply lookup_addr_None. rewrite Hp. by apply lookup_addr_None.
Qed.

Lemma HasAddress_true vals a : HasAddress vals a = true <-> a ∈ addrs (Validators vals).
Proof.
  unfold HasAddress. rewrite existsb_exists, list_elem_of_fmap. split.
  - intros (v & Hv%list_elem_of_In & E%bytes_eqb_true). eauto.
  - intros (v & -> & Hv). exists v. split; [by apply list_elem_of_In|apply bytes_eqb_refl].
Qed.

Lemma HasAddress_false vals a : HasAddress vals a = false <-> a ∉ addrs (Validators vals).
Proof. rewrite <- HasAddress_true. destruct (HasAddress vals a); naive_solver. Qed.

(** ** The merge of [applyUpdates] and the loop of [applyRemovals] *)

Definition keep_out (ks : list bytes) (l : list Validator) : list Validator :=
  filter (fun v => Address v ∉ ks) l.

Lemma keep_out_cons ks v l :
  keep_out ks (v :: l) = if decide (Address v ∈ ks) then keep_out ks l else v :: keep_out ks l.
Proof. unfold keep_out. rewrite filter_cons. by repeat case_decide. Qed.

Lemma keep_out_fresh k ks l : k ∉ addrs l -> keep_out (k :: ks) l = keep_out ks l.
Proof.
  induction l as [|v l IH]; intros Hk; [done|]. rewrite fmap_cons, not_elem_of_cons in Hk.
  rewrite !keep_out_cons, IH by tauto. repeat case_decide; try done; set_solver.
Qed.

Lemma keep_out_nil l : keep_out [] l = l.
Proof. induction l as [|v l IH]; [done|]. rewrite keep_out_cons, IH. case_decide; [set_solver|done]. Qed.

Lemma keep_out_all ks l : (forall v, v ∈ l -> Address v ∉ ks) -> keep_out ks l = l.
Proof.
  induction l as [|v l IH]; intros H; [done|]. rewrite keep_out_cons, IH by (intros; apply H; by right).
  case_decide; [|done]. exfalso. by apply (H v ltac:(left)).
Qed.

Lemma keep_out_Forall (P : Validator -> Prop) ks l : Forall P l -> Forall P (keep_out ks l).
Proof. rewrite !Forall_forall. intros H v [_ Hv]%list_elem_of_filter. auto. Qed.

Lemma elem_of_keep_out ks l v : v ∈ keep_out ks l <-> (Address v ∉ ks) /\ v ∈ l.
Proof. unfold keep_out. by rewrite list_elem_of_filter. Qed.

Lemma strict_cons_fresh v l : StronglySorted addr_lt (v :: l) -> Address v ∉ addrs l.
Proof. intros H%strict_NoDup. rewrite fmap_cons in H. by apply NoDup_cons in H as [? _]. Qed.

(** A smaller element is not among the addresses of a sorted list. *)
Lemma below_fresh v w l : addr_lt v w -> StronglySorted addr_lt (w :: l) -> Address v ∉ addrs (w :: l).
Proof.
  intros Hvw H. apply strict_cons_fresh. constructor; [done|]. constructor; [done|].
  inversion H as [|? ? ? Hw]; subst. eapply Forall_impl; [exact Hw|]. intros x Hx. by etrans.
Qed.

Lemma merge_updates_cons e es u us :
  merge_updates (e :: es) (u :: us) =
  if bytes_ltb (Address e) (Address u) then e :: merge_updates es (u :: us)
  else if bytes_eqb (Address e) (Address u) then u :: merge_updates es us
  else u :: merge_updates (e :: es) us.
Proof. done. Qed.

Lemma merge_updates_perm existing updates :
  StronglySorted addr_lt existing -> StronglySorted addr_lt updates ->
  merge_updates existing updates ≡ₚ keep_out (addrs updates) existing ++ updates.
Proof.
  intros He. revert updates. induction He as [|e es Hes IH He]; intros us Hus; [by destruct us|].
  assert (Hse : StronglySorted addr_lt (e :: es)) by (by constructor).
  induction Hus as [|u us Hus IHus Hu]; [by rewrite keep_out_nil, app_nil_r|].
  assert (Hsu : StronglySorted addr_lt (u :: us)) by (by constructor).
  rewrite merge_updates_cons. destruct (bytes_ltb (Address e) (Address u)) eqn:Elt; [|destruct (bytes_eqb _ _) eqn:Eeq].
  - rewrite keep_out_cons. case_decide as Hd; [by apply below_fresh in Hd|]. by rewrite IH by done.
  - apply bytes_eqb_true in Eeq. rewrite IH, fmap_cons, keep_out_cons by done.
    case_decide as Hd; [|set_solver].
    rewrite keep_out_fresh by (rewrite <- Eeq; by apply strict_cons_fresh).
    by rewrite Permutation_middle.
  - rewrite IHus, fmap_cons, keep_out_fresh; [by rewrite Permutation_middle|].
    apply below_fresh; [|done]. apply bytes_ltb_total; [|done].
    intros Heq. by rewrite Heq, bytes_eqb_refl in Eeq.
Qed.

Lemma merge_updates_sorted existing updates :
  StronglySorted addr_lt existing -> StronglySorted addr_lt updates ->
  StronglySorted addr_lt (merge_updates existing updates).
Proof.
  intros He. revert updates. induction He as [|e es Hes IH He]; intros us Hus; [by destruct us|].
  assert (Hse : StronglySorted addr_lt (e :: es)) by (by constructor).
  induction Hus as [|u us Hus IHus Hu]; [done|].
  assert (Hsu : StronglySorted addr_lt (u :: us)) by (by constructor).
  rewrite merge_updates_cons. destruct (bytes_ltb (Address e) (Address u)) eqn:Elt; [|destruct (bytes_eqb _ _) eqn:Eeq].
  - constructor; [auto|]. rewrite merge_updates_perm by done. apply Forall_app; split.
    + by apply keep_out_Forall.
    + constructor; [done|]. eapply Forall_impl; [exact Hu|]. intros x Hx. by trans u.
  - apply bytes_eqb_true in Eeq. constructor; [auto|]. rewrite merge_updates_perm by done.
    apply Forall_app; split; [|done]. apply keep_out_Forall.
    eapply Forall_impl; [exact He|]. intros x. unfold addr_lt. by rewrite Eeq.
  - constructor; [done|]. rewrite merge_updates_perm by done. apply Forall_app; split; [|done].
    apply keep_out_Forall. assert (addr_lt u e).
    { apply bytes_ltb_total; [|done]. intros Heq. by rewrite Heq, bytes_eqb_refl in Eeq. }
    constructor; [done|]. eapply Forall_impl; [exact He|]. intros x Hx. by trans e.
Qed.

Lemma remove_loop_spec {E} existing deletes :
  StronglySorted addr_lt existing -> StronglySorted addr_lt deletes ->
  (forall a, a ∈ addrs deletes -> a ∈ addrs existing) ->
  remove_loop (E:=E) existing deletes = Ok (keep_out (addrs deletes) existing).
Proof.
  intros He. revert deletes. induction He as [|e es Hes IH He]; intros ds Hds Hin.
  { destruct ds as [|d ds]; [done|]. specialize (Hin (Address d)). set_solver. }
  destruct ds as [|d ds]; [by rewrite keep_out_nil|]. cbn [remove_loop].
  assert (Hse : StronglySorted addr_lt (e :: es)) by (by constructor).
  pose proof Hds as Hd0. inversion Hds as [|? ? Hds' Hd]; subst.
  destruct (bytes_eqb (Address e) (Address d)) eqn:E1.
  - apply bytes_eqb_true in E1. rewrite IH; [..|done|].
    + rewrite fmap_cons, keep_out_cons, <- E1. case_decide; [|set_solver].
      by rewrite keep_out_fresh by (by apply strict_cons_fresh).
    + intros a Ha. specialize (Hin a). rewrite !fmap_cons in Hin.
      apply strict_cons_fresh in Hd0. rewrite <- E1 in Hd0. set_solver.
  - assert (Hne : Address e <> Address d) by (intros Heq; by rewrite Heq, bytes_eqb_refl in E1).
    assert (Hdes : Address d ∈ addrs es) by (specialize (Hin (Address d)); set_solver).
    assert (Hed : addr_lt e d).
    { apply list_elem_of_fmap in Hdes as (x & Hx & Hxin). rewrite Forall_forall in He.
      unfold addr_lt. rewrite Hx. by apply He. }
    assert (Hnot : Address e ∉ addrs (d :: ds)) by (by apply below_fresh).
    rewrite IH; [|done|].
    + cbn [mbind outcome_bind]. rewrite keep_out_cons. by case_decide.
    + intros a Ha. specialize (Hin a Ha). rewrite fmap_cons in Hin. set_solver.
Qed.
