(* ===== verification/ValidatorSetPriority.v ===== *)
(** * Proposer priorities: rescaling, centering, rotation

    Theorems on [RescalePriorities], [shiftByAvgProposerPriority] and
    [IncrementProposerPriority] of [ValidatorSet]: which sets they accept, the
    window the priorities stay in, and that no addition or subtraction is ever
    clipped, the fact the source states for [MaxTotalVotingPower] and leaves
    unproved. *)

From Stdlib Require Import ZArith Lia.
From stdpp Require Import prelude list sorting.
From S2P Require Import Prelude Crypto SafeMath Rand Validator ValidatorSet ValidatorLists.

Local Open Scope Z_scope.

Abbreviation prios l := (ProposerPriority <$> l).

(** The window of priorities in which every computation below is exact: from
    -9/4 to 15/4 of the greatest total power.  The lower end is where the
    greatest update puts a new validator; the width, six times the greatest
    total, is what [RescalePriorities] can add [diffMax] to. *)
Definition prio_ok (v : Validator) : Prop :=
  - (9 * MaxTotalVotingPower) <= 4 * ProposerPriority v <= 15 * MaxTotalVotingPower.

(** [l'] is [l] with other priorities. *)
Definition same_but_priority (l l' : list Validator) : Prop :=
  Forall2 (fun v v' => v' = set_priority v (ProposerPriority v')) l l'.

Lemma same_but_priority_map l (f : Validator -> Z) :
  same_but_priority l ((fun v => set_priority v (f v)) <$> l).
Proof. unfold same_but_priority. induction l; constructor; done. Qed.

Lemma same_but_priority_trans l1 l2 l3 :
  same_but_priority l1 l2 -> same_but_priority l2 l3 -> same_but_priority l1 l3.
Proof.
  intros H1 H2. unfold same_but_priority in *. revert l3 H2.
  induction H1 as [|a b l1 l2 Hb Hl IH]; intros l3 H2; inversion H2 as [|? c ? l3' Hc Hl']; subst;
    constructor; [|by apply IH]. rewrite Hb in Hc. exact Hc.
Qed.

Lemma same_but_priority_addrs l l' : same_but_priority l l' -> addrs l' = addrs l.
Proof. induction 1 as [|v v' l l' Hv Hl IH]; [done|]. rewrite !fmap_cons, IH. by rewrite Hv. Qed.

Lemma same_but_priority_powers l l' : same_but_priority l l' -> powers l' = powers l.
Proof. induction 1 as [|v v' l l' Hv Hl IH]; [done|]. rewrite !fmap_cons, IH. by rewrite Hv. Qed.

Lemma same_but_priority_positive l l' :
  same_but_priority l l' -> Forall (fun v => 0 < VotingPower v) l -> Forall (fun v => 0 < VotingPower v) l'.
Proof.
  induction 1 as [|v v' l l' Hv Hl IH]; [done|]. rewrite !Forall_cons. intros [Hp Hf].
  split; [by rewrite Hv|auto].
Qed.

Lemma same_but_priority_refl l : same_but_priority l l.
Proof. induction l as [|[] l IH]; constructor; done. Qed.

Lemma map_same_priority (l : list Validator) (f : Z -> Z) :
  (forall x, f x = x) -> (fun v => set_priority v (f (ProposerPriority v))) <$> l = l.
Proof. intros Hf. induction l as [|v l IH]; [done|]. rewrite fmap_cons, IH, Hf. by destruct v. Qed.

Lemma prios_map (l : list Validator) (f : Validator -> Z) :
  prios ((fun v => set_priority v (f v)) <$> l) = f <$> l.
Proof. induction l; [done|]. by rewrite !fmap_cons, IHl. Qed.

(** ** Minimum and maximum *)

Lemma min_max_spec l mn mx :
  l <> [] -> Forall (fun v => int64 (ProposerPriority v)) l -> min_max_priority l = (mn, mx) ->
  (forall v, v ∈ l -> mn <= ProposerPriority v <= mx) /\
  (exists v, v ∈ l /\ ProposerPriority v = mn) /\ (exists v, v ∈ l /\ ProposerPriority v = mx).
Proof.
  intros Hne Hl. unfold min_max_priority.
  assert (Hgen : forall l a b mn mx, a <= b -> foldl (fun '(mn, mx) v =>
      (if ProposerPriority v <? mn then ProposerPriority v else mn,
       if mx <? ProposerPriority v then ProposerPriority v else mx)) (a, b) l = (mn, mx) ->
    mn <= a /\ b <= mx /\ (forall v, v ∈ l -> mn <= ProposerPriority v <= mx) /\
    (mn = a \/ exists v, v ∈ l /\ ProposerPriority v = mn) /\
    (mx = b \/ exists v, v ∈ l /\ ProposerPriority v = mx)).
  { clear. induction l as [|v l IH]; intros a b mn mx Hab; cbn.
    - intros [= -> ->]. split_and!; auto; try lia. intros v Hv. by apply elem_of_nil in Hv.
    - intros H. apply IH in H as (H1 & H2 & H3 & H4 & H5); [|zcase; lia].
      split_and!; [zcase_in H1; lia|zcase_in H2; lia|..].
      + intros w [->|Hw]%elem_of_cons; [|auto]. zcase_in H1; zcase_in H2; lia.
      + destruct H4 as [->|(w & ? & ?)]; [|right; exists w; split; [by right|done]].
        zcase; try (by left); right; exists v; split; [left|done].
      + destruct H5 as [->|(w & ? & ?)]; [|right; exists w; split; [by right|done]].
        zcase; try (by left); right; exists v; split; [left|done]. }
  destruct l as [|v l]; [done|]. apply Forall_cons in Hl as [Hv Hl]. cbn [foldl].
  assert ((if ProposerPriority v <? int64_max then ProposerPriority v else int64_max) = ProposerPriority v) as ->
    by (zcase; unfold_ints; lia).
  assert ((if int64_min <? ProposerPriority v then ProposerPriority v else int64_min) = ProposerPriority v) as ->
    by (zcase; unfold_ints; lia).
  intros H. apply Hgen in H as (H1 & H2 & H3 & H4 & H5); [|lia]. split_and!.
  - intros w [->|Hw]%elem_of_cons; [lia|auto].
  - destruct H4 as [->|(w & ? & ?)]; [exists v; split; [left|done]|exists w; split; [by right|done]].
  - destruct H5 as [->|(w & ? & ?)]; [exists v; split; [left|done]|exists w; split; [by right|done]].
Qed.

Lemma MaxTotal_val : MaxTotalVotingPower = 1152921504606846975.
Proof. reflexivity. Qed.

Lemma prio_ok_int64 v : prio_ok v -> int64 (ProposerPriority v).
Proof. unfold prio_ok. rewrite MaxTotal_val. unfold_ints. lia. Qed.

#[export] Hint Resolve prio_ok_int64 : vals.

(** Division by the ratio brings the difference of any two priorities down to
    [diffMax]. *)
Lemma quot_window a b d dm r :
  a - b <= d -> 0 < dm -> r = (d + dm - 1) / dm -> 0 < r -> Z.quot a r - Z.quot b r <= dm.
Proof.
  intros Hab Hdm Hr Hr0.
  assert (Hd : d <= r * dm).
  { pose proof (Z.div_mod (d + dm - 1) dm). pose proof (Z.mod_pos_bound (d + dm - 1) dm). subst r. nia. }
  pose proof (Z.quot_rem' a r). pose proof (Z.quot_rem' b r).
  assert (Hra : Z.abs (Z.rem a r) < r) by (pose proof (Z.rem_bound_abs a r ltac:(lia)); lia).
  assert (Hrb : Z.abs (Z.rem b r) < r) by (pose proof (Z.rem_bound_abs b r ltac:(lia)); lia).
  pose proof (Z.rem_sign_nz a r). pose proof (Z.rem_sign_nz b r).
  destruct (Z_lt_le_dec (Z.quot a r - Z.quot b r) (dm + 1)); [lia|].
  assert (Hsa : 0 <= Z.rem a r \/ a < 0).
  { destruct (Z_lt_le_dec a 0); [by right|left]. by apply Z.rem_nonneg; lia. }
  assert (Hsb : Z.rem b r <= 0 \/ 0 < b).
  { destruct (Z_lt_le_dec 0 b); [by right|left]. by apply Z.rem_nonpos; lia. }
  destruct Hsa, Hsb; nia.
Qed.

(** ** Rescaling and centering *)

Lemma IsNilOrEmpty_false vals : Validators vals <> [] -> IsNilOrEmpty vals = false.
Proof. unfold IsNilOrEmpty. intros. by rewrite bool_decide_false. Qed.

Lemma quot_shrink a r : 1 <= r -> Z.min a 0 <= Z.quot a r <= Z.max a 0.
Proof.
  intros Hr. pose proof (Z.quot_rem' a r). pose proof (Z.rem_bound_abs a r ltac:(lia)).
  destruct (Z_lt_le_dec a 0).
  - pose proof (Z.rem_nonpos a r ltac:(lia) ltac:(lia)). nia.
  - pose proof (Z.rem_nonneg a r ltac:(lia) ltac:(lia)). nia.
Qed.

Lemma quot_int64 a r : 1 <= r -> int64 a -> int64 (Z.quot a r).
Proof. intros Hr Ha. pose proof (quot_shrink a r Hr). unfold_ints. lia. Qed.

(** Rescaling and centering over unbounded integers: when the priorities are
    further apart than [d], they are divided by the ratio, rounded up; then their
    average is taken off. *)
Definition shrink_ratio (d : Z) (l : list Validator) : Z :=
  let '(mn, mx) := min_max_priority l in if d <? mx - mn then (mx - mn + d - 1) / d else 1.

Definition shrink (d : Z) (l : list Validator) : list Validator :=
  (fun v => set_priority v (Z.quot (ProposerPriority v) (shrink_ratio d l))) <$> l.

Definition centre (l : list Validator) : list Validator :=
  (fun v => set_priority v (ProposerPriority v - Zsum (prios l) / lenZ l)) <$> l.

Definition recentre (d : Z) (l : list Validator) : list Validator := centre (shrink d l).

(** Rescaling divides every priority by one positive ratio and brings them
    within [diffMax] of each other. *)
Lemma RescalePriorities_spec {E} vals diffMax :
  Validators vals <> [] -> Forall prio_ok (Validators vals) ->
  0 < diffMax <= 2 * MaxTotalVotingPower ->
  let r := shrink_ratio diffMax (Validators vals) in 1 <= r /\
    RescalePriorities (E:=E) vals diffMax = Ok (set_validators vals (shrink diffMax (Validators vals))) /\
    forall v w, v ∈ Validators vals -> w ∈ Validators vals ->
      Z.quot (ProposerPriority v) r - Z.quot (ProposerPriority w) r <= diffMax.
Proof.
  intros Hne Hok Hd r0. unfold r0, RescalePriorities, computeMaxMinPriorityDiff, shrink, shrink_ratio. clear r0.
  rewrite IsNilOrEmpty_false by done. rewrite (proj2 (Z.leb_gt _ _)) by lia.
  destruct (min_max_priority (Validators vals)) as [mn mx] eqn:Emm.
  apply min_max_spec in Emm as (Hall & (v1 & Hv1 & E1) & (v2 & Hv2 & E2));
    [|done|eapply Forall_impl; eauto with vals].
  assert (Hmn := proj1 (Forall_forall _ _) Hok _ Hv1). assert (Hmx := proj1 (Forall_forall _ _) Hok _ Hv2).
  assert (Hle := Hall _ Hv1). unfold prio_ok in Hmn, Hmx. rewrite E1 in *. rewrite E2 in *.
  rewrite MaxTotal_val in *. cbn [mbind outcome_bind].
  rewrite (wrap64_id (mx - mn)) by (unfold_ints; lia). rewrite (proj2 (Z.ltb_ge (mx - mn) 0)) by lia.
  destruct (Z.ltb_spec diffMax (mx - mn)) as [Hlt|Hge].
  - rewrite (wrap64_id (mx - mn + diffMax)), (wrap64_id (mx - mn + diffMax - 1)) by (unfold_ints; lia).
    set (r := (mx - mn + diffMax - 1) / diffMax).
    assert (Hr : 1 <= r) by (apply Z.div_le_lower_bound; lia).
    assert (Hr' : r <= mx - mn + diffMax - 1) by (apply Z.div_le_upper_bound; nia).
    rewrite Z.quot_div_nonneg by lia. fold r. rewrite (wrap64_id r) by (unfold_ints; lia).
    rewrite (proj2 (Z.eqb_neq _ _)) by lia. split_and!; [done| |].
    + f_equal. f_equal. apply list_fmap_ext. intros i v Hv. f_equal.
      apply list_elem_of_lookup_2 in Hv. apply (proj1 (Forall_forall _ _) Hok) in Hv.
      apply wrap64_id, quot_int64; auto with vals.
    + intros v w Hv Hw. apply (quot_window _ _ (mx - mn)); try done; try lia.
      pose proof (Hall _ Hv). pose proof (Hall _ Hw). lia.
  - split_and!; [lia| |].
    + rewrite (map_same_priority _ (fun p => Z.quot p 1)) by apply Z.quot_1_r. by destruct vals.
    + intros v w Hv Hw. rewrite !Z.quot_1_r. pose proof (Hall _ Hv). pose proof (Hall _ Hw). lia.
Qed.

Lemma foldl_add_Zsum l a : foldl Z.add a l = a + Zsum l.
Proof. revert a. induction l as [|x l IH]; intros a; cbn; [lia|]. rewrite IH. lia. Qed.

Lemma Zsum_bounds l a b :
  Forall (fun x => a <= x <= b) l -> a * lenZ l <= Zsum l <= b * lenZ l.
Proof.
  unfold lenZ. induction 1 as [|x l Hx Hl IH]; cbn [Zsum length]; lia.
Qed.

Lemma Zsum_map_add l c : Zsum ((fun x => x + c) <$> l) = Zsum l + c * lenZ l.
Proof. unfold lenZ. induction l as [|x l IH]; [cbn; lia|]. rewrite fmap_cons. cbn [Zsum length]. lia. Qed.

Lemma lenZ_pos {A} (l : list A) : l <> [] -> 0 < lenZ l.
Proof. destruct l; [done|]. unfold lenZ. cbn [length]. lia. Qed.

Lemma lenZ_fmap {A B} (f : A -> B) l : lenZ (f <$> l) = lenZ l.
Proof. unfold lenZ. by rewrite length_fmap. Qed.

(** Priorities within [d] of each other whose sum is between 0 and their
    number. *)
Definition centred (d : Z) (l : list Validator) : Prop :=
  (forall v w, v ∈ l -> w ∈ l -> ProposerPriority v - ProposerPriority w <= d) /\
  0 <= Zsum (prios l) < lenZ l.

(** The average of values within [d] of each other is within [d] of each. *)
Lemma avg_between (l : list Z) x d :
  (forall v w, v ∈ l -> w ∈ l -> v - w <= d) -> x ∈ l ->
  x - d <= Zsum l / lenZ l <= x + d.
Proof.
  intros Hd Hx.
  assert (Hb : Forall (fun y => x - d <= y <= x + d) l).
  { apply Forall_forall. intros y Hy. pose proof (Hd x y Hx Hy). pose proof (Hd y x Hy Hx). lia. }
  apply Zsum_bounds in Hb. assert (0 < lenZ l) by (apply lenZ_pos; by intros ->; apply elem_of_nil in Hx).
  split; [apply Z.div_le_lower_bound|apply Z.div_le_upper_bound]; lia.
Qed.

Lemma shiftByAvg_spec {E} vals d :
  Validators vals <> [] ->
  Forall prio_ok (Validators vals) ->
  d <= 2 * MaxTotalVotingPower ->
  (forall v w, v ∈ Validators vals -> w ∈ Validators vals -> ProposerPriority v - ProposerPriority w <= d) ->
  shiftByAvgProposerPriority (E:=E) vals = Ok (set_validators vals (centre (Validators vals))) /\ centred d (centre (Validators vals)).
Proof.
  intros Hne Hok Hd Hw. unfold shiftByAvgProposerPriority, computeAvgProposerPriority.
  rewrite IsNilOrEmpty_false by done. pose proof (lenZ_pos _ Hne) as Hn.
  rewrite (proj2 (Z.eqb_neq _ _)), foldl_add_Zsum, Z.add_0_l by lia.
  set (l := Validators vals) in *. set (avg := Zsum (prios l) / lenZ l).
  assert (Havg : forall v, v ∈ l -> ProposerPriority v - d <= avg <= ProposerPriority v + d).
  { intros v Hv. unfold avg. rewrite <- (lenZ_fmap ProposerPriority). apply avg_between.
    - intros x y (a & -> & Ha)%list_elem_of_fmap (b & -> & Hb)%list_elem_of_fmap. auto.
    - apply list_elem_of_fmap. eauto. }
  rewrite Forall_forall in Hok. unfold prio_ok in Hok. rewrite MaxTotal_val in *.
  assert (Hint : int64 avg).
  { destruct l as [|v l0] eqn:El; [done|]. specialize (Havg v ltac:(left)). specialize (Hok v ltac:(left)).
    unfold_ints. lia. }
  rewrite bool_decide_true by done. cbn [mbind outcome_bind].
  unfold centre. fold avg. split.
  - f_equal. f_equal. apply list_fmap_ext. intros i v Hv%list_elem_of_lookup_2. f_equal.
    apply safeSubClip_exact; [| |]; specialize (Havg v Hv); specialize (Hok v Hv); unfold_ints; lia.
  - split.
    + intros v w (a & -> & Ha)%list_elem_of_fmap (b & -> & Hb)%list_elem_of_fmap. cbn. specialize (Hw a b Ha Hb). lia.
    + rewrite prios_map, lenZ_fmap.
      assert (Zsum ((fun v => ProposerPriority v - avg) <$> l) = Zsum (prios l) - avg * lenZ l) as ->.
      { rewrite <- (lenZ_fmap ProposerPriority), <- Z.add_opp_r, <- Z.mul_opp_l, <- Zsum_map_add.
        rewrite <- list_fmap_compose. f_equal. }
      unfold avg. pose proof (Z.div_mod (Zsum (prios l)) (lenZ l)).
      pose proof (Z.mod_pos_bound (Zsum (prios l)) (lenZ l)). lia.
Qed.

(** A centred list's priorities are within [d] of zero. *)
Lemma centred_range d l v : centred d l -> v ∈ l -> - d <= ProposerPriority v <= d.
Proof.
  intros [Hd Hs] Hv. assert (Hn : 0 < lenZ l) by (apply lenZ_pos; by intros ->; apply elem_of_nil in Hv).
  destruct (avg_between (prios l) (ProposerPriority v) d) as [H1 H2].
  - intros x y (a & -> & Ha)%list_elem_of_fmap (b & -> & Hb)%list_elem_of_fmap. auto.
  - apply list_elem_of_fmap. eauto.
  - rewrite lenZ_fmap, Z.div_small in H1, H2 by lia. lia.
Qed.

(** Rescaling and centering together, as both callers use them. *)
Lemma rescale_shift_spec {E} vals diffMax :
  Validators vals <> [] -> Forall prio_ok (Validators vals) ->
  0 < diffMax <= 2 * MaxTotalVotingPower ->
  let l' := recentre diffMax (Validators vals) in
  same_but_priority (Validators vals) l' /\ centred diffMax l' /\
    (vals' ← RescalePriorities (E:=E) vals diffMax; shiftByAvgProposerPriority vals') =
      Ok (set_validators vals l').
Proof.
  intros Hne Hok Hd. destruct (RescalePriorities_spec (E:=E) vals diffMax) as (Hr & -> & Hw); try done.
  cbn [mbind outcome_bind].
  destruct (shiftByAvg_spec (E:=E) (set_validators vals (shrink diffMax (Validators vals))) diffMax) as [Hs Hc]; cbn [Validators set_validators].
  - intros Hnil%fmap_nil_inv. done.
  - apply Forall_fmap. eapply Forall_impl; [exact Hok|]. unfold prio_ok. rewrite MaxTotal_val. cbn. intros v Hv.
    pose proof (quot_shrink (ProposerPriority v) _ Hr). lia.
  - lia.
  - intros v w (a & -> & Ha)%list_elem_of_fmap (b & -> & Hb)%list_elem_of_fmap. cbn. auto.
  - split_and!; [|done|exact Hs]. apply (same_but_priority_trans _ (shrink diffMax (Validators vals))); apply same_but_priority_map.
Qed.

(** ** The validator with most priority *)

(** Greater priority, and the smaller address of two equal priorities. *)
Definition outranks (m v : Validator) : Prop :=
  ProposerPriority v < ProposerPriority m \/
  (ProposerPriority v = ProposerPriority m /\ addr_lt m v).

#[global] Instance outranks_trans : Transitive outranks.
Proof.
  intros a b c [?|[? H1]] [?|[? H2]]; try (left; lia). right. split; [lia|]. by etrans.
Qed.

(** The [i]-th validator [m] of [l] outranks every other one. *)
Definition most_of (l : list Validator) (i : nat) (m : Validator) : Prop :=
  l !! i = Some m /\ forall v, v ∈ l -> v = m \/ outranks m v.

Lemma CompareProposerPriority_spec {E} (best : option (nat * Validator)) v :
  (forall b, best = Some b -> Address (snd b) <> Address v) ->
  exists keep : bool, CompareProposerPriority (E:=E) (snd <$> best) v = Ok keep /\
    (if keep then exists b, best = Some b /\ outranks (snd b) v
     else forall b, best = Some b -> outranks v (snd b)).
Proof.
  destruct best as [[k m]|]; cbn; intros Hb; [|exists false; split; [done|intros ? [=]]].
  specialize (Hb _ eq_refl). cbn [snd] in Hb. unfold outranks, addr_lt, bytes_ltb.
  zcase; [exists true; split; [done|eexists; split; [done|cbn; lia]]
         |exists false; split; [done|intros ? [= <-]; cbn; lia]|].
  destruct (bytes_compare (Address m) (Address v)) eqn:Ec.
  - by apply bytes_compare_Eq in Ec.
  - exists true. split; [done|]. eexists; split; [done|]. cbn. rewrite Ec. right. split; [lia|done].
  - exists false. split; [done|]. intros ? [= <-]. cbn. rewrite bytes_compare_antisym, Ec. right. split; [lia|done].
Qed.

Lemma most_priority_loop_spec {E} l i best :
  NoDup (addrs l) -> (forall b, best = Some b -> Address (snd b) ∉ addrs l) ->
  exists res, most_priority_loop (E:=E) l i best = Ok res /\
    (forall k m, res = Some (k, m) -> best = Some (k, m) \/ ((i <= k)%nat /\ l !! (k - i)%nat = Some m)) /\
    (best <> None \/ l <> [] -> exists k m, res = Some (k, m) /\
       (forall v, v ∈ l -> v = m \/ outranks m v) /\
       (forall b, best = Some b -> snd b = m \/ outranks m (snd b))).
Proof.
  revert i best. induction l as [|v l IH]; intros i best Hnd Hb; cbn [most_priority_loop].
  - exists best. split_and!; [done|auto|].
    intros [Hne|?]; [|done]. destruct best as [[k m]|]; [|done]. exists k, m. split_and!; [done|..].
    + intros w Hw. by apply elem_of_nil in Hw.
    + intros ? [= <-]. by left.
  - rewrite fmap_cons in Hnd, Hb. apply NoDup_cons in Hnd as [Hv Hnd].
    destruct (CompareProposerPriority_spec (E:=E) best v) as (keep & -> & Hk).
    { intros b Hb' Heq. apply (Hb b Hb'). rewrite Heq. left. }
    cbn [mbind outcome_bind].
    destruct (IH (S i) (if keep then best else Some (i, v))) as (res & -> & H1 & H2); [done| |].
    { destruct keep; [|by intros ? [= <-]]. intros b Hbb. specialize (Hb b Hbb). set_solver. }
    exists res. split_and!; [done| |].
    + intros k m Hres. destruct (H1 k m Hres) as [Hbest|[Hle Hl]].
      * destruct keep; [by left|]. injection Hbest as <- <-. right. split; [lia|]. by rewrite Nat.sub_diag.
      * right. split; [lia|]. replace (k - i)%nat with (S (k - S i)) by lia. done.
    + intros _. destruct H2 as (k & m & Hres & Hall & Hbest).
      { destruct keep; [|by left]. destruct Hk as (b & -> & _). by left. }
      exists k, m. split_and!; [done| |].
      * intros w [->|Hw]%elem_of_cons; [|auto]. destruct keep; [|by apply (Hbest (i, v))].
        destruct Hk as (b & Hb' & Hle). destruct (Hbest b Hb') as [<-|]; [by right|right; by etrans].
      * intros b Hb'. destruct keep; [auto|]. specialize (Hk b Hb').
        destruct (Hbest _ eq_refl) as [<-|]; [by right|right; by etrans].
Qed.

Lemma getValWithMostPriority_spec {E} vals :
  NoDup (addrs (Validators vals)) -> Validators vals <> [] ->
  exists i m, getValWithMostPriority (E:=E) vals = Ok (Some (i, m)) /\ most_of (Validators vals) i m.
Proof.
  intros Hnd Hne. destruct (most_priority_loop_spec (E:=E) (Validators vals) 0 None) as (res & Hr & H1 & H2);
    [done|done|]. destruct H2 as (i & m & -> & Hall & _); [by right|].
  exists i, m. split_and!; [done|split; [|done]]. destruct (H1 i m eq_refl) as [|[_ Hl]]; [done|].
  by rewrite Nat.sub_0_r in Hl.
Qed.

(** ** The rotation over unbounded integers

    One round adds to every priority its power and takes the total from the
    greatest.  The sum never changes, and the least priority does not fall
    below where it started or below minus the total; the work is in the upper
    bound.  The priorities of any [k] validators sum to at most
    [k * rotation_cap k]: when the greatest is outside the group, the group is
    at most [k] times the greatest, which with the group of [k + 1] that
    includes it gives the bound. *)

Definition cdiv (a b : Z) : Z := (a + b - 1) / b.

Lemma cdiv_lower a b : 0 < b -> a <= b * cdiv a b.
Proof.
  intros Hb. unfold cdiv. pose proof (Z.div_mod (a + b - 1) b).
  pose proof (Z.mod_pos_bound (a + b - 1) b). lia.
Qed.

Definition cap_step (n : nat) (P : Z) (j : nat) : Z :=
  Z.max (cdiv P (Z.of_nat j)) (cdiv (2 * P) (Z.of_nat n)).

(** The greatest average priority a group of [k] of the [n] validators can
    reach when the total power is [P]. *)
Definition rotation_cap (n : nat) (P : Z) (k : nat) : Z :=
  1 + Zsum (cap_step n P <$> seq (S k) (n - k)).

Definition gsum (f : nat -> Z) (K : list nat) : Z := Zsum (f <$> K).

Lemma gsum_cons f k K : gsum f (k :: K) = f k + gsum f K.
Proof. done. Qed.

Lemma gsum_perm f K K' : K ≡ₚ K' -> gsum f K = gsum f K'.
Proof. unfold gsum. by intros ->. Qed.

Lemma gsum_app f K K' : gsum f (K ++ K') = gsum f K + gsum f K'.
Proof. unfold gsum. by rewrite fmap_app, Zsum_app. Qed.

Lemma gsum_ext f g K : (forall i, i ∈ K -> f i = g i) -> gsum f K = gsum g K.
Proof.
  induction K as [|k K IH]; intros H; [done|]. rewrite !gsum_cons, IH, H by (try left; intros; apply H; by right).
  done.
Qed.

Lemma gsum_add f g K : gsum (fun i => f i + g i) K = gsum f K + gsum g K.
Proof. induction K as [|k K IH]; [done|]. rewrite !gsum_cons, IH. lia. Qed.

Lemma gsum_nonneg f K : (forall i, 0 <= f i) -> 0 <= gsum f K.
Proof. intros H. induction K as [|k K IH]; [done|]. rewrite gsum_cons. specialize (H k). lia. Qed.

Lemma gsum_le f K b : (forall i, i ∈ K -> f i <= b) -> gsum f K <= b * lenZ K.
Proof.
  unfold lenZ. induction K as [|k K IH]; intros H; [cbn; lia|]. rewrite gsum_cons. cbn [length].
  pose proof (H k ltac:(left)). specialize (IH ltac:(intros; apply H; by right)). lia.
Qed.

(** The sum of one bound per member of [K]. *)
Lemma gsum_pairs f K a k b : (forall j, j ∈ K -> a <= k * f j + b) -> lenZ K * a <= k * gsum f K + b * lenZ K.
Proof.
  unfold lenZ. induction K as [|j K IH]; intros H; [cbn; lia|]. rewrite gsum_cons. cbn [length].
  pose proof (H j ltac:(left)). specialize (IH ltac:(intros; apply H; by right)). lia.
Qed.

(** A group of the first [n] indices and the rest of them. *)
Definition group (n : nat) (K : list nat) : Prop := NoDup K /\ forall i, i ∈ K -> (i < n)%nat.

Lemma group_split n K : group n K -> exists K', seq 0 n ≡ₚ K ++ K' /\ (length K <= n)%nat.
Proof.
  intros [Hnd Hlt]. assert (K ⊆+ seq 0 n) as [K' HK']%submseteq_Permutation.
  { apply NoDup_submseteq; [done|]. intros i Hi. apply elem_of_seq. specialize (Hlt i Hi). lia. }
  exists K'. split; [done|]. apply Permutation_length in HK'. rewrite length_seq, length_app in HK'. lia.
Qed.

Lemma cap_step_eq n P k : (k < n)%nat -> rotation_cap n P k = rotation_cap n P (S k) + cap_step n P (S k).
Proof.
  intros Hk. unfold rotation_cap. replace (n - k)%nat with (S (n - S k)) by lia.
  cbn [seq]. rewrite fmap_cons. cbn [Zsum]. lia.
Qed.

Lemma cap_lower n P k : (k <= n)%nat -> 1 + Z.of_nat (n - k) * cdiv (2 * P) (Z.of_nat n) <= rotation_cap n P k.
Proof.
  intros Hk. unfold rotation_cap. generalize (S k) as s. induction (n - k)%nat as [|m IH]; intros s; [cbn; lia|].
  cbn [seq]. rewrite fmap_cons. cbn [Zsum]. specialize (IH (S s)). unfold cap_step at 1. lia.
Qed.

Lemma cap_pos n P k : (0 < n)%nat -> (k <= n)%nat -> 0 <= P -> 1 <= rotation_cap n P k.
Proof.
  intros Hn Hk HP. pose proof (cap_lower n P k Hk).
  assert (0 <= cdiv (2 * P) (Z.of_nat n)) by (apply Z.div_pos; lia). nia.
Qed.

Section rotation.
  Context (n : nat) (P : Z) (w : nat -> Z).
  Hypothesis P_pos : 0 < P.
  Hypothesis w_nonneg : forall i, 0 <= w i.
  Hypothesis w_total : gsum w (seq 0 n) = P.

Definition rotation_inv (p : nat -> Z) : Prop :=
  (forall K, group n K -> gsum p K <= lenZ K * rotation_cap n P (length K)) /\
  (forall i, (i < n)%nat -> - (2 * P) <= p i) /\
  0 <= gsum p (seq 0 n).

Definition rotate (p : nat -> Z) (m : nat) (i : nat) : Z :=
  p i + w i - (if decide (i = m) then P else 0).

Lemma group_weight K : group n K -> gsum w K <= P.
Proof.
  intros HK. destruct (group_split n K HK) as (K' & Hp & _).
  rewrite (gsum_perm _ _ _ Hp), gsum_app in w_total. pose proof (gsum_nonneg w K' w_nonneg). lia.
Qed.

Lemma rotate_other p m K : m ∉ K -> gsum (rotate p m) K = gsum p K + gsum w K.
Proof.
  intros Hm. rewrite <- gsum_add. apply gsum_ext. intros i Hi. unfold rotate.
  rewrite decide_False by (by intros ->). lia.
Qed.

Lemma rotate_member p m K : NoDup K -> m ∈ K -> gsum (rotate p m) K = gsum p K + gsum w K - P.
Proof.
  intros Hnd Hm. apply elem_of_Permutation in Hm as [K' HK'].
  rewrite !(gsum_perm _ _ _ HK'), !gsum_cons. rewrite HK' in Hnd. apply NoDup_cons in Hnd as [Hm _].
  rewrite rotate_other by done. unfold rotate. rewrite decide_True by done. lia.
Qed.

Lemma rotation_inv_init p :
  (0 < n)%nat -> (forall i j, (i < n)%nat -> (j < n)%nat -> p i - p j <= 2 * P) ->
  (forall i, (i < n)%nat -> - (2 * P) <= p i) -> 0 <= gsum p (seq 0 n) < Z.of_nat n -> rotation_inv p.
Proof.
  intros Hn Hd Hlow [Hs0 Hs]. split_and!; [|done|done]. intros K HK.
  destruct (group_split n K HK) as (K' & Hp & Hlen).
  assert (HK' : forall j, j ∈ K' -> (j < n)%nat).
  { intros j Hj. cut (j ∈ seq 0 n); [intros ?%elem_of_seq; lia|]. rewrite Hp. apply elem_of_app. by right. }
  assert (Hlen' : lenZ K' = Z.of_nat n - lenZ K).
  { apply Permutation_length in Hp. rewrite length_seq, length_app in Hp. unfold lenZ. lia. }
  assert (Hpair : lenZ K' * gsum p K <= lenZ K * gsum p K' + (2 * P * lenZ K) * lenZ K').
  { apply gsum_pairs. intros j Hj.
    transitivity ((p j + 2 * P) * lenZ K); [|lia]. apply gsum_le. intros i Hi.
    pose proof (Hd i j (proj2 HK i Hi) (HK' j Hj)). lia. }
  rewrite (gsum_perm _ _ _ Hp), gsum_app in Hs, Hs0.
  pose proof (cap_lower n P (length K) Hlen) as Hcap.
  pose proof (cdiv_lower (2 * P) (Z.of_nat n) ltac:(lia)) as Hc.
  rewrite Nat2Z.inj_sub in Hcap by done. fold (lenZ K) in Hcap.
  set (q := cdiv (2 * P) (Z.of_nat n)) in *. set (c := rotation_cap n P (length K)) in *.
  rewrite Hlen' in Hpair. set (k := lenZ K) in *. set (N := Z.of_nat n) in *.
  set (A := gsum p K) in *. set (B := gsum p K') in *.
  assert (Hk : 0 <= k <= N) by (unfold k, N, lenZ; lia).
  assert (H1 : N * A <= k * N + 2 * P * k * (N - k)) by nia.
  assert (H2 : k * N + 2 * P * k * (N - k) <= N * (k * (1 + (N - k) * q))).
  { assert (2 * P * (k * (N - k)) <= N * q * (k * (N - k))) by (apply Z.mul_le_mono_nonneg_r; nia). nia. }
  assert (H3 : k * (1 + (N - k) * q) <= k * c) by (apply Z.mul_le_mono_nonneg_l; lia).
  assert (0 < N) by (unfold N; lia). nia.
Qed.

Lemma rotation_inv_step p m :
  (m < n)%nat -> (forall j, (j < n)%nat -> p j + w j <= p m + w m) -> rotation_inv p ->
  rotation_inv (rotate p m).
Proof.
  intros Hm Hmax (Hcap & Hlow & Hsum). split_and!.
  - intros K HK. destruct (decide (m ∈ K)) as [Hin|Hout].
    { rewrite rotate_member by (try apply HK; done).
      pose proof (Hcap K HK). pose proof (group_weight K HK). lia. }
    assert (HmK : group n (m :: K)).
    { destruct HK. split; [by constructor|]. intros i [->|]%elem_of_cons; auto. }
    destruct (group_split n _ HmK) as (_ & _ & Hlen). cbn [length] in Hlen.
    pose proof (Hcap _ HmK) as Hbig. pose proof (group_weight _ HmK) as Hw.
    pose proof (rotate_member p m (m :: K) (proj1 HmK) ltac:(left)) as Hnew. rewrite gsum_cons in Hnew.
    assert (Hle : gsum (rotate p m) K <= (p m + w m) * lenZ K).
    { apply gsum_le. intros i Hi. unfold rotate. rewrite decide_False by (by intros ->).
      specialize (Hmax i (proj2 HK i Hi)). lia. }
    unfold rotate at 1 in Hnew. rewrite decide_True in Hnew by done.
    rewrite (cap_step_eq n P (length K)) by lia. cbn [length] in Hbig.
    assert (Hstep : P <= Z.of_nat (S (length K)) * cap_step n P (S (length K))).
    { pose proof (cdiv_lower P (Z.of_nat (S (length K))) ltac:(lia)). unfold cap_step. nia. }
    unfold lenZ in *. cbn [length] in *. set (g := cap_step _ _ _) in *. set (c := rotation_cap _ _ _) in *.
    replace (Z.of_nat (S (length K))) with (Z.of_nat (length K) + 1) in * by lia.
    set (k := Z.of_nat (length K)) in *. assert (0 <= k) by (unfold k; lia).
    set (A := gsum (rotate p m) K) in *. set (M := p m + w m) in *.
    assert (H1 : A + M - P <= (k + 1) * c) by lia.
    assert (H2 : (k + 1) * A <= k * ((k + 1) * c + P)) by nia.
    assert (H3 : k * ((k + 1) * c + P) <= k * ((k + 1) * c + (k + 1) * g)) by (apply Z.mul_le_mono_nonneg_l; lia).
    assert (0 < k + 1) by lia. nia.
  - intros i Hi. unfold rotate. pose proof (Hlow i Hi). pose proof (w_nonneg i).
    destruct (decide (i = m)) as [->|]; [|lia].
    assert (0 <= (p m + w m) * lenZ (seq 0 n)).
    { transitivity (gsum (fun i => p i + w i) (seq 0 n)); [rewrite gsum_add; lia|].
      apply gsum_le. intros j [_ Hj]%elem_of_seq. apply Hmax. lia. }
    unfold lenZ in *. rewrite length_seq in *. nia.
  - rewrite rotate_member, w_total; [lia|apply NoDup_seq|apply elem_of_seq; lia].
Qed.

Lemma rotation_inv_range p i : rotation_inv p -> (i < n)%nat -> - (2 * P) <= p i <= rotation_cap n P 1.
Proof.
  intros (Hcap & Hlow & _) Hi. split; [auto|].
  assert (Hg : group n [i]) by (split; [apply NoDup_singleton|by intros j ->%list_elem_of_singleton]).
  specialize (Hcap [i] Hg). unfold gsum, lenZ in Hcap. cbn in Hcap. lia.
Qed.

End rotation.

(** ** Well-formed sets *)

(** What every set made by [NewValidatorSet] and changed by the set's methods
    satisfies. *)
Record valset_wf (vals : ValidatorSet) : Prop := {
  wf_nodup : NoDup (addrs (Validators vals));
  wf_addr : [] ∉ addrs (Validators vals);
  wf_power : Forall (fun v => 0 < VotingPower v) (Validators vals);
  wf_sum : Zsum (powers (Validators vals)) <= MaxTotalVotingPower;
  wf_total : totalVotingPower vals = 0 \/ totalVotingPower vals = Zsum (powers (Validators vals));
  wf_prio : Forall prio_ok (Validators vals)
}.

Lemma sum_power_spec {E} l acc :
  Forall (fun v => 0 <= VotingPower v) l -> 0 <= acc -> acc + Zsum (powers l) <= MaxTotalVotingPower ->
  sum_power (E:=E) l acc = Ok (acc + Zsum (powers l)).
Proof.
  revert acc. induction l as [|v l IH]; intros acc Hl Ha Hs; [cbn; f_equal; lia|].
  apply Forall_cons in Hl as [Hv Hl]. rewrite fmap_cons in *. cbn [sum_power Zsum] in *.
  assert (0 <= Zsum (powers l)) by (apply Zsum_nonneg, Forall_fmap, Hl).
  rewrite MaxTotal_val in *.
  rewrite safeAddClip_exact by (unfold_ints; lia). rewrite (proj2 (Z.ltb_ge _ _)) by lia.
  rewrite IH by (done || lia). f_equal. lia.
Qed.

Lemma power_nonneg l : Forall (fun v => 0 < VotingPower v) l -> Forall (fun v => 0 <= VotingPower v) l.
Proof. intros H. eapply Forall_impl; [exact H|]. cbn. lia. Qed.

Lemma power_le_sum l v : Forall (fun v => 0 < VotingPower v) l -> v ∈ l -> 0 < VotingPower v <= Zsum (powers l).
Proof.
  intros Hl Hv. split; [by apply (proj1 (Forall_forall _ _) Hl)|]. apply Zsum_elem_le.
  - apply Forall_fmap. by apply power_nonneg.
  - apply list_elem_of_fmap. eauto.
Qed.

Lemma wf_sum_pos vals : valset_wf vals -> Validators vals <> [] -> 0 < Zsum (powers (Validators vals)).
Proof.
  intros Hwf Hne. destruct (Validators vals) as [|v l] eqn:El; [done|].
  pose proof (power_le_sum (Validators vals) v (wf_power _ Hwf)). rewrite El in *. specialize (H ltac:(left)). lia.
Qed.

(** The total is the exact sum of the powers, cached or not. *)
Lemma TotalVotingPower_spec {E} vals :
  valset_wf vals ->
  TotalVotingPower (E:=E) vals = Ok (Zsum (powers (Validators vals)),
    mkValidatorSet (Validators vals) (Zsum (powers (Validators vals)))).
Proof.
  intros Hwf. unfold TotalVotingPower, updateTotalVotingPower.
  destruct (Z.eqb_spec (totalVotingPower vals) 0) as [H0|H0].
  - rewrite sum_power_spec by (try apply power_nonneg, Hwf; try apply Hwf; lia). done.
  - destruct (wf_total _ Hwf) as [|Ht]; [done|]. cbn [mbind outcome_bind]. rewrite <- Ht. by destruct vals.
Qed.

(** ** The code's rotation is the unbounded one *)

Definition add_power (l : list Validator) : list Validator :=
  (fun v => set_priority v (ProposerPriority v + VotingPower v)) <$> l.

(** Rounds over unbounded integers, with the positions chosen. *)
Inductive rotations (P : Z) : list Validator -> list nat -> list Validator -> Prop :=
| rotations_nil l : rotations P l [] l
| rotations_cons l i m ms l' :
    most_of (add_power l) i m ->
    rotations P (<[i := set_priority m (ProposerPriority m - P)]> (add_power l)) ms l' ->
    rotations P l (i :: ms) l'.

Definition prio_at (l : list Validator) (i : nat) : Z := from_option ProposerPriority 0 (l !! i).
Definition power_at (l : list Validator) (i : nat) : Z := from_option VotingPower 0 (l !! i).

Lemma gsum_at (f : Validator -> Z) (l : list Validator) :
  gsum (fun i => from_option f 0 (l !! i)) (seq 0 (length l)) = Zsum (f <$> l).
Proof.
  unfold gsum. f_equal. apply list_eq. intros i. rewrite !list_lookup_fmap.
  destruct (decide (i < length l)%nat) as [Hi|Hi].
  - rewrite lookup_seq_lt by done. cbn. destruct (lookup_lt_is_Some_2 l i Hi) as [v ->]. done.
  - rewrite lookup_seq_ge, lookup_ge_None_2 by lia. done.
Qed.

Lemma rotation_inv_ext n P p q :
  (forall i, p i = q i) -> rotation_inv n P p -> rotation_inv n P q.
Proof.
  intros Hpq (H1 & H2 & H3). split_and!.
  - intros K HK. rewrite <- (gsum_ext p) by done. auto.
  - intros i Hi. rewrite <- Hpq. auto.
  - by rewrite <- (gsum_ext p) by done.
Qed.

Lemma round_prio_at P l i m j :
  most_of (add_power l) i m ->
  rotate P (power_at l) (prio_at l) i j =
  prio_at (<[i := set_priority m (ProposerPriority m - P)]> (add_power l)) j.
Proof.
  intros [Hi _]. unfold rotate, prio_at, power_at. pose proof (lookup_lt_Some _ _ _ Hi) as Hlt.
  destruct (decide (j = i)) as [->|Hne].
  - rewrite list_lookup_insert_eq by done. unfold add_power in Hi. rewrite list_lookup_fmap in Hi.
    destruct (l !! i) as [v|]; [|done]. injection Hi as <-. cbn. lia.
  - rewrite list_lookup_insert_ne by done. unfold add_power. rewrite list_lookup_fmap.
    destruct (l !! j); cbn; lia.
Qed.

Lemma round_same P l i m :
  most_of (add_power l) i m ->
  same_but_priority l (<[i := set_priority m (ProposerPriority m - P)]> (add_power l)).
Proof.
  intros [Hi _]. apply Forall2_same_length_lookup. split.
  { rewrite length_insert. unfold add_power. by rewrite length_fmap. }
  intros j v v' Hv. unfold add_power in *. rewrite list_lookup_fmap in Hi. destruct (decide (i = j)) as [->|Hne].
  - rewrite list_lookup_insert_eq by (rewrite length_fmap; by eapply lookup_lt_Some).
    rewrite Hv in Hi. injection Hi as <-. by intros [= <-].
  - rewrite list_lookup_insert_ne, list_lookup_fmap, Hv by done. by intros [= <-].
Qed.

Lemma round_max l i m j :
  most_of (add_power l) i m -> (j < length l)%nat ->
  prio_at l j + power_at l j <= prio_at l i + power_at l i.
Proof.
  intros [Hi Hmax] Hj. unfold prio_at, power_at. unfold add_power in *. rewrite list_lookup_fmap in Hi.
  destruct (l !! i) as [vi|] eqn:Ei; [|done]. injection Hi as <-.
  destruct (lookup_lt_is_Some_2 l j Hj) as [v Ev]. rewrite Ev. cbn.
  destruct (Hmax (set_priority v (ProposerPriority v + VotingPower v))) as [Heq|[Hlt|[Heq _]]].
  - apply list_elem_of_fmap. exists v. split; [done|]. by eapply list_elem_of_lookup_2.
  - injection Heq. lia.
  - cbn in Hlt. lia.
  - cbn in Heq. lia.
Qed.

(** The state of the loop of [IncrementProposerPriority]. *)
Record rotating (P : Z) (vals : ValidatorSet) : Prop := {
  rot_nodup : NoDup (addrs (Validators vals));
  rot_nonempty : Validators vals <> [];
  rot_power : Forall (fun v => 0 < VotingPower v) (Validators vals);
  rot_sum : Zsum (powers (Validators vals)) = P;
  rot_total : totalVotingPower vals = P;
  rot_cap : 4 * rotation_cap (length (Validators vals)) P 1 <= 15 * MaxTotalVotingPower;
  rot_max : P <= MaxTotalVotingPower;
  rot_inv : rotation_inv (length (Validators vals)) P (prio_at (Validators vals))
}.

Lemma rotating_pos P vals : rotating P vals -> 0 < P.
Proof.
  intros Hr. destruct (Validators vals) as [|v l] eqn:El; [by apply rot_nonempty in Hr|].
  pose proof (power_le_sum (Validators vals) v (rot_power _ _ Hr)) as H. rewrite (rot_sum _ _ Hr), El in H.
  specialize (H ltac:(left)). lia.
Qed.

Lemma rotating_range P vals v :
  rotating P vals -> v ∈ Validators vals ->
  - (2 * P) <= ProposerPriority v <= rotation_cap (length (Validators vals)) P 1 /\ 0 < VotingPower v <= P.
Proof.
  intros Hr Hv. split.
  - apply list_elem_of_lookup in Hv as [i Hi].
    pose proof (rotation_inv_range _ _ _ i (rot_inv _ _ Hr) (lookup_lt_Some _ _ _ Hi)) as H.
    unfold prio_at in H. by rewrite Hi in H.
  - rewrite <- (rot_sum _ _ Hr). apply power_le_sum; [apply Hr|done].
Qed.

(** Priorities with room for the arithmetic of a round. *)
Record roomy (P hi : Z) (vals : ValidatorSet) : Prop := {
  ro_nodup : NoDup (addrs (Validators vals));
  ro_nonempty : Validators vals <> [];
  ro_power : Forall (fun v => 0 < VotingPower v) (Validators vals);
  ro_sum : Zsum (powers (Validators vals)) = P;
  ro_total : totalVotingPower vals = P;
  ro_max : 0 < P <= MaxTotalVotingPower;
  ro_range : forall v, v ∈ Validators vals -> - (2 * P) <= ProposerPriority v <= hi;
  ro_room : 4 * hi <= 15 * MaxTotalVotingPower
}.

Lemma rotating_roomy P vals : rotating P vals -> roomy P (rotation_cap (length (Validators vals)) P 1) vals.
Proof.
  intros Hr. pose proof (rotating_pos _ _ Hr). constructor; try apply Hr; [|by intros v Hv; apply rotating_range].
  split; [done|apply Hr].
Qed.

Lemma roomy_power P hi vals v : roomy P hi vals -> v ∈ Validators vals -> 0 < VotingPower v <= P.
Proof. intros Hr Hv. rewrite <- (ro_sum _ _ _ Hr). apply power_le_sum; [apply Hr|done]. Qed.

(** No sum of a round is clipped. *)
Lemma add_power_exact P hi vals :
  roomy P hi vals ->
  (fun val => set_priority val (safeAddClip (ProposerPriority val) (VotingPower val))) <$> Validators vals =
  add_power (Validators vals).
Proof.
  intros Hr. apply list_fmap_ext. intros i v Hv%list_elem_of_lookup_2. f_equal.
  pose proof (ro_range _ _ _ Hr v Hv). pose proof (roomy_power _ _ _ v Hr Hv). pose proof (ro_room _ _ _ Hr). pose proof (ro_max _ _ _ Hr).
  rewrite MaxTotal_val in *. apply safeAddClip_exact; unfold_ints; lia.
Qed.

Lemma rotating_round P vals i m :
  rotating P vals -> most_of (add_power (Validators vals)) i m ->
  rotating P (set_validators vals
    (<[i := set_priority m (ProposerPriority m - P)]> (add_power (Validators vals)))).
Proof.
  intros Hr Hm. pose proof (round_same P _ _ _ Hm) as Hsame. pose proof (rotating_pos _ _ Hr) as Hpos.
  assert (Hi : (i < length (Validators vals))%nat).
  { destruct Hm as [Hi _]. apply lookup_lt_Some in Hi. unfold add_power in Hi. by rewrite length_fmap in Hi. }
  set (l' := <[i := _]> _) in *. assert (Hlen : length l' = length (Validators vals)).
  { symmetry. by eapply Forall2_length. }
  constructor; cbn [set_validators Validators totalVotingPower]; try apply Hr.
  - rewrite (same_but_priority_addrs _ _ Hsame). apply Hr.
  - intros Hnil. rewrite Hnil in Hlen. cbn in Hlen. lia.
  - eapply same_but_priority_positive; [done|apply Hr].
  - rewrite (same_but_priority_powers _ _ Hsame). apply Hr.
  - rewrite Hlen. apply Hr.
  - rewrite Hlen. eapply rotation_inv_ext; [intros j; by apply round_prio_at|].
    apply rotation_inv_step; try done; [| | |apply Hr].
    + intros j. unfold power_at. destruct (Validators vals !! j) eqn:Ej; cbn; [|lia].
      apply list_elem_of_lookup_2 in Ej. apply (proj1 (Forall_forall _ _) (rot_power _ _ Hr)) in Ej. lia.
    + unfold power_at. rewrite (gsum_at VotingPower). apply Hr.
    + intros j Hj. by eapply round_max.
Qed.

Lemma roomy_total {E} P hi vals l :
  roomy P hi vals -> TotalVotingPower (E:=E) (set_validators vals l) = Ok (P, set_validators vals l).
Proof.
  intros Hr. pose proof (ro_max _ _ _ Hr). pose proof (ro_total _ _ _ Hr) as Ht.
  unfold TotalVotingPower. destruct vals as [l0 t]. cbn in *. subst t.
  by rewrite (proj2 (Z.eqb_neq _ _)) by lia.
Qed.

Lemma increment_step {E} P hi vals :
  roomy P hi vals ->
  exists i m, most_of (add_power (Validators vals)) i m /\
    incrementProposerPriority (E:=E) vals =
      Ok (set_validators vals
            (<[i := set_priority m (ProposerPriority m - P)]> (add_power (Validators vals))), i).
Proof.
  intros Hr. unfold incrementProposerPriority. rewrite (add_power_exact P hi) by done.
  destruct (getValWithMostPriority_spec (E:=E) (set_validators vals (add_power (Validators vals))))
    as (i & m & -> & Hm); cbn [set_validators Validators] in *.
  - rewrite (same_but_priority_addrs (Validators vals)); [apply Hr|]. apply same_but_priority_map.
  - intros Hnil%fmap_nil_inv. by apply (ro_nonempty _ _ _ Hr).
  - exists i, m. split; [done|]. cbn [mbind outcome_bind]. rewrite (roomy_total P hi) by done.
    cbn [mbind outcome_bind Validators set_validators].
    destruct Hm as [Hi _]. unfold add_power in Hi. rewrite list_lookup_fmap in Hi.
    destruct (Validators vals !! i) as [v|] eqn:Ev; [|done]. injection Hi as <-.
    apply list_elem_of_lookup_2 in Ev. pose proof (ro_range _ _ _ Hr v Ev). pose proof (roomy_power _ _ _ v Hr Ev).
    pose proof (ro_room _ _ _ Hr). pose proof (ro_max _ _ _ Hr). rewrite MaxTotal_val in *.
    rewrite safeSubClip_exact by (unfold_ints; cbn; lia). done.
Qed.

Lemma increment_times_spec {E} P k vals :
  rotating P vals ->
  exists ms l', length ms = k /\ rotations P (Validators vals) ms l' /\
    increment_times (E:=E) k vals = Ok (set_validators vals l') /\ rotating P (set_validators vals l').
Proof.
  revert vals. induction k as [|k IH]; intros vals Hr; cbn [increment_times].
  - exists [], (Validators vals). split_and!; [done|constructor|by destruct vals|by destruct vals].
  - destruct (increment_step (E:=E) P _ vals (rotating_roomy _ _ Hr)) as (i & m & Hm & ->). cbn [mbind outcome_bind].
    destruct (IH _ (rotating_round P vals i m Hr Hm)) as (ms & l' & Hl & Hrot & -> & Hr').
    exists (i :: ms), l'. split_and!; [cbn; lia|by econstructor|done|done].
Qed.

(** A round raises the priorities by at most the total power. *)
Lemma roomy_round P hi vals i m :
  roomy P hi vals -> 0 <= Zsum (prios (Validators vals)) -> 4 * (hi + P) <= 15 * MaxTotalVotingPower ->
  most_of (add_power (Validators vals)) i m ->
  let l' := <[i := set_priority m (ProposerPriority m - P)]> (add_power (Validators vals)) in
  roomy P (hi + P) (set_validators vals l') /\ 0 <= Zsum (prios l').
Proof.
  intros Hr Hs Hroom Hm. pose proof (round_same P _ _ _ Hm) as Hsame. pose proof Hm as [Hi Hmax].
  pose proof (ro_max _ _ _ Hr) as HP. set (l := Validators vals) in *.
  assert (Hsum : Zsum (prios (add_power l)) = Zsum (prios l) + P).
  { unfold add_power. rewrite prios_map, <- (ro_sum _ _ _ Hr). fold l. clear. induction l as [|v l IH]; [done|]. rewrite !fmap_cons. cbn [Zsum]. lia. }
  assert (Hle : forall v, v ∈ add_power l -> ProposerPriority v <= ProposerPriority m).
  { intros v Hv. destruct (Hmax v Hv) as [-> | [?|[? _]]]; lia. }
  assert (Hpos : 0 < ProposerPriority m).
  { destruct (Z_lt_le_dec 0 (ProposerPriority m)) as [|Hneg]; [done|]. exfalso.
    assert (Zsum (prios (add_power l)) <= 0); [|lia]. clear - Hle Hneg. induction (add_power l) as [|v l' IH]; [done|]. rewrite fmap_cons. cbn [Zsum].
    pose proof (Hle v ltac:(left)). specialize (IH ltac:(intros; apply Hle; by right)). lia. }
  assert (Hadd : forall v, v ∈ add_power l -> - (2 * P) <= ProposerPriority v <= hi + P).
  { intros v (w & -> & Hw)%list_elem_of_fmap. pose proof (ro_range _ _ _ Hr w Hw). pose proof (roomy_power _ _ _ w Hr Hw). cbn. lia. }
  pose proof (Hadd m (list_elem_of_lookup_2 _ _ _ Hi)) as Hmr. split.
  - constructor; cbn [set_validators Validators totalVotingPower]; try apply Hr.
    + rewrite (same_but_priority_addrs _ _ Hsame). apply Hr.
    + intros Hnil. apply Forall2_length in Hsame. rewrite Hnil in Hsame. by apply (ro_nonempty _ _ _ Hr), length_zero_iff_nil.
    + eapply same_but_priority_positive; [done|apply Hr].
    + rewrite (same_but_priority_powers _ _ Hsame). apply Hr.
    + intros v [j [(<- & <- & _)|[_ Hj]]%list_lookup_insert_Some]%list_elem_of_lookup; [cbn; lia|]. by apply Hadd, list_elem_of_lookup; exists j.
    + done.
  - rewrite list_fmap_insert. cbn [ProposerPriority set_priority]. rewrite (Zsum_insert _ _ (ProposerPriority m)) by (by rewrite list_lookup_fmap, Hi). lia.
Qed.

Lemma climb {E} P k : forall hi vals,
  roomy P hi vals -> 0 <= Zsum (prios (Validators vals)) -> 4 * (hi + Z.of_nat k * P) <= 15 * MaxTotalVotingPower ->
  exists l', increment_times (E:=E) k vals = Ok (set_validators vals l') /\ roomy P (hi + Z.of_nat k * P) (set_validators vals l') /\
    same_but_priority (Validators vals) l'.
Proof.
  induction k as [|k IH]; intros hi vals Hr Hs Hroom; cbn [increment_times].
  - exists (Validators vals). rewrite Z.add_0_r. split_and!; [by destruct vals|by destruct vals|apply same_but_priority_refl].
  - pose proof (ro_max _ _ _ Hr). destruct (increment_step (E:=E) P hi vals Hr) as (i & m & Hm & ->). cbn [mbind outcome_bind].
    destruct (roomy_round P hi vals i m Hr Hs ltac:(nia) Hm) as [Hr1 Hs1].
    destruct (IH (hi + P) _ Hr1 Hs1 ltac:(lia)) as (l' & -> & Hr' & Hsame'). exists l'. split_and!; [done| |].
    + by replace (hi + Z.of_nat (S k) * P) with (hi + P + Z.of_nat k * P) by lia.
    + eapply same_but_priority_trans; [by eapply round_same|exact Hsame'].
Qed.

(** A rotation conserves the sum of priorities and moves each priority by its
    power for every round and by the total for every time it was chosen. *)
Lemma rotations_balance P l ms l' j v :
  rotations P l ms l' -> l !! j = Some v ->
  exists v', l' !! j = Some v' /\ v' = set_priority v (ProposerPriority v') /\
    ProposerPriority v' =
      ProposerPriority v + lenZ ms * VotingPower v - lenZ (filter (fun i => i = j) ms) * P.
Proof.
  intros Hrot. revert v. induction Hrot as [l|l i m ms l' Hm Hrot IH]; intros v Hv.
  - exists v. split_and!; [done|by destruct v|]. unfold lenZ. cbn. lia.
  - assert (Hi := round_prio_at P l i m j Hm). pose proof (round_same P l i m Hm) as Hsame.
    destruct (Forall2_lookup_l _ _ _ _ _ Hsame Hv) as (v1 & Hv1 & Heq).
    destruct (IH v1 Hv1) as (v' & Hv' & Heq' & Hp). exists v'. split_and!; [done| |].
    + rewrite Heq', Heq. done.
    + rewrite Hp. unfold rotate, prio_at, power_at in Hi. rewrite Hv, Hv1 in Hi. cbn in Hi.
      rewrite <- Hi. assert (VotingPower v1 = VotingPower v) as -> by (by rewrite Heq).
      rewrite filter_cons. unfold lenZ. cbn [length].
      destruct (decide (i = j)) as [->|Hne].
      * rewrite decide_True by done. cbn [length]. lia.
      * rewrite decide_False by done. lia.
Qed.

Lemma rotations_addrs P l ms l' : rotations P l ms l' -> addrs l' = addrs l.
Proof.
  induction 1 as [|l i m ms l' Hm Hrot IH]; [done|].
  rewrite IH. by rewrite (same_but_priority_addrs _ _ (round_same P _ _ _ Hm)).
Qed.

(** ** [IncrementProposerPriority] *)

Lemma rotating_start vals l :
  valset_wf vals -> Validators vals <> [] -> same_but_priority (Validators vals) l ->
  centred (2 * Zsum (powers (Validators vals))) l ->
  4 * rotation_cap (length (Validators vals)) (Zsum (powers (Validators vals))) 1 <= 15 * MaxTotalVotingPower ->
  rotating (Zsum (powers (Validators vals)))
    (mkValidatorSet l (Zsum (powers (Validators vals)))).
Proof.
  intros Hwf Hne Hsame Hc Hcap. pose proof (wf_sum_pos _ Hwf Hne) as Hpos.
  assert (Hlen : length l = length (Validators vals)) by (symmetry; by eapply Forall2_length).
  assert (Hne' : (0 < length l)%nat) by (rewrite Hlen; destruct (Validators vals); [done|cbn; lia]).
  assert (Hget : forall i, (i < length l)%nat -> exists v, v ∈ l /\ prio_at l i = ProposerPriority v).
  { intros i Hi. destruct (lookup_lt_is_Some_2 l i Hi) as [v Hv]. exists v. unfold prio_at. rewrite Hv.
    split; [by eapply list_elem_of_lookup_2|done]. }
  constructor; cbn [Validators totalVotingPower]; try done.
  - rewrite (same_but_priority_addrs _ _ Hsame). apply Hwf.
  - intros ->. cbn in Hne'. lia.
  - eapply same_but_priority_positive; [done|apply Hwf].
  - by rewrite (same_but_priority_powers _ _ Hsame).
  - by rewrite Hlen.
  - apply Hwf.
  - apply rotation_inv_init; try lia.
    + intros i j Hi Hj. destruct (Hget i Hi) as (v & Hv & ->), (Hget j Hj) as (w & Hw & ->). by apply Hc.
    + intros i Hi. destruct (Hget i Hi) as (v & Hv & ->). pose proof (centred_range _ _ _ Hc Hv). lia.
    + unfold prio_at. rewrite (gsum_at ProposerPriority). apply Hc.
Qed.

Lemma rotating_wf P vals : rotating P vals -> ([] ∉ addrs (Validators vals)) -> valset_wf vals.
Proof.
  intros Hr Ha. constructor; try apply Hr; [done|rewrite (rot_sum _ _ Hr); apply Hr|right|].
  - by rewrite (rot_sum _ _ Hr), (rot_total _ _ Hr).
  - apply Forall_forall. intros v Hv. unfold prio_ok. pose proof (rotating_range _ _ _ Hr Hv).
    pose proof (rot_cap _ _ Hr). pose proof (rot_max _ _ Hr). lia.
Qed.

Lemma IncrementProposerPriority_spec {E} vals times :
  let P := Zsum (powers (Validators vals)) in
  valset_wf vals -> Validators vals <> [] -> 0 < times ->
  4 * rotation_cap (length (Validators vals)) P 1 <= 15 * MaxTotalVotingPower ->
  let l0 := recentre (2 * P) (Validators vals) in
  exists ms l', same_but_priority (Validators vals) l0 /\ centred (2 * P) l0 /\
    lenZ ms = times /\ rotations P l0 ms l' /\
    IncrementProposerPriority (E:=E) vals times = Ok (mkValidatorSet l' P) /\
    rotating P (mkValidatorSet l' P) /\ valset_wf (mkValidatorSet l' P) /\
    length l' = length (Validators vals).
Proof.
  intros P Hwf Hne Ht Hcap l0. unfold IncrementProposerPriority.
  rewrite IsNilOrEmpty_false by done. rewrite (proj2 (Z.leb_gt _ _)) by lia.
  rewrite TotalVotingPower_spec by done. fold P. cbn [mbind outcome_bind].
  pose proof (wf_sum_pos _ Hwf Hne) as Hpos. fold P in Hpos. pose proof (wf_sum _ Hwf) as Hmax. fold P in Hmax.
  assert (wrap64 (PriorityWindowSizeFactor * P) = 2 * P) as ->.
  { unfold PriorityWindowSizeFactor. apply wrap64_id. rewrite MaxTotal_val in Hmax. unfold_ints. lia. }
  destruct (rescale_shift_spec (E:=E) (mkValidatorSet (Validators vals) P) (2 * P)) as (Hsame & Hc & Heq);
    [done|apply Hwf|lia|]. cbn [Validators] in *. fold l0 in Hsame, Hc, Heq.
  pose proof (rotating_start vals l0 Hwf Hne Hsame Hc Hcap) as Hr. fold P in Hr.
  destruct (increment_times_spec (E:=E) P (Z.to_nat times) _ Hr) as (ms & l' & Hlen & Hrot & Hinc & Hr').
  assert (Hs2 : addrs l' = addrs (Validators vals)).
  { rewrite <- (same_but_priority_addrs _ _ Hsame). by eapply rotations_addrs. }
  exists ms, l'. split_and!; try done.
  - unfold lenZ. lia.
  - destruct (RescalePriorities _ _) as [v1| |]; [|discriminate Heq|discriminate Heq].
    cbn [mbind outcome_bind] in *. rewrite Heq. cbn [mbind outcome_bind]. exact Hinc.
  - apply (rotating_wf P); [done|]. cbn [Validators].
    rewrite Hs2. apply Hwf.
  - by rewrite <- (length_fmap Address l'), Hs2, length_fmap.
Qed.

(** The greatest priority [times] rounds can lead to: the rotation's cap, or what
    [times] rounds can add to a centred set. *)
Definition rounds_cap (vals : ValidatorSet) (times : Z) : Z :=
  let P := Zsum (powers (Validators vals)) in
  Z.min (rotation_cap (length (Validators vals)) P 1) ((2 + times) * P).

Lemma few_rounds_wf {E} vals times :
  let P := Zsum (powers (Validators vals)) in
  valset_wf vals -> Validators vals <> [] -> 0 < times -> 4 * ((2 + times) * P) <= 15 * MaxTotalVotingPower ->
  exists vals', IncrementProposerPriority (E:=E) vals times = Ok vals' /\ valset_wf vals'.
Proof.
  intros P Hwf Hne Ht Hroom. unfold IncrementProposerPriority.
  rewrite IsNilOrEmpty_false by done. rewrite (proj2 (Z.leb_gt _ _)) by lia.
  rewrite TotalVotingPower_spec by done. fold P. cbn [mbind outcome_bind].
  pose proof (wf_sum_pos _ Hwf Hne) as Hpos. fold P in Hpos. pose proof (wf_sum _ Hwf) as Hmax. fold P in Hmax.
  assert (wrap64 (PriorityWindowSizeFactor * P) = 2 * P) as ->.
  { unfold PriorityWindowSizeFactor. apply wrap64_id. rewrite MaxTotal_val in Hmax. unfold_ints. lia. }
  destruct (rescale_shift_spec (E:=E) (mkValidatorSet (Validators vals) P) (2 * P)) as (Hsame & Hc & Heq);
    [done|apply Hwf|lia|]. cbn [Validators] in *. set (l0 := recentre _ _) in *.
  assert (Hr : roomy P (2 * P) (mkValidatorSet l0 P)).
  { constructor; cbn [Validators totalVotingPower]; try done; [| | | |intros v Hv; by apply (centred_range _ l0)|lia].
    - rewrite (same_but_priority_addrs _ _ Hsame). apply Hwf.
    - intros Hnil. apply Forall2_length in Hsame. rewrite Hnil in Hsame. by apply Hne, length_zero_iff_nil.
    - eapply same_but_priority_positive; [done|apply Hwf].
    - by rewrite (same_but_priority_powers _ _ Hsame). }
  destruct (climb (E:=E) P (Z.to_nat times) (2 * P) _ Hr) as (l' & Hinc & Hr' & Hs'); [cbn [Validators]; apply Hc|lia|].
  exists (mkValidatorSet l' P). cbn [set_validators Validators totalVotingPower] in *.
  change (set_validators _ l') with (mkValidatorSet l' P) in Hinc, Hr'. pose proof (ro_sum _ _ _ Hr') as Hs. cbn [Validators] in Hs. split.
  - destruct (RescalePriorities _ _) as [v1| |]; [|discriminate Heq|discriminate Heq].
    cbn [mbind outcome_bind] in *. rewrite Heq. cbn [mbind outcome_bind]. exact Hinc.
  - constructor; cbn [Validators totalVotingPower]; try apply Hr'; [|lia|by right; rewrite Hs|].
    + rewrite (same_but_priority_addrs _ _ Hs'), (same_but_priority_addrs _ _ Hsame). apply Hwf.
    + apply Forall_forall. intros v Hv. pose proof (ro_range _ _ _ Hr' v Hv) as Hv'. pose proof (ro_room _ _ _ Hr'). unfold prio_ok. lia.
Qed.

Lemma increment_wf {E} vals times :
  valset_wf vals -> Validators vals <> [] -> 0 < times -> 4 * rounds_cap vals times <= 15 * MaxTotalVotingPower ->
  exists vals', IncrementProposerPriority (E:=E) vals times = Ok vals' /\ valset_wf vals'.
Proof.
  intros Hwf Hne Ht Hcap. unfold rounds_cap in Hcap.
  destruct (Z_le_gt_dec (rotation_cap (length (Validators vals)) (Zsum (powers (Validators vals))) 1) ((2 + times) * Zsum (powers (Validators vals)))).
  - destruct (IncrementProposerPriority_spec (E:=E) vals times Hwf Hne Ht) as (ms & l' & _ & _ & _ & _ & Hi & _ & Hw & _); [lia|]. by eexists.
  - apply few_rounds_wf; [done|done|done|lia].
Qed.

(** One round always has room. *)
Lemma one_round_room vals : valset_wf vals -> 4 * rounds_cap vals 1 <= 15 * MaxTotalVotingPower.
Proof. intros Hwf. pose proof (wf_sum _ Hwf). unfold rounds_cap. rewrite MaxTotal_val in *. lia. Qed.

(** Up to 46 validators the bound holds for every total power the set
    admits. *)
Lemma cdiv_scale a D P j :
  0 < j -> 0 <= P -> 0 <= D -> 0 <= a -> D * cdiv (a * P) j <= P * cdiv (a * D) j + D.
Proof.
  intros Hj HP HD Ha. pose proof (cdiv_lower (a * D) j Hj). unfold cdiv at 1.
  pose proof (Z.div_mod (a * P + j - 1) j). pose proof (Z.mod_pos_bound (a * P + j - 1) j).
  set (q := (a * P + j - 1) / j) in *. set (d := cdiv (a * D) j) in *.
  assert (j * (D * q) <= j * (P * d + D)); [|nia].
  assert (j * q <= a * P + j) by lia. assert (P * (a * D) <= P * (j * d)) by (apply Z.mul_le_mono_nonneg_l; lia).
  nia.
Qed.

Lemma cap_scale n P k s :
  (0 < n)%nat -> (0 < s)%nat -> 0 <= P ->
  100000 * Zsum (cap_step n P <$> seq s k) <=
  P * Zsum (cap_step n 100000 <$> seq s k) + 100000 * Z.of_nat k.
Proof.
  intros Hn Hs HP. revert s Hs. induction k as [|k IH]; intros s Hs; [cbn; lia|].
  cbn [seq]. rewrite !fmap_cons. cbn [Zsum]. specialize (IH (S s) ltac:(lia)).
  assert (100000 * cap_step n P s <= P * cap_step n 100000 s + 100000); [|lia].
  unfold cap_step.
  pose proof (cdiv_scale 1 100000 P (Z.of_nat s) ltac:(lia) ltac:(lia) ltac:(lia) ltac:(lia)) as H1.
  pose proof (cdiv_scale 2 100000 P (Z.of_nat n) ltac:(lia) ltac:(lia) ltac:(lia) ltac:(lia)).
  rewrite !Z.mul_1_l in H1. nia.
Qed.

Lemma rotation_cap_small n P :
  (0 < n <= 46)%nat -> 0 <= P <= MaxTotalVotingPower ->
  4 * rotation_cap n P 1 <= 15 * MaxTotalVotingPower.
Proof.
  intros Hn HP. unfold rotation_cap. pose proof (cap_scale n P (n - 1) 2 ltac:(lia) ltac:(lia) ltac:(lia)) as Hs.
  assert (Hc : Zsum (cap_step n 100000 <$> seq 2 (n - 1)) <= 374000).
  { assert (Hall : forallb (fun n => Zsum (cap_step n 100000 <$> seq 2 (n - 1)) <=? 374000) (seq 1 46) = true)
      by (vm_compute; reflexivity).
    rewrite forallb_forall in Hall. apply Z.leb_le, Hall, in_seq. lia. }
  rewrite MaxTotal_val in *. set (A := Zsum (cap_step n P <$> _)) in *. set (B := Zsum (cap_step n 100000 <$> _)) in *.
  assert (P * B <= P * 374000) by (apply Z.mul_le_mono_nonneg_l; lia). lia.
Qed.

(** ** Properties *)

Definition sample_validators : list Validator :=
  [mkValidator [1] None 5 0 0; mkValidator [2] None 3 0 (-4); mkValidator [3] None 1 0 40].

Definition sample_set : ValidatorSet := mkValidatorSet sample_validators 0.

Lemma sample_set_wf : valset_wf sample_set.
Proof.
  constructor; cbn [sample_set Validators totalVotingPower].
  - by apply (bool_decide_unpack _); vm_compute.
  - by apply (bool_decide_unpack _); vm_compute.
  - repeat constructor.
  - vm_compute. done.
  - by left.
  - repeat constructor; vm_compute; done.
Qed.

(** [IncrementProposerPriority] does exactly the rotation over unbounded
    integers.  It never panics on a well-formed non-empty set and a positive
    number of rounds.  It first rescales and centres the priorities within
    twice the total power, then makes [times] rounds in which no addition or
    subtraction is clipped, whatever [times] is.  The result is well formed
    again, its total is cached, and every priority is between minus twice the
    total and the rotation's cap.  The condition on the cap holds for every set
    of at most 46 validators, and for larger sets whose total is small enough. *)
Theorem increment_exact {E} vals times :
  let P := Zsum (powers (Validators vals)) in
  let n := length (Validators vals) in
  valset_wf vals -> Validators vals <> [] -> 0 < times ->
  (n <= 46)%nat \/ 4 * rotation_cap n P 1 <= 15 * MaxTotalVotingPower ->
  let l0 := recentre (2 * P) (Validators vals) in
  exists chosen l',
    same_but_priority (Validators vals) l0 /\ centred (2 * P) l0 /\
    lenZ chosen = times /\ rotations P l0 chosen l' /\
    IncrementProposerPriority (E:=E) vals times = Ok (mkValidatorSet l' P) /\
    valset_wf (mkValidatorSet l' P) /\
    Forall (fun v => - (2 * P) <= ProposerPriority v <= rotation_cap n P 1) l'.
Proof.
  intros P n Hwf Hne Ht Hcap l0.
  assert (Hcap' : 4 * rotation_cap n P 1 <= 15 * MaxTotalVotingPower).
  { destruct Hcap as [Hn|]; [|done]. apply rotation_cap_small.
    - unfold n in *. destruct (Validators vals); [done|cbn in *; lia].
    - pose proof (wf_sum_pos _ Hwf Hne). pose proof (wf_sum _ Hwf). unfold P. lia. }
  destruct (IncrementProposerPriority_spec (E:=E) vals times Hwf Hne Ht Hcap')
    as (ms & l' & H1 & H2 & H3 & H4 & H5 & H6 & H7 & Hn).
  exists ms, l'. split_and!; try done. apply Forall_forall. intros v Hv.
  destruct (rotating_range _ _ v H6 Hv) as [H _]. cbn [Validators] in H.
  by rewrite Hn in H.
Qed.

Lemma increment_exact_witness :
  let l0 := recentre 18 sample_validators in
  exists chosen l',
    same_but_priority sample_validators l0 /\ centred 18 l0 /\
    lenZ chosen = 1000 /\ rotations 9 l0 chosen l' /\
    IncrementProposerPriority (E:=unit) sample_set 1000 = Ok (mkValidatorSet l' 9) /\
    valset_wf (mkValidatorSet l' 9) /\
    Forall (fun v => - 18 <= ProposerPriority v <= rotation_cap 3 9 1) l'.
Proof.
  refine (increment_exact (E:=unit) sample_set 1000 _ _ _ _);
    [exact sample_set_wf|discriminate|reflexivity|left; cbn; lia].
Defined.

(** C40: the rotation is fair.  One call of [IncrementProposerPriority] for
    [times] rounds, on a well-formed set whose rotation cap leaves room in the
    integers (every set of at most 46 validators, and larger ones with a total
    power that is small enough), takes the priorities of the set, rescaled and
    centred, through exactly [times] rounds of the rotation.  Over these the number of times a validator has most
    priority, multiplied by the total power, differs from the number of rounds
    multiplied by the validator's power by at most the rotation's cap and four
    times the total, a bound that does not grow with the rounds.  So every
    validator is chosen in proportion to its power, and, when the rounds are
    many enough, at least once. *)
Theorem rotation_fairness {E} vals times j v :
  let P := Zsum (powers (Validators vals)) in
  let n := length (Validators vals) in
  valset_wf vals -> 0 < times -> 4 * rotation_cap n P 1 <= 15 * MaxTotalVotingPower ->
  Validators vals !! j = Some v ->
  exists chosen l',
    IncrementProposerPriority (E:=E) vals times = Ok (mkValidatorSet l' P) /\
    rotations P (recentre (2 * P) (Validators vals)) chosen l' /\ lenZ chosen = times /\
    let turns := lenZ (filter (fun i => i = j) chosen) in
    Z.abs (turns * P - times * VotingPower v) <= rotation_cap n P 1 + 4 * P.
Proof.
  intros P n Hwf Ht Hcap Hv.
  assert (Hne : Validators vals <> []) by (intros Hnil; by rewrite Hnil in Hv).
  destruct (IncrementProposerPriority_spec (E:=E) vals times Hwf Hne Ht Hcap)
    as (ms & l' & H1 & H2 & H3 & H4 & H5 & H6 & H7 & Hn).
  exists ms, l'. split_and!; try done. cbn zeta.
  destruct (Forall2_lookup_l _ _ _ _ _ H1 Hv) as (v0 & Hv0 & Heq0).
  destruct (rotations_balance P _ ms l' j v0 H4 Hv0) as (v' & Hv' & _ & Hbal).
  pose proof (centred_range _ _ v0 H2 (list_elem_of_lookup_2 _ _ _ Hv0)) as Hr0.
  destruct (rotating_range _ _ v' H6 (list_elem_of_lookup_2 _ _ _ Hv')) as [Hr' _]. cbn [Validators] in Hr'.
  rewrite Hn in Hr'. fold n in Hr'. assert (VotingPower v0 = VotingPower v) as Hp by (by rewrite Heq0).
  rewrite Hp, H3 in Hbal. fold P in Hr0, Hr'. pose proof (wf_sum_pos _ Hwf Hne) as Hpos. fold P in Hpos.
  pose proof (cap_pos n P 1) as Hc. apply lookup_lt_Some in Hv. fold n in Hv.
  specialize (Hc ltac:(lia) ltac:(lia) ltac:(lia)). lia.
Qed.

Lemma rotation_fairness_witness :
  exists chosen l',
    IncrementProposerPriority (E:=unit) sample_set 1000 = Ok (mkValidatorSet l' 9) /\
    rotations 9 (recentre 18 sample_validators) chosen l' /\ lenZ chosen = 1000 /\
    Z.abs (lenZ (filter (fun i => i = 2%nat) chosen) * 9 - 1000) <= rotation_cap 3 9 1 + 36.
Proof.
  refine (rotation_fairness (E:=unit) sample_set 1000 2 (mkValidator [3] None 1 0 40) _ _ _ _);
    [exact sample_set_wf|reflexivity|vm_compute; discriminate|reflexivity].
Defined.
