(* ===== verification/ValidatorSetUpdate.v ===== *)
(** * Changing the validator set

    [updateWithChangeSet] against an abstract specification: the set is a
    finite map from addresses to powers, and a change list edits it.  The
    theorem says for which changes the code succeeds, that it then implements
    the edit and keeps the set well formed, and that otherwise it returns an
    error and leaves the validators as they were.  The last part is the
    selection of the proposer from a well-formed set. *)

From Stdlib Require Import ZArith Lia.
From stdpp Require Import prelude list gmap sorting.
From S2P Require Import Prelude Crypto SafeMath Rand Validator ValidatorSet ValidatorLists ValidatorSetPriority.

Local Open Scope Z_scope.

(** ** The specification *)

Definition power_map (l : list Validator) : gmap bytes Z :=
  list_to_map ((fun v => (Address v, VotingPower v)) <$> l).

(** Power zero removes the validator. *)
Definition apply_changes (m : gmap bytes Z) (changes : list Validator) : gmap bytes Z :=
  foldl (fun m c => if VotingPower c =? 0 then delete (Address c) m
                    else <[Address c := VotingPower c]> m) m changes.

Definition map_total (m : gmap bytes Z) : Z := map_fold (fun _ => Z.add) 0 m.

Record valid_changes (allowDeletes : bool) (m : gmap bytes Z) (changes : list Validator) : Prop := {
  vc_nodup : NoDup (addrs changes);
  vc_addr : [] ∉ addrs changes;
  vc_range : Forall (fun c => 0 <= VotingPower c <= MaxTotalVotingPower) changes;
  vc_deletes : Forall (fun c => VotingPower c = 0 -> allowDeletes = true /\ is_Some (m !! Address c)) changes;
  vc_nonempty : apply_changes m changes <> ∅;
  vc_total : map_total (apply_changes m changes) <= MaxTotalVotingPower
}.

(** ** Maps of powers *)

Lemma power_map_cons v l : power_map (v :: l) = <[Address v := VotingPower v]> (power_map l).
Proof. done. Qed.

Lemma power_map_lookup l a : power_map l !! a = VotingPower <$> lookup_addr l a.
Proof.
  induction l as [|v l IH]; [done|]. rewrite power_map_cons, lookup_addr_cons, lookup_insert, IH.
  destruct (bytes_eqb (Address v) a) eqn:E.
  - apply bytes_eqb_true in E. by rewrite decide_True.
  - rewrite decide_False; [done|]. intros Heq. by rewrite Heq, bytes_eqb_refl in E.
Qed.

Lemma power_map_perm l l' : NoDup (addrs l) -> l ≡ₚ l' -> power_map l = power_map l'.
Proof.
  intros Hnd Hp. apply map_eq. intros a. rewrite !power_map_lookup. f_equal. by apply lookup_addr_perm.
Qed.

Lemma power_map_same l l' : same_but_priority l l' -> power_map l' = power_map l.
Proof. induction 1 as [|v v' l l' Hv Hl IH]; [done|]. rewrite !power_map_cons, IH. by rewrite Hv. Qed.

Lemma power_map_total l : NoDup (addrs l) -> map_total (power_map l) = Zsum (powers l).
Proof.
  induction l as [|v l IH]; intros Hnd; [done|]. rewrite fmap_cons in *. apply NoDup_cons in Hnd as [Hv Hnd].
  unfold map_total. rewrite power_map_cons, map_fold_insert_L.
  - fold (map_total (power_map l)). rewrite IH by done. done.
  - intros. lia.
  - rewrite power_map_lookup. by rewrite (proj2 (lookup_addr_None l _) Hv).
Qed.

Lemma apply_changes_lookup m cs a :
  NoDup (addrs cs) ->
  apply_changes m cs !! a =
  match lookup_addr cs a with
  | None => m !! a
  | Some c => if VotingPower c =? 0 then None else Some (VotingPower c)
  end.
Proof.
  unfold apply_changes. revert m. induction cs as [|c cs IH]; intros m Hnd; [done|].
  rewrite fmap_cons in Hnd. apply NoDup_cons in Hnd as [Hc Hnd]. cbn [foldl]. rewrite IH by done.
  rewrite lookup_addr_cons. destruct (bytes_eqb (Address c) a) eqn:E.
  - apply bytes_eqb_true in E as <-. rewrite (proj2 (lookup_addr_None cs _) Hc).
    zcase; [apply lookup_delete_eq|apply lookup_insert_eq].
  - assert (Address c <> a) by (intros Heq; by rewrite Heq, bytes_eqb_refl in E).
    destruct (lookup_addr cs a); [done|]. zcase; [by apply lookup_delete_ne|by apply lookup_insert_ne].
Qed.

Lemma lookup_addr_app l1 l2 a :
  lookup_addr (l1 ++ l2) a = match lookup_addr l1 a with Some v => Some v | None => lookup_addr l2 a end.
Proof.
  induction l1 as [|v l IH]; [done|]. cbn [app]. rewrite !lookup_addr_cons. by destruct (bytes_eqb _ _).
Qed.

Lemma lookup_keep_out ks l a :
  lookup_addr (keep_out ks l) a = if decide (a ∈ ks) then None else lookup_addr l a.
Proof.
  induction l as [|v l IH]; [by case_decide|]. rewrite keep_out_cons, !lookup_addr_cons.
  destruct (bytes_eqb (Address v) a) eqn:E.
  - apply bytes_eqb_true in E. subst a. destruct (decide (Address v ∈ ks)); [done|].
    rewrite lookup_addr_cons, bytes_eqb_refl. done.
  - destruct (decide (Address v ∈ ks)); [done|]. by rewrite lookup_addr_cons, E.
Qed.

(** The list the code builds holds the edited map. *)
Definition nonzero (cs : list Validator) : list Validator := filter (fun c => VotingPower c <> 0) cs.
Definition zero (cs : list Validator) : list Validator := filter (fun c => VotingPower c = 0) cs.

Lemma lookup_nonzero cs a :
  NoDup (addrs cs) ->
  lookup_addr (nonzero cs) a =
  match lookup_addr cs a with Some c => if VotingPower c =? 0 then None else Some c | None => None end.
Proof.
  induction cs as [|c cs IH]; intros Hnd; [done|]. rewrite fmap_cons in Hnd. apply NoDup_cons in Hnd as [Hc Hnd].
  unfold nonzero. rewrite filter_cons. fold (nonzero cs). rewrite lookup_addr_cons.
  destruct (bytes_eqb (Address c) a) eqn:E.
  - case_decide as Hz; [rewrite lookup_addr_cons, E; zcase; done|].
    rewrite IH by done. apply bytes_eqb_true in E as <-. rewrite (proj2 (lookup_addr_None cs _) Hc).
    zcase; [done|lia].
  - case_decide; [rewrite lookup_addr_cons, E|]; by apply IH.
Qed.

Lemma power_map_edit l cs :
  NoDup (addrs cs) -> power_map (keep_out (addrs cs) l ++ nonzero cs) = apply_changes (power_map l) cs.
Proof.
  intros Hnd. apply map_eq. intros a. rewrite apply_changes_lookup, !power_map_lookup by done.
  rewrite lookup_addr_app, lookup_keep_out, lookup_nonzero by done.
  destruct (lookup_addr cs a) as [c|] eqn:E.
  - apply lookup_addr_Some in E as [Hc <-]. rewrite decide_True by (apply list_elem_of_fmap; eauto).
    by destruct (VotingPower c =? 0).
  - apply lookup_addr_None in E. rewrite decide_False by done. by destruct (lookup_addr l a).
Qed.

(** ** The two halves of a change list *)

Definition change_ok (c : Validator) : Prop := 0 <= VotingPower c <= MaxTotalVotingPower.

Lemma scan_changes_ok cs prev us ds :
  (prev ∉ addrs cs) -> NoDup (addrs cs) -> Forall change_ok cs ->
  scan_changes cs prev us ds = Ok (us ++ nonzero cs, ds ++ zero cs).
Proof.
  revert prev us ds. induction cs as [|c cs IH]; intros prev us ds Hp Hnd Hok; [cbn; by rewrite !app_nil_r|].
  rewrite fmap_cons in *. apply NoDup_cons in Hnd as [Hc Hnd]. apply Forall_cons in Hok as [[H0 H1] Hok].
  rewrite not_elem_of_cons in Hp. destruct Hp as [Hp Hp']. cbn [scan_changes].
  destruct (bytes_eqb (Address c) prev) eqn:E; [apply bytes_eqb_true in E; by rewrite E in Hp|].
  rewrite (proj2 (Z.ltb_ge _ _)), (proj2 (Z.ltb_ge _ _)) by lia.
  unfold nonzero, zero. rewrite !filter_cons. fold (nonzero cs) (zero cs). zcase.
  - rewrite IH, <- app_assoc by done. by rewrite decide_False, decide_True by (done || tauto).
  - rewrite IH, <- app_assoc by done. by rewrite decide_True, decide_False by (done || tauto).
Qed.

(** On sorted changes the scan accepts nothing else, and it never panics. *)
Lemma scan_changes_inv cs prev us ds :
  StronglySorted (not_after less_by_address) cs -> Forall (fun c => bytes_ltb (Address c) prev = false) cs ->
  (exists r, scan_changes cs prev us ds = Ok r /\ (prev ∉ addrs cs) /\ NoDup (addrs cs) /\ Forall change_ok cs) \/
  (exists e, scan_changes cs prev us ds = Err e).
Proof.
  intros Hs. revert prev us ds. induction Hs as [|c cs Hs IH Hc]; intros prev us ds Hp; cbn [scan_changes].
  { left. eexists. split_and!; [done|apply not_elem_of_nil|constructor|constructor]. }
  apply Forall_cons in Hp as [Hpc Hp].
  destruct (bytes_eqb (Address c) prev) eqn:E; [by right; eexists|].
  destruct (Z.ltb_spec (VotingPower c) 0); [by right; eexists|].
  destruct (Z.ltb_spec MaxTotalVotingPower (VotingPower c)); [by right; eexists|].
  assert (Hlt : bytes_ltb prev (Address c) = true).
  { apply bytes_ltb_total; [|done]. intros Heq. by rewrite Heq, bytes_eqb_refl in E. }
  assert (Hcs : Forall (fun c' => bytes_ltb (Address c') (Address c) = false) cs) by exact Hc.
  assert (Hfresh : prev ∉ addrs cs).
  { rewrite list_elem_of_fmap. intros (c' & -> & Hc'). rewrite Forall_forall in Hcs.
    by rewrite (Hcs c' Hc') in Hlt. }
  assert (Hdone : (Address c ∉ addrs cs) -> NoDup (addrs cs) -> Forall change_ok cs ->
    (prev ∉ addrs (c :: cs)) /\ NoDup (addrs (c :: cs)) /\ Forall change_ok (c :: cs)).
  { intros. rewrite fmap_cons. split_and!.
    - apply not_elem_of_cons. split; [|done]. intros Heq. by rewrite Heq, bytes_eqb_refl in E.
    - by constructor.
    - by constructor. }
  destruct (VotingPower c =? 0);
    edestruct (IH (Address c)) as [(r & Hr & H1 & H2 & H3)|[e He]]; try exact Hcs; eauto.
Qed.

Lemma nonzero_zero_perm cs : nonzero cs ++ zero cs ≡ₚ cs.
Proof.
  induction cs as [|c cs IH]; [done|]. unfold nonzero, zero. rewrite !filter_cons.
  fold (nonzero cs) (zero cs). repeat case_decide; try tauto.
  - cbn [app]. by constructor.
  - rewrite <- Permutation_middle. by constructor.
Qed.

Lemma filter_sorted (P : Validator -> Prop) `{!forall x, Decision (P x)} R l :
  StronglySorted R l -> StronglySorted R (filter P l).
Proof.
  induction 1 as [|v l Hl IH Hv]; [constructor|]. rewrite filter_cons. case_decide; [|done].
  constructor; [done|]. apply Forall_forall. intros w [_ Hw]%list_elem_of_filter.
  by apply (proj1 (Forall_forall _ _) Hv).
Qed.

Definition processable (cs : list Validator) : Prop :=
  NoDup (addrs cs) /\ ([] ∉ addrs cs) /\ Forall change_ok cs.

Lemma processChanges_spec cs :
  let scs := sort_by less_by_address cs in
  (processable cs /\ processChanges cs = Ok (nonzero scs, zero scs)) \/
  ((~ processable cs) /\ exists e, processChanges cs = Err e).
Proof.
  intros scs. assert (Hp : scs ≡ₚ cs) by apply sort_by_perm. unfold processChanges. fold scs.
  destruct (scan_changes_inv scs [] [] []) as [(r & Hr & H1 & H2 & H3)|[e He]].
  - apply sort_by_sorted, _.
  - apply Forall_forall. intros c _. by destruct (Address c).
  - left. rewrite scan_changes_ok by done. split; [|done]. unfold processable. by rewrite <- Hp.
  - right. split; [|by exists e]. intros (H1 & H2 & H3). rewrite <- Hp in H1, H2, H3.
    rewrite scan_changes_ok in He by done. done.
Qed.

(** ** Powers held under a set of addresses *)

Definition held (l : list Validator) (a : bytes) : Z := from_option VotingPower 0 (lookup_addr l a).

Lemma keep_out_app ks1 ks2 l : keep_out (ks1 ++ ks2) l = keep_out ks1 (keep_out ks2 l).
Proof.
  induction l as [|v l IH]; [done|]. rewrite !keep_out_cons, IH.
  destruct (decide (Address v ∈ ks2)); [rewrite decide_True by set_solver; done|].
  rewrite keep_out_cons. destruct (decide (Address v ∈ ks1)).
  - by rewrite decide_True by set_solver.
  - by rewrite decide_False by set_solver.
Qed.

Lemma keep_out_ext ks ks' l : ks ≡ₚ ks' -> keep_out ks l = keep_out ks' l.
Proof.
  intros Hp. induction l as [|v l IH]; [done|]. rewrite !keep_out_cons, IH.
  destruct (decide (Address v ∈ ks)) as [Hin|Hin]; rewrite Hp in Hin.
  - by rewrite decide_True.
  - by rewrite decide_False.
Qed.

#[global] Instance keep_out_perm ks : Proper (Permutation ==> Permutation) (keep_out ks).
Proof. intros l l' Hp. unfold keep_out. by rewrite Hp. Qed.

Lemma keep_out_addrs_incl ks l a : a ∈ addrs (keep_out ks l) <-> (a ∉ ks) /\ a ∈ addrs l.
Proof.
  rewrite !list_elem_of_fmap. setoid_rewrite elem_of_keep_out. naive_solver.
Qed.

Lemma keep_out_NoDup ks l : NoDup (addrs l) -> NoDup (addrs (keep_out ks l)).
Proof.
  induction l as [|v l IH]; intros Hnd; [done|]. rewrite fmap_cons in Hnd. apply NoDup_cons in Hnd as [Hv Hnd].
  rewrite keep_out_cons. case_decide; [auto|]. rewrite fmap_cons. constructor; [|auto].
  rewrite keep_out_addrs_incl. tauto.
Qed.

Lemma keep_out_one l a : NoDup (addrs l) -> Zsum (powers (keep_out [a] l)) = Zsum (powers l) - held l a.
Proof.
  unfold held. induction l as [|v l IH]; intros Hnd; [cbn; lia|]. rewrite fmap_cons in Hnd.
  apply NoDup_cons in Hnd as [Hv Hnd]. rewrite keep_out_cons, lookup_addr_cons.
  destruct (bytes_eqb (Address v) a) eqn:E.
  - apply bytes_eqb_true in E. rewrite decide_True by (rewrite E; left). rewrite keep_out_all.
    + rewrite fmap_cons. cbn. lia.
    + intros w Hw Heq%list_elem_of_singleton. apply Hv. rewrite E, <- Heq. apply list_elem_of_fmap. eauto.
  - rewrite decide_False. 2: { intros Heq%list_elem_of_singleton. by rewrite Heq, bytes_eqb_refl in E. }
    rewrite !fmap_cons. cbn [Zsum]. rewrite IH by done. lia.
Qed.

Lemma keep_out_sum ks l :
  NoDup (addrs l) -> NoDup ks ->
  Zsum (powers (keep_out ks l)) = Zsum (powers l) - Zsum (held l <$> ks).
Proof.
  intros Hl. induction ks as [|k ks IH]; intros Hk; [rewrite keep_out_nil; cbn; lia|].
  apply NoDup_cons in Hk as [Hkn Hk]. change (k :: ks) with ([k] ++ ks).
  rewrite keep_out_app, keep_out_one, IH by (done || by apply keep_out_NoDup). rewrite fmap_app, Zsum_app.
  unfold held at 2. rewrite lookup_keep_out, decide_False by done. cbn. fold (held l k). lia.
Qed.

(** Distinct addresses of the set, and what is left. *)
Lemma keep_out_split ks l :
  NoDup (addrs l) -> NoDup ks -> (forall k, k ∈ ks -> k ∈ addrs l) ->
  addrs l ≡ₚ ks ++ addrs (keep_out ks l).
Proof.
  intros Hl Hk Hsub. apply NoDup_Permutation; [done| |].
  - apply NoDup_app. split_and!; [done| |by apply keep_out_NoDup].
    intros a Ha. rewrite keep_out_addrs_incl. tauto.
  - intros a. rewrite elem_of_app, keep_out_addrs_incl. destruct (decide (a ∈ ks)); naive_solver.
Qed.

Section removals.
  Context (vals : ValidatorSet) (Hwf : valset_wf vals).
  #[local] Abbreviation l := (Validators vals).

Lemma held_range a : 0 <= held l a <= Zsum (powers l).
Proof.
  unfold held. destruct (lookup_addr l a) as [v|] eqn:E; cbn.
  - apply lookup_addr_Some in E as [Hv _]. pose proof (power_le_sum l v (wf_power _ Hwf) Hv). lia.
  - split; [lia|]. apply Zsum_nonneg, Forall_fmap, power_nonneg, Hwf.
Qed.

Lemma held_sum_range ks : NoDup ks -> 0 <= Zsum (held l <$> ks) <= Zsum (powers l).
Proof.
  intros Hks. split.
  - apply Zsum_nonneg, Forall_fmap, Forall_forall. intros a _. apply held_range.
  - pose proof (keep_out_sum ks l (wf_nodup _ Hwf) Hks).
    assert (0 <= Zsum (powers (keep_out ks l))); [|lia].
    apply Zsum_nonneg, Forall_fmap, keep_out_Forall, power_nonneg, Hwf.
Qed.

Lemma sum_removed_ok ds acc :
  (forall a, a ∈ addrs ds -> a ∈ addrs l) -> 0 <= acc ->
  acc + Zsum (held l <$> addrs ds) <= MaxTotalVotingPower ->
  sum_removed vals ds acc = Ok (acc + Zsum (held l <$> addrs ds)).
Proof.
  revert acc. induction ds as [|d ds IH]; intros acc Hin Ha Hs; [cbn; f_equal; lia|].
  cbn [sum_removed]. rewrite !fmap_cons in *. cbn [Zsum] in *. rewrite GetByAddress_lookup.
  destruct (lookup_addr l (Address d)) as [v|] eqn:E.
  2: { apply lookup_addr_None in E. destruct E. apply Hin. left. }
  assert (Hh : held l (Address d) = VotingPower v) by (unfold held; by rewrite E).
  assert (0 <= Zsum (held l <$> addrs ds)).
  { apply Zsum_nonneg, Forall_fmap, Forall_forall. intros a _. apply held_range. }
  pose proof (held_range (Address d)). rewrite Hh in *. rewrite MaxTotal_val in *.
  rewrite wrap64_id by (unfold_ints; lia). rewrite IH; [f_equal; lia|set_solver|lia|lia].
Qed.

Lemma sum_removed_err ds acc :
  ~ (forall a, a ∈ addrs ds -> a ∈ addrs l) -> sum_removed vals ds acc = Err ErrFailedToFind.
Proof.
  revert acc. induction ds as [|d ds IH]; intros acc Hin; [destruct Hin; intros a []%elem_of_nil|].
  cbn [sum_removed]. rewrite GetByAddress_lookup.
  destruct (lookup_addr l (Address d)) as [v|] eqn:E; [|done]. apply IH. intros Hds. apply Hin.
  intros a. rewrite fmap_cons. intros [->|Ha]%elem_of_cons; [|auto].
  apply lookup_addr_Some in E as [Hv <-]. apply list_elem_of_fmap. eauto.
Qed.

Lemma verifyRemovals_ok ds :
  NoDup (addrs ds) -> (forall a, a ∈ addrs ds -> a ∈ addrs l) ->
  verifyRemovals ds vals = Ok (Zsum (held l <$> addrs ds)).
Proof.
  intros Hnd Hin. unfold verifyRemovals. pose proof (held_sum_range _ Hnd). pose proof (wf_sum _ Hwf).
  rewrite sum_removed_ok by (done || lia). cbn [mbind outcome_bind].
  rewrite (proj2 (Z.ltb_ge _ _)); [f_equal; lia|].
  pose proof (keep_out_split _ _ (wf_nodup _ Hwf) Hnd Hin) as Hp%Permutation_length.
  rewrite length_app, !length_fmap in Hp. unfold lenZ. lia.
Qed.

Lemma verifyRemovals_err ds :
  ~ (forall a, a ∈ addrs ds -> a ∈ addrs l) -> verifyRemovals ds vals = Err ErrFailedToFind.
Proof. intros H. unfold verifyRemovals. by rewrite sum_removed_err. Qed.

End removals.

(** ** The running total of [verifyUpdates]

    The updates are sorted by their deltas, so the running total falls and then
    rises: it stays below the greatest total exactly when the last one does. *)

Definition neg_part (x : Z) : Z := Z.min 0 x.

Section deltas.
  Context (vals : ValidatorSet).
  #[local] Abbreviation d := (delta vals).

Lemma add_deltas_spec us t :
  StronglySorted (not_after (fun a b => d a <? d b)) us ->
  Forall (fun u => - MaxTotalVotingPower <= d u <= MaxTotalVotingPower) us ->
  t <= MaxTotalVotingPower -> 0 <= t + Zsum ((fun u => neg_part (d u)) <$> us) ->
  if decide (t + Zsum (d <$> us) <= MaxTotalVotingPower)
  then add_deltas vals us t = Ok (t + Zsum (d <$> us))
  else add_deltas vals us t = Err ErrTotalVotingPowerOverflow.
Proof.
  intros Hs. revert t. induction Hs as [|u us Hs IH Hu]; intros t Hr Ht Hlow.
  { cbn. rewrite decide_True by lia. f_equal. lia. }
  apply Forall_cons in Hr as [Hru Hr]. rewrite !fmap_cons in *. cbn [Zsum add_deltas] in *.
  assert (Hneg : Zsum ((fun u => neg_part (d u)) <$> us) <= 0).
  { clear. induction us as [|u us IH]; [done|]. rewrite fmap_cons. cbn. unfold neg_part at 1. lia. }
  assert (Hpos : 0 < d u -> 0 <= Zsum (d <$> us)).
  { intros Hd. apply Zsum_nonneg, Forall_fmap. eapply Forall_impl; [exact Hu|].
    unfold not_after. cbn. intros u' Hu'%Z.ltb_ge. lia. }
  unfold neg_part at 1 in Hlow. rewrite MaxTotal_val in *.
  rewrite wrap64_id by (unfold_ints; lia).
  destruct (Z.ltb_spec 1152921504606846975 (t + d u)) as [Hover|Hok].
  - rewrite decide_False by lia. done.
  - specialize (IH (t + d u) Hr ltac:(lia) ltac:(lia)). rewrite Z.add_assoc. exact IH.
Qed.

End deltas.

Lemma delta_exact vals u :
  valset_wf vals -> change_ok u -> delta vals u = VotingPower u - held (Validators vals) (Address u).
Proof.
  intros Hwf [H0 H1]. pose proof (held_range vals Hwf (Address u)) as Hh. unfold delta, held in *.
  rewrite GetByAddress_lookup. pose proof (wf_sum _ Hwf). rewrite MaxTotal_val in *.
  destruct (lookup_addr _ _); cbn in *; [|lia]. apply wrap64_id. unfold_ints. lia.
Qed.

Definition filled (vals : ValidatorSet) : ValidatorSet :=
  mkValidatorSet (Validators vals) (Zsum (powers (Validators vals))).

Lemma filled_wf vals : valset_wf vals -> valset_wf (filled vals).
Proof. intros [? ? ? ? ? ?]. constructor; cbn; auto. Qed.

Lemma Zsum_map_le {A} (f g : A -> Z) l : (forall x, x ∈ l -> f x <= g x) -> Zsum (f <$> l) <= Zsum (g <$> l).
Proof.
  induction l as [|x l IH]; intros H; [done|]. rewrite !fmap_cons. cbn [Zsum].
  pose proof (H x ltac:(left)). specialize (IH ltac:(intros; apply H; by right)). lia.
Qed.

Lemma Zsum_map_sub {A} (f g : A -> Z) l : Zsum ((fun x => f x - g x) <$> l) = Zsum (f <$> l) - Zsum (g <$> l).
Proof. induction l as [|x l IH]; [done|]. rewrite !fmap_cons. cbn [Zsum]. lia. Qed.

(** The total after the updates and removals of [us] and [ds]. *)
Definition new_total (l us ds : list Validator) : Z :=
  Zsum (powers (keep_out (addrs us ++ addrs ds) l)) + Zsum (powers us).

Section updates.
  Context (vals : ValidatorSet) (us ds : list Validator).
  Hypothesis Hwf : valset_wf vals.
  Hypothesis Hok : Forall change_ok us.
  Hypothesis Hnd : NoDup (addrs us ++ addrs ds).
  #[local] Abbreviation l := (Validators vals).
  #[local] Abbreviation T := (Zsum (powers l)).
  #[local] Abbreviation dl := (delta (filled vals)).
  #[local] Abbreviation removed := (Zsum (held l <$> addrs ds)).
  #[local] Abbreviation total := (new_total l us ds).

Lemma update_delta u : u ∈ us -> dl u = VotingPower u - held l (Address u).
Proof.
  intros Hu. apply (delta_exact (filled vals)); [by apply filled_wf|]. by apply (proj1 (Forall_forall _ _) Hok).
Qed.

Lemma deltas_total : total = T - removed + Zsum (dl <$> us).
Proof.
  assert (Zsum (dl <$> us) = Zsum (powers us) - Zsum (held l <$> addrs us)) as ->.
  { rewrite <- list_fmap_compose, <- Zsum_map_sub. f_equal. apply list_fmap_ext.
    intros i u Hu%list_elem_of_lookup_2. cbn. by apply update_delta. }
  pose proof (keep_out_sum (addrs us ++ addrs ds) l (wf_nodup _ Hwf) Hnd) as Hkeep.
  rewrite fmap_app, Zsum_app in Hkeep. unfold new_total. lia.
Qed.

Lemma deltas_range : Forall (fun u => - MaxTotalVotingPower <= dl u <= MaxTotalVotingPower) us.
Proof.
  apply Forall_forall. intros u Hu. rewrite update_delta by done.
  pose proof (held_range vals Hwf (Address u)). pose proof (wf_sum _ Hwf).
  apply (proj1 (Forall_forall _ _) Hok) in Hu. unfold change_ok in Hu. lia.
Qed.

Lemma deltas_low : 0 <= T - removed + Zsum ((fun u => neg_part (dl u)) <$> us).
Proof.
  assert (Hk0 : 0 <= Zsum (powers (keep_out (addrs us ++ addrs ds) l))).
  { apply Zsum_nonneg, Forall_fmap, keep_out_Forall, power_nonneg, Hwf. }
  rewrite keep_out_sum, fmap_app, Zsum_app in Hk0 by (done || apply Hwf).
  assert (- Zsum (held l <$> addrs us) <= Zsum ((fun u => neg_part (dl u)) <$> us)); [|lia].
  rewrite <- list_fmap_compose. transitivity (Zsum ((fun u => 0 - held l (Address u)) <$> us)).
  - rewrite Zsum_map_sub. assert (Zsum ((fun _ => 0) <$> us) = 0) as ->; [|unfold compose; lia].
    clear. induction us; [done|]. rewrite fmap_cons. cbn. lia.
  - apply Zsum_map_le. intros u Hu. rewrite update_delta by done. unfold neg_part.
    pose proof (held_range vals Hwf (Address u)). apply (proj1 (Forall_forall _ _) Hok) in Hu.
    unfold change_ok in Hu. lia.
Qed.

Lemma removed_range : 0 <= removed <= T.
Proof. apply held_sum_range; [done|]. by apply NoDup_app in Hnd as (_ & _ & ?). Qed.

Lemma new_total_nonneg : 0 <= total.
Proof.
  unfold new_total. assert (0 <= Zsum (powers us)).
  { apply Zsum_nonneg, Forall_fmap. eapply Forall_impl; [exact Hok|]. unfold change_ok. cbn. lia. }
  assert (0 <= Zsum (powers (keep_out (addrs us ++ addrs ds) l))); [|lia].
  apply Zsum_nonneg, Forall_fmap, keep_out_Forall, power_nonneg, Hwf.
Qed.

Lemma verifyUpdates_spec :
  verifyUpdates us removed vals =
  (if decide (total <= MaxTotalVotingPower) then Ok (total + removed) else Err ErrTotalVotingPowerOverflow,
   filled vals).
Proof.
  unfold verifyUpdates. rewrite TotalVotingPower_spec by done. fold (filled vals).
  set (sus := sort_by (fun a b => dl a <? dl b) us). assert (Hp : sus ≡ₚ us) by apply sort_by_perm.
  pose proof removed_range as Hrem. pose proof (wf_sum _ Hwf) as Hmax. pose proof new_total_nonneg.
  rewrite (wrap64_id (T - removed)) by (rewrite MaxTotal_val in *; unfold_ints; lia).
  pose proof (add_deltas_spec (filled vals) sus (T - removed)) as Hadd.
  assert (Zsum (dl <$> sus) = Zsum (dl <$> us)) as Hsum by (by rewrite Hp).
  rewrite Hsum, <- deltas_total in Hadd.
  assert (Hss : StronglySorted (not_after (fun a b => dl a <? dl b)) sus).
  { apply sort_by_sorted. split; intros *; zcase; try done; lia. }
  specialize (Hadd Hss ltac:(rewrite Hp; apply deltas_range) ltac:(lia) ltac:(rewrite Hp; apply deltas_low)).
  destruct (decide (total <= MaxTotalVotingPower)); rewrite Hadd; [|done].
  rewrite wrap64_id by (rewrite MaxTotal_val in *; unfold_ints; lia). done.
Qed.

End updates.

(** ** The new list *)

Lemma computeNewPriorities_same us vals tvp : same_but_priority us (computeNewPriorities us vals tvp).
Proof.
  unfold computeNewPriorities, same_but_priority. induction us as [|u us IH]; constructor; [|done].
  by destruct (snd (GetByAddress vals (Address u))).
Qed.

Lemma computeNewPriorities_prio us vals tvp :
  valset_wf vals -> 0 <= tvp <= 2 * MaxTotalVotingPower -> Forall prio_ok (computeNewPriorities us vals tvp).
Proof.
  intros Hwf Ht. apply Forall_fmap, Forall_forall. intros u _. cbn. rewrite GetByAddress_lookup.
  destruct (lookup_addr (Validators vals) (Address u)) as [v|] eqn:E.
  - apply lookup_addr_Some in E as [Hv _]. apply (proj1 (Forall_forall _ _) (wf_prio _ Hwf)) in Hv. exact Hv.
  - unfold prio_ok. cbn. rewrite Z.shiftr_div_pow2 by lia. change (2 ^ 3) with 8.
    pose proof (Z.div_mod tvp 8 ltac:(lia)). pose proof (Z.mod_pos_bound tvp 8 ltac:(lia)).
    rewrite MaxTotal_val in *. rewrite (wrap64_id (tvp + tvp / 8)) by (unfold_ints; lia).
    rewrite wrap64_id by (unfold_ints; lia). lia.
Qed.

Lemma same_strict l l' : same_but_priority l l' -> StronglySorted addr_lt l -> StronglySorted addr_lt l'.
Proof.
  intros Hs. induction Hs as [|v v' l l' Hv Hl IH]; intros Hss; [constructor|].
  inversion Hss as [|? ? H1 H2]; subst. constructor; [auto|].
  rewrite Forall_forall in *. intros w Hw. unfold addr_lt in *.
  assert (Address w ∈ addrs l) as (w0 & Hw0 & Hin)%list_elem_of_fmap.
  { rewrite <- (same_but_priority_addrs l l' Hl). apply list_elem_of_fmap. eauto. }
  rewrite Hv, Hw0. cbn. by apply H2.
Qed.

(** What the merge and the removal leave, up to the order. *)
Lemma apply_both {E} vals us ds :
  NoDup (addrs (Validators vals)) -> StronglySorted addr_lt us -> StronglySorted addr_lt ds ->
  NoDup (addrs us ++ addrs ds) -> (forall a, a ∈ addrs ds -> a ∈ addrs (Validators vals)) ->
  exists l3, applyRemovals (E:=E) (applyUpdates vals us) ds = Ok (set_validators vals l3) /\
    l3 ≡ₚ keep_out (addrs us ++ addrs ds) (Validators vals) ++ us.
Proof.
  intros Hl Hus Hds Hnd Hin. unfold applyRemovals, applyUpdates. cbn [set_validators Validators].
  set (sl := sort_by less_by_address (Validators vals)). set (merged := merge_updates sl us).
  assert (Hsl : sl ≡ₚ Validators vals) by apply sort_by_perm.
  assert (Hstrict : StronglySorted addr_lt sl) by (by apply sort_by_address_strict).
  pose proof (merge_updates_perm sl us Hstrict Hus) as Hm. fold merged in Hm.
  apply NoDup_app in Hnd as (_ & Hdisj & _).
  assert (Hinm : forall a, a ∈ addrs ds -> a ∈ addrs merged).
  { intros a Ha. rewrite Hm, fmap_app. apply elem_of_app. left. apply keep_out_addrs_incl. split; [|rewrite Hsl; auto].
    intros Hu. by apply (Hdisj a). }
  assert (Hnm : NoDup (addrs merged)) by (by apply strict_NoDup, merge_updates_sorted).
  rewrite remove_loop_spec; [|by apply merge_updates_sorted|done|done].
  rewrite (proj2 (Z.ltb_ge _ _)).
  2: { pose proof (keep_out_split _ _ Hnm (strict_NoDup _ Hds) Hinm) as Hp%Permutation_length.
       rewrite length_app, !length_fmap in Hp. unfold lenZ. lia. }
  eexists. split; [done|]. rewrite Hm. unfold keep_out at 1. rewrite filter_app.
  fold (keep_out (addrs ds) (keep_out (addrs us) sl)) (keep_out (addrs ds) us).
  rewrite (keep_out_all _ us).
  - rewrite <- keep_out_app, Hsl. rewrite (keep_out_ext (addrs ds ++ addrs us) (addrs us ++ addrs ds)); [done|].
    apply Permutation_app_comm.
  - intros u Hu Hd. apply (Hdisj (Address u)); [|done]. apply list_elem_of_fmap. eauto.
Qed.

(** The emptiness test is exact for removals of existing validators. *)
Lemma would_be_empty_spec vals us ds :
  NoDup (addrs (Validators vals)) -> NoDup (addrs us ++ addrs ds) ->
  (forall a, a ∈ addrs ds -> a ∈ addrs (Validators vals)) ->
  ((numNewValidators us vals =? 0) && (lenZ (Validators vals) =? lenZ ds)) = true <->
  keep_out (addrs us ++ addrs ds) (Validators vals) ++ us = [].
Proof.
  intros Hl Hnd Hin. pose proof Hnd as (_ & Hdisj & Hds)%NoDup_app.
  pose proof (keep_out_split _ _ Hl Hds Hin) as Hp. pose proof Hp as Hlen%Permutation_length.
  rewrite length_app, !length_fmap in Hlen. unfold numNewValidators, lenZ.
  rewrite andb_true_iff, !Z.eqb_eq, keep_out_app. split.
  - intros [Hnew Hlens].
    assert (keep_out (addrs ds) (Validators vals) = []) as Hk by (apply nil_length_inv; lia).
    rewrite Hk in *. rewrite fmap_nil, app_nil_r in Hp. cbn [keep_out]. rewrite (keep_out_all _ []) by (intros ? []%elem_of_nil).
    destruct us as [|u us]; [done|]. exfalso. rewrite filter_cons in Hnew. case_decide as Hu; [cbn in Hnew; lia|].
    apply (Hdisj (Address u)); [left|]. rewrite <- Hp. apply HasAddress_true.
    by destruct (HasAddress vals (Address u)).
  - intros [Hk ->]%app_eq_nil. split; [done|].
    change (addrs []) with (@nil bytes) in Hk. rewrite keep_out_nil in Hk. rewrite Hk in Hlen. cbn in Hlen. lia.
Qed.

(** ** The whole update *)

(** The list of a set built from [l3] by the last lines of the update: summed,
    rescaled, centred and sorted by power. *)
Lemma finish_spec l3 t :
  l3 <> [] -> NoDup (addrs l3) -> ([] ∉ addrs l3) -> Forall (fun v => 0 < VotingPower v) l3 ->
  Zsum (powers l3) <= MaxTotalVotingPower -> Forall prio_ok l3 ->
  let P := Zsum (powers l3) in
  exists r l4, updateTotalVotingPower (E:=valset_error) (mkValidatorSet l3 t) = Ok (mkValidatorSet l3 P) /\
    TotalVotingPower (E:=valset_error) (mkValidatorSet l3 P) = Ok (P, mkValidatorSet l3 P) /\
    RescalePriorities (E:=valset_error) (mkValidatorSet l3 P) (wrap64 (PriorityWindowSizeFactor * P)) = Ok r /\
    shiftByAvgProposerPriority (E:=valset_error) r = Ok (mkValidatorSet l4 P) /\
    same_but_priority l3 l4 /\ centred (2 * P) l4.
Proof.
  intros Hne Hnd Ha Hpos Hmax Hprio P.
  assert (Hwf3 : valset_wf (mkValidatorSet l3 P)) by (constructor; cbn; auto).
  pose proof (wf_sum_pos _ Hwf3 Hne) as HP. cbn in HP. fold P in HP.
  assert (wrap64 (PriorityWindowSizeFactor * P) = 2 * P) as ->.
  { apply wrap64_id. unfold PriorityWindowSizeFactor. fold P in Hmax. rewrite MaxTotal_val in Hmax. unfold_ints. lia. }
  destruct (rescale_shift_spec (E:=valset_error) (mkValidatorSet l3 P) (2 * P)) as (Hs & Hc & Heq);
    [done|done|fold P in Hmax; lia|]. set (l4 := recentre _ _) in *. apply obind_Ok in Heq as (r & Hr & Hshift).
  exists r, l4. split_and!; try done.
  - unfold updateTotalVotingPower. cbn [Validators].
    rewrite sum_power_spec by (try apply power_nonneg; done || lia). done.
  - by rewrite TotalVotingPower_spec.
Qed.

Lemma centred_perm d l l' : l ≡ₚ l' -> centred d l -> centred d l'.
Proof.
  intros Hp [H1 H2]. split.
  - intros v w Hv Hw. rewrite <- Hp in Hv, Hw. auto.
  - unfold lenZ in *. by rewrite <- Hp.
Qed.

(** What a successful update leaves. *)
Record updated (m : gmap bytes Z) (vals' : ValidatorSet) : Prop := {
  up_wf : valset_wf vals';
  up_map : power_map (Validators vals') = m;
  up_total : totalVotingPower vals' = map_total m;
  up_sorted : StronglySorted (not_after less_by_power) (Validators vals');
  up_centred : centred (2 * map_total m) (Validators vals')
}.

Lemma updated_finish l3 l4 m :
  NoDup (addrs l3) -> ([] ∉ addrs l3) -> Forall (fun v => 0 < VotingPower v) l3 ->
  Zsum (powers l3) <= MaxTotalVotingPower -> power_map l3 = m ->
  same_but_priority l3 l4 -> centred (2 * Zsum (powers l3)) l4 ->
  updated m (mkValidatorSet (sort_by less_by_power l4) (Zsum (powers l3))).
Proof.
  intros Hnd Ha Hpos Hmax Hm Hs Hc. pose proof (sort_by_perm less_by_power l4) as Hp.
  pose proof (same_but_priority_addrs _ _ Hs) as Has. pose proof (same_but_priority_powers _ _ Hs) as Hps.
  assert (Ht : Zsum (powers l3) = map_total m) by (by rewrite <- Hm, power_map_total).
  constructor; cbn [Validators totalVotingPower]; [constructor; cbn [Validators totalVotingPower]|..].
  - by rewrite Hp, Has.
  - by rewrite Hp, Has.
  - rewrite Hp. by eapply same_but_priority_positive.
  - by rewrite Hp, Hps.
  - right. by rewrite Hp, Hps.
  - rewrite Hp. apply Forall_forall. intros v Hv. pose proof (centred_range _ _ v Hc Hv). unfold prio_ok. lia.
  - rewrite <- (power_map_perm l4); [|by rewrite Has|by rewrite Hp]. by rewrite (power_map_same _ _ Hs).
  - done.
  - apply sort_by_sorted, _.
  - rewrite <- Ht. eapply centred_perm; [symmetry; apply Hp|done].
Qed.

Lemma power_map_empty l : power_map l = ∅ -> l = [].
Proof. destruct l as [|v l]; [done|]. rewrite power_map_cons. intros H. by apply insert_non_empty in H. Qed.

Lemma power_map_is_Some l a : is_Some (power_map l !! a) <-> a ∈ addrs l.
Proof.
  rewrite power_map_lookup, fmap_is_Some. destruct (lookup_addr l a) as [v|] eqn:E.
  - split; [|eauto]. intros _. apply lookup_addr_Some in E as [Hv <-]. apply list_elem_of_fmap. eauto.
  - apply lookup_addr_None in E. split; [intros [? [=]]|done].
Qed.

Section update.
  Context (vals : ValidatorSet) (changes : list Validator) (allowDeletes : bool).
  Hypothesis Hwf : valset_wf vals.
  Hypothesis Hproc : processable changes.
  #[local] Abbreviation l := (Validators vals).
  #[local] Abbreviation scs := (sort_by less_by_address changes).
  #[local] Abbreviation us := (nonzero scs).
  #[local] Abbreviation ds := (zero scs).
  #[local] Abbreviation m' := (apply_changes (power_map l) changes).

Lemma halves_perm : us ++ ds ≡ₚ changes.
Proof. by rewrite nonzero_zero_perm, sort_by_perm. Qed.

Lemma halves_nodup : NoDup (addrs us ++ addrs ds).
Proof. rewrite <- fmap_app, halves_perm. apply Hproc. Qed.

Lemma elem_of_deletes d : d ∈ ds <-> VotingPower d = 0 /\ d ∈ changes.
Proof. unfold zero. by rewrite list_elem_of_filter, sort_by_perm. Qed.

Lemma elem_of_updates u : u ∈ us <-> VotingPower u <> 0 /\ u ∈ changes.
Proof. unfold nonzero. by rewrite list_elem_of_filter, sort_by_perm. Qed.

Lemma halves_sorted : StronglySorted addr_lt us /\ StronglySorted addr_lt ds.
Proof. split; apply filter_sorted, sort_by_address_strict, Hproc. Qed.

Lemma updates_ok : Forall change_ok us.
Proof.
  apply Forall_forall. intros u [_ Hu]%elem_of_updates. destruct Hproc as (_ & _ & Hok).
  by apply (proj1 (Forall_forall _ _) Hok).
Qed.

(** The edited map, by the list the code builds. *)
Lemma edited_map : power_map (keep_out (addrs us ++ addrs ds) l ++ us) = m'.
Proof.
  destruct Hproc as (Hnd & _ & _).
  assert (Hs : NoDup (addrs scs)) by (by rewrite sort_by_perm).
  rewrite (keep_out_ext _ (addrs scs)) by (by rewrite <- fmap_app, nonzero_zero_perm).
  rewrite power_map_edit by done. apply map_eq. intros a. rewrite !apply_changes_lookup by done.
  by rewrite (lookup_addr_perm scs changes a) by (done || apply sort_by_perm).
Qed.

Lemma edited_nodup : NoDup (addrs (keep_out (addrs us ++ addrs ds) l ++ us)).
Proof.
  rewrite fmap_app. pose proof halves_nodup as (Hus & _ & _)%NoDup_app. apply NoDup_app. split_and!; [|..|done].
  - apply keep_out_NoDup, Hwf.
  - intros a [Ha _]%keep_out_addrs_incl Hu. apply Ha, elem_of_app. by left.
Qed.

Lemma edited_total : new_total l us ds = map_total m'.
Proof. by rewrite <- edited_map, power_map_total, fmap_app, Zsum_app by apply edited_nodup. Qed.

Lemma deletes_exist :
  (forall a, a ∈ addrs ds -> a ∈ addrs l) <->
  Forall (fun c => VotingPower c = 0 -> is_Some (power_map l !! Address c)) changes.
Proof.
  rewrite Forall_forall. split.
  - intros H c Hc Hz. apply power_map_is_Some, H, list_elem_of_fmap. exists c. by rewrite elem_of_deletes.
  - intros H a (d & -> & [Hz Hd]%elem_of_deletes)%list_elem_of_fmap. apply power_map_is_Some. auto.
Qed.

(** The list after the removals: everything the last lines need. *)
Lemma edited_list tvp :
  new_total l us ds <= MaxTotalVotingPower -> 0 <= tvp <= 2 * MaxTotalVotingPower ->
  (forall a, a ∈ addrs ds -> a ∈ addrs l) ->
  let us' := computeNewPriorities us (filled vals) tvp in
  exists l3, applyRemovals (E:=valset_error) (applyUpdates (filled vals) us') ds = Ok (set_validators (filled vals) l3) /\
    NoDup (addrs l3) /\ ([] ∉ addrs l3) /\ Forall (fun v => 0 < VotingPower v) l3 /\
    Zsum (powers l3) <= MaxTotalVotingPower /\ Forall prio_ok l3 /\ power_map l3 = m'.
Proof.
  intros Hmax Ht Hin us'. destruct halves_sorted as [Hsu Hsd].
  assert (Hs : same_but_priority us us') by apply computeNewPriorities_same.
  pose proof (same_but_priority_addrs _ _ Hs) as Ha. pose proof (same_but_priority_powers _ _ Hs) as Hp.
  destruct (apply_both (E:=valset_error) (filled vals) us' ds) as (l3 & Heq & Hl3); try done.
  { apply Hwf. } { by eapply same_strict. } { rewrite Ha. apply halves_nodup. }
  rewrite Ha in Hl3. cbn [filled Validators] in Hl3. exists l3. split; [done|].
  assert (Hfull : same_but_priority (keep_out (addrs us ++ addrs ds) l ++ us) (keep_out (addrs us ++ addrs ds) l ++ us')).
  { apply Forall2_app; [apply same_but_priority_refl|done]. }
  assert (Hadd : addrs l3 ≡ₚ addrs (keep_out (addrs us ++ addrs ds) l ++ us)).
  { by rewrite Hl3, (same_but_priority_addrs _ _ Hfull). }
  assert (Hnd : NoDup (addrs l3)) by (rewrite Hadd; apply edited_nodup).
  assert (Hpos : Forall (fun u => 0 < VotingPower u) us).
  { apply Forall_forall. intros u [Hu Hin']%elem_of_updates. destruct Hproc as (_ & _ & Hok).
    apply (proj1 (Forall_forall _ _) Hok) in Hin'. unfold change_ok in Hin'. lia. }
  split_and!; [done|..].
  - rewrite Hadd, fmap_app, not_elem_of_app, keep_out_addrs_incl. split; [intros [_ H]; by apply (wf_addr _ Hwf)|].
    intros (u & Hu & [_ Hin']%elem_of_updates)%list_elem_of_fmap. destruct Hproc as (_ & Hempty & _).
    apply Hempty. rewrite Hu. apply list_elem_of_fmap. eauto.
  - rewrite Hl3. apply Forall_app. split; [apply keep_out_Forall, Hwf|]. by eapply same_but_priority_positive.
  - rewrite Hl3, fmap_app, Zsum_app, Hp. exact Hmax.
  - rewrite Hl3. apply Forall_app. split; [apply keep_out_Forall, Hwf|].
    apply computeNewPriorities_prio; [by apply filled_wf|done].
  - rewrite (power_map_perm l3 _ Hnd Hl3), (power_map_same _ _ Hfull). apply edited_map.
Qed.

(** The update once the changes are split. *)
Lemma update_unfold :
  changes <> [] ->
  updateWithChangeSet changes allowDeletes vals =
  if negb allowDeletes && bool_decide (ds <> []) then (Err ErrDeletesNotAllowed, vals)
  else if (numNewValidators us vals =? 0) && (lenZ l =? lenZ ds) then (Err ErrWouldBeEmpty, vals)
  else match verifyRemovals ds vals with
       | Ok removed =>
           match verifyUpdates us removed vals with
           | (Ok tvp, vals1) =>
               (glift (applyRemovals (applyUpdates vals1 (computeNewPriorities us vals1 tvp)) ds) ≫= fun vals =>
                glift (updateTotalVotingPower vals) ≫= fun vals =>
                glift (TotalVotingPower vals) ≫= fun '(total, vals) =>
                glift (RescalePriorities vals (wrap64 (PriorityWindowSizeFactor * total))) ≫= fun vals =>
                glift (shiftByAvgProposerPriority vals) ≫= fun vals =>
                gput (set_validators vals (sort_by less_by_power (Validators vals))))
               (applyUpdates vals1 (computeNewPriorities us vals1 tvp))
           | (Err e, vals1) => (Err e, vals1)
           | (Panic, vals1) => (Panic, vals1)
           end
       | Err e => (Err e, vals)
       | Panic => (Panic, vals)
       end.
Proof.
  intros Hne. unfold updateWithChangeSet. rewrite bool_decide_false by done.
  destruct (processChanges_spec changes) as [[_ Heq]|[Hno _]]; [|done].
  unfold mbind at 1, gom_bind at 1, glift at 1. rewrite Heq.
  destruct (negb allowDeletes && bool_decide (ds <> [])); [done|].
  unfold mbind at 1, gom_bind at 1, gget at 1.
  destruct ((numNewValidators us vals =? 0) && (lenZ l =? lenZ ds)); [done|].
  unfold mbind at 1, gom_bind at 1, glift at 1. destruct (verifyRemovals ds vals) as [removed| |]; [|done|done].
  unfold mbind at 1, gom_bind at 1. by destruct (verifyUpdates us removed vals) as [[tvp| |] vals1].
Qed.

Lemma deletes_nil : ds = [] <-> Forall (fun c => VotingPower c <> 0) changes.
Proof.
  rewrite Forall_forall. split.
  - intros Hnil c Hc Hz. assert (c ∈ ds) as H by (by apply elem_of_deletes). rewrite Hnil in H. by apply elem_of_nil in H.
  - intros H. destruct ds as [|d r] eqn:E; [done|]. exfalso.
    assert (d ∈ ds) as [Hz Hd]%elem_of_deletes by (rewrite E; left). by apply (H d).
Qed.

Lemma update_success :
  changes <> [] -> valid_changes allowDeletes (power_map l) changes ->
  exists vals', updateWithChangeSet changes allowDeletes vals = (Ok tt, vals') /\ updated m' vals'.
Proof.
  intros Hne [_ _ _ Hdel Hnon Htot]. rewrite update_unfold by done.
  assert (Hin : forall a, a ∈ addrs ds -> a ∈ addrs l).
  { apply deletes_exist. eapply Forall_impl; [exact Hdel|]. cbn. tauto. }
  rewrite <- edited_total in Htot.
  assert (negb allowDeletes && bool_decide (ds <> []) = false) as ->.
  { destruct allowDeletes eqn:Ead; [done|]. apply bool_decide_eq_false. intros H. apply H, deletes_nil.
    eapply Forall_impl; [exact Hdel|]. cbn. intros c Hc Hz. by destruct (Hc Hz). }
  destruct (_ && _) eqn:Eempty.
  { apply would_be_empty_spec in Eempty; [|apply Hwf|apply halves_nodup|done].
    exfalso. apply Hnon. rewrite <- edited_map, Eempty. done. }
  rewrite verifyRemovals_ok by (try done; pose proof halves_nodup as (_ & _ & ?)%NoDup_app; done).
  rewrite verifyUpdates_spec by (done || apply updates_ok || apply halves_nodup). rewrite decide_True by done.
  pose proof (removed_range vals us ds Hwf halves_nodup) as Hrem.
  pose proof (new_total_nonneg vals us ds Hwf updates_ok) as Hnn. pose proof (wf_sum _ Hwf).
  destruct (edited_list (new_total l us ds + Zsum (held l <$> addrs ds))) as
    (l3 & Heq & Hnd & Ha & Hpos & Hmax & Hprio & Hm); [done|lia|done|].
  assert (Hne3 : l3 <> []) by (intros ->; apply Hnon; by rewrite <- Hm).
  destruct (finish_spec l3 (totalVotingPower (filled vals)) Hne3 Hnd Ha Hpos Hmax Hprio)
    as (r & l4 & H1 & H2 & H3 & H4 & Hs & Hc).
  rewrite Heq. unfold mbind, gom_bind, glift. cbn [set_validators]. unfold set_validators at 1.
  cbn [totalVotingPower filled] in H1 |- *. rewrite H1, H2, H3, H4. eexists. split; [reflexivity|].
  cbn [Validators]. by apply updated_finish.
Qed.

Lemma update_failure :
  changes <> [] -> ~ valid_changes allowDeletes (power_map l) changes ->
  exists e vals', updateWithChangeSet changes allowDeletes vals = (Err e, vals') /\
    (vals' = vals \/ vals' = filled vals).
Proof.
  intros Hne Hno. rewrite update_unfold by done.
  destruct (negb allowDeletes && bool_decide (ds <> [])) eqn:Edel; [eauto|].
  destruct ((numNewValidators us vals =? 0) && _) eqn:Eempty; [eauto|].
  destruct (decide (Forall (fun a => a ∈ addrs l) (addrs ds))) as [Hin|Hin]; rewrite Forall_forall in Hin.
  2: { rewrite verifyRemovals_err by done. eauto. }
  rewrite verifyRemovals_ok by (try done; pose proof halves_nodup as (_ & _ & ?)%NoDup_app; done).
  rewrite verifyUpdates_spec by (done || apply updates_ok || apply halves_nodup).
  case_decide as Htot; [|eauto]. exfalso. apply Hno. destruct Hproc as (H1 & H2 & H3). constructor; try done.
  - apply deletes_exist in Hin. apply Forall_forall. intros c Hc Hz.
    split; [|by apply (proj1 (Forall_forall _ _) Hin)]. destruct allowDeletes; [done|].
    apply bool_decide_eq_false in Edel. exfalso. apply Edel. intros Hnil.
    apply deletes_nil in Hnil. by apply (proj1 (Forall_forall _ _) Hnil c Hc).
  - rewrite <- edited_map. intros Hnil%power_map_empty.
    apply would_be_empty_spec in Hnil; [|apply Hwf|apply halves_nodup|done]. by rewrite Hnil in Eempty.
  - by rewrite <- edited_total.
Qed.

End update.

(** ** Properties *)

Lemma unprocessable_invalid b m changes : ~ processable changes -> ~ valid_changes b m changes.
Proof. intros H [H1 H2 H3 _ _ _]. by apply H. Qed.

(** The update on any well-formed set, valid changes or not. *)
Lemma update_cases vals changes allowDeletes :
  valset_wf vals -> changes <> [] ->
  (valid_changes allowDeletes (power_map (Validators vals)) changes /\
   exists vals', updateWithChangeSet changes allowDeletes vals = (Ok tt, vals') /\
     updated (apply_changes (power_map (Validators vals)) changes) vals') \/
  ((~ valid_changes allowDeletes (power_map (Validators vals)) changes) /\
   exists e vals', updateWithChangeSet changes allowDeletes vals = (Err e, vals') /\
     (vals' = vals \/ vals' = filled vals)).
Proof.
  intros Hwf Hne. destruct (processChanges_spec changes) as [[Hp _]|[Hno [e He]]].
  - set (M := power_map (Validators vals)).
    destruct (decide (Forall (fun c => VotingPower c = 0 -> allowDeletes = true /\ is_Some (M !! Address c)) changes
      /\ apply_changes M changes <> ∅ /\ map_total (apply_changes M changes) <= MaxTotalVotingPower)) as [Hv|Hv].
    + left. assert (valid_changes allowDeletes M changes) by (destruct Hp as (? & ? & ?), Hv as (? & ? & ?); by constructor).
      split; [done|]. by apply update_success.
    + right. assert (~ valid_changes allowDeletes M changes) by (intros [? ? ? ? ? ?]; by apply Hv).
      split; [done|]. by apply update_failure.
  - right. split; [by apply unprocessable_invalid|]. exists e, vals. split; [|by left].
    unfold updateWithChangeSet. rewrite bool_decide_false by done.
    unfold mbind, gom_bind, glift. by rewrite He.
Qed.

(** C38: [updateWithChangeSet] implements the edit of a map from addresses to
    powers.  On a well-formed set it never panics.  It succeeds exactly for the
    valid changes: distinct non-empty addresses, powers from zero to the greatest
    total, removals allowed and only of members, a non-empty result, and a new
    total within the bound.  Then the new set holds the edited map, is well
    formed, is sorted by power, its cached total is the sum, and its priorities
    are centred within twice the total.  Otherwise it returns an error, and the
    validators and their priorities stay as they were. *)
Theorem update_refines vals changes allowDeletes :
  valset_wf vals -> changes <> [] ->
  let spec := apply_changes (power_map (Validators vals)) changes in
  (valid_changes allowDeletes (power_map (Validators vals)) changes ->
   exists vals', updateWithChangeSet changes allowDeletes vals = (Ok tt, vals') /\ updated spec vals') /\
  (~ valid_changes allowDeletes (power_map (Validators vals)) changes ->
   exists e vals', updateWithChangeSet changes allowDeletes vals = (Err e, vals') /\
     Validators vals' = Validators vals /\ valset_wf vals').
Proof.
  intros Hwf Hne spec. destruct (update_cases vals changes allowDeletes Hwf Hne) as
    [(Hv & vals' & H)|(Hv & e & vals' & H & Hor)]; (split; [|intros Hno]); try done.
  - intros _. by exists vals'.
  - exists e, vals'. split; [done|]. destruct Hor as [-> | ->]; [done|]. split; [done|by apply filled_wf].
Qed.

Definition sample_changes : list Validator :=
  [mkValidator [3] None 0 0 0; mkValidator [9] None 7 0 0; mkValidator [1] None 6 0 0].

Lemma update_refines_witness :
  (exists vals', updateWithChangeSet sample_changes true sample_set = (Ok tt, vals') /\
     updated (apply_changes (power_map sample_validators) sample_changes) vals') /\
  (exists e vals', updateWithChangeSet sample_changes false sample_set = (Err e, vals') /\
     Validators vals' = sample_validators).
Proof.
  split.
  - apply (update_refines sample_set sample_changes true sample_set_wf); [discriminate|].
    constructor.
    + apply (bool_decide_unpack _). vm_compute. exact I.
    + apply (bool_decide_unpack _). vm_compute. exact I.
    + repeat constructor; vm_compute; discriminate.
    + apply (bool_decide_unpack _). vm_compute. exact I.
    + vm_compute. discriminate.
    + vm_compute. discriminate.
  - destruct (proj2 (update_refines sample_set sample_changes false sample_set_wf ltac:(discriminate)))
      as (e & vals' & H1 & H2 & _).
    + intros [_ _ _ Hdel _ _]. apply Forall_cons in Hdel as [Hd _]. destruct (Hd eq_refl). discriminate.
    + exists e, vals'. split; [exact H1|exact H2].
Defined.

(** *** Reachable sets *)

Definition empty_set : ValidatorSet := mkValidatorSet [] 0.

Lemma empty_set_wf : valset_wf empty_set.
Proof.
  constructor; cbn; [constructor|apply not_elem_of_nil|constructor|rewrite MaxTotal_val; lia|by left|constructor].
Qed.

(** What a node does to a set: it changes it, with or without success,
    advances the priorities, or reads the total. *)
Inductive valset_step : ValidatorSet -> ValidatorSet -> Prop :=
| step_update vals changes allowDeletes res vals' :
    updateWithChangeSet changes allowDeletes vals = (res, vals') -> valset_step vals vals'
| step_increment vals times vals' :
    4 * rounds_cap vals times <= 15 * MaxTotalVotingPower ->
    IncrementProposerPriority (E:=unit) vals times = Ok vals' -> valset_step vals vals'
| step_total vals t vals' :
    TotalVotingPower (E:=unit) vals = Ok (t, vals') -> valset_step vals vals'.

Lemma valset_step_wf vals vals' : valset_wf vals -> valset_step vals vals' -> valset_wf vals'.
Proof.
  intros Hwf Hs. destruct Hs as [vals changes allow res vals' H|vals times vals' Hn H|vals t vals' H].
  - destruct (decide (changes = [])) as [->|Hne]; [by injection H as _ <-|].
    destruct (update_cases vals changes allow Hwf Hne) as [(_ & v & Hv & Hu)|(_ & e & v & Hv & Hor)];
      rewrite Hv in H; injection H as _ <-; [apply Hu|]. destruct Hor as [-> | ->]; [done|by apply filled_wf].
  - destruct (Validators vals) as [|v0 l0] eqn:El; [by unfold IncrementProposerPriority, IsNilOrEmpty in H; rewrite El in H|].
    assert (Hne : Validators vals <> []) by (by rewrite El).
    destruct (Z_lt_le_dec 0 times) as [Ht|Ht].
    2: { unfold IncrementProposerPriority in H. rewrite IsNilOrEmpty_false, (proj2 (Z.leb_le _ _)) in H by done. done. }
    destruct (increment_wf (E:=unit) vals times Hwf Hne Ht Hn) as (v & H' & Hw). rewrite H' in H. by injection H as <-.
  - rewrite TotalVotingPower_spec in H by done. injection H as _ <-. by apply filled_wf.
Qed.

(** A call makes room for itself in two cases. *)
Lemma rounds_room vals times :
  valset_wf vals -> Validators vals <> [] -> times = 1 \/ (length (Validators vals) <= 46)%nat -> 4 * rounds_cap vals times <= 15 * MaxTotalVotingPower.
Proof.
  intros Hwf Hne [->|Hn]; [by apply one_round_room|].
  pose proof (rotation_cap_small (length (Validators vals)) (Zsum (powers (Validators vals)))) as Hs.
  pose proof (wf_sum_pos _ Hwf Hne). pose proof (wf_sum _ Hwf). unfold rounds_cap. destruct (Validators vals); [done|]. cbn [length] in *. lia.
Qed.

(** C39: every set a node can come to is well formed.  A set that
    [NewValidatorSet] builds is well formed, and so is every set reached from it
    by changes (accepted or refused), by reading the total, and by advancing the
    priorities, in any order and number, where the rounds of a call leave room in
    the integers: one round always does, any number does for at most 46 validators,
    and else it depends on the total power.  Well formed: addresses are
    distinct and not empty, powers are positive, the sum is within the bound and
    is what the cache holds, and the priorities are in the window in which the
    arithmetic is exact. *)
Theorem reachable_wf valz vals0 vals :
  NewValidatorSet (E:=unit) valz = Ok vals0 -> rtc valset_step vals0 vals -> valset_wf vals.
Proof.
  intros H0 Hr. assert (Hwf : valset_wf vals0).
  { unfold NewValidatorSet in H0. fold empty_set in H0.
    destruct (updateWithChangeSet valz false empty_set) as [[[]|e|] v] eqn:E; [|done|done]. injection H0 as <-.
    eapply valset_step_wf; [apply empty_set_wf|]. by eapply step_update. }
  clear H0. induction Hr as [|x y z Hxy _ IH]; [done|]. apply IH. by eapply valset_step_wf.
Qed.

Lemma reachable_wf_witness :
  exists vals0 vals, NewValidatorSet (E:=unit) sample_validators = Ok vals0 /\
    rtc valset_step vals0 vals /\ valset_wf vals /\ powers (Validators vals) = [7; 6; 3] /\
    IncrementProposerPriority (E:=unit) (snd (updateWithChangeSet sample_changes true vals0)) 100 = Ok vals.
Proof.
  set (vals0 := match NewValidatorSet (E:=unit) sample_validators with Ok v => v | _ => empty_set end).
  set (vals1 := snd (updateWithChangeSet sample_changes true vals0)).
  set (vals2 := match IncrementProposerPriority (E:=unit) vals1 100 with Ok v => v | _ => empty_set end).
  exists vals0, vals2.
  assert (H0 : NewValidatorSet (E:=unit) sample_validators = Ok vals0) by (vm_compute; reflexivity).
  assert (Hi : IncrementProposerPriority (E:=unit) vals1 100 = Ok vals2) by (vm_compute; reflexivity).
  assert (H1 : rtc valset_step vals0 vals2).
  { eapply rtc_l; [apply (step_update vals0 sample_changes true (Ok tt) vals1); vm_compute; reflexivity|].
    apply rtc_once. apply (step_increment vals1 100); [vm_compute; discriminate|exact Hi]. }
  split; [exact H0|]. split; [exact H1|]. split; [exact (reachable_wf _ _ _ H0 H1)|]. split; [vm_compute; reflexivity|exact Hi].
Defined.

(** *** The proposer *)

Lemma sumPriority_powers l :
  Forall (fun v => 0 < VotingPower v) l -> Zsum (powers l) <= MaxTotalVotingPower ->
  sumPriority l = Zsum (powers l) /\ Forall (fun v => Priority v = VotingPower v) l.
Proof.
  intros Hpos Hmax. assert (Hall : Forall (fun v => Priority v = VotingPower v) l).
  { apply Forall_forall. intros v Hv. pose proof (power_le_sum l v Hpos Hv). unfold Priority, candidate_priority.
    rewrite MaxTotal_val in Hmax. apply wrapu64_id. unfold_ints. lia. }
  split; [|done]. unfold sumPriority. f_equal. apply list_fmap_ext. intros i v Hv%list_elem_of_lookup_2.
  by apply (proj1 (Forall_forall _ _) Hall).
Qed.

Lemma sumPriority_nonneg l :
  Forall (fun v => 0 < VotingPower v) l -> Forall (fun v => Priority v = VotingPower v) l ->
  Forall (fun v => 0 <= Priority v) l.
Proof. intros H1 H2. apply Forall_forall. intros v Hv. rewrite Forall_forall in *. rewrite H2 by done. specialize (H1 v Hv). lia. Qed.

Lemma SelectProposer_segment `{CryptoLib} {E} vals proofHash height round :
  valset_wf vals -> Validators vals <> [] ->
  let total := Zsum (powers (Validators vals)) in
  let t := fst (RandomThreshold (hashToSeed (MakeRoundHash proofHash height round)) total) in
  exists pre val post,
    SelectProposer (E:=E) vals proofHash height round = Ok (val, filled vals) /\
    Validators vals = pre ++ val :: post /\
    Zsum (powers pre) <= t < Zsum (powers pre) + VotingPower val /\ 0 <= t < total.
Proof.
  intros Hwf Hne total t. unfold SelectProposer. rewrite IsNilOrEmpty_false by done.
  rewrite TotalVotingPower_spec by done. fold total (filled vals). cbn [mbind outcome_bind].
  pose proof (wf_sum_pos _ Hwf Hne) as Hpos. pose proof (wf_sum _ Hwf) as Hmax. fold total in Hpos, Hmax.
  destruct (sumPriority_powers _ (wf_power _ Hwf) Hmax) as [Hsum Hall]. fold total in Hsum.
  assert (Hrange : 0 < total < two64) by (rewrite MaxTotal_val in Hmax; unfold two64; lia).
  rewrite wrapu64_id by (unfold uint64; lia).
  set (seed := hashToSeed _) in *.
  destruct (sampling_spec (E:=E) seed (Validators vals) 1) as (samples & Heq & Hcov);
    [apply sumPriority_nonneg; [apply Hwf|done]|by rewrite Hsum|done|].
  rewrite Hsum in Heq, Hcov. cbn [Validators]. rewrite Heq.
  change (Z.to_nat 1) with 1%nat in Hcov. cbn [draw_thresholds] in Hcov.
  destruct (RandomThreshold seed total) as [t0 s0] eqn:Et. change t with t0.
  assert (Hms : merge_sort Z.le [t0] = [t0]) by (by apply Permutation_singleton_r, merge_sort_Permutation).
  rewrite Hms in Hcov. inversion Hcov as [|val ? sm ? (pre & post & Hl & Ht) Hrest]; subst.
  cbn [mbind outcome_bind]. exists pre, val, post. do 2 (split; [done|]). split.
  - rewrite Hl in Hall. apply Forall_app in Hall as [Hpre Hval]. apply Forall_cons in Hval as [Hval _].
    rewrite Hval in Ht. assert (sumPriority pre = Zsum (powers pre)) as Hsp; [|rewrite Hsp in Ht; lia].
    unfold sumPriority. f_equal. apply list_fmap_ext. intros i v Hv%list_elem_of_lookup_2.
    by apply (proj1 (Forall_forall _ _) Hpre).
  - by eapply RandomThreshold_range.
Qed.

(** [SelectProposer] returns a validator on every well-formed non-empty
    set, whatever the hash, height and round, and its choice is weighted by
    power: with the validators' powers laid end to end, it is the one whose
    segment holds the threshold drawn from the round's hash.  Priorities play no
    part. *)
Theorem proposer_selected `{CryptoLib} {E} vals proofHash height round :
  valset_wf vals -> Validators vals <> [] ->
  let total := Zsum (powers (Validators vals)) in
  let t := fst (RandomThreshold (hashToSeed (MakeRoundHash proofHash height round)) total) in
  exists pre val post,
    SelectProposer (E:=E) vals proofHash height round = Ok (val, filled vals) /\
    Validators vals = pre ++ val :: post /\
    Zsum (powers pre) <= t < Zsum (powers pre) + VotingPower val /\ 0 <= t < total.
Proof. apply SelectProposer_segment. Qed.

Lemma proposer_selected_witness :
  exists pre val post t,
    SelectProposer (H:=toy_crypto) (E:=unit) sample_set [1; 2] 10 0 = Ok (val, filled sample_set) /\
    sample_validators = pre ++ val :: post /\
    Zsum (powers pre) <= t < Zsum (powers pre) + VotingPower val.
Proof.
  destruct (@proposer_selected toy_crypto unit sample_set [1; 2] 10 0 sample_set_wf ltac:(discriminate))
    as (pre & val & post & H1 & H2 & H3 & _).
  exists pre, val, post. eexists. split; [exact H1|]. split; [exact H2|exact H3].
Defined.
