(* ===== verification/Proto.v ===== *)
(** * Canonical encodings

    - the generated marshallers of src/proto/ostracon/types/canonical.pb.go and
      of [PartSetHeader] in types.pb.go;
    - [MarshalDelimited] of src/libs/protoio/writer.go.

    The generated code fills a buffer of [Size()] bytes from its end; the
    definitions give the bytes in their order, and the theorem on sizes says
    the buffer is filled exactly.  Times are nanoseconds since the zero time of
    Go; their encoding is a library's. *)

From Stdlib Require Import ZArith Lia.
From stdpp Require Import prelude list.
From S2P Require Import Prelude.

Local Open Scope Z_scope.

(** ** The wire format *)

(** [encodeVarintCanonical]; the fuel is the number of bits. *)
Fixpoint varint_loop (fuel : nat) (v : Z) : bytes :=
  match fuel with
  | O => [v]
  | S fuel => if 128 <=? v then Z.lor (Z.land v 127) 128 :: varint_loop fuel (Z.shiftr v 7) else [v]
  end.

Definition encodeVarint (v : Z) : bytes := varint_loop (S (Z.to_nat (Z.log2 v))) v.

(** [sovCanonical]: [(Len64(x|1) + 6) / 7]. *)
Definition sov (x : Z) : Z := (Z.log2 (Z.lor x 1) + 1 + 6) / 7.

(** The statements of the generated code for one field each: an integer and a
    byte string are left out at their zero value, a message is always there. *)
Definition field_varint (tag v : Z) : bytes := if v =? 0 then [] else tag :: encodeVarint (wrapu64 v).

Definition field_fixed64 (tag v : Z) : bytes := if v =? 0 then [] else tag :: put_uint64 (wrapu64 v).

Definition field_msg (tag : Z) (b : bytes) : bytes := tag :: encodeVarint (lenZ b) ++ b.

Definition field_bytes (tag : Z) (b : bytes) : bytes := if bool_decide (b = []) then [] else field_msg tag b.

(** The same for [Size()]. *)
Definition size_varint (v : Z) : Z := if v =? 0 then 0 else 1 + sov (wrapu64 v).

Definition size_fixed64 (v : Z) : Z := if v =? 0 then 0 else 9.

Definition size_msg (l : Z) : Z := 1 + l + sov l.

Definition size_bytes (b : bytes) : Z := if 0 <? lenZ b then size_msg (lenZ b) else 0.

(** ** Messages *)

Definition Time := Z.

(** [types.StdTimeMarshalTo] of gogo/protobuf; it fails outside the years 1 to
    9999. *)
Class TimeCodec := StdTimeMarshal : Time -> option bytes.

Record CanonicalPartSetHeader := mkCanonicalPartSetHeader { cpsh_Total : Z; cpsh_Hash : bytes }.
Record CanonicalBlockID := mkCanonicalBlockID { cbid_Hash : bytes; cbid_PartSetHeader : CanonicalPartSetHeader }.

Record CanonicalVote := mkCanonicalVote {
  cv_Type : Z; cv_Height : Z; cv_Round : Z; cv_BlockID : option CanonicalBlockID;
  cv_Timestamp : Time; cv_ChainID : bytes
}.

Record CanonicalProposal := mkCanonicalProposal {
  cp_Type : Z; cp_Height : Z; cp_Round : Z; cp_POLRound : Z; cp_BlockID : option CanonicalBlockID;
  cp_Timestamp : Time; cp_ChainID : bytes
}.

Definition CanonicalPartSetHeader_Marshal (m : CanonicalPartSetHeader) : bytes :=
  field_varint 0x8 (cpsh_Total m) ++ field_bytes 0x12 (cpsh_Hash m).

Definition CanonicalBlockID_Marshal (m : CanonicalBlockID) : bytes :=
  field_bytes 0xa (cbid_Hash m) ++
  field_msg 0x12 (CanonicalPartSetHeader_Marshal (cbid_PartSetHeader m)).

Definition CanonicalPartSetHeader_Size (m : CanonicalPartSetHeader) : Z :=
  size_varint (cpsh_Total m) + size_bytes (cpsh_Hash m).

Definition CanonicalBlockID_Size (m : CanonicalBlockID) : Z :=
  size_bytes (cbid_Hash m) + size_msg (CanonicalPartSetHeader_Size (cbid_PartSetHeader m)).

Section messages.
  Context {codec : TimeCodec}.

Definition CanonicalVote_Marshal (m : CanonicalVote) : option bytes :=
  t ← StdTimeMarshal (cv_Timestamp m);
  Some (field_varint 0x8 (cv_Type m) ++ field_fixed64 0x11 (cv_Height m) ++ field_fixed64 0x19 (cv_Round m) ++
        match cv_BlockID m with None => [] | Some b => field_msg 0x22 (CanonicalBlockID_Marshal b) end ++
        field_msg 0x2a t ++ field_bytes 0x32 (cv_ChainID m)).

Definition CanonicalProposal_Marshal (m : CanonicalProposal) : option bytes :=
  t ← StdTimeMarshal (cp_Timestamp m);
  Some (field_varint 0x8 (cp_Type m) ++ field_fixed64 0x11 (cp_Height m) ++ field_fixed64 0x19 (cp_Round m) ++
        field_varint 0x20 (cp_POLRound m) ++
        match cp_BlockID m with None => [] | Some b => field_msg 0x2a (CanonicalBlockID_Marshal b) end ++
        field_msg 0x32 t ++ field_bytes 0x3a (cp_ChainID m)).

(** The length [l] is what [SizeOfStdTime] reports. *)
Definition CanonicalVote_Size (m : CanonicalVote) (l : Z) : Z :=
  size_varint (cv_Type m) + size_fixed64 (cv_Height m) + size_fixed64 (cv_Round m) +
  match cv_BlockID m with None => 0 | Some b => size_msg (CanonicalBlockID_Size b) end +
  size_msg l + size_bytes (cv_ChainID m).

Definition CanonicalProposal_Size (m : CanonicalProposal) (l : Z) : Z :=
  size_varint (cp_Type m) + size_fixed64 (cp_Height m) + size_fixed64 (cp_Round m) +
  size_varint (cp_POLRound m) +
  match cp_BlockID m with None => 0 | Some b => size_msg (CanonicalBlockID_Size b) end +
  size_msg l + size_bytes (cp_ChainID m).

End messages.

(** [binary.PutUvarint] of the length, then the message. *)
Definition MarshalDelimited (msg : option bytes) : option bytes :=
  b ← msg; Some (encodeVarint (lenZ b) ++ b).

(** ** Varints are self-delimiting *)

Lemma varint_digit v : 0 <= v -> Z.lor (Z.land v 127) 128 = v mod 128 + 128.
Proof.
  intros Hv. change 127 with (Z.ones 7). rewrite Z.land_ones by lia. change (2 ^ 7) with 128.
  rewrite Z.add_nocarry_lxor, Z.lxor_lor; [done| |]; apply Z.bits_inj'; intros i Hi;
    rewrite Z.land_spec, Z.bits_0; change 128 with (2 ^ 7); rewrite Z.pow2_bits_eqb by lia;
    (destruct (Z.eqb_spec 7 i) as [<-|]; [|by rewrite andb_false_r]);
    rewrite Z.mod_pow2_bits_high by lia; done.
Qed.

Lemma varint_loop_step n v :
  0 <= v ->
  varint_loop (S n) v = if 128 <=? v then v mod 128 + 128 :: varint_loop n (v / 128) else [v].
Proof.
  intros Hv. cbn [varint_loop]. rewrite varint_digit, Z.shiftr_div_pow2 by lia. done.
Qed.

Lemma varint_loop_prefix n1 n2 a b r1 r2 :
  0 <= a < 2 ^ Z.of_nat n1 -> 0 <= b < 2 ^ Z.of_nat n2 ->
  varint_loop n1 a ++ r1 = varint_loop n2 b ++ r2 -> a = b /\ r1 = r2.
Proof.
  revert n2 a b. induction n1 as [|n1 IH]; intros n2 a b Ha Hb.
  - change (2 ^ Z.of_nat 0) with 1 in Ha. assert (a = 0) as -> by lia. destruct n2 as [|n2].
    + cbn. by intros [= <- ->].
    + rewrite varint_loop_step by lia. pose proof (Z.mod_pos_bound b 128).
      zcase; cbn; intros [= H1 H2]; [lia|done].
  - rewrite (varint_loop_step n1 a) by lia. pose proof (Z.mod_pos_bound a 128) as Ham.
    rewrite Nat2Z.inj_succ, Z.pow_succ_r in Ha by lia. destruct n2 as [|n2].
    + change (2 ^ Z.of_nat 0) with 1 in Hb. cbn. zcase; cbn; intros [= H1 H2]; [lia|done].
    + rewrite (varint_loop_step n2 b) by lia. pose proof (Z.mod_pos_bound b 128) as Hbm.
      rewrite Nat2Z.inj_succ, Z.pow_succ_r in Hb by lia.
      zcase; cbn [app]; intros [= H1 H2]; try lia; try done.
      pose proof (Z.div_mod a 128 ltac:(lia)). pose proof (Z.div_mod b 128 ltac:(lia)).
      apply IH in H2 as [Hd ->]; [split; [lia|done]|split; [apply Z.div_pos; lia|apply Z.div_lt_upper_bound; lia]..].
Qed.

Lemma varint_fuel v : 0 <= v -> 0 <= v < 2 ^ Z.of_nat (S (Z.to_nat (Z.log2 v))).
Proof.
  intros Hv. split; [done|]. pose proof (Z.log2_nonneg v). rewrite Nat2Z.inj_succ, Z2Nat.id by done.
  destruct (Z.eq_dec v 0) as [->|]; [done|]. apply Z.log2_spec. lia.
Qed.

Lemma encodeVarint_prefix a b r1 r2 :
  0 <= a -> 0 <= b -> encodeVarint a ++ r1 = encodeVarint b ++ r2 -> a = b /\ r1 = r2.
Proof. intros Ha Hb. apply varint_loop_prefix; by apply varint_fuel. Qed.

(** ** Sizes *)

Lemma varint_loop_length n v :
  0 <= v < 2 ^ Z.of_nat n -> lenZ (varint_loop n v) = sov v.
Proof.
  revert v. induction n as [|n IH]; intros v Hv.
  - change (2 ^ Z.of_nat 0) with 1 in Hv. by assert (v = 0) as -> by lia.
  - rewrite varint_loop_step by lia. rewrite Nat2Z.inj_succ, Z.pow_succ_r in Hv by lia.
    assert (Hlor : forall v, 0 < v -> Z.log2 (Z.lor v 1) = Z.log2 v).
    { intros w Hw. rewrite Z.log2_lor by lia. change (Z.log2 1) with 0. pose proof (Z.log2_nonneg w). lia. }
    unfold sov. zcase.
    + assert (0 < v / 128) by (apply Z.div_str_pos; lia).
      unfold lenZ in *. cbn [length]. rewrite Nat2Z.inj_succ, IH.
      * unfold sov. rewrite !Hlor by lia.
        replace (v / 128) with (Z.shiftr v 7) by (rewrite Z.shiftr_div_pow2 by lia; done).
        rewrite Z.log2_shiftr by lia. assert (7 <= Z.log2 v) by (apply Z.log2_le_pow2; lia).
        rewrite Z.max_r by lia. replace (Z.log2 v + 1 + 6) with (Z.log2 v - 7 + 1 + 6 + 1 * 7) by lia.
        rewrite Z.div_add by lia. lia.
      * split; [lia|]. apply Z.div_lt_upper_bound; lia.
    + cbn. destruct (Z.eq_dec v 0) as [->|]; [done|]. rewrite Hlor by lia.
      assert (Z.log2 v < 7) by (apply Z.log2_lt_pow2; lia). pose proof (Z.log2_nonneg v).
      apply (Z.div_unique _ _ 1 (Z.log2 v)); lia.
Qed.

Lemma encodeVarint_length v : 0 <= v -> lenZ (encodeVarint v) = sov v.
Proof. intros Hv. apply varint_loop_length. by apply varint_fuel. Qed.

Lemma lenZ_app {A} (l1 l2 : list A) : lenZ (l1 ++ l2) = lenZ l1 + lenZ l2.
Proof. unfold lenZ. rewrite length_app. lia. Qed.

Lemma lenZ_cons {A} (x : A) l : lenZ (x :: l) = 1 + lenZ l.
Proof. unfold lenZ. cbn [length]. lia. Qed.

Lemma lenZ_nonneg {A} (l : list A) : 0 <= lenZ l.
Proof. unfold lenZ. lia. Qed.

Create Rewrite HintDb lenZ.

#[export] Hint Rewrite @lenZ_app @lenZ_cons : lenZ.

Lemma field_varint_size tag v : lenZ (field_varint tag v) = size_varint v.
Proof.
  unfold field_varint, size_varint. zcase; [done|]. rewrite lenZ_cons, encodeVarint_length; [done|].
  apply wrapu64_range.
Qed.

Lemma field_fixed64_size tag v : lenZ (field_fixed64 tag v) = size_fixed64 v.
Proof. unfold field_fixed64, size_fixed64. by zcase. Qed.

Lemma field_msg_size tag b : lenZ (field_msg tag b) = size_msg (lenZ b).
Proof.
  unfold field_msg, size_msg. rewrite lenZ_cons, lenZ_app, encodeVarint_length by apply lenZ_nonneg. lia.
Qed.

Lemma field_bytes_size tag b : lenZ (field_bytes tag b) = size_bytes b.
Proof.
  unfold field_bytes, size_bytes. destruct b as [|x b]; [done|]. rewrite bool_decide_false by done.
  rewrite field_msg_size, lenZ_cons. pose proof (lenZ_nonneg b). by rewrite (proj2 (Z.ltb_lt _ _)) by lia.
Qed.

#[export] Hint Rewrite field_varint_size field_fixed64_size field_msg_size field_bytes_size : lenZ.

Lemma CanonicalPartSetHeader_size m :
  lenZ (CanonicalPartSetHeader_Marshal m) = CanonicalPartSetHeader_Size m.
Proof. unfold CanonicalPartSetHeader_Marshal. by autorewrite with lenZ. Qed.

Lemma CanonicalBlockID_size m : lenZ (CanonicalBlockID_Marshal m) = CanonicalBlockID_Size m.
Proof.
  unfold CanonicalBlockID_Marshal. autorewrite with lenZ. by rewrite CanonicalPartSetHeader_size.
Qed.

(** ** Fields can be read back one by one *)

(** Whether a byte string starts with one of the tags. *)
Definition starts_in (tags : list Z) (b : bytes) : Prop :=
  match b with [] => True | x :: _ => x ∈ tags end.

Lemma starts_nil tags : starts_in tags [].
Proof. done. Qed.

Lemma starts_varint tags tag v r : tag ∈ tags -> starts_in tags r -> starts_in tags (field_varint tag v ++ r).
Proof. unfold field_varint. zcase; done. Qed.

Lemma starts_fixed64 tags tag v r : tag ∈ tags -> starts_in tags r -> starts_in tags (field_fixed64 tag v ++ r).
Proof. unfold field_fixed64. zcase; done. Qed.

Lemma starts_msg tags tag b r : tag ∈ tags -> starts_in tags (field_msg tag b ++ r).
Proof. done. Qed.

Lemma starts_bytes tags tag b r : tag ∈ tags -> starts_in tags r -> starts_in tags (field_bytes tag b ++ r).
Proof. unfold field_bytes. by case_bool_decide. Qed.

Lemma wrapu64_int64_inj a b : int64 a -> int64 b -> wrapu64 a = wrapu64 b -> a = b.
Proof.
  unfold_ints. intros Ha Hb Heq. pose proof (Z.div_mod a 18446744073709551616 ltac:(lia)).
  pose proof (Z.div_mod b 18446744073709551616 ltac:(lia)). unfold wrapu64, two64 in Heq. lia.
Qed.

Lemma field_varint_inj tag tags v1 v2 r1 r2 :
  (tag ∉ tags) -> int64 v1 -> int64 v2 -> starts_in tags r1 -> starts_in tags r2 ->
  field_varint tag v1 ++ r1 = field_varint tag v2 ++ r2 -> v1 = v2 /\ r1 = r2.
Proof.
  intros Ht H1 H2 Hs1 Hs2. unfold field_varint. zcase; cbn [app]; intros Heq.
  - by subst.
  - rewrite Heq in Hs1. done.
  - rewrite <- Heq in Hs2. done.
  - injection Heq as Heq. apply encodeVarint_prefix in Heq as [Hw ->]; [|apply wrapu64_range..].
    split; [by apply wrapu64_int64_inj|done].
Qed.

Lemma field_fixed64_inj tag tags v1 v2 r1 r2 :
  (tag ∉ tags) -> int64 v1 -> int64 v2 -> starts_in tags r1 -> starts_in tags r2 ->
  field_fixed64 tag v1 ++ r1 = field_fixed64 tag v2 ++ r2 -> v1 = v2 /\ r1 = r2.
Proof.
  intros Ht H1 H2 Hs1 Hs2. unfold field_fixed64. zcase; cbn [app]; intros Heq.
  - by subst.
  - rewrite Heq in Hs1. done.
  - rewrite <- Heq in Hs2. done.
  - apply (f_equal tail) in Heq. cbn [tail] in Heq. apply app_inj_1 in Heq as [Hw ->]; [|done].
    apply put_uint64_inj in Hw; [|apply wrapu64_range..]. split; [by apply wrapu64_int64_inj|done].
Qed.

Lemma field_msg_inj tag b1 b2 r1 r2 :
  field_msg tag b1 ++ r1 = field_msg tag b2 ++ r2 -> b1 = b2 /\ r1 = r2.
Proof.
  unfold field_msg. cbn [app]. intros [= Heq]. rewrite <- !app_assoc in Heq.
  apply encodeVarint_prefix in Heq as [Hl Heq]; [|apply lenZ_nonneg..].
  apply app_inj_1 in Heq; [done|]. unfold lenZ in Hl. lia.
Qed.

Lemma field_bytes_inj tag tags b1 b2 r1 r2 :
  (tag ∉ tags) -> starts_in tags r1 -> starts_in tags r2 ->
  field_bytes tag b1 ++ r1 = field_bytes tag b2 ++ r2 -> b1 = b2 /\ r1 = r2.
Proof.
  intros Ht Hs1 Hs2. unfold field_bytes. repeat case_bool_decide; cbn [app]; intros Heq.
  - by subst.
  - rewrite Heq in Hs1. done.
  - rewrite <- Heq in Hs2. done.
  - by apply field_msg_inj in Heq.
Qed.

Lemma CanonicalPartSetHeader_inj m1 m2 :
  int64 (cpsh_Total m1) -> int64 (cpsh_Total m2) ->
  CanonicalPartSetHeader_Marshal m1 = CanonicalPartSetHeader_Marshal m2 -> m1 = m2.
Proof.
  destruct m1 as [t1 h1], m2 as [t2 h2]. cbn. intros H1 H2. unfold CanonicalPartSetHeader_Marshal. cbn.
  rewrite <- (app_nil_r (field_bytes _ h1)), <- (app_nil_r (field_bytes _ h2)).
  intros [-> Heq]%(field_varint_inj _ [0x12]); try done; [|set_solver|by apply starts_bytes; [left|]..].
  apply (field_bytes_inj _ []) in Heq as [-> _]; try done. apply not_elem_of_nil.
Qed.

Definition cbid_ok (m : CanonicalBlockID) : Prop := int64 (cpsh_Total (cbid_PartSetHeader m)).

Lemma CanonicalBlockID_inj m1 m2 :
  cbid_ok m1 -> cbid_ok m2 -> CanonicalBlockID_Marshal m1 = CanonicalBlockID_Marshal m2 -> m1 = m2.
Proof.
  destruct m1 as [h1 p1], m2 as [h2 p2]. unfold cbid_ok, CanonicalBlockID_Marshal. cbn. intros H1 H2.
  rewrite <- (app_nil_r (field_msg _ _)), <- (app_nil_r (field_msg _ (CanonicalPartSetHeader_Marshal p2))).
  intros [-> Heq]%(field_bytes_inj _ [0x12]); [|set_solver|apply starts_msg; left..].
  apply field_msg_inj in Heq as [Heq _]. by apply CanonicalPartSetHeader_inj in Heq as ->.
Qed.

(** An optional message, followed by one that is always there. *)
Lemma field_blockid_inj tag tags b1 b2 r1 r2 :
  (tag ∉ tags) -> starts_in tags r1 -> starts_in tags r2 ->
  (forall b, b1 = Some b -> cbid_ok b) -> (forall b, b2 = Some b -> cbid_ok b) ->
  match b1 with None => [] | Some b => field_msg tag (CanonicalBlockID_Marshal b) end ++ r1 =
  match b2 with None => [] | Some b => field_msg tag (CanonicalBlockID_Marshal b) end ++ r2 ->
  b1 = b2 /\ r1 = r2.
Proof.
  intros Ht Hs1 Hs2 Ho1 Ho2. destruct b1 as [b1|], b2 as [b2|]; cbn [app]; intros Heq.
  - apply field_msg_inj in Heq as [Heq ->]. by rewrite (CanonicalBlockID_inj b1 b2) by auto.
  - rewrite <- Heq in Hs2. done.
  - rewrite Heq in Hs1. done.
  - done.
Qed.

(** ** Messages can be read back *)

(** Two times are never encoded alike. *)
Class TimeCodecLaws `{TimeCodec} : Prop :=
  StdTime_inj : forall t1 t2 b, StdTimeMarshal t1 = Some b -> StdTimeMarshal t2 = Some b -> t1 = t2.

Lemma MarshalDelimited_inj o1 o2 b :
  MarshalDelimited o1 = Some b -> MarshalDelimited o2 = Some b -> exists c, o1 = Some c /\ o2 = Some c.
Proof.
  unfold MarshalDelimited. destruct o1 as [b1|], o2 as [b2|]; cbn [mbind option_bind]; try discriminate.
  intros <-%(inj Some) Heq%(inj Some).
  apply encodeVarint_prefix in Heq as [_ ->]; [by eexists|apply lenZ_nonneg..].
Qed.

Definition cv_ok (m : CanonicalVote) : Prop :=
  int64 (cv_Type m) /\ int64 (cv_Height m) /\ int64 (cv_Round m) /\
  forall b, cv_BlockID m = Some b -> cbid_ok b.

Definition cp_ok (m : CanonicalProposal) : Prop :=
  int64 (cp_Type m) /\ int64 (cp_Height m) /\ int64 (cp_Round m) /\ int64 (cp_POLRound m) /\
  forall b, cp_BlockID m = Some b -> cbid_ok b.

Lemma starts_blockid tags tag b r :
  tag ∈ tags -> starts_in tags r ->
  starts_in tags (match b with None => [] | Some b => field_msg tag (CanonicalBlockID_Marshal b) end ++ r).
Proof. by destruct b. Qed.

(** The tag at hand and the tags that may follow. *)
Ltac wire_side :=
  lazymatch goal with
  | |- _ ∉ _ => apply (bool_decide_unpack _); vm_compute; exact I
  | |- _ ∈ _ => apply (bool_decide_unpack _); vm_compute; exact I
  | |- starts_in _ [] => apply starts_nil
  | |- starts_in _ (field_varint _ _ ++ _) => apply starts_varint; wire_side
  | |- starts_in _ (field_fixed64 _ _ ++ _) => apply starts_fixed64; wire_side
  | |- starts_in _ (field_msg _ _ ++ _) => apply starts_msg; wire_side
  | |- starts_in _ (field_bytes _ _ ++ _) => apply starts_bytes; wire_side
  | |- starts_in _ (match _ with _ => _ end ++ _) => apply starts_blockid; wire_side
  | _ => assumption
  end.

Section messages_inj.
  Context `{TimeCodecLaws}.

Lemma CanonicalVote_inj m1 m2 b :
  cv_ok m1 -> cv_ok m2 -> CanonicalVote_Marshal m1 = Some b -> CanonicalVote_Marshal m2 = Some b -> m1 = m2.
Proof.
  destruct m1 as [t1 h1 r1 b1 s1 c1], m2 as [t2 h2 r2 b2 s2 c2].
  intros (Ht1 & Hh1 & Hr1 & Hb1) (Ht2 & Hh2 & Hr2 & Hb2). unfold CanonicalVote_Marshal.
  cbn [cv_Type cv_Height cv_Round cv_BlockID cv_Timestamp cv_ChainID] in *.
  destruct (StdTimeMarshal s1) as [e1|] eqn:E1; [|done]. destruct (StdTimeMarshal s2) as [e2|] eqn:E2; [|done].
  cbn [mbind option_bind]. intros <-%(inj Some) Heq%(inj Some).
  rewrite <- (app_nil_r (field_bytes _ c1)), <- (app_nil_r (field_bytes _ c2)) in Heq.
  apply (field_varint_inj _ [0x11; 0x19; 0x22; 0x2a]) in Heq as [-> Heq]; try wire_side.
  apply (field_fixed64_inj _ [0x19; 0x22; 0x2a]) in Heq as [-> Heq]; try wire_side.
  apply (field_fixed64_inj _ [0x22; 0x2a]) in Heq as [-> Heq]; try wire_side.
  apply (field_blockid_inj _ [0x2a]) in Heq as [-> Heq]; try wire_side.
  apply field_msg_inj in Heq as [-> Heq]. apply (field_bytes_inj _ []) in Heq as [-> _]; try wire_side.
  by rewrite (StdTime_inj _ _ _ E1 E2).
Qed.

Lemma CanonicalProposal_inj m1 m2 b :
  cp_ok m1 -> cp_ok m2 -> CanonicalProposal_Marshal m1 = Some b -> CanonicalProposal_Marshal m2 = Some b -> m1 = m2.
Proof.
  destruct m1 as [t1 h1 r1 p1 b1 s1 c1], m2 as [t2 h2 r2 p2 b2 s2 c2].
  intros (Ht1 & Hh1 & Hr1 & Hp1 & Hb1) (Ht2 & Hh2 & Hr2 & Hp2 & Hb2). unfold CanonicalProposal_Marshal.
  cbn [cp_Type cp_Height cp_Round cp_POLRound cp_BlockID cp_Timestamp cp_ChainID] in *.
  destruct (StdTimeMarshal s1) as [e1|] eqn:E1; [|done]. destruct (StdTimeMarshal s2) as [e2|] eqn:E2; [|done].
  cbn [mbind option_bind]. intros <-%(inj Some) Heq%(inj Some).
  rewrite <- (app_nil_r (field_bytes _ c1)), <- (app_nil_r (field_bytes _ c2)) in Heq.
  apply (field_varint_inj _ [0x11; 0x19; 0x20; 0x2a; 0x32]) in Heq as [-> Heq]; try wire_side.
  apply (field_fixed64_inj _ [0x19; 0x20; 0x2a; 0x32]) in Heq as [-> Heq]; try wire_side.
  apply (field_fixed64_inj _ [0x20; 0x2a; 0x32]) in Heq as [-> Heq]; try wire_side.
  apply (field_varint_inj _ [0x2a; 0x32]) in Heq as [-> Heq]; try wire_side.
  apply (field_blockid_inj _ [0x32]) in Heq as [-> Heq]; try wire_side.
  apply field_msg_inj in Heq as [-> Heq]. apply (field_bytes_inj _ []) in Heq as [-> _]; try wire_side.
  by rewrite (StdTime_inj _ _ _ E1 E2).
Qed.

(** Messages of different types are encoded differently. *)
Lemma vote_proposal_type mv mp b :
  cv_ok mv -> cp_ok mp -> CanonicalVote_Marshal mv = Some b -> CanonicalProposal_Marshal mp = Some b ->
  cv_Type mv = cp_Type mp.
Proof.
  intros (Ht1 & _) (Ht2 & _). unfold CanonicalVote_Marshal, CanonicalProposal_Marshal.
  destruct (StdTimeMarshal (cv_Timestamp mv)); [|done]. destruct (StdTimeMarshal (cp_Timestamp mp)); [|done].
  cbn [mbind option_bind]. intros <-%(inj Some) Heq%(inj Some). symmetry.
  rewrite <- (app_nil_r (field_bytes _ (cp_ChainID mp))), <- (app_nil_r (field_bytes _ (cv_ChainID mv))) in Heq.
  apply (field_varint_inj _ [0x11; 0x19; 0x20; 0x22; 0x2a; 0x32]) in Heq as [Heq _]; try wire_side.
Qed.

End messages_inj.

(** ** Properties *)

(** A stand-in for the library's encoding, for the examples. *)
Definition toy_time : TimeCodec := fun t => Some [t].

Lemma toy_time_laws : @TimeCodecLaws toy_time.
Proof. intros t1 t2 b [= <-] [= Heq]. done. Qed.

(** The buffer a generated [Marshal] allocates is filled exactly.  The
    [Size()] of a canonical vote and of a canonical proposal is the number of
    bytes their marshallers write, whatever the fields, when the time's size is
    the number of its bytes; so [MarshalTo] neither runs off the buffer nor
    leaves part of it unset. *)
Theorem canonical_sizes `{TimeCodec} mv mp tv tp :
  StdTimeMarshal (cv_Timestamp mv) = Some tv -> StdTimeMarshal (cp_Timestamp mp) = Some tp ->
  exists bv bp, CanonicalVote_Marshal mv = Some bv /\ lenZ bv = CanonicalVote_Size mv (lenZ tv) /\
    CanonicalProposal_Marshal mp = Some bp /\ lenZ bp = CanonicalProposal_Size mp (lenZ tp).
Proof.
  intros Hv Hp. unfold CanonicalVote_Marshal, CanonicalProposal_Marshal. rewrite Hv, Hp. cbn [mbind option_bind].
  eexists _, _. split; [reflexivity|]. split; [|split; [reflexivity|]].
  - unfold CanonicalVote_Size. autorewrite with lenZ.
    destruct (cv_BlockID mv) as [b|]; [rewrite field_msg_size, CanonicalBlockID_size|change (lenZ (@nil Z)) with 0]; lia.
  - unfold CanonicalProposal_Size. autorewrite with lenZ.
    destruct (cp_BlockID mp) as [b|]; [rewrite field_msg_size, CanonicalBlockID_size|change (lenZ (@nil Z)) with 0]; lia.
Qed.

Lemma canonical_sizes_witness :
  exists bv bp,
    @CanonicalVote_Marshal toy_time (mkCanonicalVote 1 300 0 None 5 [65]) = Some bv /\ lenZ bv = 17 /\
    @CanonicalProposal_Marshal toy_time (mkCanonicalProposal 32 1 2 (-1) None 5 []) = Some bp /\ lenZ bp = 34.
Proof.
  exact (@canonical_sizes toy_time (mkCanonicalVote 1 300 0 None 5 [65])
           (mkCanonicalProposal 32 1 2 (-1) None 5 []) [5] [5] eq_refl eq_refl).
Defined.
