(* ===== verification/ProtoDecode.v ===== *)
(** * Decoding of canonical messages

    - the generated [Unmarshal] methods and [skipCanonical] of
      src/proto/ostracon/types/canonical.pb.go;
    - [UnmarshalDelimited] of src/libs/protoio/reader.go.

    The generated methods repeat the same statements for every field; here each
    statement is a definition and [decode] is the loop around them.  A position
    [iNdEx] in the buffer of length [l] is the rest of the buffer from there.
    The loop that reads a varint ors the groups of seven bits into a variable of
    some width; here they are added up exactly and cut to that width once. *)

From Stdlib Require Import ZArith Lia.
From stdpp Require Import prelude list.
From S2P Require Import Prelude Proto.

Local Open Scope Z_scope.
Local Open Scope go_scope.

Inductive proto_error :=
| ErrIntOverflow | ErrUnexpectedEOF | ErrInvalidLength | ErrUnexpectedEndOfGroup
| ErrEndGroup | ErrIllegalTag | ErrWrongWireType | ErrIllegalWireType | ErrTime
| ErrUvarintOverflow | ErrMessageLength | ErrMessageSize.

#[local] Abbreviation result A := (outcome proto_error A).

(** ** Values *)

(** Ten groups fit below the shift of 64. *)
Fixpoint read_varint (fuel : nat) (shift : Z) (rest : bytes) : result (Z * bytes) :=
  match fuel with
  | O => Err ErrIntOverflow
  | S fuel =>
      match rest with
      | [] => Err ErrUnexpectedEOF
      | b :: rest =>
          let v := Z.shiftl (Z.land b 0x7f) shift in
          if b <? 0x80 then Ok (v, rest)
          else '(v', rest) ← read_varint fuel (shift + 7) rest; Ok (v + v', rest)
      end
  end.

Definition varint (rest : bytes) : result (Z * bytes) := read_varint 10 0 rest.

(** A length and as many bytes. *)
Definition read_bytes (l : Z) (rest : bytes) : result (bytes * bytes) :=
  '(v, rest) ← varint rest;
  let byteLen := wrap64 v in
  if byteLen <? 0 then Err ErrInvalidLength
  else
    let postIndex := (l - lenZ rest) +i64 byteLen in
    if postIndex <? 0 then Err ErrInvalidLength
    else if l <? postIndex then Err ErrUnexpectedEOF
    else Ok (take (Z.to_nat byteLen) rest, drop (Z.to_nat byteLen) rest).

Definition read_fixed64 (rest : bytes) : result (Z * bytes) :=
  if lenZ rest <? 8 then Err ErrUnexpectedEOF else Ok (wrap64 (le_uint64 (take 8 rest)), drop 8 rest).

(** ** Unknown fields *)

(** One field: the rest after it, and the depth of groups.  A length or a fixed
    width may point past the end; the caller finds out. *)
Definition skip_field (rest : bytes) (depth : Z) : result (Z * Z * bytes) :=
  '(wire, rest1) ← varint rest;
  let used := lenZ rest - lenZ rest1 in
  let wireType := Z.land wire 0x7 in
  if wireType =? 0 then '(_, rest2) ← varint rest1; Ok (lenZ rest - lenZ rest2, depth, rest2)
  else if wireType =? 1 then Ok (used + 8, depth, drop 8 rest1)
  else if wireType =? 2 then
    '(v, rest2) ← varint rest1;
    let length := wrap64 v in
    if length <? 0 then Err ErrInvalidLength
    else Ok ((lenZ rest - lenZ rest2) +i64 length, depth, drop (Z.to_nat length) rest2)
  else if wireType =? 3 then Ok (used, depth + 1, rest1)
  else if wireType =? 4 then
    if depth =? 0 then Err ErrUnexpectedEndOfGroup else Ok (used, depth - 1, rest1)
  else if wireType =? 5 then Ok (used + 4, depth, drop 4 rest1)
  else Err ErrIllegalWireType.

(** The loop consumes at least a byte each time. *)
Fixpoint skip_loop (fuel : nat) (rest : bytes) (iNdEx depth : Z) : result Z :=
  match fuel with
  | O => Err ErrUnexpectedEOF
  | S fuel =>
      match rest with
      | [] => Err ErrUnexpectedEOF
      | _ =>
          '(n, depth, rest) ← skip_field rest depth;
          let iNdEx := iNdEx +i64 n in
          if iNdEx <? 0 then Err ErrInvalidLength
          else if depth =? 0 then Ok iNdEx
          else skip_loop fuel rest iNdEx depth
      end
  end.

Definition skipCanonical (rest : bytes) : result Z := skip_loop (length rest) rest 0 0.

(** ** Messages *)

(** The loop of an [Unmarshal] method.  [field] is its switch: [None] for the
    default case. *)
Section decode.
  Context {M : Type} (field : Z -> Z -> Z -> bytes -> M -> option (result (bytes * M))).

Fixpoint decode_loop (fuel : nat) (l : Z) (rest : bytes) (m : M) : result M :=
  match rest with
  | [] => Ok m
  | _ =>
      match fuel with
      | O => Err ErrUnexpectedEOF
      | S fuel =>
          '(w, rest1) ← varint rest;
          let wire := wrapu64 w in
          let fieldNum := wrap32 (Z.shiftr wire 3) in
          let wireType := Z.land wire 0x7 in
          if wireType =? 4 then Err ErrEndGroup
          else if fieldNum <=? 0 then Err ErrIllegalTag
          else match field l fieldNum wireType rest1 m with
               | Some r => '(rest, m) ← r; decode_loop fuel l rest m
               | None =>
                   skippy ← skipCanonical rest;
                   let iNdEx := l - lenZ rest in
                   if (skippy <? 0) || (iNdEx +i64 skippy <? 0) then Err ErrInvalidLength
                   else if l <? iNdEx +i64 skippy then Err ErrUnexpectedEOF
                   else decode_loop fuel l (drop (Z.to_nat skippy) rest) m
               end
      end
  end.

Definition decode (dAtA : bytes) (m : M) : result M := decode_loop (length dAtA) (lenZ dAtA) dAtA m.

End decode.

(** A case of the switch: the wire type it insists on, then the value. *)
Definition expect {A} (want wireType : Z) (r : result A) : result A :=
  if negb (wireType =? want) then Err ErrWrongWireType else r.

(** [uint32] of a value. *)
Definition wrapu32 (x : Z) : Z := x mod 4294967296.

Definition CanonicalPartSetHeader_Unmarshal : bytes -> CanonicalPartSetHeader -> result CanonicalPartSetHeader :=
  decode (fun l fieldNum wireType rest m =>
    if fieldNum =? 1 then Some (expect 0 wireType (
      '(v, rest) ← varint rest; Ok (rest, mkCanonicalPartSetHeader (wrapu32 v) (cpsh_Hash m))))
    else if fieldNum =? 2 then Some (expect 2 wireType (
      '(b, rest) ← read_bytes l rest; Ok (rest, mkCanonicalPartSetHeader (cpsh_Total m) b)))
    else None).

Definition CanonicalBlockID_Unmarshal : bytes -> CanonicalBlockID -> result CanonicalBlockID :=
  decode (fun l fieldNum wireType rest m =>
    if fieldNum =? 1 then Some (expect 2 wireType (
      '(b, rest) ← read_bytes l rest; Ok (rest, mkCanonicalBlockID b (cbid_PartSetHeader m))))
    else if fieldNum =? 2 then Some (expect 2 wireType (
      '(b, rest) ← read_bytes l rest;
      psh ← CanonicalPartSetHeader_Unmarshal b (cbid_PartSetHeader m);
      Ok (rest, mkCanonicalBlockID (cbid_Hash m) psh)))
    else None).

Definition zero_CanonicalBlockID : CanonicalBlockID := mkCanonicalBlockID [] (mkCanonicalPartSetHeader 0 []).

(** [types.StdTimeUnmarshal] of gogo/protobuf. *)
Class TimeDecoder := StdTimeUnmarshal : bytes -> option Time.

Section messages.
  Context {decoder : TimeDecoder}.

Definition read_time (b : bytes) : result Time :=
  match StdTimeUnmarshal b with Some t => Ok t | None => Err ErrTime end.

(** The switch of [CanonicalVote.Unmarshal]. *)
Definition vote_field (l fieldNum wireType : Z) (rest : bytes) (m : CanonicalVote)
  : option (result (bytes * CanonicalVote)) :=
    let 'mkCanonicalVote typ height round blockID timestamp chainID := m in
    if fieldNum =? 1 then Some (expect 0 wireType (
      '(v, rest) ← varint rest; Ok (rest, mkCanonicalVote (wrap32 v) height round blockID timestamp chainID)))
    else if fieldNum =? 2 then Some (expect 1 wireType (
      '(v, rest) ← read_fixed64 rest; Ok (rest, mkCanonicalVote typ v round blockID timestamp chainID)))
    else if fieldNum =? 3 then Some (expect 1 wireType (
      '(v, rest) ← read_fixed64 rest; Ok (rest, mkCanonicalVote typ height v blockID timestamp chainID)))
    else if fieldNum =? 4 then Some (expect 2 wireType (
      '(b, rest) ← read_bytes l rest;
      bid ← CanonicalBlockID_Unmarshal b (default zero_CanonicalBlockID blockID);
      Ok (rest, mkCanonicalVote typ height round (Some bid) timestamp chainID)))
    else if fieldNum =? 5 then Some (expect 2 wireType (
      '(b, rest) ← read_bytes l rest; t ← read_time b;
      Ok (rest, mkCanonicalVote typ height round blockID t chainID)))
    else if fieldNum =? 6 then Some (expect 2 wireType (
      '(b, rest) ← read_bytes l rest; Ok (rest, mkCanonicalVote typ height round blockID timestamp b)))
    else None.

Definition CanonicalVote_Unmarshal : bytes -> CanonicalVote -> result CanonicalVote := decode vote_field.

(** The switch of [CanonicalProposal.Unmarshal]. *)
Definition proposal_field (l fieldNum wireType : Z) (rest : bytes) (m : CanonicalProposal)
  : option (result (bytes * CanonicalProposal)) :=
    let 'mkCanonicalProposal typ height round pol blockID timestamp chainID := m in
    if fieldNum =? 1 then Some (expect 0 wireType (
      '(v, rest) ← varint rest; Ok (rest, mkCanonicalProposal (wrap32 v) height round pol blockID timestamp chainID)))
    else if fieldNum =? 2 then Some (expect 1 wireType (
      '(v, rest) ← read_fixed64 rest; Ok (rest, mkCanonicalProposal typ v round pol blockID timestamp chainID)))
    else if fieldNum =? 3 then Some (expect 1 wireType (
      '(v, rest) ← read_fixed64 rest; Ok (rest, mkCanonicalProposal typ height v pol blockID timestamp chainID)))
    else if fieldNum =? 4 then Some (expect 0 wireType (
      '(v, rest) ← varint rest; Ok (rest, mkCanonicalProposal typ height round (wrap64 v) blockID timestamp chainID)))
    else if fieldNum =? 5 then Some (expect 2 wireType (
      '(b, rest) ← read_bytes l rest;
      bid ← CanonicalBlockID_Unmarshal b (default zero_CanonicalBlockID blockID);
      Ok (rest, mkCanonicalProposal typ height round pol (Some bid) timestamp chainID)))
    else if fieldNum =? 6 then Some (expect 2 wireType (
      '(b, rest) ← read_bytes l rest; t ← read_time b;
      Ok (rest, mkCanonicalProposal typ height round pol blockID t chainID)))
    else if fieldNum =? 7 then Some (expect 2 wireType (
      '(b, rest) ← read_bytes l rest; Ok (rest, mkCanonicalProposal typ height round pol blockID timestamp b)))
    else None.

Definition CanonicalProposal_Unmarshal : bytes -> CanonicalProposal -> result CanonicalProposal := decode proposal_field.

End messages.

(** ** Length-delimited messages *)

(** [binary.ReadUvarint]: the tenth byte may only be 0 or 1. *)
Fixpoint uvarint_loop (fuel : nat) (s : Z) (rest : bytes) : result (Z * bytes) :=
  match fuel with
  | O => Err ErrUvarintOverflow
  | S n =>
      match rest with
      | [] => Err ErrUnexpectedEOF
      | b :: rest =>
          if b <? 0x80 then
            if bool_decide (n = O) && (1 <? b) then Err ErrUvarintOverflow else Ok (Z.shiftl b s, rest)
          else '(v, rest) ← uvarint_loop n (s + 7) rest; Ok (Z.shiftl (Z.land b 0x7f) s + v, rest)
      end
  end.

(** The message's bytes; what follows them is not looked at. *)
Definition ReadMsg (maxSize : Z) (data : bytes) : result bytes :=
  '(l, rest) ← uvarint_loop 10 0 data;
  let length := wrap64 l in
  if (int64_max <=? l) || (length <? 0) || ((lenZ data - lenZ rest) +i64 length <? 0) then Err ErrMessageLength
  else if maxSize <? length then Err ErrMessageSize
  else if lenZ rest <? length then Err ErrUnexpectedEOF
  else Ok (take (Z.to_nat length) rest).

Definition UnmarshalDelimited {M} (unmarshal : bytes -> result M) (data : bytes) : result M :=
  b ← ReadMsg (lenZ data) data; unmarshal b.

(** ** Values come back *)

Lemma group_bits b : 0 <= b < 256 -> Z.land b 127 = b mod 128.
Proof. intros Hb. change 127 with (Z.ones 7). by rewrite Z.land_ones by lia. Qed.

Lemma read_varint_step fuel shift b rest :
  read_varint (S fuel) shift (b :: rest) =
  if b <? 0x80 then Ok (Z.shiftl (Z.land b 0x7f) shift, rest)
  else '(v', rest) ← read_varint fuel (shift + 7) rest; Ok (Z.shiftl (Z.land b 0x7f) shift + v', rest).
Proof. done. Qed.

Lemma read_varint_loop fuel shift n v r :
  0 <= shift -> 0 <= v < 2 ^ Z.of_nat n -> v < 2 ^ (7 * Z.of_nat (S fuel)) ->
  read_varint (S fuel) shift (varint_loop n v ++ r) = Ok (v * 2 ^ shift, r).
Proof.
  revert shift n v. induction fuel as [|fuel IH]; intros shift n v Hs Hn Hf.
  all: destruct n as [|n]; [change (2 ^ Z.of_nat 0) with 1 in Hn; assert (v = 0) as -> by lia; cbn; by rewrite Z.shiftl_0_l|].
  all: rewrite varint_loop_step by lia.
  - change (2 ^ (7 * Z.of_nat 1)) with 128 in Hf. destruct (Z.leb_spec 128 v); [lia|]. cbn [app read_varint].
    rewrite (proj2 (Z.ltb_lt v 128)) by lia. rewrite group_bits, Z.mod_small, Z.shiftl_mul_pow2 by lia. done.
  - destruct (Z.leb_spec 128 v) as [Hv|Hv].
    + pose proof (Z.mod_pos_bound v 128 ltac:(lia)) as Hm. pose proof (Z.div_mod v 128 ltac:(lia)) as Hd.
      cbn [app]. rewrite read_varint_step, (proj2 (Z.ltb_ge (v mod 128 + 128) 128)) by lia.
      rewrite Nat2Z.inj_succ, Z.pow_succ_r in Hn by lia.
      rewrite (IH (shift + 7) n (v / 128)); [|lia|split; [apply Z.div_pos; lia|apply Z.div_lt_upper_bound; lia]|].
      2: { apply Z.div_lt_upper_bound; [lia|]. replace (7 * Z.of_nat (S (S fuel))) with (7 + 7 * Z.of_nat (S fuel)) in Hf by lia.
           rewrite Z.pow_add_r in Hf by lia. lia. }
      cbn [mbind outcome_bind]. rewrite group_bits by lia. rewrite Z.shiftl_mul_pow2, Z.pow_add_r by lia.
      replace ((v mod 128 + 128) mod 128) with (v mod 128) by (rewrite <- Zplus_mod_idemp_r; rewrite Z.mod_same, Z.add_0_r by lia; by rewrite Z.mod_mod by lia).
      f_equal. f_equal. change (2 ^ 7) with 128. rewrite Hd at 3. ring.
    + cbn [app read_varint]. rewrite (proj2 (Z.ltb_lt v 128)) by lia.
      rewrite group_bits, Z.mod_small, Z.shiftl_mul_pow2 by lia. done.
Qed.

Lemma varint_encode v r : uint64 v -> varint (encodeVarint v ++ r) = Ok (v, r).
Proof.
  unfold_ints. intros Hv. unfold varint, encodeVarint.
  rewrite (read_varint_loop 9 0); [by rewrite Z.mul_1_r|lia|apply varint_fuel; lia|].
  change (2 ^ (7 * Z.of_nat 10)) with 1180591620717411303424. lia.
Qed.

Lemma varint_byte b r : 0 <= b < 128 -> varint (b :: r) = Ok (b, r).
Proof.
  intros Hb. unfold varint. cbn [read_varint]. rewrite (proj2 (Z.ltb_lt b 128)) by lia.
  rewrite group_bits, Z.mod_small, Z.shiftl_0_r by lia. done.
Qed.

Lemma wrap64_wrapu64 v : int64 v -> wrap64 (wrapu64 v) = v.
Proof.
  unfold_ints. intros Hv. unfold wrap64, wrapu64, two63, two64.
  rewrite <- Zplus_mod_idemp_l, Z.mod_mod, Zplus_mod_idemp_l by lia. rewrite Z.mod_small by lia. lia.
Qed.

Lemma mod_mod_divide a b c : 0 < b -> (b | c) -> (a mod c) mod b = a mod b.
Proof.
  intros Hb [k ->]. destruct (Z.eq_dec k 0) as [->|Hk]; [by rewrite Z.mod_0_r|].
  rewrite Z.mul_comm. destruct (Z.lt_ge_cases 0 k).
  - rewrite Z.rem_mul_r by lia. rewrite (Z.mul_comm b), Z.mod_add by lia. by rewrite Z.mod_mod by lia.
  - rewrite (Z.mod_eq a (b * k)) by nia. replace (a - b * k * (a / (b * k))) with (a + (- k * (a / (b * k))) * b) by ring.
    by rewrite Z.mod_add by lia.
Qed.

Lemma wrap32_wrapu64 v : int32 v -> wrap32 (wrapu64 v) = v.
Proof.
  unfold_ints. intros Hv. unfold wrap32, wrapu64, two64.
  rewrite <- Zplus_mod_idemp_l, mod_mod_divide, Zplus_mod_idemp_l by (lia || by exists 4294967296).
  rewrite Z.mod_small by lia. lia.
Qed.

Lemma wrapu32_wrapu64 v : 0 <= v < 2 ^ 32 -> wrapu32 (wrapu64 v) = v.
Proof. intros Hv. unfold wrapu32, wrapu64, two64. rewrite (Z.mod_small v 18446744073709551616), Z.mod_small by lia. done. Qed.

Lemma read_bytes_encode l b r :
  lenZ (b ++ r) <= l <= int64_max -> read_bytes l (encodeVarint (lenZ b) ++ b ++ r) = Ok (b, r).
Proof.
  intros Hl. pose proof (lenZ_nonneg b). pose proof (lenZ_nonneg r). rewrite lenZ_app in Hl. unfold_ints.
  unfold read_bytes. rewrite varint_encode by (unfold_ints; lia). cbn [mbind outcome_bind].
  rewrite (wrap64_id (lenZ b)) by (unfold_ints; lia). rewrite (proj2 (Z.ltb_ge (lenZ b) 0)) by lia.
  rewrite lenZ_app, wrap64_id by (unfold_ints; lia).
  rewrite (proj2 (Z.ltb_ge (l - (lenZ b + lenZ r) + lenZ b) 0)), (proj2 (Z.ltb_ge l _)) by lia.
  unfold lenZ. by rewrite Nat2Z.id, take_app_length, drop_app_length.
Qed.

Lemma read_fixed64_encode v r : int64 v -> read_fixed64 (put_uint64 (wrapu64 v) ++ r) = Ok (v, r).
Proof.
  intros Hv. unfold read_fixed64. rewrite lenZ_app. pose proof (lenZ_nonneg r).
  assert (Hl : lenZ (put_uint64 (wrapu64 v)) = 8) by (unfold lenZ; by rewrite put_uint64_length).
  rewrite Hl, (proj2 (Z.ltb_ge (8 + lenZ r) 8)) by lia.
  rewrite (take_app_length' _ _ 8), (drop_app_length' _ _ 8) by (by rewrite put_uint64_length).
  rewrite le_uint64_put by apply wrapu64_range. by rewrite wrap64_wrapu64.
Qed.

(** ** Messages come back *)

Section decodes.
  Context {M : Type} (field : Z -> Z -> Z -> bytes -> M -> option (result (bytes * M))) (l : Z).

(** From [m], the rest of the buffer gives [m']. *)
Definition decodes (rest : bytes) (m m' : M) : Prop :=
  lenZ rest <= l <= int64_max -> forall fuel, (length rest <= fuel)%nat -> decode_loop field fuel l rest m = Ok m'.

Lemma decodes_nil m : decodes [] m m.
Proof. intros _ fuel _. by destruct fuel. Qed.

(** A tag of one byte. *)
Definition tag_of (tag num wt : Z) : Prop := tag = 8 * num + wt /\ 0 < num < 16 /\ 0 <= wt < 8 /\ wt <> 4.

Lemma decodes_field tag num wt rest rest' m m1 m' :
  tag_of tag num wt -> (lenZ rest <= l <= int64_max -> field l num wt rest m = Some (Ok (rest', m1))) ->
  (length rest' <= length rest)%nat -> decodes rest' m1 m' -> decodes (tag :: rest) m m'.
Proof.
  intros (-> & Hn & Hw & Hne) Hf Hlen Hd Hl fuel Hfuel. destruct fuel as [|fuel]; [cbn in Hfuel; lia|].
  cbn [decode_loop]. rewrite varint_byte by lia. cbn [mbind outcome_bind].
  rewrite wrapu64_id by (unfold_ints; lia).
  assert (Hland : Z.land (8 * num + wt) 7 = wt).
  { change 7 with (Z.ones 3). rewrite Z.land_ones by lia. change (2 ^ 3) with 8.
    rewrite Z.mul_comm, Z.add_comm, Z.mod_add, Z.mod_small by lia. done. }
  assert (Hshr : Z.shiftr (8 * num + wt) 3 = num).
  { rewrite Z.shiftr_div_pow2 by lia. change (2 ^ 3) with 8.
    rewrite Z.mul_comm, Z.add_comm, Z.div_add, Z.div_small by lia. done. }
  rewrite Hland, Hshr, wrap32_id by (unfold_ints; lia).
  rewrite (proj2 (Z.eqb_neq wt 4)), (proj2 (Z.leb_gt num 0)) by lia.
  rewrite lenZ_cons in Hl. rewrite Hf by lia. cbn [mbind outcome_bind]. apply Hd.
  - unfold lenZ in *. lia.
  - cbn in Hfuel. lia.
Qed.

Lemma decodes_varint tag num v r m m1 m' :
  tag_of tag num 0 ->
  (v = 0 -> m1 = m) ->
  (forall x rest, varint rest = Ok (x, r) -> x = wrapu64 v -> field l num 0 rest m = Some (Ok (r, m1))) ->
  decodes r m1 m' -> decodes (field_varint tag v ++ r) m m'.
Proof.
  intros Ht H0 Hf Hd. unfold field_varint. destruct (Z.eqb_spec v 0) as [Hv|Hv]; [by rewrite <- (H0 Hv)|].
  eapply (decodes_field tag num 0 _ r m m1); [done| |rewrite length_app; lia|exact Hd].
  intros _. eapply Hf; [apply varint_encode, wrapu64_range|done].
Qed.

Lemma decodes_fixed64 tag num v r m m1 m' :
  tag_of tag num 1 -> int64 v -> (v = 0 -> m1 = m) ->
  (forall rest, read_fixed64 rest = Ok (v, r) -> field l num 1 rest m = Some (Ok (r, m1))) ->
  decodes r m1 m' -> decodes (field_fixed64 tag v ++ r) m m'.
Proof.
  intros Ht Hv H0 Hf Hd. unfold field_fixed64. destruct (Z.eqb_spec v 0) as [Hz|Hz]; [by rewrite <- (H0 Hz)|].
  eapply (decodes_field tag num 1 _ r m m1); [done| |rewrite length_app; lia|exact Hd].
  intros _. apply Hf. by apply read_fixed64_encode.
Qed.

Lemma decodes_msg tag num b r m m1 m' :
  tag_of tag num 2 ->
  (lenZ b <= l <= int64_max -> forall rest, read_bytes l rest = Ok (b, r) -> field l num 2 rest m = Some (Ok (r, m1))) ->
  decodes r m1 m' -> decodes (field_msg tag b ++ r) m m'.
Proof.
  intros Ht Hf Hd. unfold field_msg. cbn [app]. rewrite <- app_assoc.
  eapply (decodes_field tag num 2 _ r m m1); [done| |rewrite !length_app; lia|exact Hd].
  intros Hl. pose proof (lenZ_nonneg r). pose proof (lenZ_nonneg (encodeVarint (lenZ b))). rewrite !lenZ_app in Hl.
  apply Hf; [lia|]. apply read_bytes_encode. rewrite lenZ_app. lia.
Qed.

Lemma decodes_bytes tag num b r m m1 m' :
  tag_of tag num 2 -> (b = [] -> m1 = m) ->
  (forall rest, read_bytes l rest = Ok (b, r) -> field l num 2 rest m = Some (Ok (r, m1))) ->
  decodes r m1 m' -> decodes (field_bytes tag b ++ r) m m'.
Proof.
  intros Ht H0 Hf Hd. unfold field_bytes. case_bool_decide as Hb; [by rewrite <- (H0 Hb)|].
  eapply decodes_msg; [done| |exact Hd]. auto.
Qed.

End decodes.

Lemma decodes_decode {M} (field : Z -> Z -> Z -> bytes -> M -> option (result (bytes * M))) b m m' :
  lenZ b <= int64_max -> decodes field (lenZ b) b m m' -> decode field b m = Ok m'.
Proof. intros Hl Hd. apply Hd; [lia|done]. Qed.

Ltac tag_side := unfold tag_of; lia.

(** ** Round trips *)

Definition psh_ok (m : CanonicalPartSetHeader) : Prop :=
  0 <= cpsh_Total m < 2 ^ 32 /\ lenZ (CanonicalPartSetHeader_Marshal m) <= int64_max.

Lemma PartSetHeader_roundtrip m :
  psh_ok m -> CanonicalPartSetHeader_Unmarshal (CanonicalPartSetHeader_Marshal m) (mkCanonicalPartSetHeader 0 []) = Ok m.
Proof.
  destruct m as [t h]. intros [Ht Hl]. cbn [cpsh_Total] in Ht. apply decodes_decode; [done|].
  unfold CanonicalPartSetHeader_Marshal in *. cbn [cpsh_Total cpsh_Hash] in *.
  eapply (decodes_varint _ _ 0x8 1 t _ _ (mkCanonicalPartSetHeader t [])); [tag_side|by intros ->| |].
  { intros x rest Hr ->. cbn [Z.eqb Pos.eqb expect negb]. rewrite Hr. cbn [mbind outcome_bind].
    by rewrite wrapu32_wrapu64. }
  rewrite <- (app_nil_r (field_bytes _ _)).
  eapply (decodes_bytes _ _ 0x12 2); [tag_side|by intros ->| |apply decodes_nil].
  intros rest Hr. cbn [Z.eqb Pos.eqb expect negb]. by rewrite Hr.
Qed.

(** A field of the switch, with the value read. *)
Ltac read_field :=
  cbn [Z.eqb Pos.eqb expect negb];
  repeat match goal with
         | H : varint _ = Ok _ |- _ => rewrite H; clear H
         | H : read_fixed64 _ = Ok _ |- _ => rewrite H; clear H
         | H : read_bytes _ _ = Ok _ |- _ => rewrite H; clear H
         end;
  cbn [mbind outcome_bind].

Definition blockid_ok (m : CanonicalBlockID) : Prop :=
  0 <= cpsh_Total (cbid_PartSetHeader m) < 2 ^ 32 /\ lenZ (CanonicalBlockID_Marshal m) <= int64_max.

Lemma blockid_psh_ok m : blockid_ok m -> psh_ok (cbid_PartSetHeader m).
Proof.
  intros [Ht Hl]. split; [done|]. unfold CanonicalBlockID_Marshal, field_msg in Hl.
  rewrite lenZ_app, lenZ_cons, lenZ_app in Hl.
  pose proof (lenZ_nonneg (field_bytes 10 (cbid_Hash m))).
  pose proof (lenZ_nonneg (encodeVarint (lenZ (CanonicalPartSetHeader_Marshal (cbid_PartSetHeader m))))). lia.
Qed.

Lemma BlockID_roundtrip m :
  blockid_ok m -> CanonicalBlockID_Unmarshal (CanonicalBlockID_Marshal m) zero_CanonicalBlockID = Ok m.
Proof.
  intros Hok. pose proof (blockid_psh_ok m Hok) as Hpsh. destruct Hok as [_ Hl]. apply decodes_decode; [done|].
  destruct m as [h p]. unfold CanonicalBlockID_Marshal in *. cbn [cbid_Hash cbid_PartSetHeader] in *.
  eapply (decodes_bytes _ _ 0xa 1 h _ _ (mkCanonicalBlockID h (mkCanonicalPartSetHeader 0 []))); [tag_side|by intros ->| |].
  { intros rest Hr. by read_field. }
  rewrite <- (app_nil_r (field_msg _ _)).
  eapply (decodes_msg _ _ 0x12 2); [tag_side| |apply decodes_nil].
  intros _ rest Hr. read_field. cbn [cbid_PartSetHeader]. rewrite PartSetHeader_roundtrip by done. done.
Qed.

(** What the time library promises. *)
Class TimeRoundtrip {codec : TimeCodec} {decoder : TimeDecoder} : Prop :=
  StdTime_roundtrip : forall t b, StdTimeMarshal t = Some b -> StdTimeUnmarshal b = Some t.

Section roundtrip.
  Context {codec : TimeCodec} {decoder : TimeDecoder} {laws : TimeRoundtrip}.

#[export] Instance roundtrip_inj : TimeCodecLaws.
Proof. intros t1 t2 b H1%StdTime_roundtrip H2%StdTime_roundtrip. congruence. Qed.

(** The ranges of the fields, and that the bytes can be addressed. *)
Definition vote_ok (m : CanonicalVote) : Prop :=
  int32 (cv_Type m) /\ int64 (cv_Height m) /\ int64 (cv_Round m) /\
  forall b, cv_BlockID m = Some b -> blockid_ok b.

Definition proposal_ok (m : CanonicalProposal) : Prop :=
  int32 (cp_Type m) /\ int64 (cp_Height m) /\ int64 (cp_Round m) /\ int64 (cp_POLRound m) /\
  forall b, cp_BlockID m = Some b -> blockid_ok b.

Definition zero_CanonicalVote : CanonicalVote := mkCanonicalVote 0 0 0 None 0 [].
Definition zero_CanonicalProposal : CanonicalProposal := mkCanonicalProposal 0 0 0 0 None 0 [].

Lemma CanonicalVote_roundtrip m b :
  vote_ok m -> CanonicalVote_Marshal m = Some b -> lenZ b <= int64_max ->
  CanonicalVote_Unmarshal b zero_CanonicalVote = Ok m.
Proof.
  destruct m as [typ h r bid t c]. intros (Ht & Hh & Hr & Hb). unfold CanonicalVote_Marshal.
  cbn [cv_Type cv_Height cv_Round cv_BlockID cv_Timestamp cv_ChainID] in *.
  destruct (StdTimeMarshal t) as [tb|] eqn:Et; [|done]. cbn [mbind option_bind].
  intros Heq%(inj Some) Hl. subst b. apply decodes_decode; [done|]. clear Hl.
  match goal with |- decodes _ ?L _ _ _ => generalize L end. intros l.
  eapply (decodes_varint _ _ 0x8 1 typ _ _ (mkCanonicalVote typ 0 0 None 0 [])); [tag_side|by intros ->| |].
  { intros x rest Hx ->. unfold vote_field, zero_CanonicalVote. read_field. by rewrite wrap32_wrapu64. }
  eapply (decodes_fixed64 _ _ 0x11 2 h _ _ (mkCanonicalVote typ h 0 None 0 [])); [tag_side|done|by intros ->| |].
  { intros rest Hx. unfold vote_field. by read_field. }
  eapply (decodes_fixed64 _ _ 0x19 3 r _ _ (mkCanonicalVote typ h r None 0 [])); [tag_side|done|by intros ->| |].
  { intros rest Hx. unfold vote_field. by read_field. }
  assert (Htail : decodes vote_field l (field_msg 42 tb ++ field_bytes 50 c)
    (mkCanonicalVote typ h r bid 0 []) (mkCanonicalVote typ h r bid t c)).
  { eapply (decodes_msg _ _ 0x2a 5 tb _ _ (mkCanonicalVote typ h r bid t [])); [tag_side| |].
    - intros _ rest Hx. unfold vote_field. read_field. unfold read_time. by rewrite (StdTime_roundtrip t tb Et).
    - rewrite <- (app_nil_r (field_bytes _ _)).
      eapply (decodes_bytes _ _ 0x32 6); [tag_side|by intros ->| |apply decodes_nil].
      intros rest Hx. unfold vote_field. by read_field. }
  destruct bid as [bid|]; [|exact Htail].
  eapply (decodes_msg _ _ 0x22 4); [tag_side| |exact Htail]. intros _ rest Hx. unfold vote_field. read_field.
  cbn [default]. change (default zero_CanonicalBlockID None) with zero_CanonicalBlockID. by rewrite BlockID_roundtrip by auto.
Qed.

Lemma CanonicalProposal_roundtrip m b :
  proposal_ok m -> CanonicalProposal_Marshal m = Some b -> lenZ b <= int64_max ->
  CanonicalProposal_Unmarshal b zero_CanonicalProposal = Ok m.
Proof.
  destruct m as [typ h r pol bid t c]. intros (Ht & Hh & Hr & Hp & Hb). unfold CanonicalProposal_Marshal.
  cbn [cp_Type cp_Height cp_Round cp_POLRound cp_BlockID cp_Timestamp cp_ChainID] in *.
  destruct (StdTimeMarshal t) as [tb|] eqn:Et; [|done]. cbn [mbind option_bind].
  intros Heq%(inj Some) Hl. subst b. apply decodes_decode; [done|]. clear Hl.
  match goal with |- decodes _ ?L _ _ _ => generalize L end. intros l.
  eapply (decodes_varint _ _ 0x8 1 typ _ _ (mkCanonicalProposal typ 0 0 0 None 0 [])); [tag_side|by intros ->| |].
  { intros x rest Hx ->. unfold proposal_field, zero_CanonicalProposal. read_field. by rewrite wrap32_wrapu64. }
  eapply (decodes_fixed64 _ _ 0x11 2 h _ _ (mkCanonicalProposal typ h 0 0 None 0 [])); [tag_side|done|by intros ->| |].
  { intros rest Hx. unfold proposal_field. by read_field. }
  eapply (decodes_fixed64 _ _ 0x19 3 r _ _ (mkCanonicalProposal typ h r 0 None 0 [])); [tag_side|done|by intros ->| |].
  { intros rest Hx. unfold proposal_field. by read_field. }
  eapply (decodes_varint _ _ 0x20 4 pol _ _ (mkCanonicalProposal typ h r pol None 0 [])); [tag_side|by intros ->| |].
  { intros x rest Hx ->. unfold proposal_field. read_field. by rewrite wrap64_wrapu64. }
  assert (Htail : decodes proposal_field l (field_msg 50 tb ++ field_bytes 58 c)
    (mkCanonicalProposal typ h r pol bid 0 []) (mkCanonicalProposal typ h r pol bid t c)).
  { eapply (decodes_msg _ _ 0x32 6 tb _ _ (mkCanonicalProposal typ h r pol bid t [])); [tag_side| |].
    - intros _ rest Hx. unfold proposal_field. read_field. unfold read_time. by rewrite (StdTime_roundtrip t tb Et).
    - rewrite <- (app_nil_r (field_bytes _ _)).
      eapply (decodes_bytes _ _ 0x3a 7); [tag_side|by intros ->| |apply decodes_nil].
      intros rest Hx. unfold proposal_field. by read_field. }
  destruct bid as [bid|]; [|exact Htail].
  eapply (decodes_msg _ _ 0x2a 5); [tag_side| |exact Htail]. intros _ rest Hx. unfold proposal_field. read_field.
  change (default zero_CanonicalBlockID None) with zero_CanonicalBlockID. by rewrite BlockID_roundtrip by auto.
Qed.

End roundtrip.

(** ** Delimited messages come back *)

Lemma uvarint_step fuel s b rest :
  uvarint_loop (S fuel) s (b :: rest) =
  if b <? 0x80 then if bool_decide (fuel = O) && (1 <? b) then Err ErrUvarintOverflow else Ok (Z.shiftl b s, rest)
  else '(v, rest) ← uvarint_loop fuel (s + 7) rest; Ok (Z.shiftl (Z.land b 0x7f) s + v, rest).
Proof. done. Qed.

Lemma uvarint_encode fuel s n v r :
  0 <= s -> 0 <= v < 2 ^ Z.of_nat n -> v < 2 ^ (7 * Z.of_nat fuel + 1) ->
  uvarint_loop (S fuel) s (varint_loop n v ++ r) = Ok (v * 2 ^ s, r).
Proof.
  revert s n v. induction fuel as [|fuel IH]; intros s n v Hs Hn Hf.
  all: destruct n as [|n]; [change (2 ^ Z.of_nat 0) with 1 in Hn; assert (v = 0) as -> by lia; cbn; by rewrite Z.shiftl_0_l|].
  all: rewrite varint_loop_step by lia.
  - change (2 ^ (7 * Z.of_nat 0 + 1)) with 2 in Hf. destruct (Z.leb_spec 128 v); [lia|]. cbn [app].
    rewrite uvarint_step, (proj2 (Z.ltb_lt v 128)), (proj2 (Z.ltb_ge 1 v)) by lia. cbn [bool_decide andb].
    rewrite andb_false_r, Z.shiftl_mul_pow2 by lia. done.
  - destruct (Z.leb_spec 128 v) as [Hv|Hv]; cbn [app]; rewrite uvarint_step.
    + pose proof (Z.mod_pos_bound v 128 ltac:(lia)) as Hm. pose proof (Z.div_mod v 128 ltac:(lia)) as Hd.
      rewrite (proj2 (Z.ltb_ge (v mod 128 + 128) 128)) by lia. rewrite Nat2Z.inj_succ, Z.pow_succ_r in Hn by lia.
      rewrite (IH (s + 7) n (v / 128)); [|lia|split; [apply Z.div_pos; lia|apply Z.div_lt_upper_bound; lia]|].
      2: { apply Z.div_lt_upper_bound; [lia|].
           replace (7 * Z.of_nat (S fuel) + 1) with (7 + (7 * Z.of_nat fuel + 1)) in Hf by lia. rewrite Z.pow_add_r in Hf by lia. lia. }
      cbn [mbind outcome_bind]. rewrite group_bits by lia. rewrite Z.shiftl_mul_pow2, Z.pow_add_r by lia.
      replace ((v mod 128 + 128) mod 128) with (v mod 128) by (rewrite <- Zplus_mod_idemp_r; rewrite Z.mod_same, Z.add_0_r by lia; by rewrite Z.mod_mod by lia).
      f_equal. f_equal. change (2 ^ 7) with 128. rewrite Hd at 3. ring.
    + rewrite (proj2 (Z.ltb_lt v 128)) by lia. rewrite bool_decide_eq_false_2 by done. cbn [andb].
      by rewrite Z.shiftl_mul_pow2 by lia.
Qed.

Lemma ReadMsg_Marshal msg b d :
  msg = Some b -> MarshalDelimited msg = Some d -> lenZ d < int64_max -> ReadMsg (lenZ d) d = Ok b.
Proof.
  intros -> Hd Hl. unfold MarshalDelimited in Hd. cbn [mbind option_bind] in Hd. apply (inj Some) in Hd. subst d.
  pose proof (lenZ_nonneg b). pose proof (lenZ_nonneg (encodeVarint (lenZ b))). rewrite lenZ_app in *. unfold_ints.
  unfold ReadMsg, encodeVarint. rewrite (uvarint_encode 9 0); [|lia|apply varint_fuel; lia|].
  2: { change (2 ^ (7 * Z.of_nat 9 + 1)) with 18446744073709551616. lia. }
  cbn [mbind outcome_bind]. fold (encodeVarint (lenZ b)). rewrite Z.mul_1_r, (wrap64_id (lenZ b)) by (unfold_ints; lia).
  rewrite lenZ_app, wrap64_id by (unfold_ints; lia). change int64_max with 9223372036854775807.
  rewrite (proj2 (Z.leb_gt _ _)), (proj2 (Z.ltb_ge (lenZ b) 0)), (proj2 (Z.ltb_ge (lenZ (encodeVarint (lenZ b)) + lenZ b - lenZ b + lenZ b) 0)) by lia.
  cbn [orb]. rewrite (proj2 (Z.ltb_ge (lenZ (encodeVarint (lenZ b)) + lenZ b) (lenZ b))), (proj2 (Z.ltb_ge (lenZ b) (lenZ b))) by lia.
  f_equal. unfold lenZ. rewrite Nat2Z.id. apply firstn_all.
Qed.

Definition unmarshal_vote {decoder : TimeDecoder} (b : bytes) : result CanonicalVote := CanonicalVote_Unmarshal b zero_CanonicalVote.

Definition unmarshal_proposal {decoder : TimeDecoder} (b : bytes) : result CanonicalProposal :=
  CanonicalProposal_Unmarshal b zero_CanonicalProposal.

Lemma delimited_vote `{TimeRoundtrip} m d :
  vote_ok m -> MarshalDelimited (CanonicalVote_Marshal m) = Some d -> lenZ d < int64_max ->
  UnmarshalDelimited unmarshal_vote d = Ok m.
Proof.
  intros Hok Hd Hl. unfold UnmarshalDelimited. destruct (CanonicalVote_Marshal m) as [b|] eqn:Eb; [|done].
  rewrite (ReadMsg_Marshal (Some b) b d) by done. cbn [mbind outcome_bind]. apply (CanonicalVote_roundtrip m b); [done|done|].
  unfold MarshalDelimited in Hd. cbn [mbind option_bind] in Hd. apply (inj Some) in Hd. subst d. rewrite lenZ_app in Hl.
  pose proof (lenZ_nonneg (encodeVarint (lenZ b))). lia.
Qed.

Lemma delimited_proposal `{TimeRoundtrip} m d :
  proposal_ok m -> MarshalDelimited (CanonicalProposal_Marshal m) = Some d -> lenZ d < int64_max ->
  UnmarshalDelimited unmarshal_proposal d = Ok m.
Proof.
  intros Hok Hd Hl. unfold UnmarshalDelimited. destruct (CanonicalProposal_Marshal m) as [b|] eqn:Eb; [|done].
  rewrite (ReadMsg_Marshal (Some b) b d) by done. cbn [mbind outcome_bind]. apply (CanonicalProposal_roundtrip m b); [done|done|].
  unfold MarshalDelimited in Hd. cbn [mbind option_bind] in Hd. apply (inj Some) in Hd. subst d. rewrite lenZ_app in Hl.
  pose proof (lenZ_nonneg (encodeVarint (lenZ b))). lia.
Qed.

(** What is signed can be read back.  Encoding a canonical vote or
    proposal, with fields in the range of their types, and decoding the bytes
    gives the same message: varints of any length, negative numbers, fields
    left out at their zero value, an absent block and nested messages
    included.  The signer relies on it to recognize what it signed last. *)
Theorem canonical_roundtrip `{TimeRoundtrip} mv mp dv dp :
  vote_ok mv -> MarshalDelimited (CanonicalVote_Marshal mv) = Some dv -> lenZ dv < int64_max ->
  proposal_ok mp -> MarshalDelimited (CanonicalProposal_Marshal mp) = Some dp -> lenZ dp < int64_max ->
  UnmarshalDelimited unmarshal_vote dv = Ok mv /\ UnmarshalDelimited unmarshal_proposal dp = Ok mp.
Proof. intros Hv Hdv Hlv Hp Hdp Hlp. split; [by apply delimited_vote|by apply delimited_proposal]. Qed.

Definition toy_decoder : TimeDecoder := fun b => head b.

Lemma toy_roundtrip : @TimeRoundtrip toy_time toy_decoder.
Proof. intros t b [= <-]. done. Qed.

Lemma canonical_roundtrip_witness :
  let mv := mkCanonicalVote 2 300 7 (Some (mkCanonicalBlockID [1; 2] (mkCanonicalPartSetHeader 200 [3]))) 5 [65; 66] in
  let mp := mkCanonicalProposal 32 1 2 (-1) None 5 [] in
  exists dv dp, UnmarshalDelimited (@unmarshal_vote toy_decoder) dv = Ok mv /\
    UnmarshalDelimited (@unmarshal_proposal toy_decoder) dp = Ok mp.
Proof.
  intros mv mp.
  set (dv := default [] (MarshalDelimited (@CanonicalVote_Marshal toy_time mv))).
  set (dp := default [] (MarshalDelimited (@CanonicalProposal_Marshal toy_time mp))).
  exists dv, dp. apply (@canonical_roundtrip toy_time toy_decoder toy_roundtrip mv mp dv dp).
  - unfold vote_ok. cbn. unfold_ints. split_and!; try lia. intros b Hb%(inj Some). subst b. split; [cbn; lia|vm_compute; discriminate].
  - vm_compute. reflexivity.
  - vm_compute. reflexivity.
  - unfold proposal_ok. cbn. unfold_ints. split_and!; try lia. intros b Hb. discriminate.
  - vm_compute. reflexivity.
  - vm_compute. reflexivity.
Defined.
