(* ===== verification/Block.v ===== *)
(** * Block identifiers, votes, commits and proposals

    - [PartSetHeader] of src/types/part_set.go;
    - [BlockID], [CommitSig], [Commit] of src/types/block.go;
    - [Vote] of src/types/vote.go, [Proposal] of src/types/proposal.go;
    - the canonical forms of src/types/canonical.go.

    A byte slice that the code only measures, compares and copies is a list,
    empty for nil; a signature, which the code compares with nil, is an option.
    The protobuf structures have the fields of the Go ones, so a conversion to
    them is the identity and a conversion from them is its validation. *)

From Stdlib Require Import ZArith Lia.
From stdpp Require Import prelude list.
From S2P Require Import Prelude Proto Crypto BitArray.

Local Open Scope Z_scope.

(** ** Identifiers *)

Record PartSetHeader := mkPartSetHeader { Total : Z; psh_Hash : bytes }.

#[global] Instance PartSetHeader_eq_dec : EqDecision PartSetHeader.
Proof. solve_decision. Defined.

Definition PartSetHeader_IsZero (psh : PartSetHeader) : bool :=
  (Total psh =? 0) && bool_decide (psh_Hash psh = []).

Definition PartSetHeader_Equals (psh other : PartSetHeader) : bool :=
  (Total psh =? Total other) && bytes_eqb (psh_Hash psh) (psh_Hash other).

Inductive basic_error :=
| ErrInvalidType | ErrNegativeHeight | ErrNegativeRound | ErrNegativePOLRound | ErrWrongHash
| ErrBlockIDIncomplete | ErrAddressSize | ErrNegativeIndex | ErrSignatureMissing | ErrSignatureTooBig
| ErrUnknownFlag | ErrAddressPresent | ErrTimePresent | ErrSignaturePresent
| ErrCommitForNil | ErrNoSignatures | ErrErasedWithoutAggregate | ErrAggregateWithoutErased.

Definition ValidateHash (h : bytes) : outcome basic_error unit :=
  if bool_decide (h <> []) && bool_decide (length h <> tmhash_Size) then Err ErrWrongHash else Ok tt.

Definition PartSetHeader_ValidateBasic (psh : PartSetHeader) : outcome basic_error unit :=
  ValidateHash (psh_Hash psh).

Record BlockID := mkBlockID { bid_Hash : bytes; bid_PartSetHeader : PartSetHeader }.

#[global] Instance BlockID_eq_dec : EqDecision BlockID.
Proof. solve_decision. Defined.

Definition zero_BlockID : BlockID := mkBlockID [] (mkPartSetHeader 0 []).

Definition BlockID_Equals (blockID other : BlockID) : bool :=
  bytes_eqb (bid_Hash blockID) (bid_Hash other) &&
  PartSetHeader_Equals (bid_PartSetHeader blockID) (bid_PartSetHeader other).

Definition PartSetHeader_Marshal (psh : PartSetHeader) : bytes :=
  field_varint 0x8 (Total psh) ++ field_bytes 0x12 (psh_Hash psh).

Definition BlockID_Key (blockID : BlockID) : bytes :=
  bid_Hash blockID ++ PartSetHeader_Marshal (bid_PartSetHeader blockID).

Definition BlockID_ValidateBasic (blockID : BlockID) : outcome basic_error unit :=
  _ ← ValidateHash (bid_Hash blockID); PartSetHeader_ValidateBasic (bid_PartSetHeader blockID).

Definition BlockID_IsZero (blockID : BlockID) : bool :=
  bool_decide (bid_Hash blockID = []) && PartSetHeader_IsZero (bid_PartSetHeader blockID).

Definition BlockID_IsComplete (blockID : BlockID) : bool :=
  bool_decide (length (bid_Hash blockID) = tmhash_Size) &&
  (0 <? Total (bid_PartSetHeader blockID)) &&
  bool_decide (length (psh_Hash (bid_PartSetHeader blockID)) = tmhash_Size).

Definition PartSetHeaderFromProto (psh : PartSetHeader) : outcome basic_error PartSetHeader :=
  _ ← PartSetHeader_ValidateBasic psh; Ok psh.

Definition BlockIDFromProto (bID : BlockID) : outcome basic_error BlockID :=
  ph ← PartSetHeaderFromProto (bid_PartSetHeader bID);
  let blockID := mkBlockID (bid_Hash bID) ph in
  _ ← BlockID_ValidateBasic blockID; Ok blockID.

(** ** Votes *)

Definition PrevoteType : Z := 1.
Definition PrecommitType : Z := 2.
Definition ProposalType : Z := 32.

Definition IsVoteTypeValid (t : Z) : bool := (t =? PrevoteType) || (t =? PrecommitType).

Record Vote := mkVote {
  v_Type : Z; v_Height : Z; v_Round : Z; v_BlockID : BlockID; v_Timestamp : Time;
  v_ValidatorAddress : bytes; v_ValidatorIndex : Z; v_Signature : option bytes
}.

#[global] Instance Vote_eq_dec : EqDecision Vote.
Proof. solve_decision. Defined.

Record Proposal := mkProposal {
  p_Type : Z; p_Height : Z; p_Round : Z; p_POLRound : Z; p_BlockID : BlockID;
  p_Timestamp : Time; p_Signature : option bytes
}.

Definition NewProposal (now : Time) (height round polRound : Z) (blockID : BlockID) : Proposal :=
  mkProposal ProposalType height round polRound blockID now None.

(** [len] of a slice that may be nil. *)
Definition olen (b : option bytes) : nat := match b with None => 0 | Some b => length b end.

(** [CanonicalizeBlockID] panics on an invalid identifier. *)
Definition CanonicalizeBlockID {E} (bid : BlockID) : outcome E (option CanonicalBlockID) :=
  match BlockIDFromProto bid with
  | Ok rbid =>
      Ok (if BlockID_IsZero rbid then None
          else Some (mkCanonicalBlockID (bid_Hash bid)
                 (mkCanonicalPartSetHeader (Total (bid_PartSetHeader bid)) (psh_Hash (bid_PartSetHeader bid)))))
  | _ => Panic
  end.

Definition CanonicalizeVote {E} (chainID : bytes) (vote : Vote) : outcome E CanonicalVote :=
  b ← CanonicalizeBlockID (v_BlockID vote);
  Ok (mkCanonicalVote (v_Type vote) (v_Height vote) (v_Round vote) b (v_Timestamp vote) chainID).

Definition CanonicalizeProposal {E} (chainID : bytes) (p : Proposal) : outcome E CanonicalProposal :=
  b ← CanonicalizeBlockID (p_BlockID p);
  Ok (mkCanonicalProposal ProposalType (p_Height p) (p_Round p) (p_POLRound p) b (p_Timestamp p) chainID).

Definition or_panic {E A} (o : option A) : outcome E A :=
  match o with Some a => Ok a | None => Panic end.

Section sign_bytes.
  Context {codec : TimeCodec}.

Definition VoteSignBytes {E} (chainID : bytes) (vote : Vote) : outcome E bytes :=
  pb ← CanonicalizeVote chainID vote;
  or_panic (MarshalDelimited (CanonicalVote_Marshal pb)).

Definition ProposalSignBytes {E} (chainID : bytes) (p : Proposal) : outcome E bytes :=
  pb ← CanonicalizeProposal chainID p;
  or_panic (MarshalDelimited (CanonicalProposal_Marshal pb)).

End sign_bytes.

Inductive vote_verify_error := ErrVoteInvalidValidatorAddress | ErrVoteInvalidSignature.

(** A nil signature is the empty one for [VerifySignature]. *)
Definition sig_bytes (sig : option bytes) : bytes := default [] sig.

Definition Vote_Verify `{CryptoLib} `{TimeCodec} (chainID : bytes) (pubKey : PubKey) (vote : Vote)
  : outcome vote_verify_error unit :=
  addr ← PubKey_Address pubKey;
  if negb (bytes_eqb addr (v_ValidatorAddress vote)) then Err ErrVoteInvalidValidatorAddress
  else
    msg ← VoteSignBytes chainID vote;
    if negb (VerifySignature pubKey msg (sig_bytes (v_Signature vote))) then Err ErrVoteInvalidSignature
    else Ok tt.

Definition Vote_ValidateBasic (vote : Vote) : outcome basic_error unit :=
  if negb (IsVoteTypeValid (v_Type vote)) then Err ErrInvalidType
  else if v_Height vote <? 0 then Err ErrNegativeHeight
  else if v_Round vote <? 0 then Err ErrNegativeRound
  else
    _ ← BlockID_ValidateBasic (v_BlockID vote);
    if negb (BlockID_IsZero (v_BlockID vote)) && negb (BlockID_IsComplete (v_BlockID vote))
    then Err ErrBlockIDIncomplete
    else if bool_decide (length (v_ValidatorAddress vote) <> AddressSize) then Err ErrAddressSize
    else if v_ValidatorIndex vote <? 0 then Err ErrNegativeIndex
    else if bool_decide (olen (v_Signature vote) = 0%nat) then Err ErrSignatureMissing
    else if bool_decide ((MaxSignatureSize < olen (v_Signature vote))%nat) then Err ErrSignatureTooBig
    else Ok tt.

Definition VoteFromProto (pv : Vote) : outcome basic_error Vote :=
  _ ← BlockIDFromProto (v_BlockID pv); _ ← Vote_ValidateBasic pv; Ok pv.

Definition Proposal_ValidateBasic (p : Proposal) : outcome basic_error unit :=
  if negb (p_Type p =? ProposalType) then Err ErrInvalidType
  else if p_Height p <? 0 then Err ErrNegativeHeight
  else if p_Round p <? 0 then Err ErrNegativeRound
  else if p_POLRound p <? -1 then Err ErrNegativePOLRound
  else
    _ ← BlockID_ValidateBasic (p_BlockID p);
    if negb (BlockID_IsComplete (p_BlockID p)) then Err ErrBlockIDIncomplete
    else if bool_decide (olen (p_Signature p) = 0%nat) then Err ErrSignatureMissing
    else if bool_decide ((MaxSignatureSize < olen (p_Signature p))%nat) then Err ErrSignatureTooBig
    else Ok tt.

(** ** Commits *)

Definition BlockIDFlagAbsent : Z := 1.
Definition BlockIDFlagCommit : Z := 2.
Definition BlockIDFlagNil : Z := 3.

Record CommitSig := mkCommitSig {
  cs_BlockIDFlag : Z; cs_ValidatorAddress : bytes; cs_Timestamp : Time; cs_Signature : option bytes
}.

#[global] Instance CommitSig_eq_dec : EqDecision CommitSig.
Proof. solve_decision. Defined.

Definition NewCommitSigForBlock (signature : option bytes) (valAddr : bytes) (ts : Time) : CommitSig :=
  mkCommitSig BlockIDFlagCommit valAddr ts signature.

Definition NewCommitSigAbsent : CommitSig := mkCommitSig BlockIDFlagAbsent [] 0 None.

Definition ForBlock (cs : CommitSig) : bool := cs_BlockIDFlag cs =? BlockIDFlagCommit.

Definition Absent (cs : CommitSig) : bool := cs_BlockIDFlag cs =? BlockIDFlagAbsent.

Definition CommitSig_BlockID {E} (cs : CommitSig) (commitBlockID : BlockID) : outcome E BlockID :=
  if cs_BlockIDFlag cs =? BlockIDFlagAbsent then Ok zero_BlockID
  else if cs_BlockIDFlag cs =? BlockIDFlagCommit then Ok commitBlockID
  else if cs_BlockIDFlag cs =? BlockIDFlagNil then Ok zero_BlockID
  else Panic.

Definition CommitSig_ValidateBasic (cs : CommitSig) : outcome basic_error unit :=
  if negb ((cs_BlockIDFlag cs =? BlockIDFlagAbsent) || (cs_BlockIDFlag cs =? BlockIDFlagCommit) ||
           (cs_BlockIDFlag cs =? BlockIDFlagNil)) then Err ErrUnknownFlag
  else if cs_BlockIDFlag cs =? BlockIDFlagAbsent then
    if bool_decide (cs_ValidatorAddress cs <> []) then Err ErrAddressPresent
    else if negb (cs_Timestamp cs =? 0) then Err ErrTimePresent
    else if bool_decide (olen (cs_Signature cs) <> 0%nat) then Err ErrSignaturePresent
    else Ok tt
  else if bool_decide (length (cs_ValidatorAddress cs) <> AddressSize) then Err ErrAddressSize
  else if bool_decide (cs_Signature cs <> None) &&
          bool_decide ((MaxSignatureSize < olen (cs_Signature cs))%nat) then Err ErrSignatureTooBig
  else Ok tt.

(** [Vote.CommitSig]; a nil vote is an absent signature. *)
Definition Vote_CommitSig {E} (vote : option Vote) : outcome E CommitSig :=
  match vote with
  | None => Ok NewCommitSigAbsent
  | Some vote =>
      if BlockID_IsComplete (v_BlockID vote)
      then Ok (mkCommitSig BlockIDFlagCommit (v_ValidatorAddress vote) (v_Timestamp vote) (v_Signature vote))
      else if BlockID_IsZero (v_BlockID vote)
      then Ok (mkCommitSig BlockIDFlagNil (v_ValidatorAddress vote) (v_Timestamp vote) (v_Signature vote))
      else Panic
  end.

Record Commit := mkCommit {
  c_Height : Z; c_Round : Z; c_BlockID : BlockID; c_Signatures : list CommitSig;
  c_AggregatedSignature : option bytes
}.

Definition NewCommit (height round : Z) (blockID : BlockID) (commitSigs : list CommitSig) : Commit :=
  mkCommit height round blockID commitSigs None.

Definition set_signatures (c : Commit) (sigs : list CommitSig) (aggr : option bytes) : Commit :=
  mkCommit (c_Height c) (c_Round c) (c_BlockID c) sigs aggr.

Definition clear_signature (cs : CommitSig) : CommitSig :=
  mkCommitSig (cs_BlockIDFlag cs) (cs_ValidatorAddress cs) (cs_Timestamp cs) None.

Definition MaxCommitOverheadBytes : Z := (1 + 9) + (1 + 5) + (1 + 76 + 1).

Definition MaxCommitSigBytes (signBytes : Z) : Z :=
  let size := (1 + 1) + (1 + 20 + 1) + (1 + 17 + 1) in
  if 0 <? signBytes then size + (1 + signBytes + 1) else size.

Definition protoEncodingOverhead {E} (sigSize : Z) : outcome E Z :=
  if sigSize =? 0 then Ok 2
  else if sigSize =? Z.of_nat ed25519_SignatureSize then Ok 2
  else if sigSize =? Z.of_nat bls_SignatureSize then Ok 3
  else Panic.

Fixpoint commit_sizes {E} (sigSizes : list Z) (size : Z) : outcome E Z :=
  match sigSizes with
  | [] => Ok size
  | s :: rest => o ← protoEncodingOverhead s; commit_sizes rest (size + (MaxCommitSigBytes s + o))
  end.

Definition MaxCommitBytes {E} (sigSizes : list Z) (aggrSigSize : Z) : outcome E Z :=
  size ← commit_sizes sigSizes MaxCommitOverheadBytes;
  Ok (if 0 <? aggrSigSize then size + (2 + aggrSigSize + 1) else size).

Definition Commit_MaxCommitBytes {E} (commit : Commit) : outcome E Z :=
  MaxCommitBytes ((fun cs => Z.of_nat (olen (cs_Signature cs))) <$> c_Signatures commit)
    (Z.of_nat (olen (c_AggregatedSignature commit))).

(** [commit.Signatures[valIdx]] panics out of range. *)
Definition GetVote {E} (commit : Commit) (valIdx : Z) : outcome E Vote :=
  commitSig ← idx (c_Signatures commit) valIdx;
  blockID ← CommitSig_BlockID commitSig (c_BlockID commit);
  Ok (mkVote PrecommitType (c_Height commit) (c_Round commit) blockID (cs_Timestamp commitSig)
        (cs_ValidatorAddress commitSig) valIdx (cs_Signature commitSig)).

Definition Commit_VoteSignBytes `{TimeCodec} {E} (commit : Commit) (chainID : bytes) (valIdx : Z)
  : outcome E bytes :=
  v ← GetVote commit valIdx; VoteSignBytes chainID v.

Definition Commit_Size (commit : option Commit) : Z :=
  match commit with None => 0 | Some c => lenZ (c_Signatures c) end.

Definition IsCommit (commit : Commit) : bool := bool_decide (c_Signatures commit <> []).

Fixpoint set_present {E} (sigs : list CommitSig) (i : Z) (b : option BitArray) : outcome E (option BitArray) :=
  match sigs with
  | [] => Ok b
  | cs :: rest => '(_, b) ← SetIndex b i (negb (Absent cs)); set_present rest (i + 1) b
  end.

Definition Commit_BitArray {E} (commit : Commit) : outcome E (option BitArray) :=
  set_present (c_Signatures commit) 0 (NewBitArray (lenZ (c_Signatures commit))).

(** The loop of [Commit.ValidateBasic]: the number of omitted signatures. *)
Fixpoint count_omitted (sigs : list CommitSig) (omittedSignatures : Z) : outcome basic_error Z :=
  match sigs with
  | [] => Ok omittedSignatures
  | cs :: rest =>
      _ ← CommitSig_ValidateBasic cs;
      count_omitted rest
        (if negb (Absent cs) && bool_decide (cs_Signature cs = None)
         then omittedSignatures + 1 else omittedSignatures)
  end.

Definition Commit_ValidateBasic (commit : Commit) : outcome basic_error unit :=
  if c_Height commit <? 0 then Err ErrNegativeHeight
  else if c_Round commit <? 0 then Err ErrNegativeRound
  else if 1 <=? c_Height commit then
    if BlockID_IsZero (c_BlockID commit) then Err ErrCommitForNil
    else if bool_decide (c_Signatures commit = []) then Err ErrNoSignatures
    else
      omittedSignatures ← count_omitted (c_Signatures commit) 0;
      match c_AggregatedSignature commit with
      | None => if 0 <? omittedSignatures then Err ErrErasedWithoutAggregate else Ok tt
      | Some aggr =>
          if omittedSignatures =? 0 then Err ErrAggregateWithoutErased
          else if bool_decide ((MaxSignatureSize < length aggr)%nat) then Err ErrSignatureTooBig
          else Ok tt
      end
  else Ok tt.

(** The flag of the protobuf enumeration is cut to a byte. *)
Definition CommitSigFromProto (csp : CommitSig) : outcome basic_error CommitSig :=
  let cs := mkCommitSig (cs_BlockIDFlag csp mod 256) (cs_ValidatorAddress csp) (cs_Timestamp csp)
              (cs_Signature csp) in
  _ ← CommitSig_ValidateBasic cs; Ok cs.

Fixpoint CommitSigsFromProto (sigs : list CommitSig) : outcome basic_error (list CommitSig) :=
  match sigs with
  | [] => Ok []
  | csp :: rest => cs ← CommitSigFromProto csp; r ← CommitSigsFromProto rest; Ok (cs :: r)
  end.

Definition CommitFromProto (cp : Commit) : outcome basic_error Commit :=
  bi ← BlockIDFromProto (c_BlockID cp);
  sigs ← CommitSigsFromProto (c_Signatures cp);
  let commit := mkCommit (c_Height cp) (c_Round cp) bi sigs (c_AggregatedSignature cp) in
  _ ← Commit_ValidateBasic commit; Ok commit.

Section aggregate.
  Context {crypto : CryptoLib}.

(** The loop of [AggregateSignatures]: BLS signatures move into the
    aggregate. *)
Fixpoint aggregate_loop {E} (sigs : list CommitSig) (aggr : option bytes)
  : outcome E (list CommitSig * option bytes) :=
  match sigs with
  | [] => Ok ([], aggr)
  | cs :: rest =>
      if negb (Absent cs) && bool_decide (olen (cs_Signature cs) = bls_SignatureSize) then
        aggr ← match aggr with
               | None => Ok (cs_Signature cs)
               | Some a => match AddSignature (Some a) (sig_bytes (cs_Signature cs)) with
                           | Ok a' => Ok (Some a')
                           | _ => Panic
                           end
               end;
        '(rest, aggr) ← aggregate_loop rest aggr;
        Ok (clear_signature cs :: rest, aggr)
      else
        '(rest, aggr) ← aggregate_loop rest aggr;
        Ok (cs :: rest, aggr)
  end.

Definition AggregateSignatures {E} (commit : Commit) : outcome E Commit :=
  if bool_decide (c_AggregatedSignature commit <> None) then Panic
  else '(sigs, aggr) ← aggregate_loop (c_Signatures commit) (c_AggregatedSignature commit);
       Ok (set_signatures commit sigs aggr).

End aggregate.

(** ** Lemmas *)

Lemma BlockID_Equals_true b1 b2 : BlockID_Equals b1 b2 = true <-> b1 = b2.
Proof.
  unfold BlockID_Equals, PartSetHeader_Equals. destruct b1 as [h1 [t1 p1]], b2 as [h2 [t2 p2]]. cbn.
  rewrite !andb_true_iff, !bytes_eqb_true, Z.eqb_eq. naive_solver.
Qed.

Lemma BlockID_IsZero_true b : BlockID_IsZero b = true <-> b = zero_BlockID.
Proof.
  unfold BlockID_IsZero, PartSetHeader_IsZero, zero_BlockID. destruct b as [h [t p]]. cbn.
  rewrite !andb_true_iff, !bool_decide_eq_true, Z.eqb_eq. naive_solver.
Qed.

Lemma zero_not_complete : BlockID_IsComplete zero_BlockID = false.
Proof. done. Qed.

(** The identifiers a vote can carry: of no block or of a whole block, with a
    part count of 32 bits. *)
Definition votable (b : BlockID) : Prop :=
  (b = zero_BlockID \/ BlockID_IsComplete b = true) /\ 0 <= Total (bid_PartSetHeader b) < 2 ^ 32.

Lemma PartSetHeader_Marshal_inj p1 p2 :
  int64 (Total p1) -> int64 (Total p2) -> PartSetHeader_Marshal p1 = PartSetHeader_Marshal p2 -> p1 = p2.
Proof.
  destruct p1 as [t1 h1], p2 as [t2 h2]. intros H1 H2 Heq.
  pose proof (CanonicalPartSetHeader_inj (mkCanonicalPartSetHeader t1 h1) (mkCanonicalPartSetHeader t2 h2) H1 H2 Heq).
  naive_solver.
Qed.

(** Equal keys are keys of equal identifiers. *)
Lemma BlockID_Key_inj b1 b2 : votable b1 -> votable b2 -> BlockID_Key b1 = BlockID_Key b2 -> b1 = b2.
Proof.
  assert (Hnil : forall b, BlockID_IsComplete b = true -> BlockID_Key b <> []).
  { intros [h p]. unfold BlockID_IsComplete. rewrite !andb_true_iff, !bool_decide_eq_true. cbn.
    intros [[Hh _] _] [-> _]%app_eq_nil. done. }
  intros [[-> | H1] Ht1] [[-> | H2] Ht2] Heq; [done| | |].
  - by destruct (Hnil b2 H2).
  - by destruct (Hnil b1 H1).
  - destruct b1 as [h1 p1], b2 as [h2 p2]. unfold BlockID_IsComplete in *.
    rewrite !andb_true_iff, !bool_decide_eq_true in *. cbn in *. destruct H1 as [[H1 _] _], H2 as [[H2 _] _].
    apply app_inj_1 in Heq as [-> Heq]; [|congruence].
    rewrite (PartSetHeader_Marshal_inj p1 p2); [done|unfold_ints; lia..|done].
Qed.

Definition vote_ranges (v : Vote) : Prop :=
  int64 (v_Type v) /\ int64 (v_Height v) /\ int64 (v_Round v) /\ int64 (Total (bid_PartSetHeader (v_BlockID v))).

Definition proposal_ranges (p : Proposal) : Prop :=
  int64 (p_Height p) /\ int64 (p_Round p) /\ int64 (p_POLRound p) /\
  int64 (Total (bid_PartSetHeader (p_BlockID p))).

Lemma CanonicalizeBlockID_Ok {E} b o :
  CanonicalizeBlockID (E:=E) b = Ok o ->
  match o with
  | None => b = zero_BlockID
  | Some c => b <> zero_BlockID /\ c = mkCanonicalBlockID (bid_Hash b)
                (mkCanonicalPartSetHeader (Total (bid_PartSetHeader b)) (psh_Hash (bid_PartSetHeader b)))
  end.
Proof.
  unfold CanonicalizeBlockID, BlockIDFromProto, PartSetHeaderFromProto.
  destruct (PartSetHeader_ValidateBasic _); [|done|done]. cbn [mbind outcome_bind].
  destruct (BlockID_ValidateBasic _); [|done|done]. cbn [mbind outcome_bind]. intros [= <-].
  assert (mkBlockID (bid_Hash b) (bid_PartSetHeader b) = b) as -> by (by destruct b).
  destruct (BlockID_IsZero b) eqn:Ez; [by apply BlockID_IsZero_true in Ez|].
  split; [|done]. intros ->. done.
Qed.

Lemma CanonicalizeBlockID_inj {E} b1 b2 o :
  CanonicalizeBlockID (E:=E) b1 = Ok o -> CanonicalizeBlockID (E:=E) b2 = Ok o -> b1 = b2.
Proof.
  intros H1%CanonicalizeBlockID_Ok H2%CanonicalizeBlockID_Ok. destruct o as [c|]; [|congruence].
  destruct H1 as [_ ->], H2 as [_ [= H3 H4 H5]]. destruct b1 as [? []], b2 as [? []]. cbn in *. congruence.
Qed.

Lemma VoteSignBytes_E `{TimeCodec} {E1 E2} chainID v m :
  VoteSignBytes (E:=E1) chainID v = Ok m -> VoteSignBytes (E:=E2) chainID v = Ok m.
Proof.
  unfold VoteSignBytes, CanonicalizeVote, CanonicalizeBlockID.
  destruct (BlockIDFromProto (v_BlockID v)); cbn; [|done..].
  destruct (BlockID_IsZero _); cbn; destruct (MarshalDelimited _); cbn; congruence.
Qed.

(** The message depends on the block, the time and the step only. *)
Lemma VoteSignBytes_fields `{TimeCodec} {E} chainID v1 v2 :
  v_Type v1 = v_Type v2 -> v_Height v1 = v_Height v2 -> v_Round v1 = v_Round v2 -> v_BlockID v1 = v_BlockID v2 ->
  v_Timestamp v1 = v_Timestamp v2 -> VoteSignBytes (E:=E) chainID v1 = VoteSignBytes chainID v2.
Proof. intros H1 H2 H3 H4 H5. unfold VoteSignBytes, CanonicalizeVote. by rewrite H1, H2, H3, H4, H5. Qed.

Section sign_bytes_inj.
  Context `{TimeCodecLaws}.

Lemma VoteSignBytes_Ok {E} chainID v b :
  VoteSignBytes (E:=E) chainID v = Ok b ->
  exists o, CanonicalizeBlockID (E:=E) (v_BlockID v) = Ok o /\
    MarshalDelimited (CanonicalVote_Marshal
      (mkCanonicalVote (v_Type v) (v_Height v) (v_Round v) o (v_Timestamp v) chainID)) = Some b.
Proof.
  unfold VoteSignBytes, CanonicalizeVote. destruct (CanonicalizeBlockID _) as [o| |]; [|done|done].
  cbn [mbind outcome_bind]. intros Heq. exists o. split; [done|].
  destruct (MarshalDelimited _); cbn in Heq; congruence.
Qed.

Lemma ProposalSignBytes_Ok {E} chainID p b :
  ProposalSignBytes (E:=E) chainID p = Ok b ->
  exists o, CanonicalizeBlockID (E:=E) (p_BlockID p) = Ok o /\
    MarshalDelimited (CanonicalProposal_Marshal
      (mkCanonicalProposal ProposalType (p_Height p) (p_Round p) (p_POLRound p) o (p_Timestamp p) chainID)) = Some b.
Proof.
  unfold ProposalSignBytes, CanonicalizeProposal. destruct (CanonicalizeBlockID _) as [o| |]; [|done|done].
  cbn [mbind outcome_bind]. intros Heq. exists o. split; [done|].
  destruct (MarshalDelimited _); cbn in Heq; congruence.
Qed.

Lemma cbid_ok_of {E} b o c :
  CanonicalizeBlockID (E:=E) b = Ok o -> int64 (Total (bid_PartSetHeader b)) -> o = Some c -> cbid_ok c.
Proof. intros Hb%CanonicalizeBlockID_Ok Ht ->. destruct Hb as [_ ->]. done. Qed.

Lemma cv_ok_of {E} chainID v o :
  vote_ranges v -> CanonicalizeBlockID (E:=E) (v_BlockID v) = Ok o ->
  cv_ok (mkCanonicalVote (v_Type v) (v_Height v) (v_Round v) o (v_Timestamp v) chainID).
Proof. intros (T & Hh & R & B) Ho. do 3 (split; [done|]). intros b Hb. by eapply cbid_ok_of. Qed.

Lemma cp_ok_of {E} chainID p o :
  proposal_ranges p -> CanonicalizeBlockID (E:=E) (p_BlockID p) = Ok o ->
  cp_ok (mkCanonicalProposal ProposalType (p_Height p) (p_Round p) (p_POLRound p) o (p_Timestamp p) chainID).
Proof.
  intros (Hh & R & P & B) Ho. split; [by apply (bool_decide_unpack _); vm_compute|].
  do 3 (split; [done|]). intros b Hb. by eapply cbid_ok_of.
Qed.

Lemma VoteSignBytes_inj {E} c1 c2 v1 v2 b :
  vote_ranges v1 -> vote_ranges v2 -> VoteSignBytes (E:=E) c1 v1 = Ok b -> VoteSignBytes (E:=E) c2 v2 = Ok b ->
  c1 = c2 /\ v_Type v1 = v_Type v2 /\ v_Height v1 = v_Height v2 /\ v_Round v1 = v_Round v2 /\
  v_BlockID v1 = v_BlockID v2 /\ v_Timestamp v1 = v_Timestamp v2.
Proof.
  intros V1 V2 (o1 & Ho1 & M1)%VoteSignBytes_Ok (o2 & Ho2 & M2)%VoteSignBytes_Ok.
  destruct (MarshalDelimited_inj _ _ _ M1 M2) as (c & C1 & C2).
  pose proof (CanonicalVote_inj _ _ _ (cv_ok_of _ _ _ V1 Ho1) (cv_ok_of _ _ _ V2 Ho2) C1 C2) as Heq.
  injection Heq as -> -> -> -> -> ->. split_and!; try done. by eapply CanonicalizeBlockID_inj.
Qed.

Lemma VoteSignBytes_not_proposal {E} c1 c2 v p b :
  vote_ranges v -> proposal_ranges p -> IsVoteTypeValid (v_Type v) = true -> VoteSignBytes (E:=E) c1 v = Ok b ->
  ProposalSignBytes (E:=E) c2 p <> Ok b.
Proof.
  intros V1 P2 Hty (o1 & Ho1 & M1)%VoteSignBytes_Ok (o2 & Ho2 & M2)%ProposalSignBytes_Ok.
  destruct (MarshalDelimited_inj _ _ _ M1 M2) as (c & C1 & C2).
  pose proof (vote_proposal_type _ _ _ (cv_ok_of _ _ _ V1 Ho1) (cp_ok_of _ _ _ P2 Ho2) C1 C2) as Heq.
  cbn in Heq. by rewrite Heq in Hty.
Qed.

End sign_bytes_inj.

(** ** Properties *)

(** C37: bytes to sign determine what is signed.  Two votes, of one chain or of
    two, with the same bytes to sign have the same chain, type, height, round,
    block and time; so do two proposals, which also have the same proof-of-lock
    round; and a vote of a valid type never has the bytes of a proposal.  So a
    signature cannot be carried over to another chain, height, round, step or
    block. *)
Theorem sign_bytes_separate `{TimeCodecLaws} {E} c1 c2 v1 v2 p1 p2 b :
  vote_ranges v1 -> vote_ranges v2 -> proposal_ranges p1 -> proposal_ranges p2 ->
  (VoteSignBytes (E:=E) c1 v1 = Ok b -> VoteSignBytes (E:=E) c2 v2 = Ok b ->
   c1 = c2 /\ v_Type v1 = v_Type v2 /\ v_Height v1 = v_Height v2 /\ v_Round v1 = v_Round v2 /\
   v_BlockID v1 = v_BlockID v2 /\ v_Timestamp v1 = v_Timestamp v2) /\
  (ProposalSignBytes (E:=E) c1 p1 = Ok b -> ProposalSignBytes (E:=E) c2 p2 = Ok b ->
   c1 = c2 /\ p_Height p1 = p_Height p2 /\ p_Round p1 = p_Round p2 /\ p_POLRound p1 = p_POLRound p2 /\
   p_BlockID p1 = p_BlockID p2 /\ p_Timestamp p1 = p_Timestamp p2) /\
  (IsVoteTypeValid (v_Type v1) = true -> VoteSignBytes (E:=E) c1 v1 = Ok b ->
   ProposalSignBytes (E:=E) c2 p2 <> Ok b).
Proof.
  intros V1 V2 P1 P2. split_and!.
  - by apply VoteSignBytes_inj.
  - intros (o1 & Ho1 & M1)%ProposalSignBytes_Ok (o2 & Ho2 & M2)%ProposalSignBytes_Ok.
    destruct (MarshalDelimited_inj _ _ _ M1 M2) as (c & C1 & C2).
    pose proof (CanonicalProposal_inj _ _ _ (cp_ok_of _ _ _ P1 Ho1) (cp_ok_of _ _ _ P2 Ho2) C1 C2) as Heq.
    injection Heq as -> -> -> -> -> ->. split_and!; try done. by eapply CanonicalizeBlockID_inj.
  - by apply VoteSignBytes_not_proposal.
Qed.

Definition sample_block_id : BlockID := mkBlockID (replicate 32 1) (mkPartSetHeader 1 (replicate 32 2)).

Definition sample_vote (round : Z) : Vote := mkVote PrevoteType 5 round sample_block_id 7 (replicate 20 9) 0 None.

Definition sample_proposal : Proposal := mkProposal ProposalType 5 0 (-1) sample_block_id 7 None.

Lemma sign_bytes_separate_witness :
  exists b1 b2,
    @VoteSignBytes toy_time unit [1] (sample_vote 0) = Ok b1 /\
    @VoteSignBytes toy_time unit [1] (sample_vote 1) = Ok b2 /\ b1 <> b2 /\
    @ProposalSignBytes toy_time unit [1] sample_proposal <> Ok b1.
Proof.
  assert (Hv : forall r, r = 0 \/ r = 1 -> vote_ranges (sample_vote r))
    by (intros r [-> | ->]; repeat split; vm_compute; discriminate).
  assert (Hp : proposal_ranges sample_proposal) by (repeat split; vm_compute; discriminate).
  assert (H1 : exists b, @VoteSignBytes toy_time unit [1] (sample_vote 0) = Ok b) by (eexists; vm_compute; reflexivity).
  assert (H2 : exists b, @VoteSignBytes toy_time unit [1] (sample_vote 1) = Ok b) by (eexists; vm_compute; reflexivity).
  destruct H1 as [b1 H1], H2 as [b2 H2]. exists b1, b2.
  destruct (@sign_bytes_separate toy_time toy_time_laws unit [1] [1] (sample_vote 0) (sample_vote 1)
    sample_proposal sample_proposal b1) as (S1 & _ & S3); [auto|auto|exact Hp|exact Hp|].
  split; [exact H1|]. split; [exact H2|]. split.
  - intros Heq. rewrite <- Heq in H2. destruct (S1 H1 H2) as (_ & _ & _ & Hr & _). discriminate.
  - apply S3; [reflexivity|exact H1].
Defined.
