(* ===== verification/VoterSet.v ===== *)
(** * The voter set and the verification of commits: src/types/voter_set.go

    The set of voters with the weights of the election, its total, and the
    three ways the code checks a commit against it; [VerifySignatures] and
    [GetSignatureKey] of src/types/block.go.  The election itself is in
    [Election]. *)

From Stdlib Require Import ZArith Lia.
From stdpp Require Import prelude list gmap.
From S2P Require Import Prelude Proto Crypto SafeMath Rand Validator ValidatorSet ValidatorLists Block.

Local Open Scope Z_scope.
Local Open Scope go_scope.

Record VoterSet := mkVoterSet { Voters : list Validator; totalVotingWeight : Z }.

(** ** The set *)

Inductive voters_error := ErrVotersEmpty | ErrVoterInvalid (e : validator_error).

Fixpoint voters_validate (l : list Validator) : outcome voters_error unit :=
  match l with
  | [] => Ok tt
  | v :: rest =>
      match ValidateBasic (Some v) with
      | Ok _ => voters_validate rest
      | Err e => Err (ErrVoterInvalid e)
      | Panic => Panic
      end
  end.

Definition Voters_ValidateBasic (voters : VoterSet) : outcome voters_error unit :=
  if bool_decide (Voters voters = []) then Err ErrVotersEmpty else voters_validate (Voters voters).

Definition Voters_HasAddress (voters : VoterSet) (address : bytes) : bool :=
  existsb (fun v => bytes_eqb (Address v) address) (Voters voters).

Definition Voters_GetByAddress (voters : VoterSet) (address : bytes) : Z * option Validator :=
  find_address (Voters voters) address 0.

Definition Voters_GetByIndex (voters : VoterSet) (index : Z) : option (bytes * Validator) :=
  if (index <? 0) || (lenZ (Voters voters) <=? index) then None
  else match Voters voters !! Z.to_nat index with
       | Some v => Some (Address v, v)
       | None => None
       end.

Definition Voters_Size (voters : VoterSet) : Z := lenZ (Voters voters).

Fixpoint sum_weight {E} (l : list Validator) (sum : Z) : outcome E Z :=
  match l with
  | [] => Ok sum
  | val :: rest =>
      let sum := safeAddClip sum (VotingWeight val) in
      if MaxTotalVotingWeight <? sum then Panic else sum_weight rest sum
  end.

Definition updateTotalVotingWeight {E} (voters : VoterSet) : outcome E VoterSet :=
  sum ← sum_weight (Voters voters) 0; Ok (mkVoterSet (Voters voters) sum).

Definition TotalVotingWeight {E} (voters : VoterSet) : outcome E (Z * VoterSet) :=
  voters ← (if totalVotingWeight voters =? 0 then updateTotalVotingWeight voters else Ok voters);
  Ok (totalVotingWeight voters, voters).

Definition WrapValidatorsToVoterSet {E} (vals : list Validator) : outcome E VoterSet :=
  updateTotalVotingWeight (mkVoterSet (sort_by less_by_power vals) 0).

Definition ToVoterAll {E} (validators : list Validator) : outcome E VoterSet :=
  WrapValidatorsToVoterSet
    ((fun val => set_weight val (VotingPower val)) <$> filter (fun val => VotingPower val <> 0) validators).

(** ** Verification of commits *)

Inductive verify_error :=
| ErrNilCommit | ErrInvalidCommitSignatures | ErrInvalidCommitHeight | ErrWrongBlockID
| ErrWrongSignature (idx : Z) | ErrSignatureOmitted (idx : Z) | ErrWrongAggregate
| ErrNotEnoughVotingWeightSigned (got needed : Z)
| ErrZeroDenominator | ErrTrustLevelOverflow | ErrDoubleVote (voter first second : Z)
| ErrPublicKeyMissing.

Section verify.
  Context {crypto : CryptoLib} {codec : TimeCodec}.

(** The collected BLS keys and messages come back extended.  A nil key has no
    [VerifySignature]; [GetSignatureKey] of it is nil. *)
Definition verifySignatureOrCollect (idx : Z) (commitSig : CommitSig) (val : Validator) (voteSignBytes : bytes)
    (blsPubKeys messages : list bytes) : outcome verify_error (Z * Z * list bytes * list bytes) :=
  match cs_Signature commitSig with
  | Some sig =>
      match vPubKey val with
      | None => Panic
      | Some pk =>
          if negb (VerifySignature pk voteSignBytes sig) then Err (ErrWrongSignature idx)
          else Ok (VotingWeight val, 0, blsPubKeys, messages)
      end
  | None =>
      match vPubKey val ≫= GetSignatureKey with
      | None => Err (ErrSignatureOmitted idx)
      | Some blsPubKey => Ok (0, VotingWeight val, blsPubKeys ++ [blsPubKey], messages ++ [voteSignBytes])
      end
  end.

Definition verify_aggregate (commit : Commit) (blsPubKeys messages : list bytes) : outcome verify_error unit :=
  match VerifyAggregatedSignature (c_AggregatedSignature commit) blsPubKeys messages with
  | Ok _ => Ok tt
  | Err _ => Err ErrWrongAggregate
  | Panic => Panic
  end.

(** The loop of [VerifyCommit]; [int32(idx)] of the position. *)
Fixpoint verify_loop (voters : list Validator) (chainID : bytes) (commit : Commit)
    (sigs : list CommitSig) (i : Z) (tallied : Z) (keys msgs : list bytes)
  : outcome verify_error (Z * list bytes * list bytes) :=
  match sigs with
  | [] => Ok (tallied, keys, msgs)
  | commitSig :: rest =>
      if Absent commitSig then verify_loop voters chainID commit rest (i + 1) tallied keys msgs
      else
        voter ← idx voters i;
        voteSignBytes ← Commit_VoteSignBytes commit chainID (wrap32 i);
        '(verified, unverified, keys, msgs) ←
          verifySignatureOrCollect i commitSig voter voteSignBytes keys msgs;
        verify_loop voters chainID commit rest (i + 1)
          (if ForBlock commitSig then tallied +i64 (verified +i64 unverified) else tallied) keys msgs
  end.

(** The checks both methods start with. *)
Definition check_commit (blockID : BlockID) (height : Z) (commit : option Commit) (voters : VoterSet)
  : outcome verify_error Commit :=
  match commit with
  | None => Err ErrNilCommit
  | Some commit =>
      if negb (Voters_Size voters =? lenZ (c_Signatures commit)) then Err ErrInvalidCommitSignatures
      else if negb (height =? c_Height commit) then Err ErrInvalidCommitHeight
      else if negb (BlockID_Equals blockID (c_BlockID commit)) then Err ErrWrongBlockID
      else Ok commit
  end.

Definition VerifyCommit (chainID : bytes) (blockID : BlockID) (height : Z) (commit : option Commit)
  : GoM VoterSet verify_error unit :=
  voters ← gget;
  commit ← glift (check_commit blockID height commit voters);
  '(total, voters) ← glift (TotalVotingWeight voters);
  gput voters;;
  let requiredVotingWeight := (total *i64 2) /i64 3 in
  '(tallied, keys, msgs) ← glift (verify_loop (Voters voters) chainID commit (c_Signatures commit) 0 0 [] []);
  glift (verify_aggregate commit keys msgs);;
  if tallied <=? requiredVotingWeight
  then gfail (ErrNotEnoughVotingWeightSigned tallied requiredVotingWeight) else mret tt.

(** The loop of [VerifyCommitLight]; [None] is its early return. *)
Fixpoint light_loop (voters : VoterSet) (chainID : bytes) (commit : Commit) (required : Z)
    (sigs : list CommitSig) (i : Z) (tallied unv : Z) (keys msgs : list bytes)
  : outcome verify_error (option (Z * Z * list bytes * list bytes)) :=
  match sigs with
  | [] => Ok (Some (tallied, unv, keys, msgs))
  | commitSig :: rest =>
      if negb (ForBlock commitSig) then light_loop voters chainID commit required rest (i + 1) tallied unv keys msgs
      else match Voters_GetByAddress voters (cs_ValidatorAddress commitSig) with
           | (_, None) => light_loop voters chainID commit required rest (i + 1) tallied unv keys msgs
           | (_, Some voter) =>
               voteSignBytes ← Commit_VoteSignBytes commit chainID (wrap32 i);
               '(v, u, keys, msgs) ← verifySignatureOrCollect i commitSig voter voteSignBytes keys msgs;
               let tallied := tallied +i64 v in
               let unv := unv +i64 u in
               if required <? tallied then Ok None
               else light_loop voters chainID commit required rest (i + 1) tallied unv keys msgs
           end
  end.

(** The end of both light methods. *)
Definition light_finish (commit : Commit) (required : Z)
    (r : option (Z * Z * list bytes * list bytes)) : outcome verify_error unit :=
  match r with
  | None => Ok tt
  | Some (tallied, unv, keys, msgs) =>
      _ ← verify_aggregate commit keys msgs;
      let tallied := tallied +i64 unv in
      if required <? tallied then Ok tt else Err (ErrNotEnoughVotingWeightSigned tallied required)
  end.

Definition VerifyCommitLight (chainID : bytes) (blockID : BlockID) (height : Z) (commit : option Commit)
  : GoM VoterSet verify_error unit :=
  voters ← gget;
  commit ← glift (check_commit blockID height commit voters);
  '(total, voters) ← glift (TotalVotingWeight voters);
  gput voters;;
  let requiredVotingWeight := (total *i64 2) /i64 3 in
  r ← glift (light_loop voters chainID commit requiredVotingWeight (c_Signatures commit) 0 0 0 [] []);
  glift (light_finish commit requiredVotingWeight r).

(** The loop of [VerifyCommitLightTrusting], with the map of seen voters. *)
Fixpoint trusting_loop (voters : VoterSet) (chainID : bytes) (commit : Commit) (required : Z)
    (sigs : list CommitSig) (i : Z) (seen : gmap Z Z) (tallied unv : Z) (keys msgs : list bytes)
  : outcome verify_error (option (Z * Z * list bytes * list bytes)) :=
  match sigs with
  | [] => Ok (Some (tallied, unv, keys, msgs))
  | commitSig :: rest =>
      if negb (ForBlock commitSig)
      then trusting_loop voters chainID commit required rest (i + 1) seen tallied unv keys msgs
      else match Voters_GetByAddress voters (cs_ValidatorAddress commitSig) with
           | (_, None) => trusting_loop voters chainID commit required rest (i + 1) seen tallied unv keys msgs
           | (voterIdx, Some voter) =>
               match seen !! voterIdx with
               | Some firstIndex => Err (ErrDoubleVote voterIdx firstIndex i)
               | None =>
                   voteSignBytes ← Commit_VoteSignBytes commit chainID (wrap32 i);
                   '(v, u, keys, msgs) ← verifySignatureOrCollect i commitSig voter voteSignBytes keys msgs;
                   let tallied := tallied +i64 v in
                   let unv := unv +i64 u in
                   if required <? tallied then Ok None
                   else trusting_loop voters chainID commit required rest (i + 1)
                          (<[voterIdx := i]> seen) tallied unv keys msgs
               end
           end
  end.

(** [int64] of the unsigned numerator and denominator; dividing by a
    denominator of 2^64 would be by zero, which [uint64] excludes. *)
Definition VerifyCommitLightTrusting (chainID : bytes) (commit : Commit) (trustLevel : Fraction)
  : GoM VoterSet verify_error unit :=
  if Denominator trustLevel =? 0 then gfail ErrZeroDenominator
  else
    voters ← gget;
    '(total, voters) ← glift (TotalVotingWeight voters);
    gput voters;;
    let '(product, overflow) := safeMul total (wrap64 (Numerator trustLevel)) in
    if overflow : bool then gfail ErrTrustLevelOverflow
    else
      let requiredVotingWeight := product /i64 wrap64 (Denominator trustLevel) in
      r ← glift (trusting_loop voters chainID commit requiredVotingWeight (c_Signatures commit) 0 ∅ 0 0 [] []);
      glift (light_finish commit requiredVotingWeight r).

(** [Commit.VerifySignatures]: a nil validator is skipped if the signature is
    there. *)
Fixpoint verify_signatures_loop (vals : list (option Validator)) (chainID : bytes) (commit : Commit)
    (sigs : list CommitSig) (i : Z) (keys msgs : list bytes) : outcome verify_error (list bytes * list bytes) :=
  match sigs with
  | [] => Ok (keys, msgs)
  | commitSig :: rest =>
      if Absent commitSig then verify_signatures_loop vals chainID commit rest (i + 1) keys msgs
      else
        v ← idx vals i;
        match v with
        | Some val =>
            voteSignBytes ← Commit_VoteSignBytes commit chainID (wrap32 i);
            '(_, _, keys, msgs) ← verifySignatureOrCollect i commitSig val voteSignBytes keys msgs;
            verify_signatures_loop vals chainID commit rest (i + 1) keys msgs
        | None =>
            if bool_decide (cs_Signature commitSig = None) then Err ErrPublicKeyMissing
            else verify_signatures_loop vals chainID commit rest (i + 1) keys msgs
        end
  end.

Definition VerifySignatures (chainID : bytes) (vals : list (option Validator)) (commit : Commit)
  : outcome verify_error unit :=
  '(keys, msgs) ← verify_signatures_loop vals chainID commit (c_Signatures commit) 0 [] [];
  verify_aggregate commit keys msgs.

End verify.
