(* ===== verification/VerifyCommit.v ===== *)
(** * What a verified commit proves

    Theorems on the three verifications of [VoterSet]: which commits they
    accept, and that an accepted commit carries the signatures of distinct
    voters with more than the required weight. *)

From Stdlib Require Import ZArith Lia.
From stdpp Require Import prelude list gmap.
From S2P Require Import Prelude Proto Crypto SafeMath Rand Validator ValidatorSet ValidatorLists ValidatorSetPriority Block VoterSet.

Local Open Scope Z_scope.

Abbreviation weights l := (VotingWeight <$> l).

Record voters_wf (voters : VoterSet) : Prop := {
  vwf_nodup : NoDup (addrs (Voters voters));
  vwf_weight : Forall (fun v => 0 <= VotingWeight v) (Voters voters);
  vwf_sum : Zsum (weights (Voters voters)) <= MaxTotalVotingWeight;
  vwf_total : totalVotingWeight voters = 0 \/ totalVotingWeight voters = Zsum (weights (Voters voters));
  vwf_size : lenZ (Voters voters) < 2 ^ 31
}.

Lemma MaxWeight_val : MaxTotalVotingWeight = 1152921504606847975.
Proof. reflexivity. Qed.

Lemma sum_weight_spec {E} l acc :
  Forall (fun v => 0 <= VotingWeight v) l -> 0 <= acc -> acc + Zsum (weights l) <= MaxTotalVotingWeight ->
  sum_weight (E:=E) l acc = Ok (acc + Zsum (weights l)).
Proof.
  revert acc. induction l as [|v l IH]; intros acc Hl Ha Hs; [cbn; f_equal; lia|].
  apply Forall_cons in Hl as [Hv Hl]. rewrite fmap_cons in *. cbn [sum_weight Zsum] in *.
  assert (0 <= Zsum (weights l)) by (apply Zsum_nonneg, Forall_fmap, Hl).
  rewrite MaxWeight_val in *.
  rewrite safeAddClip_exact by (unfold_ints; lia). rewrite (proj2 (Z.ltb_ge _ _)) by lia.
  rewrite IH by (done || lia). f_equal. lia.
Qed.

Definition vfilled (voters : VoterSet) : VoterSet :=
  mkVoterSet (Voters voters) (Zsum (weights (Voters voters))).

Lemma TotalVotingWeight_spec {E} voters :
  voters_wf voters ->
  TotalVotingWeight (E:=E) voters = Ok (Zsum (weights (Voters voters)), vfilled voters).
Proof.
  intros Hwf. unfold TotalVotingWeight, updateTotalVotingWeight.
  destruct (Z.eqb_spec (totalVotingWeight voters) 0) as [H0|H0].
  - rewrite sum_weight_spec by (try apply Hwf; lia). done.
  - destruct (vwf_total _ Hwf) as [|Ht]; [done|]. unfold vfilled. cbn [mbind outcome_bind]. rewrite <- Ht. by destruct voters.
Qed.

Lemma weights_nonneg voters : voters_wf voters -> 0 <= Zsum (weights (Voters voters)).
Proof. intros Hwf. apply Zsum_nonneg, Forall_fmap, Hwf. Qed.

(** More than two thirds, without the rounding. *)
Lemma two_thirds T w : 0 <= T <= MaxTotalVotingWeight -> wrap64 (Z.quot (wrap64 (T * 2)) 3) < w <-> 2 * T < 3 * w.
Proof.
  rewrite MaxWeight_val. intros HT. rewrite (wrap64_id (T * 2)) by (unfold_ints; lia).
  rewrite Z.quot_div_nonneg by lia. pose proof (Z.div_mod (T * 2) 3 ltac:(lia)).
  pose proof (Z.mod_pos_bound (T * 2) 3 ltac:(lia)). rewrite wrap64_id by (unfold_ints; lia). lia.
Qed.

(** ** [VerifyCommit] *)

Section verify_commit.
  Context {crypto : CryptoLib} {codec : TimeCodec}.
  Context (chainID : bytes) (commit : Commit).

(** The signature at position [i], or its omission, is acceptable for [v]. *)
Definition signs_ok (i : Z) (cs : CommitSig) (v : Validator) : Prop :=
  exists msg, Commit_VoteSignBytes (E:=verify_error) commit chainID i = Ok msg /\
    match cs_Signature cs with
    | Some s => exists pk, vPubKey v = Some pk /\ VerifySignature pk msg s = true
    | None => is_Some (vPubKey v ≫= GetSignatureKey)
    end.

(** The keys and messages of the omitted signatures, in order. *)
Definition omitted_at (i : Z) (cs : CommitSig) (v : Validator) : list (bytes * bytes) :=
  match Absent cs, cs_Signature cs, vPubKey v ≫= GetSignatureKey,
        Commit_VoteSignBytes (E:=verify_error) commit chainID i with
  | false, None, Some k, Ok msg => [(k, msg)]
  | _, _, _, _ => []
  end.

Fixpoint omitted (i : Z) (sigs : list CommitSig) (vs : list Validator) : list (bytes * bytes) :=
  match sigs, vs with
  | cs :: sigs, v :: vs => omitted_at i cs v ++ omitted (i + 1) sigs vs
  | _, _ => []
  end.

Definition block_weight (sigs : list CommitSig) (vs : list Validator) : Z :=
  Zsum (zip_with (fun cs v => if ForBlock cs then VotingWeight v else 0) sigs vs).

Definition all_sign (i : Z) (sigs : list CommitSig) (vs : list Validator) : Prop :=
  forall (k : nat) cs v, sigs !! k = Some cs -> vs !! k = Some v -> Absent cs = false -> signs_ok (i + Z.of_nat k) cs v.

Lemma all_sign_cons i cs sigs v vs :
  all_sign i (cs :: sigs) (v :: vs) <-> (Absent cs = false -> signs_ok i cs v) /\ all_sign (i + 1) sigs vs.
Proof.
  split.
  - intros Hall. split; [intros Ha; specialize (Hall 0%nat cs v eq_refl eq_refl Ha); by rewrite Z.add_0_r in Hall|].
    intros k cs' v' Hk Hv Ha. specialize (Hall (S k) cs' v' Hk Hv Ha). by replace (i + 1 + Z.of_nat k) with (i + Z.of_nat (S k)) by lia.
  - intros [H0 Hall] [|k] cs' v' Hk Hv Ha.
    + injection Hk as <-. injection Hv as <-. rewrite Z.add_0_r. auto.
    + specialize (Hall k cs' v' Hk Hv Ha). by replace (i + Z.of_nat (S k)) with (i + 1 + Z.of_nat k) by lia.
Qed.

Lemma block_weight_range sigs vs :
  Forall (fun v => 0 <= VotingWeight v) vs -> 0 <= block_weight sigs vs <= Zsum (weights vs).
Proof.
  revert sigs. induction vs as [|v vs IH]; intros [|cs sigs] Hp; try done.
  - change (block_weight [] (v :: vs)) with 0. split; [lia|]. by apply Zsum_nonneg, Forall_fmap.
  - apply Forall_cons in Hp as [Hv Hp]. specialize (IH sigs Hp). rewrite fmap_cons. cbn [Zsum].
    change (block_weight (cs :: sigs) (v :: vs)) with
      ((if ForBlock cs then VotingWeight v else 0) + block_weight sigs vs). destruct (ForBlock cs); lia.
Qed.

(** What one step of a loop does with an acceptable entry, and with any. *)
Lemma collect_ok i cs v msg ks ms :
  Absent cs = false -> Commit_VoteSignBytes (E:=verify_error) commit chainID i = Ok msg -> signs_ok i cs v ->
  exists a b, verifySignatureOrCollect i cs v msg ks ms =
    Ok (a, b, ks ++ (omitted_at i cs v).*1, ms ++ (omitted_at i cs v).*2) /\
    a + b = VotingWeight v /\ (a = 0 \/ b = 0).
Proof.
  intros Ha Hmsg (msg' & Hmsg' & Hs). rewrite Hmsg in Hmsg'. injection Hmsg' as <-.
  unfold verifySignatureOrCollect, omitted_at. rewrite Ha, Hmsg. destruct (cs_Signature cs) as [s|].
  - destruct Hs as (pk & -> & ->). exists (VotingWeight v), 0. cbn. rewrite !app_nil_r. split_and!; [done|lia|by right].
  - destruct Hs as [k ->]. exists 0, (VotingWeight v). cbn. split_and!; [done|lia|by left].
Qed.

Lemma collect_inv i j cs v msg ks ms r :
  Commit_VoteSignBytes (E:=verify_error) commit chainID i = Ok msg ->
  verifySignatureOrCollect j cs v msg ks ms = Ok r -> signs_ok i cs v.
Proof.
  intros Hmsg. unfold verifySignatureOrCollect, signs_ok. intros Hr. exists msg. split; [done|].
  destruct (cs_Signature cs) as [s|].
  - destruct (vPubKey v) as [pk|]; [|done]. exists pk. split; [done|]. by destruct (VerifySignature pk msg s).
  - destruct (vPubKey v ≫= GetSignatureKey) as [k|]; [by eexists|done].
Qed.

Lemma idx_middle {E A} (pre : list A) v vs : idx (E:=E) (pre ++ v :: vs) (lenZ pre) = Ok v.
Proof. unfold lenZ. by rewrite idx_nat, list_lookup_middle. Qed.

Lemma verify_loop_ok pre vs sigs t ks ms :
  Forall (fun v => 0 <= VotingWeight v) vs -> 0 <= t -> t + Zsum (weights vs) <= MaxTotalVotingWeight ->
  lenZ (pre ++ vs) < 2 ^ 31 -> length sigs = length vs -> all_sign (lenZ pre) sigs vs ->
  verify_loop (pre ++ vs) chainID commit sigs (lenZ pre) t ks ms =
  Ok (t + block_weight sigs vs, ks ++ (omitted (lenZ pre) sigs vs).*1, ms ++ (omitted (lenZ pre) sigs vs).*2).
Proof.
  revert pre vs t ks ms. induction sigs as [|cs sigs IH]; intros pre vs t ks ms Hp Ht Hmax Hsz Hlen Hall.
  { destruct vs; [|done]. cbn. by rewrite !app_nil_r, Z.add_0_r. }
  destruct vs as [|v vs]; [done|]. injection Hlen as Hlen. apply Forall_cons in Hp as [Hv Hp].
  apply all_sign_cons in Hall as [H1 Hall]. rewrite fmap_cons in Hmax. cbn [Zsum] in Hmax.
  assert (Hpos : 0 <= Zsum (weights vs)) by (by apply Zsum_nonneg, Forall_fmap).
  assert (Hpre : pre ++ v :: vs = (pre ++ [v]) ++ vs) by (by rewrite <- app_assoc).
  assert (Hl1 : lenZ (pre ++ [v]) = lenZ pre + 1) by (unfold lenZ; rewrite length_app; cbn; lia).
  cbn [verify_loop omitted]. rewrite !fmap_app.
  assert (Hbw : block_weight (cs :: sigs) (v :: vs) = (if ForBlock cs then VotingWeight v else 0) + block_weight sigs vs) by done.
  rewrite Hbw. destruct (Absent cs) eqn:Ha.
  - rewrite Hpre, <- Hl1, IH; [|done|done|lia|by rewrite <- Hpre|done|by rewrite Hl1].
    assert (ForBlock cs = false) as ->.
    { unfold Absent, ForBlock in *. apply Z.eqb_eq in Ha. rewrite Ha. done. }
    unfold omitted_at. rewrite Ha. cbn. done.
  - rewrite idx_middle. cbn [mbind outcome_bind].
    assert (0 <= lenZ pre < 2 ^ 31) by (unfold lenZ in *; rewrite length_app in Hsz; lia).
    rewrite wrap32_id by (unfold_ints; lia). destruct (H1 eq_refl) as (msg & Hmsg & Hs) eqn:Hso.
    rewrite Hmsg. cbn [mbind outcome_bind].
    destruct (collect_ok (lenZ pre) cs v msg ks ms Ha Hmsg (H1 eq_refl)) as (a & b & -> & Hab & Hor).
    cbn [mbind outcome_bind]. rewrite Hpre, <- Hl1.
    rewrite (wrap64_id (a + b)) by (rewrite MaxWeight_val in *; unfold_ints; lia). rewrite Hab.
    rewrite (wrap64_id (t + VotingWeight v)) by (rewrite MaxWeight_val in *; unfold_ints; lia).
    rewrite IH; [|done|destruct (ForBlock cs); lia|destruct (ForBlock cs); lia|by rewrite <- Hpre|done|by rewrite Hl1].
    rewrite <- !app_assoc. f_equal. f_equal. f_equal. destruct (ForBlock cs); lia.
Qed.

Lemma verify_loop_inv pre vs sigs t ks ms r :
  lenZ (pre ++ vs) < 2 ^ 31 -> length sigs = length vs ->
  verify_loop (pre ++ vs) chainID commit sigs (lenZ pre) t ks ms = Ok r -> all_sign (lenZ pre) sigs vs.
Proof.
  revert pre vs t ks ms. induction sigs as [|cs sigs IH]; intros pre vs t ks ms Hsz Hlen Hr.
  { intros k cs v Hk. done. }
  destruct vs as [|v vs]; [done|]. injection Hlen as Hlen. apply all_sign_cons.
  assert (Hpre : pre ++ v :: vs = (pre ++ [v]) ++ vs) by (by rewrite <- app_assoc).
  assert (Hl1 : lenZ (pre ++ [v]) = lenZ pre + 1) by (unfold lenZ; rewrite length_app; cbn; lia).
  assert (0 <= lenZ pre < 2 ^ 31) by (unfold lenZ in *; rewrite length_app in Hsz; lia).
  cbn [verify_loop] in Hr. destruct (Absent cs) eqn:Ha.
  - split; [done|]. rewrite <- Hl1. rewrite Hpre, <- Hl1 in Hr. eapply IH; [|done|exact Hr]. by rewrite <- Hpre.
  - rewrite idx_middle in Hr. cbn [mbind outcome_bind] in Hr.
    rewrite wrap32_id in Hr by (unfold_ints; lia).
    apply obind_Ok in Hr as (msg & Hmsg & Hr). apply obind_Ok in Hr as ([[[a b] ks'] ms'] & Hc & Hr).
    split; [intros _; by eapply collect_inv|]. rewrite <- Hl1. rewrite Hpre, <- Hl1 in Hr.
    eapply IH; [|done|exact Hr]. by rewrite <- Hpre.
Qed.

End verify_commit.

Lemma gbind_assoc_run {S E A B} (m : outcome E A) (f : A -> GoM S E B) s :
  (glift m ≫= f) s = match m with Ok a => f a s | Err e => (Err e, s) | Panic => (Panic, s) end.
Proof. unfold mbind, gom_bind, glift. by destruct m. Qed.

Lemma check_commit_Ok blockID height commit voters c :
  check_commit blockID height (Some commit) voters = Ok c <->
  c = commit /\ length (Voters voters) = length (c_Signatures commit) /\ height = c_Height commit /\
  blockID = c_BlockID commit.
Proof.
  unfold check_commit, Voters_Size, lenZ.
  destruct (Z.eqb_spec (Z.of_nat (length (Voters voters))) (Z.of_nat (length (c_Signatures commit)))); cbn [negb];
    [|split; [done|intros (_ & ? & _); lia]].
  destruct (Z.eqb_spec height (c_Height commit)); cbn [negb]; [|split; [done|tauto]].
  destruct (BlockID_Equals blockID (c_BlockID commit)) eqn:E; cbn [negb].
  - apply BlockID_Equals_true in E. split; [intros [= <-]; split_and!; try done; lia|by intros [-> _]].
  - split; [done|]. intros (_ & _ & _ & ->). by rewrite (proj2 (BlockID_Equals_true _ _) eq_refl) in E.
Qed.

Section properties.
  Context {crypto : CryptoLib} {codec : TimeCodec}.

Lemma verify_aggregate_Ok commit ks ms :
  verify_aggregate commit ks ms = Ok tt <-> VerifyAggregatedSignature (c_AggregatedSignature commit) ks ms = Ok tt.
Proof. unfold verify_aggregate. destruct (VerifyAggregatedSignature _ _ _) as [[]| |]; done. Qed.

Lemma VerifyCommit_unfold chainID blockID height commit voters :
  voters_wf voters ->
  fst (VerifyCommit chainID blockID height (Some commit) voters) = Ok tt <->
  length (Voters voters) = length (c_Signatures commit) /\ height = c_Height commit /\ blockID = c_BlockID commit /\
  exists w ks ms, verify_loop (Voters voters) chainID commit (c_Signatures commit) 0 0 [] [] = Ok (w, ks, ms) /\
    verify_aggregate commit ks ms = Ok tt /\ 2 * Zsum (weights (Voters voters)) < 3 * w.
Proof.
  intros Hwf. unfold VerifyCommit. unfold mbind at 1, gom_bind at 1, gget at 1. rewrite gbind_assoc_run.
  destruct (check_commit blockID height (Some commit) voters) as [c|e|] eqn:Ec.
  - apply check_commit_Ok in Ec as (-> & Hl & Hh & Hb). rewrite gbind_assoc_run, TotalVotingWeight_spec by done.
    unfold mbind at 1, gom_bind at 1, gput at 1. rewrite gbind_assoc_run. cbn [Voters vfilled].
    destruct (verify_loop _ _ _ _ _ _ _ _) as [[[w ks] ms]|e|] eqn:El.
    + rewrite gbind_assoc_run. destruct (verify_aggregate commit ks ms) as [[]|e|] eqn:Ea.
      * pose proof (weights_nonneg _ Hwf) as H. pose proof (vwf_sum _ Hwf) as H0.
        pose proof (two_thirds (Zsum (weights (Voters voters))) w (conj H H0)) as Htt.
        destruct (Z.leb_spec w (wrap64 (wrap64 (Zsum (weights (Voters voters)) * 2) ÷ 3))); cbn; split; try done.
        -- intros (_ & _ & _ & w' & ks' & ms' & [= <- <- <-] & _ & Hw). apply Htt in Hw. lia.
        -- intros _. do 3 (split; [done|]). exists w, ks, ms. split_and!; [done|done|]. apply Htt. lia.
      * cbn. split; [done|]. intros (_ & _ & _ & w' & ks' & ms' & [= <- <- <-] & Ha & _). congruence.
      * cbn. split; [done|]. intros (_ & _ & _ & w' & ks' & ms' & [= <- <- <-] & Ha & _). congruence.
    + cbn. split; [done|]. intros (_ & _ & _ & w' & ks' & ms' & [=] & _).
    + cbn. split; [done|]. intros (_ & _ & _ & w' & ks' & ms' & [=] & _).
  - cbn. split; [done|]. intros (Hl & Hh & Hb & _).
    rewrite (proj2 (check_commit_Ok _ _ _ _ commit)) in Ec by done. done.
  - cbn. split; [done|]. intros (Hl & Hh & Hb & _).
    rewrite (proj2 (check_commit_Ok _ _ _ _ commit)) in Ec by done. done.
Qed.

End properties.

Lemma VerifyCommit_iff {crypto : CryptoLib} {codec : TimeCodec} chainID blockID height commit voters :
  voters_wf voters ->
  let vs := Voters voters in
  let sigs := c_Signatures commit in
  let left_out := omitted chainID commit 0 sigs vs in
  fst (VerifyCommit chainID blockID height (Some commit) voters) = Ok tt <->
  length vs = length sigs /\ height = c_Height commit /\ blockID = c_BlockID commit /\
  all_sign chainID commit 0 sigs vs /\
  VerifyAggregatedSignature (c_AggregatedSignature commit) left_out.*1 left_out.*2 = Ok tt /\
  2 * Zsum (weights vs) < 3 * block_weight sigs vs.
Proof.
  intros Hwf vs sigs left_out. rewrite VerifyCommit_unfold by done.
  assert (Hok : length vs = length sigs -> all_sign chainID commit 0 sigs vs ->
    verify_loop vs chainID commit sigs 0 0 [] [] = Ok (block_weight sigs vs, left_out.*1, left_out.*2)).
  { intros Hl Hall. apply (verify_loop_ok chainID commit [] vs sigs 0 [] []); try done; try apply Hwf; lia. }
  split.
  - intros (Hl & Hh & Hb & w & ks & ms & Hloop & Ha & Hw).
    assert (Hall : all_sign chainID commit 0 sigs vs).
    { eapply (verify_loop_inv chainID commit [] vs sigs); [apply Hwf|done|exact Hloop]. }
    unfold vs, sigs in Hok. rewrite (Hok Hl Hall) in Hloop. injection Hloop as <- <- <-.
    apply verify_aggregate_Ok in Ha. split_and!; done.
  - intros (Hl & Hh & Hb & Hall & Ha & Hw). do 3 (split; [done|]). eexists _, _, _. split; [by apply Hok|].
    split; [by apply verify_aggregate_Ok|done].
Qed.

(** C34: [VerifyCommit] accepts exactly the commits it should.  For a
    well-formed voter set it returns no error exactly when the commit has one
    entry per voter, is of the height and block asked for, every entry that is
    not absent has a valid signature of its voter or leaves it to the aggregate
    (which only a BLS key may), the aggregate verifies over all those left to
    it, and the voters that signed for the block hold strictly more than two
    thirds of the total weight.  The product that the source marks as a
    possible overflow never overflows. *)
Theorem verify_commit_exact {crypto : CryptoLib} {codec : TimeCodec} chainID blockID height commit voters :
  voters_wf voters ->
  let vs := Voters voters in
  let sigs := c_Signatures commit in
  let left_out := omitted chainID commit 0 sigs vs in
  fst (VerifyCommit chainID blockID height (Some commit) voters) = Ok tt <->
  length vs = length sigs /\ height = c_Height commit /\ blockID = c_BlockID commit /\
  all_sign chainID commit 0 sigs vs /\
  VerifyAggregatedSignature (c_AggregatedSignature commit) left_out.*1 left_out.*2 = Ok tt /\
  2 * Zsum (weights vs) < 3 * block_weight sigs vs.
Proof. apply VerifyCommit_iff. Qed.

(** ** The light verifications *)

Section light.
  Context {crypto : CryptoLib} {codec : TimeCodec}.
  Context (chainID : bytes) (commit : Commit) (voters : VoterSet).
  Hypothesis Hwf : voters_wf voters.
  Hypothesis Hsize : lenZ (c_Signatures commit) < 2 ^ 31.
  #[local] Abbreviation sigs := (c_Signatures commit).
  #[local] Abbreviation vs := (Voters voters).

(** The entry of [v] in the commit, for the block, and its message. *)
Definition entry_of (v : Validator) (cs : CommitSig) (msg : bytes) : Prop :=
  exists i : nat, sigs !! i = Some cs /\ ForBlock cs = true /\ cs_ValidatorAddress cs = Address v /\
    Commit_VoteSignBytes (E:=verify_error) commit chainID (Z.of_nat i) = Ok msg.

(** [v] signed the commit's block with a signature of its own. *)
Definition signed_alone (v : Validator) : Prop :=
  exists cs msg s pk, entry_of v cs msg /\ cs_Signature cs = Some s /\ vPubKey v = Some pk /\
    VerifySignature pk msg s = true.

(** [v]'s BLS key and message are among those the aggregate is for. *)
Definition signed_in (ks ms : list bytes) (v : Validator) : Prop :=
  exists cs msg k, entry_of v cs msg /\ cs_Signature cs = None /\ vPubKey v ≫= GetSignatureKey = Some k /\
    (k, msg) ∈ zip ks ms.

(** The loop variables account for two groups of distinct voters. *)
Record tally (Sv Su : list Validator) (t u : Z) (ks ms : list bytes) : Prop := {
  ta_nodup : NoDup (addrs (Sv ++ Su));
  ta_in : forall v, v ∈ Sv ++ Su -> v ∈ vs;
  ta_t : t = Zsum (weights Sv);
  ta_u : u = Zsum (weights Su);
  ta_alone : Forall signed_alone Sv;
  ta_agg : Forall (signed_in ks ms) Su;
  ta_len : length ks = length ms
}.

Lemma group_weight_le S :
  NoDup (addrs S) -> (forall v, v ∈ S -> v ∈ vs) -> 0 <= Zsum (weights S) <= Zsum (weights vs).
Proof.
  intros Hnd Hin. assert (HS : NoDup S) by (by eapply NoDup_fmap_1).
  assert (S ⊆+ vs) as [S' HS']%submseteq_Permutation by (by apply NoDup_submseteq).
  assert (Hp : Forall (fun v => 0 <= VotingWeight v) vs) by apply Hwf.
  rewrite HS' in *. apply Forall_app in Hp as [H1 H2]. rewrite fmap_app, Zsum_app.
  split; [by apply Zsum_nonneg, Forall_fmap|]. assert (0 <= Zsum (weights S')) by (by apply Zsum_nonneg, Forall_fmap). lia.
Qed.

Lemma tally_bounds Sv Su t u ks ms :
  tally Sv Su t u ks ms -> 0 <= t /\ 0 <= u /\ t + u <= MaxTotalVotingWeight.
Proof.
  intros [Hnd Hin -> -> _ _ _]. pose proof (group_weight_le _ Hnd Hin) as Hle.
  rewrite fmap_app, Zsum_app in Hle. pose proof (vwf_sum _ Hwf).
  rewrite fmap_app in Hnd. apply NoDup_app in Hnd as (H1 & _ & H2).
  pose proof (group_weight_le Sv H1 ltac:(intros; apply Hin, elem_of_app; by left)).
  pose proof (group_weight_le Su H2 ltac:(intros; apply Hin, elem_of_app; by right)). lia.
Qed.

Lemma signed_in_mono ks ms k m v :
  length ks = length ms -> signed_in ks ms v -> signed_in (ks ++ [k]) (ms ++ [m]) v.
Proof.
  intros Hl (cs & msg & k' & He & Hs & Hk & Hz). exists cs, msg, k'. split_and!; try done.
  rewrite zip_with_app by done. apply elem_of_app. by left.
Qed.

(** One entry of a voter not counted yet. *)
Lemma tally_step Sv Su t u ks ms (i : nat) cs v msg a b ks' ms' :
  tally Sv Su t u ks ms -> v ∈ vs -> (Address v ∉ addrs (Sv ++ Su)) ->
  sigs !! i = Some cs -> ForBlock cs = true -> cs_ValidatorAddress cs = Address v ->
  Commit_VoteSignBytes (E:=verify_error) commit chainID (Z.of_nat i) = Ok msg ->
  verifySignatureOrCollect (Z.of_nat i) cs v msg ks ms = Ok (a, b, ks', ms') ->
  exists Sv' Su', tally Sv' Su' (wrap64 (t + a)) (wrap64 (u + b)) ks' ms' /\ Sv' ++ Su' ≡ₚ v :: Sv ++ Su.
Proof.
  intros Ht Hv Hfresh Hi Hf Ha Hmsg Hc.
  assert (He : entry_of v cs msg) by (by exists i).
  assert (Hnew : exists Sv' Su', tally Sv' Su' (t + a) (u + b) ks' ms' /\ Sv' ++ Su' ≡ₚ v :: Sv ++ Su).
  { destruct Ht as [Hnd Hin -> -> Hal Hag Hlen]. unfold verifySignatureOrCollect in Hc.
    assert (Hin' : forall w, w ∈ v :: Sv ++ Su -> w ∈ vs) by (intros w [->|]%elem_of_cons; auto).
    assert (Hnd' : NoDup (addrs (v :: Sv ++ Su))) by (rewrite fmap_cons; by constructor).
    destruct (cs_Signature cs) as [s|] eqn:Es.
    - destruct (vPubKey v) as [pk|] eqn:Epk; [|done]. destruct (VerifySignature pk msg s) eqn:Evs; [|done].
      injection Hc as <- <- <- <-. exists (v :: Sv), Su. split; [|done].
      constructor; try done; [rewrite fmap_cons; cbn; lia|lia|].
      constructor; [|done]. by exists cs, msg, s, pk.
    - destruct (vPubKey v ≫= GetSignatureKey) as [k|] eqn:Ek; [|done]. injection Hc as <- <- <- <-.
      exists Sv, (v :: Su). assert (Hp : Sv ++ v :: Su ≡ₚ v :: Sv ++ Su) by (by rewrite Permutation_middle).
      split; [|done]. constructor.
      + by rewrite Hp.
      + intros w Hw. rewrite Hp in Hw. auto.
      + lia.
      + rewrite fmap_cons. cbn. lia.
      + done.
      + constructor.
        * exists cs, msg, k. split_and!; try done. rewrite zip_with_app by done. apply elem_of_app. right. left.
        * eapply Forall_impl; [exact Hag|]. intros w. by apply signed_in_mono.
      + rewrite !length_app. cbn. lia. }
  destruct Hnew as (Sv' & Su' & Ht' & Hp). exists Sv', Su'. split; [|done].
  destruct (tally_bounds _ _ _ _ _ _ Ht') as (H1 & H2 & H3). rewrite MaxWeight_val in H3.
  by rewrite !wrap64_id by (unfold_ints; lia).
Qed.

(** What either light method proves of a group: its members are distinct
    voters, each of which signed alone or is covered by an aggregate that
    verifies. *)
Definition backing (S : list Validator) : Prop :=
  NoDup (addrs S) /\ (forall v, v ∈ S -> v ∈ vs) /\
  (Forall signed_alone S \/
   exists ks ms, VerifyAggregatedSignature (c_AggregatedSignature commit) ks ms = Ok tt /\
     Forall (fun v => signed_alone v \/ signed_in ks ms v) S).

Definition backed (required : Z) : Prop := exists S, backing S /\ required < Zsum (weights S).

(** The outcome of a loop that started from nothing. *)
Definition loop_result (required : Z) (r : option (Z * Z * list bytes * list bytes)) : Prop :=
  match r with
  | None => exists Sv Su t u ks ms, tally Sv Su t u ks ms /\ required < t
  | Some (t, u, ks, ms) => exists Sv Su, tally Sv Su t u ks ms
  end.

Lemma light_finish_backed required r :
  loop_result required r -> light_finish commit required r = Ok tt -> backed required.
Proof.
  destruct r as [[[[t u] ks] ms]|]; cbn [loop_result light_finish].
  - intros (Sv & Su & Ht) Hf. destruct (tally_bounds _ _ _ _ _ _ Ht) as (H1 & H2 & H3). rewrite MaxWeight_val in H3.
    destruct (verify_aggregate commit ks ms) as [[]| |] eqn:Ea; [|done|done]. cbn [mbind outcome_bind] in Hf.
    rewrite wrap64_id in Hf by (unfold_ints; lia). destruct (Z.ltb_spec required (t + u)) as [Hr|]; [|done].
    destruct Ht as [Hnd Hin -> -> Hal Hag Hlen]. exists (Sv ++ Su). rewrite fmap_app, Zsum_app. split; [|lia].
    split_and!; try done. right. exists ks, ms. split; [by apply verify_aggregate_Ok|]. apply Forall_app. split.
    + eapply Forall_impl; [exact Hal|]. by left.
    + eapply Forall_impl; [exact Hag|]. by right.
  - intros (Sv & Su & t & u & ks & ms & [Hnd Hin -> -> Hal Hag Hlen] & Hr) _. exists Sv.
    rewrite fmap_app in Hnd. apply NoDup_app in Hnd as (H1 & _). split; [|done]. split_and!; try done; [|by left].
    intros v Hv. apply Hin, elem_of_app. by left.
Qed.

Lemma GetByAddress_Some a j v :
  Voters_GetByAddress voters a = (j, Some v) -> v ∈ vs /\ Address v = a /\ 0 <= j /\ vs !! Z.to_nat j = Some v.
Proof.
  intros Hf. assert (Hl : lookup_addr vs a = Some v) by (unfold lookup_addr, Voters_GetByAddress in *; by rewrite Hf).
  apply lookup_addr_Some in Hl as [Hin Ha]. do 2 (split; [done|]). unfold Voters_GetByAddress in Hf.
  assert (Hgen : forall l i, 0 <= i -> i + lenZ l <= 2 ^ 31 -> find_address l a i = (j, Some v) ->
    i <= j /\ l !! Z.to_nat (j - i) = Some v).
  { clear. induction l as [|w l IH]; intros i Hi Hm; cbn [find_address]; [done|].
    unfold lenZ in *. cbn [length] in Hm. destruct (bytes_eqb _ _).
    - rewrite wrap32_id by (unfold_ints; lia). intros [= <- <-]. split; [lia|]. by rewrite Z.sub_diag.
    - intros [Hle Hl]%IH; [|lia..]. split; [lia|].
      replace (Z.to_nat (j - i)) with (S (Z.to_nat (j - (i + 1)))) by lia. done. }
  pose proof (vwf_size _ Hwf). apply Hgen in Hf; [|lia..]. by rewrite Z.sub_0_r in Hf.
Qed.

(** The position of the entry at hand. *)
Lemma sigs_at pre cs rest :
  sigs = pre ++ cs :: rest ->
  sigs !! length pre = Some cs /\ wrap32 (lenZ pre) = Z.of_nat (length pre) /\
  sigs = (pre ++ [cs]) ++ rest /\ lenZ (pre ++ [cs]) = lenZ pre + 1.
Proof.
  intros Hs. assert (Hl : lenZ sigs = lenZ pre + 1 + lenZ rest) by (rewrite Hs; unfold lenZ; rewrite length_app; cbn [length]; lia).
  split_and!.
  - rewrite Hs. by apply list_lookup_middle.
  - apply wrap32_id. unfold_ints. unfold lenZ in *. lia.
  - by rewrite <- app_assoc.
  - unfold lenZ. rewrite length_app. cbn. lia.
Qed.

Definition block_addresses (l : list CommitSig) : list bytes :=
  cs_ValidatorAddress <$> filter (fun cs => ForBlock cs = true) l.

Lemma block_addresses_app l1 l2 : block_addresses (l1 ++ l2) = block_addresses l1 ++ block_addresses l2.
Proof. unfold block_addresses. by rewrite filter_app, fmap_app. Qed.

Lemma light_loop_result required rest pre Sv Su t u ks ms r :
  sigs = pre ++ rest -> NoDup (block_addresses sigs) ->
  tally Sv Su t u ks ms -> (forall v, v ∈ Sv ++ Su -> Address v ∈ block_addresses pre) ->
  light_loop voters chainID commit required rest (lenZ pre) t u ks ms = Ok r -> loop_result required r.
Proof.
  intros Hs Hnd. revert pre Sv Su t u ks ms Hs. induction rest as [|cs rest IH]; intros pre Sv Su t u ks ms Hs Ht Hin Hr.
  { injection Hr as <-. by exists Sv, Su. }
  destruct (sigs_at _ _ _ Hs) as (Hi & Hw & Hs' & Hl). cbn [light_loop] in Hr. rewrite <- Hl in Hr.
  assert (Hin' : forall v, v ∈ Sv ++ Su -> Address v ∈ block_addresses (pre ++ [cs])).
  { intros v Hv. rewrite block_addresses_app. apply elem_of_app. left. auto. }
  destruct (ForBlock cs) eqn:Ef; cbn [negb] in Hr; [|by eapply IH].
  destruct (Voters_GetByAddress voters (cs_ValidatorAddress cs)) as [j [v|]] eqn:Eg; [|by eapply IH].
  apply GetByAddress_Some in Eg as (Hv & Ha & _ & _). rewrite Hw in Hr.
  apply obind_Ok in Hr as (msg & Hmsg & Hr). apply obind_Ok in Hr as ([[[a b] ks'] ms'] & Hc & Hr).
  assert (Hba : block_addresses (pre ++ [cs]) = block_addresses pre ++ [cs_ValidatorAddress cs]).
  { rewrite block_addresses_app. unfold block_addresses at 2. by rewrite filter_cons, decide_True. }
  destruct (tally_step Sv Su t u ks ms (length pre) cs v msg a b ks' ms') as (Sv' & Su' & Ht' & Hp); try done.
  { intros (w & Hw' & Hin2)%list_elem_of_fmap. rewrite Hs', block_addresses_app, Hba in Hnd.
    apply NoDup_app in Hnd as (Hnd & _). apply NoDup_app in Hnd as (_ & Hdis & _).
    apply (Hdis (Address w)); [auto|]. rewrite <- Ha, Hw'. left. }
  destruct (Z.ltb_spec required (wrap64 (t + a))); [injection Hr as <-; by exists Sv', Su', (wrap64 (t + a)), (wrap64 (u + b)), ks', ms'|].
  eapply (IH (pre ++ [cs])); [done|exact Ht'| |exact Hr]. intros w Hw'. rewrite Hp in Hw'.
  apply elem_of_cons in Hw' as [->|]; [|auto]. rewrite Hba. apply elem_of_app. right. rewrite Ha. left.
Qed.

Lemma trusting_loop_result required rest pre seen Sv Su t u ks ms r :
  sigs = pre ++ rest -> tally Sv Su t u ks ms ->
  (forall v, v ∈ Sv ++ Su -> exists j : nat, vs !! j = Some v /\ is_Some (seen !! Z.of_nat j)) ->
  trusting_loop voters chainID commit required rest (lenZ pre) seen t u ks ms = Ok r -> loop_result required r.
Proof.
  intros Hs. revert pre seen Sv Su t u ks ms Hs. induction rest as [|cs rest IH]; intros pre seen Sv Su t u ks ms Hs Ht Hin Hr.
  { injection Hr as <-. by exists Sv, Su. }
  destruct (sigs_at _ _ _ Hs) as (Hi & Hw & Hs' & Hl). cbn [trusting_loop] in Hr. rewrite <- Hl in Hr.
  destruct (ForBlock cs) eqn:Ef; cbn [negb] in Hr; [|by eapply IH].
  destruct (Voters_GetByAddress voters (cs_ValidatorAddress cs)) as [j [v|]] eqn:Eg; [|by eapply IH].
  apply GetByAddress_Some in Eg as (Hv & Ha & Hj0 & Hj). rewrite Hw in Hr.
  destruct (seen !! j) as [first|] eqn:Es; [done|].
  apply obind_Ok in Hr as (msg & Hmsg & Hr). apply obind_Ok in Hr as ([[[a b] ks'] ms'] & Hc & Hr).
  destruct (tally_step Sv Su t u ks ms (length pre) cs v msg a b ks' ms') as (Sv' & Su' & Ht' & Hp); try done.
  { intros (w & Hw' & Hin2)%list_elem_of_fmap. destruct (Hin w Hin2) as (k & Hk & Hsk).
    assert (Z.of_nat k = j) as <-; [|rewrite Es in Hsk; by destruct Hsk].
    assert (k = Z.to_nat j) as ->; [|lia].
    eapply (NoDup_lookup (addrs vs)); [apply Hwf|by rewrite list_lookup_fmap, Hk|by rewrite list_lookup_fmap, Hj, <- Hw']. }
  destruct (Z.ltb_spec required (wrap64 (t + a))); [injection Hr as <-; by exists Sv', Su', (wrap64 (t + a)), (wrap64 (u + b)), ks', ms'|].
  eapply (IH (pre ++ [cs])); [done|exact Ht'| |exact Hr]. intros w Hw'. rewrite Hp in Hw'.
  apply elem_of_cons in Hw' as [->|Hin2].
  - exists (Z.to_nat j). split; [done|]. rewrite Z2Nat.id by done. by rewrite lookup_insert_eq.
  - destruct (Hin w Hin2) as (k & Hk & Hsk). exists k. split; [done|]. rewrite lookup_insert_is_Some'. by right.
Qed.

Lemma tally_nil : tally [] [] 0 0 [] [].
Proof. constructor; try done. - constructor. - intros v Hv. by apply elem_of_nil in Hv. Qed.

End light.

Lemma VerifyCommitLight_Ok {crypto : CryptoLib} {codec : TimeCodec} chainID blockID height commit voters :
  voters_wf voters -> fst (VerifyCommitLight chainID blockID height (Some commit) voters) = Ok tt ->
  let required := wrap64 (Z.quot (wrap64 (Zsum (weights (Voters voters)) * 2)) 3) in
  length (Voters voters) = length (c_Signatures commit) /\ height = c_Height commit /\ blockID = c_BlockID commit /\
  exists r, light_loop (vfilled voters) chainID commit required (c_Signatures commit) 0 0 0 [] [] = Ok r /\
    light_finish commit required r = Ok tt.
Proof.
  intros Hwf Hv required. unfold VerifyCommitLight in Hv. unfold mbind at 1, gom_bind at 1, gget at 1 in Hv.
  rewrite gbind_assoc_run in Hv. destruct (check_commit blockID height (Some commit) voters) as [c|e|] eqn:Ec; [|done|done].
  apply check_commit_Ok in Ec as (-> & Hl & Hh & Hb). rewrite gbind_assoc_run, TotalVotingWeight_spec in Hv by done.
  unfold mbind at 1, gom_bind at 1, gput at 1 in Hv. rewrite gbind_assoc_run in Hv. fold required in Hv.
  do 3 (split; [done|]). destruct (light_loop _ _ _ _ _ _ _ _ _ _) as [r| |]; [|done|done]. by exists r.
Qed.

Lemma vfilled_wf voters : voters_wf voters -> voters_wf (vfilled voters).
Proof. intros [? ? ? ? ?]. constructor; cbn; auto. Qed.

(** [VerifyCommitLight] is sound for commits whose entries for the block
    name distinct validators: when it returns no error, the commit is of the
    height and block asked for, and distinct voters with strictly more than two
    thirds of the weight signed its block, alone or through an aggregate that
    verifies.  Voters left unverified by its early return are not counted. *)
Theorem verify_light_sound {crypto : CryptoLib} {codec : TimeCodec} chainID blockID height commit voters :
  voters_wf voters -> NoDup (block_addresses (c_Signatures commit)) ->
  fst (VerifyCommitLight chainID blockID height (Some commit) voters) = Ok tt ->
  height = c_Height commit /\ blockID = c_BlockID commit /\
  exists S, backing chainID commit voters S /\ 2 * Zsum (weights (Voters voters)) < 3 * Zsum (weights S).
Proof.
  intros Hwf Hnd Hv. destruct (VerifyCommitLight_Ok _ _ _ _ _ Hwf Hv) as (Hl & Hh & Hb & r & Hr & Hf).
  do 2 (split; [done|]). pose proof (vwf_size _ Hwf) as Hsz. unfold lenZ in Hsz. rewrite Hl in Hsz.
  apply vfilled_wf in Hwf as Hwf'.
  pose proof (light_loop_result chainID commit (vfilled voters) Hwf' Hsz _ _ [] [] [] 0 0 [] [] r eq_refl Hnd
    (tally_nil _ _ _) ltac:(intros v Hv'; by apply elem_of_nil in Hv') Hr) as Hres.
  destruct (light_finish_backed chainID commit (vfilled voters) Hwf' _ _ Hres Hf) as (S & HS & Hw).
  exists S. split; [exact HS|].
  apply (two_thirds _ _ (conj (weights_nonneg _ Hwf) (vwf_sum _ Hwf))). exact Hw.
Qed.

(** [VerifyCommitLightTrusting] is sound for every commit: when it returns
    no error, distinct voters of the trusted set with strictly more than the
    trust level of its weight signed the commit's block, alone or through an
    aggregate that verifies.  A voter that appears twice is an error, so none is
    counted twice. *)
Theorem verify_trusting_sound {crypto : CryptoLib} {codec : TimeCodec} chainID commit trustLevel voters :
  voters_wf voters -> lenZ (c_Signatures commit) < 2 ^ 31 ->
  0 <= Numerator trustLevel <= int64_max -> 0 < Denominator trustLevel <= int64_max ->
  fst (VerifyCommitLightTrusting chainID commit trustLevel voters) = Ok tt ->
  exists S, backing chainID commit voters S /\
    Numerator trustLevel * Zsum (weights (Voters voters)) < Denominator trustLevel * Zsum (weights S).
Proof.
  intros Hwf Hsz Hn Hd Hv. unfold VerifyCommitLightTrusting in Hv.
  rewrite (proj2 (Z.eqb_neq _ _)) in Hv by lia. unfold mbind at 1, gom_bind at 1, gget at 1 in Hv.
  rewrite gbind_assoc_run, TotalVotingWeight_spec in Hv by done. unfold mbind at 1, gom_bind at 1, gput at 1 in Hv.
  rewrite (wrap64_id (Numerator trustLevel)), (wrap64_id (Denominator trustLevel)) in Hv by (unfold_ints; lia).
  set (T := Zsum (weights (Voters voters))) in *.
  assert (HT : 0 <= T <= MaxTotalVotingWeight) by (split; [by apply weights_nonneg|apply Hwf]).
  destruct (safeMul T (Numerator trustLevel)) as [p ov] eqn:Em. destruct ov; [done|].
  rewrite safeMul_exact in Em by (rewrite MaxWeight_val in HT; unfold_ints; lia).
  destruct (Z.leb_spec (Z.abs (T * Numerator trustLevel)) int64_max) as [Hp|]; [|done]. injection Em as <-.
  rewrite gbind_assoc_run in Hv. set (required := wrap64 (T * Numerator trustLevel ÷ Denominator trustLevel)) in *.
  destruct (trusting_loop _ _ _ _ _ _ _ _ _ _ _) as [r| |] eqn:Hr; [|done|done].
  apply vfilled_wf in Hwf as Hwf'.
  pose proof (trusting_loop_result chainID commit (vfilled voters) Hwf' Hsz _ _ [] _ [] [] 0 0 [] [] r eq_refl
    (tally_nil _ _ _) ltac:(intros v Hv'; by apply elem_of_nil in Hv') Hr) as Hres.
  destruct (light_finish_backed chainID commit (vfilled voters) Hwf' _ _ Hres Hv) as (S & HS & Hw).
  exists S. split; [exact HS|]. unfold required in Hw.
  rewrite Z.quot_div_nonneg in Hw by nia. pose proof (Z.div_mod (T * Numerator trustLevel) (Denominator trustLevel) ltac:(lia)).
  pose proof (Z.mod_pos_bound (T * Numerator trustLevel) (Denominator trustLevel) ltac:(lia)).
  assert (0 <= T * Numerator trustLevel / Denominator trustLevel <= T * Numerator trustLevel)
    by (split; [apply Z.div_pos; nia|apply Z.div_le_upper_bound; nia]).
  rewrite wrap64_id in Hw by (unfold_ints; lia). nia.
Qed.

(** *** The repeated signature

    Three voters of equal weight; every entry of the commit is the first one's
    signature. *)

Definition key_of (n : Z) : bytes := replicate 32 n.

Definition repeat_voters : VoterSet := mkVoterSet
  ((fun n => mkValidator (replicate 20 n) (Some (PubKeyEd25519 (key_of n))) 1 1 0) <$> [1; 2; 3]) 0.

Definition repeat_message : bytes :=
  match @VoteSignBytes toy_time unit [7] (mkVote PrecommitType 5 0 sample_block_id 9 [] 0 None) with
  | Ok b => b | _ => [] end.

Definition repeat_sig : CommitSig :=
  mkCommitSig BlockIDFlagCommit (replicate 20 1) 9 (Some (toy_sign (key_of 1) repeat_message)).

Definition repeat_commit : Commit := NewCommit 5 0 sample_block_id [repeat_sig; repeat_sig; repeat_sig].

Lemma repeat_voters_wf : voters_wf repeat_voters.
Proof.
  constructor.
  - by apply (bool_decide_unpack _); vm_compute.
  - repeat constructor; vm_compute; discriminate.
  - vm_compute. discriminate.
  - by left.
  - vm_compute. reflexivity.
Qed.

(** [VerifyCommitLight] counts a voter as often as its signature is
    repeated.  Its comment says voters and commit correspond one to one, but it
    looks each entry's voter up by the address the entry names and keeps no
    record of the voters seen.  A commit that passes [ValidateBasic] and in
    which all three entries are the signature of one voter of three, a third of
    the weight, is accepted as having more than two thirds; [VerifyCommit] and
    [VerifyCommitLightTrusting] both reject it. *)
Theorem light_counts_repeats :
  voters_wf repeat_voters /\ Commit_ValidateBasic repeat_commit = Ok tt /\
  Forall (fun cs => cs_ValidatorAddress cs = replicate 20 1) (c_Signatures repeat_commit) /\
  3 * from_option VotingWeight 0 (head (Voters repeat_voters)) = Zsum (weights (Voters repeat_voters)) /\
  fst (@VerifyCommitLight toy_crypto toy_time [7] sample_block_id 5 (Some repeat_commit) repeat_voters) = Ok tt /\
  fst (@VerifyCommit toy_crypto toy_time [7] sample_block_id 5 (Some repeat_commit) repeat_voters) =
    Err (ErrWrongSignature 1) /\
  fst (@VerifyCommitLightTrusting toy_crypto toy_time [7] repeat_commit (mkFraction 1 3) repeat_voters) =
    Err (ErrDoubleVote 0 0 1).
Proof.
  split; [apply repeat_voters_wf|]. split; [vm_compute; reflexivity|].
  split; [repeat constructor|]. repeat split; vm_compute; reflexivity.
Qed.

(** *** An accepted commit, for the examples *)

Definition good_sig (n : Z) : CommitSig :=
  mkCommitSig BlockIDFlagCommit (replicate 20 n) 9 (Some (toy_sign (key_of n) repeat_message)).

Definition good_commit : Commit := NewCommit 5 0 sample_block_id [good_sig 1; good_sig 2; good_sig 3].

Lemma verify_commit_exact_witness :
  fst (@VerifyCommit toy_crypto toy_time [7] sample_block_id 5 (Some good_commit) repeat_voters) = Ok tt /\
  @all_sign toy_crypto toy_time [7] good_commit 0 (c_Signatures good_commit) (Voters repeat_voters).
Proof.
  assert (Hv : fst (@VerifyCommit toy_crypto toy_time [7] sample_block_id 5 (Some good_commit) repeat_voters) = Ok tt)
    by (vm_compute; reflexivity).
  split; [exact Hv|].
  apply (@verify_commit_exact toy_crypto toy_time [7] sample_block_id 5 good_commit repeat_voters repeat_voters_wf).
  exact Hv.
Defined.

Lemma verify_light_sound_witness :
  exists S, @backing toy_crypto toy_time [7] good_commit repeat_voters S /\ 6 < 3 * Zsum (weights S).
Proof.
  destruct (@verify_light_sound toy_crypto toy_time [7] sample_block_id 5 good_commit repeat_voters repeat_voters_wf)
    as (_ & _ & S & H1 & H2).
  - by apply (bool_decide_unpack _); vm_compute.
  - vm_compute. reflexivity.
  - exists S. split; [exact H1|exact H2].
Defined.

Lemma verify_trusting_sound_witness :
  exists S, @backing toy_crypto toy_time [7] good_commit repeat_voters S /\ 1 * 3 < 3 * Zsum (weights S).
Proof.
  refine (@verify_trusting_sound toy_crypto toy_time [7] good_commit (mkFraction 1 3) repeat_voters
    repeat_voters_wf _ _ _ _); [reflexivity|split; discriminate|split; [reflexivity|discriminate]|vm_compute; reflexivity].
Defined.
