(* ===== verification/Election.v ===== *)
(** * The election of voters: src/types/voter_set.go

    [SelectVoter] and the sampling without duplicates behind it.  The elected
    voters share the candidates' memory in the code; a candidate's weight is
    read only through the elected voter, and the fallback overwrites every
    weight, so the model keeps the weight in the elected voter. *)

From Stdlib Require Import ZArith Lia.
From stdpp Require Import prelude list sorting.
From S2P Require Import Prelude Proto Crypto SafeMath Rand Validator ValidatorSet ValidatorLists ValidatorSetPriority ValidatorSetUpdate Block VoterSet VerifyCommit.

Local Open Scope Z_scope.
Local Open Scope go_scope.

Definition precisionForSelection : Z := 1000.
Definition precisionCorrectionForSelection : Z := 1000.
Definition BftMaxTolerableByzantinePercentage : Z := 33.

Record VoterParams := mkVoterParams {
  VoterElectionThreshold : Z; MaxTolerableByzantinePercentage : Z
}.

Record voter := mkvoter { val : Validator; winPoint : Z }.

(** [big.Int.Div]: Euclidean division, a panic on zero. *)
Definition big_div {E} (a b : Z) : outcome E Z :=
  if b =? 0 then Panic else Ok (if b <? 0 then - (a / - b) else a / b).

(** The loop over [candidates[:len(candidates)-voterNum]]. *)
Fixpoint elect_scan {E} (candidates : list Validator) (threshold cumulativePriority : Z) (i : nat)
  : outcome E (nat * Validator) :=
  match candidates with
  | [] => Panic
  | candidate :: rest =>
      if threshold <? wrapu64 (cumulativePriority +i64 VotingPower candidate) then Ok (i, candidate)
      else elect_scan rest threshold (cumulativePriority +i64 VotingPower candidate) (S i)
  end.

(** The winner's position, the winner and the advanced seed. *)
Definition electVoter {E} (seed : Z) (candidates : list Validator) (voterNum totalPriority : Z)
  : outcome E (nat * Validator * Z) :=
  let '(threshold, seed) := RandomThreshold seed (wrapu64 totalPriority) in
  if (lenZ candidates - voterNum <? 0) || (lenZ candidates <? lenZ candidates - voterNum) then Panic
  else
    '(winnerIdx, winner) ← elect_scan (take (Z.to_nat (lenZ candidates - voterNum)) candidates) threshold 0 0;
    Ok (winnerIdx, winner, seed).

Definition getTotalVotingPower (validators : list Validator) : Z :=
  foldl (fun totalVoting v => totalVoting +i64 VotingPower v) 0 validators.

Definition getTolerableByzantinePower (totalVotingPower tolerableByzantinePercent : Z) : Z :=
  let bigMultiplied := totalVotingPower * tolerableByzantinePercent in
  let tolerableByzantinePower := bigMultiplied / 100 in
  wrap64 (if tolerableByzantinePower * 100 <? bigMultiplied
          then tolerableByzantinePower + 1 else tolerableByzantinePower).

(** [sortValidators] has the order of [ValidatorsByVotingPower]. *)
Definition sortValidators (validators : list Validator) : list Validator := sort_by less_by_power validators.

(** Descending weight over power, by cross-multiplication. *)
Definition less_voter (a b : voter) : bool :=
  let bigA := VotingWeight (val a) * VotingPower (val b) in
  let bigB := VotingWeight (val b) * VotingPower (val a) in
  if bigA =? bigB then bytes_ltb (Address (val a)) (Address (val b)) else bigB <? bigA.

Definition sortVoters (candidates : list voter) : list voter := sort_by less_voter candidates.

(** [copy(candidates[winner:], candidates[winner+1:])] and the last slot. *)
Definition moveWinnerToLast {E} (candidates : list Validator) (winner : nat) : outcome E (list Validator) :=
  match candidates !! winner with
  | None => Panic
  | Some w => Ok (take winner candidates ++ drop (S winner) candidates ++ [w])
  end.

Fixpoint top_loop (voters : list voter) (tolerableByzantinePower power weight : Z) : Z :=
  match voters with
  | [] => weight
  | v :: rest =>
      let power' := power +i64 VotingPower (val v) in
      let weight' := weight +i64 VotingWeight (val v) in
      if (power <? tolerableByzantinePower) && (tolerableByzantinePower <=? power') then weight'
      else top_loop rest tolerableByzantinePower power' weight'
  end.

Definition getTopByzantineVotingWeight (voters : list voter) (tolerableByzantinePower : Z) : Z :=
  top_loop voters tolerableByzantinePower 0 0.

(** [for i := len(candidates); candidates[i-1].VotingPower == 0; i--] on the
    reversed slice; it runs off the slice when no candidate has power. *)
Fixpoint trailing_zeros {E} (rev_candidates : list Validator) (zeroValidators : Z) : outcome E Z :=
  match rev_candidates with
  | [] => Panic
  | c :: rest => if VotingPower c =? 0 then trailing_zeros rest (zeroValidators + 1) else Ok zeroValidators
  end.

Fixpoint accumulateWinPoints {E} (losersVotingPower : Z) (voters : list voter) : outcome E (list voter) :=
  match voters with
  | [] => Ok []
  | v :: rest =>
      additionalWinPoint ← big_div (VotingPower (val v) * precisionForSelection)
                                   (losersVotingPower + VotingPower (val v));
      rest ← accumulateWinPoints losersVotingPower rest;
      Ok (mkvoter (val v) (winPoint v + additionalWinPoint) :: rest)
  end.

(** The weights, and their total. *)
Fixpoint assign_weights {E} (totalVotingPower totalWinPoint : Z) (voters : list voter) (totalVotingWeight : Z)
  : outcome E (list voter * Z) :=
  match voters with
  | [] => Ok ([], totalVotingWeight)
  | v :: rest =>
      bigVotingWeight ← big_div (winPoint v * precisionForSelection * totalVotingPower) totalWinPoint;
      w ← big_div bigVotingWeight precisionCorrectionForSelection;
      let votingWeight := wrap64 w in
      '(rest, total) ← assign_weights totalVotingPower totalWinPoint rest (totalVotingWeight +i64 votingWeight);
      Ok (mkvoter (set_weight (val v) votingWeight) (winPoint v) :: rest, total)
  end.

(** The outer loop.  Every round elects one more voter and the last possible
    round returns, so the number of candidates is fuel enough. *)
Fixpoint elect_loop {E} (fuel : nat) (totalVotingPower tolerableByzantinePower minVoters zeroValidators : Z)
    (seed : Z) (candidates : list Validator) (voters : list voter) (losersVotingPower : Z)
  : outcome E (list Validator) :=
  match fuel with
  | O => Panic
  | S fuel =>
      voters ← accumulateWinPoints losersVotingPower voters;
      '(winnerIdx, winner, seed) ← electVoter seed candidates (lenZ voters + zeroValidators) losersVotingPower;
      candidates ← moveWinnerToLast candidates winnerIdx;
      let voters := voters ++ [mkvoter winner precisionForSelection] in
      let losersVotingPower := losersVotingPower -i64 VotingPower winner in
      let totalWinPoint := Zsum (winPoint <$> voters) in
      '(voters, totalVotingWeight) ← assign_weights totalVotingPower totalWinPoint voters 0;
      let voters := if minVoters <=? lenZ voters then sortVoters voters else voters in
      if (minVoters <=? lenZ voters) &&
         (getTopByzantineVotingWeight voters tolerableByzantinePower <? totalVotingWeight /i64 3)
      then Ok (val <$> voters)
      else if lenZ voters + zeroValidators =? lenZ candidates
      then Ok ((fun c => set_weight c (VotingPower c)) <$> candidates)
      else elect_loop fuel totalVotingPower tolerableByzantinePower minVoters zeroValidators
             seed candidates voters losersVotingPower
  end.

Definition electVotersNonDup {E} (validators : list Validator) (seed tolerableByzantinePercent minVoters : Z)
  : outcome E (list Validator) :=
  if BftMaxTolerableByzantinePercentage <=? tolerableByzantinePercent then Panic
  else
    let totalVotingPower := getTotalVotingPower validators in
    let tolerableByzantinePower := getTolerableByzantinePower totalVotingPower tolerableByzantinePercent in
    let candidates := sortValidators validators in
    zeroValidators ← trailing_zeros (rev candidates) 0;
    elect_loop (length candidates) totalVotingPower tolerableByzantinePower minVoters zeroValidators
      seed candidates [] totalVotingPower.

Definition SelectVoter {E} (validators : ValidatorSet) (proofHash : bytes) (voterParams : VoterParams)
  : outcome E VoterSet :=
  if bool_decide (proofHash = []) || (lenZ (Validators validators) <=? VoterElectionThreshold voterParams) ||
     (BftMaxTolerableByzantinePercentage <=? MaxTolerableByzantinePercentage voterParams)
  then ToVoterAll (Validators validators)
  else
    voters ← electVotersNonDup (Validators validators) (hashToSeed proofHash)
               (MaxTolerableByzantinePercentage voterParams) (VoterElectionThreshold voterParams);
    WrapValidatorsToVoterSet voters.

(** ** The greedy bound

    Voters are sorted by weight per power, and the weights of the first of them
    are summed until their power reaches the tolerable one.  No group of voters
    with at most that power weighs more. *)

Definition vpower (v : voter) : Z := VotingPower (val v).
Definition vweight (v : voter) : Z := VotingWeight (val v).

Definition ratio_ge (a b : voter) : Prop := vweight b * vpower a <= vweight a * vpower b.

Definition heavy (l : list voter) : Prop := Forall (fun v => 0 < vpower v /\ 0 <= vweight v) l.

Lemma Zsum_scale {A} (f g : A -> Z) c d (l : list A) :
  (forall x, x ∈ l -> c * f x <= d * g x) -> c * Zsum (f <$> l) <= d * Zsum (g <$> l).
Proof.
  induction l as [|x l IH]; intros H; [cbn; lia|]. rewrite !fmap_cons. cbn [Zsum].
  pose proof (H x ltac:(left)). specialize (IH ltac:(intros; apply H; by right)). lia.
Qed.

Lemma knapsack pre j post B :
  StronglySorted ratio_ge ((pre ++ [j]) ++ post) -> heavy ((pre ++ [j]) ++ post) ->
  B ⊆+ (pre ++ [j]) ++ post -> Zsum (vpower <$> B) <= Zsum (vpower <$> pre ++ [j]) ->
  Zsum (vweight <$> B) <= Zsum (vweight <$> pre ++ [j]).
Proof.
  intros Hs Hh (B1 & B2 & HB & H1 & H2)%submseteq_app_r HP.
  apply submseteq_Permutation in H1 as [R HR]. rewrite HB in HP |- *. rewrite HR in HP |- *.
  rewrite !fmap_app, !Zsum_app in HP |- *.
  apply Forall_app in Hh as [Hh1 _]. assert (Hj : 0 < vpower j /\ 0 <= vweight j).
  { apply Forall_app in Hh1 as [_ Hj]. by apply Forall_cons in Hj as [? _]. }
  assert (Hpre : forall x, x ∈ pre ++ [j] -> vweight j * vpower x <= vpower j * vweight x).
  { intros x [Hx|Hx]%elem_of_app; [|apply list_elem_of_singleton in Hx; subst; lia].
    rewrite <- app_assoc in Hs. apply StronglySorted_app in Hs as (Hc & _ & _).
    specialize (Hc x j Hx ltac:(left)). unfold ratio_ge in Hc. lia. }
  assert (Hpost : forall y, y ∈ post -> vpower j * vweight y <= vweight j * vpower y).
  { intros y Hy. apply StronglySorted_app in Hs as (Hc & _ & _).
    specialize (Hc j y ltac:(apply elem_of_app; right; left) Hy). unfold ratio_ge in Hc. lia. }
  assert (HR1 : vweight j * Zsum (vpower <$> R) <= vpower j * Zsum (vweight <$> R)).
  { apply Zsum_scale. intros x Hx. apply Hpre. rewrite HR. apply elem_of_app. by right. }
  assert (HB2 : vpower j * Zsum (vweight <$> B2) <= vweight j * Zsum (vpower <$> B2)).
  { apply Zsum_scale. intros x Hx. apply Hpost. by eapply elem_of_submseteq. }
  assert (vweight j * Zsum (vpower <$> B2) <= vweight j * Zsum (vpower <$> R)) by (apply Z.mul_le_mono_nonneg_l; lia).
  assert (Zsum (vweight <$> B2) <= Zsum (vweight <$> R)); [|lia]. nia.
Qed.

Lemma heavy_sums l : heavy l -> 0 <= Zsum (vpower <$> l) /\ 0 <= Zsum (vweight <$> l).
Proof.
  intros Hh. split; apply Zsum_nonneg, Forall_fmap; (eapply Forall_impl; [exact Hh|]); cbn; lia.
Qed.

(** The loop stops at the end or where the power is reached. *)
Lemma top_loop_spec l tol p0 w0 :
  heavy l -> 0 <= p0 -> 0 <= w0 -> p0 + Zsum (vpower <$> l) <= MaxTotalVotingPower ->
  w0 + Zsum (vweight <$> l) <= MaxTotalVotingPower ->
  exists pre post, l = pre ++ post /\ top_loop l tol p0 w0 = w0 + Zsum (vweight <$> pre) /\
    (post = [] \/ (pre <> [] /\ tol <= p0 + Zsum (vpower <$> pre))).
Proof.
  revert p0 w0. induction l as [|v l IH]; intros p0 w0 Hh Hp Hw Hpm Hwm.
  { exists [], []. split_and!; [done|cbn; lia|by left]. }
  apply Forall_cons in Hh as [[Hv1 Hv2] Hh]. rewrite !fmap_cons in *. cbn [Zsum top_loop] in *.
  destruct (heavy_sums l Hh) as [Hs1 Hs2]. rewrite MaxTotal_val in *.
  fold (vpower v) (vweight v). rewrite !wrap64_id by (unfold_ints; lia).
  destruct ((p0 <? tol) && (tol <=? p0 + vpower v)) eqn:E.
  - apply andb_true_iff in E as [_ E%Z.leb_le]. exists [v], l. split_and!; [done|cbn; lia|right; split; [done|cbn; lia]].
  - destruct (IH (p0 + vpower v) (w0 + vweight v)) as (pre & post & -> & Heq & Hor); [done|lia..|].
    exists (v :: pre), post. rewrite !fmap_cons. cbn [Zsum]. split_and!; [done|rewrite Heq; lia|].
    destruct Hor as [->|[_ Hor]]; [by left|right; split; [done|lia]].
Qed.

Lemma top_bound l tol B :
  StronglySorted ratio_ge l -> heavy l -> Zsum (vpower <$> l) <= MaxTotalVotingPower ->
  Zsum (vweight <$> l) <= MaxTotalVotingPower -> B ⊆+ l -> Zsum (vpower <$> B) <= tol ->
  Zsum (vweight <$> B) <= getTopByzantineVotingWeight l tol.
Proof.
  intros Hs Hh Hpm Hwm HB Htol. destruct (top_loop_spec l tol 0 0) as (pre & post & -> & Heq & Hor); [done|lia..|].
  unfold getTopByzantineVotingWeight. rewrite Heq, Z.add_0_l in *.
  destruct Hor as [->|[Hne Hp]].
  - rewrite app_nil_r in *. apply submseteq_Permutation in HB as [R HR]. rewrite HR.
    rewrite fmap_app, Zsum_app. assert (heavy R) as [_ ?]%heavy_sums; [|lia].
    unfold heavy in *. rewrite HR in Hh. by apply Forall_app in Hh as [_ ?].
  - destruct (exists_last Hne) as (pre0 & j & ->). apply (knapsack pre0 j post B); try done. lia.
Qed.

(** The weight the loop returns is that of a group which, without one of its
    members, is below the power it looks for. *)
Lemma top_loop_below l tol p0 w0 :
  heavy l -> l <> [] -> p0 < tol -> 0 <= p0 -> 0 <= w0 -> p0 + Zsum (vpower <$> l) <= MaxTotalVotingPower ->
  w0 + Zsum (vweight <$> l) <= MaxTotalVotingPower ->
  exists pre j post, l = pre ++ j :: post /\ top_loop l tol p0 w0 = w0 + Zsum (vweight <$> j :: pre) /\ p0 + Zsum (vpower <$> pre) < tol.
Proof.
  revert p0 w0. induction l as [|v l IH]; intros p0 w0 Hh Hne Htol Hp Hw Hpm Hwm; [done|].
  apply Forall_cons in Hh as [[Hv1 Hv2] Hh]. rewrite !fmap_cons in Hpm, Hwm. cbn [Zsum top_loop] in *.
  destruct (heavy_sums l Hh) as [Hs1 Hs2]. rewrite MaxTotal_val in *. fold (vpower v) (vweight v). rewrite !wrap64_id by (unfold_ints; lia).
  rewrite (proj2 (Z.ltb_lt _ _) Htol). cbn [andb]. destruct (Z.leb_spec tol (p0 + vpower v)) as [|Hlt].
  { exists [], v, l. split_and!; [done|cbn; lia|cbn; lia]. }
  destruct l as [|v' l]; [exists [], v, []; split_and!; [done|cbn; lia|cbn; lia]|].
  destruct (IH (p0 + vpower v) (w0 + vweight v)) as (pre & j & post & -> & Heq & Hlow); [done|done|lia..|].
  exists (v :: pre), j, post. rewrite !fmap_cons in *. cbn [Zsum] in *. split_and!; [done|lia|lia].
Qed.

Lemma sortVoters_sorted l : heavy l -> StronglySorted ratio_ge (sortVoters l).
Proof.
  intros Hh. assert (Hs : StronglySorted (not_after less_voter) (sortVoters l)).
  { apply (sort_by_sorted_on (fun v => 0 < vpower v)); [| |eapply Forall_impl; [exact Hh|]; cbn; lia];
      unfold less_voter, vpower.
    - intros a b Ha Hb. zcase; try lia; try done. apply bytes_ltb_asym.
    - intros a b c Ha Hb Hc. zcase; try done; try nia.
      intros H1 H2. exact (weak_trans (less:=less_by_address) (val a) (val b) (val c) H1 H2). }
  induction Hs as [|v l' Hl IH Hv]; constructor; [done|]. eapply Forall_impl; [exact Hv|].
  unfold not_after, less_voter, ratio_ge, vpower, vweight. intros w. zcase; try done; lia.
Qed.

(** ** One round *)

Lemma elect_scan_spec {E} L t cum i :
  Forall (fun v => 0 < VotingPower v) L -> 0 <= cum <= t -> t < cum + Zsum (powers L) ->
  cum + Zsum (powers L) <= MaxTotalVotingPower ->
  exists k v, elect_scan (E:=E) L t cum i = Ok ((i + k)%nat, v) /\ L !! k = Some v.
Proof.
  revert cum i. induction L as [|c L IH]; intros cum i Hp Hc Ht Hm; [cbn in Ht; lia|].
  apply Forall_cons in Hp as [Hpc Hp]. rewrite fmap_cons in *. cbn [Zsum elect_scan] in *.
  assert (0 <= Zsum (powers L)) by (by apply Zsum_nonneg, Forall_fmap, power_nonneg).
  rewrite MaxTotal_val in *. rewrite wrap64_id, wrapu64_id by (unfold_ints; lia).
  destruct (Z.ltb_spec t (cum + VotingPower c)).
  - exists 0%nat, c. by rewrite Nat.add_0_r.
  - destruct (IH (cum + VotingPower c) (S i)) as (k & v & -> & Hk); [done|lia..|].
    exists (S k), v. split; [|done]. f_equal. f_equal. lia.
Qed.

Lemma electVoter_spec {E} seed L W :
  L <> [] -> Forall (fun v => 0 < VotingPower v) L -> Zsum (powers L) <= MaxTotalVotingPower ->
  exists k v seed', electVoter (E:=E) seed (L ++ W) (lenZ W) (Zsum (powers L)) = Ok (k, v, seed') /\ L !! k = Some v.
Proof.
  intros Hne Hp Hm. unfold electVoter.
  assert (Hpos : 0 < Zsum (powers L)).
  { destruct L as [|c L]; [done|]. apply Forall_cons in Hp as [Hpc Hp]. rewrite fmap_cons. cbn.
    assert (0 <= Zsum (powers L)) by (by apply Zsum_nonneg, Forall_fmap, power_nonneg). lia. }
  rewrite MaxTotal_val in Hm. rewrite wrapu64_id by (unfold_ints; lia).
  destruct (RandomThreshold seed (Zsum (powers L))) as [t s] eqn:Et.
  apply RandomThreshold_range in Et; [|unfold two64; lia].
  assert (Hlen : lenZ (L ++ W) - lenZ W = Z.of_nat (length L)) by (unfold lenZ; rewrite length_app; lia).
  rewrite Hlen, Nat2Z.id, take_app_length.
  rewrite (proj2 (Z.ltb_ge _ 0)), (proj2 (Z.ltb_ge (lenZ _) _)) by (unfold lenZ; rewrite ?length_app; lia).
  cbn [orb]. destruct (elect_scan_spec (E:=E) L t 0 0) as (k & v & -> & Hk); [done|lia|lia|rewrite MaxTotal_val; lia|].
  exists k, v, s. done.
Qed.

Lemma moveWinner_spec {E} L W k v :
  L !! k = Some v ->
  moveWinnerToLast (E:=E) (L ++ W) k = Ok ((take k L ++ drop (S k) L) ++ (W ++ [v])).
Proof.
  intros Hk. pose proof (lookup_lt_Some _ _ _ Hk). unfold moveWinnerToLast. rewrite lookup_app_l, Hk by done.
  rewrite take_app_le, drop_app_le by lia. by rewrite <- !app_assoc.
Qed.

(** Elected voters always have points and power. *)
Definition pointed (l : list voter) : Prop := Forall (fun v => 0 < vpower v /\ 0 < winPoint v) l.

Lemma accumulate_spec {E} losers l :
  0 <= losers -> pointed l ->
  exists l', accumulateWinPoints (E:=E) losers l = Ok l' /\ val <$> l' = val <$> l /\ pointed l'.
Proof.
  intros Hl. induction 1 as [|v l [Hv1 Hv2] Hf IH]; [exists []; repeat split; constructor|].
  destruct IH as (l' & IH & Hval & Hp).
  cbn [accumulateWinPoints]. unfold big_div. unfold vpower in Hv1.
  rewrite (proj2 (Z.eqb_neq _ _)), (proj2 (Z.ltb_ge _ _)) by lia. cbn [mbind outcome_bind]. rewrite IH. cbn [mbind outcome_bind].
  eexists. split; [done|]. split; [rewrite !fmap_cons, Hval; done|]. constructor; [|done].
  split; [done|]. cbn. unfold precisionForSelection.
  assert (0 <= VotingPower (val v) * 1000 / (losers + VotingPower (val v))) by (apply Z.div_pos; lia). lia.
Qed.

(** The voters with their weights, and how the weights share out the total. *)
Definition weighted (l l' : list voter) : Prop :=
  Forall2 (fun v v' => exists w, 0 <= w /\ v' = mkvoter (set_weight (val v) w) (winPoint v)) l l'.

Lemma assign_spec {E} T TW l acc done_points :
  0 <= T <= MaxTotalVotingPower -> pointed l -> 0 <= acc -> 0 < TW ->
  TW * acc <= done_points * T -> done_points + Zsum (winPoint <$> l) <= TW ->
  exists l' total, assign_weights (E:=E) T TW l acc = Ok (l', total) /\ weighted l l' /\
    total = acc + Zsum (vweight <$> l') /\ 0 <= total <= T.
Proof.
  intros HT Hp. revert acc done_points. induction Hp as [|v l [Hv1 Hv2] Hp IH]; intros acc dp Ha HTW Hacc Hsum.
  { cbn in Hsum. exists [], acc. split_and!; [done|constructor|cbn; lia|lia|nia]. }
  rewrite fmap_cons in Hsum. cbn [Zsum assign_weights] in *. unfold big_div, precisionForSelection, precisionCorrectionForSelection.
  assert (Hrest : 0 <= Zsum (winPoint <$> l)).
  { apply Zsum_nonneg, Forall_fmap. eapply Forall_impl; [exact Hp|]. cbn. lia. }
  rewrite (proj2 (Z.eqb_neq TW 0)), (proj2 (Z.ltb_ge TW 0)) by lia. cbn [mbind outcome_bind Z.eqb Z.ltb Z.compare].
  set (q := winPoint v * 1000 * T / TW). set (w := q / 1000).
  assert (Hq : 0 <= q /\ TW * q <= winPoint v * 1000 * T).
  { split; [apply Z.div_pos; nia|]. apply Z.mul_div_le. lia. }
  assert (Hw : 0 <= w /\ TW * w <= winPoint v * T).
  { split; [apply Z.div_pos; lia|]. pose proof (Z.mul_div_le q 1000 ltac:(lia)). fold w in H. nia. }
  assert (Hsumw : acc + w <= T) by nia.
  rewrite MaxTotal_val in HT. rewrite (wrap64_id w), (wrap64_id (acc + w)) by (unfold_ints; lia).
  destruct (IH (acc + w) (dp + winPoint v)) as (l' & total & -> & Hl' & Htot & Hb); [lia|done|nia|lia|].
  cbn [mbind outcome_bind]. eexists _, total. split; [done|]. split_and!; try lia.
  - constructor; [|done]. exists w. split; [lia|done].
  - rewrite fmap_cons. cbn [Zsum]. unfold vweight at 1. cbn. lia.
Qed.

Lemma weighted_heavy l l' : pointed l -> weighted l l' -> heavy l' /\ pointed l'.
Proof.
  intros Hp Hw. induction Hw as [|v v' l l' (w & Hw0 & ->) Hf IH]; [split; constructor|].
  apply Forall_cons in Hp as [[H1 H2] Hp]. destruct (IH Hp). split; (constructor; [|done]); done.
Qed.

(** A validator without its weight. *)
Definition bare (v : Validator) : Validator := set_weight v 0.

Lemma weighted_bare l l' : weighted l l' -> bare <$> (val <$> l') = bare <$> (val <$> l).
Proof. induction 1 as [|v v' l l' (w & Hw0 & ->) Hf IH]; [done|]. rewrite !fmap_cons, IH. done. Qed.

Lemma bare_powers (l : list Validator) : powers (bare <$> l) = powers l.
Proof. rewrite <- list_fmap_compose. by apply list_fmap_ext. Qed.

Lemma bare_addrs (l : list Validator) : addrs (bare <$> l) = addrs l.
Proof. rewrite <- list_fmap_compose. by apply list_fmap_ext. Qed.

(** ** The whole election *)

Section elect.
  Context (T pct tol minVoters : Z).
  Hypothesis HT : 0 <= T <= MaxTotalVotingPower.
  Hypothesis Htol : forall p, p < tol -> 100 * p < pct * T.
  Hypothesis Hzero : tol <= 0 -> pct = 0.

(** The lottery without the test: after [n] draws from the candidates [cs], the
    seed, the candidates with the winners at the end, the winners with their
    weights, the power of the losers and the sum of the weights. *)
Inductive drawn {E} (cs : list Validator) (seed0 : Z) : nat -> Z -> list Validator -> list voter -> Z -> Z -> Prop :=
| drawn_none : drawn cs seed0 0 seed0 cs [] T 0
| drawn_one n seed candidates voters losers total scored i winner seed' candidates' weighted total' :
    drawn cs seed0 n seed candidates voters losers total ->
    accumulateWinPoints (E:=E) losers voters = Ok scored ->
    electVoter (E:=E) seed candidates (lenZ scored) losers = Ok (i, winner, seed') ->
    moveWinnerToLast (E:=E) candidates i = Ok candidates' ->
    (let all := scored ++ [mkvoter winner precisionForSelection] in assign_weights (E:=E) T (Zsum (winPoint <$> all)) all 0) = Ok (weighted, total') ->
    drawn cs seed0 (S n) seed' candidates' (if minVoters <=? lenZ weighted then sortVoters weighted else weighted) (losers -i64 VotingPower winner) total'.

(** Voters with a group among them that has a third of the weight and that is,
    but for one member, below the percentage of the power; with a percentage of
    zero no voters pass the test. *)
Definition risky (voters : list voter) (total : Z) : Prop :=
  pct = 0 \/ exists j B, j :: B ⊆+ voters /\ 100 * Zsum (vpower <$> B) < pct * T /\ total / 3 <= Zsum (vweight <$> j :: B).

Definition drawn_risky {E} (cs : list Validator) (seed0 : Z) (n : nat) : Prop :=
  exists seed candidates voters losers total, drawn (E:=E) cs seed0 n seed candidates voters losers total /\ lenZ voters = Z.of_nat n /\
    (minVoters <= Z.of_nat n -> risky voters total).

(** The voters are the first group drawn that is large enough and passes the
    test; everybody votes only if no group does. *)
Definition decided {E} (cs : list Validator) (seed0 : Z) (result : list Validator) : Prop :=
  (result ≡ₚ (fun c => set_weight c (VotingPower c)) <$> cs /\ forall n, (1 <= n <= length cs)%nat -> drawn_risky (E:=E) cs seed0 n) \/
  (exists n seed candidates voters losers total, drawn (E:=E) cs seed0 n seed candidates voters losers total /\ lenZ voters = Z.of_nat n /\
     (1 <= n)%nat /\ minVoters <= Z.of_nat n /\ result ≡ₚ val <$> voters /\ forall m, (1 <= m < n)%nat -> drawn_risky (E:=E) cs seed0 m).

(** The candidates not elected yet come first; the losers' power is theirs. *)
Record electing (candidates : list Validator) (voters : list voter) (losers : Z) (L W : list Validator) : Prop := {
  el_split : candidates = L ++ W;
  el_winners : bare <$> (val <$> voters) ≡ₚ bare <$> W;
  el_losers : losers = Zsum (powers L);
  el_total : T = Zsum (powers candidates);
  el_power : Forall (fun v => 0 < VotingPower v) candidates;
  el_points : pointed voters
}.

(** What the election returns for the candidates [cs]: everybody with the
    weight of their power, or enough voters among whom the tolerable power
    cannot have a third of the weight. *)
Definition elected (cs result : list Validator) : Prop :=
  (exists cs', cs' ≡ₚ cs /\ result = (fun c => set_weight c (VotingPower c)) <$> cs') \/
  (exists voters, result = val <$> voters /\ bare <$> result ⊆+ bare <$> cs /\
     minVoters <= lenZ voters /\ heavy voters /\ StronglySorted ratio_ge voters /\
     Zsum (weights result) <= T /\
     getTopByzantineVotingWeight voters tol < Zsum (weights result) / 3).

Lemma val_weights (l : list voter) : weights (val <$> l) = vweight <$> l.
Proof. rewrite <- list_fmap_compose. by apply list_fmap_ext. Qed.

Lemma val_powers (l : list voter) : powers (val <$> l) = vpower <$> l.
Proof. rewrite <- list_fmap_compose. by apply list_fmap_ext. Qed.

#[global] Instance heavy_perm : Proper (Permutation ==> iff) heavy.
Proof. unfold heavy. intros l l' ->. done. Qed.

Lemma electing_losers candidates voters losers L W :
  electing candidates voters losers L W ->
  Forall (fun v => 0 < VotingPower v) L /\ 0 <= Zsum (powers L) <= MaxTotalVotingPower /\ lenZ voters = lenZ W.
Proof.
  intros [-> Hw Hl HTt Hp Hpt]. apply Forall_app in Hp as [HpL HpW]. rewrite fmap_app, Zsum_app in HTt.
  assert (0 <= Zsum (powers L)) by (by apply Zsum_nonneg, Forall_fmap, power_nonneg).
  assert (0 <= Zsum (powers W)) by (by apply Zsum_nonneg, Forall_fmap, power_nonneg).
  apply Permutation_length in Hw. rewrite !length_fmap in Hw. split_and!; [done|lia|lia|unfold lenZ; lia].
Qed.

Lemma electing_power candidates voters losers L W : electing candidates voters losers L W -> Zsum (vpower <$> voters) <= T.
Proof.
  intros He. destruct (electing_losers _ _ _ _ _ He) as (_ & Hl & _). destruct He as [-> Hw _ HTt _ _].
  rewrite <- val_powers, <- bare_powers, Hw, bare_powers. rewrite HTt, fmap_app, Zsum_app. lia.
Qed.

(** The state after the winner [v] of the losers has moved. *)
Lemma electing_move candidates voters voters' L W k v :
  electing candidates voters (Zsum (powers L)) L W -> L !! k = Some v ->
  bare <$> (val <$> voters') ≡ₚ bare <$> (val <$> voters) ++ [v] -> pointed voters' ->
  let L' := take k L ++ drop (S k) L in
  electing (L' ++ (W ++ [v])) voters' (Zsum (powers L) - VotingPower v) L' (W ++ [v]) /\
  L' ++ (W ++ [v]) ≡ₚ candidates.
Proof.
  intros [-> Hw _ HTt Hp Hpt] Hk Hv' Hp' L'.
  assert (HL : L ≡ₚ v :: L') by (unfold L'; rewrite <- (delete_take_drop L k); by apply delete_Permutation).
  assert (Hperm : L' ++ (W ++ [v]) ≡ₚ L ++ W).
  { rewrite HL. cbn [app]. rewrite (app_assoc L' W [v]). rewrite <- Permutation_cons_append. done. }
  split; [|done]. constructor; try done.
  - rewrite Hv', !fmap_app, Hw. done.
  - rewrite HL, fmap_cons. cbn [Zsum]. lia.
  - by rewrite Hperm.
  - by rewrite Hperm.
Qed.

Lemma weighted_length l l' : weighted l l' -> lenZ l' = lenZ l.
Proof. intros Hw. unfold lenZ. f_equal. symmetry. by eapply Forall2_length. Qed.

(** What is left of the losers after one of them is elected. *)
Lemma losers_left (L : list Validator) k : (k < length L)%nat -> length (take k L ++ drop (S k) L) = (length L - 1)%nat.
Proof. intros Hk. rewrite length_app, length_take, length_drop. lia. Qed.

(** Voters that fail the test are risky. *)
Lemma test_risky v total :
  heavy v -> v <> [] -> Zsum (vpower <$> v) <= MaxTotalVotingPower -> total = Zsum (vweight <$> v) -> total <= MaxTotalVotingPower ->
  total / 3 <= getTopByzantineVotingWeight v tol -> risky v total.
Proof.
  intros Hh Hne Hp -> Hw Ht. destruct (Z_lt_le_dec 0 tol) as [Hlt|]; [right|left; by apply Hzero].
  destruct (top_loop_below v tol 0 0) as (pre & j & post & -> & Heq & Hlow); [done|done|lia..|].
  exists j, pre. split; [|split; [apply Htol; lia|unfold getTopByzantineVotingWeight in Ht; lia]].
  rewrite (Permutation_cons_append pre j), <- (app_nil_r (pre ++ [j])), <- app_assoc. change (j :: post) with ([j] ++ post).
  apply submseteq_app; [done|]. cbn [app]. apply submseteq_skip, submseteq_nil_l.
Qed.

(** One round of the loop: the winner [v] of the losers moves to the winners. *)
Lemma elect_round {E} seed candidates voters L W :
  electing candidates voters (Zsum (powers L)) L W -> L <> [] ->
  exists scored k v seed' weighted total,
    let all := scored ++ [mkvoter v precisionForSelection] in
    let voters' := if minVoters <=? lenZ weighted then sortVoters weighted else weighted in
    let L' := take k L ++ drop (S k) L in
    accumulateWinPoints (E:=E) (Zsum (powers L)) voters = Ok scored /\
    electVoter (E:=E) seed candidates (lenZ scored) (Zsum (powers L)) = Ok (k, v, seed') /\
    moveWinnerToLast (E:=E) candidates k = Ok (L' ++ (W ++ [v])) /\
    assign_weights (E:=E) T (Zsum (winPoint <$> all)) all 0 = Ok (weighted, total) /\
    Zsum (powers L) -i64 VotingPower v = Zsum (powers L') /\
    electing (L' ++ (W ++ [v])) voters' (Zsum (powers L')) L' (W ++ [v]) /\ L' ++ (W ++ [v]) ≡ₚ candidates /\
    heavy voters' /\ total = Zsum (vweight <$> voters') /\ 0 <= total <= T /\ voters' ≡ₚ weighted /\ length L' = (length L - 1)%nat.
Proof.
  intros He Hne. destruct (electing_losers _ _ _ _ _ He) as (HpL & HsL & Hlen).
  destruct (accumulate_spec (E:=E) (Zsum (powers L)) voters) as (v1 & Eacc & Hv1 & Hp1); [lia|apply He|].
  assert (Hlen1 : lenZ v1 = lenZ W).
  { rewrite <- Hlen. unfold lenZ. rewrite <- (length_fmap val v1), Hv1, length_fmap. done. }
  pose proof (el_split _ _ _ _ _ He) as ->. destruct (electVoter_spec (E:=E) seed L W Hne HpL ltac:(lia)) as (k & v & seed' & Eel & Hk).
  pose proof (lookup_lt_Some _ _ _ Hk) as Hkl. pose proof (list_elem_of_lookup_2 _ _ _ Hk) as Hvin.
  pose proof (proj1 (Forall_forall _ _) HpL v Hvin) as Hvp. cbn in Hvp.
  set (v2 := v1 ++ [mkvoter v precisionForSelection]).
  assert (Hp2 : pointed v2).
  { apply Forall_app. split; [done|]. constructor; [|constructor]. split; [done|]. cbn. unfold precisionForSelection. lia. }
  assert (Hpos2 : 0 < Zsum (winPoint <$> v2)).
  { unfold v2. rewrite fmap_app, Zsum_app. cbn. unfold precisionForSelection.
    assert (0 <= Zsum (winPoint <$> v1)) by (apply Zsum_nonneg, Forall_fmap; eapply Forall_impl; [exact Hp1|]; cbn; lia). lia. }
  destruct (assign_spec (E:=E) T (Zsum (winPoint <$> v2)) v2 0 0) as (v3 & tw & Eas & Hw3 & Htw & Hb); [done|done|lia..|].
  destruct (weighted_heavy _ _ Hp2 Hw3) as [Hh3 Hp3].
  set (v4 := if minVoters <=? lenZ v3 then sortVoters v3 else v3).
  assert (Hp4 : v4 ≡ₚ v3) by (unfold v4; destruct (minVoters <=? lenZ v3); [apply sort_by_perm|done]).
  assert (Hbare : bare <$> (val <$> v4) ≡ₚ bare <$> (val <$> voters) ++ [v]).
  { rewrite Hp4, (weighted_bare _ _ Hw3). unfold v2. rewrite fmap_app, Hv1. done. }
  destruct (electing_move _ _ v4 L W k v He Hk Hbare) as [He' Hperm]; [unfold pointed; by rewrite Hp4|].
  pose proof (el_losers _ _ _ _ _ He') as Hl'. pose proof (power_le_sum L v HpL Hvin) as Hle. rewrite MaxTotal_val in HsL.
  exists v1, k, v, seed', v3, tw. cbv zeta. fold v2 v4. rewrite Hlen1. split_and!; try done.
  - by apply moveWinner_spec.
  - rewrite wrap64_id by (unfold_ints; lia). done.
  - by rewrite <- Hl'.
  - by rewrite Hp4.
  - rewrite Hp4. lia.
  - lia.
  - lia.
  - by apply losers_left.
Qed.

(** The division of the code is exact here. *)
Lemma third_exact total : 0 <= total <= MaxTotalVotingPower -> total /i64 3 = total / 3.
Proof.
  rewrite MaxTotal_val. intros Hb. rewrite Z.quot_div_nonneg by lia. pose proof (Z.div_pos total 3 ltac:(lia) ltac:(lia)).
  assert (total / 3 <= total) by (apply Z.div_le_upper_bound; lia). apply wrap64_id. unfold_ints. lia.
Qed.

Lemma elect_loop_spec {E} cs0 seed0 n total fuel seed candidates voters L W :
  electing candidates voters (Zsum (powers L)) L W -> L <> [] -> (length L <= fuel)%nat ->
  candidates ≡ₚ cs0 -> lenZ voters = Z.of_nat n -> drawn (E:=E) cs0 seed0 n seed candidates voters (Zsum (powers L)) total ->
  (forall m, (1 <= m <= n)%nat -> drawn_risky (E:=E) cs0 seed0 m) ->
  exists result, elect_loop (E:=E) fuel T tol minVoters 0 seed candidates voters (Zsum (powers L)) = Ok result /\
    elected cs0 result /\ decided (E:=E) cs0 seed0 result.
Proof.
  revert n total seed candidates voters L W. induction fuel as [|fuel IH]; intros n total seed cs voters L W He Hne Hf Hcs0 Hn Hdr Hrisky.
  { destruct L; [done|cbn in Hf; lia]. }
  destruct (elect_round (E:=E) seed _ _ _ _ He Hne) as (v1 & k & v & seed' & v3 & tw & Eacc & Eel & Emv & Eas & Elo & He' & Hperm & Hh4 & Htw & Hb & Hp4 & HL').
  pose proof (drawn_one _ _ _ _ _ _ _ _ _ _ _ _ _ _ _ Hdr Eacc Eel Emv Eas) as Hdr'. rewrite Elo in Hdr'.
  cbn [elect_loop]. rewrite Eacc. cbn [mbind outcome_bind]. rewrite Z.add_0_r, Eel. cbn [mbind outcome_bind]. rewrite Emv. cbn [mbind outcome_bind].
  rewrite Eas. cbn [mbind outcome_bind]. rewrite Elo, third_exact by lia. clear Eacc Eel Emv Eas Elo.
  set (v4 := if minVoters <=? lenZ v3 then sortVoters v3 else v3) in *. set (L' := take k L ++ drop (S k) L) in *.
  assert (Hlen4 : lenZ v4 = Z.of_nat (S n)).
  { destruct (electing_losers _ _ _ _ _ He) as (_ & _ & Hl). destruct (electing_losers _ _ _ _ _ He') as (_ & _ & ->).
    unfold lenZ in *. rewrite length_app. cbn. lia. }
  pose proof (electing_power _ _ _ _ _ He') as Hpow. destruct ((minVoters <=? lenZ v4) && _) eqn:Estop.
  - apply andb_true_iff in Estop as [E1%Z.leb_le E2%Z.ltb_lt]. eexists. split; [done|]. split.
    2:{ right. eexists (S n), _, _, v4, _, tw. split; [exact Hdr'|]. split_and!; [lia|lia|lia|done|]. intros m Hm. apply Hrisky. lia. }
    right. exists v4. rewrite val_weights, <- Htw. split_and!; try done; [| |lia].
    + rewrite (el_winners _ _ _ _ _ He'), <- Hcs0, <- Hperm, (fmap_app bare L' (W ++ [v])). by apply submseteq_inserts_l.
    + unfold v4. unfold lenZ in E1. rewrite Hp4 in E1. rewrite (proj2 (Z.leb_le _ _)) by done. apply sortVoters_sorted. by rewrite <- Hp4.
  - assert (Hrisky' : forall m, (1 <= m <= S n)%nat -> drawn_risky (E:=E) cs0 seed0 m).
    { intros m Hm. destruct (decide (m = S n)) as [->|]; [|apply Hrisky; lia]. eexists _, _, v4, _, tw. split; [exact Hdr'|]. split; [lia|].
      intros Hmin. apply test_risky; [done|intros Hnil; rewrite Hnil in Hlen4; done|lia|done|lia|].
      apply Z.ltb_ge. by rewrite (proj2 (Z.leb_le _ _)) in Estop by lia. }
    rewrite Z.add_0_r. destruct (Z.eqb_spec (lenZ v4) (lenZ (L' ++ W ++ [v]))) as [Hend|Hmore].
    + eexists. split; [done|]. split; [left; eexists; split; [|reflexivity]; by rewrite Hperm|]. left. rewrite Hperm, Hcs0. split; [done|].
      intros m Hm. apply Hrisky'. rewrite <- Hcs0, <- Hperm in Hm. unfold lenZ in *. lia.
    + apply (IH (S n) tw seed' (L' ++ W ++ [v]) v4 L' (W ++ [v])); try done; [|lia|by rewrite Hperm].
      intros Hnil. apply Hmore. destruct (electing_losers _ _ _ _ _ He') as (_ & _ & ->). by rewrite Hnil.
Qed.

End elect.

Lemma getTotalVotingPower_spec l :
  Forall (fun v => 0 < VotingPower v) l -> Zsum (powers l) <= MaxTotalVotingPower ->
  getTotalVotingPower l = Zsum (powers l).
Proof.
  intros Hp Hm. unfold getTotalVotingPower.
  assert (Hgen : forall acc, 0 <= acc -> acc + Zsum (powers l) <= MaxTotalVotingPower ->
    foldl (fun t v => wrap64 (t + VotingPower v)) acc l = acc + Zsum (powers l)); [|by rewrite Hgen].
  clear Hm. induction Hp as [|v l Hv Hp IH]; intros acc Ha Hm; [cbn; lia|].
  rewrite fmap_cons in *. cbn [foldl Zsum] in *.
  assert (0 <= Zsum (powers l)) by (by apply Zsum_nonneg, Forall_fmap, power_nonneg).
  rewrite wrap64_id by (rewrite MaxTotal_val in *; unfold_ints; lia). rewrite IH by lia. lia.
Qed.

(** A group whose power is within the percentage has at most the tolerable
    power. *)
Lemma tolerable_ceil T pct p :
  0 <= T <= MaxTotalVotingPower -> 0 <= pct < 33 -> 100 * p <= pct * T -> p <= getTolerableByzantinePower T pct.
Proof.
  rewrite MaxTotal_val. intros HT Hpct Hp. unfold getTolerableByzantinePower.
  pose proof (Z.div_mod (T * pct) 100 ltac:(lia)). pose proof (Z.mod_pos_bound (T * pct) 100 ltac:(lia)).
  assert (0 <= T * pct <= 33 * 1152921504606846975) by nia.
  destruct (Z.ltb_spec (T * pct / 100 * 100) (T * pct)); rewrite wrap64_id by (unfold_ints; lia); lia.
Qed.

Lemma tolerable_below T pct p :
  0 <= T <= MaxTotalVotingPower -> 0 <= pct < 33 -> p < getTolerableByzantinePower T pct -> 100 * p < pct * T.
Proof.
  rewrite MaxTotal_val. intros HT Hpct. unfold getTolerableByzantinePower.
  pose proof (Z.div_mod (T * pct) 100 ltac:(lia)). pose proof (Z.mod_pos_bound (T * pct) 100 ltac:(lia)).
  assert (0 <= T * pct <= 33 * 1152921504606846975) by nia.
  destruct (Z.ltb_spec (T * pct / 100 * 100) (T * pct)); rewrite wrap64_id by (unfold_ints; lia); lia.
Qed.

Lemma tolerable_zero T pct : 0 < T <= MaxTotalVotingPower -> 0 <= pct < 33 -> getTolerableByzantinePower T pct <= 0 -> pct = 0.
Proof.
  intros HT Hpct Hz. pose proof (tolerable_ceil T pct (T * pct / 100)) as Hc. pose proof (tolerable_below T pct 0) as Hb.
  destruct (decide (pct = 0)); [done|]. assert (1 <= getTolerableByzantinePower T pct); [|lia].
  rewrite MaxTotal_val in *. unfold getTolerableByzantinePower.
  pose proof (Z.div_mod (T * pct) 100 ltac:(lia)). pose proof (Z.mod_pos_bound (T * pct) 100 ltac:(lia)).
  assert (1 <= T * pct <= 33 * 1152921504606846975) by nia.
  destruct (Z.ltb_spec (T * pct / 100 * 100) (T * pct)); rewrite wrap64_id by (unfold_ints; lia); lia.
Qed.

Lemma electVotersNonDup_spec {E} vals seed pct minVoters :
  valset_wf vals -> Validators vals <> [] -> 0 <= pct < 33 ->
  let T := Zsum (powers (Validators vals)) in
  exists result, electVotersNonDup (E:=E) (Validators vals) seed pct minVoters = Ok result /\
    elected T (getTolerableByzantinePower T pct) minVoters (Validators vals) result /\
    decided (E:=E) T pct minVoters (sortValidators (Validators vals)) seed result.
Proof.
  intros Hwf Hne Hpct T. unfold electVotersNonDup.
  rewrite (proj2 (Z.leb_gt _ _)) by (unfold BftMaxTolerableByzantinePercentage; lia).
  rewrite getTotalVotingPower_spec by apply Hwf. fold T. unfold sortValidators.
  set (cs := sort_by less_by_power (Validators vals)).
  assert (Hp : cs ≡ₚ Validators vals) by apply sort_by_perm.
  assert (Hpos : Forall (fun v => 0 < VotingPower v) cs) by (rewrite Hp; apply Hwf).
  assert (HcsT : Zsum (powers cs) = T) by (by rewrite Hp).
  assert (Hcsne : cs <> []) by (intros Hnil; rewrite Hnil in Hp; by apply Permutation_nil_l in Hp).
  assert (trailing_zeros (E:=E) (rev cs) 0 = Ok 0) as ->.
  { destruct (exists_last Hcsne) as (cs0 & c & Hc). rewrite Hc, rev_app_distr in *. cbn.
    apply Forall_app in Hpos as [_ Hpos]. apply Forall_cons in Hpos as [Hpos _].
    by rewrite (proj2 (Z.eqb_neq _ _)) by lia. }
  cbn [mbind outcome_bind].
  assert (HT : 0 <= T <= MaxTotalVotingPower).
  { split; [apply Zsum_nonneg, Forall_fmap, power_nonneg, Hwf|apply Hwf]. }
  assert (HT0 : 0 < T).
  { rewrite <- HcsT. destruct cs as [|c cs1]; [done|]. apply Forall_cons in Hpos as [Hc Hpos]. rewrite fmap_cons. cbn [Zsum].
    assert (0 <= Zsum (powers cs1)) by (by apply Zsum_nonneg, Forall_fmap, power_nonneg). lia. }
  destruct (@elect_loop_spec T pct (getTolerableByzantinePower T pct) minVoters HT (fun p => tolerable_below T pct p HT Hpct)
    (fun Hz => tolerable_zero T pct ltac:(lia) Hpct Hz) E cs seed 0 0 (length cs) seed cs [] cs [])
    as (result & Hr & Hel & Hde).
  - constructor; [by rewrite app_nil_r|done|done|done|done|constructor].
  - done.
  - lia.
  - done.
  - done.
  - rewrite HcsT. constructor.
  - intros m Hm. lia.
  - rewrite HcsT in Hr. exists result. split; [done|]. split; [|done].
    destruct Hel as [(cs' & Hcs & ->)|(vt & -> & Hsub & Hrest)].
    + left. exists cs'. split; [by rewrite Hcs|done].
    + right. exists vt. split; [done|]. split; [by rewrite <- Hp|done].
Qed.

Lemma Wrap_spec {E} l :
  Forall (fun v => 0 <= VotingWeight v) l -> Zsum (weights l) <= MaxTotalVotingPower ->
  WrapValidatorsToVoterSet (E:=E) l = Ok (mkVoterSet (sort_by less_by_power l) (Zsum (weights l))).
Proof.
  intros Hp Hm. unfold WrapValidatorsToVoterSet, updateTotalVotingWeight. cbn [Voters].
  assert (Hperm := sort_by_perm less_by_power l).
  assert (Hw : Zsum (weights (sort_by less_by_power l)) = Zsum (weights l)) by (by rewrite Hperm).
  rewrite sum_weight_spec.
  - cbn. by rewrite Hw.
  - by rewrite Hperm.
  - lia.
  - rewrite Hperm. rewrite MaxWeight_val. rewrite MaxTotal_val in Hm. lia.
Qed.

(** A permutation of a mapped list splits as the list does. *)
Lemma fmap_Permutation_app_inv {A B} (f : A -> B) (l : list A) (k1 k2 : list B) :
  f <$> l ≡ₚ k1 ++ k2 -> exists l1 l2, l ≡ₚ l1 ++ l2 /\ k1 = f <$> l1 /\ k2 = f <$> l2.
Proof.
  intros Hp. symmetry in Hp. apply Permutation_map_inv in Hp as (l' & Heq & Hl).
  symmetry in Heq. change (map f l') with (f <$> l') in Heq. apply fmap_app_inv in Heq as (l1 & l2 & H1 & H2 & ->).
  by exists l1, l2.
Qed.

(** What [SelectVoter] promises of its result, for a percentage [pct] and a
    number [minVoters] of voters. *)
Record chosen (l : list Validator) (minVoters pct : Z) (voters : VoterSet) : Prop := {
  ch_nonempty : Voters voters <> [];
  ch_members : bare <$> Voters voters ⊆+ bare <$> l;
  ch_nodup : NoDup (addrs (Voters voters));
  ch_sorted : StronglySorted (not_after less_by_power) (Voters voters);
  ch_weight : Forall (fun v => 0 <= VotingWeight v) (Voters voters);
  ch_total : totalVotingWeight voters = Zsum (weights (Voters voters));
  ch_bound : totalVotingWeight voters <= Zsum (powers l);
  ch_safe :
    (Voters voters ≡ₚ (fun c => set_weight c (VotingPower c)) <$> l) \/
    (minVoters <= lenZ (Voters voters) /\
     forall B, B ⊆+ Voters voters -> 100 * Zsum (powers B) <= pct * Zsum (powers l) ->
       3 * Zsum (weights B) < totalVotingWeight voters)
}.

Lemma everyone_weights (l : list Validator) : weights ((fun c => set_weight c (VotingPower c)) <$> l) = powers l.
Proof. rewrite <- list_fmap_compose. by apply list_fmap_ext. Qed.

Lemma everyone_bare (l : list Validator) : bare <$> ((fun c => set_weight c (VotingPower c)) <$> l) = bare <$> l.
Proof. rewrite <- list_fmap_compose. by apply list_fmap_ext. Qed.

Lemma bare_NoDup l l' : NoDup (addrs l) -> bare <$> l' ⊆+ bare <$> l -> NoDup (addrs l').
Proof.
  intros Hnd [k Hk]%submseteq_Permutation. rewrite <- bare_addrs. rewrite <- bare_addrs, Hk, fmap_app in Hnd.
  by apply NoDup_app in Hnd as [? _].
Qed.

(** Everybody votes with the weight of their power. *)
Lemma wrap_everyone {E} vals l minVoters pct :
  valset_wf vals -> Validators vals <> [] -> l ≡ₚ Validators vals ->
  exists voters, WrapValidatorsToVoterSet (E:=E) ((fun c => set_weight c (VotingPower c)) <$> l) = Ok voters /\
    chosen (Validators vals) minVoters pct voters.
Proof.
  intros Hwf Hne Hl. set (r := (fun c => set_weight c (VotingPower c)) <$> l).
  assert (Hw : Zsum (weights r) = Zsum (powers (Validators vals))) by (unfold r; by rewrite everyone_weights, Hl).
  assert (Hp := sort_by_perm less_by_power r). eexists. split.
  { apply Wrap_spec; [|rewrite Hw; apply Hwf]. apply Forall_fmap, power_nonneg. rewrite Hl. apply Hwf. }
  assert (Hb : bare <$> r ⊆+ bare <$> Validators vals) by (unfold r; by rewrite everyone_bare, Hl).
  constructor; cbn [Voters totalVotingWeight].
  - intros Hnil. rewrite Hnil in Hp. apply Permutation_nil_l in Hp. symmetry in Hp. apply fmap_nil_inv in Hp.
    rewrite Hp in Hl. apply Permutation_nil_l in Hl. congruence.
  - by rewrite Hp.
  - rewrite Hp. eapply bare_NoDup; [apply Hwf|done].
  - apply sort_by_sorted, _.
  - rewrite Hp. apply Forall_fmap, power_nonneg. rewrite Hl. apply Hwf.
  - by rewrite Hp.
  - lia.
  - left. rewrite Hp. unfold r. by rewrite Hl.
Qed.

Lemma wrap_elected {E} vals minVoters pct result :
  valset_wf vals -> Validators vals <> [] -> 0 <= pct < 33 ->
  let T := Zsum (powers (Validators vals)) in
  elected T (getTolerableByzantinePower T pct) minVoters (Validators vals) result ->
  exists voters, WrapValidatorsToVoterSet (E:=E) result = Ok voters /\ chosen (Validators vals) minVoters pct voters.
Proof.
  intros Hwf Hne Hpct T [(cs & Hcs & ->)|(vt & -> & Hsub & Hmin & Hh & Hs & HT & Htop)].
  { by apply wrap_everyone. }
  assert (HTr : 0 <= T <= MaxTotalVotingPower).
  { split; [apply Zsum_nonneg, Forall_fmap, power_nonneg, Hwf|apply Hwf]. }
  set (r := val <$> vt) in *. assert (Hp := sort_by_perm less_by_power r).
  assert (Hwt : Forall (fun v => 0 <= VotingWeight v) r).
  { apply Forall_fmap. eapply Forall_impl; [exact Hh|]. unfold vweight. cbn. tauto. }
  assert (HpT : Zsum (vpower <$> vt) <= T).
  { rewrite <- val_powers. fold r. rewrite <- bare_powers. apply submseteq_Permutation in Hsub as [k Hk].
    unfold T. rewrite <- (bare_powers (Validators vals)), Hk, fmap_app, Zsum_app.
    assert (0 <= Zsum (powers k)); [|lia]. apply Zsum_nonneg, Forall_fmap, power_nonneg.
    assert (Hall : Forall (fun v => 0 < VotingPower v) (bare <$> Validators vals)) by (apply Forall_fmap, Hwf).
    rewrite Hk in Hall. by apply Forall_app in Hall as [_ ?]. }
  eexists. split; [apply Wrap_spec; [done|lia]|]. constructor; cbn [Voters totalVotingWeight].
  - intros Hnil. rewrite Hnil in Hp. apply Permutation_nil_l in Hp. symmetry in Hp. apply fmap_nil_inv in Hp.
    subst vt. vm_compute in Htop. done.
  - by rewrite Hp.
  - rewrite Hp. eapply bare_NoDup; [apply Hwf|done].
  - apply sort_by_sorted, _.
  - by rewrite Hp.
  - by rewrite Hp.
  - done.
  - right. split; [unfold lenZ in *; rewrite Hp; unfold r; by rewrite length_fmap|].
    intros B HB HBp. rewrite Hp in HB. unfold r in HB.
    apply submseteq_Permutation in HB as [R HR]. apply fmap_Permutation_app_inv in HR as (Bv & Rv & HBv & -> & _).
    rewrite val_powers in HBp. rewrite val_weights.
    pose proof (top_bound vt (getTolerableByzantinePower T pct) Bv Hs Hh ltac:(lia)
      ltac:(rewrite <- val_weights; fold r; lia) ltac:(rewrite HBv; by apply submseteq_inserts_r)
      ltac:(apply tolerable_ceil; done)) as Hb.
    pose proof (Z.mul_div_le (Zsum (weights r)) 3 ltac:(lia)). lia.
Qed.

(** ** Property *)

Lemma filter_nonzero_all l : Forall (fun v => 0 < VotingPower v) l -> filter (fun v => VotingPower v <> 0) l = l.
Proof. induction 1 as [|v l Hv Hl IH]; [done|]. rewrite filter_cons, decide_True, IH by lia. done. Qed.

(** Who votes.  [everyone_due]: there is no lottery. *)
Definition everyone_due (l : list Validator) (proofHash : bytes) (params : VoterParams) : bool :=
  bool_decide (proofHash = []) || (lenZ l <=? VoterElectionThreshold params) ||
  (BftMaxTolerableByzantinePercentage <=? MaxTolerableByzantinePercentage params).

Definition who_votes {E} (l : list Validator) (proofHash : bytes) (params : VoterParams) (voters : list Validator) : Prop :=
  if everyone_due l proofHash params then voters ≡ₚ (fun c => set_weight c (VotingPower c)) <$> l
  else decided (E:=E) (Zsum (powers l)) (MaxTolerableByzantinePercentage params) (VoterElectionThreshold params)
         (sortValidators l) (hashToSeed proofHash) voters.

Lemma wrap_voters {E} l voters : WrapValidatorsToVoterSet (E:=E) l = Ok voters -> Voters voters ≡ₚ l.
Proof.
  unfold WrapValidatorsToVoterSet, updateTotalVotingWeight. cbn [Voters]. intros (t & _ & [= <-])%obind_Ok. cbn [Voters]. apply sort_by_perm.
Qed.

Lemma decided_perm {E} T pct minVoters cs seed r r' : r' ≡ₚ r -> decided (E:=E) T pct minVoters cs seed r -> decided (E:=E) T pct minVoters cs seed r'.
Proof.
  intros Hp [[Hr H]|(n & s & c & v & lo & tot & H1 & H2 & H3 & H4 & H5 & H6)]; [left; by rewrite Hp|].
  right. exists n, s, c, v, lo, tot. by rewrite Hp.
Qed.

Lemma SelectVoter_spec {E} vals proofHash params :
  valset_wf vals -> Validators vals <> [] -> 0 <= MaxTolerableByzantinePercentage params ->
  exists voters, SelectVoter (E:=E) vals proofHash params = Ok voters /\
    chosen (Validators vals) (VoterElectionThreshold params) (MaxTolerableByzantinePercentage params) voters /\
    who_votes (E:=E) (Validators vals) proofHash params (Voters voters).
Proof.
  intros Hwf Hne Hpct. unfold SelectVoter, who_votes, everyone_due. destruct (_ || _ || _) eqn:Eall.
  - unfold ToVoterAll. rewrite filter_nonzero_all by apply Hwf.
    destruct (wrap_everyone (E:=E) vals (Validators vals) (VoterElectionThreshold params) (MaxTolerableByzantinePercentage params))
      as (voters & Hv & Hc); [done..|]. exists voters. split; [done|]. split; [done|]. by apply wrap_voters in Hv.
  - apply orb_false_iff in Eall as [_ Epct%Z.leb_gt]. unfold BftMaxTolerableByzantinePercentage in Epct.
    destruct (electVotersNonDup_spec (E:=E) vals (hashToSeed proofHash) (MaxTolerableByzantinePercentage params)
      (VoterElectionThreshold params) Hwf Hne ltac:(lia)) as (result & -> & Hel & Hde).
    cbn [mbind outcome_bind]. destruct (wrap_elected (E:=E) vals _ _ _ Hwf Hne (conj Hpct Epct) Hel) as (voters & Hv & Hc).
    exists voters. split; [done|]. split; [done|]. eapply decided_perm; [by eapply wrap_voters|done].
Qed.

Lemma SelectVoter_chosen {E} vals proofHash params :
  valset_wf vals -> Validators vals <> [] -> 0 <= MaxTolerableByzantinePercentage params ->
  exists voters, SelectVoter (E:=E) vals proofHash params = Ok voters /\
    chosen (Validators vals) (VoterElectionThreshold params) (MaxTolerableByzantinePercentage params) voters.
Proof. intros Hwf Hne Hpct. destruct (SelectVoter_spec (E:=E) vals proofHash params Hwf Hne Hpct) as (v & ? & ? & _). by exists v. Qed.

(** C36: [SelectVoter] elects a safe set of voters.  On every well-formed
    non-empty validator set, for every proof hash and parameters with a
    percentage that is not negative, it returns: the loop ends and no branch
    panics.  The voters are distinct validators of the set with their keys and
    powers, sorted by power; their weights are not negative and sum to the
    cached total, which is at most the total power.  Without a proof hash, with
    no more validators than the threshold or with a percentage of 33 or more,
    everybody votes with the weight of their power.  Otherwise the voters are the
    first group of the lottery with at least the threshold number of members that
    passes the test, and then no voters whose power is within the percentage of
    the whole set's power have a third of the weight; every group drawn before
    that was large enough has members with a third of the weight who are, but for
    one of them, below the percentage; and everybody votes only if all groups,
    up to the whole set, are of that kind (or the percentage is zero). *)
Theorem select_voter_safe {E} vals proofHash params :
  valset_wf vals -> Validators vals <> [] -> 0 <= MaxTolerableByzantinePercentage params ->
  exists voters, SelectVoter (E:=E) vals proofHash params = Ok voters /\
    chosen (Validators vals) (VoterElectionThreshold params) (MaxTolerableByzantinePercentage params) voters /\
    who_votes (E:=E) (Validators vals) proofHash params (Voters voters).
Proof. apply SelectVoter_spec. Qed.

(** Eight validators of equal power: a small election. *)
Definition equal_set : ValidatorSet := mkValidatorSet
  ((fun n => mkValidator [n] None 10 0 0) <$> [1; 2; 3; 4; 5; 6; 7; 8]) 0.

Lemma equal_set_wf : valset_wf equal_set.
Proof.
  constructor; cbn [equal_set Validators totalVotingPower].
  - by apply (bool_decide_unpack _); vm_compute.
  - by apply (bool_decide_unpack _); vm_compute.
  - repeat constructor.
  - vm_compute. discriminate.
  - by left.
  - repeat constructor; vm_compute; discriminate.
Qed.

Lemma select_voter_safe_witness :
  exists voters, SelectVoter (E:=unit) equal_set [1; 2; 3] (mkVoterParams 4 10) = Ok voters /\
    chosen (Validators equal_set) 4 10 voters /\ lenZ (Voters voters) < 8.
Proof.
  destruct (select_voter_safe (E:=unit) equal_set [1; 2; 3] (mkVoterParams 4 10) equal_set_wf
    ltac:(discriminate) ltac:(discriminate)) as (voters & H1 & H2 & _).
  exists voters. split; [exact H1|]. split; [exact H2|].
  revert H1. vm_compute. intros [= <-]. reflexivity.
Defined.
