(* ===== verification/Slots.v ===== *)
(** * Slices of optional entries

    A slice with an entry or nil per position, and the bit array kept beside
    it: the votes of a vote set, the parts of a part set. *)

From Stdlib Require Import ZArith Lia.
From stdpp Require Import prelude list.
From S2P Require Import Prelude BitArray.

Local Open Scope Z_scope.

Section slots.
  Context {A : Type}.
  Implicit Types (o : option A) (votes : list (option A)).

Definition has o : bool := match o with Some _ => true | None => false end.

(** The entries that are there. *)
Definition vote_count votes : nat := length (omap id votes).

Definition bits_of (b : option BitArray) votes : Prop :=
  match b with
  | None => votes = []
  | Some b => wf b /\ Bits b = lenZ votes /\ forall (i : nat) o, votes !! i = Some o -> bit b (Z.of_nat i) = has o
  end.

Lemma vote_count_cons o votes : vote_count (o :: votes) = ((if has o then 1 else 0) + vote_count votes)%nat.
Proof. by destruct o. Qed.

Lemma vote_count_insert votes i o v :
  votes !! i = Some o -> vote_count (<[i := Some v]> votes) = (vote_count votes + if has o then 0 else 1)%nat.
Proof.
  revert i. induction votes as [|o' votes IH]; intros [|i] Ho; try done.
  - injection Ho as ->. change (<[0%nat := Some v]> (o :: votes)) with (Some v :: votes).
    rewrite !vote_count_cons. change (has (Some v)) with true. destruct (has o); lia.
  - specialize (IH i Ho). change (<[S i := Some v]> (o' :: votes)) with (o' :: <[i := Some v]> votes).
    rewrite !vote_count_cons, IH. lia.
Qed.

Lemma bits_of_set {E} b votes (i : nat) o v :
  bits_of b votes -> votes !! i = Some o ->
  exists r b', SetIndex (E:=E) b (Z.of_nat i) true = Ok (r, b') /\ bits_of b' (<[i := Some v]> votes).
Proof.
  intros Hb Ho. pose proof (lookup_lt_Some _ _ _ Ho) as Hlt. destruct b as [b|]; [|by cbn in Hb; subst].
  destruct Hb as (Hwf & HB & Hbit).
  destruct (setIndex_spec (E:=E) b (Z.of_nat i) true Hwf) as (b' & Hs & Hwf' & HB' & _ & Hbit').
  { rewrite HB. unfold lenZ. lia. }
  exists true, (Some b'). cbn [SetIndex]. rewrite Hs. split; [done|]. cbn. split_and!; [done|..].
  - rewrite HB', HB. unfold lenZ. by rewrite length_insert.
  - intros j o' Hj. rewrite Hbit'. destruct (Z.eqb_spec (Z.of_nat j) (Z.of_nat i)) as [Heq|Hne].
    + replace j with i in Hj by lia. rewrite list_lookup_insert_eq in Hj by done. by injection Hj as <-.
    + rewrite list_lookup_insert_ne in Hj by lia. by apply Hbit.
Qed.

Lemma bits_of_new (n : nat) : bits_of (NewBitArray (Z.of_nat n)) (replicate n (None : option A)).
Proof.
  destruct (NewBitArray (Z.of_nat n)) as [b|] eqn:E.
  - apply NewBitArray_spec in E as (Hwf & _ & HB & Hbit). split_and!; [done|unfold lenZ; by rewrite length_replicate|].
    intros i o [-> _]%lookup_replicate. by rewrite Hbit.
  - unfold NewBitArray in E. destruct (Z.leb_spec (Z.of_nat n) 0); [|done]. by replace n with 0%nat by lia.
Qed.

Lemma bits_of_ext b (l1 l2 : list (option A)) :
  bits_of b l1 -> length l1 = length l2 ->
  (forall i o1 o2, l1 !! i = Some o1 -> l2 !! i = Some o2 -> has o1 = has o2) -> bits_of b l2.
Proof.
  destruct b as [b|]; cbn; [|intros ->; by destruct l2].
  intros (Hwf & HB & Hbit) Hl Hext. unfold lenZ in *. rewrite <- Hl. split_and!; [done..|].
  intros i o Hi. destruct (lookup_lt_is_Some_2 l1 i) as [o1 H1]; [rewrite Hl; by eapply lookup_lt_Some|].
  rewrite (Hbit i o1 H1). by eapply Hext.
Qed.

Lemma vote_count_ext (l1 l2 : list (option A)) :
  length l1 = length l2 ->
  (forall i o1 o2, l1 !! i = Some o1 -> l2 !! i = Some o2 -> has o1 = has o2) -> vote_count l1 = vote_count l2.
Proof.
  revert l2. induction l1 as [|o1 l1 IH]; intros [|o2 l2] Hl Hext; try done. injection Hl as Hl.
  rewrite !vote_count_cons, (IH l2 Hl (fun i => Hext (S i))). by rewrite (Hext 0%nat o1 o2 eq_refl eq_refl).
Qed.

Lemma vote_count_le (l : list (option A)) : (vote_count l <= length l)%nat.
Proof. induction l as [|o l IH]; [done|]. rewrite vote_count_cons. cbn. destruct (has o); lia. Qed.

End slots.
