(* ===== verification/VoteSet.v ===== *)
(** * The votes of one step: src/types/vote_set.go

    [VoteSet] and [blockVotes], and [CommitToVoteSet] of src/types/block.go.
    The mutex makes every method one step.  A method that changes the set
    returns the new one; [AddVote] can report an error and add the vote at the
    same time, so its result holds both. *)

From Stdlib Require Import ZArith Lia.
From stdpp Require Import prelude list gmap.
From S2P Require Import Prelude BitArray Proto Crypto Validator ValidatorSet Block VoterSet.

Local Open Scope Z_scope.
Local Open Scope go_scope.

(** ** The data *)

Record blockVotes := mkblockVotes {
  bv_peerMaj23 : bool;
  bv_bitArray : option BitArray;
  bv_votes : list (option Vote);
  bv_sum : Z
}.

Record VoteSet := mkVoteSet {
  vs_chainID : bytes;
  vs_height : Z;
  vs_round : Z;
  vs_signedMsgType : Z;
  vs_voterSet : VoterSet;
  vs_votesBitArray : option BitArray;
  vs_votes : list (option Vote);
  vs_sum : Z;
  vs_maj23 : option BlockID;
  vs_votesByBlock : gmap bytes blockVotes;
  vs_peerMaj23s : gmap bytes BlockID
}.

Definition NewVoteSet {E} (chainID : bytes) (height round signedMsgType : Z) (voterSet : VoterSet)
  : outcome E VoteSet :=
  if height =? 0 then Panic
  else Ok (mkVoteSet chainID height round signedMsgType voterSet
             (NewBitArray (Voters_Size voterSet)) (replicate (length (Voters voterSet)) None) 0 None ∅ ∅).

Definition newBlockVotes (peerMaj23 : bool) (numVoters : Z) : blockVotes :=
  mkblockVotes peerMaj23 (NewBitArray numVoters) (replicate (Z.to_nat numVoters) None) 0.

(** The fields a method assigns. *)
Definition set_votes (s : VoteSet) (b : option BitArray) (votes : list (option Vote)) (sum : Z) : VoteSet :=
  mkVoteSet (vs_chainID s) (vs_height s) (vs_round s) (vs_signedMsgType s) (vs_voterSet s) b votes sum
    (vs_maj23 s) (vs_votesByBlock s) (vs_peerMaj23s s).

Definition set_votesByBlock (s : VoteSet) (m : gmap bytes blockVotes) : VoteSet :=
  mkVoteSet (vs_chainID s) (vs_height s) (vs_round s) (vs_signedMsgType s) (vs_voterSet s) (vs_votesBitArray s)
    (vs_votes s) (vs_sum s) (vs_maj23 s) m (vs_peerMaj23s s).

Definition set_maj23 (s : VoteSet) (b : BlockID) (votes : list (option Vote)) : VoteSet :=
  mkVoteSet (vs_chainID s) (vs_height s) (vs_round s) (vs_signedMsgType s) (vs_voterSet s) (vs_votesBitArray s)
    votes (vs_sum s) (Some b) (vs_votesByBlock s) (vs_peerMaj23s s).

Definition set_voterSet (s : VoteSet) (voters : VoterSet) : VoteSet :=
  mkVoteSet (vs_chainID s) (vs_height s) (vs_round s) (vs_signedMsgType s) voters (vs_votesBitArray s)
    (vs_votes s) (vs_sum s) (vs_maj23 s) (vs_votesByBlock s) (vs_peerMaj23s s).

Definition set_peerMaj23s (s : VoteSet) (m : gmap bytes BlockID) : VoteSet :=
  mkVoteSet (vs_chainID s) (vs_height s) (vs_round s) (vs_signedMsgType s) (vs_voterSet s) (vs_votesBitArray s)
    (vs_votes s) (vs_sum s) (vs_maj23 s) (vs_votesByBlock s) m.

Definition set_peerMaj23 (v : blockVotes) : blockVotes :=
  mkblockVotes true (bv_bitArray v) (bv_votes v) (bv_sum v).

(** ** Adding votes *)

Definition blockVotes_getByIndex {E} (vs : option blockVotes) (index : Z) : outcome E (option Vote) :=
  match vs with None => Ok None | Some vs => idx (bv_votes vs) index end.

Definition blockVotes_addVerifiedVote {E} (vs : blockVotes) (vote : Vote) (votingPower : Z) : outcome E blockVotes :=
  existing ← idx (bv_votes vs) (v_ValidatorIndex vote);
  match existing with
  | Some _ => Ok vs
  | None =>
      '(_, b) ← SetIndex (bv_bitArray vs) (v_ValidatorIndex vote) true;
      votes ← upd (bv_votes vs) (v_ValidatorIndex vote) (Some vote);
      Ok (mkblockVotes (bv_peerMaj23 vs) b votes (bv_sum vs +i64 votingPower))
  end.

Definition getVote {E} (s : VoteSet) (valIndex : Z) (blockKey : bytes) : outcome E (option Vote) :=
  existing ← idx (vs_votes s) valIndex;
  match existing with
  | Some e =>
      if bytes_eqb (BlockID_Key (v_BlockID e)) blockKey then Ok (Some e)
      else blockVotes_getByIndex (vs_votesByBlock s !! blockKey) valIndex
  | None => blockVotes_getByIndex (vs_votesByBlock s !! blockKey) valIndex
  end.

(** The first part of [addVerifiedVote]: the primary votes; the conflicting
    vote and the new set. *)
Definition add_primary {E} (s : VoteSet) (vote : Vote) (blockKey : bytes) (votingPower : Z)
  : outcome E (option Vote * VoteSet) :=
  let valIndex := v_ValidatorIndex vote in
  existing ← idx (vs_votes s) valIndex;
  match existing with
  | Some existing =>
      if BlockID_Equals (v_BlockID existing) (v_BlockID vote) then Panic
      else if match vs_maj23 s with Some m => bytes_eqb (BlockID_Key m) blockKey | None => false end then
        votes ← upd (vs_votes s) valIndex (Some vote);
        '(_, b) ← SetIndex (vs_votesBitArray s) valIndex true;
        Ok (Some existing, set_votes s b votes (vs_sum s))
      else Ok (Some existing, s)
  | None =>
      votes ← upd (vs_votes s) valIndex (Some vote);
      '(_, b) ← SetIndex (vs_votesBitArray s) valIndex true;
      Ok (None, set_votes s b votes (vs_sum s +i64 votingPower))
  end.

(** The votes of a block copied over the primary ones. *)
Definition copy_votes (from to : list (option Vote)) : list (option Vote) :=
  zip_with (fun f t => match f with Some v => Some v | None => t end) from to ++ drop (length from) to.

(** The end of [addVerifiedVote]: the votes of the block, and the majority. *)
Definition add_to_block {E} (s : VoteSet) (votesByBlock : blockVotes) (vote : Vote) (blockKey : bytes)
    (votingPower : Z) : outcome E VoteSet :=
  let origSum := bv_sum votesByBlock in
  '(total, voters) ← TotalVotingWeight (vs_voterSet s);
  let s := set_voterSet s voters in
  let quorum := ((total *i64 2) /i64 3) +i64 1 in
  votesByBlock ← blockVotes_addVerifiedVote votesByBlock vote votingPower;
  let s := set_votesByBlock s (<[blockKey := votesByBlock]> (vs_votesByBlock s)) in
  if (origSum <? quorum) && (quorum <=? bv_sum votesByBlock) then
    match vs_maj23 s with
    | None => Ok (set_maj23 s (v_BlockID vote) (copy_votes (bv_votes votesByBlock) (vs_votes s)))
    | Some _ => Ok s
    end
  else Ok s.

(** The second part: whether the block is tracked. *)
Definition track_vote {E} (s : VoteSet) (conflicting : option Vote) (vote : Vote) (blockKey : bytes)
    (votingPower : Z) : outcome E (bool * option Vote * VoteSet) :=
  match vs_votesByBlock s !! blockKey with
  | Some votesByBlock =>
      if bool_decide (conflicting <> None) && negb (bv_peerMaj23 votesByBlock)
      then Ok (false, conflicting, s)
      else s ← add_to_block s votesByBlock vote blockKey votingPower; Ok (true, conflicting, s)
  | None =>
      if bool_decide (conflicting <> None) then Ok (false, conflicting, s)
      else
        s ← add_to_block s (newBlockVotes false (Voters_Size (vs_voterSet s))) vote blockKey votingPower;
        Ok (true, conflicting, s)
  end.

Definition addVerifiedVote {E} (s : VoteSet) (vote : Vote) (blockKey : bytes) (votingPower : Z)
  : outcome E (bool * option Vote * VoteSet) :=
  '(conflicting, s) ← add_primary s vote blockKey votingPower;
  track_vote s conflicting vote blockKey votingPower.

Inductive add_error :=
| ErrVoteNil | ErrVoteInvalidIndex | ErrVoteInvalidAddress | ErrVoteUnexpectedStep
| ErrVoteNonDeterministicSignature | ErrVoteVerify (e : vote_verify_error)
| ErrVoteConflictingVotes (voteA voteB : Vote).

Definition add_result : Type := bool * option add_error * VoteSet.

(** [execVoteVerify] is the method's argument; a nil key has no methods. *)
Definition addVote {E} (s : VoteSet) (vote : option Vote)
    (execVoteVerify : Vote -> bytes -> PubKey -> outcome vote_verify_error unit) : outcome E add_result :=
  match vote with
  | None => Ok (false, Some ErrVoteNil, s)
  | Some vote =>
      let valIndex := v_ValidatorIndex vote in
      let valAddr := v_ValidatorAddress vote in
      let blockKey := BlockID_Key (v_BlockID vote) in
      if valIndex <? 0 then Ok (false, Some ErrVoteInvalidIndex, s)
      else if bool_decide (valAddr = []) then Ok (false, Some ErrVoteInvalidAddress, s)
      else if negb (v_Height vote =? vs_height s) || negb (v_Round vote =? vs_round s) ||
              negb (v_Type vote =? vs_signedMsgType s) then Ok (false, Some ErrVoteUnexpectedStep, s)
      else match Voters_GetByIndex (vs_voterSet s) valIndex with
           | None => Ok (false, Some ErrVoteInvalidIndex, s)
           | Some (lookupAddr, voter) =>
               if negb (bytes_eqb valAddr lookupAddr) then Ok (false, Some ErrVoteInvalidAddress, s)
               else
                 existing ← getVote s valIndex blockKey;
                 match existing with
                 | Some existing =>
                     if bytes_eqb (sig_bytes (v_Signature existing)) (sig_bytes (v_Signature vote))
                     then Ok (false, None, s)
                     else Ok (false, Some ErrVoteNonDeterministicSignature, s)
                 | None =>
                     match vPubKey voter with
                     | None => Panic
                     | Some pk =>
                         match execVoteVerify vote (vs_chainID s) pk with
                         | Err e => Ok (false, Some (ErrVoteVerify e), s)
                         | Panic => Panic
                         | Ok _ =>
                             '(added, conflicting, s) ← addVerifiedVote s vote blockKey (VotingWeight voter);
                             match conflicting with
                             | Some c => Ok (added, Some (ErrVoteConflictingVotes c vote), s)
                             | None => if added : bool then Ok (added, None, s) else Panic
                             end
                         end
                     end
                 end
           end
  end.

Section crypto.
  Context {crypto : CryptoLib} {codec : TimeCodec}.

Definition AddVote {E} (s : VoteSet) (vote : option Vote) : outcome E add_result :=
  addVote s vote (fun vote chainID pk => Vote_Verify chainID pk vote).

Definition AddAggregatedVote {E} (s : VoteSet) (vote : option Vote) : outcome E add_result :=
  addVote s vote (fun vote _ pk =>
    addr ← PubKey_Address pk;
    if negb (bytes_eqb addr (v_ValidatorAddress vote)) then Err ErrVoteInvalidValidatorAddress else Ok tt).

End crypto.

(** ** Claims of peers *)

Inductive peer_error := ErrConflictingPeerMaj23.

Definition SetPeerMaj23 (s : VoteSet) (peerID : bytes) (blockID : BlockID) : outcome peer_error VoteSet :=
  let blockKey := BlockID_Key blockID in
  match vs_peerMaj23s s !! peerID with
  | Some existing => if BlockID_Equals existing blockID then Ok s else Err ErrConflictingPeerMaj23
  | None =>
      let s := set_peerMaj23s s (<[peerID := blockID]> (vs_peerMaj23s s)) in
      match vs_votesByBlock s !! blockKey with
      | Some v =>
          if bv_peerMaj23 v then Ok s
          else Ok (set_votesByBlock s (<[blockKey := set_peerMaj23 v]> (vs_votesByBlock s)))
      | None =>
          Ok (set_votesByBlock s
                (<[blockKey := newBlockVotes true (Voters_Size (vs_voterSet s))]> (vs_votesByBlock s)))
      end
  end.

(** ** Reading *)

Definition VoteSet_BitArray (s : VoteSet) : option BitArray := Copy (vs_votesBitArray s).

Definition BitArrayByBlockID (s : VoteSet) (blockID : BlockID) : option BitArray :=
  match vs_votesByBlock s !! BlockID_Key blockID with
  | Some votesByBlock => Copy (bv_bitArray votesByBlock)
  | None => None
  end.

Definition VoteSet_GetByIndex {E} (s : VoteSet) (valIndex : Z) : outcome E (option Vote) :=
  idx (vs_votes s) valIndex.

Definition List (s : VoteSet) : list Vote := omap id (vs_votes s).

Definition VoteSet_GetByAddress {E} (s : VoteSet) (address : bytes) : outcome E (option Vote) :=
  let '(valIndex, val) := Voters_GetByAddress (vs_voterSet s) address in
  match val with
  | None => Panic
  | Some _ => idx (vs_votes s) valIndex
  end.

Definition HasTwoThirdsMajority (s : VoteSet) : bool := bool_decide (vs_maj23 s <> None).

Definition VoteSet_IsCommit (s : VoteSet) : bool :=
  (vs_signedMsgType s =? PrecommitType) && bool_decide (vs_maj23 s <> None).

(** The two methods that compute the total cache it in the shared voter set. *)
Definition HasTwoThirdsAny {E} (s : VoteSet) : outcome E (bool * VoteSet) :=
  '(total, voters) ← TotalVotingWeight (vs_voterSet s);
  Ok ((total *i64 2) /i64 3 <? vs_sum s, set_voterSet s voters).

Definition HasAll {E} (s : VoteSet) : outcome E (bool * VoteSet) :=
  '(total, voters) ← TotalVotingWeight (vs_voterSet s);
  Ok (vs_sum s =? total, set_voterSet s voters).

Definition TwoThirdsMajority (s : VoteSet) : BlockID * bool :=
  match vs_maj23 s with
  | Some b => (b, true)
  | None => (zero_BlockID, false)
  end.

(** ** Commits *)

Definition commit_sig {E} (maj23 : BlockID) (v : option Vote) : outcome E CommitSig :=
  commitSig ← Vote_CommitSig v;
  if negb (Absent commitSig) && bool_decide (cs_Signature commitSig = None) then Panic
  else
    match v with
    | Some v =>
        if ForBlock commitSig && negb (BlockID_Equals (v_BlockID v) maj23) then Ok NewCommitSigAbsent
        else Ok commitSig
    | None => if ForBlock commitSig then Panic else Ok commitSig
    end.

Fixpoint commit_sigs {E} (maj23 : BlockID) (votes : list (option Vote)) : outcome E (list CommitSig) :=
  match votes with
  | [] => Ok []
  | v :: rest => cs ← commit_sig maj23 v; css ← commit_sigs maj23 rest; Ok (cs :: css)
  end.

Section crypto.
  Context {crypto : CryptoLib} {codec : TimeCodec}.

Definition MakeCommit {E} (s : VoteSet) : outcome E Commit :=
  if negb (vs_signedMsgType s =? PrecommitType) then Panic
  else match vs_maj23 s with
       | None => Panic
       | Some maj23 =>
           commitSigs ← commit_sigs maj23 (vs_votes s);
           AggregateSignatures (NewCommit (vs_height s) (vs_round s) maj23 commitSigs)
       end.

(** The result of [AddVote] unless it was not added without error. *)
Definition must_add {E} (r : outcome E add_result) : outcome E VoteSet :=
  '(added, err, s) ← r;
  if negb added || bool_decide (err <> None) then Panic else Ok s.

Fixpoint to_vote_set {E} (chainID : bytes) (commit : Commit) (voters : VoterSet) (sigs : list CommitSig) (i : Z)
    (voteSet : VoteSet) (blsPubKeys msgs : list bytes) : outcome E (VoteSet * list bytes * list bytes) :=
  match sigs with
  | [] => Ok (voteSet, blsPubKeys, msgs)
  | commitSig :: rest =>
      if Absent commitSig then to_vote_set chainID commit voters rest (i + 1) voteSet blsPubKeys msgs
      else
        vote ← GetVote commit (wrap32 i);
        match v_Signature vote with
        | Some _ =>
            voteSet ← must_add (AddVote voteSet (Some vote));
            to_vote_set chainID commit voters rest (i + 1) voteSet blsPubKeys msgs
        | None =>
            voteSet ← must_add (AddAggregatedVote voteSet (Some vote));
            match Voters_GetByIndex voters (v_ValidatorIndex vote) with
            | None => Panic
            | Some (_, voter) =>
                msg ← VoteSignBytes chainID vote;
                match vPubKey voter ≫= GetSignatureKey with
                | None => Panic
                | Some blsPubKey =>
                    to_vote_set chainID commit voters rest (i + 1) voteSet (blsPubKeys ++ [blsPubKey]) (msgs ++ [msg])
                end
            end
        end
  end.

Definition CommitToVoteSet {E} (chainID : bytes) (commit : Commit) (voters : VoterSet) : outcome E VoteSet :=
  voteSet ← NewVoteSet chainID (c_Height commit) (c_Round commit) PrecommitType voters;
  '(voteSet, blsPubKeys, msgs) ← to_vote_set chainID commit voters (c_Signatures commit) 0 voteSet [] [];
  match c_AggregatedSignature commit with
  | None => Ok voteSet
  | Some _ =>
      match VerifyAggregatedSignature (c_AggregatedSignature commit) blsPubKeys msgs with
      | Ok _ => Ok voteSet
      | _ => Panic
      end
  end.

End crypto.
