(* ===== verification/VoteSetInv.v ===== *)
(** * The invariant of a vote set

    What every [VoteSet] of [VoteSet] satisfies, whatever votes and claims of
    peers it is given, and what follows for the majority it reports, for the
    memory it takes and for the commit it makes. *)

From Stdlib Require Import ZArith Lia.
From stdpp Require Import prelude list gmap.
From S2P Require Import Prelude BitArray Proto Crypto SafeMath Validator ValidatorSet ValidatorLists ValidatorSetPriority Block VoterSet VerifyCommit Slots VoteSet.

Local Open Scope Z_scope.

(** ** Weights and bits of a list of votes *)

(** The weight of the voters that have a vote in the list. *)
Definition voted (vs : list Validator) (votes : list (option Vote)) : Z :=
  Zsum (zip_with (fun v o => if has o then VotingWeight v else 0) vs votes).

Lemma voted_range vs votes : Forall (fun v => 0 <= VotingWeight v) vs -> 0 <= voted vs votes <= Zsum (weights vs).
Proof.
  revert votes. induction vs as [|v vs IH]; intros [|o votes] Hp; try done.
  - change (voted (v :: vs) []) with 0. split; [lia|]. by apply Zsum_nonneg, Forall_fmap.
  - apply Forall_cons in Hp as [Hv Hp]. specialize (IH votes Hp). rewrite fmap_cons. cbn [Zsum].
    change (voted (v :: vs) (o :: votes)) with ((if has o then VotingWeight v else 0) + voted vs votes).
    destruct (has o); lia.
Qed.

Lemma voted_insert vs votes i w o v :
  vs !! i = Some w -> votes !! i = Some o ->
  voted vs (<[i := Some v]> votes) = voted vs votes + (if has o then 0 else VotingWeight w).
Proof.
  revert votes i. induction vs as [|v' vs IH]; intros [|o' votes] [|i] Hv Ho; try done.
  - injection Hv as ->. injection Ho as ->.
    change (voted (w :: vs) (Some v :: votes) = voted (w :: vs) (o :: votes) + (if has o then 0 else VotingWeight w)).
    unfold voted. cbn [zip_with Zsum]. change (has (Some v)) with true. destruct (has o); cbn [Zsum]; lia.
  - specialize (IH votes i Hv Ho).
    change ((if has o' then VotingWeight v' else 0) + voted vs (<[i := Some v]> votes) =
            (if has o' then VotingWeight v' else 0) + voted vs votes + (if has o then 0 else VotingWeight w)).
    rewrite IH. lia.
Qed.

Lemma voted_none vs n : voted vs (replicate n None) = 0.
Proof.
  revert n. induction vs as [|v vs IH]; intros [|n]; try done.
  change (voted (v :: vs) (replicate (S n) None)) with (0 + voted vs (replicate n None)). rewrite IH. done.
Qed.

Lemma voted_ext vs l1 l2 :
  length l1 = length l2 ->
  (forall i o1 o2, l1 !! i = Some o1 -> l2 !! i = Some o2 -> has o1 = has o2) -> voted vs l1 = voted vs l2.
Proof.
  revert l1 l2. induction vs as [|v vs IH]; intros [|o1 l1] [|o2 l2] Hl Hext; try done. injection Hl as Hl.
  unfold voted in *. cbn [zip_with Zsum]. rewrite (Hext 0%nat o1 o2 eq_refl eq_refl). f_equal. apply IH; [done|].
  intros i. apply (Hext (S i)).
Qed.

Lemma voted_mono vs l1 l2 :
  Forall (fun v => 0 <= VotingWeight v) vs -> length l1 = length l2 ->
  (forall (i : nat) v, l1 !! i = Some (Some v) -> exists u, l2 !! i = Some (Some u)) -> voted vs l1 <= voted vs l2.
Proof.
  revert l1 l2. induction vs as [|w vs IH]; intros [|o1 l1] [|o2 l2] Hp Hl Hs; try done. injection Hl as Hl.
  apply Forall_cons in Hp as [Hw Hp]. specialize (IH l1 l2 Hp Hl (fun i => Hs (S i))). unfold voted in *.
  cbn [zip_with Zsum]. destruct o1 as [v|]; [|cbn; destruct (has o2); lia].
  destruct (Hs 0%nat v eq_refl) as [u [= ->]]. cbn. lia.
Qed.

Lemma voted_nobody vs l : (forall (i : nat) v, l !! i <> Some (Some v)) -> voted vs l = 0.
Proof.
  revert l. induction vs as [|w vs IH]; intros [|o l] Hn; try done. unfold voted in *. cbn [zip_with Zsum].
  rewrite (IH l (fun i => Hn (S i))). destruct o as [v|]; [by destruct (Hn 0%nat v)|done].
Qed.

(** ** The invariant

    [P] is what is known of the votes that were let in. *)

Section invariant.
  Context (P : bytes -> PubKey -> Vote -> Prop).

  #[local] Abbreviation voters s := (Voters (vs_voterSet s)).

(** [v] is a vote of the voter at position [i], for the step of the set. *)
Definition cast (s : VoteSet) (i : nat) (v : Vote) : Prop :=
  v_ValidatorIndex v = Z.of_nat i /\ v_Height v = vs_height s /\ v_Round v = vs_round s /\
  v_Type v = vs_signedMsgType s /\
  exists w pk, voters s !! i = Some w /\ v_ValidatorAddress v = Address w /\ vPubKey w = Some pk /\
    P (vs_chainID s) pk v.

(** Strictly more than two thirds of the weight. *)
Definition majority (s : VoteSet) (w : Z) : Prop := 2 * Zsum (weights (voters s)) < 3 * w.

Record block_inv (s : VoteSet) (key : bytes) (bv : blockVotes) : Prop := {
  bi_len : length (bv_votes bv) = length (voters s);
  bi_bits : bits_of (bv_bitArray bv) (bv_votes bv);
  bi_sum : bv_sum bv = voted (voters s) (bv_votes bv);
  bi_cast : forall (i : nat) v, bv_votes bv !! i = Some (Some v) -> cast s i v /\ BlockID_Key (v_BlockID v) = key;
  bi_primary : forall (i : nat) v, bv_votes bv !! i = Some (Some v) -> exists u, vs_votes s !! i = Some (Some u)
}.

Definition maj_inv (s : VoteSet) : Prop :=
  match vs_maj23 s with
  | None => forall key bv, vs_votesByBlock s !! key = Some bv -> ~ majority s (bv_sum bv)
  | Some b =>
      exists bv, vs_votesByBlock s !! BlockID_Key b = Some bv /\ majority s (bv_sum bv) /\
        (forall (i : nat) v, bv_votes bv !! i = Some (Some v) -> vs_votes s !! i = Some (Some v)) /\
        exists (i : nat) v, bv_votes bv !! i = Some (Some v) /\ v_BlockID v = b
  end.

Record vs_base (s : VoteSet) : Prop := {
  vi_wf : voters_wf (vs_voterSet s);
  vi_len : length (vs_votes s) = length (voters s);
  vi_bits : bits_of (vs_votesBitArray s) (vs_votes s);
  vi_sum : vs_sum s = voted (voters s) (vs_votes s);
  vi_cast : forall (i : nat) v, vs_votes s !! i = Some (Some v) ->
    cast s i v /\ is_Some (vs_votesByBlock s !! BlockID_Key (v_BlockID v));
  vi_block : forall key bv, vs_votesByBlock s !! key = Some bv -> block_inv s key bv;
  vi_memory : (size (vs_votesByBlock s) <= vote_count (vs_votes s) + size (vs_peerMaj23s s))%nat
}.

Definition vs_inv (s : VoteSet) : Prop := vs_base s /\ maj_inv s.

(** The parts of a set that no operation changes. *)
Record same_step (s s' : VoteSet) : Prop := {
  ss_chain : vs_chainID s' = vs_chainID s;
  ss_height : vs_height s' = vs_height s;
  ss_round : vs_round s' = vs_round s;
  ss_type : vs_signedMsgType s' = vs_signedMsgType s;
  ss_voters : voters s' = voters s
}.

#[global] Instance same_step_po : PreOrder same_step.
Proof. split; [done|]. intros s1 s2 s3 [] []. constructor; congruence. Qed.

Lemma cast_step s s' i v : same_step s s' -> cast s i v -> cast s' i v.
Proof. intros [H1 H2 H3 H4 H5]. unfold cast. by rewrite H1, H2, H3, H4, H5. Qed.

Lemma majority_step s s' w : same_step s s' -> majority s' w <-> majority s w.
Proof. intros Hss. unfold majority. by rewrite (ss_voters _ _ Hss). Qed.

(** The set after the first part, the parts of the invariant it keeps. *)
Lemma block_inv_step s s' key bv :
  same_step s s' -> (forall (i : nat) u, vs_votes s !! i = Some (Some u) -> exists u', vs_votes s' !! i = Some (Some u')) ->
  block_inv s key bv -> block_inv s' key bv.
Proof.
  intros Hss Hv [H1 H2 H3 H4 H5]. constructor; [by rewrite (ss_voters _ _ Hss)|done|by rewrite (ss_voters _ _ Hss)|..].
  - intros i v Hi. destruct (H4 i v Hi). split; [by eapply cast_step|done].
  - intros i v Hi. destruct (H5 i v Hi) as [u Hu]. by eapply Hv.
Qed.

Lemma new_set_inv {E} chainID height round typ vs s :
  voters_wf vs -> NewVoteSet (E:=E) chainID height round typ vs = Ok s -> vs_inv s /\ vs_maj23 s = None.
Proof.
  intros Hwf. unfold NewVoteSet. destruct (height =? 0); [done|]. intros [= <-]. split; [|done].
  split; [|done]. constructor; cbn.
  - done.
  - apply length_replicate.
  - apply bits_of_new.
  - by rewrite voted_none.
  - intros i v [? _]%lookup_replicate. done.
  - done.
  - rewrite map_size_empty. lia.
Qed.

Lemma newBlockVotes_inv s key b : block_inv s key (newBlockVotes b (Voters_Size (vs_voterSet s))).
Proof.
  unfold newBlockVotes, Voters_Size, lenZ. rewrite Nat2Z.id. constructor; cbn.
  - apply length_replicate.
  - apply bits_of_new.
  - by rewrite voted_none.
  - by intros i v [? _]%lookup_replicate.
  - by intros i v [? _]%lookup_replicate.
Qed.

(** ** Adding a vote to the votes of its block *)

Lemma copy_votes_lookup from to i :
  length from = length to ->
  copy_votes from to !! i = match from !! i with Some (Some v) => Some (Some v) | _ => to !! i end.
Proof.
  intros Hl. unfold copy_votes. rewrite Hl, drop_all, app_nil_r.
  revert to i Hl. induction from as [|f from IH]; intros [|t to] [|i] Hl; try done; [by destruct f|].
  injection Hl as Hl. by apply (IH to i).
Qed.

Lemma copy_votes_length from to : length from = length to -> length (copy_votes from to) = length to.
Proof. intros Hl. unfold copy_votes. rewrite Hl, drop_all, app_nil_r, length_zip_with. lia. Qed.

Lemma block_add {E} s key bv vote i w :
  voters_wf (vs_voterSet s) -> block_inv s key bv -> cast s i vote -> BlockID_Key (v_BlockID vote) = key ->
  voters s !! i = Some w -> bv_votes bv !! i = Some None -> (exists u, vs_votes s !! i = Some (Some u)) ->
  exists bv', blockVotes_addVerifiedVote (E:=E) bv vote (VotingWeight w) = Ok bv' /\ block_inv s key bv' /\
    bv_votes bv' = <[i := Some vote]> (bv_votes bv).
Proof.
  intros Hwf [H1 H2 H3 H4 H5] Hc Hk Hw Hi Hu. unfold blockVotes_addVerifiedVote.
  destruct Hc as [Hidx Hc']. rewrite Hidx. rewrite idx_nat, Hi. cbn [mbind outcome_bind].
  destruct (bits_of_set (E:=E) _ _ i None vote H2 Hi) as (r & b' & Hs & Hb'). rewrite Hs. cbn [mbind outcome_bind].
  assert (Hupd : upd (E:=E) (bv_votes bv) (Z.of_nat i) (Some vote) = Ok (<[i := Some vote]> (bv_votes bv))).
  { apply upd_Ok. rewrite Nat2Z.id. split; [|done]. apply lookup_lt_Some in Hi. unfold lenZ. lia. }
  rewrite Hupd. cbn [mbind outcome_bind]. eexists. split; [done|]. split; [|done].
  pose proof (voted_insert (voters s) (bv_votes bv) i w None vote Hw Hi) as Hv. cbn in Hv.
  pose proof (voted_range (voters s) (<[i := Some vote]> (bv_votes bv)) (vwf_weight _ Hwf)) as Hr.
  pose proof (vwf_sum _ Hwf) as Hm. rewrite MaxWeight_val in Hm.
  assert (Hlk : forall (j : nat) v, <[i := Some vote]> (bv_votes bv) !! j = Some (Some v) ->
    (j = i /\ v = vote) \/ bv_votes bv !! j = Some (Some v)).
  { intros j v [(-> & ? & _)|[_ Hj]]%list_lookup_insert_Some; [left; split; congruence|by right]. }
  constructor; cbn.
  - by rewrite length_insert.
  - done.
  - rewrite H3, wrap64_id; [lia|]. unfold_ints. lia.
  - intros j v [[-> ->]|Hj]%Hlk; [by split|by apply H4].
  - intros j v [[-> ->]|Hj]%Hlk; [done|by eapply H5].
Qed.

Lemma quorum_majority s w :
  voters_wf (vs_voterSet s) ->
  (wrap64 (wrap64 (wrap64 (Zsum (weights (voters s)) * 2) ÷ 3) + 1) <=? w) = true <-> majority s w.
Proof.
  intros Hwf. pose proof (weights_nonneg _ Hwf) as H1. pose proof (vwf_sum _ Hwf) as H2.
  rewrite Z.leb_le. unfold majority. rewrite <- (two_thirds _ w (conj H1 H2)).
  rewrite MaxWeight_val in H2. rewrite (wrap64_id (_ * 2)) by (unfold_ints; lia).
  rewrite Z.quot_div_nonneg by lia. pose proof (Z.div_mod (Zsum (weights (voters s)) * 2) 3 ltac:(lia)).
  pose proof (Z.mod_pos_bound (Zsum (weights (voters s)) * 2) 3 ltac:(lia)).
  rewrite !(wrap64_id (_ / 3)) by (unfold_ints; lia). rewrite wrap64_id by (unfold_ints; lia). lia.
Qed.

(** Replacing the votes of a block by more of them. *)
Lemma set_block_base s key bv bv' :
  vs_base s -> vs_votesByBlock s !! key = Some bv -> block_inv s key bv' ->
  vs_base (set_votesByBlock s (<[key := bv']> (vs_votesByBlock s))).
Proof.
  intros [I1 I2 I3 I4 I5 I6 I8] Hk Hbv. constructor; try done; cbn.
  - intros i v Hi. destruct (I5 i v Hi) as [Hc Hs]. split; [done|]. apply lookup_insert_is_Some'. by right.
  - intros key' bv0 [[<- <-]|[_ H0]]%lookup_insert_Some.
    + apply (block_inv_step s); [done|by eauto|done].
    + apply (block_inv_step s); [done|by eauto|by apply I6].
  - rewrite map_size_insert_Some by (by eexists). done.
Qed.

(** The majority found: the votes of the block are copied over. *)
Lemma set_maj_inv s key bv b :
  vs_base s -> vs_votesByBlock s !! key = Some bv -> BlockID_Key b = key -> majority s (bv_sum bv) ->
  (exists (i : nat) v, bv_votes bv !! i = Some (Some v) /\ v_BlockID v = b) ->
  vs_inv (set_maj23 s b (copy_votes (bv_votes bv) (vs_votes s))).
Proof.
  intros [I1 I2 I3 I4 I5 I6 I8] Hk Hb Hm Hex. destruct (I6 key bv Hk) as [B1 B2 B3 B4 B5].
  assert (Hl : length (bv_votes bv) = length (vs_votes s)) by congruence.
  assert (Hhas : forall i o1 o2, vs_votes s !! i = Some o1 ->
    copy_votes (bv_votes bv) (vs_votes s) !! i = Some o2 -> has o1 = has o2).
  { intros i o1 o2 H1. rewrite copy_votes_lookup by done.
    destruct (bv_votes bv !! i) as [[v|]|] eqn:Ei; [|congruence..].
    intros [= <-]. destruct (B5 i v Ei) as [u Hu]. rewrite Hu in H1. by injection H1 as <-. }
  assert (Hlen := copy_votes_length _ _ Hl).
  assert (Hcount := vote_count_ext _ _ (eq_sym Hlen) Hhas).
  split; [constructor; try done; cbn [set_maj23 vs_votes vs_sum vs_voterSet vs_votesBitArray vs_votesByBlock vs_peerMaj23s]|].
  - congruence.
  - eapply bits_of_ext; [exact I3|done|done].
  - rewrite I4. by apply voted_ext.
  - intros i v. rewrite copy_votes_lookup by done.
    destruct (bv_votes bv !! i) as [[v'|]|] eqn:Ei; [|by apply I5..].
    intros [= <-]. destruct (B4 i v' Ei) as [Hc Hk']. split; [done|]. rewrite Hk'. by eexists.
  - intros key' bv' Hk'. apply (block_inv_step s); [done| |by apply I6]. cbn. intros i u Hu.
    rewrite copy_votes_lookup by done. destruct (bv_votes bv !! i) as [[v'|]|]; by eauto.
  - by rewrite <- Hcount.
  - exists bv. cbn. rewrite Hb. split_and!; try done. intros i v Hi. by rewrite copy_votes_lookup, Hi.
Qed.

Lemma voterSet_base s : vs_base s -> vs_base (set_voterSet s (vfilled (vs_voterSet s))).
Proof.
  intros [I1 I2 I3 I4 I5 I6 I8]. constructor; try done; cbn.
  - destruct I1. constructor; try done. by right.
  - intros key bv Hk. apply (block_inv_step s); [done|by eauto|by apply I6].
Qed.

(** A majority stays one when its block gets another vote. *)
Lemma maj_inv_more s b key bv bv' i vote :
  vs_maj23 s = Some b -> maj_inv s -> vs_votesByBlock s !! key = Some bv -> bv_votes bv !! i = Some None ->
  bv_votes bv' = <[i := Some vote]> (bv_votes bv) -> (majority s (bv_sum bv) -> majority s (bv_sum bv')) ->
  (BlockID_Key b = key -> vs_votes s !! i = Some (Some vote)) ->
  maj_inv (set_votesByBlock s (<[key := bv']> (vs_votesByBlock s))).
Proof.
  intros Em Hmi Hk Hi Hvotes Hmaj Hu. unfold maj_inv in *. cbn. rewrite Em in *.
  destruct Hmi as (bvm & Hbm & Hm & Hcp & Hex). destruct (decide (BlockID_Key b = key)) as [<-|Hne].
  - rewrite Hbm in Hk. injection Hk as ->. exists bv'. rewrite lookup_insert_eq. split_and!; [done|by apply Hmaj| |].
    + intros j v. rewrite Hvotes. intros [(-> & Heq & _)|[_ Hj]]%list_lookup_insert_Some; [|by apply Hcp].
      rewrite <- Heq. by apply Hu.
    + destruct Hex as (j & v & Hj & Hv). exists j, v. rewrite Hvotes, list_lookup_insert_ne; [done|].
      intros ->. congruence.
  - exists bvm. by rewrite lookup_insert_ne.
Qed.

(** The vote is among those of its block. *)
Definition recorded (s : VoteSet) (i : nat) (vote : Vote) : Prop :=
  exists bv, vs_votesByBlock s !! BlockID_Key (v_BlockID vote) = Some bv /\ bv_votes bv !! i = Some (Some vote).

Lemma add_to_block_inv {E} s key bv vote i w :
  vs_inv s -> vs_votesByBlock s !! key = Some bv -> bv_votes bv !! i = Some None -> cast s i vote ->
  BlockID_Key (v_BlockID vote) = key -> voters s !! i = Some w ->
  (exists u, vs_votes s !! i = Some (Some u)) ->
  (forall b, vs_maj23 s = Some b -> BlockID_Key b = key -> vs_votes s !! i = Some (Some vote)) ->
  exists s', add_to_block (E:=E) s bv vote key (VotingWeight w) = Ok s' /\ vs_inv s' /\ same_step s s' /\
    vs_peerMaj23s s' = vs_peerMaj23s s /\ (forall b, vs_maj23 s = Some b -> vs_maj23 s' = Some b) /\
    recorded s' i vote /\ (forall j v, recorded s j v -> recorded s' j v) /\
    (vs_maj23 s' = None -> vs_votes s' = vs_votes s).
Proof.
  intros [Hbase Hmi] Hk Hi Hc Hkey Hw Hu Hmu. pose proof (vi_wf _ Hbase) as Hwf.
  unfold add_to_block. rewrite TotalVotingWeight_spec by done. cbn [mbind outcome_bind].
  destruct (block_add (E:=E) s key bv vote i w) as (bv' & Hadd & Hbv' & Hvotes); try done.
  { by apply (vi_block _ Hbase). }
  rewrite Hadd. cbn [mbind outcome_bind set_voterSet vs_votesByBlock].
  set (s1 := set_voterSet s (vfilled (vs_voterSet s))).
  assert (Hbv1 : block_inv s1 key bv') by (apply (block_inv_step s); [done|by eauto|done]).
  pose proof (set_block_base s1 key bv bv' (voterSet_base _ Hbase) Hk Hbv1) as Hbase2.
  set (s2 := set_votesByBlock s1 (<[key := bv']> (vs_votesByBlock s))).
  assert (Hrec : forall s', vs_votesByBlock s' = <[key := bv']> (vs_votesByBlock s) -> recorded s' i vote).
  { intros s' Hs'. exists bv'. rewrite Hs', Hkey, lookup_insert_eq. split; [done|].
    rewrite Hvotes, list_lookup_insert_eq; [done|by eapply lookup_lt_Some]. }
  assert (Hmono : forall s', vs_votesByBlock s' = <[key := bv']> (vs_votesByBlock s) ->
    forall j v, recorded s j v -> recorded s' j v).
  { intros s' Hs' j v (bvj & Hj & Hv). unfold recorded. rewrite Hs'.
    destruct (decide (BlockID_Key (v_BlockID v) = key)) as [Heq|Hne]; [|exists bvj; by rewrite lookup_insert_ne].
    rewrite Heq in *.
    rewrite Hj in Hk. injection Hk as ->. exists bv'. rewrite lookup_insert_eq, Hvotes. split; [done|].
    rewrite list_lookup_insert_ne; [done|]. intros ->. congruence. }
  assert (Hmaj : majority s (bv_sum bv) -> majority s (bv_sum bv')).
  { rewrite (bi_sum _ _ _ (vi_block _ Hbase key bv Hk)), (bi_sum _ _ _ Hbv'), Hvotes, (voted_insert _ _ i w None vote Hw Hi).
    cbn. unfold majority.
    assert (0 <= VotingWeight w) by (eapply (Forall_lookup_1 _ _ _ _ (vwf_weight _ Hwf)); exact Hw). lia. }
  change (vs_maj23 s2) with (vs_maj23 s). destruct (vs_maj23 s) as [b|] eqn:Em.
  - exists s2. split; [by destruct (_ && _)|]. split_and!; [|done..|cbn; by rewrite Em|by apply Hrec|by apply Hmono|done].
    split; [done|]. eapply (maj_inv_more s1 b key bv bv' i vote); try done. by apply Hmu.
  - unfold maj_inv in Hmi. rewrite Em in Hmi. pose proof (quorum_majority s (bv_sum bv) Hwf) as Hq.
    pose proof (quorum_majority s (bv_sum bv') Hwf) as Hq'.
    set (q := wrap64 (wrap64 (wrap64 (Zsum (weights (voters s)) * 2) ÷ 3) + 1)) in *.
    assert (Ho : (bv_sum bv <? q) = true).
    { apply Z.ltb_lt. destruct (Z.le_gt_cases q (bv_sum bv)) as [Hle|]; [|done].
      exfalso. eapply Hmi; [exact Hk|]. by apply Hq, Z.leb_le. }
    rewrite Ho. cbn [andb]. destruct (q <=? bv_sum bv') eqn:En.
    + eexists. split; [done|]. split_and!; [|done..|by apply Hrec|by apply Hmono|done]. eapply set_maj_inv; [done|cbn; apply lookup_insert_eq|done|by apply Hq'|].
      exists i, vote. rewrite Hvotes, list_lookup_insert_eq; [done|by eapply lookup_lt_Some].
    + exists s2. split_and!; try done; [|by apply Hrec|by apply Hmono]. split; [done|]. unfold maj_inv. cbn. rewrite Em.
      intros key' bv0 [[<- <-]|[_ H0]]%lookup_insert_Some; [|by eapply Hmi].
      intros Hm. apply Hq' in Hm. congruence.
Qed.

(** ** Adding a vote to the primary votes *)

(** The primary vote at [i] set; [m] is the tracked blocks with the vote's. *)
Lemma set_primary_base s i o vote w b' m :
  vs_base s -> vs_votes s !! i = Some o -> cast s i vote -> voters s !! i = Some w ->
  bits_of b' (<[i := Some vote]> (vs_votes s)) ->
  vs_votesByBlock s ⊆ m -> is_Some (m !! BlockID_Key (v_BlockID vote)) ->
  (forall k bv, m !! k = Some bv -> block_inv s k bv) ->
  (size m <= size (vs_votesByBlock s) + if has o then 0 else 1)%nat ->
  vs_base (set_votesByBlock
    (set_votes s b' (<[i := Some vote]> (vs_votes s)) (if has o then vs_sum s else wrap64 (vs_sum s + VotingWeight w))) m).
Proof.
  intros [I1 I2 I3 I4 I5 I6 I8] Ho Hc Hw Hb Hsub Hin Hm Hsz.
  assert (Hlt : (i < length (vs_votes s))%nat) by (by eapply lookup_lt_Some).
  constructor; try done;
    cbn [set_votesByBlock set_votes vs_votes vs_sum vs_voterSet vs_votesBitArray vs_votesByBlock vs_peerMaj23s].
  - by rewrite length_insert.
  - rewrite (voted_insert _ _ i w o vote Hw Ho), I4. destruct (has o) eqn:Eo; [lia|].
    pose proof (voted_range (voters s) (<[i := Some vote]> (vs_votes s)) (vwf_weight _ I1)) as Hr.
    rewrite (voted_insert _ _ i w o vote Hw Ho), Eo in Hr.
    pose proof (vwf_sum _ I1) as Hmx. rewrite MaxWeight_val in Hmx. rewrite wrap64_id; [done|unfold_ints; lia].
  - intros j v [(-> & Heq & _)|[_ Hj]]%list_lookup_insert_Some; [injection Heq as <-; by split|].
    destruct (I5 j v Hj) as [Hcj [bv Hbv]]. split; [done|]. exists bv. by eapply lookup_weaken.
  - intros k bv Hk. apply (block_inv_step s); [done| |by apply Hm]. intros j u Hj.
    cbn [set_votesByBlock set_votes vs_votes]. destruct (decide (i = j)) as [<-|Hne].
    + exists vote. by apply list_lookup_insert_eq.
    + rewrite list_lookup_insert_ne by done. by eauto.
  - rewrite (vote_count_insert _ _ o) by done. destruct (has o); lia.
Qed.

(** No vote of [i] for the block [key] is known. *)
Definition unseen (s : VoteSet) (i : nat) (key : bytes) : Prop :=
  (forall e, vs_votes s !! i = Some (Some e) -> BlockID_Key (v_BlockID e) <> key) /\
  (forall bv, vs_votesByBlock s !! key = Some bv -> bv_votes bv !! i = Some None).

Lemma getVote_spec {E} s (i : nat) key :
  vs_base s -> (i < length (voters s))%nat ->
  exists r, getVote (E:=E) s (Z.of_nat i) key = Ok r /\ (r = None -> unseen s i key).
Proof.
  intros [I1 I2 I3 I4 I5 I6 I8] Hlt. unfold getVote, unseen. rewrite idx_nat. rewrite <- I2 in Hlt.
  destruct (lookup_lt_is_Some_2 _ _ Hlt) as [o Ho]. rewrite Ho. cbn [mbind outcome_bind].
  assert (Hb : exists r, blockVotes_getByIndex (E:=E) (vs_votesByBlock s !! key) (Z.of_nat i) = Ok r /\
    (r = None -> forall bv, vs_votesByBlock s !! key = Some bv -> bv_votes bv !! i = Some None)).
  { destruct (vs_votesByBlock s !! key) as [bv|] eqn:Ek; cbn; [|by exists None].
    rewrite idx_nat. destruct (lookup_lt_is_Some_2 (bv_votes bv) i) as [r Hr].
    { rewrite (bi_len _ _ _ (I6 _ _ Ek)). lia. }
    rewrite Hr. exists r. split; [done|]. by intros -> bv' [= <-]. }
  destruct Hb as (r & Hr & Hn). destruct o as [e|].
  - unfold bytes_eqb. case_bool_decide as Hk; [by exists (Some e)|]. exists r. split; [done|].
    intros ->. split; [|by apply Hn]. by intros e' [= <-].
  - exists r. split; [done|]. intros ->. split; [done|by apply Hn].
Qed.

(** A voter's first vote: the set with the vote and its block tracked. *)
Lemma first_vote_inv s i vote w b' bv :
  vs_inv s -> vs_votes s !! i = Some None -> cast s i vote -> voters s !! i = Some w ->
  bits_of b' (<[i := Some vote]> (vs_votes s)) ->
  let key := BlockID_Key (v_BlockID vote) in
  vs_votesByBlock s !! key = Some bv \/
    vs_votesByBlock s !! key = None /\ bv = newBlockVotes false (Voters_Size (vs_voterSet s)) ->
  vs_inv (set_votesByBlock
    (set_votes s b' (<[i := Some vote]> (vs_votes s)) (wrap64 (vs_sum s + VotingWeight w)))
    (<[key := bv]> (vs_votesByBlock s))).
Proof.
  intros [Hbase Hmi] Ho Hc Hw Hb key Hbv.
  assert (Hsub : vs_votesByBlock s ⊆ <[key := bv]> (vs_votesByBlock s)).
  { destruct Hbv as [Hk|[Hk _]]; [by rewrite insert_id|by apply insert_subseteq]. }
  assert (Hbvi : block_inv s key bv).
  { destruct Hbv as [Hk|[_ ->]]; [by apply (vi_block _ Hbase)|apply newBlockVotes_inv]. }
  split.
  - apply (set_primary_base s i None vote w b' (<[key := bv]> (vs_votesByBlock s))); try done.
    + rewrite lookup_insert_eq. by eexists.
    + intros k bv0 [[<- <-]|[_ H0]]%lookup_insert_Some; [done|by apply (vi_block _ Hbase)].
    + rewrite map_size_insert. cbn [has]. change (has None) with false.
      destruct (vs_votesByBlock s !! key); unfold id; lia.
  - unfold maj_inv in *. cbn [set_votesByBlock set_votes vs_maj23 vs_votesByBlock vs_votes].
    destruct (vs_maj23 s) as [b|].
    + destruct Hmi as (bvm & Hbm & Hm & Hcp & Hex). exists bvm. split_and!; [by eapply lookup_weaken|done| |done].
      intros j v Hj. specialize (Hcp j v Hj). rewrite list_lookup_insert_ne; [done|]. intros ->. congruence.
    + intros k bv0 [[<- <-]|[_ H0]]%lookup_insert_Some; [|by eapply Hmi].
      destruct Hbv as [Hk|[_ ->]]; [by eapply Hmi|]. cbn. unfold majority. cbn.
      pose proof (weights_nonneg _ (vi_wf _ Hbase)). lia.
Qed.

(** A conflicting vote for the majority takes the place of the other. *)
Lemma replace_vote_inv s i e vote w b' b :
  vs_inv s -> vs_maj23 s = Some b -> BlockID_Key b = BlockID_Key (v_BlockID vote) ->
  vs_votes s !! i = Some (Some e) -> cast s i vote -> voters s !! i = Some w ->
  unseen s i (BlockID_Key (v_BlockID vote)) -> bits_of b' (<[i := Some vote]> (vs_votes s)) ->
  vs_inv (set_votes s b' (<[i := Some vote]> (vs_votes s)) (vs_sum s)).
Proof.
  intros [Hbase Hmi] Em Hk He Hc Hw [_ Hun] Hb. unfold maj_inv in Hmi. rewrite Em in Hmi.
  destruct Hmi as (bvm & Hbm & Hm & Hcp & Hex). rewrite Hk in Hbm.
  split.
  - apply (set_primary_base s i (Some e) vote w b' (vs_votesByBlock s)); try done.
    + apply Hbase.
    + cbn. lia.
  - unfold maj_inv. cbn [set_votes vs_maj23 vs_votesByBlock vs_votes]. rewrite Em. exists bvm. rewrite Hk.
    split_and!; [done|done| |done]. intros j v Hj. rewrite list_lookup_insert_ne; [by apply Hcp|].
    intros ->. specialize (Hun _ Hbm). congruence.
Qed.

(** ** [addVote] *)

(** What one call leaves of a set: the step, a majority already found. *)
Record kept (s s' : VoteSet) : Prop := {
  kp_inv : vs_inv s';
  kp_step : same_step s s';
  kp_peers : vs_peerMaj23s s' = vs_peerMaj23s s;
  kp_maj : forall b, vs_maj23 s = Some b -> vs_maj23 s' = Some b;
  kp_rec : forall j v, recorded s j v -> recorded s' j v;
  kp_votes : vs_maj23 s' = None -> forall (j : nat) v,
    vs_votes s' !! j = Some (Some v) -> vs_votes s !! j = Some (Some v) \/ recorded s' j v
}.

Lemma kept_refl s : vs_inv s -> kept s s.
Proof. constructor; auto. done. Qed.

Lemma add_to_block_set {E} s m key bv vote p :
  m = <[key := bv]> (vs_votesByBlock s) ->
  add_to_block (E:=E) (set_votesByBlock s m) bv vote key p = add_to_block s bv vote key p.
Proof.
  intros ->. unfold add_to_block. destruct (TotalVotingWeight (vs_voterSet s)) as [[t vs]| |] eqn:Et;
    cbn [set_votesByBlock vs_voterSet]; rewrite Et; [|done..]. cbn [mbind outcome_bind].
  destruct (blockVotes_addVerifiedVote bv vote p) as [bv'| |]; [|done..]. cbn [mbind outcome_bind].
  unfold set_voterSet, set_votesByBlock. cbn. by rewrite insert_insert_eq.
Qed.

Lemma kept_trans s1 s2 s3 : kept s1 s2 -> kept s2 s3 -> kept s1 s3.
Proof.
  intros [A1 A2 A3 A4 A5 A6] [B1 B2 B3 B4 B5 B6]. constructor; [done|by etrans|congruence|auto|auto|].
  intros Hn j v Hj. destruct (B6 Hn j v Hj) as [Hj2|]; [|by right].
  destruct (A6 ltac:(destruct (vs_maj23 s2) as [b|] eqn:Eb; [by specialize (B4 b eq_refl); congruence|done]) j v Hj2); auto.
Qed.

(** The second part for a vote that conflicts with [e]. *)
Lemma track_conflict {E} s i e u vote w :
  let key := BlockID_Key (v_BlockID vote) in
  vs_inv s -> cast s i vote -> voters s !! i = Some w -> vs_votes s !! i = Some (Some u) ->
  (forall b, vs_maj23 s = Some b -> BlockID_Key b = key -> u = vote) ->
  (forall bv, vs_votesByBlock s !! key = Some bv -> bv_votes bv !! i = Some None) ->
  exists added s',
    track_vote (E:=E) s (Some e) vote key (VotingWeight w) = Ok (added, Some e, s') /\ kept s s' /\
    (added = true -> recorded s' i vote).
Proof.
  intros key Hinv Hc Hw Hu Hmu Hun. unfold track_vote. rewrite (bool_decide_eq_true_2 (Some e <> None)) by done. cbn [andb].
  destruct (vs_votesByBlock s !! key) as [bv|] eqn:Ek; [|exists false, s; by split_and!; [|apply kept_refl|]].
  destruct (bv_peerMaj23 bv); cbn [negb]; [|exists false, s; by split_and!; [|apply kept_refl|]].
  destruct (add_to_block_inv (E:=E) s key bv vote i w) as (s' & Hadd & Hinv' & Hss & Hp & Hm & Hrec & Hmono & Hvs);
    try done; [by apply Hun|by eexists| |].
  { intros b Hb Hk. by rewrite Hu, (Hmu b Hb Hk). }
  exists true, s'. rewrite Hadd. split_and!; [done| |done]. constructor; try done.
  intros Hn j v. rewrite (Hvs Hn). by left.
Qed.

Lemma addVerifiedVote_inv {E} s i vote w :
  vs_inv s -> cast s i vote -> voters s !! i = Some w -> unseen s i (BlockID_Key (v_BlockID vote)) ->
  exists added confl s',
    addVerifiedVote (E:=E) s vote (BlockID_Key (v_BlockID vote)) (VotingWeight w) = Ok (added, confl, s') /\
    kept s s' /\ vs_votes s !! i = Some confl /\ (confl = None -> added = true) /\
    (added = true -> recorded s' i vote).
Proof.
  intros Hinv Hc Hw Hun. pose proof (proj1 Hinv) as Hbase. set (key := BlockID_Key (v_BlockID vote)) in *.
  assert (Hidx := proj1 Hc). unfold addVerifiedVote, add_primary. rewrite Hidx, idx_nat.
  destruct (lookup_lt_is_Some_2 (vs_votes s) i) as [o Ho].
  { rewrite (vi_len _ Hbase). by eapply lookup_lt_Some. }
  rewrite Ho. cbn [mbind outcome_bind].
  destruct (bits_of_set (E:=E) _ _ i o vote (vi_bits _ Hbase) Ho) as (r & b' & Hset & Hb').
  assert (Hupd : upd (E:=E) (vs_votes s) (Z.of_nat i) (Some vote) = Ok (<[i := Some vote]> (vs_votes s))).
  { apply upd_Ok. rewrite Nat2Z.id. split; [|done]. apply lookup_lt_Some in Ho. unfold lenZ. lia. }
  rewrite Hupd, Hset. cbn [mbind outcome_bind]. assert (Hlt := lookup_lt_Some _ _ _ Ho).
  destruct o as [e|].
  - assert (Hne : BlockID_Equals (v_BlockID e) (v_BlockID vote) = false).
    { apply not_true_is_false. intros Heq%BlockID_Equals_true. apply (proj1 Hun e Ho). by rewrite Heq. }
    rewrite Hne.
    destruct (match vs_maj23 s with Some m => bytes_eqb (BlockID_Key m) key | None => false end) eqn:Em.
    + destruct (vs_maj23 s) as [b|] eqn:Eb; [|done]. apply bytes_eqb_true in Em.
      pose proof (replace_vote_inv s i e vote w b' b Hinv Eb Em Ho Hc Hw Hun Hb') as Hinv1.
      destruct (track_conflict (E:=E) _ i e vote vote w Hinv1) as (added & s' & Htr & Hk & Hrec); try done.
      { by apply list_lookup_insert_eq. } { apply Hun. }
      exists added, (Some e), s'. cbn [mbind outcome_bind]. split_and!; [exact Htr| |done|done|done].
      eapply kept_trans; [|exact Hk]. constructor; try done. cbn. congruence.
    + destruct (track_conflict (E:=E) s i e e vote w Hinv) as (added & s' & Htr & Hk & Hrec); try done.
      { intros b Hb Hkb. rewrite Hb in Em. by apply bytes_eqb_false in Em. } { apply Hun. }
      exists added, (Some e), s'. by cbn [mbind outcome_bind].
  - set (s1 := set_votes s b' (<[i := Some vote]> (vs_votes s)) (wrap64 (vs_sum s + VotingWeight w))).
    cbn [mbind outcome_bind]. unfold track_vote. rewrite (bool_decide_eq_false_2 (None <> None)) by (by intros []). cbn [andb].
    set (bv := default (newBlockVotes false (Voters_Size (vs_voterSet s))) (vs_votesByBlock s !! key)).
    assert (Hgoal : exists s', add_to_block (E:=E) s1 bv vote key (VotingWeight w) = Ok s' /\ kept s s' /\ recorded s' i vote).
    { assert (Hbv : vs_votesByBlock s !! key = Some bv \/
        vs_votesByBlock s !! key = None /\ bv = newBlockVotes false (Voters_Size (vs_voterSet s))).
      { unfold bv. destruct (vs_votesByBlock s !! key); [by left|by right]. }
      pose proof (first_vote_inv s i vote w b' bv Hinv Ho Hc Hw Hb' Hbv) as Hinv1. fold s1 in Hinv1.
      destruct (add_to_block_inv (E:=E) _ key bv vote i w Hinv1) as (s' & Hadd & Hinv' & Hss & Hp & Hm & Hrec & Hmono & Hvs); try done.
      - apply lookup_insert_eq.
      - destruct Hbv as [Hk|[_ ->]]; [by apply Hun|]. cbn. unfold Voters_Size, lenZ. rewrite Nat2Z.id.
        apply lookup_replicate_2. by eapply lookup_lt_Some.
      - exists vote. by apply list_lookup_insert_eq.
      - intros b _ _. by apply list_lookup_insert_eq.
      - exists s'. rewrite <- (add_to_block_set s1 (<[key := bv]> (vs_votesByBlock s))) by done.
        split_and!; [done| |done]. constructor; [done|destruct Hss; by constructor|done|exact Hm| |].
        + intros j v (bvj & Hj & Hv). apply Hmono. exists bvj. split; [|done]. cbn.
          destruct Hbv as [Hk|[Hk _]]; [by rewrite insert_id|]. rewrite lookup_insert_ne; [done|]. intros Heq. rewrite <- Heq in Hj. fold key in Hj. by rewrite Hk in Hj.
        + intros Hn j v. rewrite (Hvs Hn). cbn. intros [(<- & [= <-] & _)|[_ Hj]]%list_lookup_insert_Some; [by right|by left]. }
    destruct Hgoal as (s' & Hadd & Hk & Hrec). exists true, None, s'. change (vs_votesByBlock s1) with (vs_votesByBlock s).
    unfold bv in Hadd. destruct (vs_votesByBlock s !! key); cbn [default] in Hadd; change (vs_voterSet s1) with (vs_voterSet s);
      cbn in Hadd; rewrite Hadd; done.
Qed.

(** What [addVote] reports, and the set it leaves. *)
Definition add_post (s : VoteSet) (vote : option Vote) (r : add_result) : Prop :=
  let '(added, err, s') := r in
  match err with
  | None =>
      if added : bool then
        exists v i, vote = Some v /\ cast s i v /\ vs_votes s !! i = Some None /\ recorded s' i v
      else s' = s
  | Some (ErrVoteConflictingVotes a b) =>
      exists i, vote = Some b /\ vs_votes s !! i = Some (Some a) /\ cast s i a /\ cast s i b /\
        v_BlockID a <> v_BlockID b /\ (added = true -> recorded s' i b)
  | Some _ => added = false /\ s' = s
  end.

(** The voter a vote names cannot check it. *)
Definition cannot_verify (s : VoteSet) (vote : option Vote)
    (exec : Vote -> bytes -> PubKey -> outcome vote_verify_error unit) : Prop :=
  exists v w, vote = Some v /\ voters s !! Z.to_nat (v_ValidatorIndex v) = Some w /\
    (vPubKey w = None \/ exists pk, vPubKey w = Some pk /\ exec v (vs_chainID s) pk = Panic).

(** A call panics only for such a voter. *)
Lemma addVote_inv {E} s vote exec :
  vs_inv s ->
  (forall v pk, vote = Some v -> exec v (vs_chainID s) pk = Ok tt -> P (vs_chainID s) pk v) ->
  addVote (E:=E) s vote exec = Panic /\ cannot_verify s vote exec \/
  exists r, addVote (E:=E) s vote exec = Ok r /\ kept s (snd r) /\ add_post s vote r.
Proof.
  intros Hinv HP. pose proof (kept_refl s Hinv) as Hrefl.
  assert (Hsame : forall err (Q : Prop), (forall a b, err <> ErrVoteConflictingVotes a b) ->
    Q \/ exists r, Ok (E:=E) (false, Some err, s) = Ok r /\ kept s (snd r) /\ add_post s vote r).
  { intros err Q Herr. right. exists (false, Some err, s). split_and!; [done..|]. destruct err; try done. by edestruct Herr. }
  unfold addVote. destruct vote as [vote|]; [|by apply Hsame].
  destruct (Z.ltb_spec (v_ValidatorIndex vote) 0) as [|Hpos]; [by apply Hsame|].
  case_bool_decide; [by apply Hsame|].
  destruct (negb (v_Height vote =? vs_height s) || negb (v_Round vote =? vs_round s)
    || negb (v_Type vote =? vs_signedMsgType s)) eqn:Estep; [by apply Hsame|].
  rewrite !orb_false_iff, !negb_false_iff, !Z.eqb_eq in Estep. destruct Estep as [[Hh Hr] Ht].
  set (i := Z.to_nat (v_ValidatorIndex vote)). assert (Hi : v_ValidatorIndex vote = Z.of_nat i) by lia.
  destruct (Voters_GetByIndex (vs_voterSet s) (v_ValidatorIndex vote)) as [[a w]|] eqn:Eg; [|by apply Hsame].
  assert (Hw : voters s !! i = Some w /\ a = Address w).
  { unfold Voters_GetByIndex in Eg. destruct (_ || _); [done|]. fold i in Eg. destruct (voters s !! i); naive_solver. }
  destruct Hw as [Hw ->]. 
  destruct (bytes_eqb (v_ValidatorAddress vote) (Address w)) eqn:Ha; cbn [negb]; [|by apply Hsame].
  apply bytes_eqb_true in Ha.
  destruct (getVote_spec (E:=E) s i (BlockID_Key (v_BlockID vote)) (proj1 Hinv)) as (ex & Hget & Hun).
  { by eapply lookup_lt_Some. }
  rewrite Hi, Hget. cbn [mbind outcome_bind]. destruct ex as [e|].
  { destruct (bytes_eqb _ _); [right; by exists (false, None, s)|by apply Hsame]. }
  specialize (Hun eq_refl).
  destruct (vPubKey w) as [pk|] eqn:Hpk; [|left; split; [done|]; exists vote, w; by auto].
  destruct (exec vote (vs_chainID s) pk) as [[]|e|] eqn:Ex; [|by apply Hsame|].
  2: { left. split; [done|]. exists vote, w. split_and!; [done..|]. right. by exists pk. }
  assert (Hc : cast s i vote) by (split_and!; try done; exists w, pk; auto).
  destruct (addVerifiedVote_inv (E:=E) s i vote w Hinv Hc Hw Hun) as (added & confl & s' & Hadd & Hk & Hconf & Hadd' & Hrec).
  right. rewrite Hadd. cbn [mbind outcome_bind]. destruct confl as [c|].
  - eexists. split; [done|]. split; [done|]. exists i. destruct (vi_cast _ (proj1 Hinv) i c Hconf) as [Hcc _].
    split_and!; try done. intros Heq. apply (proj1 Hun c Hconf). by rewrite Heq.
  - rewrite (Hadd' eq_refl). eexists. split; [done|]. split; [done|]. exists vote, i. split_and!; auto.
Qed.

(** The first vote of a voter that passes every check is added. *)
Lemma addVote_fresh {E} s v exec (i : nat) w pk :
  vs_inv s -> cast s i v -> voters s !! i = Some w -> vPubKey w = Some pk -> Address w <> [] ->
  exec v (vs_chainID s) pk = Ok tt -> vs_votes s !! i = Some None ->
  exists s', addVote (E:=E) s (Some v) exec = Ok (true, None, s') /\ kept s s' /\ recorded s' i v.
Proof.
  intros Hinv Hc Hw Hpk Hne Hex Hi. pose proof Hc as (Hidx & Hh & Hr & Ht & w' & pk' & Hw' & Ha & _ & _).
  rewrite Hw in Hw'. injection Hw' as <-. unfold addVote. rewrite Hidx, Ha, Hh, Hr, Ht, !Z.eqb_refl. cbn [negb orb].
  rewrite (proj2 (Z.ltb_ge (Z.of_nat i) 0)), (bool_decide_eq_false_2 _ Hne) by lia.
  unfold Voters_GetByIndex. pose proof (lookup_lt_Some _ _ _ Hw) as Hlt.
  rewrite (proj2 (Z.ltb_ge (Z.of_nat i) 0)), (proj2 (Z.leb_gt (lenZ (voters s)) (Z.of_nat i))) by (unfold lenZ; lia).
  cbn [orb]. rewrite Nat2Z.id, Hw, bytes_eqb_refl. cbn [negb].
  assert (Hget : getVote (E:=E) s (Z.of_nat i) (BlockID_Key (v_BlockID v)) = Ok None).
  { unfold getVote, blockVotes_getByIndex. rewrite idx_nat, Hi. cbn [mbind outcome_bind].
    destruct (vs_votesByBlock s !! BlockID_Key (v_BlockID v)) as [bv|] eqn:Ek; [|done]. rewrite idx_nat.
    pose proof (vi_block _ (proj1 Hinv) _ _ Ek) as Hbi.
    destruct (lookup_lt_is_Some_2 (bv_votes bv) i) as [o Ho]; [by rewrite (bi_len _ _ _ Hbi)|]. rewrite Ho.
    destruct o as [u|]; [|done]. destruct (bi_primary _ _ _ Hbi i u Ho). congruence. }
  rewrite Hget. cbn [mbind outcome_bind]. rewrite Hpk, Hex.
  destruct (getVote_spec (E:=E) s i (BlockID_Key (v_BlockID v)) (proj1 Hinv) Hlt) as (r & Hr' & Hun).
  rewrite Hget in Hr'. injection Hr' as <-.
  destruct (addVerifiedVote_inv (E:=E) s i v w Hinv Hc Hw (Hun eq_refl)) as (added & confl & s' & -> & Hk & Hcf & Hadd & Hrec).
  rewrite Hi in Hcf. injection Hcf as <-. rewrite (Hadd eq_refl) in *. cbn [mbind outcome_bind]. exists s'. auto.
Qed.

(** ** Claims of peers *)

Lemma SetPeerMaj23_inv s peer b s' :
  vs_inv s -> SetPeerMaj23 s peer b = Ok s' ->
  vs_inv s' /\ same_step s s' /\ vs_maj23 s' = vs_maj23 s /\ vs_votes s' = vs_votes s /\
  (s' = s \/ vs_peerMaj23s s !! peer = None /\ vs_peerMaj23s s' = <[peer := b]> (vs_peerMaj23s s)).
Proof.
  intros Hinv. pose proof Hinv as [[I1 I2 I3 I4 I5 I6 I8] Hmi]. unfold SetPeerMaj23.
  destruct (vs_peerMaj23s s !! peer) as [b0|] eqn:Ep.
  { destruct (BlockID_Equals b0 b); [|done]. intros [= <-]. split_and!; try done. by left. }
  assert (Hsz : size (<[peer := b]> (vs_peerMaj23s s)) = S (size (vs_peerMaj23s s))) by (by rewrite map_size_insert, Ep).
  cbn [set_peerMaj23s vs_votesByBlock].
  destruct (vs_votesByBlock s !! BlockID_Key b) as [bv|] eqn:Ek; [destruct (bv_peerMaj23 bv)|]; intros [= <-];
    (split_and!; [|done..|by right]); (split; [constructor; try done; cbn [set_votesByBlock set_peerMaj23s vs_peerMaj23s
      vs_votesByBlock vs_votes]|]).
  - intros k bv' Hk. apply (block_inv_step s); [done|by eauto|by apply I6].
  - lia.
  - done.
  - intros i v Hi. destruct (I5 i v Hi) as [Hc Hs]. split; [done|]. apply lookup_insert_is_Some'. by right.
  - intros k bv' [[<- <-]|[_ H0]]%lookup_insert_Some; (apply (block_inv_step s); [done|by eauto|]);
      [|by apply I6]. destruct (I6 _ _ Ek). by constructor.
  - rewrite Hsz, map_size_insert, Ek. unfold id. lia.
  - unfold maj_inv in *. cbn [set_votesByBlock set_peerMaj23s vs_votesByBlock vs_maj23]. destruct (vs_maj23 s) as [m|].
    + destruct Hmi as (bvm & Hbm & Hm & Hcp & Hex). destruct (decide (BlockID_Key m = BlockID_Key b)) as [Heq|Hne].
      * rewrite Heq in *. rewrite Ek in Hbm. injection Hbm as <-. exists (set_peerMaj23 bv). by rewrite lookup_insert_eq.
      * exists bvm. by rewrite lookup_insert_ne.
    + intros k bv' [[<- <-]|[_ H0]]%lookup_insert_Some; [|by eapply Hmi]. by apply (Hmi _ _ Ek).
  - intros i v Hi. destruct (I5 i v Hi) as [Hc Hs]. split; [done|]. apply lookup_insert_is_Some'. by right.
  - intros k bv' [[<- <-]|[_ H0]]%lookup_insert_Some; (apply (block_inv_step s); [done|by eauto|]);
      [apply newBlockVotes_inv|by apply I6].
  - rewrite Hsz, map_size_insert, Ek. lia.
  - unfold maj_inv in *. cbn [set_votesByBlock set_peerMaj23s vs_votesByBlock vs_maj23]. destruct (vs_maj23 s) as [m|].
    + destruct Hmi as (bvm & Hbm & Hm & Hcp & Hex). exists bvm. rewrite lookup_insert_ne; [done|]. congruence.
    + intros k bv' [[<- <-]|[_ H0]]%lookup_insert_Some; [|by eapply Hmi]. cbn. unfold majority. cbn.
      pose proof (weights_nonneg _ I1). lia.
Qed.

Lemma SetPeerMaj23_recorded s peer b s' i v :
  SetPeerMaj23 s peer b = Ok s' -> recorded s i v -> recorded s' i v.
Proof.
  unfold SetPeerMaj23. intros Hp (bv & Hk & Hi). unfold recorded.
  destruct (vs_peerMaj23s s !! peer); [destruct (BlockID_Equals _ _); [|done]; injection Hp as <-; by exists bv|].
  cbn [set_peerMaj23s vs_votesByBlock] in Hp.
  destruct (vs_votesByBlock s !! BlockID_Key b) as [bv'|] eqn:Ek; [destruct (bv_peerMaj23 bv')|];
    injection Hp as <-; cbn; [by exists bv|..];
    (destruct (decide (BlockID_Key b = BlockID_Key (v_BlockID v))) as [Heq|Hne];
     [rewrite Heq in *; rewrite lookup_insert_eq|exists bv; by rewrite lookup_insert_ne]).
  - rewrite Hk in Ek. injection Ek as ->. by exists (set_peerMaj23 bv').
  - congruence.
Qed.

End invariant.

(** The invariant depends on [P] only through the votes let in. *)
Lemma vs_inv_mono (P Q : bytes -> PubKey -> Vote -> Prop) s :
  (forall c pk v, P c pk v -> Q c pk v) -> vs_inv P s -> vs_inv Q s.
Proof.
  intros HPQ [[I1 I2 I3 I4 I5 I6 I8] Hm].
  assert (Hc : forall i v, cast P s i v -> cast Q s i v).
  { intros i v (H1 & H2 & H3 & H4 & w & pk & H5 & H6 & H7 & H8). split_and!; try done. exists w, pk. auto. }
  split; [|done]. constructor; try done.
  - intros i v Hi. destruct (I5 i v Hi). auto.
  - intros k bv Hk. destruct (I6 k bv Hk) as [B1 B2 B3 B4 B5]. constructor; try done.
    intros i v Hi. destruct (B4 i v Hi). auto.
Qed.

(** Two lists of votes that share no voter. *)
Lemma voted_disjoint vs l1 l2 :
  Forall (fun v => 0 <= VotingWeight v) vs ->
  (forall (i : nat) v1 v2, l1 !! i = Some (Some v1) -> l2 !! i = Some (Some v2) -> False) ->
  voted vs l1 + voted vs l2 <= Zsum (weights vs).
Proof.
  revert l1 l2. induction vs as [|w vs IH]; intros l1 l2 Hp Hd; [by destruct l1, l2|].
  pose proof (voted_range _ l1 Hp). pose proof (voted_range _ l2 Hp).
  destruct l1 as [|o1 l1]; [change (voted (w :: vs) []) with 0; lia|].
  destruct l2 as [|o2 l2]; [change (voted (w :: vs) []) with 0; lia|].
  apply Forall_cons in Hp as [Hw Hp]. specialize (IH l1 l2 Hp (fun i => Hd (S i))). rewrite fmap_cons. cbn [Zsum].
  unfold voted in *. cbn [zip_with Zsum]. specialize (Hd 0%nat).
  destruct o1 as [v1|], o2 as [v2|]; cbn; [by destruct (Hd v1 v2)|lia..].
Qed.
