(* ===== verification/VoteSetProps.v ===== *)
(** * What a vote set promises

    The theorems on the sets that votes and claims of peers can build: the
    majority they report, the outcome of every call, the memory they take, and
    the commit made from them. *)

From Stdlib Require Import ZArith Lia.
From stdpp Require Import prelude list gmap.
From S2P Require Import Prelude BitArray Proto Crypto SafeMath Validator ValidatorSet ValidatorLists ValidatorSetPriority Block VoterSet VerifyCommit Slots VoteSet VoteSetInv.

Local Open Scope Z_scope.

(** ** Calls *)

Section calls.
  Context {crypto : CryptoLib} {codec : TimeCodec}.

(** One call.  The block a vote is for is one [Vote.ValidateBasic] lets
    through. *)
Inductive vs_call (s : VoteSet) : VoteSet -> Prop :=
| call_add vote r :
    (forall v, vote = Some v -> votable (v_BlockID v)) -> AddVote (E:=add_error) s vote = Ok r -> vs_call s (snd r)
| call_peer peer b s' : SetPeerMaj23 s peer b = Ok s' -> vs_call s s'
| call_any b s' : HasTwoThirdsAny (E:=add_error) s = Ok (b, s') -> vs_call s s'
| call_all b s' : HasAll (E:=add_error) s = Ok (b, s') -> vs_call s s'.

(** A vote let in has a valid signature. *)
Definition verified (chain : bytes) (pk : PubKey) (v : Vote) : Prop :=
  Vote_Verify chain pk v = Ok tt /\ votable (v_BlockID v).

Lemma AddVote_inv {E} s vote :
  vs_inv verified s -> (forall v, vote = Some v -> votable (v_BlockID v)) ->
  AddVote (E:=E) s vote = Panic /\ cannot_verify s vote (fun v c pk => Vote_Verify c pk v) \/
  exists r, AddVote (E:=E) s vote = Ok r /\ kept verified s (snd r) /\ add_post verified s vote r.
Proof.
  intros Hinv Hv. apply addVote_inv; [done|]. intros v pk -> Hok. split; [done|by apply Hv].
Qed.

Lemma HasTwoThirdsAny_spec {E} s :
  vs_inv verified s -> HasTwoThirdsAny (E:=E) s =
    Ok (bool_decide (2 * Zsum (weights (Voters (vs_voterSet s))) < 3 * vs_sum s), set_voterSet s (vfilled (vs_voterSet s))).
Proof.
  intros [Hb _]. pose proof (vi_wf _ _ Hb) as Hwf. unfold HasTwoThirdsAny. rewrite TotalVotingWeight_spec by done.
  cbn [mbind outcome_bind]. repeat f_equal. apply eq_bool_prop_intro. rewrite bool_decide_spec, Is_true_true, Z.ltb_lt.
  apply two_thirds. split; [by apply weights_nonneg|apply Hwf].
Qed.

Lemma HasAll_spec {E} s :
  vs_inv verified s -> HasAll (E:=E) s =
    Ok (vs_sum s =? Zsum (weights (Voters (vs_voterSet s))), set_voterSet s (vfilled (vs_voterSet s))).
Proof. intros [Hb _]. unfold HasAll. by rewrite TotalVotingWeight_spec by apply Hb. Qed.

(** Without a majority every primary vote is among those of its block. *)
Definition tracked (s : VoteSet) : Prop :=
  vs_maj23 s = None -> forall (i : nat) v, vs_votes s !! i = Some (Some v) -> recorded s i v.

Record good (s : VoteSet) : Prop := { gd_inv : vs_inv verified s; gd_tracked : tracked s }.

(** What a call keeps. *)
Lemma vs_call_good s s' :
  vs_call s s' -> good s ->
  good s' /\ same_step s s' /\ forall b, vs_maj23 s = Some b -> vs_maj23 s' = Some b.
Proof.
  intros Hcall [Hinv Htr].
  assert (Hfill : good (set_voterSet s (vfilled (vs_voterSet s)))).
  { constructor; [split; [by apply voterSet_base, Hinv|apply Hinv]|done]. }
  destruct Hcall as [vote r Hv Ha|peer b s' Hp|b s' Ha|b s' Ha].
  - destruct (AddVote_inv (E:=add_error) s vote Hinv Hv) as [[Hp _]|(r' & Hr & Hk & _)]; [congruence|].
    rewrite Hr in Ha. injection Ha as <-. destruct Hk as [Hi Hs _ Hm Hrec Hvs]. split_and!; [|done..].
    constructor; [done|]. intros Hn i v Hi'. destruct (Hvs Hn i v Hi') as [Hold|]; [|done].
    apply Hrec, Htr; [|done]. destruct (vs_maj23 s) as [b|]; [|done]. specialize (Hm b eq_refl). congruence.
  - destruct (SetPeerMaj23_inv verified s peer b s' Hinv Hp) as (Hi & Hs & Hm & Hvs & Hor). split_and!; [|done|by rewrite Hm].
    constructor; [done|]. unfold tracked. rewrite Hm, Hvs. intros Hn i v Hv.
    eapply SetPeerMaj23_recorded; [exact Hp|by apply Htr].
  - rewrite HasTwoThirdsAny_spec in Ha by done. injection Ha as _ <-. by split_and!.
  - rewrite HasAll_spec in Ha by done. injection Ha as _ <-. by split_and!.
Qed.

Lemma vs_calls_good s s' :
  rtc vs_call s s' -> good s ->
  good s' /\ same_step s s' /\ forall b, vs_maj23 s = Some b -> vs_maj23 s' = Some b.
Proof.
  induction 1 as [s|s1 s2 s3 Hc _ IH]; [done|]. intros Hg. destruct (vs_call_good _ _ Hc Hg) as (Hg2 & Hs & Hm).
  destruct (IH Hg2) as (Hg3 & Hs3 & Hm3). split_and!; [done|by etrans|auto].
Qed.

Lemma new_good {E} chainID height round typ vs s :
  voters_wf vs -> NewVoteSet (E:=E) chainID height round typ vs = Ok s ->
  good s /\ vs_chainID s = chainID /\ vs_height s = height /\ vs_round s = round /\ vs_signedMsgType s = typ /\
  vs_voterSet s = vs.
Proof.
  intros Hwf Hn. split; [constructor; [by eapply new_set_inv|]|]; unfold NewVoteSet in Hn;
    (destruct (height =? 0); [done|]); injection Hn as <-; [|done].
  intros _ i v [? _]%lookup_replicate. done.
Qed.

End calls.

(** ** The majority *)

Section majority.
  Context {crypto : CryptoLib} {codec : TimeCodec}.

(** [v] is a signed vote of the voter at [i] for [b] in this step. *)
Definition signed_vote (chainID : bytes) (height round typ : Z) (vs : VoterSet) (i : nat) (b : BlockID) (v : Vote)
  : Prop :=
  v_BlockID v = b /\ v_Height v = height /\ v_Round v = round /\ v_Type v = typ /\
  exists w pk, Voters vs !! i = Some w /\ vPubKey w = Some pk /\ v_ValidatorAddress v = Address w /\
    Vote_Verify chainID pk v = Ok tt.

Lemma cast_signed s i v :
  cast verified s i v ->
  signed_vote (vs_chainID s) (vs_height s) (vs_round s) (vs_signedMsgType s) (vs_voterSet s) i (v_BlockID v) v.
Proof.
  intros (_ & Hh & Hr & Ht & w & pk & Hw & Ha & Hpk & Hv & _). split_and!; try done. exists w, pk. by split_and!.
Qed.

Lemma cast_votable s i v : cast verified s i v -> votable (v_BlockID v).
Proof. intros (_ & _ & _ & _ & w & pk & _ & _ & _ & _ & Hv). done. Qed.

Lemma maj23_votes s b :
  vs_inv verified s -> vs_maj23 s = Some b ->
  exists bv, vs_votesByBlock s !! BlockID_Key b = Some bv /\ block_inv verified s (BlockID_Key b) bv /\
    majority s (bv_sum bv) /\ votable b /\
    forall (i : nat) v, bv_votes bv !! i = Some (Some v) -> vs_votes s !! i = Some (Some v) /\ v_BlockID v = b.
Proof.
  intros [Hbase Hm] Em. unfold maj_inv in Hm. rewrite Em in Hm. destruct Hm as (bv & Hk & Hmaj & Hcp & j & u & Hj & Hu).
  pose proof (vi_block _ _ Hbase _ _ Hk) as Hbi. exists bv.
  assert (Hb : votable b). { rewrite <- Hu. eapply cast_votable. by apply (bi_cast _ _ _ _ Hbi). }
  split_and!; try done. intros i v Hi. split; [by apply Hcp|].
  destruct (bi_cast _ _ _ _ Hbi i v Hi) as [Hc Hkey]. by eapply BlockID_Key_inj; [eapply cast_votable| |].
Qed.

End majority.

(** C32: a two-thirds majority is real, and it is final.  Start from the empty
    set of a step and make any calls, whatever the votes and the claims of
    peers.  If the set reports a majority for a block, then distinct voters
    with strictly more than two thirds of the weight each have a vote for that
    block, of this height, round and type, whose signature verifies under the
    voter's key, and [GetByIndex] returns exactly these votes.  No later call
    changes the block reported.  If it reports none, then for every block the
    voters whose vote is for it have at most two thirds of the weight. *)
Theorem majority_sound {crypto : CryptoLib} {codec : TimeCodec} chainID height round typ vs s0 s :
  voters_wf vs -> NewVoteSet (E:=unit) chainID height round typ vs = Ok s0 -> rtc vs_call s0 s ->
  match TwoThirdsMajority s with
  | (b, true) =>
      (exists votes, length votes = length (Voters vs) /\
         2 * Zsum (weights (Voters vs)) < 3 * voted (Voters vs) votes /\
         forall (i : nat) v, votes !! i = Some (Some v) ->
           signed_vote chainID height round typ vs i b v /\
           VoteSet_GetByIndex (E:=unit) s (Z.of_nat i) = Ok (Some v)) /\
      forall s', rtc vs_call s s' -> TwoThirdsMajority s' = (b, true)
  | (_, false) =>
      forall b votes, length votes = length (Voters vs) ->
        (forall (i : nat) v, votes !! i = Some (Some v) ->
           v_BlockID v = b /\ VoteSet_GetByIndex (E:=unit) s (Z.of_nat i) = Ok (Some v)) ->
        3 * voted (Voters vs) votes <= 2 * Zsum (weights (Voters vs))
  end.
Proof.
  intros Hwf Hn Hr. destruct (new_good _ _ _ _ _ _ Hwf Hn) as (Hg0 & Hc & Hh & Hro & Ht & Hvs).
  destruct (vs_calls_good _ _ Hr Hg0) as (Hg & [S1 S2 S3 S4 S5] & _). rewrite Hvs in S5.
  unfold TwoThirdsMajority. destruct (vs_maj23 s) as [b|] eqn:Em.
  - split.
    + destruct (maj23_votes s b (gd_inv _ Hg) Em) as (bv & Hk & [B1 _ B3 B4 _] & Hm & _ & Hv).
      exists (bv_votes bv). unfold majority in Hm. rewrite B3, S5 in Hm. split_and!; [congruence|done|].
      intros i v Hi. destruct (Hv i v Hi) as [Hp Hb]. split; [|unfold VoteSet_GetByIndex; by rewrite idx_nat, Hp].
      rewrite <- Hb, <- Hc, <- Hh, <- Hro, <- Ht, <- S1, <- S2, <- S3, <- S4. unfold signed_vote. rewrite <- S5.
      by apply cast_signed, (B4 i v Hi).
    + intros s' Hs'. destruct (vs_calls_good _ _ Hs' Hg) as (_ & _ & Hm). by rewrite (Hm b Em).
  - intros b votes Hl Hv. destruct Hg as [[Hbase Hmaj] Htr]. unfold maj_inv in Hmaj. rewrite Em in Hmaj.
    assert (Hv' : forall (i : nat) v, votes !! i = Some (Some v) -> v_BlockID v = b /\ vs_votes s !! i = Some (Some v)).
    { intros i v Hi. destruct (Hv i v Hi) as [Hb Hget]. split; [done|]. unfold VoteSet_GetByIndex in Hget.
      rewrite idx_nat in Hget. destruct (vs_votes s !! i) as [o|] eqn:Eo; [|done]. by injection Hget as ->. }
    pose proof (weights_nonneg _ Hwf).
    destruct (vs_votesByBlock s !! BlockID_Key b) as [bv|] eqn:Ek.
    + pose proof (Hmaj _ _ Ek) as Hnm. pose proof (vi_block _ _ Hbase _ _ Ek) as Hbi. unfold majority in Hnm.
      rewrite (bi_sum _ _ _ _ Hbi), S5 in Hnm.
      assert (voted (Voters vs) votes <= voted (Voters vs) (bv_votes bv)); [|lia].
      apply voted_mono; [apply Hwf|by rewrite (bi_len _ _ _ _ Hbi), S5|].
      intros i v Hi. destruct (Hv' i v Hi) as [Hb Hi']. destruct (Htr Em i v Hi') as (bv' & Hk' & Hbi').
      rewrite Hb, Ek in Hk'. injection Hk' as <-. by eexists.
    + rewrite (voted_nobody (Voters vs) votes); [lia|]. intros i v Hi. destruct (Hv' i v Hi) as [Hb Hi'].
      destruct (Htr Em i v Hi') as (bv' & Hk' & _). rewrite Hb in Hk'. congruence.
Qed.

(** The outcome of [AddVote] on every branch.  On any set that calls can
    build, [AddVote] panics only if the key of the voter named by the vote is
    missing or cannot check it.  Otherwise: an accepted vote without error is
    the first of its voter, is for this step with a valid signature, and is
    from then on stored for its block; a conflict error names two votes of the
    same voter, both of this step with valid signatures and for different
    blocks, which is the proof of misbehaviour the evidence pool needs; any
    other error, and a duplicate, leave the set as it was. *)
Theorem add_vote_outcome {crypto : CryptoLib} {codec : TimeCodec} chainID height round typ vs s0 s vote :
  voters_wf vs -> NewVoteSet (E:=unit) chainID height round typ vs = Ok s0 -> rtc vs_call s0 s ->
  (forall v, vote = Some v -> votable (v_BlockID v)) ->
  match AddVote (E:=unit) s vote with
  | Ok (added, Some (ErrVoteConflictingVotes a b), s') =>
      exists i, vote = Some b /\ VoteSet_GetByIndex (E:=unit) s (Z.of_nat i) = Ok (Some a) /\
        signed_vote chainID height round typ vs i (v_BlockID a) a /\
        signed_vote chainID height round typ vs i (v_BlockID b) b /\ v_BlockID a <> v_BlockID b /\
        (added = true -> recorded s' i b)
  | Ok (added, Some _, s') => added = false /\ s' = s
  | Ok (false, None, s') => s' = s
  | Ok (true, None, s') =>
      exists v i, vote = Some v /\ signed_vote chainID height round typ vs i (v_BlockID v) v /\
        VoteSet_GetByIndex (E:=unit) s (Z.of_nat i) = Ok None /\ recorded s' i v
  | Err _ => False
  | Panic => cannot_verify s vote (fun v c pk => Vote_Verify c pk v)
  end.
Proof.
  intros Hwf Hn Hr Hv. destruct (new_good _ _ _ _ _ _ Hwf Hn) as (Hg0 & Hc & Hh & Hro & Ht & Hvs).
  destruct (vs_calls_good _ _ Hr Hg0) as (Hg & [S1 S2 S3 S4 S5] & _). rewrite Hvs in S5.
  assert (Hsv : forall i v, cast verified s i v -> signed_vote chainID height round typ vs i (v_BlockID v) v).
  { intros i v Hcast%cast_signed. revert Hcast. unfold signed_vote. by rewrite S1, S2, S3, S4, S5, Hc, Hh, Hro, Ht. }
  destruct (AddVote_inv (E:=unit) s vote (gd_inv _ Hg) Hv) as [[-> Hp]|([[added err] s'] & -> & _ & Hpost)]; [done|].
  destruct err as [[| | | | | |a b]|].
  1-6: by destruct added.
  - destruct Hpost as (i & -> & Hi & Ha & Hb & Hne & Hrec).
    destruct added; exists i; unfold VoteSet_GetByIndex; rewrite idx_nat, Hi; auto 10.
  - destruct added; [|done]. destruct Hpost as (v & i & -> & Hcast & Hi & Hrec). exists v, i.
    unfold VoteSet_GetByIndex. rewrite idx_nat, Hi. auto.
Qed.

(** The accounts of a vote set are exact and bounded.  On any set that
    calls can build, the sum is the weight of the voters with a vote, each
    counted once however many conflicting votes it sent; [HasTwoThirdsAny] and
    [HasAll] answer as their names say, without overflow; the bit array has a
    bit for each voter and it is set exactly for those with a vote; and the
    blocks tracked are at most one per voter with a vote plus one per peer that
    made a claim, the bound the source claims on the memory conflicting votes
    can take. *)
Theorem vote_set_accounts {crypto : CryptoLib} {codec : TimeCodec} chainID height round typ vs s0 s :
  voters_wf vs -> NewVoteSet (E:=unit) chainID height round typ vs = Ok s0 -> rtc vs_call s0 s ->
  let total := Zsum (weights (Voters vs)) in
  let with_vote := voted (Voters vs) (vs_votes s) in
  vs_sum s = with_vote /\
  (exists s', HasTwoThirdsAny (E:=unit) s = Ok (bool_decide (2 * total < 3 * with_vote), s')) /\
  (exists s', HasAll (E:=unit) s = Ok (bool_decide (with_vote = total), s')) /\
  BitArray.Size (VoteSet_BitArray s) = Voters_Size vs /\
  (forall i o, VoteSet_GetByIndex (E:=unit) s i = Ok o ->
     GetIndex (E:=unit) (VoteSet_BitArray s) i = Ok (bool_decide (o <> None))) /\
  (size (vs_votesByBlock s) <= length (List s) + size (vs_peerMaj23s s))%nat.
Proof.
  intros Hwf Hn Hr total with_vote. destruct (new_good _ _ _ _ _ _ Hwf Hn) as (Hg0 & _ & _ & _ & _ & Hvs).
  destruct (vs_calls_good _ _ Hr Hg0) as (Hg & [_ _ _ _ S5] & _). rewrite Hvs in S5.
  pose proof (gd_inv _ Hg) as Hinv. destruct (proj1 Hinv) as [I1 I2 I3 I4 _ _ I8].
  rewrite HasTwoThirdsAny_spec, HasAll_spec by done. rewrite S5 in *. fold with_vote in I4. fold total.
  rewrite I4. split_and!; try done.
  - by eexists.
  - eexists. repeat f_equal. unfold total. destruct (Z.eqb_spec with_vote (Zsum (weights (Voters vs)))); symmetry;
      [by apply bool_decide_eq_true_2|by apply bool_decide_eq_false_2].
  - unfold VoteSet_BitArray, BitArray.Copy, BitArray.Size, Voters_Size, lenZ. rewrite <- I2. unfold bits_of in I3.
    destruct (vs_votesBitArray s) as [b|]; [by destruct I3 as (_ & -> & _)|by rewrite I3].
  - intros i o Hget. unfold VoteSet_GetByIndex in Hget. apply idx_Ok in Hget as [Hi Ho].
    unfold VoteSet_BitArray, BitArray.Copy, GetIndex. unfold bits_of in I3. destruct (vs_votesBitArray s) as [b|].
    + destruct I3 as (Hb & _ & Hbit). rewrite getIndex_bit by done. specialize (Hbit _ _ Ho). rewrite Z2Nat.id in Hbit by done.
      rewrite Hbit. by destruct o.
    + rewrite I3 in Ho. done.
Qed.

(** ** An example

    Four voters of equal weight, two with Ed25519 and two with BLS keys. *)

Definition toy_address (k : bytes) : bytes := @SumTruncated toy_crypto k.

Definition mixed_key (n : Z) : PubKey := if n <? 3 then PubKeyEd25519 (key_of n) else PubKeyBls (key_of n).

Definition mixed_voters : VoterSet := mkVoterSet
  ((fun n => mkValidator (toy_address (key_of n)) (Some (mixed_key n)) 1 1 0) <$> [1; 2; 3; 4]) 0.

Lemma mixed_voters_wf : voters_wf mixed_voters.
Proof.
  constructor.
  - by apply (bool_decide_unpack _); vm_compute.
  - repeat constructor; vm_compute; discriminate.
  - vm_compute. discriminate.
  - by left.
  - vm_compute. reflexivity.
Qed.

(** The signature of a scheme. *)
Definition mixed_sign (n : Z) (msg : bytes) : bytes :=
  if n <? 3 then toy_sign (key_of n) msg else checksum (key_of n ++ msg) :: replicate 95 0.

Definition mixed_vote (n : Z) (b : BlockID) : Vote :=
  let v sig := mkVote PrecommitType 5 0 b 9 (toy_address (key_of n)) (n - 1) sig in
  match @VoteSignBytes toy_time unit [7] (v None) with
  | Ok msg => v (Some (mixed_sign n msg))
  | _ => v None
  end.

Definition after_votes (s : VoteSet) (votes : list Vote) : VoteSet :=
  fold_left (fun s v => match @AddVote toy_crypto toy_time add_error s (Some v) with Ok r => snd r | _ => s end) votes s.

Definition mixed_set : VoteSet :=
  match NewVoteSet (E:=unit) [7] 5 0 PrecommitType mixed_voters with
  | Ok s => s
  | _ => mkVoteSet [] 0 0 0 mixed_voters None [] 0 None ∅ ∅
  end.

Lemma sample_votable : votable sample_block_id.
Proof. split; [by right|]. cbn. lia. Qed.

Lemma zero_votable : votable zero_BlockID.
Proof. split; [by left|]. cbn. lia. Qed.

(** Votes that the set answers are calls. *)
Lemma after_votes_calls s votes :
  Forall (fun v => votable (v_BlockID v)) votes -> rtc (@vs_call toy_crypto toy_time) s (after_votes s votes).
Proof.
  intros Hall. revert s. induction Hall as [|v votes Hv _ IH]; intros s; [apply rtc_refl|].
  unfold after_votes. cbn [fold_left].
  destruct (@AddVote toy_crypto toy_time add_error s (Some v)) as [r| |] eqn:Ea; [|apply IH..].
  eapply rtc_l; [|apply IH]. by apply (@call_add toy_crypto toy_time s (Some v) r); [intros ? [= <-]|].
Qed.

(** A nil vote and three votes for a block. *)
Definition mixed_votes : list Vote :=
  [mixed_vote 2 zero_BlockID; mixed_vote 1 sample_block_id; mixed_vote 3 sample_block_id; mixed_vote 4 sample_block_id].

Lemma mixed_votes_votable : Forall (fun v => votable (v_BlockID v)) mixed_votes.
Proof.
  assert (Hb : forall n b, v_BlockID (mixed_vote n b) = b) by (intros n b; unfold mixed_vote; by destruct (VoteSignBytes _ _)).
  repeat (apply Forall_cons; split; [rewrite Hb; apply sample_votable || apply zero_votable|]). constructor.
Qed.

Lemma majority_sound_witness :
  let s := after_votes mixed_set mixed_votes in
  TwoThirdsMajority s = (sample_block_id, true) /\
  exists votes, length votes = 4%nat /\ 8 < 3 * voted (Voters mixed_voters) votes /\
    forall (i : nat) v, votes !! i = Some (Some v) ->
      @signed_vote toy_crypto toy_time [7] 5 0 PrecommitType mixed_voters i sample_block_id v.
Proof.
  set (s := after_votes mixed_set mixed_votes).
  pose proof (@majority_sound toy_crypto toy_time [7] 5 0 PrecommitType mixed_voters mixed_set s mixed_voters_wf eq_refl
    (after_votes_calls _ _ mixed_votes_votable)) as Hm.
  assert (Ht : TwoThirdsMajority s = (sample_block_id, true)) by (vm_compute; reflexivity).
  split; [exact Ht|]. rewrite Ht in Hm. destruct Hm as [(votes & Hl & Hw & Hv) _]. exists votes.
  split; [exact Hl|]. split; [exact Hw|]. intros i v Hi. exact (proj1 (Hv i v Hi)).
Defined.

Lemma add_vote_outcome_witness :
  exists i, @signed_vote toy_crypto toy_time [7] 5 0 PrecommitType mixed_voters i zero_BlockID (mixed_vote 2 zero_BlockID) /\
    @signed_vote toy_crypto toy_time [7] 5 0 PrecommitType mixed_voters i sample_block_id (mixed_vote 2 sample_block_id).
Proof.
  set (s := after_votes mixed_set [mixed_vote 2 zero_BlockID]).
  assert (Hf : Forall (fun v => votable (v_BlockID v)) [mixed_vote 2 zero_BlockID])
    by (apply Forall_singleton; vm_compute; split; [by left|by split]).
  pose proof (@add_vote_outcome toy_crypto toy_time [7] 5 0 PrecommitType mixed_voters mixed_set s
    (Some (mixed_vote 2 sample_block_id)) mixed_voters_wf eq_refl (after_votes_calls _ _ Hf)) as Ho.
  assert (Hr : @AddVote toy_crypto toy_time unit s (Some (mixed_vote 2 sample_block_id)) =
    Ok (false, Some (ErrVoteConflictingVotes (mixed_vote 2 zero_BlockID) (mixed_vote 2 sample_block_id)), s))
    by (vm_compute; reflexivity).
  rewrite Hr in Ho. destruct Ho as (i & _ & _ & Ha & Hb & _).
  { intros v [= <-]. apply sample_votable. }
  exists i. split; [exact Ha|exact Hb].
Defined.

Lemma vote_set_accounts_witness :
  vs_sum (after_votes mixed_set mixed_votes) = 4 /\
  voted (Voters mixed_voters) (vs_votes (after_votes mixed_set mixed_votes)) = 4.
Proof.
  destruct (@vote_set_accounts toy_crypto toy_time [7] 5 0 PrecommitType mixed_voters mixed_set
    (after_votes mixed_set mixed_votes) mixed_voters_wf eq_refl (after_votes_calls _ _ mixed_votes_votable)) as [Hs _].
  rewrite <- Hs. vm_compute. auto.
Defined.

(** A vote can be among the primary ones and not among those of its
    block.  The comment on [VoteSet] says that all votes in [.votes] have a
    corresponding entry in [.votesByBlock].  When a voter whose nil vote came
    first votes for the block that already has the majority, and no peer has
    claimed it, [AddVote] answers that the vote was not added, with the
    conflict; yet the vote has replaced the nil vote in [.votes], and
    [BitArrayByBlockID] of the block does not show it. *)
Theorem replaced_vote_untracked :
  let s := after_votes mixed_set mixed_votes in
  let v := mixed_vote 2 sample_block_id in
  exists s', @AddVote toy_crypto toy_time unit s (Some v) =
      Ok (false, Some (ErrVoteConflictingVotes (mixed_vote 2 zero_BlockID) v), s') /\
    VoteSet_GetByIndex (E:=unit) s 1 = Ok (Some (mixed_vote 2 zero_BlockID)) /\
    VoteSet_GetByIndex (E:=unit) s' 1 = Ok (Some v) /\
    GetIndex (E:=unit) (BitArrayByBlockID s' (v_BlockID v)) 1 = Ok false.
Proof.
  eexists. split; [vm_compute; reflexivity|]. repeat split; vm_compute; reflexivity.
Qed.
