(* ===== verification/MakeCommit.v ===== *)
(** * From votes to a commit and back

    [VoteSet.MakeCommit] of src/types/vote_set.go and [CommitToVoteSet] of
    src/types/block.go against [VerifyCommit] of src/types/voter_set.go: a
    commit made from a majority verifies, and a commit that verifies gives the
    majority back. *)

From Stdlib Require Import ZArith Lia.
From stdpp Require Import prelude list gmap.
From S2P Require Import Prelude BitArray Proto Crypto SafeMath Validator ValidatorSet ValidatorLists ValidatorSetPriority Block VoterSet VerifyCommit Slots VoteSet VoteSetInv VoteSetProps.

Local Open Scope Z_scope.

(** ** What BLS promises

    Serialization of points is faithful and of fixed length, and the pairing
    check of an aggregate holds for the sum of signatures that hold. *)

Class BlsLaws `{CryptoLib} : Prop := {
  bls_roundtrip s : bls_Sign_Deserialize (bls_Sign_Serialize s) = Some s;
  bls_length s : length (bls_Sign_Serialize s) = bls_SignatureSize;
  bls_single s k h : bls_VerifyHash s k h = true -> bls_VerifyAggregateHashes s [k] [h] = true;
  bls_add s ks hs s' k h :
    length ks = length hs -> bls_VerifyAggregateHashes s ks hs = true -> bls_VerifyHash s' k h = true ->
    bls_VerifyAggregateHashes (bls_Sign_Add s s') (ks ++ [k]) (hs ++ [h]) = true
}.

Lemma checksum_app a b : checksum (a ++ b) = (checksum a + checksum b) mod 251.
Proof.
  unfold checksum. rewrite <- Zplus_mod. f_equal. induction a as [|x a IH]; [done|]. cbn [app foldr]. rewrite IH. lia.
Qed.

#[global] Instance toy_bls_laws : @BlsLaws toy_crypto.
Proof.
  constructor; cbn -[checksum].
  - done.
  - done.
  - intros s k h. by rewrite !app_nil_r.
  - intros s ks hs s' k h _ ->%Z.eqb_eq ->%Z.eqb_eq. apply Z.eqb_eq.
    rewrite !concat_app, !checksum_app. cbn [concat]. rewrite !app_nil_r.
    repeat rewrite ?Zplus_mod_idemp_l, ?Zplus_mod_idemp_r. f_equal. lia.
Qed.

(** ** Signatures by size *)

Section crypto.
  Context {crypto : CryptoLib} {codec : TimeCodec}.

(** A signature that verifies has the size of its scheme; only BLS has the
    size of BLS. *)
Lemma VerifySignature_size pk msg sig :
  VerifySignature pk msg sig = true ->
  sig <> [] /\
  (length sig = bls_SignatureSize ->
   exists k p s, GetSignatureKey pk = Some k /\ bls_PublicKey_Deserialize k = Some p /\
     bls_Sign_Deserialize sig = Some s /\ bls_VerifyHash s p (sha512_256 msg) = true).
Proof.
  induction pk as [k|k|k|k|pk IH vk _]; cbn [VerifySignature GetSignatureKey]; intros Hv; [..|by apply IH];
    unfold ed25519_VerifySignature, secp256k1_VerifySignature, sr25519_VerifySignature, bls_VerifySignature in Hv;
    case_bool_decide as Hl; try done; (split; [by intros ->|]); intros Hb; rewrite Hl in Hb; try done.
  destruct (bls_PublicKey_Deserialize k) as [p|] eqn:Ep; [|done].
  destruct (bls_Sign_Deserialize sig) as [s|] eqn:Es; [|done]. by exists k, p, s.
Qed.

(** ** Aggregation *)

Section aggregation.
  Context {laws : BlsLaws}.

(** The aggregate holds for these keys and messages. *)
Definition agg_ok (aggr : option bytes) (ks ms : list bytes) : Prop :=
  length ks = length ms /\
  match aggr with
  | None => ks = []
  | Some a => length a = bls_SignatureSize /\
      exists s ps, bls_Sign_Deserialize a = Some s /\ mapM bls_PublicKey_Deserialize ks = Some ps /\
        bls_VerifyAggregateHashes s ps (sha512_256 <$> ms) = true
  end.

Lemma agg_ok_verifies aggr ks ms : agg_ok aggr ks ms -> VerifyAggregatedSignature aggr ks ms = Ok tt.
Proof.
  intros [Hl Ha]. unfold VerifyAggregatedSignature. rewrite bool_decide_eq_false_2 by (intros Hn; by apply Hn).
  destruct aggr as [a|]; [|by rewrite Ha].
  destruct Ha as (_ & s & ps & -> & -> & ->). done.
Qed.

(** One more signature. *)
Definition aggregate_one (aggr : option bytes) (sig : bytes) : outcome bls_error (option bytes) :=
  match aggr with
  | None => Ok (Some sig)
  | Some a => match AddSignature (Some a) sig with Ok a' => Ok (Some a') | _ => Panic end
  end.

Lemma agg_ok_add aggr ks ms k p s sig msg :
  agg_ok aggr ks ms -> length sig = bls_SignatureSize -> bls_PublicKey_Deserialize k = Some p ->
  bls_Sign_Deserialize sig = Some s -> bls_VerifyHash s p (sha512_256 msg) = true ->
  exists aggr', aggregate_one aggr sig = Ok aggr' /\ agg_ok aggr' (ks ++ [k]) (ms ++ [msg]).
Proof.
  intros [Hl Ha] Hsz Hp Hs Hv. destruct aggr as [a|]; cbn [aggregate_one].
  - destruct Ha as (Hla & s0 & ps & Hs0 & Hps & Hag). unfold AddSignature.
    rewrite (bool_decide_eq_false_2 (length a <> _)) by auto. cbn [mbind outcome_bind].
    rewrite (bool_decide_eq_false_2 (length sig <> _)) by auto. rewrite Hs, Hs0.
    eexists. split; [done|]. split; [rewrite !length_app; cbn; lia|]. split; [apply bls_length|].
    exists (bls_Sign_Add s0 s), (ps ++ [p]). split_and!; [apply bls_roundtrip|..].
    + apply mapM_Some. apply mapM_Some in Hps. apply Forall2_app; [done|by repeat constructor].
    + rewrite fmap_app. apply bls_add; [|done|done]. apply mapM_Some, Forall2_length in Hps. rewrite length_fmap. congruence.
  - cbn in Ha. subst ks. destruct ms; [|done]. eexists. split; [done|]. split; [done|]. split; [done|].
    exists s, [p]. split_and!; [done|cbn; by rewrite Hp|]. cbn. by apply bls_single.
Qed.

(** The message an entry of a commit is a signature of. *)
Definition sign_msg {E} (chainID : bytes) (h r : Z) (b : BlockID) (cs : CommitSig) : outcome E bytes :=
  bid ← CommitSig_BlockID cs b;
  VoteSignBytes chainID (mkVote PrecommitType h r bid (cs_Timestamp cs) [] 0 None).

Lemma Commit_msg {E} commit chainID (i : nat) cs :
  c_Signatures commit !! i = Some cs ->
  Commit_VoteSignBytes (E:=E) commit chainID (Z.of_nat i) =
  sign_msg chainID (c_Height commit) (c_Round commit) (c_BlockID commit) cs.
Proof.
  intros Hi. unfold Commit_VoteSignBytes, GetVote, sign_msg. rewrite idx_nat, Hi. cbn [mbind outcome_bind].
  by destruct (CommitSig_BlockID cs (c_BlockID commit)).
Qed.

Section loop.
  Context (chainID : bytes) (h r : Z) (b : BlockID).

(** An entry with a signature of its voter. *)
Definition entry_ok (cs : CommitSig) (v : Validator) : Prop :=
  Absent cs = false ->
  exists sig pk msg, cs_Signature cs = Some sig /\ vPubKey v = Some pk /\
    sign_msg (E:=verify_error) chainID h r b cs = Ok msg /\ VerifySignature pk msg sig = true.

Definition of_step (commit : Commit) : Prop := c_Height commit = h /\ c_Round commit = r /\ c_BlockID commit = b.

Definition aggregated (cs cs' : CommitSig) : Prop := cs' = cs \/ cs' = clear_signature cs.

Lemma aggregate_loop_ok {E} sigs vs aggr ks ms :
  Forall2 entry_ok sigs vs -> agg_ok aggr ks ms ->
  exists sigs' aggr', aggregate_loop (E:=E) sigs aggr = Ok (sigs', aggr') /\ Forall2 aggregated sigs sigs' /\
    forall commit pre, of_step commit -> c_Signatures commit = pre ++ sigs' ->
      all_sign chainID commit (lenZ pre) sigs' vs /\
      agg_ok aggr' (ks ++ (omitted chainID commit (lenZ pre) sigs' vs).*1)
        (ms ++ (omitted chainID commit (lenZ pre) sigs' vs).*2).
Proof.
  intros Hall. revert aggr ks ms. induction Hall as [|cs v sigs vs He Hall IH]; intros aggr ks ms Hag.
  { exists [], aggr. split_and!; [done|constructor|]. intros commit pre _ _. split; [by intros k cs v Hk|].
    cbn. by rewrite !app_nil_r. }
  assert (Hstep : forall commit pre cs' rest, of_step commit -> c_Signatures commit = pre ++ cs' :: rest ->
    aggregated cs cs' -> c_Signatures commit = (pre ++ [cs']) ++ rest /\ lenZ (pre ++ [cs']) = lenZ pre + 1 /\
    forall E', Commit_VoteSignBytes (E:=E') commit chainID (lenZ pre) = sign_msg chainID h r b cs).
  { intros commit pre cs' rest (H1 & H2 & H3) Hs Hcs. split_and!; [by rewrite <- app_assoc|unfold lenZ; rewrite length_app; cbn; lia|].
    intros E'. unfold lenZ. rewrite (Commit_msg commit chainID (length pre) cs'), H1, H2, H3 by (by rewrite Hs, list_lookup_middle).
    by destruct Hcs as [-> | ->]. }
  cbn [aggregate_loop]. destruct (Absent cs) eqn:Ea; cbn [negb andb].
  - destruct (IH aggr ks ms Hag) as (sigs' & aggr' & -> & HF & Hres). cbn [mbind outcome_bind].
    exists (cs :: sigs'), aggr'. split_and!; [done|by constructor; [left|]|].
    intros commit pre Hof Hs. destruct (Hstep commit pre cs sigs' Hof Hs (or_introl eq_refl)) as (Hs' & Hl & _).
    destruct (Hres commit _ Hof Hs') as [Has Hag']. rewrite Hl in *. split; [apply all_sign_cons; by rewrite Ea|].
    cbn [omitted]. unfold omitted_at. rewrite Ea. done.
  - destruct (He Ea) as (sig & pk & msg & Hsig & Hpk & Hmsg & Hv).
    destruct (VerifySignature_size pk msg sig Hv) as [_ Hbls]. rewrite Hsig. change (sig_bytes (Some sig)) with sig. cbn [olen].
    case_bool_decide as Hsz.
    + destruct (Hbls Hsz) as (k & p & s & Hk & Hp & Hs0 & Hvh).
      destruct (agg_ok_add aggr ks ms k p s sig msg Hag Hsz Hp Hs0 Hvh) as (aggr1 & Hone & Hag1).
      assert (Hone' : match aggr with
                      | Some a => match AddSignature (Some a) sig with Ok a' => Ok (Some a') | _ => Panic end
                      | None => Ok (Some sig)
                      end = Ok (E:=E) aggr1).
      { unfold aggregate_one in Hone. destruct aggr as [a|]; [|congruence]. destruct (AddSignature (Some a) sig); congruence. }
      rewrite Hone'. cbn [mbind outcome_bind]. destruct (IH aggr1 _ _ Hag1) as (sigs' & aggr' & -> & HF & Hres).
      cbn [mbind outcome_bind]. exists (clear_signature cs :: sigs'), aggr'.
      split_and!; [done|by constructor; [right|]|]. intros commit pre Hof Hs.
      destruct (Hstep commit pre _ sigs' Hof Hs (or_intror eq_refl)) as (Hs' & Hl & Hm).
      destruct (Hres commit _ Hof Hs') as [Has Hag']. rewrite Hl in *. split.
      * apply all_sign_cons. split; [|done]. intros _. exists msg. rewrite Hm. split; [done|]. cbn. rewrite Hpk. by eexists.
      * cbn [omitted]. unfold omitted_at. change (Absent (clear_signature cs)) with (Absent cs). rewrite Ea. cbn [clear_signature cs_Signature].
        rewrite Hpk, Hm, Hmsg. cbn [mbind option_bind]. rewrite Hk. rewrite <- !app_assoc in Hag'. exact Hag'.
    + destruct (IH aggr ks ms Hag) as (sigs' & aggr' & -> & HF & Hres). cbn [mbind outcome_bind].
      exists (cs :: sigs'), aggr'. split_and!; [done|by constructor; [left|]|].
      intros commit pre Hof Hs. destruct (Hstep commit pre cs sigs' Hof Hs (or_introl eq_refl)) as (Hs' & Hl & Hm).
      destruct (Hres commit _ Hof Hs') as [Has Hag']. rewrite Hl in *. split.
      * apply all_sign_cons. split; [|done]. intros _. exists msg. rewrite Hm. split; [done|]. rewrite Hsig. by exists pk.
      * cbn [omitted]. unfold omitted_at. rewrite Ea, Hsig. exact Hag'.
Qed.

End loop.
End aggregation.

(** ** The entries made from votes *)

Lemma Vote_Verify_Ok chainID pk v :
  Vote_Verify chainID pk v = Ok tt ->
  exists msg sig, VoteSignBytes (E:=verify_error) chainID v = Ok msg /\ v_Signature v = Some sig /\
    VerifySignature pk msg sig = true.
Proof.
  unfold Vote_Verify. intros Hv. apply obind_Ok in Hv as (a & _ & Hv).
  destruct (negb (bytes_eqb a (v_ValidatorAddress v))); [done|].
  apply obind_Ok in Hv as (msg & Hm & Hv). apply (VoteSignBytes_E (E2:=verify_error)) in Hm.
  destruct (VerifySignature pk msg (sig_bytes (v_Signature v))) eqn:Ev; [|done]. exists msg.
  destruct (v_Signature v) as [sig|]; [by exists sig|]. by destruct (VerifySignature_size _ _ _ Ev) as [[] _].
Qed.

Lemma commit_sig_ok {E} s b (i : nat) o w :
  vs_inv verified s -> vs_signedMsgType s = PrecommitType -> BlockID_IsComplete b = true ->
  vs_votes s !! i = Some o -> Voters (vs_voterSet s) !! i = Some w ->
  exists cs, commit_sig (E:=E) b o = Ok cs /\ entry_ok (vs_chainID s) (vs_height s) (vs_round s) b cs w /\
    (forall v, o = Some v -> v_BlockID v = b -> ForBlock cs = true).
Proof.
  intros [Hbase _] Ht Hb Ho Hw. destruct o as [v|]; [|by exists NewCommitSigAbsent].
  destruct (vi_cast _ _ Hbase i v Ho) as [(_ & Hh & Hr & Hty & w' & pk & Hw' & _ & Hpk & Hv & Hvb) _].
  rewrite Hw in Hw'. injection Hw' as <-. destruct (Vote_Verify_Ok _ _ _ Hv) as (msg & sig & Hm & Hsig & Hvs).
  assert (Hent : forall flag, (if flag =? BlockIDFlagCommit then b else zero_BlockID) = v_BlockID v ->
    flag = BlockIDFlagCommit \/ flag = BlockIDFlagNil ->
    entry_ok (vs_chainID s) (vs_height s) (vs_round s) b
      (mkCommitSig flag (v_ValidatorAddress v) (v_Timestamp v) (v_Signature v)) w).
  { intros flag Hbid Hflag _. exists sig, pk, msg. split_and!; try done. rewrite <- Hm. unfold sign_msg.
    assert (Hcb : CommitSig_BlockID (E:=verify_error)
      (mkCommitSig flag (v_ValidatorAddress v) (v_Timestamp v) (v_Signature v)) b = Ok (v_BlockID v)).
    { rewrite <- Hbid. by destruct Hflag as [-> | ->]. }
    rewrite Hcb. cbn [mbind outcome_bind]. apply VoteSignBytes_fields; cbn; congruence. }
  unfold commit_sig, Vote_CommitSig. destruct Hvb as [[Hz|Hc] _].
  - rewrite Hz, zero_not_complete. cbn. rewrite Hsig. cbn. eexists. split; [done|]. rewrite <- Hsig. split.
    + apply Hent; [by rewrite Hz|by right].
    + intros v' [= <-] Hv'. rewrite Hz in Hv'. subst b. done.
  - rewrite Hc. cbn [mbind outcome_bind Absent cs_BlockIDFlag cs_Signature]. rewrite Hsig. cbn [negb andb].
    rewrite (bool_decide_eq_false_2 (Some sig = None)) by done. rewrite andb_false_r. cbn [ForBlock cs_BlockIDFlag].
    cbn [Z.eqb BlockIDFlagCommit Pos.eqb andb]. destruct (BlockID_Equals (v_BlockID v) b) eqn:Eq; cbn [negb].
    + apply BlockID_Equals_true in Eq. eexists. split; [done|]. rewrite <- Hsig. split; [|done].
      by apply Hent; [cbn|left].
    + exists NewCommitSigAbsent. split_and!; [done|done|]. intros v' [= <-] Hv'.
      by rewrite Hv', (proj2 (BlockID_Equals_true b b) eq_refl) in Eq.
Qed.

Lemma commit_sigs_ok {E} b votes vs (R : CommitSig -> option Vote -> Validator -> Prop) :
  length votes = length vs ->
  (forall (i : nat) o w, votes !! i = Some o -> vs !! i = Some w -> exists cs, commit_sig (E:=E) b o = Ok cs /\ R cs o w) ->
  exists css, commit_sigs (E:=E) b votes = Ok css /\ length css = length vs /\
    forall (i : nat) cs o w, css !! i = Some cs -> votes !! i = Some o -> vs !! i = Some w -> R cs o w.
Proof.
  revert vs. induction votes as [|o votes IH]; intros [|w vs] Hl Hall; try done; [by exists []|]. injection Hl as Hl.
  destruct (Hall 0%nat o w eq_refl eq_refl) as (cs & Hcs & HR).
  destruct (IH vs Hl (fun i => Hall (S i))) as (css & Hcss & Hlen & Hrest). exists (cs :: css).
  cbn [commit_sigs]. rewrite Hcs, Hcss. split_and!; [done|cbn; lia|]. intros [|i] cs' o' w' H1 H2 H3; [naive_solver|].
  by eapply (Hrest i).
Qed.

Lemma voted_block_weight vs votes sigs :
  Forall (fun v => 0 <= VotingWeight v) vs -> length votes = length vs -> length sigs = length vs ->
  (forall (i : nat) v cs, votes !! i = Some (Some v) -> sigs !! i = Some cs -> ForBlock cs = true) ->
  voted vs votes <= block_weight sigs vs.
Proof.
  revert votes sigs. induction vs as [|w vs IH]; intros [|o votes] [|cs sigs] Hp Hl1 Hl2 Hall; try done.
  injection Hl1 as Hl1. injection Hl2 as Hl2. apply Forall_cons in Hp as [Hw Hp].
  specialize (IH votes sigs Hp Hl1 Hl2 (fun i => Hall (S i))).
  change ((if has o then VotingWeight w else 0) + voted vs votes <=
          (if ForBlock cs then VotingWeight w else 0) + block_weight sigs vs).
  destruct o as [v|]; [rewrite (Hall 0%nat v cs eq_refl eq_refl); cbn; lia|]. cbn. destruct (ForBlock cs); lia.
Qed.

End crypto.

Lemma block_weight_voted vs sigs votes :
  Forall (fun v => 0 <= VotingWeight v) vs -> length vs = length sigs -> length votes = length vs ->
  (forall (i : nat) cs, sigs !! i = Some cs -> ForBlock cs = true -> exists v, votes !! i = Some (Some v)) ->
  block_weight sigs vs <= voted vs votes.
Proof.
  revert sigs votes. induction vs as [|w vs IH]; intros [|cs sigs] [|o votes] Hp Hl1 Hl2 Hall; try done.
  injection Hl1 as Hl1. injection Hl2 as Hl2. apply Forall_cons in Hp as [Hw Hp].
  specialize (IH sigs votes Hp Hl1 Hl2 (fun i => Hall (S i))).
  change ((if ForBlock cs then VotingWeight w else 0) + block_weight sigs vs <=
          (if has o then VotingWeight w else 0) + voted vs votes).
  destruct (ForBlock cs) eqn:Ef; [|destruct (has o); lia].
  destruct (Hall 0%nat cs eq_refl Ef) as [v [= ->]]. cbn. lia.
Qed.

Lemma block_weight_pos sigs vs :
  0 < block_weight sigs vs -> exists (k : nat) cs, sigs !! k = Some cs /\ ForBlock cs = true.
Proof.
  revert vs. induction sigs as [|cs sigs IH]; intros [|w vs] Hp; try done.
  destruct (ForBlock cs) eqn:Ef; [by exists 0%nat, cs|]. unfold block_weight in *. cbn [zip_with Zsum] in Hp. rewrite Ef in Hp.
  destruct (IH vs ltac:(lia)) as (k & cs' & Hk & Hf). by exists (S k), cs'.
Qed.

(** ** [MakeCommit] *)

(** C35: a commit made from a majority verifies.  Take any set of precommits
    that calls can build and that reports a majority for a whole block.
    [MakeCommit] does not panic, and [VerifyCommit] accepts its commit for that
    block and height against the set's voters, whatever mix of keys they have:
    the BLS signatures it folded into the aggregate verify together, and the
    precommits of voters that voted nil, or for another block, do not spoil
    it. *)
Theorem make_commit_verifies {crypto : CryptoLib} {codec : TimeCodec} {laws : BlsLaws} chainID height round vs s0 s b :
  voters_wf vs -> NewVoteSet (E:=unit) chainID height round PrecommitType vs = Ok s0 -> rtc vs_call s0 s ->
  TwoThirdsMajority s = (b, true) -> BlockID_IsComplete b = true ->
  exists commit, MakeCommit (E:=unit) s = Ok commit /\ c_BlockID commit = b /\
    fst (VerifyCommit chainID b height (Some commit) vs) = Ok tt.
Proof.
  intros Hwf Hn Hr Htt Hb. destruct (new_good _ _ _ _ _ _ Hwf Hn) as (Hg0 & Hc & Hh & Hro & Ht & Hvs).
  destruct (vs_calls_good _ _ Hr Hg0) as (Hg & [S1 S2 S3 S4 S5] & _). rewrite Hvs in S5.
  rewrite Hc in S1. rewrite Hh in S2. rewrite Hro in S3. rewrite Ht in S4. pose proof (gd_inv _ Hg) as Hinv.
  assert (Em : vs_maj23 s = Some b) by (unfold TwoThirdsMajority in Htt; destruct (vs_maj23 s); naive_solver).
  destruct (maj23_votes s b Hinv Em) as (bv & _ & Hbi & Hm & _ & Hvotes).
  unfold majority in Hm. rewrite (bi_sum _ _ _ _ Hbi), S5 in Hm.
  assert (Hlen : length (vs_votes s) = length (Voters vs)) by (rewrite (vi_len _ _ (proj1 Hinv)); by rewrite S5).
  destruct (commit_sigs_ok (E:=unit) b (vs_votes s) (Voters vs) (fun cs o w =>
    entry_ok chainID height round b cs w /\ forall v, o = Some v -> v_BlockID v = b -> ForBlock cs = true) Hlen)
    as (css & Hcss & Hlcs & Hent).
  { intros i o w Ho Hw. rewrite <- S1, <- S2, <- S3. rewrite <- S5 in Hw. by eapply commit_sig_ok. }
  assert (HF : Forall2 (entry_ok chainID height round b) css (Voters vs)).
  { apply Forall2_same_length_lookup. split; [done|]. intros i cs w H1 H2.
    destruct (lookup_lt_is_Some_2 (vs_votes s) i) as [o Ho]; [rewrite Hlen; by eapply lookup_lt_Some|].
    by apply (Hent i cs o w). }
  destruct (aggregate_loop_ok (E:=unit) chainID height round b css (Voters vs) None [] [] HF) as (sigs & aggr & Hag & HA & Hres);
    [done|]. set (commit := mkCommit height round b sigs aggr). exists commit. split_and!; [|done|].
  - unfold MakeCommit. rewrite S4. cbn [negb]. rewrite Z.eqb_refl, Em, Hcss. cbn [mbind outcome_bind negb].
    unfold AggregateSignatures. rewrite bool_decide_eq_false_2 by (by intros []). cbn [NewCommit c_Signatures c_AggregatedSignature].
    rewrite Hag. cbn. by rewrite S2, S3.
  - destruct (Hres commit [] ltac:(done) eq_refl) as [Has Hok]. apply VerifyCommit_iff; [done|].
    assert (Hls : length sigs = length (Voters vs)) by (rewrite <- Hlcs; symmetry; by eapply Forall2_length).
    split_and!; [done|done|done|done|by apply agg_ok_verifies|].
    enough (voted (Voters vs) (bv_votes bv) <= block_weight (c_Signatures commit) (Voters vs)) by lia.
    apply voted_block_weight; [apply Hwf|rewrite (bi_len _ _ _ _ Hbi); by rewrite S5|done|].
    intros i v cs' Hi Hcs'. destruct (Hvotes i v Hi) as [Hp Hvb].
    destruct (Forall2_lookup_r _ _ _ _ _ HA Hcs') as (cs & Hcs & Hagg).
    destruct (lookup_lt_is_Some_2 (Voters vs) i) as [w Hw]; [rewrite <- Hls; by eapply lookup_lt_Some|].
    destruct (Hent i cs (Some v) w Hcs Hp Hw) as [_ Hfor]. specialize (Hfor v eq_refl Hvb). by destruct Hagg as [-> | ->].
Qed.

(** ** [CommitToVoteSet] *)

Lemma GetVote_Ok {E} commit (k : nat) v :
  GetVote (E:=E) commit (Z.of_nat k) = Ok v <->
  exists cs bid, c_Signatures commit !! k = Some cs /\ CommitSig_BlockID (E:=unit) cs (c_BlockID commit) = Ok bid /\
    v = mkVote PrecommitType (c_Height commit) (c_Round commit) bid (cs_Timestamp cs) (cs_ValidatorAddress cs)
          (Z.of_nat k) (cs_Signature cs).
Proof.
  unfold GetVote, CommitSig_BlockID. rewrite idx_nat. destruct (c_Signatures commit !! k) as [cs|]; cbn [mbind outcome_bind];
    [|split; [done|by intros (? & ? & [=] & _)]].
  destruct (cs_BlockIDFlag cs =? BlockIDFlagAbsent) eqn:E1; [|destruct (cs_BlockIDFlag cs =? BlockIDFlagCommit) eqn:E2;
    [|destruct (cs_BlockIDFlag cs =? BlockIDFlagNil) eqn:E3]]; cbn [mbind outcome_bind]; split.
  all: try (intros [= <-]; eexists _, _; split_and!; [done| |done]; by rewrite ?E1, ?E2, ?E3).
  all: try (intros (? & ? & [= <-] & Hb & ->); rewrite ?E1, ?E2, ?E3 in Hb; by injection Hb as <-).
  - done.
  - intros (? & ? & [= <-] & Hb & ->). by rewrite E1, E2, E3 in Hb.
Qed.

Section rebuild.
  Context {crypto : CryptoLib} {codec : TimeCodec}.
  Context (chainID : bytes) (commit : Commit) (vs : VoterSet).
  #[local] Abbreviation sigs := (c_Signatures commit).

(** Every voter has a key, and is known by the address of it. *)
Definition voters_keyed : Prop :=
  forall w, w ∈ Voters vs -> exists pk, vPubKey w = Some pk /\ Address w <> [] /\
    forall E, PubKey_Address (E:=E) pk = Ok (Address w).

(** Every entry names the address of the voter at its position. *)
Definition entries_named : Prop :=
  forall (k : nat) cs w, sigs !! k = Some cs -> Voters vs !! k = Some w -> Absent cs = false ->
    cs_ValidatorAddress cs = Address w.

  Hypothesis Hwf : voters_wf vs.
  Hypothesis Hlen : length (Voters vs) = length sigs.
  Hypothesis Hkeyed : voters_keyed.
  Hypothesis Hnamed : entries_named.
  Hypothesis Hsign : all_sign chainID commit 0 sigs (Voters vs).

Definition vote_before (n : nat) (_ : bytes) (_ : PubKey) (v : Vote) : Prop :=
  exists k : nat, (k < n)%nat /\ GetVote (E:=unit) commit (Z.of_nat k) = Ok v.

(** The set after the first [n] entries. *)
Record rebuilt (n : nat) (s : VoteSet) : Prop := {
  rb_inv : vs_inv (vote_before n) s;
  rb_chain : vs_chainID s = chainID;
  rb_height : vs_height s = c_Height commit;
  rb_round : vs_round s = c_Round commit;
  rb_type : vs_signedMsgType s = PrecommitType;
  rb_voters : Voters (vs_voterSet s) = Voters vs;
  rb_recorded : forall (k : nat) cs v, (k < n)%nat -> sigs !! k = Some cs -> Absent cs = false ->
    GetVote (E:=unit) commit (Z.of_nat k) = Ok v -> recorded s k v
}.

Lemma rebuilt_skip n s cs : rebuilt n s -> sigs !! n = Some cs -> Absent cs = true -> rebuilt (S n) s.
Proof.
  intros [R1 R2 R3 R4 R5 R6 R7] Hn Ha. constructor; try done.
  - eapply vs_inv_mono; [|exact R1]. intros c pk v (k & Hk & Hv). exists k. split; [lia|done].
  - intros k cs' v Hk Hcs Ha'. destruct (decide (k = n)) as [->|]; [congruence|]. apply (R7 k cs'); [lia|done|done].
Qed.

(** The entry's vote, with the check that applies to it. *)
Lemma entry_vote n cs w :
  sigs !! n = Some cs -> Voters vs !! n = Some w -> Absent cs = false ->
  exists v pk msg, GetVote (E:=unit) commit (Z.of_nat n) = Ok v /\ v_Signature v = cs_Signature cs /\
    v_ValidatorIndex v = Z.of_nat n /\ v_ValidatorAddress v = Address w /\ vPubKey w = Some pk /\ Address w <> [] /\
    (forall E, PubKey_Address (E:=E) pk = Ok (Address w)) /\
    (forall E, VoteSignBytes (E:=E) chainID v = Ok msg) /\
    (forall E, Commit_VoteSignBytes (E:=E) commit chainID (Z.of_nat n) = Ok msg) /\
    match cs_Signature cs with
    | Some sig => VerifySignature pk msg sig = true
    | None => is_Some (GetSignatureKey pk)
    end.
Proof.
  intros Hn Hw Ha. destruct (Hsign n cs w Hn Hw Ha) as (msg & Hmsg & Hs).
  rewrite Z.add_0_l in Hmsg. pose proof Hmsg as Hm. unfold Commit_VoteSignBytes in Hm.
  apply obind_Ok in Hm as (v & Hv & Hsb). apply GetVote_Ok in Hv as (cs' & bid & Hcs' & Hbid & Hv).
  rewrite Hn in Hcs'. injection Hcs' as <-.
  destruct (Hkeyed w (list_elem_of_lookup_2 _ _ _ Hw)) as (pk & Hpk & Hne & Haddr). exists v, pk, msg.
  assert (Hget : forall E, GetVote (E:=E) commit (Z.of_nat n) = Ok v)
    by (intros E; apply GetVote_Ok; exists cs, bid; by split_and!).
  assert (HsbE : forall E, VoteSignBytes (E:=E) chainID v = Ok msg) by (intros E; by eapply VoteSignBytes_E).
  split_and!; try done; try (by subst v).
  - subst v. cbn. by apply (Hnamed n).
  - intros E. unfold Commit_VoteSignBytes. rewrite Hget. apply HsbE.
  - destruct (cs_Signature cs) as [sig|].
    + destruct Hs as (pk' & Hpk' & Hver). congruence.
    + by rewrite Hpk in Hs.
Qed.

(** The vote added, by either method. *)
Lemma rebuilt_add {E} n s cs w v pk exec :
  rebuilt n s -> sigs !! n = Some cs -> Voters vs !! n = Some w -> Absent cs = false ->
  GetVote (E:=unit) commit (Z.of_nat n) = Ok v -> v_ValidatorAddress v = Address w -> vPubKey w = Some pk ->
  Address w <> [] -> exec v chainID pk = Ok tt ->
  exists s', must_add (addVote (E:=E) s (Some v) exec) = Ok s' /\ rebuilt (S n) s'.
Proof.
  intros [R1 R2 R3 R4 R5 R6 R7] Hn Hw Ha Hget Haddr Hpk Hne Hex.
  assert (R1' : vs_inv (vote_before (S n)) s).
  { eapply vs_inv_mono; [|exact R1]. intros c p u (k & Hk & Hu). exists k. split; [lia|done]. }
  pose proof Hget as Hg. apply GetVote_Ok in Hg as (cs' & bid & Hcs' & Hbid & Hv). rewrite Hn in Hcs'. injection Hcs' as <-.
  assert (Hc : cast (vote_before (S n)) s n v).
  { subst v. cbn in *. split_and!; try done. exists w, pk. rewrite R6. split_and!; try done. by exists n; split; [lia|]. }
  assert (Hnone : vs_votes s !! n = Some None).
  { destruct (lookup_lt_is_Some_2 (vs_votes s) n) as [o Ho].
    { rewrite (vi_len _ _ (proj1 R1)), R6. by eapply lookup_lt_Some. }
    destruct o as [u|]; [|done]. exfalso.
    destruct (vi_cast _ _ (proj1 R1) n u Ho) as [(Hidx & _ & _ & _ & ? & ? & _ & _ & _ & k & Hk & Hu) _].
    apply GetVote_Ok in Hu as (? & ? & _ & _ & ->). cbn in Hidx. lia. }
  rewrite <- R6 in Hw. rewrite <- R2 in Hex.
  destruct (addVote_fresh _ (E:=E) s v exec n w pk R1' Hc Hw Hpk Hne Hex Hnone) as (s' & Hadd & Hk & Hrec).
  exists s'. rewrite Hadd. split; [done|]. destruct Hk as [Hi [S1 S2 S3 S4 S5] _ _ Hmono _].
  constructor; try congruence. intros k cs' u Hk Hcs' Ha' Hu. destruct (decide (k = n)) as [->|].
  - rewrite Hu in Hget. by injection Hget as ->.
  - apply Hmono, (R7 k cs'); [lia|done..].
Qed.

Lemma to_vote_set_ok {E} pre rest vrest s ks ms :
  sigs = pre ++ rest -> vrest = drop (length pre) (Voters vs) -> rebuilt (length pre) s ->
  exists s', to_vote_set (E:=E) chainID commit vs rest (lenZ pre) s ks ms =
      Ok (s', ks ++ (omitted chainID commit (lenZ pre) rest vrest).*1, ms ++ (omitted chainID commit (lenZ pre) rest vrest).*2) /\
    rebuilt (length sigs) s'.
Proof.
  revert pre vrest s ks ms. induction rest as [|cs rest IH]; intros pre vrest s ks ms Hs Hv Hr.
  { exists s. rewrite app_nil_r in Hs. cbn. rewrite !app_nil_r. split; [done|by rewrite Hs]. }
  assert (Hcs : sigs !! length pre = Some cs) by (by rewrite Hs, list_lookup_middle).
  destruct (lookup_lt_is_Some_2 (Voters vs) (length pre)) as [w Hw].
  { rewrite Hlen. by eapply lookup_lt_Some. }
  rewrite (drop_S _ _ _ Hw) in Hv. subst vrest. cbn [to_vote_set omitted].
  assert (Hs1 : sigs = (pre ++ [cs]) ++ rest) by (by rewrite <- app_assoc).
  assert (Hl1 : length (pre ++ [cs]) = S (length pre)) by (rewrite length_app; cbn; lia).
  assert (Hl2 : lenZ (pre ++ [cs]) = lenZ pre + 1) by (unfold lenZ; rewrite Hl1; lia).
  assert (IH' : forall s1 ks1 ms1, rebuilt (S (length pre)) s1 -> exists s',
    to_vote_set (E:=E) chainID commit vs rest (lenZ pre + 1) s1 ks1 ms1 =
      Ok (s', ks1 ++ (omitted chainID commit (lenZ pre + 1) rest (drop (S (length pre)) (Voters vs))).*1,
              ms1 ++ (omitted chainID commit (lenZ pre + 1) rest (drop (S (length pre)) (Voters vs))).*2) /\
    rebuilt (length sigs) s').
  { intros s1 ks1 ms1 Hr1. rewrite <- Hl2, <- Hl1. apply IH; [done|done|by rewrite Hl1]. }
  clear IH. unfold omitted_at. destruct (Absent cs) eqn:Ha; [apply IH'; by eapply rebuilt_skip|].
  destruct (entry_vote _ _ _ Hcs Hw Ha) as (v & pk & msg & Hget & Hsig & Hidx & Haddr & Hpk & Hne & Hpa & Hsb & Hcsb & Hchk).
  assert (Hlt : 0 <= lenZ pre < 2 ^ 31).
  { pose proof (vwf_size _ Hwf) as Hsz. apply lookup_lt_Some in Hw. unfold lenZ in *. lia. }
  rewrite wrap32_id by (unfold_ints; lia).
  assert (HgetE : GetVote (E:=E) commit (lenZ pre) = Ok v) by (apply GetVote_Ok; by apply GetVote_Ok in Hget).
  rewrite HgetE. cbn [mbind outcome_bind]. rewrite Hsig. destruct (cs_Signature cs) as [sig|].
  - destruct (rebuilt_add (E:=E) _ s cs w v pk (fun v c p => Vote_Verify c p v) Hr Hcs Hw Ha Hget Haddr Hpk Hne) as (s1 & Hadd & Hr1).
    { unfold Vote_Verify. rewrite Hpa. cbn [mbind outcome_bind]. rewrite Haddr, bytes_eqb_refl. cbn [negb].
      rewrite Hsb, Hsig. cbn [mbind outcome_bind]. change (sig_bytes (Some sig)) with sig. by rewrite Hchk. }
    unfold AddVote. rewrite Hadd. cbn [mbind outcome_bind]. apply IH', Hr1.
  - destruct (rebuilt_add (E:=E) _ s cs w v pk (fun v _ p => addr ← PubKey_Address p;
      if negb (bytes_eqb addr (v_ValidatorAddress v)) then Err ErrVoteInvalidValidatorAddress else Ok tt)
      Hr Hcs Hw Ha Hget Haddr Hpk Hne) as (s1 & Hadd & Hr1).
    { rewrite Hpa. cbn [mbind outcome_bind]. by rewrite Haddr, bytes_eqb_refl. }
    unfold AddAggregatedVote. rewrite Hadd. cbn [mbind outcome_bind]. unfold Voters_GetByIndex. rewrite Hidx.
    pose proof (lookup_lt_Some _ _ _ Hw) as Hwlt.
    rewrite (proj2 (Z.ltb_ge (Z.of_nat (length pre)) 0)), (proj2 (Z.leb_gt (lenZ (Voters vs)) (Z.of_nat (length pre)))) by (unfold lenZ; lia).
    cbn [orb]. rewrite Nat2Z.id, Hw, Hsb. cbn [mbind outcome_bind]. rewrite Hpk. cbn [mbind option_bind].
    destruct Hchk as [k Hk]. rewrite Hk. change (Z.of_nat (length pre)) with (lenZ pre) in Hcsb. rewrite Hcsb.
    destruct (IH' s1 (ks ++ [k]) (ms ++ [msg]) Hr1) as (s' & Hloop & Hfin). exists s'. split; [|done].
    rewrite Hloop. rewrite <- !app_assoc. done.
Qed.

Lemma rebuilt_majority s :
  rebuilt (length sigs) s -> votable (c_BlockID commit) -> BlockID_IsComplete (c_BlockID commit) = true ->
  2 * Zsum (weights (Voters vs)) < 3 * block_weight sigs (Voters vs) -> TwoThirdsMajority s = (c_BlockID commit, true).
Proof.
  intros [R1 R2 R3 R4 R5 R6 R7] Hb Hcomp Hw. pose proof (proj1 R1) as Hbase. pose proof (weights_nonneg _ Hwf) as Hpos.
  assert (Hrec : forall (k : nat) cs, sigs !! k = Some cs -> ForBlock cs = true -> exists v, v_BlockID v = c_BlockID commit /\ recorded s k v).
  { intros k cs Hk Hf. unfold ForBlock in Hf. apply Z.eqb_eq in Hf.
    assert (Hbid : CommitSig_BlockID (E:=unit) cs (c_BlockID commit) = Ok (c_BlockID commit))
      by (unfold CommitSig_BlockID; by rewrite Hf).
    eexists (mkVote _ _ _ (c_BlockID commit) _ _ _ _). split; [done|].
    eapply (R7 k cs); [by eapply lookup_lt_Some|done|unfold Absent; by rewrite Hf|].
    apply GetVote_Ok. exists cs, (c_BlockID commit). by split_and!. }
  destruct (block_weight_pos sigs (Voters vs)) as (k0 & cs0 & Hk0 & Hf0); [lia|].
  destruct (Hrec k0 cs0 Hk0 Hf0) as (v0 & Hv0 & bv & Hbv & _). rewrite Hv0 in Hbv.
  pose proof (vi_block _ _ Hbase _ _ Hbv) as Hbi.
  assert (Hmaj : majority s (bv_sum bv)).
  { unfold majority. rewrite (bi_sum _ _ _ _ Hbi), R6. enough (block_weight sigs (Voters vs) <= voted (Voters vs) (bv_votes bv)) by lia.
    apply block_weight_voted; [apply Hwf|done|rewrite (bi_len _ _ _ _ Hbi); by rewrite R6|].
    intros k cs Hk Hf. destruct (Hrec k cs Hk Hf) as (v & Hvb & bv' & Hbv' & Hv). rewrite Hvb, Hbv in Hbv'. injection Hbv' as <-. by exists v. }
  pose proof (proj2 R1) as Hm. unfold maj_inv in Hm. unfold TwoThirdsMajority. destruct (vs_maj23 s) as [b'|]; [|by destruct (Hm _ _ Hbv)].
  destruct Hm as (bv' & Hbv' & Hmaj' & _ & i & u & Hi & Hu). pose proof (vi_block _ _ Hbase _ _ Hbv') as Hbi'.
  assert (Hvote : forall key bv0 (j : nat) v, vs_votesByBlock s !! key = Some bv0 -> bv_votes bv0 !! j = Some (Some v) ->
    GetVote (E:=unit) commit (Z.of_nat j) = Ok v /\ BlockID_Key (v_BlockID v) = key).
  { intros key bv0 j v Hk Hj. destruct (bi_cast _ _ _ _ (vi_block _ _ Hbase _ _ Hk) j v Hj) as [Hc Hkey]. split; [|done].
    destruct Hc as (Hidx & _ & _ & _ & ? & ? & _ & _ & _ & k & _ & Hv). pose proof Hv as Hv'.
    apply GetVote_Ok in Hv' as (? & ? & _ & _ & ->). cbn in Hidx. by replace j with k by lia. }
  destruct (Hvote _ _ i u Hbv' Hi) as [Hgu _]. apply GetVote_Ok in Hgu as (cs & bid & _ & Hbid & Hgu).
  assert (Hor : b' = c_BlockID commit \/ b' = zero_BlockID).
  { rewrite <- Hu, Hgu. cbn. unfold CommitSig_BlockID in Hbid. repeat (destruct (_ =? _); [injection Hbid as <-; auto|]). done. }
  destruct Hor as [-> | ->]; [done|]. exfalso.
  pose proof (voted_disjoint (Voters vs) (bv_votes bv) (bv_votes bv') (vwf_weight _ Hwf)) as Hdis.
  unfold majority in *. rewrite (bi_sum _ _ _ _ Hbi), R6 in Hmaj. rewrite (bi_sum _ _ _ _ Hbi'), R6 in Hmaj'.
  enough (voted (Voters vs) (bv_votes bv) + voted (Voters vs) (bv_votes bv') <= Zsum (weights (Voters vs))) by lia.
  apply Hdis. intros j v1 v2 H1 H2. destruct (Hvote _ _ j v1 Hbv H1) as [G1 K1]. destruct (Hvote _ _ j v2 Hbv' H2) as [G2 K2].
  rewrite G1 in G2. injection G2 as ->. rewrite K1 in K2.
  apply BlockID_Key_inj in K2; [|done|by split; [left|cbn; lia]]. rewrite K2 in Hcomp. by rewrite zero_not_complete in Hcomp.
Qed.

End rebuild.

(** A commit that verifies gives the majority back.  Let the voters have
    keys and the addresses of them, and let every entry that is not absent name
    the address of the voter at its position.  If [VerifyCommit] accepts the
    commit for its block, then [CommitToVoteSet], by which a node rebuilds its
    last commit when it restarts, does not panic and its set reports the
    majority for that block. *)
Theorem commit_rebuilds {crypto : CryptoLib} {codec : TimeCodec} chainID b height commit vs :
  voters_wf vs -> voters_keyed vs -> entries_named commit vs -> height <> 0 -> votable b -> BlockID_IsComplete b = true ->
  fst (VerifyCommit chainID b height (Some commit) vs) = Ok tt ->
  exists s, CommitToVoteSet (E:=unit) chainID commit vs = Ok s /\ TwoThirdsMajority s = (b, true).
Proof.
  intros Hwf Hkeyed Hnamed Hh Hb Hc Hv. apply VerifyCommit_iff in Hv as (Hlen & -> & -> & Hsign & Hagg & Hw); [|done].
  unfold CommitToVoteSet. destruct (NewVoteSet (E:=unit) chainID (c_Height commit) (c_Round commit) PrecommitType vs) as [s0| |] eqn:En.
  2,3: unfold NewVoteSet in En; rewrite (proj2 (Z.eqb_neq _ 0) Hh) in En; done.
  cbn [mbind outcome_bind]. assert (Hr0 : rebuilt chainID commit vs 0 s0).
  { pose proof (new_set_inv (vote_before commit 0) _ _ _ _ _ _ Hwf En) as [Hinv _]. unfold NewVoteSet in En.
    destruct (c_Height commit =? 0); [done|]. injection En as <-. constructor; try done. intros k cs v Hk. lia. }
  destruct (to_vote_set_ok (E:=unit) chainID commit vs Hwf Hlen Hkeyed Hnamed Hsign [] (c_Signatures commit) _ s0 [] [] eq_refl eq_refl Hr0)
    as (s & Hloop & Hr). change (lenZ []) with 0 in Hloop. rewrite Hloop. cbn [mbind outcome_bind app drop length].
  exists s. split; [|by eapply rebuilt_majority]. destruct (c_AggregatedSignature commit); [|done]. by rewrite drop_0, Hagg.
Qed.

(** ** Examples *)

Definition mixed_commit : Commit :=
  match @MakeCommit toy_crypto unit (after_votes mixed_set mixed_votes) with
  | Ok c => c
  | _ => NewCommit 0 0 zero_BlockID []
  end.

Lemma make_commit_verifies_witness :
  exists commit, @MakeCommit toy_crypto unit (after_votes mixed_set mixed_votes) = Ok commit /\
    c_BlockID commit = sample_block_id /\
    fst (@VerifyCommit toy_crypto toy_time [7] sample_block_id 5 (Some commit) mixed_voters) = Ok tt.
Proof.
  apply (@make_commit_verifies toy_crypto toy_time toy_bls_laws [7] 5 0 mixed_voters mixed_set
    (after_votes mixed_set mixed_votes) sample_block_id mixed_voters_wf eq_refl (after_votes_calls _ _ mixed_votes_votable)).
  - vm_compute. reflexivity.
  - reflexivity.
Defined.

Lemma mixed_keyed : @voters_keyed toy_crypto mixed_voters.
Proof.
  intros w Hw. assert (Hw' : exists n, w = mkValidator (toy_address (key_of n)) (Some (mixed_key n)) 1 1 0 /\ 1 <= n <= 4).
  { apply list_elem_of_fmap in Hw as (n & -> & Hn). exists n. split; [done|].
    repeat (apply elem_of_cons in Hn as [->|Hn]; [lia|]). by apply elem_of_nil in Hn. }
  destruct Hw' as (n & -> & Hn). exists (mixed_key n). split_and!; [done|done|].
  intros E. cbn [Address]. unfold mixed_key, toy_address. by destruct (n <? 3).
Qed.

Lemma commit_rebuilds_witness :
  exists s, @CommitToVoteSet toy_crypto toy_time unit [7] mixed_commit mixed_voters = Ok s /\
    TwoThirdsMajority s = (sample_block_id, true).
Proof.
  apply (@commit_rebuilds toy_crypto toy_time [7] sample_block_id 5 mixed_commit mixed_voters mixed_voters_wf mixed_keyed).
  - intros k cs w Hk Hw _. destruct k as [|[|[|[|k]]]]; [..|done]; vm_compute in Hk, Hw; injection Hk as <-; injection Hw as <-; reflexivity.
  - discriminate.
  - apply sample_votable.
  - reflexivity.
  - vm_compute. reflexivity.
Defined.

(** The commit with another address in its first entry. *)
Definition misnamed_commit : Commit :=
  set_signatures mixed_commit
    (((fun cs => mkCommitSig (cs_BlockIDFlag cs) (replicate 20 0) (cs_Timestamp cs) (cs_Signature cs)) <$>
       take 1 (c_Signatures mixed_commit)) ++ drop 1 (c_Signatures mixed_commit))
    (c_AggregatedSignature mixed_commit).

(** A commit that verifies need not give a vote set.  No signature covers
    the validator addresses of a commit and [VerifyCommit] does not compare
    them with the voters', so a commit with a wrong address in an entry passes
    [ValidateBasic] and [VerifyCommit]; [CommitToVoteSet], which a node runs on
    its last commit when it restarts, panics on it. *)
Theorem misnamed_commit_panics :
  Commit_ValidateBasic misnamed_commit = Ok tt /\
  fst (@VerifyCommit toy_crypto toy_time [7] sample_block_id 5 (Some misnamed_commit) mixed_voters) = Ok tt /\
  @CommitToVoteSet toy_crypto toy_time unit [7] misnamed_commit mixed_voters = Panic.
Proof. repeat split; vm_compute; reflexivity. Qed.
