(* ===== verification/Merkle.v ===== *)
(** * Merkle trees: src/crypto/merkle

    [HashFromByteSlices] and its iterative variant, and the proofs of
    inclusion: [ProofsFromByteSlices], which builds a tree of linked nodes and
    reads the proofs off it, and [Proof.Verify]. *)

From Stdlib Require Import ZArith Lia.
From stdpp Require Import prelude list.
From S2P Require Import Prelude Crypto.

Local Open Scope Z_scope.

(** ** Splitting *)

(** [bits.Len] of a positive number is one more than its logarithm. *)
Definition split_point (length : Z) : Z :=
  let k := Z.shiftl 1 (Z.log2 length) in
  if k =? length then Z.shiftr k 1 else k.

Definition getSplitPoint {E} (length : Z) : outcome E Z :=
  if length <? 1 then Panic else Ok (split_point length).

Lemma split_point_spec n :
  2 <= n -> exists j, 0 <= j /\ split_point n = 2 ^ j /\ 2 ^ j < n <= 2 ^ (j + 1).
Proof.
  intros Hn. unfold split_point. rewrite Z.shiftl_mul_pow2, Z.mul_1_l by apply Z.log2_nonneg.
  pose proof (Z.log2_spec n ltac:(lia)) as [Hlo Hhi]. pose proof (Z.log2_le_mono 2 n Hn) as H1. change (Z.log2 2) with 1 in H1.
  destruct (Z.eqb_spec (2 ^ Z.log2 n) n) as [Heq|Hne].
  - exists (Z.log2 n - 1). rewrite Z.shiftr_div_pow2 by lia.
    replace (Z.log2 n - 1 + 1) with (Z.log2 n) by lia.
    assert (H2 : 2 ^ Z.log2 n = 2 * 2 ^ (Z.log2 n - 1)).
    { rewrite <- Z.pow_succ_r by lia. f_equal. lia. }
    pose proof (Z.pow_pos_nonneg 2 (Z.log2 n - 1) ltac:(lia) ltac:(lia)). rewrite H2. change (2 ^ 1) with 2.
    rewrite Z.mul_comm, Z.div_mul by lia. repeat split; lia.
  - exists (Z.log2 n). replace (Z.log2 n + 1) with (Z.succ (Z.log2 n)) by lia. repeat split; lia.
Qed.

Lemma split_point_range n : 2 <= n -> 1 <= split_point n < n.
Proof.
  intros Hn. destruct (split_point_spec n Hn) as (j & Hj & -> & Hlt & _).
  pose proof (Z.pow_pos_nonneg 2 j ltac:(lia) ltac:(lia)). lia.
Qed.

(** The split of half the length, rounded up, is half the split. *)
Lemma split_point_half n : 3 <= n -> split_point n = 2 * split_point ((n + 1) / 2).
Proof.
  intros Hn. destruct (split_point_spec n ltac:(lia)) as (j & Hj & -> & Hlt & Hle).
  assert (Hh : 2 <= (n + 1) / 2) by (apply Z.div_le_lower_bound; lia).
  destruct (split_point_spec _ Hh) as (i & Hi & -> & Hlt' & Hle').
  assert (Hj1 : 1 <= j). { destruct (Z.eq_dec j 0) as [->|]; [cbn in Hle; lia|lia]. }
  rewrite <- Z.pow_succ_r by lia. f_equal.
  pose proof (Z.div_mod (n + 1) 2 ltac:(lia)). pose proof (Z.mod_pos_bound (n + 1) 2 ltac:(lia)).
  rewrite Z.pow_add_r in Hle, Hle' by lia. change (2 ^ 1) with 2 in *.
  assert (Hj2 : 2 ^ j = 2 * 2 ^ (j - 1)) by (rewrite <- Z.pow_succ_r by lia; f_equal; lia).
  assert (j - 1 < i + 1) by (apply (Z.pow_lt_mono_r_iff 2); rewrite ?Z.pow_add_r by lia; change (2 ^ 1) with 2; lia).
  assert (i < j) by (apply (Z.pow_lt_mono_r_iff 2); lia). lia.
Qed.

(** ** Data *)

Record MerkleProof := mkMerkleProof {
  pr_Total : Z;
  pr_Index : Z;
  pr_LeafHash : option bytes;
  pr_Aunts : list bytes
}.

(** A node of the tree a proof is built from; nodes live in a heap, a pointer
    is a position in it. *)
Record ProofNode := mkProofNode {
  pn_Hash : bytes;
  pn_Parent : option nat;
  pn_Left : option nat;
  pn_Right : option nat
}.

Abbreviation heap := (list ProofNode).

(** ** Hashing *)

Section merkle.
  Context `{CryptoLib}.

Definition tmhash_Sum (bz : bytes) : bytes := sha256 bz.

Definition leafPrefix : bytes := [0].
Definition innerPrefix : bytes := [1].

Definition emptyHash : bytes := tmhash_Sum [].

Definition leafHash (leaf : bytes) : bytes := tmhash_Sum (leafPrefix ++ leaf).

Definition innerHash (left right : bytes) : bytes := tmhash_Sum (innerPrefix ++ left ++ right).

(** Every call is on a shorter slice: the length is fuel enough. *)
Fixpoint hash_slices (fuel : nat) (items : list bytes) : bytes :=
  match items with
  | [] => emptyHash
  | [item] => leafHash item
  | _ =>
      match fuel with
      | O => []
      | S fuel =>
          let k := Z.to_nat (split_point (lenZ items)) in
          innerHash (hash_slices fuel (take k items)) (hash_slices fuel (drop k items))
      end
  end.

Definition HashFromByteSlices (items : list bytes) : bytes := hash_slices (length items) items.

(** The inner loop of the iterative variant, on the slice it overwrites: [rp]
    reads, [wp] writes. *)
Fixpoint level_loop {E} (fuel : nat) (size : Z) (items : list bytes) (rp wp : Z) : outcome E (list bytes * Z) :=
  if rp <? size then
    match fuel with
    | O => Panic
    | S fuel =>
        if rp + 1 <? size then
          l ← idx items rp;
          r ← idx items (rp + 1);
          items ← upd items wp (innerHash l r);
          level_loop fuel size items (rp + 2) (wp + 1)
        else
          x ← idx items rp;
          items ← upd items wp x;
          level_loop fuel size items (rp + 1) (wp + 1)
    end
  else Ok (items, wp).

Fixpoint levels {E} (fuel : nat) (items : list bytes) (size : Z) : outcome E bytes :=
  if size =? 0 then Ok emptyHash
  else if size =? 1 then idx items 0
  else
    match fuel with
    | O => Panic
    | S fuel =>
        '(items, wp) ← level_loop (Z.to_nat size) size items 0 0;
        levels fuel items wp
    end.

Definition HashFromByteSlicesIterative {E} (input : list bytes) : outcome E bytes :=
  levels (length input) (leafHash <$> input) (lenZ input).

(** ** Proofs *)

Definition MaxAunts : Z := 100.

(** The aunts are used from the last to the first, so the recursion is on the
    reversed slice. *)
Fixpoint hash_from_aunts (index total : Z) (leaf : option bytes) (rev_aunts : list bytes) : option bytes :=
  if (total <=? index) || (index <? 0) || (total <=? 0) then None
  else if total =? 1 then match rev_aunts with [] => leaf | _ => None end
  else
    match rev_aunts with
    | [] => None
    | aunt :: rest =>
        let numLeft := split_point total in
        if index <? numLeft then
          match hash_from_aunts index numLeft leaf rest with
          | None => None
          | Some leftHash => Some (innerHash leftHash aunt)
          end
        else
          match hash_from_aunts (index - numLeft) (total - numLeft) leaf rest with
          | None => None
          | Some rightHash => Some (innerHash aunt rightHash)
          end
    end.

Definition computeHashFromAunts (index total : Z) (leaf : option bytes) (innerHashes : list bytes) : option bytes :=
  hash_from_aunts index total leaf (rev innerHashes).

Definition ComputeRootHash (sp : MerkleProof) : option bytes :=
  computeHashFromAunts (pr_Index sp) (pr_Total sp) (pr_LeafHash sp) (pr_Aunts sp).

Inductive proof_error :=
| ErrProofTotal | ErrProofIndex | ErrProofLeaf | ErrProofRoot | ErrLeafSize | ErrManyAunts | ErrAuntSize.

Definition Proof_Verify (sp : MerkleProof) (rootHash leaf : bytes) : outcome proof_error unit :=
  if pr_Total sp <? 0 then Err ErrProofTotal
  else if pr_Index sp <? 0 then Err ErrProofIndex
  else if negb (bytes_eqb (default [] (pr_LeafHash sp)) (leafHash leaf)) then Err ErrProofLeaf
  else if negb (bytes_eqb (default [] (ComputeRootHash sp)) rootHash) then Err ErrProofRoot
  else Ok tt.

Definition Proof_ValidateBasic (sp : MerkleProof) : outcome proof_error unit :=
  if pr_Total sp <? 0 then Err ErrProofTotal
  else if pr_Index sp <? 0 then Err ErrProofIndex
  else if bool_decide (length (default [] (pr_LeafHash sp)) <> tmhash_Size) then Err ErrLeafSize
  else if MaxAunts <? lenZ (pr_Aunts sp) then Err ErrManyAunts
  else if existsb (fun aunt => bool_decide (length aunt <> tmhash_Size)) (pr_Aunts sp) then Err ErrAuntSize
  else Ok tt.

(** *** Building proofs

    [trailsFromByteSlices] links nodes that later calls link further up. *)
Definition hash_at (h : heap) (p : nat) : bytes := from_option pn_Hash [] (h !! p).

(** [leftRoot.Parent = root; leftRoot.Right = rightRoot] and the mirror image. *)
Definition link_left (root right : nat) (n : ProofNode) : ProofNode :=
  mkProofNode (pn_Hash n) (Some root) (pn_Left n) (Some right).
Definition link_right (root left : nat) (n : ProofNode) : ProofNode :=
  mkProofNode (pn_Hash n) (Some root) (Some left) (pn_Right n).

(** The trails, the root, and the heap after. *)
Fixpoint trails_from (fuel : nat) (items : list bytes) (h : heap) : list nat * nat * heap :=
  match items with
  | [] => ([], length h, h ++ [mkProofNode emptyHash None None None])
  | [item] => ([length h], length h, h ++ [mkProofNode (leafHash item) None None None])
  | _ =>
      match fuel with
      | O => ([], length h, h)
      | S fuel =>
          let k := Z.to_nat (split_point (lenZ items)) in
          let '(lefts, leftRoot, h) := trails_from fuel (take k items) h in
          let '(rights, rightRoot, h) := trails_from fuel (drop k items) h in
          let rootHash := innerHash (hash_at h leftRoot) (hash_at h rightRoot) in
          let root := length h in
          let h := h ++ [mkProofNode rootHash None None None] in
          let h := alter (link_left root rightRoot) leftRoot h in
          let h := alter (link_right root leftRoot) rightRoot h in
          (lefts ++ rights, root, h)
      end
  end.

Definition trailsFromByteSlices (items : list bytes) (h : heap) : list nat * nat * heap :=
  trails_from (length items) items h.

(** The switch of [FlattenAunts]. *)
Definition aunt_of (h : heap) (n : ProofNode) : list bytes :=
  match pn_Left n, pn_Right n with
  | Some l, _ => [hash_at h l]
  | None, Some r => [hash_at h r]
  | None, None => []
  end.

(** The walk up; a parent is allocated after its children, so the size of the
    heap is fuel enough. *)
Fixpoint flatten_aunts (fuel : nat) (h : heap) (spn : option nat) : list bytes :=
  match spn with
  | None => []
  | Some p =>
      match fuel, h !! p with
      | S fuel, Some n => aunt_of h n ++ flatten_aunts fuel h (pn_Parent n)
      | _, _ => []
      end
  end.

Definition FlattenAunts (h : heap) (spn : nat) : list bytes := flatten_aunts (length h) h (Some spn).

Definition ProofsFromByteSlices (items : list bytes) : bytes * list MerkleProof :=
  let '(trails, root, h) := trailsFromByteSlices items [] in
  (hash_at h root,
   imap (fun i trail => mkMerkleProof (lenZ items) (Z.of_nat i) (Some (hash_at h trail)) (FlattenAunts h trail)) trails).

End merkle.
