(* ===== verification/MerkleProps.v ===== *)
(** * Theorems on Merkle trees

    The iterative hash is the recursive one; the proofs read off the linked
    tree verify; and a proof that verifies is for an item of the list, unless
    two of the strings hashed collide. *)

From Stdlib Require Import ZArith Lia.
From stdpp Require Import prelude list.
From S2P Require Import Prelude Crypto Merkle.

Local Open Scope Z_scope.

(** SHA-256 returns 32 bytes. *)
Class Sha256Length `{CryptoLib} := sha256_length b : length (sha256 b) = tmhash_Size.

Lemma toy_sha256_length : @Sha256Length toy_crypto.
Proof.
  intros b. change (@sha256 toy_crypto b) with (take 32 (checksum b :: b ++ replicate 32 0)).
  rewrite length_take, length_cons, length_app, length_replicate. unfold tmhash_Size. lia.
Qed.

Section merkle.
  Context `{CryptoLib}.

(** ** Enough fuel *)

Definition split_nat (items : list bytes) : nat := Z.to_nat (split_point (lenZ items)).

Lemma split_nat_range x y items : (0 < split_nat (x :: y :: items) < length (x :: y :: items))%nat.
Proof.
  unfold split_nat. pose proof (split_point_range (lenZ (x :: y :: items))) as Hs. unfold lenZ in *. cbn [length] in *. lia.
Qed.

Lemma hash_slices_step fuel x y items :
  let l := x :: y :: items in
  hash_slices (S fuel) l = innerHash (hash_slices fuel (take (split_nat l) l)) (hash_slices fuel (drop (split_nat l) l)).
Proof. done. Qed.

Lemma hash_slices_fuel fuel1 fuel2 items :
  (length items <= fuel1)%nat -> (length items <= fuel2)%nat -> hash_slices fuel1 items = hash_slices fuel2 items.
Proof.
  revert fuel2 items. induction fuel1 as [|f1 IH]; intros f2 items H1 H2.
  - destruct items; [by destruct f2|cbn in H1; lia].
  - destruct items as [|x [|y items]]; [by destruct f2..|]. destruct f2 as [|f2]; [cbn in H2; lia|].
    pose proof (split_nat_range x y items) as Hk. rewrite !hash_slices_step.
    set (l := x :: y :: items) in *. f_equal; apply IH; rewrite ?length_take, ?length_drop; lia.
Qed.

Lemma HashFromByteSlices_split items :
  (2 <= length items)%nat ->
  HashFromByteSlices items =
    innerHash (HashFromByteSlices (take (split_nat items) items)) (HashFromByteSlices (drop (split_nat items) items)).
Proof.
  destruct items as [|x [|y items]]; [cbn; lia..|]. intros _. pose proof (split_nat_range x y items) as Hk.
  set (l := x :: y :: items) in *. unfold HashFromByteSlices. change (length l) with (S (length (y :: items))).
  unfold l at 1 2. rewrite hash_slices_step. fold l.
  f_equal; apply hash_slices_fuel; rewrite ?length_take, ?length_drop; cbn [length] in *; unfold l in *; cbn [length] in *; lia.
Qed.

Lemma HashFromByteSlices_sha items : exists x, HashFromByteSlices items = sha256 x.
Proof.
  destruct items as [|x [|y items]]; [by eexists..|]. rewrite HashFromByteSlices_split by (cbn; lia). by eexists.
Qed.

(** ** The iterative hash *)

(** A level above: neighbours combined, an odd one kept. *)
Fixpoint pair_up (l : list bytes) : list bytes :=
  match l with
  | a :: b :: rest => innerHash a b :: pair_up rest
  | _ => l
  end.

(** The tree over hashes instead of items. *)
Fixpoint tree_hash (fuel : nat) (l : list bytes) : bytes :=
  match l with
  | [] => emptyHash
  | [x] => x
  | _ =>
      match fuel with
      | O => []
      | S fuel => innerHash (tree_hash fuel (take (split_nat l) l)) (tree_hash fuel (drop (split_nat l) l))
      end
  end.

Lemma tree_hash_step fuel x y l0 :
  let l := x :: y :: l0 in
  tree_hash (S fuel) l = innerHash (tree_hash fuel (take (split_nat l) l)) (tree_hash fuel (drop (split_nat l) l)).
Proof. done. Qed.

Lemma tree_hash_fuel f1 f2 l : (length l <= f1)%nat -> (length l <= f2)%nat -> tree_hash f1 l = tree_hash f2 l.
Proof.
  revert f2 l. induction f1 as [|f1 IH]; intros f2 items H1 H2.
  - destruct items; [by destruct f2|cbn in H1; lia].
  - destruct items as [|x [|y items]]; [by destruct f2..|]. destruct f2 as [|f2]; [cbn in H2; lia|].
    pose proof (split_nat_range x y items) as Hk. rewrite !tree_hash_step.
    set (l := x :: y :: items) in *. f_equal; apply IH; rewrite ?length_take, ?length_drop; lia.
Qed.

Lemma tree_hash_leaves fuel items : (length items <= fuel)%nat -> tree_hash fuel (leafHash <$> items) = hash_slices fuel items.
Proof.
  revert items. induction fuel as [|f IH]; intros items Hl; [destruct items; [done|cbn in Hl; lia]|].
  destruct items as [|x [|y items]]; [done..|]. pose proof (split_nat_range x y items) as Hk.
  rewrite hash_slices_step. rewrite !fmap_cons, tree_hash_step, <- !fmap_cons.
  set (l := x :: y :: items) in *.
  assert (Hs : split_nat (leafHash <$> l) = split_nat l) by (unfold split_nat, lenZ; by rewrite length_fmap).
  rewrite Hs, <- fmap_take, <- fmap_drop. f_equal; apply IH; rewrite ?length_take, ?length_drop; lia.
Qed.

Lemma pair_ind (P : list bytes -> Prop) :
  P [] -> (forall a, P [a]) -> (forall a b l, P l -> P (a :: b :: l)) -> forall l, P l.
Proof. intros H0 H1 H2. fix IH 1. intros [|a [|b l]]; [exact H0|apply H1|apply H2, IH]. Qed.

Lemma pair_up_length l : lenZ (pair_up l) = (lenZ l + 1) / 2.
Proof.
  unfold lenZ. induction l as [| |a b l IH] using pair_ind; [done..|]. cbn [pair_up length]. rewrite !Nat2Z.inj_succ, IH.
  replace (Z.succ (Z.succ (Z.of_nat (length l))) + 1) with ((Z.of_nat (length l) + 1) + 1 * 2) by lia.
  rewrite Z.div_add by lia. lia.
Qed.

Lemma pair_up_app (m : nat) l1 l2 : length l1 = (2 * m)%nat -> pair_up (l1 ++ l2) = pair_up l1 ++ pair_up l2.
Proof.
  revert l1. induction m as [|m IH]; intros l1 Hl.
  - destruct l1; [done|cbn in Hl; lia].
  - destruct l1 as [|a [|b l1]]; [cbn in Hl; lia..|]. cbn [pair_up app]. f_equal. apply IH. cbn in Hl. lia.
Qed.

(** Pairing up does not change the hash of the tree. *)
Lemma tree_hash_pair_up fuel l : (length l <= fuel)%nat -> tree_hash fuel (pair_up l) = tree_hash fuel l.
Proof.
  revert l. induction fuel as [|f IH]; intros l Hl; [destruct l; [done|cbn in Hl; lia]|].
  destruct l as [|x [|y [|z l0]]]; [done|done| |].
  { rewrite tree_hash_step. change (split_nat [x; y]) with 1%nat. by destruct f. }
  set (l := x :: y :: z :: l0) in *.
  pose proof (split_nat_range x y (z :: l0)) as Hk. fold l in Hk.
  assert (H3 : 3 <= lenZ l) by (unfold lenZ, l; cbn [length]; lia).
  pose proof (split_point_half (lenZ l) H3) as Hhalf. rewrite <- pair_up_length in Hhalf.
  set (m := split_nat (pair_up l)).
  assert (Hm : split_nat l = (2 * m)%nat).
  { unfold m, split_nat. rewrite Hhalf. lia. }
  assert (Htk : length (take (split_nat l) l) = (2 * m)%nat) by (rewrite length_take; lia).
  assert (Hup : pair_up l = pair_up (take (split_nat l) l) ++ pair_up (drop (split_nat l) l)).
  { rewrite <- (pair_up_app m) by done. by rewrite take_drop. }
  assert (Hlen : length (pair_up (take (split_nat l) l)) = m).
  { pose proof (pair_up_length (take (split_nat l) l)) as Hp. unfold lenZ in Hp. rewrite Htk in Hp.
    replace (Z.of_nat (2 * m) + 1) with (1 + Z.of_nat m * 2) in Hp by lia. rewrite Z.div_add in Hp by lia.
    change (1 / 2) with 0 in Hp. lia. }
  assert (H2 : exists u v w, pair_up l = u :: v :: w) by (unfold l; cbn [pair_up]; destruct l0 as [|? ?]; eauto).
  destruct H2 as (u & v & w & Huvw).
  assert (Hstep : tree_hash (S f) (pair_up l) =
    innerHash (tree_hash f (take m (pair_up l))) (tree_hash f (drop m (pair_up l)))).
  { unfold m. rewrite Huvw. apply tree_hash_step. }
  assert (Hr : tree_hash (S f) l = innerHash (tree_hash f (take (split_nat l) l)) (tree_hash f (drop (split_nat l) l)))
    by exact (tree_hash_step f x y (z :: l0)).
  rewrite Hr, Hstep, Hup, take_app_length', drop_app_length' by done. f_equal; apply IH; rewrite ?length_take, ?length_drop; lia.
Qed.

Lemma idx_app {E A} (l1 : list A) x l2 i : i = lenZ l1 -> idx (E:=E) (l1 ++ x :: l2) i = Ok x.
Proof. intros ->. unfold lenZ. by rewrite idx_nat, list_lookup_middle. Qed.

Lemma upd_app {E A} (l1 : list A) x y l2 i : i = lenZ l1 -> upd (E:=E) (l1 ++ x :: l2) i y = Ok (l1 ++ y :: l2).
Proof.
  intros ->. apply upd_Ok. unfold lenZ. rewrite length_app. cbn [length]. split; [lia|].
  by rewrite Nat2Z.id, insert_app_r_alt, Nat.sub_diag.
Qed.

(** The in-place loop writes the level above over the front of the slice:
    [front] is written, [stale] is read already, [rest] is to be read, and
    [tail] is beyond the size. *)
Lemma level_loop_spec {E} fuel front stale rest tail :
  (length rest <= fuel)%nat ->
  exists tail', level_loop (E:=E) fuel (lenZ (front ++ stale ++ rest)) (front ++ stale ++ rest ++ tail)
      (lenZ (front ++ stale)) (lenZ front) =
    Ok (front ++ pair_up rest ++ tail', lenZ (front ++ pair_up rest)).
Proof.
  revert fuel front stale. induction rest as [|a|a b rest IH] using pair_ind; intros fuel front stale Hf.
  - exists (stale ++ tail). rewrite !app_nil_r. destruct fuel; cbn [level_loop]; by rewrite Z.ltb_irrefl.
  - destruct fuel as [|fuel]; [cbn in Hf; lia|]. cbn [level_loop].
    rewrite (proj2 (Z.ltb_lt _ _)), (proj2 (Z.ltb_ge _ _)) by (unfold lenZ; rewrite ?length_app; cbn [length]; lia).
    rewrite !app_assoc, <- (app_assoc _ [a]). cbn [app]. rewrite idx_app by done. cbn [mbind outcome_bind].
    destruct (stale ++ [a]) as [|s0 stale'] eqn:Es; [by destruct stale|].
    assert (Heq : (front ++ stale) ++ a :: tail = front ++ s0 :: (stale' ++ tail)).
    { rewrite <- app_assoc. f_equal. rewrite (app_comm_cons stale' tail s0), <- Es, <- app_assoc. done. }
    rewrite Heq, upd_app by done. cbn [mbind outcome_bind]. exists (stale' ++ tail).
    destruct fuel; cbn [level_loop]; rewrite (proj2 (Z.ltb_ge _ _)) by (unfold lenZ; rewrite ?length_app; cbn [length]; lia);
      (do 2 f_equal; unfold lenZ; rewrite ?length_app; cbn [length pair_up]; lia).
  - destruct fuel as [|fuel]; [cbn in Hf; lia|]. cbn [level_loop].
    rewrite !(proj2 (Z.ltb_lt _ _)) by (unfold lenZ; rewrite ?length_app; cbn [length]; lia).
    rewrite (app_assoc front stale ((a :: b :: rest) ++ tail)). cbn [app].
    rewrite (idx_app (front ++ stale) a (b :: rest ++ tail) (lenZ (front ++ stale))) by done. cbn [mbind outcome_bind].
    rewrite (cons_middle a (front ++ stale)), (app_assoc (front ++ stale) [a]), idx_app
      by (unfold lenZ; rewrite !length_app; cbn [length]; lia). cbn [mbind outcome_bind].
    destruct (stale ++ [a; b]) as [|s0 stale'] eqn:Es; [by destruct stale|].
    assert (Heq : ((front ++ stale) ++ [a]) ++ b :: rest ++ tail = front ++ s0 :: stale' ++ rest ++ tail).
    { rewrite <- !app_assoc. f_equal. rewrite (app_comm_cons stale' (rest ++ tail) s0), <- Es, <- app_assoc. done. }
    assert (Hl : length stale' = S (length stale)).
    { assert (length (s0 :: stale') = length (stale ++ [a; b])) as Hl by (by rewrite Es). rewrite length_app in Hl. cbn in Hl. lia. }
    rewrite Heq, upd_app by done. cbn [mbind outcome_bind].
    destruct (IH fuel (front ++ [innerHash a b]) stale') as (tail' & Ht); [cbn in Hf; lia|].
    exists tail'. rewrite <- !app_assoc in Ht. cbn [app] in Ht. cbn [pair_up app].
    rewrite <- Ht. f_equal; unfold lenZ; rewrite ?length_app; cbn [length]; rewrite ?length_app; cbn [length]; lia.
Qed.

Lemma pair_up_shorter l : (2 <= length l)%nat -> (0 < length (pair_up l) < length l)%nat.
Proof.
  intros Hl. pose proof (pair_up_length l) as Hp. unfold lenZ in Hp.
  pose proof (Z.div_mod (Z.of_nat (length l) + 1) 2 ltac:(lia)). pose proof (Z.mod_pos_bound (Z.of_nat (length l) + 1) 2 ltac:(lia)). lia.
Qed.

Lemma levels_spec {E} fuel l tail :
  (length l <= fuel)%nat -> levels (E:=E) fuel (l ++ tail) (lenZ l) = Ok (tree_hash fuel l).
Proof.
  revert l tail. induction fuel as [|f IH]; intros l tail Hl; [destruct l; [done|cbn in Hl; lia]|].
  destruct l as [|x [|y l0]]; [done..|]. set (l := x :: y :: l0) in *.
  assert (H2 : (2 <= length l)%nat) by (unfold l; cbn; lia). pose proof (pair_up_shorter l H2) as Hs. cbn [levels].
  destruct (Z.eqb_spec (lenZ l) 0); [unfold lenZ in *; lia|]. destruct (Z.eqb_spec (lenZ l) 1); [unfold lenZ in *; lia|].
  destruct (level_loop_spec (E:=E) (Z.to_nat (lenZ l)) [] [] l tail) as (tail' & Ht); [unfold lenZ; lia|].
  cbn [app] in Ht. change (lenZ (@nil bytes)) with 0 in Ht. rewrite Ht. cbn [mbind outcome_bind].
  rewrite IH by lia. f_equal. rewrite (tree_hash_fuel f (S f)) by lia. by apply tree_hash_pair_up.
Qed.

(** ** Proofs read off the linked tree *)

Lemma hash_from_aunts_left index total leaf aunt rest :
  0 <= index < split_point total -> 2 <= total ->
  hash_from_aunts index total leaf (aunt :: rest) =
    (fun left => innerHash left aunt) <$> hash_from_aunts index (split_point total) leaf rest.
Proof.
  intros Hi Ht. pose proof (split_point_range total Ht). cbn [hash_from_aunts].
  destruct (Z.leb_spec total index); [lia|]. destruct (Z.ltb_spec index 0); [lia|]. destruct (Z.leb_spec total 0); [lia|].
  destruct (Z.eqb_spec total 1); [lia|]. destruct (Z.ltb_spec index (split_point total)); [|lia]. cbn [orb].
  by destruct (hash_from_aunts index (split_point total) leaf rest).
Qed.

Lemma hash_from_aunts_right index total leaf aunt rest :
  split_point total <= index < total -> 2 <= total ->
  hash_from_aunts index total leaf (aunt :: rest) =
    (fun right => innerHash aunt right) <$> hash_from_aunts (index - split_point total) (total - split_point total) leaf rest.
Proof.
  intros Hi Ht. pose proof (split_point_range total Ht). cbn [hash_from_aunts].
  destruct (Z.leb_spec total index); [lia|]. destruct (Z.ltb_spec index 0); [lia|]. destruct (Z.leb_spec total 0); [lia|].
  destruct (Z.eqb_spec total 1); [lia|]. destruct (Z.ltb_spec index (split_point total)); [lia|]. cbn [orb].
  by destruct (hash_from_aunts (index - split_point total) (total - split_point total) leaf rest).
Qed.

(** [p] leads up to [r], past [aunts]; a parent is allocated after its child. *)
Inductive path (h : heap) : nat -> list bytes -> nat -> Prop :=
| path_nil r : path h r [] r
| path_step p n q a aunts r :
    h !! p = Some n -> pn_Parent n = Some q -> aunt_of h n = [a] -> (p < q)%nat -> path h q aunts r ->
    path h p (a :: aunts) r.

Lemma path_app h p q r a1 a2 : path h p a1 q -> path h q a2 r -> path h p (a1 ++ a2) r.
Proof. induction 1; intros Hq; [done|]. cbn [app]. eapply path_step; eauto. Qed.

(** Linking nodes that have no parent, and allocating, keep the paths. *)
Definition grows (h h' : heap) : Prop :=
  forall q n, h !! q = Some n -> exists n', h' !! q = Some n' /\ pn_Hash n' = pn_Hash n /\
    (pn_Parent n <> None -> n' = n).

Definition heap_ok (h : heap) : Prop :=
  forall q n, h !! q = Some n ->
    (forall l, pn_Left n = Some l -> (l < length h)%nat) /\ (forall r, pn_Right n = Some r -> (r < length h)%nat).

Lemma grows_hash_at h h' q : grows h h' -> (q < length h)%nat -> hash_at h' q = hash_at h q.
Proof.
  intros Hg Hq. apply lookup_lt_is_Some in Hq as [n Hn]. unfold hash_at.
  destruct (Hg q n Hn) as (n' & Hn' & Hh & _). by rewrite Hn, Hn'.
Qed.

Lemma path_grows h h' p aunts r : heap_ok h -> grows h h' -> path h p aunts r -> path h' p aunts r.
Proof.
  intros Hok Hg. induction 1 as [r|p n q a aunts r Hp Hpar Ha Hlt Hpath IH]; [constructor|].
  destruct (Hg p n Hp) as (n' & Hn' & _ & Heq). rewrite Heq in Hn' by congruence.
  apply (path_step h' p n q); try done. unfold aunt_of in *. destruct (Hok p n Hp) as [Hl Hr].
  destruct (pn_Left n) as [l|]; [by rewrite (grows_hash_at h h' l Hg (Hl l eq_refl))|].
  destruct (pn_Right n) as [r'|]; [by rewrite (grows_hash_at h h' r' Hg (Hr r' eq_refl))|done].
Qed.

(** The walk of [FlattenAunts]. *)
Lemma flatten_path h p aunts r n :
  path h p aunts r -> h !! r = Some n -> pn_Parent n = None -> pn_Left n = None -> pn_Right n = None ->
  forall fuel, (length h - p <= fuel)%nat -> flatten_aunts fuel h (Some p) = aunts.
Proof.
  intros Hpath Hr H1 H2 H3. induction Hpath as [r|p m q a aunts r Hp Hpar Ha Hlt _ IH]; intros fuel Hf.
  - pose proof (lookup_lt_Some _ _ _ Hr). destruct fuel as [|fuel]; [lia|]. cbn [flatten_aunts]. rewrite Hr. unfold aunt_of.
    rewrite H1, H2, H3. by destruct fuel.
  - pose proof (lookup_lt_Some _ _ _ Hp). destruct fuel as [|fuel]; [lia|]. cbn [flatten_aunts].
    rewrite Hp, Ha, Hpar. cbn [app]. f_equal. apply IH; [done|lia].
Qed.

(** What building the trails of [items] gives. *)
Record built_trails (h : heap) (items : list bytes) (ts : list nat) (root : nat) (h' : heap) : Prop := {
  bt_prefix : forall q, (q < length h)%nat -> h' !! q = h !! q;
  bt_new : (length h <= root)%nat;
  bt_root : h' !! root = Some (mkProofNode (HashFromByteSlices items) None None None);
  bt_ok : heap_ok h -> heap_ok h';
  bt_len : length ts = length items;
  bt_trail : forall i item, items !! i = Some item -> exists t aunts, ts !! i = Some t /\ (t < length h')%nat /\ path h' t aunts root /\
    hash_at h' t = leafHash item /\
    hash_from_aunts (Z.of_nat i) (lenZ items) (Some (leafHash item)) (rev aunts) = Some (HashFromByteSlices items) /\
    Forall (fun a => exists x, a = sha256 x) aunts /\
    forall j, 0 <= j -> lenZ items <= 2 ^ j -> lenZ aunts <= j
}.

Lemma single_trails h item :
  built_trails h [item] [length h] (length h) (h ++ [mkProofNode (leafHash item) None None None]).
Proof.
  assert (Hnew : (h ++ [mkProofNode (leafHash item) None None None]) !! length h = Some (mkProofNode (leafHash item) None None None))
    by (by rewrite lookup_app_r, Nat.sub_diag by lia).
  constructor.
  - intros q Hq. by rewrite lookup_app_l.
  - lia.
  - done.
  - intros Hok q n Hq. rewrite length_app. destruct (decide (q < length h)%nat) as [Hlt|Hge].
    + rewrite lookup_app_l in Hq by done. destruct (Hok q n Hq) as [Hl Hr]. split; intros x Hx; [apply Hl in Hx|apply Hr in Hx]; lia.
    + rewrite lookup_app_r in Hq by lia. apply list_lookup_singleton_Some in Hq as [_ <-]. done.
  - done.
  - intros i x Hi. apply list_lookup_singleton_Some in Hi as [-> <-]. exists (length h), []. unfold hash_at. rewrite Hnew.
    split_and!; [done|rewrite length_app; cbn; lia|constructor|done|done|constructor|]. intros j Hj _. done.
Qed.

Lemma grows_refl h : grows h h.
Proof. intros q n Hq. by exists n. Qed.

Lemma grows_trans h1 h2 h3 : grows h1 h2 -> grows h2 h3 -> grows h1 h3.
Proof.
  intros H1 H2 q n Hq. destruct (H1 q n Hq) as (n' & Hn' & Hh & He). destruct (H2 q n' Hn') as (n'' & Hn'' & Hh' & He').
  exists n''. split_and!; [done|congruence|]. intros Hp. rewrite (He Hp) in *. by apply He'.
Qed.

Lemma grows_app h n : grows h (h ++ [n]).
Proof. intros q m Hq. exists m. by rewrite lookup_app_l_Some with (x := m). Qed.

Lemma grows_alter (h : heap) f p n :
  h !! p = Some n -> pn_Parent n = None -> pn_Hash (f n) = pn_Hash n -> grows h (alter f p h).
Proof.
  intros Hp Hn Hf q m Hq. destruct (decide (p = q)) as [<-|Hne].
  - rewrite list_lookup_alter_eq, Hq. assert (m = n) as -> by congruence. exists (f n). by split_and!.
  - rewrite list_lookup_alter_ne by done. by exists m.
Qed.

Lemma grows_prefix h h' : (forall q, (q < length h)%nat -> h' !! q = h !! q) -> grows h h'.
Proof. intros Hp q n Hq. exists n. rewrite Hp by (by eapply lookup_lt_Some). by split_and!. Qed.

Lemma hash_at_Some h p n : h !! p = Some n -> hash_at h p = pn_Hash n.
Proof. unfold hash_at. by intros ->. Qed.

Section join.
  Context (h0 h1 h2 : heap) (l1 l2 : list bytes) (ts1 ts2 : list nat) (r1 r2 : nat).
  Hypothesis B1 : built_trails h0 l1 ts1 r1 h1.
  Hypothesis B2 : built_trails h1 l2 ts2 r2 h2.
  #[local] Abbreviation root := (length h2).
  #[local] Abbreviation h5 := (alter (link_right root r1) r2 (alter (link_left root r2) r1
    (h2 ++ [mkProofNode (innerHash (hash_at h2 r1) (hash_at h2 r2)) None None None]))).

Lemma join_lookups :
  (r1 < length h1 <= r2)%nat /\ (r2 < root)%nat /\
  h2 !! r1 = Some (mkProofNode (HashFromByteSlices l1) None None None) /\
  h2 !! r2 = Some (mkProofNode (HashFromByteSlices l2) None None None) /\
  length h5 = S root /\
  h5 !! root = Some (mkProofNode (innerHash (HashFromByteSlices l1) (HashFromByteSlices l2)) None None None) /\
  h5 !! r1 = Some (mkProofNode (HashFromByteSlices l1) (Some root) None (Some r2)) /\
  h5 !! r2 = Some (mkProofNode (HashFromByteSlices l2) (Some root) (Some r1) None) /\
  forall q, q <> r1 -> q <> r2 -> (q < root)%nat -> h5 !! q = h2 !! q.
Proof.
  pose proof (bt_root _ _ _ _ _ B1) as Hr1. pose proof (bt_root _ _ _ _ _ B2) as Hr2.
  pose proof (lookup_lt_Some _ _ _ Hr1) as L1. pose proof (lookup_lt_Some _ _ _ Hr2) as L2. pose proof (bt_new _ _ _ _ _ B2) as L3.
  assert (Hr1' : h2 !! r1 = Some (mkProofNode (HashFromByteSlices l1) None None None)) by (by rewrite (bt_prefix _ _ _ _ _ B2)).
  assert (Hh1 : hash_at h2 r1 = HashFromByteSlices l1) by (unfold hash_at; by rewrite Hr1').
  assert (Hh2 : hash_at h2 r2 = HashFromByteSlices l2) by (unfold hash_at; by rewrite Hr2).
  rewrite Hh1, Hh2. split_and!; [lia|lia|exact L2|done|done| | | | |].
  - rewrite !length_alter, length_app. cbn. lia.
  - rewrite !list_lookup_alter_ne by (lia). by rewrite lookup_app_r, Nat.sub_diag by (lia).
  - rewrite list_lookup_alter_ne, list_lookup_alter_eq, lookup_app_l, Hr1' by lia. done.
  - rewrite list_lookup_alter_eq, list_lookup_alter_ne, lookup_app_l, Hr2 by lia. done.
  - intros q H1 H2 Hq. rewrite !list_lookup_alter_ne, lookup_app_l by (lia). done.
Qed.

Lemma join_grows : grows h1 h2 /\ grows h2 h5.
Proof.
  destruct join_lookups as (L1 & L2 & Hr1 & Hr2 & _). split; [by apply grows_prefix; apply (bt_prefix _ _ _ _ _ B2)|].
  eapply grows_trans; [eapply grows_trans; [apply grows_app|]|].
  2: { apply (grows_alter _ _ r2 (mkProofNode (HashFromByteSlices l2) None None None)); [|done|done].
       rewrite list_lookup_alter_ne, lookup_app_l, Hr2 by (lia). done. }
  apply (grows_alter _ _ r1 (mkProofNode (HashFromByteSlices l1) None None None)); [|done|done].
  rewrite lookup_app_l, Hr1 by (lia). done.
Qed.

Lemma join_ok : heap_ok h0 -> heap_ok h5.
Proof.
  intros Hok. pose proof (bt_ok _ _ _ _ _ B2 (bt_ok _ _ _ _ _ B1 Hok)) as Hok2.
  destruct join_lookups as (L1 & L2 & _ & _ & Hlen & Hroot & H1 & H2 & Hrest). intros q n Hq. rewrite Hlen.
  pose proof (lookup_lt_Some _ _ _ Hq) as Lq. rewrite Hlen in Lq.
  destruct (decide (q = r1)) as [->|N1]; [rewrite H1 in Hq; injection Hq as <-; cbn; split; intros x [=]; lia|].
  destruct (decide (q = r2)) as [->|N2]; [rewrite H2 in Hq; injection Hq as <-; cbn; split; intros x [=]; lia|].
  destruct (decide (q = root)) as [->|N3]; [rewrite Hroot in Hq; by injection Hq as <-|].
  rewrite Hrest in Hq by lia. destruct (Hok2 q n Hq) as [Hl Hr].
  split; intros x Hx; [apply Hl in Hx|apply Hr in Hx]; lia.
Qed.

Lemma join_paths :
  path h5 r1 [HashFromByteSlices l2] root /\ path h5 r2 [HashFromByteSlices l1] root.
Proof.
  destruct join_lookups as (L1 & L2 & _ & _ & _ & _ & H1 & H2 & _).
  split; [eapply path_step; [exact H1|done| |lia|apply path_nil]|eapply path_step; [exact H2|done| |lia|apply path_nil]];
    unfold aunt_of; cbn [pn_Left pn_Right].
  - by rewrite (hash_at_Some _ _ _ H2).
  - by rewrite (hash_at_Some _ _ _ H1).
Qed.

Lemma join_built :
  heap_ok h0 -> (2 <= length (l1 ++ l2))%nat -> length l1 = split_nat (l1 ++ l2) ->
  built_trails h0 (l1 ++ l2) (ts1 ++ ts2) root h5.
Proof.
  intros Hok H2 Hk. set (items := l1 ++ l2) in *.
  assert (Hhash : HashFromByteSlices items = innerHash (HashFromByteSlices l1) (HashFromByteSlices l2)).
  { rewrite HashFromByteSlices_split by done. unfold items at 2 4. rewrite <- Hk. by rewrite take_app_length, drop_app_length. }
  pose proof (bt_ok _ _ _ _ _ B1 Hok) as Hok1. pose proof (bt_ok _ _ _ _ _ B2 Hok1) as Hok2.
  destruct join_lookups as (L1 & L2 & Hr1 & Hr2 & Hlen & Hroot & _ & _ & Hrest). destruct join_grows as [G12 G25].
  destruct join_paths as [P1 P2].
  pose proof (bt_len _ _ _ _ _ B1) as Hlen1. pose proof (bt_len _ _ _ _ _ B2) as Hlen2.
  assert (Hl : lenZ items = lenZ l1 + lenZ l2) by (unfold lenZ, items; rewrite length_app; lia).
  pose proof (split_point_spec (lenZ items) ltac:(unfold lenZ in *; lia)) as (jj & Hjj & Hsp & Hlo & Hhi).
  assert (Hspl : split_point (lenZ items) = lenZ l1).
  { unfold split_nat in Hk. pose proof (split_point_range (lenZ items) ltac:(unfold lenZ in *; lia)). unfold lenZ in *. lia. }
  assert (Htot : lenZ items <> 1 /\ 0 < lenZ items) by (unfold lenZ in *; lia).
  assert (Hdeep : forall j, 0 <= j -> lenZ items <= 2 ^ j -> jj <= j - 1 /\ lenZ l1 <= 2 ^ (j - 1) /\ lenZ l2 <= 2 ^ (j - 1)).
  { intros j Hj0 Hj. assert (jj < j) by (apply (Z.pow_lt_mono_r_iff 2); lia).
    pose proof (Z.pow_le_mono_r 2 jj (j - 1) ltac:(lia) ltac:(lia)).
    rewrite Z.pow_add_r in Hhi by lia. change (2 ^ 1) with 2 in Hhi. lia. }
  constructor.
  - intros q Hq. pose proof (bt_new _ _ _ _ _ B1). pose proof (bt_prefix _ _ _ _ _ B1) as Hpre1.
    assert (length h0 <= length h1)%nat by (pose proof (lookup_lt_Some _ _ _ (bt_root _ _ _ _ _ B1)); lia).
    rewrite Hrest, (bt_prefix _ _ _ _ _ B2) by lia. by apply Hpre1.
  - pose proof (bt_new _ _ _ _ _ B1). lia.
  - by rewrite Hhash.
  - apply join_ok.
  - rewrite length_app. unfold items. rewrite length_app. lia.
  - intros i item Hi. unfold items in Hi. apply lookup_app_Some in Hi as [Hi|[Hge Hi]].
    + pose proof (lookup_lt_Some _ _ _ Hi) as Hlt.
      destruct (bt_trail _ _ _ _ _ B1 i item Hi) as (t & aunts & Ht & Htl & Hp & Hh & Hc & Hsha & Hd).
      exists t, (aunts ++ [HashFromByteSlices l2]). split_and!.
      * by apply lookup_app_l_Some.
      * lia.
      * eapply path_app; [|exact P1]. eapply path_grows; [exact Hok2|exact G25|]. by apply (path_grows h1 h2).
      * rewrite (grows_hash_at h2 h5), (grows_hash_at h1 h2); try done. lia.
      * rewrite rev_app_distr. cbn [rev app]. rewrite hash_from_aunts_left by (rewrite ?Hspl; unfold lenZ in *; lia).
        by rewrite Hspl, Hc, Hhash.
      * apply Forall_app. split; [done|]. apply Forall_singleton. apply HashFromByteSlices_sha.
      * intros j Hj Hle. destruct (Hdeep j Hj Hle) as (J1 & J2 & J3). specialize (Hd (j - 1) ltac:(lia) J2).
        unfold lenZ in *. rewrite length_app. cbn. lia.
    + pose proof (lookup_lt_Some _ _ _ Hi) as Hlt.
      destruct (bt_trail _ _ _ _ _ B2 _ item Hi) as (t & aunts & Ht & Htl & Hp & Hh & Hc & Hsha & Hd).
      exists t, (aunts ++ [HashFromByteSlices l1]). split_and!.
      * rewrite lookup_app_r by lia. by rewrite Hlen1.
      * lia.
      * eapply path_app; [|exact P2]. by apply (path_grows h2 h5).
      * by rewrite (grows_hash_at h2 h5).
      * rewrite rev_app_distr. cbn [rev app].
        rewrite hash_from_aunts_right, Hspl by (rewrite ?Hspl; unfold lenZ in *; lia).
        replace (Z.of_nat i - lenZ l1) with (Z.of_nat (i - length l1)) by (unfold lenZ; lia).
        replace (lenZ items - lenZ l1) with (lenZ l2) by lia. by rewrite Hc, Hhash.
      * apply Forall_app. split; [done|]. apply Forall_singleton. apply HashFromByteSlices_sha.
      * intros j Hj Hle. destruct (Hdeep j Hj Hle) as (J1 & J2 & J3). specialize (Hd (j - 1) ltac:(lia) J3).
        unfold lenZ in *. rewrite length_app. cbn. lia.
Qed.

End join.

Lemma trails_built fuel items h :
  heap_ok h -> (length items <= fuel)%nat ->
  let '(ts, root, h') := trails_from fuel items h in
  items <> [] -> built_trails h items ts root h'.
Proof.
  revert items h. induction fuel as [|f IH]; intros items h Hok Hl.
  { destruct items; [done|cbn in Hl; lia]. }
  destruct items as [|x [|y items]]; [done|by intros _; apply single_trails|].
  pose proof (split_nat_range x y items) as Hk. cbn [trails_from]. set (l := x :: y :: items) in *. fold (split_nat l).
  pose proof (IH (take (split_nat l) l) h Hok ltac:(rewrite length_take; lia)) as H1.
  destruct (trails_from f (take (split_nat l) l) h) as [[ts1 r1] h1] eqn:E1.
  assert (B1 : built_trails h (take (split_nat l) l) ts1 r1 h1).
  { apply H1. intros Hnil. apply (f_equal length) in Hnil. rewrite length_take, length_nil in Hnil. lia. }
  pose proof (IH (drop (split_nat l) l) h1 (bt_ok _ _ _ _ _ B1 Hok) ltac:(rewrite length_drop; lia)) as H2.
  destruct (trails_from f (drop (split_nat l) l) h1) as [[ts2 r2] h2] eqn:E2.
  assert (B2 : built_trails h1 (drop (split_nat l) l) ts2 r2 h2).
  { apply H2. intros Hnil. apply (f_equal length) in Hnil. rewrite length_drop, length_nil in Hnil. lia. }
  intros _. rewrite <- (take_drop (split_nat l) l) at 1. apply (join_built h h1 h2); try done.
  - rewrite take_drop. unfold l. cbn. lia.
  - rewrite take_drop, length_take. lia.
Qed.
(** ** What a proof proves *)

(** The strings hashed for the root of the items, and for the root a proof
    computes. *)
Fixpoint tree_inputs (fuel : nat) (items : list bytes) : list bytes :=
  match items with
  | [] => [[]]
  | [item] => [leafPrefix ++ item]
  | _ =>
      match fuel with
      | O => []
      | S fuel =>
          let l := take (split_nat items) items in
          let r := drop (split_nat items) items in
          (innerPrefix ++ HashFromByteSlices l ++ HashFromByteSlices r) :: tree_inputs fuel l ++ tree_inputs fuel r
      end
  end.

Fixpoint aunts_inputs (index total : Z) (leaf : bytes) (rev_aunts : list bytes) : list bytes :=
  match rev_aunts with
  | [] => [leafPrefix ++ leaf]
  | aunt :: rest =>
      let k := split_point total in
      if index <? k then
        (innerPrefix ++ default [] (hash_from_aunts index k (Some (leafHash leaf)) rest) ++ aunt) :: aunts_inputs index k leaf rest
      else
        (innerPrefix ++ aunt ++ default [] (hash_from_aunts (index - k) (total - k) (Some (leafHash leaf)) rest)) ::
        aunts_inputs (index - k) (total - k) leaf rest
  end.

Definition collision_free (A B : list bytes) : Prop := forall x y, x ∈ A -> y ∈ B -> sha256 x = sha256 y -> x = y.

Lemma collision_free_sub A B A' B' : collision_free A B -> A' ⊆ A -> B' ⊆ B -> collision_free A' B'.
Proof. intros Hc HA HB x y Hx Hy. auto. Qed.

(** The shape of the root decides the shape of the list. *)
Lemma root_input fuel items :
  (length items <= fuel)%nat -> exists x, HashFromByteSlices items = sha256 x /\ x ∈ tree_inputs fuel items /\
    match items with
    | [] => x = []
    | [item] => x = leafPrefix ++ item
    | _ => exists f, fuel = S f /\
        x = innerPrefix ++ HashFromByteSlices (take (split_nat items) items) ++ HashFromByteSlices (drop (split_nat items) items) /\
        tree_inputs f (take (split_nat items) items) ⊆ tree_inputs fuel items /\
        tree_inputs f (drop (split_nat items) items) ⊆ tree_inputs fuel items
    end.
Proof.
  intros Hl. destruct items as [|x [|y items]].
  - exists []. destruct fuel; split_and!; try done; cbn; set_solver.
  - exists (leafPrefix ++ x). destruct fuel; split_and!; try done; cbn -[app]; set_solver.
  - destruct fuel as [|f]; [cbn in Hl; lia|]. rewrite HashFromByteSlices_split by (cbn; lia).
    set (l := x :: y :: items). eexists. split_and!; [done| |].
    + cbn [tree_inputs]. fold l. set_solver.
    + exists f. split_and!; [done|done|..]; unfold l; cbn [tree_inputs]; fold l; set_solver.
Qed.

Context {laws : Sha256Length}.

Lemma hash_from_aunts_sha index total leaf aunts h :
  hash_from_aunts index total (Some (leafHash leaf)) aunts = Some h -> exists x, h = sha256 x.
Proof.
  destruct aunts as [|a aunts]; cbn [hash_from_aunts]; repeat case_match; intros [=]; subst; by eexists.
Qed.

Lemma inner_inj fuel items x left right :
  (length items <= fuel)%nat -> HashFromByteSlices items = sha256 x -> x = innerPrefix ++ left ++ right ->
  (exists y, left = sha256 y) \/ (exists y, right = sha256 y) ->
  match items with
  | [] => x = []
  | [item] => x = leafPrefix ++ item
  | _ => exists f, fuel = S f /\
      x = innerPrefix ++ HashFromByteSlices (take (split_nat items) items) ++ HashFromByteSlices (drop (split_nat items) items) /\
      tree_inputs f (take (split_nat items) items) ⊆ tree_inputs fuel items /\
      tree_inputs f (drop (split_nat items) items) ⊆ tree_inputs fuel items
  end ->
  exists f, fuel = S f /\ (2 <= length items)%nat /\
    left = HashFromByteSlices (take (split_nat items) items) /\ right = HashFromByteSlices (drop (split_nat items) items) /\
    tree_inputs f (take (split_nat items) items) ⊆ tree_inputs fuel items /\
    tree_inputs f (drop (split_nat items) items) ⊆ tree_inputs fuel items.
Proof.
  intros Hf Hx -> Hsha Hshape. destruct items as [|y [|z items]]; [done|done|].
  set (l := y :: z :: items) in *. destruct Hshape as (f & -> & Heq & S1 & S2). exists f.
  apply (app_inv_head innerPrefix) in Heq.
  destruct (HashFromByteSlices_sha (take (split_nat l) l)) as [u Hu]. destruct (HashFromByteSlices_sha (drop (split_nat l) l)) as [v Hv].
  assert (Hlen : length left = tmhash_Size /\ length right = tmhash_Size).
  { pose proof (f_equal length Heq) as Hl. rewrite !length_app, Hu, Hv, !sha256_length in Hl.
    destruct Hsha as [[w ->]|[w ->]]; rewrite sha256_length in *; lia. }
  destruct (app_inj_1 left (HashFromByteSlices (take (split_nat l) l)) right (HashFromByteSlices (drop (split_nat l) l)))
    as [-> ->]; [rewrite Hu, sha256_length; lia|done|]. split_and!; try done. cbn. lia.
Qed.

Lemma aunts_sound aunts : forall fuel items index total leaf,
  (length items <= fuel)%nat ->
  hash_from_aunts index total (Some (leafHash leaf)) aunts = Some (HashFromByteSlices items) ->
  collision_free (tree_inputs fuel items) (aunts_inputs index total leaf aunts) ->
  leaf ∈ items /\ (total = lenZ items -> items !! Z.to_nat index = Some leaf).
Proof.
  induction aunts as [|aunt aunts IH]; intros fuel items index total leaf Hf Hr Hc;
    destruct (root_input fuel items Hf) as (x & Hx & Hin & Hshape); rewrite Hx in Hr.
  - cbn [hash_from_aunts] in Hr. destruct ((total <=? index) || (index <? 0) || (total <=? 0)) eqn:Eb; [done|].
    rewrite !orb_false_iff, Z.leb_gt, Z.ltb_ge, Z.leb_gt in Eb. destruct (Z.eqb_spec total 1) as [->|]; [|done].
    injection Hr as Hr. assert (Hxl : x = leafPrefix ++ leaf) by (apply Hc; [done|set_solver|done]).
    destruct items as [|y [|z items]]; [by subst| |destruct Hshape as (f & _ & -> & _); done].
    rewrite Hshape in Hxl. apply (app_inv_head leafPrefix) in Hxl. subst y.
    assert (index = 0) as -> by lia. split; [set_solver|done].
  - assert (Hb : 0 <= index < total /\ 2 <= total).
    { cbn [hash_from_aunts] in Hr. destruct ((total <=? index) || (index <? 0) || (total <=? 0)) eqn:Eb; [done|].
      rewrite !orb_false_iff, Z.leb_gt, Z.ltb_ge, Z.leb_gt in Eb. destruct (Z.eqb_spec total 1); [done|]. lia. }
    pose proof (split_point_range total ltac:(lia)) as Hk. cbn [aunts_inputs] in Hc.
    destruct (Z.ltb_spec index (split_point total)) as [Hlt|Hge].
    + rewrite hash_from_aunts_left in Hr by lia. apply fmap_Some in Hr as (L & HL & Hr).
      rewrite HL in Hc. cbn [default] in Hc.
      assert (Hxe : x = innerPrefix ++ L ++ aunt) by (apply Hc; [done|set_solver|done]).
      destruct (inner_inj fuel items x L aunt Hf Hx Hxe) as (f & -> & H2 & HLl & _ & S1 & _);
        [left; by eapply hash_from_aunts_sha|done|]. rewrite HLl in HL.
      destruct (IH f (take (split_nat items) items) index (split_point total) leaf) as [I1 I2].
      * rewrite length_take. pose proof (split_point_range (lenZ items) ltac:(unfold lenZ; lia)). unfold split_nat, lenZ in *. lia.
      * done.
      * eapply collision_free_sub; [exact Hc|exact S1|set_solver].
      * split; [rewrite <- (take_drop (split_nat items) items); apply elem_of_app; by left|].
        intros ->. refine (proj1 (proj1 (lookup_take_Some _ (split_nat items) _ _) (I2 _))).
        unfold split_nat, lenZ in *. rewrite length_take. lia.
    + rewrite hash_from_aunts_right in Hr by lia. apply fmap_Some in Hr as (R & HR & Hr).
      rewrite HR in Hc. cbn [default] in Hc.
      assert (Hxe : x = innerPrefix ++ aunt ++ R) by (apply Hc; [done|set_solver|done]).
      destruct (inner_inj fuel items x aunt R Hf Hx Hxe) as (f & -> & H2 & _ & HRr & _ & S2);
        [right; by eapply hash_from_aunts_sha|done|]. rewrite HRr in HR.
      destruct (IH f (drop (split_nat items) items) (index - split_point total) (total - split_point total) leaf) as [I1 I2].
      * rewrite length_drop. pose proof (split_point_range (lenZ items) ltac:(unfold lenZ; lia)). unfold split_nat, lenZ in *. lia.
      * done.
      * eapply collision_free_sub; [exact Hc|exact S2|set_solver].
      * split; [rewrite <- (take_drop (split_nat items) items); apply elem_of_app; by right|]. intros ->. specialize (I2 ltac:(unfold split_nat, lenZ in *; rewrite length_drop; lia)).
        rewrite lookup_drop in I2. rewrite <- I2. f_equal. unfold split_nat. lia.
Qed.

(** Two lists with one root are the same list. *)
Lemma tree_inj fuel1 : forall fuel2 l1 l2,
  (length l1 <= fuel1)%nat -> (length l2 <= fuel2)%nat -> HashFromByteSlices l1 = HashFromByteSlices l2 ->
  collision_free (tree_inputs fuel1 l1) (tree_inputs fuel2 l2) -> l1 = l2.
Proof.
  induction fuel1 as [|f1 IH]; intros fuel2 l1 l2 Hf1 Hf2 Heq Hc;
    destruct (root_input _ l1 Hf1) as (x1 & Hx1 & Hin1 & Hs1); destruct (root_input _ l2 Hf2) as (x2 & Hx2 & Hin2 & Hs2);
    assert (x1 = x2) as -> by (apply Hc; [done|done|congruence]).
  { destruct l1; [|cbn in Hf1; lia]. subst x2. destruct l2 as [|a [|b l2]]; [done|done|]. by destruct Hs2 as (? & _ & ? & _). }
  destruct l1 as [|a1 [|b1 l1]].
  - subst x2. destruct l2 as [|a [|b l2]]; [done|done|]. by destruct Hs2 as (? & _ & ? & _).
  - subst x2. destruct l2 as [|a [|b l2]]; [done| |by destruct Hs2 as (? & _ & ? & _)].
    apply (app_inv_head leafPrefix) in Hs2. by subst.
  - destruct Hs1 as (f & [= <-] & Hxe & S1 & S1'). set (k1 := a1 :: b1 :: l1) in *.
    destruct (inner_inj fuel2 l2 x2 _ _ Hf2 Hx2 Hxe) as (f2 & -> & H2 & HL & HR & S2 & S2');
      [left; apply HashFromByteSlices_sha|done|].
    pose proof (split_nat_range a1 b1 l1) as Hk1. fold k1 in Hk1.
    assert (Hk2 : (0 < split_nat l2 < length l2)%nat).
    { destruct l2 as [|a2 [|b2 l2]]; [cbn in H2; lia..|]. apply split_nat_range. }
    rewrite <- (take_drop (split_nat k1) k1), <- (take_drop (split_nat l2) l2). f_equal.
    + apply (IH f2); rewrite ?length_take; [lia|lia|done|]. by eapply collision_free_sub.
    + apply (IH f2); rewrite ?length_drop; [lia|lia|done|]. by eapply collision_free_sub.
Qed.

End merkle.

(** The iterative hash is the recursive one, and it ends.  Pairing up
    neighbours level by level, in place, gives the hash of the tree that
    splits at the largest power of two, for every list of items, the empty one
    and lengths that are no power of two included; both are [tree_hash] of the
    hashes of the leaves. *)
Theorem hash_iterative_equiv `{CryptoLib} {E} items :
  HashFromByteSlicesIterative (E:=E) items = Ok (HashFromByteSlices items) /\
  HashFromByteSlices items = tree_hash (length items) (leafHash <$> items).
Proof.
  split; [|symmetry; by apply tree_hash_leaves]. unfold HashFromByteSlicesIterative, HashFromByteSlices.
  rewrite <- (app_nil_r (leafHash <$> items)). replace (lenZ items) with (lenZ (leafHash <$> items)) by (unfold lenZ; by rewrite length_fmap).
  rewrite levels_spec by (by rewrite length_fmap). f_equal. by apply tree_hash_leaves.
Qed.

Lemma ProofsFromByteSlices_spec `{CryptoLib} items :
  fst (ProofsFromByteSlices items) = HashFromByteSlices items /\
  length (snd (ProofsFromByteSlices items)) = length items /\
  forall i item, items !! i = Some item -> exists aunts,
    snd (ProofsFromByteSlices items) !! i = Some (mkMerkleProof (lenZ items) (Z.of_nat i) (Some (leafHash item)) aunts) /\
    hash_from_aunts (Z.of_nat i) (lenZ items) (Some (leafHash item)) (rev aunts) = Some (HashFromByteSlices items) /\
    Forall (fun a => exists x, a = sha256 x) aunts /\ forall j, 0 <= j -> lenZ items <= 2 ^ j -> lenZ aunts <= j.
Proof.
  destruct items as [|x items]; [done|]. set (l := x :: items). unfold ProofsFromByteSlices, trailsFromByteSlices.
  pose proof (trails_built (length l) l [] ltac:(by intros q n Hq) ltac:(lia)) as Hb.
  destruct (trails_from (length l) l []) as [[ts root] h] eqn:E. specialize (Hb ltac:(done)). cbn [fst snd].
  pose proof (bt_root _ _ _ _ _ Hb) as Hroot. split_and!.
  - unfold hash_at. by rewrite Hroot.
  - rewrite length_imap. apply Hb.
  - intros i item Hi. destruct (bt_trail _ _ _ _ _ Hb i item Hi) as (t & aunts & Ht & Htl & Hp & Hh & Hc & Hsha & Hd).
    exists aunts. split_and!; try done. rewrite list_lookup_imap, Ht. cbn. rewrite Hh. do 2 f_equal.
    unfold FlattenAunts. eapply flatten_path; try done. lia.
Qed.

Lemma built_proof_valid `{CryptoLib} {laws : Sha256Length} total (i : nat) item aunts :
  Forall (fun a => exists x, a = sha256 x) aunts -> lenZ aunts <= 100 ->
  Proof_ValidateBasic (mkMerkleProof (Z.of_nat total) (Z.of_nat i) (Some (leafHash item)) aunts) = Ok tt.
Proof.
  intros Hsha Hd. unfold Proof_ValidateBasic. cbn [pr_Total pr_Index pr_LeafHash pr_Aunts default].
  destruct (Z.ltb_spec (Z.of_nat total) 0); [lia|]. destruct (Z.ltb_spec (Z.of_nat i) 0); [lia|].
  rewrite bool_decide_eq_false_2 by (intros Hn; apply Hn, sha256_length).
  unfold MaxAunts. destruct (Z.ltb_spec 100 (lenZ aunts)); [lia|].
  destruct (existsb _ aunts) eqn:Ex; [|done]. apply existsb_exists in Ex as (a & Ha%list_elem_of_In & Hb).
  rewrite Forall_forall in Hsha. destruct (Hsha a Ha) as [y ->]. apply bool_decide_eq_true in Hb. by rewrite sha256_length in Hb.
Qed.

(** Proofs of inclusion are complete.  For every list of items,
    [ProofsFromByteSlices] returns the root [HashFromByteSlices] computes and
    one proof per item; the proof at a position carries that position and the
    number of items, verifies for that item against the root, and passes
    [ValidateBasic] for lists of up to [2^100] items.  The aunts are read off
    nodes that are linked while the tree is built. *)
Theorem merkle_proofs_complete `{CryptoLib} {laws : Sha256Length} items :
  let '(root, proofs) := ProofsFromByteSlices items in
  root = HashFromByteSlices items /\ length proofs = length items /\
  forall i item, items !! i = Some item -> exists sp, proofs !! i = Some sp /\
    pr_Total sp = lenZ items /\ pr_Index sp = Z.of_nat i /\ Proof_Verify sp root item = Ok tt /\
    (lenZ items <= 2 ^ 100 -> Proof_ValidateBasic sp = Ok tt).
Proof.
  pose proof (ProofsFromByteSlices_spec items) as (Hroot & Hlen & Hall).
  destruct (ProofsFromByteSlices items) as [root proofs]. cbn [fst snd] in *. split_and!; [done|done|].
  intros i item Hi. destruct (Hall i item Hi) as (aunts & Hsp & Hc & Hsha & Hd). eexists. split_and!; [exact Hsp|done|done|..].
  - unfold Proof_Verify, ComputeRootHash, computeHashFromAunts. cbn [pr_Total pr_Index pr_LeafHash pr_Aunts default].
    destruct (Z.ltb_spec (lenZ items) 0); [unfold lenZ in *; lia|]. destruct (Z.ltb_spec (Z.of_nat i) 0); [lia|].
    rewrite Hc, bytes_eqb_refl. cbn [negb]. change (default [] (Some (HashFromByteSlices items))) with (HashFromByteSlices items).
    by rewrite Hroot, bytes_eqb_refl.
  - intros Hle. apply built_proof_valid; [done|by apply Hd].
Qed.

Lemma Verify_Ok `{CryptoLib} sp root leaf :
  (forall b, length (sha256 b) = tmhash_Size) -> Proof_Verify sp root leaf = Ok tt ->
  pr_LeafHash sp = Some (leafHash leaf) /\ default [] (ComputeRootHash sp) = root.
Proof.
  intros Hlen. unfold Proof_Verify. destruct (pr_Total sp <? 0); [done|]. destruct (pr_Index sp <? 0); [done|].
  destruct (bytes_eqb (default [] (pr_LeafHash sp)) (leafHash leaf)) eqn:E1; [|done].
  destruct (bytes_eqb (default [] (ComputeRootHash sp)) root) eqn:E2; [|done]. intros _.
  apply bytes_eqb_true in E1, E2. split; [|done]. destruct (pr_LeafHash sp) as [lh|]; [by cbn in E1; subst|].
  exfalso. pose proof (Hlen (leafPrefix ++ leaf)) as Hl. unfold leafHash, tmhash_Sum in E1. rewrite <- E1 in Hl. done.
Qed.

(** C29: proofs of inclusion are sound.  A proof that verifies against the root
    of a list is for an item of that list, whatever total, index and aunts it
    carries, and if its total is the length of the list then it is for the item
    at its index.  The only assumption is that no string hashed for the tree
    and another hashed for the proof have the same hash; in particular leaves
    cannot be passed off as inner nodes. *)
Theorem merkle_proof_sound `{CryptoLib} {laws : Sha256Length} items sp leaf :
  Proof_Verify sp (HashFromByteSlices items) leaf = Ok tt ->
  collision_free (tree_inputs (length items) items)
    (aunts_inputs (pr_Index sp) (pr_Total sp) leaf (rev (pr_Aunts sp))) ->
  leaf ∈ items /\ (pr_Total sp = lenZ items -> items !! Z.to_nat (pr_Index sp) = Some leaf).
Proof.
  intros (Hl & Hr)%(Verify_Ok _ _ _ sha256_length) Hc. apply (aunts_sound (rev (pr_Aunts sp)) (length items)); [done| |done].
  unfold ComputeRootHash, computeHashFromAunts in Hr. rewrite Hl in Hr.
  destruct (hash_from_aunts _ _ _ _) as [h|]; [by cbn in Hr; subst|].
  exfalso. destruct (HashFromByteSlices_sha items) as [x Hx]. rewrite <- Hr in Hx. cbn in Hx.
  pose proof (sha256_length x) as Hlen. by rewrite <- Hx in Hlen.
Qed.

(** ** Witnesses *)

Definition sample_items : list bytes := [[10]; [20]; [30]; [40]; [50]].

Lemma merkle_proof_sound_witness :
  let proofs := snd (@ProofsFromByteSlices toy_crypto sample_items) in
  exists sp, proofs !! 3%nat = Some sp /\ sample_items !! Z.to_nat (pr_Index sp) = Some [40].
Proof.
  intros proofs. eexists. split; [vm_compute; reflexivity|].
  apply (@merkle_proof_sound toy_crypto toy_sha256_length sample_items).
  - vm_compute. reflexivity.
  - assert (Hd : Forall (fun x => Forall (fun y => @sha256 toy_crypto x = @sha256 toy_crypto y -> x = y)
      (@aunts_inputs toy_crypto 3 5 [40] (rev (pr_Aunts (default (mkMerkleProof 0 0 None []) (proofs !! 3%nat))))))
      (@tree_inputs toy_crypto 5 sample_items)) by (apply (bool_decide_unpack _); vm_compute; reflexivity).
    intros x y Hx Hy. exact (proj1 (Forall_forall _ _) (proj1 (Forall_forall _ _) Hd x Hx) y Hy).
  - reflexivity.
Defined.

Lemma merkle_proofs_complete_witness :
  exists sp, snd (@ProofsFromByteSlices toy_crypto sample_items) !! 4%nat = Some sp /\
    @Proof_Verify toy_crypto sp (@HashFromByteSlices toy_crypto sample_items) [50] = Ok tt.
Proof.
  pose proof (@merkle_proofs_complete toy_crypto toy_sha256_length sample_items) as Hc.
  destruct (@ProofsFromByteSlices toy_crypto sample_items) as [root proofs] eqn:E. destruct Hc as (Hr & _ & Hall).
  destruct (Hall 4%nat [50] eq_refl) as (sp & Hsp & _ & _ & Hv & _). exists sp.
  split; [exact Hsp|]. rewrite <- Hr. exact Hv.
Defined.
