(* ===== verification/PartSet.v ===== *)
(** * Block parts: src/types/part_set.go

    A block travels in parts with a Merkle proof each.  [PartSet] collects
    them, and [PartSetReader] reads the data back. *)

From Stdlib Require Import ZArith Lia.
From stdpp Require Import prelude list.
From S2P Require Import Prelude BitArray Crypto Merkle Proto Block.

Local Open Scope Z_scope.
Local Open Scope go_scope.

(** ** Data *)

Record Part := mkPart { pt_Index : Z; pt_Bytes : bytes; pt_Proof : MerkleProof }.

Record PartSet := mkPartSet {
  ps_total : Z;
  ps_hash : bytes;
  ps_parts : list (option Part);
  ps_partsBitArray : option BitArray;
  ps_count : Z;
  ps_byteSize : Z
}.


Definition BlockPartSizeBytes : Z := 65536.

Section crypto.
  Context `{CryptoLib}.

Inductive part_error := ErrPartTooBig | ErrPartProof (e : proof_error).

Definition Part_ValidateBasic (part : Part) : outcome part_error unit :=
  if BlockPartSizeBytes <? lenZ (pt_Bytes part) then Err ErrPartTooBig
  else match Proof_ValidateBasic (pt_Proof part) with
       | Ok _ => Ok tt
       | Err e => Err (ErrPartProof e)
       | Panic => Panic
       end.

(** ** Splitting data *)

(** [data[a:b]], a panic out of range. *)
Definition slice {E} (data : bytes) (a b : Z) : outcome E bytes :=
  if (a <? 0) || (b <? a) || (lenZ data <? b) then Panic
  else Ok (take (Z.to_nat (b - a)) (drop (Z.to_nat a) data)).

(** The loop that cuts the data and sets the bits; [todo] parts are to come. *)
Fixpoint cut_parts {E} (todo : nat) (data : bytes) (partSize i : Z) (bits : option BitArray)
  : outcome E (list bytes * option BitArray) :=
  match todo with
  | O => Ok ([], bits)
  | S todo =>
      part ← slice data (wrapu32 (i * partSize)) (Z.min (lenZ data) (wrapu32 (wrapu32 (i + 1) * partSize)));
      '(_, bits) ← SetIndex bits i true;
      '(rest, bits) ← cut_parts todo data partSize (wrapu32 (i + 1)) bits;
      Ok (part :: rest, bits)
  end.

Definition NewPartSetFromData {E} (data : bytes) (partSize : Z) : outcome E PartSet :=
  if partSize =? 0 then Panic
  else
    let total := wrapu32 (wrapu32 (wrapu32 (lenZ data) + partSize) - 1) / partSize in
    '(partsBytes, partsBitArray) ← cut_parts (Z.to_nat total) data partSize 0 (NewBitArray total);
    let '(root, proofs) := ProofsFromByteSlices partsBytes in
    Ok (mkPartSet total root
          (zip_with (fun ib proof => Some (mkPart (Z.of_nat (fst ib)) (snd ib) proof)) (imap pair partsBytes) proofs)
          partsBitArray total (lenZ data)).

Definition NewPartSetFromHeader (header : PartSetHeader) : PartSet :=
  mkPartSet (Total header) (psh_Hash header) (replicate (Z.to_nat (Total header)) None) (NewBitArray (Total header)) 0 0.

(** ** Reading a set; nil sets answer too *)

Definition PartSet_Header (ps : option PartSet) : PartSetHeader :=
  match ps with None => mkPartSetHeader 0 [] | Some ps => mkPartSetHeader (ps_total ps) (ps_hash ps) end.

Definition HasHeader (ps : option PartSet) (header : PartSetHeader) : bool :=
  match ps with None => false | Some _ => PartSetHeader_Equals (PartSet_Header ps) header end.

Definition PartSet_BitArray (ps : PartSet) : option BitArray := Copy (ps_partsBitArray ps).

Definition PartSet_Hash (ps : option PartSet) : bytes :=
  match ps with None => HashFromByteSlices [] | Some ps => ps_hash ps end.

Definition PartSet_HashesTo (ps : option PartSet) (hash : bytes) : bool :=
  match ps with None => false | Some ps => bytes_eqb (ps_hash ps) hash end.

Definition PartSet_Count (ps : option PartSet) : Z := match ps with None => 0 | Some ps => ps_count ps end.

Definition ByteSize (ps : option PartSet) : Z := match ps with None => 0 | Some ps => ps_byteSize ps end.

Definition PartSet_Total (ps : option PartSet) : Z := match ps with None => 0 | Some ps => ps_total ps end.

Definition GetPart {E} (ps : PartSet) (index : Z) : outcome E (option Part) := idx (ps_parts ps) index.

Definition IsComplete (ps : PartSet) : bool := ps_count ps =? ps_total ps.

(** ** Adding parts *)

Inductive part_set_error := ErrPartSetUnexpectedIndex | ErrPartSetInvalidProof.

Definition AddPart (part : Part) : GoM (option PartSet) part_set_error bool := fun ps =>
  match ps with
  | None => (Ok false, ps)
  | Some s =>
      if ps_total s <=? pt_Index part then (Err ErrPartSetUnexpectedIndex, ps)
      else match idx (E:=part_set_error) (ps_parts s) (pt_Index part) with
           | Ok (Some _) => (Ok false, ps)
           | Ok None =>
               match Proof_Verify (pt_Proof part) (PartSet_Hash ps) (pt_Bytes part) with
               | Ok _ =>
                   match upd (E:=part_set_error) (ps_parts s) (pt_Index part) (Some part),
                         SetIndex (E:=part_set_error) (ps_partsBitArray s) (pt_Index part) true with
                   | Ok parts, Ok (_, bits) =>
                       (Ok true, Some (mkPartSet (ps_total s) (ps_hash s) parts bits (wrapu32 (ps_count s + 1))
                                         (ps_byteSize s +i64 lenZ (pt_Bytes part))))
                   | _, _ => (Panic, ps)
                   end
               | _ => (Err ErrPartSetInvalidProof, ps)
               end
           | _ => (Panic, ps)
           end
  end.

(** ** Reading the data *)

(** The position in [parts], and what is left of the current [bytes.Reader]. *)
Record PartSetReader := mkPartSetReader { psr_i : Z; psr_parts : list (option Part); psr_reader : bytes }.

Definition part_bytes {E} (p : option Part) : outcome E bytes :=
  match p with Some p => Ok (pt_Bytes p) | None => Panic end.

Definition NewPartSetReader {E} (parts : list (option Part)) : outcome E PartSetReader :=
  p ← idx parts 0;
  b ← part_bytes p;
  Ok (mkPartSetReader 0 parts b).

Definition GetReader {E} (ps : PartSet) : outcome E PartSetReader :=
  if negb (IsComplete ps) then Panic else NewPartSetReader (ps_parts ps).

(** [bytes.Reader.Read] into a buffer of [n] bytes: what is read, whether it is
    the end, and what is left. *)
Definition reader_Read (r : bytes) (n : nat) : bytes * bool * bytes :=
  match r with [] => ([], true, []) | _ => (take n r, false, drop n r) end.

(** [Read] into a buffer of [n] bytes: what is read and whether [io.EOF] comes
    with it.  A turn reads what the current part has left or moves to the next
    part; [None] while it still runs after [fuel] turns. *)
Fixpoint Read {E} (fuel : nat) (n : nat) (psr : PartSetReader) : option (outcome E (bytes * bool * PartSetReader)) :=
  match fuel with
  | O => None
  | S fuel =>
      let readerLen := length (psr_reader psr) in
      if (n <=? readerLen)%nat then
        let '(b, eof, r) := reader_Read (psr_reader psr) n in
        Some (Ok (b, eof, mkPartSetReader (psr_i psr) (psr_parts psr) r))
      else if (0 <? readerLen)%nat then
        match Read fuel readerLen psr with
        | Some (Ok (b1, false, psr)) =>
            match Read fuel (n - readerLen) psr with
            | Some (Ok (b2, eof, psr)) => Some (Ok (b1 ++ b2, eof, psr))
            | r => r
            end
        | r => r
        end
      else
        let i := psr_i psr + 1 in
        if lenZ (psr_parts psr) <=? i then Some (Ok ([], true, mkPartSetReader i (psr_parts psr) (psr_reader psr)))
        else
          match idx (E:=E) (psr_parts psr) i ≫= part_bytes with
          | Ok b => Read fuel n (mkPartSetReader i (psr_parts psr) b)
          | Err e => Some (Err e)
          | Panic => Some Panic
          end
  end.

(** [io.ReadAll]: reads into the free space of a buffer that grows; [space] is
    how much there is before each read. *)
Fixpoint ReadAll {E} (fuel : nat) (space : nat -> nat) (turn : nat) (psr : PartSetReader) : option (outcome E bytes) :=
  match fuel with
  | O => None
  | S fuel' =>
      match Read fuel (space turn) psr with
      | Some (Ok (b, true, _)) => Some (Ok b)
      | Some (Ok (b, false, psr)) =>
          match ReadAll fuel' space (S turn) psr with
          | Some (Ok rest) => Some (Ok (b ++ rest))
          | r => r
          end
      | Some (Err e) => Some (Err e)
      | Some Panic => Some Panic
      | None => None
      end
  end.

End crypto.
