(* ===== verification/PartSetProps.v ===== *)
(** * Theorems on block parts

    Data cut into parts can be put together again from the parts, in any
    order; parts that verify and name their own place are the right ones; and
    what goes wrong when a part names a place that is not its proof's. *)

From Stdlib Require Import ZArith Lia.
From stdpp Require Import prelude list.
From S2P Require Import Prelude BitArray Crypto Merkle MerkleProps Proto Block Slots PartSet.

Local Open Scope Z_scope.
Local Open Scope go_scope.

(** ** The reader *)

(** [psr] has [bs] to give, with [k] parts after the current one. *)
Definition reads (psr : PartSetReader) (k : nat) (bs : bytes) : Prop :=
  exists pre p post, psr_parts psr = pre ++ p :: (Some <$> post) /\ psr_i psr = lenZ pre /\ length post = k /\
    bs = psr_reader psr ++ concat (pt_Bytes <$> post).

Definition turns (psr : PartSetReader) (k : nat) : nat :=
  match psr_reader psr with [] => (2 * k + 1)%nat | _ => (2 * k + 2)%nat end.

Lemma Read_spec {E} fuel n psr k bs :
  reads psr k bs -> (0 < n)%nat -> (turns psr k <= fuel)%nat ->
  exists psr', Read (E:=E) fuel n psr = Some (Ok (take n bs, bool_decide (length bs < n)%nat, psr')) /\
    ((n <= length bs)%nat -> exists k', (k' <= k)%nat /\ reads psr' k' (drop n bs)).
Proof.
  revert n psr k bs. induction fuel as [|fuel IH]; intros n psr k bs (pre & p & post & Hp & Hi & Hk & Hbs) Hn Hf.
  { unfold turns in Hf. destruct (psr_reader psr); lia. }
  cbn [Read]. destruct (Nat.leb_spec n (length (psr_reader psr))) as [Hle|Hgt].
  - unfold reader_Read. destruct (psr_reader psr) as [|x r] eqn:Er; [cbn in Hle; lia|]. rewrite <- Er in *.
    eexists. split.
    + rewrite Hbs, take_app_le, bool_decide_eq_false_2 by (rewrite ?length_app; lia). done.
    + intros _. exists k. split; [done|]. exists pre, p, post. cbn. split_and!; try done. by rewrite Hbs, drop_app_le.
  - destruct (Nat.ltb_spec 0 (length (psr_reader psr))) as [Hpos|Hzero].
    + assert (Hr : turns psr k = (2 * k + 2)%nat) by (unfold turns; destruct (psr_reader psr); [cbn in Hpos; lia|done]).
      set (len := length (psr_reader psr)) in *. destruct fuel as [|fuel']; [lia|].
      assert (H1 : Read (E:=E) (S fuel') len psr = Some (Ok (psr_reader psr, false, mkPartSetReader (psr_i psr) (psr_parts psr) []))).
      { cbn [Read]. fold len. rewrite (proj2 (Nat.leb_le len len)) by lia. unfold reader_Read, len.
        destruct (psr_reader psr) as [|x r] eqn:Er; [cbn in Hpos; lia|]. rewrite <- Er.
        by rewrite firstn_all, drop_all. }
      rewrite H1. set (psr1 := mkPartSetReader (psr_i psr) (psr_parts psr) []).
      destruct (IH (n - len)%nat psr1 k (concat (pt_Bytes <$> post))) as (psr' & Hread & Hrest).
      * by exists pre, p, post.
      * lia.
      * unfold turns, psr1. cbn. lia.
      * rewrite Hread. exists psr'. split.
        -- rewrite Hbs, take_app_ge by lia. repeat f_equal. apply bool_decide_ext. rewrite length_app. fold len. lia.
        -- intros Hlen. rewrite Hbs, length_app in Hlen. fold len in Hlen. rewrite Hbs, drop_app_ge by lia.
           apply Hrest. lia.
    + assert (Er : psr_reader psr = []) by (destruct (psr_reader psr); [done|cbn in Hzero; lia]). rewrite Er in Hbs. cbn [app] in Hbs.
      rewrite Hi. destruct post as [|q post].
      * rewrite (proj2 (Z.leb_le _ _)) by (rewrite Hp; unfold lenZ; rewrite length_app; cbn; lia). subst bs. cbn.
        eexists. split; [|lia]. rewrite bool_decide_eq_true_2 by lia. by rewrite take_nil.
      * rewrite (proj2 (Z.leb_gt _ _)) by (rewrite Hp; unfold lenZ; rewrite length_app; cbn; lia).
        assert (Hidx : idx (E:=E) (psr_parts psr) (lenZ pre + 1) = Ok (Some q)).
        { rewrite Hp, fmap_cons, cons_middle, app_assoc. apply idx_app. unfold lenZ. rewrite length_app. cbn. lia. }
        rewrite Hidx. cbn [mbind outcome_bind part_bytes].
        destruct (IH n (mkPartSetReader (lenZ pre + 1) (psr_parts psr) (pt_Bytes q)) (length post) bs) as (psr' & Hread & Hrest).
        -- exists (pre ++ [p]), (Some q), post. cbn [psr_parts psr_i psr_reader]. split_and!; [|unfold lenZ; rewrite length_app; cbn; lia|done|done].
           by rewrite Hp, fmap_cons, <- app_assoc.
        -- done.
        -- unfold turns in *. cbn [psr_reader]. rewrite Er in Hf. cbn in Hk. destruct (pt_Bytes q); lia.
        -- exists psr'. split; [done|]. intros Hlen. destruct (Hrest Hlen) as (k' & Hk' & Hr). exists k'. split; [cbn in Hk; lia|done].
Qed.

Lemma ReadAll_spec {E} space : (forall i, 0 < space i)%nat -> forall fuel turn psr k bs,
  reads psr k bs -> (length bs + 2 * k + 2 < fuel)%nat -> ReadAll (E:=E) fuel space turn psr = Some (Ok bs).
Proof.
  intros Hs. induction fuel as [|fuel IH]; intros turn psr k bs Hr Hf; [lia|]. cbn [ReadAll].
  destruct (Read_spec (E:=E) (S fuel) (space turn) psr k bs Hr (Hs turn)) as (psr' & Hread & Hrest).
  { unfold turns. destruct (psr_reader psr); lia. }
  rewrite Hread. case_bool_decide as Hlt.
  - by rewrite take_ge by lia.
  - destruct Hrest as (k' & Hk' & Hr'); [lia|]. specialize (Hs turn).
    rewrite (IH (S turn) psr' k' (drop (space turn) bs) Hr'); [|rewrite length_drop; lia]. by rewrite take_drop.
Qed.

(** Reading the whole of a set of parts. *)
Lemma read_parts {E} (parts : list Part) space fuel :
  parts <> [] -> (forall i, 0 < space i)%nat -> (length (concat (pt_Bytes <$> parts)) + 2 * length parts < fuel)%nat ->
  exists psr, NewPartSetReader (E:=E) (Some <$> parts) = Ok psr /\
    ReadAll (E:=E) fuel space 0 psr = Some (Ok (concat (pt_Bytes <$> parts))).
Proof.
  destruct parts as [|p parts]; [done|]. intros _ Hs Hf. exists (mkPartSetReader 0 (Some <$> p :: parts) (pt_Bytes p)).
  split; [done|]. apply (ReadAll_spec space Hs fuel 0 _ (length parts)).
  - by exists [], (Some p), parts.
  - rewrite length_cons in Hf. lia.
Qed.

(** ** The invariant of a set *)

Section invariant.
  Context `{CryptoLib}.
  Context (total : Z) (hash : bytes).

Definition bytes_in (parts : list (option Part)) : Z := Zsum ((fun p => lenZ (pt_Bytes p)) <$> omap id parts).

Record ps_inv (ps : PartSet) : Prop := {
  pi_total : ps_total ps = total;
  pi_hash : ps_hash ps = hash;
  pi_range : 0 <= total < 4294967296;
  pi_len : lenZ (ps_parts ps) = total;
  pi_bits : bits_of (ps_partsBitArray ps) (ps_parts ps);
  pi_count : ps_count ps = Z.of_nat (vote_count (ps_parts ps));
  pi_size : ps_byteSize ps = wrap64 (bytes_in (ps_parts ps));
  pi_parts : forall (i : nat) p, ps_parts ps !! i = Some (Some p) ->
    pt_Index p = Z.of_nat i /\ Proof_Verify (pt_Proof p) hash (pt_Bytes p) = Ok tt
}.

Lemma bytes_in_insert parts (i : nat) p :
  parts !! i = Some None -> bytes_in (<[i := Some p]> parts) = bytes_in parts + lenZ (pt_Bytes p).
Proof.
  unfold bytes_in. revert i. induction parts as [|o parts IH]; intros [|i] Hi; try done.
  - injection Hi as ->. cbn. lia.
  - change (<[S i := Some p]> (o :: parts)) with (o :: <[i := Some p]> parts). specialize (IH i Hi).
    destruct o; cbn -[Z.add] in *; lia.
Qed.

Lemma new_header_inv header :
  Total header = total -> psh_Hash header = hash -> 0 <= total < 4294967296 -> ps_inv (NewPartSetFromHeader header).
Proof.
  intros Ht Hh Hr. unfold NewPartSetFromHeader.
  constructor; cbn [ps_total ps_hash ps_parts ps_partsBitArray ps_count ps_byteSize]; try done.
  - unfold lenZ. rewrite length_replicate. lia.
  - rewrite <- (Z2Nat.id (Total header)) at 1 by lia. apply bits_of_new.
  - unfold vote_count. induction (Z.to_nat (Total header)); [done|]. cbn. done.
  - unfold bytes_in. induction (Z.to_nat (Total header)); [done|]. cbn. done.
  - intros i p [? _]%lookup_replicate. done.
Qed.

(** What [AddPart] does on every branch. *)
Definition part_added (ps : PartSet) (part : Part) (r : outcome part_set_error bool * option PartSet) : Prop :=
  if total <=? pt_Index part then r = (Err ErrPartSetUnexpectedIndex, Some ps)
  else
    exists o, ps_parts ps !! Z.to_nat (pt_Index part) = Some o /\
      match o, Proof_Verify (pt_Proof part) hash (pt_Bytes part) with
      | Some _, _ => r = (Ok false, Some ps)
      | None, Ok _ =>
          exists ps', r = (Ok true, Some ps') /\ ps_inv ps' /\
            ps_parts ps' = <[Z.to_nat (pt_Index part) := Some part]> (ps_parts ps)
      | None, _ => r = (Err ErrPartSetInvalidProof, Some ps)
      end.

Lemma wrap64_add a b : wrap64 (wrap64 a + b) = wrap64 (a + b).
Proof.
  unfold wrap64. f_equal. replace ((a + two63) mod two64 - two63 + b + two63) with ((a + two63) mod two64 + b) by lia.
  rewrite Zplus_mod_idemp_l. f_equal. lia.
Qed.

Lemma AddPart_spec ps part : ps_inv ps -> 0 <= pt_Index part -> part_added ps part (AddPart part (Some ps)).
Proof.
  intros [H1 H2 H3 H4 H5 H6 H7 H8] Hi. unfold part_added, AddPart, PartSet_Hash. rewrite H1, H2.
  destruct (Z.leb_spec total (pt_Index part)) as [|Hlt]; [done|].
  set (i := Z.to_nat (pt_Index part)) in *. replace (pt_Index part) with (Z.of_nat i) by lia.
  destruct (lookup_lt_is_Some_2 (ps_parts ps) i) as [o Ho]; [unfold lenZ in H4; lia|]. exists o. split; [done|].
  rewrite idx_nat, Ho. destruct o as [q|]; [done|].
  destruct (Proof_Verify (pt_Proof part) hash (pt_Bytes part)) as [u| |] eqn:Ev; [|done|done].
  destruct (bits_of_set (E:=part_set_error) _ _ i None part H5 Ho) as (r & b' & Hs & Hb').
  assert (Hu : upd (E:=part_set_error) (ps_parts ps) (Z.of_nat i) (Some part) = Ok (<[i := Some part]> (ps_parts ps))).
  { apply upd_Ok. rewrite Nat2Z.id. split; [unfold lenZ in *; lia|done]. }
  rewrite Hu, Hs. eexists. split_and!; [done| |done].
  pose proof (vote_count_insert (ps_parts ps) i None part Ho) as Hc. cbn [has] in Hc.
  pose proof (vote_count_le (<[i := Some part]> (ps_parts ps))) as Hcl. rewrite length_insert in Hcl.
  constructor; cbn [ps_total ps_hash ps_parts ps_partsBitArray ps_count ps_byteSize]; try done.
  - unfold lenZ. by rewrite length_insert.
  - rewrite Hc, H6. unfold wrapu32. rewrite Z.mod_small by (unfold lenZ in *; lia). lia.
  - by rewrite H7, wrap64_add, bytes_in_insert.
  - intros j p Hj. destruct (decide (i = j)) as [<-|Hne].
    + rewrite list_lookup_insert_eq in Hj by (unfold lenZ in *; lia). injection Hj as <-. destruct u. split; [lia|done].
    + rewrite list_lookup_insert_ne in Hj by done. by apply H8.
Qed.

(** A set is complete when every place has its part. *)
Lemma IsComplete_spec ps : ps_inv ps -> IsComplete ps = true <-> exists parts, ps_parts ps = Some <$> parts.
Proof.
  intros [H1 _ _ H4 _ H6 _ _]. unfold IsComplete. rewrite Z.eqb_eq, H1, H6, <- H4. unfold lenZ. clear.
  rewrite Nat2Z.inj_iff. induction (ps_parts ps) as [|o l IH].
  - split; [|done]. intros _. by exists [].
  - rewrite vote_count_cons. pose proof (vote_count_le l). cbn [length]. destruct o as [p|]; cbn [has].
    + split.
      * intros Hc. destruct (proj1 IH ltac:(lia)) as [parts ->]. by exists (p :: parts).
      * intros [[|q parts] Heq]; [done|]. injection Heq as -> Heq. assert (vote_count l = length l) by (apply IH; by exists parts). lia.
    + split; [lia|]. by intros [[|q parts] Heq].
Qed.

End invariant.

(** ** Soundness *)

Section sound.
  Context `{CryptoLib} {laws : Sha256Length}.
  Context (items : list bytes).

(** A part whose proof is for the place the part names, and whose hashes do not
    collide with those of the data. *)
Definition placed (part : Part) : Prop :=
  0 <= pt_Index part /\ pr_Index (pt_Proof part) = pt_Index part /\ pr_Total (pt_Proof part) = lenZ items /\
  collision_free (tree_inputs (length items) items)
    (aunts_inputs (pt_Index part) (lenZ items) (pt_Bytes part) (rev (pr_Aunts (pt_Proof part)))).

(** Any part is added; the index is unsigned. *)
Inductive part_call (ps : option PartSet) : option PartSet -> Prop :=
| call_part part r ps' : 0 <= pt_Index part -> AddPart part ps = (r, ps') -> part_call ps ps'.

Lemma part_call_inv ops ops' total hash :
  part_call ops ops' -> forall ps, ops = Some ps -> ps_inv total hash ps -> exists ps', ops' = Some ps' /\ ps_inv total hash ps'.
Proof.
  intros [part r ops1 Hi Ha] ps -> Hinv. pose proof (AddPart_spec _ _ ps part Hinv Hi) as Hs. rewrite Ha in Hs. unfold part_added in Hs.
  destruct (Z.leb_spec total (pt_Index part)); [injection Hs as _ ->; eauto|].
  destruct Hs as (o & Ho & Hs). destruct o as [q|]; [injection Hs as _ ->; eauto|].
  destruct (Proof_Verify (pt_Proof part) hash (pt_Bytes part)) as [u| |]; [|injection Hs as _ ->; by eauto..].
  destruct Hs as (ps' & [= _ ->] & Hinv' & _). eauto.
Qed.

Lemma part_calls_inv ops ops' total hash :
  rtc part_call ops ops' -> forall ps, ops = Some ps -> ps_inv total hash ps -> exists ps', ops' = Some ps' /\ ps_inv total hash ps'.
Proof.
  induction 1 as [|o1 o2 o3 Hc _ IH]; [eauto|]. intros ps -> Hinv.
  destruct (part_call_inv _ _ _ _ Hc ps eq_refl Hinv) as (ps2 & -> & Hinv2). eauto.
Qed.

(** A part in its place that verifies has the item of that place. *)
Lemma placed_match part :
  placed part -> Proof_Verify (pt_Proof part) (HashFromByteSlices items) (pt_Bytes part) = Ok tt ->
  items !! Z.to_nat (pt_Index part) = Some (pt_Bytes part).
Proof.
  intros (Hi & Hpi & Hpt & Hc) Ev. destruct (Verify_Ok _ _ _ sha256_length Ev) as [Hl Hr].
  unfold ComputeRootHash, computeHashFromAunts in Hr. rewrite Hl, Hpi, Hpt in Hr.
  destruct (hash_from_aunts _ _ _ _) as [h|] eqn:Eh.
  - cbn in Hr. subst h. by apply (aunts_sound _ (length items) items _ _ _ (le_n _) Eh Hc).
  - exfalso. destruct (HashFromByteSlices_sha items) as [x Hx]. rewrite <- Hr in Hx. cbn in Hx.
    pose proof (sha256_length x) as Hlen. by rewrite <- Hx in Hlen.
Qed.

(** Every part kept is in its place. *)
Definition all_placed (ps : PartSet) : Prop := forall (i : nat) p, ps_parts ps !! i = Some (Some p) -> placed p.

Definition parts_match (ps : PartSet) : Prop :=
  forall (i : nat) p, ps_parts ps !! i = Some (Some p) -> items !! i = Some (pt_Bytes p).

Lemma all_placed_match ps : ps_inv (lenZ items) (HashFromByteSlices items) ps -> all_placed ps -> parts_match ps.
Proof.
  intros Hinv Hall i p Hp. destruct (pi_parts _ _ _ Hinv i p Hp) as [Hi Hv]. pose proof (placed_match p (Hall i p Hp) Hv) as Hm.
  by rewrite Hi, Nat2Z.id in Hm.
Qed.

Lemma complete_filled total hash ps :
  ps_inv total hash ps -> IsComplete ps = true <-> forall i, (i < Z.to_nat total)%nat -> exists p, ps_parts ps !! i = Some (Some p).
Proof.
  intros Hinv. pose proof (pi_len _ _ _ Hinv) as Hlen. rewrite (IsComplete_spec _ _ ps Hinv). split.
  - intros [parts Hp] i Hi. rewrite Hp. destruct (lookup_lt_is_Some_2 parts i) as [p Hpi].
    { rewrite Hp in Hlen. unfold lenZ in Hlen. rewrite length_fmap in Hlen. lia. }
    exists p. by rewrite list_lookup_fmap, Hpi.
  - intros Hall. exists (omap id (ps_parts ps)). unfold lenZ in Hlen. clear -Hall Hlen.
    assert (Hall' : Forall is_Some (ps_parts ps)).
    { apply Forall_lookup. intros i o Ho. destruct (Hall i) as [p Hp]; [apply lookup_lt_Some in Ho; lia|]. rewrite Ho in Hp.
      injection Hp as ->. by eexists. }
    clear Hall Hlen. induction Hall' as [|o l [p ->] _ IH]; [done|]. cbn. f_equal. exact IH.
Qed.

Lemma match_read ps space fuel :
  ps_inv (lenZ items) (HashFromByteSlices items) ps -> parts_match ps -> items <> [] -> IsComplete ps = true ->
  (forall i, 0 < space i)%nat -> (length (concat items) + 2 * length items < fuel)%nat ->
  exists psr, GetReader (E:=unit) ps = Ok psr /\ ReadAll (E:=unit) fuel space 0 psr = Some (Ok (concat items)).
Proof.
  intros Hinv Hm Hne Hcomp Hs Hf. pose proof (pi_len _ _ _ Hinv) as Hlen. destruct (proj1 (IsComplete_spec _ _ ps Hinv) Hcomp) as [parts Hp].
  assert (Hitems : pt_Bytes <$> parts = items).
  { apply list_eq_same_length with (n := length items); [done| |].
    - rewrite length_fmap. rewrite Hp in Hlen. unfold lenZ in Hlen. rewrite length_fmap in Hlen. lia.
    - intros i x y _ Hx Hy. apply list_lookup_fmap_Some in Hx as (p & -> & Hpi).
      specialize (Hm i p). rewrite Hp, list_lookup_fmap, Hpi in Hm. specialize (Hm eq_refl). congruence. }
  assert (Hlp : length parts = length items) by (rewrite <- Hitems; by rewrite length_fmap).
  unfold GetReader. rewrite Hcomp, Hp. cbn [negb]. rewrite <- Hitems.
  apply read_parts; [|done|rewrite Hitems; lia]. intros ->. by destruct items.
Qed.

End sound.

(** C31: a part set counts exactly what it keeps, and is read back only as the
    right data.  Start from the header of some data cut into parts, and add any
    parts whatever, in any order, with repeats and with parts that fail their
    proof.  Then each part kept is at the index it names and its proof verifies
    against the header; the bits, the count and the byte size are those of the
    parts kept; the next call does exactly one of: refuse the index, find the place
    filled, refuse the proof, or keep the part; and the set is complete exactly when
    every place is filled.  If moreover each part kept names the place its proof is
    for, out of the number of parts of the header, and no hash collides, then each is
    the part of the data for its place, and a complete set read with buffers of any
    sizes gives the data, no more and no less. *)
Theorem part_set_sound `{CryptoLib} {laws : Sha256Length} items ps space fuel :
  0 < lenZ items < 4294967296 -> (forall i, 0 < space i)%nat -> (length (concat items) + 2 * length items < fuel)%nat ->
  rtc part_call (Some (NewPartSetFromHeader (mkPartSetHeader (lenZ items) (HashFromByteSlices items)))) (Some ps) ->
  ps_inv (lenZ items) (HashFromByteSlices items) ps /\
  (forall part, 0 <= pt_Index part -> part_added (lenZ items) (HashFromByteSlices items) ps part (AddPart part (Some ps))) /\
  (IsComplete ps = true <-> forall i, (i < length items)%nat -> exists p, ps_parts ps !! i = Some (Some p)) /\
  (all_placed items ps ->
   (forall (i : nat) p, ps_parts ps !! i = Some (Some p) -> items !! i = Some (pt_Bytes p)) /\
   (IsComplete ps = true -> exists psr, GetReader (E:=unit) ps = Ok psr /\
      ReadAll (E:=unit) fuel space 0 psr = Some (Ok (concat items)))).
Proof.
  intros Hr Hs Hf Hcalls.
  destruct (part_calls_inv _ _ _ _ Hcalls _ eq_refl 
    (new_header_inv (lenZ items) (HashFromByteSlices items) (mkPartSetHeader (lenZ items) (HashFromByteSlices items)) eq_refl eq_refl ltac:(lia)))
    as (ps' & [= <-] & Hinv).
  pose proof (complete_filled _ _ ps Hinv) as Hc. unfold lenZ in Hc. rewrite Nat2Z.id in Hc.
  split; [done|]. split; [by intros; apply AddPart_spec|]. split; [exact Hc|]. intros Hall%all_placed_match; [|done]. split; [done|].
  intros Hcomp. apply match_read; try done. intros ->. unfold lenZ in Hr. cbn in Hr. lia.
Qed.

(** ** Cutting data *)

Section cut.
  Context (data : bytes) (partSize total : Z).
  Hypothesis Hps : 0 < partSize.
  Hypothesis Hlen : lenZ data + partSize < 4294967296.
  Hypothesis Htotal : total = (lenZ data + partSize - 1) / partSize.

Lemma total_bounds : 0 <= total /\ total * partSize <= lenZ data + partSize - 1 /\ lenZ data <= total * partSize.
Proof.
  assert (0 <= lenZ data) by (unfold lenZ; lia).
  pose proof (Z.div_mod (lenZ data + partSize - 1) partSize ltac:(lia)). pose proof (Z.mod_pos_bound (lenZ data + partSize - 1) partSize Hps).
  rewrite <- Htotal in *. assert (0 <= total) by (rewrite Htotal; apply Z.div_pos; lia). nia.
Qed.

Lemma cut_parts_spec {E} todo : forall i bits,
  Z.of_nat (i + todo) = total -> bits_of bits (replicate i (Some tt) ++ replicate todo None) ->
  exists chunks bits', cut_parts (E:=E) todo data partSize (Z.of_nat i) bits = Ok (chunks, bits') /\ length chunks = todo /\
    concat chunks = drop (Z.to_nat (Z.of_nat i * partSize)) data /\
    Forall (fun c => 0 < lenZ c <= partSize) chunks /\ bits_of bits' (replicate (i + todo) (Some tt)).
Proof.
  destruct total_bounds as (T0 & T1 & T2). induction todo as [|todo IH]; intros i bits Hi Hb.
  - exists [], bits. cbn [cut_parts concat]. split_and!; try done.
    + rewrite drop_ge; [done|]. unfold lenZ in *. rewrite Nat.add_0_r in Hi. subst total. lia.
    + by rewrite Nat.add_0_r, <- (app_nil_r (replicate i _)).
  - assert (H1 : (Z.of_nat i + 1) * partSize <= total * partSize) by nia.
    assert (H2 : Z.of_nat i * partSize < lenZ data) by nia.
    assert (Hi' : Z.of_nat i + 1 < 4294967296) by nia.
    cbn [cut_parts]. unfold wrapu32. rewrite (Z.mod_small (Z.of_nat i * partSize)), (Z.mod_small (Z.of_nat i + 1)) by nia.
    rewrite (Z.mod_small ((Z.of_nat i + 1) * partSize)) by nia.
    set (a := Z.of_nat i * partSize) in *. replace ((Z.of_nat i + 1) * partSize) with (a + partSize) in * by (unfold a; lia).
    unfold slice. assert (Ha : 0 <= a) by (unfold a; nia).
    rewrite (proj2 (Z.ltb_ge a 0)), (proj2 (Z.ltb_ge (Z.min (lenZ data) (a + partSize)) a)),
      (proj2 (Z.ltb_ge (lenZ data) (Z.min (lenZ data) (a + partSize)))) by lia. cbn [orb mbind outcome_bind].
    destruct (bits_of_set (E:=E) bits (replicate i (Some tt) ++ replicate (S todo) None) i None tt Hb) as (r & b' & Hs & Hb').
    { rewrite lookup_app_r, length_replicate, Nat.sub_diag by (rewrite length_replicate; lia). done. }
    rewrite Hs. cbn [mbind outcome_bind].
    rewrite insert_app_r_alt, length_replicate, Nat.sub_diag in Hb' by (rewrite length_replicate; lia). cbn [replicate] in Hb'.
    change (<[0%nat := Some tt]> (None :: replicate todo None)) with ([Some tt] ++ replicate todo (None : option unit)) in Hb'.
    rewrite app_assoc, <- replicate_S_end in Hb'. replace (Z.of_nat i + 1) with (Z.of_nat (S i)) by lia.
    destruct (IH (S i) b') as (chunks & bits' & Hc & Hl & Hcat & Hall & Hbits); [lia|done|]. rewrite Hc. cbn [mbind outcome_bind].
    eexists _, _. split; [done|]. split_and!.
    + cbn. lia.
    + cbn [concat]. rewrite Hcat. replace (Z.of_nat (S i) * partSize) with (a + partSize) by (unfold a; lia).
      set (m := Z.to_nat (Z.min (lenZ data) (a + partSize) - a)).
      rewrite <- (take_drop m (drop (Z.to_nat a) data)) at 2. f_equal. rewrite drop_drop.
      destruct (Z.le_gt_cases (a + partSize) (lenZ data)).
      * f_equal. unfold m. lia.
      * rewrite !drop_ge; [done|unfold m, lenZ in *; lia..].
    + apply Forall_cons. split; [|done]. unfold lenZ in *. rewrite length_take, length_drop. lia.
    + by replace (i + S todo)%nat with (S i + todo)%nat by lia.
Qed.

Lemma cut_all {E} :
  data <> [] ->
  exists chunks bits, cut_parts (E:=E) (Z.to_nat total) data partSize 0 (NewBitArray total) = Ok (chunks, bits) /\
    lenZ chunks = total /\ concat chunks = data /\ chunks <> [] /\ Forall (fun c => 0 < lenZ c <= partSize) chunks.
Proof.
  intros Hne. destruct total_bounds as (T0 & T1 & T2).
  destruct (cut_parts_spec (E:=E) (Z.to_nat total) 0 (NewBitArray total)) as (chunks & bits & Hc & Hl & Hcat & Hall & _).
  - cbn. lia.
  - cbn [replicate app]. rewrite <- (Z2Nat.id total) at 1 by lia. apply bits_of_new.
  - exists chunks, bits. split_and!; [done|unfold lenZ; lia|done| |done].
    intros ->. apply Hne. symmetry. exact Hcat.
Qed.

End cut.

(** ** The round trip *)

Section roundtrip.
  Context `{CryptoLib}.

(** Parts added in order, all of them accepted. *)
Fixpoint add_all (order : list Part) (ps : option PartSet) : option PartSet :=
  match order with
  | [] => ps
  | p :: rest => match AddPart p ps with (Ok true, ps) => add_all rest ps | _ => None end
  end.

Lemma add_all_spec total hash order : forall ps,
  ps_inv total hash ps -> NoDup (pt_Index <$> order) ->
  (forall p, p ∈ order -> 0 <= pt_Index p < total /\ Proof_Verify (pt_Proof p) hash (pt_Bytes p) = Ok tt /\
     ps_parts ps !! Z.to_nat (pt_Index p) = Some None) ->
  exists ps', add_all order (Some ps) = Some ps' /\ ps_inv total hash ps' /\
    (forall p, p ∈ order -> ps_parts ps' !! Z.to_nat (pt_Index p) = Some (Some p)) /\
    (forall i o, ps_parts ps !! i = Some (Some o) -> ps_parts ps' !! i = Some (Some o)).
Proof.
  induction order as [|p order IH]; intros ps Hinv Hnd Hall.
  { exists ps. split_and!; try done. by intros p ?%elem_of_nil. }
  rewrite fmap_cons in Hnd. apply NoDup_cons in Hnd as [Hni Hnd].
  destruct (Hall p ltac:(set_solver)) as (Hi & Hv & Hslot). pose proof (AddPart_spec _ _ ps p Hinv ltac:(lia)) as Ha.
  unfold part_added in Ha. destruct (Z.leb_spec total (pt_Index p)); [lia|]. destruct Ha as (o & Ho & Ha).
  rewrite Hslot in Ho. injection Ho as <-. rewrite Hv in Ha. destruct Ha as (ps1 & Ha & Hinv1 & Hparts).
  cbn [add_all]. rewrite Ha.
  assert (Hother : forall q, q ∈ order -> Z.to_nat (pt_Index p) <> Z.to_nat (pt_Index q)).
  { intros q Hq Heq. destruct (Hall q ltac:(set_solver)) as ([Hq0 _] & _). apply Hni, list_elem_of_fmap. exists q. split; [lia|done]. }
  destruct (IH ps1 Hinv1 Hnd) as (ps' & Hadd & Hinv' & Hin & Hkeep).
  { intros q Hq. destruct (Hall q ltac:(set_solver)) as (Q1 & Q2 & Q3). split_and!; [lia..|done|].
    rewrite Hparts, list_lookup_insert_ne by (by apply Hother). done. }
  exists ps'. split_and!; [done|done| |].
  - intros q [->|Hq]%elem_of_cons; [|by apply Hin]. apply Hkeep. rewrite Hparts, list_lookup_insert_eq; [done|].
    by eapply lookup_lt_Some.
  - intros i o Hio. apply Hkeep. rewrite Hparts. rewrite list_lookup_insert_ne; [done|]. intros <-. congruence.
Qed.

Lemma parts_of_chunks chunks :
  exists parts, zip_with (fun ib proof => Some (mkPart (Z.of_nat (fst ib)) (snd ib) proof)) (imap pair chunks)
      (snd (ProofsFromByteSlices chunks)) = Some <$> parts /\
    pt_Bytes <$> parts = chunks /\
    forall (i : nat) p, parts !! i = Some p -> pt_Index p = Z.of_nat i /\
      exists aunts, pt_Proof p = mkMerkleProof (lenZ chunks) (Z.of_nat i) (Some (leafHash (pt_Bytes p))) aunts /\
        hash_from_aunts (Z.of_nat i) (lenZ chunks) (Some (leafHash (pt_Bytes p))) (rev aunts) = Some (HashFromByteSlices chunks) /\
        Forall (fun a => exists x, a = sha256 x) aunts /\ forall j, 0 <= j -> lenZ chunks <= 2 ^ j -> lenZ aunts <= j.
Proof.
  destruct (ProofsFromByteSlices_spec chunks) as (_ & Hl & Hall). set (proofs := snd (ProofsFromByteSlices chunks)) in *.
  exists (zip_with (fun ib proof => mkPart (Z.of_nat (fst ib)) (snd ib) proof) (imap pair chunks) proofs). split_and!.
  - generalize (imap pair chunks). generalize proofs. clear. intros proofs l. revert proofs. induction l as [|x l IH]; intros [|p proofs]; try done.
    cbn. f_equal. apply IH.
  - apply list_eq. intros i. rewrite list_lookup_fmap, lookup_zip_with, list_lookup_imap.
    destruct (chunks !! i) as [c|] eqn:Ec; cbn; [|done]. destruct (Hall i c Ec) as (aunts & -> & _). done.
  - intros i p Hp. rewrite lookup_zip_with, list_lookup_imap in Hp. destruct (chunks !! i) as [c|] eqn:Ec; cbn in Hp; [|done].
    destruct (Hall i c Ec) as (aunts & Hpr & Hc). rewrite Hpr in Hp. cbn in Hp. injection Hp as <-. cbn. eauto.
Qed.

(** What [NewPartSetFromData] makes. *)
Record data_parts (data : bytes) (partSize : Z) (chunks : list bytes) (parts : list Part) : Prop := {
  dp_count : lenZ chunks = (lenZ data + partSize - 1) / partSize;
  dp_concat : concat chunks = data;
  dp_some : chunks <> [];
  dp_sizes : Forall (fun c => 0 < lenZ c <= partSize) chunks;
  dp_bytes : pt_Bytes <$> parts = chunks;
  dp_parts : forall (i : nat) p, parts !! i = Some p -> pt_Index p = Z.of_nat i /\
    exists aunts, pt_Proof p = mkMerkleProof (lenZ chunks) (Z.of_nat i) (Some (leafHash (pt_Bytes p))) aunts /\
      hash_from_aunts (Z.of_nat i) (lenZ chunks) (Some (leafHash (pt_Bytes p))) (rev aunts) = Some (HashFromByteSlices chunks) /\
      Forall (fun a => exists x, a = sha256 x) aunts /\ forall j, 0 <= j -> lenZ chunks <= 2 ^ j -> lenZ aunts <= j
}.

Lemma NewPartSetFromData_spec {E} data partSize :
  0 < partSize -> data <> [] -> lenZ data + partSize < 4294967296 ->
  exists chunks parts bits, data_parts data partSize chunks parts /\
    NewPartSetFromData (E:=E) data partSize =
      Ok (mkPartSet (lenZ chunks) (HashFromByteSlices chunks) (Some <$> parts) bits (lenZ chunks) (lenZ data)).
Proof.
  intros Hps Hne Hlen. assert (Hl0 : 0 <= lenZ data) by (unfold lenZ; lia).
  set (total := (lenZ data + partSize - 1) / partSize).
  destruct (cut_all (E:=E) data partSize total Hps Hlen eq_refl Hne) as (chunks & bits & Hcut & Hlc & Hcat & Hcne & Hsz).
  destruct (parts_of_chunks chunks) as (parts & Hzip & Hbytes & Hparts).
  exists chunks, parts, bits. split; [done|].
  unfold NewPartSetFromData. destruct (Z.eqb_spec partSize 0); [lia|].
  assert (wrapu32 (wrapu32 (wrapu32 (lenZ data) + partSize) - 1) / partSize = total) as ->.
  { unfold wrapu32. rewrite (Z.mod_small (lenZ data)), (Z.mod_small (lenZ data + partSize)) by lia.
    rewrite Z.mod_small by lia. done. }
  rewrite Hcut. cbn [mbind outcome_bind].
  destruct (ProofsFromByteSlices_spec chunks) as (Hroot & _ & _).
  destruct (ProofsFromByteSlices chunks) as [root proofs] eqn:Ep. cbn [fst snd] in Hzip, Hroot. by rewrite Hzip, Hroot, Hlc.
Qed.

End roundtrip.

(** C30: data can be sent in parts.  Any data that is not empty and fits 32-bit
    arithmetic is cut into non-empty parts of at most the part size, whose
    concatenation is the data.  Adding these parts in any order to an empty set
    made from the header accepts every one of them; the set is then complete,
    and reading it, with buffers of any sizes, ends and gives the data. *)
Theorem part_set_roundtrip `{CryptoLib} {laws : Sha256Length} data partSize space fuel :
  0 < partSize -> data <> [] -> lenZ data + partSize < 4294967296 -> (forall i, 0 < space i)%nat ->
  (3 * length data < fuel)%nat ->
  exists ps parts, NewPartSetFromData (E:=unit) data partSize = Ok ps /\ IsComplete ps = true /\
    ps_parts ps = Some <$> parts /\ concat (pt_Bytes <$> parts) = data /\
    Forall (fun p => 0 < lenZ (pt_Bytes p) <= partSize) parts /\
    forall order, Permutation order parts ->
      exists ps' psr, add_all order (Some (NewPartSetFromHeader (PartSet_Header (Some ps)))) = Some ps' /\
        IsComplete ps' = true /\ GetReader (E:=unit) ps' = Ok psr /\ ReadAll (E:=unit) fuel space 0 psr = Some (Ok data).
Proof.
  intros Hps Hne Hlen Hsp Hfuel. pose proof (total_bounds data partSize _ Hps Hlen eq_refl) as (T0 & T1 & T2).
  destruct (NewPartSetFromData_spec (E:=unit) data partSize Hps Hne Hlen) as (chunks & parts & bits & Hd & ->).
  destruct Hd as [Hlc Hcat Hcne Hsz Hbytes Hparts]. rewrite <- Hlc in T0, T1, T2. set (total := lenZ chunks) in *.
  assert (Hlp : length parts = length chunks) by (rewrite <- Hbytes; by rewrite length_fmap).
  eexists _, parts. split; [done|]. cbn [ps_parts ps_total ps_count PartSet_Header ps_hash].
  split; [unfold IsComplete; cbn; apply Z.eqb_refl|]. split; [done|]. split; [by rewrite Hbytes|].
  split. { rewrite <- Hbytes in Hsz. by apply Forall_fmap in Hsz. }
  intros order Hperm.
  set (ps0 := NewPartSetFromHeader (mkPartSetHeader total (HashFromByteSlices chunks))).
  assert (Hinv0 : ps_inv total (HashFromByteSlices chunks) ps0) by (by apply new_header_inv; [..|nia]).
  assert (Hind : forall p, p ∈ order -> exists i : nat, parts !! i = Some p /\ pt_Index p = Z.of_nat i).
  { intros p Hp. rewrite Hperm in Hp. apply list_elem_of_lookup in Hp as [i Hi]. exists i. split; [done|]. by apply Hparts. }
  destruct (add_all_spec total (HashFromByteSlices chunks) order ps0 Hinv0) as (ps' & Hadd & Hinv' & Hin & _).
  - rewrite Hperm. apply NoDup_alt. intros i j x Hi Hj.
    apply list_lookup_fmap_Some in Hi as (p & -> & Hi), Hj as (q & Hq & Hj).
    destruct (Hparts i p Hi) as [E1 _], (Hparts j q Hj) as [E2 _]. lia.
  - intros p Hp. destruct (Hind p Hp) as (i & Hi & Hidx). destruct (Hparts i p Hi) as (_ & aunts & Hpr & Hc & _).
    pose proof (lookup_lt_Some _ _ _ Hi) as Hlt. assert (Hr : 0 <= pt_Index p < total) by (unfold lenZ in *; lia). split_and!; [lia..| |].
    + unfold Proof_Verify, ComputeRootHash, computeHashFromAunts. rewrite Hpr. cbn [pr_Total pr_Index pr_LeafHash pr_Aunts].
      destruct (Z.ltb_spec total 0); [lia|]. destruct (Z.ltb_spec (Z.of_nat i) 0); [lia|].
      rewrite Hc. cbn [default]. rewrite !bytes_eqb_refl. done.
    + unfold ps0. cbn [ps_parts NewPartSetFromHeader Total]. rewrite lookup_replicate_2 by lia. done.
  - assert (Hfull : ps_parts ps' = Some <$> parts).
    { apply list_eq_same_length with (n := length parts).
      - by rewrite length_fmap.
      - pose proof (pi_len _ _ _ Hinv'). unfold lenZ in *. lia.
      - intros i x y _ Hx Hy. apply list_lookup_fmap_Some in Hy as (p & -> & Hp). destruct (Hparts i p Hp) as [Hi _].
        specialize (Hin p ltac:(rewrite Hperm; by eapply list_elem_of_lookup_2)). rewrite Hi, Nat2Z.id, Hx in Hin. congruence. }
    assert (Hcomp : IsComplete ps' = true) by (apply (IsComplete_spec _ _ ps' Hinv'); by exists parts).
    assert (Hpl : (length parts <= length data)%nat).
    { rewrite Hlp, <- Hcat. clear -Hsz. induction Hsz as [|c l Hc _ IH]; [done|]. cbn [concat length]. rewrite length_app. unfold lenZ in Hc. lia. }
    destruct (read_parts (E:=unit) parts space fuel) as (psr & Hpsr & Hread).
    { intros ->. cbn in Hbytes. by subst chunks. }
    { done. }
    { rewrite Hbytes, Hcat. lia. }
    exists ps', psr. split_and!; [done|done|unfold GetReader; by rewrite Hcomp, Hfull|]. by rewrite Hread, Hbytes, Hcat.
Qed.

(** A part under another index. *)
Definition moved (index : Z) (p : Part) : Part := mkPart index (pt_Bytes p) (pt_Proof p).

(** A part set accepts a part at the wrong place.  [AddPart] checks that the
    part's index is below the total and that its proof verifies, but not that
    the proof is for that index.  A peer that sends the second part under the
    first part's index has it accepted; the right first part is then turned
    down as already there, and the set completes with data that is not what
    was cut. *)
Theorem misplaced_part_accepted :
  let data := [1; 2; 3; 4; 5] in
  exists ps p0 p1 ps1 ps2 psr, @NewPartSetFromData toy_crypto unit data 4 = Ok ps /\
    ps_parts ps = [Some p0; Some p1] /\
    let wrong := moved 0 p1 in
    @Part_ValidateBasic wrong = Ok tt /\
    @AddPart toy_crypto wrong (Some (NewPartSetFromHeader (PartSet_Header (Some ps)))) = (Ok true, Some ps1) /\
    @AddPart toy_crypto p0 (Some ps1) = (Ok false, Some ps1) /\
    @AddPart toy_crypto p1 (Some ps1) = (Ok true, Some ps2) /\
    IsComplete ps2 = true /\ GetReader (E:=unit) ps2 = Ok psr /\
    exists wrong_data, ReadAll (E:=unit) 100 (fun _ => 512%nat) 0 psr = Some (Ok wrong_data) /\ wrong_data <> data.
Proof.
  do 6 eexists. split; [vm_compute; reflexivity|]. split; [reflexivity|]. cbv zeta.
  split; [vm_compute; reflexivity|]. split; [vm_compute; reflexivity|]. split; [vm_compute; reflexivity|].
  split; [vm_compute; reflexivity|]. split; [vm_compute; reflexivity|]. split; [vm_compute; reflexivity|].
  eexists. split; [vm_compute; reflexivity|]. discriminate.
Qed.

(** ** Witnesses *)

Lemma part_set_roundtrip_witness :
  exists ps parts, @NewPartSetFromData toy_crypto unit [1; 2; 3; 4; 5] 2 = Ok ps /\ ps_parts ps = Some <$> parts /\
    length parts = 3%nat /\
    exists ps', @add_all toy_crypto (rev parts) (Some (NewPartSetFromHeader (PartSet_Header (Some ps)))) = Some ps' /\
      IsComplete ps' = true.
Proof.
  destruct (@part_set_roundtrip toy_crypto toy_sha256_length [1; 2; 3; 4; 5] 2 (fun _ => 7%nat) 100) as (ps & parts & H1 & _ & H2 & _ & _ & Hall);
    [lia|discriminate|vm_compute; reflexivity|intros; lia|vm_compute; lia|].
  exists ps, parts. split; [exact H1|]. split; [exact H2|].
  assert (Hl : length (ps_parts ps) = 3%nat) by (vm_compute in H1; injection H1 as <-; reflexivity).
  rewrite H2, length_fmap in Hl. split; [exact Hl|].
  destruct (Hall (rev parts) (Permutation_sym (Permutation_rev parts))) as (ps' & psr & Ha & Hc & _). exists ps'. split; [exact Ha|exact Hc].
Defined.

Lemma add_all_calls `{CryptoLib} order : forall ops ps,
  Forall (fun p => 0 <= pt_Index p) order -> add_all order ops = Some ps -> rtc part_call ops (Some ps).
Proof.
  induction order as [|p order IH]; intros ops ps Hall Hadd; [cbn in Hadd; subst; apply rtc_refl|].
  apply Forall_cons in Hall as [Hp Hall]. cbn [add_all] in Hadd. destruct (AddPart p ops) as [[[]| |] ops'] eqn:Ea; try done.
  eapply rtc_l; [by eapply call_part|by apply IH].
Qed.

Definition sample_parts : list Part :=
  imap (fun i p => mkPart (Z.of_nat i) (default [] (sample_items !! i)) p) (snd (@ProofsFromByteSlices toy_crypto sample_items)).

Lemma sample_placed : Forall (@placed toy_crypto sample_items) sample_parts.
Proof.
  assert (Hd : Forall (fun p => (0 <= pt_Index p /\ pr_Index (pt_Proof p) = pt_Index p) /\ pr_Total (pt_Proof p) = lenZ sample_items /\
    Forall (fun x => Forall (fun y => @sha256 toy_crypto x = @sha256 toy_crypto y -> x = y)
      (@aunts_inputs toy_crypto (pt_Index p) (lenZ sample_items) (pt_Bytes p) (rev (pr_Aunts (pt_Proof p)))))
      (@tree_inputs toy_crypto (length sample_items) sample_items)) sample_parts)
    by (apply (bool_decide_unpack _); vm_compute; reflexivity).
  eapply Forall_impl; [exact Hd|]. intros p ([H1 H2] & H3 & H4). split_and!; [done..|].
  intros x y Hx Hy. exact (proj1 (Forall_forall _ _) (proj1 (Forall_forall _ _) H4 x Hx) y Hy).
Qed.

Lemma part_set_sound_witness :
  exists ps psr, @add_all toy_crypto (rev sample_parts)
      (Some (NewPartSetFromHeader (mkPartSetHeader 5 (@HashFromByteSlices toy_crypto sample_items)))) = Some ps /\
    @ps_inv toy_crypto 5 (@HashFromByteSlices toy_crypto sample_items) ps /\ GetReader (E:=unit) ps = Ok psr /\
    ReadAll (E:=unit) 100 (fun _ => 3%nat) 0 psr = Some (Ok (concat sample_items)).
Proof.
  assert (Hadd : exists ps, @add_all toy_crypto (rev sample_parts)
      (Some (NewPartSetFromHeader (mkPartSetHeader 5 (@HashFromByteSlices toy_crypto sample_items)))) = Some ps /\ IsComplete ps = true /\
      ps_parts ps = Some <$> sample_parts)
    by (eexists; split; [|split]; vm_compute; reflexivity).
  destruct Hadd as (ps & Hadd & Hc & Hparts). exists ps.
  destruct (@part_set_sound toy_crypto toy_sha256_length sample_items ps (fun _ => 3%nat) 100) as (Hinv & _ & _ & Hread).
  - vm_compute. split; reflexivity.
  - intros. lia.
  - vm_compute. lia.
  - apply (@add_all_calls toy_crypto (rev sample_parts)); [|exact Hadd]. apply (bool_decide_unpack _). vm_compute. exact I.
  - destruct Hread as [_ Hread].
    + intros i p Hp. rewrite Hparts, list_lookup_fmap in Hp. destruct (sample_parts !! i) as [q|] eqn:Eq; [|discriminate]. injection Hp as <-.
      apply (proj1 (Forall_forall _ _) sample_placed q). eapply list_elem_of_lookup_2, Eq.
    + destruct (Hread Hc) as (psr & H1 & H2). exists psr. split; [exact Hadd|]. split; [exact Hinv|]. split; [exact H1|exact H2].
Defined.
