(* ===== verification/PrivVal.v ===== *)
(** * The file signer: src/privval/file.go

    [FilePV] signs votes and proposals and keeps on disk what it signed last.
    [checkVotesOnlyDifferByTimestamp] and its twin read back the bytes that
    were signed.  The private key is a parameter; of the JSON files only the
    last sign state matters, and its write is atomic or fails. *)

From Stdlib Require Import ZArith Lia.
From stdpp Require Import prelude list.
From S2P Require Import Prelude Proto ProtoDecode Block.

Local Open Scope Z_scope.

Definition stepNone : Z := 0.
Definition stepPropose : Z := 1.
Definition stepPrevote : Z := 2.
Definition stepPrecommit : Z := 3.

Definition voteToStep {E} (vote : Vote) : outcome E Z :=
  if v_Type vote =? PrevoteType then Ok stepPrevote
  else if v_Type vote =? PrecommitType then Ok stepPrecommit
  else Panic.

(** ** The state *)

Record FilePVLastSignState := mkLastSignState {
  lss_Height : Z;
  lss_Round : Z;
  lss_Step : Z;
  lss_Signature : option bytes;
  lss_SignBytes : option bytes
}.

(** The state in memory and the file. *)
Record FilePV := mkFilePV { LastSignState : FilePVLastSignState; stateFile : FilePVLastSignState }.

Inductive pv_error :=
| ErrHeightRegression | ErrRoundRegression | ErrStepRegression | ErrNoSignBytes | ErrConflictingData | ErrSign.

Definition CheckHRS (lss : FilePVLastSignState) (height round step : Z) : outcome pv_error bool :=
  if height <? lss_Height lss then Err ErrHeightRegression
  else if lss_Height lss =? height then
    if round <? lss_Round lss then Err ErrRoundRegression
    else if lss_Round lss =? round then
      if step <? lss_Step lss then Err ErrStepRegression
      else if lss_Step lss =? step then
        match lss_SignBytes lss with
        | Some _ => match lss_Signature lss with None => Panic | Some _ => Ok true end
        | None => Err ErrNoSignBytes
        end
      else Ok false
    else Ok false
  else Ok false.

(** JSON leaves out an empty byte string and reads a missing one as nil. *)
Definition omitempty (b : option bytes) : option bytes :=
  match b with Some [] => None | _ => b end.

Definition persisted (lss : FilePVLastSignState) : FilePVLastSignState :=
  mkLastSignState (lss_Height lss) (lss_Round lss) (lss_Step lss) (omitempty (lss_Signature lss))
    (omitempty (lss_SignBytes lss)).

(** [Save]; [written] is whether the atomic write succeeds. *)
Definition Save (written : bool) : GoM FilePV pv_error unit := fun s =>
  if written then (Ok tt, mkFilePV (LastSignState s) (persisted (LastSignState s))) else (Panic, s).

Definition NewFilePV (file : FilePVLastSignState) : FilePV :=
  mkFilePV (mkLastSignState 0 0 stepNone None None) file.

(** [loadFilePV] of the state file. *)
Definition LoadFilePV (file : FilePVLastSignState) : FilePV := mkFilePV file file.

Definition Reset (written : bool) : GoM FilePV pv_error unit := fun s =>
  Save written (mkFilePV (mkLastSignState 0 0 0 None None) (stateFile s)).

Definition saveSigned (written : bool) (height round step : Z) (signBytes sig : bytes) : GoM FilePV pv_error unit := fun s =>
  Save written (mkFilePV (mkLastSignState height round step (Some sig) (Some signBytes)) (stateFile s)).

(** ** Messages that differ in time only *)

#[global] Instance CanonicalPartSetHeader_eq_dec : EqDecision CanonicalPartSetHeader.
Proof. solve_decision. Defined.

#[global] Instance CanonicalBlockID_eq_dec : EqDecision CanonicalBlockID.
Proof. solve_decision. Defined.

#[global] Instance CanonicalVote_eq_dec : EqDecision CanonicalVote.
Proof. solve_decision. Defined.

#[global] Instance CanonicalProposal_eq_dec : EqDecision CanonicalProposal.
Proof. solve_decision. Defined.

Definition cv_with_time (t : Time) (m : CanonicalVote) : CanonicalVote :=
  mkCanonicalVote (cv_Type m) (cv_Height m) (cv_Round m) (cv_BlockID m) t (cv_ChainID m).

Definition cp_with_time (t : Time) (m : CanonicalProposal) : CanonicalProposal :=
  mkCanonicalProposal (cp_Type m) (cp_Height m) (cp_Round m) (cp_POLRound m) (cp_BlockID m) t (cp_ChainID m).

Section signer.
  Context {codec : TimeCodec} {decoder : TimeDecoder}.
  (** [PrivKey.Sign], and the clock. *)
  Context (Sign : bytes -> option bytes) (now : Time).

Definition must_unmarshal {E M} (r : outcome proto_error M) : outcome E M :=
  match r with Ok m => Ok m | _ => Panic end.

Definition checkVotesOnlyDifferByTimestamp {E} (lastSignBytes newSignBytes : bytes) : outcome E (Time * bool) :=
  lastVote ← must_unmarshal (UnmarshalDelimited unmarshal_vote lastSignBytes);
  newVote ← must_unmarshal (UnmarshalDelimited unmarshal_vote newSignBytes);
  Ok (cv_Timestamp lastVote, bool_decide (cv_with_time now newVote = cv_with_time now lastVote)).

Definition checkProposalsOnlyDifferByTimestamp {E} (lastSignBytes newSignBytes : bytes) : outcome E (Time * bool) :=
  lastProposal ← must_unmarshal (UnmarshalDelimited unmarshal_proposal lastSignBytes);
  newProposal ← must_unmarshal (UnmarshalDelimited unmarshal_proposal newSignBytes);
  Ok (cp_Timestamp lastProposal, bool_decide (cp_with_time now newProposal = cp_with_time now lastProposal)).

(** ** Signing

    [signVote] and [signProposal] are the same statements on two kinds of
    message: the bytes to sign, the comparison, and the assignments to the
    message are arguments. *)
Definition sign_message {M} (written : bool) (height round step : Z) (signBytes : outcome pv_error bytes)
    (onlyDifferByTimestamp : bytes -> bytes -> outcome pv_error (Time * bool))
    (set_signature : M -> option bytes -> M) (set_timestamp : M -> Time -> M) (m : M) : GoM FilePV pv_error M :=
  s ← gget;
  let lss := LastSignState s in
  sameHRS ← glift (CheckHRS lss height round step);
  signBytes ← glift signBytes;
  if sameHRS : bool then
    let last := default [] (lss_SignBytes lss) in
    if bytes_eqb signBytes last then mret (set_signature m (lss_Signature lss))
    else
      '(timestamp, ok) ← glift (onlyDifferByTimestamp last signBytes);
      if ok : bool then mret (set_signature (set_timestamp m timestamp) (lss_Signature lss))
      else gfail ErrConflictingData
  else
    match Sign signBytes with
    | None => gfail ErrSign
    | Some sig => _ ← saveSigned written height round step signBytes sig; mret (set_signature m (Some sig))
    end.

Definition vote_set_signature (v : Vote) (sig : option bytes) : Vote :=
  mkVote (v_Type v) (v_Height v) (v_Round v) (v_BlockID v) (v_Timestamp v) (v_ValidatorAddress v) (v_ValidatorIndex v) sig.

Definition vote_set_timestamp (v : Vote) (t : Time) : Vote :=
  mkVote (v_Type v) (v_Height v) (v_Round v) (v_BlockID v) t (v_ValidatorAddress v) (v_ValidatorIndex v) (v_Signature v).

Definition proposal_set_signature (p : Proposal) (sig : option bytes) : Proposal :=
  mkProposal (p_Type p) (p_Height p) (p_Round p) (p_POLRound p) (p_BlockID p) (p_Timestamp p) sig.

Definition proposal_set_timestamp (p : Proposal) (t : Time) : Proposal :=
  mkProposal (p_Type p) (p_Height p) (p_Round p) (p_POLRound p) (p_BlockID p) t (p_Signature p).

Definition signVote (written : bool) (chainID : bytes) (vote : Vote) : GoM FilePV pv_error Vote :=
  step ← glift (voteToStep vote);
  sign_message written (v_Height vote) (v_Round vote) step (VoteSignBytes chainID vote)
    checkVotesOnlyDifferByTimestamp vote_set_signature vote_set_timestamp vote.

Definition signProposal (written : bool) (chainID : bytes) (proposal : Proposal) : GoM FilePV pv_error Proposal :=
  sign_message written (p_Height proposal) (p_Round proposal) stepPropose (ProposalSignBytes chainID proposal)
    checkProposalsOnlyDifferByTimestamp proposal_set_signature proposal_set_timestamp proposal.

End signer.
