(* ===== verification/PrivValSafety.v ===== *)
(** * The file signer never double-signs

    Theorems on [PrivVal]: whatever it is asked to sign, and however often it
    crashes and restarts, it releases at most one message per height, round and
    step. *)

From Stdlib Require Import ZArith Lia Sorting.Sorted.
From stdpp Require Import prelude list.
From S2P Require Import Prelude Proto ProtoDecode Block PrivVal.

Local Open Scope Z_scope.

(** ** Messages *)

Inductive message :=
| VoteMsg (chainID : bytes) (v : Vote)
| ProposalMsg (chainID : bytes) (p : Proposal).

Definition step_of (m : message) : Z :=
  match m with
  | VoteMsg _ v => if v_Type v =? PrevoteType then stepPrevote else stepPrecommit
  | ProposalMsg _ _ => stepPropose
  end.

Definition hrs := (Z * Z * Z)%type.

Definition hrs_of (m : message) : hrs :=
  match m with
  | VoteMsg _ v => (v_Height v, v_Round v, step_of m)
  | ProposalMsg _ p => (p_Height p, p_Round p, step_of m)
  end.

Definition last_hrs (lss : FilePVLastSignState) : hrs := (lss_Height lss, lss_Round lss, lss_Step lss).

(** Lexicographic order. *)
Definition hrs_lt (a b : hrs) : Prop :=
  let '(h1, r1, s1) := a in
  let '(h2, r2, s2) := b in
  h1 < h2 \/ h1 = h2 /\ (r1 < r2 \/ r1 = r2 /\ s1 < s2).

Lemma hrs_lt_trans a b c : hrs_lt a b -> hrs_lt b c -> hrs_lt a c.
Proof. destruct a as [[] ?], b as [[] ?], c as [[] ?]. cbn. lia. Qed.

Lemma hrs_lt_irrefl a : ~ hrs_lt a a.
Proof. destruct a as [[] ?]. cbn. lia. Qed.

Lemma CheckHRS_spec lss h r st :
  match CheckHRS lss h r st with
  | Ok true => last_hrs lss = (h, r, st) /\ is_Some (lss_SignBytes lss) /\ is_Some (lss_Signature lss)
  | Ok false => hrs_lt (last_hrs lss) (h, r, st)
  | Err ErrNoSignBytes => last_hrs lss = (h, r, st) /\ lss_SignBytes lss = None
  | Err _ => hrs_lt (h, r, st) (last_hrs lss)
  | Panic => last_hrs lss = (h, r, st) /\ lss_Signature lss = None
  end.
Proof.
  unfold CheckHRS, last_hrs. destruct lss as [h0 r0 s0 sig sb]. cbn.
  repeat case_match; rewrite ?Z.ltb_lt, ?Z.ltb_ge, ?Z.eqb_eq, ?Z.eqb_neq in *; subst; cbn; try lia; naive_solver.
Qed.

Section safety.
  Context {codec : TimeCodec} {decoder : TimeDecoder} {laws : TimeRoundtrip}.
  Context (Sign : bytes -> option bytes).

Definition bytes_of (m : message) : outcome pv_error bytes :=
  match m with
  | VoteMsg c v => VoteSignBytes c v
  | ProposalMsg c p => ProposalSignBytes c p
  end.

Definition signature_of (m : message) : option bytes :=
  match m with VoteMsg _ v => v_Signature v | ProposalMsg _ p => p_Signature p end.

(** A request: fields within their types, and bytes that fit in memory. *)
Definition well_typed (m : message) : Prop :=
  match m with
  | VoteMsg c v => IsVoteTypeValid (v_Type v) = true /\ int64 (v_Height v) /\ int64 (v_Round v) /\
      0 <= Total (bid_PartSetHeader (v_BlockID v)) < 2 ^ 32
  | ProposalMsg c p => int64 (p_Height p) /\ int64 (p_Round p) /\ int64 (p_POLRound p) /\
      0 <= Total (bid_PartSetHeader (p_BlockID p)) < 2 ^ 32
  end /\ forall b, bytes_of m = Ok b -> lenZ b < int64_max.

(** One request served. *)
Definition serve (written : bool) (now : Time) (m : message) : GoM FilePV pv_error message :=
  match m with
  | VoteMsg c v => v' ← signVote Sign now written c v; mret (VoteMsg c v')
  | ProposalMsg c p => p' ← signProposal Sign now written c p; mret (ProposalMsg c p')
  end.

(** ** Reading the last bytes *)

Lemma delimited_length msg b d : MarshalDelimited (Some b) = Some d -> msg = Some b -> lenZ b <= lenZ d.
Proof.
  intros Hd _. unfold MarshalDelimited in Hd. cbn [mbind option_bind] in Hd. apply (inj Some) in Hd. subst d.
  rewrite lenZ_app. pose proof (lenZ_nonneg (encodeVarint (lenZ b))). lia.
Qed.

Lemma blockid_of {E} b o c d (pre post : bytes) tag :
  CanonicalizeBlockID (E:=E) b = Ok o -> 0 <= Total (bid_PartSetHeader b) < 2 ^ 32 -> o = Some c ->
  d = pre ++ field_msg tag (CanonicalBlockID_Marshal c) ++ post -> lenZ d < int64_max -> blockid_ok c.
Proof.
  intros Hb%CanonicalizeBlockID_Ok Ht -> -> Hl. destruct Hb as [_ ->]. split; [done|].
  unfold field_msg in Hl. rewrite lenZ_app, lenZ_app, lenZ_cons, lenZ_app in Hl. cbn [cbid_PartSetHeader cbid_Hash] in *.
  pose proof (lenZ_nonneg pre). pose proof (lenZ_nonneg post).
  match goal with |- lenZ ?x <= _ => pose proof (lenZ_nonneg (encodeVarint (lenZ x))) end. lia.
Qed.

Lemma vote_readable c v sb :
  well_typed (VoteMsg c v) -> VoteSignBytes (E:=pv_error) c v = Ok sb ->
  exists o, CanonicalizeBlockID (E:=pv_error) (v_BlockID v) = Ok o /\
    UnmarshalDelimited unmarshal_vote sb =
      Ok (mkCanonicalVote (v_Type v) (v_Height v) (v_Round v) o (v_Timestamp v) c).
Proof.
  intros [(Hty & Hh & Hr & Ht) Hl] Hsb. specialize (Hl sb Hsb). apply VoteSignBytes_Ok in Hsb as (o & Ho & Hm).
  exists o. split; [done|]. apply delimited_vote; [|done|done].
  split_and!; try done.
  - cbn. unfold IsVoteTypeValid, PrevoteType, PrecommitType in Hty. unfold_ints.
    apply orb_true_iff in Hty as [?%Z.eqb_eq|?%Z.eqb_eq]; lia.
  - cbn. intros b ->. unfold CanonicalVote_Marshal in Hm.
    cbn [cv_Type cv_Height cv_Round cv_BlockID cv_Timestamp cv_ChainID] in Hm.
    destruct (StdTimeMarshal (v_Timestamp v)) as [tb|]; [|done]. cbn [mbind option_bind] in Hm.
    pose proof (delimited_length _ _ _ Hm eq_refl) as Hle.
    eapply (blockid_of _ _ b _ (field_varint 8 (v_Type v) ++ field_fixed64 17 (v_Height v) ++ field_fixed64 25 (v_Round v))
      (field_msg 42 tb ++ field_bytes 50 c) 34 Ho Ht eq_refl); [by rewrite <- !app_assoc|].
    eapply Z.le_lt_trans; [exact Hle|done].
Qed.

Lemma proposal_readable c p sb :
  well_typed (ProposalMsg c p) -> ProposalSignBytes (E:=pv_error) c p = Ok sb ->
  exists o, CanonicalizeBlockID (E:=pv_error) (p_BlockID p) = Ok o /\
    UnmarshalDelimited unmarshal_proposal sb =
      Ok (mkCanonicalProposal ProposalType (p_Height p) (p_Round p) (p_POLRound p) o (p_Timestamp p) c).
Proof.
  intros [(Hh & Hr & Hp & Ht) Hl] Hsb. specialize (Hl sb Hsb). apply ProposalSignBytes_Ok in Hsb as (o & Ho & Hm).
  exists o. split; [done|]. apply delimited_proposal; [|done|done].
  split_and!; try done.
  cbn. intros b ->. unfold CanonicalProposal_Marshal in Hm.
  cbn [cp_Type cp_Height cp_Round cp_POLRound cp_BlockID cp_Timestamp cp_ChainID] in Hm.
  destruct (StdTimeMarshal (p_Timestamp p)) as [tb|]; [|done]. cbn [mbind option_bind] in Hm.
  pose proof (delimited_length _ _ _ Hm eq_refl) as Hle.
  eapply (blockid_of _ _ b _ (field_varint 8 ProposalType ++ field_fixed64 17 (p_Height p) ++ field_fixed64 25 (p_Round p) ++
    field_varint 32 (p_POLRound p)) (field_msg 50 tb ++ field_bytes 58 c) 42 Ho Ht eq_refl); [by rewrite <- !app_assoc|].
  eapply Z.le_lt_trans; [exact Hle|done].
Qed.

(** ** One request *)

(** The bytes on file are those of a message of that height, round and step,
    with its signature: only an empty one gets lost. *)
Definition last_ok (lss : FilePVLastSignState) : Prop :=
  forall sb, lss_SignBytes lss = Some sb ->
    sb <> [] /\ Sign sb = Some (default [] (lss_Signature lss)) /\
    exists m0, well_typed m0 /\ hrs_of m0 = last_hrs lss /\ bytes_of m0 = Ok sb.

(** A message fit to be sent. *)
Definition released_ok (m : message) : Prop :=
  well_typed m /\ exists sb sig, bytes_of m = Ok sb /\ signature_of m = Some sig /\ Sign sb = Some sig.

Definition served (m : message) (s : FilePV) (r : outcome pv_error message * FilePV) : Prop :=
  match r with
  | (Ok m', s') =>
      released_ok m' /\ hrs_of m' = hrs_of m /\ hrs_of m' = last_hrs (LastSignState s') /\
      (exists sb, lss_SignBytes (LastSignState s') = Some sb /\ bytes_of m' = Ok sb) /\
      last_ok (LastSignState s') /\
      (s' = s \/ hrs_lt (last_hrs (LastSignState s)) (last_hrs (LastSignState s')) /\
                 stateFile s' = persisted (LastSignState s'))
  | (Err _, s') => s' = s
  | (Panic, s') => stateFile s' = stateFile s
  end.

Section kind.
  Context {M : Type} (wrap : M -> message) (set_sig : M -> option bytes -> M) (set_time : M -> Time -> M).
  Context (check : bytes -> bytes -> outcome pv_error (Time * bool)).
  Context (m : M).
  Hypothesis Hsig : forall x sg, bytes_of (wrap (set_sig x sg)) = bytes_of (wrap x) /\
    hrs_of (wrap (set_sig x sg)) = hrs_of (wrap x) /\ signature_of (wrap (set_sig x sg)) = sg /\
    (well_typed (wrap x) -> well_typed (wrap (set_sig x sg))).
  Hypothesis Htime : forall t, hrs_of (wrap (set_time m t)) = hrs_of (wrap m).
  Hypothesis Hcheck : forall m0 sb0 sb, well_typed m0 -> hrs_of m0 = hrs_of (wrap m) ->
    bytes_of m0 = Ok sb0 -> bytes_of (wrap m) = Ok sb ->
    exists t d, check sb0 sb = Ok (t, d) /\
      (d = true -> bytes_of (wrap (set_time m t)) = Ok sb0 /\ well_typed (wrap (set_time m t))).
  Hypothesis Hm : well_typed (wrap m).
  Hypothesis Hne : forall sb, bytes_of (wrap m) = Ok sb -> sb <> [].

Lemma sign_message_served written h r st s :
  hrs_of (wrap m) = (h, r, st) -> last_ok (LastSignState s) ->
  served (wrap m) s
    ((x ← sign_message Sign written h r st (bytes_of (wrap m)) check set_sig set_time m; mret (wrap x)) s).
Proof.
  intros Hh Hlast. unfold sign_message, mbind, gom_bind, gget, glift.
  pose proof (CheckHRS_spec (LastSignState s) h r st) as Hc.
  destruct (CheckHRS (LastSignState s) h r st) as [same|e|]; [|done|done].
  destruct (bytes_of (wrap m)) as [sb|e|] eqn:Eb; [|done|done]. destruct same.
  - destruct Hc as (Hl & [sb0 Hsb0] & [sig0 Hsig0]). destruct (Hlast sb0 Hsb0) as (Hne0 & Hs0 & m0 & Hw0 & Hh0 & Hb0).
    assert (Hsend : forall x, bytes_of (wrap x) = Ok sb0 -> well_typed (wrap x) -> hrs_of (wrap x) = (h, r, st) ->
      served (wrap m) s (Ok (wrap (set_sig x (lss_Signature (LastSignState s)))), s)).
    { intros x Hbx Hwx Hhx. destruct (Hsig x (lss_Signature (LastSignState s))) as (S1 & S2 & S3 & S4).
      cbn. rewrite S2, Hhx, Hh, Hl. split_and!; try done; [|by exists sb0; rewrite S1|by left].
      split; [auto|]. exists sb0, sig0. rewrite S1, S3. rewrite Hsig0 in Hs0 |- *. auto. }
    rewrite Hsb0. change (default [] (Some sb0)) with sb0. destruct (bytes_eqb sb sb0) eqn:Eq.
    + apply bytes_eqb_true in Eq. subst sb0. by apply Hsend.
    + destruct (Hcheck m0 sb0 sb) as (t & d & Hd & Hok); [done|congruence|done|done|].
      cbn. rewrite Hd. destruct d; [|done]. destruct (Hok eq_refl) as [Hbt Hwt]. apply Hsend; [done|done|]. by rewrite Htime.
  - destruct (Sign sb) as [sig|] eqn:Es; [|done]. unfold saveSigned, Save. destruct written; [|done].
    destruct (Hsig m (Some sig)) as (S1 & S2 & S3 & S4). cbn. rewrite S2, Hh. split_and!; try done.
    + split; [auto|]. exists sb, sig. rewrite S1, S3. auto.
    + exists sb. by rewrite S1.
    + intros sb' [= <-]. split_and!; [by apply Hne|done|]. exists (wrap m). auto.
    + by right.
Qed.

End kind.

Lemma delimited_nonempty msg d : MarshalDelimited msg = Some d -> d <> [].
Proof.
  unfold MarshalDelimited. destruct msg as [b|]; [|done]. cbn [mbind option_bind]. intros Hd%(inj Some). subst d.
  unfold encodeVarint. cbn [varint_loop]. by case_match.
Qed.

Lemma votes_check now c v m0 sb0 sb :
  well_typed (VoteMsg c v) -> well_typed m0 -> hrs_of m0 = hrs_of (VoteMsg c v) -> bytes_of m0 = Ok sb0 ->
  bytes_of (VoteMsg c v) = Ok sb ->
  exists t d, checkVotesOnlyDifferByTimestamp (E:=pv_error) now sb0 sb = Ok (t, d) /\
    (d = true -> bytes_of (VoteMsg c (vote_set_timestamp v t)) = Ok sb0 /\ well_typed (VoteMsg c (vote_set_timestamp v t))).
Proof.
  intros Hw Hw0 Hh Hb0 Hb. destruct m0 as [c0 v0|c0 p0].
  2: { cbn in Hh. injection Hh as _ _ Hst. by destruct (v_Type v =? PrevoteType). }
  destruct (vote_readable c0 v0 sb0 Hw0 Hb0) as (o0 & Ho0 & Hr0). destruct (vote_readable c v sb Hw Hb) as (o & Ho & Hr).
  unfold checkVotesOnlyDifferByTimestamp. rewrite Hr0, Hr. cbn [must_unmarshal mbind outcome_bind].
  eexists (v_Timestamp v0), _. split; [done|]. rewrite bool_decide_eq_true. unfold cv_with_time. cbn [cv_Type cv_Height cv_Round cv_BlockID cv_ChainID].
  intros [= E1 E2 E3 E4 E5]. subst c0 o0. assert (Hbid := CanonicalizeBlockID_inj _ _ _ Ho0 Ho).
  assert (Hbytes : bytes_of (VoteMsg c (vote_set_timestamp v (v_Timestamp v0))) = Ok sb0).
  { cbn in Hb0 |- *. rewrite <- Hb0. by apply VoteSignBytes_fields. }
  split; [exact Hbytes|]. destruct Hw as [Hrng _], Hw0 as [_ Hl0]. split; [exact Hrng|].
  intros b Hb'. rewrite Hbytes in Hb'. injection Hb' as <-. by apply Hl0.
Qed.

Lemma ProposalSignBytes_fields {E} chainID p1 p2 :
  p_Height p1 = p_Height p2 -> p_Round p1 = p_Round p2 -> p_POLRound p1 = p_POLRound p2 -> p_BlockID p1 = p_BlockID p2 ->
  p_Timestamp p1 = p_Timestamp p2 -> ProposalSignBytes (E:=E) chainID p1 = ProposalSignBytes chainID p2.
Proof. intros H1 H2 H3 H4 H5. unfold ProposalSignBytes, CanonicalizeProposal. by rewrite H1, H2, H3, H4, H5. Qed.

Lemma proposals_check now c p m0 sb0 sb :
  well_typed (ProposalMsg c p) -> well_typed m0 -> hrs_of m0 = hrs_of (ProposalMsg c p) -> bytes_of m0 = Ok sb0 ->
  bytes_of (ProposalMsg c p) = Ok sb ->
  exists t d, checkProposalsOnlyDifferByTimestamp (E:=pv_error) now sb0 sb = Ok (t, d) /\
    (d = true -> bytes_of (ProposalMsg c (proposal_set_timestamp p t)) = Ok sb0 /\
       well_typed (ProposalMsg c (proposal_set_timestamp p t))).
Proof.
  intros Hw Hw0 Hh Hb0 Hb. destruct m0 as [c0 v0|c0 p0].
  { cbn in Hh. injection Hh as _ _ Hst. by destruct (v_Type v0 =? PrevoteType). }
  destruct (proposal_readable c0 p0 sb0 Hw0 Hb0) as (o0 & Ho0 & Hr0). destruct (proposal_readable c p sb Hw Hb) as (o & Ho & Hr).
  unfold checkProposalsOnlyDifferByTimestamp. rewrite Hr0, Hr. cbn [must_unmarshal mbind outcome_bind].
  eexists (p_Timestamp p0), _. split; [done|]. rewrite bool_decide_eq_true. unfold cp_with_time.
  cbn [cp_Type cp_Height cp_Round cp_POLRound cp_BlockID cp_ChainID].
  intros [= E2 E3 E4 E5 E6]. subst c0 o0. assert (Hbid := CanonicalizeBlockID_inj _ _ _ Ho0 Ho).
  assert (Hbytes : bytes_of (ProposalMsg c (proposal_set_timestamp p (p_Timestamp p0))) = Ok sb0).
  { cbn in Hb0 |- *. rewrite <- Hb0. by apply ProposalSignBytes_fields. }
  split; [exact Hbytes|]. destruct Hw as [Hrng _], Hw0 as [_ Hl0]. split; [exact Hrng|].
  intros b Hb'. rewrite Hbytes in Hb'. injection Hb' as <-. by apply Hl0.
Qed.

Lemma serve_served written now m s :
  well_typed m -> last_ok (LastSignState s) -> served m s (serve written now m s).
Proof.
  intros Hw Hl. destruct m as [c v|c p]; cbn [serve].
  - assert (Hst : voteToStep (E:=pv_error) v = Ok (step_of (VoteMsg c v))).
    { destruct Hw as [[Hty _] _]. unfold voteToStep, step_of, IsVoteTypeValid in *.
      destruct (v_Type v =? PrevoteType); [done|]. by destruct (v_Type v =? PrecommitType). }
    unfold signVote. rewrite Hst.
    apply (sign_message_served (VoteMsg c) vote_set_signature vote_set_timestamp
      (checkVotesOnlyDifferByTimestamp now) v); try done.
    + intros m0 sb0 sb Hw0 Hh Hb0 Hb. by eapply votes_check.
    + intros sb Hb. cbn in Hb. apply VoteSignBytes_Ok in Hb as (o & _ & Hm). by eapply delimited_nonempty.
  - unfold signProposal.
    apply (sign_message_served (ProposalMsg c) proposal_set_signature proposal_set_timestamp
      (checkProposalsOnlyDifferByTimestamp now) p); try done.
    + intros m0 sb0 sb Hw0 Hh Hb0 Hb. by eapply proposals_check.
    + intros sb Hb. cbn in Hb. apply ProposalSignBytes_Ok in Hb as (o & _ & Hm). by eapply delimited_nonempty.
Qed.

(** ** Traces *)

(** The signer's life: the messages it has released, the latest first.  A
    crash, at any moment, loses the memory; a panic kills the process; a
    process killed after it saved but before it answered released nothing. *)
Inductive life : FilePV -> list message -> Prop :=
| life_new : life (LoadFilePV (LastSignState (NewFilePV (mkLastSignState 0 0 stepNone None None)))) []
| life_answer s R written now m m' s' :
    life s R -> well_typed m -> serve written now m s = (Ok m', s') -> life s' (m' :: R)
| life_refuse s R written now m e s' :
    life s R -> well_typed m -> serve written now m s = (Err e, s') -> life s' R
| life_crash s R : life s R -> life (LoadFilePV (stateFile s)) R
| life_killed s R written now m r s' :
    life s R -> well_typed m -> serve written now m s = (r, s') -> life (LoadFilePV (stateFile s')) R.

Record alive (s : FilePV) (R : list message) : Prop := {
  al_file : stateFile s = persisted (LastSignState s);
  al_last : last_ok (LastSignState s);
  al_past : forall m, m ∈ R -> released_ok m /\
    (hrs_lt (hrs_of m) (last_hrs (LastSignState s)) \/
     hrs_of m = last_hrs (LastSignState s) /\ exists sb, lss_SignBytes (LastSignState s) = Some sb /\ bytes_of m = Ok sb)
}.

Lemma persisted_ok lss : last_ok lss -> last_ok (persisted lss) /\
  (forall sb, lss_SignBytes lss = Some sb -> lss_SignBytes (persisted lss) = Some sb).
Proof.
  intros Hl. split.
  - intros sb Hsb. cbn in Hsb. unfold omitempty in Hsb.
    assert (Hsb' : lss_SignBytes lss = Some sb) by (destruct (lss_SignBytes lss) as [[|]|]; done).
    destruct (Hl sb Hsb') as (Hne & Hs & Hm). split_and!; [done| |done]. cbn. rewrite Hs.
    by destruct (lss_Signature lss) as [[|]|].
  - intros sb Hsb. cbn. rewrite Hsb. destruct sb; [|done]. by destruct (Hl [] Hsb) as [[] _].
Qed.

Lemma alive_reload s R : alive s R -> alive (LoadFilePV (stateFile s)) R.
Proof.
  intros [Hf Hl Hp]. destruct (persisted_ok _ Hl) as [Hl' Hsb]. constructor; cbn; rewrite Hf.
  - unfold persisted. cbn. f_equal; [by destruct (lss_Signature (LastSignState s)) as [[|]|]|
      by destruct (lss_SignBytes (LastSignState s)) as [[|]|]].
  - done.
  - intros m Hm. destruct (Hp m Hm) as [Hr [Hlt|[Heq (sb & Hs & Hb)]]]; (split; [done|]); [by left|].
    right. split; [done|]. exists sb. auto.
Qed.

Lemma life_alive s R : life s R -> alive s R.
Proof.
  assert (Hstep : forall s R written now m, alive s R -> well_typed m ->
    match serve written now m s with
    | (Ok m', s') => alive s' (m' :: R) /\ alive s' R
    | (Err _, s') => s' = s
    | (Panic, s') => stateFile s' = stateFile s
    end).
  { clear s R. intros s R written now m Hal Hw. pose proof Hal as [Hf Hl Hp].
    pose proof (serve_served written now m s Hw Hl) as Hs. destruct (serve written now m s) as [[m'|e|] s']; [|done|done].
    destruct Hs as (Hrel & _ & Hh & Hb & Hl' & Hor).
    assert (Hold : alive s' R).
    { destruct Hor as [->|[Hlt Hf']]; [done|]. constructor; [done|done|]. intros x Hx.
      destruct (Hp x Hx) as [Hr Hx']. split; [done|]. left. destruct Hx' as [Hx'|[-> _]]; [by eapply hrs_lt_trans|done]. }
    split; [|done]. destruct Hold as [O1 O2 O3]. constructor; [done|done|]. intros x [->|Hx]%elem_of_cons; [|by apply O3].
    split; [done|]. right. done. }
  induction 1 as [|s R w now m m' s' _ IH Hw Hs|s R w now m e s' _ IH Hw Hs|s R _ IH|s R w now m r s' _ IH Hw Hs].
  - constructor; [done|done|]. by intros m ?%elem_of_nil.
  - specialize (Hstep s R w now m IH Hw). rewrite Hs in Hstep. apply Hstep.
  - specialize (Hstep s R w now m IH Hw). rewrite Hs in Hstep. by subst s'.
  - by apply alive_reload.
  - specialize (Hstep s R w now m IH Hw). rewrite Hs in Hstep. destruct r as [m'|e|].
    + apply alive_reload, Hstep.
    + subst s'. by apply alive_reload.
    + rewrite Hstep. by apply alive_reload.
Qed.

(** Released messages of one height, round and step have the same bytes. *)
Lemma life_unique s R : life s R -> forall m1 m2, m1 ∈ R -> m2 ∈ R -> hrs_of m1 = hrs_of m2 -> bytes_of m1 = bytes_of m2.
Proof.
  induction 1 as [|s R w now m m' s' Hlf IH Hw Hs|s R w now m e s' _ IH Hw Hs|s R _ IH|s R w now m r s' _ IH Hw Hs];
    try done; [by intros m1 m2 ?%elem_of_nil|].
  pose proof (life_alive _ _ (life_answer _ _ _ _ _ _ _ Hlf Hw Hs)) as [_ _ Hp'].
  assert (Hcur : forall x, x ∈ R -> hrs_of x = hrs_of m' -> bytes_of x = bytes_of m').
  { intros x Hx Heq. pose proof (serve_served w now m s Hw (al_last _ _ (life_alive _ _ Hlf))) as Hsv. rewrite Hs in Hsv.
    destruct Hsv as (_ & _ & Hh & (sb & Hsb & Hb) & _).
    destruct (Hp' x ltac:(by apply elem_of_cons; right)) as [_ [Hlt|[_ (sb' & Hsb' & Hb')]]]; [|congruence].
    rewrite Heq, Hh in Hlt. by apply hrs_lt_irrefl in Hlt. }
  intros m1 m2 [->|H1]%elem_of_cons [->|H2]%elem_of_cons Heq; [done|symmetry; auto|auto|by apply IH].
Qed.

(** Releases go forward. *)
Lemma life_forward s R :
  life s R -> StronglySorted (fun later earlier => hrs_of later = hrs_of earlier \/ hrs_lt (hrs_of earlier) (hrs_of later)) R.
Proof.
  induction 1 as [|s R w now m m' s' Hlf IH Hw Hs|s R w now m e s' _ IH Hw Hs|s R _ IH|s R w now m r s' _ IH Hw Hs];
    try done; [constructor|]. constructor; [done|]. apply Forall_forall. intros x Hx.
  pose proof (life_alive _ _ (life_answer _ _ _ _ _ _ _ Hlf Hw Hs)) as [_ _ Hp'].
  pose proof (serve_served w now m s Hw (al_last _ _ (life_alive _ _ Hlf))) as Hsv. rewrite Hs in Hsv.
  destruct Hsv as (_ & _ & Hh & _). rewrite Hh.
  destruct (Hp' x ltac:(by apply elem_of_cons; right)) as [_ [Hlt|[Heq _]]]; auto.
Qed.

Lemma vote_ranges_of c v : well_typed (VoteMsg c v) -> vote_ranges v.
Proof.
  intros [(Hty & Hh & Hr & Ht) _]. split_and!; try done; unfold_ints.
  - unfold IsVoteTypeValid, PrevoteType, PrecommitType in Hty. apply orb_true_iff in Hty as [?%Z.eqb_eq|?%Z.eqb_eq]; lia.
  - lia.
Qed.

Lemma proposal_ranges_of c p : well_typed (ProposalMsg c p) -> proposal_ranges p.
Proof. intros [(Hh & Hr & Hp & Ht) _]. split_and!; try done. unfold_ints. lia. Qed.

Lemma vote_bytes_inj c1 v1 c2 v2 sb :
  well_typed (VoteMsg c1 v1) -> well_typed (VoteMsg c2 v2) -> bytes_of (VoteMsg c1 v1) = Ok sb -> bytes_of (VoteMsg c2 v2) = Ok sb ->
  c1 = c2 /\ v_BlockID v1 = v_BlockID v2 /\ v_Timestamp v1 = v_Timestamp v2.
Proof.
  intros W1%vote_ranges_of W2%vote_ranges_of H1 H2.
  destruct (VoteSignBytes_inj c1 c2 v1 v2 sb W1 W2 H1 H2) as (-> & _ & _ & _ & -> & ->). done.
Qed.

Lemma proposal_bytes_inj c1 p1 c2 p2 sb :
  well_typed (ProposalMsg c1 p1) -> well_typed (ProposalMsg c2 p2) -> bytes_of (ProposalMsg c1 p1) = Ok sb ->
  bytes_of (ProposalMsg c2 p2) = Ok sb ->
  c1 = c2 /\ p_BlockID p1 = p_BlockID p2 /\ p_POLRound p1 = p_POLRound p2 /\ p_Timestamp p1 = p_Timestamp p2.
Proof.
  intros W1%proposal_ranges_of W2%proposal_ranges_of (o1 & Ho1 & M1)%ProposalSignBytes_Ok (o2 & Ho2 & M2)%ProposalSignBytes_Ok.
  destruct (MarshalDelimited_inj _ _ _ M1 M2) as (c & C1 & C2).
  pose proof (CanonicalProposal_inj _ _ _ (cp_ok_of _ _ _ W1 Ho1) (cp_ok_of _ _ _ W2 Ho2) C1 C2) as Heq.
  injection Heq as _ _ -> -> -> ->. split_and!; try done. by eapply CanonicalizeBlockID_inj.
Qed.

End safety.

(** C33: the signer never signs two different things for one height, round and
    step.  Let it serve any requests in any order, refuse what it refuses, and
    crash, panic or be killed at any point, restarting from its file, with
    failing writes as well.  Then every message it released carries a signature
    of its bytes; two released votes of the same type for one height and round
    have the same chain, block, time and signature, two released proposals for
    one height and round as well; and releases never go back in height, round
    and step. *)
Theorem no_double_sign {codec : TimeCodec} {decoder : TimeDecoder} {laws : TimeRoundtrip} Sign s R :
  life Sign s R ->
  (forall m, m ∈ R -> exists sb sig, bytes_of m = Ok sb /\ signature_of m = Some sig /\ Sign sb = Some sig) /\
  (forall c1 v1 c2 v2, VoteMsg c1 v1 ∈ R -> VoteMsg c2 v2 ∈ R ->
     v_Height v1 = v_Height v2 -> v_Round v1 = v_Round v2 -> v_Type v1 = v_Type v2 ->
     c1 = c2 /\ v_BlockID v1 = v_BlockID v2 /\ v_Timestamp v1 = v_Timestamp v2 /\ v_Signature v1 = v_Signature v2) /\
  (forall c1 p1 c2 p2, ProposalMsg c1 p1 ∈ R -> ProposalMsg c2 p2 ∈ R ->
     p_Height p1 = p_Height p2 -> p_Round p1 = p_Round p2 ->
     c1 = c2 /\ p_BlockID p1 = p_BlockID p2 /\ p_POLRound p1 = p_POLRound p2 /\ p_Timestamp p1 = p_Timestamp p2 /\
     p_Signature p1 = p_Signature p2) /\
  StronglySorted (fun later earlier => hrs_of later = hrs_of earlier \/ hrs_lt (hrs_of earlier) (hrs_of later)) R.
Proof.
  intros Hlf. pose proof (life_alive Sign s R Hlf) as [_ _ Hp]. pose proof (life_unique Sign s R Hlf) as Hu.
  split; [|split; [|split]].
  - intros m Hm. apply (Hp m Hm).
  - intros c1 v1 c2 v2 H1 H2 Eh Er Et.
    destruct (Hp _ H1) as [[W1 (sb1 & sg1 & B1 & S1 & G1)] _]. destruct (Hp _ H2) as [[W2 (sb2 & sg2 & B2 & S2 & G2)] _].
    assert (Hb := Hu _ _ H1 H2 ltac:(cbn; by rewrite Eh, Er, Et)). rewrite B1, B2 in Hb. injection Hb as <-.
    destruct (vote_bytes_inj c1 v1 c2 v2 sb1 W1 W2 B1 B2) as (-> & -> & ->). cbn in S1, S2. split_and!; congruence.
  - intros c1 p1 c2 p2 H1 H2 Eh Er.
    destruct (Hp _ H1) as [[W1 (sb1 & sg1 & B1 & S1 & G1)] _]. destruct (Hp _ H2) as [[W2 (sb2 & sg2 & B2 & S2 & G2)] _].
    assert (Hb := Hu _ _ H1 H2 ltac:(cbn; by rewrite Eh, Er)). rewrite B1, B2 in Hb. injection Hb as <-.
    destruct (proposal_bytes_inj c1 p1 c2 p2 sb1 W1 W2 B1 B2) as (-> & -> & -> & ->). cbn in S1, S2. split_and!; congruence.
  - by eapply life_forward.
Qed.

(** A crash costs no signature.  If the last thing released is a vote, then
    after any crash a request for the same vote, at whatever time the clock
    shows now, is answered with the time and the signature of the released one,
    as long as signatures are not empty; the file is left as it is. *)
Theorem resign_after_crash {codec : TimeCodec} {decoder : TimeDecoder} {laws : TimeRoundtrip} Sign s R c v0 v written now :
  (forall sb, Sign sb <> Some []) -> life Sign s R -> VoteMsg c v0 ∈ R ->
  hrs_of (VoteMsg c v0) = last_hrs (LastSignState s) ->
  well_typed (VoteMsg c v) -> v_Type v = v_Type v0 -> v_Height v = v_Height v0 -> v_Round v = v_Round v0 ->
  v_BlockID v = v_BlockID v0 -> (exists sb, bytes_of (VoteMsg c v) = Ok sb) ->
  serve Sign written now (VoteMsg c v) s =
    (Ok (VoteMsg c (vote_set_signature (vote_set_timestamp v (v_Timestamp v0)) (v_Signature v0))), s).
Proof.
  intros Hne Hlf Hin Hlast Hw Et Eh Er Eb [sb Hsb]. pose proof (life_alive Sign s R Hlf) as [_ Hl Hp].
  destruct (Hp _ Hin) as [[W0 (sb0 & sg0 & B0 & S0 & G0)] [Hlt|[_ (sb' & Hsb' & B0')]]].
  { rewrite Hlast in Hlt. by apply hrs_lt_irrefl in Hlt. }
  rewrite B0 in B0'. injection B0' as <-. destruct (Hl sb0 Hsb') as (_ & Hsig & _).
  assert (Hsg : lss_Signature (LastSignState s) = Some sg0).
  { rewrite G0 in Hsig. injection Hsig as Hsig. destruct (lss_Signature (LastSignState s)) as [sg|]; [by subst|].
    cbn in Hsig. subst sg0. by destruct (Hne sb0). }
  assert (Hhv : hrs_of (VoteMsg c v) = last_hrs (LastSignState s)) by (rewrite <- Hlast; cbn; by rewrite Et, Eh, Er).
  assert (Hst : voteToStep (E:=pv_error) v = Ok (step_of (VoteMsg c v))).
  { destruct Hw as [[Hty _] _]. unfold voteToStep, step_of, IsVoteTypeValid in *.
    destruct (v_Type v =? PrevoteType); [done|]. by destruct (v_Type v =? PrecommitType). }
  cbn in S0. cbn [serve]. unfold signVote, sign_message, mbind, gom_bind, gget, glift. rewrite Hst.
  pose proof (CheckHRS_spec (LastSignState s) (v_Height v) (v_Round v) (step_of (VoteMsg c v))) as Hc.
  cbn [hrs_of] in Hhv. rewrite Hhv in Hc.
  destruct (CheckHRS (LastSignState s) (v_Height v) (v_Round v) (step_of (VoteMsg c v))) as [[|]|e|].
  2: by apply hrs_lt_irrefl in Hc.
  2: { exfalso. destruct e; try (by apply hrs_lt_irrefl in Hc). destruct Hc as [_ Hc]. congruence. }
  2: { destruct Hc as [_ Hc]. congruence. }
  cbn in Hsb. rewrite Hsb, Hsb', Hsg. change (default [] (Some sb0)) with sb0.
  destruct (vote_readable c v0 sb0 W0 B0) as (o0 & Ho0 & Hr0). destruct (vote_readable c v sb Hw Hsb) as (o & Ho & Hr).
  rewrite Eb, Ho0 in Ho. injection Ho as <-. destruct (bytes_eqb sb sb0) eqn:Eq.
  - apply bytes_eqb_true in Eq. subst sb0. destruct (vote_bytes_inj c v c v0 sb Hw W0 Hsb B0) as (_ & _ & Ets).
    rewrite S0, <- Ets. by replace (vote_set_timestamp v (v_Timestamp v)) with v by (by destruct v).
  - unfold checkVotesOnlyDifferByTimestamp. rewrite Hr0, Hr. cbn [must_unmarshal mbind outcome_bind].
    rewrite bool_decide_eq_true_2; [|unfold cv_with_time; cbn; congruence]. by rewrite S0.
Qed.

(** ** Witnesses *)

Definition toy_sign (sb : bytes) : option bytes := Some (1 :: sb).

Definition run_request (sR : FilePV * list message) (r : bool * Time * message) : FilePV * list message :=
  let s := if r.1.1 then LoadFilePV (stateFile sR.1) else sR.1 in
  match @serve toy_time toy_decoder toy_sign true r.1.2 r.2 s with
  | (Ok m', s') => (s', m' :: sR.2)
  | _ => (s, sR.2)
  end.

Definition run_requests (rs : list (bool * Time * message)) : FilePV * list message :=
  foldl run_request (LoadFilePV (LastSignState (NewFilePV (mkLastSignState 0 0 stepNone None None))), []) rs.

Lemma run_life rs :
  Forall (fun r => @well_typed toy_time r.2) rs ->
  let '(s, R) := run_requests rs in @life toy_time toy_decoder toy_sign s R.
Proof.
  intros Hw. unfold run_requests.
  assert (Hgen : forall s R, @life toy_time toy_decoder toy_sign s R ->
    let '(s', R') := foldl run_request (s, R) rs in @life toy_time toy_decoder toy_sign s' R'); [|apply Hgen; constructor].
  induction Hw as [|[[crash now] m] rs Hm Hrs IH]; intros s R Hl; [done|]. cbn [foldl]. unfold run_request at 2. cbn [fst snd].
  set (s0 := if crash then LoadFilePV (stateFile s) else s).
  assert (Hl0 : @life toy_time toy_decoder toy_sign s0 R) by (destruct crash; [by constructor|done]).
  destruct (serve toy_sign true now m s0) as [[m'|e|] s'] eqn:Es; [|by apply IH|by apply IH].
  apply IH. eapply life_answer; [exact Hl0|exact Hm|exact Es].
Qed.

(** A proposal, a prevote, and after a crash the prevote again at another time. *)
Definition sample_requests : list (bool * Time * message) :=
  [(false, 7, ProposalMsg [1] sample_proposal); (false, 8, VoteMsg [1] (sample_vote 0));
   (true, 9, VoteMsg [1] (vote_set_timestamp (sample_vote 0) 9))].

Lemma sample_well_typed : Forall (fun r => @well_typed toy_time r.2) sample_requests.
Proof.
  unfold sample_requests. rewrite !Forall_cons, Forall_nil. cbn [snd].
  split_and!; [ | | |done]; (split; [repeat split; vm_compute; discriminate|]);
    intros b Hb; vm_compute in Hb; injection Hb as <-; reflexivity.
Qed.

Lemma no_double_sign_witness :
  let R := (run_requests sample_requests).2 in
  length R = 3%nat /\
  forall v1 v2, VoteMsg [1] v1 ∈ R -> VoteMsg [1] v2 ∈ R -> v_Height v1 = v_Height v2 -> v_Round v1 = v_Round v2 ->
    v_Type v1 = v_Type v2 -> v_Timestamp v1 = v_Timestamp v2.
Proof.
  intros R. split; [vm_compute; reflexivity|].
  pose proof (run_life sample_requests sample_well_typed) as Hlf.
  destruct (run_requests sample_requests) as [s R0] eqn:E. subst R. cbn.
  destruct (@no_double_sign toy_time toy_decoder toy_roundtrip toy_sign s R0 Hlf) as (_ & Hv & _).
  intros v1 v2 H1 H2 Hh Hr Ht. apply (Hv [1] v1 [1] v2 H1 H2 Hh Hr Ht).
Defined.

Lemma resign_after_crash_witness :
  let s := (run_requests (take 2 sample_requests)).1 in
  let v := vote_set_timestamp (sample_vote 0) 9 in
  exists v', @serve toy_time toy_decoder toy_sign true 9 (VoteMsg [1] v) (LoadFilePV (stateFile s)) =
    (Ok (VoteMsg [1] v'), LoadFilePV (stateFile s)) /\ v_Timestamp v' = 7.
Proof.
  intros s v.
  pose proof (run_life (take 2 sample_requests) (Forall_take _ _ _ sample_well_typed)) as Hlf.
  assert (Hin : VoteMsg [1] (vote_set_signature (sample_vote 0) (lss_Signature (LastSignState s))) ∈
    (run_requests (take 2 sample_requests)).2) by (vm_compute; constructor).
  subst s. destruct (run_requests (take 2 sample_requests)) as [s R] eqn:E. cbn [fst snd] in *.
  eexists. split.
  - apply (@resign_after_crash toy_time toy_decoder toy_roundtrip toy_sign (LoadFilePV (stateFile s)) R [1]
      (vote_set_signature (sample_vote 0) (lss_Signature (LastSignState s))) v true 9).
    + discriminate.
    + by apply life_crash.
    + exact Hin.
    + vm_compute in E. injection E as <- _. reflexivity.
    + pose proof sample_well_typed as Hw. unfold sample_requests in Hw. rewrite !Forall_cons in Hw.
      destruct Hw as (_ & _ & Hw & _). exact Hw.
    + reflexivity.
    + reflexivity.
    + reflexivity.
    + reflexivity.
    + eexists. vm_compute. reflexivity.
  - reflexivity.
Defined.
