(* ===== verification/HeightVoteSet.v ===== *)
(** * The votes of a height: src/consensus/types/height_vote_set.go

    [HeightVoteSet] keeps a pair of vote sets per round, and a few rounds ahead
    for each peer.  The mutex makes every method one step.  The vote sets share
    one voter set; what they write to it is the cached total only, so each holds
    its own copy here. *)

From Stdlib Require Import ZArith Lia.
From stdpp Require Import prelude list gmap fin_maps fin_sets.
From S2P Require Import Prelude Proto Crypto SafeMath Validator ValidatorSet Block VoterSet VerifyCommit Slots VoteSet VoteSetInv VoteSetProps.

Local Open Scope Z_scope.

Record RoundVoteSet := mkRoundVoteSet { rvs_Prevotes : VoteSet; rvs_Precommits : VoteSet }.

Record HeightVoteSet := mkHeightVoteSet {
  hvs_chainID : bytes;
  hvs_height : Z;
  hvs_voterSet : VoterSet;
  hvs_round : Z;
  hvs_roundVoteSets : gmap Z RoundVoteSet;
  hvs_peerCatchupRounds : gmap bytes (list Z)
}.

Inductive hvs_error := ErrGotVoteFromUnwantedRound | ErrAddVote (e : add_error) | ErrInvalidVoteType | ErrPeerMaj23.

Definition set_round (hvs : HeightVoteSet) (round : Z) : HeightVoteSet :=
  mkHeightVoteSet (hvs_chainID hvs) (hvs_height hvs) (hvs_voterSet hvs) round (hvs_roundVoteSets hvs)
    (hvs_peerCatchupRounds hvs).

Definition set_rounds (hvs : HeightVoteSet) (m : gmap Z RoundVoteSet) : HeightVoteSet :=
  mkHeightVoteSet (hvs_chainID hvs) (hvs_height hvs) (hvs_voterSet hvs) (hvs_round hvs) m (hvs_peerCatchupRounds hvs).

Definition set_catchup (hvs : HeightVoteSet) (m : gmap bytes (list Z)) : HeightVoteSet :=
  mkHeightVoteSet (hvs_chainID hvs) (hvs_height hvs) (hvs_voterSet hvs) (hvs_round hvs) (hvs_roundVoteSets hvs) m.

Definition addRound {E} (hvs : HeightVoteSet) (round : Z) : outcome E HeightVoteSet :=
  match hvs_roundVoteSets hvs !! round with
  | Some _ => Panic
  | None =>
      prevotes ← NewVoteSet (hvs_chainID hvs) (hvs_height hvs) round PrevoteType (hvs_voterSet hvs);
      precommits ← NewVoteSet (hvs_chainID hvs) (hvs_height hvs) round PrecommitType (hvs_voterSet hvs);
      Ok (set_rounds hvs (<[round := mkRoundVoteSet prevotes precommits]> (hvs_roundVoteSets hvs)))
  end.

Definition HVS_Reset {E} (hvs : HeightVoteSet) (height : Z) (voterSet : VoterSet) : outcome E HeightVoteSet :=
  hvs ← addRound (mkHeightVoteSet (hvs_chainID hvs) height voterSet (hvs_round hvs) ∅ ∅) 0;
  Ok (set_round hvs 0).

Definition NewHeightVoteSet {E} (chainID : bytes) (height : Z) (voterSet : VoterSet) : outcome E HeightVoteSet :=
  HVS_Reset (mkHeightVoteSet chainID 0 (mkVoterSet [] 0) 0 ∅ ∅) height voterSet.

(** The loop of [SetRound]; [None] while it still runs after [fuel] turns.  At
    the last int32 the counter wraps and the loop has no end. *)
Fixpoint add_rounds {E} (fuel : nat) (r round : Z) (hvs : HeightVoteSet) : option (outcome E HeightVoteSet) :=
  match fuel with
  | O => None
  | S fuel =>
      if r <=? round then
        match hvs_roundVoteSets hvs !! r with
        | Some _ => add_rounds fuel (wrap32 (r + 1)) round hvs
        | None =>
            match addRound hvs r with
            | Ok hvs => add_rounds fuel (wrap32 (r + 1)) round hvs
            | Err e => Some (Err e)
            | Panic => Some Panic
            end
        end
      else Some (Ok hvs)
  end.

Definition SetRound {E} (fuel : nat) (hvs : HeightVoteSet) (round : Z) : option (outcome E HeightVoteSet) :=
  match SafeSubInt32 (E:=E) (hvs_round hvs) 1 with
  | Ok newRound =>
      if negb (hvs_round hvs =? 0) && (round <? newRound) then Some Panic
      else
        match add_rounds fuel newRound round hvs with
        | Some (Ok hvs) => Some (Ok (set_round hvs round))
        | r => r
        end
  | Err e => Some (Err e)
  | Panic => Some Panic
  end.

Definition getVoteSet {E} (hvs : HeightVoteSet) (round voteType : Z) : outcome E (option VoteSet) :=
  match hvs_roundVoteSets hvs !! round with
  | None => Ok None
  | Some rvs =>
      if voteType =? PrevoteType then Ok (Some (rvs_Prevotes rvs))
      else if voteType =? PrecommitType then Ok (Some (rvs_Precommits rvs))
      else Panic
  end.

(** The vote set of a round and type, changed in place. *)
Definition put_set (hvs : HeightVoteSet) (round voteType : Z) (s : VoteSet) : HeightVoteSet :=
  set_rounds hvs (alter (fun rvs =>
    if voteType =? PrevoteType then mkRoundVoteSet s (rvs_Precommits rvs) else mkRoundVoteSet (rvs_Prevotes rvs) s)
    round (hvs_roundVoteSets hvs)).

Section crypto.
  Context {crypto : CryptoLib} {codec : TimeCodec}.

(** [voteSet.AddVote] on the set of the vote. *)
Definition add_to_set {E} (hvs : HeightVoteSet) (vote : Vote) (voteSet : option VoteSet)
  : outcome E (bool * option hvs_error * HeightVoteSet) :=
  match voteSet with
  | None => Panic
  | Some s =>
      '(added, err, s) ← AddVote (E:=E) s (Some vote);
      Ok (added, option_map ErrAddVote err, put_set hvs (v_Round vote) (v_Type vote) s)
  end.

Definition HVS_AddVote {E} (hvs : HeightVoteSet) (vote : option Vote) (peerID : bytes)
  : outcome E (bool * option hvs_error * HeightVoteSet) :=
  match vote with
  | None => Panic
  | Some vote =>
      if negb (IsVoteTypeValid (v_Type vote)) then Ok (false, None, hvs)
      else
        voteSet ← getVoteSet hvs (v_Round vote) (v_Type vote);
        match voteSet with
        | Some _ => add_to_set hvs vote voteSet
        | None =>
            let rndz := default [] (hvs_peerCatchupRounds hvs !! peerID) in
            if lenZ rndz <? 2 then
              hvs ← addRound hvs (v_Round vote);
              voteSet ← getVoteSet hvs (v_Round vote) (v_Type vote);
              add_to_set (set_catchup hvs (<[peerID := rndz ++ [v_Round vote]]> (hvs_peerCatchupRounds hvs))) vote voteSet
            else Ok (false, Some ErrGotVoteFromUnwantedRound, hvs)
        end
  end.

End crypto.

Definition Prevotes {E} (hvs : HeightVoteSet) (round : Z) : outcome E (option VoteSet) := getVoteSet hvs round PrevoteType.

Definition Precommits {E} (hvs : HeightVoteSet) (round : Z) : outcome E (option VoteSet) := getVoteSet hvs round PrecommitType.

(** The loop of [POLInfo]: [n] rounds are left, the last one is [n - 1]. *)
Fixpoint pol_loop {E} (hvs : HeightVoteSet) (n : nat) : outcome E (Z * BlockID) :=
  match n with
  | O => Ok (-1, zero_BlockID)
  | S n =>
      rvs ← getVoteSet hvs (Z.of_nat n) PrevoteType;
      match rvs with
      | None => pol_loop hvs n
      | Some rvs =>
          let '(polBlockID, ok) := TwoThirdsMajority rvs in
          if ok then Ok (Z.of_nat n, polBlockID) else pol_loop hvs n
      end
  end.

Definition POLInfo {E} (hvs : HeightVoteSet) : outcome E (Z * BlockID) := pol_loop hvs (Z.to_nat (hvs_round hvs + 1)).

Definition HVS_SetPeerMaj23 (hvs : HeightVoteSet) (round voteType : Z) (peerID : bytes) (blockID : BlockID)
  : outcome hvs_error HeightVoteSet :=
  if negb (IsVoteTypeValid voteType) then Err ErrInvalidVoteType
  else
    voteSet ← getVoteSet hvs round voteType;
    match voteSet with
    | None => Ok hvs
    | Some s =>
        match SetPeerMaj23 s peerID blockID with
        | Ok s => Ok (put_set hvs round voteType s)
        | Err _ => Err ErrPeerMaj23
        | Panic => Panic
        end
    end.

(** ** Calls *)

Section calls.
  Context {crypto : CryptoLib} {codec : TimeCodec}.

(** One call: a vote of a peer, a new round, a claim of a peer, or a call on
    one of the vote sets handed out.  Rounds move forward, as consensus moves
    them. *)
Inductive hvs_call (hvs : HeightVoteSet) : HeightVoteSet -> Prop :=
| hcall_add vote peer r :
    (forall v, vote = Some v -> votable (v_BlockID v)) -> HVS_AddVote (E:=add_error) hvs vote peer = Ok r ->
    hvs_call hvs (snd r)
| hcall_round fuel round hvs' :
    hvs_round hvs <= round < int32_max -> SetRound (E:=add_error) fuel hvs round = Some (Ok hvs') -> hvs_call hvs hvs'
| hcall_peer round typ peer b hvs' : HVS_SetPeerMaj23 hvs round typ peer b = Ok hvs' -> hvs_call hvs hvs'
| hcall_set round typ s s' :
    getVoteSet (E:=add_error) hvs round typ = Ok (Some s) -> vs_call s s' -> hvs_call hvs (put_set hvs round typ s').

(** A vote set that calls build for a round and type. *)
Definition built (chainID : bytes) (height round typ : Z) (vs : VoterSet) (s : VoteSet) : Prop :=
  exists s0, NewVoteSet (E:=unit) chainID height round typ vs = Ok s0 /\ rtc vs_call s0 s.

Record hvs_inv (chainID : bytes) (height : Z) (vs : VoterSet) (hvs : HeightVoteSet) : Prop := {
  hi_chain : hvs_chainID hvs = chainID;
  hi_height : hvs_height hvs = height;
  hi_voters : hvs_voterSet hvs = vs;
  hi_round : 0 <= hvs_round hvs < int32_max;
  hi_sets : forall r rvs, hvs_roundVoteSets hvs !! r = Some rvs ->
    built chainID height r PrevoteType vs (rvs_Prevotes rvs) /\ built chainID height r PrecommitType vs (rvs_Precommits rvs);
  hi_all : forall r, 0 <= r <= hvs_round hvs -> is_Some (hvs_roundVoteSets hvs !! r);
  hi_peers : forall p l, hvs_peerCatchupRounds hvs !! p = Some l -> (length l <= 2)%nat;
  hi_dom : forall r, is_Some (hvs_roundVoteSets hvs !! r) ->
    -1 <= r <= hvs_round hvs \/ exists p l, hvs_peerCatchupRounds hvs !! p = Some l /\ r ∈ l
}.

Lemma NewVoteSet_E {E1 E2} chainID height round typ vs s :
  NewVoteSet (E:=E1) chainID height round typ vs = Ok s -> NewVoteSet (E:=E2) chainID height round typ vs = Ok s.
Proof. unfold NewVoteSet. destruct (height =? 0); [done|]. by intros [= <-]. Qed.

Lemma addRound_Ok {E} hvs r hvs' :
  addRound (E:=E) hvs r = Ok hvs' ->
  hvs_roundVoteSets hvs !! r = None /\
  exists pv pc, NewVoteSet (E:=unit) (hvs_chainID hvs) (hvs_height hvs) r PrevoteType (hvs_voterSet hvs) = Ok pv /\
    NewVoteSet (E:=unit) (hvs_chainID hvs) (hvs_height hvs) r PrecommitType (hvs_voterSet hvs) = Ok pc /\
    hvs' = set_rounds hvs (<[r := mkRoundVoteSet pv pc]> (hvs_roundVoteSets hvs)).
Proof.
  unfold addRound. destruct (hvs_roundVoteSets hvs !! r); [done|].
  destruct (NewVoteSet (E:=E) _ _ _ PrevoteType _) as [pv| |] eqn:E1; [|done|done]. cbn [mbind outcome_bind].
  destruct (NewVoteSet (E:=E) _ _ _ PrecommitType _) as [pc| |] eqn:E2; [|done|done]. cbn [mbind outcome_bind].
  intros [= <-]. split; [done|]. exists pv, pc. eauto using NewVoteSet_E.
Qed.

Lemma getVoteSet_Ok {E} hvs r typ o :
  getVoteSet (E:=E) hvs r typ = Ok o ->
  match o with
  | None => hvs_roundVoteSets hvs !! r = None
  | Some s => exists rvs, hvs_roundVoteSets hvs !! r = Some rvs /\
      (typ = PrevoteType /\ s = rvs_Prevotes rvs \/ typ = PrecommitType /\ s = rvs_Precommits rvs)
  end.
Proof.
  unfold getVoteSet. destruct (hvs_roundVoteSets hvs !! r) as [rvs|] eqn:Er; [|by intros [= <-]].
  destruct (Z.eqb_spec typ PrevoteType); [intros [= <-]; eauto 10|].
  destruct (Z.eqb_spec typ PrecommitType); [intros [= <-]; eauto 10|done].
Qed.

Lemma getVoteSet_built {E} chainID height vs hvs r typ s :
  hvs_inv chainID height vs hvs -> getVoteSet (E:=E) hvs r typ = Ok (Some s) -> built chainID height r typ vs s.
Proof.
  intros Hi (rvs & Hr & Ht)%getVoteSet_Ok. destruct (hi_sets _ _ _ _ Hi r rvs Hr) as [H1 H2].
  destruct Ht as [[-> ->]|[-> ->]]; done.
Qed.

Lemma built_call chainID height r typ vs s s' : built chainID height r typ vs s -> vs_call s s' -> built chainID height r typ vs s'.
Proof. intros (s0 & Hn & Hr) Hc. exists s0. split; [done|]. by eapply rtc_r. Qed.

(** Changing one vote set in place. *)
Lemma put_set_inv {E} chainID height vs hvs r typ s s' :
  hvs_inv chainID height vs hvs -> getVoteSet (E:=E) hvs r typ = Ok (Some s) -> built chainID height r typ vs s' ->
  hvs_inv chainID height vs (put_set hvs r typ s').
Proof.
  intros [H1 H2 H3 H4 H5 H6 H7 H8] (rvs & Hr & Ht)%getVoteSet_Ok Hb.
  assert (Hd : forall r', is_Some (hvs_roundVoteSets (put_set hvs r typ s') !! r') <-> is_Some (hvs_roundVoteSets hvs !! r')).
  { intros r'. cbn. by rewrite lookup_alter_is_Some. }
  constructor; try done.
  - intros r' rvs' Hr'. cbn in Hr'. destruct (decide (r = r')) as [<-|Hne].
    + rewrite lookup_alter_eq, Hr in Hr'. cbn in Hr'. injection Hr' as <-. destruct (H5 r rvs Hr) as [G1 G2].
      destruct Ht as [[-> _]|[-> _]]; done.
    + rewrite lookup_alter_ne in Hr' by done. by apply H5.
  - intros r' Hr'. apply Hd. by apply H6.
  - intros r' Hr'%Hd. by apply H8.
Qed.

(** The two sets of a round no vote was added to. *)
Definition fresh (hvs : HeightVoteSet) (r : Z) (rvs : RoundVoteSet) : Prop :=
  NewVoteSet (E:=unit) (hvs_chainID hvs) (hvs_height hvs) r PrevoteType (hvs_voterSet hvs) = Ok (rvs_Prevotes rvs) /\
  NewVoteSet (E:=unit) (hvs_chainID hvs) (hvs_height hvs) r PrecommitType (hvs_voterSet hvs) = Ok (rvs_Precommits rvs).

Lemma fresh_built chainID height vs hvs r rvs :
  hvs_chainID hvs = chainID -> hvs_height hvs = height -> hvs_voterSet hvs = vs -> fresh hvs r rvs ->
  built chainID height r PrevoteType vs (rvs_Prevotes rvs) /\ built chainID height r PrecommitType vs (rvs_Precommits rvs).
Proof. intros <- <- <- [H1 H2]. split; by eexists. Qed.

Lemma addRound_fresh {E} hvs r :
  hvs_height hvs <> 0 -> hvs_roundVoteSets hvs !! r = None ->
  exists rvs, fresh hvs r rvs /\ addRound (E:=E) hvs r = Ok (set_rounds hvs (<[r := rvs]> (hvs_roundVoteSets hvs))).
Proof.
  intros Hh Hr. unfold addRound, fresh, NewVoteSet. rewrite Hr. destruct (Z.eqb_spec (hvs_height hvs) 0); [done|].
  cbn [mbind outcome_bind]. by eexists (mkRoundVoteSet _ _).
Qed.

(** The loop adds the missing rounds and nothing else, and it ends. *)
Lemma add_rounds_spec {E} (n : nat) r round hvs :
  hvs_height hvs <> 0 -> int32_min <= r -> round < int32_max -> Z.of_nat n = Z.max 0 (round + 1 - r) ->
  exists m, (forall fuel, (n < fuel)%nat -> add_rounds (E:=E) fuel r round hvs = Some (Ok (set_rounds hvs m))) /\
    (forall fuel res, add_rounds (E:=E) fuel r round hvs = Some res -> (n < fuel)%nat) /\
    (forall r' rvs, hvs_roundVoteSets hvs !! r' = Some rvs -> m !! r' = Some rvs) /\
    (forall r', r <= r' <= round -> is_Some (m !! r')) /\
    (forall r' rvs, m !! r' = Some rvs -> hvs_roundVoteSets hvs !! r' = Some rvs \/ r <= r' <= round /\ fresh hvs r' rvs).
Proof.
  revert r hvs. induction n as [|n IH]; intros r hvs Hh Hmin Hmax Hn.
  - exists (hvs_roundVoteSets hvs). assert (Hle : (r <=? round) = false) by (apply Z.leb_gt; lia). split_and!.
    + intros [|fuel] Hf; [lia|]. cbn [add_rounds]. rewrite Hle. by destruct hvs.
    + intros [|fuel] res Hres; [done|lia].
    + done.
    + intros r' ?. lia.
    + auto.
  - assert (Hle : (r <=? round) = true) by (apply Z.leb_le; lia).
    assert (Hw : wrap32 (r + 1) = r + 1) by (apply wrap32_id; unfold_ints; unfold int32_min, int32_max in *; lia).
    destruct (hvs_roundVoteSets hvs !! r) as [rvs0|] eqn:Er.
    + destruct (IH (r + 1) hvs) as (m & M1 & M2 & M3 & M4 & M5); [done|lia|done|lia|]. exists m. split_and!.
      * intros [|fuel] Hf; [lia|]. cbn [add_rounds]. rewrite Hle, Er, Hw. apply M1. lia.
      * intros [|fuel] res Hres; [done|]. cbn [add_rounds] in Hres. rewrite Hle, Er, Hw in Hres. apply M2 in Hres. lia.
      * done.
      * intros r' Hr'. destruct (decide (r' = r)) as [->|]; [by exists rvs0; apply M3|apply M4; lia].
      * intros r' rvs' Hr'. destruct (M5 r' rvs' Hr') as [|[]]; [by left|right; split; [lia|done]].
    + destruct (addRound_fresh (E:=E) hvs r Hh Er) as (rvs0 & Hf0 & Ha).
      set (hvs1 := set_rounds hvs (<[r := rvs0]> (hvs_roundVoteSets hvs))) in *.
      destruct (IH (r + 1) hvs1) as (m & M1 & M2 & M3 & M4 & M5); [done|lia|done|lia|].
      assert (Hmr : m !! r = Some rvs0) by (apply M3; cbn; by rewrite lookup_insert_eq).
      exists m. split_and!.
      * intros [|fuel] Hf; [lia|]. cbn [add_rounds]. rewrite Hle, Er, Ha, Hw. apply M1. lia.
      * intros [|fuel] res Hres; [done|]. cbn [add_rounds] in Hres. rewrite Hle, Er, Ha, Hw in Hres. apply M2 in Hres. lia.
      * intros r' rvs' Hr'. apply M3. cbn. rewrite lookup_insert_ne; [done|]. congruence.
      * intros r' Hr'. destruct (decide (r' = r)) as [->|]; [by eexists|apply M4; lia].
      * intros r' rvs' Hr'. destruct (M5 r' rvs' Hr') as [Hold|[? ?]]; [|right; split; [lia|done]]. cbn in Hold.
        destruct (decide (r = r')) as [<-|Hne]; [|rewrite lookup_insert_ne in Hold by done; by left].
        right. split; [lia|]. congruence.
Qed.

Lemma SetRound_spec {E} hvs round :
  hvs_height hvs <> 0 -> 0 <= hvs_round hvs -> hvs_round hvs <= round < int32_max ->
  exists m, (forall fuel, round - hvs_round hvs + 2 < Z.of_nat fuel ->
      SetRound (E:=E) fuel hvs round = Some (Ok (set_round (set_rounds hvs m) round))) /\
    (forall fuel res, SetRound (E:=E) fuel hvs round = Some res -> round - hvs_round hvs + 2 < Z.of_nat fuel) /\
    (forall r' rvs, hvs_roundVoteSets hvs !! r' = Some rvs -> m !! r' = Some rvs) /\
    (forall r', hvs_round hvs - 1 <= r' <= round -> is_Some (m !! r')) /\
    (forall r' rvs, m !! r' = Some rvs ->
       hvs_roundVoteSets hvs !! r' = Some rvs \/ hvs_round hvs - 1 <= r' <= round /\ fresh hvs r' rvs).
Proof.
  intros Hh H0 Hr.
  destruct (add_rounds_spec (E:=E) (Z.to_nat (round + 2 - hvs_round hvs)) (hvs_round hvs - 1) round hvs)
    as (m & M1 & M2 & M3 & M4 & M5); [done|unfold int32_min; lia|lia|lia|].
  assert (Hsub : SafeSubInt32 (E:=E) (hvs_round hvs) 1 = Ok (hvs_round hvs - 1)).
  { unfold SafeSubInt32. change (wrap32 (int32_min + 1)) with (int32_min + 1).
    rewrite (proj2 (Z.ltb_ge (hvs_round hvs) (int32_min + 1))) by (unfold int32_min; lia). cbn -[wrap32].
    rewrite wrap32_id; [done|]. unfold_ints. unfold int32_max in *. lia. }
  exists m. unfold SetRound. rewrite Hsub, (proj2 (Z.ltb_ge round (hvs_round hvs - 1))), andb_false_r by lia.
  split_and!; try done.
  - intros fuel Hf. rewrite M1 by lia. done.
  - intros fuel res. destruct (add_rounds fuel _ _ _) as [o|] eqn:Ea; [|done]. apply M2 in Ea. lia.
Qed.

Lemma new_height_inv {E} chainID height vs hvs :
  NewHeightVoteSet (E:=E) chainID height vs = Ok hvs -> hvs_inv chainID height vs hvs /\ height <> 0.
Proof.
  unfold NewHeightVoteSet, HVS_Reset. destruct (addRound _ 0) as [h| |] eqn:Ea; [|done|done]. intros [= <-].
  apply addRound_Ok in Ea as (_ & pv & pc & Hpv & Hpc & ->). cbn in Hpv, Hpc. cbn [hvs_roundVoteSets set_rounds].
  assert (Hdom : forall r rvs, <[0 := mkRoundVoteSet pv pc]> (∅ : gmap Z RoundVoteSet) !! r = Some rvs ->
    r = 0 /\ rvs = mkRoundVoteSet pv pc).
  { intros r rvs Hr. destruct (decide (0 = r)) as [<-|]; [rewrite lookup_insert_eq in Hr; by injection Hr as <-|].
    rewrite lookup_insert_ne, lookup_empty in Hr by done. done. }
  split; [constructor; cbn|].
  - done.
  - done.
  - done.
  - unfold int32_max. lia.
  - intros r rvs [-> ->]%Hdom. split; by eexists.
  - intros r Hr. assert (r = 0) as -> by lia. rewrite lookup_insert_eq. by eexists.
  - intros p l Hp. by rewrite lookup_empty in Hp.
  - intros r [rvs [-> _]%Hdom]. left. lia.
  - intros ->. done.
Qed.

(** A round added for a peer. *)
Lemma catchup_inv chainID height vs hvs peer r rvs :
  hvs_inv chainID height vs hvs -> hvs_roundVoteSets hvs !! r = None -> fresh hvs r rvs ->
  let rndz := default [] (hvs_peerCatchupRounds hvs !! peer) in
  (length rndz < 2)%nat ->
  hvs_inv chainID height vs (set_catchup (set_rounds hvs (<[r := rvs]> (hvs_roundVoteSets hvs)))
    (<[peer := rndz ++ [r]]> (hvs_peerCatchupRounds hvs))).
Proof.
  intros [H1 H2 H3 H4 H5 H6 H7 H8] Hnone Hf rndz Hlen. constructor; cbn; try done.
  - intros r' rvs' Hr'. destruct (decide (r = r')) as [<-|]; [|rewrite lookup_insert_ne in Hr' by done; by apply H5].
    rewrite lookup_insert_eq in Hr'. injection Hr' as <-. by eapply fresh_built.
  - intros r' Hr'. rewrite lookup_insert_is_Some'. right. by apply H6.
  - intros p l Hl. destruct (decide (peer = p)) as [<-|]; [|rewrite lookup_insert_ne in Hl by done; by eapply H7].
    rewrite lookup_insert_eq in Hl. injection Hl as <-. rewrite length_app. cbn. lia.
  - intros r' [<-|Hr']%lookup_insert_is_Some'.
    { right. exists peer, (rndz ++ [r]). rewrite lookup_insert_eq. split; [done|]. set_solver. }
    destruct (H8 r' Hr') as [|(p & l & Hp & Hl)]; [by left|]. right. destruct (decide (peer = p)) as [<-|Hne].
    + exists peer, (rndz ++ [r]). rewrite lookup_insert_eq. split; [done|]. unfold rndz. rewrite Hp. cbn. set_solver.
    + exists p, l. by rewrite lookup_insert_ne.
Qed.

Definition others_kept (hvs hvs' : HeightVoteSet) (r typ : Z) : Prop :=
  forall r' typ' s, (r', typ') <> (r, typ) -> getVoteSet (E:=unit) hvs r' typ' = Ok (Some s) ->
    getVoteSet (E:=unit) hvs' r' typ' = Ok (Some s).

Lemma put_set_get {E} hvs r typ s s' :
  getVoteSet (E:=E) hvs r typ = Ok (Some s) ->
  getVoteSet (E:=unit) (put_set hvs r typ s') r typ = Ok (Some s') /\ others_kept hvs (put_set hvs r typ s') r typ.
Proof.
  intros (rvs & Hr & Ht)%getVoteSet_Ok. unfold others_kept, getVoteSet, put_set. cbn [hvs_roundVoteSets set_rounds]. split.
  - rewrite lookup_alter_eq, Hr. cbn. destruct Ht as [[-> _]|[-> _]]; done.
  - intros r' typ' s1 Hne. destruct (decide (r = r')) as [<-|]; [|by rewrite lookup_alter_ne].
    rewrite lookup_alter_eq, Hr. cbn. destruct Ht as [[-> _]|[-> _]];
      destruct (Z.eqb_spec typ' PrevoteType); destruct (Z.eqb_spec typ' PrecommitType); subst; done.
Qed.

Lemma valid_type typ : IsVoteTypeValid typ = true -> typ = PrevoteType \/ typ = PrecommitType.
Proof.
  unfold IsVoteTypeValid. destruct (Z.eqb_spec typ PrevoteType); [by left|]. destruct (Z.eqb_spec typ PrecommitType); [by right|done].
Qed.

(** The set a vote is added to. *)
Definition target (hvs : HeightVoteSet) (peer : bytes) (v : Vote) (s : VoteSet) : Prop :=
  getVoteSet (E:=unit) hvs (v_Round v) (v_Type v) = Ok (Some s) \/
  hvs_roundVoteSets hvs !! v_Round v = None /\
    (length (default [] (hvs_peerCatchupRounds hvs !! peer)) < 2)%nat /\
    NewVoteSet (E:=unit) (hvs_chainID hvs) (hvs_height hvs) (v_Round v) (v_Type v) (hvs_voterSet hvs) = Ok s.

(** The outcome of [AddVote]. *)
Definition add_outcome (hvs : HeightVoteSet) (peer : bytes) (v : Vote)
    (r : outcome add_error (bool * option hvs_error * HeightVoteSet)) : Prop :=
  if negb (IsVoteTypeValid (v_Type v)) then r = Ok (false, None, hvs)
  else
    hvs_roundVoteSets hvs !! v_Round v = None /\ length (default [] (hvs_peerCatchupRounds hvs !! peer)) = 2%nat /\
      r = Ok (false, Some ErrGotVoteFromUnwantedRound, hvs) \/
    exists s, target hvs peer v s /\
      match AddVote (E:=add_error) s (Some v) with
      | Ok (added, err, s') =>
          exists hvs', r = Ok (added, option_map ErrAddVote err, hvs') /\
            getVoteSet (E:=unit) hvs' (v_Round v) (v_Type v) = Ok (Some s') /\
            others_kept hvs hvs' (v_Round v) (v_Type v) /\ hvs_round hvs' = hvs_round hvs
      | Err e => r = Err e
      | Panic => r = Panic
      end.

Lemma add_to_set_spec chainID height vs hvs v s :
  hvs_inv chainID height vs hvs -> getVoteSet (E:=unit) hvs (v_Round v) (v_Type v) = Ok (Some s) -> votable (v_BlockID v) ->
  match AddVote (E:=add_error) s (Some v) with
  | Ok (added, err, s') =>
      exists hvs', add_to_set (E:=add_error) hvs v (Some s) = Ok (added, option_map ErrAddVote err, hvs') /\
        hvs_inv chainID height vs hvs' /\ getVoteSet (E:=unit) hvs' (v_Round v) (v_Type v) = Ok (Some s') /\
        others_kept hvs hvs' (v_Round v) (v_Type v) /\ hvs_round hvs' = hvs_round hvs
  | Err e => add_to_set hvs v (Some s) = Err e
  | Panic => add_to_set (E:=add_error) hvs v (Some s) = Panic
  end.
Proof.
  intros Hi Hs Hv. unfold add_to_set. destruct (AddVote s (Some v)) as [[[added err] s']|e|] eqn:Ea; [|done|done].
  cbn [mbind outcome_bind]. exists (put_set hvs (v_Round v) (v_Type v) s').
  destruct (put_set_get _ _ _ _ s' Hs) as [P1 P2]. split_and!; try done.
  eapply put_set_inv; [done|exact Hs|]. eapply built_call; [by eapply getVoteSet_built|].
  apply (call_add s (Some v) (added, err, s')); [|done]. by intros v' [= <-].
Qed.

Lemma getVoteSet_valid hvs r typ rvs :
  IsVoteTypeValid typ = true -> hvs_roundVoteSets hvs !! r = Some rvs ->
  exists s, forall E, getVoteSet (E:=E) hvs r typ = Ok (Some s).
Proof. intros Ht Hr. unfold getVoteSet. rewrite Hr. destruct (valid_type _ Ht) as [-> | ->]; by eexists. Qed.

Lemma HVS_AddVote_spec chainID height vs hvs v peer :
  hvs_inv chainID height vs hvs -> height <> 0 -> votable (v_BlockID v) ->
  let r := HVS_AddVote (E:=add_error) hvs (Some v) peer in
  add_outcome hvs peer v r /\ forall x, r = Ok x -> hvs_inv chainID height vs (snd x).
Proof.
  intros Hi Hh Hv. unfold HVS_AddVote, add_outcome. destruct (IsVoteTypeValid (v_Type v)) eqn:Et; cbn [negb]; cbv zeta.
  2: { split; [done|]. by intros x [= <-]. }
  destruct (hvs_roundVoteSets hvs !! v_Round v) as [rvs|] eqn:Er.
  - destruct (getVoteSet_valid _ _ _ _ Et Er) as [s Hs]. rewrite Hs. specialize (Hs unit).
    cbn [mbind outcome_bind]. pose proof (add_to_set_spec _ _ _ _ _ _ Hi Hs Hv) as Ha. split.
    + right. exists s. split; [by left|]. destruct (AddVote s (Some v)) as [[[added err] s']|e|]; [|done|done].
      destruct Ha as (hvs' & H1 & _ & H2). eauto.
    + intros x Hx. destruct (AddVote s (Some v)) as [[[added err] s']|e|]; [|congruence|congruence].
      destruct Ha as (hvs' & H1 & H2 & _). rewrite H1 in Hx. by injection Hx as <-.
  - assert (Hg : getVoteSet (E:=add_error) hvs (v_Round v) (v_Type v) = Ok None) by (unfold getVoteSet; by rewrite Er).
    rewrite Hg. cbn [mbind outcome_bind]. set (rndz := default [] (hvs_peerCatchupRounds hvs !! peer)).
    assert (Hl2 : (length rndz <= 2)%nat).
    { unfold rndz. destruct (hvs_peerCatchupRounds hvs !! peer) eqn:Ep; [by eapply (hi_peers _ _ _ _ Hi)|cbn; lia]. }
    unfold lenZ. destruct (Z.ltb_spec (Z.of_nat (length rndz)) 2) as [Hlt|Hge].
    2: { split; [|by intros x [= <-]]. left. split_and!; [done|lia|done]. }
    destruct (addRound_fresh (E:=add_error) hvs (v_Round v)) as (rvs & Hf & ->);
      [by rewrite (hi_height _ _ _ _ Hi)|done|]. cbn [mbind outcome_bind].
    set (hvs1 := set_rounds hvs _). set (hvs2 := set_catchup hvs1 _).
    assert (Hi2 : hvs_inv chainID height vs hvs2) by (exact (catchup_inv _ _ _ hvs peer _ _ Hi Er Hf ltac:(fold rndz; lia))).
    assert (Hs : exists s, getVoteSet (E:=unit) hvs2 (v_Round v) (v_Type v) = Ok (Some s) /\
      getVoteSet (E:=add_error) hvs1 (v_Round v) (v_Type v) = Ok (Some s) /\
      NewVoteSet (E:=unit) (hvs_chainID hvs) (hvs_height hvs) (v_Round v) (v_Type v) (hvs_voterSet hvs) = Ok s).
    { unfold getVoteSet, hvs2, hvs1. cbn [hvs_roundVoteSets set_rounds set_catchup]. rewrite lookup_insert_eq.
      destruct Hf as [Hf1 Hf2]. destruct (valid_type _ Et) as [-> | ->]; by eexists. }
    destruct Hs as (s & Hs2 & Hs1 & Hn). rewrite Hs1. cbn [mbind outcome_bind].
    pose proof (add_to_set_spec _ _ _ _ _ _ Hi2 Hs2 Hv) as Ha.
    assert (Hk : others_kept hvs hvs2 (v_Round v) (v_Type v)).
    { intros r' typ' s' Hne. unfold getVoteSet, hvs2, hvs1. cbn [hvs_roundVoteSets set_rounds set_catchup].
      destruct (decide (v_Round v = r')) as [<-|]; [by rewrite Er|by rewrite lookup_insert_ne]. }
    split.
    + right. exists s. split; [right; split_and!; [done|fold rndz; lia|done]|].
      destruct (AddVote s (Some v)) as [[[added err] s']|e|]; [|done|done].
      destruct Ha as (hvs' & H1 & _ & H2 & H3 & H4). exists hvs'. split_and!; try done. intros r' typ' s0 Hne Hg'. auto.
    + intros x Hx. destruct (AddVote s (Some v)) as [[[added err] s']|e|]; [|congruence|congruence].
      destruct Ha as (hvs' & H1 & H2 & _). rewrite H1 in Hx. by injection Hx as <-.
Qed.

Lemma hvs_call_inv chainID height vs hvs hvs' :
  hvs_call hvs hvs' -> height <> 0 -> hvs_inv chainID height vs hvs -> hvs_inv chainID height vs hvs'.
Proof.
  intros Hc Hh Hi. destruct Hc as [vote peer r Hv Ha|fuel round hvs' Hr Hs|round typ peer b hvs' Hp|round typ s s' Hg Hc].
  - destruct vote as [v|]; [|done]. by eapply (HVS_AddVote_spec _ _ _ hvs v peer Hi Hh (Hv v eq_refl)).
  - pose proof Hi as [H1 H2 H3 H4 H5 H6 H7 H8].
    destruct (SetRound_spec (E:=add_error) hvs round) as (m & M1 & M2 & M3 & M4 & M5); [congruence|lia|done|].
    rewrite (M1 fuel) in Hs by (by eapply M2). injection Hs as <-. constructor; cbn; try done.
    + lia.
    + intros r rvs [Hold|[_ Hf]]%M5; [by apply H5|by eapply fresh_built].
    + intros r Hr'. destruct (Z.le_gt_cases (hvs_round hvs) r); [apply M4; lia|].
      destruct (H6 r) as [rvs Hrvs]; [lia|]. exists rvs. by apply M3.
    + intros r [rvs [Hold|[Hb _]]%M5]; [|left; lia]. destruct (H8 r) as [|]; [by eexists|left; lia|by right].
  - unfold HVS_SetPeerMaj23 in Hp. destruct (IsVoteTypeValid typ); [|done]. cbn [negb] in Hp.
    destruct (getVoteSet hvs round typ) as [[s|]| |] eqn:Eg; cbn in Hp; [|by injection Hp as <-|done|done].
    destruct (SetPeerMaj23 s peer b) as [s'| |] eqn:Es; [|done|done]. injection Hp as <-.
    eapply put_set_inv; [done|exact Eg|]. eapply built_call; [by eapply getVoteSet_built|]. by eapply call_peer.
  - eapply put_set_inv; [done|exact Hg|]. eapply built_call; [by eapply getVoteSet_built|done].
Qed.

Lemma hvs_calls_inv {E} chainID height vs hvs0 hvs :
  NewHeightVoteSet (E:=E) chainID height vs = Ok hvs0 -> rtc hvs_call hvs0 hvs ->
  hvs_inv chainID height vs hvs /\ height <> 0.
Proof.
  intros [Hi Hh]%new_height_inv Hr. split; [|done]. induction Hr as [|h1 h2 h3 Hc _ IH]; [done|].
  by eapply IH, hvs_call_inv.
Qed.

(** The rounds tracked, counted. *)
Lemma concat_length (ll : list (list Z)) k : (forall l, l ∈ ll -> (length l <= k)%nat) -> (length (concat ll) <= length ll * k)%nat.
Proof.
  induction ll as [|l ll IH]; intros Hl; [done|]. cbn. rewrite length_app.
  pose proof (Hl l ltac:(set_solver)). pose proof (IH ltac:(set_solver)). lia.
Qed.

Lemma size_list_to_set_le (l : list Z) : (size (list_to_set l : gset Z) <= length l)%nat.
Proof.
  induction l as [|x l IH]; [done|]. rewrite list_to_set_cons, size_union_alt, size_singleton. cbn.
  pose proof (subseteq_size (C:=gset Z) (list_to_set l ∖ {[x]}) (list_to_set l) ltac:(set_solver)). lia.
Qed.

Lemma hvs_inv_size chainID height vs hvs :
  hvs_inv chainID height vs hvs ->
  Z.of_nat (size (hvs_roundVoteSets hvs)) <= hvs_round hvs + 2 + 2 * Z.of_nat (size (hvs_peerCatchupRounds hvs)).
Proof.
  intros [_ _ _ Hr _ _ Hp Hd]. set (cs := concat (map_to_list (hvs_peerCatchupRounds hvs)).*2).
  assert (Hsub : dom (hvs_roundVoteSets hvs) ⊆@{gset Z} list_to_set (seqZ (-1) (hvs_round hvs + 2) ++ cs)).
  { intros r Hr'%elem_of_dom. rewrite elem_of_list_to_set, elem_of_app.
    destruct (Hd r Hr') as [|(p & l & Hl & Hin)]; [left; apply elem_of_seqZ; lia|right].
    apply list_elem_of_In, in_concat. exists l. rewrite <- !list_elem_of_In. split; [|done].
    apply list_elem_of_fmap. exists (p, l). by rewrite elem_of_map_to_list. }
  apply subseteq_size in Hsub. rewrite size_dom in Hsub.
  pose proof (size_list_to_set_le (seqZ (-1) (hvs_round hvs + 2) ++ cs)) as Hle.
  rewrite length_app, length_seqZ in Hle.
  assert (Hcs : (length cs <= size (hvs_peerCatchupRounds hvs) * 2)%nat).
  { unfold cs. rewrite <- length_map_to_list, <- (length_fmap snd). apply concat_length. intros l Hl.
    apply list_elem_of_fmap in Hl as ([p l'] & -> & Hl%elem_of_map_to_list). by eapply Hp. }
  lia.
Qed.

(** Sets only grow by calls. *)
Definition grown (hvs hvs' : HeightVoteSet) : Prop :=
  hvs_round hvs <= hvs_round hvs' /\
  forall r typ s, getVoteSet (E:=unit) hvs r typ = Ok (Some s) ->
    exists s', getVoteSet (E:=unit) hvs' r typ = Ok (Some s') /\ rtc vs_call s s'.

Lemma put_set_grown {E} hvs r typ s s' :
  getVoteSet (E:=E) hvs r typ = Ok (Some s) -> vs_call s s' -> grown hvs (put_set hvs r typ s').
Proof.
  intros Hg Hc. destruct (put_set_get _ _ _ _ s' Hg) as [P1 P2]. split; [done|]. intros r' typ' s1 H1.
  destruct (decide ((r', typ') = (r, typ))) as [[= -> ->]|Hne].
  - exists s'. split; [done|]. assert (s1 = s) as ->; [|by apply rtc_once].
    apply getVoteSet_Ok in H1 as (rvs1 & Hr1 & Ht1), Hg as (rvs & Hr & Ht). rewrite Hr in Hr1. injection Hr1 as <-.
    destruct Ht as [[-> ->]|[-> ->]], Ht1 as [[? ->]|[? ->]]; done.
  - exists s1. split; [by apply P2|done].
Qed.

Lemma hvs_call_grown chainID height vs hvs hvs' :
  hvs_call hvs hvs' -> height <> 0 -> hvs_inv chainID height vs hvs -> grown hvs hvs'.
Proof.
  intros Hc Hh Hi. destruct Hc as [vote peer r Hv Ha|fuel round hvs' Hr Hs|round typ peer b hvs' Hp|round typ s s' Hg Hc].
  - destruct vote as [v|]; [|done]. destruct (HVS_AddVote_spec _ _ _ hvs v peer Hi Hh (Hv v eq_refl)) as [Ho _].
    rewrite Ha in Ho. unfold add_outcome in Ho. destruct (IsVoteTypeValid (v_Type v)); cbn [negb] in Ho.
    2: { injection Ho as ->. split; [done|]. eauto using rtc_refl. }
    destruct Ho as [(_ & _ & [= ->])|(s & Ht & Hs)]; [split; [done|]; eauto using rtc_refl|].
    destruct (AddVote s (Some v)) as [[[added err] s']|e|] eqn:Ea; [|done|done].
    destruct Hs as (hvs' & [= ->] & Hg & Hk & Hrd). cbn [snd]. split; [by rewrite Hrd|]. intros r' typ' s1 H1.
    destruct (decide ((r', typ') = (v_Round v, v_Type v))) as [[= -> ->]|Hne]; [|exists s1; split; [by apply Hk|done]].
    exists s'. split; [done|]. destruct Ht as [Ht|(Hnone & _)].
    + rewrite Ht in H1. injection H1 as <-. apply rtc_once. by eapply (call_add s (Some v) (added, err, s')).
    + apply getVoteSet_Ok in H1 as (rvs & Hrv & _). congruence.
  - pose proof Hi as [H1 H2 H3 H4 H5 H6 H7 H8].
    destruct (SetRound_spec (E:=add_error) hvs round) as (m & M1 & M2 & M3 & _); [congruence|lia|done|].
    rewrite (M1 fuel) in Hs by (by eapply M2). injection Hs as <-. split; [cbn; lia|]. intros r typ s Hg.
    exists s. split; [|done]. unfold getVoteSet in *. cbn [hvs_roundVoteSets set_round set_rounds].
    destruct (hvs_roundVoteSets hvs !! r) as [rvs|] eqn:Er; [|done]. by rewrite (M3 r rvs Er).
  - unfold HVS_SetPeerMaj23 in Hp. destruct (IsVoteTypeValid typ); [|done]. cbn [negb] in Hp.
    destruct (getVoteSet hvs round typ) as [[s|]| |] eqn:Eg; cbn in Hp; [| |done|done].
    + destruct (SetPeerMaj23 s peer b) as [s'| |] eqn:Es; [|done|done]. injection Hp as <-.
      eapply put_set_grown; [exact Eg|by eapply call_peer].
    + injection Hp as <-. split; [done|]. eauto using rtc_refl.
  - by eapply put_set_grown.
Qed.

Lemma hvs_calls_grown chainID height vs hvs hvs' :
  rtc hvs_call hvs hvs' -> height <> 0 -> hvs_inv chainID height vs hvs -> grown hvs hvs'.
Proof.
  intros Hr Hh. induction Hr as [h|h1 h2 h3 Hc _ IH]; intros Hi; [split; [done|]; eauto using rtc_refl|].
  destruct (hvs_call_grown _ _ _ _ _ Hc Hh Hi) as [G1 G2].
  destruct (IH (hvs_call_inv _ _ _ _ _ Hc Hh Hi)) as [G3 G4]. split; [lia|]. intros r typ s (s1 & Hs1 & Hr1)%G2.
  destruct (G4 _ _ _ Hs1) as (s2 & Hs2 & Hr2). exists s2. split; [done|by etrans].
Qed.

(** ** The last majority of prevotes *)

(** Voters with more than two thirds of the weight signed for the block. *)
Definition quorum_for (chainID : bytes) (height round typ : Z) (vs : VoterSet) (b : BlockID) : Prop :=
  exists votes, length votes = length (Voters vs) /\
    2 * Zsum (weights (Voters vs)) < 3 * voted (Voters vs) votes /\
    forall (i : nat) v, votes !! i = Some (Some v) -> signed_vote chainID height round typ vs i b v.

Lemma built_quorum chainID height round typ vs s b :
  voters_wf vs -> built chainID height round typ vs s -> vs_maj23 s = Some b -> quorum_for chainID height round typ vs b.
Proof.
  intros Hwf (s0 & Hn & Hr) Em. destruct (new_good _ _ _ _ _ _ Hwf Hn) as (Hg0 & Hc & Hh & Hro & Ht & Hvs).
  destruct (vs_calls_good _ _ Hr Hg0) as (Hg & [S1 S2 S3 S4 S5] & _). rewrite Hvs in S5.
  destruct (maj23_votes s b (gd_inv _ Hg) Em) as (bv & Hk & [B1 _ B3 B4 _] & Hm & _ & Hv).
  exists (bv_votes bv). unfold majority in Hm. rewrite B3, S5 in Hm. split_and!; [congruence|done|].
  intros i v Hi. destruct (Hv i v Hi) as [_ Hb]. rewrite <- Hb, <- Hc, <- Hh, <- Hro, <- Ht, <- S1, <- S2, <- S3, <- S4.
  unfold signed_vote. rewrite <- S5. by apply cast_signed, (B4 i v Hi).
Qed.

Definition has_pol (hvs : HeightVoteSet) (r : Z) (b : BlockID) : Prop :=
  exists pv, Prevotes (E:=unit) hvs r = Ok (Some pv) /\ TwoThirdsMajority pv = (b, true).

Lemma pol_loop_spec hvs n :
  (forall r, 0 <= r < Z.of_nat n -> is_Some (hvs_roundVoteSets hvs !! r)) ->
  exists r b, pol_loop (E:=unit) hvs n = Ok (r, b) /\ (forall r' b', r < r' < Z.of_nat n -> ~ has_pol hvs r' b') /\
    (r = -1 /\ b = zero_BlockID \/ 0 <= r < Z.of_nat n /\ has_pol hvs r b).
Proof.
  induction n as [|n IH]; intros Hall.
  - exists (-1), zero_BlockID. split_and!; [done|intros; lia|by left].
  - destruct (Hall (Z.of_nat n)) as [rvs Hrvs]; [lia|]. cbn [pol_loop].
    assert (Hg : getVoteSet (E:=unit) hvs (Z.of_nat n) PrevoteType = Ok (Some (rvs_Prevotes rvs)))
      by (unfold getVoteSet; by rewrite Hrvs).
    rewrite Hg. cbn [mbind outcome_bind]. destruct (TwoThirdsMajority (rvs_Prevotes rvs)) as [b ok] eqn:Em. destruct ok.
    + exists (Z.of_nat n), b. split_and!; [done|intros; lia|]. right. split; [lia|]. by exists (rvs_Prevotes rvs).
    + destruct IH as (r & b0 & -> & Hno & Hor); [intros; apply Hall; lia|]. exists r, b0. split_and!; [done| |].
      * intros r' b' Hr' Hp. destruct (decide (r' = Z.of_nat n)) as [->|]; [|eapply Hno; [|exact Hp]; lia].
        destruct Hp as (pv & Hpv & Hmaj). unfold Prevotes in Hpv. rewrite Hg in Hpv. injection Hpv as <-. congruence.
      * destruct Hor as [|[? ?]]; [by left|]. right. split; [lia|done].
Qed.

Lemma has_pol_grown chainID height vs hvs hvs' r b :
  voters_wf vs -> hvs_inv chainID height vs hvs -> grown hvs hvs' -> has_pol hvs r b -> has_pol hvs' r b.
Proof.
  intros Hwf Hi [_ Hg] (pv & Hpv & Hm). destruct (Hg _ _ _ Hpv) as (pv' & Hpv' & Hr). exists pv'. split; [done|].
  destruct (getVoteSet_built _ _ _ _ _ _ _ Hi Hpv) as (s0 & Hn & Hr0).
  destruct (new_good _ _ _ _ _ _ Hwf Hn) as (Hg0 & _). destruct (vs_calls_good _ _ Hr0 Hg0) as (Hgood & _).
  destruct (vs_calls_good _ _ Hr Hgood) as (_ & _ & Hkeep). unfold TwoThirdsMajority in *.
  destruct (vs_maj23 pv) as [b0|]; [|done]. injection Hm as ->. by rewrite (Hkeep b eq_refl).
Qed.

End calls.

(** ** Theorems *)

(** The votes of a height are kept apart by round, for all rounds that
    matter, in bounded memory.  Start from a new height and make any calls:
    votes for any round from any peer, claims of peers, new rounds.  Every
    round up to the current one has its two vote sets, and so does any round
    [getVoteSet] returns a set for: it is one that calls on an empty set of that
    round and type build, so all that is proved of vote sets holds for it.  No
    peer makes the node keep more than two rounds out of turn, and the rounds
    kept are at most the current one plus two, plus two per peer. *)
Theorem height_vote_set_sound {crypto : CryptoLib} {codec : TimeCodec} chainID height vs hvs0 hvs :
  NewHeightVoteSet (E:=unit) chainID height vs = Ok hvs0 -> rtc hvs_call hvs0 hvs ->
  (forall r, 0 <= r <= hvs_round hvs -> exists pv pc,
     Prevotes (E:=unit) hvs r = Ok (Some pv) /\ Precommits (E:=unit) hvs r = Ok (Some pc)) /\
  (forall r typ s, getVoteSet (E:=unit) hvs r typ = Ok (Some s) ->
     exists s0, NewVoteSet (E:=unit) chainID height r typ vs = Ok s0 /\ rtc vs_call s0 s) /\
  (forall peer l, hvs_peerCatchupRounds hvs !! peer = Some l -> (length l <= 2)%nat) /\
  Z.of_nat (size (hvs_roundVoteSets hvs)) <= hvs_round hvs + 2 + 2 * Z.of_nat (size (hvs_peerCatchupRounds hvs)).
Proof.
  intros Hn Hr. destruct (hvs_calls_inv _ _ _ _ _ Hn Hr) as [Hi Hh]. split_and!.
  - intros r Hr'. destruct (hi_all _ _ _ _ Hi r Hr') as [rvs Hrvs]. unfold Prevotes, Precommits, getVoteSet. rewrite Hrvs. eauto.
  - intros r typ s Hg. by eapply getVoteSet_built.
  - apply Hi.
  - by eapply hvs_inv_size.
Qed.

(** The outcome of [AddVote] on a height, on every branch.  Votes of other
    types are ignored.  A vote for a tracked round goes to its vote set, whoever
    sent it, and changes no other set; a vote for another round opens that
    round if its peer has fewer than two rounds open, and is refused without
    any change exactly when it has two.  Rounds up to the current one are never
    refused. *)
Theorem height_add_vote_outcome {crypto : CryptoLib} {codec : TimeCodec} chainID height vs hvs0 hvs v peer :
  NewHeightVoteSet (E:=unit) chainID height vs = Ok hvs0 -> rtc hvs_call hvs0 hvs -> votable (v_BlockID v) ->
  add_outcome hvs peer v (HVS_AddVote (E:=add_error) hvs (Some v) peer) /\
  (0 <= v_Round v <= hvs_round hvs ->
   forall added hvs', HVS_AddVote (E:=add_error) hvs (Some v) peer <> Ok (added, Some ErrGotVoteFromUnwantedRound, hvs')).
Proof.
  intros Hn Hr Hv. destruct (hvs_calls_inv _ _ _ _ _ Hn Hr) as [Hi Hh].
  destruct (HVS_AddVote_spec _ _ _ hvs v peer Hi Hh Hv) as [Ho _]. split; [done|].
  intros Hrd added hvs' Ha. rewrite Ha in Ho. unfold add_outcome in Ho. destruct (IsVoteTypeValid (v_Type v)); [|done].
  destruct (hi_all _ _ _ _ Hi _ Hrd) as [rvs Hrvs]. destruct Ho as [(Hnone & _)|(s & _ & Hs)]; [congruence|].
  destruct (AddVote s (Some v)) as [[[added' [e|]] s']|e|]; [by destruct Hs as (? & ? & _)..|done|done].
Qed.

(** [POLInfo] is exact and never goes back.  On any height that calls can
    build it returns a round up to the current one whose prevotes have a
    majority for the block it names, so that voters with more than two thirds
    of the weight signed prevotes for it in that round, and no later round up
    to the current one has a majority; or it returns -1 and no round has.  The
    round it returns after further calls is never an earlier one, and for the
    same round the block is the same. *)
Theorem pol_info_exact {crypto : CryptoLib} {codec : TimeCodec} chainID height vs hvs0 hvs :
  voters_wf vs -> NewHeightVoteSet (E:=unit) chainID height vs = Ok hvs0 -> rtc hvs_call hvs0 hvs ->
  exists r b, POLInfo (E:=unit) hvs = Ok (r, b) /\
    (forall r' b', r < r' <= hvs_round hvs -> ~ has_pol hvs r' b') /\
    (r = -1 /\ b = zero_BlockID \/
     0 <= r <= hvs_round hvs /\ has_pol hvs r b /\ quorum_for chainID height r PrevoteType vs b) /\
    forall hvs' r' b', rtc hvs_call hvs hvs' -> POLInfo (E:=unit) hvs' = Ok (r', b') -> r <= r' /\ (r = r' -> b = b').
Proof.
  intros Hwf Hn Hr. destruct (hvs_calls_inv _ _ _ _ _ Hn Hr) as [Hi Hh].
  assert (Hpol : forall h, hvs_inv chainID height vs h -> exists r b, POLInfo (E:=unit) h = Ok (r, b) /\
    (forall r' b', r < r' <= hvs_round h -> ~ has_pol h r' b') /\
    (r = -1 /\ b = zero_BlockID \/ 0 <= r <= hvs_round h /\ has_pol h r b)).
  { intros h Hih. pose proof (hi_round _ _ _ _ Hih). unfold POLInfo.
    destruct (pol_loop_spec h (Z.to_nat (hvs_round h + 1))) as (r & b & H1 & H2 & H3); [intros; apply Hih; lia|].
    exists r, b. split_and!; [done|intros r' b' ?; apply H2; lia|]. destruct H3 as [|[? ?]]; [by left|right; split; [lia|done]]. }
  destruct (Hpol hvs Hi) as (r & b & H1 & H2 & H3). exists r, b. split_and!; [done|done| |].
  - destruct H3 as [|[Hb Hp]]; [by left|]. right. split_and!; [lia..|done|]. destruct Hp as (pv & Hpv & Hm).
    eapply built_quorum; [done|by eapply getVoteSet_built|]. unfold TwoThirdsMajority in Hm.
    destruct (vs_maj23 pv); [by injection Hm as ->|done].
  - intros hvs' r' b' Hr' Hp'. pose proof (hvs_calls_grown _ _ _ _ _ Hr' Hh Hi) as Hg.
    assert (Hr2 : rtc hvs_call hvs0 hvs') by (by etrans). destruct (hvs_calls_inv _ _ _ _ _ Hn Hr2) as [Hi' _].
    destruct (Hpol hvs' Hi') as (r1 & b1 & G1 & G2 & G3). rewrite Hp' in G1. injection G1 as -> ->.
    destruct H3 as [[-> ->]|[Hb Hp]].
    + destruct G3 as [[-> ->]|[? _]]; [done|]. split; [lia|intros <-; lia].
    + pose proof (has_pol_grown _ _ _ _ _ _ _ Hwf Hi Hg Hp) as Hp2. destruct Hg as [Hrd _].
      assert (r <= r1). { destruct (Z.le_gt_cases r r1); [done|]. destruct (G2 r b); [lia|done]. }
      split; [done|]. intros <-. destruct G3 as [[-> _]|[_ (pv1 & Hpv1 & Hm1)]]; [lia|].
      destruct Hp2 as (pv2 & Hpv2 & Hm2). rewrite Hpv1 in Hpv2. injection Hpv2 as <-. congruence.
Qed.

(** [SetRound] opens a round before the first.  Its loop starts one below
    the current round, which is 0 on a new height, so the first call adds round
    -1 to the sets, whose keys the comment gives as 0 to the current round. *)
Theorem set_round_opens_minus_one chainID height vs hvs0 round :
  NewHeightVoteSet (E:=unit) chainID height vs = Ok hvs0 -> 0 <= round < int32_max ->
  exists hvs, SetRound (E:=unit) (Z.to_nat (round + 3)) hvs0 round = Some (Ok hvs) /\
    hvs_roundVoteSets hvs0 !! (-1) = None /\ is_Some (hvs_roundVoteSets hvs !! (-1)).
Proof.
  unfold NewHeightVoteSet, HVS_Reset. destruct (addRound _ 0) as [h| |] eqn:Ea; [|done|done]. intros [= <-] Hr.
  apply addRound_Ok in Ea as (_ & pv & pc & Hpv & _ & ->). set (hvs0 := set_round _ 0).
  destruct (SetRound_spec (E:=unit) hvs0 round) as (m & M1 & _ & _ & M4 & _); [|done|done|].
  { cbn. intros ->. done. }
  rewrite M1 by (cbn; lia). eexists. split_and!; [done|done|]. apply (M4 (-1)). cbn. lia.
Qed.

(** ** Witnesses *)

Definition round_vote (typ r n : Z) (b : BlockID) : Vote :=
  let v sig := mkVote typ 5 r b 9 (toy_address (key_of n)) (n - 1) sig in
  match @VoteSignBytes toy_time unit [7] (v None) with
  | Ok msg => v (Some (mixed_sign n msg))
  | _ => v None
  end.

Lemma round_vote_block typ r n b : v_BlockID (round_vote typ r n b) = b.
Proof. unfold round_vote. by destruct (VoteSignBytes _ _). Qed.

Definition new_height : HeightVoteSet :=
  match NewHeightVoteSet (E:=unit) [7] 5 mixed_voters with Ok h => h | _ => mkHeightVoteSet [] 0 mixed_voters 0 ∅ ∅ end.

Definition add_vote (hvs : HeightVoteSet) (v : Vote) : HeightVoteSet :=
  match @HVS_AddVote toy_crypto toy_time add_error hvs (Some v) [3] with Ok r => snd r | _ => hvs end.

Lemma add_vote_calls hvs vs :
  Forall (fun v => votable (v_BlockID v)) vs -> rtc (@hvs_call toy_crypto toy_time) hvs (foldl add_vote hvs vs).
Proof.
  intros Hall. revert hvs. induction Hall as [|v vs Hv _ IH]; intros hvs; [apply rtc_refl|]. cbn [foldl]. unfold add_vote at 2.
  destruct (@HVS_AddVote toy_crypto toy_time add_error hvs (Some v) [3]) as [r| |] eqn:Ea; [|apply IH..].
  eapply rtc_l; [|apply IH]. by apply (@hcall_add toy_crypto toy_time hvs (Some v) [3] r); [intros ? [= <-]|].
Qed.

(** Prevotes for round 1 while the height is in round 0, and a vote for round 4. *)
Definition early_votes : list Vote :=
  [round_vote PrevoteType 1 1 sample_block_id; round_vote PrevoteType 1 3 sample_block_id;
   round_vote PrevoteType 1 4 sample_block_id; round_vote PrecommitType 4 1 sample_block_id].

Lemma early_votable : Forall (fun v => votable (v_BlockID v)) early_votes.
Proof. repeat (apply Forall_cons; split; [rewrite round_vote_block; apply sample_votable|]). constructor. Qed.

Lemma height_vote_set_sound_witness :
  let hvs := foldl add_vote new_height early_votes in
  size (hvs_roundVoteSets hvs) = 3%nat /\ hvs_peerCatchupRounds hvs !! [3] = Some [1; 4] /\
  forall r typ s, getVoteSet (E:=unit) hvs r typ = Ok (Some s) ->
     exists s0, NewVoteSet (E:=unit) [7] 5 r typ mixed_voters = Ok s0 /\ rtc (@vs_call toy_crypto toy_time) s0 s.
Proof.
  split; [vm_compute; reflexivity|]. split; [vm_compute; reflexivity|].
  apply (@height_vote_set_sound toy_crypto toy_time [7] 5 mixed_voters new_height); [reflexivity|].
  apply add_vote_calls, early_votable.
Defined.

Lemma height_add_vote_outcome_witness :
  let hvs := foldl add_vote new_height early_votes in
  let v := round_vote PrevoteType 2 1 sample_block_id in
  @add_outcome toy_crypto toy_time hvs [3] v (Ok (false, Some ErrGotVoteFromUnwantedRound, hvs)).
Proof.
  intros hvs v.
  assert (Hr : @HVS_AddVote toy_crypto toy_time add_error hvs (Some v) [3] =
    Ok (false, Some ErrGotVoteFromUnwantedRound, hvs)) by (vm_compute; reflexivity).
  rewrite <- Hr.
  apply (@height_add_vote_outcome toy_crypto toy_time [7] 5 mixed_voters new_height hvs v [3]); [reflexivity| |].
  - apply add_vote_calls, early_votable.
  - unfold v; rewrite round_vote_block. apply sample_votable.
Defined.

Lemma pol_info_exact_witness :
  let hvs := foldl add_vote new_height early_votes in
  exists hvs', SetRound (E:=add_error) 5 hvs 1 = Some (Ok hvs') /\
    exists r b, POLInfo (E:=unit) hvs' = Ok (r, b) /\ r = 1 /\
      @quorum_for toy_crypto toy_time [7] 5 r PrevoteType mixed_voters b.
Proof.
  intros hvs. eexists. split; [vm_compute; reflexivity|]. match goal with |- exists r b, POLInfo ?h = _ /\ _ => set (hvs' := h) end.
  destruct (@pol_info_exact toy_crypto toy_time [7] 5 mixed_voters new_height hvs' mixed_voters_wf eq_refl)
    as (r & b & Hp & _ & Hq & _).
  { eapply rtc_r; [apply (add_vote_calls _ early_votes early_votable)|].
    apply (hcall_round _ 5 1); [vm_compute; split; [discriminate|reflexivity]|vm_compute; reflexivity]. }
  exists r, b. split; [exact Hp|].
  assert (Hv : exists b0, POLInfo (E:=unit) hvs' = Ok (1, b0)) by (eexists; vm_compute; reflexivity).
  destruct Hv as [b0 Hv]. rewrite Hv in Hp. injection Hp as <- <-.
  destruct Hq as [[Habs _]|(_ & _ & Hq)]; [discriminate|]. split; [reflexivity|exact Hq].
Defined.

Lemma set_round_opens_minus_one_witness :
  exists hvs, SetRound (E:=unit) 4 new_height 1 = Some (Ok hvs) /\ is_Some (hvs_roundVoteSets hvs !! (-1)).
Proof.
  destruct (set_round_opens_minus_one [7] 5 mixed_voters new_height 1) as (hvs & Hs & _ & Hm);
    [reflexivity|vm_compute; split; [discriminate|reflexivity]|].
  exists hvs. split; [exact Hs|exact Hm].
Defined.
