(* ===== verification/HeightVotesInv.v ===== *)
(** * What is known of the votes of a height

    HeightVoteSet.v proves what calls build; here the invariant carries an
    arbitrary property [P] of the votes that were let in, for users that know
    more of a vote than its signature. *)

From Stdlib Require Import ZArith Lia.
From stdpp Require Import prelude list gmap.
From S2P Require Import Prelude Proto Crypto SafeMath Validator ValidatorSet Block VoterSet VerifyCommit Slots VoteSet VoteSetInv VoteSetProps HeightVoteSet.

Local Open Scope Z_scope.

(** The set of a round and type. *)
Definition set_of (hvs : HeightVoteSet) (r typ : Z) : option VoteSet :=
  rvs ← hvs_roundVoteSets hvs !! r;
  if typ =? PrevoteType then Some (rvs_Prevotes rvs) else if typ =? PrecommitType then Some (rvs_Precommits rvs) else None.

(** More than two thirds voted for a block. *)
Definition has_maj (hvs : HeightVoteSet) (r typ : Z) (b : BlockID) : Prop :=
  exists s, set_of hvs r typ = Some s /\ vs_maj23 s = Some b.

Definition majs_kept (hvs hvs' : HeightVoteSet) : Prop := forall r typ b, has_maj hvs r typ b -> has_maj hvs' r typ b.

#[global] Instance majs_kept_po : PreOrder majs_kept.
Proof. split; [by intros h r typ b|]. intros h1 h2 h3 H12 H23 r typ b H. auto. Qed.

Lemma getVoteSet_set_of {E} hvs r typ o : getVoteSet (E:=E) hvs r typ = Ok o -> o = set_of hvs r typ.
Proof.
  unfold getVoteSet, set_of. destruct (hvs_roundVoteSets hvs !! r) as [rvs|]; cbn; [|by intros [= <-]].
  destruct (typ =? PrevoteType); [by intros [= <-]|]. destruct (typ =? PrecommitType); [by intros [= <-]|done].
Qed.

Lemma majority_has_maj hvs r typ s b : set_of hvs r typ = Some s -> TwoThirdsMajority s = (b, true) -> has_maj hvs r typ b.
Proof. intros Hs Hm. exists s. split; [done|]. unfold TwoThirdsMajority in Hm. destruct (vs_maj23 s); congruence. Qed.

Section invariant.
  Context {crypto : CryptoLib} {codec : TimeCodec}.

(** What consensus does to the votes of a height; [recv] are the votes it is
    handed. *)
Inductive hv_move (recv : Vote -> Prop) (hvs : HeightVoteSet) : HeightVoteSet -> Prop :=
| mv_add {E} v peer r : recv v -> HVS_AddVote (E:=E) hvs (Some v) peer = Ok r -> hv_move recv hvs (snd r)
| mv_round {E} fuel round hvs' : SetRound (E:=E) fuel hvs round = Some (Ok hvs') -> hv_move recv hvs hvs'
| mv_any {E} round typ s b s' :
    getVoteSet (E:=E) hvs round typ = Ok (Some s) -> HasTwoThirdsAny (E:=E) s = Ok (b, s') ->
    hv_move recv hvs (put_set hvs round typ s')
| mv_peer round typ peer b hvs' : HVS_SetPeerMaj23 hvs round typ peer b = Ok hvs' -> hv_move recv hvs hvs'.

Section property.
  Context (P : bytes -> PubKey -> Vote -> Prop) (chainID : bytes) (height : Z) (vs : VoterSet).
  Context (Hwf : voters_wf vs).

Record set_ok (r typ : Z) (s : VoteSet) : Prop := {
  so_inv : vs_inv P s;
  so_chain : vs_chainID s = chainID;
  so_height : vs_height s = height;
  so_round : vs_round s = r;
  so_type : vs_signedMsgType s = typ;
  so_voters : Voters (vs_voterSet s) = Voters vs
}.

Record hv_ok (hvs : HeightVoteSet) : Prop := {
  ho_chain : hvs_chainID hvs = chainID;
  ho_height : hvs_height hvs = height;
  ho_voters : hvs_voterSet hvs = vs;
  ho_sets : forall r typ s, set_of hvs r typ = Some s -> set_ok r typ s
}.

Lemma new_set_ok {E} r typ s : NewVoteSet (E:=E) chainID height r typ vs = Ok s -> set_ok r typ s /\ vs_maj23 s = None.
Proof.
  intros Hn. destruct (new_set_inv P _ _ _ _ _ _ Hwf Hn) as [Hi Hm]. split; [|done].
  unfold NewVoteSet in Hn. destruct (height =? 0); [done|]. injection Hn as <-. by constructor.
Qed.

Lemma addRound_ok {E} hvs r hvs' :
  hv_ok hvs -> addRound (E:=E) hvs r = Ok hvs' -> hv_ok hvs' /\ majs_kept hvs hvs'.
Proof.
  intros [H1 H2 H3 H4] (Hnone & pv & pc & Hpv & Hpc & ->)%addRound_Ok. rewrite H1, H2, H3 in *.
  apply new_set_ok in Hpv as [Hpv _], Hpc as [Hpc _].
  assert (Hne : forall r' typ, r' <> r -> set_of (set_rounds hvs (<[r := mkRoundVoteSet pv pc]> (hvs_roundVoteSets hvs))) r' typ
    = set_of hvs r' typ) by (intros r' typ Hr'; unfold set_of; cbn; by rewrite lookup_insert_ne).
  split; [constructor; try done|].
  - intros r' typ s Hs. destruct (decide (r' = r)) as [->|Hr]; [|apply H4; by rewrite Hne in Hs].
    unfold set_of in Hs. cbn in Hs. rewrite lookup_insert_eq in Hs. cbn in Hs.
    destruct (Z.eqb_spec typ PrevoteType) as [->|]; [by injection Hs as <-|].
    destruct (Z.eqb_spec typ PrecommitType) as [->|]; [by injection Hs as <-|done].
  - intros r' typ b (s & Hs & Hm). exists s. split; [|done]. rewrite Hne; [done|]. intros ->.
    unfold set_of in Hs. by rewrite Hnone in Hs.
Qed.

Lemma set_of_put hvs r typ s s' r' typ' :
  set_of hvs r typ = Some s ->
  set_of (put_set hvs r typ s') r' typ' = if bool_decide (r' = r /\ typ' = typ) then Some s' else set_of hvs r' typ'.
Proof.
  unfold set_of, put_set. cbn [hvs_roundVoteSets set_rounds]. intros Hs. destruct (decide (r' = r)) as [->|Hr].
  2: { rewrite lookup_alter_ne by done. case_bool_decide; [naive_solver|done]. }
  rewrite lookup_alter_eq. destruct (hvs_roundVoteSets hvs !! r) as [rvs|]; [|done]. cbn in *.
  destruct (Z.eqb_spec typ PrevoteType) as [->|N1]; [|destruct (Z.eqb_spec typ PrecommitType) as [->|N2]; [|done]];
    destruct (Z.eqb_spec typ' PrevoteType) as [->|N3];
    try (destruct (Z.eqb_spec typ' PrecommitType) as [->|N4]); case_bool_decide; naive_solver.
Qed.

Lemma put_set_ok hvs r typ s s' :
  hv_ok hvs -> set_of hvs r typ = Some s -> set_ok r typ s' -> (forall b, vs_maj23 s = Some b -> vs_maj23 s' = Some b) ->
  hv_ok (put_set hvs r typ s') /\ majs_kept hvs (put_set hvs r typ s').
Proof.
  intros [H1 H2 H3 H4] Hs Hok Hm. split; [constructor; try done|].
  - intros r' typ' s0. rewrite (set_of_put _ _ _ _ _ _ _ Hs). case_bool_decide as Hd; [|by apply H4].
    destruct Hd as [-> ->]. by intros [= <-].
  - intros r' typ' b (s0 & Hs0 & Hb). unfold has_maj. rewrite (set_of_put _ _ _ _ _ _ _ Hs). case_bool_decide as Hd; [|by eauto].
    destruct Hd as [-> ->]. exists s'. split; [done|]. apply Hm. congruence.
Qed.

Lemma kept_ok r typ s s' : set_ok r typ s -> vs_inv P s' -> same_step s s' -> set_ok r typ s'.
Proof. intros [H1 H2 H3 H4 H5 H6] Hi [S1 S2 S3 S4 S5]. constructor; try done; congruence. Qed.

Lemma add_to_set_ok {E} hvs v os x :
  hv_ok hvs -> os = set_of hvs (v_Round v) (v_Type v) ->
  (forall pk, Vote_Verify chainID pk v = Ok tt -> P chainID pk v) -> add_to_set (E:=E) hvs v os = Ok x ->
  hv_ok (snd x) /\ majs_kept hvs (snd x).
Proof.
  intros Hok -> HP Hx. unfold add_to_set in Hx. destruct (set_of hvs (v_Round v) (v_Type v)) as [s|] eqn:Es; [|done].
  pose proof (ho_sets _ Hok _ _ _ Es) as Hs.
  destruct (addVote_inv (E:=E) P s (Some v) (fun v c pk => Vote_Verify c pk v) (so_inv _ _ _ Hs)) as [[Hp _]|(y & Hy & Hk & _)].
  { intros v' pk [= <-]. rewrite (so_chain _ _ _ Hs). apply HP. }
  - unfold AddVote in Hx. by rewrite Hp in Hx.
  - unfold AddVote in Hx. rewrite Hy in Hx. destruct y as [[added err] s']. cbn in Hx. injection Hx as <-. cbn [snd] in *.
    destruct Hk as [K1 K2 _ K4 _ _]. eapply put_set_ok; [done|exact Es|by eapply kept_ok|done].
Qed.

Lemma HVS_AddVote_ok {E} hvs v peer x :
  hv_ok hvs -> (forall pk, Vote_Verify chainID pk v = Ok tt -> P chainID pk v) ->
  HVS_AddVote (E:=E) hvs (Some v) peer = Ok x -> hv_ok (snd x) /\ majs_kept hvs (snd x).
Proof.
  intros Hok HP Hx. unfold HVS_AddVote in Hx. destruct (IsVoteTypeValid (v_Type v)); cbn [negb] in Hx; [|by injection Hx as <-].
  destruct (getVoteSet hvs (v_Round v) (v_Type v)) as [o| |] eqn:Eg; cbn in Hx; [|done|done].
  pose proof (getVoteSet_set_of _ _ _ _ Eg) as Ho. destruct o as [s|]; [by eapply add_to_set_ok|].
  destruct (lenZ _ <? 2); [|by injection Hx as <-].
  destruct (addRound hvs (v_Round v)) as [h1| |] eqn:Ea; cbn in Hx; [|done|done].
  destruct (addRound_ok _ _ _ Hok Ea) as [Hok1 Hk1].
  destruct (getVoteSet h1 (v_Round v) (v_Type v)) as [o1| |] eqn:Eg1; cbn in Hx; [|done|done].
  apply getVoteSet_set_of in Eg1.
  assert (Hc : forall m, hv_ok (set_catchup h1 m)) by (intros m; by destruct Hok1).
  destruct (add_to_set_ok _ _ _ _ (Hc _) Eg1 HP Hx) as [H1 H2]. split; [done|]. etrans; [exact Hk1|exact H2].
Qed.

Lemma add_rounds_ok {E} fuel : forall r round hvs hvs',
  hv_ok hvs -> add_rounds (E:=E) fuel r round hvs = Some (Ok hvs') -> hv_ok hvs' /\ majs_kept hvs hvs'.
Proof.
  induction fuel as [|fuel IH]; intros r round hvs hvs' Hok; [done|]. cbn [add_rounds].
  destruct (r <=? round); [|by intros [= <-]]. destruct (hvs_roundVoteSets hvs !! r); [by apply IH|].
  destruct (addRound hvs r) as [h1| |] eqn:Ea; [|done|done]. destruct (addRound_ok _ _ _ Hok Ea) as [Hok1 Hk1].
  intros [H1 H2]%IH; [|done]. split; [done|by etrans].
Qed.

Lemma SetRound_ok {E} fuel hvs round hvs' :
  hv_ok hvs -> SetRound (E:=E) fuel hvs round = Some (Ok hvs') -> hv_ok hvs' /\ majs_kept hvs hvs'.
Proof.
  intros Hok. unfold SetRound. destruct (SafeSubInt32 (hvs_round hvs) 1) as [nr| |]; [|done|done].
  destruct (_ && _); [done|]. destruct (add_rounds fuel nr round hvs) as [[h1| |]|] eqn:Ea; try done. intros [= <-].
  destruct (add_rounds_ok _ _ _ _ _ Hok Ea) as [[] Hk]. by split.
Qed.

Lemma hv_move_ok recv hvs hvs' :
  hv_ok hvs -> (forall v pk, recv v -> Vote_Verify chainID pk v = Ok tt -> P chainID pk v) -> hv_move recv hvs hvs' ->
  hv_ok hvs' /\ majs_kept hvs hvs'.
Proof.
  intros Hok HP Hmv. destruct Hmv as [E v peer r Hr Ha|E fuel round hvs' Hs|E round typ s b s' Hg Ha|round typ peer b hvs' Hp].
  - eapply HVS_AddVote_ok; [done| |exact Ha]. eauto.
  - by eapply SetRound_ok.
  - apply getVoteSet_set_of in Hg. symmetry in Hg. pose proof (ho_sets _ Hok _ _ _ Hg) as Hs.
    unfold HasTwoThirdsAny in Ha. rewrite TotalVotingWeight_spec in Ha by apply (so_inv _ _ _ Hs). cbn in Ha. injection Ha as _ <-.
    eapply put_set_ok; [done|exact Hg| |done]. eapply kept_ok; [exact Hs| |done].
    split; [apply voterSet_base, (so_inv _ _ _ Hs)|apply (so_inv _ _ _ Hs)].
  - unfold HVS_SetPeerMaj23 in Hp. destruct (IsVoteTypeValid typ); cbn [negb] in Hp; [|done].
    destruct (getVoteSet hvs round typ) as [o| |] eqn:Eg; cbn in Hp; [|done|done].
    apply getVoteSet_set_of in Eg. destruct o as [s|]; [|by injection Hp as <-].
    destruct (SetPeerMaj23 s peer b) as [s'| |] eqn:Es; [|done|done]. injection Hp as <-. symmetry in Eg.
    pose proof (ho_sets _ Hok _ _ _ Eg) as Hs.
    destruct (SetPeerMaj23_inv P s peer b s' (so_inv _ _ _ Hs) Es) as (Hi & Hst & Hm & _).
    eapply put_set_ok; [done|exact Eg|by eapply kept_ok|]. by rewrite Hm.
Qed.

Lemma new_height_ok {E} hvs : NewHeightVoteSet (E:=E) chainID height vs = Ok hvs -> hv_ok hvs.
Proof.
  unfold NewHeightVoteSet, HVS_Reset. destruct (addRound _ 0) as [h| |] eqn:Ea; cbn; [|done|done]. intros [= <-].
  apply addRound_ok in Ea as [[] _]; by constructor.
Qed.

End property.

Lemma hv_ok_mono (P Q : bytes -> PubKey -> Vote -> Prop) chainID height vs hvs :
  (forall c pk v, P c pk v -> Q c pk v) -> hv_ok P chainID height vs hvs -> hv_ok Q chainID height vs hvs.
Proof.
  intros HPQ [H1 H2 H3 H4]. constructor; try done. intros r typ s [G1 G2 G3 G4 G5 G6]%H4. constructor; try done.
  by eapply vs_inv_mono.
Qed.

(** A majority is backed by votes of distinct voters with more than two thirds
    of the weight, all for that block and all known to have [P]. *)
Lemma majority_votes (P : bytes -> PubKey -> Vote -> Prop) chainID height vs hvs r typ b :
  (forall c pk v, P c pk v -> verified c pk v) -> hv_ok P chainID height vs hvs -> has_maj hvs r typ b ->
  exists votes, length votes = length (Voters vs) /\
    2 * Zsum (weights (Voters vs)) < 3 * voted (Voters vs) votes /\
    forall (i : nat) v, votes !! i = Some (Some v) ->
      v_BlockID v = b /\ v_Height v = height /\ v_Round v = r /\ v_Type v = typ /\
      exists w pk, Voters vs !! i = Some w /\ vPubKey w = Some pk /\ P chainID pk v.
Proof.
  intros HP Hok (s & Hs & Em). destruct (ho_sets _ _ _ _ _ Hok _ _ _ Hs) as [Hi G2 G3 G4 G5 G6].
  pose proof (vs_inv_mono _ _ _ HP Hi) as Hiv. destruct (maj23_votes s b Hiv Em) as (bv & Hk & [B1 _ B3 _ _] & Hm & _ & Hv).
  pose proof (vi_block _ _ (proj1 Hi) _ _ Hk) as Hbi. exists (bv_votes bv). unfold majority in Hm. rewrite B3, G6 in Hm.
  split_and!; [congruence|done|]. intros i v Hiv'. destruct (Hv i v Hiv') as [_ Hb].
  destruct (bi_cast _ _ _ _ Hbi i v Hiv') as [(_ & C2 & C3 & C4 & w & pk & C5 & C6 & C7 & C8) _].
  split_and!; try congruence. exists w, pk. rewrite <- G6, <- G2. by split_and!.
Qed.

End invariant.
