(* ===== verification/Consensus.v ===== *)
(** * The consensus state machine: src/consensus/state.go

    [State] is driven by [receiveRoutine], one event at a time: a message of a
    peer or of the node itself, a timeout, or transactions in the mempool.  The
    handlers are the methods of [State], as computations on the node's state;
    [Panic] ends the routine.  A deferred call runs on a panic as well.

    Blocks, their execution and the block store are interfaces ([BlockLib],
    [Executor]); the file signer is that of PrivVal.v.  The queue of own messages
    and the timeouts are outputs: lists that grow, newest first.  Events,
    metrics, logs and the write-ahead log have no effect on the state but where
    they can fail, and there the [World] of the event says whether they do.
    [LockedBlockParts] and [ValidBlockParts] may share a part set with
    [ProposalBlockParts]; only the header of the first is read, which never
    changes, so each holds its own copy here. *)

From Stdlib Require Import ZArith Lia.
From stdpp Require Import prelude list gmap.
From S2P Require Import Prelude SafeMath Crypto Validator ValidatorSet Proto ProtoDecode Block VoterSet VoteSet HeightVoteSet PrivVal PartSet.

Local Open Scope Z_scope.
Local Open Scope go_scope.

(** ** Rounds *)

Definition RoundStepNewHeight : Z := 1.
Definition RoundStepNewRound : Z := 2.
Definition RoundStepPropose : Z := 3.
Definition RoundStepPrevote : Z := 4.
Definition RoundStepPrevoteWait : Z := 5.
Definition RoundStepPrecommit : Z := 6.
Definition RoundStepPrecommitWait : Z := 7.
Definition RoundStepCommit : Z := 8.

Definition RoundStep_IsValid (rs : Z) : bool := (1 <=? rs) && (rs <=? 8).

Definition CompareHRS (h1 r1 s1 h2 r2 s2 : Z) : Z :=
  if h1 <? h2 then -1 else if h2 <? h1 then 1
  else if r1 <? r2 then -1 else if r2 <? r1 then 1
  else if s1 <? s2 then -1 else if s2 <? s1 then 1
  else 0.

(** ** What consensus uses of blocks, of execution and of the block store *)

Class BlockLib := {
  Blk : Type;
  Block_Hash : Blk -> bytes;
  Block_Time : Blk -> Time;
  Block_Height : Blk -> Z;
  (** [proto.Unmarshal] and [BlockFromProto]. *)
  Block_decode : bytes -> option Blk;
  (** The fields of [sm.State] that consensus hands on without a look. *)
  sm_other : Type
}.

(** [Block.HashesTo] *)
Definition HashesTo `{BlockLib} (b : option Blk) (hash : bytes) : bool :=
  if bool_decide (hash = []) then false
  else match b with None => false | Some b => bytes_eqb (Block_Hash b) hash end.

(** The fields of [sm.State] consensus reads; [Validators] is nil when it is
    empty. *)
Record smState `{BlockLib} := mk_smState {
  sm_ChainID : bytes;
  sm_InitialHeight : Z;
  sm_LastBlockHeight : Z;
  sm_LastProofHash : bytes;
  sm_Validators : option ValidatorSet;
  sm_Voters : VoterSet;
  sm_LastVoters : VoterSet;
  sm_MaxBytes : Z;
  sm_TimeIotaMs : Z;
  sm_AppHash : bytes;
  sm_rest : sm_other
}.

Definition sm_IsEmpty `{BlockLib} (state : smState) : bool :=
  match sm_Validators state with Some _ => false | None => true end.

Class Executor `{BlockLib} := {
  ValidateBlock : smState -> Z -> Blk -> bool;
  ApplyBlock : smState -> BlockID -> Blk -> option smState;
  CreateProposalBlock : Z -> smState -> Commit -> bytes -> Z -> bytes -> option (Blk * PartSet);
  GenerateVRFProof : bytes -> option bytes;
  (** The public key of the signer. *)
  GetPubKey : option PubKey;
  Sign : bytes -> option bytes;
  (** [Header.AppHash] of the meta data of a height. *)
  LoadBlockMeta : Z -> option bytes;
  LoadSeenCommit : Z -> option Commit
}.

Record ConsensusConfig := mkConsensusConfig {
  cfg_CreateEmptyBlocks : bool;
  cfg_CreateEmptyBlocksInterval : Z;
  cfg_SkipTimeoutCommit : bool;
  cfg_TimeoutCommit : Z;
  cfg_DoubleSignCheckHeight : Z
}.

Definition WaitForTxs (cfg : ConsensusConfig) : bool :=
  negb (cfg_CreateEmptyBlocks cfg) || (0 <? cfg_CreateEmptyBlocksInterval cfg).

Definition config_Commit (cfg : ConsensusConfig) (t : Time) : Time := t + cfg_TimeoutCommit cfg.

(** ** The state *)

Section state.
  Context `{lib : BlockLib}.

(** A proposal and its block. *)
Record Proposed := mkProposed {
  rs_Proposal : option Proposal; rs_ProposalBlock : option Blk; rs_ProposalBlockParts : option PartSet
}.

(** [LockedRound], [LockedBlock] and [LockedBlockParts], or the valid ones. *)
Record Staged := mkStaged { st_Round : Z; st_Block : option Blk; st_Parts : option PartSet }.

Definition unset : Staged := mkStaged (-1) None None.

Definition zero_header : PartSetHeader := mkPartSetHeader 0 [].

Record RoundState := mkRoundState {
  rs_Height : Z;
  rs_Round : Z;
  rs_Step : Z;
  rs_StartTime : Time;
  rs_CommitTime : option Time;
  rs_Validators : option ValidatorSet;
  rs_Voters : VoterSet;
  rs_Proposer : option Validator;
  rs_Proposed : Proposed;
  rs_Locked : Staged;
  rs_Valid : Staged;
  rs_Votes : option HeightVoteSet;
  rs_CommitRound : Z;
  rs_LastCommit : option VoteSet;
  rs_LastVoters : VoterSet;
  rs_TriggeredTimeoutPrecommit : bool
}.

Inductive Message :=
| ProposalMessage (p : Proposal)
| BlockPartMessage (height round : Z) (part : option Part)
| VoteMessage (v : Vote).

(** The duration is left out: a timeout may fire at any time. *)
Record timeoutInfo := mkTimeoutInfo { ti_Height : Z; ti_Round : Z; ti_Step : Z }.

Record State := mkState {
  cs_rs : RoundState;
  cs_state : smState;
  cs_privValidator : option FilePV;
  cs_privValidatorPubKey : option PubKey;
  cs_storeHeight : Z;
  cs_internal : list Message;
  cs_timeouts : list timeoutInfo;
  cs_evidence : list (Vote * Vote);
  cs_saved : list (Blk * PartSetHeader * Commit)
}.

Inductive cs_error :=
| ErrInvalidProposalSignature | ErrInvalidProposalPOLRound | ErrAddingVote | ErrSignatureFoundInPastBlocks
| errPubKeyIsNotSet | ErrPublish | ErrLastCommit (e : add_error) | ErrVotes (e : hvs_error)
| ErrPart (e : part_set_error) | ErrTooManyBytes | ErrBlockDecode | ErrWAL | ErrPrivVal (e : pv_error).

Definition CM (A : Type) : Type := GoM State cs_error A.

(** *** Assignments to fields *)

Definition set_rs (cs : State) (rs : RoundState) : State :=
  mkState rs (cs_state cs) (cs_privValidator cs) (cs_privValidatorPubKey cs) (cs_storeHeight cs) (cs_internal cs)
    (cs_timeouts cs) (cs_evidence cs) (cs_saved cs).

Definition rs_modify (f : RoundState -> RoundState) : CM unit := gmodify (fun cs => set_rs cs (f (cs_rs cs))).

Definition rget : CM RoundState := cs ← gget; mret (cs_rs cs).

Definition updateRoundStep (round step : Z) : CM unit :=
  rs_modify (fun rs => mkRoundState (rs_Height rs) round step (rs_StartTime rs) (rs_CommitTime rs) (rs_Validators rs)
    (rs_Voters rs) (rs_Proposer rs) (rs_Proposed rs) (rs_Locked rs) (rs_Valid rs) (rs_Votes rs) (rs_CommitRound rs)
    (rs_LastCommit rs) (rs_LastVoters rs) (rs_TriggeredTimeoutPrecommit rs)).

Definition set_Validators (vals : option ValidatorSet) : CM unit :=
  rs_modify (fun rs => mkRoundState (rs_Height rs) (rs_Round rs) (rs_Step rs) (rs_StartTime rs) (rs_CommitTime rs) vals
    (rs_Voters rs) (rs_Proposer rs) (rs_Proposed rs) (rs_Locked rs) (rs_Valid rs) (rs_Votes rs) (rs_CommitRound rs)
    (rs_LastCommit rs) (rs_LastVoters rs) (rs_TriggeredTimeoutPrecommit rs)).

Definition set_Proposer (p : option Validator) : CM unit :=
  rs_modify (fun rs => mkRoundState (rs_Height rs) (rs_Round rs) (rs_Step rs) (rs_StartTime rs) (rs_CommitTime rs)
    (rs_Validators rs) (rs_Voters rs) p (rs_Proposed rs) (rs_Locked rs) (rs_Valid rs) (rs_Votes rs) (rs_CommitRound rs)
    (rs_LastCommit rs) (rs_LastVoters rs) (rs_TriggeredTimeoutPrecommit rs)).

Definition set_Proposed (p : Proposed) : CM unit :=
  rs_modify (fun rs => mkRoundState (rs_Height rs) (rs_Round rs) (rs_Step rs) (rs_StartTime rs) (rs_CommitTime rs)
    (rs_Validators rs) (rs_Voters rs) (rs_Proposer rs) p (rs_Locked rs) (rs_Valid rs) (rs_Votes rs) (rs_CommitRound rs)
    (rs_LastCommit rs) (rs_LastVoters rs) (rs_TriggeredTimeoutPrecommit rs)).

Definition set_Locked (l : Staged) : CM unit :=
  rs_modify (fun rs => mkRoundState (rs_Height rs) (rs_Round rs) (rs_Step rs) (rs_StartTime rs) (rs_CommitTime rs)
    (rs_Validators rs) (rs_Voters rs) (rs_Proposer rs) (rs_Proposed rs) l (rs_Valid rs) (rs_Votes rs) (rs_CommitRound rs)
    (rs_LastCommit rs) (rs_LastVoters rs) (rs_TriggeredTimeoutPrecommit rs)).

Definition set_Valid (l : Staged) : CM unit :=
  rs_modify (fun rs => mkRoundState (rs_Height rs) (rs_Round rs) (rs_Step rs) (rs_StartTime rs) (rs_CommitTime rs)
    (rs_Validators rs) (rs_Voters rs) (rs_Proposer rs) (rs_Proposed rs) (rs_Locked rs) l (rs_Votes rs) (rs_CommitRound rs)
    (rs_LastCommit rs) (rs_LastVoters rs) (rs_TriggeredTimeoutPrecommit rs)).

Definition set_Votes (v : HeightVoteSet) : CM unit :=
  rs_modify (fun rs => mkRoundState (rs_Height rs) (rs_Round rs) (rs_Step rs) (rs_StartTime rs) (rs_CommitTime rs)
    (rs_Validators rs) (rs_Voters rs) (rs_Proposer rs) (rs_Proposed rs) (rs_Locked rs) (rs_Valid rs) (Some v)
    (rs_CommitRound rs) (rs_LastCommit rs) (rs_LastVoters rs) (rs_TriggeredTimeoutPrecommit rs)).

Definition set_Commit (round : Z) (t : Time) : CM unit :=
  rs_modify (fun rs => mkRoundState (rs_Height rs) (rs_Round rs) (rs_Step rs) (rs_StartTime rs) (Some t)
    (rs_Validators rs) (rs_Voters rs) (rs_Proposer rs) (rs_Proposed rs) (rs_Locked rs) (rs_Valid rs) (rs_Votes rs)
    round (rs_LastCommit rs) (rs_LastVoters rs) (rs_TriggeredTimeoutPrecommit rs)).

Definition set_LastCommit (c : option VoteSet) : CM unit :=
  rs_modify (fun rs => mkRoundState (rs_Height rs) (rs_Round rs) (rs_Step rs) (rs_StartTime rs) (rs_CommitTime rs)
    (rs_Validators rs) (rs_Voters rs) (rs_Proposer rs) (rs_Proposed rs) (rs_Locked rs) (rs_Valid rs) (rs_Votes rs)
    (rs_CommitRound rs) c (rs_LastVoters rs) (rs_TriggeredTimeoutPrecommit rs)).

Definition set_Triggered (b : bool) : CM unit :=
  rs_modify (fun rs => mkRoundState (rs_Height rs) (rs_Round rs) (rs_Step rs) (rs_StartTime rs) (rs_CommitTime rs)
    (rs_Validators rs) (rs_Voters rs) (rs_Proposer rs) (rs_Proposed rs) (rs_Locked rs) (rs_Valid rs) (rs_Votes rs)
    (rs_CommitRound rs) (rs_LastCommit rs) (rs_LastVoters rs) b).

Definition sendInternalMessage (m : Message) : CM unit :=
  gmodify (fun cs => mkState (cs_rs cs) (cs_state cs) (cs_privValidator cs) (cs_privValidatorPubKey cs) (cs_storeHeight cs)
    (m :: cs_internal cs) (cs_timeouts cs) (cs_evidence cs) (cs_saved cs)).

Definition scheduleTimeout (height round step : Z) : CM unit :=
  gmodify (fun cs => mkState (cs_rs cs) (cs_state cs) (cs_privValidator cs) (cs_privValidatorPubKey cs) (cs_storeHeight cs)
    (cs_internal cs) (mkTimeoutInfo height round step :: cs_timeouts cs) (cs_evidence cs) (cs_saved cs)).

Definition scheduleRound0 : CM unit := rs ← rget; scheduleTimeout (rs_Height rs) 0 RoundStepNewHeight.

Definition ReportConflictingVotes (a b : Vote) : CM unit :=
  gmodify (fun cs => mkState (cs_rs cs) (cs_state cs) (cs_privValidator cs) (cs_privValidatorPubKey cs) (cs_storeHeight cs)
    (cs_internal cs) (cs_timeouts cs) ((a, b) :: cs_evidence cs) (cs_saved cs)).

Definition SaveBlock (block : Blk) (header : PartSetHeader) (seenCommit : Commit) : CM unit :=
  gmodify (fun cs => mkState (cs_rs cs) (cs_state cs) (cs_privValidator cs) (cs_privValidatorPubKey cs) (Block_Height block)
    (cs_internal cs) (cs_timeouts cs) (cs_evidence cs) ((block, header, seenCommit) :: cs_saved cs)).

Definition set_signer (pv : option FilePV) (key : option PubKey) : CM unit :=
  gmodify (fun cs => mkState (cs_rs cs) (cs_state cs) pv key (cs_storeHeight cs)
    (cs_internal cs) (cs_timeouts cs) (cs_evidence cs) (cs_saved cs)).

(** A body with a deferred call. *)
Definition deferred {A} (body : CM A) (after : CM unit) : CM A := fun cs =>
  let '(r, cs) := body cs in
  let '(r', cs) := after cs in
  (match r, r' with
   | Panic, _ => Panic
   | _, Panic => Panic
   | _, _ => r
   end, cs).

(** A call whose error is looked at. *)
Definition attempt {A} (m : CM A) : CM (cs_error + A) := fun cs =>
  match m cs with
  | (Ok a, cs) => (Ok (inr a), cs)
  | (Err e, cs) => (Ok (inl e), cs)
  | (Panic, cs) => (Panic, cs)
  end.

(** *** Queries; a nil pointer to a vote set answers no *)

Definition get_Votes : CM HeightVoteSet :=
  rs ← rget; match rs_Votes rs with Some v => mret v | None => gpanic end.

Definition has_majority (s : option VoteSet) : bool := match s with Some s => HasTwoThirdsMajority s | None => false end.

Definition the_majority (s : option VoteSet) : BlockID * bool :=
  match s with Some s => TwoThirdsMajority s | None => (zero_BlockID, false) end.

(** [HasTwoThirdsAny] of the set of a round, which may cache the total. *)
Definition has_any (round typ : Z) : CM bool :=
  votes ← get_Votes;
  o ← glift (getVoteSet votes round typ);
  match o with
  | None => mret false
  | Some s => '(b, s) ← glift (HasTwoThirdsAny s); set_Votes (put_set votes round typ s);; mret b
  end.

(** [HasAll] of a set that is not asked again; the total it caches is dropped. *)
Definition has_all (s : option VoteSet) : CM bool :=
  match s with None => mret false | Some s => '(b, _) ← glift (HasAll s); mret b end.

End state.

(** ** The machine

    What an event finds outside: the clock, and whether the writes and the
    publications it makes succeed.  A vote is signed at most once per height,
    round and type, so these index what happens when it is. *)

Record World := mkWorld {
  w_now : Time;
  w_sign : Z -> Z -> Z -> Time * bool * bool;
  w_wal : bool;
  w_publish_vote : bool;
  w_publish_unlock : bool;
  w_publish_valid : bool
}.

Section machine.
  Context {crypto : CryptoLib} {codec : TimeCodec} {decoder : TimeDecoder} {lib : BlockLib} {exec : Executor}.
  Context (config : ConsensusConfig) (w : World).

Definition reconstructLastCommit (state : smState) : CM unit :=
  match LoadSeenCommit (sm_LastBlockHeight state) with
  | None => gpanic
  | Some seenCommit =>
      lastPrecommits ← glift (CommitToVoteSet (sm_ChainID state) seenCommit (sm_LastVoters state));
      if negb (HasTwoThirdsMajority lastPrecommits) then gpanic else set_LastCommit (Some lastPrecommits)
  end.

(** The switch of [updateToState]: the commit for the block of the last height. *)
Definition next_LastCommit (rs : RoundState) (state : smState) : CM (option VoteSet) :=
  if sm_LastBlockHeight state =? 0 then mret None
  else match rs_Votes rs with
       | Some votes =>
           if -1 <? rs_CommitRound rs then
             precommits ← glift (Precommits votes (rs_CommitRound rs));
             if negb (has_majority precommits) then gpanic else mret precommits
           else match rs_LastCommit rs with None => gpanic | c => mret c end
       | None => match rs_LastCommit rs with None => gpanic | c => mret c end
       end.

Definition updateToState (state : smState) : CM unit :=
  cs ← gget;
  let rs := cs_rs cs in
  let old := cs_state cs in
  if (-1 <? rs_CommitRound rs) && (0 <? rs_Height rs) && negb (rs_Height rs =? sm_LastBlockHeight state) then gpanic
  else if negb (sm_IsEmpty old) && (0 <? sm_LastBlockHeight old) && negb (sm_LastBlockHeight old +i64 1 =? rs_Height rs)
  then gpanic
  else if negb (sm_IsEmpty old) && (0 <? sm_LastBlockHeight old) && (rs_Height rs =? sm_InitialHeight old) then gpanic
  else if negb (sm_IsEmpty old) && (sm_LastBlockHeight state <=? sm_LastBlockHeight old) then mret tt
  else
    lastCommit ← next_LastCommit rs state;
    let next := sm_LastBlockHeight state +i64 1 in
    let height := if next =? 1 then sm_InitialHeight state else next in
    let startTime := config_Commit config (default (w_now w) (rs_CommitTime rs)) in
    votes ← glift (NewHeightVoteSet (sm_ChainID state) height (sm_Voters state));
    gmodify (fun cs =>
      mkState (mkRoundState height 0 RoundStepNewHeight startTime (rs_CommitTime rs) (sm_Validators state)
                 (sm_Voters state) (rs_Proposer rs) (mkProposed None None None) unset unset (Some votes) (-1) lastCommit
                 (sm_LastVoters state) false)
        state (cs_privValidator cs) (cs_privValidatorPubKey cs) (cs_storeHeight cs) (cs_internal cs) (cs_timeouts cs)
        (cs_evidence cs) (cs_saved cs)).

(** *** Votes *)

Definition voteTime (cs : State) (now : Time) : Time :=
  let rs := cs_rs cs in
  let timeIota := (sm_TimeIotaMs (cs_state cs) *i64 1000000) in
  let minVoteTime :=
    match st_Block (rs_Locked rs), rs_ProposalBlock (rs_Proposed rs) with
    | Some b, _ => Block_Time b + timeIota
    | None, Some b => Block_Time b + timeIota
    | None, None => now
    end in
  if minVoteTime <? now then now else minVoteTime.

(** [w_sign] says when the vote is made and whether the flush of the log and
    the write of the signer succeed; an error of the flush comes first. *)
Definition signVote (msgType : Z) (hash : bytes) (header : PartSetHeader) : CM Vote :=
  cs ← gget;
  let rs := cs_rs cs in
  let '(now, flushed, written) := w_sign w (rs_Height rs) (rs_Round rs) msgType in
  if negb flushed then gfail ErrWAL
  else match cs_privValidatorPubKey cs, cs_privValidator cs with
       | None, _ => gfail errPubKeyIsNotSet
       | _, None => gpanic
       | Some key, Some pv =>
           addr ← glift (PubKey_Address key);
           let '(valIdx, _) := Voters_GetByAddress (rs_Voters rs) addr in
           let vote := mkVote msgType (rs_Height rs) (rs_Round rs) (mkBlockID hash header) (voteTime cs now) addr valIdx None in
           let '(r, pv) := PrivVal.signVote Sign now written (sm_ChainID (cs_state cs)) vote pv in
           set_signer (Some pv) (Some key);;
           match r with Ok v => mret v | Err e => gfail (ErrPrivVal e) | Panic => gpanic end
       end.

Definition signAddVote (msgType : Z) (hash : bytes) (header : PartSetHeader) : CM unit :=
  cs ← gget;
  match cs_privValidator cs, cs_privValidatorPubKey cs with
  | Some _, Some key =>
      addr ← glift (PubKey_Address key);
      if negb (Voters_HasAddress (rs_Voters (cs_rs cs)) addr) then mret tt
      else
        r ← attempt (signVote msgType hash header);
        match r with inr vote => sendInternalMessage (VoteMessage vote) | inl _ => mret tt end
  | _, _ => mret tt
  end.

(** *** The steps of a round *)

Definition isProposalComplete : CM bool :=
  rs ← rget;
  match rs_Proposal (rs_Proposed rs), rs_ProposalBlock (rs_Proposed rs) with
  | Some proposal, Some _ =>
      if p_POLRound proposal <? 0 then mret true
      else votes ← get_Votes; prevotes ← glift (Prevotes votes (p_POLRound proposal)); mret (has_majority prevotes)
  | _, _ => mret false
  end.

Definition defaultDoPrevote (height round : Z) : CM unit :=
  cs ← gget;
  let rs := cs_rs cs in
  match st_Block (rs_Locked rs) with
  | Some b => signAddVote PrevoteType (Block_Hash b) (PartSet_Header (st_Parts (rs_Locked rs)))
  | None =>
      match rs_ProposalBlock (rs_Proposed rs) with
      | None => signAddVote PrevoteType [] zero_header
      | Some b =>
          if negb (ValidateBlock (cs_state cs) round b) then signAddVote PrevoteType [] zero_header
          else signAddVote PrevoteType (Block_Hash b) (PartSet_Header (rs_ProposalBlockParts (rs_Proposed rs)))
      end
  end.

Definition enterPrevote (height round : Z) : CM unit :=
  rs ← rget;
  if negb (rs_Height rs =? height) || (round <? rs_Round rs) ||
     ((rs_Round rs =? round) && (RoundStepPrevote <=? rs_Step rs)) then mret tt
  else deferred (defaultDoPrevote height round) (updateRoundStep round RoundStepPrevote).

Definition createProposalBlock (round : Z) : CM (option (Blk * PartSet)) :=
  cs ← gget;
  let rs := cs_rs cs in
  let with_commit (commit : Commit) : CM (option (Blk * PartSet)) :=
    match cs_privValidatorPubKey cs with
    | None => mret None
    | Some key =>
        proposerAddr ← glift (PubKey_Address key);
        let message := MakeRoundHash (sm_LastProofHash (cs_state cs)) (sm_LastBlockHeight (cs_state cs)) round in
        match GenerateVRFProof message with
        | None => mret None
        | Some proof => mret (CreateProposalBlock (rs_Height rs) (cs_state cs) commit proposerAddr round proof)
        end
    end in
  match cs_privValidator cs with
  | None => gpanic
  | Some _ =>
      if rs_Height rs =? sm_InitialHeight (cs_state cs) then with_commit (NewCommit 0 0 zero_BlockID [])
      else match rs_LastCommit rs with
           | Some lastCommit =>
               if HasTwoThirdsMajority lastCommit then commit ← glift (MakeCommit lastCommit); with_commit commit
               else mret None
           | None => mret None
           end
  end.

(** [n] parts are left to send, the next is [i]. *)
Fixpoint send_parts (n : nat) (i : Z) (parts : PartSet) : CM unit :=
  match n with
  | O => mret tt
  | S n =>
      rs ← rget;
      part ← glift (GetPart parts i);
      sendInternalMessage (BlockPartMessage (rs_Height rs) (rs_Round rs) part);;
      send_parts n (i + 1) parts
  end.

(** A nil part set has the zero header and no parts; only the signature is copied from the message the signer returns. *)
Definition propose_block (height round : Z) (block : Blk) (blockParts : option PartSet) : CM unit :=
  cs ← gget;
  let '(now, _, written) := w_sign w height round ProposalType in
  let propBlockID := mkBlockID (Block_Hash block) (PartSet_Header blockParts) in
  let proposal := NewProposal now height round (st_Round (rs_Valid (cs_rs cs))) propBlockID in
  match cs_privValidator cs with
  | None => gpanic
  | Some pv =>
      let '(r, pv) := signProposal Sign now written (sm_ChainID (cs_state cs)) proposal pv in
      set_signer (Some pv) (cs_privValidatorPubKey cs);;
      match r with
      | Ok p =>
          sendInternalMessage (ProposalMessage (proposal_set_signature proposal (p_Signature p)));;
          match blockParts with None => mret tt | Some ps => send_parts (Z.to_nat (ps_total ps)) 0 ps end
      | Err _ => mret tt
      | Panic => gpanic
      end
  end.

Definition defaultDecideProposal (height round : Z) : CM unit :=
  cs ← gget;
  match st_Block (rs_Valid (cs_rs cs)) with
  | Some block => propose_block height round block (st_Parts (rs_Valid (cs_rs cs)))
  | None =>
      r ← createProposalBlock round;
      match r with None => mret tt | Some (block, blockParts) => propose_block height round block (Some blockParts) end
  end.

Definition isProposer (rs : RoundState) (address : bytes) : CM bool :=
  match rs_Proposer rs with None => gpanic | Some p => mret (bytes_eqb (Address p) address) end.

Definition enterPropose (height round : Z) : CM unit :=
  rs ← rget;
  if negb (rs_Height rs =? height) || (round <? rs_Round rs) ||
     ((rs_Round rs =? round) && (RoundStepPropose <=? rs_Step rs)) then mret tt
  else
    deferred
      (scheduleTimeout height round RoundStepPropose;;
       cs ← gget;
       match cs_privValidator cs, cs_privValidatorPubKey cs with
       | Some _, Some key =>
           address ← glift (PubKey_Address key);
           mine ← isProposer (cs_rs cs) address;
           if mine : bool then defaultDecideProposal height round else mret tt
       | _, _ => mret tt
       end)
      (updateRoundStep round RoundStepPropose;;
       complete ← isProposalComplete;
       if complete : bool then rs ← rget; enterPrevote height (rs_Round rs) else mret tt).

Definition needProofBlock (height : Z) : CM bool :=
  cs ← gget;
  if height =? sm_InitialHeight (cs_state cs) then mret true
  else match LoadBlockMeta (height -i64 1) with
       | None => gpanic
       | Some appHash => mret (negb (bytes_eqb (sm_AppHash (cs_state cs)) appHash))
       end.

(** [SetRound]; a loop that never ends does not come back to the caller. *)
Definition votes_SetRound (round : Z) : CM unit :=
  votes ← get_Votes;
  match SetRound (Z.to_nat (round - hvs_round votes + 3)) votes round with
  | Some r => votes ← glift r; set_Votes votes
  | None => gpanic
  end.

Definition enterNewRound (height round : Z) : CM unit :=
  cs ← gget;
  let rs := cs_rs cs in
  if negb (rs_Height rs =? height) || (round <? rs_Round rs) ||
     ((rs_Round rs =? round) && negb (rs_Step rs =? RoundStepNewHeight)) then mret tt
  else match rs_Validators rs with
       | None => gpanic
       | Some vals =>
           '(proposer, vals) ← glift (SelectProposer vals (sm_LastProofHash (cs_state cs)) height round);
           set_Validators (Some vals);;
           set_Proposer (Some proposer);;
           updateRoundStep round RoundStepNewRound;;
           (if round =? 0 then mret tt else set_Proposed (mkProposed None None None));;
           next ← glift (SafeAddInt32 round 1);
           votes_SetRound next;;
           set_Triggered false;;
           waitForTxs ← (if WaitForTxs config && (round =? 0) then need ← needProofBlock height; mret (negb need) else mret false);
           if waitForTxs : bool then
             if 0 <? cfg_CreateEmptyBlocksInterval config then scheduleTimeout height round RoundStepNewRound else mret tt
           else enterPropose height round
       end.

Definition enterPrevoteWait (height round : Z) : CM unit :=
  rs ← rget;
  if negb (rs_Height rs =? height) || (round <? rs_Round rs) ||
     ((rs_Round rs =? round) && (RoundStepPrevoteWait <=? rs_Step rs)) then mret tt
  else
    any ← has_any round PrevoteType;
    if negb any then gpanic
    else deferred (scheduleTimeout height round RoundStepPrevoteWait) (updateRoundStep round RoundStepPrevoteWait).

(** A polka for a block the node does not have. *)
Definition precommit_unknown (p : Proposed) (blockID : BlockID) : CM unit :=
  set_Locked unset;;
  (if negb (HasHeader (rs_ProposalBlockParts p) (bid_PartSetHeader blockID)) then
     set_Proposed (mkProposed (rs_Proposal p) None (Some (NewPartSetFromHeader (bid_PartSetHeader blockID))))
   else mret tt);;
  signAddVote PrecommitType [] zero_header.

(** The body of [enterPrecommit]. *)
Definition do_precommit (height round : Z) : CM unit :=
  cs ← gget;
  let rs := cs_rs cs in
  votes ← get_Votes;
  prevotes ← glift (Prevotes votes round);
  let '(blockID, ok) := the_majority prevotes in
  if negb ok then signAddVote PrecommitType [] zero_header
  else
    '(polRound, _) ← glift (POLInfo votes);
    if polRound <? round then gpanic
    else if bool_decide (bid_Hash blockID = []) then
      (match st_Block (rs_Locked rs) with None => mret tt | Some _ => set_Locked unset end);;
      signAddVote PrecommitType [] zero_header
    else if HashesTo (st_Block (rs_Locked rs)) (bid_Hash blockID) then
      set_Locked (mkStaged round (st_Block (rs_Locked rs)) (st_Parts (rs_Locked rs)));;
      signAddVote PrecommitType (bid_Hash blockID) (bid_PartSetHeader blockID)
    else
      let p := rs_Proposed rs in
      match rs_ProposalBlock p with
      | Some b =>
          if HashesTo (Some b) (bid_Hash blockID) then
            if negb (ValidateBlock (cs_state cs) round b) then gpanic
            else
              set_Locked (mkStaged round (Some b) (rs_ProposalBlockParts p));;
              signAddVote PrecommitType (bid_Hash blockID) (bid_PartSetHeader blockID)
          else precommit_unknown p blockID
      | None => precommit_unknown p blockID
      end.

Definition enterPrecommit (height round : Z) : CM unit :=
  rs ← rget;
  if negb (rs_Height rs =? height) || (round <? rs_Round rs) ||
     ((rs_Round rs =? round) && (RoundStepPrecommit <=? rs_Step rs)) then mret tt
  else deferred (do_precommit height round) (updateRoundStep round RoundStepPrecommit).

Definition enterPrecommitWait (height round : Z) : CM unit :=
  rs ← rget;
  if negb (rs_Height rs =? height) || (round <? rs_Round rs) ||
     ((rs_Round rs =? round) && rs_TriggeredTimeoutPrecommit rs) then mret tt
  else
    any ← has_any round PrecommitType;
    if negb any then gpanic
    else deferred (scheduleTimeout height round RoundStepPrecommitWait) (set_Triggered true).

(** *** Committing a block *)

Definition updatePrivValidatorPubKey : CM unit :=
  cs ← gget;
  match cs_privValidator cs, GetPubKey with
  | Some pv, Some key => set_signer (Some pv) (Some key)
  | _, _ => mret tt
  end.

(** The metrics and the pruning of old blocks are left out. *)
Definition finalizeCommit (height : Z) : CM unit :=
  cs ← gget;
  let rs := cs_rs cs in
  if negb (rs_Height rs =? height) || negb (rs_Step rs =? RoundStepCommit) then mret tt
  else
    votes ← get_Votes;
    precommits ← glift (Precommits votes (rs_CommitRound rs));
    let '(blockID, ok) := the_majority precommits in
    let p := rs_Proposed rs in
    if negb ok then gpanic
    else if negb (HasHeader (rs_ProposalBlockParts p) (bid_PartSetHeader blockID)) then gpanic
    else if negb (HashesTo (rs_ProposalBlock p) (bid_Hash blockID)) then gpanic
    else match rs_ProposalBlock p, precommits with
         | Some block, Some set =>
             if negb (ValidateBlock (cs_state cs) (rs_CommitRound rs) block) then gpanic
             else
               (if cs_storeHeight cs <? Block_Height block then
                  seenCommit ← glift (MakeCommit set);
                  SaveBlock block (PartSet_Header (rs_ProposalBlockParts p)) seenCommit
                else mret tt);;
               if negb (w_wal w) then gpanic
               else match ApplyBlock (cs_state cs) (mkBlockID (Block_Hash block) (PartSet_Header (rs_ProposalBlockParts p))) block with
                    | None => mret tt
                    | Some state =>
                        updateToState state;;
                        updatePrivValidatorPubKey;;
                        scheduleRound0
                    end
         | _, _ => gpanic
         end.

Definition tryFinalizeCommit (height : Z) : CM unit :=
  rs ← rget;
  if negb (rs_Height rs =? height) then gpanic
  else
    votes ← get_Votes;
    precommits ← glift (Precommits votes (rs_CommitRound rs));
    let '(blockID, ok) := the_majority precommits in
    if negb ok || bool_decide (bid_Hash blockID = []) then mret tt
    else if negb (HashesTo (rs_ProposalBlock (rs_Proposed rs)) (bid_Hash blockID)) then mret tt
    else finalizeCommit height.

(** The body of [enterCommit]. *)
Definition do_commit (commitRound : Z) : CM unit :=
  rs ← rget;
  votes ← get_Votes;
  precommits ← glift (Precommits votes commitRound);
  let '(blockID, ok) := the_majority precommits in
  if negb ok then gpanic
  else
    let p := rs_Proposed rs in
    let p := if HashesTo (st_Block (rs_Locked rs)) (bid_Hash blockID)
             then mkProposed (rs_Proposal p) (st_Block (rs_Locked rs)) (st_Parts (rs_Locked rs)) else p in
    let p := if negb (HashesTo (rs_ProposalBlock p) (bid_Hash blockID)) &&
                negb (HasHeader (rs_ProposalBlockParts p) (bid_PartSetHeader blockID))
             then mkProposed (rs_Proposal p) None (Some (NewPartSetFromHeader (bid_PartSetHeader blockID))) else p in
    set_Proposed p.

Definition enterCommit (height commitRound : Z) : CM unit :=
  rs ← rget;
  if negb (rs_Height rs =? height) || (RoundStepCommit <=? rs_Step rs) then mret tt
  else
    deferred (do_commit commitRound)
      (rs ← rget;
       updateRoundStep (rs_Round rs) RoundStepCommit;;
       set_Commit commitRound (w_now w);;
       tryFinalizeCommit height).

(** *** Messages *)

(** A failed signature is logged with the address of [cs.Proposer]. *)
Definition defaultSetProposal (proposal : Proposal) : CM unit :=
  cs ← gget;
  let rs := cs_rs cs in
  let p := rs_Proposed rs in
  match rs_Proposal p with
  | Some _ => mret tt
  | None =>
      if negb (p_Height proposal =? rs_Height rs) || negb (p_Round proposal =? rs_Round rs) then mret tt
      else if (p_POLRound proposal <? -1) || ((0 <=? p_POLRound proposal) && (p_Round proposal <=? p_POLRound proposal))
      then gfail ErrInvalidProposalPOLRound
      else match rs_Validators rs with
           | None => gpanic
           | Some vals =>
               '(proposer, vals) ← glift (SelectProposer vals (sm_LastProofHash (cs_state cs)) (p_Height proposal) (p_Round proposal));
               set_Validators (Some vals);;
               msg ← glift (ProposalSignBytes (sm_ChainID (cs_state cs)) proposal);
               match vPubKey proposer with
               | None => gpanic
               | Some key =>
                   if negb (VerifySignature key msg (sig_bytes (p_Signature proposal))) then
                     match rs_Proposer rs with None => gpanic | Some _ => gfail ErrInvalidProposalSignature end
                   else
                     set_Proposed (mkProposed (Some proposal) (rs_ProposalBlock p)
                       (match rs_ProposalBlockParts p with
                        | None => Some (NewPartSetFromHeader (bid_PartSetHeader (p_BlockID proposal)))
                        | ps => ps
                        end))
               end
           end
  end.

(** [io.ReadAll] of the reader; the buffer sizes do not matter. *)
Definition read_parts (ps : PartSet) : outcome cs_error bytes :=
  psr ← GetReader ps;
  match ReadAll (S (Z.to_nat (ps_byteSize ps) + 2 * length (ps_parts ps))) (fun _ => 512%nat) 0 psr with
  | Some r => r
  | None => Panic
  end.

(** The parts are complete: the block is decoded. *)
Definition decode_parts (ps : PartSet) : CM (option cs_error) :=
  bz ← glift (read_parts ps);
  match Block_decode bz with
  | None => mret (Some ErrBlockDecode)
  | Some block =>
      rs ← rget;
      let p := rs_Proposed rs in
      set_Proposed (mkProposed (rs_Proposal p) (Some block) (rs_ProposalBlockParts p));;
      mret None
  end.

Definition addProposalBlockPart (height round : Z) (part : option Part) : CM (bool * option cs_error) :=
  cs ← gget;
  let rs := cs_rs cs in
  let p := rs_Proposed rs in
  if negb (rs_Height rs =? height) then mret (false, None)
  else match part, rs_ProposalBlockParts p with
       | None, _ => gpanic
       | Some _, None => mret (false, None)
       | Some part, Some ps =>
           match AddPart part (Some ps) with
           | (Panic, _) => gpanic
           | (Err e, ps) =>
               set_Proposed (mkProposed (rs_Proposal p) (rs_ProposalBlock p) ps);;
               mret (false, Some (ErrPart e))
           | (Ok added, ps) =>
               set_Proposed (mkProposed (rs_Proposal p) (rs_ProposalBlock p) ps);;
               if sm_MaxBytes (cs_state cs) <? ByteSize ps then mret (added, Some ErrTooManyBytes)
               else match ps with
                    | Some ps =>
                        if added && IsComplete ps then err ← decode_parts ps; mret (added, err) else mret (added, None)
                    | None => gpanic
                    end
           end
       end.

Definition handleCompleteProposal (blockHeight : Z) : CM unit :=
  rs ← rget;
  let p := rs_Proposed rs in
  votes ← get_Votes;
  prevotes ← glift (Prevotes votes (rs_Round rs));
  let '(blockID, hasTwoThirds) := the_majority prevotes in
  (if hasTwoThirds && negb (BlockID_IsZero blockID) && (st_Round (rs_Valid rs) <? rs_Round rs) &&
      HashesTo (rs_ProposalBlock p) (bid_Hash blockID)
   then set_Valid (mkStaged (rs_Round rs) (rs_ProposalBlock p) (rs_ProposalBlockParts p)) else mret tt);;
  complete ← (if rs_Step rs <=? RoundStepPropose then isProposalComplete else mret false);
  if complete : bool then
    enterPrevote blockHeight (rs_Round rs);;
    if hasTwoThirds : bool then rs ← rget; enterPrecommit blockHeight (rs_Round rs) else mret tt
  else if rs_Step rs =? RoundStepCommit then tryFinalizeCommit blockHeight
  else mret tt.

(** A precommit for the last height; a nil [LastCommit] panics. *)
Definition add_last_precommit (vote : Vote) : CM (bool * option cs_error) :=
  rs ← rget;
  if negb (rs_Step rs =? RoundStepNewHeight) then mret (false, None)
  else match rs_LastCommit rs with
       | None => gpanic
       | Some lastCommit =>
           '(added, err, lastCommit) ← glift (AddVote lastCommit (Some vote));
           set_LastCommit (Some lastCommit);;
           let err := option_map ErrLastCommit err in
           if negb added then mret (false, err)
           else if negb (w_publish_vote w) then mret (added, Some ErrPublish)
           else
             all ← (if cfg_SkipTimeoutCommit config then has_all (Some lastCommit) else mret false);
             (if all : bool then enterNewRound (rs_Height rs) 0 else mret tt);;
             mret (added, err)
       end.

(** A majority of prevotes in the round of a vote: unlocking and the valid
    block; whether every publication succeeded. *)
Definition on_polka (voteRound : Z) (blockID : BlockID) : CM bool :=
  rs ← rget;
  let unlock := match st_Block (rs_Locked rs) with
                | Some b => (st_Round (rs_Locked rs) <? voteRound) && (voteRound <=? rs_Round rs) &&
                            negb (HashesTo (Some b) (bid_Hash blockID))
                | None => false
                end in
  (if unlock then set_Locked unset else mret tt);;
  if unlock && negb (w_publish_unlock w) then mret false
  else if negb (bool_decide (bid_Hash blockID = [])) && (st_Round (rs_Valid rs) <? voteRound) && (voteRound =? rs_Round rs)
  then
    let p := rs_Proposed rs in
    let known := HashesTo (rs_ProposalBlock p) (bid_Hash blockID) in
    (if known then set_Valid (mkStaged voteRound (rs_ProposalBlock p) (rs_ProposalBlockParts p)) else mret tt);;
    set_Proposed (mkProposed (rs_Proposal p) (if known then rs_ProposalBlock p else None)
      (if HasHeader (rs_ProposalBlockParts p) (bid_PartSetHeader blockID) then rs_ProposalBlockParts p
       else Some (NewPartSetFromHeader (bid_PartSetHeader blockID))));;
    mret (w_publish_valid w)
  else mret true.

(** The steps a prevote can lead to. *)
Definition after_prevote (height voteRound : Z) (blockID : BlockID) (ok : bool) : CM unit :=
  rs ← rget;
  ahead ← (if rs_Round rs <? voteRound then has_any voteRound PrevoteType else mret false);
  if ahead : bool then enterNewRound height voteRound
  else if (rs_Round rs =? voteRound) && (RoundStepPrevote <=? rs_Step rs) then
    complete ← (if ok then isProposalComplete else mret false);
    if ok && (complete || bool_decide (bid_Hash blockID = [])) then enterPrecommit height voteRound
    else any ← has_any voteRound PrevoteType; if any : bool then enterPrevoteWait height voteRound else mret tt
  else match rs_Proposal (rs_Proposed rs) with
       | Some proposal =>
           if (0 <=? p_POLRound proposal) && (p_POLRound proposal =? voteRound) then
             complete ← isProposalComplete;
             if complete : bool then rs ← rget; enterPrevote height (rs_Round rs) else mret tt
           else mret tt
       | None => mret tt
       end.

(** The steps a precommit can lead to. *)
Definition after_precommit (height voteRound : Z) : CM unit :=
  votes ← get_Votes;
  precommits ← glift (Precommits votes voteRound);
  let '(blockID, ok) := the_majority precommits in
  if ok : bool then
    enterNewRound height voteRound;;
    enterPrecommit height voteRound;;
    if negb (bool_decide (bid_Hash blockID = [])) then
      enterCommit height voteRound;;
      all ← (if cfg_SkipTimeoutCommit config then has_all precommits else mret false);
      if all : bool then rs ← rget; enterNewRound (rs_Height rs) 0 else mret tt
    else enterPrecommitWait height voteRound
  else
    rs ← rget;
    any ← (if rs_Round rs <=? voteRound then has_any voteRound PrecommitType else mret false);
    if any : bool then enterNewRound height voteRound;; enterPrecommitWait height voteRound else mret tt.

Definition addVote (vote : Vote) (peerID : bytes) : CM (bool * option cs_error) :=
  rs ← rget;
  if (v_Height vote +i64 1 =? rs_Height rs) && (v_Type vote =? PrecommitType) then add_last_precommit vote
  else if negb (v_Height vote =? rs_Height rs) then mret (false, None)
  else
    votes ← get_Votes;
    '(added, err, votes) ← glift (HVS_AddVote votes (Some vote) peerID);
    set_Votes votes;;
    let err := option_map ErrVotes err in
    if negb added then mret (false, err)
    else if negb (w_publish_vote w) then mret (added, Some ErrPublish)
    else if v_Type vote =? PrevoteType then
      prevotes ← glift (Prevotes votes (v_Round vote));
      let '(blockID, ok) := the_majority prevotes in
      published ← (if ok : bool then on_polka (v_Round vote) blockID else mret true);
      if negb published then mret (added, Some ErrPublish)
      else after_prevote (rs_Height rs) (v_Round vote) blockID ok;; mret (added, err)
    else if v_Type vote =? PrecommitType then
      after_precommit (rs_Height rs) (v_Round vote);; mret (added, err)
    else gpanic.

Definition conflicting (e : cs_error) : option (Vote * Vote) :=
  match e with
  | ErrVotes (ErrAddVote (ErrVoteConflictingVotes a b)) | ErrLastCommit (ErrVoteConflictingVotes a b) => Some (a, b)
  | _ => None
  end.

Definition non_deterministic (e : cs_error) : bool :=
  match e with
  | ErrVotes (ErrAddVote ErrVoteNonDeterministicSignature) | ErrLastCommit ErrVoteNonDeterministicSignature => true
  | _ => false
  end.

Definition tryAddVote (vote : Vote) (peerID : bytes) : CM (bool * option cs_error) :=
  '(added, err) ← addVote vote peerID;
  match err with
  | None => mret (added, None)
  | Some e =>
      match conflicting e with
      | Some (voteA, voteB) =>
          cs ← gget;
          match cs_privValidatorPubKey cs with
          | None => mret (false, Some errPubKeyIsNotSet)
          | Some key =>
              addr ← glift (PubKey_Address key);
              if bytes_eqb (v_ValidatorAddress vote) addr then mret (added, err)
              else ReportConflictingVotes voteA voteB;; mret (added, err)
          end
      | None => if non_deterministic e then mret (added, None) else mret (added, Some ErrAddingVote)
      end
  end.

(** *** Events *)

(** The error is logged. *)
Definition handleMsg (msg : Message) (peerID : bytes) : CM unit :=
  match msg with
  | ProposalMessage proposal => _ ← attempt (defaultSetProposal proposal); mret tt
  | BlockPartMessage height round part =>
      '(added, _) ← addProposalBlockPart height round part;
      rs ← rget;
      if added : bool then
        match rs_ProposalBlockParts (rs_Proposed rs) with
        | Some ps => if IsComplete ps then handleCompleteProposal height else mret tt
        | None => gpanic
        end
      else mret tt
  | VoteMessage vote => _ ← tryAddVote vote peerID; mret tt
  end.

Definition handleTimeout (ti : timeoutInfo) : CM unit :=
  rs ← rget;
  if negb (ti_Height ti =? rs_Height rs) || (ti_Round ti <? rs_Round rs) ||
     ((ti_Round ti =? rs_Round rs) && (ti_Step ti <? rs_Step rs)) then mret tt
  else if ti_Step ti =? RoundStepNewHeight then enterNewRound (ti_Height ti) 0
  else if ti_Step ti =? RoundStepNewRound then enterPropose (ti_Height ti) 0
  else if ti_Step ti =? RoundStepPropose then enterPrevote (ti_Height ti) (ti_Round ti)
  else if ti_Step ti =? RoundStepPrevoteWait then enterPrecommit (ti_Height ti) (ti_Round ti)
  else if ti_Step ti =? RoundStepPrecommitWait then
    enterPrecommit (ti_Height ti) (ti_Round ti);;
    enterNewRound (ti_Height ti) (wrap32 (ti_Round ti + 1))
  else gpanic.

Definition handleTxsAvailable : CM unit :=
  rs ← rget;
  if negb (rs_Round rs =? 0) then mret tt
  else if rs_Step rs =? RoundStepNewHeight then
    need ← needProofBlock (rs_Height rs);
    if need : bool then mret tt else scheduleTimeout (rs_Height rs) 0 RoundStepNewRound
  else if rs_Step rs =? RoundStepNewRound then enterPropose (rs_Height rs) 0
  else mret tt.

(** A claim of a peer, which the reactor hands to the votes of the height; the
    peer is stopped on an error. *)
Definition handleVoteSetMaj23 (height round voteType : Z) (peerID : bytes) (blockID : BlockID) : CM unit :=
  rs ← rget;
  if negb (rs_Height rs =? height) then mret tt
  else
    votes ← get_Votes;
    match HVS_SetPeerMaj23 votes round voteType peerID blockID with
    | Ok votes => set_Votes votes
    | Err _ => mret tt
    | Panic => gpanic
    end.

(** *** Starting *)

Definition zero_RoundState : RoundState :=
  mkRoundState 0 0 0 0 None None (mkVoterSet [] 0) None (mkProposed None None None) (mkStaged 0 None None)
    (mkStaged 0 None None) None 0 None (mkVoterSet [] 0) false.

(** [NewState] on an empty [sm.State]; [storeHeight] is the height of the block
    store. *)
Definition NewState (empty state : smState) (storeHeight : Z) : outcome cs_error unit * State :=
  ((if 0 <? sm_LastBlockHeight state then reconstructLastCommit state else mret tt);;
   updateToState state)
  (mkState zero_RoundState empty None None storeHeight [] [] [] []).

(** [SetPrivValidator] *)
Definition SetPrivValidator (priv : option FilePV) : CM unit :=
  cs ← gget;
  set_signer priv (cs_privValidatorPubKey cs);;
  updatePrivValidatorPubKey.

(** The loops of [checkDoubleSigningRisk]: [n] heights are left, the next is
    [height - i]. *)
Fixpoint signed_in_past (n : nat) (i height : Z) (valAddr : bytes) : bool :=
  match n with
  | O => false
  | S n =>
      match LoadSeenCommit (height -i64 i) with
      | Some lastCommit =>
          existsb (fun s => ForBlock s && bytes_eqb (cs_ValidatorAddress s) valAddr) (c_Signatures lastCommit) ||
          signed_in_past n (i + 1) height valAddr
      | None => signed_in_past n (i + 1) height valAddr
      end
  end.

Definition checkDoubleSigningRisk (height : Z) : CM unit :=
  cs ← gget;
  match cs_privValidator cs, cs_privValidatorPubKey cs with
  | Some _, Some key =>
      if (0 <? cfg_DoubleSignCheckHeight config) && (0 <? height) then
        valAddr ← glift (PubKey_Address key);
        let doubleSignCheckHeight := Z.min (cfg_DoubleSignCheckHeight config) height in
        if signed_in_past (Z.to_nat (doubleSignCheckHeight - 1)) 1 height valAddr then gfail ErrSignatureFoundInPastBlocks
        else mret tt
      else mret tt
  | _, _ => mret tt
  end.

(** The end of [OnStart], once the log is replayed. *)
Definition OnStart : CM unit :=
  rs ← rget;
  checkDoubleSigningRisk (rs_Height rs);;
  scheduleRound0.

End machine.
