(* ===== verification/ConsensusSpec.v ===== *)
(** * The rules of a round, and that the machine follows them

    An abstract node has a height, a round and a step, a lock, the votes of the
    height, the votes it signed and the blocks it saved.  [micro] are the rules:
    when it may vote for what, lock, unlock, move on and save a block.  Each
    handler of Consensus.v, whatever it returns, a panic included, is a sequence
    of such moves. *)

From Stdlib Require Import ZArith Lia.
From stdpp Require Import prelude list gmap.
From S2P Require Import Prelude SafeMath Crypto Validator ValidatorSet Proto ProtoDecode Block VoterSet VerifyCommit VoteSet HeightVoteSet PrivVal PartSet HeightVotesInv Consensus.

Local Open Scope Z_scope.

(** ** The abstract node *)

Record view := mkView {
  vw_height : Z;
  vw_round : Z;
  vw_step : Z;
  vw_locked : option (Z * bytes);
  vw_votes : option HeightVoteSet;
  vw_sent : list Vote;
  vw_saved : list (Z * bytes)
}.

(** [v] is a vote of the current height and round. *)
Definition vote_now (a : view) (typ : Z) (b : BlockID) (v : Vote) : Prop :=
  v_Type v = typ /\ v_Height v = vw_height a /\ v_Round v = vw_round a /\ v_BlockID v = b.

Section rules.
  Context {crypto : CryptoLib} {codec : TimeCodec} (recv : Vote -> Prop).

Inductive micro : view -> view -> Prop :=
| mi_step h r s s' l v sent saved :
    s <= s' -> micro (mkView h r s l v sent saved) (mkView h r s' l v sent saved)
| mi_round h r r' s s' l v sent saved :
    r < r' -> micro (mkView h r s l v sent saved) (mkView h r' s' l v sent saved)
| mi_votes h r s l v v' sent saved :
    hv_move recv v v' -> micro (mkView h r s l (Some v) sent saved) (mkView h r s l (Some v') sent saved)
| mi_prevote h r s l v b vt sent saved :
    s < RoundStepPrevote -> vote_now (mkView h r s l v sent saved) PrevoteType b vt ->
    (forall lr lb, l = Some (lr, lb) -> bid_Hash b = lb) ->
    micro (mkView h r s l v sent saved) (mkView h r RoundStepPrevote l v (vt :: sent) saved)
| mi_precommit h r s l v b vt sent saved :
    s < RoundStepPrecommit -> vote_now (mkView h r s l (Some v) sent saved) PrecommitType b vt ->
    (bid_Hash b <> [] -> l = Some (r, bid_Hash b) /\ has_maj v r PrevoteType b) ->
    micro (mkView h r s l (Some v) sent saved) (mkView h r RoundStepPrecommit l (Some v) (vt :: sent) saved)
| mi_lock h r s l v b sent saved :
    s < RoundStepPrecommit -> has_maj v r PrevoteType b -> bid_Hash b <> [] ->
    micro (mkView h r s l (Some v) sent saved) (mkView h r s (Some (r, bid_Hash b)) (Some v) sent saved)
| mi_unlock h r s lr lb v pr b sent saved :
    pr <= r -> lr < pr \/ pr = r /\ s < RoundStepPrecommit -> has_maj v pr PrevoteType b -> bid_Hash b <> lb ->
    micro (mkView h r s (Some (lr, lb)) (Some v) sent saved) (mkView h r s None (Some v) sent saved)
| mi_save h r s l v cr set b sent saved :
    set_of v cr PrecommitType = Some set -> vs_maj23 set = Some b -> bid_Hash b <> [] ->
    micro (mkView h r s l (Some v) sent saved) (mkView h r s l (Some v) sent ((vs_height set, bid_Hash b) :: saved))
| mi_height {E} h r s l v h' chainID voters v' sent saved :
    h < h' -> voters_wf voters -> NewHeightVoteSet (E:=E) chainID h' voters = Ok v' ->
    micro (mkView h r s l v sent saved) (mkView h' 0 RoundStepNewHeight None (Some v') sent saved).

End rules.

(** Heights and rounds only go up. *)
Definition hr_le (h r h' r' : Z) : Prop := h < h' \/ h = h' /\ r <= r'.

Definition vle (a a' : view) : Prop := hr_le (vw_height a) (vw_round a) (vw_height a') (vw_round a').

Lemma micro_vle {crypto : CryptoLib} {codec : TimeCodec} recv a a' : rtc (micro recv) a a' -> vle a a'.
Proof.
  induction 1 as [a|a b c Hab _ IH]; [unfold vle, hr_le; lia|].
  destruct Hab; unfold vle, hr_le in *; cbn in *; lia.
Qed.

Lemma micro_mono {crypto : CryptoLib} {codec : TimeCodec} (R R' : Vote -> Prop) a a' :
  (forall v, R v -> R' v) -> rtc (micro R) a a' -> rtc (micro R') a a'.
Proof.
  intros HR. induction 1 as [a|a b c Hab _ IH]; [done|]. eapply rtc_l; [|exact IH].
  destruct Hab; [by constructor|by constructor| |by econstructor..]. constructor.
  match goal with H : hv_move _ _ _ |- _ => destruct H end; [eapply mv_add; [by apply HR|done]|..];
    [by eapply mv_round|by eapply mv_any|by eapply mv_peer].
Qed.

(** ** The view of a node *)

Section refinement.
  Context {crypto : CryptoLib} {codec : TimeCodec} {decoder : TimeDecoder} {lib : BlockLib} {exec : Executor}.

(** Heights stay below the last int64, and the voters of a height are a
    well-formed set. *)
Class ExecutorLaws : Prop := {
  apply_height s id b s' : ApplyBlock s id b = Some s' -> sm_LastBlockHeight s' < int64_max;
  apply_voters s id b s' : ApplyBlock s id b = Some s' -> voters_wf (sm_Voters s')
}.

Definition vote_of (m : Message) : option Vote := match m with VoteMessage v => Some v | _ => None end.

Definition locked_view (l : Staged) : option (Z * bytes) := (fun b => (st_Round l, Block_Hash b)) <$> st_Block l.

Definition saved_view (x : Blk * PartSetHeader * Commit) : Z * bytes := (c_Height (snd x), Block_Hash (fst (fst x))).

Definition view_of (cs : State) : view :=
  let rs := cs_rs cs in
  mkView (rs_Height rs) (rs_Round rs) (rs_Step rs) (locked_view (rs_Locked rs)) (rs_Votes rs)
    (omap vote_of (cs_internal cs)) (saved_view <$> cs_saved cs).

Definition ti_ok (cs : State) (ti : timeoutInfo) : Prop :=
  hr_le (ti_Height ti) (ti_Round ti) (rs_Height (cs_rs cs)) (rs_Round (cs_rs cs)).

(** What the handlers rely on: timeouts are never ahead of the node, a node
    that commits knows the round it commits, and a locked block has a hash. *)
Record node_ok (cs : State) : Prop := {
  nk_height : 0 < rs_Height (cs_rs cs);
  nk_round : 0 <= rs_Round (cs_rs cs);
  nk_commit : rs_Step (cs_rs cs) = RoundStepCommit -> 0 <= rs_CommitRound (cs_rs cs);
  nk_timeouts : forall ti, ti ∈ cs_timeouts cs -> ti_ok cs ti;
  nk_locked : forall lr lb, locked_view (rs_Locked (cs_rs cs)) = Some (lr, lb) -> lb <> []
}.

Section run.
  Context (recv : Vote -> Prop).

Definition steps (cs cs' : State) : Prop := rtc (micro recv) (view_of cs) (view_of cs') /\ node_ok cs'.

(** Running [m] from a good state follows the rules to a good state. *)
Definition good {A} (m : CM A) (cs : State) : Prop := node_ok cs -> steps cs (snd (m cs)).

Lemma good_bind {A B} (m : CM A) (f : A -> CM B) cs :
  good m cs -> (forall a cs1, m cs = (Ok a, cs1) -> node_ok cs1 -> vle (view_of cs) (view_of cs1) -> good (f a) cs1) ->
  good (m ≫= f) cs.
Proof.
  intros Hm Hf Hok. destruct (Hm Hok) as [H1 H2]. unfold mbind, gom_bind.
  destruct (m cs) as [[a|e|] cs1] eqn:Em; cbn [snd] in *; [|by split..].
  destruct (Hf a cs1 eq_refl H2 (micro_vle _ _ _ H1) H2) as [H3 H4]. split; [by etrans|done].
Qed.

(** A computation that changes nothing the rules speak of. *)
Definition quiet {A} (m : CM A) : Prop := forall cs,
  let cs' := snd (m cs) in
  view_of cs' = view_of cs /\ rs_CommitRound (cs_rs cs') = rs_CommitRound (cs_rs cs) /\ cs_timeouts cs' = cs_timeouts cs.

Lemma quiet_node_ok cs cs' :
  view_of cs' = view_of cs -> rs_CommitRound (cs_rs cs') = rs_CommitRound (cs_rs cs) -> cs_timeouts cs' = cs_timeouts cs ->
  node_ok cs -> node_ok cs'.
Proof.
  intros Hv Hc Ht [H1 H2 H3 H4 H5]. unfold view_of in Hv. injection Hv as E1 E2 E3 E4 _ _ _.
  constructor; rewrite ?E1, ?E2, ?E3, ?E4, ?Hc; try done. intros ti. rewrite Ht. unfold ti_ok. rewrite E1, E2. apply H4.
Qed.

Lemma quiet_good {A} (m : CM A) cs : quiet m -> good m cs.
Proof.
  intros Hq Hok. destruct (Hq cs) as (Hv & Hc & Ht). split; [by rewrite Hv|by eapply quiet_node_ok].
Qed.

Lemma quiet_bind {A B} (m : CM A) (f : A -> CM B) : quiet m -> (forall a, quiet (f a)) -> quiet (m ≫= f).
Proof.
  intros Hm Hf cs. specialize (Hm cs). unfold mbind, gom_bind. destruct (m cs) as [[a|e|] cs1]; cbn [snd] in *; [|done..].
  destruct (Hf a cs1) as (H1 & H2 & H3). destruct Hm as (M1 & M2 & M3). split_and!; congruence.
Qed.

Lemma quiet_attempt {A} (m : CM A) : quiet m -> quiet (attempt m).
Proof. intros Hm cs. specialize (Hm cs). unfold attempt. by destruct (m cs) as [[a|e|] cs1]. Qed.

Lemma quiet_ret {A} (a : A) : quiet (mret a).
Proof. done. Qed.

Lemma quiet_gget : quiet gget.
Proof. done. Qed.

Lemma quiet_rget : quiet rget.
Proof. done. Qed.

Lemma quiet_glift {A} (o : outcome cs_error A) : quiet (glift o).
Proof. done. Qed.

Lemma quiet_panic {A} : quiet (gpanic : CM A).
Proof. done. Qed.

Lemma quiet_fail {A} e : quiet (gfail e : CM A).
Proof. done. Qed.

Lemma quiet_get_Votes : quiet get_Votes.
Proof. apply quiet_bind; [apply quiet_rget|]. intros rs. by destruct (rs_Votes rs). Qed.

Lemma quiet_set_Validators v : quiet (set_Validators v).
Proof. done. Qed.

Lemma quiet_set_Proposer p : quiet (set_Proposer p).
Proof. done. Qed.

Lemma quiet_set_Proposed p : quiet (set_Proposed p).
Proof. done. Qed.

Lemma quiet_set_Valid l : quiet (set_Valid l).
Proof. done. Qed.

Lemma quiet_set_LastCommit c : quiet (set_LastCommit c).
Proof. done. Qed.

Lemma quiet_set_Triggered b : quiet (set_Triggered b).
Proof. done. Qed.

Lemma quiet_set_signer pv k : quiet (set_signer pv k).
Proof. done. Qed.

Lemma quiet_report a b : quiet (ReportConflictingVotes a b).
Proof. done. Qed.

Lemma quiet_send m : vote_of m = None -> quiet (sendInternalMessage m).
Proof. intros Hm cs. cbn. unfold view_of. cbn. by rewrite Hm. Qed.

End run.
End refinement.

Create HintDb quiet discriminated.
#[export] Hint Resolve quiet_ret quiet_gget quiet_rget quiet_glift quiet_panic quiet_fail quiet_get_Votes
  quiet_set_Validators quiet_set_Proposer quiet_set_Proposed quiet_set_Valid quiet_set_LastCommit quiet_set_Triggered
  quiet_set_signer quiet_report quiet_attempt : quiet.
#[export] Hint Extern 1 (quiet (sendInternalMessage _)) => apply quiet_send; reflexivity : quiet.

(** Splits a computation into its parts until each is quiet. *)
Ltac quiet_step :=
  match goal with
  | |- quiet (mbind _ _) => apply quiet_bind; [|intros ?]
  | |- quiet (match ?x with _ => _ end) => destruct x
  | |- quiet (let '(_, _) := ?x in _) => destruct x
  | |- quiet _ => solve [auto with quiet]
  end.
Ltac quietly := repeat quiet_step.
