(* ===== verification/ConsensusRefine.v ===== *)
(** * The handlers follow the rules

    For each method of [State], that running it from a state the handlers rely
    on is a sequence of moves of ConsensusSpec.v. *)

From Stdlib Require Import ZArith Lia.
From stdpp Require Import prelude list gmap.
From S2P Require Import Prelude SafeMath Crypto Validator ValidatorSet Proto ProtoDecode Block VoterSet VerifyCommit VoteSet HeightVoteSet PrivVal PartSet HeightVotesInv Consensus ConsensusSpec.

Local Open Scope Z_scope.

(** The signer returns the vote it was given, up to time and signature. *)
Lemma sign_vote_same {codec : TimeCodec} {decoder : TimeDecoder} Sg now written chain vote pv v pv' :
  PrivVal.signVote Sg now written chain vote pv = (Ok v, pv') ->
  v_Type v = v_Type vote /\ v_Height v = v_Height vote /\ v_Round v = v_Round vote /\ v_BlockID v = v_BlockID vote.
Proof.
  unfold PrivVal.signVote. intros (step & s1 & _ & H)%gbind_Ok. unfold sign_message in H.
  apply gbind_Ok in H as (s & s2 & _ & H). apply gbind_Ok in H as (same & s3 & _ & H).
  apply gbind_Ok in H as (sb & s4 & _ & H). destruct same.
  - destruct (bytes_eqb _ _); [by injection H as <- _|]. apply gbind_Ok in H as ([t ok] & s5 & _ & H).
    destruct ok; [by injection H as <- _|done].
  - destruct (Sg sb); [|done]. apply gbind_Ok in H as (u & s5 & _ & H). by injection H as <- _.
Qed.

Section refine.
  Context {crypto : CryptoLib} {codec : TimeCodec} {decoder : TimeDecoder} {lib : BlockLib} {exec : Executor}.
  Context {laws : ExecutorLaws} (config : ConsensusConfig) (w : World).

(** ** Computations that are quiet *)

Lemma quiet_needProofBlock height : quiet (needProofBlock height).
Proof. unfold needProofBlock. quietly. Qed.

Lemma quiet_isProposalComplete : quiet isProposalComplete.
Proof. unfold isProposalComplete. quietly. Qed.

Lemma quiet_createProposalBlock round : quiet (createProposalBlock round).
Proof. unfold createProposalBlock. quietly. Qed.

Lemma quiet_send_parts n : forall i ps, quiet (send_parts n i ps).
Proof. induction n as [|n IH]; intros i ps; cbn [send_parts]; quietly. Qed.

Lemma quiet_propose_block height round b ps : quiet (propose_block w height round b ps).
Proof.
  unfold propose_block. apply quiet_bind; [auto with quiet|intros cs]. destruct (w_sign w height round ProposalType) as [[now ?] written].
  destruct (cs_privValidator cs); [|auto with quiet]. destruct (signProposal _ _ _ _ _ _) as [r pv].
  quietly. apply quiet_send_parts.
Qed.

Lemma quiet_defaultDecideProposal height round : quiet (defaultDecideProposal w height round).
Proof.
  unfold defaultDecideProposal. apply quiet_bind; [auto with quiet|intros cs].
  destruct (st_Block _); [apply quiet_propose_block|]. apply quiet_bind; [apply quiet_createProposalBlock|].
  intros [[b ps]|]; [apply quiet_propose_block|auto with quiet].
Qed.

Lemma quiet_isProposer rs a : quiet (isProposer rs a).
Proof. unfold isProposer. quietly. Qed.

Lemma quiet_updatePrivValidatorPubKey : quiet updatePrivValidatorPubKey.
Proof. unfold updatePrivValidatorPubKey. quietly. Qed.

Lemma quiet_defaultSetProposal p : quiet (defaultSetProposal p).
Proof. unfold defaultSetProposal. quietly. Qed.

Lemma quiet_decode_parts ps : quiet (decode_parts ps).
Proof. unfold decode_parts. quietly. Qed.

Lemma quiet_addProposalBlockPart height round part : quiet (addProposalBlockPart height round part).
Proof.
  unfold addProposalBlockPart. apply quiet_bind; [auto with quiet|intros cs]. destruct (negb _); [auto with quiet|].
  destruct part as [part|]; [|auto with quiet]. destruct (rs_ProposalBlockParts _) as [ps|]; [|auto with quiet].
  destruct (AddPart part (Some ps)) as [[added|e|] ps']; quietly. apply quiet_decode_parts.
Qed.

Lemma quiet_has_all s : quiet (has_all s).
Proof. unfold has_all. quietly. Qed.

(** ** Signing *)

(** What signing changes: the signer, and at most one vote in the queue. *)
Record signed (cs cs' : State) (typ : Z) (b : BlockID) (o : list Vote) : Prop := {
  sg_rs : cs_rs cs' = cs_rs cs;
  sg_timeouts : cs_timeouts cs' = cs_timeouts cs;
  sg_saved : cs_saved cs' = cs_saved cs;
  sg_sent : omap vote_of (cs_internal cs') = o ++ omap vote_of (cs_internal cs);
  sg_vote : o = [] \/ exists v, o = [v] /\ vote_now (view_of cs) typ b v
}.

Lemma signVote_spec typ hash hd cs r cs' :
  signVote w typ hash hd cs = (r, cs') ->
  cs_rs cs' = cs_rs cs /\ cs_timeouts cs' = cs_timeouts cs /\ cs_saved cs' = cs_saved cs /\ cs_internal cs' = cs_internal cs /\
  forall v, r = Ok v -> vote_now (view_of cs) typ (mkBlockID hash hd) v.
Proof.
  unfold signVote. cbn [mbind gom_bind gget]. unfold mbind, gom_bind, gget.
  destruct (w_sign w _ _ _) as [[now flushed] written]. destruct flushed; cbn [negb]; [|by intros [= <- <-]].
  destruct (cs_privValidatorPubKey cs) as [key|]; [|by intros [= <- <-]].
  destruct (cs_privValidator cs) as [pv|]; [|by intros [= <- <-]].
  unfold glift. destruct (PubKey_Address key) as [addr| |]; [|by intros [= <- <-]..].
  destruct (Voters_GetByAddress _ _) as [valIdx x]. destruct (PrivVal.signVote _ _ _ _ _ _) as [r' pv'] eqn:Es.
  unfold set_signer, gmodify. destruct r' as [v|e|]; intros [= <- <-]; cbn; (split_and!; [done..|]); [|done..].
  intros v' [= <-]. apply sign_vote_same in Es. cbn in Es. unfold vote_now. cbn. tauto.
Qed.

Lemma signAddVote_spec typ hash hd cs :
  exists o, signed cs (snd (signAddVote w typ hash hd cs)) typ (mkBlockID hash hd) o.
Proof.
  unfold signAddVote. unfold mbind at 1, gom_bind at 1, gget. cbn [fst].
  assert (Hnil : signed cs cs typ (mkBlockID hash hd) []) by (constructor; auto).
  destruct (cs_privValidator cs) as [pv|]; [|by exists []].
  destruct (cs_privValidatorPubKey cs) as [key|]; [|by exists []].
  unfold mbind at 1, gom_bind at 1, glift. destruct (PubKey_Address key) as [addr| |]; [|by exists []..].
  destruct (negb _); [by exists []|]. unfold mbind, gom_bind, attempt.
  destruct (signVote w typ hash hd cs) as [r cs1] eqn:Es. apply signVote_spec in Es as (H1 & H2 & H3 & H4 & H5).
  destruct r as [v|e|]; cbn.
  - exists [v]. constructor; cbn; try done; [by rewrite H4|]. right. exists v. eauto.
  - exists []. constructor; try done; [by rewrite H4|by left].
  - exists []. constructor; try done; [by rewrite H4|by left].
Qed.

(** ** Running *)

Section recv.
  Context (recv : Vote -> Prop).
  #[local] Abbreviation good := (good recv).

Lemma good_gget {A} (f : State -> CM A) cs : good (f cs) cs -> good (gget ≫= f) cs.
Proof. done. Qed.

Lemma good_rget {A} (f : RoundState -> CM A) cs : good (f (cs_rs cs)) cs -> good (rget ≫= f) cs.
Proof. done. Qed.

Lemma good_ret {A} (a : A) cs : good (mret a) cs.
Proof. apply quiet_good, quiet_ret. Qed.

Lemma good_panic {A} cs : good (gpanic : CM A) cs.
Proof. apply quiet_good, quiet_panic. Qed.

Lemma good_glift {A B} (o : outcome cs_error A) (f : A -> CM B) cs :
  (forall a, o = Ok a -> good (f a) cs) -> good (glift o ≫= f) cs.
Proof. intros Hf Hok. destruct o as [a|e|]; [by apply Hf|by split..]. Qed.

Lemma good_get_Votes {A} (f : HeightVoteSet -> CM A) cs :
  (forall v, rs_Votes (cs_rs cs) = Some v -> good (f v) cs) -> good (get_Votes ≫= f) cs.
Proof.
  intros Hf Hok. unfold get_Votes, rget, mbind, gom_bind, gget, gpanic. cbn. unfold mret, gom_ret. cbn.
  destruct (rs_Votes (cs_rs cs)) as [v|]; [by apply Hf|by split].
Qed.

Lemma good_quiet {A B} (m : CM A) (f : A -> CM B) cs :
  quiet m -> (forall a cs1, m cs = (Ok a, cs1) -> view_of cs1 = view_of cs -> good (f a) cs1) -> good (m ≫= f) cs.
Proof.
  intros Hq Hf. apply good_bind; [by apply quiet_good|]. intros a cs1 Hm _ _. apply Hf; [done|].
  destruct (Hq cs) as [Hv _]. by rewrite Hm in Hv.
Qed.

(** A quiet computation before one whose rules depend on the view only. *)
Lemma good_then {A B} (m : CM A) (k : CM B) cs : good m cs -> (forall cs1, vle (view_of cs) (view_of cs1) -> good k cs1) ->
  good (m;; k) cs.
Proof. intros Hm Hk. apply good_bind; [done|]. intros _ cs1 _ _ Hle. by apply Hk. Qed.

Lemma good_deferred {A} (body : CM A) after cs :
  good body cs -> (forall cs1, cs1 = snd (body cs) -> node_ok cs1 -> good after cs1) -> good (deferred body after) cs.
Proof.
  intros Hb Ha Hok. destruct (Hb Hok) as [H1 H2]. unfold deferred. specialize (Ha _ eq_refl H2 H2).
  destruct (body cs) as [r cs1]. cbn [snd] in *. destruct (after cs1) as [r' cs2]. cbn [snd] in *.
  destruct Ha as [H3 H4]. split; [by etrans|done].
Qed.

Lemma good_deferred_bind {A B} (m : CM A) (f : A -> CM B) after cs :
  good m cs -> (forall a cs1, m cs = (Ok a, cs1) -> good (deferred (f a) after) cs1) ->
  (forall cs1, cs1 = snd (m cs) -> good after cs1) -> good (deferred (m ≫= f) after) cs.
Proof.
  intros Hm Hf Ha Hok. destruct (Hm Hok) as [H1 H2]. unfold deferred, mbind, gom_bind. specialize (Ha _ eq_refl H2).
  destruct (m cs) as [[a|e|] cs1] eqn:Em; cbn [snd] in *.
  - destruct (Hf a cs1 eq_refl H2) as [H3 H4]. unfold deferred in H3, H4. destruct (f a cs1) as [r cs2].
    destruct (after cs2) as [r' cs3]. cbn [snd] in *. split; [by etrans|done].
  - destruct (after cs1) as [r' cs2]. cbn [snd] in *. destruct Ha as [H3 H4]. split; [by etrans|done].
  - destruct (after cs1) as [r' cs2]. cbn [snd] in *. destruct Ha as [H3 H4]. split; [by etrans|done].
Qed.

Lemma good_scheduleTimeout height round step cs :
  hr_le height round (rs_Height (cs_rs cs)) (rs_Round (cs_rs cs)) -> good (scheduleTimeout height round step) cs.
Proof.
  intros Hle [H1 H2 H3 H4 H5]. split; [done|]. constructor; try done. intros ti. cbn. rewrite elem_of_cons.
  intros [->|Hti]; [done|]. by apply H4.
Qed.

Lemma good_updateRoundStep step cs :
  rs_Step (cs_rs cs) <= step -> step < RoundStepCommit -> good (updateRoundStep (rs_Round (cs_rs cs)) step) cs.
Proof.
  intros Hle Hlt [H1 H2 H3 H4 H5]. split; [apply rtc_once; by constructor|]. constructor; cbn; try done. lia.
Qed.

(** Signing a vote and moving to its step. *)
Lemma good_prevote hash hd cs :
  rs_Step (cs_rs cs) < RoundStepPrevote -> (forall b, st_Block (rs_Locked (cs_rs cs)) = Some b -> hash = Block_Hash b) ->
  good (deferred (signAddVote w PrevoteType hash hd) (updateRoundStep (rs_Round (cs_rs cs)) RoundStepPrevote)) cs.
Proof.
  intros Hs Hl [H1 H2 H3 H4 H5]. destruct (signAddVote_spec PrevoteType hash hd cs) as [o [S1 S2 S3 S4 S5]].
  unfold deferred. destruct (signAddVote w PrevoteType hash hd cs) as [r cs1]. cbn [snd] in *. cbn. split.
  - unfold view_of at 2. cbn. rewrite S1, S3, S4. apply rtc_once. destruct S5 as [-> |(v & -> & Hv)].
    + constructor. lia.
    + eapply mi_prevote; [done|exact Hv|]. intros lr lb. unfold locked_view.
      destruct (st_Block (rs_Locked (cs_rs cs))) as [b|]; [|done]. intros [= _ <-]. cbn. by apply Hl.
  - constructor; cbn; rewrite ?S1, ?S2; done.
Qed.

Lemma good_precommit hash hd v cs :
  rs_Step (cs_rs cs) < RoundStepPrecommit -> rs_Votes (cs_rs cs) = Some v ->
  (hash <> [] -> locked_view (rs_Locked (cs_rs cs)) = Some (rs_Round (cs_rs cs), hash) /\
     has_maj v (rs_Round (cs_rs cs)) PrevoteType (mkBlockID hash hd)) ->
  good (deferred (signAddVote w PrecommitType hash hd) (updateRoundStep (rs_Round (cs_rs cs)) RoundStepPrecommit)) cs.
Proof.
  intros Hs Hv Hl [H1 H2 H3 H4 H5]. destruct (signAddVote_spec PrecommitType hash hd cs) as [o [S1 S2 S3 S4 S5]].
  unfold deferred. destruct (signAddVote w PrecommitType hash hd cs) as [r cs1]. cbn [snd] in *. cbn. split.
  - unfold view_of. cbn. rewrite S1, S3, S4. apply rtc_once. destruct S5 as [-> |(vt & -> & Hvt)].
    + constructor. lia.
    + unfold view_of in Hvt. rewrite Hv in *. by eapply mi_precommit.
  - constructor; cbn; rewrite ?S1, ?S2; done.
Qed.

Lemma good_lock parts b v bid cs :
  rs_Step (cs_rs cs) < RoundStepPrecommit -> rs_Votes (cs_rs cs) = Some v ->
  has_maj v (rs_Round (cs_rs cs)) PrevoteType bid -> Block_Hash b = bid_Hash bid -> bid_Hash bid <> [] ->
  good (set_Locked (mkStaged (rs_Round (cs_rs cs)) (Some b) parts)) cs.
Proof.
  intros Hs Hv Hm Hb Hne [H1 H2 H3 H4 H5]. split.
  - apply rtc_once. unfold view_of. cbn. rewrite Hv, Hb. by apply mi_lock.
  - constructor; try done. intros lr lb [= _ <-]. by rewrite Hb.
Qed.

Lemma good_unlock v pr bid cs :
  rs_Votes (cs_rs cs) = Some v -> pr <= rs_Round (cs_rs cs) ->
  st_Round (rs_Locked (cs_rs cs)) < pr \/ pr = rs_Round (cs_rs cs) /\ rs_Step (cs_rs cs) < RoundStepPrecommit ->
  has_maj v pr PrevoteType bid -> (forall b, st_Block (rs_Locked (cs_rs cs)) = Some b -> bid_Hash bid <> Block_Hash b) ->
  good (set_Locked unset) cs.
Proof.
  intros Hv Hle Hlt Hm Hne [H1 H2 H3 H4 H5]. split; [|by constructor]. unfold view_of. cbn. unfold locked_view.
  destruct (st_Block (rs_Locked (cs_rs cs))) as [b|] eqn:Eb; [|done]. apply rtc_once. cbn. rewrite Hv.
  eapply (mi_unlock recv _ _ _ _ _ _ pr bid); [done|done|done|]. by apply Hne.
Qed.

(** ** Hashes of blocks *)

Lemma HashesTo_true b h : HashesTo (Some b) h = true -> Block_Hash b = h /\ h <> [].
Proof. unfold HashesTo. case_bool_decide; [done|]. by intros ->%bytes_eqb_true. Qed.

Lemma HashesTo_false b h : Block_Hash b <> [] -> HashesTo (Some b) h = false -> h <> Block_Hash b.
Proof. unfold HashesTo. case_bool_decide as Hh; [congruence|]. intros _ Hf Heq. by rewrite Heq, bytes_eqb_refl in Hf. Qed.

Lemma the_majority_has_maj {E} v r typ o b :
  getVoteSet (E:=E) v r typ = Ok o -> the_majority o = (b, true) -> has_maj v r typ b.
Proof.
  intros Ho%getVoteSet_set_of Hm. destruct o as [s|]; [|done]. by eapply majority_has_maj.
Qed.

Lemma locked_hash cs b : node_ok cs -> st_Block (rs_Locked (cs_rs cs)) = Some b -> Block_Hash b <> [].
Proof. intros Hok Hb. apply (nk_locked _ Hok (st_Round (rs_Locked (cs_rs cs)))). unfold locked_view. by rewrite Hb. Qed.

(** ** The steps of a round *)

(** The guard of the methods that enter a step: the caller is never ahead. *)
Lemma guard_here height round step (rs : RoundState) :
  (rs_Height rs = height -> round <= rs_Round rs) ->
  negb (rs_Height rs =? height) || (round <? rs_Round rs) || ((rs_Round rs =? round) && (step <=? rs_Step rs)) = false ->
  rs_Height rs = height /\ round = rs_Round rs /\ rs_Step rs < step.
Proof.
  intros Hle. rewrite !orb_false_iff, negb_false_iff, Z.eqb_eq, Z.ltb_ge, andb_false_iff, Z.eqb_neq, Z.leb_gt.
  intros [[H1 H2] H3]. specialize (Hle H1). lia.
Qed.

Lemma enterPrevote_good height round cs :
  (rs_Height (cs_rs cs) = height -> round <= rs_Round (cs_rs cs)) -> good (enterPrevote w height round) cs.
Proof.
  intros Hle. unfold enterPrevote. apply good_rget. destruct (_ || _) eqn:Eg; [apply good_ret|].
  apply guard_here in Eg as (Hh & -> & Hs); [|done].
  assert (Hsign : exists hash hd, defaultDoPrevote w height (rs_Round (cs_rs cs)) cs = signAddVote w PrevoteType hash hd cs /\
    (forall b, st_Block (rs_Locked (cs_rs cs)) = Some b -> hash = Block_Hash b)).
  { unfold defaultDoPrevote. unfold mbind at 1, gom_bind at 1, gget. cbn [fst snd].
    destruct (st_Block (rs_Locked (cs_rs cs))) as [b|]; [do 2 eexists; split; [done|]; by intros ? [= <-]|].
    destruct (rs_ProposalBlock _) as [b|]; [|by do 2 eexists].
    destruct (negb _); by do 2 eexists. }
  destruct Hsign as (hash & hd & Heq & Hl). intros Hok. pose proof (good_prevote hash hd cs Hs Hl Hok) as Hg.
  unfold deferred in *. by rewrite Heq.
Qed.

Lemma view_hrs cs cs' :
  view_of cs' = view_of cs ->
  rs_Height (cs_rs cs') = rs_Height (cs_rs cs) /\ rs_Round (cs_rs cs') = rs_Round (cs_rs cs) /\
  rs_Step (cs_rs cs') = rs_Step (cs_rs cs) /\ rs_Votes (cs_rs cs') = rs_Votes (cs_rs cs).
Proof. unfold view_of. by intros [= H1 H2 H3 H4 H5 H6 H7]. Qed.

(** The end of a method that moves to a step and may go on from there. *)
Lemma good_step_then {A} step (k : CM A) cs cs0 :
  view_of cs = view_of cs0 -> rs_Step (cs_rs cs0) <= step -> step < RoundStepCommit ->
  (forall cs1, rs_Height (cs_rs cs1) = rs_Height (cs_rs cs0) -> rs_Round (cs_rs cs1) = rs_Round (cs_rs cs0) -> good k cs1) ->
  good (updateRoundStep (rs_Round (cs_rs cs0)) step;; k) cs.
Proof.
  intros (H1 & H2 & H3 & _)%view_hrs Hle Hlt Hk. rewrite <- H2. apply good_bind; [by apply good_updateRoundStep; [rewrite H3|]|].
  intros ? cs1 [= _ <-] _ _. apply Hk; [exact H1|exact H2].
Qed.

Lemma enterPropose_good height round cs :
  (rs_Height (cs_rs cs) = height -> round <= rs_Round (cs_rs cs)) -> good (enterPropose w height round) cs.
Proof.
  intros Hle. unfold enterPropose. apply good_rget. destruct (_ || _) eqn:Eg; [apply good_ret|].
  apply guard_here in Eg as (Hh & -> & Hs); [|done]. match goal with |- context [scheduleTimeout _ _ _;; ?d] => set (decide := d) end.
  assert (Hq : quiet decide) by (unfold decide; quietly; [apply quiet_isProposer|apply quiet_defaultDecideProposal]).
  clearbody decide. apply good_deferred.
  - apply good_bind; [apply good_scheduleTimeout; right; lia|]. intros _ cs1 _ _ _. by apply quiet_good.
  - intros cs1 -> _. apply good_step_then; [|lia|done|].
    + unfold scheduleTimeout, gmodify, mbind, gom_bind. apply (Hq (mkState _ _ _ _ _ _ _ _ _)).
    + intros cs2 Hh2 Hr2. apply good_quiet; [apply quiet_isProposalComplete|]. intros complete cs3 _ Hv3.
      destruct complete; [|apply good_ret]. apply good_rget, enterPrevote_good. done.
Qed.

Lemma votes_SetRound_good round cs : good (votes_SetRound round) cs.
Proof.
  unfold votes_SetRound. apply good_get_Votes. intros v Hv. destruct (SetRound _ v round) as [r|] eqn:Es; [|apply good_panic].
  apply good_glift. intros v' ->. intros [H1 H2 H3 H4 H5]. split; [|by constructor]. apply rtc_once. unfold view_of. cbn.
  rewrite Hv. constructor. by eapply mv_round.
Qed.

Lemma votes_SetRound_hr round cs a cs' :
  votes_SetRound round cs = (a, cs') ->
  rs_Height (cs_rs cs') = rs_Height (cs_rs cs) /\ rs_Round (cs_rs cs') = rs_Round (cs_rs cs).
Proof.
  unfold votes_SetRound, get_Votes, rget, mbind, gom_bind, gget, mret, gom_ret. cbn.
  destruct (rs_Votes (cs_rs cs)) as [v|]; [|by intros [= <- <-]].
  destruct (SetRound _ v round) as [[v'|e|]|]; by intros [= <- <-].
Qed.

(** Entering a round: forward, or the first step of the current one. *)
Lemma good_new_round round cs :
  rs_Round (cs_rs cs) <= round -> (rs_Round (cs_rs cs) = round -> rs_Step (cs_rs cs) = RoundStepNewHeight) ->
  good (updateRoundStep round RoundStepNewRound) cs.
Proof.
  intros Hle Heq [H1 H2 H3 H4 H5]. split.
  - apply rtc_once. unfold view_of. cbn. destruct (decide (rs_Round (cs_rs cs) = round)) as [Hr|Hr].
    + rewrite Hr, Heq by done. by constructor.
    + constructor. lia.
  - constructor; cbn; try done; [lia|]. intros ti Hti%H4. unfold ti_ok, hr_le in *. cbn. lia.
Qed.

(** [enterNewRound] once the round is set. *)
Definition rest_of_new_round (height round : Z) : CM unit :=
  (if round =? 0 then mret tt else set_Proposed (mkProposed None None None));;
  next ← glift (SafeAddInt32 round 1);
  votes_SetRound next;;
  set_Triggered false;;
  waitForTxs ← (if WaitForTxs config && (round =? 0) then need ← needProofBlock height; mret (negb need) else mret false);
  if waitForTxs : bool then
    if 0 <? cfg_CreateEmptyBlocksInterval config then scheduleTimeout height round RoundStepNewRound else mret tt
  else enterPropose w height round.

Lemma rest_of_new_round_good height round cs :
  rs_Height (cs_rs cs) = height -> rs_Round (cs_rs cs) = round -> good (rest_of_new_round height round) cs.
Proof.
  intros A1 A2. unfold rest_of_new_round.
  apply good_quiet; [destruct (round =? 0); auto with quiet|]. intros _ cs4 _ V4. apply view_hrs in V4 as (B1 & B2 & _).
  apply good_glift. intros next _. apply good_bind; [apply votes_SetRound_good|].
  intros ? cs5 H5 _ _. apply votes_SetRound_hr in H5 as [C1 C2].
  apply good_quiet; [auto with quiet|]. intros _ cs6 _ V6. apply view_hrs in V6 as (D1 & D2 & _).
  apply good_quiet; [quietly; apply quiet_needProofBlock|]. intros wait cs7 _ V7. apply view_hrs in V7 as (F1 & F2 & _).
  assert (Hhr : rs_Height (cs_rs cs7) = height /\ rs_Round (cs_rs cs7) = round) by (split; congruence).
  destruct Hhr as [Hh7 Hr7]. destruct wait.
  - destruct (0 <? _); [|apply good_ret]. apply good_scheduleTimeout. right. lia.
  - apply enterPropose_good. lia.
Qed.

Lemma enterNewRound_eq height round cs :
  let rs := cs_rs cs in
  enterNewRound config w height round cs =
  if negb (rs_Height rs =? height) || (round <? rs_Round rs) ||
     ((rs_Round rs =? round) && negb (rs_Step rs =? RoundStepNewHeight)) then (Ok tt, cs)
  else match rs_Validators rs with
       | None => (Panic, cs)
       | Some vals =>
           match SelectProposer vals (sm_LastProofHash (cs_state cs)) height round with
           | Ok (p, vals') =>
               rest_of_new_round height round (snd (updateRoundStep round RoundStepNewRound
                 (snd (set_Proposer (Some p) (snd (set_Validators (Some vals') cs))))))
           | Err e => (Err e, cs)
           | Panic => (Panic, cs)
           end
       end.
Proof.
  cbv zeta. unfold enterNewRound. unfold mbind at 1, gom_bind at 1, gget. cbn [fst].
  destruct (_ || _); [done|]. destruct (rs_Validators (cs_rs cs)) as [vals|]; [|done].
  unfold mbind at 1, gom_bind at 1, glift. by destruct (SelectProposer _ _ _ _) as [[p vals']|e|].
Qed.

(** A round is entered going forward, and after it the node is not behind it. *)
Lemma enterNewRound_spec height round cs :
  node_ok cs ->
  steps recv cs (snd (enterNewRound config w height round cs)) /\
  forall a cs', enterNewRound config w height round cs = (Ok a, cs') -> rs_Height (cs_rs cs') = height ->
    rs_Height (cs_rs cs) = height -> round <= rs_Round (cs_rs cs').
Proof.
  intros Hok. rewrite enterNewRound_eq. cbv zeta. destruct (_ || _) eqn:Eg.
  { split; [by apply good_ret|]. intros a cs' [= _ <-] _ Hh. rewrite Hh, Z.eqb_refl in Eg. cbn in Eg.
    apply orb_true_iff in Eg as [Hr%Z.ltb_lt|[Hr%Z.eqb_eq _]%andb_true_iff]; lia. }
  rewrite !orb_false_iff, negb_false_iff, Z.eqb_eq, Z.ltb_ge, andb_false_iff, Z.eqb_neq, negb_false_iff, Z.eqb_eq in Eg.
  destruct Eg as [[Hh Hr] Hs]. destruct (rs_Validators (cs_rs cs)) as [vals|]; [|by split; [by apply good_panic|]].
  destruct (SelectProposer _ _ _ _) as [[p vals']|e|]; [|by split; [split|]..].
  set (cs2 := snd (set_Proposer (Some p) (snd (set_Validators (Some vals') cs)))).
  assert (Hok2 : node_ok cs2) by (by apply (quiet_node_ok cs)).
  set (cs3 := snd (updateRoundStep round RoundStepNewRound cs2)).
  destruct (good_new_round round cs2) as [G1 G2]; [done|cbn; lia|done|].
  destruct (rest_of_new_round_good height round cs3 Hh eq_refl G2) as [G3 G4].
  split; [split; [etrans; [exact G1|exact G3]|exact G4]|].
  intros a cs' Hrun Hh' _. rewrite Hrun in G3. apply micro_vle in G3. unfold vle, hr_le in G3. cbn in G3. lia.
Qed.

Lemma enterNewRound_good height round cs : good (enterNewRound config w height round) cs.
Proof. intros Hok. by apply enterNewRound_spec. Qed.

(** Asking for two thirds of any votes changes the cached total at most. *)
Lemma has_any_good round typ cs : good (has_any round typ) cs.
Proof.
  unfold has_any. apply good_get_Votes. intros v Hv. apply good_glift. intros o Ho. destruct o as [s|]; [|apply good_ret].
  apply good_glift. intros [b s'] Ha [H1 H2 H3 H4 H5]. split; [|by constructor]. apply rtc_once. unfold view_of. cbn.
  rewrite Hv. constructor. by eapply mv_any.
Qed.

Lemma has_any_rs round typ cs a cs' :
  has_any round typ cs = (a, cs') ->
  rs_Height (cs_rs cs') = rs_Height (cs_rs cs) /\ rs_Round (cs_rs cs') = rs_Round (cs_rs cs) /\
  rs_Step (cs_rs cs') = rs_Step (cs_rs cs).
Proof.
  unfold has_any, get_Votes, rget, mbind, gom_bind, gget, mret, gom_ret. cbn.
  destruct (rs_Votes (cs_rs cs)) as [v|]; [|by intros [= <- <-]]. unfold glift.
  destruct (getVoteSet v round typ) as [[s|]|e|]; try by intros [= <- <-].
  destruct (HasTwoThirdsAny s) as [[b s']|e|]; by intros [= <- <-].
Qed.

Lemma enterPrevoteWait_good height round cs :
  (rs_Height (cs_rs cs) = height -> round <= rs_Round (cs_rs cs)) -> good (enterPrevoteWait height round) cs.
Proof.
  intros Hle. unfold enterPrevoteWait. apply good_rget. destruct (_ || _) eqn:Eg; [apply good_ret|].
  apply guard_here in Eg as (Hh & -> & Hs); [|done]. apply good_bind; [apply has_any_good|].
  intros any cs1 (A1 & A2 & A3)%has_any_rs _ _. destruct any; cbn [negb]; [|apply good_panic].
  apply good_deferred; [apply good_scheduleTimeout; right; lia|]. intros cs2 -> _. rewrite <- A2.
  change (rs_Round (cs_rs cs1)) with (rs_Round (cs_rs (snd (scheduleTimeout height (rs_Round (cs_rs cs1)) RoundStepPrevoteWait cs1)))).
  apply good_updateRoundStep; [cbn; lia|done].
Qed.

Lemma enterPrecommitWait_good height round cs :
  (rs_Height (cs_rs cs) = height -> round <= rs_Round (cs_rs cs)) -> good (enterPrecommitWait height round) cs.
Proof.
  intros Hle. unfold enterPrecommitWait. apply good_rget. destruct (_ || _) eqn:Eg; [apply good_ret|].
  rewrite !orb_false_iff, negb_false_iff, Z.eqb_eq, Z.ltb_ge in Eg. destruct Eg as [[Hh Hr] _]. specialize (Hle Hh).
  apply good_bind; [apply has_any_good|]. intros any cs1 (A1 & A2 & _)%has_any_rs _ _.
  destruct any; cbn [negb]; [|apply good_panic].
  apply good_deferred; [apply good_scheduleTimeout; right; lia|]. intros cs2 _ _. apply quiet_good. auto with quiet.
Qed.

(** *** Precommits *)

Lemma good_deferred_get_Votes {A} (f : HeightVoteSet -> CM A) after cs :
  good after cs -> (forall v, rs_Votes (cs_rs cs) = Some v -> good (deferred (f v) after) cs) ->
  good (deferred (get_Votes ≫= f) after) cs.
Proof.
  intros Ha Hf. apply good_deferred_bind; [apply quiet_good, quiet_get_Votes| |].
  - intros v cs1. unfold get_Votes, rget, mbind, gom_bind, gget, mret, gom_ret. cbn.
    destruct (rs_Votes (cs_rs cs)) as [v'|] eqn:Ev; [|done]. intros [= <- <-]. by apply Hf.
  - intros cs1 ->. unfold get_Votes, rget, mbind, gom_bind, gget, mret, gom_ret. cbn. by destruct (rs_Votes (cs_rs cs)).
Qed.

Lemma good_deferred_glift {A B} (o : outcome cs_error A) (f : A -> CM B) after cs :
  good after cs -> (forall a, o = Ok a -> good (deferred (f a) after) cs) -> good (deferred (glift o ≫= f) after) cs.
Proof.
  intros Ha Hf. apply good_deferred_bind; [apply quiet_good, quiet_glift| |by intros cs1 ->].
  intros a cs1 [= -> <-]. by apply Hf.
Qed.

Lemma good_deferred_panic {A} after cs : good after cs -> good (deferred (gpanic : CM A) after) cs.
Proof. intros Ha. apply good_deferred; [apply good_panic|]. by intros cs1 ->. Qed.

Lemma good_to_precommit cs :
  rs_Step (cs_rs cs) < RoundStepPrecommit -> good (updateRoundStep (rs_Round (cs_rs cs)) RoundStepPrecommit) cs.
Proof. intros Hs. apply good_updateRoundStep; [lia|done]. Qed.

Lemma good_unlocked_precommit {A} (m : CM A) v bid cs :
  rs_Step (cs_rs cs) < RoundStepPrecommit -> rs_Votes (cs_rs cs) = Some v -> quiet m ->
  has_maj v (rs_Round (cs_rs cs)) PrevoteType bid ->
  (forall b, st_Block (rs_Locked (cs_rs cs)) = Some b -> bid_Hash bid <> Block_Hash b) ->
  good (deferred (set_Locked unset;; m;; signAddVote w PrecommitType [] zero_header)
          (updateRoundStep (rs_Round (cs_rs cs)) RoundStepPrecommit)) cs.
Proof.
  intros Hs Hv Hq Hm Hne. apply good_deferred_bind.
  - eapply good_unlock; [exact Hv|reflexivity| |exact Hm|exact Hne]. by right.
  - intros u cs1 [= _ <-]. set (cs1 := set_rs cs _). change (rs_Round (cs_rs cs)) with (rs_Round (cs_rs cs1)).
    apply good_deferred_bind; [by apply quiet_good| |].
    + intros a cs2 H2. destruct (Hq cs1) as (V & _). rewrite H2 in V. cbn [snd] in V. apply view_hrs in V as (_ & V2 & V3 & V4).
      rewrite <- V2. eapply good_precommit; [rewrite V3; exact Hs|rewrite V4; exact Hv|done].
    + intros cs2 ->. destruct (Hq cs1) as (V & _). apply view_hrs in V as (_ & V2 & V3 & _). rewrite <- V2.
      apply good_to_precommit. by rewrite V3.
  - intros cs1 ->. by apply (good_to_precommit (snd (set_Locked unset cs))).
Qed.

Lemma good_deferred_gget {A} (f : State -> CM A) after cs : good (deferred (f cs) after) cs -> good (deferred (gget ≫= f) after) cs.
Proof. done. Qed.

Lemma good_locked_precommit parts b v bid cs :
  rs_Step (cs_rs cs) < RoundStepPrecommit -> rs_Votes (cs_rs cs) = Some v ->
  has_maj v (rs_Round (cs_rs cs)) PrevoteType bid -> HashesTo (Some b) (bid_Hash bid) = true ->
  good (deferred (set_Locked (mkStaged (rs_Round (cs_rs cs)) (Some b) parts);;
                  signAddVote w PrecommitType (bid_Hash bid) (bid_PartSetHeader bid))
          (updateRoundStep (rs_Round (cs_rs cs)) RoundStepPrecommit)) cs.
Proof.
  intros Hs Hv Hm [Hb Hne]%HashesTo_true. apply good_deferred_bind.
  - by apply (good_lock _ _ v bid).
  - intros u cs1 [= _ <-]. set (cs1 := set_rs cs _). change (rs_Round (cs_rs cs)) with (rs_Round (cs_rs cs1)).
    apply (good_precommit _ _ v); [done|done|]. intros _. split; [unfold cs1, locked_view; cbn; by rewrite Hb|].
    by destruct bid.
  - intros cs1 ->. by apply (good_to_precommit (snd (set_Locked (mkStaged (rs_Round (cs_rs cs)) (Some b) parts) cs))).
Qed.

Lemma do_precommit_good height cs :
  node_ok cs -> rs_Step (cs_rs cs) < RoundStepPrecommit ->
  good (deferred (do_precommit w height (rs_Round (cs_rs cs))) (updateRoundStep (rs_Round (cs_rs cs)) RoundStepPrecommit)) cs.
Proof.
  intros Hok Hs. pose proof (good_to_precommit cs Hs) as Hafter. unfold do_precommit.
  apply good_deferred_gget, good_deferred_get_Votes; [done|]. intros v Hv. apply good_deferred_glift; [done|]. intros o Ho.
  destruct (the_majority o) as [bid ok] eqn:Em. destruct ok; cbn [negb]; [|by apply (good_precommit _ _ v)].
  pose proof (the_majority_has_maj _ _ _ _ _ Ho Em) as Hm.
  apply good_deferred_glift; [done|]. intros [polRound x] _. destruct (polRound <? _); [by apply good_deferred_panic|].
  pose proof (fun b => locked_hash cs b Hok) as Hlk.
  case_bool_decide as Hnil.
  { destruct (st_Block (rs_Locked (cs_rs cs))) as [b|] eqn:Eb.
    - refine (good_unlocked_precommit (mret tt) v bid cs Hs Hv (quiet_ret tt) Hm _).
      intros b' Hb'. rewrite Eb in Hb'. rewrite Hnil. intros Heq. by destruct (Hlk b').
    - apply good_deferred_bind; [apply good_ret| |by intros cs1 ->]. intros u cs1 [= _ <-]. by apply (good_precommit _ _ v). }
  destruct (HashesTo (st_Block (rs_Locked (cs_rs cs))) (bid_Hash bid)) eqn:El.
  { destruct (st_Block (rs_Locked (cs_rs cs))) as [b|] eqn:Eb; [by apply (good_locked_precommit _ _ v)|].
    unfold HashesTo in El. by case_bool_decide. }
  assert (Hun : good (deferred (precommit_unknown w (rs_Proposed (cs_rs cs)) bid)
                        (updateRoundStep (rs_Round (cs_rs cs)) RoundStepPrecommit)) cs).
  { unfold precommit_unknown. apply (good_unlocked_precommit _ v bid); [done|done|quietly|done|].
    intros b Hb. rewrite Hb in El. by apply HashesTo_false; [apply Hlk|]. }
  destruct (rs_ProposalBlock (rs_Proposed (cs_rs cs))) as [b|]; [|done].
  destruct (HashesTo (Some b) (bid_Hash bid)) eqn:Eb; [|done].
  destruct (negb _); [by apply good_deferred_panic|by apply (good_locked_precommit _ _ v)].
Qed.

Lemma enterPrecommit_good height round cs :
  (rs_Height (cs_rs cs) = height -> round <= rs_Round (cs_rs cs)) -> good (enterPrecommit w height round) cs.
Proof.
  intros Hle. unfold enterPrecommit. apply good_rget. destruct (_ || _) eqn:Eg; [apply good_ret|].
  apply guard_here in Eg as (Hh & -> & Hs); [|done]. intros Hok. by apply do_precommit_good.
Qed.

(** *** Commits *)

#[local] Ltac case_if_ E := match goal with |- ConsensusSpec.good _ (if ?c then _ else _) _ => destruct c eqn:E end.
#[local] Tactic Notation "case_if" "as" ident(E) := case_if_ E.
#[local] Tactic Notation "case_if" := let E := fresh "E" in case_if_ E.

Lemma quiet_next_LastCommit rs state : quiet (next_LastCommit rs state).
Proof. unfold next_LastCommit. quietly. Qed.

Lemma updateToState_good state cs :
  0 <= rs_CommitRound (cs_rs cs) -> sm_LastBlockHeight state < int64_max -> voters_wf (sm_Voters state) ->
  good (updateToState config w state) cs.
Proof.
  intros Hcr Hmax Hwf Hok. revert Hok. unfold updateToState. apply good_gget.
  case_if as E1; [apply good_panic|]. do 2 (case_if; [apply good_panic|]). case_if; [apply good_ret|]. intros Hok. pose proof (nk_height _ Hok) as Hpos. revert Hok.
  assert (Hlbh : rs_Height (cs_rs cs) = sm_LastBlockHeight state).
  { rewrite (proj2 (Z.ltb_lt _ _)), (proj2 (Z.ltb_lt 0 _)) in E1 by lia. cbn in E1. lia. }
  rewrite <- Hlbh in *. rewrite wrap64_id by (unfold_ints; unfold int64_max in *; lia).
  rewrite (proj2 (Z.eqb_neq (rs_Height (cs_rs cs) + 1) 1)) by lia.
  apply good_quiet; [apply quiet_next_LastCommit|]. intros lc cs1 _ V1. apply good_glift. intros votes Hvotes [H1 H2 H3 H4 H5].
  unfold view_of in V1. injection V1 as V1 V2 V3 V4 V5 V6 V7. split.
  - apply rtc_once. unfold view_of at 2. cbn. eapply mi_height; [|exact Hwf|exact Hvotes]. cbn. lia.
  - constructor; cbn; try done; [lia|]. intros ti Hti%H4. unfold ti_ok, hr_le in *. cbn. lia.
Qed.

Lemma MakeCommit_height {E} s c : MakeCommit (E:=E) s = Ok c -> c_Height c = vs_height s.
Proof.
  unfold MakeCommit. destruct (negb _); [done|]. destruct (vs_maj23 s) as [m|]; [|done].
  intros (sigs & _ & H)%obind_Ok. unfold AggregateSignatures in H. case_bool_decide; [done|].
  apply obind_Ok in H as ([l a] & _ & H). by injection H as <-.
Qed.

Lemma SaveBlock_good v cr set bid b hd c cs :
  rs_Votes (cs_rs cs) = Some v -> set_of v cr PrecommitType = Some set -> vs_maj23 set = Some bid -> bid_Hash bid <> [] ->
  Block_Hash b = bid_Hash bid -> c_Height c = vs_height set -> good (SaveBlock b hd c) cs.
Proof.
  intros Hv Hs Hm Hne Hb Hc [H1 H2 H3 H4 H5]. split; [|by constructor]. apply rtc_once. unfold view_of. cbn.
  rewrite Hv. unfold saved_view at 2. cbn. rewrite Hc, Hb. by eapply mi_save.
Qed.

Lemma finalizeCommit_good height cs : good (finalizeCommit config w height) cs.
Proof.
  unfold finalizeCommit. apply good_gget. destruct (_ || _) eqn:Eg; [apply good_ret|].
  rewrite orb_false_iff, !negb_false_iff, !Z.eqb_eq in Eg. destruct Eg as [Hh Hs].
  intros Hok. pose proof (nk_commit _ Hok Hs) as Hcr. revert Hok.
  apply good_get_Votes. intros v Hv. apply good_glift. intros o Ho. destruct (the_majority o) as [bid ok] eqn:Em.
  destruct ok; cbn [negb]; [|apply good_panic]. destruct (HasHeader _ _); cbn [negb]; [|apply good_panic].
  destruct (HashesTo _ _) eqn:Eh; cbn [negb]; [|apply good_panic].
  destruct (rs_ProposalBlock (rs_Proposed (cs_rs cs))) as [block|]; [|apply good_panic].
  destruct o as [set|]; [|apply good_panic]. destruct (negb _); [apply good_panic|].
  apply HashesTo_true in Eh as [Hb Hne]. apply getVoteSet_set_of in Ho. symmetry in Ho.
  assert (Hm : vs_maj23 set = Some bid) by (cbn in Em; unfold TwoThirdsMajority in Em; destruct (vs_maj23 set); congruence).
  apply good_bind.
  - destruct (_ <? _); [|apply good_ret]. apply good_glift. intros c Hc%MakeCommit_height. by eapply SaveBlock_good.
  - intros u cs1 Hrun _ _. assert (Hrs : cs_rs cs1 = cs_rs cs).
    { destruct (_ <? _); [|by injection Hrun as _ <-]. apply gbind_Ok in Hrun as (c & cs2 & H1 & H2).
      injection H1 as _ <-. by injection H2 as _ <-. }
    destruct (negb _); [apply good_panic|]. destruct (ApplyBlock _ _ _) as [state|] eqn:Ea; [|apply good_ret].
    apply good_bind; [apply updateToState_good; [by rewrite Hrs|by eapply apply_height|by eapply apply_voters]|]. intros _ cs2 _ _ _.
    apply good_quiet; [apply quiet_updatePrivValidatorPubKey|]. intros _ cs3 _ _.
    unfold scheduleRound0. apply good_rget. intros Hok3. apply good_scheduleTimeout; [|done]. right.
    split; [done|apply Hok3].
Qed.

Lemma tryFinalizeCommit_good height cs : good (tryFinalizeCommit config w height) cs.
Proof.
  unfold tryFinalizeCommit. apply good_rget. destruct (negb _); [apply good_panic|]. apply good_get_Votes. intros v _.
  apply good_glift. intros o _. destruct (the_majority o) as [bid ok]. destruct (_ || _); [apply good_ret|].
  destruct (negb _); [apply good_ret|apply finalizeCommit_good].
Qed.

Lemma quiet_do_commit round : quiet (do_commit round).
Proof. unfold do_commit. quietly. Qed.

Lemma enterCommit_good height round cs : 0 <= round -> good (enterCommit config w height round) cs.
Proof.
  intros Hr. unfold enterCommit. apply good_rget. destruct (_ || _) eqn:Eg; [apply good_ret|].
  rewrite orb_false_iff, Z.leb_gt in Eg. destruct Eg as [_ Hs].
  apply good_deferred; [apply quiet_good, quiet_do_commit|]. intros cs1 -> _.
  destruct (quiet_do_commit round cs) as (V & _). apply view_hrs in V as (_ & _ & V3 & _).
  set (cs1 := snd (do_commit round cs)) in *. apply good_rget. intros [H1 H2 H3 H4 H5].
  set (cs2 := snd (set_Commit round (w_now w) (snd (updateRoundStep (rs_Round (cs_rs cs1)) RoundStepCommit cs1)))).
  assert (Hok2 : node_ok cs2) by (by constructor).
  destruct (tryFinalizeCommit_good height cs2 Hok2) as [G1 G2]. split; [|done].
  eapply rtc_l; [|exact G1]. apply mi_step. rewrite V3. by apply Z.lt_le_incl.
Qed.

(** ** Messages *)

Lemma handleCompleteProposal_good height cs : good (handleCompleteProposal config w height) cs.
Proof.
  unfold handleCompleteProposal. apply good_rget, good_get_Votes. intros v Hv. apply good_glift. intros o _.
  destruct (the_majority o) as [bid ok]. apply good_quiet; [quietly|]. intros _ cs1 _ V1.
  apply good_quiet; [quietly; apply quiet_isProposalComplete|]. intros complete cs2 _ V2. rewrite V1 in V2.
  apply view_hrs in V2 as (_ & A2 & _). destruct complete.
  - apply good_bind; [apply enterPrevote_good; lia|]. intros _ cs3 _ _ _. destruct ok; [|apply good_ret].
    apply good_rget, enterPrecommit_good. done.
  - destruct (_ =? _); [apply tryFinalizeCommit_good|apply good_ret].
Qed.

Lemma add_last_precommit_good v cs : good (add_last_precommit config w v) cs.
Proof.
  unfold add_last_precommit. apply good_rget. destruct (negb _); [apply good_ret|].
  destruct (rs_LastCommit (cs_rs cs)) as [lc|]; [|apply good_panic]. apply good_glift. intros [[added err] lc'] _.
  apply good_quiet; [auto with quiet|]. intros _ cs1 _ _. destruct (negb added); [apply good_ret|].
  destruct (negb _); [apply good_ret|]. apply good_quiet; [quietly; apply quiet_has_all|]. intros all cs2 _ _.
  apply good_bind; [destruct all; [apply enterNewRound_good|apply good_ret]|]. intros _ cs3 _ _ _. apply good_ret.
Qed.

Lemma on_polka_good round bid v cs :
  rs_Votes (cs_rs cs) = Some v -> has_maj v round PrevoteType bid -> good (on_polka w round bid) cs.
Proof.
  intros Hv Hm. unfold on_polka. apply good_rget. intros Hok. revert Hok. apply good_bind.
  - destruct (st_Block (rs_Locked (cs_rs cs))) as [b|] eqn:Eb; [|apply good_ret].
    destruct (_ && _ && _) eqn:Eu; [|apply good_ret].
    rewrite !andb_true_iff, Z.ltb_lt, Z.leb_le, negb_true_iff in Eu. destruct Eu as [[U1 U2] U3].
    intros Hok. eapply (good_unlock v round bid); [done|done|by left|done| |done]. intros b' Hb'. rewrite Eb in Hb'.
    injection Hb' as <-. apply HashesTo_false; [|done]. by eapply locked_hash.
  - intros _ cs1 _ _ _. destruct (_ && _); [apply good_ret|]. destruct (_ && _ && _); [|apply good_ret]. apply quiet_good.
    quietly.
Qed.

Lemma on_polka_rs round bid cs a cs' :
  on_polka w round bid cs = (Ok a, cs') ->
  rs_Height (cs_rs cs') = rs_Height (cs_rs cs) /\ rs_Round (cs_rs cs') = rs_Round (cs_rs cs).
Proof.
  unfold on_polka. intros (rs & cs0 & [= <- <-] & H)%gbind_Ok. apply gbind_Ok in H as (u & cs1 & H1 & H2).
  assert (Hrs : rs_Height (cs_rs cs1) = rs_Height (cs_rs cs) /\ rs_Round (cs_rs cs1) = rs_Round (cs_rs cs)).
  { destruct (st_Block _); [destruct (_ && _)|]; by injection H1 as _ <-. }
  destruct (_ && _) in H2; [by injection H2 as _ <-|]. destruct (_ && _ && _) in H2; [|by injection H2 as _ <-].
  destruct (HashesTo _ _) in H2; by injection H2 as _ <-.
Qed.

Lemma after_prevote_good round bid ok cs :
  good (after_prevote config w (rs_Height (cs_rs cs)) round bid ok) cs.
Proof.
  unfold after_prevote. apply good_rget. apply good_bind; [destruct (_ <? _); [apply has_any_good|apply good_ret]|].
  intros ahead cs1 Hrun _ _.
  assert (Hrs : rs_Height (cs_rs cs1) = rs_Height (cs_rs cs) /\ rs_Round (cs_rs cs1) = rs_Round (cs_rs cs)).
  { destruct (_ <? _) in Hrun; [|by injection Hrun as _ <-]. by apply has_any_rs in Hrun as (? & ? & _). }
  clear Hrun. destruct Hrs as [A1 A2]. destruct ahead; [apply enterNewRound_good|]. case_if as Ec.
  - apply andb_true_iff in Ec as [Ec%Z.eqb_eq _].
    apply good_quiet; [quietly; apply quiet_isProposalComplete|]. intros complete cs2 _ (B1 & B2 & _)%view_hrs.
    case_if; [apply enterPrecommit_good; lia|]. apply good_bind; [apply has_any_good|].
    intros any cs3 (C1 & C2 & _)%has_any_rs _ _. destruct any; [apply enterPrevoteWait_good; lia|apply good_ret].
  - destruct (rs_Proposal _); [|apply good_ret]. case_if; [|apply good_ret].
    apply good_quiet; [apply quiet_isProposalComplete|]. intros complete cs2 _ _.
    destruct complete; [|apply good_ret]. apply good_rget, enterPrevote_good. done.
Qed.

(** Entering a round and then a step of it. *)
Lemma good_new_round_then {A} height round (k : CM A) cs :
  rs_Height (cs_rs cs) = height ->
  (forall cs1, (rs_Height (cs_rs cs1) = height -> round <= rs_Round (cs_rs cs1)) -> good k cs1) ->
  good (enterNewRound config w height round;; k) cs.
Proof.
  intros Hh Hk Hok. pose proof (proj2 (enterNewRound_spec height round cs Hok)) as Hround. revert Hok.
  apply good_bind; [apply enterNewRound_good|]. intros u cs1 Hrun _ _. apply Hk. intros Hh1. by eapply Hround.
Qed.

(** A step keeps a round the node has reached. *)
Lemma vle_reached height round cs cs1 :
  vle (view_of cs) (view_of cs1) -> hr_le height round (rs_Height (cs_rs cs)) (rs_Round (cs_rs cs)) ->
  hr_le height round (rs_Height (cs_rs cs1)) (rs_Round (cs_rs cs1)).
Proof. unfold vle, hr_le. cbn. lia. Qed.

Lemma after_precommit_good round cs :
  0 <= round -> good (after_precommit config w (rs_Height (cs_rs cs)) round) cs.
Proof.
  intros Hr. unfold after_precommit. apply good_get_Votes. intros v _. apply good_glift. intros o _.
  destruct (the_majority o) as [bid ok]. destruct ok.
  - intros Hok. destruct (enterNewRound_spec (rs_Height (cs_rs cs)) round cs Hok) as [_ Hround]. revert Hok.
    apply good_bind; [apply enterNewRound_good|]. intros u cs1 Hrun _ L1.
    assert (H1 : hr_le (rs_Height (cs_rs cs)) round (rs_Height (cs_rs cs1)) (rs_Round (cs_rs cs1))).
    { destruct (decide (rs_Height (cs_rs cs1) = rs_Height (cs_rs cs))) as [Heq|Hne].
      - right. split; [done|]. by eapply Hround.
      - unfold vle, hr_le in L1. cbn in L1. left. lia. }
    clear Hround Hrun L1. apply good_bind; [apply enterPrecommit_good; unfold hr_le in H1; lia|].
    intros _ cs2 _ _ L2. pose proof (vle_reached _ _ _ _ L2 H1) as H2. case_if.
    + apply good_bind; [by apply enterCommit_good|]. intros _ cs3 _ _ _.
      apply good_quiet; [quietly; apply quiet_has_all|]. intros all cs4 _ _. destruct all; [|apply good_ret].
      apply good_rget, enterNewRound_good.
    + apply enterPrecommitWait_good. unfold hr_le in H2. lia.
  - apply good_rget. apply good_bind; [case_if; [apply has_any_good|apply good_ret]|]. intros any cs1 Hrun _ _.
    assert (Hh : rs_Height (cs_rs cs1) = rs_Height (cs_rs cs)).
    { destruct (_ <=? _) in Hrun; [|by injection Hrun as _ <-]. by apply has_any_rs in Hrun as (? & _). }
    clear Hrun. destruct any; [|apply good_ret]. apply good_new_round_then; [done|]. intros cs2 H2.
    by apply enterPrecommitWait_good.
Qed.

Lemma addVote_good v peer cs : recv v -> 0 <= v_Round v -> good (addVote config w v peer) cs.
Proof.
  intros Hrecv Hr. unfold addVote. apply good_rget. case_if; [apply add_last_precommit_good|]. case_if; [apply good_ret|].
  apply good_get_Votes. intros votes Hv. apply good_glift. intros [[added err] votes'] Ha.
  apply good_bind.
  { intros [H1 H2 H3 H4 H5]. split; [|by constructor]. apply rtc_once. unfold view_of. cbn. rewrite Hv. constructor.
    exact (mv_add recv votes v peer _ Hrecv Ha). }
  intros u cs1 [= _ <-] _ _. set (cs1 := set_rs cs _). case_if; [apply good_ret|]. case_if; [apply good_ret|].
  case_if; [|case_if; [|apply good_panic]].
  - apply good_glift. intros o Ho. destruct (the_majority o) as [bid ok] eqn:Em. apply good_bind.
    + destruct ok; [|apply good_ret]. apply (on_polka_good _ _ votes'); [done|]. by eapply the_majority_has_maj.
    + intros published cs2 Hrun _ _.
      assert (Hh : rs_Height (cs_rs cs2) = rs_Height (cs_rs cs)).
      { destruct ok; [|by injection Hrun as _ <-]. by apply on_polka_rs in Hrun as [? _]. }
      case_if; [apply good_ret|]. apply good_bind; [rewrite <- Hh; apply after_prevote_good|].
      intros _ cs3 _ _ _. apply good_ret.
  - apply good_bind; [by apply (after_precommit_good (v_Round v) cs1)|]. intros _ cs3 _ _ _. apply good_ret.
Qed.

Lemma tryAddVote_good v peer cs : recv v -> 0 <= v_Round v -> good (tryAddVote config w v peer) cs.
Proof.
  intros Hrecv Hr. unfold tryAddVote. apply good_bind; [by apply addVote_good|]. intros [added err] cs1 _ _ _.
  apply quiet_good. quietly.
Qed.

(** ** Events *)

Lemma handleMsg_good msg peer cs :
  (forall v, msg = VoteMessage v -> recv v /\ 0 <= v_Round v) -> good (handleMsg config w msg peer) cs.
Proof.
  intros Hv. destruct msg as [p|h r part|v]; cbn [handleMsg].
  - apply quiet_good. apply quiet_bind; [|auto with quiet]. apply quiet_attempt, quiet_defaultSetProposal.
  - apply good_quiet; [apply quiet_addProposalBlockPart|]. intros [added err] cs1 _ _. apply good_rget.
    destruct added; [|apply good_ret]. destruct (rs_ProposalBlockParts _) as [ps|]; [|apply good_panic].
    case_if; [apply handleCompleteProposal_good|apply good_ret].
  - destruct (Hv v eq_refl) as [Hrecv Hr]. apply good_bind; [by apply tryAddVote_good|]. intros ? cs1 _ _ _. apply good_ret.
Qed.

Lemma handleTimeout_good ti cs : ti_ok cs ti -> good (handleTimeout config w ti) cs.
Proof.
  intros Hti Hok. pose proof (nk_round _ Hok) as H0. revert Hok. unfold ti_ok, hr_le in Hti.
  unfold handleTimeout. apply good_rget. case_if as Eg; [apply good_ret|].
  rewrite !orb_false_iff, negb_false_iff, Z.eqb_eq, Z.ltb_ge in Eg. destruct Eg as [[Hh Hr] _].
  case_if; [apply enterNewRound_good|]. case_if; [apply enterPropose_good; lia|]. case_if; [apply enterPrevote_good; lia|].
  case_if; [apply enterPrecommit_good; lia|]. case_if; [|apply good_panic].
  apply good_bind; [apply enterPrecommit_good; lia|]. intros _ cs1 _ _ _. apply enterNewRound_good.
Qed.

Lemma handleTxsAvailable_good cs : good (handleTxsAvailable w) cs.
Proof.
  unfold handleTxsAvailable. apply good_rget. case_if as Eg; [apply good_ret|]. apply negb_false_iff, Z.eqb_eq in Eg. case_if.
  - apply good_quiet; [apply quiet_needProofBlock|]. intros need cs1 _ (A1 & A2 & _)%view_hrs.
    destruct need; [apply good_ret|]. apply good_scheduleTimeout. right. lia.
  - case_if; [apply enterPropose_good; lia|apply good_ret].
Qed.

Lemma handleVoteSetMaj23_good height round typ peer b cs : good (handleVoteSetMaj23 height round typ peer b) cs.
Proof.
  unfold handleVoteSetMaj23. apply good_rget. case_if; [apply good_ret|]. apply good_get_Votes. intros v Hv.
  destruct (HVS_SetPeerMaj23 v round typ peer b) as [v'|e|] eqn:Ep; [|apply good_ret|apply good_panic].
  intros [H1 H2 H3 H4 H5]. split; [|by constructor]. apply rtc_once. unfold view_of. cbn. rewrite Hv. constructor.
  by eapply mv_peer.
Qed.

End recv.
End refine.
