(* ===== verification/Quorum.v ===== *)
(** * Quorums and the log of votes

    The combinatorial part of agreement: which rules on the votes of honest
    voters make two quorums for different blocks impossible.  The votes honest
    nodes signed form a log, newest first; the rules speak of a vote and of the
    log before it. *)

From Stdlib Require Import ZArith Lia.
From stdpp Require Import prelude list.
From S2P Require Import Prelude Proto Crypto Validator ValidatorSet Block VoterSet VerifyCommit Slots VoteSet VoteSetInv.

Local Open Scope Z_scope.

(** ** Weights of groups of voters *)

(** The weight of the voters at the positions [p] holds of. *)
Fixpoint weight_of (p : nat -> bool) (vs : list Validator) : Z :=
  match vs with
  | [] => 0
  | v :: rest => (if p 0%nat then VotingWeight v else 0) + weight_of (fun i => p (S i)) rest
  end.

Lemma weight_of_voted vs : forall votes, length votes = length vs ->
  voted vs votes = weight_of (fun i => has (default None (votes !! i))) vs.
Proof.
  induction vs as [|v vs IH]; intros [|o votes] Hl; try done. injection Hl as Hl. unfold voted in *. cbn [zip_with Zsum weight_of].
  rewrite (IH votes Hl). by destruct o.
Qed.

Lemma weight_of_le (p q : nat -> bool) vs :
  Forall (fun v => 0 <= VotingWeight v) vs -> (forall i, (i < length vs)%nat -> p i = true -> q i = true) ->
  weight_of p vs <= weight_of q vs.
Proof.
  revert p q. induction vs as [|v vs IH]; intros p q Hp Hpq; [done|]. apply Forall_cons in Hp as [Hv Hp]. cbn.
  pose proof (IH (fun i => p (S i)) (fun i => q (S i)) Hp (fun i Hi => Hpq (S i) ltac:(cbn; lia))) as Hrest.
  pose proof (Hpq 0%nat ltac:(cbn; lia)). destruct (p 0%nat), (q 0%nat); naive_solver lia.
Qed.

Lemma weight_of_and (p q : nat -> bool) vs :
  Forall (fun v => 0 <= VotingWeight v) vs ->
  weight_of p vs + weight_of q vs <= Zsum (weights vs) + weight_of (fun i => p i && q i) vs.
Proof.
  revert p q. induction vs as [|v vs IH]; intros p q Hp; [done|]. apply Forall_cons in Hp as [Hv Hp].
  pose proof (IH (fun i => p (S i)) (fun i => q (S i)) Hp). rewrite fmap_cons. cbn [weight_of Zsum].
  cbv beta in *. destruct (p 0%nat), (q 0%nat); cbn [andb]; lia.
Qed.

(** ** Votes of honest nodes *)

Section quorum.
  Context (h : Z) (vs : list Validator) (honest : nat -> bool).

Definition supports (G : list (nat * Vote)) (i : nat) (typ r : Z) (hash : bytes) : Prop :=
  exists v, (i, v) ∈ G /\ v_Type v = typ /\ v_Height v = h /\ v_Round v = r /\ bid_Hash (v_BlockID v) = hash.

(** Voters with more than two thirds of the weight, the honest ones of which
    signed. *)
Definition quorum_in (G : list (nat * Vote)) (typ r : Z) (hash : bytes) (q : list (option Vote)) : Prop :=
  length q = length vs /\ 2 * Zsum (weights vs) < 3 * voted vs q /\
  forall (i : nat) v, q !! i = Some (Some v) -> honest i = true -> supports G i typ r hash.

Definition quorum (G : list (nat * Vote)) (typ r : Z) (hash : bytes) : Prop := exists q, quorum_in G typ r hash q.

Lemma supports_mono G G' i typ r hash : (forall x, x ∈ G -> x ∈ G') -> supports G i typ r hash -> supports G' i typ r hash.
Proof. intros HG (v & Hv & Hrest). exists v. eauto. Qed.

Lemma quorum_mono G G' typ r hash : (forall x, x ∈ G -> x ∈ G') -> quorum G typ r hash -> quorum G' typ r hash.
Proof. intros HG (q & H1 & H2 & H3). exists q. split_and!; [done..|]. eauto using supports_mono. Qed.

(** What a node may sign after the votes [B]. *)
Record law (B : list (nat * Vote)) (i : nat) (v : Vote) : Prop := {
  law_order : forall v0, (i, v0) ∈ B -> v_Height v0 = h ->
    v_Round v0 < v_Round v \/ v_Round v0 = v_Round v /\ v_Type v0 = PrevoteType /\ v_Type v = PrecommitType;
  law_polka : v_Type v = PrecommitType -> bid_Hash (v_BlockID v) <> [] ->
    quorum B PrevoteType (v_Round v) (bid_Hash (v_BlockID v));
  law_lock : v_Type v = PrevoteType -> forall v0, (i, v0) ∈ B -> v_Height v0 = h -> v_Type v0 = PrecommitType ->
    bid_Hash (v_BlockID v0) <> [] -> bid_Hash (v_BlockID v0) <> bid_Hash (v_BlockID v) ->
    exists r hash, v_Round v0 < r <= v_Round v /\ hash <> bid_Hash (v_BlockID v0) /\ quorum B PrevoteType r hash
}.

Fixpoint lawful (G : list (nat * Vote)) : Prop :=
  match G with
  | [] => True
  | (i, v) :: B => lawful B /\ (v_Height v = h -> law B i v)
  end.

Lemma lawful_app A B : lawful (A ++ B) -> lawful B.
Proof. induction A as [|[i v] A IH]; [done|]. intros [H _]. by apply IH. Qed.

Lemma lawful_split A i v B : lawful (A ++ (i, v) :: B) -> v_Height v = h -> law B i v.
Proof. intros [_ H]%lawful_app. done. Qed.

Lemma types_differ : PrevoteType <> PrecommitType.
Proof. done. Qed.

(** One vote of each type per round. *)
Lemma lawful_unique G i v v' :
  lawful G -> (i, v) ∈ G -> (i, v') ∈ G -> v_Height v = h -> v_Height v' = h -> v_Round v = v_Round v' ->
  v_Type v = v_Type v' -> v = v'.
Proof.
  induction G as [|[j u] G IH]; intros Hl Hv Hv' Hh Hh' Hr Ht; [by apply not_elem_of_nil in Hv|].
  destruct Hl as [Hl Hu]. apply elem_of_cons in Hv as [E1|Hv], Hv' as [E2|Hv'].
  - congruence.
  - injection E1 as <- <-. destruct (law_order _ _ _ (Hu Hh) v' Hv' Hh') as [|(? & ? & ?)]; [lia|by destruct types_differ; congruence].
  - injection E2 as <- <-. destruct (law_order _ _ _ (Hu Hh') v Hv Hh) as [|(? & ? & ?)]; [lia|by destruct types_differ; congruence].
  - by apply IH.
Qed.

(** ** Agreement *)

Context (Hpos : Forall (fun v => 0 <= VotingWeight v) vs).
Context (Hbyz : 3 * weight_of (fun i => negb (honest i)) vs < Zsum (weights vs)).

Lemma quorums_meet G1 G2 t1 t2 r1 r2 b1 b2 q1 q2 :
  quorum_in G1 t1 r1 b1 q1 -> quorum_in G2 t2 r2 b2 q2 ->
  exists (i : nat) v1 v2, honest i = true /\ q1 !! i = Some (Some v1) /\ q2 !! i = Some (Some v2).
Proof.
  intros (L1 & W1 & _) (L2 & W2 & _). rewrite weight_of_voted in W1, W2 by done.
  set (p1 := fun i => has (default None (q1 !! i))) in *. set (p2 := fun i => has (default None (q2 !! i))) in *.
  destruct (decide (Exists (fun i => honest i && p1 i && p2 i) (seq 0 (length vs)))) as [He|Hn].
  - apply Exists_exists in He as (i & _ & Hi). apply Is_true_true in Hi. rewrite !andb_true_iff in Hi. destruct Hi as [[Hi H1] H2].
    unfold p1, p2 in *. destruct (q1 !! i) as [[v1|]|] eqn:E1; try done. destruct (q2 !! i) as [[v2|]|] eqn:E2; try done.
    by exists i, v1, v2.
  - exfalso. pose proof (weight_of_and p1 p2 vs Hpos) as Hand.
    pose proof (weight_of_le (fun i => p1 i && p2 i) (fun i => negb (honest i)) vs Hpos) as Hle.
    assert (weight_of (fun i => p1 i && p2 i) vs <= weight_of (fun i => negb (honest i)) vs); [|lia].
    apply Hle. intros i Hi [H1 H2]%andb_true_iff. destruct (honest i) eqn:Eh; [|done]. exfalso. apply Hn.
    apply Exists_exists. exists i. split; [apply elem_of_seq; lia|]. by rewrite Eh, H1, H2.
Qed.

(** A voter that signed for a block with a quorum of precommits prevotes for
    nothing else later. *)
Lemma no_deviation G r1 b1 q1 :
  lawful G -> b1 <> [] -> quorum_in G PrecommitType r1 b1 q1 -> forall A B, G = A ++ B ->
  forall (k : nat) u v, q1 !! k = Some (Some u) -> honest k = true -> (k, v) ∈ B -> v_Height v = h ->
    v_Type v = PrevoteType -> r1 < v_Round v -> bid_Hash (v_BlockID v) = b1.
Proof.
  intros Hl Hne Hq A B. revert A. induction B as [|x B IH]; intros A -> k u v Hu Hk Hv Hh Ht Hr; [by apply not_elem_of_nil in Hv|].
  apply elem_of_cons in Hv as [<-|Hv]; [|eapply (IH (A ++ [x])); eauto; by rewrite <- app_assoc].
  pose proof (lawful_split _ _ _ _ Hl Hh) as Hlaw.
  destruct (proj2 (proj2 Hq) k u Hu Hk) as (v0 & Hv0 & T0 & H0 & R0 & B0).
  apply elem_of_app in Hv0 as [Hv0|[[= ->]|Hv0]%elem_of_cons].
  - apply list_elem_of_split in Hv0 as (A1 & A2 & ->). rewrite <- app_assoc in Hl. cbn in Hl.
    destruct (law_order _ _ _ (lawful_split _ _ _ _ Hl H0) v) as [|(? & ? & ?)]; [set_solver|done|lia|lia].
  - rewrite Ht in T0. done.
  - destruct (decide (bid_Hash (v_BlockID v) = b1)) as [|Hdiff]; [done|]. exfalso.
    destruct (law_lock _ _ _ Hlaw Ht v0 Hv0 H0 T0) as (r & hash & Hr' & Hh' & (q2 & Hq2)); [congruence|congruence|].
    destruct (quorums_meet _ _ _ _ _ _ _ _ _ _ Hq Hq2) as (k' & u1 & u2 & Hk' & Hu1 & Hu2).
    destruct (proj2 (proj2 Hq2) k' u2 Hu2 Hk') as (v2 & Hv2 & T2 & H2 & R2 & B2).
    apply Hh'. rewrite <- B2, B0. eapply (IH (A ++ [(k, v)])); [by rewrite <- app_assoc|exact Hu1|done|exact Hv2|done|done|lia].
Qed.

Lemma agreement_forward G r1 b1 r2 b2 :
  lawful G -> r1 <= r2 -> quorum G PrecommitType r1 b1 -> quorum G PrecommitType r2 b2 -> b1 <> [] -> b2 <> [] -> b1 = b2.
Proof.
  intros Hl Hr (q1 & Hq1) (q2 & Hq2) N1 N2.
  destruct (decide (r1 = r2)) as [<-|Hne].
  - destruct (quorums_meet _ _ _ _ _ _ _ _ _ _ Hq1 Hq2) as (k & u1 & u2 & Hk & Hu1 & Hu2).
    destruct (proj2 (proj2 Hq1) k u1 Hu1 Hk) as (v1 & Hv1 & T1 & H1 & R1 & <-).
    destruct (proj2 (proj2 Hq2) k u2 Hu2 Hk) as (v2 & Hv2 & T2 & H2 & R2 & <-).
    by rewrite (lawful_unique G k v1 v2) by congruence.
  - destruct (quorums_meet _ _ _ _ _ _ _ _ _ _ Hq2 Hq2) as (j & u & _ & Hj & Hu & _).
    destruct (proj2 (proj2 Hq2) j u Hu Hj) as (v2 & Hv2 & T2 & H2 & R2 & B2).
    apply list_elem_of_split in Hv2 as (A & B & ->).
    destruct (law_polka _ _ _ (lawful_split _ _ _ _ Hl H2) T2) as (q3 & Hq3); [congruence|].
    destruct (quorums_meet _ _ _ _ _ _ _ _ _ _ Hq1 Hq3) as (k & u1 & u3 & Hk & Hu1 & Hu3).
    destruct (proj2 (proj2 Hq3) k u3 Hu3 Hk) as (v3 & Hv3 & T3 & H3 & R3 & B3).
    rewrite <- B2, <- B3. symmetry.
    eapply (no_deviation _ r1 b1 q1 Hl N1 Hq1 (A ++ [(j, v2)]) B); [by rewrite <- app_assoc|exact Hu1|done|done|done|done|lia].
Qed.

Lemma log_agreement G r1 b1 r2 b2 :
  lawful G -> quorum G PrecommitType r1 b1 -> quorum G PrecommitType r2 b2 -> b1 <> [] -> b2 <> [] -> b1 = b2.
Proof.
  intros Hl Hq1 Hq2 N1 N2. destruct (Z.le_ge_cases r1 r2).
  - by eapply (agreement_forward G r1 b1 r2 b2).
  - symmetry. by eapply (agreement_forward G r2 b2 r1 b1).
Qed.

End quorum.
