(* ===== verification/Agreement.v ===== *)
(** * Agreement

    Honest nodes run the machine of Consensus.v on one height; the network
    delivers messages in any order, any number of times or never, and the other
    voters send what they like.  What is assumed of the network is that a vote
    with a valid signature of an honest voter was signed by that voter's node.
    The nodes follow the rules of ConsensusSpec.v, so their votes form a lawful
    log in the sense of Quorum.v. *)

From Stdlib Require Import ZArith Lia.
From stdpp Require Import prelude list gmap.
From S2P Require Import Prelude SafeMath Crypto Validator ValidatorSet Proto ProtoDecode Block VoterSet VerifyCommit Slots VoteSet VoteSetInv VoteSetProps HeightVoteSet PrivVal PartSet HeightVotesInv Consensus ConsensusSpec ConsensusRefine Quorum.

Local Open Scope Z_scope.

(** ** Events *)

Inductive event :=
| EvMessage (msg : Message) (peer : bytes)
| EvTimeout (ti : timeoutInfo)
| EvTxsAvailable
| EvVoteSetMaj23 (height round voteType : Z) (peer : bytes) (b : BlockID).

Section events.
  Context {crypto : CryptoLib} {codec : TimeCodec} {decoder : TimeDecoder} {lib : BlockLib}.

(** One turn of [receiveRoutine], or a claim the reactor passes on. *)
Definition handle {exec : Executor} (config : ConsensusConfig) (w : World) (ev : event) : CM unit :=
  match ev with
  | EvMessage msg peer => handleMsg config w msg peer
  | EvTimeout ti => handleTimeout config w ti
  | EvTxsAvailable => handleTxsAvailable w
  | EvVoteSetMaj23 height round typ peer b => handleVoteSetMaj23 height round typ peer b
  end.

Definition received (ev : event) (v : Vote) : Prop := exists peer, ev = EvMessage (VoteMessage v) peer.

(** Votes have passed [ValidateBasic], and a timeout fires after it was
    scheduled. *)
Definition event_ok (cs : State) (ev : event) : Prop :=
  (forall v, received ev v -> 0 <= v_Round v) /\ forall ti, ev = EvTimeout ti -> ti ∈ cs_timeouts cs.

Lemma handle_steps {exec : Executor} {laws : ExecutorLaws} config w ev cs :
  node_ok cs -> event_ok cs ev -> steps (received ev) cs (snd (handle config w ev cs)).
Proof.
  intros Hok [Hv Ht]. destruct ev as [msg peer|ti| |height round typ peer b]; cbn [handle].
  - apply handleMsg_good; [|done]. intros v ->. split; [by exists peer|]. apply Hv. by exists peer.
  - apply handleTimeout_good; [|done]. by apply (nk_timeouts _ Hok), Ht.
  - by apply handleTxsAvailable_good.
  - by apply handleVoteSetMaj23_good.
Qed.

End events.

(** ** One node and the log *)

Section node.
  Context {crypto : CryptoLib} {codec : TimeCodec}.
  Context (chainID : bytes) (h : Z) (vs : VoterSet) (honest : nat -> bool) (Hwf : voters_wf vs).

Definition same_vote (v v' : Vote) : Prop :=
  v_Type v' = v_Type v /\ v_Height v' = v_Height v /\ v_Round v' = v_Round v /\ v_BlockID v' = v_BlockID v.

(** A valid signature of an honest voter is one its node made. *)
Definition authentic (G : list (nat * Vote)) (pk : PubKey) (v : Vote) : Prop :=
  v_Height v = h -> forall j w, honest j = true -> Voters vs !! j = Some w -> vPubKey w = Some pk ->
    exists v', (j, v') ∈ G /\ same_vote v v'.

Definition known (G : list (nat * Vote)) (c : bytes) (pk : PubKey) (v : Vote) : Prop :=
  verified c pk v /\ authentic G pk v.

(** What the network may hand to a node. *)
Definition deliverable (G : list (nat * Vote)) (v : Vote) : Prop :=
  votable (v_BlockID v) /\ forall pk, Vote_Verify chainID pk v = Ok tt -> authentic G pk v.

#[local] Abbreviation lawful := (lawful h (Voters vs) honest).
#[local] Abbreviation quorum := (quorum h (Voters vs) honest).

Lemma known_mono G G' c pk v : (forall x, x ∈ G -> x ∈ G') -> known G c pk v -> known G' c pk v.
Proof.
  intros HG [Hv Ha]. split; [done|]. intros Hh j w Hj Hw Hpk. destruct (Ha Hh j w Hj Hw Hpk) as (v' & Hv' & Hs).
  exists v'. auto.
Qed.

Lemma majority_quorum G hvs r typ b :
  hv_ok (known G) chainID h vs hvs -> has_maj hvs r typ b -> quorum G typ r (bid_Hash b).
Proof.
  intros Hok Hm. destruct (majority_votes (known G) _ _ _ _ _ _ _ ltac:(by intros ??? []) Hok Hm) as (q & H1 & H2 & H3).
  exists q. split_and!; [done..|]. intros i v Hi Hh. destruct (H3 i v Hi) as (<- & Hv & <- & <- & w & pk & Hw & Hpk & _ & Ha).
  destruct (Ha Hv i w Hh Hw Hpk) as (v' & Hin & S1 & S2 & S3 & S4). exists v'. split_and!; congruence.
Qed.

(** The step at which a vote of a type is signed. *)
Definition step_of (typ : Z) : Z := if typ =? PrevoteType then RoundStepPrevote else RoundStepPrecommit.

(** A precommit for a block: the node is locked on it, or has seen a later
    majority for another. *)
Definition lock_kept (a : view) (hvs : HeightVoteSet) (v : Vote) : Prop :=
  (exists lr, vw_locked a = Some (lr, bid_Hash (v_BlockID v)) /\ v_Round v <= lr) \/
  (exists pr b, v_Round v < pr <= vw_round a /\ has_maj hvs pr PrevoteType b /\ bid_Hash b <> bid_Hash (v_BlockID v)).

Record at_height (i : nat) (a : view) (G : list (nat * Vote)) (hvs : HeightVoteSet) : Prop := {
  ah_votes : vw_votes a = Some hvs;
  ah_ok : hv_ok (known G) chainID h vs hvs;
  ah_order : forall v, (i, v) ∈ G -> v_Height v = h ->
    v_Round v <= vw_round a /\ (v_Round v = vw_round a -> step_of (v_Type v) <= vw_step a);
  ah_lock : forall v, (i, v) ∈ G -> v_Height v = h -> v_Type v = PrecommitType -> bid_Hash (v_BlockID v) <> [] ->
    lock_kept a hvs v
}.

Record node_inv (i : nat) (a : view) (G : list (nat * Vote)) : Prop := {
  ni_height : h <= vw_height a;
  ni_here : vw_height a = h -> exists hvs, at_height i a G hvs;
  ni_later : h < vw_height a -> exists hvs c vs', vw_votes a = Some hvs /\ voters_wf vs' /\
    hv_ok verified c (vw_height a) vs' hvs;
  ni_saved : forall b, (h, b) ∈ vw_saved a -> b <> [] /\ exists r, quorum G PrecommitType r b
}.

Lemma node_inv_mono i a G G' :
  (forall x, x ∈ G -> x ∈ G') -> (forall v, (i, v) ∈ G' -> (i, v) ∈ G) -> node_inv i a G -> node_inv i a G'.
Proof.
  intros HG Hi [H1 H2 H3 H4]. constructor; try done.
  - intros Hh. destruct (H2 Hh) as [hvs [A1 A2 A3 A4]]. exists hvs. constructor; [done| |auto..].
    eapply hv_ok_mono; [|exact A2]. intros c pk v. by apply known_mono.
  - intros b Hb. destruct (H4 b Hb) as (Hne & r & Hq). split; [done|]. exists r. by eapply quorum_mono.
Qed.

(** *** Moves without a vote *)

Lemma at_height_silent i h0 r s l v sent saved r' s' l' hvs v' saved' G :
  at_height i (mkView h0 r s l v sent saved) G hvs -> hv_ok (known G) chainID h vs v' -> majs_kept hvs v' ->
  r < r' \/ r = r' /\ s <= s' ->
  (forall u, (i, u) ∈ G -> v_Height u = h -> v_Type u = PrecommitType -> bid_Hash (v_BlockID u) <> [] ->
     lock_kept (mkView h0 r s l v sent saved) hvs u -> lock_kept (mkView h0 r' s' l' (Some v') sent saved') v' u) ->
  at_height i (mkView h0 r' s' l' (Some v') sent saved') G v'.
Proof.
  intros [A1 A2 A3 A4] Hok Hk Hrs Hl. constructor; [done|done| |].
  - intros u Hu Hh. destruct (A3 u Hu Hh) as [B1 B2]. cbn in *. lia.
  - intros u Hu Hh Ht Hne. apply Hl; auto.
Qed.

(** The lock stays: evidence is kept. *)
Lemma lock_kept_same h0 r s l v sent saved r' s' hvs v' saved' u :
  majs_kept hvs v' -> r <= r' ->
  lock_kept (mkView h0 r s l v sent saved) hvs u -> lock_kept (mkView h0 r' s' l (Some v') sent saved') v' u.
Proof.
  intros Hk Hr [(lr & Hl & Hle)|(pr & b & Hp & Hm & Hne)]; [left; by exists lr|right]. exists pr, b. cbn in *.
  split_and!; [lia|lia|by apply Hk|done].
Qed.

Lemma verified_recv (recv : Vote -> Prop) G :
  (forall v, recv v -> deliverable G v) -> forall c v pk, recv v -> Vote_Verify c pk v = Ok tt -> verified c pk v.
Proof. intros Hd c v pk Hr Hv. split; [done|]. by apply Hd. Qed.

Lemma known_recv (recv : Vote -> Prop) G :
  (forall v, recv v -> deliverable G v) -> forall v pk, recv v -> Vote_Verify chainID pk v = Ok tt -> known G chainID pk v.
Proof. intros Hd v pk Hr Hv. split; [by eapply verified_recv|]. by apply Hd. Qed.

(** *** Moves with a vote *)

Lemma prevote_law i h0 r s l v b vt sent saved G hvs :
  at_height i (mkView h0 r s l v sent saved) G hvs -> s < RoundStepPrevote ->
  vote_now (mkView h0 r s l v sent saved) PrevoteType b vt -> (forall lr lb, l = Some (lr, lb) -> bid_Hash b = lb) ->
  law h (Voters vs) honest G i vt.
Proof.
  intros [A1 A2 A3 A4] Hs (Ht & Hh & Hr & Hb) Hl. cbn in *. constructor.
  - intros v0 Hv0 Hh0. destruct (A3 v0 Hv0 Hh0) as [B1 B2]. left.
    assert (v_Round v0 <> r); [|lia]. intros Heq. specialize (B2 Heq). unfold step_of in B2.
    destruct (_ =? _); unfold RoundStepPrevote, RoundStepPrecommit in *; lia.
  - intros Ht'. by rewrite Ht in Ht'.
  - intros _ v0 Hv0 Hh0 Ht0 Hne Hdiff. destruct (A4 v0 Hv0 Hh0 Ht0 Hne) as [(lr & Hlk & _)|(pr & b0 & Hp & Hm & Hn)].
    + destruct Hdiff. cbn in Hlk. rewrite Hb. symmetry. by eapply Hl.
    + exists pr, (bid_Hash b0). cbn in Hp. split_and!; [lia|lia|done|by eapply majority_quorum].
Qed.

Lemma precommit_law i h0 r s l v b vt sent saved G :
  at_height i (mkView h0 r s l (Some v) sent saved) G v -> s < RoundStepPrecommit ->
  vote_now (mkView h0 r s l (Some v) sent saved) PrecommitType b vt ->
  (bid_Hash b <> [] -> l = Some (r, bid_Hash b) /\ has_maj v r PrevoteType b) ->
  law h (Voters vs) honest G i vt.
Proof.
  intros [A1 A2 A3 A4] Hs (Ht & Hh & Hr & Hb) Hl. cbn in *. constructor.
  - intros v0 Hv0 Hh0. destruct (A3 v0 Hv0 Hh0) as [B1 B2]. destruct (Z.eq_dec (v_Round v0) r) as [Heq|]; [right|left; lia].
    specialize (B2 Heq). unfold step_of in B2. destruct (Z.eqb_spec (v_Type v0) PrevoteType); [|lia]. by split_and!; [lia|..].
  - intros _ Hne. rewrite Hr, Hb in *. eapply majority_quorum; [done|]. by apply Hl.
  - intros Ht'. by rewrite Ht in Ht'.
Qed.

(** A new vote joins the log. *)
Lemma at_height_vote i h0 r s l v sent saved G hvs s' vt :
  at_height i (mkView h0 r s l v sent saved) G hvs -> s <= s' -> v_Round vt = r -> step_of (v_Type vt) <= s' ->
  (v_Type vt = PrecommitType -> bid_Hash (v_BlockID vt) <> [] -> l = Some (r, bid_Hash (v_BlockID vt))) ->
  at_height i (mkView h0 r s' l v (vt :: sent) saved) ((i, vt) :: G) hvs.
Proof.
  intros [A1 A2 A3 A4] Hs Hr Hst Hl. constructor; [done| | |].
  - eapply hv_ok_mono; [|exact A2]. intros c pk u. apply known_mono. intros x. apply list_elem_of_further.
  - intros u [[= ->]|Hu]%elem_of_cons Hh; cbn; [lia|]. destruct (A3 u Hu Hh). cbn in *. lia.
  - intros u [[= ->]|Hu]%elem_of_cons Hh Ht Hne; [left; exists r; cbn; split; [by apply Hl|lia]|]. by apply A4.
Qed.

Lemma node_inv_vote i h0 r s l v sent saved G s' vt :
  node_inv i (mkView h0 r s l v sent saved) G ->
  (forall hvs, h0 = h -> at_height i (mkView h0 r s l v sent saved) G hvs ->
     at_height i (mkView h0 r s' l v (vt :: sent) saved) ((i, vt) :: G) hvs) ->
  node_inv i (mkView h0 r s' l v (vt :: sent) saved) ((i, vt) :: G).
Proof.
  intros [H1 H2 H3 H4] Hat. cbn in *. constructor; cbn; try done.
  - intros Hh. destruct (H2 Hh) as [hvs Ha]. exists hvs. by apply Hat.
  - intros b Hb. destruct (H4 b Hb) as (Hne & q & Hq). split; [done|]. exists q. eapply quorum_mono; [|exact Hq].
    intros x. apply list_elem_of_further.
Qed.

(** ** A move keeps the invariant and the law *)

Definition moved (i : nat) (a a' : view) (G : list (nat * Vote)) : Prop :=
  exists new, vw_sent a' = new ++ vw_sent a /\ lawful ((pair i <$> new) ++ G) /\ node_inv i a' ((pair i <$> new) ++ G).

Lemma moved_silent i a a' G : lawful G -> vw_sent a' = vw_sent a -> node_inv i a' G -> moved i a a' G.
Proof. intros Hl Hs Hi. by exists []. Qed.

(** The height, the votes signed and the blocks saved stay. *)
Lemma moved_here i h0 r s l v v' r' s' l' sent saved G :
  lawful G -> node_inv i (mkView h0 r s l (Some v) sent saved) G ->
  (forall c vs', voters_wf vs' -> hv_ok verified c h0 vs' v -> hv_ok verified c h0 vs' v') ->
  (h0 = h -> at_height i (mkView h0 r s l (Some v) sent saved) G v -> at_height i (mkView h0 r' s' l' (Some v') sent saved) G v') ->
  moved i (mkView h0 r s l (Some v) sent saved) (mkView h0 r' s' l' (Some v') sent saved) G.
Proof.
  intros Hl [H1 H2 H3 H4] Hlater Hhere. apply moved_silent; [done|done|]. cbn in *. constructor; cbn; try done.
  - intros Hh. destruct (H2 Hh) as [hvs Ha]. pose proof (ah_votes _ _ _ _ Ha) as [= ->]. exists v'. by apply Hhere.
  - intros Hh. destruct (H3 Hh) as (hvs & c & vs' & [= ->] & Hw & Ho). exists v', c, vs'. auto.
Qed.

Lemma node_inv_votes i a G : node_inv i a G -> is_Some (vw_votes a).
Proof.
  intros [H1 H2 H3 _]. destruct (Z.eq_dec (vw_height a) h) as [Hh|Hne].
  - destruct (H2 Hh) as [hvs Ha]. exists hvs. apply Ha.
  - destruct H3 as (hvs & _ & _ & Hv & _); [lia|]. by exists hvs.
Qed.

Lemma moved_votes i h0 r s l v v' sent saved G recv :
  lawful G -> node_inv i (mkView h0 r s l (Some v) sent saved) G -> (forall u, recv u -> deliverable G u) ->
  hv_move recv v v' -> moved i (mkView h0 r s l (Some v) sent saved) (mkView h0 r s l (Some v') sent saved) G.
Proof.
  intros Hl Hi Hd Hmv. apply moved_here; [done|done| |].
  - intros c vs' Hw Hok. eapply (hv_move_ok verified c h0 vs' Hw recv v v' Hok); [|done]. by eapply verified_recv.
  - intros -> Ha. destruct (hv_move_ok (known G) chainID h vs Hwf recv v v' (ah_ok _ _ _ _ Ha)) as [Hok' Hk];
      [by apply known_recv|done|].
    eapply at_height_silent; [exact Ha|done|exact Hk|by right|]. intros u _ _ _ _. by apply lock_kept_same.
Qed.

Lemma moved_lock i h0 r s l v b sent saved G :
  lawful G -> node_inv i (mkView h0 r s l (Some v) sent saved) G -> s < RoundStepPrecommit -> has_maj v r PrevoteType b ->
  moved i (mkView h0 r s l (Some v) sent saved) (mkView h0 r s (Some (r, bid_Hash b)) (Some v) sent saved) G.
Proof.
  intros Hl Hi Hs Hm. apply moved_here; [done|done|done|]. intros -> Ha. pose proof Ha as [_ Hok Hord _].
  eapply at_height_silent; [exact Ha|done|done|by right|]. intros u Hu Hh Ht _ Hlk. destruct (Hord u Hu Hh) as [B1 B2]. cbn in *.
  assert (Hlt : v_Round u < r).
  { assert (v_Round u <> r); [|lia]. intros Heq. specialize (B2 Heq). rewrite Ht in B2. cbn in B2. lia. }
  destruct (decide (bid_Hash b = bid_Hash (v_BlockID u))) as [Heq|Hne]; [left; exists r; cbn; by rewrite Heq|].
  right. exists r, b. cbn. by split_and!.
Qed.

Lemma moved_unlock i h0 r s lr lb v pr b sent saved G :
  lawful G -> node_inv i (mkView h0 r s (Some (lr, lb)) (Some v) sent saved) G -> pr <= r ->
  lr < pr \/ pr = r /\ s < RoundStepPrecommit -> has_maj v pr PrevoteType b -> bid_Hash b <> lb ->
  moved i (mkView h0 r s (Some (lr, lb)) (Some v) sent saved) (mkView h0 r s None (Some v) sent saved) G.
Proof.
  intros Hl Hi Hp Hor Hm Hne. apply moved_here; [done|done|done|]. intros -> Ha. pose proof Ha as [_ Hok Hord _].
  eapply at_height_silent; [exact Ha|done|done|by right|]. intros u Hu Hh Ht _ Hlk. destruct (Hord u Hu Hh) as [B1 B2].
  destruct Hlk as [(lr' & [= -> ->] & Hle)|Hev]; [|by right]. right. exists pr, b. cbn in *.
  assert (v_Round u < pr); [|by split_and!]. destruct Hor as [|[-> Hs]]; [lia|]. assert (v_Round u <> r); [|lia]. intros Heq. specialize (B2 Heq). rewrite Ht in B2.
  cbn in B2. lia.
Qed.

Lemma moved_save i h0 r s l v cr set b sent saved G :
  lawful G -> node_inv i (mkView h0 r s l (Some v) sent saved) G -> set_of v cr PrecommitType = Some set ->
  vs_maj23 set = Some b -> bid_Hash b <> [] ->
  moved i (mkView h0 r s l (Some v) sent saved) (mkView h0 r s l (Some v) sent ((vs_height set, bid_Hash b) :: saved)) G.
Proof.
  intros Hl Hi Hset Hm Hne. apply moved_silent; [done|done|]. pose proof Hi as [H1 H2 H3 H4]. cbn in *. constructor; cbn; try done.
  - intros Hh. destruct (H2 Hh) as [hvs [A1 A2 A3 A4]]. exists hvs. by constructor.
  - intros b' [[= Hb ->]|Hin]%elem_of_cons; [|by apply H4]. split; [done|]. exists cr.
    destruct (Z.eq_dec h0 h) as [Hh|Hnh].
    + destruct (H2 Hh) as [hvs [[= ->] A2 _ _]]. eapply majority_quorum; [done|]. by exists set.
    + destruct H3 as (hvs & c & vs' & [= ->] & _ & Hok); [lia|]. apply (ho_sets _ _ _ _ _ Hok) in Hset as [_ _ Hsh _ _ _].
      congruence.
Qed.

Lemma moved_height {E} i h0 r s l v h' c voters v' sent saved G :
  lawful G -> node_inv i (mkView h0 r s l v sent saved) G -> h0 < h' -> voters_wf voters ->
  NewHeightVoteSet (E:=E) c h' voters = Ok v' ->
  moved i (mkView h0 r s l v sent saved) (mkView h' 0 RoundStepNewHeight None (Some v') sent saved) G.
Proof.
  intros Hl [H1 _ _ H4] Hlt Hw Hn. apply moved_silent; [done|done|]. cbn in *. constructor; cbn; try done; [lia|lia|].
  intros _. exists v', c, voters. split_and!; [done|done|]. by eapply new_height_ok.
Qed.

Lemma micro_moved recv i a a' G :
  lawful G -> node_inv i a G -> (forall v, recv v -> deliverable G v) -> micro recv a a' -> moved i a a' G.
Proof.
  intros Hl Hi Hd Hmi. destruct (node_inv_votes _ _ _ Hi) as [v0 Hv0].
  destruct Hmi as [h0 r s s' l v sent saved Hs|h0 r r' s s' l v sent saved Hr|h0 r s l v v' sent saved Hmv
    |h0 r s l v b vt sent saved Hs Hvt Hlk|h0 r s l v b vt sent saved Hs Hvt Hlk|h0 r s l v b sent saved Hs Hm Hne
    |h0 r s lr lb v pr b sent saved Hp Hor Hm Hne|h0 r s l v cr set b sent saved Hset Hm Hne
    |E h0 r s l v h' c voters v' sent saved Hlt Hw Hn]; cbn in Hv0; simplify_eq.
  - apply moved_here; [done..|]. intros -> Ha. eapply at_height_silent; [exact Ha|apply Ha|done|by right|].
    intros u _ _ _ _. by apply lock_kept_same.
  - apply moved_here; [done..|]. intros -> Ha. eapply at_height_silent; [exact Ha|apply Ha|done|by left|].
    intros u _ _ _ _. apply lock_kept_same; [done|lia].
  - by eapply moved_votes.
  - exists [vt]. split; [done|]. split.
    + split; [done|]. intros Hh. assert (h0 = h) as -> by (destruct Hvt as (_ & Hvh & _); cbn in Hvh; congruence).
      destruct (ni_here _ _ _ Hi eq_refl) as [hvs Ha]. by eapply prevote_law.
    + apply (node_inv_vote i h0 r s); [done|]. intros hvs -> Ha. destruct Hvt as (Ht & _ & Hr & _). cbn in Hr.
      eapply at_height_vote; [exact Ha|lia|done|by rewrite Ht|]. intros Ht'. by rewrite Ht in Ht'.
  - exists [vt]. split; [done|]. split.
    + split; [done|]. intros Hh. assert (h0 = h) as -> by (destruct Hvt as (_ & Hvh & _); cbn in Hvh; congruence).
      destruct (ni_here _ _ _ Hi eq_refl) as [hvs Ha]. pose proof (ah_votes _ _ _ _ Ha) as [= ->]. by eapply precommit_law.
    + apply (node_inv_vote i h0 r s); [done|]. intros hvs -> Ha. destruct Hvt as (Ht & _ & Hr & Hb). cbn in Hr.
      eapply at_height_vote; [exact Ha|lia|done|by rewrite Ht|]. intros _. rewrite Hb. intros Hne. by apply Hlk.
  - by apply moved_lock.
  - by eapply moved_unlock.
  - by eapply moved_save.
  - by eapply moved_height.
Qed.

Lemma micros_moved recv i a a' : rtc (micro recv) a a' -> forall G,
  lawful G -> node_inv i a G -> (forall v, recv v -> deliverable G v) -> moved i a a' G.
Proof.
  induction 1 as [a|a b c Hab _ IH]; intros G Hl Hi Hd; [by apply moved_silent|].
  destruct (micro_moved _ _ _ _ _ Hl Hi Hd Hab) as (n1 & S1 & L1 & I1).
  destruct (IH _ L1 I1) as (n2 & S2 & L2 & I2).
  { intros v Hv. destruct (Hd v Hv) as [H1 H2]. split; [done|]. intros pk Hpk Hh j w Hj Hw Hk.
    destruct (H2 pk Hpk Hh j w Hj Hw Hk) as (v' & Hin & Hs). exists v'. split; [|done]. apply elem_of_app. by right. }
  exists (n2 ++ n1). unfold moved. rewrite fmap_app, <- !app_assoc, S2, S1. done.
Qed.

End node.

(** ** The network *)

Section network.
  Context {crypto : CryptoLib} {codec : TimeCodec} {decoder : TimeDecoder} {lib : BlockLib}.
  (** Each node has its own key, application and configuration. *)
  Context (exec : nat -> Executor) (config : nat -> ConsensusConfig).
  Context (chainID : bytes) (h : Z) (vs : VoterSet) (honest : nat -> bool).

(** The nodes at the positions of their voters, and the votes they signed. *)
Record network := mkNetwork { nodes : nat -> State; log : list (nat * Vote) }.

(** An honest node handles an event. *)
Inductive net_step (n : network) : network -> Prop :=
| ns_event i w ev cs' new :
    honest i = true -> event_ok (nodes n i) ev ->
    (forall v, received ev v -> deliverable chainID h vs honest (log n) v) ->
    snd (handle (exec:=exec i) (config i) w ev (nodes n i)) = cs' ->
    vw_sent (view_of cs') = new ++ vw_sent (view_of (nodes n i)) ->
    net_step n (mkNetwork (fun j => if decide (j = i) then cs' else nodes n j) ((pair i <$> new) ++ log n)).

(** A node at the start of the height. *)
Record started (cs : State) : Prop := {
  sd_ok : node_ok cs;
  sd_height : rs_Height (cs_rs cs) = h;
  sd_votes : exists hvs, NewHeightVoteSet (E:=unit) chainID h vs = Ok hvs /\ rs_Votes (cs_rs cs) = Some hvs;
  sd_saved : forall b hd c, (b, hd, c) ∈ cs_saved cs -> c_Height c <> h
}.

Definition net_inv (n : network) : Prop :=
  lawful h (Voters vs) honest (log n) /\
  forall i, honest i = true -> node_ok (nodes n i) /\ node_inv chainID h vs honest i (view_of (nodes n i)) (log n).

Context (Hwf : voters_wf vs) (laws : forall i, ExecutorLaws (exec:=exec i)).

Lemma started_inv n : (forall i, honest i = true -> started (nodes n i)) -> log n = [] -> net_inv n.
Proof.
  intros Hs Hlog. unfold net_inv. rewrite Hlog. split; [done|]. intros i Hi. destruct (Hs i Hi) as [S1 S2 (hvs & S3 & S4) S5].
  split; [done|]. constructor; cbn; rewrite ?S2, ?S4; try done.
  - intros _. exists hvs. constructor; cbn; [done|by eapply new_height_ok|..]; intros v Hv; by apply not_elem_of_nil in Hv.
  - lia.
  - intros b Hb. apply list_elem_of_fmap in Hb as ([[blk hd] c] & [= Hc _] & Hin). by destruct (S5 _ _ _ Hin).
Qed.

Lemma net_step_inv n n' : net_step n n' -> net_inv n -> net_inv n'.
Proof.
  intros [i w ev cs' new Hi Hev Hd Hrun Hnew] [Hl Hn]. destruct (Hn i Hi) as [Hok Hinv].
  destruct (handle_steps (exec:=exec i) (config i) w ev (nodes n i) Hok Hev) as [Hmi Hok']. rewrite Hrun in Hmi, Hok'.
  destruct (micros_moved chainID h vs honest Hwf _ i _ _ Hmi (log n) Hl Hinv Hd) as (new' & Hs & Hl' & Hinv').
  assert (new' = new) as -> by (eapply app_inv_tail; by rewrite <- Hs, <- Hnew). split; [done|]. intros j Hj. cbn.
  destruct (decide (j = i)) as [->|Hne]; [done|]. destruct (Hn j Hj) as [Hokj Hinvj]. split; [done|].
  eapply node_inv_mono; [| |exact Hinvj].
  - intros x Hx. apply elem_of_app. by right.
  - intros v [Hv|Hv]%elem_of_app; [|done]. by apply list_elem_of_fmap in Hv as (u & [= ? _] & _).
Qed.

Lemma net_steps_inv n n' : rtc net_step n n' -> net_inv n -> net_inv n'.
Proof. induction 1; [done|]. eauto using net_step_inv. Qed.

End network.

(** ** Theorems *)

(** C1: agreement.  Let honest nodes start a height with the same voters and
    run on any events: messages in any order, lost or repeated, any timeouts
    once they are scheduled, transactions, claims of peers, and anything the
    other voters send, as long as a vote that verifies under the key of an
    honest voter was signed by its node.  If the voters that are not honest
    hold less than a third of the weight, two honest nodes that save a block of
    that height save blocks with the same hash, in whatever rounds they commit,
    also when handlers return errors or panic on the way. *)
Theorem agreement {crypto : CryptoLib} {codec : TimeCodec} {decoder : TimeDecoder} {lib : BlockLib}
    (exec : nat -> Executor) (config : nat -> ConsensusConfig) (laws : forall i, ExecutorLaws (exec:=exec i))
    chainID h vs honest n0 n i j b1 hd1 c1 b2 hd2 c2 :
  voters_wf vs -> 3 * weight_of (fun k => negb (honest k)) (Voters vs) < Zsum (weights (Voters vs)) ->
  (forall k, honest k = true -> started chainID h vs (nodes n0 k)) -> log n0 = [] ->
  rtc (net_step exec config chainID h vs honest) n0 n ->
  honest i = true -> honest j = true ->
  (b1, hd1, c1) ∈ cs_saved (nodes n i) -> (b2, hd2, c2) ∈ cs_saved (nodes n j) -> c_Height c1 = h -> c_Height c2 = h ->
  Block_Hash b1 = Block_Hash b2.
Proof.
  intros Hwf Hbyz Hst Hlog Hrun Hi Hj Hb1 Hb2 Hc1 Hc2.
  destruct (net_steps_inv _ _ _ _ _ _ Hwf laws _ _ Hrun) as [Hl Hn]; [by apply started_inv|].
  assert (Hsaved : forall k b hd c, honest k = true -> (b, hd, c) ∈ cs_saved (nodes n k) -> c_Height c = h ->
    Block_Hash b <> [] /\ exists r, quorum h (Voters vs) honest (log n) PrecommitType r (Block_Hash b)).
  { intros k b hd c Hk Hb Hc. destruct (Hn k Hk) as [_ Hinv]. eapply (ni_saved _ _ _ _ _ _ _ Hinv).
    apply list_elem_of_fmap. exists (b, hd, c). split; [unfold saved_view; cbn; by rewrite Hc|done]. }
  destruct (Hsaved i b1 hd1 c1) as (N1 & r1 & Q1), (Hsaved j b2 hd2 c2) as (N2 & r2 & Q2); try done.
  eapply log_agreement; [apply Hwf|exact Hbyz|exact Hl|exact Q1|exact Q2|done|done].
Qed.

(** A node that was created and started is one the handlers can rely on. *)
Lemma NewState_ok {crypto : CryptoLib} {codec : TimeCodec} {decoder : TimeDecoder} {lib : BlockLib} {exec : Executor}
    config w empty state storeHeight cs :
  sm_IsEmpty empty = true -> 0 < sm_InitialHeight state -> 0 <= sm_LastBlockHeight state < int64_max ->
  NewState config w empty state storeHeight = (Ok tt, cs) -> node_ok cs.
Proof.
  intros He Hi Hl Hn. unfold NewState in Hn. apply gbind_Ok in Hn as (u & cs1 & H1 & H2).
  assert (Hcs1 : cs_state cs1 = empty /\ cs_timeouts cs1 = []).
  { destruct (0 <? _); [|by injection H1 as _ <-]. unfold reconstructLastCommit in H1.
    destruct (LoadSeenCommit _); [|done]. apply gbind_Ok in H1 as (lp & cs2 & G1 & G2). injection G1 as _ <-.
    destruct (negb _); [done|]. by injection G2 as _ <-. }
  destruct Hcs1 as [Hs1 Ht1]. unfold updateToState in H2. apply gbind_Ok in H2 as (cs2 & cs3 & [= <- <-] & H2).
  rewrite Hs1, He in H2. cbn [negb andb] in H2. destruct (_ && _ && _) in H2; [done|].
  apply gbind_Ok in H2 as (lc & cs4 & G1 & G2).
  assert (Hcs4 : cs_timeouts cs4 = []).
  { unfold next_LastCommit in G1. destruct (_ =? 0); [by injection G1 as _ <-|].
    destruct (rs_Votes (cs_rs cs1)); [destruct (-1 <? _)|].
    - apply gbind_Ok in G1 as (pc & cs5 & F1 & F2). injection F1 as _ <-. destruct (negb _); [done|]. by injection F2 as _ <-.
    - destruct (rs_LastCommit _); [by injection G1 as _ <-|done].
    - destruct (rs_LastCommit _); [by injection G1 as _ <-|done]. }
  apply gbind_Ok in G2 as (votes & cs5 & F1 & F2). injection F1 as _ <-. injection F2 as <-.
  rewrite wrap64_id by (unfold_ints; unfold int64_max in *; lia).
  constructor; cbn; try done; [destruct (Z.eqb_spec (sm_LastBlockHeight state + 1) 1); lia|].
  intros ti. rewrite Hcs4. intros Hti. by apply not_elem_of_nil in Hti.
Qed.

(** C2: the machine follows the rules of a round.  Whatever event a node
    handles, in whatever state the handlers rely on, and whether the handler
    returns, fails or panics half way, the change of the node is a sequence of
    moves of the abstract node: one prevote per round, for the locked block if
    there is one; one precommit per round, for a block only with a majority of
    prevotes for it in that round and the lock on it; a lock is given up only
    for a majority of prevotes in a later round; a block is saved only with a
    majority of precommits for it; rounds and heights go up.  The state it
    leaves is again one the handlers rely on: no timeout is ahead of it. *)
Theorem consensus_refines {crypto : CryptoLib} {codec : TimeCodec} {decoder : TimeDecoder} {lib : BlockLib} {exec : Executor}
    {laws : ExecutorLaws} config w ev cs :
  node_ok cs -> event_ok cs ev ->
  let cs' := snd (handle config w ev cs) in
  rtc (micro (received ev)) (view_of cs) (view_of cs') /\ node_ok cs'.
Proof. intros Hok Hev. exact (handle_steps config w ev cs Hok Hev). Qed.

(** A vote of the height below the first one stops a node.  While a node
    waits for round 0 of a height without a last commit, as at genesis, any
    precommit of the height before, which [Vote.ValidateBasic] lets through
    whatever its signature, makes [addVote] call [AddVote] on a nil vote set and
    the consensus routine panics. *)
Theorem genesis_precommit_panics {crypto : CryptoLib} {codec : TimeCodec} {decoder : TimeDecoder} {lib : BlockLib}
    {exec : Executor} config w cs v peer :
  rs_Step (cs_rs cs) = RoundStepNewHeight -> rs_LastCommit (cs_rs cs) = None -> v_Type v = PrecommitType ->
  wrap64 (v_Height v + 1) = rs_Height (cs_rs cs) -> handle config w (EvMessage (VoteMessage v) peer) cs = (Panic, cs).
Proof.
  intros Hs Hl Ht Hh. assert (Hadd : addVote config w v peer cs = (Panic, cs)).
  { unfold addVote, rget, mbind, gom_bind, gget, mret, gom_ret. rewrite Hh, Ht, !Z.eqb_refl. cbn [andb].
    unfold add_last_precommit, rget, mbind, gom_bind, gget, mret, gom_ret. by rewrite Hs, Hl. }
  unfold handle, handleMsg, tryAddVote, mbind, gom_bind. by rewrite Hadd.
Qed.

(** A proposal with a bad signature stops a node that has not yet entered
    a round.  [defaultSetProposal] logs the address of [cs.Proposer] when the
    signature does not verify, and before the first round there is none. *)
Theorem bad_proposal_panics {crypto : CryptoLib} {codec : TimeCodec} {decoder : TimeDecoder} {lib : BlockLib}
    {exec : Executor} config w cs p peer vals proposer vals' key msg :
  rs_Proposer (cs_rs cs) = None -> rs_Proposal (rs_Proposed (cs_rs cs)) = None ->
  p_Height p = rs_Height (cs_rs cs) -> p_Round p = rs_Round (cs_rs cs) -> p_POLRound p = -1 ->
  rs_Validators (cs_rs cs) = Some vals ->
  SelectProposer vals (sm_LastProofHash (cs_state cs)) (p_Height p) (p_Round p) = Ok (E:=cs_error) (proposer, vals') ->
  vPubKey proposer = Some key -> ProposalSignBytes (sm_ChainID (cs_state cs)) p = Ok (E:=cs_error) msg ->
  VerifySignature key msg (sig_bytes (p_Signature p)) = false ->
  fst (handle config w (EvMessage (ProposalMessage p) peer) cs) = Panic.
Proof.
  intros Hp Hn Hh Hr Hpol Hv Hsel Hkey Hmsg Hbad.
  unfold handle, handleMsg, defaultSetProposal, attempt, mbind, gom_bind, gget, mret, gom_ret, glift.
  rewrite Hn, Hv, Hsel, Hpol, Hh, Hr, !Z.eqb_refl. cbn [negb orb andb Z.ltb Z.leb Z.compare].
  unfold set_Validators, rs_modify, gmodify. rewrite Hmsg, Hkey, Hbad. cbn [negb]. by rewrite Hp.
Qed.
