(* ===== verification/ConsensusToy.v ===== *)
(** * A small chain

    Blocks are their bytes, four voters run the machine at height 1; an
    instance of the interfaces of Consensus.v on which the theorems are tried. *)

From Stdlib Require Import ZArith Lia.
From stdpp Require Import prelude list gmap.
From S2P Require Import Prelude SafeMath Crypto Validator ValidatorSet Proto ProtoDecode Block VoterSet VerifyCommit Slots VoteSet VoteSetInv VoteSetProps HeightVoteSet PrivVal PrivValSafety Merkle PartSet HeightVotesInv Consensus ConsensusSpec ConsensusRefine Quorum Agreement.

Local Open Scope Z_scope.

Definition toy_blocks : BlockLib := {|
  Blk := bytes;
  Block_Hash b := take 32 (b ++ replicate 32 0);
  Block_Time _ := 0;
  Block_Height _ := 1;
  Block_decode b := Some b;
  sm_other := unit
|}.

Definition toy_state (lastHeight : Z) : @smState toy_blocks :=
  @mk_smState toy_blocks [7] 1 lastHeight [8] (Some (mkValidatorSet (Voters mixed_voters) 0)) mixed_voters mixed_voters
    1000000 1000 [] tt.

(** The node of voter [n]; every node builds the same block. *)
Definition toy_exec (n : nat) : @Executor toy_blocks :=
  @Build_Executor toy_blocks
    (fun _ _ _ => true)
    (fun s _ _ => Some (toy_state (sm_LastBlockHeight s mod 1000 + 1)))
    (fun _ _ _ _ round _ => match @NewPartSetFromData toy_crypto unit [round; 42; 43] 65536 with Ok ps => Some ([round; 42; 43], ps) | _ => None end)
    (fun m => Some m)
    (Some (mixed_key (Z.of_nat n + 1)))
    (fun msg => Some (mixed_sign (Z.of_nat n + 1) msg))
    (fun _ => None)
    (fun _ => None).

Lemma toy_laws n : @ExecutorLaws toy_blocks (toy_exec n).
Proof.
  constructor.
  - intros s id b s' [= <-]. cbn. pose proof (Z.mod_pos_bound (sm_LastBlockHeight s) 1000). unfold int64_max. lia.
  - intros s id b s' [= <-]. exact mixed_voters_wf.
Qed.

Definition toy_config : ConsensusConfig := mkConsensusConfig true 0 false 0 0.

Definition toy_world : World := mkWorld 5 (fun _ _ _ => (5, true, true)) true true true true.

Definition empty_state : @smState toy_blocks := @mk_smState toy_blocks [] 0 0 [] None (mkVoterSet [] 0) (mkVoterSet [] 0) 0 0 [] tt.

Definition no_file : FilePVLastSignState := mkLastSignState 0 0 0 None None.

(** A node that is created, gets its key and starts. *)
Definition toy_node (n : nat) : @State toy_blocks :=
  let cs := snd (@NewState toy_crypto toy_time toy_blocks (toy_exec n) toy_config toy_world empty_state (toy_state 0) 0) in
  let cs := snd (@SetPrivValidator toy_blocks (toy_exec n) (Some (LoadFilePV no_file)) cs) in
  snd (@OnStart toy_crypto toy_blocks (toy_exec n) toy_config cs).

Definition toy_honest (n : nat) : bool := (n <? 3)%nat.

Definition toy_start : @network toy_blocks := mkNetwork toy_node [].

(** ** Runs *)

Section runs.
  #[local] Existing Instances toy_crypto toy_time toy_decoder toy_blocks.

Definition toy_handle (i : nat) (ev : event) (cs : State) : State :=
  snd (handle (exec:=toy_exec i) toy_config toy_world ev cs).

(** What a node is handed next: its last timeout, or a message of a node. *)
Inductive pick := PTimeout | PProposal (j : nat) | PPart (j : nat) | PVote (j : nat) (typ : Z).

Definition is_msg (p : pick) (m : Message) : bool :=
  match p, m with
  | PProposal _, ProposalMessage _ => true
  | PPart _, BlockPartMessage _ _ _ => true
  | PVote _ typ, VoteMessage v => v_Type v =? typ
  | _, _ => false
  end.

Definition picked (n : network) (i : nat) (p : pick) : event :=
  let from j := match List.find (is_msg p) (cs_internal (nodes n j)) with Some m => EvMessage m [1] | None => EvTxsAvailable end in
  match p with
  | PTimeout => match cs_timeouts (nodes n i) with ti :: _ => EvTimeout ti | [] => EvTxsAvailable end
  | PProposal j | PPart j | PVote j _ => from j
  end.

Definition new_votes (cs cs' : State) : list Vote :=
  take (length (vw_sent (view_of cs')) - length (vw_sent (view_of cs))) (vw_sent (view_of cs')).

Definition toy_step (n : network) (ip : nat * pick) : network :=
  let '(i, p) := ip in
  let cs' := toy_handle i (picked n i p) (nodes n i) in
  mkNetwork (fun j => if decide (j = i) then cs' else nodes n j) ((pair i <$> new_votes (nodes n i) cs') ++ log n).

(** That a vote can be delivered. *)
Definition same_voteb (v v' : Vote) : bool :=
  (v_Type v' =? v_Type v) && (v_Height v' =? v_Height v) && (v_Round v' =? v_Round v) && bool_decide (v_BlockID v' = v_BlockID v).

Definition authenticb (G : list (nat * Vote)) (v : Vote) (jw : nat * Validator) : bool :=
  match vPubKey (snd jw) with
  | Some pk =>
      negb (is_ok (Vote_Verify [7] pk v)) || existsb (fun x => (fst x =? fst jw)%nat && same_voteb v (snd x)) G
  | None => true
  end.

Definition votableb (b : BlockID) : bool :=
  (bool_decide (b = zero_BlockID) || BlockID_IsComplete b) && (0 <=? Total (bid_PartSetHeader b)) &&
  (Total (bid_PartSetHeader b) <? 4294967296).

Definition stepb (n : network) (ip : nat * pick) : bool :=
  let '(i, p) := ip in
  toy_honest i &&
  bool_decide (vw_sent (view_of (toy_handle i (picked n i p) (nodes n i))) =
    new_votes (nodes n i) (toy_handle i (picked n i p) (nodes n i)) ++ vw_sent (view_of (nodes n i))) &&
  match picked n i p with
  | EvMessage (VoteMessage v) _ =>
      (0 <=? v_Round v) && votableb (v_BlockID v) &&
      forallb (authenticb (log n) v) (zip (seq 0 4) (Voters mixed_voters))
  | _ => true
  end.

Fixpoint run (script : list (nat * pick)) (n : network) : network :=
  match script with [] => n | x :: script => run script (toy_step n x) end.

Fixpoint runb (script : list (nat * pick)) (n : network) : bool :=
  match script with [] => true | x :: script => stepb n x && runb script (toy_step n x) end.

End runs.

(** Node 0 proposes; all three get the block, their prevotes and their
    precommits. *)
Definition toy_script : list (nat * pick) :=
  [(0, PTimeout); (1, PTimeout); (2, PTimeout)]%nat ++
  concat ((fun i => [(i, PProposal 0); (i, PPart 0)]) <$> [0; 1; 2])%nat ++
  concat ((fun i => [(i, PVote 0 PrevoteType); (i, PVote 1 PrevoteType); (i, PVote 2 PrevoteType)]) <$> [0; 1; 2])%nat ++
  concat ((fun i => [(i, PVote 0 PrecommitType); (i, PVote 1 PrecommitType); (i, PVote 2 PrecommitType)]) <$> [0; 1])%nat.

Lemma votableb_votable b : votableb b = true -> votable b.
Proof.
  unfold votableb, votable. rewrite !andb_true_iff, orb_true_iff, bool_decide_eq_true, Z.leb_le, Z.ltb_lt.
  change (2 ^ 32) with 4294967296. tauto.
Qed.

Lemma authenticb_deliverable G v :
  votableb (v_BlockID v) = true ->
  forallb (authenticb G v) (zip (seq 0 4) (Voters mixed_voters)) = true ->
  @deliverable toy_crypto toy_time [7] 1 mixed_voters toy_honest G v.
Proof.
  intros Hv Ha. split; [by apply votableb_votable|]. intros pk Hpk _ j w _ Hw Hk.
  apply Is_true_true, forallb_True in Ha. rewrite Forall_lookup in Ha.
  assert (Hz : zip (seq 0 4) (Voters mixed_voters) !! j = Some (j, w)).
  { rewrite lookup_zip_with, Hw, lookup_seq_lt by (by apply lookup_lt_Some in Hw). done. }
  apply Ha in Hz. apply Is_true_true in Hz. unfold authenticb in Hz. cbn [fst snd] in Hz. rewrite Hk, Hpk in Hz. cbn in Hz.
  apply existsb_exists in Hz as ([k u] & Hin & Hs). rewrite andb_true_iff, Nat.eqb_eq in Hs. cbn in Hs. destruct Hs as [-> Hs].
  exists u. split; [by apply list_elem_of_In|]. unfold same_voteb in Hs.
  rewrite !andb_true_iff, !Z.eqb_eq, bool_decide_eq_true in Hs. unfold same_vote. tauto.
Qed.

Lemma stepb_step n x :
  stepb n x = true ->
  @net_step toy_crypto toy_time toy_decoder toy_blocks toy_exec (fun _ => toy_config) [7] 1 mixed_voters toy_honest n (toy_step n x).
Proof.
  destruct x as [i p]. unfold stepb. rewrite !andb_true_iff. intros [[Hi Hs] Hd]. apply bool_decide_eq_true in Hs.
  apply ns_event with (w := toy_world) (ev := picked n i p); [done| | |done|done].
  - split.
    + intros v [peer Hp]. rewrite Hp, !andb_true_iff, Z.leb_le in Hd. tauto.
    + intros ti Hp. unfold picked in Hp. destruct p as [|j|j|j typ].
      * destruct (cs_timeouts (nodes n i)) as [|ti' l]; [done|]. injection Hp as ->. apply list_elem_of_here.
      * by destruct (List.find _ _).
      * by destruct (List.find _ _).
      * by destruct (List.find _ _).
  - intros v [peer Hp]. rewrite Hp, !andb_true_iff in Hd. destruct Hd as [[_ Hv] Ha]. by apply authenticb_deliverable.
Qed.

Lemma runb_steps script : forall n, runb script n = true ->
  rtc (@net_step toy_crypto toy_time toy_decoder toy_blocks toy_exec (fun _ => toy_config) [7] 1 mixed_voters toy_honest) n (run script n).
Proof.
  induction script as [|x script IH]; intros n; [done|]. cbn [runb run]. intros [Hs Hr]%andb_true_iff.
  eapply rtc_l; [by apply stepb_step|by apply IH].
Qed.

(** ** Witnesses *)

Lemma toy_node_ok k : toy_honest k = true -> @node_ok toy_blocks (toy_node k).
Proof.
  intros Hk. destruct k as [|[|[|k]]]; [| | |done]; (constructor; [done|done|done| |done]); intros ti Hti;
    (assert (ti = mkTimeoutInfo 1 0 1) as -> by (by apply list_elem_of_singleton in Hti)); by right.
Qed.

Lemma toy_started k : toy_honest k = true -> @started toy_blocks [7] 1 mixed_voters (toy_node k).
Proof.
  intros Hk. pose proof (toy_node_ok k Hk). destruct k as [|[|[|k]]]; [| | |done];
    (constructor; [done|done|by eexists|intros b hd c Hin; by apply not_elem_of_nil in Hin]).
Qed.

Definition toy_end : @network toy_blocks := run toy_script toy_start.

Lemma agreement_witness :
  exists b1 hd1 c1 b2 hd2 c2, (b1, hd1, c1) ∈ cs_saved (nodes toy_end 0) /\ (b2, hd2, c2) ∈ cs_saved (nodes toy_end 1) /\
    c_Height c1 = 1 /\ c_Height c2 = 1 /\ Block_Hash b1 = Block_Hash b2.
Proof.
  assert (H0 : exists b hd c, (b, hd, c) ∈ cs_saved (nodes toy_end 0) /\ c_Height c = 1).
  { destruct (cs_saved (nodes toy_end 0)) as [|[[b hd] c] l] eqn:E; [by vm_compute in E|].
    exists b, hd, c. split; [apply list_elem_of_here|]. vm_compute in E. by injection E as <- <- <- <-. }
  assert (H1 : exists b hd c, (b, hd, c) ∈ cs_saved (nodes toy_end 1) /\ c_Height c = 1).
  { destruct (cs_saved (nodes toy_end 1)) as [|[[b hd] c] l] eqn:E; [by vm_compute in E|].
    exists b, hd, c. split; [apply list_elem_of_here|]. vm_compute in E. by injection E as <- <- <- <-. }
  destruct H0 as (b1 & hd1 & c1 & Hb1 & Hc1), H1 as (b2 & hd2 & c2 & Hb2 & Hc2).
  exists b1, hd1, c1, b2, hd2, c2. split_and!; [exact Hb1|exact Hb2|exact Hc1|exact Hc2|].
  apply (@agreement toy_crypto toy_time toy_decoder toy_blocks toy_exec (fun _ => toy_config) toy_laws [7] 1 mixed_voters
    toy_honest toy_start toy_end 0 1 b1 hd1 c1 b2 hd2 c2); [exact mixed_voters_wf|vm_compute; reflexivity|exact toy_started|
    reflexivity|apply runb_steps; vm_compute; reflexivity|reflexivity|reflexivity|exact Hb1|exact Hb2|exact Hc1|exact Hc2].
Defined.

Lemma consensus_refines_witness :
  let cs := toy_node 0 in
  let ev := EvTimeout (mkTimeoutInfo 1 0 RoundStepNewHeight) in
  let cs' := snd (@handle toy_crypto toy_time toy_decoder toy_blocks (toy_exec 0) toy_config toy_world ev cs) in
  length (cs_internal cs') = 2%nat /\ rs_Step (cs_rs cs') = RoundStepPropose /\
  rtc (@micro toy_crypto toy_time (received ev)) (view_of cs) (view_of cs').
Proof.
  split; [vm_compute; reflexivity|]. split; [vm_compute; reflexivity|].
  apply (@consensus_refines toy_crypto toy_time toy_decoder toy_blocks (toy_exec 0) (toy_laws 0) toy_config toy_world);
    [by apply toy_node_ok|]. split; [by intros v [peer Hp]|]. intros ti [= <-]. apply list_elem_of_here.
Defined.

(** A vote of height 0 that nobody signed. *)
Definition stray_vote : Vote := mkVote PrecommitType 0 0 zero_BlockID 0 (replicate 20 9) 0 (Some [1]).

Lemma genesis_precommit_panics_witness :
  Vote_ValidateBasic stray_vote = Ok tt /\
  @handle toy_crypto toy_time toy_decoder toy_blocks (toy_exec 0) toy_config toy_world (EvMessage (VoteMessage stray_vote) [1])
    (toy_node 0) = (Panic, toy_node 0).
Proof.
  split; [vm_compute; reflexivity|].
  apply (@genesis_precommit_panics toy_crypto toy_time toy_decoder toy_blocks (toy_exec 0)); vm_compute; reflexivity.
Defined.

(** A proposal for round 0 with a signature that is not one. *)
Definition forged_proposal : Proposal := mkProposal ProposalType 1 0 (-1) sample_block_id 0 (Some [1]).

Lemma bad_proposal_panics_witness :
  Proposal_ValidateBasic forged_proposal = Ok tt /\
  fst (@handle toy_crypto toy_time toy_decoder toy_blocks (toy_exec 0) toy_config toy_world
    (EvMessage (ProposalMessage forged_proposal) [1]) (toy_node 0)) = Panic.
Proof.
  split; [vm_compute; reflexivity|].
  destruct (@SelectProposer toy_crypto cs_error (mkValidatorSet (Voters mixed_voters) 0) [8] 1 0) as [[p vals]| |] eqn:Es;
    [|by vm_compute in Es..].
  destruct (@ProposalSignBytes toy_time cs_error [7] forged_proposal) as [msg| |] eqn:Em; [|by vm_compute in Em..].
  destruct (vPubKey p) as [key|] eqn:Ek; [|by vm_compute in Es; injection Es as <- <-].
  apply (@bad_proposal_panics toy_crypto toy_time toy_decoder toy_blocks (toy_exec 0) toy_config toy_world (toy_node 0)
    forged_proposal [1] (mkValidatorSet (Voters mixed_voters) 0) p vals key msg);
    [vm_compute; reflexivity..|exact Es|exact Ek|exact Em|].
  vm_compute in Es. injection Es as <- <-. injection Ek as <-. vm_compute in Em. injection Em as <-. vm_compute. reflexivity.
Defined.

(** ** A proposal signed twice

    A node signs its proposal, stops before the log has it, and is started
    again a moment later. *)

Definition later_world : World := mkWorld 6 (fun _ _ _ => (6, true, true)) true true true true.

Definition first_run : @State toy_blocks := toy_handle 0 (EvTimeout (mkTimeoutInfo 1 0 RoundStepNewHeight)) (toy_node 0).

Definition second_run : @State toy_blocks :=
  let file := from_option stateFile no_file (cs_privValidator first_run) in
  let cs := snd (@SetPrivValidator toy_blocks (toy_exec 0) (Some (LoadFilePV file)) (toy_node 0)) in
  snd (@handle toy_crypto toy_time toy_decoder toy_blocks (toy_exec 0) toy_config later_world
    (EvTimeout (mkTimeoutInfo 1 0 RoundStepNewHeight)) cs).

Definition proposal_of (cs : @State toy_blocks) : option Proposal :=
  match List.find (is_msg (PProposal 0)) (cs_internal cs) with Some (ProposalMessage p) => Some p | _ => None end.

Definition proposal_verifies (p : Proposal) : bool :=
  match @ProposalSignBytes toy_time unit [7] p with
  | Ok msg => @VerifySignature toy_crypto (mixed_key 1) msg (sig_bytes (p_Signature p))
  | _ => false
  end.

(** A proposal signed again after a restart does not verify.  The signer
    returns the time it signed before along with that signature, but
    [defaultDecideProposal] copies the signature only, so the proposal it sends
    carries the new time with the signature for the old one. *)
Theorem resigned_proposal_invalid :
  exists p1 p2, proposal_of first_run = Some p1 /\ proposal_of second_run = Some p2 /\
    proposal_verifies p1 = true /\ proposal_verifies p2 = false /\
    p_Signature p2 = p_Signature p1 /\ p_BlockID p2 = p_BlockID p1 /\ p_Timestamp p2 <> p_Timestamp p1.
Proof.
  destruct (proposal_of first_run) as [p1|] eqn:E1; [|by vm_compute in E1].
  destruct (proposal_of second_run) as [p2|] eqn:E2; [|by vm_compute in E2].
  vm_compute in E1, E2. injection E1 as <-. injection E2 as <-. do 2 eexists.
  split_and!; [reflexivity|reflexivity|vm_compute; reflexivity..|vm_compute; discriminate].
Qed.
