(* ===== verification/Header.v ===== *)
(** * Headers and the hashes in them

    - [Header] of src/types/block.go: [Populate], [ValidateBasic], [Hash];
    - [cdcEncode] of src/types/encoding_helper.go;
    - [PubKeyToProto] and [PubKeyFromProto] of src/crypto/encoding/codec.go;
    - [Validator.Bytes], [ValidatorSet.Hash], [VoterSet.Hash], [Commit.Hash],
      [Txs.Hash] and [HashConsensusParams];
    - the generated marshallers these call.

    The wrapper messages of gogo/protobuf are a parameter. *)

From Stdlib Require Import ZArith Lia.
From stdpp Require Import prelude list.
From S2P Require Import Prelude SafeMath Crypto Validator ValidatorSet Proto Block VoterSet Merkle MerkleProps.

Local Open Scope Z_scope.
Local Open Scope go_scope.

(** [StringValue], [BytesValue], [Int64Value] and [Int32Value] of
    gogo/protobuf/types; [Marshal] of these does not fail. *)
Class WrapperLib := {
  BytesValue_Marshal : bytes -> bytes;
  IntValue_Marshal : Z -> bytes
}.

(** ** Keys on the wire *)

(** The generated [PublicKey]: no key, or one of the four kinds. *)
#[warnings="-register-all"]
Inductive PublicKey :=
| PublicKey_nil
| PublicKey_Ed25519 (b : bytes)
| PublicKey_Secp256K1 (b : bytes)
| PublicKey_Composite (SignKey VrfKey : option PublicKey)
| PublicKey_Bls12 (b : bytes).

Inductive key_error := ErrKeyType | ErrKeySize.

Definition bls_PubKeySize : nat := 48.

Fixpoint PubKeyToProto (k : PubKey) : outcome key_error PublicKey :=
  match k with
  | PubKeyComposite SignKey VrfKey =>
      sign ← PubKeyToProto SignKey;
      vrf ← PubKeyToProto VrfKey;
      Ok (PublicKey_Composite (Some sign) (Some vrf))
  | PubKeyBls k => Ok (PublicKey_Bls12 k)
  | PubKeyEd25519 k => Ok (PublicKey_Ed25519 k)
  | PubKeySecp256k1 k => Ok (PublicKey_Secp256K1 k)
  | PubKeySr25519 _ => Err ErrKeyType
  end.

(** The argument is a pointer: [k.Sum] of a nil pointer panics. *)
Fixpoint PubKeyFromProto (k : PublicKey) : outcome key_error PubKey :=
  let deref k := match k with None => Panic | Some k => PubKeyFromProto k end in
  match k with
  | PublicKey_Composite SignKey VrfKey =>
      sign ← deref SignKey;
      vrf ← deref VrfKey;
      Ok (PubKeyComposite sign vrf)
  | PublicKey_Bls12 b => if bool_decide (length b <> bls_PubKeySize) then Err ErrKeySize else Ok (PubKeyBls b)
  | PublicKey_Ed25519 b => if bool_decide (length b <> ed25519_PubKeySize) then Err ErrKeySize else Ok (PubKeyEd25519 b)
  | PublicKey_Secp256K1 b => if bool_decide (length b <> secp256k1_PubKeySize) then Err ErrKeySize else Ok (PubKeySecp256k1 b)
  | PublicKey_nil => Err ErrKeyType
  end.

(** The composite and the BLS key have numbers above 15: their tags take two
    bytes. *)
Fixpoint PublicKey_Marshal (m : PublicKey) : bytes :=
  match m with
  | PublicKey_nil => []
  | PublicKey_Ed25519 b => field_msg 0xa b
  | PublicKey_Secp256K1 b => field_msg 0x12 b
  | PublicKey_Composite SignKey VrfKey =>
      let sub tag k := match k with None => [] | Some k => field_msg tag (PublicKey_Marshal k) end in
      0xc2 :: field_msg 0x3e (sub 0xa SignKey ++ sub 0x12 VrfKey)
  | PublicKey_Bls12 b => 0xca :: field_msg 0x3e b
  end.

(** [Validator.Bytes]: the key and the power; the weight is left out. *)
Definition Validator_Bytes {E} (v : Validator) : outcome E bytes :=
  match vPubKey v with
  | None => Panic
  | Some key =>
      match PubKeyToProto key with
      | Ok pk => Ok (field_msg 0xa (PublicKey_Marshal pk) ++ field_varint 0x10 (VotingPower v))
      | _ => Panic
      end
  end.

Fixpoint all_bytes {E} (l : list Validator) : outcome E (list bytes) :=
  match l with
  | [] => Ok []
  | v :: l => b ← Validator_Bytes v; bs ← all_bytes l; Ok (b :: bs)
  end.

Lemma all_bytes_no_error {E} l (e : E) : all_bytes l <> Err e.
Proof.
  induction l as [|v l IH]; [done|]. cbn [all_bytes]. unfold Validator_Bytes.
  destruct (vPubKey v) as [k|]; [|done]. destruct (PubKeyToProto k); [|done..]. cbn [mbind outcome_bind].
  destruct (all_bytes l); [done|intros [= ->]; done|done].
Qed.

Section hashes.
  Context {crypto : CryptoLib} {codec : TimeCodec} {wrappers : WrapperLib}.

Definition Validators_Hash {E} (vals : ValidatorSet) : outcome E bytes :=
  bzs ← all_bytes (Validators vals); Ok (HashFromByteSlices bzs).

Definition Voters_Hash {E} (voters : VoterSet) : outcome E bytes :=
  if bool_decide (Voters voters = []) then Ok []
  else bzs ← all_bytes (Voters voters); Ok (HashFromByteSlices bzs).

Lemma Validators_Hash_no_error {E} vals (e : E) : Validators_Hash vals <> Err e.
Proof. unfold Validators_Hash. pose proof (all_bytes_no_error (Validators vals) e) as Hn. destruct (all_bytes _); [done|intros [= ->]; done|done]. Qed.

Lemma Voters_Hash_no_error {E} voters (e : E) : Voters_Hash voters <> Err e.
Proof.
  unfold Voters_Hash. pose proof (all_bytes_no_error (Voters voters) e) as Hn. destruct (bool_decide _); [done|].
  destruct (all_bytes _); [done|intros [= ->]; done|done].
Qed.

(** ** Commits, transactions and parameters *)

Definition CommitSig_Marshal (cs : CommitSig) : option bytes :=
  t ← StdTimeMarshal (cs_Timestamp cs);
  Some (field_varint 0x8 (cs_BlockIDFlag cs) ++ field_bytes 0x12 (cs_ValidatorAddress cs) ++ field_msg 0x1a t ++
        field_bytes 0x22 (sig_bytes (cs_Signature cs))).

Fixpoint sigs_bytes {E} (sigs : list CommitSig) : outcome E (list bytes) :=
  match sigs with
  | [] => Ok []
  | cs :: sigs => b ← or_panic (CommitSig_Marshal cs); bs ← sigs_bytes sigs; Ok (b :: bs)
  end.

(** A nil commit has a nil hash; the hash kept in the commit is left out. *)
Definition Commit_Hash {E} (commit : option Commit) : outcome E (option bytes) :=
  match commit with
  | None => Ok None
  | Some commit =>
      bs ← sigs_bytes (c_Signatures commit);
      Ok (Some (HashFromByteSlices (bs ++ [sig_bytes (c_AggregatedSignature commit)])))
  end.

Definition Txs_Hash (txs : list bytes) : bytes := HashFromByteSlices (tmhash_Sum <$> txs).

(** [MaxBytes] and [MaxGas] of the block parameters. *)
Definition HashConsensusParams (maxBytes maxGas : Z) : bytes :=
  sha256 (field_varint 0x8 maxBytes ++ field_varint 0x10 maxGas).

(** ** Headers *)

Record Consensus_Version := mkVersion { ver_Block : Z; ver_App : Z }.

(** The three hashes that [fillHeader] sets when they are nil are options. *)
Record Header := mkHeader {
  h_Version : Consensus_Version;
  h_ChainID : bytes;
  h_Height : Z;
  h_Time : Time;
  h_LastBlockID : BlockID;
  h_LastCommitHash : option bytes;
  h_DataHash : option bytes;
  h_VotersHash : bytes;
  h_ValidatorsHash : bytes;
  h_NextValidatorsHash : bytes;
  h_ConsensusHash : bytes;
  h_AppHash : bytes;
  h_LastResultsHash : bytes;
  h_EvidenceHash : option bytes;
  h_ProposerAddress : bytes;
  h_Round : Z;
  h_Proof : bytes
}.

Definition hash_bytes (h : option bytes) : bytes := default [] h.

Definition BlockProtocol : Z := 11.
Definition MaxChainIDLen : nat := 50.
Definition ProofSize : nat := 81.

Definition Populate (h : Header) (version : Consensus_Version) (chainID : bytes) (timestamp : Time) (lastBlockID : BlockID)
    (votersHash validatorsHash nextValidatorsHash consensusHash appHash lastResultsHash proposerAddress : bytes)
    (round : Z) (proof : bytes) : Header :=
  mkHeader version chainID (h_Height h) timestamp lastBlockID (h_LastCommitHash h) (h_DataHash h)
    votersHash validatorsHash nextValidatorsHash consensusHash appHash lastResultsHash (h_EvidenceHash h)
    proposerAddress round proof.

Inductive header_error :=
| ErrBlockProtocol | ErrChainIDLen | ErrHeaderHeight | ErrLastBlockID (e : basic_error) | ErrHash (e : basic_error)
| ErrProposerAddressLen | ErrHeaderRound | ErrProofSize.

Definition ValidateProof (h : bytes) : outcome header_error unit :=
  if bool_decide (h <> []) && bool_decide (length h <> ProofSize) then Err ErrProofSize else Ok tt.

Definition valid_hash (h : bytes) : outcome header_error unit :=
  match ValidateHash h with Ok _ => Ok tt | Err e => Err (ErrHash e) | Panic => Panic end.

Definition Header_ValidateBasic (h : Header) : outcome header_error unit :=
  if negb (ver_Block (h_Version h) =? BlockProtocol) then Err ErrBlockProtocol
  else if bool_decide (MaxChainIDLen < length (h_ChainID h))%nat then Err ErrChainIDLen
  else if h_Height h <? 0 then Err ErrHeaderHeight
  else if h_Height h =? 0 then Err ErrHeaderHeight
  else
    _ ← match BlockID_ValidateBasic (h_LastBlockID h) with
        | Ok _ => Ok tt | Err e => Err (ErrLastBlockID e) | Panic => Panic end;
    _ ← valid_hash (hash_bytes (h_LastCommitHash h));
    _ ← valid_hash (hash_bytes (h_DataHash h));
    _ ← valid_hash (hash_bytes (h_EvidenceHash h));
    if bool_decide (length (h_ProposerAddress h) <> AddressSize) then Err ErrProposerAddressLen
    else
      _ ← valid_hash (h_ValidatorsHash h);
      _ ← valid_hash (h_NextValidatorsHash h);
      _ ← valid_hash (h_ConsensusHash h);
      _ ← valid_hash (h_LastResultsHash h);
      _ ← valid_hash (h_VotersHash h);
      if h_Round h <? 0 then Err ErrHeaderRound else ValidateProof (h_Proof h).

Definition Consensus_Marshal (v : Consensus_Version) : bytes :=
  field_varint 0x8 (ver_Block v) ++ field_varint 0x10 (ver_App v).

Definition BlockID_Marshal (b : BlockID) : bytes :=
  field_bytes 0xa (bid_Hash b) ++ field_msg 0x12 (PartSetHeader_Marshal (bid_PartSetHeader b)).

(** [cdcEncode] of a byte string or a string; of an integer it is
    [IntValue_Marshal]. *)
Definition cdcEncode (item : bytes) : bytes := if bool_decide (item = []) then [] else BytesValue_Marshal item.

Definition header_leaves (h : Header) (t : bytes) : list bytes :=
  [Consensus_Marshal (h_Version h);
   cdcEncode (h_ChainID h);
   IntValue_Marshal (h_Height h);
   t;
   BlockID_Marshal (h_LastBlockID h);
   cdcEncode (hash_bytes (h_LastCommitHash h));
   cdcEncode (hash_bytes (h_DataHash h));
   cdcEncode (h_VotersHash h);
   cdcEncode (h_ValidatorsHash h);
   cdcEncode (h_NextValidatorsHash h);
   cdcEncode (h_ConsensusHash h);
   cdcEncode (h_AppHash h);
   cdcEncode (h_LastResultsHash h);
   cdcEncode (hash_bytes (h_EvidenceHash h));
   cdcEncode (h_ProposerAddress h);
   IntValue_Marshal (h_Round h);
   cdcEncode (h_Proof h)].

(** Nil without validators or voters, or when the time cannot be encoded. *)
Definition Header_Hash (h : Header) : bytes :=
  if bool_decide (h_ValidatorsHash h = []) || bool_decide (h_VotersHash h = []) then []
  else match StdTimeMarshal (h_Time h) with
       | None => []
       | Some pbt => HashFromByteSlices (header_leaves h pbt)
       end.

End hashes.

(** ** What the hashes determine *)

(** The documented encoding of the wrappers: a value is written after its tag
    and, for bytes, its length; only the empty string has the empty encoding. *)
Class WrapperLaws `{WrapperLib} : Prop := {
  BytesValue_inj : forall a b, BytesValue_Marshal a = BytesValue_Marshal b -> a = b;
  BytesValue_some : forall a, a <> [] -> BytesValue_Marshal a <> [];
  IntValue_inj : forall a b, int64 a -> int64 b -> IntValue_Marshal a = IntValue_Marshal b -> a = b
}.

Definition same_header (h1 h2 : Header) : Prop :=
  h_Version h1 = h_Version h2 /\ h_ChainID h1 = h_ChainID h2 /\ h_Height h1 = h_Height h2 /\ h_Time h1 = h_Time h2 /\
  h_LastBlockID h1 = h_LastBlockID h2 /\
  hash_bytes (h_LastCommitHash h1) = hash_bytes (h_LastCommitHash h2) /\
  hash_bytes (h_DataHash h1) = hash_bytes (h_DataHash h2) /\ h_VotersHash h1 = h_VotersHash h2 /\
  h_ValidatorsHash h1 = h_ValidatorsHash h2 /\ h_NextValidatorsHash h1 = h_NextValidatorsHash h2 /\
  h_ConsensusHash h1 = h_ConsensusHash h2 /\ h_AppHash h1 = h_AppHash h2 /\ h_LastResultsHash h1 = h_LastResultsHash h2 /\
  hash_bytes (h_EvidenceHash h1) = hash_bytes (h_EvidenceHash h2) /\ h_ProposerAddress h1 = h_ProposerAddress h2 /\
  h_Round h1 = h_Round h2 /\ h_Proof h1 = h_Proof h2.

(** The fields fit their types. *)
Definition header_ranges (h : Header) : Prop :=
  uint64 (ver_Block (h_Version h)) /\ uint64 (ver_App (h_Version h)) /\ int64 (h_Height h) /\ int64 (h_Round h) /\
  int64 (Total (bid_PartSetHeader (h_LastBlockID h))).

Lemma field_varint_uint_inj tag tags v1 v2 r1 r2 :
  (tag ∉ tags) -> uint64 v1 -> uint64 v2 -> starts_in tags r1 -> starts_in tags r2 ->
  field_varint tag v1 ++ r1 = field_varint tag v2 ++ r2 -> v1 = v2 /\ r1 = r2.
Proof.
  intros Ht H1 H2 Hs1 Hs2. unfold field_varint. rewrite !wrapu64_id by done. zcase; cbn [app]; intros Heq.
  - by subst.
  - exfalso. subst r1. by apply Ht.
  - exfalso. subst r2. by apply Ht.
  - injection Heq as Heq. apply encodeVarint_prefix in Heq; [done|unfold_ints; lia..].
Qed.

Lemma Consensus_Marshal_inj v1 v2 :
  uint64 (ver_Block v1) -> uint64 (ver_App v1) -> uint64 (ver_Block v2) -> uint64 (ver_App v2) ->
  Consensus_Marshal v1 = Consensus_Marshal v2 -> v1 = v2.
Proof.
  destruct v1 as [b1 a1], v2 as [b2 a2]. cbn. intros B1 A1 B2 A2. unfold Consensus_Marshal. cbn.
  rewrite <- (app_nil_r (field_varint _ a1)), <- (app_nil_r (field_varint _ a2)).
  intros [-> Heq]%(field_varint_uint_inj _ [0x10]); [|wire_side|done|done|wire_side..].
  by apply (field_varint_uint_inj _ []) in Heq as [-> _]; [|wire_side|done|done|wire_side..].
Qed.

Lemma BlockID_Marshal_inj b1 b2 :
  int64 (Total (bid_PartSetHeader b1)) -> int64 (Total (bid_PartSetHeader b2)) ->
  BlockID_Marshal b1 = BlockID_Marshal b2 -> b1 = b2.
Proof.
  destruct b1 as [h1 [t1 p1]], b2 as [h2 [t2 p2]]. intros H1 H2 Heq.
  enough (mkCanonicalBlockID h1 (mkCanonicalPartSetHeader t1 p1) = mkCanonicalBlockID h2 (mkCanonicalPartSetHeader t2 p2)) by congruence.
  by apply CanonicalBlockID_inj.
Qed.

Section binding.
  Context {crypto : CryptoLib} {codec : TimeCodec} {wrappers : WrapperLib}.
  Context {sha : Sha256Length} {times : TimeCodecLaws} {wrapped : WrapperLaws}.

Lemma cdcEncode_inj a b : cdcEncode a = cdcEncode b -> a = b.
Proof.
  unfold cdcEncode. repeat case_bool_decide; intros Heq; [congruence| | |by apply BytesValue_inj].
  - exfalso. by apply (BytesValue_some b).
  - exfalso. by apply (BytesValue_some a).
Qed.

Lemma header_leaves_inj h1 h2 t1 t2 :
  header_ranges h1 -> header_ranges h2 -> StdTimeMarshal (h_Time h1) = Some t1 -> StdTimeMarshal (h_Time h2) = Some t2 ->
  header_leaves h1 t1 = header_leaves h2 t2 -> same_header h1 h2.
Proof.
  intros (B1 & A1 & H1 & R1 & T1) (B2 & A2 & H2 & R2 & T2) Ht1 Ht2 Heq. unfold header_leaves in Heq.
  injection Heq as E1 E2 E3 E4 E5 E6 E7 E8 E9 E10 E11 E12 E13 E14 E15 E16 E17. subst t2.
  split_and!; try (by apply cdcEncode_inj).
  - by apply Consensus_Marshal_inj.
  - by apply IntValue_inj.
  - by eapply StdTime_inj.
  - by apply BlockID_Marshal_inj.
  - by apply IntValue_inj.
Qed.

Lemma Header_Hash_some h :
  Header_Hash h <> [] -> exists t, StdTimeMarshal (h_Time h) = Some t /\ Header_Hash h = HashFromByteSlices (header_leaves h t).
Proof.
  unfold Header_Hash. destruct (_ || _); [done|]. destruct (StdTimeMarshal (h_Time h)) as [t|]; [|done]. intros _. by exists t.
Qed.

End binding.

(** The strings hashed for a header. *)
Definition header_inputs `{CryptoLib} `{TimeCodec} `{WrapperLib} (h : Header) : list bytes :=
  match StdTimeMarshal (h_Time h) with Some t => tree_inputs 17 (header_leaves h t) | None => [] end.

Lemma header_binds `{CryptoLib} `{TimeCodec} `{WrapperLib} {sha : Sha256Length} {times : TimeCodecLaws}
    {wrapped : WrapperLaws} h1 h2 :
  header_ranges h1 -> header_ranges h2 -> Header_Hash h1 = Header_Hash h2 -> Header_Hash h1 <> [] ->
  collision_free (header_inputs h1) (header_inputs h2) -> same_header h1 h2.
Proof.
  intros R1 R2 Heq Hne Hc. destruct (Header_Hash_some h1 Hne) as (t1 & Ht1 & E1).
  destruct (Header_Hash_some h2) as (t2 & Ht2 & E2); [congruence|]. apply (header_leaves_inj h1 h2 t1 t2); try done.
  unfold header_inputs in Hc. rewrite Ht1, Ht2 in Hc.
  exact (tree_inj 17 17 (header_leaves h1 t1) (header_leaves h2 t2) (le_n 17) (le_n 17)
    (eq_trans (eq_sym E1) (eq_trans Heq E2)) Hc).
Qed.

(** C3: the hash of a header determines the header.  Two headers with the
    same hash, which is not the nil hash of an incomplete header, agree in
    every field, up to nil and empty hashes; the fields are encoded one by one,
    so nothing moves between neighbouring fields.  The only assumption is that
    no string hashed for the one and another hashed for the other have the same
    hash. *)
Theorem header_hash_binds `{CryptoLib} `{TimeCodec} `{WrapperLib} {sha : Sha256Length} {times : TimeCodecLaws}
    {wrapped : WrapperLaws} h1 h2 :
  header_ranges h1 -> header_ranges h2 -> Header_Hash h1 = Header_Hash h2 -> Header_Hash h1 <> [] ->
  collision_free (header_inputs h1) (header_inputs h2) -> same_header h1 h2.
Proof. apply header_binds. Qed.

(** ** Sets of validators and voters *)

Lemma PublicKey_ind' (P : PublicKey -> Prop) :
  P PublicKey_nil -> (forall b, P (PublicKey_Ed25519 b)) -> (forall b, P (PublicKey_Secp256K1 b)) ->
  (forall s v, (forall k, s = Some k -> P k) -> (forall k, v = Some k -> P k) -> P (PublicKey_Composite s v)) ->
  (forall b, P (PublicKey_Bls12 b)) -> forall k, P k.
Proof.
  intros H1 H2 H3 H4 H5. fix IH 1. intros [|b|b|s v|b]; [apply H1|apply H2|apply H3| |apply H5].
  apply H4; intros k; [destruct s as [k'|]|destruct v as [k'|]]; intros [= <-]; apply IH.
Qed.

(** The keys that [PubKeyToProto] can carry, with the sizes of their kinds. *)
Fixpoint key_ok (k : PubKey) : Prop :=
  match k with
  | PubKeyEd25519 b => length b = ed25519_PubKeySize
  | PubKeySecp256k1 b => length b = secp256k1_PubKeySize
  | PubKeyBls b => length b = bls_PubKeySize
  | PubKeySr25519 _ => False
  | PubKeyComposite s v => key_ok s /\ key_ok v
  end.

Lemma PubKey_roundtrip k : key_ok k -> exists pk, PubKeyToProto k = Ok pk /\ PubKeyFromProto pk = Ok k.
Proof.
  induction k as [b|b|b|b|s IHs v IHv]; cbn [key_ok]; intros Hk; [..|destruct Hk as [Hs Hv]].
  - eexists. split; [done|]. cbn. by rewrite bool_decide_eq_false_2 by auto.
  - eexists. split; [done|]. cbn. by rewrite bool_decide_eq_false_2 by auto.
  - done.
  - eexists. split; [done|]. cbn. by rewrite bool_decide_eq_false_2 by auto.
  - destruct (IHs Hs) as (ps & Es & Fs), (IHv Hv) as (pv & Ev & Fv). exists (PublicKey_Composite (Some ps) (Some pv)).
    cbn. by rewrite Es, Ev, Fs, Fv.
Qed.

Lemma field_msg_inj_nil tag b1 b2 : field_msg tag b1 = field_msg tag b2 -> b1 = b2.
Proof. intros Heq. apply (field_msg_inj tag b1 b2 [] []). by rewrite !app_nil_r. Qed.

Definition sub_key (tag : Z) (k : option PublicKey) : bytes :=
  match k with None => [] | Some k => field_msg tag (PublicKey_Marshal k) end.

Lemma sub_key_inj tag tags s1 s2 r1 r2 :
  (tag ∉ tags) -> starts_in tags r1 -> starts_in tags r2 ->
  (forall k1 k2, s1 = Some k1 -> PublicKey_Marshal k1 = PublicKey_Marshal k2 -> k1 = k2) ->
  sub_key tag s1 ++ r1 = sub_key tag s2 ++ r2 -> s1 = s2 /\ r1 = r2.
Proof.
  intros Ht S1 S2 IH. destruct s1 as [k1|], s2 as [k2|]; cbn [sub_key]; intros Heq.
  - apply field_msg_inj in Heq as [Hm ->]. by rewrite (IH k1 k2).
  - exfalso. cbn [app] in Heq. rewrite <- Heq in S2. by apply Ht.
  - exfalso. cbn [app] in Heq. rewrite Heq in S1. by apply Ht.
  - done.
Qed.

Lemma starts_sub_key tags tag k r : tag ∈ tags -> starts_in tags r -> starts_in tags (sub_key tag k ++ r).
Proof. by destruct k. Qed.

Lemma PublicKey_Marshal_inj k1 : forall k2, PublicKey_Marshal k1 = PublicKey_Marshal k2 -> k1 = k2.
Proof.
  induction k1 as [|b|b|s v IHs IHv|b] using PublicKey_ind'; intros [|b'|b'|s' v'|b']; try done; cbn [PublicKey_Marshal].
  - by intros ->%field_msg_inj_nil.
  - by intros ->%field_msg_inj_nil.
  - intros Heq. injection Heq as Heq.
    assert (Hm : sub_key 0xa s ++ sub_key 0x12 v ++ [] = sub_key 0xa s' ++ sub_key 0x12 v' ++ []).
    { rewrite !app_nil_r. apply (field_msg_inj_nil 0x3e). unfold field_msg. by f_equal. }
    apply (sub_key_inj 0xa [0x12]) in Hm as [-> Hm]; [|wire_side|by apply starts_sub_key; [wire_side|]..|by intros; eapply IHs].
    by apply (sub_key_inj 0x12 []) in Hm as [-> _]; [|wire_side|done|done|intros; eapply IHv].
  - intros Heq. injection Heq as Heq. f_equal. apply (field_msg_inj_nil 0x3e). unfold field_msg. by f_equal.
Qed.

Lemma PubKeyToProto_inj k1 : forall k2 p, PubKeyToProto k1 = Ok p -> PubKeyToProto k2 = Ok p -> k1 = k2.
Proof.
  induction k1 as [b|b|b|b|s IHs v IHv]; intros k2 p H1 H2.
  - injection H1 as <-. destruct k2 as [| | | |s2 v2]; cbn in H2; [by injection H2 as <-|done..|].
    destruct (PubKeyToProto s2); [|done..]. by destruct (PubKeyToProto v2).
  - injection H1 as <-. destruct k2 as [| | | |s2 v2]; cbn in H2; [done|by injection H2 as <-|done..|].
    destruct (PubKeyToProto s2); [|done..]. by destruct (PubKeyToProto v2).
  - done.
  - injection H1 as <-. destruct k2 as [| | | |s2 v2]; cbn in H2; [done..|by injection H2 as <-|].
    destruct (PubKeyToProto s2); [|done..]. by destruct (PubKeyToProto v2).
  - cbn in H1. destruct (PubKeyToProto s) as [ps| |] eqn:Es; [|done..]. destruct (PubKeyToProto v) as [pv| |] eqn:Ev; [|done..].
    injection H1 as <-. destruct k2 as [| | | |s2 v2]; cbn in H2; [done..|].
    destruct (PubKeyToProto s2) as [ps2| |] eqn:Es2; [|done..]. destruct (PubKeyToProto v2) as [pv2| |] eqn:Ev2; [|done..].
    injection H2 as -> ->. by rewrite (IHs s2 ps), (IHv v2 pv).
Qed.

(** What the hash of a set covers of a validator. *)
Definition hashed_part (v : Validator) : option PubKey * Z := (vPubKey v, VotingPower v).

Lemma Validator_Bytes_inj {E} v1 v2 b :
  int64 (VotingPower v1) -> int64 (VotingPower v2) ->
  Validator_Bytes (E:=E) v1 = Ok b -> Validator_Bytes (E:=E) v2 = Ok b -> hashed_part v1 = hashed_part v2.
Proof.
  intros P1 P2. unfold Validator_Bytes, hashed_part.
  destruct (vPubKey v1) as [k1|]; [|done]. destruct (vPubKey v2) as [k2|]; [|done].
  destruct (PubKeyToProto k1) as [p1| |] eqn:E1; [|done..]. destruct (PubKeyToProto k2) as [p2| |] eqn:E2; [|done..].
  intros [= <-] Heq. injection Heq as Heq.
  rewrite <- (app_nil_r (field_varint _ (VotingPower v1))), <- (app_nil_r (field_varint _ (VotingPower v2))) in Heq.
  assert (Hm : field_msg 10 (PublicKey_Marshal p2) ++ field_varint 16 (VotingPower v2) ++ [] =
    field_msg 10 (PublicKey_Marshal p1) ++ field_varint 16 (VotingPower v1) ++ []) by (unfold field_msg; cbn [app]; by f_equal).
  apply field_msg_inj in Hm as [<-%PublicKey_Marshal_inj Hm].
  apply (field_varint_inj _ []) in Hm as [-> _]; [|wire_side|done|done|wire_side..]. by rewrite (PubKeyToProto_inj k1 k2 p2).
Qed.

Lemma Validator_Bytes_part {E} v1 v2 :
  hashed_part v1 = hashed_part v2 -> Validator_Bytes (E:=E) v1 = Validator_Bytes v2.
Proof. unfold hashed_part, Validator_Bytes. by intros [= -> ->]. Qed.

Lemma all_bytes_part {E} l1 l2 :
  hashed_part <$> l1 = hashed_part <$> l2 -> all_bytes (E:=E) l1 = all_bytes l2.
Proof.
  revert l2. induction l1 as [|v1 l1 IH]; intros [|v2 l2] Heq; [done..|]. injection Heq as Hv1 Hv2 Hl. cbn [all_bytes].
  rewrite (Validator_Bytes_part v1 v2), (IH l2); [done|done|unfold hashed_part; congruence].
Qed.

Definition powers_fit (l : list Validator) : Prop := Forall (fun v => int64 (VotingPower v)) l.

Lemma all_bytes_inj {E} l1 : forall l2 bs,
  powers_fit l1 -> powers_fit l2 -> all_bytes (E:=E) l1 = Ok bs -> all_bytes (E:=E) l2 = Ok bs ->
  hashed_part <$> l1 = hashed_part <$> l2.
Proof.
  induction l1 as [|v1 l1 IH]; intros [|v2 l2] bs P1 P2 H1 H2; cbn [all_bytes] in *.
  - done.
  - injection H1 as <-. by apply obind_Ok in H2 as (b & _ & (bs & _ & ?)%obind_Ok).
  - injection H2 as <-. by apply obind_Ok in H1 as (b & _ & (bs & _ & ?)%obind_Ok).
  - apply obind_Ok in H1 as (b1 & B1 & (bs1 & A1 & [= <-])%obind_Ok).
    apply obind_Ok in H2 as (b2 & B2 & (bs2 & A2 & [= -> ->])%obind_Ok).
    apply Forall_cons in P1 as [P1 P1'], P2 as [P2 P2']. rewrite !fmap_cons.
    f_equal; [by eapply Validator_Bytes_inj|by eapply IH].
Qed.

(** The strings hashed for a set of voters. *)
Definition voters_inputs `{CryptoLib} (E : Type) (voters : VoterSet) : list bytes :=
  match all_bytes (E:=E) (Voters voters) with Ok bs => tree_inputs (length bs) bs | _ => [] end.

Lemma Voters_Hash_cons `{CryptoLib} {sha : Sha256Length} {E} voters h :
  Voters voters <> [] -> Voters_Hash (E:=E) voters = Ok h -> exists bs, all_bytes (E:=E) (Voters voters) = Ok bs /\
    h = HashFromByteSlices bs /\ h <> [].
Proof.
  intros Hne. unfold Voters_Hash. rewrite bool_decide_eq_false_2 by done. intros (bs & Hb & [= <-])%obind_Ok.
  exists bs. split_and!; [done|done|]. destruct (HashFromByteSlices_sha bs) as [x ->]. intros Hx.
  pose proof (sha256_length x) as Hl. by rewrite Hx in Hl.
Qed.

(** What the hash of a voter set in a header determines.  Of two sets one
    of which has hash [h], the other has hash [h] too exactly when their voters
    have, in order, the same keys and the same voting powers.  The voting
    weights, by which commits are counted, are not covered: they can differ at
    will.  The only assumption is that the strings hashed do not collide. *)
Theorem voters_hash_exact `{CryptoLib} {sha : Sha256Length} {E} vs1 vs2 h :
  powers_fit (Voters vs1) -> powers_fit (Voters vs2) -> collision_free (voters_inputs E vs1) (voters_inputs E vs2) ->
  Voters_Hash (E:=E) vs1 = Ok h ->
  Voters_Hash (E:=E) vs2 = Ok h <-> hashed_part <$> Voters vs1 = hashed_part <$> Voters vs2.
Proof.
  intros P1 P2 Hc H1. split.
  - intros H2. destruct (decide (Voters vs1 = [])) as [E1|E1], (decide (Voters vs2 = [])) as [E2|E2].
    + by rewrite E1, E2.
    + destruct (Voters_Hash_cons vs2 h E2 H2) as (bs & _ & _ & Hh). unfold Voters_Hash in H1. rewrite E1 in H1. by injection H1 as <-.
    + destruct (Voters_Hash_cons vs1 h E1 H1) as (bs & _ & _ & Hh). unfold Voters_Hash in H2. rewrite E2 in H2. by injection H2 as <-.
    + destruct (Voters_Hash_cons vs1 h E1 H1) as (bs1 & B1 & Hh1 & _), (Voters_Hash_cons vs2 h E2 H2) as (bs2 & B2 & Hh2 & _).
      unfold voters_inputs in Hc. rewrite B1, B2 in Hc.
      assert (bs1 = bs2) as -> by (apply (tree_inj (length bs1) (length bs2)); congruence || done). by eapply all_bytes_inj.
  - intros Heq. unfold Voters_Hash in *. rewrite (all_bytes_part _ _ (eq_sym Heq)).
    assert (Hn : Voters vs1 = [] <-> Voters vs2 = []) by (destruct (Voters vs1), (Voters vs2); done).
    by rewrite (bool_decide_ext _ _ (iff_sym Hn)).
Qed.

(** A key on the wire.  Every key of a supported kind and of the size of
    its kind comes back from its protobuf message, composite keys of any depth
    included; but a composite message in which a part is missing, which is what
    a peer can send, makes [PubKeyFromProto] panic instead of returning an
    error. *)
Theorem pubkey_roundtrip k :
  key_ok k ->
  (exists pk, PubKeyToProto k = Ok pk /\ PubKeyFromProto pk = Ok k) /\
  (forall vrf, PubKeyFromProto (PublicKey_Composite None vrf) = Panic) /\
  (forall sign s, PubKeyFromProto sign = Ok s -> PubKeyFromProto (PublicKey_Composite (Some sign) None) = Panic).
Proof. intros Hk. split_and!; [by apply PubKey_roundtrip|done|]. intros sign s Hs. cbn. by rewrite Hs. Qed.

(** ** Witnesses *)

Definition toy_wrappers : WrapperLib := {|
  BytesValue_Marshal b := field_msg 0xa b;
  IntValue_Marshal z := field_varint 0x8 z
|}.

Lemma toy_wrapper_laws : @WrapperLaws toy_wrappers.
Proof.
  constructor.
  - intros a b Hab. by apply (field_msg_inj_nil 0xa).
  - done.
  - intros a b Ha Hb Heq. change (field_varint 0x8 a = field_varint 0x8 b) in Heq.
    rewrite <- (app_nil_r (field_varint _ a)), <- (app_nil_r (field_varint _ b)) in Heq.
    by apply (field_varint_inj _ []) in Heq as [-> _]; [|wire_side|done|done|wire_side..].
Qed.

Definition sample_header (evidence : option bytes) : Header :=
  mkHeader (mkVersion 11 0) [7] 5 100 sample_block_id (Some (replicate 32 3)) (Some (replicate 32 4)) (replicate 32 5)
    (replicate 32 6) (replicate 32 7) (replicate 32 8) [9] (replicate 32 10) evidence (replicate 20 11) 0 (replicate 81 12).

Lemma header_hash_binds_witness : same_header (sample_header None) (sample_header (Some [])).
Proof.
  apply (@header_hash_binds toy_crypto toy_time toy_wrappers toy_sha256_length toy_time_laws toy_wrapper_laws).
  - apply (bool_decide_unpack _). vm_compute. reflexivity.
  - apply (bool_decide_unpack _). vm_compute. reflexivity.
  - vm_compute. reflexivity.
  - vm_compute. discriminate.
  - assert (Hd : Forall (fun x => Forall (fun y => @sha256 toy_crypto x = @sha256 toy_crypto y -> x = y)
      (@header_inputs toy_crypto toy_time toy_wrappers (sample_header (Some []))))
      (@header_inputs toy_crypto toy_time toy_wrappers (sample_header None))) by (apply (bool_decide_unpack _); vm_compute; reflexivity).
    intros x y Hx Hy. exact (proj1 (Forall_forall _ _) (proj1 (Forall_forall _ _) Hd x Hx) y Hy).
Defined.

Definition weighty_voters (weight : Z) : VoterSet :=
  mkVoterSet [mkValidator (replicate 20 1) (Some (PubKeyEd25519 (replicate 32 1))) 10 weight 0;
              mkValidator (replicate 20 2) (Some (PubKeyBls (replicate 48 2))) 20 1 0] 0.

Lemma voters_hash_exact_witness :
  @Voters_Hash toy_crypto unit (weighty_voters 1) = @Voters_Hash toy_crypto unit (weighty_voters 1000) /\
  is_ok (@Voters_Hash toy_crypto unit (weighty_voters 1)) = true.
Proof.
  destruct (@Voters_Hash toy_crypto unit (weighty_voters 1)) as [h| |] eqn:Eh; [|by vm_compute in Eh..]. split; [|done].
  symmetry. apply (@voters_hash_exact toy_crypto toy_sha256_length unit (weighty_voters 1) (weighty_voters 1000) h).
  - apply (bool_decide_unpack _). vm_compute. reflexivity.
  - apply (bool_decide_unpack _). vm_compute. reflexivity.
  - assert (Hd : Forall (fun x => Forall (fun y => @sha256 toy_crypto x = @sha256 toy_crypto y -> x = y)
      (@voters_inputs toy_crypto unit (weighty_voters 1000))) (@voters_inputs toy_crypto unit (weighty_voters 1)))
      by (apply (bool_decide_unpack _); vm_compute; reflexivity).
    intros x y Hx Hy. exact (proj1 (Forall_forall _ _) (proj1 (Forall_forall _ _) Hd x Hx) y Hy).
  - exact Eh.
  - vm_compute. reflexivity.
Defined.

Lemma pubkey_roundtrip_witness :
  let k := PubKeyComposite (PubKeyBls (replicate 48 1)) (PubKeyEd25519 (replicate 32 2)) in
  exists pk, PubKeyToProto k = Ok pk /\ PubKeyFromProto pk = Ok k.
Proof. intros k. apply (pubkey_roundtrip k). split; vm_compute; reflexivity. Defined.
