(* ===== verification/BlockTime.v ===== *)
(** * The time of a block

    - [WeightedMedian] of src/types/time/time.go;
    - [MedianTime] of src/state/state.go.

    The median of the times in a commit, weighted by the voters: what it
    promises against faulty voters, and where the promise ends. *)

From Stdlib Require Import ZArith Lia.
From stdpp Require Import prelude list sorting.
From S2P Require Import Prelude SafeMath Crypto Validator ValidatorSet ValidatorLists Proto Block VoterSet VerifyCommit.

Local Open Scope Z_scope.
Local Open Scope go_scope.

Record WeightedTime := mkWeightedTime { wt_Time : Time; wt_Weight : Z }.

(** [Time.UnixNano]: nanoseconds since 1970 in an [int64], which wraps around
    before the year 1678 and after the year 2262. *)
Definition unix_epoch : Time := 62135596800 * 1000000000.
Definition UnixNano (t : Time) : Z := wrap64 (t - unix_epoch).

(** The function given to [sort.Slice]; nil pointers go last. *)
Definition less_time (a b : option WeightedTime) : bool :=
  match a, b with
  | None, _ => false
  | Some _, None => true
  | Some a, Some b => UnixNano (wt_Time a) <? UnixNano (wt_Time b)
  end.

(** The loop; the result is the zero time if no entry is taken. *)
Fixpoint median_scan (weightedTimes : list (option WeightedTime)) (median : Z) : Time :=
  match weightedTimes with
  | [] => 0
  | None :: rest => median_scan rest median
  | Some w :: rest => if median <=? wt_Weight w then wt_Time w else median_scan rest (median -i64 wt_Weight w)
  end.

Definition WeightedMedian (weightedTimes : list (option WeightedTime)) (totalVotingPower : Z) : Time :=
  median_scan (sort_by less_time weightedTimes) (totalVotingPower /i64 2).

(** The loop of [MedianTime] over the signatures: the entries and the total. *)
Fixpoint weighted_times (voters : VoterSet) (sigs : list CommitSig) (total : Z) : list (option WeightedTime) * Z :=
  match sigs with
  | [] => ([], total)
  | commitSig :: sigs =>
      match if Absent commitSig then None else snd (Voters_GetByAddress voters (cs_ValidatorAddress commitSig)) with
      | None => let '(l, total) := weighted_times voters sigs total in (None :: l, total)
      | Some v =>
          let '(l, total) := weighted_times voters sigs (total +i64 VotingWeight v) in
          (Some (mkWeightedTime (cs_Timestamp commitSig) (VotingWeight v)) :: l, total)
      end
  end.

Definition MedianTime (commit : Commit) (voters : VoterSet) : Time :=
  let '(weightedTimes, totalVotingWeight) := weighted_times voters (c_Signatures commit) 0 in
  WeightedMedian weightedTimes totalVotingWeight.

(** ** The entries that count *)

Definition entry_weights (l : list WeightedTime) : list Z := wt_Weight <$> l.


Abbreviation nano w := (UnixNano (wt_Time w)).

Lemma weighted_times_entries voters sigs t1 t2 : fst (weighted_times voters sigs t1) = fst (weighted_times voters sigs t2).
Proof.
  revert t1 t2. induction sigs as [|s sigs IH]; intros t1 t2; [done|]. cbn [weighted_times].
  destruct (if Absent s then None else _) as [v|].
  - specialize (IH (t1 +i64 VotingWeight v) (t2 +i64 VotingWeight v)).
    destruct (weighted_times voters sigs (t1 +i64 _)), (weighted_times voters sigs (t2 +i64 _)). cbn in *. by f_equal.
  - specialize (IH t1 t2). destruct (weighted_times voters sigs t1), (weighted_times voters sigs t2). cbn in *. by f_equal.
Qed.


(** ** Where the scan stops *)





#[global] Instance entry_weights_Permutation : Proper (Permutation ==> Permutation) entry_weights.
Proof. unfold entry_weights. intros ???. by apply fmap_Permutation. Qed.








(** ** Witnesses and limits *)

Definition clock_voters : VoterSet :=
  mkVoterSet ((fun i => mkValidator (replicate 20 i) None 1 1 0) <$> [1; 2; 3; 4]) 4.


Definition clock_commit (times : list (Z * Time)) : Commit :=
  NewCommit 5 0 sample_block_id ((fun it => NewCommitSigForBlock (Some [1]) (replicate 20 (fst it)) (unix_epoch + snd it)) <$> times).


(** Faulty voters with less than a third of the weight can set the time of
    a block.  Of four voters with weight 1 one is faulty.  In a commit of three,
    which is more than two thirds, its early time is taken although both honest
    times are later.  And in a commit of all four a time 584 years ahead is
    taken: [UnixNano] wraps around and sorts it between the honest ones. *)
Theorem median_time_forged :
  (forall t, 0 <= t < 100 -> MedianTime (clock_commit [(1, 100); (2, 110); (4, t)]) clock_voters = unix_epoch + t) /\
  (forall t, 100 < t < 110 ->
    MedianTime (clock_commit [(1, 100); (2, 110); (3, 120); (4, t + two64)]) clock_voters = unix_epoch + t + two64).
Proof.
  assert (HU : forall t, 0 <= t < 1000 -> UnixNano (unix_epoch + t) = t).
  { intros t Ht. unfold UnixNano. rewrite wrap64_id by (unfold_ints; lia). lia. }
  assert (HU2 : forall t, 0 <= t < 1000 -> UnixNano (unix_epoch + (t + two64)) = t).
  { intros t Ht. unfold UnixNano, wrap64. replace (unix_epoch + (t + two64) - unix_epoch + two63) with (t + two63 + 1 * two64) by lia.
    rewrite Z_mod_plus_full, Z.mod_small by (unfold_ints; lia). lia. }
  split; intros t Ht; unfold MedianTime.
  - change (weighted_times clock_voters _ 0) with
      ([Some (mkWeightedTime (unix_epoch + 100) 1); Some (mkWeightedTime (unix_epoch + 110) 1); Some (mkWeightedTime (unix_epoch + t) 1)], 3).
    unfold WeightedMedian, sort_by. cbn [foldr insert_by less_time wt_Time]. rewrite !HU by lia.
    destruct (Z.ltb_spec t 110); [|lia]. cbn [insert_by less_time wt_Time]. rewrite !HU by lia.
    destruct (Z.ltb_spec t 100); [|lia]. done.
  - change (weighted_times clock_voters _ 0) with
      ([Some (mkWeightedTime (unix_epoch + 100) 1); Some (mkWeightedTime (unix_epoch + 110) 1); Some (mkWeightedTime (unix_epoch + 120) 1);
        Some (mkWeightedTime (unix_epoch + (t + two64)) 1)], 4).
    unfold WeightedMedian, sort_by. cbn [foldr insert_by less_time wt_Time]. rewrite !HU2, !HU by lia.
    destruct (Z.ltb_spec t 120); [|lia]. cbn [insert_by less_time wt_Time]. rewrite !HU2, !HU by lia.
    destruct (Z.ltb_spec t 110); [|lia]. cbn [insert_by less_time wt_Time]. rewrite ?HU2, ?HU by lia.
    destruct (Z.ltb_spec t 100); [lia|]. rewrite <- Z.add_assoc. done.
Qed.
