(* ===== verification/Light.v ===== *)
(** * The light client

    - [SignedHeader] and [LightBlock] of src/types/light.go, and
      [VoterSetFromProto] of src/types/voter_set.go;
    - src/light/verifier.go: [VerifyAdjacent], [VerifyNonAdjacent], [Verify],
      [VerifyBackwards], [ValidateTrustLevel];
    - [verifySkipping] of src/light/client.go.

    The total weight a voter set keeps after it was asked for it is left out. *)

From Stdlib Require Import ZArith Lia.
From stdpp Require Import prelude list gmap.
From S2P Require Import Prelude SafeMath Crypto Validator ValidatorSet ValidatorLists Proto Block VoterSet VerifyCommit Merkle MerkleProps Header.

Local Open Scope Z_scope.
Local Open Scope go_scope.

Record SignedHeader := mkSignedHeader { sh_Header : option Header; sh_Commit : option Commit }.

Record LightBlock := mkLightBlock {
  lb_SignedHeader : option SignedHeader; lb_ValidatorSet : option ValidatorSet; lb_VoterSet : option VoterSet
}.

Inductive light_basic_error :=
| ErrMissing | ErrInHeader (e : header_error) | ErrInCommit (e : basic_error) | ErrOtherChain | ErrCommitHeight | ErrCommitHash
| ErrInValidators (e : valset_error) | ErrInVoters (e : voters_error) | ErrValidatorsHash | ErrVotersHash.

(** [VoterSetFromProto], once the validators are decoded: the total is taken
    from the message. *)
Definition VoterSetFromProto (voters : list Validator) (total : Z) : outcome voters_error VoterSet :=
  let voters := mkVoterSet voters total in
  _ ← Voters_ValidateBasic voters; Ok voters.

(** A nil pointer that is followed. *)
Definition deref {E A} (o : option A) : outcome E A := match o with Some a => Ok a | None => Panic end.

Inductive light_error :=
| ErrAdjacent | ErrNonAdjacent | ErrOldHeaderExpired | ErrNewValSetCantBeTrusted (got needed : Z)
| ErrInvalidHeader (e : option light_basic_error) | ErrNextValidators | ErrVerify (e : verify_error).

Section light.
  Context {crypto : CryptoLib} {codec : TimeCodec} {wrappers : WrapperLib}.

Definition SignedHeader_ValidateBasic (chainID : bytes) (sh : SignedHeader) : outcome light_basic_error unit :=
  match sh_Header sh, sh_Commit sh with
  | None, _ | _, None => Err ErrMissing
  | Some h, Some c =>
      _ ← lift_err ErrInHeader (Header_ValidateBasic h);
      _ ← lift_err ErrInCommit (Commit_ValidateBasic c);
      if negb (bytes_eqb (h_ChainID h) chainID) then Err ErrOtherChain
      else if negb (c_Height c =? h_Height h) then Err ErrCommitHeight
      else if negb (bytes_eqb (Header_Hash h) (bid_Hash (c_BlockID c))) then Err ErrCommitHash
      else Ok tt
  end.

Definition LightBlock_ValidateBasic (chainID : bytes) (lb : LightBlock) : outcome light_basic_error unit :=
  match lb_SignedHeader lb, lb_ValidatorSet lb, lb_VoterSet lb with
  | Some sh, Some vals, Some voters =>
      _ ← SignedHeader_ValidateBasic chainID sh;
      _ ← lift_err ErrInValidators (ValidateBasicSet vals);
      _ ← lift_err ErrInVoters (Voters_ValidateBasic voters);
      h ← deref (sh_Header sh);
      validatorSetHash ← Validators_Hash vals;
      if negb (bytes_eqb (h_ValidatorsHash h) validatorSetHash) then Err ErrValidatorsHash
      else
        voterSetHash ← Voters_Hash voters;
        if negb (bytes_eqb (h_VotersHash h) voterSetHash) then Err ErrVotersHash else Ok tt
  | _, _, _ => Err ErrMissing
  end.

(** ** The verifier *)

Definition HeaderExpired (h : Header) (trustingPeriod : Z) (now : Time) : bool := negb (now <? h_Time h + trustingPeriod).

(** The reasons after [ValidateBasic] are not told apart. *)
Definition verifyNewHeaderAndValsAndVoters (untrusted : SignedHeader) (untrustedVals : ValidatorSet)
    (untrustedVoters : VoterSet) (trusted : Header) (now maxClockDrift : Z) : outcome light_error Header :=
  _ ← lift_err (fun e => ErrInvalidHeader (Some e)) (SignedHeader_ValidateBasic (h_ChainID trusted) untrusted);
  h ← deref (sh_Header untrusted);
  if h_Height h <=? h_Height trusted then Err (ErrInvalidHeader None)
  else if negb (h_Time trusted <? h_Time h) then Err (ErrInvalidHeader None)
  else if negb (h_Time h <? now + maxClockDrift) then Err (ErrInvalidHeader None)
  else
    valsHash ← Validators_Hash untrustedVals;
    if negb (bytes_eqb (h_ValidatorsHash h) valsHash) then Err (ErrInvalidHeader None)
    else
      votersHash ← Voters_Hash untrustedVoters;
      if negb (bytes_eqb (h_VotersHash h) votersHash) then Err (ErrInvalidHeader None) else Ok h.

(** The last check of both: two thirds of the new voters. *)
Definition verify_new_voters (trusted : Header) (h : Header) (commit : Commit) (voters : VoterSet) : outcome light_error unit :=
  match fst (VerifyCommitLight (h_ChainID trusted) (c_BlockID commit) (h_Height h) (Some commit) voters) with
  | Ok _ => Ok tt
  | Err _ => Err (ErrInvalidHeader None)
  | Panic => Panic
  end.

Definition VerifyNonAdjacent (trustedHeader : SignedHeader) (trustedVoters : VoterSet) (untrustedHeader : SignedHeader)
    (untrustedVals : ValidatorSet) (untrustedVoters : VoterSet) (trustingPeriod : Z) (now : Time) (maxClockDrift : Z)
    (trustLevel : Fraction) : outcome light_error unit :=
  trusted ← deref (sh_Header trustedHeader);
  untrusted ← deref (sh_Header untrustedHeader);
  if h_Height untrusted =? h_Height trusted +i64 1 then Err ErrAdjacent
  else if HeaderExpired trusted trustingPeriod now then Err ErrOldHeaderExpired
  else
    h ← verifyNewHeaderAndValsAndVoters untrustedHeader untrustedVals untrustedVoters trusted now maxClockDrift;
    commit ← deref (sh_Commit untrustedHeader);
    match fst (VerifyCommitLightTrusting (h_ChainID trusted) commit trustLevel trustedVoters) with
    | Ok _ => verify_new_voters trusted h commit untrustedVoters
    | Err (ErrNotEnoughVotingWeightSigned got needed) => Err (ErrNewValSetCantBeTrusted got needed)
    | Err e => Err (ErrVerify e)
    | Panic => Panic
    end.

Definition VerifyAdjacent (trustedHeader untrustedHeader : SignedHeader) (untrustedVals : ValidatorSet)
    (untrustedVoters : VoterSet) (trustingPeriod : Z) (now : Time) (maxClockDrift : Z) : outcome light_error unit :=
  trusted ← deref (sh_Header trustedHeader);
  untrusted ← deref (sh_Header untrustedHeader);
  if negb (h_Height untrusted =? h_Height trusted +i64 1) then Err ErrNonAdjacent
  else if HeaderExpired trusted trustingPeriod now then Err ErrOldHeaderExpired
  else
    h ← verifyNewHeaderAndValsAndVoters untrustedHeader untrustedVals untrustedVoters trusted now maxClockDrift;
    if negb (bytes_eqb (h_ValidatorsHash h) (h_NextValidatorsHash trusted)) then Err ErrNextValidators
    else
      commit ← deref (sh_Commit untrustedHeader);
      verify_new_voters trusted h commit untrustedVoters.

Definition Verify (trustedHeader : SignedHeader) (trustedVoters : VoterSet) (untrustedHeader : SignedHeader)
    (untrustedVals : ValidatorSet) (untrustedVoters : VoterSet) (trustingPeriod : Z) (now : Time) (maxClockDrift : Z)
    (trustLevel : Fraction) : outcome light_error unit :=
  trusted ← deref (sh_Header trustedHeader);
  untrusted ← deref (sh_Header untrustedHeader);
  if negb (h_Height untrusted =? h_Height trusted +i64 1)
  then VerifyNonAdjacent trustedHeader trustedVoters untrustedHeader untrustedVals untrustedVoters trustingPeriod now
         maxClockDrift trustLevel
  else VerifyAdjacent trustedHeader untrustedHeader untrustedVals untrustedVoters trustingPeriod now maxClockDrift.

Definition VerifyBackwards (untrustedHeader trustedHeader : Header) : outcome light_error unit :=
  match Header_ValidateBasic untrustedHeader with
  | Err e => Err (ErrInvalidHeader (Some (ErrInHeader e)))
  | Panic => Panic
  | Ok _ =>
      if negb (bytes_eqb (h_ChainID untrustedHeader) (h_ChainID trustedHeader)) then Err (ErrInvalidHeader None)
      else if negb (h_Time untrustedHeader <? h_Time trustedHeader) then Err (ErrInvalidHeader None)
      else if negb (bytes_eqb (Header_Hash untrustedHeader) (bid_Hash (h_LastBlockID trustedHeader)))
      then Err (ErrInvalidHeader None)
      else Ok tt
  end.

(** Products of [uint64] wrap around. *)
Definition ValidateTrustLevel (lvl : Fraction) : bool :=
  negb ((Numerator lvl *u64 3 <? Denominator lvl) || (Denominator lvl <? Numerator lvl) || (Denominator lvl =? 0)).

(** ** Skipping verification *)

(** What a provider answers: a block, an error that keeps the provider, or one
    that does not. *)
Inductive provider_answer := Found (lb : LightBlock) | Benign | Malevolent.

Record lightOptions := mkOptions { lo_trustingPeriod : Z; lo_now : Time; lo_maxClockDrift : Z; lo_trustLevel : Fraction }.

Inductive skip_error :=
| ErrCantBeTrusted (got needed : Z)
| ErrVerificationFailed (from to : Z) (reason : option light_error).

Definition block_height (lb : LightBlock) : outcome skip_error Z :=
  sh ← deref (lb_SignedHeader lb); h ← deref (sh_Header sh); Ok (h_Height h).

(** The client handles blocks that passed [LightBlock.ValidateBasic] only, whose
    parts are not nil; a part that is missing is a panic here. *)
Definition verify_blocks (o : lightOptions) (verified new : LightBlock) : outcome light_error unit :=
  vsh ← deref (lb_SignedHeader verified); voters ← deref (lb_VoterSet verified);
  nsh ← deref (lb_SignedHeader new); nvals ← deref (lb_ValidatorSet new); nvoters ← deref (lb_VoterSet new);
  Verify vsh voters nsh nvals nvoters (lo_trustingPeriod o) (lo_now o) (lo_maxClockDrift o) (lo_trustLevel o).

(** The loop of [verifySkipping]; a block the provider returns is appended
    twice.  [source turn] answers the request of number [turn]; [None]: more
    rounds are needed. *)
Fixpoint skip_loop (fuel : nat) (o : lightOptions) (source : nat -> Z -> provider_answer) (turn : nat)
    (newLightBlock : LightBlock) (blockCache : list LightBlock) (depth : Z) (verifiedBlock : LightBlock) (trace : list LightBlock)
  : option (outcome skip_error (list LightBlock)) :=
  match fuel with
  | O => None
  | S fuel =>
      match idx (E:=unit) blockCache depth with
      | Ok current =>
          match verify_blocks o verifiedBlock current with
          | Panic => Some Panic
          | Ok _ =>
              if depth =? 0 then Some (Ok (trace ++ [newLightBlock]))
              else skip_loop fuel o source turn newLightBlock (take (Z.to_nat depth) blockCache) 0 current (trace ++ [current])
          | Err (ErrNewValSetCantBeTrusted got needed) =>
              match block_height verifiedBlock, block_height current with
              | Ok low, Ok high =>
                  if depth =? lenZ blockCache - 1 then
                    let pivotHeight := low +i64 ((((high -i64 low) *i64 9)) /i64 16) in
                    match source turn pivotHeight with
                    | Found interimBlock =>
                        skip_loop fuel o source (S turn) newLightBlock (blockCache ++ [interimBlock; interimBlock])
                          (depth + 1) verifiedBlock trace
                    | Benign => Some (Err (ErrCantBeTrusted got needed))
                    | Malevolent => Some (Err (ErrVerificationFailed low pivotHeight None))
                    end
                  else skip_loop fuel o source turn newLightBlock blockCache (depth + 1) verifiedBlock trace
              | _, _ => Some Panic
              end
          | Err e =>
              match block_height verifiedBlock, block_height current with
              | Ok from, Ok to => Some (Err (ErrVerificationFailed from to (Some e)))
              | _, _ => Some Panic
              end
          end
      | _ => Some Panic
      end
  end.

Definition verifySkipping (fuel : nat) (o : lightOptions) (source : nat -> Z -> provider_answer)
    (trustedBlock newLightBlock : LightBlock) : option (outcome skip_error (list LightBlock)) :=
  skip_loop fuel o source 0 newLightBlock [newLightBlock] 0 trustedBlock [trustedBlock].

End light.

(** ** What acceptance means *)

Section accepted.
  Context {crypto : CryptoLib} {codec : TimeCodec} {wrappers : WrapperLib}.

Lemma SignedHeader_ValidateBasic_Ok chainID sh :
  SignedHeader_ValidateBasic chainID sh = Ok tt ->
  exists h c, sh_Header sh = Some h /\ sh_Commit sh = Some c /\ Header_ValidateBasic h = Ok tt /\ Commit_ValidateBasic c = Ok tt /\
    h_ChainID h = chainID /\ c_Height c = h_Height h /\ bid_Hash (c_BlockID c) = Header_Hash h.
Proof.
  unfold SignedHeader_ValidateBasic. destruct (sh_Header sh) as [h|]; [|done]. destruct (sh_Commit sh) as [c|]; [|done].
  destruct (Header_ValidateBasic h) as [[]| |] eqn:Eh; [|done..]. destruct (Commit_ValidateBasic c) as [[]| |] eqn:Ec; [|done..].
  cbn. destruct (bytes_eqb (h_ChainID h) chainID) eqn:E1; [|done]. destruct (Z.eqb_spec (c_Height c) (h_Height h)); [|done].
  destruct (bytes_eqb (Header_Hash h) _) eqn:E2; [|done]. apply bytes_eqb_true in E1, E2. intros _. by exists h, c.
Qed.

Lemma verifyNew_Ok ush uvals uvoters th now drift h :
  verifyNewHeaderAndValsAndVoters ush uvals uvoters th now drift = Ok h ->
  sh_Header ush = Some h /\ SignedHeader_ValidateBasic (h_ChainID th) ush = Ok tt /\
  h_Height th < h_Height h /\ h_Time th < h_Time h < now + drift /\
  Validators_Hash (E:=light_error) uvals = Ok (h_ValidatorsHash h) /\ Voters_Hash (E:=light_error) uvoters = Ok (h_VotersHash h).
Proof.
  unfold verifyNewHeaderAndValsAndVoters. destruct (SignedHeader_ValidateBasic _ _) as [[]| |] eqn:Es; [|done..].
  destruct (sh_Header ush) as [u|] eqn:Eh; [|done]. cbn [lift_err deref mbind outcome_bind].
  destruct (Z.leb_spec (h_Height u) (h_Height th)); [done|]. destruct (Z.ltb_spec (h_Time th) (h_Time u)); [|done].
  destruct (Z.ltb_spec (h_Time u) (now + drift)); [|done]. cbn [negb].
  destruct (Validators_Hash uvals) as [vh| |]; [|done..]. cbn [mbind outcome_bind].
  destruct (bytes_eqb (h_ValidatorsHash u) vh) eqn:E1; [|done]. cbn [negb].
  destruct (Voters_Hash uvoters) as [wh| |]; [|done..]. cbn [mbind outcome_bind].
  destruct (bytes_eqb (h_VotersHash u) wh) eqn:E2; [|done].
  apply bytes_eqb_true in E1, E2. subst. intros [= <-]. by split_and!.
Qed.

Lemma verifyNew_Err ush uvals uvoters th now drift e :
  verifyNewHeaderAndValsAndVoters ush uvals uvoters th now drift = Err e -> exists r, e = ErrInvalidHeader r.
Proof.
  unfold verifyNewHeaderAndValsAndVoters. destruct (SignedHeader_ValidateBasic _ _) as [[]|x|]; cbn [lift_err mbind outcome_bind];
    [|intros [= <-]; by eexists|done].
  destruct (sh_Header ush) as [u|]; cbn [deref mbind outcome_bind]; [|done].
  destruct (h_Height u <=? _); [intros [= <-]; by eexists|]. destruct (negb (h_Time th <? _)); [intros [= <-]; by eexists|].
  destruct (negb (h_Time u <? _)); [intros [= <-]; by eexists|].
  destruct (Validators_Hash uvals) as [vh|x|] eqn:E1; [|by apply Validators_Hash_no_error in E1|done]. cbn [mbind outcome_bind].
  destruct (negb _); [intros [= <-]; by eexists|].
  destruct (Voters_Hash uvoters) as [wh|x|] eqn:E2; [|by apply Voters_Hash_no_error in E2|done]. cbn [mbind outcome_bind].
  destruct (negb _); [intros [= <-]; by eexists|done].
Qed.

Lemma ValidateTrustLevel_bounds lvl :
  uint64 (Numerator lvl) -> ValidateTrustLevel lvl = true ->
  0 < Denominator lvl \/ Denominator lvl < 0 -> Denominator lvl <= 3 * Numerator lvl /\ Numerator lvl <= Denominator lvl.
Proof.
  unfold ValidateTrustLevel. intros Hn Hv Hd. rewrite negb_true_iff, !orb_false_iff, !Z.ltb_ge in Hv.
  destruct Hv as [[H1 H2] _]. split; [|done]. unfold wrapu64 in H1. unfold_ints.
  pose proof (Z.mod_le (Numerator lvl * 3) 18446744073709551616). lia.
Qed.

End accepted.

(** C24: skipping to a header is sound.  When [VerifyNonAdjacent] accepts a
    header against a trusted one, with a trust level that [ValidateTrustLevel]
    lets through, the trusted header has not expired, the new header is of the
    same chain, higher, later and not from the future, its commit signs its hash
    at its height, the given validators and voters are the ones it names, and
    distinct voters of the trusted set with more than a third of its weight
    signed that commit. *)
Theorem nonadjacent_sound {crypto : CryptoLib} {codec : TimeCodec} {wrappers : WrapperLib}
    th tc tvoters uh c uvals uvoters period now drift lvl :
  voters_wf tvoters -> lenZ (c_Signatures c) < 2 ^ 31 -> ValidateTrustLevel lvl = true ->
  0 <= Numerator lvl <= int64_max -> 0 <= Denominator lvl <= int64_max ->
  VerifyNonAdjacent (mkSignedHeader (Some th) tc) tvoters (mkSignedHeader (Some uh) (Some c)) uvals uvoters period now drift lvl = Ok tt ->
  now < h_Time th + period /\ h_ChainID uh = h_ChainID th /\ h_Height th < h_Height uh /\
  h_Time th < h_Time uh < now + drift /\ c_Height c = h_Height uh /\ bid_Hash (c_BlockID c) = Header_Hash uh /\
  Validators_Hash (E:=light_error) uvals = Ok (h_ValidatorsHash uh) /\ Voters_Hash (E:=light_error) uvoters = Ok (h_VotersHash uh) /\
  exists S, backing (h_ChainID th) c tvoters S /\ Zsum (weights (Voters tvoters)) < 3 * Zsum (weights S).
Proof.
  intros Hwf Hsz Hlvl Hn Hd. unfold VerifyNonAdjacent. cbn [sh_Header sh_Commit deref mbind outcome_bind].
  destruct (h_Height uh =? _); [done|]. unfold HeaderExpired. destruct (Z.ltb_spec now (h_Time th + period)); [|done]. cbn [negb].
  destruct (verifyNewHeaderAndValsAndVoters _ _ _ _ _ _) as [h| |] eqn:Ev; [|done..].
  apply verifyNew_Ok in Ev as (Hh & Hsh & Hheight & Htime & Hvals & Hvoters). injection Hh as <-.
  destruct (SignedHeader_ValidateBasic_Ok _ _ Hsh) as (h' & c' & [= <-] & [= <-] & _ & _ & Hc & Hch & Hhash).
  destruct (fst (VerifyCommitLightTrusting _ _ _ _)) as [[]|[]|] eqn:Et; try done. intros _.
  assert (Hd0 : 0 < Denominator lvl).
  { unfold ValidateTrustLevel in Hlvl. destruct (Z.eqb_spec (Denominator lvl) 0); [by rewrite orb_true_r in Hlvl|lia]. }
  destruct (ValidateTrustLevel_bounds lvl) as [Hlo Hhi]; [unfold_ints; lia|done|by left|].
  destruct (verify_trusting_sound _ _ _ _ Hwf Hsz Hn (conj Hd0 (proj2 Hd)) Et) as (S & HS & HW).
  split_and!; try done; try lia. exists S. split; [done|]. pose proof (weights_nonneg _ Hwf). nia.
Qed.

(** Going back one header is sound.  Two headers that [VerifyBackwards]
    accepts below the same trusted header are the same header, up to nil and
    empty hashes, unless strings hashed for them collide. *)
Theorem backwards_unique {crypto : CryptoLib} {codec : TimeCodec} {wrappers : WrapperLib} {sha : Sha256Length}
    {times : TimeCodecLaws} {wrapped : WrapperLaws} u1 u2 t :
  header_ranges u1 -> header_ranges u2 -> bid_Hash (h_LastBlockID t) <> [] ->
  collision_free (header_inputs u1) (header_inputs u2) ->
  VerifyBackwards u1 t = Ok tt -> VerifyBackwards u2 t = Ok tt -> same_header u1 u2 /\ h_Time u1 < h_Time t.
Proof.
  intros R1 R2 Hne Hc. assert (Hinv : forall u, VerifyBackwards u t = Ok tt ->
    Header_Hash u = bid_Hash (h_LastBlockID t) /\ h_Time u < h_Time t).
  { intros u. unfold VerifyBackwards. destruct (Header_ValidateBasic u); [|done..]. destruct (bytes_eqb (h_ChainID u) _); [|done].
    destruct (Z.ltb_spec (h_Time u) (h_Time t)); [|done]. destruct (bytes_eqb (Header_Hash u) _) eqn:E; [|done].
    by apply bytes_eqb_true in E. }
  intros [H1 T1]%Hinv [H2 _]%Hinv. split; [|done]. assert (Hh : Header_Hash u1 = Header_Hash u2) by congruence.
  assert (Hn : Header_Hash u1 <> []) by congruence. by apply header_binds.
Qed.

(** ** Skipping verification ends *)

Section skipping.
  Context {crypto : CryptoLib} {codec : TimeCodec} {wrappers : WrapperLib}.
  Context (o : lightOptions) (source : nat -> Z -> provider_answer) (new : LightBlock) (low high : Z).

  (** A provider returns blocks of the height it is asked for; 0 asks for the
      latest one. *)
  Hypothesis source_heights : forall n h lb, h <> 0 -> source n h = Found lb -> block_height lb = Ok h.
  Hypothesis low_range : 0 <= low < high.
  Hypothesis high_range : high < 2 ^ 59.

Definition refused (verified b : LightBlock) : Prop :=
  exists got needed, verify_blocks o verified b = Err (ErrNewValSetCantBeTrusted got needed).

(** A refusal is about headers that are not adjacent. *)
Lemma refused_apart verified b v h :
  refused verified b -> block_height verified = Ok v -> block_height b = Ok h -> 0 <= v < 2 ^ 59 -> h <> v + 1.
Proof.
  intros (g & n & Hr) Hv Hh Hrange ->. unfold block_height, verify_blocks in *.
  destruct (lb_SignedHeader verified) as [vsh|]; [|done]. destruct (lb_SignedHeader b) as [nsh|]; [|done].
  destruct (lb_VoterSet verified) as [voters|]; [|done]. destruct (lb_ValidatorSet b) as [nvals|]; [|done].
  destruct (lb_VoterSet b) as [nvoters|]; [|done]. cbn [deref mbind outcome_bind] in *. unfold Verify in Hr.
  destruct (sh_Header vsh) as [th|] eqn:E1; [|done]. destruct (sh_Header nsh) as [uh|] eqn:E2; [|done].
  cbn [deref mbind outcome_bind] in *. injection Hv as <-. injection Hh as Hh. rewrite Hh, wrap64_id, Z.eqb_refl in Hr by (unfold_ints; lia).
  cbn [negb] in Hr. unfold VerifyAdjacent in Hr. rewrite E1, E2 in Hr. cbn [deref mbind outcome_bind] in Hr.
  rewrite Hh, wrap64_id, Z.eqb_refl in Hr by (unfold_ints; lia). cbn [negb] in Hr. destruct (HeaderExpired _ _ _); [done|].
  destruct (verifyNewHeaderAndValsAndVoters _ _ _ _ _ _) as [u|e|] eqn:Ev; [| |done].
  - cbn [mbind outcome_bind] in Hr. destruct (negb _); [done|]. destruct (sh_Commit nsh); [|done].
    cbn [deref mbind outcome_bind] in Hr. unfold verify_new_voters in Hr. by destruct (fst _).
  - apply verifyNew_Err in Ev as [r ->]. done.
Qed.

(** The blocks still to be verified above [v], and where the loop stands. *)
Record cache_ok (verified : LightBlock) (v : Z) (cache : list LightBlock) (depth : Z) : Prop := {
  ck_first : cache !! 0%nat = Some new;
  ck_depth : 0 <= depth < lenZ cache;
  ck_height : forall i b, cache !! i = Some b -> exists h, block_height b = Ok h /\ v < h <= high /\ Z.of_nat i <= 2 * (high - h);
  ck_order : forall i j b c h k, (i < j)%nat -> cache !! i = Some b -> cache !! j = Some c -> block_height b = Ok h ->
    block_height c = Ok k -> k < h \/ b = c;
  ck_refused : forall i b, Z.of_nat i < depth -> cache !! i = Some b -> refused verified b
}.

Lemma cache_next verified v cache depth :
  cache_ok verified v cache depth -> depth + 1 < lenZ cache ->
  (forall b, cache !! Z.to_nat depth = Some b -> refused verified b) -> cache_ok verified v cache (depth + 1).
Proof.
  intros [H1 H2 H3 H4 H5] Hd Hr. constructor; try done; [lia|]. intros i b Hi Hb.
  destruct (Z.eq_dec (Z.of_nat i) depth) as [Heq|]; [|apply (H5 i); [lia|done]]. apply Hr. by rewrite <- Heq, Nat2Z.id.
Qed.

Lemma cache_accept verified v cache depth current h :
  cache_ok verified v cache depth -> 0 < depth -> cache !! Z.to_nat depth = Some current -> block_height current = Ok h ->
  ~ refused verified current -> v < h /\ cache_ok current h (take (Z.to_nat depth) cache) 0.
Proof.
  intros [H1 H2 H3 H4 H5] Hd Hc Hh Hn. destruct (H3 _ _ Hc) as (h' & Hh' & Hr & _).
  assert (h' = h) as -> by congruence. split; [lia|]. constructor.
  - rewrite lookup_take_lt by lia. done.
  - unfold lenZ in *. rewrite length_take. lia.
  - intros i b Hb. apply lookup_take_Some in Hb as [Hb Hi]. destruct (H3 _ _ Hb) as (k & Hk & Hrk & Hik). exists k.
    split_and!; [done| |lia|done]. destruct (H4 i (Z.to_nat depth) b current k h Hi Hb Hc Hk Hh) as [| ->]; [done|].
    exfalso. apply Hn, (H5 i); [lia|done].
  - intros i j b c k l Hij [Hb _]%lookup_take_Some [Hc' _]%lookup_take_Some. by apply (H4 i j).
  - intros i b Hi. lia.
Qed.

Lemma cache_extend verified v cache depth current h interim p :
  cache_ok verified v cache depth -> depth = lenZ cache - 1 -> cache !! Z.to_nat depth = Some current ->
  block_height current = Ok h -> block_height interim = Ok p -> v < p < h -> refused verified current ->
  cache_ok verified v (cache ++ [interim; interim]) (depth + 1).
Proof.
  intros [H1 H2 H3 H4 H5] -> Hc Hh Hp Hr Href. unfold lenZ in *.
  assert (Hlast : forall i b, cache !! i = Some b -> exists k, block_height b = Ok k /\ h <= k).
  { intros i b Hb. destruct (H3 _ _ Hb) as (k & Hk & _). exists k. split; [done|]. pose proof (lookup_lt_Some _ _ _ Hb).
    destruct (decide (i = Z.to_nat (Z.of_nat (length cache) - 1))) as [->|Hne]; [assert (k = h) by congruence; lia|].
    destruct (H4 i (Z.to_nat (Z.of_nat (length cache) - 1)) b current k h ltac:(lia) Hb Hc Hk Hh) as [| ->]; [lia|].
    assert (k = h) by congruence. lia. }
  destruct (H3 _ _ Hc) as (h' & Hh' & Hrange & Hidx). assert (h' = h) as -> by congruence.
  assert (Hcase : forall i b, (cache ++ [interim; interim]) !! i = Some b ->
    (i < length cache)%nat /\ cache !! i = Some b \/ (length cache <= i < length cache + 2)%nat /\ b = interim).
  { intros i b [Hb|[Hge Hb]]%lookup_app_Some; [left; split; [by eapply lookup_lt_Some|done]|right].
    destruct (i - length cache)%nat as [|[|n]] eqn:E; cbn in Hb; [injection Hb as <-; split; [lia|done]..|done]. }
  constructor.
  - by rewrite lookup_app_l by lia.
  - unfold lenZ. rewrite length_app. cbn. lia.
  - intros i b [[Hi Hb]|[Hi ->]]%Hcase; [by apply H3|]. exists p. split_and!; [done|lia..].
  - intros i j b c k l Hij [[Hi Hb]|[Hi ->]]%Hcase [[Hj Hc']|[Hj ->]]%Hcase Hk Hl.
    + by apply (H4 i j b c).
    + left. destruct (Hlast _ _ Hb) as (k' & Hk' & Hle). assert (k' = k) by congruence. assert (l = p) by congruence. lia.
    + lia.
    + by right.
  - intros i b Hi [[Hil Hb]|[Hil ->]]%Hcase; [|lia].
    destruct (Z.eq_dec (Z.of_nat i) (Z.of_nat (length cache) - 1)) as [Heq|]; [|apply (H5 i); [lia|done]].
    rewrite <- Heq, Nat2Z.id in Hc. assert (b = current) as -> by congruence. done.
Qed.

(** Each block of a trace was verified against the one before it. *)
Definition linked (trace : list LightBlock) : Prop :=
  forall i a b, trace !! i = Some a -> trace !! S i = Some b -> verify_blocks o a b = Ok tt.

Lemma linked_snoc trace a b : linked (trace ++ [a]) -> verify_blocks o a b = Ok tt -> linked ((trace ++ [a]) ++ [b]).
Proof.
  intros Hl Hv i x y Hx Hy. pose proof (lookup_lt_Some _ _ _ Hy) as Hi. rewrite !length_app in Hi. cbn in Hi.
  destruct (decide (S i < length (trace ++ [a]))%nat) as [Hlt|Hge].
  - rewrite lookup_app_l in Hx, Hy by lia. by apply (Hl i).
  - rewrite length_app in Hge. cbn in Hge. rewrite lookup_app_l in Hx by (rewrite length_app; cbn; lia).
    assert (i = length trace) as -> by lia. rewrite list_lookup_middle in Hx by done.
    rewrite lookup_app_r in Hy by (rewrite length_app; cbn; lia). rewrite length_app in Hy. cbn [length] in Hy.
    replace (S (length trace) - (length trace + 1))%nat with 0%nat in Hy by lia. cbn in Hy. congruence.
Qed.

(** The rounds left from a state of the loop; [2 * (high - low)] bounds the
    depth. *)
Definition rounds (v depth : Z) : Z := (high - v) * (2 * (high - low) + 1) + (2 * (high - low) - depth).

Lemma pivot_between v h : low <= v -> v + 2 <= h <= high -> v < wrap64 (v + wrap64 (wrap64 (wrap64 (h - v) * 9) ÷ 16)) < h.
Proof.
  intros Hv Hh. rewrite (wrap64_id (h - v)) by (unfold_ints; lia). rewrite (wrap64_id ((h - v) * 9)) by (unfold_ints; lia).
  rewrite Z.quot_div_nonneg by lia. pose proof (Z.div_mod ((h - v) * 9) 16 ltac:(lia)). pose proof (Z.mod_pos_bound ((h - v) * 9) 16 ltac:(lia)).
  rewrite (wrap64_id ((h - v) * 9 / 16)) by (unfold_ints; lia). rewrite wrap64_id by (unfold_ints; lia). lia.
Qed.

Lemma skip_loop_ends fuel : forall turn cache depth verified v trace,
  block_height verified = Ok v -> low <= v -> cache_ok verified v cache depth -> linked (trace ++ [verified]) ->
  rounds v depth < Z.of_nat fuel ->
  exists r, skip_loop fuel o source turn new cache depth verified (trace ++ [verified]) = Some r /\
    forall t, r = Ok t -> linked t /\ exists mid, t = (trace ++ [verified]) ++ mid ++ [new].
Proof.
  induction fuel as [|fuel IH]; intros turn cache depth verified v trace Hv Hlow Hck Hl Hf.
  { exfalso. destruct (ck_height _ _ _ _ Hck 0%nat new (ck_first _ _ _ _ Hck)) as (h & _ & Hh & _).
    destruct (lookup_lt_is_Some_2 cache (Z.to_nat depth)) as [b Hb]; [pose proof (ck_depth _ _ _ _ Hck); unfold lenZ in *; lia|].
    destruct (ck_height _ _ _ _ Hck _ _ Hb) as (k & _ & Hk & Hi). pose proof (ck_depth _ _ _ _ Hck). unfold rounds in Hf. nia. }
  pose proof (ck_depth _ _ _ _ Hck) as Hd.
  destruct (lookup_lt_is_Some_2 cache (Z.to_nat depth)) as [current Hc]; [unfold lenZ in *; lia|].
  destruct (ck_height _ _ _ _ Hck _ _ Hc) as (h & Hh & Hr & Hi). cbn [skip_loop].
  rewrite (proj2 (idx_Ok cache depth current)) by (split; [lia|done]).
  destruct (verify_blocks o verified current) as [[]|e|] eqn:Ev; [| |by eexists].
  - destruct (Z.eqb_spec depth 0) as [->|Hne].
    + eexists. split; [done|]. intros t [= <-]. change (Z.to_nat 0) with 0%nat in Hc. rewrite (ck_first _ _ _ _ Hck) in Hc.
      injection Hc as <-. split; [by apply linked_snoc|]. by exists [].
    + destruct (cache_accept _ _ _ _ _ h Hck ltac:(lia) Hc Hh) as [Hlt Hck']; [intros (g & n & Hn); congruence|].
      destruct (IH turn _ 0 current h (trace ++ [verified]) Hh ltac:(lia) Hck') as (r & -> & Hres).
      * by apply linked_snoc.
      * unfold rounds in *. nia.
      * exists r. split; [done|]. intros t Ht. destruct (Hres t Ht) as (Hlt' & mid & ->). split; [done|].
        exists (current :: mid). by rewrite <- !app_assoc.
  - rewrite Hv, Hh. destruct e as [| | |got needed| | |]; try (eexists; by split).
    assert (Href : refused verified current) by (by exists got, needed).
    assert (h <> v + 1) by (apply (refused_apart verified current v h); [done..|lia]).
    destruct (Z.eqb_spec depth (lenZ cache - 1)) as [Hlast|Hne].
    + pose proof (pivot_between v h Hlow ltac:(lia)) as Hp. destruct (source turn _) as [interim| |] eqn:Es; [|eexists; by split..].
      apply source_heights in Es; [|lia]. apply (IH (S turn) _ (depth + 1) verified v trace); try done.
      * by eapply cache_extend.
      * unfold rounds in *. lia.
    + apply (IH turn _ (depth + 1) verified v trace); try done.
      * apply cache_next; [done|lia|]. intros b Hb. assert (b = current) as -> by congruence. done.
      * unfold rounds in *. lia.
Qed.

End skipping.

(** With any fuel that is enough. *)
Lemma skipping_fuel {crypto : CryptoLib} {codec : TimeCodec} {wrappers : WrapperLib} o source trusted new low high fuel :
  (forall n h lb, h <> 0 -> source n h = Found lb -> block_height lb = Ok h) ->
  block_height trusted = Ok low -> block_height new = Ok high -> 0 <= low < high -> high < 2 ^ 59 ->
  2 * (high - low) * (high - low + 2) <= Z.of_nat fuel ->
  exists r, verifySkipping fuel o source trusted new = Some r /\
    forall t, r = Ok t -> linked o t /\ exists mid, t = [trusted] ++ mid ++ [new].
Proof.
  intros Hs Hl Hh Hr Hb Hf. unfold verifySkipping. change [trusted] with ([] ++ [trusted]).
  apply (skip_loop_ends o source new low high Hs Hr Hb fuel 0 [new] 0 trusted low []); [done|lia| | |].
  - constructor; [done|done| | |].
    + intros [|i] b Hi; [|done]. injection Hi as <-. exists high. split; [done|]. lia.
    + intros i j b c h k Hij Hi Hj. destruct j as [|[|j]]; [lia|done..].
    + intros i b Hi. lia.
  - intros i a b _ Hy. by destruct i.
  - unfold rounds. nia.
Qed.

(** Skipping verification ends.  Whatever a provider answers, as long as
    the blocks it returns are of the heights it is asked for, [verifySkipping]
    returns after a number of rounds that is at most quadratic in the distance
    of the two heights; and when it succeeds the trace leads from the trusted
    block to the new one, each block verified against the one before.  The
    second copy of each block it fetches costs rounds but does no harm. *)
Theorem skipping_ends {crypto : CryptoLib} {codec : TimeCodec} {wrappers : WrapperLib} o source trusted new low high :
  (forall n h lb, h <> 0 -> source n h = Found lb -> block_height lb = Ok h) ->
  block_height trusted = Ok low -> block_height new = Ok high -> 0 <= low < high -> high < 2 ^ 59 ->
  let fuel := Z.to_nat (2 * (high - low) * (high - low + 2)) in
  exists r, verifySkipping fuel o source trusted new = Some r /\
    forall t, r = Ok t -> linked o t /\ exists mid, t = [trusted] ++ mid ++ [new].
Proof. intros Hs Hl Hh Hr Hb fuel. apply (skipping_fuel o source trusted new low high); try done. unfold fuel. nia. Qed.

(** ** Forged voters *)

Section forged.
  #[local] Existing Instances toy_crypto toy_time toy_wrappers.

Definition ok_or {E A} (d : A) (x : outcome E A) : A := match x with Ok a => a | _ => d end.

Definition real_validators : ValidatorSet := mkValidatorSet (Voters repeat_voters) 0.

Definition my_voters : VoterSet := mkVoterSet [mkValidator (replicate 20 9) (Some (PubKeyEd25519 (key_of 9))) 1 1 0] 0.

Definition header_at (height : Z) (time : Time) (voters : VoterSet) (vals next : ValidatorSet) : Header :=
  mkHeader (mkVersion 11 0) [7] height time sample_block_id (Some (replicate 32 3)) (Some (replicate 32 4))
    (ok_or [] (Voters_Hash (E:=unit) voters)) (ok_or [] (Validators_Hash (E:=unit) vals)) (ok_or [] (Validators_Hash (E:=unit) next))
    (replicate 32 8) [9] (replicate 32 10) (Some (replicate 32 11)) (replicate 20 9) 0 [].

(** A commit for a header, signed by the voters with the given numbers. *)
Definition commit_for (h : Header) (signers : list (option Z)) : Commit :=
  let id := mkBlockID (Header_Hash h) (mkPartSetHeader 1 (replicate 32 2)) in
  let msg := ok_or [] (VoteSignBytes (E:=unit) [7] (mkVote PrecommitType (h_Height h) 0 id 9 [] 0 None)) in
  NewCommit (h_Height h) 0 id
    ((fun s => match s with
               | Some n => mkCommitSig BlockIDFlagCommit (replicate 20 n) 9 (Some (toy_sign (key_of n) msg))
               | None => NewCommitSigAbsent
               end) <$> signers).

Definition signed_by (h : Header) (signers : list (option Z)) : SignedHeader := mkSignedHeader (Some h) (Some (commit_for h signers)).

Definition trusted_header : SignedHeader :=
  signed_by (header_at 4 100 repeat_voters real_validators real_validators) [Some 1; Some 2; Some 3].

Definition forged_header : SignedHeader := signed_by (header_at 5 150 my_voters real_validators real_validators) [Some 9].

(** The voters of the chain with other weights: the first has almost all. *)
Definition reweighted : VoterSet :=
  mkVoterSet ((fun n => mkValidator (replicate 20 n) (Some (PubKeyEd25519 (key_of n))) 1 (if n =? 1 then 100 else 1) 0) <$> [1; 2; 3]) 0.

Definition lonely_header : SignedHeader :=
  signed_by (header_at 5 150 repeat_voters real_validators real_validators) [Some 1; None; None].

End forged.

(** The light client does not tie the voters to the validators.  Verifying
    the next header compares its validators with the ones the trusted header
    announces, but commits are counted over the voters, and these are taken from
    the new header itself: a header signed by a single made-up voter, whose key
    is not a validator's, is accepted, and the block passes [ValidateBasic].
    Nor are the weights of the voters part of any hash: with the same voters and
    other weights a commit signed by one voter of three is accepted that the
    true weights reject. *)
Theorem light_voters_forged :
  voters_wf my_voters /\ Forall (fun v => vPubKey v ∉ (vPubKey <$> Validators real_validators)) (Voters my_voters) /\
  @LightBlock_ValidateBasic toy_crypto toy_time toy_wrappers [7]
    (mkLightBlock (Some forged_header) (Some real_validators) (Some my_voters)) = Ok tt /\
  @VerifyAdjacent toy_crypto toy_time toy_wrappers trusted_header forged_header real_validators my_voters 1000 200 10 = Ok tt /\
  voters_wf reweighted /\
  @VerifyAdjacent toy_crypto toy_time toy_wrappers trusted_header lonely_header real_validators reweighted 1000 200 10 = Ok tt /\
  @VerifyAdjacent toy_crypto toy_time toy_wrappers trusted_header lonely_header real_validators repeat_voters 1000 200 10 =
    Err (ErrInvalidHeader None).
Proof.
  split_and!; try (vm_compute; reflexivity).
  - constructor; [apply (bool_decide_unpack _); vm_compute; reflexivity|repeat constructor; done|by vm_compute|by left|by vm_compute].
  - apply (bool_decide_unpack _). vm_compute. reflexivity.
  - constructor; [apply (bool_decide_unpack _); vm_compute; reflexivity|repeat constructor; done|by vm_compute|by left|by vm_compute].
Qed.

(** ** Witnesses *)

Definition far_header : SignedHeader :=
  signed_by (header_at 9 150 repeat_voters real_validators real_validators) [Some 1; Some 2; Some 3].

Lemma nonadjacent_sound_witness :
  match sh_Commit far_header with
  | Some c => exists S, @backing toy_crypto toy_time [7] c repeat_voters S /\ Zsum (weights (Voters repeat_voters)) < 3 * Zsum (weights S)
  | None => False
  end.
Proof.
  refine (proj2 (proj2 (proj2 (proj2 (proj2 (proj2 (proj2 (proj2 (@nonadjacent_sound toy_crypto toy_time toy_wrappers
    (header_at 4 100 repeat_voters real_validators real_validators) None repeat_voters
    (header_at 9 150 repeat_voters real_validators real_validators)
    (commit_for (header_at 9 150 repeat_voters real_validators real_validators) [Some 1; Some 2; Some 3])
    real_validators repeat_voters 1000 200 10 (mkFraction 1 3) repeat_voters_wf _ _ _ _ _))))))))); vm_compute; done.
Defined.

Definition child_header : Header :=
  let h := sample_header None in
  mkHeader (h_Version h) (h_ChainID h) 6 200 (mkBlockID (@Header_Hash toy_crypto toy_time toy_wrappers h) (mkPartSetHeader 1 (replicate 32 2)))
    (h_LastCommitHash h) (h_DataHash h) (h_VotersHash h) (h_ValidatorsHash h) (h_NextValidatorsHash h) (h_ConsensusHash h) (h_AppHash h)
    (h_LastResultsHash h) (h_EvidenceHash h) (h_ProposerAddress h) 0 (h_Proof h).

Lemma backwards_unique_witness : same_header (sample_header None) (sample_header (Some [])).
Proof.
  refine (proj1 (@backwards_unique toy_crypto toy_time toy_wrappers toy_sha256_length toy_time_laws toy_wrapper_laws _ _ child_header _ _ _ _ _ _)).
  - apply (bool_decide_unpack _). vm_compute. reflexivity.
  - apply (bool_decide_unpack _). vm_compute. reflexivity.
  - vm_compute. discriminate.
  - assert (Hd : Forall (fun x => Forall (fun y => @sha256 toy_crypto x = @sha256 toy_crypto y -> x = y)
      (@header_inputs toy_crypto toy_time toy_wrappers (sample_header (Some []))))
      (@header_inputs toy_crypto toy_time toy_wrappers (sample_header None))) by (apply (bool_decide_unpack _); vm_compute; reflexivity).
    intros x y Hx Hy. exact (proj1 (Forall_forall _ _) (proj1 (Forall_forall _ _) Hd x Hx) y Hy).
  - vm_compute. reflexivity.
  - vm_compute. reflexivity.
Defined.

(** A chain whose voters change: block 9 shares none with block 4. *)
Definition chain_voters (height : Z) : list Z := [height; height + 1; height + 2].

Definition chain_block (height : Z) : LightBlock :=
  let voters := mkVoterSet ((fun n => mkValidator (replicate 20 n) (Some (PubKeyEd25519 (key_of n))) 1 1 0) <$> chain_voters height) 0 in
  mkLightBlock (Some (signed_by (header_at height (100 + height) voters real_validators real_validators) (Some <$> chain_voters height)))
    (Some real_validators) (Some voters).

Definition chain_source (turn : nat) (height : Z) : provider_answer := Found (chain_block height).

Definition chain_options : lightOptions := mkOptions 1000 200 10 (mkFraction 1 3).

Lemma skipping_ends_witness :
  exists t, @verifySkipping toy_crypto toy_time toy_wrappers 70 chain_options chain_source (chain_block 4) (chain_block 9) = Some (Ok t) /\
    length t = 6%nat /\ @linked toy_crypto toy_time toy_wrappers chain_options t.
Proof.
  destruct (@skipping_ends toy_crypto toy_time toy_wrappers chain_options chain_source (chain_block 4) (chain_block 9) 4 9) as (r & Hr & Hok);
    [by intros n h lb _ [= <-]|reflexivity|reflexivity|done|done|].
  change (Z.to_nat (2 * (9 - 4) * (9 - 4 + 2))) with 70%nat in Hr. destruct r as [t| |].
  - exists t. split; [exact Hr|]. split; [|exact (proj1 (Hok t eq_refl))]. vm_compute in Hr. injection Hr as <-. reflexivity.
  - exfalso. vm_compute in Hr. discriminate.
  - exfalso. vm_compute in Hr. discriminate.
Defined.
