(* ===== verification/BlockProto.v ===== *)
(** * The encodings of blocks and their parts

    The generated marshallers of src/proto/ostracon/types for the messages that
    votes, validators, headers, commits and light blocks become, together with
    the [ToProto] methods in front of them, which copy the fields.  [None]: the
    time of the message cannot be encoded or a key has no message. *)

From Stdlib Require Import ZArith Lia.
From stdpp Require Import prelude list.
From S2P Require Import Prelude SafeMath Crypto Validator ValidatorSet Proto Block VoterSet Merkle Header Light.

Local Open Scope Z_scope.

(** A field with a number above 15: its tag takes a second byte. *)
Definition long_tag (tag : Z) (field : bytes) : bytes := if bool_decide (field = []) then [] else tag :: field.

(** A field that is left out when the pointer is nil, and a repeated one. *)
Definition field_opt (tag : Z) (b : option bytes) : bytes := match b with None => [] | Some b => field_msg tag b end.

Definition field_rep (tag : Z) (l : list bytes) : bytes := concat (field_msg tag <$> l).

Definition opt_mapM {A B} (f : A -> option B) (o : option A) : option (option B) :=
  match o with None => Some None | Some a => b ← f a; Some (Some b) end.

Definition ok_option {E A} (o : outcome E A) : option A := match o with Ok a => Some a | _ => None end.

Definition Validator_Marshal (v : Validator) : option bytes :=
  key ← vPubKey v;
  pk ← ok_option (PubKeyToProto key);
  Some (field_bytes 0xa (Address v) ++ field_msg 0x12 (PublicKey_Marshal pk) ++ field_varint 0x18 (VotingPower v) ++
        field_varint 0x20 (ProposerPriority v) ++ long_tag 0xc0 (field_varint 0x3e (VotingWeight v))).

(** An empty set becomes the empty message. *)
Definition ValidatorSet_Marshal (vals : ValidatorSet) : option bytes :=
  if bool_decide (Validators vals = []) then Some []
  else
    vs ← mapM Validator_Marshal (Validators vals);
    Some (field_rep 0xa vs ++ field_varint 0x18 (totalVotingPower vals)).

Definition VoterSet_Marshal (voters : VoterSet) : option bytes :=
  if bool_decide (Voters voters = []) then Some []
  else
    vs ← mapM Validator_Marshal (Voters voters);
    Some (field_rep 0xa vs ++ field_varint 0x10 (totalVotingWeight voters)).

Section messages.
  Context {codec : TimeCodec}.

Definition Vote_Marshal (v : Vote) : option bytes :=
  t ← StdTimeMarshal (v_Timestamp v);
  Some (field_varint 0x8 (v_Type v) ++ field_varint 0x10 (v_Height v) ++ field_varint 0x18 (v_Round v) ++
        field_msg 0x22 (BlockID_Marshal (v_BlockID v)) ++ field_msg 0x2a t ++ field_bytes 0x32 (v_ValidatorAddress v) ++
        field_varint 0x38 (v_ValidatorIndex v) ++ field_bytes 0x42 (sig_bytes (v_Signature v))).

Definition Header_Marshal (h : Header) : option bytes :=
  t ← StdTimeMarshal (h_Time h);
  Some (field_msg 0xa (Consensus_Marshal (h_Version h)) ++ field_bytes 0x12 (h_ChainID h) ++ field_varint 0x18 (h_Height h) ++
        field_msg 0x22 t ++ field_msg 0x2a (BlockID_Marshal (h_LastBlockID h)) ++
        field_bytes 0x32 (hash_bytes (h_LastCommitHash h)) ++ field_bytes 0x3a (hash_bytes (h_DataHash h)) ++
        field_bytes 0x42 (h_ValidatorsHash h) ++ field_bytes 0x4a (h_NextValidatorsHash h) ++
        field_bytes 0x52 (h_ConsensusHash h) ++ field_bytes 0x5a (h_AppHash h) ++ field_bytes 0x62 (h_LastResultsHash h) ++
        field_bytes 0x6a (hash_bytes (h_EvidenceHash h)) ++ field_bytes 0x72 (h_ProposerAddress h) ++
        long_tag 0xc0 (field_varint 0x3e (h_Round h)) ++ long_tag 0xca (field_bytes 0x3e (h_Proof h)) ++
        long_tag 0xd2 (field_bytes 0x3e (h_VotersHash h))).

Definition Commit_Marshal (c : Commit) : option bytes :=
  sigs ← mapM CommitSig_Marshal (c_Signatures c);
  Some (field_varint 0x8 (c_Height c) ++ field_varint 0x10 (c_Round c) ++ field_msg 0x1a (BlockID_Marshal (c_BlockID c)) ++
        field_rep 0x22 sigs ++ long_tag 0xc2 (field_bytes 0x3e (sig_bytes (c_AggregatedSignature c)))).

Definition SignedHeader_Marshal (sh : SignedHeader) : option bytes :=
  h ← opt_mapM Header_Marshal (sh_Header sh);
  c ← opt_mapM Commit_Marshal (sh_Commit sh);
  Some (field_opt 0xa h ++ field_opt 0x12 c).

Definition LightBlock_Marshal (lb : LightBlock) : option bytes :=
  sh ← opt_mapM SignedHeader_Marshal (lb_SignedHeader lb);
  vals ← opt_mapM ValidatorSet_Marshal (lb_ValidatorSet lb);
  voters ← opt_mapM VoterSet_Marshal (lb_VoterSet lb);
  Some (field_opt 0xa sh ++ field_opt 0x12 vals ++ long_tag 0xc2 (field_opt 0x3e voters)).

End messages.
