(* ===== verification/Evidence.v ===== *)
(** * Evidence of misbehaviour

    - src/types/evidence.go: the two kinds of evidence, their checks, hashes and
      encodings, and lists of evidence;
    - src/evidence/verify.go: [VerifyDuplicateVote], [VerifyLightClientAttack]
      and [validateABCIEvidence].

    A vote in a [DuplicateVoteEvidence] and the block in a
    [LightClientAttackEvidence] are not nil: the constructor and the decoder
    return no evidence otherwise. *)

From Stdlib Require Import ZArith Lia.
From stdpp Require Import prelude list.
From S2P Require Import Prelude SafeMath Crypto Validator ValidatorSet ValidatorLists Proto ProtoDecode Block VoterSet.
From S2P Require Import VerifyCommit Merkle MerkleProps PrivVal PrivValSafety Header Light BlockProto.

Local Open Scope Z_scope.
Local Open Scope go_scope.

Record DuplicateVoteEvidence := mkDuplicateVote {
  dve_VoteA : Vote; dve_VoteB : Vote; dve_TotalVotingPower : Z; dve_ValidatorPower : Z; dve_VotingWeight : Z;
  dve_Timestamp : Time
}.

(** A nil list of validators and an empty one are told apart. *)
Record LightClientAttackEvidence := mkLightClientAttack {
  lca_ConflictingBlock : LightBlock; lca_CommonHeight : Z; lca_ByzantineValidators : option (list Validator);
  lca_TotalVotingPower : Z; lca_Timestamp : Time
}.

(** The interface [Evidence], by its two dynamic types. *)
Inductive Evidence :=
| DuplicateVote (dve : DuplicateVoteEvidence)
| LightClientAttack (l : LightClientAttackEvidence).

(** [abci.Evidence]: kind, validator, height, time and total power. *)
Inductive EvidenceType := DUPLICATE_VOTE | LIGHT_CLIENT_ATTACK.

Record abciEvidence := mkAbciEvidence {
  ae_Type : EvidenceType; ae_Address : bytes; ae_Power : Z; ae_VotingWeight : Z; ae_Height : Z; ae_Time : Time;
  ae_TotalVotingPower : Z
}.

Inductive evidence_error :=
| ErrVoteInEvidence (e : basic_error) | ErrVotesOrder
| ErrConflictingHeader | ErrAttackTotal | ErrAttackHeight | ErrHeightAhead | ErrConflictingBlock (e : light_basic_error)
| ErrNotVoter | ErrDifferentHRS | ErrDifferentAddress | ErrSameBlock | ErrKeyAddress | ErrEvidencePower | ErrEvidenceTotal
| ErrEvidenceSignature
| ErrSkipping (e : verify_error) | ErrNotDerived | ErrConflictingCommit (e : verify_error) | ErrTimeNotViolated | ErrSameHeader
| ErrAmnesiaValidators | ErrByzantineCount | ErrByzantineAddress | ErrByzantinePower | ErrByzantineWeight.

(** ** Duplicate votes *)

(** [strings.Compare(a, b) == -1]. *)
Definition key_before (a b : BlockID) : bool := bytes_ltb (BlockID_Key a) (BlockID_Key b).

(** Nil when the voter is not in the set; the total panics when it is too big. *)
Definition NewDuplicateVoteEvidence {E} (vote1 vote2 : Vote) (blockTime : Time) (voterSet : VoterSet)
  : outcome E (option DuplicateVoteEvidence) :=
  match Voters_GetByAddress voterSet (v_ValidatorAddress vote1) with
  | (_, None) => Ok None
  | (_, Some val) =>
      let '(voteA, voteB) := if key_before (v_BlockID vote1) (v_BlockID vote2) then (vote1, vote2) else (vote2, vote1) in
      '(total, _) ← TotalVotingWeight voterSet;
      Ok (Some (mkDuplicateVote voteA voteB total (VotingPower val) (VotingWeight val) blockTime))
  end.

Definition dve_ValidateBasic (dve : DuplicateVoteEvidence) : outcome evidence_error unit :=
  _ ← lift_err ErrVoteInEvidence (Vote_ValidateBasic (dve_VoteA dve));
  _ ← lift_err ErrVoteInEvidence (Vote_ValidateBasic (dve_VoteB dve));
  if key_before (v_BlockID (dve_VoteA dve)) (v_BlockID (dve_VoteB dve)) then Ok tt else Err ErrVotesOrder.

Definition dve_ABCI (dve : DuplicateVoteEvidence) : list abciEvidence :=
  [mkAbciEvidence DUPLICATE_VOTE (v_ValidatorAddress (dve_VoteA dve)) (dve_ValidatorPower dve) (dve_VotingWeight dve)
     (v_Height (dve_VoteA dve)) (dve_Timestamp dve) (dve_TotalVotingPower dve)].

Section evidence.
  Context {crypto : CryptoLib} {codec : TimeCodec} {wrappers : WrapperLib}.

Definition VerifyDuplicateVote (e : DuplicateVoteEvidence) (chainID : bytes) (voterSet : VoterSet)
  : outcome evidence_error unit :=
  let a := dve_VoteA e in let b := dve_VoteB e in
  match Voters_GetByAddress voterSet (v_ValidatorAddress a) with
  | (_, None) => Err ErrNotVoter
  | (_, Some val) =>
      if negb ((v_Height a =? v_Height b) && (v_Round a =? v_Round b) && (v_Type a =? v_Type b)) then Err ErrDifferentHRS
      else if negb (bytes_eqb (v_ValidatorAddress a) (v_ValidatorAddress b)) then Err ErrDifferentAddress
      else if BlockID_Equals (v_BlockID a) (v_BlockID b) then Err ErrSameBlock
      else
        pubKey ← deref (vPubKey val);
        addr ← PubKey_Address pubKey;
        if negb (bytes_eqb addr (v_ValidatorAddress a)) then Err ErrKeyAddress
        else if negb (VotingPower val =? dve_ValidatorPower e) then Err ErrEvidencePower
        else
          '(total, _) ← TotalVotingWeight voterSet;
          if negb (total =? dve_TotalVotingPower e) then Err ErrEvidenceTotal
          else
            bytesA ← VoteSignBytes chainID a;
            if negb (VerifySignature pubKey bytesA (sig_bytes (v_Signature a))) then Err ErrEvidenceSignature
            else
              bytesB ← VoteSignBytes chainID b;
              if negb (VerifySignature pubKey bytesB (sig_bytes (v_Signature b))) then Err ErrEvidenceSignature else Ok tt
  end.

(** ** Attacks on light clients *)

(** The header, the commit and the height of the conflicting block. *)
Definition conflicting_header {E} (l : LightClientAttackEvidence) : outcome E Header :=
  sh ← deref (lb_SignedHeader (lca_ConflictingBlock l)); deref (sh_Header sh).

Definition conflicting_commit {E} (l : LightClientAttackEvidence) : outcome E Commit :=
  sh ← deref (lb_SignedHeader (lca_ConflictingBlock l)); deref (sh_Commit sh).

Definition ConflictingHeaderIsInvalid (trustedHeader conflicting : Header) : bool :=
  negb (bytes_eqb (h_VotersHash trustedHeader) (h_VotersHash conflicting)) ||
  negb (bytes_eqb (h_NextValidatorsHash trustedHeader) (h_NextValidatorsHash conflicting)) ||
  negb (bytes_eqb (h_ConsensusHash trustedHeader) (h_ConsensusHash conflicting)) ||
  negb (bytes_eqb (h_AppHash trustedHeader) (h_AppHash conflicting)) ||
  negb (bytes_eqb (h_LastResultsHash trustedHeader) (h_LastResultsHash conflicting)).

(** The voters of the common height that signed the block. *)
Fixpoint lunatic_voters (commonVoters : VoterSet) (sigs : list CommitSig) : list (option Validator) :=
  match sigs with
  | [] => []
  | commitSig :: rest =>
      if negb (ForBlock commitSig) then lunatic_voters commonVoters rest
      else match snd (Voters_GetByAddress commonVoters (cs_ValidatorAddress commitSig)) with
           | None => lunatic_voters commonVoters rest
           | Some val => Some val :: lunatic_voters commonVoters rest
           end
  end.

(** The voters of the conflicting block with entries in both commits; the one
    an entry names may be nil. *)
Fixpoint equivocating_voters {E} (voters : VoterSet) (sigs : list CommitSig) (trusted : list CommitSig) (i : Z)
  : outcome E (list (option Validator)) :=
  match sigs with
  | [] => Ok []
  | sigA :: rest =>
      if Absent sigA then equivocating_voters voters rest trusted (i + 1)
      else
        sigB ← idx trusted i;
        if Absent sigB then equivocating_voters voters rest trusted (i + 1)
        else
          l ← equivocating_voters voters rest trusted (i + 1);
          Ok (snd (Voters_GetByAddress voters (cs_ValidatorAddress sigA)) :: l)
  end.

(** [sort.Sort(ValidatorsByVotingPower(validators))]: as soon as there are two
    elements each is compared, and comparing a nil one panics. *)
Definition sort_by_power {E} (validators : list (option Validator)) : outcome E (list (option Validator)) :=
  match mapM id validators with
  | Some vals => Ok (Some <$> sort_by less_by_power vals)
  | None => if bool_decide (length validators <= 1)%nat then Ok validators else Panic
  end.

(** The slice is nil exactly when it is empty. *)
Definition GetByzantineValidators {E} (l : LightClientAttackEvidence) (commonVoters : VoterSet) (trusted : SignedHeader)
  : outcome E (list (option Validator)) :=
  trustedHeader ← deref (sh_Header trusted);
  header ← conflicting_header l;
  commit ← conflicting_commit l;
  if ConflictingHeaderIsInvalid trustedHeader header then
    sort_by_power (lunatic_voters commonVoters (c_Signatures commit))
  else
    trustedCommit ← deref (sh_Commit trusted);
    if c_Round trustedCommit =? c_Round commit then
      voters ← deref (lb_VoterSet (lca_ConflictingBlock l));
      validators ← equivocating_voters voters (c_Signatures commit) (c_Signatures trustedCommit) 0;
      sort_by_power validators
    else Ok [].

(** [copy] of the hash leaves the last of its 32 bytes out; the varint is
    zigzag-encoded. *)
Definition put_varint (x : Z) : bytes := encodeVarint (wrapu64 (if x <? 0 then -2 * x - 1 else 2 * x)).

Definition lca_Hash {E} (l : LightClientAttackEvidence) : outcome E bytes :=
  header ← conflicting_header l;
  let hash := take 31 (Header_Hash header) in
  Ok (sha256 ((hash ++ replicate (32 - length hash) 0) ++ put_varint (lca_CommonHeight l))).

(** [OC2PB.Validator] takes the address from the key. *)
Definition OC2PB_Validator {E} (val : Validator) : outcome E (bytes * Z * Z) :=
  pubKey ← deref (vPubKey val);
  addr ← PubKey_Address pubKey;
  Ok (addr, VotingPower val, VotingWeight val).

Fixpoint lca_ABCI_loop {E} (l : LightClientAttackEvidence) (vals : list Validator) : outcome E (list abciEvidence) :=
  match vals with
  | [] => Ok []
  | val :: vals =>
      '(addr, power, weight) ← OC2PB_Validator val;
      rest ← lca_ABCI_loop l vals;
      Ok (mkAbciEvidence LIGHT_CLIENT_ATTACK addr power weight (lca_CommonHeight l) (lca_Timestamp l) (lca_TotalVotingPower l) :: rest)
  end.

Definition lca_ABCI {E} (l : LightClientAttackEvidence) : outcome E (list abciEvidence) :=
  lca_ABCI_loop l (default [] (lca_ByzantineValidators l)).

Definition lca_ValidateBasic (l : LightClientAttackEvidence) : outcome evidence_error unit :=
  match lb_SignedHeader (lca_ConflictingBlock l) with
  | None => Panic
  | Some sh =>
      match sh_Header sh with
      | None => Err ErrConflictingHeader
      | Some h =>
          if lca_TotalVotingPower l <=? 0 then Err ErrAttackTotal
          else if lca_CommonHeight l <=? 0 then Err ErrAttackHeight
          else if h_Height h <? lca_CommonHeight l then Err ErrHeightAhead
          else lift_err ErrConflictingBlock (LightBlock_ValidateBasic (h_ChainID h) (lca_ConflictingBlock l))
      end
  end.

(** The loop over the validators found and the ones listed. *)
Fixpoint byzantine_match (listed : list Validator) (found : list (option Validator)) : outcome evidence_error unit :=
  match listed, found with
  | v :: listed, val :: found =>
      val ← deref val;
      if negb (bytes_eqb (Address v) (Address val)) then Err ErrByzantineAddress
      else if negb (VotingPower v =? VotingPower val) then Err ErrByzantinePower
      else if negb (VotingWeight v =? VotingWeight val) then Err ErrByzantineWeight
      else byzantine_match listed found
  | _, _ => Ok tt
  end.

Definition validateABCIEvidence (ev : LightClientAttackEvidence) (commonVoter : VoterSet) (trustedHeader : SignedHeader)
  : outcome evidence_error unit :=
  validators ← GetByzantineValidators ev commonVoter trustedHeader;
  if bool_decide (validators = []) && bool_decide (lca_ByzantineValidators ev <> None) then Err ErrAmnesiaValidators
  else
    let listed := default [] (lca_ByzantineValidators ev) in
    if bool_decide (length validators <> length listed) then Err ErrByzantineCount
    else byzantine_match listed validators.

(** [light.DefaultTrustLevel]. *)
Definition DefaultTrustLevel : Fraction := mkFraction 1 3.

Definition verify_skip (e : LightClientAttackEvidence) (commonHeader trusted header : Header) (commit : Commit)
    (commonVoters : VoterSet) : outcome evidence_error unit :=
  if negb (h_Height commonHeader =? h_Height header) then
    lift_err ErrSkipping (fst (VerifyCommitLightTrusting (h_ChainID trusted) commit DefaultTrustLevel commonVoters))
  else if ConflictingHeaderIsInvalid trusted header then Err ErrNotDerived else Ok tt.

(** The parameters that are not used are left out. *)
Definition VerifyLightClientAttack (e : LightClientAttackEvidence) (commonHeader trustedHeader : SignedHeader)
    (commonVoters : VoterSet) : outcome evidence_error unit :=
  common ← deref (sh_Header commonHeader);
  trusted ← deref (sh_Header trustedHeader);
  header ← conflicting_header e;
  commit ← conflicting_commit e;
  _ ← verify_skip e common trusted header commit commonVoters;
  voters ← match lb_VoterSet (lca_ConflictingBlock e) with None => Err (ErrConflictingCommit ErrNilCommit) | Some v => Ok v end;
  _ ← lift_err ErrConflictingCommit
        (fst (VerifyCommitLight (h_ChainID trusted) (c_BlockID commit) (h_Height header) (Some commit) voters));
  '(votersTotal, _) ← TotalVotingWeight commonVoters;
  if negb (lca_TotalVotingPower e =? votersTotal) then Err ErrEvidenceTotal
  else if (h_Height trusted <? h_Height header) && (h_Time trusted <? h_Time header) then Err ErrTimeNotViolated
  else if bytes_eqb (Header_Hash trusted) (Header_Hash header) then Err ErrSameHeader
  else validateABCIEvidence e commonVoters trustedHeader.

(** ** Encodings and lists *)

Definition dve_Marshal (dve : DuplicateVoteEvidence) : option bytes :=
  a ← Vote_Marshal (dve_VoteA dve);
  b ← Vote_Marshal (dve_VoteB dve);
  t ← StdTimeMarshal (dve_Timestamp dve);
  Some (field_msg 0xa a ++ field_msg 0x12 b ++ field_varint 0x18 (dve_TotalVotingPower dve) ++
        field_varint 0x20 (dve_ValidatorPower dve) ++ field_msg 0x2a t ++ long_tag 0xc0 (field_varint 0x3e (dve_VotingWeight dve))).

Definition lca_Marshal (l : LightClientAttackEvidence) : option bytes :=
  block ← LightBlock_Marshal (lca_ConflictingBlock l);
  vals ← mapM Validator_Marshal (default [] (lca_ByzantineValidators l));
  t ← StdTimeMarshal (lca_Timestamp l);
  Some (field_msg 0xa block ++ field_varint 0x10 (lca_CommonHeight l) ++ field_rep 0x1a vals ++
        field_varint 0x20 (lca_TotalVotingPower l) ++ field_msg 0x2a t).

(** The methods of the interface. *)
Definition Evidence_Marshal (ev : Evidence) : option bytes :=
  match ev with DuplicateVote dve => dve_Marshal dve | LightClientAttack l => lca_Marshal l end.

Definition Evidence_Bytes {E} (ev : Evidence) : outcome E bytes := or_panic (Evidence_Marshal ev).

Definition Evidence_Hash {E} (ev : Evidence) : outcome E bytes :=
  match ev with
  | DuplicateVote dve => b ← or_panic (dve_Marshal dve); Ok (tmhash_Sum b)
  | LightClientAttack l => lca_Hash l
  end.

Definition Evidence_Height (ev : Evidence) : Z :=
  match ev with DuplicateVote dve => v_Height (dve_VoteA dve) | LightClientAttack l => lca_CommonHeight l end.

Definition Evidence_Time (ev : Evidence) : Time :=
  match ev with DuplicateVote dve => dve_Timestamp dve | LightClientAttack l => lca_Timestamp l end.

Definition Evidence_ABCI {E} (ev : Evidence) : outcome E (list abciEvidence) :=
  match ev with DuplicateVote dve => Ok (dve_ABCI dve) | LightClientAttack l => lca_ABCI l end.

Definition Evidence_ValidateBasic (ev : Evidence) : outcome evidence_error unit :=
  match ev with DuplicateVote dve => dve_ValidateBasic dve | LightClientAttack l => lca_ValidateBasic l end.

(** [EvidenceToProto]: the message has one of two fields. *)
Definition EvidenceToProto (ev : Evidence) : option bytes :=
  match ev with
  | DuplicateVote dve => b ← dve_Marshal dve; Some (field_msg 0xa b)
  | LightClientAttack l => b ← lca_Marshal l; Some (field_msg 0x12 b)
  end.

Fixpoint all_evidence_bytes {E} (evl : list Evidence) : outcome E (list bytes) :=
  match evl with
  | [] => Ok []
  | ev :: evl => b ← Evidence_Bytes ev; bs ← all_evidence_bytes evl; Ok (b :: bs)
  end.

Definition EvidenceList_Hash {E} (evl : list Evidence) : outcome E bytes :=
  bs ← all_evidence_bytes evl; Ok (HashFromByteSlices bs).

(** [EvidenceData.ByteSize]: the size of the list's message, kept once it is
    computed; the generated [Size] is the length of the encoding. *)
Definition EvidenceList_Marshal (evl : list Evidence) : option bytes :=
  bs ← mapM EvidenceToProto evl; Some (field_rep 0xa bs).

Definition EvidenceData_ByteSize {E} (evl : list Evidence) : outcome E Z :=
  b ← or_panic (EvidenceList_Marshal evl); Ok (lenZ b).

(** The decoder allocates the list of validators, so that it is not nil. *)
Definition byzantine_decoded (l : LightClientAttackEvidence) : LightClientAttackEvidence :=
  mkLightClientAttack (lca_ConflictingBlock l) (lca_CommonHeight l) (Some (default [] (lca_ByzantineValidators l)))
    (lca_TotalVotingPower l) (lca_Timestamp l).

End evidence.
