(* ===== verification/EvidenceProps.v ===== *)
(** * What evidence proves

    Conflicting votes give evidence that every node accepts, and evidence of
    duplicate votes never convicts a node whose key only signs through the file
    signer of [PrivVal].  Evidence of an attack on light clients is weaker: the
    theorems at the end exhibit evidence that convicts voters who signed
    nothing, evidence that makes its verification panic, and evidence that is
    lost on the way. *)

From Stdlib Require Import ZArith Lia.
From stdpp Require Import prelude list.
From S2P Require Import Prelude SafeMath Crypto Validator ValidatorSet ValidatorLists Proto ProtoDecode Block VoterSet.
From S2P Require Import VerifyCommit Merkle MerkleProps PrivVal PrivValSafety Header Light BlockProto Evidence.

Local Open Scope Z_scope.

(** ** Duplicate votes *)

#[local] Ltac dve_cbn :=
  cbn [dve_VoteA dve_VoteB dve_TotalVotingPower dve_ValidatorPower dve_VotingWeight dve_Timestamp fst snd] in *.

(** What [VerifyDuplicateVote] checks. *)
Record convicts `{CryptoLib} `{TimeCodec} (e : DuplicateVoteEvidence) (chainID : bytes) (voters : VoterSet)
    (val : Validator) (key : PubKey) : Prop := {
  con_voter : snd (Voters_GetByAddress voters (v_ValidatorAddress (dve_VoteA e))) = Some val;
  con_key : vPubKey val = Some key;
  con_address : PubKey_Address (E:=evidence_error) key = Ok (v_ValidatorAddress (dve_VoteA e)) /\
    v_ValidatorAddress (dve_VoteB e) = v_ValidatorAddress (dve_VoteA e);
  con_step : v_Height (dve_VoteA e) = v_Height (dve_VoteB e) /\ v_Round (dve_VoteA e) = v_Round (dve_VoteB e) /\
    v_Type (dve_VoteA e) = v_Type (dve_VoteB e);
  con_blocks : v_BlockID (dve_VoteA e) <> v_BlockID (dve_VoteB e);
  con_power : dve_ValidatorPower e = VotingPower val /\ dve_TotalVotingPower e = Zsum (weights (Voters voters));
  con_signed : forall v, v = dve_VoteA e \/ v = dve_VoteB e ->
    exists msg, VoteSignBytes (E:=evidence_error) chainID v = Ok msg /\ VerifySignature key msg (sig_bytes (v_Signature v)) = true
}.

Lemma VerifyDuplicateVote_iff `{CryptoLib} `{TimeCodec} e chainID voters :
  voters_wf voters ->
  VerifyDuplicateVote e chainID voters = Ok tt <-> exists val key, convicts e chainID voters val key.
Proof.
  intros Hwf. destruct e as [a b total power weight time]. unfold VerifyDuplicateVote. cbn [dve_VoteA dve_VoteB].
  rewrite (TotalVotingWeight_spec voters Hwf). split.
  - destruct (Voters_GetByAddress voters (v_ValidatorAddress a)) as [j [val|]] eqn:Ev; [|done].
    destruct (_ && _) eqn:E1; [cbn [negb]|done].
    destruct (bytes_eqb (v_ValidatorAddress a) _) eqn:E2; [cbn [negb]|done].
    destruct (BlockID_Equals _ _) eqn:E3; [done|].
    destruct (vPubKey val) as [key|] eqn:Ek; [cbn [deref mbind outcome_bind]|done].
    destruct (PubKey_Address key) as [addr| |] eqn:Ea; [cbn [mbind outcome_bind]|done..].
    destruct (bytes_eqb addr _) eqn:E4; [cbn [negb]|done].
    destruct (VotingPower val =? _) eqn:E5; [cbn [negb mbind outcome_bind]|done].
    destruct (Zsum _ =? _) eqn:E6; [cbn [negb]|done].
    destruct (VoteSignBytes chainID a) as [ma| |] eqn:Ma; [cbn [mbind outcome_bind]|done..].
    destruct (VerifySignature key ma _) eqn:Sa; [cbn [negb]|done].
    destruct (VoteSignBytes chainID b) as [mb| |] eqn:Mb; [cbn [mbind outcome_bind]|done..].
    destruct (VerifySignature key mb _) eqn:Sb; [cbn [negb]|done]. intros _. exists val, key.
    apply andb_true_iff in E1 as [[E1%Z.eqb_eq E1'%Z.eqb_eq]%andb_true_iff E1''%Z.eqb_eq].
    apply bytes_eqb_true in E2, E4. apply Z.eqb_eq in E5, E6. subst addr. constructor; dve_cbn; rewrite ?Ev; try done.
    + intros Heq. by rewrite (proj2 (BlockID_Equals_true _ _) Heq) in E3.
    + intros v [-> | ->]; eauto.
  - intros (val & key & [C1 C2 [C3 C3'] (C4 & C4' & C4'') C5 [C6 C6'] C7]). dve_cbn.
    destruct (Voters_GetByAddress voters (v_ValidatorAddress a)) as [j ov]. cbn in C1. subst ov.
    rewrite C4, C4', C4'', !Z.eqb_refl. cbn [andb negb]. rewrite C3', bytes_eqb_refl. cbn [negb].
    destruct (BlockID_Equals _ _) eqn:E3; [by apply BlockID_Equals_true in E3|].
    rewrite C2. cbn [deref mbind outcome_bind]. rewrite C3. cbn [mbind outcome_bind]. rewrite bytes_eqb_refl. cbn [negb].
    rewrite C6, Z.eqb_refl. cbn [negb mbind outcome_bind]. rewrite C6', Z.eqb_refl. cbn [negb].
    destruct (C7 a) as (ma & -> & Sa); [by left|]. cbn [mbind outcome_bind]. rewrite Sa. cbn [negb].
    destruct (C7 b) as (mb & -> & Sb); [by right|]. cbn [mbind outcome_bind]. by rewrite Sb.
Qed.

Lemma key_before_total b1 b2 :
  votable b1 -> votable b2 -> b1 <> b2 -> key_before b1 b2 = false -> key_before b2 b1 = true.
Proof. intros V1 V2 Hne. apply bytes_ltb_total. intros Heq. by apply Hne, BlockID_Key_inj. Qed.

(** Votes that a node accepted and that conflict. *)
Record conflict `{CryptoLib} `{TimeCodec} (chainID : bytes) (voters : VoterSet) (val : Validator) (key : PubKey) (v1 v2 : Vote)
  : Prop := {
  cf_voter : snd (Voters_GetByAddress voters (v_ValidatorAddress v1)) = Some val;
  cf_key : vPubKey val = Some key;
  cf_step : v_Height v1 = v_Height v2 /\ v_Round v1 = v_Round v2 /\ v_Type v1 = v_Type v2;
  cf_blocks : v_BlockID v1 <> v_BlockID v2;
  cf_checked : forall v, v = v1 \/ v = v2 -> Vote_ValidateBasic v = Ok tt /\ votable (v_BlockID v) /\ Vote_Verify chainID key v = Ok tt
}.

Lemma PubKey_Address_E `{CryptoLib} {E1 E2} key a : PubKey_Address (E:=E1) key = Ok a -> PubKey_Address (E:=E2) key = Ok a.
Proof. destruct key; cbn; unfold ed25519_Address, secp256k1_Address; try destruct (bool_decide _); congruence. Qed.

Lemma Vote_Verify_signed `{CryptoLib} `{TimeCodec} {E} chainID key v :
  Vote_Verify chainID key v = Ok tt ->
  PubKey_Address (E:=E) key = Ok (v_ValidatorAddress v) /\
  exists msg, VoteSignBytes (E:=E) chainID v = Ok msg /\ VerifySignature key msg (sig_bytes (v_Signature v)) = true.
Proof.
  unfold Vote_Verify. destruct (PubKey_Address key) as [a| |] eqn:Ea; [cbn [mbind outcome_bind]|done..].
  destruct (bytes_eqb a _) eqn:E1; [cbn [negb]|done]. apply bytes_eqb_true in E1 as ->.
  destruct (VoteSignBytes chainID v) as [m| |] eqn:Em; [cbn [mbind outcome_bind]|done..].
  destruct (VerifySignature key m _) eqn:Es; [|done]. intros _. split; [by eapply PubKey_Address_E|].
  exists m. split; [by eapply VoteSignBytes_E|done].
Qed.

(** C7: conflicting votes convict.  Two votes of one voter that a node accepted,
    of the same height, round and type and for different blocks, give evidence
    in either order; it passes its own check, every node with the voters of that
    height accepts it, and the application is told the address, the power and
    the weight of that voter. *)
Theorem conflict_convicts `{CryptoLib} `{TimeCodec} chainID voters val key v1 v2 time :
  voters_wf voters -> conflict chainID voters val key v1 v2 ->
  exists e, NewDuplicateVoteEvidence (E:=evidence_error) v1 v2 time voters = Ok (Some e) /\
    dve_ValidateBasic e = Ok tt /\ VerifyDuplicateVote e chainID voters = Ok tt /\
    dve_ABCI e = [mkAbciEvidence DUPLICATE_VOTE (v_ValidatorAddress v1) (VotingPower val) (VotingWeight val) (v_Height v1) time
                    (Zsum (weights (Voters voters)))].
Proof.
  intros Hwf [Hv Hk (Hh & Hr & Ht) Hb Hc].
  destruct (Hc v1) as (B1 & W1 & S1); [by left|]. destruct (Hc v2) as (B2 & W2 & S2); [by right|].
  destruct (Vote_Verify_signed (E:=evidence_error) _ _ _ S1) as [A1 M1]. destruct (Vote_Verify_signed (E:=evidence_error) _ _ _ S2) as [A2 M2].
  assert (Ha : v_ValidatorAddress v2 = v_ValidatorAddress v1) by congruence.
  unfold NewDuplicateVoteEvidence. rewrite (TotalVotingWeight_spec voters Hwf).
  destruct (Voters_GetByAddress voters (v_ValidatorAddress v1)) as [j ov] eqn:Eg. cbn in Hv. subst ov.
  destruct (key_before (v_BlockID v1) (v_BlockID v2)) eqn:Ek; cbn [mbind outcome_bind]; eexists; (split; [done|]).
  - unfold dve_ValidateBasic. cbn. rewrite B1, B2. cbn. rewrite Ek. split; [done|]. split; [|done].
    apply (VerifyDuplicateVote_iff _ _ _ Hwf). exists val, key. constructor; dve_cbn; rewrite ?Eg; try done.
    intros v [-> | ->]; done.
  - assert (Ek' := key_before_total _ _ W1 W2 Hb Ek). unfold dve_ValidateBasic. cbn. rewrite B1, B2. cbn. rewrite Ek'.
    split; [done|]. split; [|unfold dve_ABCI; dve_cbn; by rewrite Ha, Hh]. apply (VerifyDuplicateVote_iff _ _ _ Hwf). exists val, key.
    constructor; dve_cbn; rewrite ?Ha, ?Eg; try done. intros v [-> | ->]; done.
Qed.

(** Every signature that verifies under a key is of something the signer of
    the key released. *)
Definition unforged `{CryptoLib} `{TimeCodec} (key : PubKey) (R : list message) : Prop :=
  forall msg sig, VerifySignature key msg sig = true -> exists m, m ∈ R /\ bytes_of m = Ok msg.

(** A vote whose bytes were released was released, up to its signature. *)
Lemma released_vote {codec : TimeCodec} {decoder : TimeDecoder} {laws : TimeRoundtrip} Sign s R m chainID v msg :
  life Sign s R -> m ∈ R -> bytes_of m = Ok msg -> vote_ranges v -> IsVoteTypeValid (v_Type v) = true ->
  VoteSignBytes (E:=pv_error) chainID v = Ok msg ->
  exists v', m = VoteMsg chainID v' /\ v_Type v = v_Type v' /\ v_Height v = v_Height v' /\ v_Round v = v_Round v' /\
    v_BlockID v = v_BlockID v'.
Proof.
  intros Hl Hm Hb Hv Ht Hs. pose proof (life_alive Sign s R Hl) as [_ _ Hp]. destruct (Hp m Hm) as [[Hw _] _].
  destruct m as [c v'|c p].
  - destruct (VoteSignBytes_inj chainID c v v' msg Hv (vote_ranges_of _ _ Hw) Hs Hb) as (-> & ? & ? & ? & ? & _). by exists v'.
  - by destruct (VoteSignBytes_not_proposal chainID c v p msg Hv (proposal_ranges_of _ _ Hw) Ht Hs).
Qed.

(** C6: an honest voter is never convicted of duplicate votes.  Let the key of a
    voter sign only through the file signer, whatever requests it gets and
    however often it crashes.  If no signature is forged, then no evidence of
    duplicate votes that names this voter is accepted, for any chain, height
    and round. *)
Theorem honest_not_convicted {crypto : CryptoLib} {codec : TimeCodec} {decoder : TimeDecoder} {laws : TimeRoundtrip}
    Sign s R key voters val e chainID :
  voters_wf voters -> life Sign s R -> unforged key R ->
  snd (Voters_GetByAddress voters (v_ValidatorAddress (dve_VoteA e))) = Some val -> vPubKey val = Some key ->
  vote_ranges (dve_VoteA e) -> vote_ranges (dve_VoteB e) -> dve_ValidateBasic e = Ok tt ->
  VerifyDuplicateVote e chainID voters <> Ok tt.
Proof.
  intros Hwf Hl Hu Hv Hk R1 R2 Hb (val' & key' & [C1 C2 _ (Ch & Cr & Ct) Cb _ Cs])%(VerifyDuplicateVote_iff _ _ _ Hwf).
  rewrite C1 in Hv. injection Hv as ->. rewrite C2 in Hk. injection Hk as ->.
  assert (Hty : forall v, v = dve_VoteA e \/ v = dve_VoteB e -> IsVoteTypeValid (v_Type v) = true).
  { assert (Ha : Vote_ValidateBasic (dve_VoteA e) = Ok tt).
    { unfold dve_ValidateBasic in Hb. destruct (Vote_ValidateBasic (dve_VoteA e)) as [[]| |]; done. }
    unfold Vote_ValidateBasic in Ha. destruct (IsVoteTypeValid _) eqn:Et; [|done]. intros v [-> | ->]; congruence. }
  assert (Hrel : forall v, v = dve_VoteA e \/ v = dve_VoteB e -> vote_ranges v -> exists v',
    VoteMsg chainID v' ∈ R /\ v_Type v = v_Type v' /\ v_Height v = v_Height v' /\ v_Round v = v_Round v' /\ v_BlockID v = v_BlockID v').
  { intros v Hin Hr. destruct (Cs v Hin) as (msg & Hm & Hs). destruct (Hu _ _ Hs) as (m & HmR & Hmb).
    apply (VoteSignBytes_E (E2:=pv_error)) in Hm.
    destruct (released_vote Sign s R m chainID v msg Hl HmR Hmb Hr (Hty v Hin) Hm) as (v' & -> & ?). by exists v'. }
  destruct (Hrel _ (or_introl eq_refl) R1) as (va & Ha & Ta & Ha' & Ra & Ba).
  destruct (Hrel _ (or_intror eq_refl) R2) as (vb & Hb' & Tb & Hhb & Rb & Bb).
  pose proof (life_alive Sign s R Hl) as [_ _ Hp].
  destruct (Hp _ Ha) as [[Wa (sb & _ & Sa & _)] _]. destruct (Hp _ Hb') as [[Wb _] _].
  pose proof (life_unique Sign s R Hl _ _ Ha Hb') as Huniq. rewrite Sa in Huniq.
  destruct (vote_bytes_inj chainID va chainID vb sb Wa Wb Sa) as (_ & Heq & _).
  - symmetry. apply Huniq. cbn. by rewrite <- Ta, <- Tb, <- Ha', <- Hhb, <- Ra, <- Rb, Ch, Cr, Ct.
  - congruence.
Qed.

(** [VerifyDuplicateVote] does not look at the weight, which the application is
    told. *)
Definition with_weight (e : DuplicateVoteEvidence) (w : Z) : DuplicateVoteEvidence :=
  mkDuplicateVote (dve_VoteA e) (dve_VoteB e) (dve_TotalVotingPower e) (dve_ValidatorPower e) w (dve_Timestamp e).

Theorem evidence_weight_unchecked `{CryptoLib} `{TimeCodec} e w chainID voters :
  VerifyDuplicateVote (with_weight e w) chainID voters = VerifyDuplicateVote e chainID voters /\
  dve_ValidateBasic (with_weight e w) = dve_ValidateBasic e /\ ae_VotingWeight <$> dve_ABCI (with_weight e w) = [w].
Proof. done. Qed.

(** ** Attacks on light clients *)

(** Evidence of an attack without byzantine validators, which is what the code
    makes of an amnesia attack, is refused once it has been decoded. *)
Theorem amnesia_lost `{CryptoLib} `{WrapperLib} `{TimeCodec} l common trusted :
  GetByzantineValidators (E:=evidence_error) l common trusted = Ok [] ->
  lca_ByzantineValidators l = None ->
  validateABCIEvidence l common trusted = Ok tt /\
  validateABCIEvidence (byzantine_decoded l) common trusted = Err ErrAmnesiaValidators.
Proof.
  intros Hg Hn. assert (Hd : GetByzantineValidators (E:=evidence_error) (byzantine_decoded l) common trusted = Ok []) by exact Hg.
  unfold validateABCIEvidence. rewrite Hg, Hd. cbn. by rewrite Hn.
Qed.

(** The hash of the evidence does not cover the last byte of the hash of the
    conflicting header. *)
Theorem attack_hash_truncated `{CryptoLib} `{WrapperLib} `{TimeCodec} {E} l1 l2 h1 h2 :
  conflicting_header (E:=E) l1 = Ok h1 -> conflicting_header (E:=E) l2 = Ok h2 ->
  take 31 (Header_Hash h1) = take 31 (Header_Hash h2) -> lca_CommonHeight l1 = lca_CommonHeight l2 ->
  lca_Hash (E:=E) l1 = lca_Hash l2.
Proof. intros Hh1 Hh2 Ht Hc. unfold lca_Hash. rewrite Hh1, Hh2, Hc. cbn [mbind outcome_bind]. by rewrite Ht. Qed.

(** The listed validators are compared by address, power and weight; the
    application is told the addresses of their keys, which nothing checks. *)
Definition with_listed (l : LightClientAttackEvidence) (listed : list Validator) : LightClientAttackEvidence :=
  mkLightClientAttack (lca_ConflictingBlock l) (lca_CommonHeight l) (Some listed) (lca_TotalVotingPower l) (lca_Timestamp l).

Definition compared (v : Validator) : bytes * Z * Z := (Address v, VotingPower v, VotingWeight v).

Lemma byzantine_match_compared listed1 listed2 found :
  compared <$> listed1 = compared <$> listed2 -> byzantine_match listed1 found = byzantine_match listed2 found.
Proof.
  revert listed2 found. induction listed1 as [|v l IH]; intros [|w l2] found; cbn; try done.
  intros [= Ha Hp Hw Hl]. destruct found as [|[x|] found]; cbn; [done| |done]. rewrite Ha, Hp, Hw. by rewrite (IH l2 found Hl).
Qed.

Theorem byzantine_keys_unchecked `{CryptoLib} `{WrapperLib} `{TimeCodec} l listed1 listed2 common trusted voters :
  compared <$> listed1 = compared <$> listed2 ->
  VerifyLightClientAttack (with_listed l listed1) common trusted voters =
  VerifyLightClientAttack (with_listed l listed2) common trusted voters.
Proof.
  intros Hl. assert (Hv : validateABCIEvidence (with_listed l listed1) voters trusted = validateABCIEvidence (with_listed l listed2) voters trusted).
  { unfold validateABCIEvidence.
    change (GetByzantineValidators (with_listed l listed2) voters trusted)
      with (GetByzantineValidators (E:=evidence_error) (with_listed l listed1) voters trusted).
    destruct (GetByzantineValidators _ _ _) as [vals| |]; [|done..]. cbn. rewrite (byzantine_match_compared _ _ vals Hl).
    assert (length listed1 = length listed2) as -> by (rewrite <- (length_fmap compared listed1), Hl; apply length_fmap). done. }
  unfold VerifyLightClientAttack. rewrite Hv. done.
Qed.

(** A voter under the address of its key. *)
Definition keyed_voter (crypto : CryptoLib) (weight : Z) (n : Z) : Validator :=
  mkValidator (ok_or [] (PubKey_Address (E:=unit) (PubKeyEd25519 (key_of n)))) (Some (PubKeyEd25519 (key_of n))) 5 weight 0.

Definition keyed_voters (crypto : CryptoLib) : VoterSet := mkVoterSet (keyed_voter crypto 7 <$> [1; 2; 3]) 0.

Section forged.
  #[local] Existing Instances toy_crypto toy_time toy_wrappers.

Definition chain_header : Header :=
  header_at 5 150 (keyed_voters toy_crypto) (mkValidatorSet (Voters (keyed_voters toy_crypto)) 0) real_validators.

(** A header that differs in the transactions only. *)
Definition other_header : Header :=
  let h := chain_header in
  mkHeader (h_Version h) (h_ChainID h) (h_Height h) (h_Time h) (h_LastBlockID h) (h_LastCommitHash h) (Some (replicate 32 5))
    (h_VotersHash h) (h_ValidatorsHash h) (h_NextValidatorsHash h) (h_ConsensusHash h) (h_AppHash h) (h_LastResultsHash h)
    (h_EvidenceHash h) (h_ProposerAddress h) (h_Round h) (h_Proof h).

(** Bytes that are no signature of anything. *)
Definition made_up_signature : bytes := 255 :: replicate 63 0.

(** A commit for a header with the signatures of some voters and made-up
    entries for nil. *)
Definition padded_commit (h : Header) (signers : list Z) (named : list bytes) : Commit :=
  let c := commit_for h [] in
  let msg := ok_or [] (VoteSignBytes (E:=unit) [7] (mkVote PrecommitType (c_Height c) 0 (c_BlockID c) 9 [] 0 None)) in
  NewCommit (c_Height c) (c_Round c) (c_BlockID c)
    (((fun n => mkCommitSig BlockIDFlagCommit (Address (keyed_voter toy_crypto 7 n)) 9 (Some (Crypto.toy_sign (key_of n) msg))) <$> signers) ++
     ((fun a => mkCommitSig BlockIDFlagNil a 9 (Some made_up_signature)) <$> named)).

(** The voters, with almost all weight for the first. *)
Definition heavy_voters : VoterSet :=
  mkVoterSet ((fun n => keyed_voter toy_crypto (if n =? 1 then 100 else 7) n) <$> [1; 2; 3]) 0.

Definition forged_attack (named : list bytes) (listed : list Validator) : LightClientAttackEvidence :=
  mkLightClientAttack
    (mkLightBlock (Some (mkSignedHeader (Some other_header) (Some (padded_commit other_header [1] named))))
       (Some (mkValidatorSet (Voters (keyed_voters toy_crypto)) 0)) (Some heavy_voters))
    5 (Some listed) 21 150.

Definition signed_chain_header : SignedHeader := mkSignedHeader (Some chain_header) (Some (padded_commit chain_header [1; 2; 3] [])).

(** All three voters, sorted by power. *)
Definition accused : list Validator := sort_by less_by_power (Voters heavy_voters).

Definition address_of (n : Z) : bytes := Address (keyed_voter toy_crypto 7 n).

End forged.

(** C18: evidence of an attack on light clients can be made up by one voter, of
    any weight.  Three voters with equal weights signed a block; one of them
    signs another block of the same height and round and pads the commit with
    entries for nil that name the others, with made-up signatures.  The
    verification of the commit looks at entries for the block only and takes
    the weights from the evidence; the list of byzantine validators has all
    entries that are not absent.  So the evidence passes its check and is
    accepted, and the application is told that the two honest voters are
    byzantine, although the made-up signature verifies for no message and no
    key.  And if the padding names somebody who is no voter, the verification
    panics. *)
Theorem attack_evidence_forged :
  let honest := [address_of 2; address_of 3] in
  let unknown := [address_of 2; replicate 20 77] in
  lca_ValidateBasic (crypto:=toy_crypto) (codec:=toy_time) (wrappers:=toy_wrappers) (forged_attack honest accused) = Ok tt /\
  VerifyLightClientAttack (crypto:=toy_crypto) (codec:=toy_time) (wrappers:=toy_wrappers)
    (forged_attack honest accused) signed_chain_header signed_chain_header (keyed_voters toy_crypto) = Ok tt /\
  (exists l, lca_ABCI (E:=unit) (crypto:=toy_crypto) (forged_attack honest accused) = Ok l /\
    ae_Address <$> l = [address_of 1; address_of 2; address_of 3]) /\
  (forall k msg, @VerifySignature toy_crypto (PubKeyEd25519 k) msg made_up_signature = false) /\
  lca_ValidateBasic (crypto:=toy_crypto) (codec:=toy_time) (wrappers:=toy_wrappers) (forged_attack unknown []) = Ok tt /\
  VerifyLightClientAttack (crypto:=toy_crypto) (codec:=toy_time) (wrappers:=toy_wrappers) (forged_attack unknown [])
    signed_chain_header signed_chain_header (keyed_voters toy_crypto) = Panic.
Proof.
  assert (Hs : forall k msg, @VerifySignature toy_crypto (PubKeyEd25519 k) msg made_up_signature = false).
  { intros k msg. apply bool_decide_eq_false. intros [= Hc].
    pose proof (Z.mod_pos_bound (foldr Z.add 0 (k ++ msg)) 251). unfold checksum in Hc. lia. }
  cbn zeta. split_and!; [vm_compute; reflexivity..|eexists; split; vm_compute; reflexivity|exact Hs|vm_compute; reflexivity|vm_compute; reflexivity].
Qed.

(** ** Witnesses *)

Section witnesses.
  #[local] Existing Instances toy_time toy_wrappers.

Definition keyed_vote (crypto : CryptoLib) (id : BlockID) : Vote :=
  let v := mkVote PrecommitType 5 0 id 9 (Address (keyed_voter crypto 7 1)) 0 None in
  vote_set_signature v (Some (Crypto.toy_sign (key_of 1) (ok_or [] (VoteSignBytes (E:=unit) [7] v)))).

(** Signatures that verify are those of messages in a list. *)
Definition ledger_crypto (R : list message) : CryptoLib := {|
  sha256 := @sha256 toy_crypto;
  ripemd160 := @ripemd160 toy_crypto;
  sha512_256 := @sha512_256 toy_crypto;
  ed25519_Verify _ m _ := existsb (fun r => bytes_eqb (ok_or [] (bytes_of r)) m && is_ok (bytes_of r)) R;
  secp256k1_ParsePubKey _ := false;
  secp256k1_halfN := 0;
  secp256k1_Verify _ _ _ := false;
  sr25519_DecodeKey _ := false;
  sr25519_DecodeSig _ := false;
  sr25519_Verify _ _ _ := false;
  BlsSign := Z;
  BlsPublicKey := bytes;
  bls_Sign_zero := 0;
  bls_Sign_Deserialize b := head b;
  bls_Sign_Serialize s := s :: replicate 95 0;
  bls_Sign_Add a b := (a + b) mod 251;
  bls_PublicKey_Deserialize b := Some b;
  bls_VerifyHash s k m := s =? checksum (k ++ m);
  bls_VerifyAggregateHashes s ks ms := s =? checksum (concat ks ++ concat ms)
|}.

Lemma ledger_unforged R key : @unforged (ledger_crypto R) toy_time (PubKeyEd25519 key) R.
Proof.
  intros msg sig. cbn. unfold ed25519_VerifySignature. destruct (bool_decide _); [done|]. cbn.
  intros (r & Hr & Hb)%existsb_exists. exists r. split; [by apply list_elem_of_In|].
  apply andb_true_iff in Hb as [Hb%bytes_eqb_true Ho]. destruct (bytes_of r) as [b| |]; [by cbn in Hb; subst|done..].
Qed.

End witnesses.

Lemma keyed_voters_wf : voters_wf (keyed_voters toy_crypto).
Proof. constructor; [by apply (bool_decide_unpack _); vm_compute|repeat constructor; by vm_compute|by vm_compute|by left|by vm_compute]. Qed.

Lemma conflict_convicts_witness :
  exists e, NewDuplicateVoteEvidence (E:=evidence_error) (keyed_vote toy_crypto sample_block_id) (keyed_vote toy_crypto zero_BlockID) 33
      (keyed_voters toy_crypto) = Ok (Some e) /\
    v_BlockID (dve_VoteA e) = zero_BlockID /\
    @VerifyDuplicateVote toy_crypto toy_time e [7] (keyed_voters toy_crypto) = Ok tt.
Proof.
  destruct (@conflict_convicts toy_crypto toy_time [7] (keyed_voters toy_crypto) (keyed_voter toy_crypto 7 1) (PubKeyEd25519 (key_of 1))
    (keyed_vote toy_crypto sample_block_id) (keyed_vote toy_crypto zero_BlockID) 33 keyed_voters_wf) as (e & He & _ & Hv & _).
  - constructor; [vm_compute; reflexivity..|vm_compute; done|vm_compute; done|].
    intros v [-> | ->]; (split; [vm_compute; reflexivity|]); split; [|vm_compute; reflexivity| |vm_compute; reflexivity].
    + split; [right; vm_compute; reflexivity|vm_compute; split; [discriminate|reflexivity]].
    + split; [by left|vm_compute; split; [discriminate|reflexivity]].
  - exists e. split; [exact He|]. split; [|exact Hv]. vm_compute in He. injection He as <-. reflexivity.
Defined.

Definition released : list message := (run_requests sample_requests).2.

Definition slander : DuplicateVoteEvidence :=
  let addr := Address (keyed_voter (ledger_crypto released) 7 1) in
  let sign v := mkVote (v_Type v) (v_Height v) (v_Round v) (v_BlockID v) (v_Timestamp v) addr 0 (Some (replicate 64 0)) in
  mkDuplicateVote (sign (mkVote PrevoteType 5 0 zero_BlockID 7 [] 0 None)) (sign (sample_vote 0)) 21 5 7 33.

(** The released vote is the second one in the evidence; the first is made up. *)
Lemma honest_not_convicted_witness :
  @VerifyDuplicateVote (ledger_crypto released) toy_time slander [1] (keyed_voters (ledger_crypto released)) <> Ok tt.
Proof.
  pose proof (run_life sample_requests sample_well_typed) as Hl.
  destruct (run_requests sample_requests) as [s R] eqn:E.
  assert (HR : released = R) by (unfold released; by rewrite E).
  refine (@honest_not_convicted (ledger_crypto released) toy_time toy_decoder toy_roundtrip PrivValSafety.toy_sign s R
    (PubKeyEd25519 (key_of 1)) (keyed_voters (ledger_crypto released)) (keyed_voter (ledger_crypto released) 7 1) slander [1] _ Hl _ _ _ _ _ _).
  - constructor; [by apply (bool_decide_unpack _); vm_compute|repeat constructor; by vm_compute|by vm_compute|by left|by vm_compute].
  - rewrite <- HR. apply ledger_unforged.
  - vm_compute. reflexivity.
  - reflexivity.
  - split_and!; apply (bool_decide_unpack _); vm_compute; reflexivity.
  - split_and!; apply (bool_decide_unpack _); vm_compute; reflexivity.
  - vm_compute. reflexivity.
Defined.
