(* ===== verification/ChainState.v ===== *)
(** * The state of the chain and its blocks

    - [Block], [MakeBlock], [MaxDataBytes] of src/types/block.go;
    - the parameters of src/types/params.go and the results of
      src/types/results.go;
    - [State], [MakeBlock] of it and [MakeGenesisState] of src/state/state.go,
      with [GenesisDoc] of src/types/genesis.go;
    - [validateBlock] of src/state/validation.go;
    - [validateValidatorUpdates] and [updateState] of src/state/execution.go.

    Hashes and totals kept in blocks, commits and sets are left out, except
    where another file models them.  The curve arithmetic of the VRF is a
    parameter. *)

From Stdlib Require Import ZArith Lia Ascii String.
From stdpp Require Import prelude list strings.
From S2P Require Import Prelude SafeMath Crypto Validator ValidatorSet Proto Block VoterSet Election Merkle PartSet.
From S2P Require Import Header BlockTime Light BlockProto Evidence.

Local Open Scope Z_scope.
Local Open Scope go_scope.

(** ** The verifiable random function *)

(** [vrf_ed25519] of r2ishiguro/vrf: the check of a proof, which may fail, the
    check of its form, and its hash. *)
Class VrfLib := {
  ECVRF_verify : bytes -> bytes -> bytes -> option bool;
  ECVRF_decode_proof : bytes -> bool;
  ECVRF_proof2hash : bytes -> bytes
}.

(** [vrf.ProofToHash]. *)
Definition ProofToHash `{VrfLib} (proof : bytes) : option bytes :=
  if ECVRF_decode_proof proof then Some (ECVRF_proof2hash proof) else None.

(** [PubKey.VRFVerify] by the kind of the key. *)
Fixpoint VRFVerify `{VrfLib} (pubKey : PubKey) (proof message : bytes) : option bytes :=
  match pubKey with
  | PubKeyEd25519 k =>
      match ECVRF_verify k proof message with Some true => ProofToHash proof | _ => None end
  | PubKeyComposite _ VrfKey => VRFVerify VrfKey proof message
  | _ => None
  end.

(** [PubKey.Type]. *)
Fixpoint PubKey_Type (pubKey : PubKey) : string :=
  match pubKey with
  | PubKeyEd25519 _ => "ed25519"
  | PubKeySecp256k1 _ => "secp256k1"
  | PubKeySr25519 _ => "sr25519"
  | PubKeyBls _ => "bls12-381"
  | PubKeyComposite SignKey VrfKey =>
      ("composite(" ++ PubKey_Type SignKey ++ "," ++ PubKey_Type VrfKey ++ ")")%string
  end.

(** ** Parameters *)

Record ConsensusParams := mkConsensusParams {
  cp_MaxBytes : Z; cp_MaxGas : Z; cp_TimeIotaMs : Z;
  cp_MaxAgeNumBlocks : Z; cp_MaxAgeDuration : Z; cp_EvidenceMaxBytes : Z;
  cp_PubKeyTypes : list string; cp_AppVersion : Z
}.

(** [abci.ConsensusParams]: each part may be nil. *)
Record ParamUpdates := mkParamUpdates {
  pu_Block : option (Z * Z); pu_Evidence : option (Z * Z * Z); pu_Validator : option (list string); pu_Version : option Z
}.

Definition MaxBlockSizeBytes : Z := 104857600.

(** The keys of [ABCIPubKeyTypesToNames]. *)
Definition ABCIPubKeyTypes : list string :=
  ["composite(bls12-381,ed25519)"; "ed25519"; "secp256k1"; "bls12-381"]%string.

Inductive params_error :=
| ErrMaxBytesSmall | ErrMaxBytesBig | ErrMaxGas | ErrTimeIota | ErrMaxAgeNumBlocks | ErrMaxAgeDuration | ErrEvidenceMaxBytes
| ErrEvidenceNegative | ErrNoPubKeyTypes | ErrUnknownPubKeyType.

Definition IsValidPubkeyType (params : list string) (pubkeyType : string) : bool :=
  existsb (String.eqb pubkeyType) params.

Definition ValidateConsensusParams (params : ConsensusParams) : outcome params_error unit :=
  if cp_MaxBytes params <=? 0 then Err ErrMaxBytesSmall
  else if MaxBlockSizeBytes <? cp_MaxBytes params then Err ErrMaxBytesBig
  else if cp_MaxGas params <? -1 then Err ErrMaxGas
  else if cp_TimeIotaMs params <=? 0 then Err ErrTimeIota
  else if cp_MaxAgeNumBlocks params <=? 0 then Err ErrMaxAgeNumBlocks
  else if cp_MaxAgeDuration params <=? 0 then Err ErrMaxAgeDuration
  else if cp_MaxBytes params <? cp_EvidenceMaxBytes params then Err ErrEvidenceMaxBytes
  else if cp_EvidenceMaxBytes params <? 0 then Err ErrEvidenceNegative
  else if bool_decide (cp_PubKeyTypes params = []) then Err ErrNoPubKeyTypes
  else if forallb (IsValidPubkeyType ABCIPubKeyTypes) (cp_PubKeyTypes params) then Ok tt else Err ErrUnknownPubKeyType.

Definition UpdateConsensusParams (params : ConsensusParams) (params2 : option ParamUpdates) : ConsensusParams :=
  match params2 with
  | None => params
  | Some u =>
      let '(maxBytes, maxGas) := default (cp_MaxBytes params, cp_MaxGas params) (pu_Block u) in
      let '(blocks, duration, evBytes) :=
        default (cp_MaxAgeNumBlocks params, cp_MaxAgeDuration params, cp_EvidenceMaxBytes params) (pu_Evidence u) in
      mkConsensusParams maxBytes maxGas (cp_TimeIotaMs params) blocks duration evBytes
        (default (cp_PubKeyTypes params) (pu_Validator u)) (default (cp_AppVersion params) (pu_Version u))
  end.

(** ** Results *)

Record ResponseDeliverTx := mkDeliverTx {
  dt_Code : Z; dt_Data : bytes; dt_Log : bytes; dt_Info : bytes; dt_GasWanted : Z; dt_GasUsed : Z; dt_Codespace : bytes
}.

Definition deterministicResponseDeliverTx (response : ResponseDeliverTx) : ResponseDeliverTx :=
  mkDeliverTx (dt_Code response) (dt_Data response) [] [] (dt_GasWanted response) (dt_GasUsed response) [].

(** The events, which are never part of a result that is hashed, are left out. *)
Definition ResponseDeliverTx_Marshal (m : ResponseDeliverTx) : bytes :=
  field_varint 0x8 (dt_Code m) ++ field_bytes 0x12 (dt_Data m) ++ field_bytes 0x1a (dt_Log m) ++ field_bytes 0x22 (dt_Info m) ++
  field_varint 0x28 (dt_GasWanted m) ++ field_varint 0x30 (dt_GasUsed m) ++ field_bytes 0x42 (dt_Codespace m).

Definition ABCIResponsesResultsHash `{CryptoLib} (deliverTxs : list ResponseDeliverTx) : bytes :=
  HashFromByteSlices ((fun r => ResponseDeliverTx_Marshal (deterministicResponseDeliverTx r)) <$> deliverTxs).

(** ** Blocks *)

Record Block := mkBlock {
  b_Header : Header; b_Txs : list bytes; b_Evidence : list Evidence; b_LastCommit : option Commit
}.

Definition with_header (b : Block) (h : Header) : Block := mkBlock h (b_Txs b) (b_Evidence b) (b_LastCommit b).

Definition with_hashes (h : Header) (lastCommit data evidence : option bytes) : Header :=
  mkHeader (h_Version h) (h_ChainID h) (h_Height h) (h_Time h) (h_LastBlockID h) lastCommit data (h_VotersHash h)
    (h_ValidatorsHash h) (h_NextValidatorsHash h) (h_ConsensusHash h) (h_AppHash h) (h_LastResultsHash h) evidence
    (h_ProposerAddress h) (h_Round h) (h_Proof h).

Definition empty_header (version : Consensus_Version) (height : Z) : Header :=
  mkHeader version [] height 0 zero_BlockID None None [] [] [] [] [] [] None [] 0 [].

Inductive block_error :=
| ErrBlockHeader (e : header_error) | ErrNilLastCommit | ErrBlockCommit (e : basic_error) | ErrLastCommitHash | ErrDataHash
| ErrBlockEvidence (e : evidence_error) | ErrEvidenceHash
| ErrBlockVersion | ErrBlockChainID | ErrBlockHeight | ErrBlockLastID | ErrBlockAppHash | ErrConsensusHash | ErrLastResultsHash
| ErrBlockVotersHash | ErrBlockValidatorsHash | ErrNextValidatorsHash | ErrInitialCommit | ErrLastCommit (e : verify_error)
| ErrProposerSize | ErrProposerUnknown | ErrBlockTime | ErrEvidenceOverflow | ErrWrongProposer | ErrInvalidRound | ErrInvalidProof.

Section blocks.
  Context {crypto : CryptoLib} {codec : TimeCodec} {wrappers : WrapperLib}.

(** Hashes that are set are kept. *)
Definition fillHeader {E} (b : Block) : outcome E Block :=
  let h := b_Header b in
  lastCommitHash ← match h_LastCommitHash h with Some x => Ok (Some x) | None => Commit_Hash (b_LastCommit b) end;
  let dataHash := match h_DataHash h with Some x => Some x | None => Some (Txs_Hash (b_Txs b)) end in
  evidenceHash ← match h_EvidenceHash h with
                 | Some x => Ok (Some x)
                 | None => x ← EvidenceList_Hash (b_Evidence b); Ok (Some x)
                 end;
  Ok (with_header b (with_hashes h lastCommitHash dataHash evidenceHash)).

Definition MakeBlock {E} (height : Z) (txs : list bytes) (lastCommit : option Commit) (evidence : list Evidence)
    (version : Consensus_Version) : outcome E Block :=
  fillHeader (mkBlock (empty_header version height) txs evidence lastCommit).

Fixpoint evidence_valid (evs : list Evidence) : outcome block_error unit :=
  match evs with
  | [] => Ok tt
  | ev :: evs => _ ← lift_err ErrBlockEvidence (Evidence_ValidateBasic ev); evidence_valid evs
  end.

Definition Block_ValidateBasic (b : Block) : outcome block_error unit :=
  let h := b_Header b in
  _ ← lift_err ErrBlockHeader (Header_ValidateBasic h);
  match b_LastCommit b with
  | None => Err ErrNilLastCommit
  | Some commit =>
      _ ← lift_err ErrBlockCommit (Commit_ValidateBasic commit);
      commitHash ← Commit_Hash (Some commit);
      if negb (bytes_eqb (hash_bytes (h_LastCommitHash h)) (hash_bytes commitHash)) then Err ErrLastCommitHash
      else if negb (bytes_eqb (hash_bytes (h_DataHash h)) (Txs_Hash (b_Txs b))) then Err ErrDataHash
      else
        _ ← evidence_valid (b_Evidence b);
        evidenceHash ← EvidenceList_Hash (b_Evidence b);
        if negb (bytes_eqb (hash_bytes (h_EvidenceHash h)) evidenceHash) then Err ErrEvidenceHash else Ok tt
  end.

(** Nil without a last commit; otherwise the header is filled first. *)
Definition Block_Hash {E} (b : Block) : outcome E bytes :=
  match b_LastCommit b with
  | None => Ok []
  | Some _ => b ← fillHeader b; Ok (Header_Hash (b_Header b))
  end.

Definition Data_Marshal (txs : list bytes) : bytes := field_rep 0xa txs.

(** [ComputeProtoSizeForTxs]: the generated [Size] is the length of the
    encoding. *)
Definition ComputeProtoSizeForTxs (txs : list bytes) : Z := lenZ (Data_Marshal txs).

Definition Block_Marshal (b : Block) : option bytes :=
  header ← Header_Marshal (b_Header b);
  evidence ← EvidenceList_Marshal (b_Evidence b);
  commit ← opt_mapM Commit_Marshal (b_LastCommit b);
  Some (field_msg 0xa header ++ field_msg 0x12 (Data_Marshal (b_Txs b)) ++ field_msg 0x1a evidence ++ field_opt 0x22 commit).

Definition MakePartSet {E} (b : Block) (partSize : Z) : outcome E PartSet :=
  bz ← or_panic (Block_Marshal b); NewPartSetFromData bz partSize.

Definition MaxHeaderBytes : Z := 626 + (2 + 32 + 1) + (2 + 5) + (2 + Z.of_nat ProofSize + 1).
Definition MaxOverheadForBlock : Z := 11.

Definition MaxVoteBytes {E} (signSize : Z) : outcome E Z :=
  let size := (1 + 1) + (1 + 9) + (1 + 5) + (1 + 76 + 1) + (1 + 17 + 1) + (1 + 20 + 1) + (1 + 5) in
  if signSize =? 0 then Ok size
  else if (signSize =? Z.of_nat ed25519_SignatureSize) || (signSize =? Z.of_nat bls_SignatureSize)
  then Ok (size + (1 + signSize + 1))
  else Panic.

Definition MaxEvidenceBytes {E} (ev : Evidence) : outcome E Z :=
  match ev with
  | DuplicateVote dve =>
      a ← MaxVoteBytes (Z.of_nat (olen (v_Signature (dve_VoteA dve))));
      b ← MaxVoteBytes (Z.of_nat (olen (v_Signature (dve_VoteB dve))));
      Ok ((1 + a + 2) + (1 + b + 2) + (1 + 9) + (1 + 9) + (1 + 17 + 1))
  | LightClientAttack _ => Ok 0
  end.

Fixpoint sum_evidence_bytes {E} (evidences : list Evidence) (evidenceBytes : Z) : outcome E Z :=
  match evidences with
  | [] => Ok evidenceBytes
  | ev :: rest => n ← MaxEvidenceBytes ev; sum_evidence_bytes rest (evidenceBytes +i64 n)
  end.

(** A nil commit has no signatures to measure: following the pointer panics. *)
Definition MaxDataBytes {E} (maxBytes : Z) (commit : option Commit) (evidences : list Evidence) : outcome E Z :=
  evidenceBytes ← sum_evidence_bytes evidences 0;
  commit ← deref commit;
  commitBytes ← Commit_MaxCommitBytes commit;
  let maxDataBytes := (((maxBytes -i64 MaxOverheadForBlock) -i64 MaxHeaderBytes) -i64 commitBytes) -i64 evidenceBytes in
  if maxDataBytes <? 0 then Panic else Ok maxDataBytes.

Definition MaxDataBytesNoEvidence {E} (maxBytes : Z) (valsCount : nat) : outcome E Z :=
  commitBytes ← MaxCommitBytes (replicate valsCount (Z.of_nat MaxSignatureSize)) 0;
  let maxDataBytes := ((maxBytes -i64 MaxOverheadForBlock) -i64 MaxHeaderBytes) -i64 commitBytes in
  if maxDataBytes <? 0 then Panic else Ok maxDataBytes.

End blocks.

(** ** The state *)

(** The version of the software, which nothing depends on, is left out of
    [Version]. *)
Record ChainState := mkChainState {
  st_Version : Consensus_Version;
  st_ChainID : bytes;
  st_InitialHeight : Z;
  st_VoterParams : VoterParams;
  st_LastBlockHeight : Z;
  st_LastBlockID : BlockID;
  st_LastBlockTime : Time;
  st_LastProofHash : bytes;
  st_NextValidators : ValidatorSet;
  st_Validators : ValidatorSet;
  st_Voters : VoterSet;
  st_LastVoters : VoterSet;
  st_LastHeightValidatorsChanged : Z;
  st_ConsensusParams : ConsensusParams;
  st_LastHeightConsensusParamsChanged : Z;
  st_LastResultsHash : bytes;
  st_AppHash : bytes
}.

Definition with_AppHash (s : ChainState) (appHash : bytes) : ChainState :=
  mkChainState (st_Version s) (st_ChainID s) (st_InitialHeight s) (st_VoterParams s) (st_LastBlockHeight s) (st_LastBlockID s)
    (st_LastBlockTime s) (st_LastProofHash s) (st_NextValidators s) (st_Validators s) (st_Voters s) (st_LastVoters s)
    (st_LastHeightValidatorsChanged s) (st_ConsensusParams s) (st_LastHeightConsensusParamsChanged s) (st_LastResultsHash s) appHash.

Section chain.
  Context {crypto : CryptoLib} {codec : TimeCodec} {wrappers : WrapperLib} {vrf : VrfLib}.

Definition MakeHashMessage (state : ChainState) (round : Z) : bytes :=
  MakeRoundHash (st_LastProofHash state) (st_LastBlockHeight state) round.

Definition hash_params (params : ConsensusParams) : bytes := HashConsensusParams (cp_MaxBytes params) (cp_MaxGas params).

(** The block of [MakeBlock] without its parts. *)
Definition State_block {E} (state : ChainState) (height : Z) (txs : list bytes) (commit : option Commit)
    (evidence : list Evidence) (proposerAddress : bytes) (round : Z) (proof : bytes) : outcome E Block :=
  block ← MakeBlock height txs commit evidence (st_Version state);
  timestamp ← (if height =? st_InitialHeight state then Ok (st_LastBlockTime state)
               else c ← deref commit; Ok (MedianTime c (st_LastVoters state)));
  votersHash ← Voters_Hash (st_Voters state);
  validatorsHash ← Validators_Hash (st_Validators state);
  nextValidatorsHash ← Validators_Hash (st_NextValidators state);
  Ok (with_header block
        (Populate (b_Header block) (st_Version state) (st_ChainID state) timestamp (st_LastBlockID state)
           votersHash validatorsHash nextValidatorsHash (hash_params (st_ConsensusParams state)) (st_AppHash state)
           (st_LastResultsHash state) proposerAddress round proof)).

Definition State_MakeBlock {E} (state : ChainState) (height : Z) (txs : list bytes) (commit : option Commit)
    (evidence : list Evidence) (proposerAddress : bytes) (round : Z) (proof : bytes) : outcome E (Block * PartSet) :=
  block ← State_block state height txs commit evidence proposerAddress round proof;
  parts ← MakePartSet block BlockPartSizeBytes;
  Ok (block, parts).

(** The checks of the header against the state, up to the last commit. *)
Definition validate_header (state : ChainState) (h : Header) : outcome block_error unit :=
  if negb (ver_App (h_Version h) =? ver_App (st_Version state)) || negb (ver_Block (h_Version h) =? ver_Block (st_Version state))
  then Err ErrBlockVersion
  else if negb (bytes_eqb (h_ChainID h) (st_ChainID state)) then Err ErrBlockChainID
  else if (st_LastBlockHeight state =? 0) && negb (h_Height h =? st_InitialHeight state) then Err ErrBlockHeight
  else if (0 <? st_LastBlockHeight state) && negb (h_Height h =? st_LastBlockHeight state +i64 1) then Err ErrBlockHeight
  else if negb (BlockID_Equals (h_LastBlockID h) (st_LastBlockID state)) then Err ErrBlockLastID
  else if negb (bytes_eqb (h_AppHash h) (st_AppHash state)) then Err ErrBlockAppHash
  else if negb (bytes_eqb (h_ConsensusHash h) (hash_params (st_ConsensusParams state))) then Err ErrConsensusHash
  else if negb (bytes_eqb (h_LastResultsHash h) (st_LastResultsHash state)) then Err ErrLastResultsHash
  else
    votersHash ← Voters_Hash (st_Voters state);
    if negb (bytes_eqb (h_VotersHash h) votersHash) then Err ErrBlockVotersHash
    else
      validatorsHash ← Validators_Hash (st_Validators state);
      if negb (bytes_eqb (h_ValidatorsHash h) validatorsHash) then Err ErrBlockValidatorsHash
      else
        nextValidatorsHash ← Validators_Hash (st_NextValidators state);
        if negb (bytes_eqb (h_NextValidatorsHash h) nextValidatorsHash) then Err ErrNextValidatorsHash else Ok tt.

Definition validate_commit (state : ChainState) (h : Header) (commit : Commit) : outcome block_error unit :=
  if h_Height h =? st_InitialHeight state then
    if bool_decide (c_Signatures commit <> []) then Err ErrInitialCommit else Ok tt
  else lift_err ErrLastCommit
         (fst (VerifyCommit (st_ChainID state) (st_LastBlockID state) (h_Height h -i64 1) (Some commit) (st_LastVoters state))).

Definition validate_time (state : ChainState) (h : Header) (commit : Commit) : outcome block_error unit :=
  if st_InitialHeight state <? h_Height h then
    if negb (st_LastBlockTime state <? h_Time h) then Err ErrBlockTime
    else if negb (h_Time h =? MedianTime commit (st_LastVoters state)) then Err ErrBlockTime else Ok tt
  else if h_Height h =? st_InitialHeight state then
    if negb (h_Time h =? st_LastBlockTime state) then Err ErrBlockTime else Ok tt
  else Err ErrBlockHeight.

(** The proposer, the round and the proof. *)
Definition validate_proposer (state : ChainState) (round : Z) (h : Header) : outcome block_error unit :=
  '(proposer, _) ← SelectProposer (st_Validators state) (st_LastProofHash state) (h_Height h) (h_Round h);
  if negb (bytes_eqb (h_ProposerAddress h) (Address proposer)) then Err ErrWrongProposer
  else if round <? h_Round h then Err ErrInvalidRound
  else
    val ← deref (snd (GetByAddress (st_Validators state) (h_ProposerAddress h)));
    pubKey ← deref (vPubKey val);
    match VRFVerify pubKey (h_Proof h) (MakeHashMessage state (h_Round h)) with
    | None => Err ErrInvalidProof
    | Some _ => Ok tt
    end.

Definition validateBlock (state : ChainState) (round : Z) (block : Block) : outcome block_error unit :=
  let h := b_Header block in
  _ ← Block_ValidateBasic block;
  _ ← validate_header state h;
  commit ← deref (b_LastCommit block);
  _ ← validate_commit state h commit;
  if bool_decide (length (h_ProposerAddress h) <> AddressSize) then Err ErrProposerSize
  else if negb (HasAddress (st_Validators state) (h_ProposerAddress h)) then Err ErrProposerUnknown
  else
    _ ← validate_time state h commit;
    got ← EvidenceData_ByteSize (b_Evidence block);
    if cp_EvidenceMaxBytes (st_ConsensusParams state) <? got then Err ErrEvidenceOverflow
    else validate_proposer state round h.

(** ** Executing a block *)

(** [abci.ResponseEndBlock]: the updates. *)
Record EndBlockResponse := mkEndBlock { eb_ValidatorUpdates : list (PublicKey * Z); eb_ParamUpdates : option ParamUpdates }.

Inductive exec_error :=
| ErrInvalidBlock (e : block_error) | ErrInvalidEvidence | ErrProxyAppConn | ErrNegativePower | ErrUpdateKey (e : key_error)
| ErrUpdateKeyType | ErrChangingValidators (e : valset_error) | ErrUpdatingParams (e : params_error) | ErrProofOfHash
| ErrCommitFailed | ErrStore.

Fixpoint validateValidatorUpdates (abciUpdates : list (PublicKey * Z)) (params : list string) : outcome exec_error unit :=
  match abciUpdates with
  | [] => Ok tt
  | (key, power) :: rest =>
      if power <? 0 then Err ErrNegativePower
      else if power =? 0 then validateValidatorUpdates rest params
      else
        pk ← lift_err ErrUpdateKey (PubKeyFromProto key);
        if negb (IsValidPubkeyType params (PubKey_Type pk)) then Err ErrUpdateKeyType
        else validateValidatorUpdates rest params
  end.

(** [PB2OC.ValidatorUpdates]. *)
Fixpoint PB2OC_ValidatorUpdates (vals : list (PublicKey * Z)) : outcome exec_error (list Validator) :=
  match vals with
  | [] => Ok []
  | (key, power) :: rest =>
      pub ← lift_err ErrUpdateKey (PubKeyFromProto key);
      v ← NewValidator pub power;
      vs ← PB2OC_ValidatorUpdates rest;
      Ok (v :: vs)
  end.

(** The validators after the next, and the height from which they count. *)
Definition next_validators (state : ChainState) (height : Z) (validatorUpdates : list Validator)
  : outcome exec_error (ValidatorSet * Z) :=
  '(nValSet, changed) ←
    (if bool_decide (validatorUpdates = []) then Ok (st_NextValidators state, st_LastHeightValidatorsChanged state)
     else match UpdateWithChangeSet validatorUpdates (st_NextValidators state) with
          | (Ok _, vals) => Ok (vals, (height +i64 1) +i64 1)
          | (Err e, _) => Err (ErrChangingValidators e)
          | (Panic, _) => Panic
          end);
  vals ← IncrementProposerPriority nValSet 1;
  Ok (vals, changed).

(** The parameters, the version and the height from which they count. *)
Definition next_params (state : ChainState) (height : Z) (updates : option ParamUpdates)
  : outcome exec_error (ConsensusParams * Consensus_Version * Z) :=
  match updates with
  | None => Ok (st_ConsensusParams state, st_Version state, st_LastHeightConsensusParamsChanged state)
  | Some _ =>
      let nextParams := UpdateConsensusParams (st_ConsensusParams state) updates in
      _ ← lift_err ErrUpdatingParams (ValidateConsensusParams nextParams);
      Ok (nextParams, mkVersion (ver_Block (st_Version state)) (cp_AppVersion nextParams), height +i64 1)
  end.

(** The hash of the application is filled in later. *)
Definition updateState (state : ChainState) (blockID : BlockID) (header : Header) (deliverTxs : list ResponseDeliverTx)
    (paramUpdates : option ParamUpdates) (validatorUpdates : list Validator) : outcome exec_error ChainState :=
  '(nValSet, lastHeightValsChanged) ← next_validators state (h_Height header) validatorUpdates;
  '(nextParams, nextVersion, lastHeightParamsChanged) ← next_params state (h_Height header) paramUpdates;
  match ProofToHash (h_Proof header) with
  | None => Err ErrProofOfHash
  | Some proofHash =>
      let validators := st_NextValidators state in
      voters ← SelectVoter validators proofHash (st_VoterParams state);
      Ok (mkChainState nextVersion (st_ChainID state) (st_InitialHeight state) (st_VoterParams state) (h_Height header) blockID
            (h_Time header) proofHash nValSet validators voters (st_Voters state) lastHeightValsChanged nextParams
            lastHeightParamsChanged (ABCIResponsesResultsHash deliverTxs) [])
  end.

End chain.

(** ** Genesis *)

Record GenesisValidator := mkGenesisValidator { gv_Address : bytes; gv_PubKey : PubKey; gv_Power : Z }.

(** The fields a state is made of; nil parameters and a nil list of validators
    are [None]. *)
Record GenesisDoc := mkGenesisDoc {
  gd_GenesisTime : Time;
  gd_ChainID : bytes;
  gd_InitialHeight : Z;
  gd_ConsensusParams : option ConsensusParams;
  gd_Validators : option (list GenesisValidator);
  gd_VoterParams : option VoterParams;
  gd_AppHash : bytes
}.

Inductive genesis_error :=
| ErrNoChainID | ErrLongChainID | ErrInitialHeight | ErrGenesisParams (e : params_error) | ErrVoterThreshold | ErrVoterPercentage
| ErrGenesisPower | ErrGenesisAddress.

(** [DefaultConsensusParams]; durations are in nanoseconds. *)
Definition DefaultConsensusParams : ConsensusParams :=
  mkConsensusParams 22020096 (-1) 1000 100000 (48 * 3600 * 1000000000) 1048576
    ["ed25519"; "composite(bls12-381,ed25519)"]%string 0.

Definition DefaultVoterParams : VoterParams := mkVoterParams 33 33.

(** [VoterParams.Validate]. *)
Definition VoterParams_Validate (vp : VoterParams) : outcome genesis_error unit :=
  if VoterElectionThreshold vp <? 0 then Err ErrVoterThreshold
  else if (MaxTolerableByzantinePercentage vp <=? 0) || (34 <=? MaxTolerableByzantinePercentage vp) then Err ErrVoterPercentage
  else Ok tt.

Section genesis.
  Context {crypto : CryptoLib}.

Fixpoint complete_validators (vals : list GenesisValidator) : outcome genesis_error (list GenesisValidator) :=
  match vals with
  | [] => Ok []
  | v :: rest =>
      if gv_Power v =? 0 then Err ErrGenesisPower
      else
        addr ← PubKey_Address (gv_PubKey v);
        if bool_decide (gv_Address v <> []) && negb (bytes_eqb addr (gv_Address v)) then Err ErrGenesisAddress
        else rest ← complete_validators rest; Ok (mkGenesisValidator addr (gv_PubKey v) (gv_Power v) :: rest)
  end.

(** [now] is the clock, read when the time is zero. *)
Definition ValidateAndComplete (now : Time) (genDoc : GenesisDoc) : outcome genesis_error GenesisDoc :=
  if bool_decide (gd_ChainID genDoc = []) then Err ErrNoChainID
  else if bool_decide (MaxChainIDLen < length (gd_ChainID genDoc))%nat then Err ErrLongChainID
  else if gd_InitialHeight genDoc <? 0 then Err ErrInitialHeight
  else
    let initialHeight := if gd_InitialHeight genDoc =? 0 then 1 else gd_InitialHeight genDoc in
    params ← match gd_ConsensusParams genDoc with
             | None => Ok DefaultConsensusParams
             | Some p => _ ← lift_err ErrGenesisParams (ValidateConsensusParams p); Ok p
             end;
    voterParams ← match gd_VoterParams genDoc with
                  | None => Ok DefaultVoterParams
                  | Some vp => _ ← VoterParams_Validate vp; Ok vp
                  end;
    vals ← match gd_Validators genDoc with
           | None => Ok None
           | Some vals => vals ← complete_validators vals; Ok (Some vals)
           end;
    Ok (mkGenesisDoc (if gd_GenesisTime genDoc =? 0 then now else gd_GenesisTime genDoc) (gd_ChainID genDoc) initialHeight
          (Some params) vals (Some voterParams) (gd_AppHash genDoc)).

Fixpoint genesis_validators {E} (vals : list GenesisValidator) : outcome E (list Validator) :=
  match vals with
  | [] => Ok []
  | v :: rest => val ← NewValidator (gv_PubKey v) (gv_Power v); vs ← genesis_validators rest; Ok (val :: vs)
  end.

(** [GenesisDoc_Hash] is the hash of the JSON form of the document. *)
Definition MakeGenesisState (GenesisDoc_Hash : GenesisDoc -> bytes) (now : Time) (genDoc : GenesisDoc)
  : outcome genesis_error ChainState :=
  genDoc ← ValidateAndComplete now genDoc;
  vals ← genesis_validators (default [] (gd_Validators genDoc));
  validatorSet ← NewValidatorSet vals;
  let hash := GenesisDoc_Hash genDoc in
  let voterParams := default DefaultVoterParams (gd_VoterParams genDoc) in
  voters ← SelectVoter validatorSet hash voterParams;
  Ok (mkChainState (mkVersion BlockProtocol 0) (gd_ChainID genDoc) (gd_InitialHeight genDoc) voterParams 0 zero_BlockID
        (gd_GenesisTime genDoc) hash validatorSet validatorSet voters (mkVoterSet [] 0) (gd_InitialHeight genDoc)
        (default DefaultConsensusParams (gd_ConsensusParams genDoc)) (gd_InitialHeight genDoc) [] (gd_AppHash genDoc)).

End genesis.
