(* ===== verification/ChainProps.v ===== *)
(** * The chain

    The state that [updateState] makes is well formed and never fails on
    acceptable updates; a block is accepted exactly when it is the block the
    state makes of its contents; and accepted blocks form a chain. *)

From Stdlib Require Import ZArith Lia Ascii String.
From stdpp Require Import prelude list gmap strings.
From S2P Require Import Prelude SafeMath Crypto Validator ValidatorSet ValidatorLists ValidatorSetPriority.
From S2P Require Import ValidatorSetUpdate Proto Block VoterSet VerifyCommit Election Merkle MerkleProps PartSet Header.
From S2P Require Import BlockTime Light BlockProto Evidence EvidenceProps ChainState.

Local Open Scope Z_scope.
Local Open Scope go_scope.

(** ** The invariant *)

(** Sets small enough for the arithmetic of the priorities to be exact. *)
Definition fits (vals : ValidatorSet) : Prop :=
  4 * rotation_cap (length (Validators vals)) (Zsum (powers (Validators vals))) 1 <= 15 * MaxTotalVotingPower /\
  lenZ (Validators vals) < 2 ^ 31.

Record set_ok (vals : ValidatorSet) : Prop := {
  so_wf : valset_wf vals;
  so_nonempty : Validators vals <> [];
  so_fits : fits vals
}.

Record chain_ok (s : ChainState) : Prop := {
  co_validators : set_ok (st_Validators s);
  co_next : set_ok (st_NextValidators s);
  co_voters : voters_wf (st_Voters s) /\ Voters (st_Voters s) <> [];
  co_last : voters_wf (st_LastVoters s);
  co_voter_params : 0 <= MaxTolerableByzantinePercentage (st_VoterParams s);
  co_params : ValidateConsensusParams (st_ConsensusParams s) = Ok tt;
  co_initial : 0 < st_InitialHeight s <= int64_max;
  co_height : 0 <= st_LastBlockHeight s <= int64_max;
  co_started : 0 < st_LastBlockHeight s -> st_InitialHeight s <= st_LastBlockHeight s
}.

Lemma chosen_wf l minVoters pct voters :
  chosen l minVoters pct voters -> Zsum (powers l) <= MaxTotalVotingPower -> lenZ l < 2 ^ 31 -> voters_wf voters.
Proof.
  intros Hc Hm Hl. constructor; try apply Hc.
  - rewrite <- (ch_total _ _ _ _ Hc). pose proof (ch_bound _ _ _ _ Hc). rewrite MaxWeight_val, MaxTotal_val in *. lia.
  - right. apply Hc.
  - pose proof (submseteq_length _ _ (ch_members _ _ _ _ Hc)) as Hlen. rewrite !length_fmap in Hlen. unfold lenZ in *. lia.
Qed.

Lemma SelectVoter_wf {E} vals proofHash params :
  set_ok vals -> 0 <= MaxTolerableByzantinePercentage params ->
  exists voters, SelectVoter (E:=E) vals proofHash params = Ok voters /\ voters_wf voters /\ Voters voters <> [] /\
    chosen (Validators vals) (VoterElectionThreshold params) (MaxTolerableByzantinePercentage params) voters.
Proof.
  intros [Hwf Hne Hf] Hp. destruct (SelectVoter_chosen (E:=E) vals proofHash params Hwf Hne Hp) as (voters & Hv & Hc).
  exists voters. split; [done|]. split; [eapply chosen_wf; [done|apply Hwf|apply Hf]|]. split; [apply Hc|done].
Qed.

Lemma rotations_same P l ms l' : rotations P l ms l' -> same_but_priority l l'.
Proof.
  induction 1 as [l|l i m ms l' Hm _ IH]; [apply same_but_priority_refl|]. eapply same_but_priority_trans; [|exact IH].
  by apply round_same.
Qed.

Lemma increment_ok {E} vals times :
  set_ok vals -> 0 < times -> exists vals', IncrementProposerPriority (E:=E) vals times = Ok vals' /\ set_ok vals' /\
    same_but_priority (Validators vals) (Validators vals').
Proof.
  intros [Hwf Hne [Hf Hl]] Ht. destruct (IncrementProposerPriority_spec (E:=E) vals times Hwf Hne Ht Hf)
    as (ms & l' & Hs0 & _ & _ & Hrot & Hi & Hr & Hw & Hlen).
  eexists. split; [exact Hi|]. pose proof (rot_sum _ _ Hr) as Hs. pose proof (rot_nonempty _ _ Hr) as Hn. cbn [Validators] in *.
  split; [|eapply same_but_priority_trans; [exact Hs0|by eapply rotations_same]].
  constructor; [done|done|]. unfold fits. cbn [Validators]. rewrite Hs, Hlen. split; [exact Hf|]. unfold lenZ in *. lia.
Qed.

(** The set after the updates of a block. *)
Definition updated_set (state : ChainState) (updates : list Validator) : ValidatorSet :=
  if bool_decide (updates = []) then st_NextValidators state else snd (UpdateWithChangeSet updates (st_NextValidators state)).

Definition updates_ok (state : ChainState) (updates : list Validator) : Prop :=
  updates = [] \/ valid_changes true (power_map (Validators (st_NextValidators state))) updates.

Lemma next_validators_cases state height updates :
  chain_ok state -> fits (updated_set state updates) ->
  (updates_ok state updates /\ exists vals changed, next_validators state height updates = Ok (vals, changed) /\ set_ok vals /\
     same_but_priority (Validators (updated_set state updates)) (Validators vals) /\
     changed = if bool_decide (updates = []) then st_LastHeightValidatorsChanged state else (height +i64 1) +i64 1) \/
  (~ updates_ok state updates /\ exists e, next_validators state height updates = Err (ErrChangingValidators e)).
Proof.
  intros Hok. pose proof (co_next _ Hok) as [Hwf Hne Hf]. unfold updates_ok, updated_set, next_validators.
  destruct (decide (updates = [])) as [->|Hu].
  - intros _. left. split; [by left|]. cbn [bool_decide decide_rel]. rewrite bool_decide_eq_true_2 by done. cbn [mbind outcome_bind].
    destruct (increment_ok (E:=exec_error) (st_NextValidators state) 1) as (vals & -> & Hs & Hsame); [done|lia|]. by exists vals, (st_LastHeightValidatorsChanged state).
  - rewrite bool_decide_eq_false_2 by done. unfold UpdateWithChangeSet.
    destruct (update_cases (st_NextValidators state) updates true Hwf Hu) as [(Hv & vals' & Hvv & Hup)|(Hv & e & vals' & Hvv & Hor)].
    + rewrite Hvv. cbn [snd]. intros Hf'. left. split; [by right|].
      assert (Hs' : set_ok vals').
      { constructor; [apply Hup| |done]. intros Hnil. destruct Hv as [_ _ _ _ Hne' _]. apply Hne'.
        rewrite <- (up_map _ _ Hup), Hnil. done. }
      cbn [mbind outcome_bind]. destruct (increment_ok (E:=exec_error) vals' 1 Hs') as (vals & -> & Hs & Hsame); [lia|].
      by exists vals, ((height +i64 1) +i64 1).
    + rewrite Hvv. intros _. right. split; [by intros [|]|]. by exists e.
Qed.

Definition params_updated (state : ChainState) (updates : option ParamUpdates) : ConsensusParams :=
  UpdateConsensusParams (st_ConsensusParams state) updates.

Lemma params_no_panic params : ValidateConsensusParams params <> Panic.
Proof.
  unfold ValidateConsensusParams. intros Hp. repeat (match type of Hp with (if ?b then _ else _) = _ => destruct b; [done|] end). done.
Qed.

(** The state after the block with header [h]. *)
Record executed `{CryptoLib} `{VrfLib} (state : ChainState) (id : BlockID) (h : Header) (params : option ParamUpdates)
    (updates : list Validator) (s' : ChainState) : Prop := {
  ex_height : st_LastBlockHeight s' = h_Height h;
  ex_id : st_LastBlockID s' = id;
  ex_time : st_LastBlockTime s' = h_Time h;
  ex_proof : ProofToHash (h_Proof h) = Some (st_LastProofHash s');
  ex_validators : st_Validators s' = st_NextValidators state;
  ex_last : st_LastVoters s' = st_Voters state;
  ex_voters : chosen (Validators (st_Validators s')) (VoterElectionThreshold (st_VoterParams state))
    (MaxTolerableByzantinePercentage (st_VoterParams state)) (st_Voters s');
  ex_next : same_but_priority (Validators (updated_set state updates)) (Validators (st_NextValidators s'));
  ex_changed : st_LastHeightValidatorsChanged s' =
    if bool_decide (updates = []) then st_LastHeightValidatorsChanged state else (h_Height h +i64 1) +i64 1;
  ex_params : st_ConsensusParams s' = params_updated state params /\
    st_LastHeightConsensusParamsChanged s' =
      if bool_decide (params = None) then st_LastHeightConsensusParamsChanged state else h_Height h +i64 1;
  ex_chain : st_ChainID s' = st_ChainID state /\ st_InitialHeight s' = st_InitialHeight state /\
    st_VoterParams s' = st_VoterParams state
}.

Lemma updateState_cases `{CryptoLib} `{VrfLib} state id h txs params updates :
  chain_ok state -> fits (updated_set state updates) -> st_InitialHeight state <= h_Height h <= int64_max ->
  let acceptable := updates_ok state updates /\ ValidateConsensusParams (params_updated state params) = Ok tt /\
    is_Some (ProofToHash (h_Proof h)) in
  (acceptable /\ exists s', updateState state id h txs params updates = Ok s' /\ chain_ok s' /\ executed state id h params updates s') \/
  (~ acceptable /\ exists e, updateState state id h txs params updates = Err e).
Proof.
  intros Hok Hf Hh acceptable. unfold acceptable, updateState.
  assert (Hp : (ValidateConsensusParams (params_updated state params) = Ok tt /\ exists v,
      next_params state (h_Height h) params = Ok (params_updated state params, v,
        if bool_decide (params = None) then st_LastHeightConsensusParamsChanged state else h_Height h +i64 1)) \/
    (ValidateConsensusParams (params_updated state params) <> Ok tt /\ exists e, next_params state (h_Height h) params = Err e)).
  { unfold params_updated, next_params. destruct params as [u|].
    - destruct (ValidateConsensusParams (UpdateConsensusParams (st_ConsensusParams state) (Some u))) as [[]|e|] eqn:Ev; cbn;
        [left; eauto|right; eauto|]. by apply params_no_panic in Ev.
    - left. split; [apply Hok|]. by exists (st_Version state). }
  destruct (next_validators_cases state (h_Height h) updates Hok Hf) as [(Hu & vals & ch & -> & Hs & Hsame & Hch)|(Hu & e & ->)].
  2: { right. cbn. split; [naive_solver|]. by exists (ErrChangingValidators e). }
  cbn [mbind outcome_bind]. destruct Hp as [(Hv & v & ->)|(Hv & e & ->)]; cbn [mbind outcome_bind].
  2: { right. split; [naive_solver|]. by exists e. }
  destruct (ProofToHash (h_Proof h)) as [ph|] eqn:Eph.
  2: { right. split; [intros (_ & _ & [? ?]); done|]. by exists ErrProofOfHash. }
  left. split; [eauto|].
  destruct (SelectVoter_wf (E:=exec_error) (st_NextValidators state) ph (st_VoterParams state)) as (voters & -> & Hw & Hvne & Hc);
    [apply Hok..|]. cbn [mbind outcome_bind]. eexists. split; [done|]. split; [|by constructor].
  pose proof (co_initial _ Hok). constructor; cbn; try apply Hok; try done; lia.
Qed.

(** ** What is accepted *)

(** A guard that returns an error. *)
Lemma guard_Ok {E A} (b : bool) (e : E) (k : outcome E A) x : (if b then Err e else k) = Ok x <-> b = false /\ k = Ok x.
Proof. destruct b; naive_solver. Qed.

Lemma deref_Ok {E A} (o : option A) x : deref (E:=E) o = Ok x <-> o = Some x.
Proof. destruct o; naive_solver. Qed.

Lemma seq_Ok {E A} (m : outcome E unit) (k : outcome E A) x : (m ≫= fun _ => k) = Ok x <-> m = Ok tt /\ k = Ok x.
Proof. rewrite obind_Ok. split; [intros ([] & ? & ?); done|intros [? ?]; by exists tt]. Qed.

Section accepted.
  Context {crypto : CryptoLib} {codec : TimeCodec} {wrappers : WrapperLib} {vrf : VrfLib}.

Record header_matches (state : ChainState) (h : Header) : Prop := {
  hm_version : h_Version h = st_Version state;
  hm_chain : h_ChainID h = st_ChainID state;
  hm_height : if st_LastBlockHeight state =? 0 then h_Height h = st_InitialHeight state
              else 0 < st_LastBlockHeight state -> h_Height h = st_LastBlockHeight state +i64 1;
  hm_last : h_LastBlockID h = st_LastBlockID state;
  hm_app : h_AppHash h = st_AppHash state;
  hm_consensus : h_ConsensusHash h = hash_params (st_ConsensusParams state);
  hm_results : h_LastResultsHash h = st_LastResultsHash state;
  hm_voters : Voters_Hash (E:=block_error) (st_Voters state) = Ok (h_VotersHash h);
  hm_validators : Validators_Hash (E:=block_error) (st_Validators state) = Ok (h_ValidatorsHash h);
  hm_next : Validators_Hash (E:=block_error) (st_NextValidators state) = Ok (h_NextValidatorsHash h)
}.

Lemma hash_check_Ok {A} (m : outcome block_error bytes) (x : bytes) (e : block_error) (k : outcome block_error A) a :
  (m ≫= fun y => if negb (bytes_eqb x y) then Err e else k) = Ok a <-> m = Ok x /\ k = Ok a.
Proof.
  rewrite obind_Ok. setoid_rewrite guard_Ok. setoid_rewrite negb_false_iff. setoid_rewrite bytes_eqb_true.
  split; [intros (y & ? & -> & ?); done|intros [? ?]; by exists x].
Qed.

Lemma validate_header_iff state h : validate_header state h = Ok tt <-> header_matches state h.
Proof.
  unfold validate_header. rewrite !guard_Ok, orb_false_iff, !andb_false_iff, !negb_false_iff, !Z.eqb_eq, !Z.eqb_neq, !bytes_eqb_true,
    BlockID_Equals_true, Z.ltb_ge.
  rewrite !hash_check_Ok. split.
  - intros ([? ?] & ? & Hh0 & Hh & ? & ? & ? & ? & ? & ? & ? & _). constructor; try done.
    + destruct (h_Version h), (st_Version state). cbn in *. congruence.
    + destruct (Z.eqb_spec (st_LastBlockHeight state) 0); [naive_solver|]. intros. destruct Hh; [lia|done].
  - intros [? ? Hh ? ? ? ? ? ? ?]. split_and!; try done; try congruence.
    + destruct (Z.eqb_spec (st_LastBlockHeight state) 0); [by right|by left].
    + destruct (Z.eqb_spec (st_LastBlockHeight state) 0) as [->|]; [left; lia|].
      destruct (Z_lt_le_dec 0 (st_LastBlockHeight state)); [right; by apply Hh|by left].
Qed.

(** The hashes of the contents. *)
Record contents_match (b : Block) (commit : Commit) : Prop := {
  cm_header : Header_ValidateBasic (b_Header b) = Ok tt;
  cm_commit : b_LastCommit b = Some commit /\ Commit_ValidateBasic commit = Ok tt;
  cm_commit_hash : Commit_Hash (E:=block_error) (Some commit) = Ok (Some (hash_bytes (h_LastCommitHash (b_Header b))));
  cm_data : hash_bytes (h_DataHash (b_Header b)) = Txs_Hash (b_Txs b);
  cm_evidence : evidence_valid (b_Evidence b) = Ok tt;
  cm_evidence_hash : EvidenceList_Hash (E:=block_error) (b_Evidence b) = Ok (hash_bytes (h_EvidenceHash (b_Header b)))
}.

Lemma Commit_Hash_Some {E} commit o : Commit_Hash (E:=E) (Some commit) = Ok o -> exists x, o = Some x.
Proof. cbn. rewrite obind_Ok. intros (bs & _ & [= <-]). by eexists. Qed.

Lemma Block_ValidateBasic_iff b : Block_ValidateBasic b = Ok tt <-> exists commit, contents_match b commit.
Proof.
  unfold Block_ValidateBasic. rewrite seq_Ok, lift_err_Ok. split.
  - intros [Hh Hb]. destruct (b_LastCommit b) as [commit|] eqn:Ec; [|done]. exists commit.
    rewrite seq_Ok, lift_err_Ok in Hb. destruct Hb as [Hc Hb]. apply obind_Ok in Hb as (ch & Hch & Hb).
    rewrite !guard_Ok, !negb_false_iff, !bytes_eqb_true, seq_Ok in Hb. destruct Hb as (Hch' & Hd & He & Hb).
    rewrite hash_check_Ok in Hb. destruct Hb as [Heh _]. destruct (Commit_Hash_Some _ _ Hch) as [x ->].
    constructor; try done. cbn [hash_bytes default] in Hch'. rewrite Hch'. exact Hch.
  - intros [commit [Hh [Hc Hcv] Hch Hd He Heh]]. split; [done|]. rewrite Hc, seq_Ok, lift_err_Ok. split; [done|].
    rewrite Hch. cbn [mbind outcome_bind]. rewrite !guard_Ok, !negb_false_iff, !bytes_eqb_true, seq_Ok. split_and!; try done.
    by apply hash_check_Ok.
Qed.

(** The rest of [validateBlock]. *)
Record accepted (state : ChainState) (round : Z) (b : Block) (commit : Commit) : Prop := {
  ac_contents : contents_match b commit;
  ac_header : header_matches state (b_Header b);
  ac_commit : validate_commit state (b_Header b) commit = Ok tt;
  ac_member : HasAddress (st_Validators state) (h_ProposerAddress (b_Header b)) = true;
  ac_time : validate_time state (b_Header b) commit = Ok tt;
  ac_size : exists n, EvidenceData_ByteSize (E:=block_error) (b_Evidence b) = Ok n /\ n <= cp_EvidenceMaxBytes (st_ConsensusParams state);
  ac_proposer : validate_proposer state round (b_Header b) = Ok tt
}.

Lemma Header_address h : Header_ValidateBasic h = Ok tt -> length (h_ProposerAddress h) = AddressSize.
Proof.
  unfold Header_ValidateBasic. rewrite !guard_Ok, !seq_Ok. intros (_ & _ & _ & _ & _ & _ & _ & _ & Hb). rewrite guard_Ok in Hb.
  destruct Hb as [Hb _]. apply bool_decide_eq_false in Hb. by apply dec_stable.
Qed.

Lemma validateBlock_iff state round b : validateBlock state round b = Ok tt <-> exists commit, accepted state round b commit.
Proof.
  unfold validateBlock. rewrite !seq_Ok, validate_header_iff. split.
  - intros (Hb & Hh & Hr). apply obind_Ok in Hr as (commit & Hc%deref_Ok & Hr). rewrite seq_Ok, !guard_Ok, seq_Ok in Hr.
    destruct Hr as (Hvc & _ & Hm & Ht & Hr). apply obind_Ok in Hr as (n & Hn & Hr). rewrite guard_Ok, Z.ltb_ge in Hr.
    destruct Hr as [Hle Hp]. apply Block_ValidateBasic_iff in Hb as [commit' Hb].
    assert (commit' = commit) as -> by (destruct Hb as [_ [? _] _ _ _ _]; congruence). exists commit.
    constructor; try done; [by apply negb_false_iff|by exists n].
  - intros [commit [Hc Hh Hvc Hm Ht (n & Hn & Hle) Hp]]. split; [apply Block_ValidateBasic_iff; eauto|]. split; [done|].
    rewrite (proj1 (cm_commit _ _ Hc)). cbn [deref mbind outcome_bind]. rewrite seq_Ok, !guard_Ok, seq_Ok, Hn.
    cbn [mbind outcome_bind]. rewrite guard_Ok, negb_false_iff, Z.ltb_ge. split_and!; try done.
    apply bool_decide_eq_false. rewrite (Header_address (b_Header b)) by apply Hc. by intros [].
Qed.

(** The height of the next block. *)
Definition next_height (state : ChainState) : Z :=
  if st_LastBlockHeight state =? 0 then st_InitialHeight state else st_LastBlockHeight state +i64 1.

(** The block made of the contents of [b]. *)
Definition rebuilt (state : ChainState) (b : Block) : outcome block_error Block :=
  State_block state (h_Height (b_Header b)) (b_Txs b) (b_LastCommit b) (b_Evidence b) (h_ProposerAddress (b_Header b))
    (h_Round (b_Header b)) (h_Proof (b_Header b)).

(** The proposer drawn for the round of the header proves it with its key. *)
Definition proposer_proved (state : ChainState) (h : Header) : Prop :=
  exists proposer vals val pubKey out,
    SelectProposer (E:=block_error) (st_Validators state) (st_LastProofHash state) (h_Height h) (h_Round h) = Ok (proposer, vals) /\
    h_ProposerAddress h = Address proposer /\ snd (GetByAddress (st_Validators state) (h_ProposerAddress h)) = Some val /\
    vPubKey val = Some pubKey /\ VRFVerify pubKey (h_Proof h) (MakeHashMessage state (h_Round h)) = Some out.

(** What the contents of a block have to satisfy. *)
Record contents_ok (state : ChainState) (round : Z) (b : Block) (commit : Commit) : Prop := {
  ct_height : h_Height (b_Header b) = next_height state;
  ct_basic : Header_ValidateBasic (b_Header b) = Ok tt;
  ct_commit : b_LastCommit b = Some commit /\ Commit_ValidateBasic commit = Ok tt;
  ct_evidence : evidence_valid (b_Evidence b) = Ok tt;
  ct_size : exists n, EvidenceData_ByteSize (E:=block_error) (b_Evidence b) = Ok n /\ n <= cp_EvidenceMaxBytes (st_ConsensusParams state);
  ct_last : if st_LastBlockHeight state =? 0 then c_Signatures commit = []
            else fst (VerifyCommit (st_ChainID state) (st_LastBlockID state) (st_LastBlockHeight state) (Some commit) (st_LastVoters state)) = Ok tt /\
                 st_LastBlockTime state < MedianTime commit (st_LastVoters state);
  ct_round : h_Round (b_Header b) <= round;
  ct_proposer : proposer_proved state (b_Header b)
}.

Lemma validate_proposer_iff state round h :
  validate_proposer state round h = Ok tt <-> h_Round h <= round /\ proposer_proved state h.
Proof.
  unfold validate_proposer, proposer_proved. split.
  - intros Hp. apply obind_Ok in Hp as ([proposer vals] & Hs & Hp).
    rewrite !guard_Ok, negb_false_iff, bytes_eqb_true, Z.ltb_ge in Hp. destruct Hp as (Ha & Hr & Hp).
    apply obind_Ok in Hp as (val & Hv%deref_Ok & Hp). apply obind_Ok in Hp as (pk & Hk%deref_Ok & Hp).
    destruct (VRFVerify pk _ _) as [out|] eqn:Eo; [|done]. split; [done|]. by exists proposer, vals, val, pk, out.
  - intros (Hr & proposer & vals & val & pk & out & Hs & Ha & Hv & Hk & Ho). rewrite Hs. cbn [mbind outcome_bind].
    rewrite !guard_Ok, negb_false_iff, bytes_eqb_true, Z.ltb_ge, Hv. cbn [deref mbind outcome_bind]. rewrite Hk.
    cbn [deref mbind outcome_bind]. by rewrite Ho.
Qed.

Lemma proved_member state h : proposer_proved state h -> HasAddress (st_Validators state) (h_ProposerAddress h) = true.
Proof.
  intros (_ & _ & val & _ & _ & _ & _ & Hv & _). apply HasAddress_true. rewrite GetByAddress_lookup in Hv.
  apply lookup_addr_Some in Hv as [Hin <-]. by apply list_elem_of_fmap_2.
Qed.

(** The block a state makes, field by field. *)
Lemma State_block_Ok state height txs commit evidence addr round proof b :
  State_block (E:=block_error) state height txs (Some commit) evidence addr round proof = Ok b <->
  exists commitHash evidenceHash votersHash validatorsHash nextHash,
    Commit_Hash (E:=block_error) (Some commit) = Ok (Some commitHash) /\ EvidenceList_Hash (E:=block_error) evidence = Ok evidenceHash /\
    Voters_Hash (E:=block_error) (st_Voters state) = Ok votersHash /\
    Validators_Hash (E:=block_error) (st_Validators state) = Ok validatorsHash /\
    Validators_Hash (E:=block_error) (st_NextValidators state) = Ok nextHash /\
    b = mkBlock (mkHeader (st_Version state) (st_ChainID state) height
          (if height =? st_InitialHeight state then st_LastBlockTime state else MedianTime commit (st_LastVoters state))
          (st_LastBlockID state) (Some commitHash) (Some (Txs_Hash txs)) votersHash validatorsHash nextHash
          (hash_params (st_ConsensusParams state)) (st_AppHash state) (st_LastResultsHash state) (Some evidenceHash)
          addr round proof) txs evidence (Some commit).
Proof.
  unfold State_block, MakeBlock, fillHeader. cbn [h_LastCommitHash h_DataHash h_EvidenceHash empty_header b_Header b_LastCommit b_Txs b_Evidence].
  split.
  - intros Hb. apply obind_Ok in Hb as (b0 & Hb0 & Hb). apply obind_Ok in Hb0 as (ch & Hch & Hb0).
    apply obind_Ok in Hb0 as (eh & Heh & [= <-]). apply obind_Ok in Heh as (eh' & Heh & [= <-]).
    apply obind_Ok in Hb as (ts & Hts & Hb). apply obind_Ok in Hb as (vh & Hvh & Hb). apply obind_Ok in Hb as (vah & Hvah & Hb).
    apply obind_Ok in Hb as (nh & Hnh & [= <-]). destruct (Commit_Hash_Some _ _ Hch) as [x ->].
    exists x, eh', vh, vah, nh. split_and!; try done. cbn [deref mbind outcome_bind] in Hts.
    destruct (height =? st_InitialHeight state); by injection Hts as ->.
  - intros (ch & eh & vh & vah & nh & -> & -> & Hvh & Hvah & Hnh & ->). cbn [mbind outcome_bind]. rewrite Hvh, Hvah, Hnh.
    by destruct (height =? st_InitialHeight state).
Qed.

Lemma Header_height h : Header_ValidateBasic h = Ok tt -> 0 < h_Height h.
Proof.
  unfold Header_ValidateBasic. rewrite !guard_Ok. intros (_ & _ & Hn & Hz & _). apply Z.ltb_ge in Hn. apply Z.eqb_neq in Hz. lia.
Qed.

Lemma next_height_cases state h :
  chain_ok state -> 0 < h -> h = next_height state ->
  (st_LastBlockHeight state = 0 /\ h = st_InitialHeight state) \/
  (0 < st_LastBlockHeight state /\ h = st_LastBlockHeight state + 1 /\ h -i64 1 = st_LastBlockHeight state /\ st_InitialHeight state < h).
Proof.
  intros Hok Hpos ->. pose proof (co_height _ Hok) as Hh. pose proof (co_started _ Hok) as Hs. revert Hpos. unfold next_height.
  destruct (Z.eqb_spec (st_LastBlockHeight state) 0); [by left|]. intros Hpos. right.
  assert (Hlt : st_LastBlockHeight state < int64_max).
  { destruct (Z.eq_dec (st_LastBlockHeight state) int64_max) as [Em|]; [|lia]. rewrite Em in Hpos. vm_compute in Hpos. done. }
  assert (Hw : st_LastBlockHeight state +i64 1 = st_LastBlockHeight state + 1).
  { apply wrap64_id. unfold int64, int64_min, int64_max, two63 in *. lia. }
  rewrite Hw. split_and!; try lia. rewrite wrap64_id; [lia|]. unfold int64, int64_min, int64_max, two63 in *. lia.
Qed.

Lemma height_next state h :
  chain_ok state ->
  (if st_LastBlockHeight state =? 0 then h = st_InitialHeight state else 0 < st_LastBlockHeight state -> h = st_LastBlockHeight state +i64 1) <->
  h = next_height state.
Proof.
  intros Hok. pose proof (co_height _ Hok). unfold next_height. destruct (Z.eqb_spec (st_LastBlockHeight state) 0); [done|].
  split; intros Hx; [apply Hx; lia|done].
Qed.

(** The checks of the commit and of the time, at the next height. *)
Lemma last_checks state h commit :
  chain_ok state -> 0 < h_Height h -> h_Height h = next_height state ->
  (validate_commit state h commit = Ok tt /\ validate_time state h commit = Ok tt) <->
  (if st_LastBlockHeight state =? 0 then c_Signatures commit = []
   else fst (VerifyCommit (st_ChainID state) (st_LastBlockID state) (st_LastBlockHeight state) (Some commit) (st_LastVoters state)) = Ok tt /\
        st_LastBlockTime state < MedianTime commit (st_LastVoters state)) /\
  h_Time h = if h_Height h =? st_InitialHeight state then st_LastBlockTime state else MedianTime commit (st_LastVoters state).
Proof.
  intros Hok Hpos Hn. unfold validate_commit, validate_time.
  destruct (next_height_cases state (h_Height h) Hok Hpos Hn) as [[-> ->]|(Hp & Hh & Hm & Hlt)].
  - rewrite !Z.eqb_refl, Z.ltb_irrefl, !guard_Ok, bool_decide_eq_false, negb_false_iff, Z.eqb_eq.
    destruct (decide (c_Signatures commit = [])); naive_solver.
  - rewrite Hm, (proj2 (Z.eqb_neq _ _)) by lia. rewrite (proj2 (Z.eqb_neq (st_LastBlockHeight state) 0)) by lia.
    rewrite (proj2 (Z.ltb_lt _ _) Hlt), lift_err_Ok, !guard_Ok, !negb_false_iff, Z.ltb_lt, Z.eqb_eq.
    split; [intros (? & ? & ? & _); split_and!; try done; lia|intros [[? ?] ?]; split_and!; try done; lia].
Qed.

(** A block is accepted exactly when its contents are fine and its header is
    the one the state makes of them. *)
Lemma validated_iff state round b :
  chain_ok state ->
  validateBlock state round b = Ok tt <->
  exists commit b', contents_ok state round b commit /\ rebuilt state b = Ok b' /\ same_header (b_Header b) (b_Header b').
Proof.
  intros Hok. rewrite validateBlock_iff. unfold rebuilt. split.
  - intros [commit [[Hb [Hc Hcv] Hch Hd He Heh] Hm Hvc Hmem Ht Hsz Hp]].
    pose proof (Header_height _ Hb) as Hpos. pose proof (proj1 (height_next _ _ Hok) (hm_height _ _ Hm)) as Hn.
    destruct (proj1 (last_checks _ _ _ Hok Hpos Hn) (conj Hvc Ht)) as [Hl Htime].
    apply validate_proposer_iff in Hp as [Hr Hp]. exists commit. eexists. split; [by constructor|]. rewrite Hc. split.
    + apply State_block_Ok. repeat eexists; [exact Hch|exact Heh|apply Hm..].
    + unfold same_header. cbn. destruct Hm. by split_and!.
  - intros (commit & b' & [Hn Hb [Hc Hcv] He Hsz Hl Hr Hp] & Hb' & Hsame). exists commit. rewrite Hc in Hb'.
    apply State_block_Ok in Hb' as (ch & eh & vh & vah & nh & Hch & Heh & Hvh & Hvah & Hnh & ->).
    unfold same_header in Hsame. cbn in Hsame. destruct Hsame as (? & ? & _ & Ht & ? & Elc & Ed & Ev & Eva & En & ? & ? & ? & Ee & _).
    pose proof (Header_height _ Hb) as Hpos. destruct (proj2 (last_checks _ _ commit Hok Hpos Hn) (conj Hl Ht)) as [Hvc Hvt].
    constructor; try done.
    + constructor; try done; [by rewrite Elc|by rewrite Ee].
    + constructor; try done; [by apply height_next|by rewrite Ev|by rewrite Eva|by rewrite En].
    + by apply proved_member.
    + by apply validate_proposer_iff.
Qed.

End accepted.

(** ** The chain of blocks *)

Section history.
  Context {crypto : CryptoLib} {codec : TimeCodec} {wrappers : WrapperLib} {vrf : VrfLib}.

(** Blocks accepted and executed one after the other from [s0], each under the
    identifier it was decided with. *)
Inductive chain (s0 : ChainState) : list (Block * BlockID) -> ChainState -> Prop :=
| chain_start : chain s0 [] s0
| chain_block l s round b id txs params updates s' appHash :
    chain s0 l s -> validateBlock s round b = Ok tt -> fits (updated_set s updates) ->
    updateState s id (b_Header b) txs params updates = Ok s' -> chain s0 (l ++ [(b, id)]) (with_AppHash s' appHash).

(** What ties a block to the one before it. *)
Record linked (chainID : bytes) (b : Block) (id : BlockID) (b' : Block) : Prop := {
  lk_height : h_Height (b_Header b') = h_Height (b_Header b) + 1;
  lk_id : h_LastBlockID (b_Header b') = id;
  lk_time : h_Time (b_Header b) < h_Time (b_Header b');
  lk_validators : h_ValidatorsHash (b_Header b') = h_NextValidatorsHash (b_Header b);
  lk_commit : exists commit voters,
    b_LastCommit b' = Some commit /\ Voters_Hash (E:=block_error) voters = Ok (h_VotersHash (b_Header b)) /\ voters_wf voters /\
    Voters voters <> [] /\ fst (VerifyCommit chainID id (h_Height (b_Header b)) (Some commit) voters) = Ok tt
}.

(** The state after its last block. *)
Record after (s : ChainState) (b : Block) (id : BlockID) : Prop := {
  af_height : st_LastBlockHeight s = h_Height (b_Header b) /\ 0 < st_LastBlockHeight s;
  af_id : st_LastBlockID s = id;
  af_time : st_LastBlockTime s = h_Time (b_Header b);
  af_validators : Validators_Hash (E:=block_error) (st_Validators s) = Ok (h_NextValidatorsHash (b_Header b));
  af_voters : Voters_Hash (E:=block_error) (st_LastVoters s) = Ok (h_VotersHash (b_Header b)) /\ Voters (st_LastVoters s) <> []
}.

Lemma with_AppHash_ok s appHash : chain_ok s -> chain_ok (with_AppHash s appHash).
Proof. intros []. by constructor. Qed.

Lemma accepted_height s round b :
  chain_ok s -> validateBlock s round b = Ok tt ->
  (st_LastBlockHeight s = 0 /\ h_Height (b_Header b) = st_InitialHeight s) \/
  (0 < st_LastBlockHeight s /\ h_Height (b_Header b) = st_LastBlockHeight s + 1 /\ st_InitialHeight s < h_Height (b_Header b)).
Proof.
  intros Hok (commit & b' & Hc & _)%(validated_iff _ _ _ Hok).
  destruct (next_height_cases s (h_Height (b_Header b)) Hok (Header_height _ (ct_basic _ _ _ _ Hc)) (ct_height _ _ _ _ Hc)); naive_solver.
Qed.

(** One block: the invariant and the state after it. *)
Lemma executed_ok s round b id txs params updates s' appHash :
  chain_ok s -> validateBlock s round b = Ok tt -> fits (updated_set s updates) ->
  updateState s id (b_Header b) txs params updates = Ok s' ->
  chain_ok (with_AppHash s' appHash) /\ after (with_AppHash s' appHash) b id /\
  st_ChainID s' = st_ChainID s /\ st_InitialHeight s' = st_InitialHeight s.
Proof.
  intros Hok Hv Hf Hu. pose proof (co_initial _ Hok) as Hi.
  assert (Hr : 0 < h_Height (b_Header b) /\ st_InitialHeight s <= h_Height (b_Header b) <= int64_max).
  { pose proof (proj1 (validated_iff s round b Hok) Hv) as (commit & b' & Hc & _). pose proof (ct_height _ _ _ _ Hc) as Hn.
    destruct (accepted_height _ _ _ Hok Hv) as [[? ?]|(? & ? & ?)]; [lia|]. split; [lia|]. split; [lia|]. rewrite Hn. unfold next_height.
    rewrite (proj2 (Z.eqb_neq _ _)) by lia. apply wrap64_range. }
  destruct Hr as [Hpos Hr]. apply validateBlock_iff in Hv as [commit Ha]. pose proof (ac_header _ _ _ _ Ha) as Hm.
  destruct (updateState_cases s id (b_Header b) txs params updates Hok Hf Hr) as [(_ & s1 & Hs & Hok' & Hex)|(_ & e & He)]; [|congruence].
  rewrite Hs in Hu. injection Hu as ->. destruct Hex as [E1 E2 E3 _ E4 E5 _ _ _ _ (E6 & E7 & _)]. split; [by apply with_AppHash_ok|]. split; [|done].
  constructor; cbn; [lia|done|done|rewrite E4; apply Hm|rewrite E5; split; [apply Hm|apply Hok]].
Qed.

(** The next block is linked to the last one. *)
Lemma accepted_linked s round b id b' :
  chain_ok s -> after s b id -> validateBlock s round b' = Ok tt -> linked (st_ChainID s) b id b'.
Proof.
  intros Hok [[Hh Hpos] Hid Ht Hva [Hvo Hne]] Hv. destruct (accepted_height _ _ _ Hok Hv) as [[? ?]|(_ & Hn & Hlt)]; [lia|].
  pose proof (proj1 (validated_iff _ _ _ Hok) Hv) as (commit & b'' & Hc & _). apply validateBlock_iff in Hv as [commit' Ha].
  pose proof (ct_last _ _ _ _ Hc) as Hl. rewrite (proj2 (Z.eqb_neq _ _)) in Hl by lia. destruct Hl as [Hl Htime].
  destruct (ac_header _ _ _ _ Ha) as [_ _ _ Hlast _ _ _ _ Hvals _]. constructor.
  - lia.
  - by rewrite Hlast.
  - pose proof (ac_time _ _ _ _ Ha) as Hvt. unfold validate_time in Hvt. rewrite (proj2 (Z.ltb_lt _ _) Hlt), guard_Ok, negb_false_iff, Z.ltb_lt in Hvt. lia.
  - congruence.
  - exists commit, (st_LastVoters s). rewrite <- Hh, <- Hid. split; [apply Hc|]. split; [done|]. split; [apply Hok|]. done.
Qed.

Lemma chain_history s0 l s :
  chain_ok s0 -> st_LastBlockHeight s0 = 0 -> chain s0 l s ->
  chain_ok s /\ st_ChainID s = st_ChainID s0 /\ st_InitialHeight s = st_InitialHeight s0 /\
  match last l with None => s = s0 | Some (b, id) => after s b id end /\
  (forall i b id, l !! i = Some (b, id) -> h_Height (b_Header b) = st_InitialHeight s0 + Z.of_nat i) /\
  (forall i b id b' id', l !! i = Some (b, id) -> l !! S i = Some (b', id') -> linked (st_ChainID s0) b id b').
Proof.
  intros Hok0 Hz. induction 1 as [|l s round b id txs params updates s' appHash Hch IH Hv Hf Hu].
  { split_and!; try done. }
  destruct IH as (Hok & Ec & Ei & Hlast & Hh & Hl).
  destruct (executed_ok s round b id txs params updates s' appHash Hok Hv Hf Hu) as (Hok' & Haf & Ec' & Ei').
  split; [done|]. split; [by etrans|]. split; [by etrans|]. split; [by rewrite last_snoc|]. split.
  - intros i b0 id0 [[_ Hi]|[Hi Hb]]%lookup_snoc_Some; [by eapply Hh|]. injection Hb as <- <-. subst i.
    destruct (accepted_height _ _ _ Hok Hv) as [[Hz' Hn]|(Hp & Hn & _)]; destruct (last l) as [[b1 id1]|] eqn:El.
    + destruct Hlast as [[? ?] _ _ _ _]. lia.
    + apply last_None in El as ->. cbn. subst s. lia.
    + apply last_Some in El as [l' ->]. destruct Hlast as [[Hh1 _] _ _ _ _].
      pose proof (Hh (length l') b1 id1 (list_lookup_middle l' [] _ _ eq_refl)). rewrite length_app. cbn. lia.
    + subst s. lia.
  - intros i b0 id0 b' id' Hi [[_ Hi']|[Hi' Hb]]%lookup_snoc_Some.
    + apply lookup_snoc_Some in Hi as [[_ Hi]|[-> _]]; [by eapply Hl|]. apply lookup_lt_Some in Hi'. lia.
    + injection Hb as <- <-. apply lookup_snoc_Some in Hi as [[_ Hi]|[-> _]]; [|lia].
      rewrite last_lookup, <- Hi' in Hlast. cbn [pred] in Hlast. rewrite Hi in Hlast. rewrite <- Ec. by eapply accepted_linked.
Qed.

End history.

(** ** Genesis *)

Lemma NewValidatorSet_wf {E} valz vals : NewValidatorSet (E:=E) valz = Ok vals -> valset_wf vals.
Proof.
  unfold NewValidatorSet. fold empty_set. destruct (decide (valz = [])) as [->|Hne]; [intros [= <-]; apply empty_set_wf|].
  destruct (update_cases empty_set valz false empty_set_wf Hne) as [(_ & vals' & -> & Hup)|(_ & e & vals' & -> & _)]; [|done].
  intros [= <-]. apply Hup.
Qed.

Lemma VoterParams_Validate_Ok vp : VoterParams_Validate vp = Ok tt -> 0 <= MaxTolerableByzantinePercentage vp.
Proof. unfold VoterParams_Validate. rewrite !guard_Ok, orb_false_iff, !Z.leb_gt. lia. Qed.

(** A completed document. *)
Record completed (genDoc : GenesisDoc) : Prop := {
  cd_height : 0 < gd_InitialHeight genDoc;
  cd_params : exists p, gd_ConsensusParams genDoc = Some p /\ ValidateConsensusParams p = Ok tt;
  cd_voters : exists vp, gd_VoterParams genDoc = Some vp /\ 0 <= MaxTolerableByzantinePercentage vp
}.

Lemma ValidateAndComplete_Ok `{CryptoLib} now genDoc genDoc' :
  ValidateAndComplete now genDoc = Ok genDoc' -> completed genDoc' /\ gd_InitialHeight genDoc' <= Z.max 1 (gd_InitialHeight genDoc).
Proof.
  unfold ValidateAndComplete. rewrite !guard_Ok, Z.ltb_ge. intros (_ & _ & Hh & Hg).
  apply obind_Ok in Hg as (params & Hp & Hg). apply obind_Ok in Hg as (vp & Hv & Hg). apply obind_Ok in Hg as (vals & _ & [= <-]).
  split; [constructor; cbn|cbn]; [zcase; lia| | |zcase; lia].
  - exists params. split; [done|]. destruct (gd_ConsensusParams genDoc) as [p|]; [|by injection Hp as <-].
    rewrite seq_Ok, lift_err_Ok in Hp. by destruct Hp as [Hp [= <-]].
  - exists vp. split; [done|]. destruct (gd_VoterParams genDoc) as [p|]; [|by injection Hv as <-].
    rewrite seq_Ok in Hv. destruct Hv as [Hv [= <-]]. by apply VoterParams_Validate_Ok.
Qed.

Lemma genesis_ok `{CryptoLib} hash now genDoc s :
  MakeGenesisState hash now genDoc = Ok s -> Validators (st_Validators s) <> [] -> fits (st_Validators s) ->
  int64 (gd_InitialHeight genDoc) -> chain_ok s /\ st_LastBlockHeight s = 0.
Proof.
  unfold MakeGenesisState. intros Hg Hne Hf Hi. apply obind_Ok in Hg as (g & Hc & Hg). apply obind_Ok in Hg as (vals & _ & Hg).
  apply obind_Ok in Hg as (set & Hset & Hg). apply obind_Ok in Hg as (voters & Hv & [= <-]). cbn [st_Validators] in *.
  apply ValidateAndComplete_Ok in Hc as [[Hh (p & Ep & Hp) (vp & Evp & Hvp)] Hmax]. split; [|done].
  assert (Hs : set_ok set) by (constructor; [by eapply NewValidatorSet_wf|done..]). rewrite Evp in Hv. cbn in Hv.
  destruct (SelectVoter_wf (E:=genesis_error) set (hash g) vp Hs Hvp) as (voters' & Hv' & Hw & Hvne & _).
  rewrite Hv' in Hv. injection Hv as <-. constructor; cbn; try done.
  - constructor; cbn; [constructor|constructor|done|by left|done].
  - by rewrite Evp.
  - by rewrite Ep.
  - unfold int64, int64_min, int64_max, two63 in *. lia.
Qed.

(** ** A chain with two blocks *)

(** A random function that accepts every proof. *)
Definition toy_vrf : VrfLib := {| ECVRF_verify _ _ _ := Some true; ECVRF_decode_proof _ := true; ECVRF_proof2hash p := p |}.

Section toy_chain.
  #[local] Existing Instances toy_crypto toy_time toy_wrappers toy_vrf.

Definition toy_address (n : Z) : bytes := ok_or [] (PubKey_Address (E:=unit) (PubKeyEd25519 (key_of n))).

Definition toy_genesis : GenesisDoc :=
  mkGenesisDoc 100 [7] 1 None (Some ((fun n => mkGenesisValidator [] (PubKeyEd25519 (key_of n)) 10) <$> [1; 2; 3])) None [].

Definition no_state : ChainState :=
  mkChainState (mkVersion 0 0) [] 0 DefaultVoterParams 0 zero_BlockID 0 [] empty_set empty_set (mkVoterSet [] 0) (mkVoterSet [] 0) 0
    DefaultConsensusParams 0 [] [].

Definition no_block : Block := mkBlock (empty_header (mkVersion 0 0) 0) [] [] None.

Definition toy_start : ChainState := ok_or no_state (MakeGenesisState (fun _ => replicate 32 0) 100 toy_genesis).

(** The block of the proposer of round 0, with one transaction. *)
Definition toy_block (s : ChainState) (commit : Commit) : Block :=
  let height := next_height s in
  let proposer := match SelectProposer (E:=unit) (st_Validators s) (st_LastProofHash s) height 0 with Ok (v, _) => Address v | _ => [] end in
  ok_or no_block (State_block (E:=block_error) s height [[1; 2; 3]] (Some commit) [] proposer 0 (replicate ProofSize 5)).

Definition toy_id (b : Block) : BlockID :=
  mkBlockID (ok_or [] (Block_Hash (E:=unit) b))
    (PartSet_Header (match MakePartSet (E:=unit) b BlockPartSizeBytes with Ok parts => Some parts | _ => None end)).

(** The state after a block without updates. *)
Definition toy_next (s : ChainState) (b : Block) : ChainState :=
  ok_or no_state (updateState s (toy_id b) (b_Header b) [] None []).

(** A commit for a block; an entry has the number of its signer, the address it
    names and a time. *)
Definition toy_commit (b : Block) (entries : list (Z * bytes * Time)) : Commit :=
  let height := h_Height (b_Header b) in
  NewCommit height 0 (toy_id b)
    ((fun '(n, address, t) =>
        let msg := ok_or [] (VoteSignBytes (E:=unit) [7] (mkVote PrecommitType height 0 (toy_id b) t [] 0 None)) in
        mkCommitSig BlockIDFlagCommit address t (Some (Crypto.toy_sign (key_of n) msg))) <$> entries).

Definition first_block : Block := toy_block toy_start (NewCommit 0 0 zero_BlockID []).
Definition first_state : ChainState := toy_next toy_start first_block.
Definition named_entries : list (Z * bytes * Time) := [(1, toy_address 1, 1000); (2, toy_address 2, 101); (3, toy_address 3, 102)].
Definition second_block : Block := toy_block first_state (toy_commit first_block named_entries).

(** The same entries, two of which name nobody. *)
Definition misnamed_entries : list (Z * bytes * Time) :=
  [(1, toy_address 1, 1000); (2, replicate 20 77, 101); (3, replicate 20 77, 102)].
Definition forged_block : Block := toy_block first_state (toy_commit first_block misnamed_entries).

Lemma toy_start_made : MakeGenesisState (fun _ => replicate 32 0) 100 toy_genesis = Ok toy_start.
Proof. vm_compute. reflexivity. Qed.

Lemma toy_start_fits : fits (st_NextValidators toy_start).
Proof. split; vm_compute; done. Qed.

Lemma toy_start_ok : chain_ok toy_start.
Proof.
  apply (genesis_ok _ _ _ _ toy_start_made); [by vm_compute|exact toy_start_fits|]. split; vm_compute; done.
Qed.

Lemma toy_chain : chain toy_start [(first_block, toy_id first_block); (second_block, toy_id second_block)]
  (with_AppHash (toy_next (with_AppHash first_state []) second_block) []).
Proof.
  apply (chain_block _ [(first_block, toy_id first_block)] (with_AppHash first_state []) 0 _ _ [] None []);
    [|vm_compute; reflexivity|split; vm_compute; done|vm_compute; reflexivity].
  apply (chain_block _ [] toy_start 0 _ _ [] None []); [constructor|vm_compute; reflexivity|exact toy_start_fits|vm_compute; reflexivity].
Qed.

End toy_chain.

(** ** The theorems *)

(** C8: a block that was accepted leads to a well-formed state.  On a
    well-formed state, [updateState] never panics: it succeeds exactly when the
    changes of the validators are valid, the changed parameters are valid and the
    proof has a hash.  Then the new state is well formed again; its validators
    are the next ones of the old state, its last voters are the voters of the old
    state, and its voters are a safe election from its validators. *)
Theorem update_state_exact `{CryptoLib} `{VrfLib} state id h txs params updates :
  chain_ok state -> fits (updated_set state updates) -> st_InitialHeight state <= h_Height h <= int64_max ->
  let acceptable := updates_ok state updates /\ ValidateConsensusParams (params_updated state params) = Ok tt /\
    is_Some (ProofToHash (h_Proof h)) in
  (acceptable /\ exists s', updateState state id h txs params updates = Ok s' /\ chain_ok s' /\ executed state id h params updates s') \/
  (~ acceptable /\ exists e, updateState state id h txs params updates = Err e).
Proof. apply updateState_cases. Qed.

Lemma update_state_exact_witness :
  exists s', @updateState toy_crypto toy_vrf toy_start zero_BlockID (b_Header first_block) [] None [] = Ok s' /\ chain_ok s' /\
    @executed toy_crypto toy_vrf toy_start zero_BlockID (b_Header first_block) None [] s'.
Proof.
  destruct (@update_state_exact toy_crypto toy_vrf toy_start zero_BlockID (b_Header first_block) [] None [] toy_start_ok toy_start_fits)
    as [(_ & s' & Hs)|(_ & e & He)].
  - split; vm_compute; done.
  - by exists s'.
  - exfalso. revert He. vm_compute. done.
Defined.

(** C5: a block is accepted exactly when it is the block the state makes of its
    contents.  [validateBlock] accepts a block if and only if its contents
    (transactions, last commit, evidence, proposer, round and proof) satisfy
    the stated conditions and its header agrees in every field with the header
    [State.MakeBlock] fills in for these contents.  So the proposer has no freedom
    in the header beyond the contents, and an honest proposer's block is accepted
    by everybody in the same state. *)
Theorem block_valid_exact `{CryptoLib} `{TimeCodec} `{WrapperLib} `{VrfLib} state round b :
  chain_ok state ->
  validateBlock state round b = Ok tt <->
  exists commit b', contents_ok state round b commit /\ rebuilt state b = Ok b' /\ same_header (b_Header b) (b_Header b').
Proof. apply validated_iff. Qed.

Lemma block_valid_exact_witness :
  exists commit b', @contents_ok toy_crypto toy_time toy_wrappers toy_vrf toy_start 0 first_block commit /\
    @rebuilt toy_crypto toy_time toy_start first_block = Ok b' /\ same_header (b_Header first_block) (b_Header b').
Proof.
  apply (proj1 (@block_valid_exact toy_crypto toy_time toy_wrappers toy_vrf toy_start 0 first_block toy_start_ok)).
  vm_compute. reflexivity.
Defined.

(** C4: the blocks of a node form a chain.  From the state of a genesis
    document, whatever blocks are accepted and executed, the state stays well
    formed; the heights count up from the initial height; and each block after
    the first names the identifier of the one before, is later, has the
    validators the one before announced, and carries a commit for the one before
    that verifies against voters with the hash in its header. *)
Theorem chain_from_genesis `{CryptoLib} `{TimeCodec} `{WrapperLib} `{VrfLib} hash now genDoc s0 l s :
  MakeGenesisState hash now genDoc = Ok s0 -> Validators (st_Validators s0) <> [] -> fits (st_Validators s0) ->
  int64 (gd_InitialHeight genDoc) -> chain s0 l s ->
  chain_ok s /\
  (forall i b id, l !! i = Some (b, id) -> h_Height (b_Header b) = st_InitialHeight s0 + Z.of_nat i) /\
  (forall i b id b' id', l !! i = Some (b, id) -> l !! S i = Some (b', id') -> linked (st_ChainID s0) b id b').
Proof.
  intros Hg Hne Hf Hi Hch. destruct (genesis_ok _ _ _ _ Hg Hne Hf Hi) as [Hok Hz].
  destruct (chain_history s0 l s Hok Hz Hch) as (? & _ & _ & _ & ? & ?). done.
Qed.

Lemma chain_from_genesis_witness :
  @linked toy_crypto toy_time [7] first_block (toy_id first_block) second_block /\ h_Height (b_Header second_block) = 2.
Proof.
  destruct (@chain_from_genesis toy_crypto toy_time toy_wrappers toy_vrf _ _ _ _ _ _ toy_start_made ltac:(by vm_compute) toy_start_fits
    ltac:(split; vm_compute; done) toy_chain) as (_ & Hh & Hl).
  split; [exact (Hl 0%nat _ _ _ _ eq_refl eq_refl)|exact (Hh 1%nat _ _ eq_refl)].
Defined.

(** A proposer alone can set the time of a block.  The time of a block has
    to be the weighted median of the times in the last commit, but entries are
    weighed by the addresses they name, which are not signed and not compared
    with the voters.  Three voters with equal weights signed the first block at
    times 1000, 101 and 102: the honest block has time 102.  When the proposer
    renames the entries of the other two, the commit still verifies, only the
    proposer's entry counts, and the block with time 1000 is accepted. *)
Theorem block_time_forged :
  let validate := @validateBlock toy_crypto toy_time toy_wrappers toy_vrf first_state 0 in
  validate second_block = Ok tt /\ h_Time (b_Header second_block) = 102 /\
  validate forged_block = Ok tt /\ h_Time (b_Header forged_block) = 1000.
Proof. vm_compute. done. Qed.
