(* ===== verification/StateStore.v ===== *)
(** * The state store: src/state/store.go

    - [Save], [Load], [Bootstrap] and [PruneStates] of the database of states,
      with [LoadValidators], [LoadVoters] and [LoadConsensusParams] for the
      heights of the past;
    - the conversions of validators, sets and states to messages in
      src/types/validator.go, src/types/validator_set.go, src/types/voter_set.go
      and src/state/state.go.

    A key of the database is a prefix and a height, so the database is one map
    per prefix.  It holds messages; that the generated code decodes what it
    encoded and the failures of the database itself are left out. *)

From Stdlib Require Import ZArith Lia.
From stdpp Require Import prelude list gmap.
From S2P Require Import Prelude SafeMath Crypto Validator ValidatorSet Proto Block VoterSet Election Header.
From S2P Require Import Light ChainState.

Local Open Scope Z_scope.
Local Open Scope go_scope.

(** ** Messages *)

Record pbValidator := mk_pbValidator {
  pv_Address : bytes; pv_PubKey : PublicKey; pv_VotingPower : Z; pv_VotingWeight : Z; pv_ProposerPriority : Z
}.

Record pbValidatorSet := mk_pbValidatorSet { ps_Validators : list pbValidator; ps_TotalVotingPower : Z }.
Record pbVoterSet := mk_pbVoterSet { pw_Voters : list pbValidator; pw_TotalVotingWeight : Z }.

Inductive proto_error :=
| ErrKeyProto (e : key_error) | ErrNilProto | ErrSetProto (e : valset_error) | ErrVotersProto (e : voters_error)
| ErrBlockIDProto (e : basic_error).

(** A nil key has no type that [PubKeyToProto] knows. *)
Definition Validator_ToProto (v : Validator) : outcome proto_error pbValidator :=
  pk ← match vPubKey v with
       | None => Err (ErrKeyProto ErrKeyType)
       | Some k => lift_err ErrKeyProto (PubKeyToProto k)
       end;
  Ok (mk_pbValidator (Address v) pk (VotingPower v) (VotingWeight v) (ProposerPriority v)).

Definition ValidatorFromProto (vp : pbValidator) : outcome proto_error Validator :=
  pk ← lift_err ErrKeyProto (PubKeyFromProto (pv_PubKey vp));
  Ok (mkValidator (pv_Address vp) (Some pk) (pv_VotingPower vp) (pv_VotingWeight vp) (pv_ProposerPriority vp)).

Fixpoint all_ToProto (l : list Validator) : outcome proto_error (list pbValidator) :=
  match l with
  | [] => Ok []
  | v :: l => p ← Validator_ToProto v; ps ← all_ToProto l; Ok (p :: ps)
  end.

Fixpoint all_FromProto (l : list pbValidator) : outcome proto_error (list Validator) :=
  match l with
  | [] => Ok []
  | p :: l => v ← ValidatorFromProto p; vs ← all_FromProto l; Ok (v :: vs)
  end.

Definition ValidatorSet_ToProto (vals : ValidatorSet) : outcome proto_error pbValidatorSet :=
  if IsNilOrEmpty vals then Ok (mk_pbValidatorSet [] 0)
  else vp ← all_ToProto (Validators vals); Ok (mk_pbValidatorSet vp (totalVotingPower vals)).

Definition ValidatorSetFromProto (vp : option pbValidatorSet) : outcome proto_error ValidatorSet :=
  match vp with
  | None => Err ErrNilProto
  | Some vp =>
      vals ← all_FromProto (ps_Validators vp);
      let vals := mkValidatorSet vals (ps_TotalVotingPower vp) in
      _ ← lift_err ErrSetProto (ValidateBasicSet vals);
      Ok vals
  end.

Definition VoterSet_ToProto (voters : VoterSet) : outcome proto_error pbVoterSet :=
  if bool_decide (Voters voters = []) then Ok (mk_pbVoterSet [] 0)
  else vp ← all_ToProto (Voters voters); Ok (mk_pbVoterSet vp (totalVotingWeight voters)).

(** [Light.VoterSetFromProto] takes the converted voters. *)
Definition VoterSet_FromProto (vp : option pbVoterSet) : outcome proto_error VoterSet :=
  match vp with
  | None => Err ErrNilProto
  | Some vp => voters ← all_FromProto (pw_Voters vp); lift_err ErrVotersProto (VoterSetFromProto voters (pw_TotalVotingWeight vp))
  end.

(** [tmstate.State]. *)
Record pbState := mk_pbState {
  sp_Version : Consensus_Version; sp_ChainID : bytes; sp_InitialHeight : Z; sp_VoterParams : VoterParams;
  sp_LastBlockHeight : Z; sp_LastBlockID : BlockID; sp_LastBlockTime : Time; sp_LastProofHash : bytes;
  sp_NextValidators : pbValidatorSet; sp_Validators : pbValidatorSet; sp_Voters : pbVoterSet; sp_LastVoters : option pbVoterSet;
  sp_LastHeightValidatorsChanged : Z; sp_ConsensusParams : ConsensusParams; sp_LastHeightConsensusParamsChanged : Z;
  sp_LastResultsHash : bytes; sp_AppHash : bytes
}.

Definition State_ToProto (state : ChainState) : outcome proto_error pbState :=
  vals ← ValidatorSet_ToProto (st_Validators state);
  voters ← VoterSet_ToProto (st_Voters state);
  nVals ← ValidatorSet_ToProto (st_NextValidators state);
  lVoters ← (if 1 <=? st_LastBlockHeight state then v ← VoterSet_ToProto (st_LastVoters state); Ok (Some v) else Ok None);
  Ok (mk_pbState (st_Version state) (st_ChainID state) (st_InitialHeight state) (st_VoterParams state) (st_LastBlockHeight state)
        (st_LastBlockID state) (st_LastBlockTime state) (st_LastProofHash state) nVals vals voters lVoters
        (st_LastHeightValidatorsChanged state) (st_ConsensusParams state) (st_LastHeightConsensusParamsChanged state)
        (st_LastResultsHash state) (st_AppHash state)).

Definition State_FromProto (pb : pbState) : outcome proto_error ChainState :=
  lastBlockID ← lift_err ErrBlockIDProto (BlockIDFromProto (sp_LastBlockID pb));
  vals ← ValidatorSetFromProto (Some (sp_Validators pb));
  voters ← VoterSet_FromProto (Some (sp_Voters pb));
  nVals ← ValidatorSetFromProto (Some (sp_NextValidators pb));
  lVoters ← (if 1 <=? sp_LastBlockHeight pb then VoterSet_FromProto (sp_LastVoters pb) else Ok (mkVoterSet [] 0));
  Ok (mkChainState (sp_Version pb) (sp_ChainID pb) (sp_InitialHeight pb) (sp_VoterParams pb) (sp_LastBlockHeight pb)
        lastBlockID (sp_LastBlockTime pb) (sp_LastProofHash pb) nVals vals voters lVoters
        (sp_LastHeightValidatorsChanged pb) (sp_ConsensusParams pb) (sp_LastHeightConsensusParamsChanged pb)
        (sp_LastResultsHash pb) (sp_AppHash pb)).

(** ** The database *)

Record ValidatorsInfo := mkValidatorsInfo { vi_ValidatorSet : option pbValidatorSet; vi_LastHeightChanged : Z }.

(** The zero parameters stand for those of [LastHeightChanged]. *)
Record ConsensusParamsInfo := mkConsensusParamsInfo { ci_ConsensusParams : ConsensusParams; ci_LastHeightChanged : Z }.

Definition empty_params : ConsensusParams := mkConsensusParams 0 0 0 0 0 0 [] 0.

#[global] Instance ConsensusParams_eq_dec : EqDecision ConsensusParams.
Proof. solve_decision. Defined.

(** A response that never came is nil. *)
Record ABCIResponses := mkABCIResponses { ar_DeliverTxs : list (option ResponseDeliverTx); ar_EndBlock : EndBlockResponse }.

Record dbStore := mk_dbStore {
  db_validators : gmap Z ValidatorsInfo;
  db_voterParams : gmap Z VoterParams;
  db_proofHash : gmap Z bytes;
  db_consensusParams : gmap Z ConsensusParamsInfo;
  db_responses : gmap Z ABCIResponses;
  db_state : option pbState
}.

(** A single write. *)
Inductive db_op :=
| SetValidators (h : Z) (info : ValidatorsInfo) | DeleteValidators (h : Z)
| SetVoterParams (h : Z) (params : VoterParams) | DeleteVoterParams (h : Z)
| SetProofHash (h : Z) (hash : bytes) | DeleteProofHash (h : Z)
| SetConsensusParams (h : Z) (info : ConsensusParamsInfo) | DeleteConsensusParams (h : Z)
| SetResponses (h : Z) (r : ABCIResponses) | DeleteResponses (h : Z)
| SetState (state : pbState).

Definition db_apply (op : db_op) (db : dbStore) : dbStore :=
  let '(mk_dbStore vals vparams proofs params responses state) := db in
  match op with
  | SetValidators h info => mk_dbStore (<[h := info]> vals) vparams proofs params responses state
  | DeleteValidators h => mk_dbStore (delete h vals) vparams proofs params responses state
  | SetVoterParams h p => mk_dbStore vals (<[h := p]> vparams) proofs params responses state
  | DeleteVoterParams h => mk_dbStore vals (delete h vparams) proofs params responses state
  | SetProofHash h x => mk_dbStore vals vparams (<[h := x]> proofs) params responses state
  | DeleteProofHash h => mk_dbStore vals vparams (delete h proofs) params responses state
  | SetConsensusParams h info => mk_dbStore vals vparams proofs (<[h := info]> params) responses state
  | DeleteConsensusParams h => mk_dbStore vals vparams proofs (delete h params) responses state
  | SetResponses h r => mk_dbStore vals vparams proofs params (<[h := r]> responses) state
  | DeleteResponses h => mk_dbStore vals vparams proofs params (delete h responses) state
  | SetState s => mk_dbStore vals vparams proofs params responses (Some s)
  end.

Definition db_write (ops : list db_op) (db : dbStore) : dbStore := foldl (fun db op => db_apply op db) db ops.

Inductive store_error :=
| ErrNoValSetForHeight (h : Z) | ErrNoVoterParamsForHeight (h : Z) | ErrNoProofHashForHeight (h : Z)
| ErrNoABCIResponsesForHeight (h : Z) | ErrValidatorsNotFound (h : Z) | ErrParamsNotFound (h : Z) | ErrStoreProto (e : proto_error)
| ErrLastHeightChanged | ErrPruneHeights | ErrStoreGenesis (e : genesis_error).

Definition valSetCheckpointInterval : Z := 100000.

Definition lastStoredHeightFor (height lastHeightChanged : Z) : Z :=
  let checkpointHeight := height -i64 Z.rem height valSetCheckpointInterval in
  Z.max checkpointHeight lastHeightChanged.

(** A message of no bytes counts as missing. *)
Definition loadValidatorsInfo (db : dbStore) (height : Z) : option ValidatorsInfo :=
  match db_validators db !! height with
  | Some (mkValidatorsInfo None 0) | None => None
  | Some info => Some info
  end.

Definition loadVoterParams (db : dbStore) (height : Z) : option VoterParams :=
  match db_voterParams db !! height with
  | Some (mkVoterParams 0 0) | None => None
  | Some params => Some params
  end.

Definition loadProofHash (db : dbStore) (height : Z) : option bytes :=
  match db_proofHash db !! height with
  | Some [] | None => None
  | Some hash => Some hash
  end.

(** The part [LoadValidators] and [LoadVoters] share. *)
Definition load_set (db : dbStore) (height : Z) : outcome store_error ValidatorSet :=
  if height =? 0 then Err (ErrNoValSetForHeight height)
  else match loadValidatorsInfo db height with
       | None => Err (ErrNoValSetForHeight height)
       | Some valInfo =>
           set ← match vi_ValidatorSet valInfo with
                 | Some set => Ok set
                 | None =>
                     let lastStoredHeight := lastStoredHeightFor height (vi_LastHeightChanged valInfo) in
                     match loadValidatorsInfo db lastStoredHeight with
                     | Some (mkValidatorsInfo (Some set) _) =>
                         vs ← lift_err ErrStoreProto (ValidatorSetFromProto (Some set));
                         times ← SafeConvertInt32 (height -i64 lastStoredHeight);
                         vs ← IncrementProposerPriority vs times;
                         lift_err ErrStoreProto (ValidatorSet_ToProto vs)
                     | _ => Err (ErrValidatorsNotFound lastStoredHeight)
                     end
                 end;
           lift_err ErrStoreProto (ValidatorSetFromProto (Some set))
       end.

Definition LoadValidators (db : dbStore) (height : Z) : outcome store_error ValidatorSet := load_set db height.

Definition loadConsensusParamsInfo (db : dbStore) (height : Z) : option ConsensusParamsInfo := db_consensusParams db !! height.

Definition LoadConsensusParams (db : dbStore) (height : Z) : outcome store_error ConsensusParams :=
  match loadConsensusParamsInfo db height with
  | None => Err (ErrParamsNotFound height)
  | Some info =>
      if bool_decide (ci_ConsensusParams info = empty_params) then
        match loadConsensusParamsInfo db (ci_LastHeightChanged info) with
        | None => Err (ErrParamsNotFound (ci_LastHeightChanged info))
        | Some info2 => Ok (ci_ConsensusParams info2)
        end
      else Ok (ci_ConsensusParams info)
  end.

Definition LoadABCIResponses (db : dbStore) (height : Z) : outcome store_error ABCIResponses :=
  match db_responses db !! height with None => Err (ErrNoABCIResponsesForHeight height) | Some r => Ok r end.

(** ** Writing *)

Definition StoreM := GoM dbStore store_error.

Definition db_set (op : db_op) : StoreM unit := gmodify (db_apply op).

Definition saveValidatorsInfo (height lastHeightChanged : Z) (valSet : ValidatorSet) : StoreM unit :=
  if height <? lastHeightChanged then gfail ErrLastHeightChanged
  else
    set ← (if (height =? lastHeightChanged) || (Z.rem height valSetCheckpointInterval =? 0)
           then pv ← glift (lift_err ErrStoreProto (ValidatorSet_ToProto valSet)); mret (Some pv)
           else mret None);
    db_set (SetValidators height (mkValidatorsInfo set lastHeightChanged)).

Definition saveConsensusParamsInfo (nextHeight changeHeight : Z) (params : ConsensusParams) : StoreM unit :=
  db_set (SetConsensusParams nextHeight
            (mkConsensusParamsInfo (if changeHeight =? nextHeight then params else empty_params) changeHeight)).

Definition saveVoterParams (height : Z) (params : VoterParams) : StoreM unit := db_set (SetVoterParams height params).

Definition saveProofHash (height : Z) (proofHash : bytes) : StoreM unit := db_set (SetProofHash height proofHash).

(** [State.Bytes] panics on a state that has no message. *)
Definition State_Bytes {E} (state : ChainState) : outcome E pbState :=
  match State_ToProto state with Ok pb => Ok pb | _ => Panic end.

(** The writes [save] and [Bootstrap] end with. *)
Definition save_rest (nextHeight : Z) (state : ChainState) : StoreM unit :=
  saveConsensusParamsInfo nextHeight (st_LastHeightConsensusParamsChanged state) (st_ConsensusParams state);;
  saveVoterParams nextHeight (st_VoterParams state);;
  saveProofHash nextHeight (st_LastProofHash state);;
  pb ← glift (State_Bytes state);
  db_set (SetState pb).

Definition save (state : ChainState) : StoreM unit :=
  let nextHeight := st_LastBlockHeight state +i64 1 in
  nextHeight ← (if nextHeight =? 1 then
                  let nextHeight := st_InitialHeight state in
                  saveValidatorsInfo nextHeight nextHeight (st_Validators state);; mret nextHeight
                else mret nextHeight);
  saveValidatorsInfo (nextHeight +i64 1) (st_LastHeightValidatorsChanged state) (st_NextValidators state);;
  save_rest nextHeight state.

Definition Bootstrap (state : ChainState) : StoreM unit :=
  let height := st_LastBlockHeight state +i64 1 in
  let height := if height =? 1 then st_InitialHeight state else height in
  saveValidatorsInfo height height (st_Validators state);;
  saveValidatorsInfo (height +i64 1) (height +i64 1) (st_NextValidators state);;
  save_rest height state.

(** Nil responses are dropped, also from the responses of the caller. *)
Definition strip_responses (r : ABCIResponses) : ABCIResponses :=
  mkABCIResponses (Some <$> omap id (ar_DeliverTxs r)) (ar_EndBlock r).

Definition SaveABCIResponses (height : Z) (r : ABCIResponses) : StoreM ABCIResponses :=
  let r := strip_responses r in
  db_set (SetResponses height r);; mret r.

(** An empty database gives the empty state, [None]. *)
Definition Load (db : dbStore) : outcome store_error (option ChainState) :=
  match db_state db with
  | None => Ok None
  | Some pb => s ← lift_err ErrStoreProto (State_FromProto pb); Ok (Some s)
  end.

(** ** Pruning *)

(** What the loop of [PruneStates] does with one height. *)
Definition prune_validators (db : dbStore) (keep : bool) (h : Z) : outcome store_error (list db_op) :=
  if keep then
    match loadValidatorsInfo db h with
    | Some (mkValidatorsInfo (Some _) _) => Ok []
    | v =>
        vip ← LoadValidators db h;
        pvi ← lift_err ErrStoreProto (ValidatorSet_ToProto vip);
        match v with
        | None => Panic
        | Some _ => Ok [SetValidators h (mkValidatorsInfo (Some pvi) h)]
        end
    end
  else Ok [DeleteValidators h; DeleteVoterParams h; DeleteProofHash h].

Definition prune_params (db : dbStore) (keep : bool) (h : Z) : outcome store_error (list db_op) :=
  if keep then
    match loadConsensusParamsInfo db h with
    | None => Err (ErrParamsNotFound h)
    | Some p =>
        if bool_decide (ci_ConsensusParams p = empty_params) then
          params ← LoadConsensusParams db h;
          Ok [SetConsensusParams h (mkConsensusParamsInfo params h)]
        else Ok []
    end
  else Ok [DeleteConsensusParams h].

(** [n] heights are left; the batch is written after every 1000. *)
Fixpoint prune_loop (n : nat) (h : Z) (keepVals keepParams : list Z) (batch : list db_op) (pruned : Z) : StoreM unit :=
  match n with
  | O => gmodify (db_write batch)
  | S n =>
      db ← gget;
      vals ← glift (prune_validators db (bool_decide (h ∈ keepVals)) h);
      params ← glift (prune_params db (bool_decide (h ∈ keepParams)) h);
      let batch := batch ++ vals ++ params ++ [DeleteResponses h] in
      let pruned := pruned + 1 in
      if Z.rem pruned 1000 =? 0 then gmodify (db_write batch);; prune_loop n (h - 1) keepVals keepParams [] pruned
      else prune_loop n (h - 1) keepVals keepParams batch pruned
  end.

Definition PruneStates (from to : Z) : StoreM unit :=
  if (from <=? 0) || (to <=? 0) then gfail ErrPruneHeights
  else if to <=? from then gfail ErrPruneHeights
  else
    db ← gget;
    match loadValidatorsInfo db to, loadConsensusParamsInfo db to with
    | None, _ => gfail (ErrValidatorsNotFound to)
    | _, None => gfail (ErrParamsNotFound to)
    | Some valInfo, Some paramsInfo =>
        let keepVals := match vi_ValidatorSet valInfo with
                        | None => [vi_LastHeightChanged valInfo; lastStoredHeightFor to (vi_LastHeightChanged valInfo)]
                        | Some _ => []
                        end in
        let keepParams := if bool_decide (ci_ConsensusParams paramsInfo = empty_params) then [ci_LastHeightChanged paramsInfo] else [] in
        prune_loop (Z.to_nat (to - from)) (to - 1) keepVals keepParams [] 0
    end.

Section voters.
  Context {crypto : CryptoLib}.

(** The validators, the voters, the parameters and the hash. *)
Definition LoadVoters (db : dbStore) (height : Z) (voterParams : option VoterParams)
  : outcome store_error (ValidatorSet * VoterSet * VoterParams * bytes) :=
  vip ← load_set db height;
  params ← match voterParams with
           | Some p => Ok p
           | None => match loadVoterParams db height with Some p => Ok p | None => Err (ErrNoVoterParamsForHeight height) end
           end;
  match loadProofHash db height with
  | None => Err (ErrNoProofHashForHeight height)
  | Some proofHash => voters ← SelectVoter vip proofHash params; Ok (vip, voters, params, proofHash)
  end.

Definition LoadFromDBOrGenesisDoc (GenesisDoc_Hash : GenesisDoc -> bytes) (now : Time) (db : dbStore) (genesisDoc : GenesisDoc)
  : outcome store_error ChainState :=
  state ← Load db;
  match state with
  | Some state => Ok state
  | None => lift_err ErrStoreGenesis (MakeGenesisState GenesisDoc_Hash now genesisDoc)
  end.

End voters.
