(* ===== verification/StateProps.v ===== *)
(** * The state store remembers the chain

    The validators, the voters and the parameters loaded for a height of the
    past are those the state had at that height, up to the priorities of the
    validators, and pruning loses nothing at or above its bound. *)

From Stdlib Require Import ZArith Lia.
From stdpp Require Import prelude list gmap.
From S2P Require Import Prelude SafeMath Crypto Rand Validator ValidatorSet ValidatorLists ValidatorSetPriority.
From S2P Require Import ValidatorSetUpdate Proto Block VoterSet VerifyCommit Election Header Light ChainState ChainProps StateStore.

Local Open Scope Z_scope.
Local Open Scope go_scope.

(** ** Sets up to priorities *)

Definition erase (v : Validator) : Validator := set_priority v 0.

Lemma same_but_priority_erase l l' : same_but_priority l l' <-> erase <$> l' = erase <$> l.
Proof.
  split.
  - induction 1 as [|v v' l l' Hv _ IH]; [done|]. rewrite !fmap_cons, IH, Hv. by destruct v.
  - revert l'. induction l as [|v l IH]; intros [|v' l'] Heq; try done; [by constructor|].
    rewrite !fmap_cons in Heq. injection Heq as Ev El. constructor; [|by apply IH]. destruct v, v'. unfold erase, set_priority in *. cbn in *. congruence.
Qed.

(** Two sets that differ in priorities only. *)
Definition same_set (v w : ValidatorSet) : Prop := same_but_priority (Validators v) (Validators w).

#[global] Instance same_set_equiv : Equivalence same_set.
Proof.
  split.
  - intros v. apply same_but_priority_refl.
  - intros v w. unfold same_set. rewrite !same_but_priority_erase. done.
  - intros u v w. apply same_but_priority_trans.
Qed.

Definition same_voters (v w : VoterSet) : Prop :=
  same_but_priority (Voters v) (Voters w) /\ totalVotingWeight v = totalVotingWeight w.

(** *** Electing voters does not look at priorities *)

(** The result of a computation, mapped, with the errors renamed. *)
Definition omapo {E E' A B} (g : E -> E') (f : A -> B) (o : outcome E A) : outcome E' B :=
  match o with Ok a => Ok (f a) | Err e => Err (g e) | Panic => Panic end.

Lemma omapo_bind {E E' A A' B B'} (g : E -> E') (f : A -> A') (h : B -> B') (o : outcome E A) k k' :
  (forall a, k' (f a) = omapo g h (k a)) -> (omapo g f o ≫= k') = omapo g h (o ≫= k).
Proof. intros Hk. destruct o; cbn; auto. Qed.

Lemma insert_by_fmap {A B} (f : A -> B) lessA lessB x l :
  (forall a b, lessB (f a) (f b) = lessA a b) -> insert_by lessB (f x) (f <$> l) = f <$> insert_by lessA x l.
Proof.
  intros Hl. induction l as [|y l IH]; [done|]. rewrite fmap_cons. cbn [insert_by]. rewrite Hl.
  destruct (lessA y x); rewrite !fmap_cons; [by rewrite IH|done].
Qed.

Lemma sort_by_fmap {A B} (f : A -> B) lessA lessB l :
  (forall a b, lessB (f a) (f b) = lessA a b) -> sort_by lessB (f <$> l) = f <$> sort_by lessA l.
Proof.
  intros Hl. induction l as [|x l IH]; [done|]. rewrite fmap_cons. cbn [sort_by foldr] in *. unfold sort_by in IH.
  rewrite IH. by apply insert_by_fmap.
Qed.

Lemma rev_fmap {A B} (f : A -> B) (l : list A) : rev (f <$> l) = f <$> rev l.
Proof. induction l as [|x l IH]; [done|]. rewrite fmap_cons. cbn [rev]. by rewrite IH, fmap_app. Qed.

Definition erase_voter (v : voter) : voter := mkvoter (erase (val v)) (winPoint v).
Definition erase_voters (w : VoterSet) : VoterSet := mkVoterSet (erase <$> Voters w) (totalVotingWeight w).

Section erasing.
  Context {E E' : Type} (g : E -> E').

Lemma elect_scan_erase c t cum i :
  elect_scan (erase <$> c) t cum i = omapo g (fun '(i, v) => (i, erase v)) (elect_scan c t cum i).
Proof. revert cum i. induction c as [|v c IH]; intros cum i; [done|]. rewrite fmap_cons. cbn [elect_scan]. rewrite IH. cbn. by destruct (_ <? _). Qed.

Lemma electVoter_erase seed c n total :
  electVoter seed (erase <$> c) n total = omapo g (fun '(i, v, s) => (i, erase v, s)) (electVoter seed c n total).
Proof.
  unfold electVoter. destruct (RandomThreshold seed (wrapu64 total)) as [t s]. rewrite lenZ_fmap. destruct (_ || _); [done|].
  rewrite <- fmap_take, elect_scan_erase. apply omapo_bind. by intros [i v].
Qed.

Lemma getTotal_erase l : getTotalVotingPower (erase <$> l) = getTotalVotingPower l.
Proof. unfold getTotalVotingPower. generalize 0 as acc. induction l as [|v l IH]; intros acc; [done|]. apply IH. Qed.

Lemma move_erase c w : moveWinnerToLast (erase <$> c) w = omapo g (fmap erase) (moveWinnerToLast c w).
Proof.
  unfold moveWinnerToLast. rewrite list_lookup_fmap. destruct (c !! w); cbn; [|done].
  by rewrite <- fmap_take, <- fmap_drop, !fmap_app.
Qed.

Lemma top_erase l t p w : top_loop (erase_voter <$> l) t p w = top_loop l t p w.
Proof. revert p w. induction l as [|v l IH]; intros p w; [done|]. rewrite fmap_cons. cbn [top_loop]. rewrite IH. done. Qed.

Lemma zeros_erase l z : trailing_zeros (erase <$> l) z = omapo g id (trailing_zeros l z).
Proof. revert z. induction l as [|v l IH]; intros z; [done|]. rewrite fmap_cons. cbn [trailing_zeros]. rewrite IH. cbn. by destruct (_ =? 0). Qed.

Lemma big_div_map a b : big_div a b = omapo g id (big_div a b).
Proof. unfold big_div. by destruct (b =? 0). Qed.

Lemma accumulate_erase p l : accumulateWinPoints p (erase_voter <$> l) = omapo g (fmap erase_voter) (accumulateWinPoints p l).
Proof.
  induction l as [|v l IH]; [done|]. rewrite fmap_cons. cbn [accumulateWinPoints]. rewrite big_div_map. apply omapo_bind. intros a.
  rewrite IH. by apply omapo_bind.
Qed.

Lemma assign_erase T W l acc :
  assign_weights T W (erase_voter <$> l) acc = omapo g (fun '(l, t) => (erase_voter <$> l, t)) (assign_weights T W l acc).
Proof.
  revert acc. induction l as [|v l IH]; intros acc; [done|]. rewrite fmap_cons. cbn [assign_weights]. rewrite big_div_map.
  apply omapo_bind. intros a. rewrite big_div_map. apply omapo_bind. intros w. cbn zeta. rewrite IH. apply omapo_bind. by intros [r t].
Qed.

Lemma sortVoters_erase l : sortVoters (erase_voter <$> l) = erase_voter <$> sortVoters l.
Proof. by apply sort_by_fmap. Qed.

Lemma points_erase (l : list voter) : winPoint <$> (erase_voter <$> l) = winPoint <$> l.
Proof. by rewrite <- list_fmap_compose. Qed.

Lemma elect_loop_erase fuel T t m z seed c voters losers :
  elect_loop fuel T t m z seed (erase <$> c) (erase_voter <$> voters) losers =
  omapo g (fmap erase) (elect_loop fuel T t m z seed c voters losers).
Proof.
  revert seed c voters losers. induction fuel as [|fuel IH]; intros seed c voters losers; [done|]. cbn [elect_loop].
  rewrite accumulate_erase. apply omapo_bind. intros vs. rewrite lenZ_fmap, electVoter_erase. apply omapo_bind. intros [[i w] s].
  rewrite move_erase. apply omapo_bind. intros c'. cbn zeta.
  change [mkvoter (erase w) precisionForSelection] with (erase_voter <$> [mkvoter w precisionForSelection]). rewrite <- fmap_app.
  rewrite points_erase, assign_erase. apply omapo_bind. intros [vs2 tot]. rewrite sortVoters_erase, !lenZ_fmap.
  replace (if m <=? lenZ vs2 then erase_voter <$> sortVoters vs2 else erase_voter <$> vs2)
    with (erase_voter <$> (if m <=? lenZ vs2 then sortVoters vs2 else vs2)) by (by destruct (m <=? lenZ vs2)).
  set (vs3 := if m <=? lenZ vs2 then sortVoters vs2 else vs2). rewrite !lenZ_fmap. unfold getTopByzantineVotingWeight. rewrite top_erase.
  destruct (_ && _).
  { cbn [omapo]. by rewrite <- !list_fmap_compose. }
  destruct (_ =? _); [|apply IH]. cbn [omapo]. by rewrite <- !list_fmap_compose.
Qed.

Lemma sum_weight_erase l acc : sum_weight (erase <$> l) acc = omapo g id (sum_weight l acc).
Proof.
  revert acc. induction l as [|v l IH]; intros acc; [done|]. rewrite fmap_cons. cbn [sum_weight]. rewrite IH. cbn.
  by destruct (_ <? _).
Qed.

Lemma wrap_erase l : WrapValidatorsToVoterSet (erase <$> l) = omapo g erase_voters (WrapValidatorsToVoterSet l).
Proof.
  unfold WrapValidatorsToVoterSet, updateTotalVotingWeight. cbn [Voters].
  rewrite (sort_by_fmap erase less_by_power less_by_power) by done. rewrite sum_weight_erase. by apply omapo_bind.
Qed.

Lemma everyone_erase (l : list Validator) :
  (fun v => set_weight v (VotingPower v)) <$> filter (fun v => VotingPower v <> 0) (erase <$> l) =
  erase <$> ((fun v => set_weight v (VotingPower v)) <$> filter (fun v => VotingPower v <> 0) l).
Proof.
  induction l as [|v l IH]; [done|]. rewrite fmap_cons, !filter_cons. cbn [erase set_priority VotingPower].
  destruct (decide (VotingPower v <> 0)); [|done]. rewrite !fmap_cons, IH. done.
Qed.

Lemma SelectVoter_erase vals hash params :
  SelectVoter (mkValidatorSet (erase <$> Validators vals) 0) hash params = omapo g erase_voters (SelectVoter vals hash params).
Proof.
  unfold SelectVoter. cbn [Validators]. rewrite lenZ_fmap. destruct (_ || _).
  - unfold ToVoterAll. rewrite everyone_erase. apply wrap_erase.
  - unfold electVotersNonDup. destruct (_ <=? _); [done|]. rewrite getTotal_erase. unfold sortValidators.
    rewrite (sort_by_fmap erase less_by_power less_by_power), rev_fmap, zeros_erase, length_fmap by done.
    rewrite (omapo_bind g id (fmap erase) (trailing_zeros (rev (sort_by less_by_power (Validators vals))) 0) (fun z =>
      elect_loop (length (sort_by less_by_power (Validators vals))) (getTotalVotingPower (Validators vals))
        (getTolerableByzantinePower (getTotalVotingPower (Validators vals)) (MaxTolerableByzantinePercentage params))
        (VoterElectionThreshold params) z (hashToSeed hash) (sort_by less_by_power (Validators vals)) []
        (getTotalVotingPower (Validators vals)))).
    + apply omapo_bind. intros l. apply wrap_erase.
    + intros z. apply (elect_loop_erase _ _ _ _ _ _ _ []).
Qed.

End erasing.

(** The voters of two sets that differ in priorities differ in priorities. *)
Lemma SelectVoter_same {E E'} vals vals' hash params voters :
  same_set vals vals' -> SelectVoter (E:=E) vals hash params = Ok voters ->
  exists voters', SelectVoter (E:=E') vals' hash params = Ok voters' /\ same_voters voters voters'.
Proof.
  unfold same_set. rewrite same_but_priority_erase. intros Heq Hv.
  pose proof (SelectVoter_erase (fun _ : E => tt) vals hash params) as H1.
  pose proof (SelectVoter_erase (fun _ : E' => tt) vals' hash params) as H2. rewrite Hv in H1. rewrite Heq, H1 in H2.
  destruct (SelectVoter vals' hash params) as [voters'| |]; [|done..]. exists voters'. split; [done|].
  injection H2 as Ev Et. split; [by apply same_but_priority_erase|done].
Qed.

(** ** Messages *)

(** A validator that has a message, and passes its check when it is read
    back. *)
Record storable (v : Validator) : Prop := {
  sv_key : exists k, vPubKey v = Some k /\ key_ok k;
  sv_address : length (Address v) = AddressSize
}.

Lemma storable_same l l' : same_but_priority l l' -> Forall storable l -> Forall storable l'.
Proof.
  induction 1 as [|v v' l l' Hv _ IH]; [done|]. rewrite !Forall_cons. intros [[Hk Ha] Hl]. split; [|by apply IH].
  rewrite Hv. by constructor.
Qed.

Lemma Validator_roundtrip v :
  storable v -> exists p, Validator_ToProto v = Ok p /\ ValidatorFromProto p = Ok v.
Proof.
  intros [(k & Ek & Hk) _]. destruct (PubKey_roundtrip k Hk) as (pk & Hto & Hfrom). unfold Validator_ToProto. rewrite Ek, Hto.
  eexists. split; [done|]. unfold ValidatorFromProto. cbn. rewrite Hfrom. cbn. rewrite <- Ek. by destruct v.
Qed.

Lemma all_roundtrip l : Forall storable l -> exists ps, all_ToProto l = Ok ps /\ all_FromProto ps = Ok l.
Proof.
  induction 1 as [|v l Hv _ (ps & Hto & Hfrom)]; [by exists []|]. destruct (Validator_roundtrip v Hv) as (p & Hp & Hp').
  exists (p :: ps). cbn. by rewrite Hp, Hto, Hp', Hfrom.
Qed.

Lemma storable_valid v : storable v -> 0 <= VotingPower v -> ValidateBasic (Some v) = Ok tt.
Proof.
  intros [(k & Ek & _) Ha] Hp. unfold ValidateBasic. rewrite Ek, Ha, (proj2 (Z.ltb_ge _ _)) by done. done.
Qed.

Lemma storable_all l : Forall storable l -> Forall (fun v => 0 <= VotingPower v) l -> validate_all l = Ok tt.
Proof.
  induction 1 as [|v l Hv _ IH]; [done|]. rewrite Forall_cons. intros [Hp Hl]. cbn [validate_all].
  by rewrite (storable_valid v Hv Hp), IH.
Qed.

Lemma storable_voters l : Forall storable l -> Forall (fun v => 0 <= VotingPower v) l -> voters_validate l = Ok tt.
Proof.
  induction 1 as [|v l Hv _ IH]; [done|]. rewrite Forall_cons. intros [Hp Hl]. cbn [voters_validate].
  by rewrite (storable_valid v Hv Hp), IH.
Qed.

Lemma ValidatorSet_roundtrip vals :
  Validators vals <> [] -> Forall storable (Validators vals) -> Forall (fun v => 0 <= VotingPower v) (Validators vals) ->
  exists pb, ValidatorSet_ToProto vals = Ok pb /\ ValidatorSetFromProto (Some pb) = Ok vals.
Proof.
  intros Hne Hs Hp. destruct (all_roundtrip _ Hs) as (ps & Hto & Hfrom). unfold ValidatorSet_ToProto.
  rewrite IsNilOrEmpty_false, Hto by done. eexists. split; [done|]. cbn [ValidatorSetFromProto ps_Validators ps_TotalVotingPower].
  rewrite Hfrom. cbn [mbind outcome_bind]. unfold ValidateBasicSet. rewrite IsNilOrEmpty_false by done. cbn [Validators].
  rewrite storable_all by done. cbn. by destruct vals.
Qed.

Lemma VoterSet_roundtrip voters :
  Voters voters <> [] -> Forall storable (Voters voters) -> Forall (fun v => 0 <= VotingPower v) (Voters voters) ->
  exists pb, VoterSet_ToProto voters = Ok pb /\ VoterSet_FromProto (Some pb) = Ok voters.
Proof.
  intros Hne Hs Hp. destruct (all_roundtrip _ Hs) as (ps & Hto & Hfrom). unfold VoterSet_ToProto.
  rewrite bool_decide_eq_false_2, Hto by done. eexists. split; [done|]. cbn [VoterSet_FromProto pw_Voters pw_TotalVotingWeight].
  rewrite Hfrom. cbn [mbind outcome_bind]. unfold VoterSetFromProto, Voters_ValidateBasic. cbn [Voters].
  rewrite bool_decide_eq_false_2, storable_voters by done. cbn. by destruct voters.
Qed.

(** A state whose parts have messages. *)
Record state_storable (s : ChainState) : Prop := {
  ss_validators : Forall storable (Validators (st_Validators s));
  ss_next : Forall storable (Validators (st_NextValidators s));
  ss_voters : Forall storable (Voters (st_Voters s)) /\ Forall (fun v => 0 <= VotingPower v) (Voters (st_Voters s));
  ss_last : if st_LastBlockHeight s =? 0 then st_LastVoters s = mkVoterSet [] 0
            else Voters (st_LastVoters s) <> [] /\ Forall storable (Voters (st_LastVoters s)) /\
                 Forall (fun v => 0 <= VotingPower v) (Voters (st_LastVoters s));
  ss_id : BlockIDFromProto (st_LastBlockID s) = Ok (st_LastBlockID s)
}.

Lemma wf_power_nonneg vals : valset_wf vals -> Forall (fun v => 0 <= VotingPower v) (Validators vals).
Proof. intros Hwf. eapply Forall_impl; [apply Hwf|]. cbn. lia. Qed.

Lemma State_roundtrip s :
  chain_ok s -> state_storable s -> exists pb, State_ToProto s = Ok pb /\ State_FromProto pb = Ok s.
Proof.
  intros Hok [Hv Hn [Hw Hwp] Hl Hid]. pose proof (co_validators _ Hok) as [Hvwf Hvne _]. pose proof (co_next _ Hok) as [Hnwf Hnne _].
  destruct (ValidatorSet_roundtrip _ Hvne Hv (wf_power_nonneg _ Hvwf)) as (pv & Hpv & Hpv').
  destruct (ValidatorSet_roundtrip _ Hnne Hn (wf_power_nonneg _ Hnwf)) as (pn & Hpn & Hpn').
  destruct (VoterSet_roundtrip _ (proj2 (co_voters _ Hok)) Hw Hwp) as (pw & Hpw & Hpw').
  pose proof (co_height _ Hok) as Hh.
  assert (Hlast : exists pl, (if 1 <=? st_LastBlockHeight s then v ← VoterSet_ToProto (st_LastVoters s); Ok (Some v) else Ok None) = Ok pl /\
    (if 1 <=? st_LastBlockHeight s then VoterSet_FromProto pl else Ok (mkVoterSet [] 0)) = Ok (st_LastVoters s)).
  { destruct (Z.eqb_spec (st_LastBlockHeight s) 0) as [Ez|Enz].
    - rewrite Ez, Hl. by exists None.
    - rewrite (proj2 (Z.leb_le _ _)) by lia. destruct Hl as (Hlne & Hls & Hlp).
      destruct (VoterSet_roundtrip _ Hlne Hls Hlp) as (pl & Hpl & Hpl'). exists (Some pl). by rewrite Hpl. }
  destruct Hlast as (pl & Hpl & Hpl'). unfold State_ToProto. rewrite Hpv, Hpw, Hpn. cbn [mbind outcome_bind]. rewrite Hpl.
  eexists. split; [done|]. unfold State_FromProto. cbn [sp_LastBlockID sp_Validators sp_Voters sp_NextValidators sp_LastBlockHeight sp_LastVoters].
  rewrite Hid, Hpv', Hpw', Hpn'. cbn [mbind outcome_bind lift_err]. rewrite Hpl'. cbn. by destruct s.
Qed.

(** ** Validators of the past *)

(** The database has the whole set of a height. *)
Definition full (m : gmap Z ValidatorsInfo) (sets : Z -> ValidatorSet) (h : Z) : Prop :=
  exists pb changed v, m !! h = Some (mkValidatorsInfo (Some pb) changed) /\ ValidatorSetFromProto (Some pb) = Ok v /\
    set_ok v /\ Forall storable (Validators v) /\ same_set (sets h) v.

(** It has the set, or points to a height with the same set. *)
Definition stored (lo : Z) (m : gmap Z ValidatorsInfo) (sets : Z -> ValidatorSet) (h : Z) : Prop :=
  full m sets h \/
  exists changed, let last := lastStoredHeightFor h changed in
    m !! h = Some (mkValidatorsInfo None changed) /\ 0 < changed /\ lo <= last < h /\ h - last < valSetCheckpointInterval /\
    full m sets last /\ same_set (sets last) (sets h).

(** What the entries say of themselves: whether the value is there and when it
    changed last.  An entry has its value at the height of a change and at the
    multiples of [interval], and points to the last change otherwise. *)
Record linked_infos (lo top changed interval : Z) (f : Z -> option (bool * Z)) : Prop := {
  li_shape : forall h, lo <= h <= top -> exists b c, f h = Some (b, c) /\ lo <= c <= h /\ (b = true <-> h = c \/ Z.rem h interval = 0);
  li_mono : forall g h bg cg bh ch, lo <= g -> g <= h -> h <= top -> f g = Some (bg, cg) -> f h = Some (bh, ch) -> ch <= g -> cg = ch;
  li_top : exists b, f top = Some (b, changed)
}.

Lemma linked_extend lo top changed interval f changed' b f' :
  linked_infos lo top changed interval f -> lo <= top -> (forall h, h <> top + 1 -> f' h = f h) -> f' (top + 1) = Some (b, changed') ->
  lo <= changed' <= top + 1 -> (b = true <-> top + 1 = changed' \/ Z.rem (top + 1) interval = 0) ->
  changed' = changed \/ changed' = top + 1 -> linked_infos lo (top + 1) changed' interval f'.
Proof.
  intros [Hs Hm [bt Ht]] Hlo Hf Hn Hr Hb Hc. constructor.
  - intros h Hh. destruct (decide (h = top + 1)) as [->|]; [by exists b, changed'|]. rewrite Hf by done. apply Hs. lia.
  - intros g h bg cg bh ch Hg Hgh Hh Eg Eh Hle. destruct (decide (g = top + 1)) as [->|]; [assert (h = top + 1) as -> by lia; congruence|].
    rewrite Hf in Eg by done. destruct (decide (h = top + 1)) as [->|]; [|rewrite Hf in Eh by done; eapply (Hm g h); eauto; lia].
    rewrite Hn in Eh. injection Eh as <- <-. destruct Hc as [-> | ->]; [|lia]. eapply (Hm g top); eauto; lia.
  - by exists b.
Qed.

Lemma linked_single lo interval f : f lo = Some (true, lo) -> linked_infos lo lo lo interval f.
Proof.
  intros Hf. constructor; [|intros g h bg cg bh ch ? ? ? Eg Eh; assert (g = lo) as -> by lia; assert (h = lo) as -> by lia; congruence|by exists true].
  intros h Hh. assert (h = lo) as -> by lia. exists true, lo. split; [done|]. split; [lia|]. naive_solver.
Qed.

Definition info_at (info : ValidatorsInfo) : bool * Z := (bool_decide (is_Some (vi_ValidatorSet info)), vi_LastHeightChanged info).

(** The sets of the heights from [lo] to [top] are there, and [changed] is the
    last height with a change. *)
Record vals_stored (lo top changed : Z) (m : gmap Z ValidatorsInfo) (sets : Z -> ValidatorSet) : Prop := {
  vs_stored : forall h, lo <= h <= top -> stored lo m sets h;
  vs_check : forall h, lo <= h <= top -> Z.rem h valSetCheckpointInterval = 0 -> full m sets h;
  vs_changed : lo <= changed <= top /\ full m sets changed /\ forall h, changed <= h <= top -> same_set (sets changed) (sets h);
  vs_linked : linked_infos lo top changed valSetCheckpointInterval (fun h => info_at <$> m !! h)
}.

Lemma full_loaded m sets h : full m sets h -> exists pb changed, m !! h = Some (mkValidatorsInfo (Some pb) changed).
Proof. intros (pb & changed & v & Hm & _). eauto. Qed.

Lemma loadInfo_some db h info :
  db_validators db !! h = Some info -> vi_ValidatorSet info <> None \/ vi_LastHeightChanged info <> 0 -> loadValidatorsInfo db h = Some info.
Proof. unfold loadValidatorsInfo. intros ->. destruct info as [[set|] [|p|p]]; cbn; try done. by intros [|]. Qed.

Lemma load_full db sets h :
  full (db_validators db) sets h -> h <> 0 ->
  exists v, load_set db h = Ok v /\ set_ok v /\ Forall storable (Validators v) /\ same_set (sets h) v.
Proof.
  intros (pb & c & v & Hm & Hv & Hok & Hst & Hs) Hz. exists v. split; [|done]. unfold load_set. rewrite (proj2 (Z.eqb_neq _ _)) by done.
  rewrite (loadInfo_some _ _ _ Hm) by (by left). cbn [vi_ValidatorSet mbind outcome_bind]. by rewrite Hv.
Qed.

Lemma load_stored lo db sets h :
  stored lo (db_validators db) sets h -> 0 < lo -> lo <= h <= int64_max ->
  exists v, load_set db h = Ok v /\ set_ok v /\ Forall storable (Validators v) /\ same_set (sets h) v.
Proof.
  intros [Hf|(c & Hm & Hc & Hl & Hd & Hf & Hs)] Hlo Hh; [apply load_full; [done|lia]|]. set (last := lastStoredHeightFor h c) in *.
  unfold load_set. rewrite (proj2 (Z.eqb_neq _ _)) by lia. rewrite (loadInfo_some _ _ _ Hm) by (right; cbn; lia).
  cbn [vi_ValidatorSet vi_LastHeightChanged]. fold last. destruct Hf as (pb & c' & v & Hm' & Hv & Hok & Hst & Hsame).
  rewrite (loadInfo_some _ _ _ Hm') by (by left). rewrite Hv. cbn [lift_err mbind outcome_bind].
  assert (Hw : h -i64 last = h - last) by (apply wrap64_id; unfold int64, int64_min, int64_max in *; lia). rewrite Hw.
  assert (Hi : SafeConvertInt32 (E:=store_error) (h - last) = Ok (h - last)).
  { unfold SafeConvertInt32, valSetCheckpointInterval in *. unfold int32_max, int32_min. rewrite !(proj2 (Z.ltb_ge _ _)) by lia.
    f_equal. apply wrap32_id. unfold_ints. lia. }
  rewrite Hi. cbn [mbind outcome_bind]. destruct (increment_ok (E:=store_error) v (h - last) Hok ltac:(lia)) as (v' & -> & Hok' & Hs').
  cbn [mbind outcome_bind]. pose proof (storable_same _ _ Hs' Hst) as Hst'.
  destruct (ValidatorSet_roundtrip v') as (pb' & -> & Hb'); [apply Hok'|done|apply wf_power_nonneg, Hok'|].
  cbn [lift_err mbind outcome_bind]. exists v'. rewrite Hb'. split; [done|]. split; [done|]. split; [done|].
  etransitivity; [symmetry; exact Hs|]. etransitivity; [exact Hsame|exact Hs'].
Qed.

Lemma lastStored_cases h changed :
  0 < h <= int64_max -> changed < h -> Z.rem h valSetCheckpointInterval <> 0 ->
  let last := lastStoredHeightFor h changed in
  last < h /\ h - last < valSetCheckpointInterval /\ changed <= last /\
  (last = changed \/ Z.rem last valSetCheckpointInterval = 0).
Proof.
  intros Hh Hc Hr last. unfold last, lastStoredHeightFor. unfold valSetCheckpointInterval in *.
  pose proof (Z.rem_bound_pos h 100000 ltac:(lia) ltac:(lia)) as Hb.
  assert (Hle : Z.rem h 100000 <= h) by (rewrite Z.rem_mod_nonneg by lia; apply Z.mod_le; lia).
  rewrite wrap64_id by (unfold int64, int64_min, int64_max in *; lia).
  assert (Hm : Z.rem (h - Z.rem h 100000) 100000 = 0).
  { rewrite (Z.quot_rem' h 100000) at 1. replace (100000 * (h ÷ 100000) + Z.rem h 100000 - Z.rem h 100000) with ((h ÷ 100000) * 100000) by lia.
    apply Z.rem_mul. lia. }
  destruct (Z.max_spec (h - Z.rem h 100000) changed) as [[? ->]|[? ->]]; split_and!; lia.
Qed.

(** What [saveValidatorsInfo] writes. *)
Lemma saveInfo_Ok h changed V db db' :
  saveValidatorsInfo h changed V db = (Ok tt, db') ->
  changed <= h /\ exists set, db' = db_apply (SetValidators h (mkValidatorsInfo set changed)) db /\
    if (h =? changed) || (Z.rem h valSetCheckpointInterval =? 0)
    then exists pb, set = Some pb /\ ValidatorSet_ToProto V = Ok pb else set = None.
Proof.
  unfold saveValidatorsInfo. destruct (Z.ltb_spec h changed) as [|Hle]; [done|]. intros Hs. split; [done|].
  apply gbind_Ok in Hs as (set & db1 & Hset & Hdb). injection Hdb as <-. exists set.
  destruct (_ || _).
  - apply gbind_Ok in Hset as (pb & db2 & Hpb & [= <- <-]). unfold glift in Hpb. injection Hpb as Hpb <-.
    apply lift_err_Ok in Hpb. eauto.
  - by injection Hset as <- <-.
Qed.

Definition extend (sets : Z -> ValidatorSet) (h : Z) (V : ValidatorSet) : Z -> ValidatorSet := fun g => if g =? h then V else sets g.

Lemma full_mono m sets h info V g :
  g <> h -> full m sets g -> full (<[h := info]> m) (extend sets h V) g.
Proof.
  intros Hne (pb & c & v & Hm & Hrest). exists pb, c, v. rewrite lookup_insert_ne by done. split; [done|].
  unfold extend. by rewrite (proj2 (Z.eqb_neq _ _)) by done.
Qed.

Lemma stored_mono lo m sets h info V g :
  g < h -> stored lo m sets g -> stored lo (<[h := info]> m) (extend sets h V) g.
Proof.
  intros Hlt [Hf|(c & Hm & Hc & Hl & Hd & Hf & Hs)]; [left; apply full_mono; [lia|done]|]. right. exists c.
  rewrite lookup_insert_ne by lia. split_and!; try done; try lia; [apply full_mono; [lia|done]|].
  unfold extend. rewrite !(proj2 (Z.eqb_neq _ _)) by lia. done.
Qed.

Lemma saved_full m sets h V pb changed :
  ValidatorSet_ToProto V = Ok pb -> set_ok V -> Forall storable (Validators V) ->
  full (<[h := mkValidatorsInfo (Some pb) changed]> m) (extend sets h V) h.
Proof.
  intros Hpb Hok Hst. destruct (ValidatorSet_roundtrip V) as (pb' & Hto & Hfrom); [apply Hok|done|apply wf_power_nonneg, Hok|].
  assert (pb' = pb) as -> by congruence. exists pb, changed, V. rewrite lookup_insert_eq. split_and!; try done; [apply Hok..|].
  unfold extend. by rewrite Z.eqb_refl.
Qed.

(** One more height. *)
Lemma vals_extend lo top changed db db' sets changed' V :
  vals_stored lo top changed (db_validators db) sets -> 0 < lo -> top + 1 <= int64_max ->
  saveValidatorsInfo (top + 1) changed' V db = (Ok tt, db') -> set_ok V -> Forall storable (Validators V) ->
  (changed' = changed /\ same_set (sets changed) V) \/ changed' = top + 1 ->
  vals_stored lo (top + 1) changed' (db_validators db') (extend sets (top + 1) V).
Proof.
  intros [Hst Hck (Hcr & Hcf & Hcs) Hli] Hlo Htop Hsave Hok Hsv Hcase.
  apply saveInfo_Ok in Hsave as (Hle & set & -> & Hset). destruct db as [m vp pr cp rs st]. cbn [db_apply db_validators] in *.
  assert (Hnew : ((top + 1 =? changed') || (Z.rem (top + 1) valSetCheckpointInterval =? 0) = true ->
    full (<[top + 1 := mkValidatorsInfo set changed']> m) (extend sets (top + 1) V) (top + 1))).
  { intros Hb. rewrite Hb in Hset. destruct Hset as (pb & -> & Hpb). by apply saved_full. }
  constructor.
  - intros h Hh. destruct (decide (h = top + 1)) as [->|]; [|apply stored_mono; [lia|apply Hst; lia]].
    destruct (_ || _) eqn:Eb; [left; by apply Hnew|]. apply orb_false_iff in Eb as [Eb1%Z.eqb_neq Eb2%Z.eqb_neq]. subst set.
    destruct Hcase as [[-> HV]|]; [|done]. right. exists changed. rewrite lookup_insert_eq.
    destruct (lastStored_cases (top + 1) changed) as (H1 & H2 & H3 & H4); [lia|lia|done|]. cbn zeta.
    set (last := lastStoredHeightFor (top + 1) changed) in *. split_and!; try done; try lia.
    + apply full_mono; [lia|]. destruct H4 as [->|H4]; [done|]. apply Hck; [lia|done].
    + unfold extend. rewrite Z.eqb_refl, (proj2 (Z.eqb_neq _ _)) by lia. etransitivity; [symmetry; apply Hcs; lia|exact HV].
  - intros h Hh Hr. destruct (decide (h = top + 1)) as [->|]; [|apply full_mono; [lia|apply Hck; [lia|done]]].
    apply Hnew. rewrite Hr. by rewrite orb_true_r.
  - destruct Hcase as [[-> HV]| ->].
    + split; [lia|]. split; [apply full_mono; [lia|done]|]. intros h Hh. unfold extend.
      rewrite (proj2 (Z.eqb_neq changed _)) by lia. destruct (Z.eqb_spec h (top + 1)); [done|apply Hcs; lia].
    + split; [lia|]. split; [apply Hnew; by rewrite Z.eqb_refl|]. intros h Hh. assert (h = top + 1) as -> by lia. done.
  - eapply (linked_extend lo top changed); [exact Hli|lia|intros h Hh; by rewrite lookup_insert_ne|by rewrite lookup_insert_eq|lia| |naive_solver].
    cbn. rewrite bool_decide_eq_true. destruct (_ || _) eqn:Eb.
    + apply orb_true_iff in Eb as [Eb%Z.eqb_eq|Eb%Z.eqb_eq]; destruct Hset as (pb & -> & _); naive_solver.
    + apply orb_false_iff in Eb as [Eb1%Z.eqb_neq Eb2%Z.eqb_neq]. subst set. split; [by intros []|lia].
Qed.

(** ** Parameters of the past *)

Definition pfull (m : gmap Z ConsensusParamsInfo) (ps : Z -> ConsensusParams) (h : Z) : Prop :=
  ps h <> empty_params /\ exists changed, m !! h = Some (mkConsensusParamsInfo (ps h) changed).

Definition pinfo_at (info : ConsensusParamsInfo) : bool * Z :=
  (bool_decide (ci_ConsensusParams info <> empty_params), ci_LastHeightChanged info).

(** There is no interval: [Z.rem h 0] is [h]. *)
Record params_stored (lo top changed : Z) (m : gmap Z ConsensusParamsInfo) (ps : Z -> ConsensusParams) : Prop := {
  pst_stored : forall h, lo <= h <= top ->
    pfull m ps h \/ exists c, m !! h = Some (mkConsensusParamsInfo empty_params c) /\ c < h /\ pfull m ps c /\ ps c = ps h;
  pst_changed : lo <= changed <= top /\ pfull m ps changed /\ ps changed = ps top;
  pst_linked : linked_infos lo top changed 0 (fun h => pinfo_at <$> m !! h)
}.

Lemma load_params lo top changed db ps h :
  params_stored lo top changed (db_consensusParams db) ps -> lo <= h <= top -> LoadConsensusParams db h = Ok (ps h).
Proof.
  intros [Hst _ _] Hh. unfold LoadConsensusParams, loadConsensusParamsInfo. destruct (Hst h Hh) as [[Hne [c Hm]]|(c & Hm & _ & [_ [c' Hc]] & He)].
  - rewrite Hm. cbn. by rewrite bool_decide_eq_false_2.
  - rewrite Hm. cbn. rewrite Hc. cbn. by rewrite He.
Qed.

Definition pextend (ps : Z -> ConsensusParams) (h : Z) (p : ConsensusParams) : Z -> ConsensusParams := fun g => if g =? h then p else ps g.

Lemma pfull_mono m ps h info p g : g <> h -> pfull m ps g -> pfull (<[h := info]> m) (pextend ps h p) g.
Proof.
  intros Hne [Hp [c Hm]]. unfold pfull, pextend. rewrite (proj2 (Z.eqb_neq _ _)) by done. split; [done|]. exists c.
  by rewrite lookup_insert_ne by done.
Qed.

Lemma params_extend lo top changed m ps changed' p :
  params_stored lo top changed m ps -> 0 < lo -> p <> empty_params ->
  (changed' = changed /\ p = ps top) \/ changed' = top + 1 ->
  params_stored lo (top + 1) changed'
    (<[top + 1 := mkConsensusParamsInfo (if changed' =? top + 1 then p else empty_params) changed']> m) (pextend ps (top + 1) p).
Proof.
  intros [Hst (Hr & Hf & He) Hli] Hlo Hp Hcase.
  assert (Hext : forall g, g <> top + 1 -> pextend ps (top + 1) p g = ps g) by (intros g Hg; unfold pextend; by rewrite (proj2 (Z.eqb_neq _ _))).
  assert (Htop : pextend ps (top + 1) p (top + 1) = p) by (unfold pextend; by rewrite Z.eqb_refl).
  assert (Hnew : changed' = top + 1 -> pfull (<[top + 1 := mkConsensusParamsInfo p changed']> m) (pextend ps (top + 1) p) (top + 1)).
  { intros ->. split; [by rewrite Htop|]. exists (top + 1). rewrite lookup_insert_eq. by rewrite Htop. }
  constructor.
  - intros h Hh. destruct (decide (h = top + 1)) as [->|Hne].
    + destruct Hcase as [[-> ->]| ->].
      * right. exists changed. rewrite lookup_insert_eq, (proj2 (Z.eqb_neq _ _)) by lia. split_and!; try done; try lia.
        -- apply pfull_mono; [lia|done].
        -- rewrite Htop, Hext by lia. done.
      * left. rewrite Z.eqb_refl. by apply Hnew.
    + destruct (Hst h ltac:(lia)) as [Hf'|(c & Hm & Hc & Hf' & He')]; [left; by apply pfull_mono|]. right. exists c.
      rewrite lookup_insert_ne, !Hext by lia. split_and!; try done. apply pfull_mono; [lia|done].
  - destruct Hcase as [[-> ->]| ->].
    + split; [lia|]. split; [apply pfull_mono; [lia|done]|]. rewrite Htop, Hext by lia. done.
    + rewrite Z.eqb_refl. split; [lia|]. split; [by apply Hnew|done].
  - eapply (linked_extend lo top changed); [exact Hli|lia|intros h Hh; by rewrite lookup_insert_ne|by rewrite lookup_insert_eq|lia| |naive_solver].
    cbn. rewrite bool_decide_eq_true, Z.rem_0_r_ext by done. destruct (Z.eqb_spec changed' (top + 1)) as [->|Hne].
    + split; [by left|done].
    + split; [done|]. lia.
Qed.

(** ** The updated set has messages *)

Lemma insert_by_Forall {A} (P : A -> Prop) less x l : P x -> Forall P l -> Forall P (insert_by less x l).
Proof. intros Hx. induction 1 as [|y l Hy Hl IH]; cbn; [by constructor|]. destruct (less y x); repeat constructor; done. Qed.

Lemma merge_Forall (P : Validator -> Prop) l1 l2 : Forall P l1 -> Forall P l2 -> Forall P (merge_updates l1 l2).
Proof.
  intros H1. revert l2. induction H1 as [|e l1 He Hl1 IH]; intros l2 H2.
  - destruct l2; done.
  - induction H2 as [|u l2 Hu Hl2 IH2]; cbn [merge_updates]; [by constructor|].
    destruct (bytes_ltb (Address e) (Address u)); [constructor; [done|]; apply IH; by constructor|].
    destruct (bytes_eqb (Address e) (Address u)); constructor; try done. by apply IH.
Qed.

Lemma scan_Forall (P : Validator -> Prop) changes prev ups rems ups' rems' :
  Forall P changes -> Forall P ups -> scan_changes changes prev ups rems = Ok (ups', rems') -> Forall P ups'.
Proof.
  intros Hc. revert prev ups rems. induction Hc as [|c changes Hc Hcs IH]; intros prev ups rems Hu; cbn [scan_changes]; [by intros [= <- _]|].
  repeat (case_match; try done); apply IH; try done. apply Forall_app. by split; [|constructor].
Qed.

Lemma remove_Forall {E} (P : Validator -> Prop) l d l' : Forall P l -> remove_loop (E:=E) l d = Ok l' -> Forall P l'.
Proof.
  intros Hl. revert d l'. induction Hl as [|v l Hv Hl IH]; intros [|d ds] l'; cbn [remove_loop]; try (by intros [= <-]; constructor); try done.
  destruct (bytes_eqb (Address v) (Address d)); [by apply IH|]. intros (r & Hr & [= <-])%obind_Ok. constructor; [done|by eapply IH].
Qed.

Lemma same_Forall (P : Validator -> Prop) l l' :
  (forall v p, P v -> P (set_priority v p)) -> same_but_priority l l' -> Forall P l -> Forall P l'.
Proof.
  intros Hp. induction 1 as [|v v' l l' Hv _ IH]; [done|]. rewrite !Forall_cons. intros [Hpv Hl]. split; [|by apply IH].
  rewrite Hv. by apply Hp.
Qed.

Lemma updateTotal_same {E} vals vals' : updateTotalVotingPower (E:=E) vals = Ok vals' -> Validators vals' = Validators vals.
Proof. unfold updateTotalVotingPower. by intros (sum & _ & [= <-])%obind_Ok. Qed.

Lemma Total_same {E} vals t vals' : TotalVotingPower (E:=E) vals = Ok (t, vals') -> Validators vals' = Validators vals.
Proof.
  unfold TotalVotingPower. intros (v & Hv & [= _ <-])%obind_Ok. destruct (_ =? 0); [by eapply updateTotal_same|by injection Hv as <-].
Qed.

Lemma Rescale_same {E} vals d vals' : RescalePriorities (E:=E) vals d = Ok vals' -> same_set vals vals'.
Proof.
  unfold RescalePriorities. destruct (IsNilOrEmpty vals); [done|]. destruct (d <=? 0); [by intros [= <-]|].
  intros (x & _ & Hx)%obind_Ok. destruct (d <? x); [|by injection Hx as <-]. destruct (_ =? 0); [done|]. injection Hx as <-.
  apply same_but_priority_map.
Qed.

Lemma shift_same {E} vals vals' : shiftByAvgProposerPriority (E:=E) vals = Ok vals' -> same_set vals vals'.
Proof.
  unfold shiftByAvgProposerPriority. destruct (IsNilOrEmpty vals); [done|]. intros (avg & _ & [= <-])%obind_Ok.
  apply (same_but_priority_map (Validators vals) (fun v => safeSubClip (ProposerPriority v) avg)).
Qed.

Lemma verifyUpdates_same ups rp vals t vals' : verifyUpdates ups rp vals = (Ok t, vals') -> Validators vals' = Validators vals.
Proof.
  unfold verifyUpdates. destruct (TotalVotingPower vals) as [[tot v]|e|] eqn:Et; [|done..].
  destruct (add_deltas _ _ _); [|done..]. intros [= _ <-]. by eapply Total_same.
Qed.

Lemma priorities_Forall (P : Validator -> Prop) ups vals t :
  (forall v p, P v -> P (set_priority v p)) -> Forall P ups -> Forall P (computeNewPriorities ups vals t).
Proof.
  intros Hp Hu. unfold computeNewPriorities. apply Forall_fmap. eapply Forall_impl; [exact Hu|]. intros v Hv. cbn.
  destruct (snd _); by apply Hp.
Qed.

(** The members of a changed set are members or changes, but for the
    priorities. *)
Lemma update_Forall (P : Validator -> Prop) changes allow vals vals' :
  (forall v p, P v -> P (set_priority v p)) -> Forall P (Validators vals) -> Forall P changes ->
  updateWithChangeSet changes allow vals = (Ok tt, vals') -> Forall P (Validators vals').
Proof.
  intros Hp Hv Hc. unfold updateWithChangeSet. destruct (bool_decide (changes = [])); [by intros [= <-]|].
  intros ([ups dels] & s1 & Hpr & Hr)%gbind_Ok. unfold glift in Hpr. injection Hpr as Hpr <-.
  assert (Hu : Forall P ups).
  { eapply (scan_Forall P); [| |exact Hpr]; [|done]. by rewrite sort_by_perm. }
  destruct (negb allow && _); [done|]. apply gbind_Ok in Hr as (v1 & s2 & [= <- <-] & Hr). destruct (_ && _); [done|].
  apply gbind_Ok in Hr as (rp & s3 & Hrp & Hr). unfold glift in Hrp. injection Hrp as _ <-.
  apply gbind_Ok in Hr as (tvp & s4 & Hvu & Hr). apply gbind_Ok in Hr as (v2 & s5 & [= <- <-] & Hr).
  apply verifyUpdates_same in Hvu. apply gbind_Ok in Hr as ([] & s6 & [= <-] & Hr). apply gbind_Ok in Hr as (v3 & s7 & [= <- <-] & Hr).
  assert (Ha : Forall P (Validators (applyUpdates s4 (computeNewPriorities ups s4 tvp)))).
  { cbn. apply merge_Forall; [|by apply priorities_Forall]. by rewrite sort_by_perm, Hvu. }
  apply gbind_Ok in Hr as (v4 & s8 & Hrm & Hr). unfold glift in Hrm. injection Hrm as Hrm <-.
  assert (H4 : Forall P (Validators v4)).
  { unfold applyRemovals in Hrm. destruct (_ <? _); [done|]. apply obind_Ok in Hrm as (l & Hl & [= <-]). by eapply remove_Forall. }
  apply gbind_Ok in Hr as (v5 & s9 & Hut & Hr). unfold glift in Hut. injection Hut as Hut <-.
  apply gbind_Ok in Hr as ([t v6] & s10 & Htt & Hr). unfold glift in Htt. injection Htt as Htt <-.
  apply gbind_Ok in Hr as (v7 & s11 & Hrs & Hr). unfold glift in Hrs. injection Hrs as Hrs <-.
  apply gbind_Ok in Hr as (v8 & s12 & Hsh & Hr). unfold glift in Hsh. injection Hsh as Hsh <-. injection Hr as <-. cbn.
  rewrite sort_by_perm. apply updateTotal_same in Hut. apply Total_same in Htt. apply Rescale_same in Hrs. apply shift_same in Hsh.
  eapply same_Forall; [done|exact Hsh|]. eapply same_Forall; [done|exact Hrs|]. by rewrite Htt, Hut.
Qed.

Lemma storable_set_priority v p : storable v -> storable (set_priority v p).
Proof. intros [Hk Ha]. by constructor. Qed.

(** The same for voters and weights. *)
Lemma chosen_Forall (P : Validator -> Prop) l m pct voters :
  (forall v w, P (set_weight v w) <-> P v) -> chosen l m pct voters -> Forall P l -> Forall P (Voters voters).
Proof.
  intros Hp Hc Hl. assert (Hb : Forall P (bare <$> l)) by (apply Forall_fmap; eapply Forall_impl; [exact Hl|]; intros v; apply Hp).
  assert (Hv : Forall P (bare <$> Voters voters)).
  { rewrite Forall_forall in *. intros v Hv. apply Hb. by eapply elem_of_submseteq; [|apply Hc]. }
  rewrite Forall_fmap in Hv. eapply Forall_impl; [exact Hv|]. intros v. apply Hp.
Qed.

Lemma storable_set_weight v w : storable (set_weight v w) <-> storable v.
Proof. split; intros [Hk Ha]; by constructor. Qed.

(** ** Saving a state *)

Definition empty_db : dbStore := mk_dbStore ∅ ∅ ∅ ∅ ∅ None.

(** What the last writes of [save] change. *)
Record saved_rest (n : Z) (s : ChainState) (db db' : dbStore) : Prop := {
  sr_validators : db_validators db' = db_validators db;
  sr_params : db_consensusParams db' = <[n := mkConsensusParamsInfo
    (if st_LastHeightConsensusParamsChanged s =? n then st_ConsensusParams s else empty_params)
    (st_LastHeightConsensusParamsChanged s)]> (db_consensusParams db);
  sr_voters : db_voterParams db' = <[n := st_VoterParams s]> (db_voterParams db);
  sr_hash : db_proofHash db' = <[n := st_LastProofHash s]> (db_proofHash db);
  sr_state : exists pb, State_ToProto s = Ok pb /\ db_state db' = Some pb
}.

Lemma save_rest_Ok n s db db' : save_rest n s db = (Ok tt, db') -> saved_rest n s db db'.
Proof.
  unfold save_rest. intros ([] & db2 & [= <-] & Hs)%gbind_Ok. apply gbind_Ok in Hs as ([] & db3 & [= <-] & Hs).
  apply gbind_Ok in Hs as ([] & db4 & [= <-] & Hs). apply gbind_Ok in Hs as (pb & db5 & Hpb & Hs).
  unfold glift in Hpb. injection Hpb as Hpb <-. injection Hs as <-. destruct db. constructor; try done. exists pb.
  unfold State_Bytes in Hpb. destruct (State_ToProto s); [by injection Hpb as ->|done..].
Qed.

Lemma save_Ok s db db' :
  save s db = (Ok tt, db') -> st_LastBlockHeight s +i64 1 <> 1 ->
  let n := st_LastBlockHeight s +i64 1 in
  exists db1, saveValidatorsInfo (n +i64 1) (st_LastHeightValidatorsChanged s) (st_NextValidators s) db = (Ok tt, db1) /\ saved_rest n s db1 db'.
Proof.
  intros Hs Hn n. unfold save in Hs. fold n in Hs, Hn. rewrite (proj2 (Z.eqb_neq _ _) Hn) in Hs.
  apply gbind_Ok in Hs as (n' & db0 & [= <- <-] & Hs). apply gbind_Ok in Hs as ([] & db1 & H1 & Hs). apply save_rest_Ok in Hs. eauto.
Qed.

(** The first state also saves its own validators. *)
Lemma save_first_Ok s db db' :
  save s db = (Ok tt, db') -> st_LastBlockHeight s = 0 ->
  let n := st_InitialHeight s in
  exists db0 db1, saveValidatorsInfo n n (st_Validators s) db = (Ok tt, db0) /\
    saveValidatorsInfo (n +i64 1) (st_LastHeightValidatorsChanged s) (st_NextValidators s) db0 = (Ok tt, db1) /\ saved_rest n s db1 db'.
Proof.
  intros Hs Hz n. unfold save in Hs. rewrite Hz in Hs. change (0 +i64 1) with 1 in Hs. cbn [Z.eqb Pos.eqb] in Hs.
  apply gbind_Ok in Hs as (n' & db0 & Hf & Hs). apply gbind_Ok in Hf as ([] & db0' & H0 & [= <- <-]). fold n in Hs, H0.
  apply gbind_Ok in Hs as ([] & db1 & H1 & Hs). apply save_rest_Ok in Hs. eauto.
Qed.

(** ** The chain in the store *)

#[global] Instance same_voters_equiv : Equivalence same_voters.
Proof.
  split.
  - intros v. split; [apply same_but_priority_refl|done].
  - intros v w [Hs Ht]. split; [|done]. by apply same_but_priority_erase, eq_sym, same_but_priority_erase.
  - intros u v w [Hs Ht] [Hs' Ht']. split; [by eapply same_but_priority_trans|congruence].
Qed.

Section chain_store.
  Context {crypto : CryptoLib} {vrf : VrfLib}.

(** The voters of a state are elected from its validators. *)
Definition elected (s : ChainState) : Prop :=
  exists voters, SelectVoter (E:=unit) (st_Validators s) (st_LastProofHash s) (st_VoterParams s) = Ok voters /\ same_voters voters (st_Voters s).

(** The state of a chain without blocks. *)
Record fresh (s : ChainState) : Prop := {
  fr_ok : chain_ok s;
  fr_storable : state_storable s;
  fr_elected : elected s;
  fr_hash : st_LastProofHash s <> [];
  fr_height : st_LastBlockHeight s = 0;
  fr_same : same_set (st_Validators s) (st_NextValidators s);
  fr_changed : st_LastHeightValidatorsChanged s = st_InitialHeight s /\ st_LastHeightConsensusParamsChanged s = st_InitialHeight s
}.

(** States saved one after the other, each by executing a block; the responses
    of the application may be saved in between. *)
Inductive saved : list ChainState -> dbStore -> Prop :=
| saved_start s db : fresh s -> save s empty_db = (Ok tt, db) -> saved [s] db
| saved_block l s db id h txs params updates s' appHash db' :
    saved (l ++ [s]) db -> h_Height h = next_height s -> h_Height h + 2 <= int64_max -> fits (updated_set s updates) -> Forall storable updates ->
    BlockIDFromProto id = Ok id -> updateState s id h txs params updates = Ok s' -> st_LastProofHash s' <> [] ->
    save (with_AppHash s' appHash) db = (Ok tt, db') -> saved (l ++ [s; with_AppHash s' appHash]) db'
| saved_responses l db height r : saved l db -> saved l (snd (SaveABCIResponses height r db)).

Record remembered (lo : Z) (l : list ChainState) (s : ChainState) (db : dbStore) : Prop := {
  rm_ok : chain_ok s;
  rm_storable : state_storable s;
  rm_lo : 0 < lo /\ st_InitialHeight s = lo;
  rm_next : next_height s = lo + lenZ l /\ next_height s + 1 <= int64_max;
  rm_vals : exists sets, vals_stored lo (next_height s + 1) (st_LastHeightValidatorsChanged s) (db_validators db) sets /\
    same_set (sets (next_height s + 1)) (st_NextValidators s) /\
    forall i si, (l ++ [s]) !! i = Some si -> same_set (sets (lo + Z.of_nat i)) (st_Validators si);
  rm_params : exists ps, params_stored lo (next_height s) (st_LastHeightConsensusParamsChanged s) (db_consensusParams db) ps /\
    forall i si, (l ++ [s]) !! i = Some si -> ps (lo + Z.of_nat i) = st_ConsensusParams si;
  rm_hashes : forall i si, (l ++ [s]) !! i = Some si -> next_height si = lo + Z.of_nat i /\
    db_proofHash db !! (lo + Z.of_nat i) = Some (st_LastProofHash si) /\ st_LastProofHash si <> [] /\ elected si;
  rm_state : exists pb, State_ToProto s = Ok pb /\ db_state db = Some pb
}.

Lemma params_not_empty s : chain_ok s -> st_ConsensusParams s <> empty_params.
Proof. intros Hok He. pose proof (co_params _ Hok) as Hp. rewrite He in Hp. done. Qed.

Lemma nowrap_succ n x : 0 < x -> x <= n +i64 1 -> 0 <= n <= int64_max -> n +i64 1 = n + 1 /\ n + 1 <= int64_max.
Proof.
  intros Hx Hle Hn. destruct (Z.eq_dec n int64_max) as [->|]; [exfalso; revert Hle; change (int64_max +i64 1) with int64_min; unfold int64_min; lia|].
  split; [apply wrap64_id; unfold int64, int64_min, int64_max in *; lia|lia].
Qed.

Lemma start_remembered s d db : fresh s -> save s d = (Ok tt, db) -> remembered (st_InitialHeight s) [] s db.
Proof.
  intros [Hok Hst Hel Hh Hz Hsame [Hcv Hcp]] Hs. pose proof (co_initial _ Hok) as Hi.
  assert (Hn : next_height s = st_InitialHeight s) by (unfold next_height; by rewrite Hz).
  destruct (save_first_Ok _ _ _ Hs Hz) as (db0 & db1 & H0 & H1 & Hr). rewrite Hcv in H1.
  pose proof (saveInfo_Ok _ _ _ _ _ H1) as (Hle & _). destruct (nowrap_succ _ _ (proj1 Hi) Hle) as [Hw Hb]; [lia|]. rewrite Hw in H1.
  pose proof (co_validators _ Hok) as Hvok. pose proof (co_next _ Hok) as Hnok.
  set (lo := st_InitialHeight s) in *. set (sets0 := extend (fun _ => st_Validators s) lo (st_Validators s)).
  assert (Hv0 : vals_stored lo lo lo (db_validators db0) sets0).
  { apply saveInfo_Ok in H0 as (_ & set & -> & Hset). rewrite Z.eqb_refl in Hset. destruct Hset as (pb & -> & Hpb).
    destruct d as [m vp pr cp rs st]. cbn [db_apply db_validators].
    assert (Hf : full (<[lo := mkValidatorsInfo (Some pb) lo]> m) sets0 lo) by (apply saved_full; [done|done|apply Hst]).
    constructor; [intros h Hh'; assert (h = lo) as -> by lia; by left|intros h Hh' _; assert (h = lo) as -> by lia; done|..].
    - split; [lia|]. split; [done|]. intros h Hh'. assert (h = lo) as -> by lia. done.
    - apply linked_single. by rewrite lookup_insert_eq. }
  pose proof (vals_extend lo lo lo db0 db1 sets0 lo (st_NextValidators s) Hv0 ltac:(lia) Hb H1 Hnok (ss_next _ Hst)) as Hv1.
  destruct Hr as [Rv Rp _ Rh Rs]. constructor; try done.
  - split; [lia|done].
  - rewrite Hn. split; [change (lenZ (@nil ChainState)) with 0; lia|done].
  - eexists. rewrite Hn, Rv, Hcv. split; [apply Hv1; left; split; [done|]; unfold sets0, extend; by rewrite Z.eqb_refl|].
    unfold extend at 1. rewrite Z.eqb_refl. split; [done|]. intros [|i] si Hsi; [|done]. injection Hsi as <-.
    rewrite Z.add_0_r. unfold extend. rewrite (proj2 (Z.eqb_neq lo (lo + 1))) by lia. unfold sets0, extend. by rewrite Z.eqb_refl.
  - exists (fun _ => st_ConsensusParams s). rewrite Hn, Rp, Hcp. split; [|intros [|i] si Hsi; [by injection Hsi as <-|done]].
    rewrite Z.eqb_refl. assert (Hf : forall m, pfull (<[lo := mkConsensusParamsInfo (st_ConsensusParams s) lo]> m) (fun _ => st_ConsensusParams s) lo).
    { intros m. split; [by apply params_not_empty|]. exists lo. by rewrite lookup_insert_eq. }
    constructor; [intros h Hh'; assert (h = lo) as -> by lia; left; apply Hf|split; [lia|]; split; [apply Hf|done]|].
    apply linked_single. rewrite lookup_insert_eq.
    change (Some (bool_decide (st_ConsensusParams s <> empty_params), lo) = Some (true, lo)). by rewrite bool_decide_eq_true_2 by (by apply params_not_empty).
  - intros [|i] si Hsi; [|done]. injection Hsi as <-. rewrite Rh, Z.add_0_r, lookup_insert_eq, Hn. done.
Qed.

Lemma updateState_elected s id h txs params updates s' : updateState s id h txs params updates = Ok s' -> elected s'.
Proof.
  unfold updateState. intros ([vals c] & _ & Hu)%obind_Ok. apply obind_Ok in Hu as ([[p v] pc] & _ & Hu).
  destruct (ProofToHash (h_Proof h)) as [ph|]; [|done]. apply obind_Ok in Hu as (voters & Hv & [= <-]).
  destruct (SelectVoter_same (E:=exec_error) (E':=unit) (st_NextValidators s) (st_NextValidators s) _ _ _ (reflexivity _) Hv) as (w & Hw & Hs).
  exists w. split; [exact Hw|]. by symmetry.
Qed.

Lemma updated_storable s updates :
  Forall storable (Validators (st_NextValidators s)) -> Forall storable updates -> updates_ok s updates -> chain_ok s ->
  Forall storable (Validators (updated_set s updates)).
Proof.
  intros Hn Hu Hok Hch. unfold updated_set. destruct (decide (updates = [])) as [->|Hne]; [by rewrite bool_decide_eq_true_2|].
  rewrite bool_decide_eq_false_2 by done. destruct Hok as [|Hv]; [done|]. unfold UpdateWithChangeSet.
  destruct (update_cases (st_NextValidators s) updates true (so_wf _ (co_next _ Hch)) Hne) as [(_ & vals' & Hvv & _)|(Hno & _)]; [|done].
  rewrite Hvv. by eapply update_Forall; [apply storable_set_priority| | |exact Hvv].
Qed.

(** Executing a block keeps what is needed to save the state. *)
Lemma executed_storable s id h txs params updates s' :
  chain_ok s -> state_storable s -> h_Height h = next_height s -> st_InitialHeight s <= next_height s <= int64_max ->
  fits (updated_set s updates) -> Forall storable updates -> BlockIDFromProto id = Ok id ->
  updateState s id h txs params updates = Ok s' ->
  chain_ok s' /\ state_storable s' /\ executed s id h params updates s'.
Proof.
  intros Hok Hst Hh Hr Hf Hu Hid Hs. pose proof (co_initial _ Hok) as Hi.
  destruct (updateState_cases s id h txs params updates Hok Hf ltac:(lia)) as [((Hup & _) & s1 & Hs1 & Hok' & Hex)|(_ & e & He)]; [|congruence].
  rewrite Hs in Hs1. injection Hs1 as <-. split; [done|]. split; [|done]. destruct Hex as [E1 E2 _ _ E3 E4 Hch En _ _ _].
  pose proof (wf_power_nonneg _ (so_wf _ (co_next _ Hok))) as Hp. constructor.
  - rewrite E3. apply Hst.
  - eapply storable_same; [exact En|]. by apply updated_storable; [apply Hst|..].
  - rewrite E3 in Hch. split; [eapply chosen_Forall; [apply storable_set_weight|exact Hch|apply Hst]|].
    by eapply chosen_Forall; [|exact Hch|exact Hp].
  - rewrite E1, Hh, E4, (proj2 (Z.eqb_neq _ _)) by lia. split; [apply Hok|apply Hst].
  - by rewrite E2.
Qed.

Lemma with_AppHash_storable s appHash : state_storable s -> state_storable (with_AppHash s appHash).
Proof. intros []. by constructor. Qed.

Lemma remembered_init lo l s db : remembered lo l s db -> st_InitialHeight s <= next_height s <= int64_max /\ 0 < next_height s.
Proof. intros Hr. destruct (rm_lo _ _ _ _ Hr), (rm_next _ _ _ _ Hr). unfold lenZ in *. lia. Qed.

Lemma lookup_snoc_two {A} (l : list A) a b i x :
  (l ++ [a; b]) !! i = Some x -> (l ++ [a]) !! i = Some x \/ (i = S (length l) /\ x = b).
Proof.
  change [a; b] with ([a] ++ [b]). rewrite app_assoc. intros [[_ Hi]|[-> ->]]%lookup_snoc_Some; [by left|right].
  rewrite length_app. cbn. split; [lia|done].
Qed.

Lemma snoc_bound {A} (l : list A) a i x : (l ++ [a]) !! i = Some x -> (i <= length l)%nat.
Proof. intros Hi%lookup_lt_Some. rewrite length_app in Hi. cbn in Hi. lia. Qed.

Lemma block_remembered lo l s db id h txs params updates s' appHash db' :
  remembered lo l s db -> h_Height h = next_height s -> h_Height h + 2 <= int64_max -> fits (updated_set s updates) ->
  Forall storable updates ->
  BlockIDFromProto id = Ok id -> updateState s id h txs params updates = Ok s' -> st_LastProofHash s' <> [] ->
  save (with_AppHash s' appHash) db = (Ok tt, db') -> remembered lo (l ++ [s]) (with_AppHash s' appHash) db'.
Proof.
  intros Hrm Hh Hmax Hf Hu Hid Hs Hph Hsave. destruct (remembered_init _ _ _ _ Hrm) as [Hr Hpos].
  destruct (executed_storable s id h txs params updates s' (rm_ok _ _ _ _ Hrm) (rm_storable _ _ _ _ Hrm) Hh Hr Hf Hu Hid Hs)
    as (Hok & Hst & Hex). pose proof (updateState_elected _ _ _ _ _ _ _ Hs) as Hel.
  destruct Hrm as [Hok0 Hst0 [Hlo Hlo'] [Hn Hn'] (sets & Hv & Hnx & Hvi) (ps & Hps & Hpi) Hhs _].
  destruct Hex as [E1 _ _ _ E3 _ _ En Ec [Ep Epc] (_ & Ei & _)]. set (n := next_height s) in *.
  assert (Hn1 : n +i64 1 = n + 1) by (apply wrap64_id; unfold int64, int64_min, int64_max in *; lia).
  assert (Hn2 : (n + 1) +i64 1 = n + 1 + 1) by (apply wrap64_id; unfold int64, int64_min, int64_max in *; lia).
  assert (Hnext : next_height (with_AppHash s' appHash) = n + 1).
  { unfold next_height. cbn [st_LastBlockHeight with_AppHash]. by rewrite E1, Hh, (proj2 (Z.eqb_neq _ _)), Hn1 by lia. }
  destruct (save_Ok _ _ _ Hsave) as (db1 & H1 & [Rv Rp _ Rh Rs]); cbn [st_LastBlockHeight with_AppHash] in *; rewrite E1, Hh, Hn1 in *; [lia|]. rewrite Hn2 in H1.
  cbn [with_AppHash st_LastHeightValidatorsChanged st_NextValidators st_LastHeightConsensusParamsChanged st_ConsensusParams st_LastProofHash] in *.
  assert (Hdb : db_consensusParams db1 = db_consensusParams db /\ db_proofHash db1 = db_proofHash db)
    by (apply saveInfo_Ok in H1 as (_ & ? & -> & _); by destruct db).
  rewrite (proj1 Hdb) in Rp. rewrite (proj2 Hdb) in Rh.
  pose proof (vs_changed _ _ _ _ _ Hv) as (Hcr & _ & Hcs). pose proof (pst_changed _ _ _ _ _ Hps) as (Hpr & _ & Hpe).
  assert (Hcase : (st_LastHeightValidatorsChanged s' = st_LastHeightValidatorsChanged s /\
      same_set (sets (st_LastHeightValidatorsChanged s)) (st_NextValidators s')) \/ st_LastHeightValidatorsChanged s' = n + 1 + 1).
  { rewrite Ec. unfold updated_set in En. destruct (bool_decide (updates = [])); [left|right].
    - split; [done|]. etransitivity; [apply (Hcs (n + 1)); lia|]. etransitivity; [exact Hnx|exact En].
    - exact Hn2. }
  pose proof (vals_extend lo (n + 1) _ db db1 sets _ (st_NextValidators s') Hv Hlo ltac:(lia) H1 (co_next _ Hok) (ss_next _ Hst) Hcase) as Hv'.
  assert (Hpcase : (st_LastHeightConsensusParamsChanged s' = st_LastHeightConsensusParamsChanged s /\ st_ConsensusParams s' = ps n) \/
      st_LastHeightConsensusParamsChanged s' = n + 1).
  { rewrite Epc, Ep. destruct params; [by right|]. left. split; [done|]. unfold params_updated, UpdateConsensusParams.
    rewrite Hn. symmetry. apply (Hpi (length l) s). by apply list_lookup_middle. }
  pose proof (params_extend lo n _ _ ps _ (st_ConsensusParams s') Hps Hlo (params_not_empty _ Hok) Hpcase) as Hps'.
  constructor.
  - by apply with_AppHash_ok.
  - by apply with_AppHash_storable.
  - split; [done|]. cbn [with_AppHash st_InitialHeight]. by rewrite Ei.
  - rewrite Hnext. split; [unfold lenZ in *; rewrite length_app; cbn; lia|lia].
  - eexists. rewrite Hnext, Rv. split; [exact Hv'|]. split; [unfold extend; by rewrite Z.eqb_refl|].
    intros i si Hsi. rewrite <- app_assoc in Hsi. apply lookup_snoc_two in Hsi as [Hsi|[-> ->]].
    + pose proof (snoc_bound _ _ _ _ Hsi). unfold extend. rewrite (proj2 (Z.eqb_neq _ _)) by (unfold lenZ in *; lia). by apply Hvi.
    + replace (lo + Z.of_nat (S (length l))) with (n + 1) by (unfold lenZ in *; lia). unfold extend.
      rewrite (proj2 (Z.eqb_neq _ _)) by lia. cbn [with_AppHash st_Validators]. by rewrite E3.
  - eexists. rewrite Hnext, Rp. split; [exact Hps'|].
    intros i si Hsi. rewrite <- app_assoc in Hsi. apply lookup_snoc_two in Hsi as [Hsi|[-> ->]].
    + pose proof (snoc_bound _ _ _ _ Hsi). unfold pextend. rewrite (proj2 (Z.eqb_neq _ _)) by (unfold lenZ in *; lia). by apply Hpi.
    + replace (lo + Z.of_nat (S (length l))) with (n + 1) by (unfold lenZ in *; lia). unfold pextend. by rewrite Z.eqb_refl.
  - intros i si Hsi. rewrite <- app_assoc in Hsi. rewrite Rh. apply lookup_snoc_two in Hsi as [Hsi|[-> ->]].
    + pose proof (snoc_bound _ _ _ _ Hsi). rewrite lookup_insert_ne by (unfold lenZ in *; lia).
      by apply Hhs.
    + replace (lo + Z.of_nat (S (length l))) with (n + 1) by (unfold lenZ in *; lia). rewrite lookup_insert_eq, Hnext. done.
  - exact Rs.
Qed.

End chain_store.
