(* ===== verification/StoreHistory.v ===== *)
(** * Loading and pruning the history of a chain

    For states saved one after the other, the store answers every question about
    their heights as the states do, also after pruning. *)

From Stdlib Require Import ZArith Lia.
From stdpp Require Import prelude list gmap.
From S2P Require Import Prelude SafeMath Crypto Validator ValidatorSet ValidatorLists ValidatorSetPriority ValidatorSetUpdate.
From S2P Require Import Proto Block VoterSet VerifyCommit Election Header Light EvidenceProps ChainState ChainProps StateStore StateProps.

Local Open Scope Z_scope.
Local Open Scope go_scope.

Section history.
  Context {crypto : CryptoLib} {vrf : VrfLib}.

Lemma remembered_responses lo l s db height r : remembered lo l s db -> remembered lo l s (snd (SaveABCIResponses height r db)).
Proof. intros Hr. destruct Hr, db. by constructor. Qed.

Lemma saved_remembered l db : saved l db -> exists lo l' s, l = l' ++ [s] /\ remembered lo l' s db.
Proof.
  induction 1 as [s db Hf Hs|l s db id h txs params updates s' appHash db' _ (lo & l' & s1 & Heq & Hr) Hh Hm Hfit Hu Hid Hup Hph Hsave|
    l db height r _ (lo & l' & s1 & -> & Hr)].
  - exists (st_InitialHeight s), [], s. split; [done|]. by eapply start_remembered.
  - apply app_inj_tail in Heq as [<- <-]. exists lo, (l ++ [s]), (with_AppHash s' appHash). split; [by rewrite <- app_assoc|].
    by eapply block_remembered.
  - exists lo, l', s1. split; [done|]. by apply remembered_responses.
Qed.

(** What the store answers for the next height of a state. *)
Record answered (db : dbStore) (s : ChainState) : Prop := {
  an_validators : exists vals, LoadValidators db (next_height s) = Ok vals /\ same_set (st_Validators s) vals;
  an_voters : exists vals voters,
    LoadVoters db (next_height s) (Some (st_VoterParams s)) = Ok (vals, voters, st_VoterParams s, st_LastProofHash s) /\
    same_voters (st_Voters s) voters;
  an_params : LoadConsensusParams db (next_height s) = Ok (st_ConsensusParams s)
}.

Lemma loadProofHash_some db h x : db_proofHash db !! h = Some x -> x <> [] -> loadProofHash db h = Some x.
Proof. unfold loadProofHash. intros ->. by destruct x. Qed.

Lemma load_voters db s sets lo :
  stored lo (db_validators db) sets (next_height s) -> 0 < lo -> lo <= next_height s <= int64_max ->
  same_set (sets (next_height s)) (st_Validators s) -> db_proofHash db !! next_height s = Some (st_LastProofHash s) ->
  st_LastProofHash s <> [] -> elected s ->
  exists vals voters, load_set db (next_height s) = Ok vals /\ same_set (st_Validators s) vals /\
    LoadVoters db (next_height s) (Some (st_VoterParams s)) = Ok (vals, voters, st_VoterParams s, st_LastProofHash s) /\
    same_voters (st_Voters s) voters.
Proof.
  intros Hst Hlo Hb Hsame Hp Hne (w & Hw & Hws). destruct (load_stored lo db sets _ Hst Hlo Hb) as (vals & Hl & _ & _ & Hvs).
  assert (Hss : same_set (st_Validators s) vals) by (etransitivity; [symmetry; exact Hsame|exact Hvs]).
  destruct (SelectVoter_same (E':=store_error) _ vals _ _ _ Hss Hw) as (w' & Hw' & Hs'). exists vals, w'.
  split; [done|]. split; [done|]. unfold LoadVoters. rewrite Hl, (loadProofHash_some _ _ _ Hp Hne). cbn [mbind outcome_bind].
  rewrite Hw'. split; [done|]. etransitivity; [symmetry; exact Hws|exact Hs'].
Qed.

Lemma remembered_answers lo l s db si : remembered lo l s db -> si ∈ l ++ [s] -> answered db si.
Proof.
  intros Hr [i Hi]%list_elem_of_lookup. pose proof (snoc_bound _ _ _ _ Hi) as Hib.
  destruct Hr as [_ _ [Hlo _] [Hn Hmax] (sets & Hv & _ & Hvi) (ps & Hps & Hpi) Hhs _]. unfold lenZ in Hn.
  destruct (Hhs i si Hi) as (Hni & Hph & Hne & Hel). specialize (Hvi i si Hi). rewrite <- Hni in Hvi, Hph.
  destruct (load_voters db si sets lo) as (vals & voters & Hl & Hs & Hlv & Hws); try done.
  { apply (vs_stored _ _ _ _ _ Hv). lia. } { lia. }
  constructor; [by exists vals|by exists vals, voters|]. rewrite <- (Hpi i si Hi), <- Hni. eapply load_params; [exact Hps|lia].
Qed.

Lemma remembered_load lo l s db : remembered lo l s db -> Load db = Ok (Some s).
Proof.
  intros [Hok Hst _ _ _ _ _ (pb & Hpb & Hdb)]. unfold Load. rewrite Hdb.
  destruct (State_roundtrip s Hok Hst) as (pb' & Hto & Hfrom). assert (pb' = pb) as -> by congruence. by rewrite Hfrom.
Qed.

End history.

(** ** Pruning *)

(** Two databases agree on the sets of [V] and the parameters of [P]. *)
Record agree (V P : Z -> Prop) (db db' : dbStore) : Prop := {
  ag_vals : forall h, V h -> db_validators db' !! h = db_validators db !! h /\ db_proofHash db' !! h = db_proofHash db !! h;
  ag_params : forall h, P h -> db_consensusParams db' !! h = db_consensusParams db !! h;
  ag_state : db_state db' = db_state db
}.

Lemma agree_refl V P db : agree V P db db.
Proof. by constructor. Qed.

(** A write that leaves these alone. *)
Definition harmless (V P : Z -> Prop) (op : db_op) : Prop :=
  match op with
  | DeleteValidators h | DeleteProofHash h => ~ V h
  | DeleteConsensusParams h => ~ P h
  | DeleteVoterParams _ | DeleteResponses _ => True
  | _ => False
  end.

Lemma harmless_apply V P op db0 db : harmless V P op -> agree V P db0 db -> agree V P db0 (db_apply op db).
Proof.
  intros Ho [Hv Hp Hs]. destruct db as [m vp pr cp rs st]. destruct op; try done; cbn in *; constructor; cbn; try done.
  - intros g Hg. rewrite lookup_delete_ne by (intros ->; done). by apply Hv.
  - intros g Hg. rewrite lookup_delete_ne by (intros ->; done). by apply Hv.
  - intros g Hg. rewrite lookup_delete_ne by (intros ->; done). by apply Hp.
Qed.

Lemma harmless_write V P ops db0 db : Forall (harmless V P) ops -> agree V P db0 db -> agree V P db0 (db_write ops db).
Proof.
  intros Ho. revert db. induction Ho as [|op ops Hop Hops IH]; intros db Ha; [done|]. cbn. apply IH. by apply harmless_apply.
Qed.

Section loop.
  Context (to : Z) (keepVals keepParams : list Z) (db0 : dbStore).

  #[local] Abbreviation V := (fun h => to <= h \/ h ∈ keepVals).
  #[local] Abbreviation P := (fun h => to <= h \/ h ∈ keepParams).

(** A height that is kept has its value. *)
Definition kept_full (h : Z) : Prop :=
  (h ∈ keepVals -> exists pb c, db_validators db0 !! h = Some (mkValidatorsInfo (Some pb) c)) /\
  (h ∈ keepParams -> exists p c, db_consensusParams db0 !! h = Some (mkConsensusParamsInfo p c) /\ p <> empty_params).

Lemma prune_validators_harmless db h :
  agree V P db0 db -> kept_full h -> h < to ->
  exists ops, prune_validators db (bool_decide (h ∈ keepVals)) h = Ok ops /\ Forall (harmless V P) ops.
Proof.
  intros Ha [Hk _] Hlt. unfold prune_validators. destruct (decide (h ∈ keepVals)) as [Hin|Hout].
  - rewrite bool_decide_eq_true_2 by done. destruct (Hk Hin) as (pb & c & Hm).
    rewrite (loadInfo_some db h (mkValidatorsInfo (Some pb) c)); [by exists []| |by left].
    rewrite (proj1 (ag_vals _ _ _ _ Ha h (or_intror Hin))). done.
  - rewrite bool_decide_eq_false_2 by done. eexists. split; [done|]. repeat constructor; cbn; intros [|]; [lia|done|lia|done].
Qed.

Lemma prune_params_harmless db h :
  agree V P db0 db -> kept_full h -> h < to ->
  exists ops, prune_params db (bool_decide (h ∈ keepParams)) h = Ok ops /\ Forall (harmless V P) ops.
Proof.
  intros Ha [_ Hk] Hlt. unfold prune_params, loadConsensusParamsInfo. destruct (decide (h ∈ keepParams)) as [Hin|Hout].
  - rewrite bool_decide_eq_true_2 by done. destruct (Hk Hin) as (p & c & Hm & Hp).
    rewrite (ag_params _ _ _ _ Ha h (or_intror Hin)), Hm. cbn [ci_ConsensusParams]. rewrite bool_decide_eq_false_2 by done. by exists [].
  - rewrite bool_decide_eq_false_2 by done. eexists. split; [done|]. repeat constructor; cbn; intros [|]; [lia|done].
Qed.

Lemma prune_loop_keeps n h batch pruned db :
  (forall g, h - Z.of_nat n < g <= h -> kept_full g) -> h < to -> Forall (harmless V P) batch -> agree V P db0 db ->
  exists db', prune_loop n h keepVals keepParams batch pruned db = (Ok tt, db') /\ agree V P db0 db'.
Proof.
  revert h batch pruned db. induction n as [|n IH]; intros h batch pruned db Hk Hlt Hb Ha; cbn [prune_loop].
  { eexists. split; [done|]. by apply harmless_write. }
  destruct (prune_validators_harmless db h Ha (Hk h ltac:(lia)) Hlt) as (ops1 & H1 & Ho1).
  destruct (prune_params_harmless db h Ha (Hk h ltac:(lia)) Hlt) as (ops2 & H2 & Ho2).
  assert (Hb' : Forall (harmless V P) (batch ++ ops1 ++ ops2 ++ [DeleteResponses h])).
  { repeat (apply Forall_app; split; try done). by repeat constructor. }
  unfold mbind, gom_bind, gget, glift. cbn beta iota. rewrite H1. cbn beta iota. rewrite H2. cbn beta iota zeta.
  destruct (_ =? 0); [|apply IH; try done; try lia; intros g Hg; apply Hk; lia].
  apply IH; try done; try lia; [intros g Hg; apply Hk; lia|]. by apply harmless_write.
Qed.

End loop.

(** *** What a pointer points to is kept *)

Lemma info_full (m : gmap Z ValidatorsInfo) h c :
  info_at <$> m !! h = Some (true, c) -> exists pb, m !! h = Some (mkValidatorsInfo (Some pb) c).
Proof. destruct (m !! h) as [[[pb|] c']|]; cbn; [|done..]. intros [= <-]. by exists pb. Qed.

Lemma info_pointer (m : gmap Z ValidatorsInfo) h c :
  info_at <$> m !! h = Some (false, c) -> m !! h = Some (mkValidatorsInfo None c).
Proof. destruct (m !! h) as [[[pb|] c']|]; cbn; [done| |done]. by intros [= <-]. Qed.

Lemma pinfo_full (m : gmap Z ConsensusParamsInfo) h c :
  pinfo_at <$> m !! h = Some (true, c) -> exists p, m !! h = Some (mkConsensusParamsInfo p c) /\ p <> empty_params.
Proof.
  destruct (m !! h) as [[p c']|]; [|done]. unfold pinfo_at. cbn [fmap option_fmap option_map ci_ConsensusParams ci_LastHeightChanged].
  intros [= Hb <-]. apply bool_decide_eq_true in Hb. eauto.
Qed.

Lemma pinfo_pointer (m : gmap Z ConsensusParamsInfo) h c :
  pinfo_at <$> m !! h = Some (false, c) -> m !! h = Some (mkConsensusParamsInfo empty_params c).
Proof.
  destruct (m !! h) as [[p c']|]; [|done]. unfold pinfo_at. cbn [fmap option_fmap option_map ci_ConsensusParams ci_LastHeightChanged].
  intros [= Hb <-]. apply bool_decide_eq_false, dec_stable in Hb. by rewrite Hb.
Qed.

Section pointers.
  Context {lo top changed interval : Z} {f : Z -> option (bool * Z)} (Hli : linked_infos lo top changed interval f) (Hlo : 0 < lo).

(** The height of the last change has its value. *)
Lemma changed_full h b c : lo <= h <= top -> f h = Some (b, c) -> f c = Some (true, c).
Proof.
  intros Hh Hf. destruct (li_shape _ _ _ _ _ Hli h Hh) as (b' & c' & Hf' & Hc & _). rewrite Hf in Hf'. injection Hf' as <- <-.
  destruct (li_shape _ _ _ _ _ Hli c ltac:(lia)) as (b' & c' & Hf' & Hc' & Hb').
  assert (c' = c) as -> by (eapply (li_mono _ _ _ _ _ Hli c h); eauto; lia). rewrite Hf'. do 2 f_equal. apply Hb'. by left.
Qed.

(** A height below [to] that a later one points to is the last change of [to],
    which is a pointer too, unless there is a checkpoint in between. *)
Lemma pointer_below to h c :
  lo <= to <= h -> h <= top -> f h = Some (false, c) -> c < to ->
  exists bt, f to = Some (bt, c) /\ (bt = true -> Z.rem to interval = 0).
Proof.
  intros Hto Hh Hf Hc. destruct (li_shape _ _ _ _ _ Hli to ltac:(lia)) as (bt & ct & Hft & Hct & Hbt).
  assert (ct = c) as -> by (eapply (li_mono _ _ _ _ _ Hli to h); eauto; lia). exists bt. split; [done|]. intros Hb%Hbt. lia.
Qed.

End pointers.

Lemma checkpoint_le to h : 0 < to <= h -> Z.rem to valSetCheckpointInterval = 0 -> to <= h - Z.rem h valSetCheckpointInterval.
Proof.
  unfold valSetCheckpointInterval. intros Hto Hr. rewrite Z.rem_mod_nonneg in * by lia.
  pose proof (Z.div_mod to 100000 ltac:(lia)). pose proof (Z.div_mod h 100000 ltac:(lia)). pose proof (Z.div_le_mono to h 100000 ltac:(lia)). lia.
Qed.

Lemma checkpoint_same to h : 0 < to <= h -> h - Z.rem h valSetCheckpointInterval < to ->
  h - Z.rem h valSetCheckpointInterval = to - Z.rem to valSetCheckpointInterval.
Proof.
  unfold valSetCheckpointInterval. intros Hto Hr. rewrite !Z.rem_mod_nonneg in * by lia.
  pose proof (Z.div_mod to 100000 ltac:(lia)). pose proof (Z.div_mod h 100000 ltac:(lia)). pose proof (Z.div_le_mono to h 100000 ltac:(lia)).
  pose proof (Z.mod_pos_bound to 100000 ltac:(lia)). pose proof (Z.mod_pos_bound h 100000 ltac:(lia)).
  assert (h / 100000 <= to / 100000) by (apply Z.div_le_lower_bound; lia). nia.
Qed.

Lemma lastStored_max h c : 0 < h <= int64_max -> lastStoredHeightFor h c = Z.max (h - Z.rem h valSetCheckpointInterval) c.
Proof.
  intros Hh. unfold lastStoredHeightFor, valSetCheckpointInterval. rewrite wrap64_id; [done|].
  rewrite Z.rem_mod_nonneg by lia. pose proof (Z.mod_pos_bound h 100000 ltac:(lia)). pose proof (Z.mod_le h 100000 ltac:(lia) ltac:(lia)).
  unfold int64, int64_min, int64_max in *. lia.
Qed.

(** The heights [PruneStates] keeps. *)
Definition keep_vals (valInfo : ValidatorsInfo) (to : Z) : list Z :=
  match vi_ValidatorSet valInfo with
  | None => [vi_LastHeightChanged valInfo; lastStoredHeightFor to (vi_LastHeightChanged valInfo)]
  | Some _ => []
  end.

Definition keep_params (paramsInfo : ConsensusParamsInfo) : list Z :=
  if bool_decide (ci_ConsensusParams paramsInfo = empty_params) then [ci_LastHeightChanged paramsInfo] else [].

Section keeping.
  Context {lo top changed : Z} {db : dbStore} {sets : Z -> ValidatorSet} (Hv : vals_stored lo top changed (db_validators db) sets).
  Context (Hlo : 0 < lo) (Htop : top <= int64_max) {to : Z} (Hto : lo <= to <= top).
  Context {info : ValidatorsInfo} (Hinfo : db_validators db !! to = Some info).

  #[local] Abbreviation f := (fun h => info_at <$> db_validators db !! h).

Lemma keep_vals_full h : h ∈ keep_vals info to -> exists pb c, db_validators db !! h = Some (mkValidatorsInfo (Some pb) c).
Proof.
  pose proof (vs_linked _ _ _ _ _ Hv) as Hli. unfold keep_vals. destruct info as [[set|] c]; cbn; [by intros ?%elem_of_nil|].
  assert (Hft : f to = Some (false, c)) by (by rewrite Hinfo). destruct (li_shape _ _ _ _ _ Hli to Hto) as (b' & c' & Hf' & Hc & Hb).
  rewrite Hft in Hf'. injection Hf' as <- <-. pose proof (changed_full Hli to false c Hto Hft) as Hfc.
  assert (c < to /\ Z.rem to valSetCheckpointInterval <> 0) as [Hlt Hne] by (split; [|intros He; destruct Hb as [_ Hb]; by specialize (Hb (or_intror He))];
    destruct (Z.eq_dec to c) as [->|]; [destruct Hb as [_ Hb]; by specialize (Hb (or_introl eq_refl))|lia]).
  destruct (lastStored_cases to c ltac:(lia) Hlt Hne) as (H1 & _ & H3 & H4).
  rewrite !elem_of_cons. intros [->|[->|[]%elem_of_nil]].
  - destruct (info_full _ _ _ Hfc) as [pb Hpb]. eauto.
  - destruct H4 as [->|H4]; [destruct (info_full _ _ _ Hfc) as [pb Hpb]; eauto|]. set (last := lastStoredHeightFor to c) in *.
    destruct (li_shape _ _ _ _ _ Hli last ltac:(lia)) as (b' & c' & Hf' & _ & Hb'). assert (b' = true) as -> by (apply Hb'; by right).
    destruct (info_full _ _ _ Hf') as [pb Hpb]. eauto.
Qed.

Lemma keep_vals_pointer h c :
  to <= h <= top -> db_validators db !! h = Some (mkValidatorsInfo None c) ->
  to <= lastStoredHeightFor h c \/ lastStoredHeightFor h c ∈ keep_vals info to.
Proof.
  intros Hh Hm. pose proof (vs_linked _ _ _ _ _ Hv) as Hli. destruct (Z_le_gt_dec to (lastStoredHeightFor h c)) as [|Hgt]; [by left|right].
  rewrite lastStored_max in * by lia. assert (Hf : f h = Some (false, c)) by (by rewrite Hm).
  destruct (pointer_below Hli to h c ltac:(lia) ltac:(lia) Hf ltac:(lia)) as (bt & Hft & Hbt).
  destruct bt; [pose proof (checkpoint_le to h ltac:(lia) (Hbt eq_refl)); lia|]. apply info_pointer in Hft.
  assert (info = mkValidatorsInfo None c) as -> by congruence. unfold keep_vals. cbn. rewrite lastStored_max by lia.
  rewrite (checkpoint_same to h) by lia. right. left.
Qed.

End keeping.

(** The same for the parameters. *)
Section keeping_params.
  Context {lo top changed : Z} {db : dbStore} {ps : Z -> ConsensusParams} (Hp : params_stored lo top changed (db_consensusParams db) ps).
  Context (Hlo : 0 < lo) {to : Z} (Hto : lo <= to <= top) {info : ConsensusParamsInfo} (Hinfo : db_consensusParams db !! to = Some info).

  #[local] Abbreviation f := (fun h => pinfo_at <$> db_consensusParams db !! h).

Lemma keep_params_full h :
  h ∈ keep_params info -> exists p c, db_consensusParams db !! h = Some (mkConsensusParamsInfo p c) /\ p <> empty_params.
Proof.
  pose proof (pst_linked _ _ _ _ _ Hp) as Hli. unfold keep_params. destruct (bool_decide _); [|by intros ?%elem_of_nil].
  rewrite list_elem_of_singleton. intros ->. destruct (li_shape _ _ _ _ _ Hli to Hto) as (b & c & Hf & _).
  pose proof (changed_full Hli to b c Hto Hf) as Hfc. rewrite Hinfo in Hf. injection Hf as _ <-.
  destruct (pinfo_full _ _ _ Hfc) as (p & Hpp & Hne). eauto.
Qed.

Lemma keep_params_pointer h c :
  to <= h <= top -> db_consensusParams db !! h = Some (mkConsensusParamsInfo empty_params c) -> to <= c \/ c ∈ keep_params info.
Proof.
  intros Hh Hm. pose proof (pst_linked _ _ _ _ _ Hp) as Hli. destruct (Z_le_gt_dec to c) as [|Hgt]; [by left|right].
  assert (Hf : f h = Some (false, c)) by (by rewrite Hm).
  destruct (pointer_below Hli to h c ltac:(lia) ltac:(lia) Hf ltac:(lia)) as (bt & Hft & Hbt).
  destruct bt; [specialize (Hbt eq_refl); rewrite Z.rem_0_r_ext in Hbt by done; lia|]. apply pinfo_pointer in Hft.
  assert (info = mkConsensusParamsInfo empty_params c) as -> by congruence. unfold keep_params. cbn. left.
Qed.

End keeping_params.

Lemma loadInfo_agree V P db db' h : agree V P db db' -> V h -> loadValidatorsInfo db' h = loadValidatorsInfo db h.
Proof. intros Ha Hh. unfold loadValidatorsInfo. by rewrite (proj1 (ag_vals _ _ _ _ Ha h Hh)). Qed.

Lemma load_set_agree V P db db' h :
  agree V P db db' -> V h -> (forall c, db_validators db !! h = Some (mkValidatorsInfo None c) -> V (lastStoredHeightFor h c)) ->
  load_set db' h = load_set db h.
Proof.
  intros Ha Hh Hp. unfold load_set. destruct (h =? 0); [done|]. rewrite (loadInfo_agree V P db db') by done.
  destruct (loadValidatorsInfo db h) as [[[set|] c]|] eqn:Ei; [done| |done]. cbn [vi_ValidatorSet vi_LastHeightChanged].
  rewrite (loadInfo_agree V P db db' (lastStoredHeightFor h c)); [done|done|]. apply Hp. unfold loadValidatorsInfo in Ei.
  destruct (db_validators db !! h) as [[[?|] [|?|?]]|]; congruence.
Qed.

Lemma load_params_agree V P db db' h :
  agree V P db db' -> P h -> (forall c, db_consensusParams db !! h = Some (mkConsensusParamsInfo empty_params c) -> P c) ->
  LoadConsensusParams db' h = LoadConsensusParams db h.
Proof.
  intros Ha Hh Hp. unfold LoadConsensusParams, loadConsensusParamsInfo. rewrite (ag_params _ _ _ _ Ha h Hh).
  destruct (db_consensusParams db !! h) as [[p c]|] eqn:Ei; [|done]. cbn [ci_ConsensusParams ci_LastHeightChanged].
  destruct (decide (p = empty_params)) as [->|Hne]; [|by rewrite bool_decide_eq_false_2].
  rewrite bool_decide_eq_true_2 by done. by rewrite (ag_params _ _ _ _ Ha c (Hp c eq_refl)).
Qed.

Lemma prune_spec lo top changed ptop pchanged db sets ps from to :
  vals_stored lo top changed (db_validators db) sets -> params_stored lo ptop pchanged (db_consensusParams db) ps ->
  0 < lo -> ptop <= top <= int64_max -> 0 < from < to -> lo <= to <= ptop ->
  exists db', PruneStates from to db = (Ok tt, db') /\ db_state db' = db_state db /\
    (forall h, to <= h <= top -> load_set db' h = load_set db h /\ db_proofHash db' !! h = db_proofHash db !! h) /\
    (forall h, to <= h <= ptop -> LoadConsensusParams db' h = LoadConsensusParams db h).
Proof.
  intros Hv Hp Hlo Htop Hft Hto. destruct (li_shape _ _ _ _ _ (vs_linked _ _ _ _ _ Hv) to ltac:(lia)) as (b & c & Hf & Hc & _).
  destruct (db_validators db !! to) as [info|] eqn:Ei; [|done]. injection Hf as Hb Hic.
  destruct (li_shape _ _ _ _ _ (pst_linked _ _ _ _ _ Hp) to ltac:(lia)) as (bp & cp & Hfp & _).
  destruct (db_consensusParams db !! to) as [pinfo|] eqn:Eip; [|done].
  destruct (prune_loop_keeps to (keep_vals info to) (keep_params pinfo) db (Z.to_nat (to - from)) (to - 1) [] 0 db) as (db' & Hl & Ha).
  { intros g _. split; intros Hg; [eapply (keep_vals_full Hv); [| | |exact Ei|exact Hg]; lia|eapply (keep_params_full Hp); [|exact Eip|exact Hg]; lia]. }
  { lia. } { constructor. } { apply agree_refl. }
  exists db'. split.
  { unfold PruneStates. rewrite !(proj2 (Z.leb_gt _ _)) by lia. cbn [orb]. unfold mbind, gom_bind, gget. cbn beta iota.
    rewrite (loadInfo_some _ _ _ Ei) by (right; lia). unfold loadConsensusParamsInfo. rewrite Eip. exact Hl. }
  split; [apply Ha|]. split.
  - intros h Hh. split; [|apply (ag_vals _ _ _ _ Ha); by left; lia]. eapply load_set_agree; [exact Ha|left; lia|].
    intros c' Hc'. eapply (keep_vals_pointer Hv); try done; lia.
  - intros h Hh. eapply load_params_agree; [exact Ha|left; lia|]. intros c' Hc'. eapply (keep_params_pointer Hp); try done; lia.
Qed.

(** ** The theorems *)

Lemma genesis_fresh `{CryptoLib} hash now genDoc s :
  MakeGenesisState hash now genDoc = Ok s -> Validators (st_Validators s) <> [] -> fits (st_Validators s) ->
  int64 (gd_InitialHeight genDoc) -> st_LastProofHash s <> [] -> Forall storable (Validators (st_Validators s)) -> fresh s.
Proof.
  intros Hg Hne Hf Hi Hh Hst. destruct (genesis_ok _ _ _ _ Hg Hne Hf Hi) as [Hok Hz].
  pose proof (co_validators _ Hok) as Hvok. unfold MakeGenesisState in Hg. apply obind_Ok in Hg as (g & Hc & Hg).
  apply obind_Ok in Hg as (vals & _ & Hg). apply obind_Ok in Hg as (set & Hset & Hg). apply obind_Ok in Hg as (voters & Hv & [= <-]).
  cbn [st_Validators st_LastProofHash] in *. apply ValidateAndComplete_Ok in Hc as [[_ _ (vp & Evp & Hvp)] _].
  rewrite Evp in Hv. cbn [default from_option id] in Hv. pose proof (wf_power_nonneg _ (so_wf _ Hvok)) as Hp.
  destruct (SelectVoter_wf (E:=genesis_error) set (hash g) vp Hvok Hvp) as (w & Hw & _ & _ & Hch).
  change (default DefaultVoterParams (Some vp)) with vp in Hv. assert (w = voters) as -> by congruence.
  constructor; try done.
  - constructor; cbn; try done. split; [by eapply chosen_Forall; [apply storable_set_weight|exact Hch|]|].
    by eapply chosen_Forall; [|exact Hch|exact Hp].
  - cbn. rewrite Evp. destruct (SelectVoter_same (E':=unit) set set _ _ _ (reflexivity _) Hv) as (w & Hw' & Hs).
    exists w. split; [exact Hw'|by symmetry].
Qed.

(** *** Two saved states *)

Section toy_store.
  #[local] Existing Instances toy_crypto toy_time toy_wrappers toy_vrf.

Definition second_state : ChainState := with_AppHash first_state [].
Definition toy_db1 : dbStore := snd (save toy_start empty_db).
Definition toy_db2 : dbStore := snd (save second_state toy_db1).

Lemma toy_storable : Forall storable (Validators (st_Validators toy_start)).
Proof. vm_compute. repeat constructor; (eexists; split; reflexivity). Qed.

Lemma toy_saved : saved [toy_start; second_state] toy_db2.
Proof.
  apply (saved_block [] toy_start toy_db1 (toy_id first_block) (b_Header first_block) [] None [] first_state []);
    [|by vm_compute|by vm_compute|exact toy_start_fits|constructor|by vm_compute|vm_compute; reflexivity|by vm_compute|].
  - apply saved_start; [|by vm_compute]. eapply (genesis_fresh _ _ _ _ toy_start_made); [by vm_compute|exact toy_start_fits| |by vm_compute|exact toy_storable].
    split; vm_compute; done.
  - vm_compute. reflexivity.
Qed.

End toy_store.

(** C13: the store remembers every state.  When the states of a chain are saved
    one after the other, then for the height after each of them the store has the
    validators, up to their priorities, the voters, up to their priorities, and
    the parameters of that state, although it keeps most sets and parameters as
    pointers to earlier heights and elects the voters anew; and the last state
    is read back as it was saved. *)
Theorem store_remembers `{CryptoLib} `{VrfLib} l db :
  saved l db -> (forall s, s ∈ l -> answered db s) /\ Load db = Ok (last l).
Proof.
  intros (lo & l' & s & -> & Hr)%saved_remembered. split; [intros si; by eapply remembered_answers|].
  rewrite last_snoc. by eapply remembered_load.
Qed.

Lemma store_remembers_witness :
  answered toy_db2 toy_start /\ answered toy_db2 second_state /\ Load toy_db2 = Ok (Some second_state).
Proof.
  destruct (@store_remembers toy_crypto toy_vrf _ _ toy_saved) as [Ha Hl].
  split; [apply Ha; left|]. split; [apply Ha; right; left|exact Hl].
Defined.

(** Pruning loses nothing above its bound.  [PruneStates] up to the height of
    a saved state never fails, keeps the last state, and afterwards the store
    still has the validators, voters and parameters of every saved state at or
    above the bound, whose pointers lead below it. *)
Theorem prune_keeps `{CryptoLib} `{VrfLib} l db from st :
  saved l db -> st ∈ l -> 0 < from < next_height st ->
  exists db', PruneStates from (next_height st) db = (Ok tt, db') /\ Load db' = Ok (last l) /\
    forall s, s ∈ l -> next_height st <= next_height s -> answered db' s.
Proof.
  intros (lo & l' & s & -> & Hr)%saved_remembered Hst Hfrom. pose proof (remembered_load _ _ _ _ Hr) as Hload.
  assert (Hheight : forall si, si ∈ l' ++ [s] -> lo <= next_height si <= next_height s).
  { intros si [i Hi]%list_elem_of_lookup. destruct (rm_hashes _ _ _ _ Hr i si Hi) as (-> & _). pose proof (snoc_bound _ _ _ _ Hi).
    destruct (rm_next _ _ _ _ Hr) as [-> _]. unfold lenZ. lia. }
  assert (Hans : forall si, si ∈ l' ++ [s] -> answered db si) by (intros si; by eapply remembered_answers).
  destruct Hr as [_ _ [Hlo _] [_ Hmax] (sets & Hv & _) (ps & Hp & _) _ _].
  destruct (prune_spec _ _ _ _ _ db sets ps from (next_height st) Hv Hp Hlo) as (db' & Hpr & Hs & Hset & Hpar); [lia|done|by apply Hheight|].
  exists db'. split; [done|]. split; [unfold Load in *; rewrite Hs, last_snoc; exact Hload|].
  intros si Hsi Hle. pose proof (Hheight si Hsi) as Hb. destruct (Hset (next_height si) ltac:(lia)) as [Hset' Hph].
  destruct (Hans si Hsi) as [Ha1 Ha2 Ha3]. constructor.
  - unfold LoadValidators in *. by rewrite Hset'.
  - unfold LoadVoters, loadProofHash in *. by rewrite Hset', Hph.
  - by rewrite Hpar by lia.
Qed.

Lemma prune_keeps_witness :
  exists db', PruneStates 1 2 toy_db2 = (Ok tt, db') /\ Load db' = Ok (Some second_state) /\ answered db' second_state.
Proof.
  destruct (@prune_keeps toy_crypto toy_vrf _ _ 1 second_state toy_saved) as (db' & Hp & Hl & Ha).
  - right. left.
  - split; by vm_compute.
  - exists db'. split; [exact Hp|]. split; [exact Hl|]. apply Ha; [right; left|lia].
Defined.
