(* ===== verification/BlockStore.v ===== *)
(** * The block store: src/store/store.go and src/types/block_meta.go

    The parts, the meta data and the commits of the blocks between [base] and
    [height], in a database with one map per kind of key.  The database holds
    messages; what comes back from a message is [decoded]: empty strings become
    nil.  The generated decoder of a block is an argument of [LoadBlock], the
    failures of the database itself are left out. *)

From Stdlib Require Import ZArith Lia.
From stdpp Require Import prelude list gmap.
From S2P Require Import Prelude Crypto Merkle Proto Block PartSet Header Light BlockProto Evidence ChainState.

Local Open Scope Z_scope.
Local Open Scope go_scope.

(** ** Meta data of a block *)

Record BlockMeta := mkBlockMeta { bm_BlockID : BlockID; bm_BlockSize : Z; bm_Header : Header; bm_NumTxs : Z }.

Inductive meta_error := ErrMetaBlockID (e : basic_error) | ErrMetaHeader (e : header_error) | ErrMetaHash.

(** What a message gives back. *)
Definition decoded_bytes (b : option bytes) : option bytes := match b with Some [] => None | b => b end.

Definition decoded_header (h : Header) : Header :=
  with_hashes h (decoded_bytes (h_LastCommitHash h)) (decoded_bytes (h_DataHash h)) (decoded_bytes (h_EvidenceHash h)).

Definition decoded_sig (cs : CommitSig) : CommitSig :=
  mkCommitSig (cs_BlockIDFlag cs) (cs_ValidatorAddress cs) (cs_Timestamp cs) (decoded_bytes (cs_Signature cs)).

Definition decoded_commit (c : Commit) : Commit :=
  mkCommit (c_Height c) (c_Round c) (c_BlockID c) (decoded_sig <$> c_Signatures c) (decoded_bytes (c_AggregatedSignature c)).

(** ** The database *)

Record blockDB := mkBlockDB {
  bd_meta : gmap Z BlockMeta;
  bd_part : gmap (Z * Z) Part;
  bd_commit : gmap Z Commit;
  bd_seen : gmap Z Commit;
  bd_hash : gmap bytes Z;
  bd_state : option (Z * Z)
}.

Inductive block_op :=
| SetMeta (h : Z) (m : BlockMeta) | DeleteMeta (h : Z)
| SetPart (h i : Z) (p : Part) | DeletePart (h i : Z)
| SetCommit (h : Z) (c : Commit) | DeleteCommit (h : Z)
| SetSeen (h : Z) (c : Commit) | DeleteSeen (h : Z)
| SetHash (hash : bytes) (h : Z) | DeleteHash (hash : bytes)
| SetBlockState (base height : Z).

Definition block_apply (db : blockDB) (op : block_op) : blockDB :=
  let '(mkBlockDB metas parts commits seen hashes state) := db in
  match op with
  | SetMeta h m => mkBlockDB (<[h := m]> metas) parts commits seen hashes state
  | DeleteMeta h => mkBlockDB (delete h metas) parts commits seen hashes state
  | SetPart h i p => mkBlockDB metas (<[(h, i) := p]> parts) commits seen hashes state
  | DeletePart h i => mkBlockDB metas (delete (h, i) parts) commits seen hashes state
  | SetCommit h c => mkBlockDB metas parts (<[h := c]> commits) seen hashes state
  | DeleteCommit h => mkBlockDB metas parts (delete h commits) seen hashes state
  | SetSeen h c => mkBlockDB metas parts commits (<[h := c]> seen) hashes state
  | DeleteSeen h => mkBlockDB metas parts commits (delete h seen) hashes state
  | SetHash hash h => mkBlockDB metas parts commits seen (<[hash := h]> hashes) state
  | DeleteHash hash => mkBlockDB metas parts commits seen (delete hash hashes) state
  | SetBlockState base height => mkBlockDB metas parts commits seen hashes (Some (base, height))
  end.

Definition block_write (db : blockDB) (batch : list block_op) : blockDB := foldl block_apply db batch.

Record BlockStore := mkBlockStore { bs_db : blockDB; bs_base : Z; bs_height : Z }.

(** A state of two zeros is a message of no bytes. *)
Definition LoadBlockStoreState (db : blockDB) : Z * Z :=
  match bd_state db with
  | None => (0, 0)
  | Some (base, height) => if (0 <? height) && (base =? 0) then (1, height) else (base, height)
  end.

Definition NewBlockStore (db : blockDB) : BlockStore :=
  let '(base, height) := LoadBlockStoreState db in mkBlockStore db base height.

Definition BlockStore_Size (bs : BlockStore) : Z := if bs_height bs =? 0 then 0 else bs_height bs -i64 bs_base bs +i64 1.

Section store.
  Context {crypto : CryptoLib} {codec : TimeCodec} {wrappers : WrapperLib}.

(** [Hash] fills the header it hashes; [Size] is zero for a block without a
    message. *)
Definition NewBlockMeta {E} (block : Block) (blockParts : PartSet) : outcome E BlockMeta :=
  hash ← Block_Hash block;
  block ← match b_LastCommit block with None => Ok block | Some _ => fillHeader block end;
  Ok (mkBlockMeta (mkBlockID hash (PartSet_Header (Some blockParts))) (default 0 (lenZ <$> Block_Marshal block))
        (b_Header block) (lenZ (b_Txs block))).

Definition BlockMeta_ValidateBasic (bm : BlockMeta) : outcome meta_error unit :=
  _ ← lift_err ErrMetaBlockID (BlockID_ValidateBasic (bm_BlockID bm));
  if negb (bytes_eqb (bid_Hash (bm_BlockID bm)) (Header_Hash (bm_Header bm))) then Err ErrMetaHash else Ok tt.

Definition HeaderFromProto (ph : Header) : outcome header_error Header :=
  _ ← lift_err ErrLastBlockID (BlockIDFromProto (h_LastBlockID ph));
  let h := decoded_header ph in
  _ ← Header_ValidateBasic h; Ok h.

Definition BlockMetaFromProto (pb : BlockMeta) : outcome meta_error BlockMeta :=
  bi ← lift_err ErrMetaBlockID (BlockIDFromProto (bm_BlockID pb));
  h ← lift_err ErrMetaHeader (HeaderFromProto (bm_Header pb));
  let bm := mkBlockMeta bi (bm_BlockSize pb) h (bm_NumTxs pb) in
  _ ← BlockMeta_ValidateBasic bm; Ok bm.

Definition PartFromProto (pb : Part) : outcome part_error Part :=
  _ ← lift_err ErrPartProof (Proof_ValidateBasic (pt_Proof pb));
  _ ← Part_ValidateBasic pb; Ok pb.

(** ** Loading

    A missing entry is nil, one that does not convert is a panic. *)

Definition load_with {E E' A B} (convert : A -> outcome E' B) (entry : option A) : outcome E (option B) :=
  match entry with
  | None => Ok None
  | Some a => match convert a with Ok b => Ok (Some b) | _ => Panic end
  end.

Definition LoadBlockPart {E} (bs : BlockStore) (height index : Z) : outcome E (option Part) :=
  load_with PartFromProto (bd_part (bs_db bs) !! (height, index)).

Definition LoadBlockMeta {E} (bs : BlockStore) (height : Z) : outcome E (option BlockMeta) :=
  load_with BlockMetaFromProto (bd_meta (bs_db bs) !! height).

Definition LoadBlockCommit {E} (bs : BlockStore) (height : Z) : outcome E (option Commit) :=
  load_with (fun c => CommitFromProto (decoded_commit c)) (bd_commit (bs_db bs) !! height).

Definition LoadSeenCommit {E} (bs : BlockStore) (height : Z) : outcome E (option Commit) :=
  load_with (fun c => CommitFromProto (decoded_commit c)) (bd_seen (bs_db bs) !! height).

Definition LoadBaseMeta {E} (bs : BlockStore) : outcome E (option BlockMeta) :=
  if bs_base bs =? 0 then Ok None else LoadBlockMeta bs (bs_base bs).

(** The bytes of the parts from [i] on, [n] of them; nil if one is missing. *)
Fixpoint load_parts {E} (bs : BlockStore) (height i : Z) (n : nat) : outcome E (option bytes) :=
  match n with
  | O => Ok (Some [])
  | S n =>
      part ← LoadBlockPart bs height i;
      match part with
      | None => Ok None
      | Some part => rest ← load_parts bs height (i + 1) n; Ok (option_map (app (pt_Bytes part)) rest)
      end
  end.

(** [decode] stands for [proto.Unmarshal] and [BlockFromProto]. *)
Definition LoadBlock {E} (decode : bytes -> option Block) (bs : BlockStore) (height : Z) : outcome E (option Block) :=
  meta ← LoadBlockMeta bs height;
  match meta with
  | None => Ok None
  | Some meta =>
      buf ← load_parts bs height 0 (Z.to_nat (Total (bid_PartSetHeader (bm_BlockID meta))));
      match buf with
      | None => Ok None
      | Some buf => block ← or_panic (decode buf); Ok (Some block)
      end
  end.

Definition LoadBlockByHash {E} (decode : bytes -> option Block) (bs : BlockStore) (hash : bytes) : outcome E (option Block) :=
  match bd_hash (bs_db bs) !! hash with None => Ok None | Some height => LoadBlock decode bs height end.

(** ** Saving *)

Inductive prune_error := ErrPruneNotPositive | ErrPruneBeyondHeight | ErrPruneBelowBase.

Abbreviation BlockStoreM := (GoM BlockStore prune_error).

Definition bs_set (op : block_op) : BlockStoreM unit :=
  gmodify (fun bs => mkBlockStore (block_apply (bs_db bs) op) (bs_base bs) (bs_height bs)).

Definition saveState : BlockStoreM unit := bs ← gget; bs_set (SetBlockState (bs_base bs) (bs_height bs)).

Definition saveBlockPart (height index : Z) (part : option Part) : BlockStoreM unit :=
  part ← glift (or_panic part); bs_set (SetPart height index part).

(** The parts from [i] on, [n] of them. *)
Fixpoint save_parts (blockParts : PartSet) (height i : Z) (n : nat) : BlockStoreM unit :=
  match n with
  | O => mret tt
  | S n =>
      part ← glift (GetPart blockParts i);
      saveBlockPart height i part;;
      save_parts blockParts height (i + 1) n
  end.

(** A nil commit has no message. *)
Definition commit_message {E} (c : option Commit) : outcome E Commit :=
  c ← or_panic c; _ ← or_panic (Commit_Marshal c); Ok c.

Definition SaveBlock (block : option Block) (blockParts : PartSet) (seenCommit : option Commit) : BlockStoreM unit :=
  block ← glift (or_panic block);
  let height := h_Height (b_Header block) in
  hash ← glift (Block_Hash block);
  bs ← gget;
  if (0 <? bs_base bs) && negb (height =? bs_height bs +i64 1) then gpanic
  else if negb (IsComplete blockParts) then gpanic
  else
    save_parts blockParts height 0 (Z.to_nat (PartSet_Total (Some blockParts)));;
    blockMeta ← glift (NewBlockMeta block blockParts);
    _ ← glift (or_panic (Header_Marshal (bm_Header blockMeta)));
    bs_set (SetMeta height blockMeta);;
    bs_set (SetHash hash height);;
    lastCommit ← glift (commit_message (b_LastCommit block));
    bs_set (SetCommit (height -i64 1) lastCommit);;
    seenCommit ← glift (commit_message seenCommit);
    bs_set (SetSeen height seenCommit);;
    gmodify (fun bs => mkBlockStore (bs_db bs) (if bs_base bs =? 0 then height else bs_base bs) height);;
    saveState.

Definition SaveSeenCommit (height : Z) (seenCommit : option Commit) : BlockStoreM unit :=
  seenCommit ← glift (commit_message seenCommit);
  bs_set (SetSeen height seenCommit).

(** ** Pruning *)

Definition delete_block (h : Z) (meta : BlockMeta) : list block_op :=
  [DeleteMeta h; DeleteHash (bid_Hash (bm_BlockID meta)); DeleteCommit h; DeleteSeen h] ++
  (DeletePart h <$> seqZ 0 (Total (bid_PartSetHeader (bm_BlockID meta)))).

Definition flush (batch : list block_op) (base : Z) : BlockStoreM unit :=
  gmodify (fun bs => mkBlockStore (bs_db bs) base (bs_height bs));;
  saveState;;
  gmodify (fun bs => mkBlockStore (block_write (bs_db bs) batch) (bs_base bs) (bs_height bs)).

(** [n] heights from [h] on; gives the batch that is left and the count. *)
Fixpoint prune_blocks (n : nat) (h : Z) (batch : list block_op) (pruned : Z) : BlockStoreM (list block_op * Z) :=
  match n with
  | O => mret (batch, pruned)
  | S n =>
      bs ← gget;
      meta ← glift (LoadBlockMeta bs h);
      match meta with
      | None => prune_blocks n (h + 1) batch pruned
      | Some meta =>
          let batch := batch ++ delete_block h meta in
          let pruned := pruned + 1 in
          if Z.rem pruned 1000 =? 0 then flush batch h;; prune_blocks n (h + 1) [] pruned
          else prune_blocks n (h + 1) batch pruned
      end
  end.

Definition PruneBlocks (height : Z) : BlockStoreM Z :=
  bs ← gget;
  if height <=? 0 then gfail ErrPruneNotPositive
  else if bs_height bs <? height then gfail ErrPruneBeyondHeight
  else
    let base := bs_base bs in
    if height <? base then gfail ErrPruneBelowBase
    else
      '(batch, pruned) ← prune_blocks (Z.to_nat (height - base)) base [] 0;
      flush batch height;;
      mret pruned.

End store.
