(* ===== verification/BlockStoreProps.v ===== *)
(** * The block store keeps the blocks it is given

    The store of src/store/store.go implements a list of blocks: saving appends,
    pruning drops from the front, reopening changes nothing, and every load gives
    what was saved. *)

From Stdlib Require Import ZArith Lia.
From stdpp Require Import prelude list gmap.
From S2P Require Import Prelude Crypto Merkle MerkleProps Proto Block PartSet PartSetProps Header Light BlockProto Evidence.
From S2P Require Import ChainState ChainProps BlockStore.

Local Open Scope Z_scope.
Local Open Scope go_scope.

(** ** Blocks that can be stored *)

Record entry := mkEntry { en_block : Block; en_parts : PartSet; en_seen : Commit }.

Section store.
  Context {crypto : CryptoLib} {codec : TimeCodec} {wrappers : WrapperLib}.

(** A commit that has a message, from which it is read back. *)
Definition commit_ok (c : Commit) : Prop :=
  is_Some (Commit_Marshal c) /\ CommitFromProto (decoded_commit c) = Ok (decoded_commit c).

Record storable (e : entry) (bz : bytes) (lastCommit : Commit) : Prop := {
  so_valid : Block_ValidateBasic (en_block e) = Ok tt;
  so_height : h_Height (b_Header (en_block e)) < int64_max;
  so_bytes : Block_Marshal (en_block e) = Some bz;
  so_size : lenZ bz <= MaxBlockSizeBytes;
  so_parts : MakePartSet (E:=unit) (en_block e) BlockPartSizeBytes = Ok (en_parts e);
  so_last : b_LastCommit (en_block e) = Some lastCommit /\ commit_ok lastCommit;
  so_seen : commit_ok (en_seen e)
}.

Definition en_height (e : entry) : Z := h_Height (b_Header (en_block e)).
Definition en_hash (e : entry) : bytes := Header_Hash (b_Header (en_block e)).

Definition en_meta (e : entry) : BlockMeta :=
  mkBlockMeta (mkBlockID (en_hash e) (PartSet_Header (Some (en_parts e)))) (default 0 (lenZ <$> Block_Marshal (en_block e)))
    (b_Header (en_block e)) (lenZ (b_Txs (en_block e))).

Context {laws : Sha256Length}.

Lemma hash_bytes_full o (x : bytes) : length x = tmhash_Size -> hash_bytes o = x -> o = Some x.
Proof. intros Hl. destruct o as [y|]; cbn; intros <-; [done|]. by cbv in Hl. Qed.

Lemma merkle_root_length items : length (HashFromByteSlices items) = tmhash_Size.
Proof. destruct (HashFromByteSlices_sha items) as [x ->]. apply sha256_length. Qed.

(** The header of a valid block has its hashes. *)
Lemma valid_filled b :
  Block_ValidateBasic b = Ok tt -> exists commit d e,
    b_LastCommit b = Some commit /\ Header_ValidateBasic (b_Header b) = Ok tt /\
    h_LastCommitHash (b_Header b) = Some d /\ h_DataHash (b_Header b) = Some (Txs_Hash (b_Txs b)) /\
    h_EvidenceHash (b_Header b) = Some e /\ d <> [] /\ Txs_Hash (b_Txs b) <> [] /\ e <> [].
Proof.
  intros [commit [Hh [Hc _] Hch Hd _ Heh]]%Block_ValidateBasic_iff.
  assert (Hne : forall x : bytes, length x = tmhash_Size -> x <> []) by (intros x Hx ->; by cbv in Hx).
  cbn in Hch. apply obind_Ok in Hch as (bs & _ & Hch). injection Hch as Hch.
  unfold EvidenceList_Hash in Heh. apply obind_Ok in Heh as (evs & _ & Heh). injection Heh as Heh.
  assert (Ht : length (Txs_Hash (b_Txs b)) = tmhash_Size) by apply merkle_root_length.
  eexists commit, _, _. split_and!; [done|done| | | | | |].
  - eapply hash_bytes_full; [apply merkle_root_length|done].
  - by apply hash_bytes_full.
  - eapply hash_bytes_full; [apply merkle_root_length|done].
  - apply Hne, merkle_root_length.
  - by apply Hne.
  - apply Hne, merkle_root_length.
Qed.

Lemma valid_block b :
  Block_ValidateBasic b = Ok tt ->
  (forall E, fillHeader (E:=E) b = Ok b) /\ decoded_header (b_Header b) = b_Header b /\
  (forall E, Block_Hash (E:=E) b = Ok (Header_Hash (b_Header b))).
Proof.
  intros (commit & d & e & Hc & _ & H1 & H2 & H3 & N1 & N2 & N3)%valid_filled.
  assert (Hf : forall E, fillHeader (E:=E) b = Ok b).
  { intros E. unfold fillHeader. rewrite H1, H2, H3. cbn [mbind outcome_bind]. f_equal. rewrite <- H1, <- H2, <- H3. by destruct b as [[] ? ? ?]. }
  split_and!; [done| |intros E; unfold Block_Hash; by rewrite Hc, Hf].
  unfold decoded_header. rewrite H1, H2, H3. destruct d, (Txs_Hash (b_Txs b)), e; try done. cbn [decoded_bytes].
  rewrite <- H1, <- H2, <- H3. by destruct (b_Header b).
Qed.

Lemma storable_positive e bz c : storable e bz c -> 0 < en_height e.
Proof.
  intros [(_ & _ & _ & _ & Hv & _)%valid_filled _ _ _ _ _ _]. unfold Header_ValidateBasic in Hv.
  rewrite !guard_Ok, Z.ltb_ge, Z.eqb_neq in Hv. unfold en_height. lia.
Qed.

Lemma storable_data e bz c : storable e bz c -> bz <> [].
Proof.
  intros [_ _ Hb _ _ _ _] ->. unfold Block_Marshal in Hb. destruct (Header_Marshal _); [|done]. cbn in Hb.
  destruct (EvidenceList_Marshal _); [|done]. cbn in Hb. by destruct (opt_mapM _ _).
Qed.

(** Its parts are those of its bytes. *)
Lemma storable_parts e bz c :
  storable e bz c -> exists chunks parts bits, data_parts bz BlockPartSizeBytes chunks parts /\
    en_parts e = mkPartSet (lenZ chunks) (HashFromByteSlices chunks) (Some <$> parts) bits (lenZ chunks) (lenZ bz).
Proof.
  intros Hs. pose proof (storable_data _ _ _ Hs) as Hne. destruct Hs as [_ _ Hb Hsz Hp _ _].
  unfold MaxBlockSizeBytes, BlockPartSizeBytes, MakePartSet in *. rewrite Hb in Hp. cbn [or_panic mbind outcome_bind] in Hp.
  destruct (NewPartSetFromData_spec (E:=unit) bz 65536 ltac:(lia) Hne ltac:(lia)) as (chunks & parts & bits & Hd & Hn).
  exists chunks, parts, bits. split; [done|]. rewrite Hn in Hp. by injection Hp.
Qed.

Lemma storable_total e bz c : storable e bz c -> ps_total (en_parts e) = lenZ (ps_parts (en_parts e)).
Proof.
  intros Hs. destruct (storable_parts _ _ _ Hs) as (chunks & parts & bits & Hd & ->). cbn [ps_total ps_parts].
  rewrite <- (dp_bytes _ _ _ _ Hd). unfold lenZ. by rewrite !length_fmap.
Qed.

Lemma part_valid bz chunks parts (i : nat) p :
  lenZ bz <= MaxBlockSizeBytes -> data_parts bz BlockPartSizeBytes chunks parts -> parts !! i = Some p -> PartFromProto p = Ok p.
Proof.
  intros Hsz [Hc _ _ Hs Hb Hp] Hi. destruct (Hp i p Hi) as (_ & aunts & Hpr & _ & Hsha & Hd). unfold MaxBlockSizeBytes, BlockPartSizeBytes in *.
  assert (Hv : Proof_ValidateBasic (pt_Proof p) = Ok tt).
  { rewrite Hpr. apply built_proof_valid; [done|]. apply (Hd 100); [lia|]. rewrite Hc. apply Z.div_le_upper_bound; lia. }
  unfold PartFromProto, Part_ValidateBasic. rewrite Hv. cbn [lift_err mbind outcome_bind]. unfold BlockPartSizeBytes.
  destruct (Z.ltb_spec 65536 (lenZ (pt_Bytes p))) as [Hlt|]; [|done]. rewrite Forall_forall in Hs.
  assert (Hin : pt_Bytes p ∈ chunks) by (rewrite <- Hb; apply list_elem_of_fmap; eauto using list_elem_of_lookup_2). specialize (Hs _ Hin). lia.
Qed.

Lemma full_hash x : length x = tmhash_Size -> ValidateHash x = Ok tt.
Proof. intros Hl. unfold ValidateHash. rewrite (bool_decide_eq_false_2 (length x <> _)) by (by intros []). by rewrite andb_false_r. Qed.

Lemma header_hash_valid h : ValidateHash (Header_Hash h) = Ok tt.
Proof. unfold Header_Hash. destruct (_ || _); [done|]. destruct (StdTimeMarshal _); [|done]. apply full_hash, merkle_root_length. Qed.

Lemma block_id_converts b : BlockID_ValidateBasic b = Ok tt -> BlockIDFromProto b = Ok b.
Proof.
  destruct b as [x p]. intros Hid. unfold BlockIDFromProto, PartSetHeaderFromProto. cbn [bid_Hash bid_PartSetHeader].
  destruct (proj1 (seq_Ok _ _ _) Hid) as [_ Hp]. cbn [bid_PartSetHeader] in Hp. rewrite Hp. cbn [mbind outcome_bind]. by rewrite Hid.
Qed.

Lemma header_converts b : Block_ValidateBasic b = Ok tt -> HeaderFromProto (b_Header b) = Ok (b_Header b).
Proof.
  intros Hv. destruct (valid_block _ Hv) as (_ & Hdec & _). destruct (valid_filled _ Hv) as (_ & _ & _ & _ & Hh & _).
  unfold HeaderFromProto. rewrite Hdec, Hh. unfold Header_ValidateBasic in Hh. rewrite !guard_Ok, seq_Ok in Hh.
  destruct Hh as (_ & _ & _ & _ & Hid & _). rewrite block_id_converts; [done|].
  by destruct (BlockID_ValidateBasic _) as [[]|e|].
Qed.

Lemma meta_valid e bz c : storable e bz c -> BlockMetaFromProto (en_meta e) = Ok (en_meta e).
Proof.
  intros Hs. destruct (storable_parts _ _ _ Hs) as (chunks & parts & bits & _ & Hps). destruct Hs as [Hv _ _ _ _ _ _].
  assert (Hid : BlockID_ValidateBasic (bm_BlockID (en_meta e)) = Ok tt).
  { unfold BlockID_ValidateBasic, en_meta, en_hash. cbn [bm_BlockID bid_Hash bid_PartSetHeader]. rewrite header_hash_valid, Hps.
    cbn [mbind outcome_bind PartSet_Header ps_total ps_hash PartSetHeader_ValidateBasic psh_Hash]. apply full_hash, merkle_root_length. }
  pose proof (block_id_converts _ Hid) as Hid'.
  unfold BlockMetaFromProto. rewrite Hid'. cbn [mbind outcome_bind lift_err]. cbn [en_meta bm_Header]. rewrite header_converts by done.
  cbn [mbind outcome_bind lift_err bm_BlockSize bm_NumTxs].
  unfold BlockMeta_ValidateBasic. cbn [bm_BlockID bm_Header]. rewrite Hid. cbn [mbind outcome_bind lift_err].
  unfold en_meta, en_hash. cbn [bm_BlockID bid_Hash]. by rewrite bytes_eqb_refl.
Qed.

(** ** The contents of the store *)

Record kept (db : blockDB) (h : Z) (e : entry) : Prop := {
  kp_height : en_height e = h;
  kp_storable : exists bz c, storable e bz c;
  kp_meta : bd_meta db !! h = Some (en_meta e);
  kp_parts : forall (i : nat) p, ps_parts (en_parts e) !! i = Some p -> bd_part db !! (h, Z.of_nat i) = p;
  kp_seen : bd_seen db !! h = Some (en_seen e);
  kp_hash : bd_hash db !! en_hash e = Some h
}.

Lemma load_kept_meta {E} bs h e : kept (bs_db bs) h e -> LoadBlockMeta (E:=E) bs h = Ok (Some (en_meta e)).
Proof. intros [_ (bz & c & Hs) Hm _ _ _]. unfold LoadBlockMeta. rewrite Hm. cbn [load_with]. by erewrite meta_valid. Qed.

Lemma load_kept_parts {E} bs h e bz c : kept (bs_db bs) h e -> storable e bz c ->
  load_parts (E:=E) bs h 0 (Z.to_nat (ps_total (en_parts e))) = Ok (Some bz).
Proof.
  intros [_ _ _ Hp _ _] Hs. destruct (storable_parts _ _ _ Hs) as (chunks & parts & bits & Hd & He). rewrite He in *. cbn [ps_total ps_parts] in *.
  rewrite <- (dp_concat _ _ _ _ Hd), <- (dp_bytes _ _ _ _ Hd).
  assert (Hgen : forall post (pre : list Part), parts = pre ++ post ->
    load_parts (E:=E) bs h (lenZ pre) (length post) = Ok (Some (concat (pt_Bytes <$> post)))).
  { induction post as [|p post IH]; intros pre Hpre; [done|]. cbn [load_parts length]. unfold LoadBlockPart.
    assert (Hi : parts !! length pre = Some p) by (rewrite Hpre; by apply list_lookup_middle).
    unfold lenZ. rewrite (Hp (length pre) (Some p)) by (by rewrite list_lookup_fmap, Hi). cbn [load_with].
    rewrite (part_valid bz chunks parts (length pre) p) by (done || apply Hs). cbn [mbind outcome_bind].
    replace (Z.of_nat (length pre) + 1) with (lenZ (pre ++ [p])) by (unfold lenZ; rewrite length_app; cbn; lia).
    rewrite IH by (by rewrite <- app_assoc). done. }
  specialize (Hgen parts [] eq_refl). unfold lenZ at 1 in Hgen. cbn [length] in Hgen.
  unfold lenZ. rewrite length_fmap, Nat2Z.id. exact Hgen.
Qed.

(** The loads at the height of a kept block. *)
Record loads (bs : BlockStore) (e : entry) : Prop := {
  ld_meta : LoadBlockMeta (E:=unit) bs (en_height e) = Ok (Some (en_meta e));
  ld_seen : LoadSeenCommit (E:=unit) bs (en_height e) = Ok (Some (decoded_commit (en_seen e)));
  ld_block : forall decode, LoadBlock (E:=unit) decode bs (en_height e) =
    match Block_Marshal (en_block e) ≫= decode with Some b => Ok (Some b) | None => Panic end;
  ld_hash : forall decode, LoadBlockByHash (E:=unit) decode bs (en_hash e) = LoadBlock decode bs (en_height e)
}.

Lemma kept_loads bs h e : kept (bs_db bs) h e -> loads bs e.
Proof.
  intros Hk. pose proof Hk as [<- (bz & c & Hs) _ _ Hseen Hhash]. constructor.
  - by apply load_kept_meta.
  - unfold LoadSeenCommit. rewrite Hseen. cbn [load_with]. by rewrite (proj2 (so_seen _ _ _ Hs)).
  - intros decode. unfold LoadBlock. rewrite (load_kept_meta _ _ _ Hk). cbn [mbind outcome_bind en_meta bm_BlockID bid_PartSetHeader PartSet_Header Total].
    rewrite (load_kept_parts _ _ _ _ _ Hk Hs), (so_bytes _ _ _ Hs). cbn [mbind outcome_bind option_bind]. by destruct (decode bz).
  - intros decode. unfold LoadBlockByHash. by rewrite Hhash.
Qed.

(** ** Saving *)

Definition with_parts (db : blockDB) (m : gmap (Z * Z) Part) : blockDB :=
  mkBlockDB (bd_meta db) m (bd_commit db) (bd_seen db) (bd_hash db) (bd_state db).

Lemma save_parts_spec ps h base height parts : forall (pre : list Part) db,
  ps_parts ps = Some <$> (pre ++ parts) -> exists m,
  save_parts ps h (lenZ pre) (length parts) (mkBlockStore db base height) = (Ok tt, mkBlockStore (with_parts db m) base height) /\
  (forall (j : nat) p, parts !! j = Some p -> m !! (h, lenZ pre + Z.of_nat j) = Some p) /\
  (forall h' i, h' <> h \/ ~ (lenZ pre <= i < lenZ pre + lenZ parts) -> m !! (h', i) = bd_part db !! (h', i)).
Proof.
  induction parts as [|p parts IH]; intros pre db Hps.
  { exists (bd_part db). split; [by destruct db|]. done. }
  assert (Hg : GetPart (E:=prune_error) ps (lenZ pre) = Ok (Some p)).
  { unfold GetPart. rewrite Hps. unfold lenZ. rewrite idx_nat, list_lookup_fmap, list_lookup_middle by done. done. }
  destruct (IH (pre ++ [p]) (block_apply db (SetPart h (lenZ pre) p))) as (m & Hm & Hin & Hout).
  { by rewrite Hps, <- app_assoc. }
  assert (Hl : lenZ (pre ++ [p]) = lenZ pre + 1) by (unfold lenZ; rewrite length_app; cbn; lia). rewrite Hl in *.
  exists m. split_and!.
  - cbn [save_parts length]. unfold mbind at 1, gom_bind at 1, glift at 1. rewrite Hg.
    unfold mbind at 1, gom_bind at 1, saveBlockPart, bs_set, gmodify, glift, or_panic, mbind, gom_bind. cbn [bs_db bs_base bs_height].
    rewrite Hm. by destruct db.
  - intros [|j] q Hj; [|rewrite <- (Hin j q Hj); do 2 f_equal; lia].
    injection Hj as <-. rewrite Z.add_0_r, Hout by (right; lia). destruct db. cbn. apply lookup_insert_eq.
  - rewrite lenZ_cons. pose proof (lenZ_nonneg parts). intros h' i Hor. rewrite Hout by (destruct Hor; [by left|right; lia]). destruct db. cbn.
    apply lookup_insert_ne. intros [= <- <-]. destruct Hor; [done|lia].
Qed.

(** What saving a block changes. *)
Definition saved_db (db : blockDB) (e : entry) (m : gmap (Z * Z) Part) (lastCommit : Commit) (base : Z) : blockDB :=
  let h := en_height e in
  mkBlockDB (<[h := en_meta e]> (bd_meta db)) m (<[h - 1 := lastCommit]> (bd_commit db)) (<[h := en_seen e]> (bd_seen db))
    (<[en_hash e := h]> (bd_hash db)) (Some (base, h)).

Lemma SaveBlock_spec bs e bz c :
  storable e bz c -> (0 < bs_base bs -> en_height e = bs_height bs +i64 1) ->
  exists m, SaveBlock (Some (en_block e)) (en_parts e) (Some (en_seen e)) bs =
    (Ok tt, let base := if bs_base bs =? 0 then en_height e else bs_base bs in mkBlockStore (saved_db (bs_db bs) e m c base) base (en_height e)) /\
  (forall (i : nat) p, ps_parts (en_parts e) !! i = Some p -> m !! (en_height e, Z.of_nat i) = p) /\
  (forall h' i, h' <> en_height e \/ ~ (0 <= i < lenZ (ps_parts (en_parts e))) -> m !! (h', i) = bd_part (bs_db bs) !! (h', i)).
Proof.
  intros Hs Hnext. pose proof (storable_positive _ _ _ Hs) as Hpos. destruct (storable_parts _ _ _ Hs) as (chunks & parts & bits & Hd & Hps).
  destruct Hs as [Hv Hh Hb _ _ [Hc [[cb Hcb] _]] [[sb Hsb] _]]. destruct (valid_block _ Hv) as (Hfill & _ & Hhash).
  assert (Hmeta : NewBlockMeta (E:=prune_error) (en_block e) (en_parts e) = Ok (en_meta e)).
  { unfold NewBlockMeta. rewrite Hhash, Hc, Hfill. done. }
  assert (exists hb, Header_Marshal (b_Header (en_block e)) = Some hb) as [hb Hhb].
  { unfold Block_Marshal in Hb. destruct (Header_Marshal _); [by eexists|done]. }
  destruct bs as [db base height]. cbn [bs_base bs_height bs_db] in *.
  destruct (save_parts_spec (en_parts e) (en_height e) base height parts [] db) as (m & Hm & Hin & Hout); [by rewrite Hps|].
  exists m. split_and!.
  - unfold SaveBlock. rewrite (gbind_step (glift (or_panic (Some _))) _ _ (en_block e) _ eq_refl). cbv zeta. fold (en_height e).
    rewrite (glift_step _ _ _ _ (Hhash _)), (gbind_step gget _ _ _ _ eq_refl). cbn [bs_base bs_height].
    assert (H1 : commit_message (E:=prune_error) (b_LastCommit (en_block e)) = Ok c).
    { unfold commit_message. rewrite Hc. cbn [or_panic mbind outcome_bind]. by rewrite Hcb. }
    assert (H2 : commit_message (E:=prune_error) (Some (en_seen e)) = Ok (en_seen e)).
    { unfold commit_message. cbn [or_panic mbind outcome_bind]. by rewrite Hsb. }
    assert (H3 : or_panic (E:=prune_error) (Header_Marshal (bm_Header (en_meta e))) = Ok hb) by (cbn [en_meta bm_Header]; by rewrite Hhb).
    replace (IsComplete (en_parts e)) with true by (unfold IsComplete; rewrite Hps; cbn; by rewrite Z.eqb_refl).
    replace ((0 <? base) && negb (en_height e =? height +i64 1)) with false.
    2:{ destruct (Z.ltb_spec 0 base) as [Hlt|_]; [|done]. by rewrite (proj2 (Z.eqb_eq _ _) (Hnext Hlt)). }
    cbn [negb]. replace (Z.to_nat (PartSet_Total (Some (en_parts e)))) with (length parts)
      by (rewrite Hps; cbn; rewrite <- (dp_bytes _ _ _ _ Hd); unfold lenZ; rewrite length_fmap; lia).
    rewrite (gbind_step _ _ _ _ _ Hm), (glift_step _ _ _ _ Hmeta), (glift_step _ _ _ _ H3).
    rewrite (gbind_step (bs_set _) _ _ _ _ eq_refl), (gbind_step (bs_set _) _ _ _ _ eq_refl), (glift_step _ _ _ _ H1).
    rewrite (gbind_step (bs_set _) _ _ _ _ eq_refl), (glift_step _ _ _ _ H2).
    rewrite (gbind_step (bs_set _) _ _ _ _ eq_refl), (gbind_step (gmodify _) _ _ _ _ eq_refl).
    unfold saveState, bs_set, gmodify, gget, mbind, gom_bind. destruct db. cbn. unfold saved_db. cbn.
    rewrite wrap64_id by (unfold int64, int64_min, int64_max in *; unfold en_height in *; lia). done.
  - intros i p Hi. rewrite Hps in Hi. cbn [ps_parts] in Hi. apply list_lookup_fmap_Some in Hi as (q & -> & Hq). apply (Hin i q Hq).
  - intros h' i Hor. apply Hout. rewrite Hps in Hor. cbn [ps_parts] in Hor. unfold lenZ in *. rewrite length_fmap in Hor. cbn. destruct Hor; [by left|right; lia].
Qed.

(** ** Pruning *)

(** A batch that deletes below a height. *)
Definition below (h : Z) (op : block_op) : Prop :=
  match op with
  | DeleteMeta x | DeleteCommit x | DeleteSeen x | DeletePart x _ => x < h
  | DeleteHash _ => True
  | _ => False
  end.

Lemma below_mono h h' op : h <= h' -> below h op -> below h' op.
Proof. destruct op; cbn; (done || lia). Qed.

Record unpruned (h : Z) (db db' : blockDB) : Prop := {
  un_meta : forall x, h <= x -> bd_meta db' !! x = bd_meta db !! x;
  un_part : forall x i, h <= x -> bd_part db' !! (x, i) = bd_part db !! (x, i);
  un_commit : forall x, h <= x -> bd_commit db' !! x = bd_commit db !! x;
  un_seen : forall x, h <= x -> bd_seen db' !! x = bd_seen db !! x
}.

Lemma delete_unpruned h batch : Forall (below h) batch -> forall db, unpruned h db (block_write db batch).
Proof.
  induction 1 as [|op batch Hop _ IH]; intros db; [done|]. unfold block_write in *. cbn [foldl].
  destruct (IH (block_apply db op)) as [I1 I2 I3 I4].
  constructor; intros; (rewrite I1 || rewrite I2 || rewrite I3 || rewrite I4); try done;
    destruct db, op; cbn in *; try done; apply lookup_delete_ne; try lia; intros [= -> ->]; lia.
Qed.

(** Exactly what the batch names is gone. *)
Definition entry_deleted {A} (op : block_op) (batch : list block_op) (before after : option A) : Prop :=
  (op ∈ batch /\ after = None) \/ ((op ∉ batch) /\ after = before).

Record deleted (batch : list block_op) (db db' : blockDB) : Prop := {
  de_meta : forall x, entry_deleted (DeleteMeta x) batch (bd_meta db !! x) (bd_meta db' !! x);
  de_part : forall x i, entry_deleted (DeletePart x i) batch (bd_part db !! (x, i)) (bd_part db' !! (x, i));
  de_commit : forall x, entry_deleted (DeleteCommit x) batch (bd_commit db !! x) (bd_commit db' !! x);
  de_seen : forall x, entry_deleted (DeleteSeen x) batch (bd_seen db !! x) (bd_seen db' !! x);
  de_hash : forall x, entry_deleted (DeleteHash x) batch (bd_hash db !! x) (bd_hash db' !! x)
}.

Lemma entry_deleted_step {A} op o batch (before mid after : option A) :
  entry_deleted op batch mid after -> (o = op /\ mid = None \/ o <> op /\ mid = before) -> entry_deleted op (o :: batch) before after.
Proof.
  unfold entry_deleted. rewrite elem_of_cons. intros [[Hin ->] | [Hni ->]] [[-> ->] | [Hne ->]]; [left|left|left|right]; split; try tauto; try done.
  intros [<-|]; done.
Qed.

Lemma batch_deletes h batch : Forall (below h) batch -> forall db, deleted batch db (block_write db batch).
Proof.
  induction 1 as [|op batch Hop _ IH]; intros db.
  { constructor; intros; right; (split; [apply not_elem_of_nil|done]). }
  unfold block_write in *. cbn [foldl]. destruct (IH (block_apply db op)) as [I1 I2 I3 I4 I5]. constructor; intros.
  all: eapply entry_deleted_step; [apply I1 || apply I2 || apply I3 || apply I4 || apply I5|].
  all: destruct db, op; cbn in *; try done; try (right; split; [done|reflexivity]).
  all: rewrite lookup_delete; case_decide; simplify_eq; [by left|right; split; [congruence|done]].
Qed.

Lemma entry_survives {A} op batch (before after : option A) : entry_deleted op batch before after -> is_Some after -> is_Some before /\ op ∉ batch.
Proof. intros [[_ ->] | [Hni ->]]; [by intros []|done]. Qed.

Lemma entry_spared {A} op batch (before after : option A) : entry_deleted op batch before after -> op ∉ batch -> after = before.
Proof. by intros [[? _] | [_ ->]]. Qed.

(** The database without the range of heights. *)
Definition sans_state (db : blockDB) : blockDB := mkBlockDB (bd_meta db) (bd_part db) (bd_commit db) (bd_seen db) (bd_hash db) None.

Lemma write_sans_state batch : forall db db', sans_state db = sans_state db' -> sans_state (block_write db batch) = sans_state (block_write db' batch).
Proof.
  induction batch as [|op batch IH]; intros db db' Heq; [done|]. unfold block_write in *. cbn [foldl]. apply IH.
  destruct db, db', op; unfold sans_state in *; cbn in *; congruence.
Qed.

Lemma write_state h batch : Forall (below h) batch -> forall db, bd_state (block_write db batch) = bd_state db.
Proof.
  induction 1 as [|op batch Hop _ IH]; intros db; [done|]. unfold block_write in *. cbn [foldl]. rewrite IH. by destruct db, op.
Qed.

Lemma flush_run batch base bs :
  flush batch base bs = (Ok tt, mkBlockStore (block_write (block_apply (bs_db bs) (SetBlockState base (bs_height bs))) batch) base (bs_height bs)).
Proof. destruct bs as [[] ? ?]. done. Qed.

(** The deletions of [n] heights from [h] on. *)
Fixpoint deletions (metas : Z -> BlockMeta) (n : nat) (h : Z) : list block_op :=
  match n with O => [] | S n => delete_block h (metas h) ++ deletions metas n (h + 1) end.

Lemma delete_block_below h meta : Forall (below (h + 1)) (delete_block h meta).
Proof.
  unfold delete_block. repeat (apply Forall_cons; split; [cbn; lia|]). apply Forall_fmap, Forall_forall. intros i _. cbn. lia.
Qed.

Lemma deletions_below metas n : forall h, Forall (below (h + Z.of_nat n)) (deletions metas n h).
Proof.
  induction n as [|n IH]; intros h; [done|]. cbn [deletions]. apply Forall_app. split.
  - eapply Forall_impl; [apply delete_block_below|]. intros op. apply below_mono. lia.
  - eapply Forall_impl; [apply IH|]. intros op. apply below_mono. lia.
Qed.

Lemma delete_block_in h meta op : op ∈ delete_block h meta <->
  op = DeleteMeta h \/ op = DeleteHash (bid_Hash (bm_BlockID meta)) \/ op = DeleteCommit h \/ op = DeleteSeen h \/
  exists i, op = DeletePart h i /\ 0 <= i < Total (bid_PartSetHeader (bm_BlockID meta)).
Proof.
  unfold delete_block. rewrite elem_of_app, !elem_of_cons, elem_of_nil, list_elem_of_fmap. setoid_rewrite elem_of_seqZ. naive_solver lia.
Qed.

Lemma deletions_in metas n op : forall h, op ∈ deletions metas n h <-> exists k, h <= k < h + Z.of_nat n /\ op ∈ delete_block k (metas k).
Proof.
  induction n as [|n IH]; intros h; cbn [deletions].
  { rewrite elem_of_nil. split; [done|]. intros (k & Hk & _). lia. }
  rewrite elem_of_app, IH. split.
  - intros [Hin | (k & Hk & Hin)]; [exists h|exists k]; (split; [lia|done]).
  - intros (k & Hk & Hin). destruct (decide (k = h)) as [->|]; [by left|right; exists k; split; [lia|done]].
Qed.

Section loop.
  Variable metas : Z -> BlockMeta.

Definition has_metas (db : blockDB) (h : Z) (n : nat) : Prop :=
  forall x, h <= x < h + Z.of_nat n -> bd_meta db !! x = Some (metas x) /\ BlockMetaFromProto (metas x) = Ok (metas x).

Lemma has_metas_step db db' h n : has_metas db h (S n) -> unpruned (h + 1) db db' -> has_metas db' (h + 1) n.
Proof. intros Hm [Hu _ _ _] x Hx. rewrite Hu by lia. apply Hm. lia. Qed.

Lemma prune_one db h n : has_metas db h (S n) -> load_with (E:=prune_error) BlockMetaFromProto (bd_meta db !! h) = Ok (Some (metas h)).
Proof. intros Hm. destruct (Hm h) as [-> Hc]; [lia|]. cbn [load_with]. by rewrite Hc. Qed.

Lemma prune_blocks_spec n : forall h batch pruned db base height,
  has_metas db h n -> Forall (below h) batch -> 0 <= pruned ->
  exists batch' db' base', prune_blocks n h batch pruned (mkBlockStore db base height) =
    (Ok (batch', pruned + Z.of_nat n), mkBlockStore db' base' height) /\ Forall (below (h + Z.of_nat n)) batch' /\
    sans_state (block_write db' batch') = sans_state (block_write db (batch ++ deletions metas n h)).
Proof.
  induction n as [|n IH]; intros h batch pruned db base height Hm Hb Hp.
  { exists batch, db, base. cbn [prune_blocks deletions]. rewrite app_nil_r, !Z.add_0_r. done. }
  cbn [prune_blocks]. rewrite (gbind_step gget _ _ _ _ eq_refl). unfold LoadBlockMeta. cbn [bs_db].
  rewrite (glift_step _ _ _ _ (prune_one _ _ _ Hm)). cbv zeta. set (batch1 := batch ++ delete_block h (metas h)).
  assert (Hb1 : Forall (below (h + 1)) batch1).
  { apply Forall_app. split; [|apply delete_block_below]. eapply Forall_impl; [exact Hb|]. intros op. apply below_mono. lia. }
  replace (pruned + Z.of_nat (S n)) with (pruned + 1 + Z.of_nat n) by lia. replace (h + Z.of_nat (S n)) with (h + 1 + Z.of_nat n) by lia.
  cbn [deletions]. rewrite app_assoc. fold batch1. destruct (Z.rem (pruned + 1) 1000 =? 0).
  - rewrite (gbind_step _ _ _ _ _ (flush_run _ _ _)). cbn [bs_db bs_height].
    set (db1 := block_write (block_apply db (SetBlockState h height)) batch1).
    destruct (IH (h + 1) [] (pruned + 1) db1 h height) as (batch' & db' & base' & Hrun & Hbb & Hdb); [|done|lia|].
    + eapply has_metas_step; [exact Hm|]. unfold db1. destruct (delete_unpruned _ _ Hb1 (block_apply db (SetBlockState h height))) as [U1 U2 U3 U4].
      constructor; intros; (rewrite U1 || rewrite U2 || rewrite U3 || rewrite U4); try done; by destruct db.
    + exists batch', db', base'. split_and!; [exact Hrun|done|]. rewrite Hdb. unfold db1, block_write. cbn [app]. rewrite <- foldl_app.
      apply (write_sans_state (batch1 ++ deletions metas n (h + 1))). by destruct db.
  - destruct (IH (h + 1) batch1 (pruned + 1) db base height) as (batch' & db' & base' & Hrun & Hbb & Hdb); [|done|lia|].
    + intros x Hx. apply Hm. lia.
    + by exists batch', db', base'.
Qed.

(** The loop up to the first flush. *)
Lemma prune_first n : forall h batch pruned bs,
  has_metas (bs_db bs) h (S n) -> Forall (below h) batch -> 0 <= pruned -> pruned + Z.of_nat (S n) = 1000 ->
  prune_blocks (S n) h batch pruned bs = (flush (batch ++ deletions metas (S n) h) (h + Z.of_nat n);; mret ([], 1000)) bs.
Proof.
  induction n as [|n IH]; intros h batch pruned bs Hm Hb Hp Hn; cbn [prune_blocks].
  all: rewrite (gbind_step gget _ _ _ _ eq_refl); unfold LoadBlockMeta; rewrite (glift_step _ _ _ _ (prune_one _ _ _ Hm)); cbv zeta.
  - replace (pruned + 1) with 1000 by lia. cbn [deletions]. by rewrite app_nil_r, Z.add_0_r.
  - destruct (Z.eqb_spec (Z.rem (pruned + 1) 1000) 0) as [Hr|_]; [rewrite Z.rem_small in Hr; lia|].
    change (prune_blocks (S n) (h + 1) (batch ++ delete_block h (metas h)) (pruned + 1) bs =
      (flush (batch ++ deletions metas (S (S n)) h) (h + Z.of_nat (S n));; mret ([], 1000)) bs).
    rewrite IH; [|intros x Hx; apply Hm; lia| |lia|lia].
    + cbn [deletions]. rewrite <- !app_assoc. by replace (h + Z.of_nat (S n)) with (h + 1 + Z.of_nat n) by lia.
    + apply Forall_app. split; [|apply delete_block_below]. eapply Forall_impl; [exact Hb|]. intros op. apply below_mono. lia.
Qed.

End loop.

(** ** The list the store implements *)

(** The height of the first block, zero at first, and the blocks. *)
Record holds (bs : BlockStore) (base : Z) (l : list entry) : Prop := {
  ho_reopen : LoadBlockStoreState (bs_db bs) = (bs_base bs, bs_height bs);
  ho_base : bs_base bs = base;
  ho_height : bs_height bs = if bool_decide (l = []) then 0 else base + lenZ l - 1;
  ho_empty : if bool_decide (l = []) then base = 0 else 0 < base;
  ho_kept : forall (i : nat) e, l !! i = Some e -> kept (bs_db bs) (base + Z.of_nat i) e;
  ho_commit : forall (i : nat) e, l !! S i = Some e -> bd_commit (bs_db bs) !! (base + Z.of_nat i) = b_LastCommit (en_block e);
  ho_only : forall h, is_Some (bd_meta (bs_db bs) !! h) -> base <= h < base + lenZ l;
  ho_hashes : NoDup (en_hash <$> l)
}.

Inductive store_call := SaveCall (e : entry) | PruneCall (height : Z) | ReopenCall.

Definition run_call (c : store_call) : GoM BlockStore prune_error Z :=
  match c with
  | SaveCall e => SaveBlock (Some (en_block e)) (en_parts e) (Some (en_seen e));; mret 0
  | PruneCall height => PruneBlocks height
  | ReopenCall => gmodify (fun bs => NewBlockStore (bs_db bs));; mret 0
  end.

Definition list_call (c : store_call) : GoM (Z * list entry) prune_error Z := fun '(base, l) =>
  match c with
  | SaveCall e => (Ok 0, (if bool_decide (l = []) then en_height e else base, l ++ [e]))
  | PruneCall height =>
      if height <=? 0 then (Err ErrPruneNotPositive, (base, l))
      else if base + lenZ l <=? height then (Err ErrPruneBeyondHeight, (base, l))
      else if height <? base then (Err ErrPruneBelowBase, (base, l))
      else (Ok (height - base), (height, drop (Z.to_nat (height - base)) l))
  | ReopenCall => (Ok 0, (base, l))
  end.

(** A block is saved after the one before, with a hash of its own. *)
Definition call_ok (c : store_call) (base : Z) (l : list entry) : Prop :=
  match c with
  | SaveCall e => (exists bz c, storable e bz c) /\ (l <> [] -> en_height e = base + lenZ l) /\ en_hash e ∉ en_hash <$> l
  | _ => True
  end.

Lemma saved_kept db e m c base x e0 :
  (forall h' i, h' <> en_height e \/ ~ (0 <= i < lenZ (ps_parts (en_parts e))) -> m !! (h', i) = bd_part db !! (h', i)) ->
  kept db x e0 -> x <> en_height e -> en_hash e0 <> en_hash e -> kept (saved_db db e m c base) x e0.
Proof.
  intros Hm [K1 K2 K3 K4 K5 K6] Hx Hh. constructor; try done; cbn [saved_db bd_meta bd_part bd_seen bd_hash].
  - by rewrite lookup_insert_ne.
  - intros i p Hp. rewrite Hm by (by left). by apply K4.
  - by rewrite lookup_insert_ne.
  - by rewrite lookup_insert_ne.
Qed.

Lemma saved_new db e bz lc m c base :
  (forall (i : nat) p, ps_parts (en_parts e) !! i = Some p -> m !! (en_height e, Z.of_nat i) = p) ->
  storable e bz lc -> kept (saved_db db e m c base) (en_height e) e.
Proof.
  intros Hm Hs. constructor; try done; cbn [saved_db bd_meta bd_part bd_seen bd_hash]; try apply lookup_insert_eq. eauto.
Qed.

Lemma save_run bs base l e :
  holds bs base l -> call_ok (SaveCall e) base l -> let base' := if bool_decide (l = []) then en_height e else base in
  exists m bz c, run_call (SaveCall e) bs = (Ok 0, mkBlockStore (saved_db (bs_db bs) e m c base') base' (en_height e)) /\
    en_height e = base' + lenZ l /\ storable e bz c /\
    (forall (i : nat) p, ps_parts (en_parts e) !! i = Some p -> m !! (en_height e, Z.of_nat i) = p) /\
    (forall h' i, h' <> en_height e \/ ~ (0 <= i < lenZ (ps_parts (en_parts e))) -> m !! (h', i) = bd_part (bs_db bs) !! (h', i)).
Proof.
  intros [_ H2 H3 H4 _ _ _ _] ((bz & c & Hs) & Hnext & Hfresh) base'.
  pose proof (so_height _ _ _ Hs) as Hmax. fold (en_height e) in Hmax.
  assert (Hpos : 0 < en_height e) by (eapply storable_positive; exact Hs).
  assert (Hb : (if bs_base bs =? 0 then en_height e else bs_base bs) = base').
  { unfold base'. rewrite H2. destruct (bool_decide_reflect (l = [])); [by rewrite H4|]. destruct (Z.eqb_spec base 0); [lia|done]. }
  assert (Hh : en_height e = base' + lenZ l).
  { unfold base'. destruct (bool_decide_reflect (l = [])) as [->|Hne]; [unfold lenZ; cbn; lia|by apply Hnext]. }
  destruct (SaveBlock_spec bs e bz c Hs) as (m & Hrun & Hin & Hout).
  { rewrite H3, H2. destruct (bool_decide_reflect (l = [])) as [->|Hne]; [lia|]. intros _. rewrite Hnext by done.
    rewrite wrap64_id; [lia|]. rewrite <- (Hnext Hne) in *. unfold int64, int64_min, int64_max in *. lia. }
  rewrite Hb in Hrun. exists m, bz, c. split; [unfold run_call; rewrite (gbind_step _ _ _ _ _ Hrun); reflexivity|done].
Qed.

Lemma holds_save bs base l e :
  holds bs base l -> call_ok (SaveCall e) base l -> exists bs', run_call (SaveCall e) bs = (Ok 0, bs') /\
    holds bs' (if bool_decide (l = []) then en_height e else base) (l ++ [e]).
Proof.
  intros Ho Hok. destruct (save_run _ _ _ _ Ho Hok) as (m & bz & c & Hrun & Hh & Hs & Hin & Hout).
  destruct Ho as [H1 H2 H3 H4 H5 H6 H7 H8], Hok as (_ & Hnext & Hfresh).
  pose proof (so_height _ _ _ Hs) as Hmax. fold (en_height e) in Hmax.
  assert (Hpos : 0 < en_height e) by (eapply storable_positive; exact Hs).
  eexists. split; [exact Hrun|]. set (base' := if bool_decide (l = []) then en_height e else base) in *.
  assert (Hold : forall (i : nat) e0, l !! i = Some e0 -> base' = base /\ (Z.of_nat i < lenZ l)).
  { intros i e0 Hi. pose proof (lookup_lt_Some _ _ _ Hi). unfold base', lenZ. destruct (bool_decide_reflect (l = [])) as [->|]; [done|]. split; [done|lia]. }
  constructor; cbn [bs_db bs_base bs_height].
  - unfold LoadBlockStoreState. cbn [saved_db bd_state]. destruct (Z.eqb_spec base' 0) as [Hz|]; [|by rewrite andb_false_r].
    exfalso. unfold base' in Hz. destruct (bool_decide _); lia.
  - done.
  - rewrite bool_decide_eq_false_2 by (by destruct l). unfold lenZ in *. rewrite length_app. cbn. lia.
  - rewrite bool_decide_eq_false_2 by (by destruct l). unfold base'. destruct (bool_decide _); lia.
  - intros i e0 [Hi|[Hi [Hz <-]%list_lookup_singleton_Some]]%lookup_app_Some.
    + destruct (Hold i e0 Hi) as [-> Hlt]. apply saved_kept; [done|by apply H5|lia|]. intros He. apply Hfresh. rewrite <- He.
      apply list_elem_of_fmap. exists e0. split; [done|by eapply list_elem_of_lookup_2].
    + replace (base' + Z.of_nat i) with (en_height e) by (unfold lenZ in *; lia). by eapply saved_new.
  - intros i e0 [Hi|[Hi [Hz <-]%list_lookup_singleton_Some]]%lookup_app_Some; cbn [saved_db bd_commit].
    + destruct (Hold _ _ Hi) as [-> Hlt]. rewrite lookup_insert_ne by lia. by apply H6.
    + replace (en_height e - 1) with (base' + Z.of_nat i) by (unfold lenZ in *; lia). rewrite lookup_insert_eq. by rewrite (proj1 (so_last _ _ _ Hs)).
  - intros h. cbn [saved_db bd_meta]. rewrite lookup_insert_is_Some. unfold lenZ in *. rewrite length_app. cbn [length]. intros [<-|[_ Hx%H7]]; [lia|].
    unfold base' in *. destruct (bool_decide_reflect (l = [])) as [->|]; [cbn in Hx; lia|lia].
  - rewrite fmap_app. apply NoDup_app. split_and!; [done| |apply NoDup_singleton]. intros x Hx ->%list_elem_of_singleton. done.
Qed.

Lemma pruned_kept db F height e x :
  unpruned height db F -> height <= x -> bd_hash F !! en_hash e = bd_hash db !! en_hash e -> kept db x e -> kept F x e.
Proof.
  intros [U1 U2 U3 U4] Hx Hh [K1 K2 K3 K4 K5 K6].
  constructor; [done|done|by rewrite U1|intros i p Hp; rewrite U2 by done; by apply K4|by rewrite U4|by rewrite Hh].
Qed.

Lemma holds_drop db F base hh l height metas :
  holds (mkBlockStore db base hh) base l -> (forall (i : nat) e, l !! i = Some e -> metas (base + Z.of_nat i) = en_meta e) ->
  base <= height < base + lenZ l ->
  sans_state F = sans_state (block_write db (deletions metas (Z.to_nat (height - base)) base)) -> bd_state F = Some (height, hh) ->
  holds (mkBlockStore F height hh) height (drop (Z.to_nat (height - base)) l).
Proof.
  intros [H1 _ H3 H4 H5 H6 H7 H8] Hmetas Hr HF Hst. cbn [bs_db bs_base bs_height] in *. set (n := Z.to_nat (height - base)) in *.
  assert (Hlt : (n < length l)%nat) by (unfold n, lenZ in *; lia).
  rewrite bool_decide_eq_false_2 in H3, H4 by (intros ->; cbn in Hlt; lia).
  assert (Hne : drop n l <> []) by (intros Hd; apply (f_equal length) in Hd; rewrite length_drop in Hd; cbn in Hd; lia).
  assert (Hbelow : Forall (below height) (deletions metas n base)).
  { replace height with (base + Z.of_nat n) by (unfold n; lia). apply deletions_below. }
  pose proof (delete_unpruned height _ Hbelow db) as Hun. unfold sans_state in HF. injection HF as E1 E2 E3 E4 E5.
  assert (HunF : unpruned height db F).
  { destruct Hun as [U1 U2 U3 U4]. constructor; [rewrite E1|rewrite E2|rewrite E3|rewrite E4]; done. }
  pose proof (batch_deletes height _ Hbelow db) as Hdel.
  assert (Hhash : forall (i : nat) e, l !! (n + i)%nat = Some e -> bd_hash F !! en_hash e = bd_hash db !! en_hash e).
  { intros i e Hi. rewrite E5. apply (entry_spared _ _ _ _ (de_hash _ _ _ Hdel _)).
    intros (k & Hk & [?|[Heq|[?|[?|(? & ? & _)]]]]%delete_block_in)%deletions_in; try done. injection Heq as Heq.
    destruct (lookup_lt_is_Some_2 l (Z.to_nat (k - base))) as [e' He']; [unfold n in *; lia|].
    replace k with (base + Z.of_nat (Z.to_nat (k - base))) in Heq by lia. rewrite (Hmetas _ _ He') in Heq. cbn in Heq.
    assert (Z.to_nat (k - base) = (n + i)%nat); [|unfold n in *; lia].
    eapply (NoDup_lookup _ _ _ (en_hash e) H8); rewrite list_lookup_fmap; [rewrite He'|rewrite Hi]; cbn; congruence. }
  constructor; cbn [bs_db bs_base bs_height].
  - unfold LoadBlockStoreState. rewrite Hst. destruct (Z.eqb_spec height 0); [lia|]. by rewrite andb_false_r.
  - done.
  - rewrite bool_decide_eq_false_2 by done. unfold lenZ in *. rewrite length_drop. lia.
  - rewrite bool_decide_eq_false_2 by done. lia.
  - intros i e Hi. rewrite lookup_drop in Hi. replace (height + Z.of_nat i) with (base + Z.of_nat (n + i)) by (unfold n; lia).
    eapply pruned_kept; [exact HunF|unfold n; lia|by eapply Hhash|by apply H5].
  - intros i e Hi. rewrite lookup_drop in Hi. replace (n + S i)%nat with (S (n + i)) in Hi by lia.
    rewrite (un_commit _ _ _ HunF) by lia. rewrite <- (H6 _ _ Hi). f_equal. unfold n. lia.
  - intros h. rewrite E1. intros [Hs Hni]%(entry_survives _ _ _ _ (de_meta _ _ _ Hdel h)). apply H7 in Hs. unfold lenZ in *. rewrite length_drop.
    destruct (Z_lt_le_dec h height); [|lia]. exfalso. apply Hni, deletions_in. exists h. split; [unfold n; lia|]. apply delete_block_in. by left.
  - rewrite <- (take_drop n l), fmap_app in H8. by apply NoDup_app in H8 as (_ & _ & ?).
Qed.

(** A pruning that is not refused deletes the blocks below the height. *)
Lemma prune_run bs base l height :
  holds bs base l -> 0 < height -> base <= height < base + lenZ l -> exists F metas,
  PruneBlocks height bs = (Ok (height - base), mkBlockStore F height (bs_height bs)) /\
  (forall (i : nat) e, l !! i = Some e -> metas (base + Z.of_nat i) = en_meta e) /\
  sans_state F = sans_state (block_write (bs_db bs) (deletions metas (Z.to_nat (height - base)) base)) /\ bd_state F = Some (height, bs_height bs).
Proof.
  intros [H1 H2 H3 H4 H5 H6 H7 H8] Hpos Hr. unfold PruneBlocks. rewrite (gbind_step gget _ _ _ _ eq_refl), H2. cbv zeta.
  destruct l as [|e0 l0] eqn:El; [unfold lenZ in Hr; cbn in Hr; lia|]. rewrite <- El in *.
  rewrite bool_decide_eq_false_2 in H3 by (by rewrite El). clear El l0. set (n := Z.to_nat (height - base)).
  rewrite (proj2 (Z.leb_gt _ _) Hpos), (proj2 (Z.ltb_ge (bs_height bs) height)), (proj2 (Z.ltb_ge height base)) by lia.
  set (metas := fun x => default (en_meta e0) (en_meta <$> l !! Z.to_nat (x - base))).
  assert (Hmetas : forall (i : nat) e, l !! i = Some e -> metas (base + Z.of_nat i) = en_meta e).
  { intros i e Hi. unfold metas. replace (Z.to_nat (base + Z.of_nat i - base)) with i by lia. by rewrite Hi. }
  destruct bs as [db b0 hh]. cbn [bs_db bs_base bs_height] in *. subst b0.
  destruct (prune_blocks_spec metas n base [] 0 db base hh) as (batch & db' & base' & Hrun & Hbatch & Hdb); [|done|lia|].
  { intros x Hx. destruct (lookup_lt_is_Some_2 l (Z.to_nat (x - base))) as [e He]; [unfold n, lenZ in *; lia|].
    replace x with (base + Z.of_nat (Z.to_nat (x - base))) by lia. rewrite (Hmetas _ e He).
    destruct (H5 _ e He) as [_ (bz & c & Hs) Hm _ _ _]. split; [done|by eapply meta_valid]. }
  rewrite (gbind_step _ _ _ _ _ Hrun). cbv beta iota. rewrite (gbind_step _ _ _ _ _ (flush_run _ _ _)). cbn [bs_db bs_height].
  replace (0 + Z.of_nat n) with (height - base) by (unfold n; lia). replace (base + Z.of_nat n) with height in Hbatch by (unfold n; lia).
  cbn [app] in Hdb. eexists _, metas. split; [reflexivity|]. split_and!; [done| |].
  - rewrite <- Hdb. apply write_sans_state. by destruct db'.
  - rewrite (write_state height) by done. by destruct db'.
Qed.

(** ** Nothing else is in the store

    The commit in the first block ever saved is under the height before it and
    is never pruned. *)

Record only (first : option entry) (bs : BlockStore) (base : Z) (l : list entry) : Prop := {
  on_part : forall h i, is_Some (bd_part (bs_db bs) !! (h, i)) ->
    exists (k : nat) e, l !! k = Some e /\ h = base + Z.of_nat k /\ 0 <= i < lenZ (ps_parts (en_parts e));
  on_commit : forall h, is_Some (bd_commit (bs_db bs) !! h) -> base <= h < base + lenZ l - 1 \/ exists e, first = Some e /\ h + 1 = en_height e;
  on_seen : forall h, is_Some (bd_seen (bs_db bs) !! h) -> base <= h < base + lenZ l;
  on_hash : forall x, is_Some (bd_hash (bs_db bs) !! x) -> x ∈ en_hash <$> l;
  on_first : match first with
             | None => l = [] /\ base = 0 /\ bd_commit (bs_db bs) = ∅
             | Some e => (exists bz c, storable e bz c) /\ en_height e <= base /\ bd_commit (bs_db bs) !! (en_height e - 1) = b_LastCommit (en_block e)
             end
}.

Lemma only_save first bs base l e bs' :
  holds bs base l -> only first bs base l -> call_ok (SaveCall e) base l -> run_call (SaveCall e) bs = (Ok 0, bs') ->
  only (Some (default e first)) bs' (if bool_decide (l = []) then en_height e else base) (l ++ [e]).
Proof.
  intros Ho [N1 N2 N3 N4 N5] Hok. destruct (save_run _ _ _ _ Ho Hok) as (m & bz & c & -> & Hh & Hs & Hin & Hout). intros [= <-].
  set (base' := if bool_decide (l = []) then en_height e else base) in *. pose proof (storable_positive _ _ _ Hs) as Hpos.
  assert (Hold : l <> [] -> base' = base) by (intros; unfold base'; by rewrite bool_decide_eq_false_2).
  assert (Hlen : lenZ (l ++ [e]) = lenZ l + 1) by (unfold lenZ; rewrite length_app; cbn; lia).
  assert (Hfirst : forall f, first = Some f -> l <> []).
  { intros f -> ->. destruct N5 as ((bf & cf & Hf) & Hle & _). apply storable_positive in Hf. fold (en_height f) in Hf.
    pose proof (ho_empty _ _ _ Ho). cbn in *. lia. }
  assert (Hpl : l <> [] -> 0 < lenZ l) by (destruct l; [done|unfold lenZ; cbn; lia]).
  assert (Hlast : (l ++ [e]) !! length l = Some e) by (by apply list_lookup_middle).
  constructor; cbn [bs_db saved_db bd_part bd_commit bd_seen bd_hash].
  - intros h i Hsome. destruct (decide (h = en_height e /\ 0 <= i < lenZ (ps_parts (en_parts e)))) as [[-> Hi]|Hno].
    + exists (length l), e. split; [done|]. split; [exact Hh|done].
    + rewrite Hout in Hsome by (destruct (decide (h = en_height e)); [right; tauto|by left]). destruct (N1 _ _ Hsome) as (k & x & Hk & -> & Hi).
      exists k, x. rewrite lookup_app_l by (by eapply lookup_lt_Some). rewrite Hold by (by intros ->). done.
  - intros h. rewrite lookup_insert_is_Some, Hlen. intros [<- | [_ [Hr | (f & -> & Hf)]%N2]].
    + destruct first as [f|]; [left|right; exists e; split; [done|lia]]. pose proof (Hpl (Hfirst f eq_refl)). lia.
    + left. rewrite Hold by (intros ->; unfold lenZ in Hr; cbn in Hr; lia). lia.
    + right. by exists f.
  - intros h. rewrite lookup_insert_is_Some, Hlen. intros [<- | [_ Hr%N3]]; [pose proof (lenZ_nonneg l); lia|]. rewrite Hold by (intros ->; unfold lenZ in Hr; cbn in Hr; lia). lia.
  - intros x. rewrite lookup_insert_is_Some, fmap_app, elem_of_app. intros [<- | [_ Hx%N4]]; [right; left|by left].
  - destruct first as [f|]; [change (default e (Some f)) with f|change (default e None) with e].
    + destruct N5 as (Hf & Hle & Hc). pose proof (Hfirst f eq_refl) as Hne. rewrite Hold by done. split; [done|]. split; [done|].
      rewrite lookup_insert_ne; [done|]. pose proof (Hpl Hne). rewrite Hold in Hh by done. lia.
    + destruct N5 as (-> & -> & _). split; [eauto|]. unfold base'. rewrite bool_decide_eq_true_2 by done. split; [lia|].
      rewrite lookup_insert_eq. symmetry. apply Hs.
Qed.

Lemma only_drop first db F base hh l height metas :
  holds (mkBlockStore db base hh) base l -> only first (mkBlockStore db base hh) base l ->
  (forall (i : nat) e, l !! i = Some e -> metas (base + Z.of_nat i) = en_meta e) -> base <= height < base + lenZ l ->
  sans_state F = sans_state (block_write db (deletions metas (Z.to_nat (height - base)) base)) ->
  only first (mkBlockStore F height hh) height (drop (Z.to_nat (height - base)) l).
Proof.
  intros Ho [N1 N2 N3 N4 N5] Hmetas Hr HF. cbn [bs_db] in *. set (n := Z.to_nat (height - base)) in *.
  assert (Hbelow : Forall (below height) (deletions metas n base)).
  { replace height with (base + Z.of_nat n) by (unfold n; lia). apply deletions_below. }
  destruct (batch_deletes height _ Hbelow db) as [_ D2 D3 D4 D5]. unfold sans_state in HF. injection HF as _ E2 E3 E4 E5.
  assert (Hdel : forall op k, base <= k < height -> op ∈ delete_block k (metas k) -> op ∈ deletions metas n base).
  { intros op k Hk Hin. apply deletions_in. exists k. split; [unfold n; lia|done]. }
  assert (Hlen : lenZ (drop n l) = lenZ l - (height - base)) by (unfold lenZ in *; rewrite length_drop; unfold n; lia).
  constructor; cbn [bs_db]; rewrite ?E2, ?E3, ?E4, ?E5, ?Hlen.
  - intros h i [(k & e & Hk & -> & Hi)%N1 Hni]%(entry_survives _ _ _ _ (D2 h i)). destruct (decide (k < n)%nat) as [Hlt|Hge].
    + exfalso. apply Hni, (Hdel _ (base + Z.of_nat k)); [unfold n in Hlt; lia|]. apply delete_block_in. right; right; right; right. exists i. split; [done|].
      rewrite (Hmetas _ _ Hk). destruct (ho_kept _ _ _ Ho _ _ Hk) as [_ (bz & c & Hs) _ _ _ _].
      cbn [en_meta bm_BlockID bid_PartSetHeader PartSet_Header Total]. by rewrite (storable_total _ _ _ Hs).
    + exists (k - n)%nat, e. rewrite lookup_drop. replace (n + (k - n))%nat with k by lia. split; [done|]. split; [unfold n in *; lia|done].
  - intros h [[Hh|Hf]%N2 Hni]%(entry_survives _ _ _ _ (D3 h)); [|by right]. left. destruct (Z_lt_le_dec h height); [|lia].
    exfalso. apply Hni, (Hdel _ h); [lia|]. apply delete_block_in. tauto.
  - intros h [Hh%N3 Hni]%(entry_survives _ _ _ _ (D4 h)). destruct (Z_lt_le_dec h height); [|lia].
    exfalso. apply Hni, (Hdel _ h); [lia|]. apply delete_block_in. tauto.
  - intros x [(e & -> & [k Hk]%list_elem_of_lookup)%N4%list_elem_of_fmap Hni]%(entry_survives _ _ _ _ (D5 x)). destruct (decide (k < n)%nat) as [Hlt|Hge].
    + exfalso. apply Hni, (Hdel _ (base + Z.of_nat k)); [unfold n in Hlt; lia|]. apply delete_block_in. right; left. by rewrite (Hmetas _ _ Hk).
    + apply list_elem_of_fmap. exists e. split; [done|]. apply list_elem_of_lookup. exists (k - n)%nat. rewrite lookup_drop.
      by replace (n + (k - n))%nat with k by lia.
  - destruct first as [f|]; [|destruct N5 as (-> & -> & _); unfold lenZ in Hr; cbn in Hr; lia]. destruct N5 as (Hf & Hle & Hc). split; [done|]. split; [lia|].
    rewrite <- Hc. apply (entry_spared _ _ _ _ (D3 _)). intros (k & Hk & Hin)%deletions_in. apply delete_block_in in Hin. naive_solver lia.
Qed.

Definition stores (first : option entry) (bs : BlockStore) (st : Z * list entry) : Prop := holds bs (fst st) (snd st) /\ only first bs (fst st) (snd st).

Definition first_after (c : store_call) (first : option entry) : option entry :=
  match c with SaveCall e => Some (default e first) | _ => first end.

Lemma stores_prune first bs base l height :
  stores first bs (base, l) -> exists bs', run_call (PruneCall height) bs = (fst (list_call (PruneCall height) (base, l)), bs') /\
    stores first bs' (snd (list_call (PruneCall height) (base, l))).
Proof.
  intros Hst. pose proof Hst as [Ho Hn]. cbn [fst snd] in *. pose proof Ho as [H1 H2 H3 H4 _ _ _ _]. cbn [run_call list_call].
  destruct (Z.leb_spec height 0) as [Hle|Hpos]; [exists bs; unfold PruneBlocks; by rewrite (gbind_step gget _ _ _ _ eq_refl), (proj2 (Z.leb_le _ _) Hle)|].
  assert (Hll : 0 <= lenZ l) by (unfold lenZ; lia).
  assert (Hh : (bs_height bs <? height) = (base + lenZ l <=? height)).
  { rewrite H3. destruct (bool_decide_reflect (l = [])) as [->|]; [assert (base = 0) as -> by exact H4|]; unfold lenZ in *; cbn [length];
      apply eq_true_iff_eq; rewrite Z.leb_le, Z.ltb_lt; lia. }
  destruct (Z.leb_spec (base + lenZ l) height) as [|Hlt]; [|destruct (Z.ltb_spec height base) as [Hlb|Hge]].
  1,2: exists bs; unfold PruneBlocks; rewrite (gbind_step gget _ _ _ _ eq_refl), (proj2 (Z.leb_gt _ _) Hpos), Hh.
  - done.
  - by rewrite H2, (proj2 (Z.ltb_lt _ _) Hlb).
  - destruct (prune_run _ _ _ height Ho Hpos) as (F & metas & -> & Hmetas & HF & Hs); [lia|]. eexists. split; [reflexivity|].
    destruct bs as [db b0 hh]. cbn [bs_db bs_base bs_height] in *. subst b0.
    split; [eapply (holds_drop db F base hh l height metas)|eapply (only_drop first db F base hh l height metas)]; done.
Qed.

Fixpoint run_calls (cs : list store_call) (bs : BlockStore) : list (outcome prune_error Z) * BlockStore :=
  match cs with
  | [] => ([], bs)
  | c :: cs => let '(r, bs) := run_call c bs in let '(rs, bs) := run_calls cs bs in (r :: rs, bs)
  end.

Fixpoint list_calls (cs : list store_call) (st : Z * list entry) : list (outcome prune_error Z) * (Z * list entry) :=
  match cs with
  | [] => ([], st)
  | c :: cs => let '(r, st) := list_call c st in let '(rs, st) := list_calls cs st in (r :: rs, st)
  end.

(** The first block saved. *)
Fixpoint first_saved (cs : list store_call) : option entry :=
  match cs with [] => None | SaveCall e :: _ => Some e | _ :: cs => first_saved cs end.

Fixpoint calls_ok (cs : list store_call) (st : Z * list entry) : Prop :=
  match cs with [] => True | c :: cs => call_ok c (fst st) (snd st) /\ calls_ok cs (snd (list_call c st)) end.

Lemma stores_call c first bs st :
  stores first bs st -> call_ok c (fst st) (snd st) ->
  exists bs', run_call c bs = (fst (list_call c st), bs') /\ stores (first_after c first) bs' (snd (list_call c st)).
Proof.
  destruct st as [base l]. cbn [fst snd]. intros Hs Hc. destruct c as [e|height|].
  - destruct Hs as [Ho Hn]. destruct (holds_save _ _ _ _ Ho Hc) as (bs' & Hr & Ho'). exists bs'. split; [exact Hr|]. split; [exact Ho'|by eapply only_save].
  - by apply stores_prune.
  - exists bs. split; [|done]. cbn [run_call]. rewrite (gbind_step (gmodify _) _ _ _ _ eq_refl). unfold NewBlockStore.
    destruct Hs as [Ho _]. rewrite (ho_reopen _ _ _ Ho). by destruct bs.
Qed.

Lemma stores_calls cs : forall first bs st, stores first bs st -> calls_ok cs st ->
  exists bs', run_calls cs bs = (fst (list_calls cs st), bs') /\ stores (from_option Some (first_saved cs) first) bs' (snd (list_calls cs st)).
Proof.
  induction cs as [|c cs IH]; intros first bs st Ho Hok; [exists bs; by destruct first|]. destruct Hok as [Hc Hok]. cbn [run_calls list_calls].
  destruct (stores_call _ _ _ _ Ho Hc) as (bs1 & Hr & Ho1). destruct (list_call c st) as [r st1]. cbn [fst snd] in *. rewrite Hr.
  destruct (IH _ _ _ Ho1 Hok) as (bs' & Hrs & Ho'). rewrite Hrs. destruct (list_calls cs st1) as [rs st2]. exists bs'. split; [done|].
  destruct c, first; exact Ho'.
Qed.

Definition empty_blocks : blockDB := mkBlockDB ∅ ∅ ∅ ∅ ∅ None.

Lemma stores_empty : stores None (NewBlockStore empty_blocks) (0, []).
Proof.
  split; constructor; try done; cbn; try (intros ? ? [x Hx]; by rewrite lookup_empty in Hx); try (intros ? [x Hx]; by rewrite lookup_empty in Hx).
  apply NoDup_nil. done.
Qed.

Lemma holds_empty : holds (NewBlockStore empty_blocks) 0 [].
Proof. apply stores_empty. Qed.

(** ** Every question the store answers *)

Definition entry_at (base : Z) (l : list entry) (h : Z) : option entry := if base <=? h then l !! Z.to_nat (h - base) else None.

(** The block with the commit for a height. *)
Definition entry_after (first : option entry) (base : Z) (l : list entry) (h : Z) : option entry :=
  if base <=? h then entry_at base l (h + 1) else first ≫= fun e => if en_height e =? h + 1 then Some e else None.

Record answers (first : option entry) (bs : BlockStore) (base : Z) (l : list entry) : Prop := {
  an_size : BlockStore_Size bs = lenZ l;
  an_base : LoadBaseMeta (E:=unit) bs = Ok (en_meta <$> head l);
  an_meta : forall h, LoadBlockMeta (E:=unit) bs h = Ok (en_meta <$> entry_at base l h);
  an_part : forall h i, LoadBlockPart (E:=unit) bs h i =
    Ok (e ← entry_at base l h; if 0 <=? i then mjoin (ps_parts (en_parts e) !! Z.to_nat i) else None);
  an_seen : forall h, LoadSeenCommit (E:=unit) bs h = Ok (decoded_commit ∘ en_seen <$> entry_at base l h);
  an_commit : forall h, LoadBlockCommit (E:=unit) bs h = Ok (e ← entry_after first base l h; decoded_commit <$> b_LastCommit (en_block e));
  an_block : forall decode h, LoadBlock (E:=unit) decode bs h =
    match entry_at base l h with
    | None => Ok None
    | Some e => match Block_Marshal (en_block e) ≫= decode with Some b => Ok (Some b) | None => Panic end
    end;
  an_hash : forall decode x, LoadBlockByHash (E:=unit) decode bs x =
    match list_find (fun e => en_hash e = x) l with None => Ok None | Some (_, e) => LoadBlock decode bs (en_height e) end
}.

Lemma entry_at_kept bs base l h e : holds bs base l -> entry_at base l h = Some e -> kept (bs_db bs) h e.
Proof.
  intros Ho. unfold entry_at. destruct (Z.leb_spec base h); [|done]. intros Hi. apply (ho_kept _ _ _ Ho) in Hi.
  by replace (base + Z.of_nat (Z.to_nat (h - base))) with h in Hi by lia.
Qed.

Lemma entry_at_None base l h : entry_at base l h = None -> ~ (base <= h < base + lenZ l).
Proof. unfold entry_at, lenZ. destruct (Z.leb_spec base h); [|lia]. intros ?%lookup_ge_None. lia. Qed.

Lemma load_nothing {E E' A B} (convert : A -> outcome E' B) (o : option A) : ~ is_Some o -> load_with (E:=E) convert o = Ok None.
Proof. destruct o; [intros H; destruct H; eauto|done]. Qed.

Lemma stored_commit {E} e bz c : storable e bz c ->
  load_with (E:=E) (fun c => CommitFromProto (decoded_commit c)) (b_LastCommit (en_block e)) = Ok (decoded_commit <$> b_LastCommit (en_block e)).
Proof. intros Hs. destruct (so_last _ _ _ Hs) as [-> [_ Hd]]. cbn [load_with]. by rewrite Hd. Qed.

Lemma stores_size bs base l : holds bs base l -> BlockStore_Size bs = lenZ l.
Proof.
  intros [H1 H2 H3 H4 H5 H6 H7 H8]. unfold BlockStore_Size. rewrite H3, H2. destruct l as [|e l]; [done|].
  rewrite bool_decide_eq_false_2 in H4 |- * by done.
  assert (Hl : 0 < lenZ (e :: l)) by (unfold lenZ; cbn; lia). destruct (Z.eqb_spec (base + lenZ (e :: l) - 1) 0); [lia|].
  destruct (last_is_Some (e :: l)) as [_ [x Hx]]; [done|]. rewrite last_lookup in Hx. cbn [length Nat.pred] in Hx.
  destruct (H5 _ _ Hx) as [Hh (bz & c & Hs) _ _ _ _]. apply so_height in Hs. fold (en_height x) in Hs. unfold lenZ in *. cbn [length] in *.
  rewrite (wrap64_id (_ - base)), wrap64_id; unfold int64, int64_min, int64_max in *; lia.
Qed.

Lemma stores_part first bs base l h i : stores first bs (base, l) ->
  LoadBlockPart (E:=unit) bs h i = Ok (e ← entry_at base l h; if 0 <=? i then mjoin (ps_parts (en_parts e) !! Z.to_nat i) else None).
Proof.
  intros [Ho Hn]. cbn [fst snd] in *. unfold LoadBlockPart. destruct (entry_at base l h) as [e|] eqn:Ee.
  - pose proof (entry_at_kept _ _ _ _ _ Ho Ee) as Hk. pose proof Hk as [Hh (bz & c & Hs) _ Hp _ _]. cbn [mbind option_bind].
    destruct (storable_parts _ _ _ Hs) as (chunks & parts & bits & Hd & Hps).
    destruct (Z.leb_spec 0 i) as [Hi|Hi]; [destruct (ps_parts (en_parts e) !! Z.to_nat i) as [p|] eqn:Ei|].
    + specialize (Hp _ _ Ei). rewrite Z2Nat.id in Hp by done. rewrite Hp. rewrite Hps in Ei. cbn [ps_parts] in Ei.
      apply list_lookup_fmap_Some in Ei as (q & -> & Hq). cbn [load_with mjoin option_join].
      by rewrite (part_valid bz chunks parts _ q (so_size _ _ _ Hs) Hd Hq).
    + apply load_nothing. intros (k & x & Hk' & -> & Hr)%(on_part _ _ _ _ Hn). apply lookup_ge_None in Ei.
      unfold entry_at in Ee. destruct (Z.leb_spec base (base + Z.of_nat k)); [|done]. replace (Z.to_nat _) with k in Ee by lia.
      rewrite Hk' in Ee. injection Ee as ->. unfold lenZ in Hr. lia.
    + apply load_nothing. intros (k & x & _ & _ & Hr)%(on_part _ _ _ _ Hn). lia.
  - apply load_nothing. intros (k & x & Hk & -> & _)%(on_part _ _ _ _ Hn). apply entry_at_None in Ee. apply lookup_lt_Some in Hk. unfold lenZ in Ee. lia.
Qed.

Lemma stores_commit first bs base l h : stores first bs (base, l) ->
  LoadBlockCommit (E:=unit) bs h = Ok (e ← entry_after first base l h; decoded_commit <$> b_LastCommit (en_block e)).
Proof.
  intros [Ho Hn]. cbn [fst snd] in *. unfold LoadBlockCommit, entry_after. destruct (Z.leb_spec base h) as [Hle|Hlt].
  - destruct (entry_at base l (h + 1)) as [e|] eqn:Ee.
    + destruct (entry_at_kept _ _ _ _ _ Ho Ee) as [_ (bz & c & Hs) _ _ _ _]. unfold entry_at in Ee. destruct (Z.leb_spec base (h + 1)); [|done].
      replace (Z.to_nat (h + 1 - base)) with (S (Z.to_nat (h - base))) in Ee by lia. apply (ho_commit _ _ _ Ho) in Ee.
      replace (base + _) with h in Ee by lia. rewrite Ee. by eapply stored_commit.
    + apply load_nothing. intros [Hr | (e & -> & Heq)]%(on_commit _ _ _ _ Hn); [apply entry_at_None in Ee; lia|].
      pose proof (on_first _ _ _ _ Hn) as (_ & Hf & _). lia.
  - pose proof (on_first _ _ _ _ Hn) as Hf. destruct first as [e|]; cbn [mbind option_bind].
    + destruct Hf as ((bz & c & Hs) & Hf & Hc). destruct (Z.eqb_spec (en_height e) (h + 1)) as [Heq|Hne].
      * replace h with (en_height e - 1) by lia. rewrite Hc. by eapply stored_commit.
      * apply load_nothing. intros [Hr | (x & [= <-] & Heq)]%(on_commit _ _ _ _ Hn); lia.
    + destruct Hf as (_ & _ & ->). by rewrite lookup_empty.
Qed.

Lemma stores_hash first bs base l decode x : stores first bs (base, l) -> LoadBlockByHash (E:=unit) decode bs x =
  match list_find (fun e => en_hash e = x) l with None => Ok None | Some (_, e) => LoadBlock decode bs (en_height e) end.
Proof.
  intros [Ho Hn]. cbn [fst snd] in *. unfold LoadBlockByHash. destruct (list_find _ l) as [[i e]|] eqn:Ef.
  - apply list_find_Some in Ef as (Hi & <- & _). destruct (ho_kept _ _ _ Ho _ _ Hi) as [-> _ _ _ _ ->]. done.
  - apply list_find_None in Ef. destruct (bd_hash (bs_db bs) !! x) eqn:Ex; [|done]. exfalso.
    destruct (proj1 (list_elem_of_fmap _ _ _) (on_hash _ _ _ _ Hn x ltac:(eauto))) as (e & -> & He). by eapply Forall_forall in Ef.
Qed.

Lemma stores_answers first bs base l : stores first bs (base, l) -> answers first bs base l.
Proof.
  intros Hst. pose proof Hst as [Ho Hn]. cbn [fst snd] in *.
  assert (Hmeta : forall h, LoadBlockMeta (E:=unit) bs h = Ok (en_meta <$> entry_at base l h)).
  { intros h. destruct (entry_at base l h) as [e|] eqn:Ee; [by eapply load_kept_meta, entry_at_kept|].
    apply load_nothing. intros Hs%(ho_only _ _ _ Ho). by apply entry_at_None in Ee. }
  constructor; try done.
  - by eapply stores_size.
  - unfold LoadBaseMeta. rewrite Hmeta, (ho_base _ _ _ Ho). pose proof (ho_empty _ _ _ Ho) as He. destruct l as [|e l]; [by rewrite He|].
    cbn in He. destruct (Z.eqb_spec base 0); [lia|]. unfold entry_at. by rewrite Z.leb_refl, Z.sub_diag.
  - intros. by eapply stores_part.
  - intros h. destruct (entry_at base l h) as [e|] eqn:Ee.
    + pose proof (entry_at_kept _ _ _ _ _ Ho Ee) as Hk. rewrite <- (kp_height _ _ _ Hk). by apply (ld_seen _ _ (kept_loads _ _ _ Hk)).
    + apply load_nothing. intros Hs%(on_seen _ _ _ _ Hn). by apply entry_at_None in Ee.
  - intros. by eapply stores_commit.
  - intros decode h. destruct (entry_at base l h) as [e|] eqn:Ee.
    + pose proof (entry_at_kept _ _ _ _ _ Ho Ee) as Hk. rewrite <- (kp_height _ _ _ Hk). by apply (ld_block _ _ (kept_loads _ _ _ Hk)).
    + unfold LoadBlock. by rewrite Hmeta, Ee.
  - intros. by eapply stores_hash.
Qed.

End store.

(** C14: the block store implements a list of blocks.  Under any sequence of
    blocks saved one after the other, prunings and restarts from an empty
    database, each call returns what the list operation returns; and then every
    load answers from the list at every height, part index and hash: the meta
    data, the parts, the block and the commit seen for a block of the list, and
    the commit in the block after it; nothing for any other height, index or hash.
    The one thing outside the list that is still there is the commit in the first
    block ever saved, under the height before that block. *)
Theorem block_store_refines `{CryptoLib} `{TimeCodec} `{WrapperLib} {laws : Sha256Length} cs :
  calls_ok cs (0, []) ->
  let '(results, bs) := run_calls cs (NewBlockStore empty_blocks) in
  let '(expected, (base, l)) := list_calls cs (0, []) in
  results = expected /\ answers (first_saved cs) bs base l.
Proof.
  intros Hok. destruct (stores_calls cs None (NewBlockStore empty_blocks) (0, []) stores_empty Hok) as (bs & Hrun & Hh). rewrite Hrun.
  destruct (list_calls cs (0, [])) as [rs [base l]]. split; [done|]. by apply stores_answers.
Qed.

(** Pruning in batches leaves a hole.  [PruneBlocks] deletes blocks in
    batches of 1000; before it writes a batch it sets [base] to the height of the
    last block the batch deletes, not to the height after it.  So between the
    first batch and the next one, and after a crash there, the store has no block
    at its own base: [LoadBaseMeta] is nil, also after a restart. *)
Theorem prune_leaves_hole `{CryptoLib} `{TimeCodec} `{WrapperLib} bs metas :
  0 < bs_base bs <= int64_max -> has_metas metas (bs_db bs) (bs_base bs) 1000 ->
  exists bs', prune_blocks 1000 (bs_base bs) [] 0 bs = (Ok ([], 1000), bs') /\ bs_base bs' = bs_base bs + 999 /\
    LoadBaseMeta (E:=unit) bs' = Ok None /\ NewBlockStore (bs_db bs') = bs'.
Proof.
  intros Hb Hm. change 1000%nat with (S 999). rewrite (prune_first metas 999) by (done || lia). cbn [app].
  rewrite (gbind_step _ _ _ _ _ (flush_run _ _ _)). set (dels := deletions metas (S 999) (bs_base bs)).
  assert (Hbelow : Forall (below (bs_base bs + Z.of_nat (S 999))) dels) by apply deletions_below.
  set (db0 := block_apply (bs_db bs) (SetBlockState (bs_base bs + Z.of_nat 999) (bs_height bs))). eexists. split; [reflexivity|].
  cbn [bs_base bs_db]. split; [lia|]. split.
  - unfold LoadBaseMeta, LoadBlockMeta. cbn [bs_base bs_db]. destruct (Z.eqb_spec (bs_base bs + Z.of_nat 999) 0); [lia|].
    destruct (bd_meta (block_write db0 dels) !! (bs_base bs + Z.of_nat 999)) as [x|] eqn:Ex; [|done]. exfalso.
    destruct (entry_survives _ _ _ _ (de_meta _ _ _ (batch_deletes _ _ Hbelow db0) (bs_base bs + Z.of_nat 999))) as [_ Hni]; [by rewrite Ex|].
    apply Hni, deletions_in. eexists. split; [|apply delete_block_in; by left]. lia.
  - unfold NewBlockStore, LoadBlockStoreState. rewrite (write_state _ dels Hbelow). unfold db0 at 1. destruct (bs_db bs) as [m1 m2 m3 m4 m5 m6].
    cbn [block_apply bd_state].
    destruct (Z.eqb_spec (bs_base bs + Z.of_nat 999) 0); [lia|]. by rewrite andb_false_r.
Qed.

(** ** Two blocks *)

Section toy_blocks.
  #[local] Existing Instances toy_crypto toy_time toy_wrappers toy_vrf.

Definition no_parts : PartSet := mkPartSet 0 [] [] None 0 0.

Definition toy_entry (b : Block) : entry :=
  mkEntry b (ok_or no_parts (MakePartSet (E:=unit) b BlockPartSizeBytes)) (toy_commit b named_entries).

Definition first_entry : entry := toy_entry first_block.
Definition second_entry : entry := toy_entry second_block.

Lemma first_storable : exists bz c, storable first_entry bz c.
Proof.
  eexists _, (NewCommit 0 0 zero_BlockID []). constructor; try (vm_compute; reflexivity); try (by vm_compute).
  - split; [vm_compute; reflexivity|]. split; [eexists|]; vm_compute; reflexivity.
  - split; [eexists|]; vm_compute; reflexivity.
Qed.

Lemma second_storable : exists bz c, storable second_entry bz c.
Proof.
  eexists _, (toy_commit first_block named_entries). constructor; try (vm_compute; reflexivity); try (by vm_compute).
  - split; [vm_compute; reflexivity|]. split; [eexists|]; vm_compute; reflexivity.
  - split; [eexists|]; vm_compute; reflexivity.
Qed.

(** The meta data of one block under 1001 heights. *)
Definition long_store : BlockStore :=
  mkBlockStore (mkBlockDB (list_to_map ((fun h => (h, en_meta first_entry)) <$> seqZ 1 1001)) ∅ ∅ ∅ ∅ None) 1 1001.

Lemma long_store_metas : has_metas (fun _ => en_meta first_entry) (bs_db long_store) 1 1000.
Proof.
  intros x Hx. split; [|by vm_compute]. cbn [long_store bs_db bd_meta]. apply elem_of_list_to_map.
  - rewrite <- list_fmap_compose. change (NoDup ((fun h : Z => h) <$> seqZ 1 1001)). rewrite list_fmap_id. apply NoDup_seqZ.
  - apply list_elem_of_fmap. exists x. split; [done|]. apply elem_of_seqZ. lia.
Qed.

End toy_blocks.

Lemma block_store_refines_witness : exists bs,
  @run_calls toy_crypto toy_time toy_wrappers [SaveCall first_entry; SaveCall second_entry; PruneCall 2; ReopenCall] (NewBlockStore empty_blocks) =
    ([Ok 0; Ok 0; Ok 1; Ok 0], bs) /\
  @LoadBlockMeta toy_crypto toy_time toy_wrappers unit bs 2 = Ok (Some (@en_meta toy_crypto toy_time toy_wrappers second_entry)) /\
  @LoadBlockMeta toy_crypto toy_time toy_wrappers unit bs 1 = Ok None /\ LoadBlockPart (E:=unit) bs 1 0 = Ok None /\
  LoadSeenCommit (E:=unit) bs 1 = Ok None /\ LoadBlockCommit (E:=unit) bs 1 = Ok None /\
  LoadBlockCommit (E:=unit) bs 0 = Ok (Some (NewCommit 0 0 zero_BlockID [])).
Proof.
  pose proof (@block_store_refines toy_crypto toy_time toy_wrappers toy_sha256_length
    [SaveCall first_entry; SaveCall second_entry; PruneCall 2; ReopenCall]) as Hr.
  destruct (run_calls _ _) as [results bs]. exists bs.
  change (list_calls _ _) with ([Ok 0; Ok 0; Ok 1; Ok 0] : list (outcome prune_error Z), (2, [second_entry])) in Hr.
  destruct Hr as [-> [_ _ Hm Hp Hs Hc _ _]].
  - split; [|split; [|done]].
    + split; [exact first_storable|]. split; [done|]. apply not_elem_of_nil.
    + split; [exact second_storable|]. split; [intros _; by vm_compute|]. intros (x & Heq & Hx)%list_elem_of_fmap.
      apply list_elem_of_singleton in Hx. subst x. vm_compute in Heq. done.
  - split; [done|]. rewrite !Hm, Hp, Hs, !Hc. split_and!; vm_compute; reflexivity.
Defined.

Lemma prune_leaves_hole_witness : exists bs',
  @prune_blocks toy_crypto toy_time toy_wrappers 1000 1 [] 0 long_store = (Ok ([], 1000), bs') /\ bs_base bs' = 1000 /\
  @LoadBaseMeta toy_crypto toy_time toy_wrappers unit bs' = Ok None /\ NewBlockStore (bs_db bs') = bs'.
Proof.
  apply (@prune_leaves_hole toy_crypto toy_time toy_wrappers long_store (fun _ => @en_meta toy_crypto toy_time toy_wrappers first_entry));
    [by vm_compute|exact long_store_metas].
Defined.
