(* ===== verification/EvidencePool.v ===== *)
(** * The evidence pool: src/evidence/pool.go

    Evidence that waits for a block, evidence that was committed, and the votes
    consensus reported, with the check of evidence in [verify] and
    [getSignedHeader] of src/evidence/verify.go and [EvidenceFromProto] of
    src/types/evidence.go.

    A key of the database is a prefix, a height and a hash; the two prefixes are
    two maps.  An iterator goes through the pending evidence in the order of the
    keys, for heights that are not negative.  The generated decoder is a
    parameter; a message is written as the value it stands for.  The failures of
    the database itself are left out.  No lock is held over a whole method:
    [AddEvidence] is put together from its checks and its writes, between which
    consensus can update the pool; the other methods run on the goroutine of
    consensus and are one step each. *)

From Stdlib Require Import ZArith Lia.
From stdpp Require Import prelude list gmap.
From S2P Require Import Prelude SafeMath Crypto Validator ValidatorSet Proto Block VoterSet Election Merkle Header Light BlockProto.
From S2P Require Import Evidence ChainState StateStore BlockStore.

Local Open Scope Z_scope.
Local Open Scope go_scope.

(** ** Data *)

Record duplicateVoteSet := mkDuplicateVoteSet { dvs_VoteA : Vote; dvs_VoteB : Vote }.

(** Height and hash; the hexadecimal digits of both order the keys. *)
Definition evKey : Type := Z * bytes.

Definition key_less (a b : evKey * bytes) : bool :=
  if fst (fst a) =? fst (fst b) then bytes_ltb (snd (fst a)) (snd (fst b)) else fst (fst a) <? fst (fst b).

Record evidenceDB := mkEvidenceDB { ed_pending : gmap evKey bytes; ed_committed : gset evKey }.

Record Pool := mkPool {
  ep_store : evidenceDB;
  ep_list : list Evidence;
  ep_size : Z;
  ep_state : ChainState;
  ep_buffer : list duplicateVoteSet;
  ep_pruningHeight : Z;
  ep_pruningTime : Time
}.

(** The stores the pool reads. *)
Record Stores := mkStores { ss_stateDB : dbStore; ss_blockStore : BlockStore }.

Inductive pool_error :=
| ErrNoHeader (h : Z) | ErrNoCommit (h : Z) | ErrEvidenceTime | ErrTooOld | ErrPoolVoters (e : store_error)
| ErrNotEvidence (e : evidence_error) | ErrLatestTime | ErrAlreadyCommitted | ErrDuplicate | ErrNoMessage
| ErrConvert | ErrUnmarshal | ErrPoolState (e : store_error).

Class EvidenceCodec := Evidence_Unmarshal : bytes -> option Evidence.

(** [time.Time.Sub] stays within a [Duration]. *)
Definition time_Sub (t u : Time) : Z := Z.max int64_min (Z.min int64_max (t - u)).

Definition wrap_size (x : Z) : Z := x mod 4294967296.

Section pool.
  Context {crypto : CryptoLib} {codec : TimeCodec} {wrappers : WrapperLib} {decoder : EvidenceCodec}.

(** ** Conversions of messages *)

Definition has_key (v : Validator) : bool := bool_decide (vPubKey v <> None).

Definition SignedHeaderFromProto (shp : SignedHeader) : outcome pool_error SignedHeader :=
  h ← match sh_Header shp with None => Ok None | Some h => h ← lift_err (fun _ => ErrConvert) (HeaderFromProto h); Ok (Some h) end;
  c ← match sh_Commit shp with
      | None => Ok None
      | Some c => c ← lift_err (fun _ => ErrConvert) (CommitFromProto (decoded_commit c)); Ok (Some c)
      end;
  Ok (mkSignedHeader h c).

Definition LightBlockFromProto (pb : LightBlock) : outcome pool_error LightBlock :=
  sh ← match lb_SignedHeader pb with None => Ok None | Some sh => sh ← SignedHeaderFromProto sh; Ok (Some sh) end;
  vals ← match lb_ValidatorSet pb with
         | None => Ok None
         | Some vals =>
             if negb (forallb has_key (Validators vals)) then Err ErrConvert
             else _ ← lift_err (fun _ => ErrConvert) (ValidateBasicSet vals); Ok (Some vals)
         end;
  voters ← match lb_VoterSet pb with
           | None => Ok None
           | Some voters =>
               if negb (forallb has_key (Voters voters)) then Err ErrConvert
               else voters ← lift_err (fun _ => ErrConvert) (VoterSetFromProto (Voters voters) (totalVotingWeight voters)); Ok (Some voters)
           end;
  Ok (mkLightBlock sh vals voters).

Definition DuplicateVoteEvidenceFromProto (pb : DuplicateVoteEvidence) : outcome pool_error DuplicateVoteEvidence :=
  vA ← lift_err (fun _ => ErrConvert) (VoteFromProto (dve_VoteA pb));
  vB ← lift_err (fun _ => ErrConvert) (VoteFromProto (dve_VoteB pb));
  let dve := mkDuplicateVote vA vB (dve_TotalVotingPower pb) (dve_ValidatorPower pb) (dve_VotingWeight pb) (dve_Timestamp pb) in
  _ ← lift_err ErrNotEvidence (dve_ValidateBasic dve); Ok dve.

Definition LightClientAttackEvidenceFromProto (lpb : LightClientAttackEvidence) : outcome pool_error LightClientAttackEvidence :=
  conflictingBlock ← LightBlockFromProto (lca_ConflictingBlock lpb);
  let byzVals := default [] (lca_ByzantineValidators lpb) in
  if negb (forallb has_key byzVals) then Err ErrConvert
  else
    let l := mkLightClientAttack conflictingBlock (lca_CommonHeight lpb) (Some byzVals) (lca_TotalVotingPower lpb) (lca_Timestamp lpb) in
    _ ← lift_err ErrNotEvidence (lca_ValidateBasic l); Ok l.

Definition EvidenceFromProto (evidence : Evidence) : outcome pool_error Evidence :=
  match evidence with
  | DuplicateVote evi => evi ← DuplicateVoteEvidenceFromProto evi; Ok (DuplicateVote evi)
  | LightClientAttack evi => evi ← LightClientAttackEvidenceFromProto evi; Ok (LightClientAttack evi)
  end.

Definition bytesToEv (evBytes : bytes) : outcome pool_error Evidence :=
  match Evidence_Unmarshal evBytes with None => Err ErrUnmarshal | Some pb => EvidenceFromProto pb end.

Definition evidence_key {E} (ev : Evidence) : outcome E evKey := hash ← Evidence_Hash ev; Ok (Evidence_Height ev, hash).

(** ** Reading and writing the store *)

Abbreviation PoolM := (GoM Pool pool_error).

Definition pending_in_order (db : evidenceDB) : list (evKey * bytes) := sort_by key_less (map_to_list (ed_pending db)).

Definition isExpired (pool : Pool) (height : Z) (time : Time) : bool :=
  let params := st_ConsensusParams (ep_state pool) in
  let ageDuration := time_Sub (st_LastBlockTime (ep_state pool)) time in
  let ageNumBlocks := st_LastBlockHeight (ep_state pool) -i64 height in
  (cp_MaxAgeNumBlocks params <? ageNumBlocks) && (cp_MaxAgeDuration params <? ageDuration).

Definition isCommitted {E} (pool : Pool) (ev : Evidence) : outcome E bool :=
  key ← evidence_key ev; Ok (bool_decide (key ∈ ed_committed (ep_store pool))).

Definition isPending {E} (pool : Pool) (ev : Evidence) : outcome E bool :=
  key ← evidence_key ev; Ok (bool_decide (is_Some (ed_pending (ep_store pool) !! key))).

Definition set_store (pool : Pool) (db : evidenceDB) (size : Z) : Pool :=
  mkPool db (ep_list pool) size (ep_state pool) (ep_buffer pool) (ep_pruningHeight pool) (ep_pruningTime pool).

Definition set_list (pool : Pool) (l : list Evidence) : Pool :=
  mkPool (ep_store pool) l (ep_size pool) (ep_state pool) (ep_buffer pool) (ep_pruningHeight pool) (ep_pruningTime pool).

Definition push_back (ev : Evidence) : PoolM unit := gmodify (fun pool => set_list pool (ep_list pool ++ [ev])).

Definition addPendingEvidence (ev : Evidence) : PoolM unit :=
  match EvidenceToProto ev with
  | None => gfail ErrNoMessage
  | Some evBytes =>
      key ← glift (evidence_key ev);
      gmodify (fun pool => set_store pool (mkEvidenceDB (<[key := evBytes]> (ed_pending (ep_store pool))) (ed_committed (ep_store pool)))
                             (wrap_size (ep_size pool + 1)))
  end.

Definition removePendingEvidence (ev : Evidence) : PoolM unit :=
  key ← glift (evidence_key ev);
  gmodify (fun pool => set_store pool (mkEvidenceDB (delete key (ed_pending (ep_store pool))) (ed_committed (ep_store pool)))
                         (wrap_size (ep_size pool - 1))).

(** Keeps the evidence whose hash is not among the given ones. *)
Fixpoint remove_hashes {E} (hashes : list bytes) (l : list Evidence) : outcome E (list Evidence) :=
  match l with
  | [] => Ok []
  | ev :: l =>
      hash ← Evidence_Hash ev;
      rest ← remove_hashes hashes l;
      Ok (if bool_decide (hash ∈ hashes) then rest else ev :: rest)
  end.

Definition removeEvidenceFromList (hashes : list bytes) : PoolM unit :=
  if bool_decide (hashes = []) then mret tt
  else
    pool ← gget;
    l ← glift (remove_hashes hashes (ep_list pool));
    gmodify (fun pool => set_list pool l).

(** The evidence and its size; with an error, what was read before it. *)
Fixpoint list_loop (values : list bytes) (maxBytes : Z) (messages evidence : list Evidence) (totalSize : Z)
  : outcome pool_error (list Evidence * Z * option pool_error) :=
  match values with
  | [] => Ok (evidence, totalSize, None)
  | value :: values =>
      match Evidence_Unmarshal value with
      | None => Ok (evidence, totalSize, Some ErrUnmarshal)
      | Some pb =>
          let messages := messages ++ [pb] in
          let evSize := default 0 (lenZ <$> EvidenceList_Marshal messages) in
          if negb (maxBytes =? -1) && (maxBytes <? evSize) then Ok (evidence, totalSize, None)
          else match EvidenceFromProto pb with
               | Ok ev => list_loop values maxBytes messages (evidence ++ [ev]) evSize
               | Err e => Ok ([], totalSize, Some e)
               | Panic => Panic
               end
      end
  end.

Definition listEvidence (db : evidenceDB) (maxBytes : Z) : outcome pool_error (list Evidence * Z * option pool_error) :=
  list_loop (snd <$> pending_in_order db) maxBytes [] [] 0.

(** An error is only logged. *)
Definition PendingEvidence (pool : Pool) (maxBytes : Z) : outcome pool_error (list Evidence * Z) :=
  if ep_size pool =? 0 then Ok ([], 0)
  else '(evidence, size, _) ← listEvidence (ep_store pool) maxBytes; Ok (evidence, size).

(** The loop of [removeExpiredPendingEvidence]; the height and the time of the
    next pruning. *)
Fixpoint expire_loop (values hashes : list bytes) : PoolM (Z * Time) :=
  match values with
  | [] =>
      removeEvidenceFromList hashes;;
      pool ← gget;
      mret (st_LastBlockHeight (ep_state pool), st_LastBlockTime (ep_state pool))
  | value :: values =>
      match bytesToEv value with
      | Ok ev =>
          pool ← gget;
          if negb (isExpired pool (Evidence_Height ev) (Evidence_Time ev)) then
            removeEvidenceFromList hashes;;
            let params := st_ConsensusParams (ep_state pool) in
            mret (Evidence_Height ev +i64 cp_MaxAgeNumBlocks params +i64 1, Evidence_Time ev + cp_MaxAgeDuration params + 1000000000)
          else
            removePendingEvidence ev;;
            hash ← glift (Evidence_Hash ev);
            expire_loop values (hash :: hashes)
      | Err _ => expire_loop values hashes
      | Panic => gpanic
      end
  end.

Definition removeExpiredPendingEvidence : PoolM (Z * Time) :=
  pool ← gget; expire_loop (snd <$> pending_in_order (ep_store pool)) [].

Definition prune_pool : PoolM unit :=
  '(height, time) ← removeExpiredPendingEvidence;
  gmodify (fun pool => mkPool (ep_store pool) (ep_list pool) (ep_size pool) (ep_state pool) (ep_buffer pool) height time).

(** The state of a chain that is not there. *)
Definition empty_chain : ChainState :=
  mkChainState (mkVersion 0 0) [] 0 (mkVoterParams 0 0) 0 (mkBlockID [] (mkPartSetHeader 0 [])) 0 [] (mkValidatorSet [] 0)
    (mkValidatorSet [] 0) (mkVoterSet [] 0) (mkVoterSet [] 0) 0 empty_params 0 [] [].

Definition NewPool (db : evidenceDB) (stores : Stores) : outcome pool_error Pool :=
  state ← lift_err ErrPoolState (Load (ss_stateDB stores));
  let pool := mkPool db [] 0 (default empty_chain state) [] 0 0 in
  match prune_pool pool with
  | (Ok _, pool) =>
      '(evList, _, err) ← listEvidence (ep_store pool) (-1);
      match err with
      | Some e => Err e
      | None => Ok (set_list (set_store pool (ep_store pool) (wrap_size (lenZ evList))) (ep_list pool ++ evList))
      end
  | (Err e, _) => Err e
  | (Panic, _) => Panic
  end.

(** ** Checking evidence *)

Definition getSignedHeader (blockStore : BlockStore) (height : Z) : outcome pool_error SignedHeader :=
  blockMeta ← LoadBlockMeta blockStore height;
  match blockMeta with
  | None => Err (ErrNoHeader height)
  | Some blockMeta =>
      commit ← LoadBlockCommit blockStore height;
      match commit with
      | None => Err (ErrNoCommit height)
      | Some commit => Ok (mkSignedHeader (Some (bm_Header blockMeta)) (Some commit))
      end
  end.

Definition load_voters (stores : Stores) (state : ChainState) (height : Z) : outcome pool_error VoterSet :=
  '(_, voters, _, _) ← lift_err ErrPoolVoters (LoadVoters (ss_stateDB stores) height (Some (st_VoterParams state)));
  Ok voters.

(** The header the node trusts at the height of the conflicting one. *)
Definition trusted_header (stores : Stores) (l : LightClientAttackEvidence) (commonHeader : SignedHeader) : outcome pool_error SignedHeader :=
  conflicting ← conflicting_header l;
  if lca_CommonHeight l =? h_Height conflicting then Ok commonHeader
  else match getSignedHeader (ss_blockStore stores) (h_Height conflicting) with
       | Err _ =>
           trusted ← getSignedHeader (ss_blockStore stores) (bs_height (ss_blockStore stores));
           header ← deref (sh_Header trusted);
           if h_Time header <? h_Time conflicting then Err ErrLatestTime else Ok trusted
       | r => r
       end.

Definition verify (stores : Stores) (pool : Pool) (ev : Evidence) : outcome pool_error unit :=
  let state := ep_state pool in
  let evidenceParams := st_ConsensusParams state in
  let ageNumBlocks := st_LastBlockHeight state -i64 Evidence_Height ev in
  blockMeta ← LoadBlockMeta (ss_blockStore stores) (Evidence_Height ev);
  match blockMeta with
  | None => Err (ErrNoHeader (Evidence_Height ev))
  | Some blockMeta =>
      let evTime := h_Time (bm_Header blockMeta) in
      if negb (Evidence_Time ev =? evTime) then Err ErrEvidenceTime
      else
        let ageDuration := time_Sub (st_LastBlockTime state) evTime in
        if (cp_MaxAgeDuration evidenceParams <? ageDuration) && (cp_MaxAgeNumBlocks evidenceParams <? ageNumBlocks) then Err ErrTooOld
        else match ev with
             | DuplicateVote d =>
                 voterSet ← load_voters stores state (Evidence_Height ev);
                 lift_err ErrNotEvidence (VerifyDuplicateVote d (st_ChainID state) voterSet)
             | LightClientAttack l =>
                 commonHeader ← getSignedHeader (ss_blockStore stores) (Evidence_Height ev);
                 commonVoters ← load_voters stores state (Evidence_Height ev);
                 trustedHeader ← trusted_header stores l commonHeader;
                 lift_err ErrNotEvidence (VerifyLightClientAttack l commonHeader trustedHeader commonVoters)
             end
  end.

(** ** Evidence of others and of blocks *)

(** [AddEvidence] runs for peers while consensus checks and updates.  Its first
    part says whether the evidence is new and valid. *)
Definition add_checks (stores : Stores) (ev : Evidence) : PoolM bool :=
  pool ← gget;
  pending ← glift (isPending pool ev);
  if (pending : bool) then mret false
  else
    committed ← glift (isCommitted pool ev);
    if (committed : bool) then mret false
    else glift (verify stores pool ev);; mret true.

(** Its second part stores the evidence, without looking again. *)
Definition add_checked (ev : Evidence) : PoolM unit := addPendingEvidence ev;; push_back ev.

Definition AddEvidence (stores : Stores) (ev : Evidence) : PoolM unit :=
  new ← add_checks stores ev;
  if (new : bool) then add_checked ev else mret tt.

Definition is_light (ev : Evidence) : bool := match ev with LightClientAttack _ => true | DuplicateVote _ => false end.

(** That the evidence cannot be stored is only logged. *)
Definition add_or_log (ev : Evidence) : PoolM unit := fun pool =>
  match addPendingEvidence ev pool with (Err _, pool) => (Ok tt, pool) | r => r end.

Fixpoint check_loop (stores : Stores) (evList : list Evidence) (hashes : list bytes) : PoolM unit :=
  match evList with
  | [] => mret tt
  | ev :: evList =>
      pool ← gget;
      pending ← glift (isPending pool ev);
      (if is_light ev || negb pending then
         committed ← glift (isCommitted pool ev);
         if (committed : bool) then gfail ErrAlreadyCommitted
         else glift (verify stores pool ev);; add_or_log ev
       else mret tt);;
      hash ← glift (Evidence_Hash ev);
      if bool_decide (hash ∈ hashes) then gfail ErrDuplicate else check_loop stores evList (hash :: hashes)
  end.

Definition CheckEvidence (stores : Stores) (evList : list Evidence) : PoolM unit := check_loop stores evList [].

Definition ReportConflictingVotes (voteA voteB : Vote) : PoolM unit :=
  gmodify (fun pool => mkPool (ep_store pool) (ep_list pool) (ep_size pool) (ep_state pool)
                         (ep_buffer pool ++ [mkDuplicateVoteSet voteA voteB]) (ep_pruningHeight pool) (ep_pruningTime pool)).

(** ** A new block *)

(** The evidence of two votes, if the height is known; nil for an unknown voter. *)
Definition buffered_evidence (stores : Stores) (state : ChainState) (votes : duplicateVoteSet)
  : outcome pool_error (option (option DuplicateVoteEvidence)) :=
  let '(mkDuplicateVoteSet voteA voteB) := votes in
  if v_Height voteA =? st_LastBlockHeight state then
    dve ← NewDuplicateVoteEvidence voteA voteB (st_LastBlockTime state) (st_LastVoters state); Ok (Some dve)
  else if v_Height voteA <? st_LastBlockHeight state then
    match load_voters stores state (v_Height voteA) with
    | Ok voterSet =>
        blockMeta ← LoadBlockMeta (ss_blockStore stores) (v_Height voteA);
        match blockMeta with
        | None => Ok None
        | Some blockMeta =>
            dve ← NewDuplicateVoteEvidence voteA voteB (h_Time (bm_Header blockMeta)) voterSet; Ok (Some dve)
        end
    | Err _ => Ok None
    | Panic => Panic
    end
  else Ok None.

(** Following the nil evidence of an unknown voter panics. *)
Fixpoint buffer_loop (stores : Stores) (state : ChainState) (buffer : list duplicateVoteSet) : PoolM unit :=
  match buffer with
  | [] => mret tt
  | votes :: buffer =>
      dve ← glift (buffered_evidence stores state votes);
      match dve with
      | None => buffer_loop stores state buffer
      | Some dve =>
          dve ← glift (deref dve);
          let ev := DuplicateVote dve in
          pool ← gget;
          pending ← glift (isPending pool ev);
          if (pending : bool) then buffer_loop stores state buffer
          else
            committed ← glift (isCommitted pool ev);
            if (committed : bool) then buffer_loop stores state buffer
            else
              stored ← (fun pool => match addPendingEvidence ev pool with
                                    | (Ok _, pool) => (Ok true, pool)
                                    | (Err _, pool) => (Ok false, pool)
                                    | (Panic, pool) => (Panic, pool)
                                    end);
              (if (stored : bool) then push_back ev else mret tt);;
              buffer_loop stores state buffer
      end
  end.

Definition processConsensusBuffer (stores : Stores) (state : ChainState) : PoolM unit :=
  pool ← gget;
  buffer_loop stores state (ep_buffer pool);;
  gmodify (fun pool => mkPool (ep_store pool) (ep_list pool) (ep_size pool) (ep_state pool) [] (ep_pruningHeight pool) (ep_pruningTime pool)).

Definition pool_updateState (state : ChainState) : PoolM unit :=
  gmodify (fun pool => mkPool (ep_store pool) (ep_list pool) (ep_size pool) state (ep_buffer pool) (ep_pruningHeight pool) (ep_pruningTime pool)).

Fixpoint mark_loop (evidence : list Evidence) (hashes : list bytes) : PoolM (list bytes) :=
  match evidence with
  | [] => mret hashes
  | ev :: evidence =>
      pool ← gget;
      pending ← glift (isPending pool ev);
      hashes ← (if (pending : bool) then removePendingEvidence ev;; hash ← glift (Evidence_Hash ev); mret (hash :: hashes) else mret hashes);
      key ← glift (evidence_key ev);
      gmodify (fun pool => set_store pool (mkEvidenceDB (ed_pending (ep_store pool)) ({[key]} ∪ ed_committed (ep_store pool))) (ep_size pool));;
      mark_loop evidence hashes
  end.

Definition markEvidenceAsCommitted (evidence : list Evidence) : PoolM unit :=
  hashes ← mark_loop evidence [];
  removeEvidenceFromList hashes.

Definition Pool_Update (stores : Stores) (state : ChainState) (ev : list Evidence) : PoolM unit :=
  pool ← gget;
  if st_LastBlockHeight state <=? st_LastBlockHeight (ep_state pool) then gpanic
  else
    processConsensusBuffer stores state;;
    pool_updateState state;;
    markEvidenceAsCommitted ev;;
    pool ← gget;
    if (0 <? ep_size pool) && (ep_pruningHeight pool <? st_LastBlockHeight state) && (ep_pruningTime pool <? st_LastBlockTime state)
    then prune_pool
    else mret tt.

End pool.
