(* ===== verification/EvidencePoolProps.v ===== *)
(** * Evidence is committed once

    Over any history of a pool of src/evidence/pool.go, no evidence gets into two
    blocks; and the pool proposes evidence that has expired. *)

From Stdlib Require Import ZArith Lia.
From stdpp Require Import prelude list gmap.
From S2P Require Import Prelude SafeMath Crypto Validator ValidatorSet Proto Block VoterSet VerifyCommit Election Merkle Header Light.
From S2P Require Import BlockProto Evidence ChainState ChainProps StateStore StateProps StoreHistory BlockStore BlockStoreProps EvidencePool.

Local Open Scope Z_scope.
Local Open Scope go_scope.

Section pool.
  Context {crypto : CryptoLib} {codec : TimeCodec} {wrappers : WrapperLib} {decoder : EvidenceCodec}.

(** Nothing that was committed is pending. *)
Definition apart (pool : Pool) : Prop := forall key, key ∈ ed_committed (ep_store pool) -> ed_pending (ep_store pool) !! key = None.

(** The committed evidence stays. *)
Definition steady (p p' : Pool) : Prop := ed_committed (ep_store p') = ed_committed (ep_store p) /\ (apart p -> apart p').

#[local] Instance steady_preorder : PreOrder steady.
Proof. split; [by intros p; split; auto|]. intros p1 p2 p3 [H1 H2] [H3 H4]. split; [congruence|auto]. Qed.

(** Computations that only take evidence away. *)
Definition shrinks (p p' : Pool) : Prop :=
  ed_committed (ep_store p') = ed_committed (ep_store p) /\ ed_pending (ep_store p') ⊆ ed_pending (ep_store p).

#[local] Instance shrinks_preorder : PreOrder shrinks.
Proof. split; [by intros p; split|]. intros p1 p2 p3 [H1 H2] [H3 H4]. split; [congruence|by etrans]. Qed.

Lemma shrinks_steady p p' : shrinks p p' -> steady p p'.
Proof.
  intros [H1 H2]. split; [done|]. intros Ha key Hk. rewrite H1 in Hk. specialize (Ha key Hk).
  destruct (ed_pending (ep_store p') !! key) eqn:E; [|done]. eapply lookup_weaken in E; [|exact H2]. congruence.
Qed.

Lemma removeEvidence_shrinks hashes : keeps shrinks (removeEvidenceFromList hashes).
Proof.
  unfold removeEvidenceFromList. destruct (bool_decide _); [kept_same|].
  kept_bind; [kept_same|]. intros pool. kept_bind; [kept_same|]. intros l. by apply keeps_modify.
Qed.

Lemma removePending_shrinks ev : keeps shrinks (removePendingEvidence ev).
Proof.
  kept_bind; [kept_same|]. intros key. apply keeps_modify. intros p. split; [done|]. cbn. apply delete_subseteq.
Qed.

Lemma expire_shrinks values : forall hashes, keeps shrinks (expire_loop values hashes).
Proof.
  induction values as [|value values IH]; intros hashes; cbn [expire_loop].
  - kept_bind; [apply removeEvidence_shrinks|]. intros _. kept_bind; [kept_same|]. intros p. kept_same.
  - destruct (bytesToEv value) as [ev|e|]; [|apply IH|kept_same].
    kept_bind; [kept_same|]. intros p. destruct (negb _).
    + kept_bind; [apply removeEvidence_shrinks|]. intros _. kept_same.
    + kept_bind; [apply removePending_shrinks|]. intros _. kept_bind; [kept_same|]. intros hash. apply IH.
Qed.

Lemma prune_shrinks : keeps shrinks prune_pool.
Proof.
  unfold prune_pool, removeExpiredPendingEvidence. kept_bind.
  - kept_bind; [kept_same|]. intros p. apply expire_shrinks.
  - intros [h t]. by apply keeps_modify.
Qed.

(** ** Adding evidence *)

Lemma addPending_run ev p :
  match addPendingEvidence ev p with
  | (Ok _, p') => exists key b, evidence_key (E:=pool_error) ev = Ok key /\ ed_pending (ep_store p') = <[key := b]> (ed_pending (ep_store p)) /\
      ed_committed (ep_store p') = ed_committed (ep_store p)
  | (_, p') => p' = p
  end.
Proof.
  unfold addPendingEvidence. destruct (EvidenceToProto ev) as [b|]; [|done]. unfold mbind, gom_bind, glift.
  destruct (evidence_key ev) as [key|e|] eqn:Ek; [|done..]. cbn. by exists key, b.
Qed.

Lemma addPending_steady ev p :
  isCommitted (E:=pool_error) p ev = Ok false -> steady p (snd (addPendingEvidence ev p)).
Proof.
  intros Hc. pose proof (addPending_run ev p) as Hr. destruct (addPendingEvidence ev p) as [[[]|e|] p']; cbn; [|by subst..].
  destruct Hr as (key & b & Hk & Hp & Hcc). split; [done|]. intros Ha k Hin. rewrite Hcc in Hin. rewrite Hp.
  unfold isCommitted in Hc. rewrite Hk in Hc. cbn in Hc. injection Hc as Hc%bool_decide_eq_false.
  rewrite lookup_insert_ne by (intros ->; done). by apply Ha.
Qed.

Lemma add_or_log_state ev p : snd (add_or_log ev p) = snd (addPendingEvidence ev p).
Proof. unfold add_or_log. by destruct (addPendingEvidence ev p) as [[]]. Qed.

Lemma push_back_steady ev : keeps steady (push_back ev).
Proof. apply keeps_modify. intros p. by split. Qed.

Lemma add_checks_run stores ev p r p' :
  add_checks stores ev p = (r, p') -> p' = p /\ (r = Ok true -> isCommitted (E:=pool_error) p ev = Ok false).
Proof.
  unfold add_checks, mbind, gom_bind, gget, glift. destruct (isPending p ev) as [[]| |]; [by intros [= <- <-]| |by intros [= <- <-]..].
  destruct (isCommitted p ev) as [[]| |]; [by intros [= <- <-]| |by intros [= <- <-]..]. destruct (verify stores p ev) as [[]| |]; by intros [= <- <-].
Qed.

Lemma add_checked_steady ev p : isCommitted (E:=pool_error) p ev = Ok false -> steady p (snd (add_checked ev p)).
Proof.
  intros Ec. pose proof (addPending_steady ev p Ec) as Hs. unfold add_checked, mbind, gom_bind.
  destruct (addPendingEvidence ev p) as [[[]| |] p']; [|done..]. cbn in Hs. etrans; [exact Hs|]. apply push_back_steady.
Qed.

(** What a successful check says. *)
Definition keyed (evs : list Evidence) (keys : list evKey) : Prop :=
  Forall2 (fun ev key => evidence_key (E:=pool_error) ev = Ok key) evs keys.

Definition checked (evs : list Evidence) (hashes : list bytes) (p : Pool) : Prop :=
  exists keys, keyed evs keys /\ NoDup (snd <$> keys) /\ forall k, k ∈ keys -> k ∉ ed_committed (ep_store p) /\ snd k ∉ hashes.

Definition check_one (stores : Stores) (p : Pool) (ev : Evidence) (pending : bool) : GoM Pool pool_error unit :=
  if is_light ev || negb pending then
    committed ← glift (isCommitted p ev);
    if (committed : bool) then gfail ErrAlreadyCommitted else glift (verify stores p ev);; add_or_log ev
  else mret tt.

Lemma check_one_spec stores p ev pending :
  isPending (E:=pool_error) p ev = Ok pending ->
  steady p (snd (check_one stores p ev pending p)) /\
  (fst (check_one stores p ev pending p) = Ok tt -> apart p -> exists key, evidence_key (E:=pool_error) ev = Ok key /\ key ∉ ed_committed (ep_store p)).
Proof.
  unfold check_one, isPending. intros Hp. apply obind_Ok in Hp as (key & Hk & [= Hp]).
  destruct (is_light ev || negb pending) eqn:El.
  - unfold mbind at 1 3, gom_bind at 1 3, glift at 1 3. destruct (isCommitted p ev) as [[]| |] eqn:Ec; [done| |done..].
    unfold mbind, gom_bind, glift. destruct (verify stores p ev) as [[]| |]; [|done..]. rewrite add_or_log_state.
    split; [by apply addPending_steady|]. intros _ _. exists key. split; [done|]. unfold isCommitted in Ec. rewrite Hk in Ec. cbn in Ec.
    injection Ec as Ec. by apply bool_decide_eq_false in Ec.
  - split; [done|]. intros _ Ha. exists key. split; [done|]. intros Hin. specialize (Ha key Hin). rewrite Ha in Hp.
    apply orb_false_iff in El as [_ El%negb_false_iff]. subst pending. apply bool_decide_eq_true in El. by destruct El.
Qed.

Lemma check_loop_cons stores ev evs hashes p :
  check_loop stores (ev :: evs) hashes p =
  match isPending p ev with
  | Ok pending =>
      match check_one stores p ev pending p with
      | (Ok _, p1) =>
          match Evidence_Hash ev with
          | Ok hash => if bool_decide (hash ∈ hashes) then (Err ErrDuplicate, p1) else check_loop stores evs (hash :: hashes) p1
          | Err e => (Err e, p1)
          | Panic => (Panic, p1)
          end
      | (Err e, p1) => (Err e, p1)
      | (Panic, p1) => (Panic, p1)
      end
  | Err e => (Err e, p)
  | Panic => (Panic, p)
  end.
Proof.
  cbn [check_loop]. unfold mbind at 1, gom_bind at 1, gget. unfold mbind at 1, gom_bind at 1, glift at 1.
  destruct (isPending p ev) as [pending|e|]; [|done..]. fold (check_one stores p ev pending). unfold mbind at 1, gom_bind at 1.
  destruct (check_one stores p ev pending p) as [[[]|e|] p1]; [|done..]. unfold mbind, gom_bind, glift.
  destruct (Evidence_Hash ev); [|done..]. by destruct (bool_decide _).
Qed.

Lemma check_loop_spec stores evs : forall hashes p,
  steady p (snd (check_loop stores evs hashes p)) /\
  (apart p -> fst (check_loop stores evs hashes p) = Ok tt -> checked evs hashes p).
Proof.
  induction evs as [|ev evs IH]; intros hashes p.
  { split; [done|]. intros _ _. exists []. split_and!; [constructor|constructor|]. by intros k ?%elem_of_nil. }
  rewrite check_loop_cons. destruct (isPending p ev) as [pending|e|] eqn:Ep; [|done..].
  pose proof (check_one_spec stores p ev pending Ep) as [Hs Hk]. destruct (check_one stores p ev pending p) as [[[]|e|] p1]; cbn [fst snd] in *; [|done..].
  destruct (Evidence_Hash ev) as [hash|e|] eqn:Eh; [|done..]. destruct (bool_decide_reflect (hash ∈ hashes)) as [|Hni]; [done|].
  destruct (IH (hash :: hashes) p1) as [Hs1 Hc1]. split; [by etrans|]. intros Ha Hok. destruct (Hk eq_refl Ha) as (key & Hkey & Hnc).
  destruct (Hc1 (proj2 Hs Ha) Hok) as (keys & Hf & Hnd & Hall). unfold evidence_key in Hkey. rewrite Eh in Hkey. cbn in Hkey. injection Hkey as <-.
  exists ((Evidence_Height ev, hash) :: keys). split_and!.
  - constructor; [unfold evidence_key; by rewrite Eh|done].
  - rewrite fmap_cons. apply NoDup_cons. split; [|done]. intros (k & Hek & Hin)%list_elem_of_fmap. destruct (Hall k Hin) as [_ Hn]. apply Hn.
    rewrite <- Hek. left.
  - intros k [->|Hin]%elem_of_cons; [done|]. destruct (Hall k Hin) as [H1 H2]. rewrite (proj1 Hs) in H1. split; [done|]. set_solver.
Qed.

(** ** A new block *)

Lemma buffer_steady stores state buffer : keeps steady (buffer_loop stores state buffer).
Proof.
  induction buffer as [|votes buffer IH]; [kept_same|]. cbn [buffer_loop]. kept_bind; [kept_same|]. intros [dve|]; [|apply IH].
  kept_bind; [kept_same|]. intros d. intros p. unfold mbind at 1, gom_bind at 1, gget. unfold mbind at 1, gom_bind at 1, glift at 1.
  destruct (isPending p _) as [[]| |]; [apply IH| |done..]. unfold mbind at 1, gom_bind at 1, glift at 1.
  destruct (isCommitted p _) as [[]| |] eqn:Ec; [apply IH| |done..].
  pose proof (addPending_steady _ p Ec) as Hs. unfold mbind at 1, gom_bind at 1.
  destruct (addPendingEvidence _ p) as [[[]| |] p']; cbn [snd] in Hs.
  - unfold mbind, gom_bind, push_back, gmodify. etrans; [exact Hs|]. etrans; [|apply IH]. by split.
  - etrans; [exact Hs|]. apply IH.
  - exact Hs.
Qed.

Lemma process_steady stores state : keeps steady (processConsensusBuffer stores state).
Proof.
  kept_bind; [kept_same|]. intros p. kept_bind; [apply buffer_steady|]. intros _. apply keeps_modify. intros p'. by split.
Qed.

Lemma mark_loop_run evs : forall hashes p hashes' p', mark_loop evs hashes p = (Ok hashes', p') ->
  exists keys, keyed evs keys /\ ed_committed (ep_store p') = list_to_set keys ∪ ed_committed (ep_store p) /\
    ed_pending (ep_store p') ⊆ ed_pending (ep_store p) /\ forall k, k ∈ keys -> ed_pending (ep_store p') !! k = None.
Proof.
  induction evs as [|ev evs IH]; intros hashes p hashes' p'.
  { intros [= _ <-]. exists []. split_and!; [constructor|cbn; set_solver|done|]. by intros k ?%elem_of_nil. }
  cbn [mark_loop]. intros (p0 & s0 & [= <- <-] & Hr)%gbind_Ok. apply gbind_Ok in Hr as (pending & s1 & Hp & Hr).
  unfold glift in Hp. injection Hp as Hp <-. apply gbind_Ok in Hr as (hs & p1 & H1 & Hr). apply gbind_Ok in Hr as (key & s2 & Hk & Hr).
  unfold glift in Hk. injection Hk as Hk <-. apply gbind_Ok in Hr as ([] & p2 & H2 & Hr). injection H2 as <-.
  destruct (IH _ _ _ _ Hr) as (keys & Hf & Hc & Hsub & Hnone). cbn in Hc, Hsub.
  assert (H1' : ed_committed (ep_store p1) = ed_committed (ep_store p) /\ ed_pending (ep_store p1) ⊆ ed_pending (ep_store p) /\
    ed_pending (ep_store p1) !! key = None).
  { unfold isPending in Hp. rewrite Hk in Hp. cbn in Hp. injection Hp as Hp. destruct pending.
    - unfold removePendingEvidence in H1. apply gbind_Ok in H1 as ([] & s3 & H3 & H1). apply gbind_Ok in H3 as (key' & s4 & Hk' & H3).
      unfold glift in Hk'. injection Hk' as Hk' <-. assert (key' = key) as -> by congruence. injection H3 as <-.
      apply gbind_Ok in H1 as (h & s5 & Hh & H1). unfold glift in Hh. injection Hh as _ <-. injection H1 as _ <-. cbn.
      split_and!; [done|apply delete_subseteq|apply lookup_delete_eq].
    - injection H1 as _ <-. split_and!; [done|done|]. apply bool_decide_eq_false in Hp. by apply eq_None_not_Some. }
  destruct H1' as (E1 & E2 & E3). exists (key :: keys). split_and!.
  - by constructor.
  - rewrite Hc, E1. cbn. set_solver.
  - by etrans.
  - intros k [->|Hin]%elem_of_cons; [|by apply Hnone]. destruct (ed_pending (ep_store p') !! key) eqn:E; [|done].
    eapply lookup_weaken in E; [|exact Hsub]. congruence.
Qed.

Lemma Update_run stores state evs p p' :
  Pool_Update stores state evs p = (Ok tt, p') -> exists keys, keyed evs keys /\
    ed_committed (ep_store p') = list_to_set keys ∪ ed_committed (ep_store p) /\ (apart p -> apart p').
Proof.
  unfold Pool_Update. intros (p0 & s0 & [= <- <-] & Hr)%gbind_Ok. destruct (_ <=? _); [done|].
  apply gbind_Ok in Hr as ([] & p1 & H1 & Hr). pose proof (process_steady stores state p) as [S1 A1]. rewrite H1 in S1, A1. cbn in S1, A1.
  apply gbind_Ok in Hr as ([] & p2 & H2 & Hr). injection H2 as <-. apply gbind_Ok in Hr as ([] & p3 & H3 & Hr).
  apply gbind_Ok in H3 as (hs & p4 & H4 & H3). destruct (mark_loop_run _ _ _ _ _ H4) as (keys & Hf & Hc & Hsub & Hnone). cbn in Hc, Hsub.
  assert (Hsh : shrinks p4 p').
  { etrans; [pose proof (removeEvidence_shrinks hs p4) as Hx; rewrite H3 in Hx; exact Hx|].
    apply gbind_Ok in Hr as (p5 & s5 & [= <- <-] & Hr). destruct (_ && _); [|injection Hr as <-; done].
    pose proof (prune_shrinks p3) as Hx. rewrite Hr in Hx. exact Hx. }
  exists keys. split; [done|]. split; [rewrite (proj1 Hsh), Hc; congruence|]. intros Ha. apply (shrinks_steady _ _ Hsh).
  intros k Hin. rewrite Hc in Hin. apply elem_of_union in Hin as [Hin%elem_of_list_to_set|Hin]; [by apply Hnone|].
  specialize (A1 Ha k Hin). destruct (ed_pending (ep_store p4) !! k) eqn:E; [|done]. eapply lookup_weaken in E; [|exact Hsub]. congruence.
Qed.

(** ** Histories of a pool *)

(** Calls between two blocks, whatever they return. *)
Inductive pool_call (p : Pool) : Pool -> Prop :=
| call_add stores ev : pool_call p (snd (AddEvidence stores ev p))
| call_check stores evs : pool_call p (snd (CheckEvidence stores evs p))
| call_report a b : pool_call p (snd (ReportConflictingVotes a b p)).

(** The same with the calls of [AddEvidence] cut in two: the list has the evidence
    that passed the checks of a call and is not stored yet. *)
Inductive pool_step : Pool * list Evidence -> Pool * list Evidence -> Prop :=
| step_checked stores ev p p' adding : add_checks stores ev p = (Ok true, p') -> pool_step (p, adding) (p', ev :: adding)
| step_stored ev p adding adding' : pool_step (p, adding ++ ev :: adding') (snd (add_checked ev p), adding ++ adding')
| step_check stores evs p adding : pool_step (p, adding) (snd (CheckEvidence stores evs p), adding)
| step_report a b p adding : pool_step (p, adding) (snd (ReportConflictingVotes a b p), adding).

Lemma call_steps p p' adding : pool_call p p' -> rtc pool_step (p, adding) (p', adding).
Proof.
  intros [stores ev|stores evs|a b]; [|by apply rtc_once; constructor..].
  unfold AddEvidence, mbind, gom_bind. destruct (add_checks stores ev p) as [[[]| |] p1] eqn:Hc;
    pose proof (add_checks_run _ _ _ _ _ Hc) as [-> _]; [|done..].
  eapply rtc_l; [by eapply step_checked|]. apply rtc_once. apply (step_stored ev p []).
Qed.

Lemma calls_steps p p' adding : rtc pool_call p p' -> rtc pool_step (p, adding) (p', adding).
Proof. induction 1 as [|p p1 p' Hc _ IH]; [done|]. etrans; [by apply call_steps|done]. Qed.

(** Nothing that is being added was committed. *)
Definition unused (p : Pool) (adding : list Evidence) : Prop := forall ev, ev ∈ adding -> isCommitted (E:=pool_error) p ev = Ok false.

Lemma isCommitted_same p p' ev : ed_committed (ep_store p') = ed_committed (ep_store p) -> isCommitted (E:=pool_error) p' ev = isCommitted p ev.
Proof. intros E. unfold isCommitted. by rewrite E. Qed.

Lemma steps_steady x y : rtc pool_step x y -> unused (fst x) (snd x) -> steady (fst x) (fst y) /\ unused (fst y) (snd y).
Proof.
  intros Hr. induction Hr as [x|x y z Hs _ IH]; intros Hu; [done|]. enough (Hy : steady (fst x) (fst y) /\ unused (fst y) (snd y)).
  { destruct Hy as [H1 H2]. destruct (IH H2) as [H3 H4]. split; [by etrans|done]. }
  assert (Hk : forall p p' adding, steady p p' -> unused p adding -> unused p' adding).
  { intros p p' adding [E _] Ha ev Hin. rewrite (isCommitted_same _ _ _ E). by apply Ha. }
  destruct Hs as [stores ev p p' adding Hc|ev p adding adding'|stores evs p adding|a b p adding]; cbn [fst snd] in *.
  - apply add_checks_run in Hc as [-> Hc]. split; [done|]. intros e [-> |He]%elem_of_cons; [by apply Hc|by apply Hu].
  - assert (Hs : steady p (snd (add_checked ev p))) by (apply add_checked_steady, Hu; set_solver). split; [done|]. apply (Hk p); [done|]. intros e He. apply Hu. set_solver.
  - pose proof (proj1 (check_loop_spec stores evs [] p)) as Hs. split; [exact Hs|by apply (Hk p)].
  - split; [by split|]. by apply (Hk p); [split|].
Qed.

(** The evidence of the blocks so far.  The evidence of a block is checked, and
    later, when the block is executed, the pool is updated with it; in between
    there may be other calls.  Meanwhile no call of [AddEvidence] with evidence of
    the block is between its two parts.  A restart reads the database again. *)
Inductive history : Pool -> list Evidence -> list Evidence -> Prop :=
| history_new stores p : NewPool (mkEvidenceDB ∅ ∅) stores = Ok p -> history p [] []
| history_step p p' adding adding' evs : history p adding evs -> pool_step (p, adding) (p', adding') -> history p' adding' evs
| history_block p p1 p2 p' adding adding' stores stores' state evs new :
    history p adding evs -> CheckEvidence stores new p = (Ok tt, p1) -> rtc pool_step (p1, adding) (p2, adding') ->
    (forall ev ev', ev ∈ adding' -> ev' ∈ new -> evidence_key (E:=pool_error) ev <> evidence_key ev') ->
    Pool_Update stores' state new p2 = (Ok tt, p') -> history p' adding' (evs ++ new)
| history_restart p p' adding stores evs : history p adding evs -> NewPool (ep_store p) stores = Ok p' -> history p' [] evs.

Lemma history_calls p p' adding evs : history p adding evs -> rtc pool_call p p' -> history p' adding evs.
Proof.
  intros Hh Hr%(calls_steps p p' adding). enough (forall x y, rtc pool_step x y -> history (fst x) (snd x) evs -> history (fst y) (snd y) evs) as H' by (exact (H' _ _ Hr Hh)).
  induction 1 as [|[q a] [q1 a1] z Hs _ IH]; [done|]. intros Hq. apply IH. by eapply history_step.
Qed.

Lemma NewPool_run db stores p : NewPool db stores = Ok p -> 
  ed_committed (ep_store p) = ed_committed db /\ ed_pending (ep_store p) ⊆ ed_pending db.
Proof.
  unfold NewPool. intros (state & _ & Hr)%obind_Ok. cbv zeta in Hr. set (p0 := mkPool _ _ _ _ _ _ _) in *. pose proof (prune_shrinks p0) as Hsh.
  destruct (prune_pool p0) as [[[]| |] p1]; [|done..]. apply obind_Ok in Hr as ([[evs n] err] & _ & Hr). destruct err; [done|].
  injection Hr as <-. exact Hsh.
Qed.

Lemma keyed_fun evs keys keys' : keyed evs keys -> keyed evs keys' -> keys = keys'.
Proof.
  intros H. revert keys'. induction H as [|ev key evs keys Hk _ IH]; intros keys' H'; inversion H'; subst; [done|]. f_equal; [congruence|by apply IH].
Qed.

Record once (p : Pool) (adding evs : list Evidence) (keys : list evKey) : Prop := {
  on_keyed : keyed evs keys;
  on_distinct : NoDup keys;
  on_committed : ed_committed (ep_store p) = list_to_set keys;
  on_apart : apart p;
  on_unused : unused p adding
}.

Lemma unused_update p p' adding new keys :
  unused p adding -> keyed new keys -> (forall ev ev', ev ∈ adding -> ev' ∈ new -> evidence_key (E:=pool_error) ev <> evidence_key ev') ->
  ed_committed (ep_store p') = list_to_set keys ∪ ed_committed (ep_store p) -> unused p' adding.
Proof.
  intros Hu Hk Hd Hc ev Hin. specialize (Hu ev Hin). unfold isCommitted in *. destruct (evidence_key ev) as [key| |] eqn:Ek; [|done..].
  cbn in *. injection Hu as Hu%bool_decide_eq_false. rewrite Hc. rewrite bool_decide_eq_false_2; [done|].
  intros [(i & Hi)%elem_of_list_to_set%list_elem_of_lookup|?]%elem_of_union; [|done]. destruct (Forall2_lookup_r _ _ _ _ _ Hk Hi) as (ev' & Hi' & Ek').
  apply (Hd ev ev' Hin); [by eapply list_elem_of_lookup_2|]. by rewrite Ek, Ek'.
Qed.

Lemma once_block p p2 p' adding adding' stores new p1 stores' state evs keys :
  once p adding evs keys -> CheckEvidence stores new p = (Ok tt, p1) -> rtc pool_step (p1, adding) (p2, adding') ->
  (forall ev ev', ev ∈ adding' -> ev' ∈ new -> evidence_key (E:=pool_error) ev <> evidence_key ev') ->
  Pool_Update stores' state new p2 = (Ok tt, p') -> exists keys', once p' adding' (evs ++ new) (keys ++ keys').
Proof.
  intros [K1 K2 K3 K4 K5] Hck Hcs Hd Hu. pose proof (check_loop_spec stores new [] p) as [Hs Hck']. fold (CheckEvidence stores new) in Hs, Hck'. rewrite Hck in Hs, Hck'.
  destruct (Hck' K4 eq_refl) as (keys' & F1 & N1 & A1). cbn in Hs. destruct (steps_steady _ _ Hcs) as [Hs1 Hu2].
  { intros ev Hin. cbn [fst snd] in *. rewrite (isCommitted_same p p1 ev (proj1 Hs)). by apply K5. }
  cbn [fst snd] in *. assert (Hs2 : steady p p2) by (by etrans).
  destruct (Update_run _ _ _ _ _ Hu) as (keys2 & F2 & C2 & A2). assert (keys2 = keys') as -> by (by eapply keyed_fun).
  exists keys'. split.
  - by apply Forall2_app.
  - apply NoDup_app. split_and!; [done| |by eapply NoDup_fmap_1]. intros k Hk Hk'. destruct (A1 k Hk') as [Hn _]. apply Hn. rewrite K3. by apply elem_of_list_to_set.
  - rewrite C2, (proj1 Hs2), K3. set_solver.
  - apply A2, Hs2, K4.
  - by eapply unused_update.
Qed.

Lemma history_once p adding evs : history p adding evs -> exists keys, once p adding evs keys.
Proof.
  induction 1 as [stores p Hn|p p' adding adding' evs _ [keys [K1 K2 K3 K4 K5]] Hc|p p1 p2 p' adding adding' stores stores' state evs new _ [keys Ho] Hck Hcs Hd Hu|
    p p' adding stores evs _ [keys [K1 K2 K3 K4 K5]] Hn].
  - destruct (NewPool_run _ _ _ Hn) as [H1 H2]. exists []. split; [constructor|constructor|by rewrite H1| |by intros ev ?%elem_of_nil]. intros k Hk. by rewrite H1 in Hk.
  - destruct (steps_steady _ _ (rtc_once _ _ Hc) K5) as [[H1 H2] H3]. cbn [fst snd] in *. exists keys. split; [done|done|congruence|auto|done].
  - destruct (once_block _ _ _ _ _ _ _ _ _ _ _ _ Ho Hck Hcs Hd Hu) as [keys' Ho']. by exists (keys ++ keys').
  - destruct (NewPool_run _ _ _ Hn) as [H1 H2]. exists keys. split; [done|done|congruence| |by intros ev ?%elem_of_nil]. intros k Hk. rewrite H1 in Hk. specialize (K4 k Hk).
    destruct (ed_pending (ep_store p') !! k) eqn:E; [|done]. eapply lookup_weaken in E; [|exact H2]. congruence.
Qed.

End pool.

(** C15: no evidence is committed twice.  Over any history of a pool, with calls
    of peers and of consensus between the check of a block and its execution, and
    with restarts, the pieces of evidence in the blocks all differ in height or
    hash; and a block with evidence that is in an earlier block, or that has a
    piece twice, never passes [CheckEvidence] again.  A call of [AddEvidence] may
    have checked its evidence and not stored it yet while other calls run, as long
    as no block commits that evidence meanwhile. *)
Theorem evidence_once `{CryptoLib} `{TimeCodec} `{WrapperLib} `{EvidenceCodec} p adding evs :
  history p adding evs ->
  (exists keys, keyed evs keys /\ NoDup keys) /\
  forall stores new p1, CheckEvidence stores new p = (Ok tt, p1) ->
    exists keys keys', keyed evs keys /\ keyed new keys' /\ NoDup (keys ++ keys').
Proof.
  intros [keys [K1 K2 K3 K4 _]]%history_once. split; [eauto|]. intros stores new p1 Hck.
  pose proof (check_loop_spec stores new [] p) as [_ Hc]. fold (CheckEvidence stores new) in Hc. rewrite Hck in Hc.
  destruct (Hc K4 eq_refl) as (keys' & F1 & N1 & A1). exists keys, keys'. split_and!; [done|done|].
  apply NoDup_app. split_and!; [done| |by eapply NoDup_fmap_1]. intros k Hk Hk'. destruct (A1 k Hk') as [Hn _]. apply Hn.
  rewrite K3. by apply elem_of_list_to_set.
Qed.

(** ** Evidence that has expired *)

Section expired.
  Context {crypto : CryptoLib} {codec : TimeCodec} {wrappers : WrapperLib} {decoder : EvidenceCodec}.

(** The pool has one piece of evidence. *)
Record single (p : Pool) (key : evKey) (b : bytes) (d : DuplicateVoteEvidence) : Prop := {
  sg_pending : ed_pending (ep_store p) = {[key := b]};
  sg_bytes : Evidence_Unmarshal b = Some (DuplicateVote d);
  sg_valid : EvidenceFromProto (DuplicateVote d) = Ok (DuplicateVote d);
  sg_size : ep_size p = 1;
  sg_buffer : ep_buffer p = []
}.

Lemma single_order p key b d : single p key b d -> snd <$> pending_in_order (ep_store p) = [b].
Proof. intros [Hp _ _ _ _]. unfold pending_in_order. by rewrite Hp, map_to_list_singleton. Qed.

Lemma prune_single p key b d :
  single p key b d -> isExpired p (v_Height (dve_VoteA d)) (dve_Timestamp d) = false ->
  prune_pool p = (Ok tt, mkPool (ep_store p) (ep_list p) (ep_size p) (ep_state p) (ep_buffer p)
    (v_Height (dve_VoteA d) +i64 cp_MaxAgeNumBlocks (st_ConsensusParams (ep_state p)) +i64 1)
    (dve_Timestamp d + cp_MaxAgeDuration (st_ConsensusParams (ep_state p)) + 1000000000)).
Proof.
  intros Hs Hx. pose proof (single_order _ _ _ _ Hs) as Ho. destruct Hs as [_ Hb Hv _ _].
  unfold prune_pool, removeExpiredPendingEvidence, mbind, gom_bind, gget. rewrite Ho. cbn [expire_loop]. unfold bytesToEv. rewrite Hb, Hv.
  unfold mbind, gom_bind, gget. cbn [Evidence_Height Evidence_Time]. by rewrite Hx.
Qed.

Lemma single_pending p key b d : single p key b d ->
  exists n, PendingEvidence p (-1) = Ok ([DuplicateVote d], n).
Proof.
  intros Hs. pose proof (single_order _ _ _ _ Hs) as Ho. destruct Hs as [_ Hb Hv Hn _].
  unfold PendingEvidence, listEvidence. rewrite Hn, Ho. cbn [Z.eqb list_loop]. rewrite Hb. cbn [Z.eqb negb andb]. rewrite Hv. cbn. eauto.
Qed.

End expired.

(** Expired evidence is proposed, and refused by others.  When evidence is
    pending, the next pruning is set to one block and one second after the
    evidence has expired, and takes place only above that height.  So at the
    first height at which a piece of evidence has expired the pool still proposes
    it; a node that does not have it pending verifies it and rejects the block. *)
Theorem expired_evidence_proposed `{CryptoLib} `{TimeCodec} `{WrapperLib} `{EvidenceCodec} p key b d stores state :
  let h := v_Height (dve_VoteA d) in
  let params := st_ConsensusParams (ep_state p) in
  single p key b d -> isExpired p h (dve_Timestamp d) = false ->
  0 <= h -> 0 <= cp_MaxAgeNumBlocks params -> h + cp_MaxAgeNumBlocks params < int64_max ->
  st_ConsensusParams state = params -> st_LastBlockHeight (ep_state p) < st_LastBlockHeight state ->
  st_LastBlockHeight state = h + cp_MaxAgeNumBlocks params + 1 ->
  cp_MaxAgeDuration params < time_Sub (st_LastBlockTime state) (dve_Timestamp d) ->
  exists p1 p2 n, prune_pool p = (Ok tt, p1) /\ Pool_Update stores state [] p1 = (Ok tt, p2) /\
    isExpired p2 h (dve_Timestamp d) = true /\ PendingEvidence p2 (-1) = Ok ([DuplicateVote d], n) /\
    forall q stores' meta, ep_state q = state ->
      isPending (E:=pool_error) q (DuplicateVote d) = Ok false -> isCommitted (E:=pool_error) q (DuplicateVote d) = Ok false ->
      LoadBlockMeta (E:=pool_error) (ss_blockStore stores') h = Ok (Some meta) -> h_Time (bm_Header meta) = dve_Timestamp d ->
      fst (CheckEvidence stores' [DuplicateVote d] q) = Err ErrTooOld.
Proof.
  cbv zeta. intros Hs Hx Hh Ha Hmax Hparams Hnext Hheight Hage. pose proof (prune_single _ _ _ _ Hs Hx) as Hp. eexists _, _.
  set (h := v_Height (dve_VoteA d)) in *. set (A := cp_MaxAgeNumBlocks (st_ConsensusParams (ep_state p))) in *.
  set (D := cp_MaxAgeDuration (st_ConsensusParams (ep_state p))) in *.
  assert (Hw : h +i64 A +i64 1 = st_LastBlockHeight state).
  { rewrite Hheight. rewrite (wrap64_id (h + A)), wrap64_id; unfold int64, int64_min, int64_max in *; lia. }
  assert (Hold : forall r, ep_state r = state -> isExpired r h (dve_Timestamp d) = true).
  { intros r Hr. unfold isExpired. rewrite Hr, Hparams. fold A D. rewrite (proj2 (Z.ltb_lt D _)) by done.
    rewrite (wrap64_id (_ - h)) by (unfold int64, int64_min, int64_max in *; lia). rewrite (proj2 (Z.ltb_lt A _)) by lia. done. }
  destruct (single_pending _ _ _ _ (Build_single (mkPool (ep_store p) (ep_list p) (ep_size p) state [] (st_LastBlockHeight state)
    (dve_Timestamp d + D + 1000000000)) key b d (sg_pending _ _ _ _ Hs) (sg_bytes _ _ _ _ Hs) (sg_valid _ _ _ _ Hs) (sg_size _ _ _ _ Hs) eq_refl)) as [n Hn].
  rewrite Hw in Hp. exists n. split; [exact Hp|]. split_and!.
  - unfold Pool_Update, processConsensusBuffer, pool_updateState, markEvidenceAsCommitted, mbind, gom_bind, gget, gmodify. cbn [ep_state ep_buffer].
    destruct (Z.leb_spec (st_LastBlockHeight state) (st_LastBlockHeight (ep_state p))); [lia|]. rewrite (sg_buffer _ _ _ _ Hs).
    cbn -[Z.ltb]. rewrite Z.ltb_irrefl, andb_false_r. reflexivity.
  - by apply Hold.
  - exact Hn.
  - intros q stores' meta Hq Hnp Hnc Hm Ht. unfold CheckEvidence. cbn [check_loop]. unfold mbind at 1, gom_bind at 1, gget.
    unfold mbind at 1, gom_bind at 1, glift at 1. rewrite Hnp. cbn [is_light negb orb]. unfold mbind, gom_bind, glift. rewrite Hnc.
    assert (Hv : verify stores' q (DuplicateVote d) = Err ErrTooOld); [|by rewrite Hv].
    unfold verify. cbn [Evidence_Height Evidence_Time]. fold h. rewrite Hm. cbn [mbind outcome_bind]. rewrite Ht, Z.eqb_refl. cbn [negb].
    specialize (Hold q Hq). unfold isExpired in Hold. rewrite andb_comm in Hold. by rewrite Hold.
Qed.

(** ** A voter that voted twice *)

Section toy_pool.
  #[local] Existing Instances toy_crypto toy_time toy_wrappers toy_vrf.

Definition toy_vote (n : Z) : Vote :=
  let id := mkBlockID (replicate 32 n) (mkPartSetHeader 1 (replicate 32 n)) in
  let vote := mkVote PrecommitType 1 0 id 105 (toy_address 1) 0 None in
  mkVote PrecommitType 1 0 id 105 (toy_address 1) 0 (Some (Crypto.toy_sign (key_of 1) (ok_or [] (VoteSignBytes (E:=unit) [7] vote)))).

Definition toy_dve : DuplicateVoteEvidence :=
  match NewDuplicateVoteEvidence (E:=unit) (toy_vote 1) (toy_vote 2) (st_LastBlockTime first_state) (st_LastVoters first_state) with
  | Ok (Some d) => d
  | _ => mkDuplicateVote (toy_vote 1) (toy_vote 2) 0 0 0 0
  end.

Definition toy_decoder : EvidenceCodec := fun b =>
  if bool_decide (EvidenceToProto (DuplicateVote toy_dve) = Some b) then Some (DuplicateVote toy_dve) else None.

#[local] Existing Instance toy_decoder.

Definition toy_stores : Stores := mkStores empty_db (NewBlockStore empty_blocks).
Definition last_state : ChainState := toy_next (with_AppHash first_state []) second_block.

Definition pool0 : Pool := ok_or (mkPool (mkEvidenceDB ∅ ∅) [] 0 empty_chain [] 0 0) (NewPool (mkEvidenceDB ∅ ∅) toy_stores).
Definition pool1 : Pool := snd (ReportConflictingVotes (toy_vote 1) (toy_vote 2) pool0).
Definition pool2 : Pool := snd (Pool_Update toy_stores first_state [] pool1).
Definition pool3 : Pool := snd (Pool_Update toy_stores last_state [DuplicateVote toy_dve] pool2).

Lemma toy_history : history pool3 [] [DuplicateVote toy_dve].
Proof.
  apply (history_block pool2 pool2 pool2 pool3 [] [] toy_stores toy_stores last_state [] [DuplicateVote toy_dve]); [|by vm_compute|done|by intros ?? ?%elem_of_nil|by vm_compute].
  apply (history_block pool1 pool1 pool1 pool2 [] [] toy_stores toy_stores first_state [] []); [|done|done|by intros ?? ?%elem_of_nil|by vm_compute].
  apply (history_calls pool0); [|apply rtc_once, (call_report pool0 (toy_vote 1) (toy_vote 2))]. apply (history_new toy_stores). by vm_compute.
Qed.

(** Stores with the first block. *)
Definition known_stores : Stores :=
  mkStores toy_db2 (snd (SaveBlock (Some first_block) (en_parts first_entry) (Some (en_seen first_entry)) (NewBlockStore empty_blocks))).

(** A pool after the first block, checked and updated with the evidence of the
    second. *)
Definition raced1 : Pool := snd (Pool_Update toy_stores first_state [] pool0).
Definition raced2 : Pool := snd (CheckEvidence known_stores [DuplicateVote toy_dve] raced1).
Definition raced3 : Pool := snd (Pool_Update known_stores last_state [DuplicateVote toy_dve] raced2).

(** Evidence can be committed twice when a peer sends it while its block is
    executed: the call of [AddEvidence] that checked it before the update stores it
    after, it is pending although it was committed, and a block with it is accepted
    again, since what is pending is not looked up among the committed. *)
Theorem committed_evidence_again :
  add_checks known_stores (DuplicateVote toy_dve) raced1 = (Ok true, raced1) /\
  CheckEvidence known_stores [DuplicateVote toy_dve] raced1 = (Ok tt, raced2) /\
  Pool_Update known_stores last_state [DuplicateVote toy_dve] raced2 = (Ok tt, raced3) /\
  fst (CheckEvidence known_stores [DuplicateVote toy_dve] raced3) = Err ErrAlreadyCommitted /\
  fst (add_checked (DuplicateVote toy_dve) raced3) = Ok tt /\
  fst (CheckEvidence known_stores [DuplicateVote toy_dve] (snd (add_checked (DuplicateVote toy_dve) raced3))) = Ok tt.
Proof. split_and!; vm_compute; reflexivity. Qed.

(** The state when the evidence has just expired. *)
Definition expiry_state : ChainState :=
  let '(mkChainState v chain initial vp _ id _ proof next vals voters last changed params pchanged results app) := first_state in
  mkChainState v chain initial vp 100002 id (st_LastBlockTime first_state + 49 * 3600 * 1000000000) proof next vals voters last changed params
    pchanged results app.

Definition toy_key : evKey := ok_or (0, []) (evidence_key (E:=unit) (DuplicateVote toy_dve)).
Definition toy_bytes : bytes := default [] (EvidenceToProto (DuplicateVote toy_dve)).

Lemma toy_single : single pool2 toy_key toy_bytes toy_dve.
Proof. constructor; vm_compute; reflexivity. Qed.

End toy_pool.

Lemma evidence_once_witness :
  @history toy_crypto toy_time toy_wrappers toy_decoder pool3 [] [DuplicateVote toy_dve] /\
  (exists keys, @keyed toy_crypto toy_time toy_wrappers [DuplicateVote toy_dve] keys /\ NoDup keys) /\
  fst (@CheckEvidence toy_crypto toy_time toy_wrappers toy_stores [DuplicateVote toy_dve] pool3) = Err ErrAlreadyCommitted.
Proof.
  pose proof (@evidence_once toy_crypto toy_time toy_wrappers toy_decoder _ _ _ toy_history) as [Hk _].
  split; [exact toy_history|]. split; [exact Hk|]. by vm_compute.
Defined.

Lemma expired_evidence_proposed_witness : exists p1 p2 n,
  @prune_pool toy_crypto toy_time toy_wrappers toy_decoder pool2 = (Ok tt, p1) /\
  @Pool_Update toy_crypto toy_time toy_wrappers toy_decoder toy_stores expiry_state [] p1 = (Ok tt, p2) /\
  @PendingEvidence toy_crypto toy_time toy_wrappers toy_decoder p2 (-1) = Ok ([DuplicateVote toy_dve], n).
Proof.
  destruct (@expired_evidence_proposed toy_crypto toy_time toy_wrappers toy_decoder pool2 toy_key toy_bytes toy_dve toy_stores expiry_state toy_single)
    as (p1 & p2 & n & H1 & H2 & _ & H3 & _); [by vm_compute..|].
  exists p1, p2, n. exact (conj H1 (conj H2 H3)).
Defined.
