(* ===== verification/BlockExec.v ===== *)
(** * Executing blocks: src/state/execution.go

    [BlockExecutor] ties the parts together: it checks a block against the state
    and the evidence pool, runs it in the application, and updates the state, the
    mempool, the evidence pool and the state store.  The application behind the
    ABCI connection, the mempool and the evidence pool are interfaces; a call of
    the application gives an error when the connection fails.  Metrics, logs and
    events are left out. *)

From Stdlib Require Import ZArith Lia.
From stdpp Require Import prelude list gmap.
From S2P Require Import Prelude SafeMath Crypto Validator ValidatorSet Proto Block VoterSet Election Merkle PartSet Header Light BlockProto.
From S2P Require Import Evidence ChainState StateStore BlockStore EvidencePool.

Local Open Scope Z_scope.
Local Open Scope go_scope.

(** ** What the application is told *)

(** [abci.VoteInfo]: address, power and weight of a voter, and whether it signed. *)
Record VoteInfo := mkVoteInfo { vo_Validator : bytes * Z * Z; vo_SignedLastBlock : bool }.

Record LastCommitInfo := mkLastCommitInfo { lc_Round : Z; lc_Votes : list VoteInfo }.

Record RequestBeginBlock := mkRequestBeginBlock {
  bb_Hash : bytes; bb_Header : Header; bb_LastCommitInfo : LastCommitInfo; bb_ByzantineValidators : list abciEvidence
}.

(** ** The interfaces *)

(** [proxy.AppConnConsensus]. *)
Class Application := {
  AppState : Type;
  BeginBlockSync : RequestBeginBlock -> AppState -> outcome unit AppState;
  DeliverTxAsync : bytes -> AppState -> outcome unit (ResponseDeliverTx * AppState);
  EndBlockSync : Z -> AppState -> outcome unit (EndBlockResponse * AppState);
  (** The hash and the height to retain. *)
  CommitSync : AppState -> outcome unit (bytes * Z * AppState)
}.

(** [mempool.Mempool], as far as blocks use it. *)
Class MempoolLib := {
  MempoolState : Type;
  ReapMaxBytesMaxGasMaxTxs : Z -> Z -> Z -> MempoolState -> list bytes;
  FlushAppConn : MempoolState -> bool;
  (** [Update] with the state for the checks of transactions. *)
  Mempool_Update : Block -> list ResponseDeliverTx -> ChainState -> MempoolState -> option MempoolState
}.

Section execution.
  Context {crypto : CryptoLib} {codec : TimeCodec} {wrappers : WrapperLib} {vrf : VrfLib} {decoder : EvidenceCodec}.
  Context {app : Application} {mempool : MempoolLib}.

Record BlockExecutor := mkBlockExecutor {
  be_store : dbStore;
  be_blockStore : BlockStore;
  be_evpool : Pool;
  be_proxyApp : AppState;
  be_mempool : MempoolState
}.

Abbreviation ExecM := (GoM BlockExecutor exec_error).

Definition be_stores (e : BlockExecutor) : Stores := mkStores (be_store e) (be_blockStore e).

(** The parts run their own computations. *)
Definition on_store {A} (m : StoreM A) : ExecM A := fun e =>
  let '(r, store) := m (be_store e) in
  (lift_err (fun _ => ErrStore) r, mkBlockExecutor store (be_blockStore e) (be_evpool e) (be_proxyApp e) (be_mempool e)).

Definition on_evpool {A} (m : GoM Pool pool_error A) : ExecM A := fun e =>
  let '(r, pool) := m (be_evpool e) in
  (lift_err (fun _ => ErrInvalidEvidence) r, mkBlockExecutor (be_store e) (be_blockStore e) pool (be_proxyApp e) (be_mempool e)).

Definition on_app {A} (err : exec_error) (f : AppState -> outcome unit (A * AppState)) : ExecM A := fun e =>
  match f (be_proxyApp e) with
  | Err _ => (Err err, e)
  | Panic => (Panic, e)
  | Ok (a, s) => (Ok a, mkBlockExecutor (be_store e) (be_blockStore e) (be_evpool e) s (be_mempool e))
  end.

(** [EvidencePool] of src/state/services.go, as far as executing blocks uses it,
    with its two implementations. *)
Record EvidencePoolOps := mkEvidencePoolOps {
  ep_CheckEvidence : list Evidence -> ExecM unit;
  ep_Update : ChainState -> list Evidence -> ExecM unit
}.

Definition pool_evidence : EvidencePoolOps := {|
  ep_CheckEvidence evList := e ← gget; on_evpool (CheckEvidence (be_stores e) evList);
  ep_Update state evList := e ← gget; on_evpool (Pool_Update (be_stores e) state evList)
|}.

Definition EmptyEvidencePool : EvidencePoolOps := {| ep_CheckEvidence _ := mret tt; ep_Update _ _ := mret tt |}.

(** [fail.Fail]: the process ends at the call that was chosen, if any. *)
Definition fail_Fail (failIndex : option nat) (callIndex : nat) : ExecM unit :=
  if bool_decide (failIndex = Some callIndex) then gpanic else mret tt.

(** ** Proposing and checking *)

Definition CreateProposalBlock (height : Z) (state : ChainState) (commit : option Commit) (proposerAddr : bytes) (round : Z) (proof : bytes)
    (maxTxs : Z) (e : BlockExecutor) : outcome pool_error (Block * PartSet) :=
  let maxBytes := cp_MaxBytes (st_ConsensusParams state) in
  let maxGas := cp_MaxGas (st_ConsensusParams state) in
  '(evidence, _) ← PendingEvidence (be_evpool e) (cp_EvidenceMaxBytes (st_ConsensusParams state));
  maxDataBytes ← MaxDataBytes maxBytes commit evidence;
  let txs := ReapMaxBytesMaxGasMaxTxs maxDataBytes maxGas maxTxs (be_mempool e) in
  State_MakeBlock state height txs commit evidence proposerAddr round proof.

Definition ValidateBlock (evpool : EvidencePoolOps) (state : ChainState) (round : Z) (block : Block) : ExecM unit :=
  glift (lift_err ErrInvalidBlock (validateBlock state round block));;
  ep_CheckEvidence evpool (b_Evidence block).

(** ** Executing *)

(** The votes of the last commit, by the voters in order. *)
Fixpoint vote_infos {E} (voters : list Validator) (sigs : list CommitSig) : outcome E (list VoteInfo) :=
  match voters, sigs with
  | [], _ => Ok []
  | _ :: _, [] => Panic
  | voter :: voters, commitSig :: sigs =>
      v ← OC2PB_Validator voter;
      rest ← vote_infos voters sigs;
      Ok (mkVoteInfo v (negb (Absent commitSig)) :: rest)
  end.

Definition getBeginBlockValidatorInfo {E} (block : Block) (store : dbStore) (initialHeight : Z) (voterParams : VoterParams)
  : outcome E LastCommitInfo :=
  lastCommit ← deref (b_LastCommit block);
  let commitSize := lenZ (c_Signatures lastCommit) in
  let height := h_Height (b_Header block) in
  votes ←
    (if initialHeight <? height then
       match LoadVoters store (height -i64 1) (Some voterParams) with
       | Ok (_, lastVoterSet, _, _) =>
           if negb (commitSize =? lenZ (Voters lastVoterSet)) then Panic
           else vote_infos (Voters lastVoterSet) (c_Signatures lastCommit)
       | _ => Panic
       end
     else Ok (replicate (length (c_Signatures lastCommit)) (mkVoteInfo ([], 0, 0) false)));
  Ok (mkLastCommitInfo (c_Round lastCommit) votes).

Fixpoint byzantine_validators {E} (evidence : list Evidence) : outcome E (list abciEvidence) :=
  match evidence with
  | [] => Ok []
  | ev :: evidence => l ← Evidence_ABCI ev; rest ← byzantine_validators evidence; Ok (l ++ rest)
  end.

Fixpoint deliver_txs (txs : list bytes) : ExecM (list ResponseDeliverTx) :=
  match txs with
  | [] => mret []
  | tx :: txs => r ← on_app ErrProxyAppConn (DeliverTxAsync tx); rest ← deliver_txs txs; mret (r :: rest)
  end.

Definition execBlockOnProxyApp (block : Block) (initialHeight : Z) (voterParams : VoterParams) : ExecM ABCIResponses :=
  e ← gget;
  commitInfo ← glift (getBeginBlockValidatorInfo block (be_store e) initialHeight voterParams);
  byzVals ← glift (byzantine_validators (b_Evidence block));
  hash ← glift (Block_Hash block);
  _ ← on_app ErrProxyAppConn
        (fun s => s ← BeginBlockSync (mkRequestBeginBlock hash (b_Header block) commitInfo byzVals) s; Ok (tt, s));
  deliverTxs ← deliver_txs (b_Txs block);
  endBlock ← on_app ErrProxyAppConn (EndBlockSync (h_Height (b_Header block)));
  mret (mkABCIResponses (Some <$> deliverTxs) endBlock).

(** The hash of the application and the height to retain; under the lock of
    the mempool. *)
Definition BlockExecutor_Commit (state : ChainState) (block : Block) (deliverTxResponses : list ResponseDeliverTx) : ExecM (bytes * Z) :=
  e ← gget;
  if negb (FlushAppConn (be_mempool e)) then gfail ErrCommitFailed
  else
    res ← on_app ErrCommitFailed CommitSync;
    e ← gget;
    match Mempool_Update block deliverTxResponses state (be_mempool e) with
    | None => gfail ErrCommitFailed
    | Some m => gput (mkBlockExecutor (be_store e) (be_blockStore e) (be_evpool e) (be_proxyApp e) m);; mret res
    end.

(** The responses of the transactions, nil ones left out. *)
Definition delivered (r : ABCIResponses) : list ResponseDeliverTx := omap id (ar_DeliverTxs r).

(** [ApplyBlock] with a pool of evidence, up to the call of [Fail] that ends it. *)
Definition ApplyBlock_with (evpool : EvidencePoolOps) (failIndex : option nat) (state : ChainState) (blockID : BlockID) (block : Block)
  : ExecM (ChainState * Z) :=
  ValidateBlock evpool state (h_Round (b_Header block)) block;;
  abciResponses ← execBlockOnProxyApp block (st_InitialHeight state) (st_VoterParams state);
  fail_Fail failIndex 0;;
  abciResponses ← on_store (SaveABCIResponses (h_Height (b_Header block)) abciResponses);
  fail_Fail failIndex 1;;
  let abciValUpdates := eb_ValidatorUpdates (ar_EndBlock abciResponses) in
  _ ← glift (validateValidatorUpdates abciValUpdates (cp_PubKeyTypes (st_ConsensusParams state)));
  validatorUpdates ← glift (PB2OC_ValidatorUpdates abciValUpdates);
  state ← glift (updateState state blockID (b_Header block) (delivered abciResponses) (eb_ParamUpdates (ar_EndBlock abciResponses)) validatorUpdates);
  '(appHash, retainHeight) ← BlockExecutor_Commit state block (delivered abciResponses);
  ep_Update evpool state (b_Evidence block);;
  fail_Fail failIndex 2;;
  let state := with_AppHash state appHash in
  on_store (save state);;
  fail_Fail failIndex 3;;
  mret (state, retainHeight).

(** As a running node calls it. *)
Definition ApplyBlock (state : ChainState) (blockID : BlockID) (block : Block) : ExecM (ChainState * Z) :=
  ApplyBlock_with pool_evidence None state blockID block.

(** Replays a block in the application alone. *)
Definition ExecCommitBlock (block : Block) (initialHeight : Z) (voterParams : VoterParams) : ExecM bytes :=
  _ ← execBlockOnProxyApp block initialHeight voterParams;
  '(data, _) ← on_app ErrCommitFailed CommitSync;
  mret data.

End execution.
