(* ===== verification/BlockExecProps.v ===== *)
(** * A node that executes blocks stays consistent

    [ApplyBlock] of src/state/execution.go composes the check of blocks, the
    evidence pool, the new state and the state store.  Whatever the application
    answers, the state, the stored states and the evidence of the blocks stay
    consistent; and the application is told who signed the last block. *)

From Stdlib Require Import ZArith Lia.
From stdpp Require Import prelude list gmap.
From S2P Require Import Prelude SafeMath Crypto Validator ValidatorSet ValidatorLists ValidatorSetPriority Proto Block VoterSet VerifyCommit.
From S2P Require Import Election Merkle Header Light BlockProto Evidence EvidenceProps ChainState ChainProps StateStore BlockStore BlockStoreProps StateProps StoreHistory EvidencePool.
From S2P Require Import EvidencePoolProps BlockExec.

Local Open Scope Z_scope.
Local Open Scope go_scope.

Section execution.
  Context {crypto : CryptoLib} {codec : TimeCodec} {wrappers : WrapperLib} {vrf : VrfLib} {decoder : EvidenceCodec}.
  Context {app : Application} {mempool : MempoolLib}.

(** Computations that leave the stores and the pool alone. *)
Definition same_parts (e e' : BlockExecutor) : Prop :=
  be_store e' = be_store e /\ be_blockStore e' = be_blockStore e /\ be_evpool e' = be_evpool e.

#[local] Instance same_parts_preorder : PreOrder same_parts.
Proof. split; [by intros e|]. intros e1 e2 e3 (H1 & H2 & H3) (H4 & H5 & H6). split_and!; congruence. Qed.

Lemma on_app_same {A} err (f : AppState -> outcome unit (A * AppState)) : keeps same_parts (on_app err f).
Proof. intros e. unfold on_app. by destruct (f (be_proxyApp e)) as [[a s]| |]. Qed.

Lemma deliver_same txs : keeps same_parts (deliver_txs txs).
Proof.
  induction txs as [|tx txs IH]; [kept_same|]. cbn [deliver_txs]. kept_bind; [apply on_app_same|]. intros r. kept_bind; [apply IH|]. intros rest. kept_same.
Qed.

Lemma exec_same block initial params : keeps same_parts (execBlockOnProxyApp block initial params).
Proof.
  unfold execBlockOnProxyApp. kept_bind; [kept_same|]. intros e. kept_bind; [kept_same|]. intros info. kept_bind; [kept_same|]. intros byz.
  kept_bind; [kept_same|]. intros hash. kept_bind; [apply on_app_same|]. intros _. kept_bind; [apply deliver_same|]. intros txs.
  kept_bind; [apply on_app_same|]. intros r. kept_same.
Qed.

Lemma commit_same state block txs : keeps same_parts (BlockExecutor_Commit state block txs).
Proof.
  unfold BlockExecutor_Commit. kept_bind; [kept_same|]. intros e. destruct (negb _); [kept_same|]. kept_bind; [apply on_app_same|]. intros res.
  intros e1. unfold mbind, gom_bind, gget. by destruct (Mempool_Update block txs state (be_mempool e1)).
Qed.

(** The response to [EndBlock] is one of the application. *)
Lemma exec_end block initial params e r e' :
  execBlockOnProxyApp block initial params e = (Ok r, e') ->
  exists a a', EndBlockSync (h_Height (b_Header block)) a = Ok (ar_EndBlock r, a').
Proof.
  unfold execBlockOnProxyApp. intros (e0 & e1 & _ & Hr)%gbind_Ok. apply gbind_Ok in Hr as (info & e2 & _ & Hr).
  apply gbind_Ok in Hr as (byz & e3 & _ & Hr). apply gbind_Ok in Hr as (hash & e4 & _ & Hr). apply gbind_Ok in Hr as ([] & e5 & _ & Hr).
  apply gbind_Ok in Hr as (txs & e6 & _ & Hr). apply gbind_Ok in Hr as (end' & e7 & He & Hr). injection Hr as <- <-.
  unfold on_app in He. destruct (EndBlockSync _ (be_proxyApp e6)) as [[x a]| |] eqn:E; [|done..]. injection He as <- <-. cbn. eauto.
Qed.

Lemma on_evpool_Ok {A} (m : GoM Pool pool_error A) e a e' :
  on_evpool m e = (Ok a, e') -> exists p, m (be_evpool e) = (Ok a, p) /\ e' = mkBlockExecutor (be_store e) (be_blockStore e) p (be_proxyApp e) (be_mempool e).
Proof.
  unfold on_evpool. destruct (m (be_evpool e)) as [r p]. intros [= Hr <-]. apply lift_err_Ok in Hr as ->. eauto.
Qed.

Lemma on_store_Ok {A} (m : StoreM A) e a e' :
  on_store m e = (Ok a, e') -> exists db, m (be_store e) = (Ok a, db) /\ e' = mkBlockExecutor db (be_blockStore e) (be_evpool e) (be_proxyApp e) (be_mempool e).
Proof.
  unfold on_store. destruct (m (be_store e)) as [r p]. intros [= Hr <-]. apply lift_err_Ok in Hr as ->. eauto.
Qed.

(** What a successful call did. *)
Record applied (state : ChainState) (id : BlockID) (b : Block) (e : BlockExecutor) (state' : ChainState) (e' : BlockExecutor) : Prop := {
  ap_valid : validateBlock state (h_Round (b_Header b)) b = Ok tt;
  ap_pool : exists stores stores' p s1, CheckEvidence stores (b_Evidence b) (be_evpool e) = (Ok tt, p) /\
    Pool_Update stores' s1 (b_Evidence b) p = (Ok tt, be_evpool e');
  ap_state : exists a a' end' updates txs s1 appHash, EndBlockSync (h_Height (b_Header b)) a = Ok (end', a') /\
    PB2OC_ValidatorUpdates (eb_ValidatorUpdates end') = Ok updates /\
    updateState state id (b_Header b) txs (eb_ParamUpdates end') updates = Ok s1 /\ state' = with_AppHash s1 appHash;
  ap_store : exists r, save state' (snd (SaveABCIResponses (h_Height (b_Header b)) r (be_store e))) = (Ok tt, be_store e')
}.

Lemma ApplyBlock_Ok state id b e state' retain e' :
  ApplyBlock state id b e = (Ok (state', retain), e') -> applied state id b e state' e'.
Proof.
  unfold ApplyBlock, ApplyBlock_with. cbn [pool_evidence ep_Update]. intros ([] & e1 & Hv & Hr)%gbind_Ok. unfold ValidateBlock in Hv. cbn [pool_evidence ep_CheckEvidence] in Hv.
  apply gbind_Ok in Hv as ([] & e1' & [Hvalid ->]%glift_Ok & Hv). apply lift_err_Ok in Hvalid.
  apply gbind_Ok in Hv as (e0 & e0' & [= <- <-] & Hv). apply on_evpool_Ok in Hv as (p & Hck & ->).
  apply gbind_Ok in Hr as (resp & e2 & Hexec & Hr). pose proof (exec_same b (st_InitialHeight state) (st_VoterParams state)) as Hs.
  specialize (Hs (mkBlockExecutor (be_store e) (be_blockStore e) p (be_proxyApp e) (be_mempool e))). rewrite Hexec in Hs. destruct Hs as (S1 & S2 & S3). cbn in S1, S2, S3.
  destruct (exec_end _ _ _ _ _ _ Hexec) as (a & a' & Hend).
  apply gbind_Ok in Hr as ([] & e2' & [= <-] & Hr). apply gbind_Ok in Hr as (resp' & e3 & (db & Hsv & ->)%on_store_Ok & Hr). injection Hsv as <- <-.
  apply gbind_Ok in Hr as ([] & e3' & [= <-] & Hr). cbv zeta in Hr. apply gbind_Ok in Hr as ([] & e4 & [_ ->]%glift_Ok & Hr).
  apply gbind_Ok in Hr as (updates & e5 & [Hup ->]%glift_Ok & Hr). apply gbind_Ok in Hr as (s1 & e6 & [Hus ->]%glift_Ok & Hr).
  apply gbind_Ok in Hr as ([appHash ret] & e7 & Hcom & Hr).
  set (e3 := mkBlockExecutor _ (be_blockStore e2) _ _ _) in Hcom.
  pose proof (commit_same s1 b (delivered (strip_responses resp)) e3) as Hs. rewrite Hcom in Hs.
  destruct Hs as (T1 & T2 & T3). cbn in T1, T2, T3.
  apply gbind_Ok in Hr as ([] & e9 & Hev & Hr). apply gbind_Ok in Hev as (e8 & e8' & [= <- <-] & (p' & Hpu & ->)%on_evpool_Ok).
  apply gbind_Ok in Hr as ([] & e9' & [= <-] & Hr). apply gbind_Ok in Hr as ([] & e11 & Hs10 & Hr). apply gbind_Ok in Hr as ([] & e10' & [= <-] & Hr). apply on_store_Ok in Hs10 as (db' & Hsave & ->). injection Hr as <- <- <-. cbn [be_store be_evpool] in *.
  split; [done| | |].
  - eexists _, _, p, s1. split; [exact Hck|]. rewrite T3, S3 in Hpu. exact Hpu.
  - exists a, a', (ar_EndBlock resp), updates. eexists _, s1, appHash. split_and!; [exact Hend|exact Hup|exact Hus|done].
  - exists resp. rewrite T1, S1 in Hsave. exact Hsave.
Qed.

(** ** Runs of an executor *)

(** The output of the random function for a proof is not empty. *)
Class VrfLaws : Prop := proof_hash_nonempty proof : ECVRF_decode_proof proof = true -> ECVRF_proof2hash proof <> [].

(** The changes of the validators the application may ask for stay in bounds. *)
Definition within_limits (s : ChainState) (b : Block) : Prop :=
  h_Height (b_Header b) + 2 <= int64_max /\
  forall a end' a' updates, EndBlockSync (h_Height (b_Header b)) a = Ok (end', a') ->
    PB2OC_ValidatorUpdates (eb_ValidatorUpdates end') = Ok updates -> fits (updated_set s updates) /\ Forall storable updates.

Definition with_pool (e : BlockExecutor) (p : Pool) : BlockExecutor :=
  mkBlockExecutor (be_store e) (be_blockStore e) p (be_proxyApp e) (be_mempool e).

Definition with_blocks (e : BlockExecutor) (blocks : BlockStore) : BlockExecutor :=
  mkBlockExecutor (be_store e) blocks (be_evpool e) (be_proxyApp e) (be_mempool e).

(** The blocks executed since the state [s0] without blocks, and the states from
    it on.  Between two blocks others call the pool and save blocks. *)
Inductive runs (s0 : ChainState) : list (Block * BlockID) -> list ChainState -> BlockExecutor -> Prop :=
| run_start e : fresh s0 -> save s0 empty_db = (Ok tt, be_store e) -> history (be_evpool e) [] [] -> runs s0 [] [s0] e
| run_block bs l s e id b s' retain e' :
    runs s0 bs (l ++ [s]) e -> within_limits s b -> BlockIDFromProto id = Ok id ->
    ApplyBlock s id b e = (Ok (s', retain), e') -> runs s0 (bs ++ [(b, id)]) (l ++ [s; s']) e'
| run_pool bs l e p : runs s0 bs l e -> pool_call (be_evpool e) p -> runs s0 bs l (with_pool e p)
| run_blocks bs l e blocks : runs s0 bs l e -> runs s0 bs l (with_blocks e blocks).

Definition block_evidence (bs : list (Block * BlockID)) : list Evidence := concat ((fun x => b_Evidence (fst x)) <$> bs).

(** The state before. *)
Record follows (sp s : ChainState) : Prop := {
  fo_height : next_height sp = st_LastBlockHeight s;
  fo_voters : st_LastVoters s = st_Voters sp;
  fo_params : st_VoterParams s = st_VoterParams sp
}.

Record consistent (s0 : ChainState) (bs : list (Block * BlockID)) (l : list ChainState) (s : ChainState) (e : BlockExecutor) : Prop := {
  cs_fresh : fresh s0;
  cs_chain : chain s0 bs s;
  cs_saved : saved (l ++ [s]) (be_store e);
  cs_history : history (be_evpool e) [] (block_evidence bs);
  cs_before : match last l with None => st_LastBlockHeight s = 0 | Some sp => follows sp s end
}.

Lemma updateState_follows state id h txs params updates s' appHash :
  h_Height h = next_height state -> updateState state id h txs params updates = Ok s' -> follows state (with_AppHash s' appHash).
Proof.
  unfold updateState. intros Hh ([nv c] & _ & Hr)%obind_Ok. apply obind_Ok in Hr as ([[np v] c'] & _ & Hr).
  destruct (ProofToHash _); [|done]. apply obind_Ok in Hr as (voters & _ & Hr). injection Hr as <-. by constructor.
Qed.

Lemma updateState_proof `{!VrfLaws} state id h txs params updates s' :
  updateState state id h txs params updates = Ok s' -> st_LastProofHash s' <> [].
Proof.
  unfold updateState. intros ([nv c] & _ & Hr)%obind_Ok. apply obind_Ok in Hr as ([[np v] c'] & _ & Hr).
  unfold ProofToHash in Hr. destruct (ECVRF_decode_proof _) eqn:Ed; [|done]. apply obind_Ok in Hr as (voters & _ & Hr). injection Hr as <-.
  by apply proof_hash_nonempty.
Qed.

Lemma chain_state_ok s0 bs s : fresh s0 -> chain s0 bs s -> chain_ok s.
Proof. intros [Hok _ _ _ Hz _ _] Hch. by destruct (chain_history s0 bs s Hok Hz Hch). Qed.

Lemma accepted_next s round b : chain_ok s -> validateBlock s round b = Ok tt -> h_Height (b_Header b) = next_height s.
Proof. intros Hok (commit & b' & Hc & _)%(validated_iff _ _ _ Hok). apply Hc. Qed.

Lemma runs_consistent `{!VrfLaws} s0 bs l e : runs s0 bs l e -> exists l' s, l = l' ++ [s] /\ consistent s0 bs l' s e.
Proof.
  induction 1 as [e Hf Hs Hh|bs l s e id b s' retain e' _ (l' & s1 & Heq & [C1 C2 C3 C4 C5]) [Hmax Hlim] Hid Ha|bs l e p _ (l' & s & -> & [C1 C2 C3 C4 C5]) Hp|
    bs l e blocks _ (l' & s & -> & [C1 C2 C3 C4 C5])].
  - exists [], s0. split; [done|]. constructor; [done|constructor|by apply saved_start|done|apply Hf].
  - apply app_inj_tail in Heq as [<- <-]. exists (l ++ [s]), s'. split; [by rewrite <- app_assoc|].
    destruct (ApplyBlock_Ok _ _ _ _ _ _ _ Ha) as [Hv (st1 & st2 & p & sx & Hck & Hpu) (a & a' & end' & updates & txs & s1 & appHash & He & Hup & Hus & ->) (r & Hsave)].
    destruct (Hlim _ _ _ _ He Hup) as [Hfit Hst]. pose proof (chain_state_ok _ _ _ C1 C2) as Hok.
    assert (Hh : h_Height (b_Header b) = next_height s) by (by eapply accepted_next).
    constructor.
    + done.
    + by eapply chain_block.
    + rewrite <- app_assoc. eapply saved_block;
        [apply saved_responses, C3|done|done|exact Hfit|done|done|exact Hus|by eapply updateState_proof|exact Hsave].
    + unfold block_evidence. rewrite fmap_app, concat_app. cbn. rewrite app_nil_r. by eapply (history_block _ _ _ _ [] []); [exact C4|exact Hck|done|intros ?? ?%elem_of_nil|exact Hpu].
    + rewrite last_snoc. by eapply updateState_follows.
  - exists l', s. split; [done|]. constructor; try done. by eapply history_calls; [exact C4|apply rtc_once].
  - exists l', s. split; [done|]. by constructor.
Qed.

(** ** The last commit *)

(** What the application is told of a voter and its entry. *)
Definition voted (v : Validator) (cs : CommitSig) : VoteInfo :=
  mkVoteInfo (match vPubKey v with Some k => ok_or [] (PubKey_Address (E:=unit) k) | None => [] end, VotingPower v, VotingWeight v) (negb (Absent cs)).

Lemma key_address {E} k : key_ok k -> PubKey_Address (E:=E) k = Ok (ok_or [] (PubKey_Address (E:=unit) k)).
Proof.
  destruct k as [k|k|k|k|k k']; cbn; try done; intros Hk; unfold ed25519_Address, secp256k1_Address.
  all: rewrite !bool_decide_eq_false_2 by (intros Hn; by apply Hn). all: done.
Qed.

Lemma vote_infos_spec {E} voters voters' sigs :
  same_but_priority voters voters' -> Forall storable voters -> length sigs = length voters ->
  vote_infos (E:=E) voters' sigs = Ok (zip_with voted voters sigs).
Proof.
  intros Hs. revert sigs. induction Hs as [|v v' l l' Hv _ IH]; intros sigs Hst Hl; [by destruct sigs|].
  destruct sigs as [|cs sigs]; [done|]. apply Forall_cons in Hst as [[(k & Hk & Hok) _] Hst]. cbn [vote_infos]. unfold OC2PB_Validator.
  rewrite Hv. cbn [set_priority vPubKey VotingPower VotingWeight]. rewrite Hk. cbn [deref mbind outcome_bind]. rewrite (key_address k Hok). cbn [mbind outcome_bind].
  rewrite IH; [|done|cbn in Hl; lia]. cbn [mbind outcome_bind zip_with]. unfold voted. rewrite Hk. done.
Qed.

Lemma commit_size s round b : chain_ok s -> validateBlock s round b = Ok tt -> (st_LastBlockHeight s = 0 -> Voters (st_LastVoters s) = []) ->
  exists commit, b_LastCommit b = Some commit /\ length (c_Signatures commit) = length (Voters (st_LastVoters s)).
Proof.
  intros Hok Hv Hz. destruct (accepted_height _ _ _ Hok Hv) as [[Hl Hh]|(Hl & Hh & Hlt)]; apply validateBlock_iff in Hv as [commit Ha];
    exists commit; (split; [apply Ha|]); pose proof (ac_commit _ _ _ _ Ha) as Hc; unfold validate_commit in Hc.
  - rewrite Hh, Z.eqb_refl in Hc. rewrite Hz by done. destruct (bool_decide_reflect (c_Signatures commit <> [])) as [|Hn]; [done|].
    apply dec_stable in Hn. by rewrite Hn.
  - destruct (Z.eqb_spec (h_Height (b_Header b)) (st_InitialHeight s)); [lia|]. apply lift_err_Ok in Hc.
    apply VerifyCommit_unfold in Hc; [|apply Hok]. symmetry. apply Hc.
Qed.

(** What [getBeginBlockValidatorInfo] gives for an accepted block, when the store
    answers for the state before the last one. *)
Definition commit_info (s : ChainState) (commit : Commit) : LastCommitInfo :=
  mkLastCommitInfo (c_Round commit) (zip_with voted (Voters (st_LastVoters s)) (c_Signatures commit)).

Lemma commit_info_at {E} s round b db before :
  chain_ok s -> state_storable s -> validateBlock s round b = Ok tt ->
  match before with None => st_LastBlockHeight s = 0 | Some sp => follows sp s /\ answered db sp end ->
  exists commit, b_LastCommit b = Some commit /\ length (c_Signatures commit) = length (Voters (st_LastVoters s)) /\
    getBeginBlockValidatorInfo (E:=E) b db (st_InitialHeight s) (st_VoterParams s) = Ok (commit_info s commit).
Proof.
  intros Hok Hsto Hv Hbef. pose proof (ss_last _ Hsto) as Hlast. destruct (commit_size s round b Hok Hv) as (commit & Hc & Hlen).
  { intros Hz. rewrite Hz in Hlast. cbn in Hlast. by rewrite Hlast. }
  exists commit. split_and!; [done|done|]. unfold getBeginBlockValidatorInfo. rewrite Hc. cbn [deref mbind outcome_bind].
  destruct (accepted_height _ _ _ Hok Hv) as [[Hl Hh]|(Hl & Hh & Hlt)].
  - unfold commit_info. rewrite Hh, Z.ltb_irrefl. rewrite Hl in Hlast. cbn in Hlast. rewrite Hlast in *. destruct (c_Signatures commit); done.
  - destruct (Z.ltb_spec (st_InitialHeight s) (h_Height (b_Header b))); [|lia].
    destruct (Z.eqb_spec (st_LastBlockHeight s) 0) as [|_]; [lia|]. destruct Hlast as (_ & Hst & _).
    destruct before as [sp|]; [|lia]. destruct Hbef as [[F1 F2 F3] Hsp].
    destruct (an_voters _ _ Hsp) as (vals & voters & Hload & Hsame & _). rewrite F1, <- F3 in Hload.
    pose proof (co_height _ Hok). rewrite Hh, wrap64_id by (unfold int64, int64_min, int64_max in *; lia).
    replace (st_LastBlockHeight s + 1 - 1) with (st_LastBlockHeight s) by lia. rewrite Hload.
    rewrite <- F2 in Hsame. pose proof (Forall2_length _ _ _ Hsame) as Hl2.
    replace (lenZ (c_Signatures commit) =? lenZ (Voters voters)) with true by (symmetry; apply Z.eqb_eq; unfold lenZ; congruence).
    cbn [negb]. by rewrite (vote_infos_spec _ _ _ Hsame Hst Hlen).
Qed.

End execution.

(** ** A node that executes two blocks *)

(** A random function whose outputs are the proofs. *)
Definition sized_vrf : VrfLib :=
  {| ECVRF_verify _ _ _ := Some true; ECVRF_decode_proof p := Nat.eqb (length p) ProofSize; ECVRF_proof2hash p := p |}.

Lemma sized_vrf_laws : @VrfLaws sized_vrf.
Proof. by intros []. Qed.

(** An application that counts transactions and keeps what it was told of the
    last commit. *)
Definition toy_app : Application := {|
  AppState := Z * list LastCommitInfo;
  BeginBlockSync req '(n, l) := Ok (n, l ++ [bb_LastCommitInfo req]);
  DeliverTxAsync _ '(n, l) := Ok (mkDeliverTx 0 [] [] [] 0 0 [], (n + 1, l));
  EndBlockSync _ a := Ok (mkEndBlock [] None, a);
  CommitSync a := Ok ([fst a], 0, a)
|}.

(** A mempool that holds nothing. *)
Definition toy_mempool : MempoolLib := {|
  MempoolState := unit; ReapMaxBytesMaxGasMaxTxs _ _ _ _ := []; FlushAppConn _ := true; Mempool_Update _ _ _ m := Some m
|}.

Section toy_run.
  #[local] Existing Instances toy_crypto toy_time toy_wrappers sized_vrf toy_decoder toy_app toy_mempool.

Definition exec0 : BlockExecutor := mkBlockExecutor (snd (save toy_start empty_db)) (NewBlockStore empty_blocks) pool0 (0, []) tt.
Definition apply_toy (s : ChainState) (b : Block) (e : BlockExecutor) : ChainState * BlockExecutor :=
  let '(r, e') := ApplyBlock s (toy_id b) b e in (match r with Ok (s', _) => s' | _ => s end, e').
Definition ran1 : ChainState * BlockExecutor := apply_toy toy_start first_block exec0.
Definition next_block : Block := toy_block (fst ran1) (toy_commit first_block named_entries).

Lemma toy_within s b : fits (updated_set s []) -> h_Height (b_Header b) + 2 <= int64_max -> within_limits s b.
Proof. intros Hf Hh. split; [done|]. by intros a end' a' updates [= <- _] [= <-]. Qed.

Lemma toy_run0 : runs toy_start [] [toy_start] exec0.
Proof.
  apply run_start; [|by vm_compute|].
  - eapply (genesis_fresh _ _ _ _ toy_start_made); [by vm_compute|exact toy_start_fits| |by vm_compute|exact toy_storable]. split; by vm_compute.
  - apply (history_new toy_stores). by vm_compute.
Qed.

Lemma toy_run1 : runs toy_start [(first_block, toy_id first_block)] [toy_start; fst ran1] (snd ran1).
Proof.
  apply (run_block toy_start [] [] toy_start exec0 (toy_id first_block) first_block (fst ran1) 0); [exact toy_run0| |by vm_compute|by vm_compute].
  apply toy_within; [exact toy_start_fits|by vm_compute].
Qed.


End toy_run.


(** C12: the application is told exactly who signed the last block.  In any run,
    for a block that was accepted, [getBeginBlockValidatorInfo] does not panic,
    although it elects the voters of the last block anew from the store: it gives,
    for each voter of the last block in order, its address, power and weight and
    whether its entry of the last commit is there. *)
Theorem commit_info_exact `{CryptoLib} `{TimeCodec} `{WrapperLib} `{VrfLib} `{EvidenceCodec} `{Application} `{MempoolLib} `{!VrfLaws}
    s0 bs l s e round b :
  runs s0 bs (l ++ [s]) e -> validateBlock s round b = Ok tt ->
  exists commit, b_LastCommit b = Some commit /\ length (c_Signatures commit) = length (Voters (st_LastVoters s)) /\
    getBeginBlockValidatorInfo (E:=exec_error) b (be_store e) (st_InitialHeight s) (st_VoterParams s) =
      Ok (mkLastCommitInfo (c_Round commit) (zip_with voted (Voters (st_LastVoters s)) (c_Signatures commit))).
Proof.
  intros (l' & s1 & [<- <-]%app_inj_tail & [C1 C2 C3 _ C5])%runs_consistent Hv. pose proof (chain_state_ok _ _ _ C1 C2) as Hok.
  destruct (saved_remembered _ _ C3) as (lo & l1 & s1 & [<- <-]%app_inj_tail & Hr).
  apply (commit_info_at s round b (be_store e) (last l) Hok (rm_storable _ _ _ _ Hr) Hv). destruct (last l) as [sp|] eqn:El; [|done].
  split; [done|]. eapply remembered_answers; [exact Hr|]. apply elem_of_app. left. by apply last_Some_elem_of.
Qed.

Lemma commit_info_exact_witness :
  @validateBlock toy_crypto toy_time toy_wrappers sized_vrf (fst ran1) 0 next_block = Ok tt /\
  exists info, @getBeginBlockValidatorInfo toy_crypto exec_error next_block (be_store (snd ran1)) 1 (st_VoterParams (fst ran1)) = Ok info /\
    (vo_SignedLastBlock <$> lc_Votes info) = [true; true; true].
Proof.
  assert (Hv : @validateBlock toy_crypto toy_time toy_wrappers sized_vrf (fst ran1) 0 next_block = Ok tt) by (vm_compute; reflexivity).
  destruct (@commit_info_exact toy_crypto toy_time toy_wrappers sized_vrf toy_decoder toy_app toy_mempool sized_vrf_laws
    toy_start _ [toy_start] (fst ran1) (snd ran1) 0 next_block toy_run1 Hv) as (commit & Hc & _ & Hi).
  assert (Hb : b_LastCommit next_block = Some (toy_commit first_block named_entries)) by (vm_compute; reflexivity).
  rewrite Hb in Hc. apply (inj Some) in Hc. rewrite <- Hc in Hi.
  split; [exact Hv|]. eexists. split; [exact Hi|]. vm_compute. reflexivity.
Defined.
