(* ===== verification/FastSync.v ===== *)
(** * Fast sync: src/blockchain/v2

    A node that is behind fetches blocks from its peers.  The scheduler (of
    scheduler.go) decides which peer is asked for which block and drops peers; the
    processor (of processor.go) checks each block by the commit in the next one,
    saves it and executes it.  Both handle one event at a time and emit one; the
    reactor passes events between them.  The clock is an argument of the handlers
    that read it; the reasons of errors, which are only logged, are left out. *)

From Stdlib Require Import ZArith Lia.
From stdpp Require Import prelude list gmap.
From S2P Require Import Prelude SafeMath Crypto Validator ValidatorSet Proto Block VoterSet Election PartSet Header Light BlockProto.
From S2P Require Import Evidence ChainState StateStore BlockStore EvidencePool BlockExec.

Local Open Scope Z_scope.
Local Open Scope go_scope.

(** [p2p.ID]. *)
Abbreviation ID := bytes.

(** ** Events *)

Inductive Event :=
| noOp
(** of the reactor *)
| rTryPrunePeer (time : Time)
| rTrySchedule (time : Time)
| rProcessBlock
| bcBlockResponse (time : Time) (peerID : ID) (size : Z) (block : Block)
| bcNoBlockResponse (peerID : ID) (height : Z)
| bcStatusResponse (peerID : ID) (base height : Z)
| bcAddNewPeer (peerID : ID)
| bcRemovePeer (peerID : ID)
| bcResetState (state : ChainState)
(** of the scheduler *)
| scFinishedEv
| scBlockRequest (peerID : ID) (height : Z)
| scBlockReceived (peerID : ID) (block : option Block)
| scPeerError (peerID : ID)
| scPeersPruned (peers : list ID)
| scSchedulerFail
(** of the processor *)
| pcBlockVerificationFailure (height : Z) (firstPeerID secondPeerID : ID)
| pcBlockProcessed (height : Z) (peerID : ID)
| pcFinished (blocksSynced : Z) (tmState : ChainState).

(** ** The scheduler *)

Inductive blockState := blockStateUnknown | blockStateNew | blockStatePending | blockStateReceived | blockStateProcessed.

#[global] Instance blockState_eq : EqDecision blockState.
Proof. solve_decision. Defined.

Inductive peerState := peerStateNew | peerStateReady | peerStateRemoved.

#[global] Instance peerState_eq : EqDecision peerState.
Proof. solve_decision. Defined.

Record scPeer := mkScPeer { sp_state : peerState; sp_base : Z; sp_height : Z; sp_lastTouched : Time; sp_lastRate : Z }.

Definition newScPeer : scPeer := mkScPeer peerStateNew (-1) (-1) 0 0.

Record scheduler := mkScheduler {
  sc_initHeight : Z;
  sc_height : Z;
  sc_lastAdvance : Time;
  sc_peers : gmap ID scPeer;
  sc_blockStates : gmap Z blockState;
  sc_pendingBlocks : gmap Z ID;
  sc_pendingTime : gmap Z Time;
  sc_receivedBlocks : gmap Z ID
}.

Definition second : Z := 1000000000.
Definition syncTimeout : Z := 60 * second.
Definition peerTimeout : Z := 15 * second.
Definition minRecvRate : Z := 0.
Definition targetPending : Z := 10.

Definition newScheduler (initHeight : Z) (startTime : Time) : scheduler := mkScheduler initHeight initHeight startTime ∅ ∅ ∅ ∅ ∅.

Inductive sc_error :=
| ErrPeerUnknown | ErrPeerNotReady | ErrLowerHeight | ErrBaseAboveHeight | ErrNotRequested | ErrClock | ErrNotNew
| ErrAboveHeight | ErrBelowBase | ErrNobodyHas.

Abbreviation ScM := (GoM scheduler sc_error).

(** A handler looks at the error of a call. *)
Definition caught {S E A} (m : GoM S E A) : GoM S E (E + A) := fun s =>
  match m s with
  | (Ok a, s') => (Ok (inr a), s')
  | (Err e, s') => (Ok (inl e), s')
  | (Panic, s') => (Panic, s')
  end.

Definition set_peers (sc : scheduler) (peers : gmap ID scPeer) : scheduler :=
  mkScheduler (sc_initHeight sc) (sc_height sc) (sc_lastAdvance sc) peers (sc_blockStates sc) (sc_pendingBlocks sc) (sc_pendingTime sc) (sc_receivedBlocks sc).

Definition set_blocks (sc : scheduler) (states : gmap Z blockState) (pending : gmap Z ID) (times : gmap Z Time) (received : gmap Z ID) : scheduler :=
  mkScheduler (sc_initHeight sc) (sc_height sc) (sc_lastAdvance sc) (sc_peers sc) states pending times received.

(** *** Queries *)

Definition ready (p : scPeer) : bool := bool_decide (sp_state p = peerStateReady).

(** The heights of the peers that are ready. *)
Definition ready_heights (sc : scheduler) : list Z := omap (fun '(_, p) => if ready p then Some (sp_height p) else None) (map_to_list (sc_peers sc)).

Definition maxHeight (sc : scheduler) : Z := foldr Z.max (sc_height sc -i64 1) (ready_heights sc).

Definition getStateAtHeight (sc : scheduler) (height : Z) : blockState :=
  if height <? sc_height sc then blockStateProcessed else default blockStateUnknown (sc_blockStates sc !! height).

Definition getPeersWithHeight (sc : scheduler) (height : Z) : list ID :=
  omap (fun '(id, p) => if ready p && (sp_base p <=? height) && (height <=? sp_height p) then Some id else None) (map_to_list (sc_peers sc)).

Definition prunablePeers (sc : scheduler) (peerTimout minRecvRate : Z) (now : Time) : list ID :=
  sort_by bytes_ltb
    (omap (fun '(id, p) =>
             if ready p && ((peerTimout <? time_Sub now (sp_lastTouched p)) || (sp_lastRate p <? minRecvRate)) then Some id else None)
       (map_to_list (sc_peers sc))).

Definition allBlocksProcessed (sc : scheduler) : bool :=
  negb (bool_decide (sc_peers sc = ∅)) && (maxHeight sc <=? sc_height sc).

(** The heights in state New; -1 if there is none. *)
Definition nextHeightToSchedule (sc : scheduler) : Z :=
  let news := omap (fun '(h, s) => if bool_decide (s = blockStateNew) then Some h else None) (map_to_list (sc_blockStates sc)) in
  let min := foldr Z.min int64_max news in
  if min =? int64_max then -1 else min.

Definition pendingFrom (sc : scheduler) (peerID : ID) : list Z :=
  omap (fun '(h, id) => if bool_decide (id = peerID) then Some h else None) (map_to_list (sc_pendingBlocks sc)).

Definition selectPeer (sc : scheduler) (height : Z) : outcome sc_error ID :=
  let peers := getPeersWithHeight sc height in
  let numPending id := lenZ (pendingFrom sc id) in
  let minPending := foldr Z.min int64_max (numPending <$> peers) in
  match sort_by bytes_ltb (filter (fun id => numPending id = minPending) peers) with
  | [] => Err ErrNobodyHas
  | id :: _ => Ok id
  end.

(** *** Changes *)

Definition ensurePeer (peerID : ID) : ScM scPeer :=
  sc ← gget;
  match sc_peers sc !! peerID with
  | Some p => mret p
  | None => gput (set_peers sc (<[peerID := newScPeer]> (sc_peers sc)));; mret newScPeer
  end.

Definition touchPeer (peerID : ID) (time : Time) : ScM unit :=
  sc ← gget;
  match sc_peers sc !! peerID with
  | None => gfail ErrPeerUnknown
  | Some p =>
      if negb (ready p) then gfail ErrPeerNotReady
      else gput (set_peers sc (<[peerID := mkScPeer (sp_state p) (sp_base p) (sp_height p) time (sp_lastRate p)]> (sc_peers sc)))
  end.

(** The blocks of a peer are New again. *)
Definition renew (peerID : ID) (owners : gmap Z ID) (states : gmap Z blockState) : gmap Z blockState :=
  ((fun _ => blockStateNew) <$> filter (fun '(_, id) => id = peerID) owners) ∪ states.

Definition forget {A} (peerID : ID) (owners : gmap Z ID) (m : gmap Z A) : gmap Z A :=
  filter (fun '(h, _) => owners !! h <> Some peerID) m.

Definition removePeer (peerID : ID) : ScM unit :=
  sc ← gget;
  match sc_peers sc !! peerID with
  | None => mret tt
  | Some p =>
      if bool_decide (sp_state p = peerStateRemoved) then mret tt
      else
        let pending := sc_pendingBlocks sc in
        let states := renew peerID (sc_receivedBlocks sc) (renew peerID pending (sc_blockStates sc)) in
        let sc := set_blocks sc states (forget peerID pending pending) (forget peerID pending (sc_pendingTime sc))
                    (forget peerID (sc_receivedBlocks sc) (sc_receivedBlocks sc)) in
        let sc := set_peers sc (<[peerID := mkScPeer peerStateRemoved (sp_base p) (sp_height p) (sp_lastTouched p) (sp_lastRate p)]> (sc_peers sc)) in
        let maxPeerHeight := foldr Z.max 0 (ready_heights sc) in
        gput (set_blocks sc (filter (fun '(h, _) => h <= maxPeerHeight) (sc_blockStates sc)) (sc_pendingBlocks sc) (sc_pendingTime sc) (sc_receivedBlocks sc))
  end.

Definition setStateAtHeight (height : Z) (state : blockState) : ScM unit :=
  gmodify (fun sc => set_blocks sc (<[height := state]> (sc_blockStates sc)) (sc_pendingBlocks sc) (sc_pendingTime sc) (sc_receivedBlocks sc)).

Fixpoint new_loop (i : Z) (n : nat) : ScM unit :=
  match n with
  | O => mret tt
  | S n =>
      sc ← gget;
      if maxHeight sc <? i then mret tt
      else
        (if bool_decide (getStateAtHeight sc i = blockStateUnknown) then setStateAtHeight i blockStateNew else mret tt);;
        new_loop (i +i64 1) n
  end.

Definition addNewBlocks : ScM unit :=
  sc ← gget;
  if targetPending <=? Z.of_nat (size (sc_blockStates sc)) then mret tt
  else new_loop (sc_height sc) (Z.to_nat (targetPending +i64 sc_height sc - sc_height sc)).

Definition setPeerRange (peerID : ID) (base height : Z) : ScM unit :=
  peer ← ensurePeer peerID;
  if bool_decide (sp_state peer = peerStateRemoved) then mret tt
  else if height <? sp_height peer then removePeer peerID;; gfail ErrLowerHeight
  else if height <? base then removePeer peerID;; gfail ErrBaseAboveHeight
  else
    gmodify (fun sc => set_peers sc (<[peerID := mkScPeer peerStateReady base height (sp_lastTouched peer) (sp_lastRate peer)]> (sc_peers sc)));;
    addNewBlocks.

(** The peer exists and is ready. *)
Definition markReceived (peerID : ID) (height size : Z) (now : Time) : ScM unit :=
  sc ← gget;
  let peer := default newScPeer (sc_peers sc !! peerID) in
  if negb (bool_decide (getStateAtHeight sc height = blockStatePending)) || negb (bool_decide (default [] (sc_pendingBlocks sc !! height) = peerID))
  then gfail ErrNotRequested
  else
    match sc_pendingTime sc !! height with
    | None => gfail ErrClock
    | Some pendingTime =>
        if time_Sub now pendingTime <=? 0 then gfail ErrClock
        else
          let rate := size /i64 time_Sub now pendingTime in
          let sc := set_peers sc (<[peerID := mkScPeer (sp_state peer) (sp_base peer) (sp_height peer) (sp_lastTouched peer) rate]> (sc_peers sc)) in
          gput (set_blocks sc (<[height := blockStateReceived]> (sc_blockStates sc)) (delete height (sc_pendingBlocks sc))
                  (delete height (sc_pendingTime sc)) (<[height := peerID]> (sc_receivedBlocks sc)))
    end.

Definition markPending (peerID : ID) (height : Z) (time : Time) : ScM unit :=
  sc ← gget;
  if negb (bool_decide (getStateAtHeight sc height = blockStateNew)) then gfail ErrNotNew
  else
    match sc_peers sc !! peerID with
    | None => gfail ErrPeerUnknown
    | Some peer =>
        if negb (ready peer) then gfail ErrPeerNotReady
        else if sp_height peer <? height then gfail ErrAboveHeight
        else if height <? sp_base peer then gfail ErrBelowBase
        else
          gput (set_blocks sc (<[height := blockStatePending]> (sc_blockStates sc)) (<[height := peerID]> (sc_pendingBlocks sc))
                  (<[height := time]> (sc_pendingTime sc)) (sc_receivedBlocks sc))
    end.

Definition markProcessed (now : Time) (height : Z) : ScM unit :=
  gmodify (fun sc => mkScheduler (sc_initHeight sc) (height +i64 1) now (sc_peers sc) (delete height (sc_blockStates sc))
                       (delete height (sc_pendingBlocks sc)) (delete height (sc_pendingTime sc)) (delete height (sc_receivedBlocks sc)));;
  addNewBlocks.

(** *** Handlers *)

Definition handleBlockResponse (time : Time) (peerID : ID) (size : Z) (block : Block) : ScM Event :=
  touched ← caught (touchPeer peerID time);
  match touched with
  | inl _ => mret noOp
  | inr _ =>
      received ← caught (markReceived peerID (h_Height (b_Header block)) size time);
      match received with
      | inl _ => removePeer peerID;; mret (scPeerError peerID)
      | inr _ => mret (scBlockReceived peerID (Some block))
      end
  end.

Definition handleNoBlockResponse (peerID : ID) (height : Z) : ScM Event :=
  sc ← gget;
  match sc_peers sc !! peerID with
  | None => mret noOp
  | Some peer => if bool_decide (sp_state peer = peerStateRemoved) then mret noOp else removePeer peerID;; mret (scPeerError peerID)
  end.

(** Finished, or else the given event. *)
Definition finished_or (event : Event) : ScM Event := sc ← gget; mret (if allBlocksProcessed sc then scFinishedEv else event).

Definition handleBlockProcessed (now : Time) (height : Z) : ScM Event :=
  sc ← gget;
  if negb (height =? sc_height sc) then gpanic
  else markProcessed now height;; finished_or noOp.

Definition handleBlockProcessError (firstPeerID secondPeerID : ID) : ScM Event :=
  removePeer firstPeerID;;
  (if negb (bool_decide (firstPeerID = secondPeerID)) then removePeer secondPeerID else mret tt);;
  finished_or noOp.

Definition handleAddNewPeer (peerID : ID) : ScM Event := _ ← ensurePeer peerID; mret noOp.

Definition handleRemovePeer (peerID : ID) : ScM Event := removePeer peerID;; finished_or (scPeerError peerID).

Fixpoint remove_peers (peers : list ID) : ScM unit :=
  match peers with [] => mret tt | id :: peers => removePeer id;; remove_peers peers end.

Definition handleTryPrunePeer (now time : Time) : ScM Event :=
  sc ← gget;
  (match sc_pendingTime sc !! sc_height sc with
   | Some asked => if peerTimeout <? time_Sub now asked then removePeer (default [] (sc_pendingBlocks sc !! sc_height sc)) else mret tt
   | None => mret tt
   end);;
  sc ← gget;
  match prunablePeers sc peerTimeout minRecvRate time with
  | [] => mret noOp
  | prunable => remove_peers prunable;; finished_or (scPeersPruned prunable)
  end.

(** The first block after a state. *)
Definition reset_height (state : ChainState) : Z :=
  let initHeight := st_LastBlockHeight state +i64 1 in
  if initHeight =? 1 then st_InitialHeight state else initHeight.

Definition handleResetState (now : Time) (state : ChainState) : ScM Event :=
  let initHeight := reset_height state in
  gmodify (fun sc => mkScheduler initHeight initHeight now (sc_peers sc) (sc_blockStates sc) (sc_pendingBlocks sc) (sc_pendingTime sc) (sc_receivedBlocks sc));;
  addNewBlocks;;
  mret noOp.

Definition handleTrySchedule (now time : Time) : ScM Event :=
  sc ← gget;
  if syncTimeout <? time_Sub now (sc_lastAdvance sc) then mret scFinishedEv
  else
    let nextHeight := nextHeightToSchedule sc in
    if nextHeight =? -1 then mret noOp
    else
      match selectPeer sc nextHeight with
      | Ok bestPeerID =>
          marked ← caught (markPending bestPeerID nextHeight time);
          match marked with
          | inl _ => mret scSchedulerFail
          | inr _ => mret (scBlockRequest bestPeerID nextHeight)
          end
      | _ => mret scSchedulerFail
      end.

Definition handleStatusResponse (peerID : ID) (base height : Z) : ScM Event :=
  set ← caught (setPeerRange peerID base height);
  match set with inl _ => mret (scPeerError peerID) | inr _ => mret noOp end.

Definition scheduler_handle (now : Time) (event : Event) : ScM Event :=
  match event with
  | bcResetState state => handleResetState now state
  | bcStatusResponse peerID base height => handleStatusResponse peerID base height
  | bcBlockResponse time peerID size block => handleBlockResponse time peerID size block
  | bcNoBlockResponse peerID height => handleNoBlockResponse peerID height
  | rTrySchedule time => handleTrySchedule now time
  | bcAddNewPeer peerID => handleAddNewPeer peerID
  | bcRemovePeer peerID => handleRemovePeer peerID
  | rTryPrunePeer time => handleTryPrunePeer now time
  | pcBlockProcessed height _ => handleBlockProcessed now height
  | pcBlockVerificationFailure _ first second => handleBlockProcessError first second
  | _ => mret scSchedulerFail
  end.

(** ** The processor *)

Section processor.
  Context {crypto : CryptoLib} {codec : TimeCodec} {wrappers : WrapperLib} {vrf : VrfLib} {decoder : EvidenceCodec}.
  Context {app : Application} {mempool : MempoolLib}.

(** The queue, and the context of processor_context.go: the executor with the
    stores, and the state. *)
Record pcState := mkPcState {
  pc_queue : gmap Z (Block * ID);
  pc_draining : bool;
  pc_blocksSynced : Z;
  pc_applier : BlockExecutor;
  pc_state : ChainState
}.

Definition newPcState (applier : BlockExecutor) (state : ChainState) : pcState := mkPcState ∅ false 0 applier state.

Abbreviation PcM := (GoM pcState exec_error).

Definition set_queue (pc : pcState) (queue : gmap Z (Block * ID)) : pcState :=
  mkPcState queue (pc_draining pc) (pc_blocksSynced pc) (pc_applier pc) (pc_state pc).

Definition set_context (pc : pcState) (applier : BlockExecutor) (state : ChainState) : pcState :=
  mkPcState (pc_queue pc) (pc_draining pc) (pc_blocksSynced pc) applier state.

Definition pc_height (pc : pcState) : Z := st_LastBlockHeight (pc_state pc).

Definition nextTwo (pc : pcState) : option ((Block * ID) * (Block * ID)) :=
  first ← pc_queue pc !! (pc_height pc +i64 1);
  second ← pc_queue pc !! (pc_height pc +i64 2);
  Some (first, second).

Definition synced (pc : pcState) : bool := bool_decide (size (pc_queue pc) <= 1)%nat.

Definition enqueue (peerID : ID) (block : Block) (height : Z) : PcM unit :=
  pc ← gget;
  match pc_queue pc !! height with
  | Some _ => gpanic
  | None => gput (set_queue pc (<[height := (block, peerID)]> (pc_queue pc)))
  end.

Definition purgePeer (peerID : ID) : PcM unit :=
  gmodify (fun pc => set_queue pc (filter (fun '(_, (_, id)) => id <> peerID) (pc_queue pc))).

(** [pContext.verifyCommit]. *)
Definition context_verifyCommit (pc : pcState) (chainID : bytes) (blockID : BlockID) (height : Z) (commit : option Commit) : outcome verify_error unit :=
  fst (VerifyCommitLight chainID blockID height commit (st_Voters (pc_state pc))).

(** [pContext.saveBlock]. *)
Definition context_saveBlock (block : Block) (blockParts : PartSet) (seenCommit : option Commit) : PcM unit := fun pc =>
  let e := pc_applier pc in
  let '(r, blocks) := SaveBlock (Some block) blockParts seenCommit (be_blockStore e) in
  (match r with Ok _ => Ok tt | _ => Panic end,
   set_context pc (mkBlockExecutor (be_store e) blocks (be_evpool e) (be_proxyApp e) (be_mempool e)) (pc_state pc)).

(** [pContext.applyBlock].  The code also assigns the state that comes with an
    error; nothing reads it, since the caller panics on the error at once. *)
Definition context_applyBlock (blockID : BlockID) (block : Block) : PcM unit := fun pc =>
  let '(r, e) := ApplyBlock (pc_state pc) blockID block (pc_applier pc) in
  match r with
  | Ok (state, _) => (Ok tt, set_context pc e state)
  | Err err => (Err err, set_context pc e (pc_state pc))
  | Panic => (Panic, set_context pc e (pc_state pc))
  end.

Definition handle_process : PcM Event :=
  pc ← gget;
  let tmState := pc_state pc in
  match nextTwo pc with
  | None => mret (if pc_draining pc then pcFinished (pc_blocksSynced pc) tmState else noOp)
  | Some ((first, firstPeer), (second, secondPeer)) =>
      firstParts ← glift (MakePartSet first BlockPartSizeBytes);
      hash ← glift (Block_Hash first);
      let firstID := mkBlockID hash (PartSet_Header (Some firstParts)) in
      let height := h_Height (b_Header first) in
      match context_verifyCommit pc (st_ChainID tmState) firstID height (b_LastCommit second) with
      | Panic => gpanic
      | Err _ =>
          purgePeer firstPeer;;
          (if negb (bool_decide (firstPeer = secondPeer)) then purgePeer secondPeer else mret tt);;
          mret (pcBlockVerificationFailure height firstPeer secondPeer)
      | Ok _ =>
          context_saveBlock first firstParts (b_LastCommit second);;
          applied ← caught (context_applyBlock firstID first);
          match applied with
          | inl _ => gpanic
          | inr _ =>
              gmodify (fun pc => mkPcState (delete height (pc_queue pc)) (pc_draining pc) (pc_blocksSynced pc +i64 1) (pc_applier pc) (pc_state pc));;
              mret (pcBlockProcessed height firstPeer)
          end
      end
  end.

Definition processor_handle (event : Event) : PcM Event :=
  match event with
  | bcResetState state => gmodify (fun pc => set_context pc (pc_applier pc) state);; mret noOp
  | scFinishedEv =>
      pc ← gget;
      if synced pc then mret (pcFinished (pc_blocksSynced pc) (pc_state pc))
      else gput (mkPcState (pc_queue pc) true (pc_blocksSynced pc) (pc_applier pc) (pc_state pc));; mret noOp
  | scPeerError peerID => purgePeer peerID;; mret noOp
  | scBlockReceived _ None => mret noOp
  | scBlockReceived peerID (Some block) =>
      pc ← gget;
      (if pc_height pc <? h_Height (b_Header block) then enqueue peerID block (h_Height (b_Header block)) else mret tt);;
      mret noOp
  | rProcessBlock => handle_process
  | _ => mret noOp
  end.

End processor.

(** ** The reactor *)

(** [demux]: where it sends an event of a peer, of the scheduler and of the
    processor, as far as they go to the other two. *)
Definition demux_peer (event : Event) : list Event :=
  match event with
  | bcStatusResponse _ _ _ | bcAddNewPeer _ | bcRemovePeer _ | bcBlockResponse _ _ _ _ | bcNoBlockResponse _ _ => [event]
  | _ => []
  end.

Definition demux_scheduler (event : Event) : list Event :=
  match event with
  | scBlockReceived _ _ | scPeerError _ | scFinishedEv => [event]
  | scPeersPruned peers => scPeerError <$> peers
  | _ => []
  end.

Definition demux_processor (event : Event) : list Event :=
  match event with
  | pcBlockProcessed _ _ | pcBlockVerificationFailure _ _ _ => [event]
  | _ => []
  end.
