(* ===== verification/FastSyncProps.v ===== *)
(** * What fast sync guarantees

    The scheduler asks one peer at a time for a block, never runs ahead of the
    window it keeps, and passes on only blocks it asked for. *)

From Stdlib Require Import ZArith Lia.
From stdpp Require Import prelude list gmap.
From S2P Require Import Prelude SafeMath Crypto Validator ValidatorSet ValidatorLists Proto Block VoterSet Election PartSet Header Light BlockProto.
From S2P Require Import Evidence ChainState StateStore BlockStore EvidencePool EvidencePoolProps BlockExec FastSync.

Local Open Scope Z_scope.
Local Open Scope go_scope.

(** ** The invariant of the scheduler *)

(** The peer that was asked for a block, or sent it, is ready and claims to have
    it. *)
Definition owner (sc : scheduler) (h : Z) (id : ID) : Prop :=
  exists p, sc_peers sc !! id = Some p /\ sp_state p = peerStateReady /\ h <= sp_height p.

Record sc_ok (sc : scheduler) : Prop := {
  so_height : 1 <= sc_height sc <= int64_max - targetPending;
  so_window h s : sc_blockStates sc !! h = Some s ->
    sc_height sc <= h < sc_height sc + targetPending /\ (s = blockStateNew \/ s = blockStatePending \/ s = blockStateReceived) /\
    exists id, owner sc h id;
  so_pending h : sc_blockStates sc !! h = Some blockStatePending <-> is_Some (sc_pendingBlocks sc !! h);
  so_received h : sc_blockStates sc !! h = Some blockStateReceived <-> is_Some (sc_receivedBlocks sc !! h);
  so_times h : is_Some (sc_pendingTime sc !! h) <-> is_Some (sc_pendingBlocks sc !! h);
  so_owner h id : sc_pendingBlocks sc !! h = Some id \/ sc_receivedBlocks sc !! h = Some id -> owner sc h id
}.

Lemma new_ok height now : 1 <= height <= int64_max - targetPending -> sc_ok (newScheduler height now).
Proof. intros Hh. constructor; cbn; try done; intros; rewrite ?lookup_empty in *; naive_solver. Qed.

(** ** Heights of peers *)

Lemma ready_heights_spec sc h :
  h ∈ ready_heights sc <-> exists id p, sc_peers sc !! id = Some p /\ sp_state p = peerStateReady /\ sp_height p = h.
Proof.
  unfold ready_heights. rewrite list_elem_of_omap. split.
  - intros ([id p] & Hin%elem_of_map_to_list & Hp). unfold ready in Hp. case_bool_decide; naive_solver.
  - intros (id & p & Hl & Hr & <-). exists (id, p). rewrite elem_of_map_to_list. unfold ready. by rewrite bool_decide_true.
Qed.

Lemma foldr_max_ge (l : list Z) d : d <= foldr Z.max d l /\ forall x, x ∈ l -> x <= foldr Z.max d l.
Proof.
  induction l as [|y l [IH1 IH2]]; cbn; [split; [lia|by intros x ?%elem_of_nil]|]. split; [lia|].
  intros x [->|Hx]%elem_of_cons; [lia|]. specialize (IH2 x Hx). lia.
Qed.

Lemma foldr_max_in (l : list Z) d : foldr Z.max d l = d \/ foldr Z.max d l ∈ l.
Proof.
  induction l as [|y l IH]; cbn; [by left|].
  destruct (Z.max_spec y (foldr Z.max d l)) as [[_ ->]|[_ ->]]; [|right; apply list_elem_of_here].
  destruct IH as [IH|IH]; [left|right; by apply list_elem_of_further]; done.
Qed.

(** ** Removing a peer *)

Lemma renew_lookup id owners states h :
  renew id owners states !! h = if decide (owners !! h = Some id) then Some blockStateNew else states !! h.
Proof.
  unfold renew. rewrite lookup_union, lookup_fmap, map_lookup_filter. destruct (owners !! h) as [j|] eqn:E; cbn.
  - repeat case_decide; cbn; repeat case_guard; cbn; try naive_solver; by destruct (states !! h).
  - case_decide; [done|]. by destruct (states !! h).
Qed.

Lemma forget_lookup {A} id owners (m : gmap Z A) h x :
  forget id owners m !! h = Some x <-> m !! h = Some x /\ owners !! h <> Some id.
Proof. unfold forget. rewrite map_lookup_filter_Some. naive_solver. Qed.

Lemma owner_other sc sc' id h j :
  (forall j, j <> id -> sc_peers sc' !! j = sc_peers sc !! j) -> j <> id -> owner sc h j -> owner sc' h j.
Proof. intros Hp Hj (p & Hl & Hr). exists p. by rewrite Hp. Qed.

Lemma owner_bound sc h id : owner sc h id -> h <= foldr Z.max 0 (ready_heights sc).
Proof.
  intros (p & Hl & Hr & Hh). destruct (foldr_max_ge (ready_heights sc) 0) as [_ Hm].
  assert (Hin : sp_height p ∈ ready_heights sc) by (apply ready_heights_spec; eauto). specialize (Hm _ Hin). lia.
Qed.

Lemma bound_owner sc h : 1 <= h <= foldr Z.max 0 (ready_heights sc) -> exists id, owner sc h id.
Proof.
  intros [H1 H2]. destruct (foldr_max_in (ready_heights sc) 0) as [E|E]; [lia|].
  apply ready_heights_spec in E as (id & p & Hl & Hr & Hh). exists id, p. split_and!; [done|done|lia].
Qed.

Lemma removePeer_ok id sc :
  sc_ok sc -> exists sc', removePeer id sc = (Ok tt, sc') /\ sc_ok sc' /\ sc_height sc' = sc_height sc /\ sc_initHeight sc' = sc_initHeight sc.
Proof.
  intros Hok. unfold removePeer, mbind, gom_bind, gget. destruct (sc_peers sc !! id) as [p|] eqn:Ep; [|by exists sc].
  case_bool_decide; [by exists sc|]. eexists. split; [reflexivity|]. split; [|done].
  set (sc1 := set_peers _ _). set (mph := foldr Z.max 0 (ready_heights sc1)). destruct Hok as [K1 K2 K3 K4 K5 K6].
  assert (Hp : forall j, j <> id -> sc_peers sc1 !! j = sc_peers sc !! j) by (intros j Hj; cbn; by rewrite lookup_insert_ne).
  assert (Hst : forall h s, filter (fun '(h, _) => h <= mph) (sc_blockStates sc1) !! h = Some s <->
    h <= mph /\ (if decide (sc_receivedBlocks sc !! h = Some id) then s = blockStateNew
       else if decide (sc_pendingBlocks sc !! h = Some id) then s = blockStateNew else sc_blockStates sc !! h = Some s)).
  { intros h s. rewrite map_lookup_filter_Some. unfold sc1. cbn [sc_blockStates set_peers set_blocks]. rewrite !renew_lookup.
    repeat case_decide; naive_solver. }
  assert (Hown : forall h j, j <> id -> owner sc h j -> owner sc1 h j /\ h <= mph).
  { intros h j Hj Ho. pose proof (owner_other sc sc1 id h j Hp Hj Ho) as Ho'. split; [done|]. by eapply owner_bound. }
  constructor; cbn [sc_height sc_blockStates sc_pendingBlocks sc_pendingTime sc_receivedBlocks set_peers set_blocks].
  - done.
  - intros h s Hs. apply Hst in Hs as [Hh Hs].
    assert (Hw : sc_height sc <= h < sc_height sc + targetPending /\ (s = blockStateNew \/ s = blockStatePending \/ s = blockStateReceived)).
    { case_decide as D1; [|case_decide as D2; [|naive_solver]]; subst s.
      - assert (Hr : sc_blockStates sc !! h = Some blockStateReceived) by (apply K4; eauto). destruct (K2 _ _ Hr). auto.
      - assert (Hr : sc_blockStates sc !! h = Some blockStatePending) by (apply K3; eauto). destruct (K2 _ _ Hr). auto. }
    destruct Hw as [Hw1 Hw2]. split; [exact Hw1|]. split; [exact Hw2|]. destruct (bound_owner sc1 h) as [j Hj]; [fold mph; lia|]. by exists j.
  - intros h. rewrite Hst. split.
    + intros [Hh Hs]. repeat case_decide; try done. apply K3 in Hs as [j Hj]. exists j. apply forget_lookup. naive_solver.
    + intros [j [Hj Hne]%forget_lookup]. destruct (Hown h j) as [Ho Hh]; [congruence|apply K6; auto|]. split; [done|].
      assert (Hs : sc_blockStates sc !! h = Some blockStatePending) by (apply K3; eauto).
      rewrite decide_False, decide_False; [done|done|]. intros Hr.
      assert (sc_blockStates sc !! h = Some blockStateReceived) by (apply K4; eauto). congruence.
  - intros h. rewrite Hst. split.
    + intros [Hh Hs]. repeat case_decide; try done. apply K4 in Hs as [j Hj]. exists j. apply forget_lookup. naive_solver.
    + intros [j [Hj Hne]%forget_lookup]. destruct (Hown h j) as [Ho Hh]; [congruence|apply K6; auto|]. split; [done|].
      assert (Hs : sc_blockStates sc !! h = Some blockStateReceived) by (apply K4; eauto).
      rewrite decide_False, decide_False; [done| |done]. intros Hr.
      assert (sc_blockStates sc !! h = Some blockStatePending) by (apply K3; eauto). congruence.
  - intros h. split; intros [x [Hx Hne]%forget_lookup].
    + destruct (proj1 (K5 h)) as [j Hj]; [eauto|]. exists j. by apply forget_lookup.
    + destruct (proj2 (K5 h)) as [t Ht]; [eauto|]. exists t. by apply forget_lookup.
  - intros h j [[Hj Hne]%forget_lookup|[Hj Hne]%forget_lookup]; eapply owner_other; [exact Hp|congruence|apply K6; auto|exact Hp|congruence|apply K6; auto].
Qed.

(** ** The other changes *)

Lemma peers_ok sc peers : sc_ok sc -> (forall h id, owner sc h id -> owner (set_peers sc peers) h id) -> sc_ok (set_peers sc peers).
Proof.
  intros [K1 K2 K3 K4 K5 K6] Ho. constructor; cbn; try done; [|naive_solver].
  intros h s Hs. destruct (K2 h s Hs) as (Hw & Hs' & id & Hid). eauto.
Qed.

(** A peer that is not ready, or gets higher. *)
Lemma owner_insert sc id p :
  (forall q, sc_peers sc !! id = Some q -> sp_state q = peerStateReady -> sp_state p = peerStateReady /\ sp_height q <= sp_height p) ->
  forall h j, owner sc h j -> owner (set_peers sc (<[id := p]> (sc_peers sc))) h j.
Proof.
  intros Hp h j (q & Hl & Hr & Hh). destruct (decide (j = id)) as [->|Hne].
  - destruct (Hp q Hl Hr) as [Hr' Hle]. exists p. cbn. rewrite lookup_insert_eq. split_and!; [done|done|lia].
  - exists q. cbn. by rewrite lookup_insert_ne.
Qed.

Lemma ensurePeer_ok id sc :
  sc_ok sc -> exists p sc', ensurePeer id sc = (Ok p, sc') /\ sc_ok sc' /\ sc_peers sc' !! id = Some p /\
    sc_height sc' = sc_height sc /\ sc_initHeight sc' = sc_initHeight sc.
Proof.
  intros Hok. unfold ensurePeer, mbind, gom_bind, gget. destruct (sc_peers sc !! id) as [p|] eqn:Ep; [by exists p, sc|].
  eexists _, _. split; [reflexivity|]. split_and!; [|apply lookup_insert_eq|done..].
  apply peers_ok; [done|]. apply owner_insert. intros q. by rewrite Ep.
Qed.

(** Blocks that were not known and that a peer has become New. *)
Lemma set_new_ok sc i :
  sc_ok sc -> sc_height sc <= i < sc_height sc + targetPending -> sc_blockStates sc !! i = None -> (exists id, owner sc i id) ->
  sc_ok (set_blocks sc (<[i := blockStateNew]> (sc_blockStates sc)) (sc_pendingBlocks sc) (sc_pendingTime sc) (sc_receivedBlocks sc)).
Proof.
  intros [K1 K2 K3 K4 K5 K6] Hi Hn Ho. constructor; cbn; try done.
  - intros h s [[<- <-]|[Hne Hs]]%lookup_insert_Some; [|by apply K2]. auto.
  - intros h. rewrite <- K3. destruct (decide (h = i)) as [->|]; [rewrite lookup_insert_eq, Hn|rewrite lookup_insert_ne by done]; done.
  - intros h. rewrite <- K4. destruct (decide (h = i)) as [->|]; [rewrite lookup_insert_eq, Hn|rewrite lookup_insert_ne by done]; done.
Qed.

Lemma max_owner sc i : sc_ok sc -> sc_height sc <= i -> i <= maxHeight sc -> exists id, owner sc i id.
Proof.
  intros Hok Hi Hm. destruct (so_height _ Hok). unfold maxHeight in Hm. rewrite wrap64_id in Hm by (unfold_ints; unfold targetPending in *; lia).
  destruct (foldr_max_in (ready_heights sc) (sc_height sc - 1)) as [E|E]; [lia|].
  apply ready_heights_spec in E as (id & p & Hl & Hr & Hh). exists id, p. split_and!; [done|done|lia].
Qed.

Lemma new_loop_ok n i sc :
  sc_ok sc -> sc_height sc <= i -> i + Z.of_nat n <= sc_height sc + targetPending ->
  exists sc', new_loop i n sc = (Ok tt, sc') /\ sc_ok sc' /\ sc_height sc' = sc_height sc /\ sc_initHeight sc' = sc_initHeight sc /\
    sc_peers sc' = sc_peers sc.
Proof.
  revert i sc. induction n as [|n IH]; intros i sc Hok Hi Hn; [by exists sc|]. cbn [new_loop].
  unfold mbind at 1, gom_bind at 1, gget. destruct (Z.ltb_spec (maxHeight sc) i) as [|Hm]; [by exists sc|].
  assert (Hnext : i +i64 1 = i + 1).
  { apply wrap64_id. destruct (so_height _ Hok). unfold_ints. unfold targetPending in *. lia. }
  unfold getStateAtHeight. destruct (Z.ltb_spec i (sc_height sc)); [lia|].
  destruct (sc_blockStates sc !! i) as [s|] eqn:Es; cbn [default].
  - rewrite bool_decide_false by (destruct (so_window _ Hok _ _ Es) as (_ & [-> | [-> | ->]] & _); done).
    unfold mbind, gom_bind, mret, gom_ret. rewrite Hnext. apply IH; [done|lia|lia].
  - rewrite bool_decide_true by done. unfold setStateAtHeight, gmodify, mbind, gom_bind. rewrite Hnext.
    match goal with |- context [new_loop _ _ ?sc1] => destruct (IH (i + 1) sc1) as (sc' & -> & Hok' & E1 & E2 & E3) end; cbn; try lia; [|by exists sc'].
    apply set_new_ok; [done|lia|done|]. by apply max_owner.
Qed.

Lemma addNewBlocks_ok sc :
  sc_ok sc -> exists sc', addNewBlocks sc = (Ok tt, sc') /\ sc_ok sc' /\ sc_height sc' = sc_height sc /\ sc_initHeight sc' = sc_initHeight sc /\
    sc_peers sc' = sc_peers sc.
Proof.
  intros Hok. unfold addNewBlocks, mbind, gom_bind, gget. case_match; [by exists sc|]. destruct (so_height _ Hok).
  rewrite wrap64_id by (unfold_ints; unfold targetPending in *; lia). apply new_loop_ok; [done|lia|]. unfold targetPending in *. lia.
Qed.

Lemma setPeerRange_ok id base height sc :
  sc_ok sc -> exists r sc', setPeerRange id base height sc = (r, sc') /\ r <> Panic /\ sc_ok sc' /\ sc_height sc' = sc_height sc.
Proof.
  intros Hok. unfold setPeerRange. destruct (ensurePeer_ok id sc Hok) as (p & sc1 & He & Hok1 & Hp & Eh & _). rewrite (gbind_step _ _ _ _ _ He).
  case_bool_decide as Hs; [eexists _, sc1; by split_and!|].
  destruct (removePeer_ok id sc1 Hok1) as (sc2 & Hr & Hok2 & Eh2 & _).
  destruct (Z.ltb_spec height (sp_height p)) as [|Hle]; [rewrite (gbind_step _ _ _ _ _ Hr); eexists _, sc2; split_and!; [reflexivity|done|done|congruence]|].
  destruct (Z.ltb_spec height base); [rewrite (gbind_step _ _ _ _ _ Hr); eexists _, sc2; split_and!; [reflexivity|done|done|congruence]|].
  unfold gmodify, mbind, gom_bind. match goal with |- context [addNewBlocks ?sc3] => destruct (addNewBlocks_ok sc3) as (sc4 & Ha & Hok4 & Eh4 & _) end.
  - apply peers_ok; [done|]. apply owner_insert. intros q Hq. assert (q = p) as -> by congruence. done.
  - rewrite Ha. eexists _, sc4. split_and!; [reflexivity|done|done|]. cbn in Eh4. congruence.
Qed.

Lemma markReceived_ok id height size now sc :
  sc_ok sc -> exists r sc', markReceived id height size now sc = (r, sc') /\ r <> Panic /\ sc_ok sc' /\ sc_height sc' = sc_height sc /\
    (r = Ok tt -> sc_height sc <= height /\ sc_pendingBlocks sc !! height = Some id /\ sc_receivedBlocks sc !! height = None /\
       sc_pendingBlocks sc' !! height = None /\ sc_receivedBlocks sc' !! height = Some id).
Proof.
  intros Hok. unfold markReceived, mbind, gom_bind, gget.
  destruct (bool_decide (getStateAtHeight sc height = blockStatePending)) eqn:E1; cbn [negb orb]; [|eexists _, sc; by split_and!].
  destruct (bool_decide (default [] (sc_pendingBlocks sc !! height) = id)) eqn:E2; cbn [negb]; [|eexists _, sc; by split_and!].
  apply bool_decide_eq_true in E1, E2. unfold getStateAtHeight in E1. destruct (Z.ltb_spec height (sc_height sc)) as [|Hge]; [done|].
  destruct (sc_blockStates sc !! height) as [s|] eqn:Es; cbn in E1; [subst s|done].
  destruct (proj1 (so_pending _ Hok height) Es) as [j Hj]. rewrite Hj in E2. cbn in E2. subst j.
  destruct (sc_pendingTime sc !! height) as [t|]; [|eexists _, sc; by split_and!].
  destruct (time_Sub now t <=? 0); [eexists _, sc; by split_and!|].
  assert (Hr : sc_receivedBlocks sc !! height = None).
  { destruct (sc_receivedBlocks sc !! height) eqn:Er; [|done]. assert (sc_blockStates sc !! height = Some blockStateReceived) by (apply so_received; eauto). congruence. }
  destruct (so_owner _ Hok height id) as (p & Hp & Hready & Hh); [by left|]. rewrite Hp. cbn [default].
  eexists _, _. split; [reflexivity|]. split; [done|].
  split; [|split; [done|intros _; cbn; by rewrite lookup_delete_eq, lookup_insert_eq]].
  match goal with |- sc_ok (set_blocks ?sc1 _ _ _ _) => assert (Hok1 : sc_ok sc1) end.
  { apply peers_ok; [done|]. apply owner_insert. cbn. intros q Hq. assert (q = p) as -> by congruence. done. }
  destruct Hok1 as [K1 K2 K3 K4 K5 K6]. cbn in *. constructor; cbn; try done.
  - intros h s [[<- <-]|[Hne Hs]]%lookup_insert_Some; [|by apply K2]. destruct (K2 _ _ Es) as (Hw & _ & Ho). auto.
  - intros h. destruct (decide (h = height)) as [->|]; [rewrite lookup_insert_eq, lookup_delete_eq|rewrite lookup_insert_ne, lookup_delete_ne by done; apply K3].
    split; [done|]. by intros [].
  - intros h. destruct (decide (h = height)) as [->|]; [rewrite !lookup_insert_eq; naive_solver|rewrite !lookup_insert_ne by done; apply K4].
  - intros h. destruct (decide (h = height)) as [->|]; [rewrite !lookup_delete_eq; done|rewrite !lookup_delete_ne by done; apply K5].
  - intros h j [[_ Hj']%lookup_delete_Some|[[<- <-]|[_ Hj']]%lookup_insert_Some]; apply K6; auto.
Qed.

Lemma markProcessed_ok now sc :
  sc_ok sc -> sc_height sc + 1 <= int64_max - targetPending ->
  exists sc', markProcessed now (sc_height sc) sc = (Ok tt, sc') /\ sc_ok sc' /\ sc_height sc' = sc_height sc + 1.
Proof.
  intros Hok Hb. destruct (so_height _ Hok). unfold markProcessed, gmodify, mbind, gom_bind.
  rewrite wrap64_id by (unfold_ints; unfold targetPending in *; lia).
  match goal with |- context [addNewBlocks ?sc1] => destruct (addNewBlocks_ok sc1) as (sc4 & Ha & Hok4 & Eh4 & _) end; [|by exists sc4].
  destruct Hok as [K1 K2 K3 K4 K5 K6]. constructor; cbn; try done; [lia|..].
  - intros h s [Hne Hs]%lookup_delete_Some. destruct (K2 _ _ Hs) as (Hw & Hs' & Ho). split; [lia|done].
  - intros h. destruct (decide (h = sc_height sc)) as [->|]; [rewrite !lookup_delete_eq|rewrite !lookup_delete_ne by done; apply K3].
    split; [done|by intros []].
  - intros h. destruct (decide (h = sc_height sc)) as [->|]; [rewrite !lookup_delete_eq|rewrite !lookup_delete_ne by done; apply K4].
    split; [done|by intros []].
  - intros h. destruct (decide (h = sc_height sc)) as [->|]; [rewrite !lookup_delete_eq; done|rewrite !lookup_delete_ne by done; apply K5].
  - intros h j [[_ Hj']%lookup_delete_Some|[_ Hj']%lookup_delete_Some]; apply K6; auto.
Qed.

Lemma remove_peers_ok ids sc :
  sc_ok sc -> exists sc', remove_peers ids sc = (Ok tt, sc') /\ sc_ok sc' /\ sc_height sc' = sc_height sc.
Proof.
  revert sc. induction ids as [|id ids IH]; intros sc Hok; [by exists sc|]. destruct (removePeer_ok id sc Hok) as (sc1 & Hr & Hok1 & Eh & _).
  cbn [remove_peers]. rewrite (gbind_step _ _ _ _ _ Hr). destruct (IH sc1 Hok1) as (sc2 & -> & Hok2 & Eh2). exists sc2. split_and!; [done|done|congruence].
Qed.

(** ** Choosing what to ask for, and whom *)

Lemma foldr_min_le (l : list Z) d : foldr Z.min d l <= d /\ (forall x, x ∈ l -> foldr Z.min d l <= x) /\ (foldr Z.min d l = d \/ foldr Z.min d l ∈ l).
Proof.
  induction l as [|y l (IH1 & IH2 & IH3)]; cbn; [split_and!; [lia|by intros x ?%elem_of_nil|by left]|]. split_and!; [lia| |].
  - intros x [->|Hx]%elem_of_cons; [lia|]. specialize (IH2 x Hx). lia.
  - destruct (Z.min_spec y (foldr Z.min d l)) as [[_ ->]|[_ ->]]; [right; apply list_elem_of_here|].
    destruct IH3 as [IH3|IH3]; [by left|right; by apply list_elem_of_further].
Qed.

Lemma next_height sc h :
  nextHeightToSchedule sc = h -> h <> -1 ->
  sc_blockStates sc !! h = Some blockStateNew /\ forall h', sc_blockStates sc !! h' = Some blockStateNew -> h <= h'.
Proof.
  unfold nextHeightToSchedule. set (news := omap _ _). intros Hn Hne.
  assert (Hin : forall h', h' ∈ news <-> sc_blockStates sc !! h' = Some blockStateNew).
  { intros h'. unfold news. rewrite list_elem_of_omap. split.
    - intros ([h1 s] & Hl%elem_of_map_to_list & Hs). case_bool_decide; naive_solver.
    - intros Hl. exists (h', blockStateNew). by rewrite elem_of_map_to_list. }
  destruct (foldr_min_le news int64_max) as (_ & Hle & Hor). destruct (Z.eqb_spec (foldr Z.min int64_max news) int64_max); [congruence|].
  subst h. destruct Hor as [|Hm]; [done|]. split; [by apply Hin|]. intros h' Hh. by apply Hle, Hin.
Qed.

(** A peer that may be asked for a block. *)
Definition serves (sc : scheduler) (h : Z) (id : ID) : Prop :=
  exists p, sc_peers sc !! id = Some p /\ sp_state p = peerStateReady /\ sp_base p <= h <= sp_height p.

Lemma getPeersWithHeight_spec sc h id : id ∈ getPeersWithHeight sc h <-> serves sc h id.
Proof.
  unfold getPeersWithHeight. rewrite list_elem_of_omap. split.
  - intros ([id' p] & Hl%elem_of_map_to_list & Hp). unfold ready in Hp. case_bool_decide; [|done]. cbn [andb] in Hp.
    destruct (Z.leb_spec (sp_base p) h), (Z.leb_spec h (sp_height p)); try done. injection Hp as <-. by exists p.
  - intros (p & Hl & Hr & H1 & H2). exists (id, p). rewrite elem_of_map_to_list. split; [done|]. unfold ready.
    rewrite bool_decide_true by done. apply Z.leb_le in H1, H2. by rewrite H1, H2.
Qed.

Lemma selectPeer_spec sc h id :
  selectPeer sc h = Ok id ->
  serves sc h id /\ forall j, serves sc h j -> lenZ (pendingFrom sc id) <= lenZ (pendingFrom sc j).
Proof.
  unfold selectPeer. set (m := foldr Z.min _ _). destruct (sort_by _ _) as [|id' l] eqn:E; [done|]. intros [= <-].
  assert (Hin : id' ∈ filter (fun id => lenZ (pendingFrom sc id) = m) (getPeersWithHeight sc h)).
  { rewrite <- (sort_by_perm bytes_ltb), E. apply list_elem_of_here. }
  apply list_elem_of_filter in Hin as [Hm Hin]. split; [by apply getPeersWithHeight_spec|]. intros j Hj%getPeersWithHeight_spec.
  rewrite Hm. destruct (foldr_min_le ((fun id => lenZ (pendingFrom sc id)) <$> getPeersWithHeight sc h) int64_max) as (_ & Hle & _).
  apply Hle. apply list_elem_of_fmap. by exists j.
Qed.

Lemma omap_length_le {A B} (f : A -> option B) l : (length (omap f l) <= length l)%nat.
Proof. induction l as [|x l IH]; cbn; [done|]. destruct (f x); cbn; lia. Qed.

(** The window bounds what is kept. *)
Lemma window_size sc : sc_ok sc -> Z.of_nat (size (sc_blockStates sc)) <= targetPending.
Proof.
  intros Hok. rewrite <- size_dom. assert (Hs : dom (sc_blockStates sc) ⊆ list_to_set (C:=gset Z) (seqZ (sc_height sc) targetPending)).
  { intros h [s Hs]%elem_of_dom. apply elem_of_list_to_set, elem_of_seqZ. by apply (so_window _ Hok) in Hs as [? _]. }
  apply subseteq_size in Hs. pose proof (size_list_to_set (C:=gset Z) (seqZ (sc_height sc) targetPending) (NoDup_seqZ _ _)) as Hl.
  rewrite length_seqZ in Hl. unfold targetPending in *. lia.
Qed.

Lemma pendingFrom_short sc id : sc_ok sc -> lenZ (pendingFrom sc id) <= targetPending.
Proof.
  intros Hok. pose proof (window_size sc Hok) as Hw. enough (Hl : (length (pendingFrom sc id) <= size (sc_blockStates sc))%nat) by (unfold lenZ; lia).
  transitivity (size (sc_pendingBlocks sc)).
  - unfold pendingFrom. rewrite <- length_map_to_list. apply omap_length_le.
  - rewrite <- !size_dom. apply subseteq_size. intros h [j Hj]%elem_of_dom. apply elem_of_dom. exists blockStatePending. apply (so_pending _ Hok). eauto.
Qed.

Lemma selectPeer_some sc h j : sc_ok sc -> serves sc h j -> exists id, selectPeer sc h = Ok id.
Proof.
  intros Hok Hj%getPeersWithHeight_spec. unfold selectPeer. set (m := foldr Z.min _ _).
  assert (Hm : exists id, id ∈ filter (fun id => lenZ (pendingFrom sc id) = m) (getPeersWithHeight sc h)).
  { destruct (foldr_min_le ((fun id => lenZ (pendingFrom sc id)) <$> getPeersWithHeight sc h) int64_max) as (_ & Hle & Hor). fold m in Hle, Hor.
    destruct Hor as [Hm|(id & Hid & Hin)%list_elem_of_fmap].
    - pose proof (pendingFrom_short sc j Hok). unfold targetPending, int64_max in *.
      assert (m <= lenZ (pendingFrom sc j)) by (apply Hle, list_elem_of_fmap; by exists j). lia.
    - exists id. by apply list_elem_of_filter. }
  destruct Hm as [id Hid]. rewrite <- (sort_by_perm bytes_ltb) in Hid. destruct (sort_by _ _) as [|i l]; [by apply elem_of_nil in Hid|by exists i].
Qed.

(** What a request means. *)
Record requested (sc sc' : scheduler) (id : ID) (h : Z) : Prop := {
  rq_new : sc_blockStates sc !! h = Some blockStateNew;
  rq_free : sc_pendingBlocks sc !! h = None /\ sc_receivedBlocks sc !! h = None;
  rq_lowest h' : sc_blockStates sc !! h' = Some blockStateNew -> h <= h';
  rq_serves : serves sc h id;
  rq_fewest j : serves sc h j -> lenZ (pendingFrom sc id) <= lenZ (pendingFrom sc j);
  rq_asked : sc_pendingBlocks sc' = <[h := id]> (sc_pendingBlocks sc)
}.

Lemma handleTrySchedule_ok now time sc :
  sc_ok sc -> exists out sc', handleTrySchedule now time sc = (Ok out, sc') /\ sc_ok sc' /\ sc_height sc' = sc_height sc /\
    ((out = scFinishedEv /\ sc' = sc) \/ (out = noOp /\ sc' = sc) \/ (exists id h, out = scBlockRequest id h /\ requested sc sc' id h) \/
     (out = scSchedulerFail /\ sc' = sc /\ exists h, sc_blockStates sc !! h = Some blockStateNew /\ forall id, ~ serves sc h id)).
Proof.
  intros Hok. unfold handleTrySchedule. unfold mbind at 1, gom_bind at 1, gget. case_match; [eexists _, sc; split_and!; [reflexivity|done|done|auto]|].
  destruct (Z.eqb_spec (nextHeightToSchedule sc) (-1)) as [|Hne]; [eexists _, sc; split_and!; [reflexivity|done|done|auto]|].
  destruct (next_height sc _ eq_refl Hne) as [Hnew Hlow]. set (h := nextHeightToSchedule sc) in *.
  destruct (selectPeer sc h) as [id|e|] eqn:Es.
  2,3: eexists _, sc; split_and!; [reflexivity|done|done|do 3 right; split_and!; [done|done|exists h; split; [done|]]];
    intros id Hid; destruct (selectPeer_some sc h id Hok Hid); congruence.
  destruct (selectPeer_spec _ _ _ Es) as [Hserve Hfew]. pose proof Hserve as (p & Hp & Hr & Hb & Hh).
  destruct (so_window _ Hok _ _ Hnew) as ([Hw Hw'] & _).
  assert (Hmark : markPending id h time sc = (Ok tt, set_blocks sc (<[h := blockStatePending]> (sc_blockStates sc)) (<[h := id]> (sc_pendingBlocks sc))
    (<[h := time]> (sc_pendingTime sc)) (sc_receivedBlocks sc))).
  { unfold markPending, mbind, gom_bind, gget. unfold getStateAtHeight. destruct (Z.ltb_spec h (sc_height sc)); [lia|]. rewrite Hnew. cbn [default].
    rewrite bool_decide_true by done. cbn [negb]. rewrite Hp. unfold ready. rewrite bool_decide_true by done. cbn [negb].
    destruct (Z.ltb_spec (sp_height p) h); [lia|]. destruct (Z.ltb_spec h (sp_base p)); [lia|done]. }
  unfold caught, mbind, gom_bind. rewrite Hmark. eexists _, _. split; [reflexivity|].
  assert (Hfree : sc_pendingBlocks sc !! h = None /\ sc_receivedBlocks sc !! h = None).
  { split; apply eq_None_not_Some; [intros Hx%(so_pending _ Hok)|intros Hx%(so_received _ Hok)]; congruence. }
  split_and!; [|done|right; right; left; exists id, h; by split].
  destruct Hok as [K1 K2 K3 K4 K5 K6]. constructor; cbn; try done.
  - intros h' s [[<- <-]|[_ Hs]]%lookup_insert_Some; [|by apply K2]. destruct (K2 _ _ Hnew) as (Hx & _ & Ho). auto.
  - intros h'. destruct (decide (h' = h)) as [->|]; [rewrite !lookup_insert_eq; naive_solver|rewrite !lookup_insert_ne by done; apply K3].
  - intros h'. rewrite <- K4. destruct (decide (h' = h)) as [->|]; [rewrite lookup_insert_eq, Hnew; done|by rewrite lookup_insert_ne].
  - intros h'. destruct (decide (h' = h)) as [->|]; [rewrite !lookup_insert_eq; naive_solver|rewrite !lookup_insert_ne by done; apply K5].
  - intros h' j [[[<- <-]|[_ Hj]]%lookup_insert_Some|Hj]; [exists p; split_and!; [done|done|lia]|apply K6; auto..].
Qed.

(** ** The scheduler over all events *)

(** The events of peers, of the timers, and of a processor that reports the next
    block or a failure. *)
Definition admissible (sc : scheduler) (event : Event) : Prop :=
  match event with
  | rTryPrunePeer _ | rTrySchedule _ | pcBlockVerificationFailure _ _ _ => True
  | pcBlockProcessed h _ => h = sc_height sc /\ h + 1 <= int64_max - targetPending
  | _ => demux_peer event <> []
  end.

(** The events the scheduler has a handler for. *)
Definition routed (event : Event) : bool :=
  match event with
  | bcResetState _ | bcStatusResponse _ _ _ | bcBlockResponse _ _ _ _ | bcNoBlockResponse _ _ | rTrySchedule _ | bcAddNewPeer _ | bcRemovePeer _
  | rTryPrunePeer _ | pcBlockProcessed _ _ | pcBlockVerificationFailure _ _ _ => true
  | _ => false
  end.

(** A state is reset only before anything else: [startSync] sends it before it
    starts [demux].  Any other event may come at any time; heights stay away from
    the largest integer. *)
Inductive scheduled : scheduler -> Prop :=
| scheduled_new height now : 1 <= height <= int64_max - targetPending -> scheduled (newScheduler height now)
| scheduled_reset height start now state out sc :
    scheduler_handle now (bcResetState state) (newScheduler height start) = (Ok out, sc) ->
    1 <= reset_height state <= int64_max - targetPending -> scheduled sc
| scheduled_event sc now event out sc' :
    scheduled sc -> (forall state, event <> bcResetState state) -> sc_height sc < int64_max - targetPending ->
    scheduler_handle now event sc = (Ok out, sc') -> scheduled sc'.

(** What an event does: it keeps the invariant; a request is one for a block
    nobody was asked for; a block that is passed on was asked for. *)
Record handled (sc : scheduler) (event out : Event) (sc' : scheduler) : Prop := {
  hd_ok : sc_ok sc';
  hd_height : sc_height sc' = match event with pcBlockProcessed h _ => h + 1 | _ => sc_height sc end;
  hd_request id h : out = scBlockRequest id h -> requested sc sc' id h;
  hd_receive id block : out = scBlockReceived id block ->
    exists b time size, block = Some b /\ event = bcBlockResponse time id size b /\ sc_height sc <= h_Height (b_Header b) /\
      sc_pendingBlocks sc !! h_Height (b_Header b) = Some id /\ sc_receivedBlocks sc !! h_Height (b_Header b) = None /\
      sc_receivedBlocks sc' !! h_Height (b_Header b) = Some id;
  hd_fail : out = scSchedulerFail -> exists h, sc_blockStates sc !! h = Some blockStateNew /\ forall id, ~ serves sc h id
}.

Lemma finished_or_run event sc : finished_or event sc = (Ok (if allBlocksProcessed sc then scFinishedEv else event), sc).
Proof. done. Qed.

(** Events that neither ask for a block nor pass one on. *)
Lemma handled_quiet sc event out sc' :
  sc_ok sc' -> sc_height sc' = match event with pcBlockProcessed h _ => h + 1 | _ => sc_height sc end ->
  (forall id h, out <> scBlockRequest id h) -> (forall id b, out <> scBlockReceived id b) -> out <> scSchedulerFail -> handled sc event out sc'.
Proof. intros Hok Hh H1 H2 H3. constructor; [done|done|naive_solver..]. Qed.

Ltac quiet sc' := eexists _, sc'; split; [reflexivity|apply handled_quiet; cbn [sc_height]; try congruence; try done; by destruct (allBlocksProcessed _)].

Lemma caught_step {S E A B} (m : GoM S E A) (f : E + A -> GoM S E B) s r s1 :
  m s = (r, s1) -> (caught m ≫= f) s = match r with Ok a => f (inr a) s1 | Err e => f (inl e) s1 | Panic => (Panic, s1) end.
Proof. intros Hm. unfold caught, mbind, gom_bind. rewrite Hm. by destruct r. Qed.

Lemma touchPeer_run id time sc :
  exists r sc1, touchPeer id time sc = (r, sc1) /\ r <> Panic /\
    (r = Ok tt -> exists p, sc_peers sc !! id = Some p /\ sp_state p = peerStateReady /\
       sc1 = set_peers sc (<[id := mkScPeer (sp_state p) (sp_base p) (sp_height p) time (sp_lastRate p)]> (sc_peers sc))) /\
    (r <> Ok tt -> sc1 = sc).
Proof.
  unfold touchPeer, mbind, gom_bind, gget. destruct (sc_peers sc !! id) as [p|] eqn:Ep; [|by eexists _, sc].
  unfold ready. case_bool_decide; cbn [negb]; [|by eexists _, sc]. eexists _, _. split_and!; [reflexivity|done| |done]. intros _. by exists p.
Qed.

Lemma handleBlockResponse_ok time id size b sc :
  sc_ok sc -> exists out sc', handleBlockResponse time id size b sc = (Ok out, sc') /\ handled sc (bcBlockResponse time id size b) out sc'.
Proof.
  intros Hok. unfold handleBlockResponse. destruct (touchPeer_run id time sc) as (r & sc1 & Ht & Hr & Hsome & Hnone).
  rewrite (caught_step _ _ _ _ _ Ht). destruct r as [[]|e|]; [|rewrite Hnone by done; quiet sc|done].
  destruct (Hsome eq_refl) as (p & Ep & Er & ->). clear Ht Hsome Hnone. set (sc1 := set_peers _ _). assert (Hok1 : sc_ok sc1).
  { apply peers_ok; [done|]. apply owner_insert. intros q Hq. assert (q = p) as -> by congruence. done. }
  destruct (markReceived_ok id (h_Height (b_Header b)) size time sc1 Hok1) as (r & sc2 & Hm & Hr2 & Hok2 & Eh & Hrec). rewrite (caught_step _ _ _ _ _ Hm).
  destruct r as [[]|e|]; [| |done].
  - destruct (Hrec eq_refl) as (? & ? & ? & ? & ?). eexists _, sc2. split; [reflexivity|]. constructor; [done|done|done| |done].
    intros id' b' [= <- <-]. exists b, time, size. split_and!; done.
  - destruct (removePeer_ok id sc2 Hok2) as (sc3 & Hre & Hok3 & Eh3 & _). rewrite (gbind_step _ _ _ _ _ Hre).
    assert (sc_height sc3 = sc_height sc) by (rewrite Eh3, Eh; done). quiet sc3.
Qed.

Lemma handle_ok now event sc :
  sc_ok sc -> admissible sc event -> exists out sc', scheduler_handle now event sc = (Ok out, sc') /\ handled sc event out sc'.
Proof.
  intros Hok Ha. destruct event as [|time|time| |time id size b|id h|id base h|id|id|st| |id h|id b|id|ids| |h id1 id2|h id|n st];
    cbn [scheduler_handle admissible demux_peer] in *; try done.
  - unfold handleTryPrunePeer. rewrite (gbind_step gget _ sc sc sc eq_refl).
    match goal with |- context [(?m ≫= _) sc] => assert (Hm : exists sc1, m sc = (Ok tt, sc1) /\ sc_ok sc1 /\ sc_height sc1 = sc_height sc) end.
    { destruct (sc_pendingTime sc !! sc_height sc) as [t|]; [|by exists sc]. case_match; [|by exists sc].
      destruct (removePeer_ok (default [] (sc_pendingBlocks sc !! sc_height sc)) sc Hok) as (sc1 & ? & ? & ? & _). by exists sc1. }
    destruct Hm as (sc1 & Hm & Hok1 & Eh1). rewrite (gbind_step _ _ _ _ _ Hm), (gbind_step gget _ sc1 sc1 sc1 eq_refl).
    destruct (prunablePeers sc1 peerTimeout minRecvRate time) as [|x l] eqn:Ep; [quiet sc1|].
    destruct (remove_peers_ok (x :: l) sc1 Hok1) as (sc2 & Hre & Hok2 & Eh2). rewrite (gbind_step _ _ _ _ _ Hre), finished_or_run. quiet sc2.
  - destruct (handleTrySchedule_ok now time sc Hok) as (out & sc' & Hh & Hok' & Eh & Hout). exists out, sc'. split; [done|].
    constructor; [done|done|naive_solver..|]. intros ->. destruct Hout as [[? _]|[[? _]|[(? & ? & ? & _)|(_ & _ & Hx)]]]; done.
  - by apply handleBlockResponse_ok.
  - unfold handleNoBlockResponse. rewrite (gbind_step gget _ sc sc sc eq_refl). destruct (sc_peers sc !! id); [|quiet sc].
    case_bool_decide; [quiet sc|]. destruct (removePeer_ok id sc Hok) as (sc1 & Hre & ? & ? & _). rewrite (gbind_step _ _ _ _ _ Hre). quiet sc1.
  - unfold handleStatusResponse. destruct (setPeerRange_ok id base h sc Hok) as (r & sc1 & Hs & Hr & ? & ?). rewrite (caught_step _ _ _ _ _ Hs).
    destruct r; [quiet sc1|quiet sc1|done].
  - unfold handleAddNewPeer. destruct (ensurePeer_ok id sc Hok) as (p & sc1 & He & ? & _ & ? & _). rewrite (gbind_step _ _ _ _ _ He). quiet sc1.
  - unfold handleRemovePeer. destruct (removePeer_ok id sc Hok) as (sc1 & Hre & ? & ? & _). rewrite (gbind_step _ _ _ _ _ Hre), finished_or_run. quiet sc1.
  - unfold handleBlockProcessError. destruct (removePeer_ok id1 sc Hok) as (sc1 & Hre & Hok1 & ? & _). rewrite (gbind_step _ _ _ _ _ Hre).
    case_bool_decide; cbn [negb]; [rewrite (gbind_step (mret tt) _ sc1 tt sc1 eq_refl), finished_or_run; quiet sc1|].
    destruct (removePeer_ok id2 sc1 Hok1) as (sc2 & Hre2 & ? & ? & _). rewrite (gbind_step _ _ _ _ _ Hre2), finished_or_run. quiet sc2.
  - destruct Ha as [-> Hb]. unfold handleBlockProcessed. rewrite (gbind_step gget _ sc sc sc eq_refl), Z.eqb_refl. cbn [negb].
    destruct (markProcessed_ok now sc Hok Hb) as (sc1 & Hm & ? & ?). rewrite (gbind_step _ _ _ _ _ Hm), finished_or_run. quiet sc1.
Qed.

(** Any event: the report of a block other than the next one is a panic, an event
    without a handler fails and changes nothing, the others are handled. *)
Definition answered (now : Time) (event : Event) (sc : scheduler) : Prop :=
  (exists h id, event = pcBlockProcessed h id /\ h <> sc_height sc /\ fst (scheduler_handle now event sc) = Panic) \/
  (routed event = false /\ scheduler_handle now event sc = (Ok scSchedulerFail, sc)) \/
  (routed event = true /\ exists out sc', scheduler_handle now event sc = (Ok out, sc') /\ handled sc event out sc').

Lemma event_answered now event sc :
  sc_ok sc -> (forall state, event <> bcResetState state) -> sc_height sc < int64_max - targetPending -> answered now event sc.
Proof.
  intros Hok Hne Hmax. destruct (routed event) eqn:Er; [|right; left; split; [done|by destruct event]].
  assert (Hcase : (exists h id, event = pcBlockProcessed h id /\ h <> sc_height sc) \/ admissible sc event).
  { destruct event; cbn in Er |- *; try done; try (by right); [by edestruct Hne|].
    destruct (decide (height = sc_height sc)) as [->|]; [right; split; [done|lia]|left; eauto]. }
  destruct Hcase as [(h & id & -> & Hh)|Ha]; [left; exists h, id|right; right; split; [done|by apply handle_ok]].
  split_and!; [done|done|]. cbn [scheduler_handle]. unfold handleBlockProcessed. rewrite (gbind_step gget _ sc sc sc eq_refl).
  by rewrite (proj2 (Z.eqb_neq _ _) Hh).
Qed.

Lemma scheduled_ok sc : scheduled sc -> sc_ok sc.
Proof.
  induction 1 as [height now Hh|height start now state out sc Hr Hh|sc now event out sc' _ IH Hne Hmax Hh]; [by apply new_ok| |].
  - destruct (addNewBlocks_ok _ (new_ok _ now Hh)) as (sc1 & Ha & Hok & _).
    unfold scheduler_handle, handleResetState in Hr. apply gbind_Ok in Hr as ([] & s1 & Hs1 & Hr).
    injection Hs1 as <-. fold (newScheduler (reset_height state) now) in Hr. rewrite (gbind_step _ _ _ _ _ Ha) in Hr. by injection Hr as _ <-.
  - destruct (event_answered now event sc IH Hne Hmax) as [(h & id & _ & _ & Hp)|[[_ Hf]|(_ & out' & sc1 & Hh' & Hd)]].
    + by rewrite Hh in Hp.
    + by assert (sc' = sc) as -> by congruence.
    + assert (sc1 = sc') as <- by congruence. apply Hd.
Qed.

(** ** The theorems *)

(** C17: the scheduler of fast sync keeps its promises over any sequence of
    events, in which a state is reset only at the start and heights stay below the
    largest integer.  The report of a processed block other than the next one makes
    it panic; an event it has no handler for is answered with a failure and changes
    nothing; every other event is answered.  It tracks at most [targetPending]
    blocks, all at or above the next one to process and each claimed by a peer that
    is ready; it asks for a block only while nobody is being asked for it and nobody
    sent it, the lowest such block first, and asks a peer that has it and has the
    fewest requests open; it fails to schedule only if no ready peer has the
    block; and it passes on only blocks it had asked that peer for. *)
Theorem scheduler_sound sc now event :
  scheduled sc -> (forall state, event <> bcResetState state) -> sc_height sc < int64_max - targetPending ->
  Z.of_nat (size (sc_blockStates sc)) <= targetPending /\ answered now event sc.
Proof. intros Hok%scheduled_ok Hne Hmax. split; [by apply window_size|by apply event_answered]. Qed.

Lemma scheduler_sound_witness :
  exists out sc', scheduler_handle 5 (bcStatusResponse [1] 1 20) (newScheduler 1 0) = (Ok out, sc') /\
    handled (newScheduler 1 0) (bcStatusResponse [1] 1 20) out sc' /\ size (sc_blockStates sc') = 10%nat.
Proof.
  destruct (scheduler_sound (newScheduler 1 0) 5 (bcStatusResponse [1] 1 20)) as (_ & [(h & id & Hp & _)|[[Hr _]|(_ & out & sc' & Hh & Hd)]]);
    [apply scheduled_new; vm_compute; done|done|vm_compute; done|done|done|].
  exists out, sc'. split; [exact Hh|]. split; [exact Hd|].
  assert (Hs : size (sc_blockStates (snd (scheduler_handle 5 (bcStatusResponse [1] 1 20) (newScheduler 1 0)))) = 10%nat) by (vm_compute; reflexivity).
  rewrite Hh in Hs. exact Hs.
Defined.

(** ** Dropping peers *)

(** A peer that was removed stays removed, and the others are left alone. *)
Lemma removePeer_peers id sc sc' j :
  removePeer id sc = (Ok tt, sc') ->
  sc_peers sc' !! j = (fun p => if decide (j = id) then mkScPeer peerStateRemoved (sp_base p) (sp_height p) (sp_lastTouched p) (sp_lastRate p) else p) <$> sc_peers sc !! j.
Proof.
  unfold removePeer, mbind, gom_bind, gget. destruct (sc_peers sc !! id) as [p|] eqn:Ep.
  2: { intros [= <-]. case_decide; subst; [by rewrite Ep|]. by destruct (sc_peers sc !! j). }
  case_bool_decide as Hs.
  - intros [= <-]. case_decide; subst; [rewrite Ep; cbn; rewrite <- Hs; by destruct p|by destruct (sc_peers sc !! j)].
  - intros [= <-]. cbn. case_decide; subst; [by rewrite lookup_insert_eq, Ep|]. rewrite lookup_insert_ne by done. by destruct (sc_peers sc !! j).
Qed.

Definition is_removed (sc : scheduler) (id : ID) : Prop := exists p, sc_peers sc !! id = Some p /\ sp_state p = peerStateRemoved.

Lemma removePeer_removed id sc sc' j :
  removePeer id sc = (Ok tt, sc') -> is_removed sc j \/ (j = id /\ is_Some (sc_peers sc !! j)) -> is_removed sc' j.
Proof.
  intros Hr. unfold is_removed. rewrite (removePeer_peers _ _ _ j Hr). intros [(p & -> & Hs)|[-> [p ->]]].
  - cbn. eexists. split; [done|]. by case_decide.
  - cbn. eexists. split; [done|]. by rewrite decide_True.
Qed.

Lemma removePeer_total id sc : exists sc', removePeer id sc = (Ok tt, sc').
Proof. unfold removePeer, mbind, gom_bind, gget. destruct (sc_peers sc !! id); [|by eexists]. case_bool_decide; by eexists. Qed.

Lemma remove_peers_removed ids sc :
  exists sc', remove_peers ids sc = (Ok tt, sc') /\ forall j, is_removed sc j \/ (j ∈ ids /\ is_Some (sc_peers sc !! j)) -> is_removed sc' j.
Proof.
  revert sc. induction ids as [|id ids IH]; intros sc.
  - exists sc. split; [done|]. intros j [Hr|[[]%elem_of_nil _]]. done.
  - destruct (removePeer_total id sc) as [sc1 Hr]. destruct (IH sc1) as (sc2 & Hs & Hall). exists sc2. cbn [remove_peers]. rewrite (gbind_step _ _ _ _ _ Hr).
    split; [done|]. intros j Hj. apply Hall. destruct Hj as [Hj|[[->|Hj]%elem_of_cons Hp]].
    + left. eapply removePeer_removed; [exact Hr|by left].
    + left. eapply removePeer_removed; [exact Hr|by right].
    + right. split; [done|]. rewrite (removePeer_peers _ _ _ j Hr). by destruct Hp as [p ->].
Qed.

(** A peer that is ready but was not touched is removed at the next pruning,
    although it was never asked for anything: [lastTouched] starts as the zero time
    and only a block touches a peer, so that the peer seems to be silent since the
    year 1. *)
Theorem fresh_peer_pruned now time id p sc :
  sc_peers sc !! id = Some p -> sp_state p = peerStateReady -> sp_lastTouched p = 0 -> peerTimeout < time ->
  exists out sc', scheduler_handle now (rTryPrunePeer time) sc = (Ok out, sc') /\ is_removed sc' id.
Proof.
  intros Hp Hr Ht Htime. cbn [scheduler_handle]. unfold handleTryPrunePeer. rewrite (gbind_step gget _ sc sc sc eq_refl).
  match goal with |- context [(?m ≫= _) sc] => assert (Hm : exists sc1, m sc = (Ok tt, sc1) /\ (is_removed sc1 id \/ sc_peers sc1 !! id = Some p)) end.
  { destruct (sc_pendingTime sc !! sc_height sc) as [t|]; [|exists sc; by split; [|right]]. case_match; [|exists sc; by split; [|right]].
    set (j := default [] (sc_pendingBlocks sc !! sc_height sc)). destruct (removePeer_total j sc) as [sc1 H1]. exists sc1. split; [done|].
    destruct (decide (id = j)) as [->|Hne]; [left; eapply removePeer_removed; [exact H1|right; by rewrite Hp]|right].
    rewrite (removePeer_peers _ _ _ id H1), Hp. cbn. by rewrite decide_False. }
  destruct Hm as (sc1 & Hm & Hcase). rewrite (gbind_step _ _ _ _ _ Hm), (gbind_step gget _ sc1 sc1 sc1 eq_refl).
  set (ids := prunablePeers sc1 peerTimeout minRecvRate time). destruct (remove_peers_removed ids sc1) as (sc2 & Hs & Hall).
  assert (Hin : sc_peers sc1 !! id = Some p -> id ∈ ids).
  { intros Hp1. unfold ids, prunablePeers. rewrite sort_by_perm. apply list_elem_of_omap. exists (id, p). rewrite elem_of_map_to_list. split; [done|].
    unfold ready. rewrite bool_decide_true by done. cbn [andb]. rewrite Ht.
    assert (Hlt : peerTimeout < time_Sub time 0) by (unfold time_Sub, peerTimeout, second, int64_min, int64_max in *; lia). apply Z.ltb_lt in Hlt. by rewrite Hlt. }
  assert (Hgone : is_removed sc2 id) by (apply Hall; destruct Hcase as [|Hp1]; [by left|right; split; [by apply Hin|by rewrite Hp1]]).
  destruct ids as [|x l] eqn:Ei.
  - eexists _, sc1. split; [reflexivity|]. cbn in Hs. injection Hs as <-. done.
  - rewrite (gbind_step _ _ _ _ _ Hs), finished_or_run. eexists _, sc2. by split.
Qed.

(** A block that a removed peer had sent is New again, if another peer has it. *)
Lemma removePeer_renews id sc sc' h j :
  removePeer id sc = (Ok tt, sc') -> sc_ok sc -> sc_receivedBlocks sc !! h = Some id -> owner sc h j -> j <> id ->
  sc_blockStates sc' !! h = Some blockStateNew.
Proof.
  intros Hr Hok Hrec Ho Hne. destruct (so_owner _ Hok h id) as (p & Hp & Hready & _); [by right|].
  unfold removePeer, mbind, gom_bind, gget in Hr. rewrite Hp, bool_decide_false in Hr by congruence. injection Hr as <-. cbn.
  apply map_lookup_filter_Some. split; [rewrite renew_lookup; by rewrite decide_True|].
  apply (owner_bound _ h j). eapply owner_other; [|exact Hne|exact Ho]. intros j' Hj'. cbn. by rewrite lookup_insert_ne.
Qed.

(** The scheduler drops the peer that did not answer for the next block without a
    word to the processor, if no other peer is to be dropped; the blocks which that
    peer sent are asked for again, although the processor still has them. *)
Lemma timed_out_silently now time id asked h j sc :
  sc_ok sc -> sc_pendingTime sc !! sc_height sc = Some asked -> peerTimeout < time_Sub now asked ->
  sc_pendingBlocks sc !! sc_height sc = Some id -> sc_receivedBlocks sc !! h = Some id -> owner sc h j -> j <> id ->
  (forall k p, sc_peers sc !! k = Some p -> k <> id -> sp_state p = peerStateReady ->
     time_Sub time (sp_lastTouched p) <= peerTimeout /\ minRecvRate <= sp_lastRate p) ->
  exists sc', scheduler_handle now (rTryPrunePeer time) sc = (Ok noOp, sc') /\ sc_blockStates sc' !! h = Some blockStateNew.
Proof.
  intros Hok Ht Hto Hpend Hrec Ho Hne Hothers. cbn [scheduler_handle]. unfold handleTryPrunePeer. rewrite (gbind_step gget _ sc sc sc eq_refl).
  rewrite Ht, Hpend. cbn [default]. apply Z.ltb_lt in Hto. rewrite Hto. destruct (removePeer_total id sc) as [sc1 Hr].
  rewrite (gbind_step _ _ _ _ _ Hr), (gbind_step gget _ sc1 sc1 sc1 eq_refl).
  assert (Hnil : prunablePeers sc1 peerTimeout minRecvRate time = []).
  { apply Permutation_nil_r. unfold prunablePeers. rewrite sort_by_perm. apply Permutation_nil_r, elem_of_nil_inv. intros k.
    rewrite list_elem_of_omap. intros ([k' p] & Hk%elem_of_map_to_list & Hp). rewrite (removePeer_peers _ _ _ _ Hr) in Hk.
    apply fmap_Some in Hk as (q & Hq & ->). case_decide as D; [by unfold ready in Hp|]. unfold ready in Hp. case_bool_decide as Hs; [|done].
    destruct (Hothers k' q Hq D Hs) as [H1 H2]. apply Z.ltb_ge in H1, H2. by rewrite H1, H2 in Hp. }
  rewrite Hnil. exists sc1. split; [done|]. by eapply removePeer_renews.
Qed.
