(* ===== verification/FastSyncChain.v ===== *)
(** * The processor of fast sync builds the chain

    Whatever blocks the peers send, and in whatever order the events come, the
    processor executes only blocks that a commit of the voters confirms, one
    height after the other, and its state stays consistent. *)

From Stdlib Require Import ZArith Lia.
From stdpp Require Import prelude list gmap.
From S2P Require Import Prelude SafeMath Crypto Validator ValidatorSet Proto Block VoterSet VerifyCommit Election Merkle MerkleProps PartSet Header Light.
From S2P Require Import BlockProto Evidence ChainState ChainProps StateStore BlockStore BlockStoreProps StateProps StoreHistory EvidencePool.
From S2P Require Import EvidencePoolProps BlockExec BlockExecProps FastSync FastSyncProps.

Local Open Scope Z_scope.
Local Open Scope go_scope.

Section chain.
  Context {crypto : CryptoLib} {codec : TimeCodec} {wrappers : WrapperLib} {vrf : VrfLib} {decoder : EvidenceCodec}.
  Context {app : Application} {mempool : MempoolLib} {laws : Sha256Length}.

(** The identifier the processor makes for a block is well formed. *)
Lemma made_id b size parts hash :
  MakePartSet (E:=exec_error) b size = Ok parts -> Block_Hash (E:=exec_error) b = Ok hash ->
  BlockIDFromProto (mkBlockID hash (PartSet_Header (Some parts))) = Ok (mkBlockID hash (PartSet_Header (Some parts))).
Proof.
  intros Hp Hh. apply block_id_converts. unfold BlockID_ValidateBasic. cbn [bid_Hash bid_PartSetHeader].
  assert (ValidateHash hash = Ok tt) as ->.
  { unfold Block_Hash in Hh. destruct (b_LastCommit b); [|by injection Hh as <-]. apply obind_Ok in Hh as (b' & _ & [= <-]). apply header_hash_valid. }
  cbn [mbind outcome_bind PartSetHeader_ValidateBasic PartSet_Header psh_Hash].
  unfold MakePartSet in Hp. apply obind_Ok in Hp as (bz & _ & Hp). unfold NewPartSetFromData in Hp. destruct (size =? 0); [done|].
  apply obind_Ok in Hp as ([chunks bits] & _ & Hp). pose proof (ProofsFromByteSlices_spec chunks) as (Hr & _).
  destruct (ProofsFromByteSlices chunks) as [root proofs]. cbn in Hr. injection Hp as <-. cbn [ps_hash ps_total]. subst root. apply full_hash, merkle_root_length.
Qed.

(** The identifier of a block: its hash, and the header of the parts it is split
    into. *)
Definition identified (b : Block) (id : BlockID) : Prop :=
  exists parts hash, MakePartSet (E:=exec_error) b BlockPartSizeBytes = Ok parts /\ Block_Hash (E:=exec_error) b = Ok hash /\
    id = mkBlockID hash (PartSet_Header (Some parts)).

Lemma identified_valid b id : identified b id -> BlockIDFromProto id = Ok id.
Proof. intros (parts & hash & Hp & Hh & ->). by eapply made_id. Qed.

(** A block whose own identifier the voters of a state signed, as the light
    check of a commit has it. *)
Definition confirmed (s : ChainState) (x : Block * BlockID) : Prop :=
  identified (fst x) (snd x) /\ exists commit, fst (VerifyCommitLight (st_ChainID s) (snd x) (h_Height (b_Header (fst x))) commit (st_Voters s)) = Ok tt.

(** What holds of the processor: the blocks [bs] were executed, from the state
    [s0] without blocks, and each was confirmed by the voters of the state it
    was executed on. *)
Definition processed (s0 : ChainState) (bs : list (Block * BlockID)) (pc : pcState) : Prop :=
  exists l, runs s0 bs (l ++ [pc_state pc]) (pc_applier pc) /\ length l = length bs /\
    forall (i : nat) x s, bs !! i = Some x -> l !! i = Some s -> confirmed s x.

(** The application asks for changes within the limits, if a block is next. *)
Definition next_within (pc : pcState) : Prop := forall first second, nextTwo pc = Some (first, second) -> within_limits (pc_state pc) (fst first).

(** Histories of the processor; the state is not reset. *)
Inductive pc_history (e0 : BlockExecutor) (s0 : ChainState) : list Event -> pcState -> Prop :=
| pc_start : pc_history e0 s0 [] (newPcState e0 s0)
| pc_event outs pc event out pc' :
    pc_history e0 s0 outs pc -> (forall s, event <> bcResetState s) -> next_within pc ->
    processor_handle event pc = (Ok out, pc') -> pc_history e0 s0 (outs ++ [out]) pc'.

(** The heights that the processor reports as processed. *)
Definition reported (outs : list Event) : list Z := omap (fun out => match out with pcBlockProcessed h _ => Some h | _ => None end) outs.

(** The processor took a step: it executed the next block or none. *)
Definition advanced (pc : pcState) (out : Event) (pc' : pcState) : Prop :=
  (pc_applier pc' = pc_applier pc /\ pc_state pc' = pc_state pc /\ (forall h id, out <> pcBlockProcessed h id)) \/
  exists first firstPeer second secondPeer id blocks s' retain,
    nextTwo pc = Some ((first, firstPeer), (second, secondPeer)) /\ identified first id /\
    fst (VerifyCommitLight (st_ChainID (pc_state pc)) id (h_Height (b_Header first)) (b_LastCommit second) (st_Voters (pc_state pc))) = Ok tt /\
    ApplyBlock (pc_state pc) id first (with_blocks (pc_applier pc) blocks) = (Ok (s', retain), pc_applier pc') /\ pc_state pc' = s' /\
    out = pcBlockProcessed (h_Height (b_Header first)) firstPeer.

Lemma handle_process_Ok pc out pc' : handle_process pc = (Ok out, pc') -> advanced pc out pc'.
Proof.
  unfold handle_process. intros (pc0 & pc0' & [= <- <-] & Hr)%gbind_Ok. destruct (nextTwo pc) as [[[first fp] [second sp]]|] eqn:En.
  2: { injection Hr as <- <-. left. split_and!; [done|done|]. by destruct (pc_draining pc). }
  apply gbind_Ok in Hr as (parts & pc1 & [Hp ->]%glift_Ok & Hr). apply gbind_Ok in Hr as (hash & pc2 & [Hh ->]%glift_Ok & Hr).
  cbv zeta in Hr.
  assert (Hid : identified first (mkBlockID hash (PartSet_Header (Some parts)))) by (by exists parts, hash). set (id := mkBlockID _ _) in *.
  destruct (context_verifyCommit pc _ id _ (b_LastCommit second)) as [[]|e|] eqn:Ev; [| |done].
  - right. apply gbind_Ok in Hr as ([] & pc3 & Hs & Hr). apply gbind_Ok in Hr as (x & pc4 & Hc & Hr).
    unfold context_saveBlock in Hs. destruct (SaveBlock _ parts _ _) as [[[]|e|] blocks]; [|done..]. injection Hs as <-.
    unfold caught, context_applyBlock in Hc. cbn [pc_state pc_applier set_context] in Hc.
    destruct (ApplyBlock (pc_state pc) id first _) as [[[s' retain]|e|] e'] eqn:Ea; [|injection Hc as <- <-; done|done].
    injection Hc as <- <-. apply gbind_Ok in Hr as ([] & pc5 & Hd & Hr). injection Hd as <-. injection Hr as <- <-.
    exists first, fp, second, sp, id, blocks, s', retain. cbn. split_and!; done.
  - left. apply gbind_Ok in Hr as ([] & pc3 & Hs & Hr). injection Hs as <-. apply gbind_Ok in Hr as ([] & pc4 & Hs & Hr).
    injection Hr as <- <-. case_bool_decide; injection Hs as <-; by split_and!.
Qed.

Lemma processor_handle_Ok event pc out pc' :
  (forall s, event <> bcResetState s) -> processor_handle event pc = (Ok out, pc') -> advanced pc out pc'.
Proof.
  intros Hne Hr. destruct event as [|time|time| |time id size b|id h|id base h|id|id|st| |id h|id b|id|ids| |h id1 id2|h id|n st]; cbn [processor_handle] in Hr;
    try (by injection Hr as <- <-; left); [by apply handle_process_Ok|by destruct (Hne st)|..].
  - apply gbind_Ok in Hr as (pc0 & pc0' & [= <- <-] & Hr). destruct (synced pc); [injection Hr as <- <-; by left|].
    apply gbind_Ok in Hr as ([] & pc1 & [= <-] & [= <- <-]). by left.
  - destruct b as [b|]; [|injection Hr as <- <-; by left]. apply gbind_Ok in Hr as (pc0 & pc0' & [= <- <-] & Hr).
    apply gbind_Ok in Hr as ([] & pc1 & He & [= <- <-]). left. destruct (_ <? _); [|by injection He as <-].
    unfold enqueue in He. apply gbind_Ok in He as (pc0 & pc0' & [= <- <-] & He). by destruct (_ !! _); [|injection He as <-].
Qed.

Lemma history_processed e0 s0 outs pc :
  runs s0 [] [s0] e0 -> pc_history e0 s0 outs pc ->
  exists bs, processed s0 bs pc /\ reported outs = (fun x => h_Height (b_Header (fst x))) <$> bs.
Proof.
  intros H0. induction 1 as [|outs pc event out pc' _ (bs & (l & Hr & Hlen & Hc) & Hrep) Hne Hlim Hh].
  - exists []. split; [|done]. exists []. split_and!; [exact H0|done|]. intros i x s Hx. by rewrite lookup_nil in Hx.
  - unfold reported. rewrite omap_app. fold (reported outs). rewrite Hrep.
    destruct (processor_handle_Ok _ _ _ _ Hne Hh) as [(Ea & Es & Hq)|(first & fp & second & sp & id & blocks & s' & retain & En & Hid & Hv & Ha & <- & ->)].
    + exists bs. split; [exists l; by rewrite Ea, Es|]. destruct out; cbn; rewrite ?app_nil_r; try done. by destruct (Hq height peerID).
    + exists (bs ++ [(first, id)]). split; [|by rewrite fmap_app]. exists (l ++ [pc_state pc]). rewrite <- app_assoc. split_and!.
      * eapply run_block; [apply run_blocks, Hr|exact (Hlim _ _ En)|by eapply identified_valid|exact Ha].
      * rewrite !length_app. cbn. lia.
      * intros i x s Hx Hs. destruct (decide (i < length bs)%nat) as [Hi|Hi].
        -- rewrite lookup_app_l in Hx by lia. rewrite lookup_app_l in Hs by lia. by eapply Hc.
        -- assert (i = length bs) as -> by (apply lookup_lt_Some in Hx; rewrite length_app in Hx; cbn in Hx; lia).
           rewrite lookup_app_r, Nat.sub_diag in Hx by lia. injection Hx as <-.
           rewrite lookup_app_r, Hlen, Nat.sub_diag in Hs by lia. injection Hs as <-. split; [done|]. by exists (b_LastCommit second).
Qed.

End chain.

(** C16: fast sync builds the chain the voters signed.  Whatever blocks peers send,
    in whatever order the events come, as long as the state is not reset and the
    application asks for changes within its limits: the blocks that the processor
    reports as processed are those it executed, at consecutive heights from the
    initial one; the identifier each was executed under is the hash and the part set
    header of that very block, and a commit of the voters of the state it was
    executed on confirms it; each is tied to the one before; and the state is well
    formed and is the one that is stored. *)
Theorem fast_sync_sound `{CryptoLib} `{TimeCodec} `{WrapperLib} `{VrfLib} `{EvidenceCodec} `{Application} `{MempoolLib} `{!Sha256Length} `{!VrfLaws}
    e0 s0 outs pc :
  runs s0 [] [s0] e0 -> pc_history e0 s0 outs pc ->
  exists bs, processed s0 bs pc /\ chain_ok (pc_state pc) /\ Load (be_store (pc_applier pc)) = Ok (Some (pc_state pc)) /\
    reported outs = (fun i => st_InitialHeight s0 + Z.of_nat i) <$> seq 0 (length bs) /\
    (forall (i : nat) b id b' id', bs !! i = Some (b, id) -> bs !! S i = Some (b', id') -> linked (st_ChainID s0) b id b').
Proof.
  intros Hr0 Hh. destruct (history_processed _ _ _ _ Hr0 Hh) as (bs & Hp & Hrep). pose proof Hp as (l & Hr & _).
  apply runs_consistent in Hr as (l' & s & [<- <-]%app_inj_tail & [C1 C2 C3 C4 _]). exists bs. split; [done|].
  destruct C1 as [Hok _ _ _ Hz _ _]. destruct (chain_history s0 bs _ Hok Hz C2) as (Hs & _ & _ & _ & Hheights & Hl). split_and!; [done| | |done].
  - destruct (saved_remembered _ _ C3) as (lo & l1 & s1 & [<- <-]%app_inj_tail & Hre). by eapply remembered_load.
  - rewrite Hrep. apply list_eq. intros i. rewrite !list_lookup_fmap. destruct (bs !! i) as [[b id]|] eqn:E; cbn.
    + rewrite lookup_seq_lt by (by eapply lookup_lt_Some). cbn. f_equal. by eapply Hheights.
    + rewrite lookup_seq_ge by (by apply lookup_ge_None). done.
Qed.

(** ** A run with two blocks *)

Section toy_sync.
  #[local] Existing Instances toy_crypto toy_time toy_wrappers sized_vrf toy_decoder toy_app toy_mempool.

Definition sync0 : pcState := newPcState exec0 toy_start.
Definition sync1 : pcState := snd (processor_handle (scBlockReceived [1] (Some first_block)) sync0).
Definition sync2 : pcState := snd (processor_handle (scBlockReceived [2] (Some next_block)) sync1).
Definition sync3 : pcState := snd (processor_handle rProcessBlock sync2).

Lemma none_within pc : nextTwo pc = None -> next_within pc.
Proof. intros Hn first second. by rewrite Hn. Qed.

Lemma toy_sync1 : pc_history exec0 toy_start [noOp] sync1.
Proof.
  apply (pc_event _ _ [] sync0 (scBlockReceived [1] (Some first_block))); [constructor|done|apply none_within; reflexivity|vm_compute; reflexivity].
Qed.

Lemma toy_sync2 : pc_history exec0 toy_start [noOp; noOp] sync2.
Proof.
  apply (pc_event _ _ [noOp] sync1 (scBlockReceived [2] (Some next_block))); [exact toy_sync1|done| |vm_compute; reflexivity].
  apply none_within. vm_compute. reflexivity.
Qed.

Lemma toy_sync : pc_history exec0 toy_start [noOp; noOp; pcBlockProcessed 1 [1]] sync3.
Proof.
  apply (pc_event _ _ [noOp; noOp] sync2 rProcessBlock); [exact toy_sync2|done| |vm_compute; reflexivity].
  intros first second Hn. assert (fst first = first_block) as ->; [|apply toy_within; [exact toy_start_fits|by vm_compute]].
  assert (Hq : nextTwo sync2 = Some ((first_block, [1]), (next_block, [2]))) by (vm_compute; reflexivity).
  rewrite Hq in Hn. apply (inj Some) in Hn. apply (f_equal (fun x => fst (fst x))) in Hn. cbn in Hn. by rewrite <- Hn.
Qed.

End toy_sync.

Lemma fast_sync_sound_witness :
  exists bs, @processed toy_crypto toy_time toy_wrappers sized_vrf toy_decoder toy_app toy_mempool toy_start bs sync3 /\ length bs = 1%nat.
Proof.
  destruct (@fast_sync_sound toy_crypto toy_time toy_wrappers sized_vrf toy_decoder toy_app toy_mempool toy_sha256_length sized_vrf_laws
    exec0 toy_start _ sync3 toy_run0 toy_sync) as (bs & Hp & _ & _ & Hr & _).
  exists bs. split; [exact Hp|]. apply (f_equal length) in Hr. rewrite length_fmap, length_seq in Hr. symmetry. exact Hr.
Defined.

(** ** The scheduler and the processor together *)

Section together.
  Context {crypto : CryptoLib} {codec : TimeCodec} {wrappers : WrapperLib} {vrf : VrfLib} {decoder : EvidenceCodec}.
  Context {app : Application} {mempool : MempoolLib} {laws : Sha256Length}.

(** Both, with the events that wait for them. *)
Record sync := mkSync { sy_scheduler : scheduler; sy_processor : pcState; sy_to_scheduler : list Event; sy_to_processor : list Event }.

(** [NewBlockchainReactor] starts them from the same state. *)
Definition sync_new (e : BlockExecutor) (s : ChainState) (now : Time) : sync := mkSync (newScheduler (reset_height s) now) (newPcState e s) [] [].

(** Events that the timers of [demux] send to the scheduler. *)
Definition ticks (event : Event) : Prop := match event with rTryPrunePeer _ | rTrySchedule _ => True | _ => False end.

(** Any event that waits may be handled next. *)
Inductive sync_step : sync -> sync -> Prop :=
| sync_peer sc pc qs qp event : sync_step (mkSync sc pc qs qp) (mkSync sc pc (qs ++ demux_peer event) qp)
| sync_tick sc pc qs qp event : ticks event -> sync_step (mkSync sc pc qs qp) (mkSync sc pc (qs ++ [event]) qp)
| sync_process sc pc qs qp : sync_step (mkSync sc pc qs qp) (mkSync sc pc qs (qp ++ [rProcessBlock]))
| sync_scheduler sc pc qs qs' qp now event out sc' :
    scheduler_handle now event sc = (Ok out, sc') ->
    sync_step (mkSync sc pc (qs ++ event :: qs') qp) (mkSync sc' pc (qs ++ qs') (qp ++ demux_scheduler out))
| sync_processor sc pc qs qp qp' event out pc' :
    processor_handle event pc = (Ok out, pc') ->
    sync_step (mkSync sc pc qs (qp ++ event :: qp')) (mkSync sc pc' (qs ++ demux_processor out) (qp ++ qp')).

(** Events for the scheduler other than the report of a processed block. *)
Definition from_peers (event : Event) : Prop := demux_peer event <> [] \/ ticks event.

(** Events for the processor that carry only blocks from [h] on. *)
Definition blocks_from (h : Z) (event : Event) : Prop :=
  match event with
  | bcResetState _ => False
  | scBlockReceived _ (Some b) => h <= h_Height (b_Header b)
  | _ => True
  end.

(** Nothing was processed. *)
Record idle (e : BlockExecutor) (s : ChainState) (y : sync) : Prop := {
  id_scheduler : sc_ok (sy_scheduler y);
  id_height : sc_height (sy_scheduler y) = reset_height s;
  id_events : Forall from_peers (sy_to_scheduler y);
  id_blocks : Forall (blocks_from (reset_height s)) (sy_to_processor y);
  id_queue h x : pc_queue (sy_processor y) !! h = Some x -> reset_height s <= h;
  id_state : pc_state (sy_processor y) = s;
  id_applier : pc_applier (sy_processor y) = e
}.

Lemma from_peers_admissible sc event : from_peers event -> admissible sc event.
Proof. intros [Hp|Ht]; destruct event; cbn in *; done. Qed.

Lemma out_blocks sc event out sc' : handled sc event out sc' -> Forall (blocks_from (sc_height sc)) (demux_scheduler out).
Proof.
  intros Hd. destruct out; cbn; repeat constructor; cbn; try done.
  - destruct (hd_receive _ _ _ _ Hd _ _ eq_refl) as (b & _ & _ & -> & _ & Hh & _). done.
  - apply Forall_fmap, Forall_true. done.
Qed.

Lemma purge_queue id pc h x : pc_queue (snd (purgePeer id pc)) !! h = Some x -> pc_queue pc !! h = Some x.
Proof. cbn. intros [Hx _]%map_lookup_filter_Some. done. Qed.

(** Without the next block in the queue the processor stays where it is. *)
Lemma idle_processor e s pc event out pc' :
  st_LastBlockHeight s = 0 -> 1 < reset_height s -> blocks_from (reset_height s) event ->
  (forall h x, pc_queue pc !! h = Some x -> reset_height s <= h) -> pc_state pc = s -> pc_applier pc = e ->
  processor_handle event pc = (Ok out, pc') ->
  (forall h x, pc_queue pc' !! h = Some x -> reset_height s <= h) /\ pc_state pc' = s /\ pc_applier pc' = e /\ demux_processor out = [].
Proof.
  intros Hz Hlt Hb Hq Hs He Hr.
  assert (Hn : nextTwo pc = None).
  { unfold nextTwo, pc_height. rewrite Hs, Hz. destruct (pc_queue pc !! (0 +i64 1)) as [x|] eqn:E; [|done]. apply Hq in E. change (0 +i64 1) with 1 in E. lia. }
  destruct event as [|time|time| |time id size b|id h|id base h|id|id|st| |id h|id b|id|ids| |h id1 id2|h id|n st]; cbn [processor_handle blocks_from] in *;
    try (by injection Hr as <- <-); try done.
  - unfold handle_process in Hr. apply gbind_Ok in Hr as (pc0 & pc0' & [= <- <-] & Hr). rewrite Hn in Hr. injection Hr as <- <-. by destruct (pc_draining pc).
  - apply gbind_Ok in Hr as (pc0 & pc0' & [= <- <-] & Hr). destruct (synced pc); [by injection Hr as <- <-|].
    apply gbind_Ok in Hr as ([] & pc1 & [= <-] & [= <- <-]). done.
  - destruct b as [b|]; [|by injection Hr as <- <-]. apply gbind_Ok in Hr as (pc0 & pc0' & [= <- <-] & Hr).
    apply gbind_Ok in Hr as ([] & pc1 & Hen & [= <- <-]). destruct (_ <? _); [|by injection Hen as <-].
    unfold enqueue in Hen. apply gbind_Ok in Hen as (pc0 & pc0' & [= <- <-] & Hen). destruct (_ !! _); [done|]. injection Hen as <-.
    split_and!; [|done..]. cbn. intros h x [[<- _]|[_ Hx]]%lookup_insert_Some; [done|by eapply Hq].
  - apply gbind_Ok in Hr as ([] & pc1 & Hp & [= <- <-]). split_and!; [|by injection Hp as <-..|done].
    intros h x Hx. apply (Hq h x), (purge_queue id). by rewrite Hp.
Qed.

Lemma idle_step e s y y' : st_LastBlockHeight s = 0 -> 1 < reset_height s -> idle e s y -> sync_step y y' -> idle e s y'.
Proof.
  intros Hz Hlt [I1 I2 I3 I4 I5 I6 I7] Hst. destruct Hst as [sc pc qs qp event|sc pc qs qp event Ht|sc pc qs qp|sc pc qs qs' qp now event out sc' Hh|sc pc qs qp qp' event out pc' Hh]; cbn in *.
  - constructor; cbn; try done. apply Forall_app; split; [done|]. destruct event; cbn; repeat constructor; done.
  - constructor; cbn; try done. apply Forall_app; split; [done|]. apply Forall_singleton. by right.
  - constructor; cbn; try done. apply Forall_app; split; [done|]. by repeat constructor.
  - apply Forall_app in I3 as [J1 J2]. apply Forall_cons in J2 as [J2 J3].
    destruct (handle_ok now event sc I1) as (out' & sc1 & Hh' & Hd); [by apply from_peers_admissible|].
    assert (out' = out) as -> by congruence. assert (sc1 = sc') as -> by congruence.
    assert (Hsame : sc_height sc' = sc_height sc) by (rewrite (hd_height _ _ _ _ Hd); by destruct J2 as [J2|J2], event; cbn in J2).
    constructor; cbn; try done; [apply Hd|congruence|by apply Forall_app|]. apply Forall_app; split; [done|]. rewrite <- I2. by eapply out_blocks.
  - apply Forall_app in I4 as [J1 J2]. apply Forall_cons in J2 as [J2 J3].
    destruct (idle_processor e s pc event out pc' Hz Hlt J2 I5 I6 I7 Hh) as (K1 & K2 & K3 & ->).
    constructor; cbn; try done; [by rewrite app_nil_r|by apply Forall_app].
Qed.

End together.

(** Fast sync from a genesis with an initial height above 1 never gets
    anywhere.  The scheduler asks for blocks from the initial height on, but the
    processor looks for the block after [LastBlockHeight], which is 0 before the
    first block, that is, for block 1.  Whatever the peers send, and in whatever
    order the events are handled, no block is executed and the state stays. *)
Theorem initial_height_stuck `{CryptoLib} `{TimeCodec} `{WrapperLib} `{VrfLib} `{EvidenceCodec} `{Application} `{MempoolLib} e s now y :
  st_LastBlockHeight s = 0 -> 1 < st_InitialHeight s <= int64_max - targetPending ->
  rtc sync_step (sync_new e s now) y ->
  pc_state (sy_processor y) = s /\ pc_applier (sy_processor y) = e /\ sc_height (sy_scheduler y) = st_InitialHeight s /\ nextTwo (sy_processor y) = None.
Proof.
  intros Hz Hi Hs. assert (Hh : reset_height s = st_InitialHeight s) by (unfold reset_height; by rewrite Hz).
  assert (Hidle : idle e s y).
  { apply (rtc_ind_r (R:=sync_step) (idle e s) (sync_new e s now)); [| |exact Hs].
    - constructor; cbn; try done. apply new_ok. lia.
    - intros y1 y2 _ Hst Hid. eapply idle_step; [exact Hz|lia|exact Hid|exact Hst]. }
  destruct Hidle as [_ I2 _ _ I5 I6 I7]. split_and!; [done|done|congruence|].
  unfold nextTwo, pc_height. rewrite I6, Hz. destruct (pc_queue _ !! (0 +i64 1)) as [x|] eqn:E; [|done]. apply I5 in E. change (0 +i64 1) with 1 in E. lia.
Qed.

(** ** Runs of both *)

Section toy_together.
  #[local] Existing Instances toy_crypto toy_time toy_wrappers sized_vrf toy_decoder toy_app toy_mempool.

(** A chain that starts at height 1000. *)
Definition late_start : ChainState :=
  ok_or no_state (MakeGenesisState (fun _ => replicate 32 0) 100
    (mkGenesisDoc 100 [7] 1000 None (gd_Validators toy_genesis) None [])).

(** A peer has blocks up to height 2000, and the first one is asked for. *)
Definition late_sc1 : scheduler := snd (scheduler_handle 0 (bcStatusResponse [1] 1000 2000) (newScheduler 1000 0)).
Definition late_sc2 : scheduler := snd (scheduler_handle 0 (rTrySchedule 0) late_sc1).

Lemma late_run : rtc sync_step (sync_new exec0 late_start 0) (mkSync late_sc2 (newPcState exec0 late_start) [] []).
Proof.
  eapply rtc_l; [apply (sync_peer _ _ [] [] (bcStatusResponse [1] 1000 2000))|].
  eapply rtc_l; [apply (sync_scheduler _ _ [] [] [] 0 _ noOp late_sc1); vm_compute; reflexivity|].
  eapply rtc_l; [apply (sync_tick _ _ [] [] (rTrySchedule 0)); done|].
  eapply rtc_l; [apply (sync_scheduler _ _ [] [] [] 0 _ (scBlockRequest [1] 1000) late_sc2); vm_compute; reflexivity|]. apply rtc_refl.
Qed.

End toy_together.

Lemma initial_height_stuck_witness :
  sc_pendingBlocks late_sc2 !! 1000 = Some [1] /\ st_InitialHeight late_start = 1000 /\
  @nextTwo toy_app toy_mempool (newPcState exec0 late_start) = None.
Proof.
  destruct (@initial_height_stuck toy_crypto toy_time toy_wrappers sized_vrf toy_decoder toy_app toy_mempool exec0 late_start 0 _
    ltac:(vm_compute; reflexivity) ltac:(vm_compute; done) late_run) as (_ & _ & _ & Hn).
  split; [vm_compute; reflexivity|]. split; [vm_compute; reflexivity|exact Hn].
Defined.

(** A slow peer can crash a node that is syncing.  Suppose a peer was asked for
    the next block and did not answer in time, but had sent a later block [h], which
    waits in the queue of the processor.  At the next pruning the scheduler removes
    the peer, but when no other peer is to be removed it returns no event, so
    that the processor keeps the block, while the scheduler asks for it again.
    Whoever sends it makes the processor panic. *)
Theorem timed_out_peer_panics `{CryptoLib} `{TimeCodec} `{WrapperLib} `{VrfLib} `{EvidenceCodec} `{Application} `{MempoolLib}
    now time id asked h j sc pc x :
  scheduled sc -> sc_pendingTime sc !! sc_height sc = Some asked -> peerTimeout < time_Sub now asked ->
  sc_pendingBlocks sc !! sc_height sc = Some id -> sc_receivedBlocks sc !! h = Some id -> owner sc h j -> j <> id ->
  (forall k p, sc_peers sc !! k = Some p -> k <> id -> sp_state p = peerStateReady ->
     time_Sub time (sp_lastTouched p) <= peerTimeout /\ minRecvRate <= sp_lastRate p) ->
  pc_queue pc !! h = Some x -> pc_height pc < h ->
  exists sc', scheduler_handle now (rTryPrunePeer time) sc = (Ok noOp, sc') /\ sc_blockStates sc' !! h = Some blockStateNew /\
    forall b, h_Height (b_Header b) = h -> fst (processor_handle (scBlockReceived j (Some b)) pc) = Panic.
Proof.
  intros Hok%scheduled_ok Ht Hto Hp Hr Ho Hne Hothers Hq Hlt. destruct (timed_out_silently now time id asked h j sc) as (sc' & Hh & Hn); [done..|].
  exists sc'. split_and!; [done|done|]. intros b Hb. cbn [processor_handle]. rewrite (gbind_step gget _ pc pc pc eq_refl), Hb.
  apply Z.ltb_lt in Hlt. rewrite Hlt. unfold mbind, gom_bind, enqueue, gget. unfold mbind, gom_bind. by rewrite Hq.
Qed.

Section toy_panic.
  #[local] Existing Instances toy_crypto toy_time toy_wrappers sized_vrf toy_decoder toy_app toy_mempool.

(** A block of which only the height matters. *)
Definition height_block (h : Z) : Block := mkBlock (empty_header (mkVersion 0 0) h) [] [] None.

Definition at_second (n : Z) : Time := n * second.

(** Peer 1 is asked for blocks 1 and 3 and peer 2 for block 2; only block 1 does
    not come. *)
Definition slow_events : list Event :=
  [bcStatusResponse [1] 1 5; bcStatusResponse [2] 1 5; rTrySchedule (at_second 1); rTrySchedule (at_second 1); rTrySchedule (at_second 1);
   bcBlockResponse (at_second 2) [1] 100 (height_block 3); bcBlockResponse (at_second 16) [2] 100 (height_block 2)].

Definition slow_sc : scheduler := foldl (fun sc event => snd (scheduler_handle 0 event sc)) (newScheduler 1 0) slow_events.
Definition slow_pc : pcState :=
  foldl (fun pc event => snd (processor_handle event pc)) sync0 [scBlockReceived [1] (Some (height_block 3)); scBlockReceived [2] (Some (height_block 2))].

Lemma scheduled_events sc events :
  scheduled sc -> sc_height sc < int64_max - targetPending -> Forall from_peers events ->
  scheduled (foldl (fun sc event => snd (scheduler_handle 0 event sc)) sc events).
Proof.
  intros Hs Hmax Hall. revert sc Hs Hmax. induction Hall as [|event events He _ IH]; intros sc Hs Hmax; [done|]. cbn.
  destruct (handle_ok 0 event sc) as (out & sc' & Hh & Hd); [by apply scheduled_ok|by apply from_peers_admissible|].
  rewrite Hh. cbn. apply IH.
  - eapply scheduled_event; [exact Hs| |exact Hmax|exact Hh]. by intros st ->; destruct He.
  - rewrite (hd_height _ _ _ _ Hd). by destruct He as [He|He], event; cbn in He.
Qed.

Lemma slow_scheduled : scheduled slow_sc.
Proof.
  apply scheduled_events; [apply scheduled_new; vm_compute; done|by vm_compute|]. repeat apply Forall_cons_2; try (left; cbn; done); try (right; done).
Qed.

End toy_panic.

Lemma timed_out_peer_panics_witness :
  exists sc', scheduler_handle (at_second 17) (rTryPrunePeer (at_second 17)) slow_sc = (Ok noOp, sc') /\ sc_blockStates sc' !! 3 = Some blockStateNew /\
    fst (@processor_handle toy_crypto toy_time toy_wrappers sized_vrf toy_decoder toy_app toy_mempool (scBlockReceived [2] (Some (height_block 3))) slow_pc) = Panic.
Proof.
  destruct (@timed_out_peer_panics toy_crypto toy_time toy_wrappers sized_vrf toy_decoder toy_app toy_mempool
    (at_second 17) (at_second 17) [1] (at_second 1) 3 [2] slow_sc slow_pc (height_block 3, [1]) slow_scheduled) as (sc' & H1 & H2 & H3);
    [by vm_compute|by vm_compute|by vm_compute|by vm_compute| |done| |by vm_compute|by vm_compute|].
  - eexists. split; [vm_compute; reflexivity|]. vm_compute. done.
  - assert (Hall : map_Forall (fun k p => k = [1] \/ (time_Sub (at_second 17) (sp_lastTouched p) <= peerTimeout /\ minRecvRate <= sp_lastRate p)) (sc_peers slow_sc)).
    { apply (bool_decide_unpack _). vm_compute. done. }
    intros k p Hk Hne _. destruct (Hall k p Hk) as [->|Hok]; [by destruct Hne|exact Hok].
  - exists sc'. split; [exact H1|]. split; [exact H2|]. apply H3. reflexivity.
Defined.
