(* ===== verification/Mempool.v ===== *)
(** * The mempool: src/mempool/clist_mempool.go

    Transactions wait in an ordered list until a block has them.  A new one is
    checked here ([prepareCheckTx]), reserves its place, is checked by the
    application, and is added when the answer comes; after a block, [Update] drops
    what was committed and rechecks the rest.  Also [PreCheckMaxBytes],
    [PostCheckMaxGas] of src/mempool/mempool.go, src/state/tx_filter.go, and the
    numbers of peers of src/mempool/reactor.go.

    An element of the list is a pointer: it has a number here, which [txsMap]
    holds.  The cache of hashes has its map and its list in one list.  Checks run
    concurrently under a read lock and answers come in any order: [prepareCheckTx]
    and [resCbFirstTime] are put together from the parts between which another
    check can run, a look-up, a push to the cache, a reservation, an addition.  An
    addition to or a removal from the pool changes the list, the map and the count
    of bytes one after the other in the code and at once here.  Logs, metrics and
    the write-ahead log, but for its failure, are left out. *)

From Stdlib Require Import ZArith Lia.
From stdpp Require Import prelude list gmap.
From S2P Require Import Prelude SafeMath Crypto Validator ValidatorSet Proto Block VoterSet Merkle PartSet Header BlockProto Evidence ChainState BlockExec.

Local Open Scope Z_scope.
Local Open Scope go_scope.

(** ** The cache *)

Section mempool.
  Context {crypto : CryptoLib}.

Definition TxKey (tx : bytes) : bytes := sha256 tx.

(** [mapTxCache]: its size and the hashes, the oldest first. *)
Record mapTxCache := mkTxCache { ca_size : Z; ca_list : list bytes }.

Definition newMapTxCache (cacheSize : Z) : mapTxCache := mkTxCache cacheSize [].

Definition drop_key (key : bytes) (l : list bytes) : list bytes := filter (fun k => k <> key) l.

(** [txCache]: [None] is [nopTxCache]. *)
Definition txCache : Type := option mapTxCache.

Definition cache_Reset (cache : txCache) : txCache := (fun c => mkTxCache (ca_size c) []) <$> cache.

Definition cache_Push (cache : txCache) (tx : bytes) : bool * txCache :=
  match cache with
  | None => (true, None)
  | Some c =>
      let txHash := TxKey tx in
      if bool_decide (txHash ∈ ca_list c) then (false, Some (mkTxCache (ca_size c) (drop_key txHash (ca_list c) ++ [txHash])))
      else
        let rest := if ca_size c <=? lenZ (ca_list c) then tail (ca_list c) else ca_list c in
        (true, Some (mkTxCache (ca_size c) (rest ++ [txHash])))
  end.

Definition cache_Remove (cache : txCache) (tx : bytes) : txCache :=
  (fun c => mkTxCache (ca_size c) (drop_key (TxKey tx) (ca_list c))) <$> cache.

(** ** The pool *)

Record mempoolTx := mkMempoolTx { mt_height : Z; mt_gasWanted : Z; mt_tx : bytes; mt_senders : gset Z }.

(** [abci.ResponseCheckTx]. *)
Record ResponseCheckTx := mkCheckTx { ct_Code : Z; ct_GasWanted : Z }.

Definition PreCheckFunc : Type := bytes -> bool.
Definition PostCheckFunc : Type := bytes -> ResponseCheckTx -> bool.

Record MempoolConfig := mkMempoolConfig {
  mc_Size : Z; mc_MaxTxsBytes : Z; mc_CacheSize : Z; mc_KeepInvalidTxsInCache : bool; mc_MaxTxBytes : Z; mc_Recheck : bool
}.

(** [txsAvailable]: no channel, or a channel with or without an element. *)
Record CListMempool := mkMempool {
  mp_height : Z;
  mp_txsBytes : Z;
  mp_reserved : Z;
  mp_reservedBytes : Z;
  mp_notifiedTxsAvailable : bool;
  mp_txsAvailable : option bool;
  mp_config : MempoolConfig;
  mp_preCheck : option PreCheckFunc;
  mp_postCheck : option PostCheckFunc;
  mp_next : nat;
  mp_txs : list (nat * mempoolTx);
  mp_txsMap : gmap bytes nat;
  mp_cache : txCache
}.

Inductive mempool_error :=
| ErrTxInMap | ErrMempoolIsFull | ErrTxTooLarge | ErrPreCheck | ErrWalWrite | ErrAppConn | ErrTxInCache.

Abbreviation MemM := (GoM CListMempool mempool_error).

Definition NewCListMempool (config : MempoolConfig) (height : Z) : CListMempool :=
  mkMempool height 0 0 0 false None config None None 0 [] ∅ (if 0 <? mc_CacheSize config then Some (newMapTxCache (mc_CacheSize config)) else None).

Definition EnableTxsAvailable (mem : CListMempool) : CListMempool :=
  mkMempool (mp_height mem) (mp_txsBytes mem) (mp_reserved mem) (mp_reservedBytes mem) (mp_notifiedTxsAvailable mem) (Some false) (mp_config mem)
    (mp_preCheck mem) (mp_postCheck mem) (mp_next mem) (mp_txs mem) (mp_txsMap mem) (mp_cache mem).

Definition set_cache (mem : CListMempool) (cache : txCache) : CListMempool :=
  mkMempool (mp_height mem) (mp_txsBytes mem) (mp_reserved mem) (mp_reservedBytes mem) (mp_notifiedTxsAvailable mem) (mp_txsAvailable mem) (mp_config mem)
    (mp_preCheck mem) (mp_postCheck mem) (mp_next mem) (mp_txs mem) (mp_txsMap mem) cache.

Definition set_reserved (mem : CListMempool) (reserved reservedBytes : Z) : CListMempool :=
  mkMempool (mp_height mem) (mp_txsBytes mem) reserved reservedBytes (mp_notifiedTxsAvailable mem) (mp_txsAvailable mem) (mp_config mem)
    (mp_preCheck mem) (mp_postCheck mem) (mp_next mem) (mp_txs mem) (mp_txsMap mem) (mp_cache mem).

Definition set_pool (mem : CListMempool) (txsBytes : Z) (next : nat) (txs : list (nat * mempoolTx)) (txsMap : gmap bytes nat) : CListMempool :=
  mkMempool (mp_height mem) txsBytes (mp_reserved mem) (mp_reservedBytes mem) (mp_notifiedTxsAvailable mem) (mp_txsAvailable mem) (mp_config mem)
    (mp_preCheck mem) (mp_postCheck mem) next txs txsMap (mp_cache mem).

Definition set_notified (mem : CListMempool) (notified : bool) (available : option bool) : CListMempool :=
  mkMempool (mp_height mem) (mp_txsBytes mem) (mp_reserved mem) (mp_reservedBytes mem) notified available (mp_config mem)
    (mp_preCheck mem) (mp_postCheck mem) (mp_next mem) (mp_txs mem) (mp_txsMap mem) (mp_cache mem).

Definition Mempool_Size (mem : CListMempool) : Z := lenZ (mp_txs mem).

Definition Flush (mem : CListMempool) : CListMempool := set_cache (set_pool mem 0 (mp_next mem) [] ∅) (cache_Reset (mp_cache mem)).

(** ** Checking a transaction *)

Definition isFull (mem : CListMempool) (txSize : Z) : bool :=
  (mc_Size (mp_config mem) <=? Mempool_Size mem) || (mc_MaxTxsBytes (mp_config mem) <? txSize +i64 mp_txsBytes mem).

Definition reserve (txSize : Z) : MemM unit :=
  mem ← gget;
  if (mc_Size (mp_config mem) <=? Mempool_Size mem +i64 mp_reserved mem) ||
     (mc_MaxTxsBytes (mp_config mem) <? txSize +i64 mp_reservedBytes mem +i64 mp_txsBytes mem)
  then gfail ErrMempoolIsFull
  else gput (set_reserved mem (mp_reserved mem +i64 1) (mp_reservedBytes mem +i64 txSize)).

Definition releaseReserve (txSize : Z) : MemM unit :=
  gmodify (fun mem => set_reserved mem (mp_reserved mem -i64 1) (mp_reservedBytes mem -i64 txSize)).

(** Records another sender of a transaction in the pool. *)
Definition add_sender (tx : bytes) (sender : Z) (mem : CListMempool) : CListMempool :=
  match mp_txsMap mem !! TxKey tx with
  | None => mem
  | Some e =>
      set_pool mem (mp_txsBytes mem) (mp_next mem)
        ((fun '(i, m) => (i, if bool_decide (i = e) then mkMempoolTx (mt_height m) (mt_gasWanted m) (mt_tx m) ({[sender]} ∪ mt_senders m) else m)) <$> mp_txs mem)
        (mp_txsMap mem)
  end.

(** The parts of [prepareCheckTx].  First it looks whether the transaction is in
    the pool. *)
Definition look_up (tx : bytes) : MemM unit :=
  mem ← gget; if bool_decide (is_Some (mp_txsMap mem !! TxKey tx)) then gfail ErrTxInMap else mret tt.

(** Then come the checks that change nothing: [full] is what [isFull] answered; the
    write-ahead log and the connection to the application may have failed. *)
Definition check_limits (tx : bytes) (full walFails appFails : bool) : MemM unit :=
  mem ← gget;
  if full then gfail ErrMempoolIsFull
  else if mc_MaxTxBytes (mp_config mem) <? lenZ tx then gfail ErrTxTooLarge
  else if negb (match mp_preCheck mem with None => true | Some f => f tx end) then gfail ErrPreCheck
  else if walFails then gfail ErrWalWrite
  else if appFails then gfail ErrAppConn
  else mret tt.

(** Whether the cache took the transaction as a new one. *)
Definition push_tx (tx : bytes) : MemM bool :=
  mem ← gget;
  let '(pushed, cache) := cache_Push (mp_cache mem) tx in
  gput (set_cache mem cache);; mret pushed.

(** Its end: without a place the transaction leaves the cache. *)
Definition reserve_or_forget (tx : bytes) : MemM unit := fun mem =>
  match reserve (lenZ tx) mem with
  | (Err e, mem) => (Err e, set_cache mem (cache_Remove (mp_cache mem) tx))
  | r => r
  end.

Definition prepareCheckTx (tx : bytes) (sender : Z) (walFails appFails : bool) : MemM unit :=
  look_up tx;;
  mem ← gget;
  check_limits tx (isFull mem (lenZ tx)) walFails appFails;;
  pushed ← push_tx tx;
  if pushed : bool then reserve_or_forget tx else gmodify (add_sender tx sender);; gfail ErrTxInCache.

Definition notifyTxsAvailable (mem : CListMempool) : CListMempool :=
  match mp_txsAvailable mem with
  | Some _ => if mp_notifiedTxsAvailable mem then mem else set_notified mem true (Some true)
  | None => mem
  end.

Definition addTx (memTx : mempoolTx) (mem : CListMempool) : CListMempool :=
  set_pool mem (mp_txsBytes mem +i64 lenZ (mt_tx memTx)) (S (mp_next mem)) (mp_txs mem ++ [(mp_next mem, memTx)])
    (<[TxKey (mt_tx memTx) := mp_next mem]> (mp_txsMap mem)).

Definition removeTx (tx : bytes) (elem : nat) (removeFromCache : bool) (mem : CListMempool) : CListMempool :=
  let mem := set_pool mem (mp_txsBytes mem -i64 lenZ tx) (mp_next mem) (filter (fun e => e.1 <> elem) (mp_txs mem)) (delete (TxKey tx) (mp_txsMap mem)) in
  if removeFromCache then set_cache mem (cache_Remove (mp_cache mem) tx) else mem.

Definition RemoveTxByKey (txKey : bytes) (removeFromCache : bool) (mem : CListMempool) : CListMempool :=
  match mp_txsMap mem !! txKey with
  | None => mem
  | Some e =>
      match filter (fun x => x.1 = e) (mp_txs mem) with
      | (_, memTx) :: _ => removeTx (mt_tx memTx) e removeFromCache mem
      | [] => mem
      end
  end.

(** [resCbFirstTime] before it gives the place back. *)
Definition answer_first (tx : bytes) (sender : Z) (res : ResponseCheckTx) (mem : CListMempool) : CListMempool :=
  if ct_Code res =? 0 then notifyTxsAvailable (addTx (mkMempoolTx (mp_height mem) (ct_GasWanted res) tx {[sender]}) mem)
  else if negb (mc_KeepInvalidTxsInCache (mp_config mem)) then set_cache mem (cache_Remove (mp_cache mem) tx) else mem.

(** A response other than [None], which stands for one of another kind. *)
Definition resCbFirstTime (tx : bytes) (sender : Z) (res : option ResponseCheckTx) : MemM unit :=
  match res with
  | None => mret tt
  | Some res => gmodify (answer_first tx sender res);; releaseReserve (lenZ tx)
  end.

(** [check] is the answer of the application; an error loses the place. *)
Definition CheckTxSync (check : bytes -> option ResponseCheckTx) (tx : bytes) (sender : Z) (walFails appFails : bool) : MemM (option ResponseCheckTx) :=
  prepareCheckTx tx sender walFails appFails;;
  match check tx with
  | None => gfail ErrAppConn
  | Some res => resCbFirstTime tx sender (Some res);; mret (Some res)
  end.

(** ** After a block *)

Definition resCbRecheck (tx : bytes) (res : option ResponseCheckTx) (mem : CListMempool) : CListMempool :=
  match res, mp_txsMap mem !! TxKey tx with
  | Some r, Some e =>
      if (ct_Code r =? 0) && match mp_postCheck mem with None => true | Some f => f tx r end then mem
      else removeTx tx e (negb (mc_KeepInvalidTxsInCache (mp_config mem))) mem
  | _, _ => mem
  end.

(** The answers come before [recheckTxs] returns. *)
Definition recheckTxs (check : bytes -> option ResponseCheckTx) (mem : CListMempool) : CListMempool :=
  foldl (fun mem '(_, memTx) => resCbRecheck (mt_tx memTx) (check (mt_tx memTx)) mem) mem (mp_txs mem).

Fixpoint update_loop (txs : list bytes) (responses : list ResponseDeliverTx) : MemM unit :=
  match txs, responses with
  | [], _ => mret tt
  | _ :: _, [] => gpanic
  | tx :: txs, r :: responses =>
      gmodify (fun mem =>
        let cache := if dt_Code r =? 0 then snd (cache_Push (mp_cache mem) tx)
                     else if negb (mc_KeepInvalidTxsInCache (mp_config mem)) then cache_Remove (mp_cache mem) tx else mp_cache mem in
        let mem := set_cache mem cache in
        match mp_txsMap mem !! TxKey tx with Some e => removeTx tx e false mem | None => mem end);;
      update_loop txs responses
  end.

(** [Update]; [endFails] is whether [EndRecheckTxSync] fails, whose error is the
    one returned. *)
Definition Mempool_Update (check : bytes -> option ResponseCheckTx) (endFails : bool) (height : Z) (txs : list bytes) (responses : list ResponseDeliverTx)
    (preCheck : option PreCheckFunc) (postCheck : option PostCheckFunc) : MemM unit :=
  gmodify (fun mem => mkMempool height (mp_txsBytes mem) (mp_reserved mem) (mp_reservedBytes mem) false (mp_txsAvailable mem) (mp_config mem)
    (match preCheck with Some _ => preCheck | None => mp_preCheck mem end) (match postCheck with Some _ => postCheck | None => mp_postCheck mem end)
    (mp_next mem) (mp_txs mem) (mp_txsMap mem) (mp_cache mem));;
  update_loop txs responses;;
  gmodify (fun mem => if mc_Recheck (mp_config mem) then recheckTxs check mem else mem);;
  gmodify (fun mem => if 0 <? Mempool_Size mem then notifyTxsAvailable mem else mem);;
  mem ← gget;
  if mc_Recheck (mp_config mem) && endFails then gfail ErrAppConn else mret tt.

(** ** Taking transactions for a block *)

(** The loop of both [ReapMaxBytesMaxGas], which has no bound on the number, and
    [ReapMaxBytesMaxGasMaxTxs]. *)
Fixpoint reap_loop (txs : list (nat * mempoolTx)) (maxBytes maxGas : Z) (maxTxs : option Z) (totalGas : Z) (taken : list bytes) : list bytes :=
  match txs with
  | [] => taken
  | (_, memTx) :: txs =>
      if negb (match maxTxs with Some max => lenZ taken <? max | None => true end) then taken
      else if (-1 <? maxBytes) && (maxBytes <? ComputeProtoSizeForTxs (taken ++ [mt_tx memTx])) then taken
      else
        let newTotalGas := totalGas +i64 mt_gasWanted memTx in
        if (-1 <? maxGas) && (maxGas <? newTotalGas) then taken
        else reap_loop txs maxBytes maxGas maxTxs newTotalGas (taken ++ [mt_tx memTx])
  end.

Definition Mempool_ReapMaxBytesMaxGasMaxTxs (mem : CListMempool) (maxBytes maxGas maxTxs : Z) : list bytes :=
  let maxTxs := if maxTxs <=? 0 then Mempool_Size mem else maxTxs in
  reap_loop (mp_txs mem) maxBytes maxGas (Some maxTxs) 0 [].

Definition ReapMaxBytesMaxGas (mem : CListMempool) (maxBytes maxGas : Z) : list bytes :=
  reap_loop (mp_txs mem) maxBytes maxGas None 0 [].

Fixpoint reap_txs_loop (txs : list (nat * mempoolTx)) (max : Z) (taken : list bytes) : list bytes :=
  match txs with
  | [] => taken
  | (_, memTx) :: txs => if lenZ taken <=? max then reap_txs_loop txs max (taken ++ [mt_tx memTx]) else taken
  end.

Definition ReapMaxTxs (mem : CListMempool) (max : Z) : list bytes :=
  let max := if max <? 0 then Mempool_Size mem else max in
  reap_txs_loop (mp_txs mem) max [].

(** ** Filters *)

Definition PreCheckMaxBytes (maxBytes : Z) : PreCheckFunc := fun tx => ComputeProtoSizeForTxs [tx] <=? maxBytes.

Definition PostCheckMaxGas (maxGas : Z) : PostCheckFunc := fun _ res =>
  if maxGas =? -1 then true else negb (ct_GasWanted res <? 0) && negb (maxGas <? ct_GasWanted res).

Definition TxPreCheck {E} (state : ChainState) : outcome E PreCheckFunc :=
  maxDataBytes ← MaxDataBytesNoEvidence (cp_MaxBytes (st_ConsensusParams state)) (length (Validators (st_Validators state)));
  Ok (PreCheckMaxBytes maxDataBytes).

Definition TxPostCheck (state : ChainState) : PostCheckFunc := PostCheckMaxGas (cp_MaxGas (st_ConsensusParams state)).

End mempool.

(** ** Numbers of peers: [mempoolIDs] of src/mempool/reactor.go *)

Record mempoolIDs := mkIDs { id_peerMap : gmap bytes Z; id_nextID : Z; id_activeIDs : gset Z }.

Definition maxActiveIDs : Z := 65535.


Definition newMempoolIDs : mempoolIDs := mkIDs ∅ 1 {[0]}.

(** Every number is tried once at most. *)
Fixpoint unused_loop (fuel : nat) (activeIDs : gset Z) (nextID : Z) : option Z :=
  match fuel with
  | O => None
  | S fuel => if bool_decide (nextID ∈ activeIDs) then unused_loop fuel activeIDs (wrapu16 (nextID + 1)) else Some nextID
  end.

Definition nextPeerID {E} : GoM mempoolIDs E Z :=
  ids ← gget;
  if Z.of_nat (size (id_activeIDs ids)) =? maxActiveIDs then gpanic
  else
    match unused_loop (Z.to_nat 65536) (id_activeIDs ids) (id_nextID ids) with
    | None => gpanic
    | Some curID => gput (mkIDs (id_peerMap ids) (wrapu16 (curID + 1)) (id_activeIDs ids));; mret curID
    end.

Definition ReserveForPeer {E} (peer : bytes) : GoM mempoolIDs E unit :=
  curID ← nextPeerID;
  gmodify (fun ids => mkIDs (<[peer := curID]> (id_peerMap ids)) (id_nextID ids) ({[curID]} ∪ id_activeIDs ids)).

Definition Reclaim (peer : bytes) (ids : mempoolIDs) : mempoolIDs :=
  match id_peerMap ids !! peer with
  | None => ids
  | Some removedID => mkIDs (delete peer (id_peerMap ids)) (id_nextID ids) (id_activeIDs ids ∖ {[removedID]})
  end.

Definition GetForPeer (ids : mempoolIDs) (peer : bytes) : Z := default 0 (id_peerMap ids !! peer).
