(* ===== verification/MempoolProps.v ===== *)
(** * What the mempool promises

    Checks of transactions run concurrently; whatever their order, the mempool
    stays within its limits and its counters are right.  As long as the cache
    remembers the transactions under check, the pool has no duplicates and nothing
    that was committed.  Reaping takes the longest prefix within the limits. *)

From Stdlib Require Import ZArith Lia.
From stdpp Require Import prelude list gmap.
From S2P Require Import Prelude SafeMath Crypto Validator ValidatorSet Proto Block VoterSet Merkle PartSet Header BlockProto Evidence ChainState BlockExec Mempool.

Local Open Scope Z_scope.
Local Open Scope go_scope.

Section mempool.
  Context {crypto : CryptoLib}.

(** ** Concurrent checks *)

(** Where a check is: it did not find the transaction in the pool, it passed the
    checks that change nothing, the cache knew the transaction or took it, it has a
    place, or the answer of the application was handled and the place is about to be
    given back. *)
Inductive stage := Looked | Allowed | Known | Pushed | Reserved | Answered.

#[global] Instance stage_eq : EqDecision stage.
Proof. solve_decision. Defined.

Record flight := mkFlight { fl_tx : bytes; fl_sender : Z; fl_stage : stage }.

(** The pool, the checks that are running, and the transactions whose place was
    lost when the connection failed. *)
Record system := mkSystem { sy_mem : CListMempool; sy_flights : list flight; sy_lost : list bytes }.

(** The transactions seen are among [U], on which the hash has no collision. *)
Context (U : bytes -> Prop) (inj_U : forall a b, U a -> U b -> TxKey a = TxKey b -> a = b).

(** What may happen: checks begin, go on, reserve, are answered and end in any
    order; a block is applied, or the pool flushed, when no check is running.  A
    look-up that finds the transaction ends the check at once.  [isFull] reads two
    counters, each at its own moment, so that [full] can be anything. *)
Inductive mem_step : system -> system -> Prop :=
| step_look mem mem' fs lost tx sender :
    U tx -> look_up tx mem = (Ok tt, mem') ->
    mem_step (mkSystem mem fs lost) (mkSystem mem' (fs ++ [mkFlight tx sender Looked]) lost)
| step_admit mem mem' fs fs' lost tx sender full w a :
    check_limits tx full w a mem = (Ok tt, mem') ->
    mem_step (mkSystem mem (fs ++ mkFlight tx sender Looked :: fs') lost) (mkSystem mem' (fs ++ mkFlight tx sender Allowed :: fs') lost)
| step_refuse mem mem' fs fs' lost tx sender full w a e :
    check_limits tx full w a mem = (Err e, mem') ->
    mem_step (mkSystem mem (fs ++ mkFlight tx sender Looked :: fs') lost) (mkSystem mem' (fs ++ fs') lost)
| step_push mem mem' fs fs' lost tx sender pushed :
    push_tx tx mem = (Ok pushed, mem') ->
    mem_step (mkSystem mem (fs ++ mkFlight tx sender Allowed :: fs') lost) (mkSystem mem' (fs ++ mkFlight tx sender (if pushed then Pushed else Known) :: fs') lost)
| step_known mem fs fs' lost tx sender :
    mem_step (mkSystem mem (fs ++ mkFlight tx sender Known :: fs') lost) (mkSystem (add_sender tx sender mem) (fs ++ fs') lost)
| step_reserve mem mem' fs fs' lost tx sender :
    reserve_or_forget tx mem = (Ok tt, mem') ->
    mem_step (mkSystem mem (fs ++ mkFlight tx sender Pushed :: fs') lost) (mkSystem mem' (fs ++ mkFlight tx sender Reserved :: fs') lost)
| step_full mem mem' fs fs' lost tx sender e :
    reserve_or_forget tx mem = (Err e, mem') ->
    mem_step (mkSystem mem (fs ++ mkFlight tx sender Pushed :: fs') lost) (mkSystem mem' (fs ++ fs') lost)
| step_answer mem fs fs' lost tx sender res :
    mem_step (mkSystem mem (fs ++ mkFlight tx sender Reserved :: fs') lost)
      (mkSystem (answer_first tx sender res mem) (fs ++ mkFlight tx sender Answered :: fs') lost)
| step_release mem mem' fs fs' lost tx sender :
    releaseReserve (lenZ tx) mem = (Ok tt, mem') ->
    mem_step (mkSystem mem (fs ++ mkFlight tx sender Answered :: fs') lost) (mkSystem mem' (fs ++ fs') lost)
| step_lost mem fs fs' lost tx sender :
    mem_step (mkSystem mem (fs ++ mkFlight tx sender Reserved :: fs') lost) (mkSystem mem (fs ++ fs') (tx :: lost))
| step_update mem mem' lost check endFails height txs responses pre post r :
    Forall U txs -> Mempool_Update check endFails height txs responses pre post mem = (r, mem') -> r <> Panic ->
    mem_step (mkSystem mem [] lost) (mkSystem mem' [] lost)
| step_remove mem fs lost key b : mem_step (mkSystem mem fs lost) (mkSystem (RemoveTxByKey key b mem) fs lost)
| step_flush mem lost : mem_step (mkSystem mem [] lost) (mkSystem (Flush mem) [] lost).

(** ** The invariant *)

Definition sizes (txs : list bytes) : Z := Zsum (lenZ <$> txs).

Definition pool_txs (mem : CListMempool) : list bytes := (fun e => mt_tx (snd e)) <$> mp_txs mem.

(** The transactions of the checks in certain stages. *)
Definition in_stages (p : stage -> bool) (fs : list flight) : list bytes := fl_tx <$> filter (fun f => p (fl_stage f) = true) fs.

Definition placed (s : stage) : bool := match s with Reserved | Answered => true | _ => false end.
Definition waiting (s : stage) : bool := match s with Reserved => true | _ => false end.

Record config_ok (c : MempoolConfig) : Prop := {
  co_size : 0 <= mc_Size c <= 1000000000000;
  co_bytes : 0 <= mc_MaxTxsBytes c <= 1000000000000000000;
  co_tx : 0 <= mc_MaxTxBytes c <= 1000000000000000000
}.

(** The list and the map of the pool fit. *)
Record pool_ok (mem : CListMempool) : Prop := {
  po_bytes : mp_txsBytes mem = sizes (pool_txs mem);
  po_range : mp_txsBytes mem <= 1000000000000000000;
  po_ids : NoDup (fst <$> mp_txs mem);
  po_next e : e ∈ mp_txs mem -> (e.1 < mp_next mem)%nat;
  po_map k i : mp_txsMap mem !! k = Some i -> exists m, (i, m) ∈ mp_txs mem /\ TxKey (mt_tx m) = k;
  po_seen tx : tx ∈ pool_txs mem -> U tx
}.

(** The map has every transaction of the pool, and there is one for each key. *)
Record exact_pool (mem : CListMempool) : Prop := {
  ex_map k i m : (i, m) ∈ mp_txs mem -> TxKey (mt_tx m) = k -> mp_txsMap mem !! k = Some i;
  ex_keys : NoDup (TxKey <$> pool_txs mem)
}.

Record within (y : system) : Prop := {
  wi_config : config_ok (mp_config (sy_mem y));
  wi_pool : pool_ok (sy_mem y);
  wi_reserved : mp_reserved (sy_mem y) = lenZ (in_stages placed (sy_flights y)) + lenZ (sy_lost y);
  wi_reservedBytes : mp_reservedBytes (sy_mem y) = sizes (in_stages placed (sy_flights y)) + sizes (sy_lost y);
  wi_few : mp_reserved (sy_mem y) <= mc_Size (mp_config (sy_mem y));
  wi_fewBytes : mp_reservedBytes (sy_mem y) <= mc_MaxTxsBytes (mp_config (sy_mem y));
  wi_size : Mempool_Size (sy_mem y) + lenZ (in_stages waiting (sy_flights y)) + lenZ (sy_lost y) <= mc_Size (mp_config (sy_mem y));
  wi_txsBytes : mp_txsBytes (sy_mem y) + sizes (in_stages waiting (sy_flights y)) + sizes (sy_lost y) <= mc_MaxTxsBytes (mp_config (sy_mem y));
  wi_txs : Forall (fun f => U (fl_tx f) /\ (fl_stage f <> Looked -> lenZ (fl_tx f) <= mc_MaxTxBytes (mp_config (sy_mem y)))) (sy_flights y)
}.

Lemma sizes_app l1 l2 : sizes (l1 ++ l2) = sizes l1 + sizes l2.
Proof. unfold sizes. by rewrite fmap_app, Zsum_app. Qed.

Lemma sizes_nonneg l : 0 <= sizes l.
Proof. unfold sizes. apply Zsum_nonneg, Forall_fmap, Forall_true. intros x. apply lenZ_nonneg. Qed.

Lemma in_stages_app p fs fs' : in_stages p (fs ++ fs') = in_stages p fs ++ in_stages p fs'.
Proof. unfold in_stages. by rewrite filter_app, fmap_app. Qed.

Lemma in_stages_cons p f fs : in_stages p (f :: fs) = (if p (fl_stage f) then [fl_tx f] else []) ++ in_stages p fs.
Proof. unfold in_stages. rewrite filter_cons. destruct (p (fl_stage f)) eqn:E; [rewrite decide_True by done|rewrite decide_False by congruence]; done. Qed.

Lemma in_stages_nil p : in_stages p [] = [].
Proof. done. Qed.

Lemma waiting_placed fs :
  lenZ (in_stages waiting fs) <= lenZ (in_stages placed fs) /\ sizes (in_stages waiting fs) <= sizes (in_stages placed fs).
Proof.
  induction fs as [|[tx sender st] fs [IH1 IH2]]; [done|]. rewrite !in_stages_cons, !lenZ_app, !sizes_app.
  pose proof (lenZ_nonneg tx). assert (sizes [tx] = lenZ tx) by (unfold sizes; cbn; lia). change (lenZ [tx]) with 1 in *.
  destruct st; cbn [placed waiting fl_stage fl_tx]; change (@lenZ bytes []) with 0 in *; change (sizes []) with 0 in *; rewrite ?H0; change (lenZ [tx]) with 1; lia.
Qed.

(** ** Changes that never grow the pool *)

Record shrinks (mem mem' : CListMempool) : Prop := {
  sh_config : mp_config mem' = mp_config mem;
  sh_reserved : mp_reserved mem' = mp_reserved mem /\ mp_reservedBytes mem' = mp_reservedBytes mem;
  sh_ok : pool_ok mem -> pool_ok mem';
  sh_size : pool_ok mem -> Mempool_Size mem' <= Mempool_Size mem;
  sh_bytes : pool_ok mem -> mp_txsBytes mem' <= mp_txsBytes mem;
  sh_sub : pool_ok mem -> sublist (pool_txs mem') (pool_txs mem);
  sh_exact : pool_ok mem -> exact_pool mem -> exact_pool mem'
}.

#[local] Instance shrinks_preorder : PreOrder shrinks.
Proof.
  split; [by intros mem|]. intros m1 m2 m3 [A1 [A2 A2'] A3 A4 A5 A6 A7] [B1 [B2 B2'] B3 B4 B5 B6 B7]. constructor; try (split; congruence); try congruence; [auto|..];
    intros Hok; specialize (A3 Hok); [specialize (A4 Hok); specialize (B4 A3); lia|specialize (A5 Hok); specialize (B5 A3); lia|exact (transitivity (B6 A3) (A6 Hok))|exact (fun X => B7 A3 (A7 Hok X))].
Qed.

(** The pool is left as it is. *)
Lemma shrinks_same mem mem' :
  mp_config mem' = mp_config mem -> mp_reserved mem' = mp_reserved mem -> mp_reservedBytes mem' = mp_reservedBytes mem ->
  mp_txsBytes mem' = mp_txsBytes mem -> mp_next mem' = mp_next mem -> mp_txs mem' = mp_txs mem -> mp_txsMap mem' = mp_txsMap mem -> shrinks mem mem'.
Proof.
  intros E1 E2 E3 E4 E5 E6 E7.
  constructor; [done|done| |intros _; unfold Mempool_Size; by rewrite E6|intros _; lia|intros _; unfold pool_txs; by rewrite E6|
    intros _ [X1 X2]; constructor; unfold pool_txs; rewrite ?E6, ?E7; done].
  intros [P1 P0 P2 P3 P4 P5]. constructor; unfold pool_txs in *; rewrite ?E4, ?E5, ?E6, ?E7; done.
Qed.

Lemma shrinks_notify mem : shrinks mem (notifyTxsAvailable mem).
Proof. unfold notifyTxsAvailable. destruct (mp_txsAvailable mem); [|done]. destruct (mp_notifiedTxsAvailable mem); [done|]. by apply shrinks_same. Qed.

Lemma shrinks_sender tx sender mem : shrinks mem (add_sender tx sender mem).
Proof.
  unfold add_sender. destruct (mp_txsMap mem !! TxKey tx) as [e|]; [|done].
  set (f := fun '(i, m) => _). assert (Hf : forall x, fst (f x) = fst x /\ mt_tx (snd (f x)) = mt_tx (snd x)) by (intros [i m]; cbn; by case_bool_decide).
  assert (Htx : (fun e => mt_tx (snd e)) <$> (f <$> mp_txs mem) = pool_txs mem).
  { unfold pool_txs. rewrite <- list_fmap_compose. apply list_fmap_ext. intros i x _. apply Hf. }
  constructor; try done; cbn.
  - intros [P1 P0 P2 P3 P4 P5]. constructor; unfold pool_txs; cbn; rewrite ?Htx; try done.
    + rewrite <- list_fmap_compose. erewrite list_fmap_ext; [exact P2|]. intros i x _. apply Hf.
    + intros x (y & -> & Hy)%list_elem_of_fmap. destruct (Hf y) as [-> _]. by apply P3.
    + intros k i Hk. destruct (P4 _ _ Hk) as (m & Hm & Hkey). exists (snd (f (i, m))). split; [|by rewrite (proj2 (Hf (i, m)))].
      apply list_elem_of_fmap. exists (i, m). split; [|done]. destruct (Hf (i, m)) as [Hi _]. destruct (f (i, m)). cbn in *. congruence.
  - intros _. unfold Mempool_Size, lenZ. cbn. by rewrite length_fmap.
  - intros _. unfold pool_txs at 1. cbn. by rewrite Htx.
  - intros _ [X1 X2]. constructor; [|unfold pool_txs; cbn; by rewrite Htx]. cbn. intros k i m ([i' m'] & Hy & Hm)%list_elem_of_fmap Hk.
    destruct (Hf (i', m')) as [F1 F2]. rewrite <- Hy in F1, F2. cbn in F1, F2. subst i'. apply (X1 k i m'); [done|]. by rewrite <- F2.
Qed.

(** Removing the element of a key takes out one transaction with that key. *)
Lemma filter_element (l : list (nat * mempoolTx)) i m :
  NoDup (fst <$> l) -> (i, m) ∈ l ->
  exists l1 l2, l = l1 ++ (i, m) :: l2 /\ filter (fun e => e.1 <> i) l = l1 ++ l2.
Proof.
  intros Hnd Hin. apply list_elem_of_split in Hin as (l1 & l2 & ->). exists l1, l2. split; [done|].
  rewrite fmap_app, fmap_cons in Hnd. apply NoDup_app in Hnd as (_ & Hd & Hnd). apply NoDup_cons in Hnd as [Hni _].
  assert (Hkeep : forall l : list (nat * mempoolTx), (forall x, x ∈ l -> fst x <> i) -> filter (fun e : nat * mempoolTx => e.1 <> i) l = l).
  { induction l as [|x l IH]; intros Hl; [done|]. rewrite filter_cons, decide_True by (apply Hl, list_elem_of_here). f_equal. apply IH. intros y Hy. apply Hl. by apply list_elem_of_further. }
  rewrite filter_app, filter_cons, decide_False by (cbn; congruence). rewrite !Hkeep; [done|..].
  - intros x Hx <-. apply Hni. apply list_elem_of_fmap. by exists x.
  - intros x Hx <-. apply (Hd (fst x)); [apply list_elem_of_fmap; by exists x|apply list_elem_of_here].
Qed.

Lemma shrinks_remove tx e b mem : U tx -> mp_txsMap mem !! TxKey tx = Some e -> shrinks mem (removeTx tx e b mem).
Proof.
  intros HU He. etrans; [|instantiate (1 := removeTx tx e false mem); unfold removeTx; destruct b; [by apply shrinks_same|done]].
  assert (Hrm : pool_ok mem -> exists l1 l2 m, mp_txs mem = l1 ++ (e, m) :: l2 /\ mp_txs (removeTx tx e false mem) = l1 ++ l2 /\ mt_tx m = tx /\
    mp_txsBytes (removeTx tx e false mem) = sizes (pool_txs mem) - lenZ tx /\ sizes (pool_txs mem) = sizes ((fun e => mt_tx (snd e)) <$> (l1 ++ l2)) + lenZ tx).
  { intros [P1 P0 P2 P3 P4 P5]. destruct (P4 _ _ He) as (m & Hm & Hk). assert (mt_tx m = tx) as Htx.
    { apply inj_U; [|done|done]. apply P5. apply list_elem_of_fmap. by exists (e, m). }
    destruct (filter_element _ _ _ P2 Hm) as (l1 & l2 & Hl & Hf). exists l1, l2, m.
    assert (Hs : sizes (pool_txs mem) = sizes ((fun e => mt_tx (snd e)) <$> (l1 ++ l2)) + lenZ tx).
    { unfold pool_txs. rewrite Hl, !fmap_app, fmap_cons, !sizes_app. unfold sizes at 2. cbn. rewrite Htx. fold (sizes ((fun e => mt_tx (snd e)) <$> l2)). unfold sizes. lia. }
    pose proof (sizes_nonneg ((fun e => mt_tx (snd e)) <$> (l1 ++ l2))). pose proof (lenZ_nonneg tx).
    split_and!; [done|exact Hf|done| |done]. unfold removeTx. cbn. rewrite P1, wrap64_id by (unfold_ints; lia). done. }
  constructor; try done.
  - intros Hok. destruct (Hrm Hok) as (l1 & l2 & m & Hl & Hf & Htx & Hb & Hs). destruct Hok as [P1 P0 P2 P3 P4 P5]. pose proof (lenZ_nonneg tx).
    constructor; unfold pool_txs; rewrite ?Hf; [lia|lia|..].
    + rewrite Hl in P2. rewrite fmap_app in *. by apply NoDup_app in P2 as (A & B & [_ C]%NoDup_cons); apply NoDup_app; split_and!; [|intros x Hx Hx2; apply (B x Hx); by apply list_elem_of_further|].
    + intros x Hx. apply P3. rewrite Hl. set_solver.
    + intros k i Hi. change (delete (TxKey tx) (mp_txsMap mem) !! k = Some i) in Hi. apply lookup_delete_Some in Hi as [Hne Hk]. destruct (P4 _ _ Hk) as (m' & Hm' & Hkey). exists m'. split; [|done]. rewrite Hl in Hm'.
      apply elem_of_app in Hm' as [?|[[= -> ->]|?]%elem_of_cons]; [apply elem_of_app; by left| |apply elem_of_app; by right]. congruence.
    + intros t Ht. apply P5. unfold pool_txs. rewrite Hl. set_solver.
  - intros Hok. destruct (Hrm Hok) as (l1 & l2 & m & Hl & Hf & _). unfold Mempool_Size. rewrite Hf, Hl, !lenZ_app, lenZ_cons. lia.
  - intros Hok. destruct (Hrm Hok) as (l1 & l2 & m & Hl & Hf & _ & Hb & _). rewrite Hb, (po_bytes _ Hok). pose proof (lenZ_nonneg tx). lia.
  - intros Hok. destruct (Hrm Hok) as (l1 & l2 & m & Hl & Hf & _). unfold pool_txs. rewrite Hf, Hl, !fmap_app, fmap_cons.
    apply sublist_app; [done|]. by apply sublist_cons.
  - intros Hok [X1 X2]. destruct (Hrm Hok) as (l1 & l2 & m & Hl & Hf & Htx & _).
    assert (Hnd : NoDup (TxKey <$> pool_txs mem)) by done. unfold pool_txs in X2. rewrite Hl, !fmap_app, !fmap_cons in X2. cbn [snd] in X2. rewrite Htx in X2.
    apply NoDup_app in X2 as (N1 & N2 & [N3 N4]%NoDup_cons). constructor.
    + intros k i m'. rewrite Hf. intros Hin Hk. change (mp_txsMap (removeTx tx e false mem)) with (delete (TxKey tx) (mp_txsMap mem)).
      rewrite lookup_delete_ne; [apply (X1 k i m'); [rewrite Hl; set_solver|done]|]. intros <-.
      apply elem_of_app in Hin as [Hin|Hin]; [apply (N2 (TxKey tx))|apply N3]; rewrite <- ?Hk; try apply list_elem_of_here;
        apply list_elem_of_fmap; exists (mt_tx m'); (split; [done|]); apply list_elem_of_fmap; by exists (i, m').
    + unfold pool_txs. rewrite Hf, !fmap_app. apply NoDup_app. split_and!; [done| |done]. intros x Hx Hx2. apply (N2 x Hx). by apply list_elem_of_further.
Qed.

Lemma shrinks_by mem mem' :
  mp_config mem' = mp_config mem -> mp_reserved mem' = mp_reserved mem -> mp_reservedBytes mem' = mp_reservedBytes mem ->
  (pool_ok mem -> shrinks mem mem') -> shrinks mem mem'.
Proof. intros E1 E2 E3 Hs. constructor; [done|done|intros Hok; by apply (Hs Hok)..]. Qed.

Lemma removeTx_frame tx e b mem :
  mp_config (removeTx tx e b mem) = mp_config mem /\ mp_reserved (removeTx tx e b mem) = mp_reserved mem /\
  mp_reservedBytes (removeTx tx e b mem) = mp_reservedBytes mem.
Proof. unfold removeTx. by destruct b. Qed.

Lemma shrinks_remove_key key b mem : shrinks mem (RemoveTxByKey key b mem).
Proof.
  unfold RemoveTxByKey. destruct (mp_txsMap mem !! key) as [e|] eqn:He; [|done]. destruct (filter _ (mp_txs mem)) as [|[i m] l] eqn:Hf; [done|].
  destruct (removeTx_frame (mt_tx m) e b mem) as (E1 & E2 & E3). apply shrinks_by; try done. intros Hok.
  assert (Hin : (i, m) ∈ filter (fun x => x.1 = e) (mp_txs mem)) by (rewrite Hf; apply list_elem_of_here).
  apply list_elem_of_filter in Hin as [Hi Hin]. cbn in Hi. subst i.
  destruct (po_map _ Hok _ _ He) as (m' & Hm' & Hk). assert (m' = m) as ->.
  { apply list_elem_of_lookup in Hin as [x Hx], Hm' as [y Hy].
    assert (x = y) as -> by (eapply NoDup_lookup; [exact (po_ids _ Hok)|by rewrite list_lookup_fmap, Hx|by rewrite list_lookup_fmap, Hy]). congruence. }
  apply shrinks_remove; [|by rewrite Hk]. apply (po_seen _ Hok), list_elem_of_fmap. by exists (e, m).
Qed.

Lemma shrinks_recheck_one tx res mem : U tx -> shrinks mem (resCbRecheck tx res mem).
Proof.
  intros HU. unfold resCbRecheck. destruct res as [r|]; [|done]. destruct (mp_txsMap mem !! TxKey tx) as [e|] eqn:He; [|done].
  case_match; [done|]. by apply shrinks_remove.
Qed.

Lemma shrinks_recheck_list check (l : list (nat * mempoolTx)) mem :
  Forall (fun e => U (mt_tx (snd e))) l -> shrinks mem (foldl (fun mem '(_, memTx) => resCbRecheck (mt_tx memTx) (check (mt_tx memTx)) mem) mem l).
Proof.
  intros Hl. revert mem. induction Hl as [|[i m] l HU _ IH]; intros mem; [done|]. cbn. etrans; [|apply IH]. by apply shrinks_recheck_one.
Qed.

Lemma recheck_frame tx res mem :
  mp_config (resCbRecheck tx res mem) = mp_config mem /\ mp_reserved (resCbRecheck tx res mem) = mp_reserved mem /\
  mp_reservedBytes (resCbRecheck tx res mem) = mp_reservedBytes mem.
Proof.
  unfold resCbRecheck. destruct res; [|done]. destruct (mp_txsMap mem !! TxKey tx); [|done]. case_match; [done|]. apply removeTx_frame.
Qed.

Lemma shrinks_recheck check mem : shrinks mem (recheckTxs check mem).
Proof.
  assert (Hf : forall (l : list (nat * mempoolTx)) m0, let m1 := foldl (fun mem '(_, memTx) => resCbRecheck (mt_tx memTx) (check (mt_tx memTx)) mem) m0 l in
    mp_config m1 = mp_config m0 /\ mp_reserved m1 = mp_reserved m0 /\ mp_reservedBytes m1 = mp_reservedBytes m0).
  { induction l as [|[i m] l IH]; intros m0; [done|]. cbn. destruct (IH (resCbRecheck (mt_tx m) (check (mt_tx m)) m0)) as (-> & -> & ->). apply recheck_frame. }
  destruct (Hf (mp_txs mem) mem) as (E1 & E2 & E3). apply shrinks_by; try done. intros Hok. apply shrinks_recheck_list.
  apply Forall_forall. intros e He. apply (po_seen _ Hok), list_elem_of_fmap. by exists e.
Qed.

Lemma shrinks_update_loop txs responses mem mem' : Forall U txs -> update_loop txs responses mem = (Ok tt, mem') -> shrinks mem mem'.
Proof.
  intros HU. revert responses mem. induction HU as [|tx txs Htx _ IH]; intros responses mem Hr; [by injection Hr as <-|].
  destruct responses as [|r responses]; [done|]. cbn [update_loop] in Hr. apply gbind_Ok in Hr as ([] & m1 & Hm & Hr). injection Hm as <-.
  etrans; [|apply (IH _ _ Hr)]. cbv beta zeta. set (m2 := set_cache mem _). transitivity m2; [by apply shrinks_same|].
  destruct (mp_txsMap mem !! TxKey tx) as [e|] eqn:He; [|done]. by apply (shrinks_remove tx e false m2).
Qed.

(** What [Update] leaves: the loop, then the recheck and the notification. *)
Definition update_rest (check : bytes -> option ResponseCheckTx) (mem : CListMempool) : CListMempool :=
  let mem := if mc_Recheck (mp_config mem) then recheckTxs check mem else mem in
  if 0 <? Mempool_Size mem then notifyTxsAvailable mem else mem.

Lemma update_loop_err txs responses mem e mem' : update_loop txs responses mem <> (Err e, mem').
Proof. revert responses mem. induction txs as [|tx txs IH]; intros [|r responses] mem; cbn [update_loop]; try discriminate. apply IH. Qed.

Lemma update_run check endFails height txs responses pre post mem r mem' :
  Mempool_Update check endFails height txs responses pre post mem = (r, mem') -> r <> Panic ->
  exists m1 m2, shrinks mem m1 /\ update_loop txs responses m1 = (Ok tt, m2) /\ mem' = update_rest check m2.
Proof.
  intros Hr Hnp. unfold Mempool_Update, mbind at 1, gom_bind at 1, gmodify at 1 in Hr. set (m1 := mkMempool _ _ _ _ _ _ _ _ _ _ _ _ _) in Hr.
  exists m1. unfold mbind at 1, gom_bind at 1 in Hr. destruct (update_loop txs responses m1) as [[[]|e|] m2] eqn:Hl; [|by apply update_loop_err in Hl|congruence].
  exists m2. split_and!; [by apply shrinks_same|done|]. unfold update_rest. cbv zeta.
  unfold mbind, gom_bind, gmodify, gget, gfail, mret, gom_ret in Hr. destruct (_ && endFails); by simplify_eq.
Qed.

Lemma shrinks_rest check mem : shrinks mem (update_rest check mem).
Proof.
  unfold update_rest. cbv zeta. set (m := if mc_Recheck (mp_config mem) then recheckTxs check mem else mem).
  transitivity m; [unfold m; destruct (mc_Recheck (mp_config mem)); [apply shrinks_recheck|done]|]. destruct (0 <? Mempool_Size m); [apply shrinks_notify|done].
Qed.

Lemma shrinks_update check endFails height txs responses pre post mem r mem' :
  Forall U txs -> Mempool_Update check endFails height txs responses pre post mem = (r, mem') -> r <> Panic -> shrinks mem mem'.
Proof.
  intros HU Hr Hnp. destruct (update_run _ _ _ _ _ _ _ _ _ _ Hr Hnp) as (m1 & m2 & H1 & H2 & ->).
  etrans; [exact H1|]. etrans; [exact (shrinks_update_loop _ _ _ _ HU H2)|apply shrinks_rest].
Qed.

Lemma shrinks_flush mem : shrinks mem (Flush mem).
Proof.
  constructor; try done.
  - intros _. constructor; cbn; try done; [by apply NoDup_nil|..]; intros *; try (by intros ?%elem_of_nil); by rewrite lookup_empty.
  - intros _. apply lenZ_nonneg.
  - intros [P1 _ _ _ _ _]. cbn. rewrite P1. apply sizes_nonneg.
  - intros _. apply sublist_nil_l.
  - intros _ _. constructor; [|by apply NoDup_nil]. by intros k i m ?%elem_of_nil.
Qed.

(** ** The steps *)

Lemma within_shrink mem mem' fs lost : within (mkSystem mem fs lost) -> shrinks mem mem' -> within (mkSystem mem' fs lost).
Proof.
  intros [W1 W2 W3 W4 W5 W6 W7 W8 W9] [S1 [S2 S2'] S3 S4 S5 _ _]. cbn in *. specialize (S4 W2). specialize (S5 W2).
  constructor; cbn; rewrite ?S1, ?S2, ?S2'; auto; lia.
Qed.

Lemma look_up_run tx mem r mem' : look_up tx mem = (r, mem') -> mem' = mem /\ (r = Ok tt -> mp_txsMap mem !! TxKey tx = None).
Proof.
  unfold look_up, mbind, gom_bind, gget. case_bool_decide as Hmap; intros [= <- <-]; [done|]. split; [done|]. intros _. by apply eq_None_not_Some.
Qed.

Lemma check_limits_run tx full w a mem r mem' :
  check_limits tx full w a mem = (r, mem') -> mem' = mem /\ (r = Ok tt -> lenZ tx <= mc_MaxTxBytes (mp_config mem)).
Proof.
  unfold check_limits, mbind, gom_bind, gget. destruct full; [by intros [= <- <-]|]. destruct (Z.ltb_spec (mc_MaxTxBytes (mp_config mem)) (lenZ tx)); [by intros [= <- <-]|].
  destruct (negb _); [by intros [= <- <-]|]. destruct w; [by intros [= <- <-]|]. destruct a; by intros [= <- <-].
Qed.

Lemma push_tx_run tx mem r mem' :
  push_tx tx mem = (r, mem') -> r = Ok (fst (cache_Push (mp_cache mem) tx)) /\ mem' = set_cache mem (snd (cache_Push (mp_cache mem) tx)).
Proof. unfold push_tx, mbind, gom_bind, gget, gput. destruct (cache_Push (mp_cache mem) tx) as [pushed cache]. by intros [= <- <-]. Qed.

Lemma within_counts y : within y ->
  0 <= lenZ (in_stages placed (sy_flights y)) /\ 0 <= sizes (in_stages placed (sy_flights y)) /\ 0 <= lenZ (in_stages waiting (sy_flights y)) /\
  0 <= sizes (in_stages waiting (sy_flights y)) /\ 0 <= lenZ (sy_lost y) /\ 0 <= sizes (sy_lost y) /\ 0 <= Mempool_Size (sy_mem y) /\ 0 <= mp_txsBytes (sy_mem y).
Proof. intros [_ W2 _ _ _ _ _ _ _]. rewrite (po_bytes _ W2). split_and!; apply lenZ_nonneg || apply sizes_nonneg. Qed.

(** Counting the flights around the one that moves. *)
Ltac counting :=
  cbn [sy_flights sy_mem sy_lost fl_stage fl_tx] in *;
  repeat first [rewrite in_stages_app in *|rewrite in_stages_cons in *|rewrite in_stages_nil in *|rewrite lenZ_app in *|rewrite sizes_app in *|
    progress cbn [fl_stage fl_tx placed waiting app] in *|progress change (@lenZ bytes []) with 0 in *|progress change (sizes []) with 0 in *].

Lemma within_begin mem fs lost tx sender : within (mkSystem mem fs lost) -> U tx -> within (mkSystem mem (fs ++ [mkFlight tx sender Looked]) lost).
Proof.
  intros [W1 W2 W3 W4 W5 W6 W7 W8 W9] HU. constructor; counting; try done; try lia. apply Forall_app; split; [done|]. by apply Forall_singleton.
Qed.

(** A check without a place goes on without one, or ends. *)
Lemma within_move mem mem' fs fs' lost tx sender s s' :
  within (mkSystem mem (fs ++ mkFlight tx sender s :: fs') lost) -> placed s = false -> placed s' = false -> shrinks mem mem' ->
  (s' <> Looked -> lenZ tx <= mc_MaxTxBytes (mp_config mem)) -> within (mkSystem mem' (fs ++ mkFlight tx sender s' :: fs') lost).
Proof.
  intros Hw Hp Hp' Hs Hlen. pose proof (within_shrink _ _ _ _ Hw Hs) as [W1 W2 W3 W4 W5 W6 W7 W8 W9]. cbn in W9. apply Forall_app in W9 as [Hf1 [[HU _] Hf2]%Forall_cons].
  assert (Hq : waiting s = false /\ waiting s' = false) by (by destruct s, s'). destruct Hq as [Hq Hq'].
  constructor; counting; rewrite ?Hp, ?Hq, ?Hp', ?Hq' in *; try done. apply Forall_app; split; [done|]. apply Forall_cons; split; [|done]. split; [done|]. by rewrite (sh_config _ _ Hs).
Qed.

Lemma within_end mem mem' fs fs' lost tx sender s :
  within (mkSystem mem (fs ++ mkFlight tx sender s :: fs') lost) -> placed s = false -> shrinks mem mem' -> within (mkSystem mem' (fs ++ fs') lost).
Proof.
  intros Hw Hp Hs. pose proof (within_shrink _ _ _ _ Hw Hs) as [W1 W2 W3 W4 W5 W6 W7 W8 W9]. cbn in W9. apply Forall_app in W9 as [Hf1 [_ Hf2]%Forall_cons].
  assert (Hq : waiting s = false) by (by destruct s). constructor; counting; rewrite ?Hp, ?Hq in *; try done. by apply Forall_app.
Qed.

Lemma sizes_one tx : sizes [tx] = lenZ tx.
Proof. unfold sizes. cbn. lia. Qed.

Lemma reserve_run tx mem r mem' fs lost :
  within (mkSystem mem fs lost) -> lenZ tx <= mc_MaxTxBytes (mp_config mem) -> reserve_or_forget tx mem = (r, mem') ->
  r <> Panic /\
  (r = Ok tt -> Mempool_Size mem + mp_reserved mem < mc_Size (mp_config mem) /\ lenZ tx + mp_reservedBytes mem + mp_txsBytes mem <= mc_MaxTxsBytes (mp_config mem) /\
     mem' = set_reserved mem (mp_reserved mem + 1) (mp_reservedBytes mem + lenZ tx)) /\
  (r <> Ok tt -> mem' = set_cache mem (cache_Remove (mp_cache mem) tx)).
Proof.
  intros Hw Hlen. pose proof (within_counts _ Hw) as (N1 & N2 & N3 & N4 & N5 & N6 & N7 & N8). destruct Hw as [[C1 C2 C3] W2 W3 W4 W5 W6 W7 W8 W9]. cbn in *.
  pose proof (lenZ_nonneg tx). unfold reserve_or_forget, reserve, mbind, gom_bind, gget.
  rewrite (wrap64_id (Mempool_Size mem + mp_reserved mem)) by (unfold_ints; lia). rewrite (wrap64_id (lenZ tx + mp_reservedBytes mem)) by (unfold_ints; lia).
  rewrite (wrap64_id (lenZ tx + mp_reservedBytes mem + mp_txsBytes mem)) by (unfold_ints; lia).
  destruct (Z.leb_spec (mc_Size (mp_config mem)) (Mempool_Size mem + mp_reserved mem)); cbn [orb]; [by intros [= <- <-]|].
  destruct (Z.ltb_spec (mc_MaxTxsBytes (mp_config mem)) (lenZ tx + mp_reservedBytes mem + mp_txsBytes mem)); [by intros [= <- <-]|].
  rewrite !wrap64_id by (unfold_ints; lia). by intros [= <- <-].
Qed.

Lemma within_place mem mem' fs fs' lost tx sender :
  within (mkSystem mem (fs ++ mkFlight tx sender Pushed :: fs') lost) -> reserve_or_forget tx mem = (Ok tt, mem') ->
  within (mkSystem mem' (fs ++ mkFlight tx sender Reserved :: fs') lost).
Proof.
  intros Hw Hr. pose proof (wi_txs _ Hw) as Hf. cbn in Hf. apply Forall_app in Hf as [Hf1 [[HU Hlen] Hf2]%Forall_cons]. cbn in HU, Hlen. specialize (Hlen ltac:(done)).
  pose proof (within_counts _ Hw) as N. destruct (reserve_run _ _ _ _ _ _ Hw Hlen Hr) as (_ & Hok & _). destruct (Hok eq_refl) as (B1 & B2 & ->).
  pose proof (waiting_placed fs). pose proof (waiting_placed fs').
  destruct Hw as [W1 W2 W3 W4 W5 W6 W7 W8 W9]. constructor; counting; cbn [mp_config set_reserved mp_reserved mp_reservedBytes mp_txsBytes] in *; rewrite ?sizes_one in *;
    change (lenZ [tx]) with 1 in *; try done; unfold Mempool_Size in *; cbn [mp_txs set_reserved] in *; try lia.
  - destruct W2. by constructor.
  - apply Forall_app; split; [done|]. by apply Forall_cons.
Qed.

Lemma addTx_ok m mem :
  pool_ok mem -> U (mt_tx m) -> mp_txsBytes mem + lenZ (mt_tx m) <= 1000000000000000000 ->
  pool_ok (addTx m mem) /\ mp_txsBytes (addTx m mem) = mp_txsBytes mem + lenZ (mt_tx m) /\ Mempool_Size (addTx m mem) = Mempool_Size mem + 1.
Proof.
  intros [P1 P0 P2 P3 P4 P5] HU Hb. pose proof (sizes_nonneg (pool_txs mem)). pose proof (lenZ_nonneg (mt_tx m)).
  assert (Eb : mp_txsBytes (addTx m mem) = mp_txsBytes mem + lenZ (mt_tx m)) by (cbn; rewrite wrap64_id by (unfold_ints; lia); done).
  split; [|split; [done|unfold Mempool_Size; cbn [mp_txs addTx set_pool]; by rewrite lenZ_app]].
  constructor; unfold pool_txs in *; [rewrite Eb|rewrite Eb; lia|..]; cbn [addTx set_pool mp_txs mp_txsMap mp_next].
  - rewrite fmap_app, sizes_app, P1. cbn [fmap list_fmap snd]. by rewrite sizes_one.
  - rewrite fmap_app. apply NoDup_app; split_and!; [done| |apply NoDup_singleton].
    intros x (e & -> & He)%list_elem_of_fmap Hx. apply list_elem_of_singleton in Hx. cbn in Hx. apply P3 in He. lia.
  - intros e [He| ->%list_elem_of_singleton]%elem_of_app; [apply P3 in He|cbn]; lia.
  - intros k i [[<- <-]|[_ Hk]]%lookup_insert_Some.
    + exists m. split; [apply elem_of_app; right; apply list_elem_of_here|done].
    + destruct (P4 _ _ Hk) as (m' & Hm & Hkey). exists m'. split; [apply elem_of_app; by left|done].
  - intros tx. rewrite fmap_app. intros [Ht| ->%list_elem_of_singleton]%elem_of_app; [by apply P5|done].
Qed.

Lemma within_answer mem fs fs' lost tx sender res :
  within (mkSystem mem (fs ++ mkFlight tx sender Reserved :: fs') lost) ->
  within (mkSystem (answer_first tx sender res mem) (fs ++ mkFlight tx sender Answered :: fs') lost).
Proof.
  intros Hw. pose proof (wi_txs _ Hw) as Hf. cbn in Hf. apply Forall_app in Hf as [Hf1 [[HU Hlen] Hf2]%Forall_cons]. cbn in HU, Hlen. specialize (Hlen ltac:(done)).
  pose proof (within_counts _ Hw) as N. destruct Hw as [W1 W2 W3 W4 W5 W6 W7 W8 W9].
  pose proof (lenZ_nonneg (in_stages waiting fs)). pose proof (lenZ_nonneg (in_stages waiting fs')). pose proof (lenZ_nonneg tx).
  pose proof (sizes_nonneg (in_stages waiting fs)). pose proof (sizes_nonneg (in_stages waiting fs')).
  assert (Hf : Forall (fun f => U (fl_tx f) /\ (fl_stage f <> Looked -> lenZ (fl_tx f) <= mc_MaxTxBytes (mp_config mem))) (fs ++ mkFlight tx sender Answered :: fs')).
  { apply Forall_app; split; [done|]. by apply Forall_cons. }
  unfold answer_first. destruct (ct_Code res =? 0).
  - apply (within_shrink (addTx (mkMempoolTx (mp_height mem) (ct_GasWanted res) tx {[sender]}) mem)); [|apply shrinks_notify].
    destruct (addTx_ok (mkMempoolTx (mp_height mem) (ct_GasWanted res) tx {[sender]}) mem W2 HU) as (Hok & Eb & Es).
    { destruct W1. counting. rewrite ?sizes_one in *. cbn. lia. }
    cbn [mt_tx] in Eb. counting. rewrite ?sizes_one in *. change (lenZ [tx]) with 1 in *.
    set (mem' := addTx _ mem) in *. change (mp_config mem) with (mp_config mem') in *. change (mp_reserved mem) with (mp_reserved mem') in *.
    change (mp_reservedBytes mem) with (mp_reservedBytes mem') in *.
    constructor; counting; rewrite ?sizes_one; change (lenZ [tx]) with 1; rewrite ?Eb, ?Es; try done; lia.
  - apply (within_shrink mem); [|destruct (negb _); [by apply shrinks_same|done]].
    counting. rewrite ?sizes_one in *. change (lenZ [tx]) with 1 in *. constructor; counting; rewrite ?sizes_one; change (lenZ [tx]) with 1; try done; lia.
Qed.

Lemma within_release mem mem' fs fs' lost tx sender :
  within (mkSystem mem (fs ++ mkFlight tx sender Answered :: fs') lost) -> releaseReserve (lenZ tx) mem = (Ok tt, mem') -> within (mkSystem mem' (fs ++ fs') lost).
Proof.
  intros Hw [= <-]. pose proof (wi_txs _ Hw) as Hf. cbn in Hf. apply Forall_app in Hf as [Hf1 [[HU Hlen] Hf2]%Forall_cons]. cbn in HU, Hlen. specialize (Hlen ltac:(done)).
  pose proof (within_counts _ Hw) as N. destruct Hw as [W1 W2 W3 W4 W5 W6 W7 W8 W9]. pose proof (lenZ_nonneg tx).
  pose proof (lenZ_nonneg (in_stages placed fs)). pose proof (lenZ_nonneg (in_stages placed fs')).
  pose proof (sizes_nonneg (in_stages placed fs)). pose proof (sizes_nonneg (in_stages placed fs')).
  counting. rewrite ?sizes_one in *. change (lenZ [tx]) with 1 in *.
  assert (E1 : mp_reserved mem -i64 1 = mp_reserved mem - 1) by (apply wrap64_id; destruct W1; unfold_ints; lia).
  assert (E2 : mp_reservedBytes mem -i64 lenZ tx = mp_reservedBytes mem - lenZ tx) by (apply wrap64_id; destruct W1; unfold_ints; lia).
  constructor; counting; cbn [mp_reserved mp_reservedBytes set_reserved mp_config mp_txsBytes]; rewrite ?E1, ?E2; try done; unfold Mempool_Size in *; cbn [mp_txs set_reserved]; try lia.
  - destruct W2. by constructor.
  - by apply Forall_app.
Qed.

(** The steps one by one. *)
Ltac step_cases H :=
  destruct H as [mem mem' fs lost tx sender HU Hc|mem mem' fs fs' lost tx sender full w a Hc|mem mem' fs fs' lost tx sender full w a e Hc|
    mem mem' fs fs' lost tx sender pushed Hc|mem fs fs' lost tx sender|mem mem' fs fs' lost tx sender Hr|mem mem' fs fs' lost tx sender e Hr|
    mem fs fs' lost tx sender res|mem mem' fs fs' lost tx sender Hr|mem fs fs' lost tx sender|mem mem' lost check endFails height txs responses pre post r HU Hu Hnp|mem fs lost key b|mem lost];
  cbn [sy_mem sy_flights sy_lost] in *.

Lemma within_step y y' : within y -> mem_step y y' -> within y'.
Proof.
  intros Hw Hs. step_cases Hs.
  - apply look_up_run in Hc as [-> _]. by apply within_begin.
  - apply check_limits_run in Hc as [-> Hlen]. eapply within_move; [exact Hw|done..|]. intros _. by apply Hlen.
  - apply check_limits_run in Hc as [-> _]. by eapply within_end.
  - pose proof (wi_txs _ Hw) as Hf. cbn in Hf. apply Forall_app in Hf as [_ [[_ Hlen] _]%Forall_cons]. apply push_tx_run in Hc as [_ ->].
    eapply within_move; [exact Hw|done|by destruct pushed|by apply shrinks_same|]. intros _. by apply Hlen.
  - eapply within_end; [exact Hw|done|apply shrinks_sender].
  - by eapply within_place.
  - pose proof (wi_txs _ Hw) as Hf. cbn in Hf. apply Forall_app in Hf as [Hf1 [[HU Hlen] Hf2]%Forall_cons]. cbn in HU, Hlen. specialize (Hlen ltac:(done)).
    destruct (reserve_run _ _ _ _ _ _ Hw Hlen Hr) as (_ & _ & ->); [|done]. eapply within_end; [exact Hw|done|by apply shrinks_same].
  - by apply within_answer.
  - by eapply within_release.
  - destruct Hw as [W1 W2 W3 W4 W5 W6 W7 W8 W9]. counting. cbn in W9. apply Forall_app in W9 as [Hf1 [_ Hf2]%Forall_cons].
    change (tx :: lost) with ([tx] ++ lost). constructor; counting; try done; try lia. by apply Forall_app.
  - eapply within_shrink; [exact Hw|]. by eapply shrinks_update.
  - eapply within_shrink; [exact Hw|]. apply shrinks_remove_key.
  - eapply within_shrink; [exact Hw|]. apply shrinks_flush.
Qed.

Lemma reserve_same tx mem r mem' : reserve_or_forget tx mem = (r, mem') -> mp_txs mem' = mp_txs mem /\ mp_config mem' = mp_config mem.
Proof. unfold reserve_or_forget, reserve, mbind, gom_bind, gget, gfail, gput. destruct (_ || _); intros Hr; by simplify_eq. Qed.

Lemma answer_pool tx sender res mem :
  pool_txs (answer_first tx sender res mem) = pool_txs mem \/ pool_txs (answer_first tx sender res mem) = pool_txs mem ++ [tx].
Proof.
  unfold answer_first, pool_txs. destruct (_ =? _); [right|left; by destruct (negb _)]. unfold notifyTxsAvailable. repeat case_match; cbn; by rewrite fmap_app.
Qed.

Lemma step_config y y' : mem_step y y' -> mp_config (sy_mem y') = mp_config (sy_mem y).
Proof.
  intros Hs. step_cases Hs.
  - by apply look_up_run in Hc as [-> _].
  - by apply check_limits_run in Hc as [-> _].
  - by apply check_limits_run in Hc as [-> _].
  - by apply push_tx_run in Hc as [_ ->].
  - apply (sh_config _ _ (shrinks_sender tx sender mem)).
  - apply (reserve_same _ _ _ _ Hr).
  - apply (reserve_same _ _ _ _ Hr).
  - unfold answer_first, notifyTxsAvailable. repeat case_match; done.
  - by injection Hr as <-.
  - done.
  - by apply (sh_config _ _ (shrinks_update _ _ _ _ _ _ _ _ _ _ HU Hu Hnp)).
  - apply (sh_config _ _ (shrinks_remove_key key b mem)).
  - done.
Qed.

Lemma within_new config height : config_ok config -> within (mkSystem (NewCListMempool config height) [] []).
Proof.
  intros Hc. pose proof Hc as [C1 C2 C3].
  assert (Hp : pool_ok (NewCListMempool config height)); [|constructor; cbn; try done; unfold Mempool_Size, sizes, lenZ; cbn; lia].
  constructor; cbn; try done; [by apply NoDup_nil|..]; intros *; try (by intros ?%elem_of_nil); by rewrite lookup_empty.
Qed.

(** ** No duplicates *)

Definition live (s : stage) : bool := match s with Pushed | Reserved => true | _ => false end.
Definition begun (s : stage) : bool := match s with Looked | Allowed => true | _ => false end.

Definition in_cache (mem : CListMempool) (tx : bytes) : Prop := exists c, mp_cache mem = Some c /\ TxKey tx ∈ ca_list c.

(** The cache remembers the transactions under check.  Pushing another one can
    make it forget the oldest, when it is full. *)
Definition cached (y : system) : Prop := forall tx, tx ∈ in_stages live (sy_flights y) -> in_cache (sy_mem y) tx.

(** Nor does it forget one which another check has added to the pool, while a check
    that has begun has not pushed it yet. *)
Definition kept (y y' : system) : Prop :=
  forall tx, tx ∈ in_stages begun (sy_flights y') -> TxKey tx ∈ TxKey <$> pool_txs (sy_mem y') -> in_cache (sy_mem y) tx -> in_cache (sy_mem y') tx.

Definition cached_step (y y' : system) : Prop := mem_step y y' /\ cached y' /\ kept y y'.

Record exact_system (y : system) : Prop := {
  es_within : within y;
  es_cached : cached y;
  es_begun : forall tx, tx ∈ in_stages begun (sy_flights y) -> TxKey tx ∈ TxKey <$> pool_txs (sy_mem y) -> in_cache (sy_mem y) tx;
  es_pool : exact_pool (sy_mem y);
  es_keys : NoDup (TxKey <$> pool_txs (sy_mem y) ++ in_stages live (sy_flights y))
}.

Lemma sublist_map {A B} (f : A -> B) (l l' : list A) : sublist l l' -> sublist (f <$> l) (f <$> l').
Proof. induction 1; cbn; by constructor. Qed.

Lemma keys_shrink mem mem' fs fs' :
  pool_ok mem -> shrinks mem mem' -> sublist (in_stages live fs') (in_stages live fs) -> NoDup (TxKey <$> pool_txs mem ++ in_stages live fs) ->
  NoDup (TxKey <$> pool_txs mem' ++ in_stages live fs').
Proof.
  intros Hok Hs Hsub Hnd. eapply sublist_NoDup; [exact Hnd|]. rewrite !fmap_app. apply sublist_app; apply sublist_map; [by apply (sh_sub _ _ Hs)|done].
Qed.

Lemma not_in_pool mem tx : exact_pool mem -> mp_txsMap mem !! TxKey tx = None -> TxKey tx ∉ TxKey <$> pool_txs mem.
Proof.
  intros [X1 _] Hn (t & Hk & (e & -> & He)%list_elem_of_fmap)%list_elem_of_fmap. destruct e as [i m]. cbn in Hk.
  rewrite (X1 _ i m He eq_refl) in Hn || (rewrite Hk in Hn; by rewrite (X1 _ i m He eq_refl) in Hn).
Qed.

Lemma push_fresh cache tx c : fst (cache_Push cache tx) = true -> cache = Some c -> TxKey tx ∉ ca_list c.
Proof. intros Hp ->. cbn in Hp. by case_bool_decide. Qed.

Lemma exact_add mem m :
  pool_ok mem -> exact_pool mem -> TxKey (mt_tx m) ∉ TxKey <$> pool_txs mem -> exact_pool (addTx m mem).
Proof.
  intros Hok [X1 X2] Hni. constructor; unfold pool_txs in *; cbn [addTx set_pool mp_txs mp_txsMap].
  - intros k i m' [Hin|[= -> ->]%list_elem_of_singleton]%elem_of_app Hk; [|subst k; apply lookup_insert_eq].
    rewrite lookup_insert_ne; [by apply (X1 k i m')|]. intros <-. apply Hni. rewrite <- Hk.
    apply list_elem_of_fmap. exists (mt_tx m'). split; [done|]. apply list_elem_of_fmap. by exists (i, m').
  - rewrite !fmap_app. apply NoDup_app. split_and!; [done| |apply NoDup_singleton]. intros x Hx ->%list_elem_of_singleton. done.
Qed.

Lemma sublist_middle {A} (l1 l2 : list A) x : sublist (l1 ++ l2) (l1 ++ x :: l2).
Proof. apply sublist_app; [done|]. by apply sublist_cons. Qed.

Lemma exact_shrink mem mem' fs fs' lost :
  exact_system (mkSystem mem fs lost) -> shrinks mem mem' -> sublist (in_stages live fs') (in_stages live fs) ->
  exact_pool mem' /\ NoDup (TxKey <$> pool_txs mem' ++ in_stages live fs').
Proof. intros [[_ Hok _ _ _ _ _ _ _] _ _ X K] Hs Hsub. cbn in *. split; [by apply (sh_exact _ _ Hs)|by eapply keys_shrink]. Qed.

Lemma live_drop fs fs' f : sublist (in_stages live (fs ++ fs')) (in_stages live (fs ++ f :: fs')).
Proof. rewrite !in_stages_app, in_stages_cons. apply sublist_app; [done|]. by apply sublist_inserts_l. Qed.

Lemma NoDup_perm {A} (l l' : list A) : l ≡ₚ l' -> NoDup l -> NoDup l'.
Proof. by intros ->. Qed.

(** A check that goes on before it is pushed, or without being pushed. *)
Lemma exact_move mem mem' fs fs' lost tx sender s s' :
  exact_system (mkSystem mem (fs ++ mkFlight tx sender s :: fs') lost) -> shrinks mem mem' -> live s' = false ->
  exact_pool mem' /\ NoDup (TxKey <$> pool_txs mem' ++ in_stages live (fs ++ mkFlight tx sender s' :: fs')).
Proof.
  intros He Hs Hl. eapply exact_shrink; [exact He|done|]. rewrite !in_stages_app, !in_stages_cons. cbn [fl_stage]. rewrite Hl.
  apply sublist_app; [done|]. by apply sublist_inserts_l.
Qed.

Lemma exact_push mem fs fs' lost tx sender :
  exact_system (mkSystem mem (fs ++ mkFlight tx sender Allowed :: fs') lost) -> fst (cache_Push (mp_cache mem) tx) = true ->
  exact_pool (set_cache mem (snd (cache_Push (mp_cache mem) tx))) /\
  NoDup (TxKey <$> pool_txs (set_cache mem (snd (cache_Push (mp_cache mem) tx))) ++ in_stages live (fs ++ mkFlight tx sender Pushed :: fs')).
Proof.
  intros He Hp. assert (Hs : shrinks mem (set_cache mem (snd (cache_Push (mp_cache mem) tx)))) by (by apply shrinks_same).
  destruct (exact_shrink _ _ _ (fs ++ fs') _ He Hs (live_drop _ _ _)) as [X K]. split; [done|].
  eapply NoDup_perm; [|apply NoDup_cons; split; [|exact K]; instantiate (1 := TxKey tx)].
  { rewrite !in_stages_app, in_stages_cons, !fmap_app. cbn. solve_Permutation. }
  assert (Hin : tx ∈ in_stages begun (fs ++ mkFlight tx sender Allowed :: fs')).
  { rewrite in_stages_app, in_stages_cons. cbn. apply elem_of_app. right. apply list_elem_of_here. }
  rewrite fmap_app. intros [Hk|(t & Ht & Hk)%list_elem_of_fmap]%elem_of_app.
  - destruct (es_begun _ He tx Hin Hk) as (c & Hc & Hc'). by apply (push_fresh _ _ _ Hp Hc).
  - destruct (es_cached _ He t) as (c & Hc & Hc'); [eapply elem_of_sublist; [exact Hk|apply live_drop]|]. apply (push_fresh _ _ _ Hp Hc). by rewrite Ht.
Qed.

Lemma exact_answer mem fs fs' lost tx sender res :
  exact_system (mkSystem mem (fs ++ mkFlight tx sender Reserved :: fs') lost) ->
  exact_pool (answer_first tx sender res mem) /\
  NoDup (TxKey <$> pool_txs (answer_first tx sender res mem) ++ in_stages live (fs ++ mkFlight tx sender Answered :: fs')).
Proof.
  intros He. rewrite in_stages_app, in_stages_cons. cbn [fl_stage live app]. rewrite <- in_stages_app. unfold answer_first. destruct (ct_Code res =? 0).
  - set (m := mkMempoolTx (mp_height mem) (ct_GasWanted res) tx {[sender]}). pose proof (wi_pool _ (es_within _ He)) as Hok. cbn [sy_mem] in Hok.
    assert (Hn : TxKey tx ∉ TxKey <$> pool_txs mem ++ in_stages live (fs ++ fs') /\ NoDup (TxKey <$> pool_txs mem ++ in_stages live (fs ++ fs'))).
    { apply NoDup_cons. eapply NoDup_perm; [|exact (es_keys _ He)]. cbn [sy_mem sy_flights]. rewrite !in_stages_app, in_stages_cons, !fmap_app. cbn. solve_Permutation. }
    destruct Hn as [Hn Hnd]. rewrite fmap_app, not_elem_of_app in Hn. destruct Hn as [Hn1 Hn2].
    assert (Ha : exact_pool (addTx m mem)) by (by apply exact_add; [|apply He|]).
    assert (Ep : pool_txs (notifyTxsAvailable (addTx m mem)) = pool_txs mem ++ [tx] /\ mp_txsMap (notifyTxsAvailable (addTx m mem)) = mp_txsMap (addTx m mem) /\ mp_txs (notifyTxsAvailable (addTx m mem)) = mp_txs (addTx m mem)).
    { unfold notifyTxsAvailable. destruct (mp_txsAvailable (addTx m mem)), (mp_notifiedTxsAvailable (addTx m mem)); unfold pool_txs; cbn; by rewrite fmap_app. }
    destruct Ep as (Ep & Em & Et). split; [destruct Ha as [X1 X2]; constructor; unfold pool_txs in *; rewrite ?Em, ?Et; done|].
    rewrite Ep. eapply NoDup_perm; [|apply NoDup_cons; split; [|exact Hnd]; rewrite fmap_app, not_elem_of_app; exact (conj Hn1 Hn2)].
    rewrite !fmap_app. cbn. solve_Permutation.
  - eapply exact_shrink; [exact He|destruct (negb _); [by apply shrinks_same|done]|apply live_drop].
Qed.

(** What a step adds to the pool was under check. *)
Lemma step_pool y y' k :
  within y -> mem_step y y' -> k ∈ TxKey <$> pool_txs (sy_mem y') ->
  k ∈ TxKey <$> pool_txs (sy_mem y) \/ exists t, t ∈ in_stages live (sy_flights y) /\ k = TxKey t.
Proof.
  intros Hw Hs. pose proof (wi_pool _ Hw) as Hok.
  assert (Hsub : forall mem mem', pool_ok mem -> shrinks mem mem' -> k ∈ TxKey <$> pool_txs mem' -> k ∈ TxKey <$> pool_txs mem).
  { intros m m' Hm Hsh Hk. eapply elem_of_sublist; [exact Hk|]. by apply sublist_map, (sh_sub _ _ Hsh). }
  step_cases Hs.
  - apply look_up_run in Hc as [-> _]. by left.
  - apply check_limits_run in Hc as [-> _]. by left.
  - apply check_limits_run in Hc as [-> _]. by left.
  - apply push_tx_run in Hc as [_ ->]. by left.
  - left. eapply Hsub; [done|apply shrinks_sender|done].
  - apply reserve_same in Hr as [Hr _]. unfold pool_txs in *. rewrite Hr. by left.
  - apply reserve_same in Hr as [Hr _]. unfold pool_txs in *. rewrite Hr. by left.
  - intros Hk. destruct (answer_pool tx sender res mem) as [E|E]; rewrite E in Hk; [by left|]. rewrite fmap_app in Hk.
    apply elem_of_app in Hk as [Hk|Hk%list_elem_of_singleton]; [by left|]. right. exists tx. split; [|done]. rewrite in_stages_app, in_stages_cons. set_solver.
  - injection Hr as <-. by left.
  - by left.
  - left. eapply Hsub; [done|by eapply shrinks_update|done].
  - left. eapply Hsub; [done|apply shrinks_remove_key|done].
  - intros Hk. by apply elem_of_nil in Hk.
Qed.

(** A check begins with a transaction that is not in the pool. *)
Lemma step_begun y y' t :
  exact_pool (sy_mem y) -> mem_step y y' -> t ∈ in_stages begun (sy_flights y') -> t ∈ in_stages begun (sy_flights y) \/ TxKey t ∉ TxKey <$> pool_txs (sy_mem y').
Proof.
  intros Hx Hs. step_cases Hs; rewrite ?in_stages_app, ?in_stages_cons, ?in_stages_nil; cbn [fl_stage fl_tx begun app]; rewrite ?app_nil_r; try set_solver.
  - apply look_up_run in Hc as [-> Hn]. intros [?| ->%list_elem_of_singleton]%elem_of_app; [by left|]. right. by apply not_in_pool, Hn.
  - destruct pushed; set_solver.
Qed.

Lemma exact_begun y y' :
  exact_system y -> cached_step y y' -> forall tx, tx ∈ in_stages begun (sy_flights y') -> TxKey tx ∈ TxKey <$> pool_txs (sy_mem y') -> in_cache (sy_mem y') tx.
Proof.
  intros He (Hs & _ & Hk) tx Hb Hp. apply Hk; [done|done|]. destruct (step_begun _ _ tx (es_pool _ He) Hs Hb) as [Hb'|?]; [|done].
  destruct (step_pool _ _ _ (es_within _ He) Hs Hp) as [Hp'|(t & Ht & Hkey)]; [by apply (es_begun _ He)|].
  destruct (es_cached _ He t Ht) as (c & Hc & Hin). exists c. by rewrite Hkey.
Qed.

Lemma exact_step y y' : exact_system y -> cached_step y y' -> exact_system y'.
Proof.
  intros He Hcs. pose proof (exact_begun _ _ He Hcs) as Hb. destruct Hcs as (Hs & Hc' & _). pose proof (within_step _ _ (es_within _ He) Hs) as Hw.
  enough (exact_pool (sy_mem y') /\ NoDup (TxKey <$> pool_txs (sy_mem y') ++ in_stages live (sy_flights y'))) as [X K] by done.
  pose proof (es_within _ He) as Hw0. clear Hb. step_cases Hs.
  - apply look_up_run in Hc as [-> _]. eapply exact_shrink; [exact He|done|]. rewrite in_stages_app. by rewrite app_nil_r.
  - apply check_limits_run in Hc as [-> _]. by eapply exact_move.
  - apply check_limits_run in Hc as [-> _]. eapply exact_shrink; [exact He|done|apply live_drop].
  - apply push_tx_run in Hc as [[= ->] ->]. destruct (fst (cache_Push (mp_cache mem) tx)) eqn:Hp; [by eapply exact_push|]. eapply exact_move; [exact He|by apply shrinks_same|done].
  - eapply exact_shrink; [exact He|apply shrinks_sender|apply live_drop].
  - pose proof (wi_txs _ Hw0) as Hf. cbn in Hf. apply Forall_app in Hf as [Hf1 [[HU Hlen] Hf2]%Forall_cons]. specialize (Hlen ltac:(done)).
    destruct (reserve_run _ _ _ _ _ _ Hw0 Hlen Hr) as (_ & Hok & _). destruct (Hok eq_refl) as (_ & _ & ->).
    destruct He as [_ _ _ [X1 X2] K]. split; [by constructor|]. cbn [sy_mem sy_flights] in K. rewrite in_stages_app, in_stages_cons in *. exact K.
  - pose proof (wi_txs _ Hw0) as Hf. cbn in Hf. apply Forall_app in Hf as [Hf1 [[HU Hlen] Hf2]%Forall_cons]. specialize (Hlen ltac:(done)).
    destruct (reserve_run _ _ _ _ _ _ Hw0 Hlen Hr) as (_ & _ & ->); [|done]. eapply exact_shrink; [exact He|by apply shrinks_same|apply live_drop].
  - by apply (exact_answer mem fs fs' lost).
  - injection Hr as <-. destruct He as [_ _ _ [X1 X2] K]. split; [by constructor|]. eapply sublist_NoDup; [exact K|]. apply sublist_map, sublist_app; [done|apply live_drop].
  - eapply exact_shrink; [exact He|done|apply live_drop].
  - eapply exact_shrink; [exact He| |done]. by eapply shrinks_update.
  - eapply exact_shrink; [exact He| |done]. apply shrinks_remove_key.
  - eapply exact_shrink; [exact He| |done]. apply shrinks_flush.
Qed.

Lemma update_loop_drops txs responses mem mem' tx :
  Forall U txs -> pool_ok mem -> exact_pool mem -> update_loop txs responses mem = (Ok tt, mem') -> tx ∈ txs -> TxKey tx ∉ TxKey <$> pool_txs mem'.
Proof.
  intros HU. revert responses mem. induction HU as [|t txs Ht HU IH]; intros responses mem Hok Hex Hr Hin; [by apply elem_of_nil in Hin|].
  destruct responses as [|r responses]; [done|]. cbn [update_loop] in Hr. apply gbind_Ok in Hr as ([] & m1 & Hm & Hr). unfold gmodify in Hm. cbv zeta in Hm.
  set (m2 := set_cache mem _) in Hm. assert (S2 : shrinks mem m2) by (by apply shrinks_same). change (mp_txsMap m2) with (mp_txsMap mem) in Hm.
  assert (S1 : shrinks m2 m1 /\ mp_txsMap m1 !! TxKey t = None).
  { destruct (mp_txsMap mem !! TxKey t) as [e|] eqn:He; injection Hm as <-; [|done]. split; [by apply (shrinks_remove t e false m2)|]. apply lookup_delete_eq. }
  destruct S1 as [S1 Hn]. pose proof (transitivity S2 S1) as Hs. apply elem_of_cons in Hin as [-> |Hin]; [|apply (IH responses m1); try done; by apply Hs].
  intros Hk. apply (not_in_pool m1 t); [by apply Hs|done|]. eapply elem_of_sublist; [exact Hk|].
  apply sublist_map, (sh_sub _ _ (shrinks_update_loop _ _ _ _ HU Hr)). by apply Hs.
Qed.

Lemma update_drops check endFails height txs responses pre post mem r mem' tx :
  Forall U txs -> pool_ok mem -> exact_pool mem -> Mempool_Update check endFails height txs responses pre post mem = (r, mem') -> r <> Panic ->
  tx ∈ txs -> TxKey tx ∉ TxKey <$> pool_txs mem'.
Proof.
  intros HU Hok Hex Hr Hnp Hin. destruct (update_run _ _ _ _ _ _ _ _ _ _ Hr Hnp) as (m1 & m2 & S1 & H2 & ->).
  pose proof (update_loop_drops _ _ _ _ tx HU (sh_ok _ _ S1 Hok) (sh_exact _ _ S1 Hok Hex) H2 Hin) as Hno.
  pose proof (sh_ok _ _ (shrinks_update_loop _ _ _ _ HU H2) (sh_ok _ _ S1 Hok)) as Hok2.
  intros Hk. apply Hno. eapply elem_of_sublist; [exact Hk|]. apply sublist_map. by apply (sh_sub _ _ (shrinks_rest check m2)).
Qed.

Lemma exact_new config height : config_ok config -> exact_system (mkSystem (NewCListMempool config height) [] []).
Proof.
  intros Hc. constructor; [by apply within_new|by intros tx ?%elem_of_nil|by intros tx ?%elem_of_nil| |by apply NoDup_nil]. constructor; [|by apply NoDup_nil]. by intros k i m ?%elem_of_nil.
Qed.

(** ** Reaping *)

(** A prefix of the pool within the limits of [ReapMaxBytesMaxGasMaxTxs]. *)
Definition fits (mem : CListMempool) (maxBytes maxGas maxTxs : Z) (n : nat) : Prop :=
  (0 < maxTxs -> Z.of_nat n <= maxTxs) /\
  (-1 < maxBytes -> ComputeProtoSizeForTxs (take n (pool_txs mem)) <= maxBytes) /\
  (-1 < maxGas -> Zsum ((fun e => mt_gasWanted (snd e)) <$> take n (mp_txs mem)) <= maxGas).

Lemma proto_size_app l1 l2 : ComputeProtoSizeForTxs (l1 ++ l2) = ComputeProtoSizeForTxs l1 + ComputeProtoSizeForTxs l2.
Proof. unfold ComputeProtoSizeForTxs, Data_Marshal, field_rep. by rewrite fmap_app, concat_app, lenZ_app. Qed.

Lemma fits_mono mem maxBytes maxGas maxTxs m n :
  (-1 < maxGas -> Forall (fun e => 0 <= mt_gasWanted (snd e)) (mp_txs mem)) -> (m <= n)%nat -> fits mem maxBytes maxGas maxTxs n -> fits mem maxBytes maxGas maxTxs m.
Proof.
  intros Hg Hmn (F1 & F2 & F3). assert (Hd : forall {A} (l : list A), take n l = take m l ++ take (n - m) (drop m l)).
  { intros A l. rewrite take_take_drop. f_equal. lia. }
  split_and!; [lia| |]; intros Hl.
  - specialize (F2 Hl). rewrite Hd, proto_size_app in F2. unfold ComputeProtoSizeForTxs at 2 in F2. pose proof (lenZ_nonneg (Data_Marshal (take (n - m) (drop m (pool_txs mem))))). lia.
  - specialize (F3 Hl). rewrite Hd, fmap_app, Zsum_app in F3. enough (0 <= Zsum ((fun e => mt_gasWanted (snd e)) <$> take (n - m) (drop m (mp_txs mem)))) by lia.
    apply Zsum_nonneg, Forall_fmap, Forall_take, Forall_drop. by apply Hg.
Qed.

(** The loop, from where [n] transactions are taken. *)
Lemma reap_from mem maxBytes maxGas maxTxs max n :
  (-1 < maxGas -> Forall (fun e => 0 <= mt_gasWanted (snd e) <= int64_max - maxGas) (mp_txs mem)) ->
  (forall k, (k <= length (mp_txs mem))%nat -> (match max with Some x => Z.of_nat k <= x | None => True end) <-> (0 < maxTxs -> Z.of_nat k <= maxTxs)) ->
  forall totalGas, (n <= length (mp_txs mem))%nat -> fits mem maxBytes maxGas maxTxs n ->
  (-1 < maxGas -> totalGas = Zsum ((fun e => mt_gasWanted (snd e)) <$> take n (mp_txs mem))) ->
  exists m, (n <= m)%nat /\ reap_loop (drop n (mp_txs mem)) maxBytes maxGas max totalGas (take n (pool_txs mem)) = take m (pool_txs mem) /\
    fits mem maxBytes maxGas maxTxs m /\ ((m < length (mp_txs mem))%nat -> ~ fits mem maxBytes maxGas maxTxs (S m)).
Proof.
  intros Hgas Hmax. remember (length (mp_txs mem) - n)%nat as d eqn:Hd. revert n Hd. induction d as [|d IH]; intros n Hd totalGas Hn Hfit Htot.
  { exists n. rewrite drop_ge by lia. split_and!; [done|done|done|lia]. }
  destruct (lookup_lt_is_Some_2 (mp_txs mem) n ltac:(lia)) as [[i m] Hi]. rewrite (drop_S _ _ _ Hi). cbn [reap_loop].
  assert (Hit : pool_txs mem !! n = Some (mt_tx m)) by (unfold pool_txs; by rewrite list_lookup_fmap, Hi).
  assert (Hlen : lenZ (take n (pool_txs mem)) = Z.of_nat n) by (unfold lenZ, pool_txs; rewrite length_take, length_fmap; lia).
  assert (Estop : ~ fits mem maxBytes maxGas maxTxs (S n) -> exists k, (n <= k)%nat /\ take n (pool_txs mem) = take k (pool_txs mem) /\
    fits mem maxBytes maxGas maxTxs k /\ ((k < length (mp_txs mem))%nat -> ~ fits mem maxBytes maxGas maxTxs (S k))) by (intros; by exists n).
  pose proof (take_S_r _ _ _ Hit) as Etx. pose proof (take_S_r _ _ _ Hi) as Eg. rewrite Hlen, <- Etx.
  destruct (match max with Some x => Z.of_nat n <? x | None => true end) eqn:Em; cbn [negb]; [|apply Estop; intros (F1 & _); apply (Hmax (S n)) in F1; [|lia]; destruct max; [lia|done]].
  destruct (Z.ltb_spec (-1) maxBytes), (Z.ltb_spec maxBytes (ComputeProtoSizeForTxs (take (S n) (pool_txs mem)))); cbn [andb]; try (apply Estop; intros (_ & F2 & _); lia).
  all: assert (Hgs : -1 < maxGas -> totalGas +i64 mt_gasWanted m = Zsum ((fun e => mt_gasWanted (snd e)) <$> take (S n) (mp_txs mem)));
    [intros Hl; specialize (Hgas Hl); specialize (Htot Hl); destruct Hfit as (_ & _ & F3); specialize (F3 Hl);
     pose proof (proj1 (Forall_lookup _ _) Hgas n _ Hi) as Hm; cbn in Hm; rewrite Eg, fmap_app, Zsum_app, <- Htot; cbn;
     assert (0 <= totalGas) by (rewrite Htot; apply Zsum_nonneg, Forall_fmap, Forall_take; eapply Forall_impl; [exact Hgas|]; cbn; lia);
     rewrite wrap64_id by (unfold_ints; unfold int64_max in *; lia); lia|].
  all: destruct (Z.ltb_spec (-1) maxGas), (Z.ltb_spec maxGas (totalGas +i64 mt_gasWanted m)); cbn [andb]; try (apply Estop; intros (_ & _ & F3); rewrite Hgs in *; lia).
  all: destruct (IH (S n) ltac:(lia) (totalGas +i64 mt_gasWanted m)) as (k & Hk & Hr & Hf & Hno); [lia| |done|exists k; split_and!; [lia|done..]].
  all: split_and!; [apply (Hmax (S n)); [lia|destruct max; [lia|done]]|lia|intros; rewrite <- Hgs; lia].
Qed.

Lemma reap_prefix mem maxBytes maxGas maxTxs max :
  (-1 < maxGas -> Forall (fun e => 0 <= mt_gasWanted (snd e) <= int64_max - maxGas) (mp_txs mem)) ->
  (forall k, (k <= length (mp_txs mem))%nat -> (match max with Some x => Z.of_nat k <= x | None => True end) <-> (0 < maxTxs -> Z.of_nat k <= maxTxs)) ->
  exists n, reap_loop (mp_txs mem) maxBytes maxGas max 0 [] = take n (pool_txs mem) /\ fits mem maxBytes maxGas maxTxs n /\
    forall k, (k <= length (mp_txs mem))%nat -> fits mem maxBytes maxGas maxTxs k -> (k <= n)%nat.
Proof.
  intros Hgas Hmax. destruct (reap_from mem maxBytes maxGas maxTxs max 0 Hgas Hmax 0) as (n & _ & Hr & Hf & Hno); [lia|split_and!; [lia|change (-1 < maxBytes -> 0 <= maxBytes); lia|change (-1 < maxGas -> 0 <= maxGas); lia]|done|].
  exists n. split_and!; [exact Hr|done|]. intros k Hk Hfk. destruct (decide (k <= n)%nat); [done|]. exfalso. apply Hno; [lia|].
  apply (fits_mono _ _ _ _ _ k); [|lia|done]. intros Hl. eapply Forall_impl; [exact (Hgas Hl)|]. cbn. lia.
Qed.

(** ** The promises *)

(** C19: whatever the order in which the checks of transactions look, are
    admitted, push to the cache, reserve their place, are answered and end, with updates, removals and flushes between
    them, the pool never has more transactions or bytes than its configuration
    allows, and its counters of bytes, places and reserved bytes are exact: they
    never wrap around.  A place whose answer never came stays reserved. *)
Theorem mempool_bounded config height y :
  config_ok config -> rtc mem_step (mkSystem (NewCListMempool config height) [] []) y ->
  Mempool_Size (sy_mem y) <= mc_Size config /\ mp_txsBytes (sy_mem y) <= mc_MaxTxsBytes config /\
  mp_txsBytes (sy_mem y) = sizes (pool_txs (sy_mem y)) /\
  mp_reserved (sy_mem y) = lenZ (in_stages placed (sy_flights y)) + lenZ (sy_lost y) /\
  mp_reservedBytes (sy_mem y) = sizes (in_stages placed (sy_flights y)) + sizes (sy_lost y).
Proof.
  intros Hc Hr. assert (Hw : within y /\ mp_config (sy_mem y) = config).
  { revert Hr. apply (rtc_ind_r (R := mem_step) (fun y => within y /\ mp_config (sy_mem y) = config)); [split; [by apply within_new|done]|].
    intros a b _ Hs [Hw <-]. split; [by eapply within_step|by eapply step_config]. }
  destruct Hw as [Hw <-]. pose proof (within_counts _ Hw). destruct Hw as [W1 W2 W3 W4 W5 W6 W7 W8 W9]. split_and!; [lia|lia|apply W2|done|done].
Qed.

(** C20: as long as the cache remembers the transactions under check, those
    pushed to it and those that another check adds to the pool before this one has
    pushed them, no transaction is in the pool twice, nor in the pool and under check
    past the cache, nor under check past the cache twice; and after a block was
    applied the pool has none of its transactions. *)
Theorem mempool_exact config height y :
  config_ok config -> rtc cached_step (mkSystem (NewCListMempool config height) [] []) y ->
  NoDup (TxKey <$> pool_txs (sy_mem y) ++ in_stages live (sy_flights y)) /\
  forall check endFails h txs responses pre post r mem', Forall U txs -> Mempool_Update check endFails h txs responses pre post (sy_mem y) = (r, mem') -> r <> Panic ->
    forall tx, tx ∈ txs -> TxKey tx ∉ TxKey <$> pool_txs mem'.
Proof.
  intros Hc Hr. assert (He : exact_system y).
  { revert Hr. apply (rtc_ind_r (R := cached_step) exact_system); [by apply exact_new|]. intros a b _ Hs He. by eapply exact_step. }
  split; [apply He|]. intros check endFails h txs responses pre post r mem' HU Hu Hnp tx Hin. eapply update_drops; [exact HU|apply He|apply He|exact Hu|exact Hnp|exact Hin].
Qed.

End mempool.

(** The transactions reaped for a block are the longest prefix of the pool
    within the limits of bytes, gas and number; a negative limit of bytes or gas,
    and a number not positive, are no limit.  The gas of each transaction has to be
    such that adding it to a total within the limit does not wrap around. *)
Theorem reap_longest {crypto : CryptoLib} mem maxBytes maxGas maxTxs :
  (-1 < maxGas -> Forall (fun e => 0 <= mt_gasWanted (snd e) <= int64_max - maxGas) (mp_txs mem)) ->
  exists n, Mempool_ReapMaxBytesMaxGasMaxTxs mem maxBytes maxGas maxTxs = take n (pool_txs mem) /\ fits mem maxBytes maxGas maxTxs n /\
    forall k, (k <= length (mp_txs mem))%nat -> fits mem maxBytes maxGas maxTxs k -> (k <= n)%nat.
Proof.
  intros Hg. apply reap_prefix; [exact Hg|]. intros k Hk. unfold Mempool_Size, lenZ. destruct (Z.leb_spec maxTxs 0); lia.
Qed.

(** ** Runs *)

Section runs.
  #[local] Existing Instance toy_crypto.

Definition small_config (cacheSize : Z) : MempoolConfig := mkMempoolConfig 2 10 cacheSize false 5 true.
Definition small_pool (cacheSize : Z) : CListMempool := NewCListMempool (small_config cacheSize) 0.
Definition two_txs (tx : bytes) : Prop := tx = [1] \/ tx = [2; 2].
Definition accept (tx : bytes) : ResponseCheckTx := mkCheckTx 0 7.

Lemma two_txs_inj a b : two_txs a -> two_txs b -> TxKey a = TxKey b -> a = b.
Proof. intros [-> | ->] [-> | ->] Hk; [done|by vm_compute in Hk|by vm_compute in Hk|done]. Qed.

Definition remembers (mem : CListMempool) (tx : bytes) : bool :=
  match mp_cache mem with Some c => bool_decide (TxKey tx ∈ ca_list c) | None => false end.

Lemma remembers_cached mem tx : remembers mem tx = true -> in_cache mem tx.
Proof. unfold remembers, in_cache. destruct (mp_cache mem) as [c|]; [|done]. intros Hb%bool_decide_eq_true. by exists c. Qed.

Lemma cached_by (y : system) : forallb (remembers (sy_mem y)) (in_stages live (sy_flights y)) = true -> cached y.
Proof. intros Hf tx Ht. rewrite forallb_forall in Hf. by apply remembers_cached, Hf, list_elem_of_In. Qed.

Lemma kept_by (y y' : system) :
  forallb (fun tx => bool_decide (TxKey tx ∉ TxKey <$> pool_txs (sy_mem y')) || remembers (sy_mem y') tx) (in_stages begun (sy_flights y')) = true -> kept y y'.
Proof.
  intros Hf tx Ht Hp _. rewrite forallb_forall in Hf. apply remembers_cached.
  apply list_elem_of_In, Hf, orb_true_iff in Ht as [Ht|Ht]; [by apply bool_decide_eq_true in Ht|done].
Qed.

(** The next step of a run, and that the cache remembers what it has to. *)
Tactic Notation "go" constr(y) "by" tactic3(tac) :=
  apply rtc_l with y; [first [split; [solve [tac]|split; [by apply cached_by; vm_compute|by apply kept_by; vm_compute]]|solve [tac]]|].

(** Two checks run at once: both look, both are pushed, and the second is answered
    first. *)
Definition pushed1 (mem : CListMempool) (a : bytes) : CListMempool := snd (push_tx a mem).
Definition pushed2 (mem : CListMempool) (a b : bytes) : CListMempool := snd (push_tx b (pushed1 mem a)).
Definition placed1 (mem : CListMempool) (a b : bytes) : CListMempool := snd (reserve_or_forget a (pushed2 mem a b)).
Definition placed2 (mem : CListMempool) (a b : bytes) : CListMempool := snd (reserve_or_forget b (placed1 mem a b)).
Definition answered2 (mem : CListMempool) (a b : bytes) : CListMempool := answer_first b 2 (accept b) (placed2 mem a b).
Definition answered (mem : CListMempool) (a b : bytes) : CListMempool := answer_first a 1 (accept a) (answered2 mem a b).

Ltac both_checked mem a b :=
  go (mkSystem mem ([] ++ [mkFlight a 1 Looked]) []) by (apply step_look; [by unfold two_txs; auto|by vm_compute]);
  go (mkSystem mem ([mkFlight a 1 Looked] ++ [mkFlight b 2 Looked]) []) by (apply step_look; [by unfold two_txs; auto|by vm_compute]);
  go (mkSystem mem ([] ++ mkFlight a 1 Allowed :: [mkFlight b 2 Looked]) []) by (apply (step_admit _ _ _ [] _ _ _ _ false false false); by vm_compute);
  go (mkSystem mem ([mkFlight a 1 Allowed] ++ mkFlight b 2 Allowed :: []) []) by (apply (step_admit _ _ _ [mkFlight a 1 Allowed] _ _ _ _ false false false); by vm_compute);
  go (mkSystem (pushed1 mem a) ([] ++ mkFlight a 1 Pushed :: [mkFlight b 2 Allowed]) []) by (apply (step_push _ _ _ [] _ _ _ _ true); by vm_compute);
  go (mkSystem (pushed2 mem a b) ([mkFlight a 1 Pushed] ++ mkFlight b 2 Pushed :: []) []) by (apply (step_push _ _ _ [mkFlight a 1 Pushed] _ _ _ _ true); by vm_compute);
  go (mkSystem (placed1 mem a b) ([] ++ mkFlight a 1 Reserved :: [mkFlight b 2 Pushed]) []) by (apply (step_reserve _ _ _ []); by vm_compute);
  go (mkSystem (placed2 mem a b) ([mkFlight a 1 Reserved] ++ mkFlight b 2 Reserved :: []) []) by (apply (step_reserve _ _ _ [mkFlight a 1 Reserved]); by vm_compute);
  go (mkSystem (answered2 mem a b) ([mkFlight a 1 Reserved] ++ mkFlight b 2 Answered :: []) []) by (apply (step_answer _ _ [mkFlight a 1 Reserved]));
  go (mkSystem (answered mem a b) ([] ++ mkFlight a 1 Answered :: [mkFlight b 2 Answered]) []) by (apply (step_answer _ _ []));
  reflexivity.

Definition both_done (mem : CListMempool) (a b : bytes) : system := mkSystem (answered mem a b) [mkFlight a 1 Answered; mkFlight b 2 Answered] [].
Definition two_done : system := both_done (small_pool 9) [1] [2; 2].

Lemma two_checks : rtc (cached_step two_txs) (mkSystem (NewCListMempool (small_config 9) 0) [] []) two_done.
Proof. both_checked (small_pool 9) [1] [2; 2]. Qed.

Lemma two_checks_steps : rtc (mem_step two_txs) (mkSystem (NewCListMempool (small_config 9) 0) [] []) two_done.
Proof. eapply rtc_subrel; [|exact two_checks]. by intros y y' [Hs _]. Qed.

Lemma small_config_ok : config_ok (small_config 9).
Proof. split; cbn; lia. Qed.

Lemma mempool_bounded_witness : pool_txs (sy_mem two_done) = [[2; 2]; [1]] /\ mp_txsBytes (sy_mem two_done) <= mc_MaxTxsBytes (small_config 9).
Proof. split; [by vm_compute|]. apply (mempool_bounded two_txs two_txs_inj (small_config 9) 0 two_done small_config_ok two_checks_steps). Defined.

(** The pool after a block with the first transaction. *)
Definition committed1 : outcome mempool_error unit * CListMempool :=
  Mempool_Update (fun _ => None) false 1 [[1]] [mkDeliverTx 0 [] [] [] 0 0 []] None None (sy_mem two_done).

Lemma committed1_ok :
  Mempool_Update (fun _ => None) false 1 [[1]] [mkDeliverTx 0 [] [] [] 0 0 []] None None (sy_mem two_done) = (Ok tt, snd committed1).
Proof. by vm_compute. Qed.

Lemma block1_seen : Forall two_txs [[1]].
Proof. apply Forall_singleton. by left. Qed.

Lemma mempool_exact_witness : pool_txs (snd committed1) = [[2; 2]] /\ TxKey [1] ∉ TxKey <$> pool_txs (snd committed1).
Proof.
  split; [by vm_compute|]. destruct (mempool_exact two_txs two_txs_inj (small_config 9) 0 two_done small_config_ok two_checks) as [_ Hu].
  exact (Hu (fun _ => None) false 1 [[1]] [mkDeliverTx 0 [] [] [] 0 0 []] None None (Ok tt) (snd committed1) block1_seen committed1_ok ltac:(discriminate) [1] (list_elem_of_here _ _)).
Defined.

Lemma two_done_len : length (mp_txs (sy_mem two_done)) = 2%nat.
Proof. by vm_compute. Qed.

Lemma two_done_gas n : (2 <= n)%nat -> Zsum ((fun e => mt_gasWanted (snd e)) <$> take n (mp_txs (sy_mem two_done))) = 14.
Proof. intros Hn. rewrite (take_ge (mp_txs (sy_mem two_done)) n) by (rewrite two_done_len; lia). by vm_compute. Qed.

Lemma reap_longest_witness : exists n, Mempool_ReapMaxBytesMaxGasMaxTxs (sy_mem two_done) (-1) 13 0 = take n (pool_txs (sy_mem two_done)) /\ n = 1%nat.
Proof.
  destruct (reap_longest (sy_mem two_done) (-1) 13 0) as (n & Hr & Hf & Hmax).
  { intros _. repeat constructor; vm_compute; discriminate. }
  exists n. split; [exact Hr|]. enough ((1 <= n)%nat /\ ~ (2 <= n)%nat) by lia. split.
  - apply Hmax; [rewrite two_done_len; lia|]. refine (conj _ (conj _ _)); [lia|lia|]. vm_compute. intros _. discriminate.
  - intros Hn. destruct Hf as (_ & _ & Hg). specialize (Hg ltac:(lia)). rewrite (two_done_gas n Hn) in Hg. lia.
Defined.

(** Without a cache, two checks of the same transaction that run at once both add
    it; the map knows the later copy only, so that one copy survives the block that
    has the transaction, and a recheck that refuses it. *)
Theorem duplicate_without_cache :
  let mem := answered (small_pool 0) [1] [1] in
  let update := Mempool_Update (fun _ => Some (mkCheckTx 1 0)) false 1 [[1]] [mkDeliverTx 0 [] [] [] 0 0 []] None None mem in
  rtc (mem_step two_txs) (mkSystem (small_pool 0) [] []) (both_done (small_pool 0) [1] [1]) /\
  pool_txs mem = [[1]; [1]] /\ fst update = Ok tt /\ pool_txs (snd update) = [[1]].
Proof. split; [both_checked (small_pool 0) [1] [1]|]. by vm_compute. Qed.

(** With a cache it can happen too: after one check looked for the transaction,
    another adds it to the pool and others push it out of the cache; the first check
    goes on from where it was, the cache takes the transaction as a new one, and it
    is in the pool twice.  The cache here has room for one transaction. *)
Theorem duplicate_after_eviction :
  exists y, rtc (mem_step two_txs) (mkSystem (small_pool 1) [] []) y /\ pool_txs (sy_mem y) = [[1]; [1]].
Proof.
  set (first := mkFlight [1] 1 Looked). set (m1 := snd (reserve_or_forget [1] (snd (push_tx [1] (small_pool 1))))).
  set (m2 := snd (releaseReserve 1 (answer_first [1] 2 (accept [1]) m1))). set (m3 := snd (push_tx [2; 2] m2)).
  set (m4 := snd (reserve_or_forget [1] (snd (push_tx [1] m3)))).
  exists (mkSystem (answer_first [1] 1 (accept [1]) m4) ([] ++ mkFlight [1] 1 Answered :: [mkFlight [2; 2] 3 Pushed]) []). split; [|by vm_compute].
  go (mkSystem (small_pool 1) ([] ++ [first]) []) by (apply step_look; [by left|by vm_compute]).
  go (mkSystem (small_pool 1) ([first] ++ [mkFlight [1] 2 Looked]) []) by (apply step_look; [by left|by vm_compute]).
  go (mkSystem (small_pool 1) ([first] ++ mkFlight [1] 2 Allowed :: []) []) by (apply (step_admit _ _ _ [first] _ _ _ _ false false false); by vm_compute).
  go (mkSystem (snd (push_tx [1] (small_pool 1))) ([first] ++ mkFlight [1] 2 Pushed :: []) []) by (apply (step_push _ _ _ [first] _ _ _ _ true); by vm_compute).
  go (mkSystem m1 ([first] ++ mkFlight [1] 2 Reserved :: []) []) by (apply (step_reserve _ _ _ [first]); by vm_compute).
  go (mkSystem (answer_first [1] 2 (accept [1]) m1) ([first] ++ mkFlight [1] 2 Answered :: []) []) by (apply (step_answer _ _ [first])).
  go (mkSystem m2 ([first] ++ []) []) by (apply (step_release _ _ _ [first]); by vm_compute).
  go (mkSystem m2 ([first] ++ [mkFlight [2; 2] 3 Looked]) []) by (apply step_look; [by right|by vm_compute]).
  go (mkSystem m2 ([first] ++ mkFlight [2; 2] 3 Allowed :: []) []) by (apply (step_admit _ _ _ [first] _ _ _ _ false false false); by vm_compute).
  go (mkSystem m3 ([first] ++ mkFlight [2; 2] 3 Pushed :: []) []) by (apply (step_push _ _ _ [first] _ _ _ _ true); by vm_compute).
  go (mkSystem m3 ([] ++ mkFlight [1] 1 Allowed :: [mkFlight [2; 2] 3 Pushed]) []) by (apply (step_admit _ _ _ [] _ _ _ _ false false false); by vm_compute).
  go (mkSystem (snd (push_tx [1] m3)) ([] ++ mkFlight [1] 1 Pushed :: [mkFlight [2; 2] 3 Pushed]) []) by (apply (step_push _ _ _ [] _ _ _ _ true); by vm_compute).
  go (mkSystem m4 ([] ++ mkFlight [1] 1 Reserved :: [mkFlight [2; 2] 3 Pushed]) []) by (apply (step_reserve _ _ _ []); by vm_compute).
  apply rtc_once, (step_answer _ _ []).
Qed.
End runs.

(** [ReapMaxTxs] takes one transaction more than asked for. *)
Theorem reap_max_txs_one_more {crypto : CryptoLib} mem max : 0 <= max -> ReapMaxTxs mem max = take (S (Z.to_nat max)) (pool_txs mem).
Proof.
  intros Hm. unfold ReapMaxTxs. destruct (Z.ltb_spec max 0); [lia|].
  enough (Hl : forall l taken, lenZ taken <= max + 1 -> reap_txs_loop l max taken = taken ++ take (Z.to_nat (max + 1 - lenZ taken)) ((fun e : nat * mempoolTx => mt_tx (snd e)) <$> l)).
  { rewrite Hl by (change (0 <= max + 1); lia). cbn [app]. f_equal. change (@lenZ bytes []) with 0. lia. }
  induction l as [|[i m] l IH]; intros taken Ht; cbn [reap_txs_loop]; [cbn; by rewrite take_nil, app_nil_r|].
  destruct (Z.leb_spec (lenZ taken) max).
  - rewrite IH by (rewrite lenZ_app; change (lenZ [mt_tx m]) with 1; lia). rewrite <- app_assoc, lenZ_app. change (lenZ [mt_tx m]) with 1.
    f_equal. replace (Z.to_nat (max + 1 - lenZ taken)) with (S (Z.to_nat (max + 1 - (lenZ taken + 1)))) by lia. done.
  - replace (max + 1 - lenZ taken) with 0 by lia. by rewrite app_nil_r.
Qed.

Section surprises.
  #[local] Existing Instance toy_crypto.

(** When the application does not answer, [CheckTxSync] keeps the place and the
    cache entry: after two such errors a pool for two transactions is empty, full,
    and does not check these transactions again. *)
Theorem failed_checks_fill_pool :
  let mem := snd (CheckTxSync (fun _ => None) [2] 1 false false (snd (CheckTxSync (fun _ => None) [1] 1 false false (small_pool 9)))) in
  pool_txs mem = [] /\ fst (CheckTxSync (fun _ => Some (accept [3])) [3] 1 false false mem) = Err ErrMempoolIsFull /\
  fst (CheckTxSync (fun _ => Some (accept [1])) [1] 1 false false mem) = Err ErrTxInCache.
Proof. by vm_compute. Qed.
End surprises.

(** ** Numbers of peers *)

(** Every number in use is a uint16, 0 is never given to a peer, and no two peers
    have the same one. *)
Record ids_ok (ids : mempoolIDs) : Prop := {
  io_active i : i ∈ id_activeIDs ids -> 0 <= i <= 65535;
  io_next : 0 <= id_nextID ids <= 65535;
  io_zero : 0 ∈ id_activeIDs ids;
  io_peers peer i : id_peerMap ids !! peer = Some i -> i ∈ id_activeIDs ids /\ i <> 0;
  io_distinct p q i : id_peerMap ids !! p = Some i -> id_peerMap ids !! q = Some i -> p = q
}.

Lemma unused_found fuel active next i : unused_loop fuel active next = Some i -> 0 <= next <= 65535 -> i ∉ active /\ 0 <= i <= 65535.
Proof.
  revert next. induction fuel as [|fuel IH]; intros next; cbn [unused_loop]; [done|]. case_bool_decide; [|intros [= <-]; done].
  intros Hu _. apply (IH _ Hu). unfold wrapu16. pose proof (Z.mod_pos_bound (next + 1) 65536). lia.
Qed.

Lemma unused_none fuel active next : unused_loop fuel active next = None -> 0 <= next <= 65535 -> forall k, (k < fuel)%nat -> wrapu16 (next + Z.of_nat k) ∈ active.
Proof.
  revert next. induction fuel as [|fuel IH]; intros next; cbn [unused_loop]; [lia|]. case_bool_decide as Hin; [|done]. intros Hu Hn k Hk.
  destruct k as [|k]; [unfold wrapu16; by rewrite Z.add_0_r, Z.mod_small by lia|].
  assert (Hb : 0 <= wrapu16 (next + 1) <= 65535) by (unfold wrapu16; pose proof (Z.mod_pos_bound (next + 1) 65536); lia).
  specialize (IH _ Hu Hb k ltac:(lia)). unfold wrapu16 in *. rewrite Zplus_mod_idemp_l in IH. by replace (next + Z.of_nat (S k)) with (next + 1 + Z.of_nat k) by lia.
Qed.

Lemma unused_all active next : unused_loop (Z.to_nat 65536) active next = None -> 0 <= next <= 65535 -> forall i, 0 <= i <= 65535 -> i ∈ active.
Proof.
  intros Hu Hn i Hi. pose proof (unused_none _ _ _ Hu Hn (Z.to_nat ((i - next) mod 65536))) as Hk. pose proof (Z.mod_pos_bound (i - next) 65536 ltac:(lia)).
  specialize (Hk ltac:(lia)). unfold wrapu16 in Hk. rewrite Z2Nat.id, Zplus_mod_idemp_r in Hk by lia. replace (next + (i - next)) with i in Hk by lia. by rewrite Z.mod_small in Hk by lia.
Qed.

Lemma full_size (active : gset Z) : (forall i, 0 <= i <= 65535 -> i ∈ active) -> 65535 < Z.of_nat (size active).
Proof.
  intros Hall. assert (Hsub : list_to_set (C := gset Z) (seqZ 0 65536) ⊆ active).
  { intros i Hi. apply elem_of_list_to_set, elem_of_seqZ in Hi. apply Hall. lia. }
  apply subseteq_size in Hsub. rewrite size_list_to_set, length_seqZ in Hsub by apply NoDup_seqZ. lia.
Qed.

(** A new peer gets a number that no other has, as long as fewer than 65535 are in
    use: the search ends and nothing panics. *)
Theorem reserve_for_peer_fresh {E} ids peer :
  ids_ok ids -> id_peerMap ids !! peer = None -> Z.of_nat (size (id_activeIDs ids)) < maxActiveIDs ->
  exists ids', ReserveForPeer (E := E) peer ids = (Ok tt, ids') /\ ids_ok ids' /\ GetForPeer ids' peer ∉ id_activeIDs ids /\ GetForPeer ids' peer <> 0.
Proof.
  intros [I1 I2 I3 I4 I5] Hp Hs. unfold ReserveForPeer, nextPeerID, mbind, gom_bind, gget, maxActiveIDs in *. rewrite (proj2 (Z.eqb_neq _ _)) by lia.
  destruct (unused_loop (Z.to_nat 65536) (id_activeIDs ids) (id_nextID ids)) as [i|] eqn:Hu.
  2: { pose proof (full_size _ (unused_all _ _ Hu I2)). lia. }
  apply unused_found in Hu as [Hni Hi]; [|done]. eexists. split; [done|]. assert (i <> 0) by (intros ->; done).
  assert (Hg : forall m : gmap bytes Z, default 0 (<[peer := i]> m !! peer) = i) by (intros; by rewrite lookup_insert_eq).
  split; [|unfold GetForPeer; cbn; by rewrite Hg]. constructor; cbn.
  - intros j [->%elem_of_singleton|Hj]%elem_of_union; [done|by apply I1].
  - unfold wrapu16. pose proof (Z.mod_pos_bound (i + 1) 65536). lia.
  - set_solver.
  - intros q j [[<- <-]|[_ Hq]]%lookup_insert_Some; [set_solver|]. apply I4 in Hq. set_solver.
  - intros p q j [[<- <-]|[Hn Hj]]%lookup_insert_Some [[<- Hj']|[Hn' Hj']]%lookup_insert_Some; [done|apply I4 in Hj'; set_solver|subst j; apply I4 in Hj; set_solver|by apply (I5 _ _ j)].
Qed.

(** A number given back is free again, and the others stay as they are. *)
Theorem reclaim_frees ids peer i :
  ids_ok ids -> id_peerMap ids !! peer = Some i ->
  ids_ok (Reclaim peer ids) /\ i ∉ id_activeIDs (Reclaim peer ids) /\ forall q, q <> peer -> GetForPeer (Reclaim peer ids) q = GetForPeer ids q.
Proof.
  intros [I1 I2 I3 I4 I5] Hp. unfold Reclaim. rewrite Hp. destruct (I4 _ _ Hp) as [Hin Hne]. split_and!; cbn; [constructor; cbn| set_solver|].
  - intros j Hj. apply I1. set_solver.
  - done.
  - set_solver.
  - intros q j [Hn Hq]%lookup_delete_Some. destruct (I4 _ _ Hq). assert (i <> j) by (intros <-; apply Hn; by eapply I5). set_solver.
  - intros p q j [_ Hj]%lookup_delete_Some [_ Hj']%lookup_delete_Some. by eapply I5.
  - intros q Hq. unfold GetForPeer. cbn. by rewrite lookup_delete_ne.
Qed.
