(* ===== verification/LightStore.v ===== *)
(** * The store and the provider of a light client

    src/light/store/db/db.go keeps trusted light blocks in a database, by prefix and
    height, with a count of them; src/light/provider/http/http.go fetches light
    blocks from a node.  The database holds messages under keys and its own
    failures are left out; heights are written with leading zeros, so that keys are
    ordered like heights.  The RPC client is a parameter: what it answers to the
    request of each number. *)

From Stdlib Require Import ZArith Lia.
From stdpp Require Import prelude list gmap sorting.
From S2P Require Import Prelude SafeMath Crypto Validator ValidatorSet Proto Block VoterSet Merkle PartSet Header Light BlockProto Evidence ChainState StateStore BlockStore EvidencePool.

Local Open Scope Z_scope.
Local Open Scope go_scope.

(** ** Messages *)

Record pbLightBlock := mk_pbLightBlock {
  pl_SignedHeader : option SignedHeader; pl_ValidatorSet : option pbValidatorSet; pl_VoterSet : option pbVoterSet
}.

Inductive light_store_error := ErrStoreEncode (e : proto_error) | ErrStoreDecode | ErrLightBlockNotInStore.


Section store.
  Context {crypto : CryptoLib} {codec : TimeCodec} {wrappers : WrapperLib}.

Definition opt_convert {E A B} (f : A -> outcome E B) (o : option A) : outcome E (option B) :=
  match o with None => Ok None | Some a => b ← f a; Ok (Some b) end.

Definition LightBlock_ToProto (lb : LightBlock) : outcome proto_error pbLightBlock :=
  vals ← opt_convert ValidatorSet_ToProto (lb_ValidatorSet lb);
  voters ← opt_convert VoterSet_ToProto (lb_VoterSet lb);
  Ok (mk_pbLightBlock (lb_SignedHeader lb) vals voters).

Definition LightBlock_FromProto (pb : pbLightBlock) : outcome light_store_error LightBlock :=
  sh ← lift_err (fun _ => ErrStoreDecode) (opt_convert SignedHeaderFromProto (pl_SignedHeader pb));
  vals ← lift_err (fun _ => ErrStoreDecode) (opt_convert (fun p => ValidatorSetFromProto (Some p)) (pl_ValidatorSet pb));
  voters ← lift_err (fun _ => ErrStoreDecode) (opt_convert (fun p => VoterSet_FromProto (Some p)) (pl_VoterSet pb));
  Ok (mkLightBlock sh vals voters).

(** ** The store *)

(** The blocks of every prefix; the one key [size] holds two bytes. *)
Record lightDB := mkLightDB { ld_blocks : gmap (bytes * Z) pbLightBlock; ld_size : option Z }.

Record dbs := mkDbs { ls_db : lightDB; ls_prefix : bytes; ls_size : Z }.

Abbreviation StoreM := (GoM dbs light_store_error).

Definition New (db : lightDB) (prefix : bytes) : dbs := mkDbs db prefix (default 0 (ld_size db)).

(** The header of a light block; following a nil pointer panics. *)
Definition lb_Header {E} (lb : LightBlock) : outcome E Header := sh ← deref (lb_SignedHeader lb); deref (sh_Header sh).

(** The heights the iterators go through, in order.  A key of a prefix with a
    slash does not parse. *)
Definition stored_heights (s : dbs) : list Z :=
  if bool_decide (47 ∈ ls_prefix s) then []
  else merge_sort Z.le (snd <$> filter (fun k => fst k = ls_prefix s /\ 1 <= snd k <= int64_max) (fst <$> map_to_list (ld_blocks (ls_db s)))).

Definition SaveLightBlock (lb : LightBlock) : StoreM unit :=
  h ← glift (lb_Header lb);
  if h_Height h <=? 0 then gpanic
  else
    lbpb ← glift (lift_err ErrStoreEncode (LightBlock_ToProto lb));
    gmodify (fun s => mkDbs (mkLightDB (<[(ls_prefix s, h_Height h) := lbpb]> (ld_blocks (ls_db s))) (Some (wrapu16 (ls_size s + 1))))
                        (ls_prefix s) (wrapu16 (ls_size s + 1))).

Definition DeleteLightBlock (height : Z) : StoreM unit :=
  if height <=? 0 then gpanic
  else gmodify (fun s => mkDbs (mkLightDB (delete (ls_prefix s, height) (ld_blocks (ls_db s))) (Some (wrapu16 (ls_size s - 1))))
                           (ls_prefix s) (wrapu16 (ls_size s - 1))).

Definition LoadLightBlock (s : dbs) (height : Z) : outcome light_store_error LightBlock :=
  if height <=? 0 then Panic
  else match ld_blocks (ls_db s) !! (ls_prefix s, height) with
       | None => Err ErrLightBlockNotInStore
       | Some lbpb => LightBlock_FromProto lbpb
       end.

Definition LastLightBlockHeight (s : dbs) : Z := default (-1) (last (stored_heights s)).

Definition FirstLightBlockHeight (s : dbs) : Z := default (-1) (head (stored_heights s)).

Definition LightBlockBefore (s : dbs) (height : Z) : outcome light_store_error LightBlock :=
  if height <=? 0 then Panic
  else match last (filter (fun h => h < height) (stored_heights s)) with
       | None => Err ErrLightBlockNotInStore
       | Some existingHeight => LoadLightBlock s existingHeight
       end.

Definition Prune (size : Z) (s : dbs) : dbs :=
  if ls_size s <=? size then s
  else
    let numToPrune := Z.to_nat (ls_size s - size) in
    let pruned := take numToPrune (stored_heights s) in
    let left := wrapu16 (ls_size s - lenZ pruned) in
    mkDbs (mkLightDB (foldr (fun h => delete (ls_prefix s, h)) (ld_blocks (ls_db s)) pruned) (Some left)) (ls_prefix s) left.

End store.

(** ** The provider *)

Inductive provider_error := ErrHeightTooHigh | ErrLightBlockNotFound | ErrNoResponse | ErrContext | ErrBadLightBlock | ErrOtherProvider.

(** The errors of the RPC client, by the texts the provider looks for. *)
Inductive rpc_error := RpcTooHigh | RpcMissingHeight | RpcTimedOut | RpcContext | RpcOther.

Record ResultValidatorsWithVoters := mkResultValidators { rv_Validators : list Validator; rv_VoterIndices : list Z; rv_Total : Z }.

(** What the node answers to the request of a number, for a height ([None]: the
    latest) and a page. *)
Record RemoteClient := {
  rpc_Commit : nat -> option Z -> SignedHeader + rpc_error;
  rpc_ValidatorsWithVoters : nat -> Z -> Z -> Z -> ResultValidatorsWithVoters + rpc_error
}.

Definition passed_on (e : rpc_error) : provider_error := match e with RpcContext => ErrContext | _ => ErrOtherProvider end.

Section provider.
  Context {crypto : CryptoLib} {codec : TimeCodec} {wrappers : WrapperLib}.
  Context (client : RemoteClient).

(** The state is the number of requests made. *)
Abbreviation HttpM := (GoM nat provider_error).

Definition ask {A} (f : nat -> A) : HttpM A := fun n => (Ok (f n), S n).

Definition maxRetryAttempts : nat := 5.
Definition maxPages : nat := 100.

Fixpoint signedHeader (attempts : nat) (height : option Z) : HttpM SignedHeader :=
  match attempts with
  | O => gfail ErrNoResponse
  | S attempts =>
      commit ← ask (fun n => rpc_Commit client n height);
      match commit with
      | inl sh => mret sh
      | inr RpcTooHigh => gfail ErrHeightTooHigh
      | inr RpcMissingHeight => gfail ErrLightBlockNotFound
      | inr RpcTimedOut => signedHeader attempts height
      | inr e => gfail (passed_on e)
      end
  end.

(** One page: the last attempt that fails is answered with [ErrNoResponse]. *)
Fixpoint validators_page (attempts : nat) (height page perPage : Z) : HttpM ResultValidatorsWithVoters :=
  match attempts with
  | O => gfail ErrNoResponse
  | S attempts =>
      res ← ask (fun n => rpc_ValidatorsWithVoters client n height page perPage);
      match res with
      | inl res => mret res
      | inr RpcTooHigh => gfail ErrHeightTooHigh
      | inr RpcMissingHeight => gfail ErrLightBlockNotFound
      | inr e =>
          if bool_decide (attempts = O) then gfail ErrNoResponse
          else match e with RpcTimedOut => validators_page attempts height page perPage | _ => gfail (passed_on e) end
      end
  end.

Fixpoint all_idx {E A} (l : list A) (indices : list Z) : outcome E (list A) :=
  match indices with [] => Ok [] | i :: indices => x ← idx l i; xs ← all_idx l indices; Ok (x :: xs) end.

Fixpoint pages_loop (pages : nat) (height page : Z) (vals voters : list Validator) (total : Z) : HttpM (list Validator * list Validator) :=
  match pages with
  | O => mret (vals, voters)
  | S pages =>
      if lenZ vals =? total then mret (vals, voters)
      else
        res ← validators_page maxRetryAttempts height page 100;
        if bool_decide (rv_Validators res = []) then gfail ErrBadLightBlock
        else if rv_Total res <=? 0 then gfail ErrBadLightBlock
        else
          more ← glift (all_idx (rv_Validators res) (rv_VoterIndices res));
          pages_loop pages height (page + 1) (vals ++ rv_Validators res) (voters ++ more) (rv_Total res)
  end.

Definition validatorSetAndVoterSet (height : Z) : HttpM (ValidatorSet * VoterSet) :=
  '(vals, voters) ← pages_loop maxPages height 1 [] [] (-1);
  valSet ← glift (lift_err (fun _ => ErrBadLightBlock) (ValidatorSetFromExistingValidators vals));
  voterSet ← glift (WrapValidatorsToVoterSet voters);
  mret (valSet, voterSet).

Definition http_LightBlock (chainID : bytes) (height : Z) : HttpM LightBlock :=
  if height <? 0 then gfail ErrBadLightBlock
  else
    sh ← signedHeader maxRetryAttempts (if height =? 0 then None else Some height);
    h ← glift (deref (sh_Header sh));
    if negb (height =? 0) && negb (h_Height h =? height) then gfail ErrBadLightBlock
    else
      '(valSet, voterSet) ← validatorSetAndVoterSet (h_Height h);
      let lb := mkLightBlock (Some sh) (Some valSet) (Some voterSet) in
      glift (lift_err (fun _ => ErrBadLightBlock) (LightBlock_ValidateBasic chainID lb));;
      mret lb.

End provider.
