(* ===== verification/LightClient.v ===== *)
(** * The light client: src/light/client.go and src/light/detector.go

    A client follows a chain by the light blocks of a primary provider.  It verifies
    them against the ones it trusts, compares them with its witnesses, and keeps
    them in its store ([LightStore]).  A provider that fails is replaced by a witness.

    Providers are numbers, and a [Network] says what each answers to the request of
    each number; it is arbitrary, so a provider may answer the same question
    differently each time.  Where goroutines ask all witnesses at once, their messages arrive
    in the order of an arbitrary schedule.  Loops take the fuel that
    LightClientEnds.v shows to be enough.  The options that only matter for time
    ([maxBlockLag]) or retries, the logger and the mutex are left out. *)

From Stdlib Require Import ZArith Lia.
From stdpp Require Import prelude list gmap sorting.
From S2P Require Import Prelude SafeMath Crypto Validator ValidatorSet Proto Block VoterSet Merkle PartSet Header Light BlockProto Evidence ChainState StateStore BlockStore EvidencePool LightStore.

Local Open Scope Z_scope.
Local Open Scope go_scope.

(** ** Data *)

Definition provider : Type := nat.

Record Network := {
  net_ChainID : provider -> bytes;
  net_LightBlock : nat -> provider -> Z -> LightBlock + provider_error;
  (** The order in which messages of goroutines arrive. *)
  net_schedule : nat -> list nat;
  (** [confirmationFn]. *)
  net_confirm : nat -> bool
}.

Inductive mode := sequential | skipping.

Record TrustOptions := mkTrustOptions { to_Period : Z; to_Height : Z; to_Hash : bytes }.

(** [LightClientAttackEvidence] as the detector makes it. *)
Record attackEvidence := mkAttack {
  at_ConflictingBlock : LightBlock; at_CommonHeight : Z; at_ByzantineValidators : list (option Validator); at_TotalVotingPower : Z; at_Timestamp : Time
}.

(** [lc_turn] counts requests and [lc_sent] has the evidence sent. *)
Record Client := mkClient {
  lc_chainID : bytes;
  lc_trustingPeriod : Z;
  lc_verificationMode : mode;
  lc_trustLevel : Fraction;
  lc_maxClockDrift : Z;
  lc_pruningSize : Z;
  lc_primary : provider;
  lc_witnesses : list provider;
  lc_trustedStore : dbs;
  lc_latestTrustedBlock : option LightBlock;
  lc_turn : nat;
  lc_sent : list (provider * attackEvidence)
}.

Inductive client_error :=
| ErrNoWitnesses | ErrWitnessChain | ErrTrustLevel | ErrTrustOptions | ErrTrustedStore (e : light_store_error) | ErrFromProvider (e : provider_error)
| ErrRefusedCleanup | ErrInvalidFirst (e : light_basic_error) | ErrFirstHash | ErrFirstCommit (e : verify_error) | ErrConflictingFirst (i : nat)
| ErrNoHeaders | ErrUnverified | ErrNegativeHeight | ErrNilHeader | ErrDifferentHeader
| ErrVerification (from to : Z) (reason : client_error) | ErrVerifier (e : light_error) | ErrProviderFailed | ErrVoterSetNotTrusted (got needed : Z)
| ErrSingleTrace | ErrLightClientAttack | ErrFailedHeaderCrossReferencing
| ErrTargetTooLow | ErrTraceTime | ErrDifferentFirst | ErrNoDivergence
| NotEnded.

Definition set_providers (c : Client) (primary : provider) (witnesses : list provider) : Client :=
  mkClient (lc_chainID c) (lc_trustingPeriod c) (lc_verificationMode c) (lc_trustLevel c) (lc_maxClockDrift c) (lc_pruningSize c) primary witnesses
    (lc_trustedStore c) (lc_latestTrustedBlock c) (lc_turn c) (lc_sent c).

Definition set_store (c : Client) (s : dbs) : Client :=
  mkClient (lc_chainID c) (lc_trustingPeriod c) (lc_verificationMode c) (lc_trustLevel c) (lc_maxClockDrift c) (lc_pruningSize c) (lc_primary c)
    (lc_witnesses c) s (lc_latestTrustedBlock c) (lc_turn c) (lc_sent c).

Definition set_latest (c : Client) (l : option LightBlock) : Client :=
  mkClient (lc_chainID c) (lc_trustingPeriod c) (lc_verificationMode c) (lc_trustLevel c) (lc_maxClockDrift c) (lc_pruningSize c) (lc_primary c)
    (lc_witnesses c) (lc_trustedStore c) l (lc_turn c) (lc_sent c).

Definition set_turn (c : Client) (turn : nat) : Client :=
  mkClient (lc_chainID c) (lc_trustingPeriod c) (lc_verificationMode c) (lc_trustLevel c) (lc_maxClockDrift c) (lc_pruningSize c) (lc_primary c)
    (lc_witnesses c) (lc_trustedStore c) (lc_latestTrustedBlock c) turn (lc_sent c).

Definition add_sent (receiver : provider) (ev : attackEvidence) (c : Client) : Client :=
  mkClient (lc_chainID c) (lc_trustingPeriod c) (lc_verificationMode c) (lc_trustLevel c) (lc_maxClockDrift c) (lc_pruningSize c) (lc_primary c)
    (lc_witnesses c) (lc_trustedStore c) (lc_latestTrustedBlock c) (lc_turn c) (lc_sent c ++ [(receiver, ev)]).

Abbreviation LcM := (GoM Client client_error).

(** An error that the caller handles. *)
Definition gtry {S E A} (m : GoM S E A) : GoM S E (A + E) := fun s =>
  match m s with (Ok a, s') => (Ok (inl a), s') | (Err e, s') => (Ok (inr e), s') | (Panic, s') => (Panic, s') end.

Fixpoint gmapM {S E A B} (f : A -> GoM S E B) (l : list A) : GoM S E (list B) :=
  match l with [] => mret [] | a :: l => b ← f a; bs ← gmapM f l; mret (b :: bs) end.

(** The first [n] messages of goroutines, each of which sends those of a queue in
    order: the schedule says whose message is next. *)
Fixpoint first_ready {A} (queues : list (list A)) : option nat :=
  match queues with [] => None | [] :: queues => S <$> first_ready queues | (_ :: _) :: _ => Some O end.

Definition next_sender {A} (queues : list (list A)) (schedule : list nat) : option nat :=
  match schedule with
  | i :: _ => match queues !! i with Some (_ :: _) => Some i | _ => first_ready queues end
  | [] => first_ready queues
  end.

Fixpoint receive {A} (n : nat) (queues : list (list A)) (schedule : list nat) : list A :=
  match n with
  | O => []
  | S n =>
      match next_sender queues schedule with
      | None => []
      | Some i =>
          match queues !! i with
          | Some (m :: q) => m :: receive n (<[i := q]> queues) (tail schedule)
          | _ => []
          end
      end
  end.

Section client.
  Context {crypto : CryptoLib} {codec : TimeCodec} {wrappers : WrapperLib}.
  Context (net : Network).

(** The hash of a nil header is nil. *)
Definition lb_Hash {E} (lb : LightBlock) : outcome E bytes :=
  sh ← deref (lb_SignedHeader lb); Ok (match sh_Header sh with Some h => Header_Hash h | None => [] end).
Definition lb_Height {E} (lb : LightBlock) : outcome E Z := h ← lb_Header lb; Ok (h_Height h).
Definition lb_Commit {E} (lb : LightBlock) : outcome E Commit := sh ← deref (lb_SignedHeader lb); deref (sh_Commit sh).

(** A call of the store. *)
Definition on_store {A} (m : GoM dbs light_store_error A) : LcM A := fun c =>
  let '(r, s) := m (lc_trustedStore c) in (lift_err ErrTrustedStore r, set_store c s).

Definition from_store {A} (f : dbs -> outcome light_store_error A) : LcM A := c ← gget; glift (lift_err ErrTrustedStore (f (lc_trustedStore c))).

(** [provider.LightBlock]. *)
Definition request (p : provider) (height : Z) : LcM (LightBlock + provider_error) := fun c =>
  (Ok (net_LightBlock net (lc_turn c) p height), set_turn c (S (lc_turn c))).

Definition schedule : LcM (list nat) := fun c => (Ok (net_schedule net (lc_turn c)), set_turn c (S (lc_turn c))).

Definition confirmationFn : LcM bool := fun c => (Ok (net_confirm net (lc_turn c)), set_turn c (S (lc_turn c))).

(** ** Providers *)

Definition benign (e : provider_error) : bool :=
  match e with ErrNoResponse | ErrLightBlockNotFound | ErrHeightTooHigh => true | _ => false end.

(** The last element takes the place of the one removed. *)
Definition swap_remove (witnesses : list provider) (i : nat) : outcome client_error (list provider) :=
  match last witnesses, witnesses !! i with
  | Some w, Some _ => Ok (take (length witnesses - 1) (<[i := w]> witnesses))
  | _, _ => Panic
  end.

Fixpoint swap_remove_all (witnesses : list provider) (indexes : list nat) : outcome client_error (list provider) :=
  match indexes with [] => Ok witnesses | i :: indexes => ws ← swap_remove witnesses i; swap_remove_all ws indexes end.

Definition removeWitnesses (indexes : list nat) : LcM unit :=
  c ← gget;
  if bool_decide (length (lc_witnesses c) <= length indexes)%nat then gfail ErrNoWitnesses
  else ws ← glift (swap_remove_all (lc_witnesses c) (reverse (merge_sort Nat.le indexes))); gput (set_providers c (lc_primary c) ws).

(** The responses as they come in. *)
Fixpoint promote (responses : list (nat * (LightBlock + provider_error))) (remove : bool) (witnessesToRemove : list nat) (lastError : client_error) : LcM LightBlock :=
  match responses with
  | [] => gtry (removeWitnesses witnessesToRemove);; gfail lastError
  | (i, inl lb) :: _ =>
      c ← gget;
      let witnesses := if remove then lc_witnesses c else lc_witnesses c ++ [lc_primary c] in
      match witnesses !! i with
      | None => gpanic
      | Some w =>
          gput (set_providers c w witnesses);;
          removeWitnesses (witnessesToRemove ++ [i]);;
          mret lb
      end
  | (i, inr e) :: responses => promote responses remove (if benign e then witnessesToRemove else witnessesToRemove ++ [i]) (ErrFromProvider e)
  end.

Definition findNewPrimary (height : Z) (remove : bool) : LcM LightBlock :=
  c ← gget;
  if bool_decide (lc_witnesses c = []) then gfail ErrNoWitnesses
  else
    responses ← gmapM (fun w => request w height) (lc_witnesses c);
    order ← schedule;
    promote (receive (length responses) (imap (fun i r => [(i, r)]) responses) order) remove [] ErrNoWitnesses.

Definition lightBlockFromPrimary (height : Z) : LcM LightBlock :=
  c ← gget;
  r ← request (lc_primary c) height;
  match r with
  | inl l => mret l
  | inr ErrContext => gfail (ErrFromProvider ErrContext)
  | inr e => findNewPrimary height (negb (benign e))
  end.

(** ** Comparison with the witnesses *)

Inductive comparison := Matching | Conflicting (lb : LightBlock) (i : nat) | BadWitness (i : nat) | OtherError (e : provider_error).

(** Whether the block is of the height asked for. *)
Definition getTargetBlockOrLatest (height : Z) (witness : provider) : LcM ((bool * LightBlock) + provider_error) :=
  r ← request witness 0;
  match r with
  | inr e => mret (inr e)
  | inl lightBlock =>
      h ← glift (lb_Height lightBlock);
      if h =? height then mret (inl (true, lightBlock))
      else if height <? h then
        r ← request witness height;
        match r with inl lightBlock => mret (inl (true, lightBlock)) | inr e => mret (inr e) end
      else mret (inl (false, lightBlock))
  end.

(** The end of [compareNewHeaderWithWitness]: a conflict is reported, and then the
    message of a match is sent as well. *)
Definition compare_hashes (h : Header) (lightBlock : LightBlock) (i : nat) : LcM (list comparison) :=
  hash ← glift (lb_Hash lightBlock);
  mret (if negb (bytes_eqb (Header_Hash h) hash) then [Conflicting lightBlock i; Matching] else [Matching]).

(** The messages a witness sends. *)
Definition compareNewHeaderWithWitness (h : Header) (witness : provider) (i : nat) : LcM (list comparison) :=
  r ← request witness (h_Height h);
  match r with
  | inl lightBlock => compare_hashes h lightBlock i
  | inr ErrHeightTooHigh =>
      r ← getTargetBlockOrLatest (h_Height h) witness;
      match r with
      | inr e => mret [OtherError e]
      | inl (true, lightBlock) => compare_hashes h lightBlock i
      | inl (false, lightBlock) =>
          lh ← glift (lb_Header lightBlock);
          if negb (h_Time lh <? h_Time h) then mret [Conflicting lightBlock i]
          else
            r ← getTargetBlockOrLatest (h_Height h) witness;
            match r with
            | inr ErrContext => mret [OtherError ErrContext]
            | inr _ => mret [BadWitness i]
            | inl (true, lightBlock) => compare_hashes h lightBlock i
            | inl (false, lightBlock) =>
                lh ← glift (lb_Header lightBlock);
                if negb (h_Time lh <? h_Time h) then mret [Conflicting lightBlock i] else mret [OtherError ErrNoResponse]
            end
      end
  | inr ErrNoResponse => mret [OtherError ErrNoResponse]
  | inr ErrLightBlockNotFound => mret [OtherError ErrLightBlockNotFound]
  | inr ErrContext => mret [OtherError ErrContext]
  | inr _ => mret [BadWitness i]
  end.

(** As many messages as there are witnesses are read. *)
Definition comparisons (h : Header) : LcM (list comparison) :=
  c ← gget;
  queues ← gmapM (fun '(i, w) => compareNewHeaderWithWitness h w i) (imap pair (lc_witnesses c));
  order ← schedule;
  mret (receive (length (lc_witnesses c)) queues order).

Fixpoint first_loop (errs : list comparison) (witnessesToRemove : list nat) : LcM unit :=
  match errs with
  | [] => gtry (removeWitnesses witnessesToRemove);; mret tt
  | Matching :: errs => first_loop errs witnessesToRemove
  | Conflicting _ i :: _ => gfail (ErrConflictingFirst i)
  | BadWitness i :: errs => first_loop errs (witnessesToRemove ++ [i])
  | OtherError ErrContext :: _ => gfail (ErrFromProvider ErrContext)
  | OtherError _ :: errs => first_loop errs witnessesToRemove
  end.

Definition compareFirstHeaderWithWitnesses (h : Header) : LcM unit :=
  c ← gget;
  if bool_decide (lc_witnesses c = []) then gfail ErrNoWitnesses
  else errs ← comparisons h; first_loop errs [].

(** ** The detector *)

Definition skip_answer (r : LightBlock + provider_error) : provider_answer :=
  match r with inl lb => Found lb | inr e => if benign e then Benign else Malevolent end.

(** Enough rounds for [verifySkipping] between two heights: [skipping_ends]; a
    block that is not higher is refused in the first one. *)
Definition skip_fuel (low high : Z) : nat := S (Z.to_nat (2 * (high - low) * (high - low + 2))).

Definition client_options (c : Client) (now : Time) : lightOptions :=
  mkOptions (lc_trustingPeriod c) now (lc_maxClockDrift c) (lc_trustLevel c).

(** [verifySkipping] with a provider; the numbers of its requests are left out
    afterwards. *)
Definition skip_with (source : provider) (trustedBlock newLightBlock : LightBlock) (now : Time) : LcM (list LightBlock + skip_error) := fun c =>
  match lb_Height (E:=client_error) trustedBlock, lb_Height (E:=client_error) newLightBlock with
  | Ok low, Ok high =>
      let fuel := skip_fuel low high in
      let answers := fun n h => skip_answer (net_LightBlock net (lc_turn c + n) source h) in
      match verifySkipping fuel (client_options c now) answers trustedBlock newLightBlock with
      | None => (Err NotEnded, c)
      | Some (Ok trace) => (Ok (inl trace), set_turn c (lc_turn c + fuel))
      | Some (Err e) => (Ok (inr e), set_turn c (lc_turn c + fuel))
      | Some Panic => (Panic, c)
      end
  | _, _ => (Panic, c)
  end.

Definition skip_failure (e : skip_error) : client_error :=
  match e with
  | ErrCantBeTrusted got needed => ErrVoterSetNotTrusted got needed
  | ErrVerificationFailed from to (Some reason) => ErrVerification from to (ErrVerifier reason)
  | ErrVerificationFailed from to None => ErrVerification from to ErrProviderFailed
  end.

(** An error of it is passed on. *)
Definition skip_or_fail (source : provider) (trustedBlock newLightBlock : LightBlock) (now : Time) : LcM (list LightBlock) :=
  r ← skip_with source trustedBlock newLightBlock now;
  match r with inl trace => mret trace | inr e => gfail (skip_failure e) end.

Fixpoint examine_loop (trace : list LightBlock) (targetBlock : LightBlock) (source : provider) (now : Time) (previous : option LightBlock)
    (sourceTrace : list LightBlock) : LcM (list LightBlock * LightBlock) :=
  match trace with
  | [] => gfail ErrNoDivergence
  | traceBlock :: trace =>
      tb ← glift (lb_Header traceBlock);
      target ← glift (lb_Header targetBlock);
      if h_Height target <? h_Height tb then
        if h_Time target <? h_Time tb then gfail ErrTraceTime
        else
          previouslyVerifiedBlock ← glift (deref previous);
          ph ← glift (lb_Height previouslyVerifiedBlock);
          if negb (ph =? h_Height target) then
            sourceTrace ← skip_or_fail source previouslyVerifiedBlock targetBlock now;
            mret (sourceTrace, traceBlock)
          else mret (sourceTrace, traceBlock)
      else
        sourceBlock ← (if h_Height tb =? h_Height target then mret targetBlock
                       else r ← request source (h_Height tb); match r with inl lb => mret lb | inr e => gfail (ErrFromProvider e) end);
        shash ← glift (lb_Hash sourceBlock);
        match previous with
        | None =>
            if negb (bytes_eqb shash (Header_Hash tb)) then gfail ErrDifferentFirst
            else examine_loop trace targetBlock source now (Some sourceBlock) sourceTrace
        | Some previouslyVerifiedBlock =>
            sourceTrace ← skip_or_fail source previouslyVerifiedBlock sourceBlock now;
            if negb (bytes_eqb shash (Header_Hash tb)) then mret (sourceTrace, traceBlock)
            else examine_loop trace targetBlock source now (Some sourceBlock) sourceTrace
        end
  end.

Definition examineConflictingHeaderAgainstTrace (trace : list LightBlock) (targetBlock : LightBlock) (source : provider) (now : Time)
  : LcM (list LightBlock * LightBlock) :=
  first ← glift (idx trace 0);
  th ← glift (lb_Height targetBlock);
  fh ← glift (lb_Height first);
  if th <? fh then gfail ErrTargetTooLow else examine_loop trace targetBlock source now None [].

Definition newLightClientAttackEvidence (conflicted trusted common : LightBlock) : outcome client_error attackEvidence :=
  conflictedHeader ← lb_Header conflicted;
  trustedHeader ← lb_Header trusted;
  let source := if ConflictingHeaderIsInvalid trustedHeader conflictedHeader then common else trusted in
  header ← lb_Header source;
  voters ← deref (lb_VoterSet source);
  '(total, _) ← TotalVotingWeight voters;
  commonVoters ← deref (lb_VoterSet common);
  trustedSigned ← deref (lb_SignedHeader trusted);
  byzantine ← GetByzantineValidators (mkLightClientAttack conflicted (h_Height header) None total (h_Time header)) commonVoters trustedSigned;
  Ok (mkAttack conflicted (h_Height header) byzantine total (h_Time header)).

Definition sendEvidence (ev : attackEvidence) (receiver : provider) : LcM unit := gmodify (add_sent receiver ev).

(** The common block is the first of a trace and the trusted one its last. *)
Definition attack_evidence (conflicted : LightBlock) (trace : list LightBlock) : outcome client_error attackEvidence :=
  commonBlock ← idx trace 0;
  trustedBlock ← idx trace (lenZ trace - 1);
  newLightClientAttackEvidence conflicted trustedBlock commonBlock.

(** [NotEnded] is no error of the code. *)
Definition handleConflictingHeaders (primaryTrace : list LightBlock) (challengingBlock : LightBlock) (witnessIndex : nat) (now : Time) : LcM unit :=
  c ← gget;
  supportingWitness ← glift (idx (lc_witnesses c) (Z.of_nat witnessIndex));
  r ← gtry (examineConflictingHeaderAgainstTrace primaryTrace challengingBlock supportingWitness now);
  match r with
  | inr NotEnded => gfail NotEnded
  | inr _ => mret tt
  | inl (witnessTrace, primaryBlock) =>
      evidenceAgainstPrimary ← glift (attack_evidence primaryBlock witnessTrace);
      sendEvidence evidenceAgainstPrimary supportingWitness;;
      _ ← glift (lb_Commit primaryBlock);
      trusted ← glift (idx witnessTrace (lenZ witnessTrace - 1));
      _ ← glift (lb_Commit trusted);
      r ← gtry (examineConflictingHeaderAgainstTrace witnessTrace primaryBlock (lc_primary c) now);
      match r with
      | inr NotEnded => gfail NotEnded
      | inr _ => gfail ErrLightClientAttack
      | inl (primaryTrace, witnessBlock) =>
          evidenceAgainstWitness ← glift (attack_evidence witnessBlock primaryTrace);
          sendEvidence evidenceAgainstWitness (lc_primary c);;
          gfail ErrLightClientAttack
      end
  end.

Fixpoint detect_loop (errs : list comparison) (primaryTrace : list LightBlock) (now : Time) (headerMatched : bool) (witnessesToRemove : list nat) : LcM unit :=
  match errs with
  | [] =>
      removeWitnesses witnessesToRemove;;
      if headerMatched then mret tt else gfail ErrFailedHeaderCrossReferencing
  | Matching :: errs => detect_loop errs primaryTrace now true witnessesToRemove
  | Conflicting lb i :: errs =>
      handleConflictingHeaders primaryTrace lb i now;;
      detect_loop errs primaryTrace now headerMatched (witnessesToRemove ++ [i])
  | BadWitness i :: errs => detect_loop errs primaryTrace now headerMatched (witnessesToRemove ++ [i])
  | OtherError ErrContext :: _ => gfail (ErrFromProvider ErrContext)
  | OtherError _ :: errs => detect_loop errs primaryTrace now headerMatched witnessesToRemove
  end.

Definition detectDivergence (primaryTrace : list LightBlock) (now : Time) : LcM unit :=
  if lenZ primaryTrace <? 2 then gfail ErrSingleTrace
  else
    lastBlock ← glift (idx primaryTrace (lenZ primaryTrace - 1));
    h ← glift (lb_Header lastBlock);
    c ← gget;
    if bool_decide (lc_witnesses c = []) then gfail ErrNoWitnesses
    else errs ← comparisons h; detect_loop errs primaryTrace now false [].

(** ** Verification *)

Definition adjacent (c : Client) (verifiedBlock interimBlock : LightBlock) (now : Time) : outcome light_error unit :=
  vsh ← deref (lb_SignedHeader verifiedBlock); ish ← deref (lb_SignedHeader interimBlock);
  vals ← deref (lb_ValidatorSet interimBlock); voters ← deref (lb_VoterSet interimBlock);
  VerifyAdjacent vsh ish vals voters (lc_trustingPeriod c) now (lc_maxClockDrift c).

Definition is_invalid_header (e : light_error) : bool := match e with ErrInvalidHeader _ => true | _ => false end.

(** The primary is replaced; the new one must have the same block, else the
    original error is returned. *)
Definition replace_primary (newHeight : Z) (newHash : bytes) (original : client_error) : LcM LightBlock :=
  r ← gtry (findNewPrimary newHeight true);
  match r with
  | inr _ => gfail original
  | inl replacementBlock =>
      hash ← glift (lb_Hash replacementBlock);
      if negb (bytes_eqb hash newHash) then gfail original else mret replacementBlock
  end.

Fixpoint sequential_loop (fuel : nat) (verifiedBlock newLightBlock : LightBlock) (height : Z) (now : Time) (trace : list LightBlock) : LcM (list LightBlock) :=
  newHeight ← glift (lb_Height newLightBlock);
  newHash ← glift (lb_Hash newLightBlock);
  verifiedHeight ← glift (lb_Height verifiedBlock);
  if newHeight <? height then mret trace
  else
    match fuel with
    | O => gfail NotEnded
    | S fuel =>
        r ← (if height =? newHeight then mret (inl newLightBlock) else gtry (lightBlockFromPrimary height));
        match r with
        | inr e => gfail (ErrVerification verifiedHeight height e)
        | inl interimBlock =>
            interimHeight ← glift (lb_Height interimBlock);
            c ← gget;
            match adjacent c verifiedBlock interimBlock now with
            | Panic => gpanic
            | Ok _ => sequential_loop fuel interimBlock newLightBlock (height +i64 1) now (trace ++ [interimBlock])
            | Err e =>
                let err := ErrVerification verifiedHeight interimHeight (ErrVerifier e) in
                if is_invalid_header e && negb (interimHeight =? newHeight) then
                  replace_primary newHeight newHash err;;
                  sequential_loop fuel verifiedBlock newLightBlock height now trace
                else gfail err
            end
        end
    end.

(** A round per height and one per primary replaced. *)
Definition loop_fuel (distance : Z) (c : Client) : nat := Z.to_nat distance + length (lc_witnesses c).

Definition verifySequential (trustedBlock newLightBlock : LightBlock) (now : Time) : LcM unit :=
  low ← glift (lb_Height trustedBlock);
  high ← glift (lb_Height newLightBlock);
  c ← gget;
  trace ← sequential_loop (loop_fuel (high - low) c) trustedBlock newLightBlock (low +i64 1) now [trustedBlock];
  detectDivergence trace now.

(** An error without a reason to unwrap is treated as none, and the nil trace is
    then refused. *)
Fixpoint skipping_loop (fuel : nat) (trustedBlock newLightBlock : LightBlock) (now : Time) : LcM unit :=
  c ← gget;
  newHeight ← glift (lb_Height newLightBlock);
  newHash ← glift (lb_Hash newLightBlock);
  r ← skip_with (lc_primary c) trustedBlock newLightBlock now;
  match r with
  | inl trace => detectDivergence trace now
  | inr (ErrCantBeTrusted _ _) => detectDivergence [] now
  | inr (ErrVerificationFailed from to reason as e) =>
      if match reason with Some e => is_invalid_header e | None => false end && negb (to =? newHeight) then
        replacementBlock ← replace_primary newHeight newHash (skip_failure e);
        match fuel with O => gfail NotEnded | S fuel => skipping_loop fuel trustedBlock replacementBlock now end
      else gfail (skip_failure e)
  end.

Definition verifySkippingAgainstPrimary (trustedBlock newLightBlock : LightBlock) (now : Time) : LcM unit :=
  c ← gget; skipping_loop (length (lc_witnesses c)) trustedBlock newLightBlock now.

Fixpoint backwards (fuel : nat) (verifiedHeader newHeader : Header) : LcM unit :=
  if h_Height verifiedHeader <=? h_Height newHeader then mret tt
  else
    match fuel with
    | O => gfail NotEnded
    | S fuel =>
        interimBlock ← lightBlockFromPrimary (h_Height verifiedHeader -i64 1);
        interimHeader ← glift (lb_Header interimBlock);
        match VerifyBackwards interimHeader verifiedHeader with
        | Panic => gpanic
        | Ok _ => backwards fuel interimHeader newHeader
        | Err e =>
            newPrimarysBlock ← replace_primary (h_Height newHeader) (Header_Hash newHeader) (ErrVerifier e);
            header ← glift (lb_Header newPrimarysBlock);
            backwards fuel verifiedHeader header
        end
    end.

(** ** The trusted blocks *)

Definition updateTrustedLightBlock (l : LightBlock) : LcM unit :=
  on_store (SaveLightBlock l);;
  c ← gget;
  (if 0 <? lc_pruningSize c then on_store (gmodify (Prune (lc_pruningSize c))) else mret tt);;
  height ← glift (lb_Height l);
  match lc_latestTrustedBlock c with
  | None => gmodify (fun c => set_latest c (Some l))
  | Some latest => lh ← glift (lb_Height latest); if lh <? height then gmodify (fun c => set_latest c (Some l)) else mret tt
  end.

Definition restoreTrustedLightBlock : LcM unit :=
  c ← gget;
  let lastHeight := LastLightBlockHeight (lc_trustedStore c) in
  if 0 <? lastHeight then
    trustedBlock ← from_store (fun s => LoadLightBlock s lastHeight);
    gmodify (fun c => set_latest c (Some trustedBlock))
  else mret tt.

Definition Cleanup : LcM unit := gmodify (fun c => set_store (set_latest c None) (Prune 0 (lc_trustedStore c))).

(** The blocks before [prevHeight] and after [height] go, the highest first: one
    is deleted in each round. *)
Fixpoint cleanup_loop (fuel : nat) (height prevHeight : Z) : LcM unit :=
  c ← gget;
  match LightBlockBefore (lc_trustedStore c) prevHeight with
  | Panic => gpanic
  | Err ErrLightBlockNotInStore => mret tt
  | Err e => gfail (ErrTrustedStore e)
  | Ok h =>
      hh ← glift (lb_Height h);
      if hh <=? height then mret tt
      else
        match fuel with
        | O => gfail NotEnded
        | S fuel => on_store (DeleteLightBlock hh);; cleanup_loop fuel height hh
        end
  end.

Definition cleanupAfter (height : Z) : LcM unit :=
  c ← gget;
  latest ← glift (deref (lc_latestTrustedBlock c));
  prevHeight ← glift (lb_Height latest);
  cleanup_loop (length (stored_heights (lc_trustedStore c))) height prevHeight;;
  gmodify (fun c => set_latest c None);;
  restoreTrustedLightBlock.

Definition verifyLightBlock (newLightBlock : LightBlock) (now : Time) : LcM unit :=
  c ← gget;
  let verifyFunc := match lc_verificationMode c with sequential => verifySequential | skipping => verifySkippingAgainstPrimary end in
  let firstBlockHeight := FirstLightBlockHeight (lc_trustedStore c) in
  new ← glift (lb_Header newLightBlock);
  latest ← glift (deref (lc_latestTrustedBlock c));
  latestHeight ← glift (lb_Height latest);
  (if latestHeight <=? h_Height new then verifyFunc latest newLightBlock now
   else if h_Height new <? firstBlockHeight then
     firstBlock ← from_store (fun s => LoadLightBlock s firstBlockHeight);
     first ← glift (lb_Header firstBlock);
     backwards (loop_fuel (h_Height first - h_Height new) c) first new
   else
     closestBlock ← from_store (fun s => LightBlockBefore s (h_Height new));
     verifyFunc closestBlock newLightBlock now);;
  updateTrustedLightBlock newLightBlock.

(** ** What users call *)

Definition compareWithLatestHeight (height : Z) : LcM Z :=
  c ← gget;
  let latestHeight := LastLightBlockHeight (lc_trustedStore c) in
  if latestHeight =? -1 then gfail ErrNoHeaders
  else if latestHeight <? height then gfail ErrUnverified
  else if height =? 0 then mret latestHeight
  else if height <? 0 then gfail ErrNegativeHeight
  else mret height.

Definition TrustedLightBlock (height : Z) : LcM LightBlock :=
  height ← compareWithLatestHeight height;
  from_store (fun s => LoadLightBlock s height).

Definition Update (now : Time) : LcM (option LightBlock) :=
  c ← gget;
  let lastTrustedHeight := LastLightBlockHeight (lc_trustedStore c) in
  if lastTrustedHeight =? -1 then mret None
  else
    latestBlock ← lightBlockFromPrimary 0;
    height ← glift (lb_Height latestBlock);
    if lastTrustedHeight <? height then verifyLightBlock latestBlock now;; mret (Some latestBlock)
    else mret None.

Definition VerifyLightBlockAtHeight (height : Z) (now : Time) : LcM LightBlock :=
  if height <=? 0 then gfail ErrNegativeHeight
  else
    r ← gtry (TrustedLightBlock height);
    match r with
    | inl h => mret h
    | inr _ =>
        l ← lightBlockFromPrimary height;
        verifyLightBlock l now;;
        mret l
    end.

Definition VerifyHeader (newHeader : option Header) (now : Time) : LcM unit :=
  match newHeader with
  | None => gfail ErrNilHeader
  | Some newHeader =>
      if h_Height newHeader <=? 0 then gfail ErrNegativeHeight
      else
        r ← gtry (TrustedLightBlock (h_Height newHeader));
        match r with
        | inl l =>
            hash ← glift (lb_Hash l);
            if negb (bytes_eqb hash (Header_Hash newHeader)) then gfail ErrDifferentHeader else mret tt
        | inr _ =>
            l ← lightBlockFromPrimary (h_Height newHeader);
            hash ← glift (lb_Hash l);
            if negb (bytes_eqb hash (Header_Hash newHeader)) then gfail ErrDifferentHeader else verifyLightBlock l now
        end
  end.

(** ** Starting a client *)

Definition TrustOptions_ValidateBasic (opts : TrustOptions) : bool :=
  negb (to_Period opts <=? 0) && negb (to_Height opts <=? 0) && (lenZ (to_Hash opts) =? 32).

Definition checkTrustedHeaderUsingOptions (options : TrustOptions) : LcM unit :=
  c ← gget;
  latest ← glift (deref (lc_latestTrustedBlock c));
  height ← glift (lb_Height latest);
  primaryHash ← (if height <? to_Height options then h ← lightBlockFromPrimary height; hash ← glift (lb_Hash h); mret (Some hash)
                 else if to_Height options =? height then mret (Some (to_Hash options))
                 else
                   confirmed ← confirmationFn;
                   if (confirmed : bool) then cleanupAfter (to_Height options);; mret (Some (to_Hash options)) else mret None);
  match primaryHash with
  | None => mret tt
  | Some primaryHash =>
      c ← gget;
      latest ← glift (deref (lc_latestTrustedBlock c));
      hash ← glift (lb_Hash latest);
      if negb (bytes_eqb primaryHash hash) then
        confirmed ← confirmationFn;
        if (confirmed : bool) then Cleanup else gfail ErrRefusedCleanup
      else mret tt
  end.

Definition initializeWithTrustOptions (options : TrustOptions) : LcM unit :=
  l ← lightBlockFromPrimary (to_Height options);
  c ← gget;
  glift (lift_err ErrInvalidFirst (LightBlock_ValidateBasic (lc_chainID c) l));;
  h ← glift (lb_Header l);
  if negb (bytes_eqb (Header_Hash h) (to_Hash options)) then gfail ErrFirstHash
  else
    voters ← glift (deref (lb_VoterSet l));
    commit ← glift (lb_Commit l);
    glift (lift_err ErrFirstCommit (fst (VerifyCommitLight (lc_chainID c) (c_BlockID commit) (h_Height h) (Some commit) voters)));;
    compareFirstHeaderWithWitnesses h;;
    updateTrustedLightBlock l.

(** The client the options apply to, before its store is read; a client made by
    the constructors verifies sequentially, as [SkippingVerification] panics. *)
Definition new_client (chainID : bytes) (trustingPeriod : Z) (primary : provider) (witnesses : list provider) (trustedStore : dbs) : Client :=
  mkClient chainID trustingPeriod sequential (mkFraction 1 3) 10000000000 1000 primary witnesses trustedStore None 0 [].

(** [options] are functions on the client. *)
Definition NewClientFromTrustedStore (chainID : bytes) (trustingPeriod : Z) (primary : provider) (witnesses : list provider) (trustedStore : dbs)
    (options : list (Client -> Client)) : outcome client_error unit * Client :=
  (c ← gget;
   if bool_decide (lc_witnesses c = []) then gfail ErrNoWitnesses
   else if negb (forallb (fun w => bytes_eqb (net_ChainID net w) chainID) witnesses) then gfail ErrWitnessChain
   else if negb (ValidateTrustLevel (lc_trustLevel c)) then gfail ErrTrustLevel
   else restoreTrustedLightBlock)
  (foldl (fun c o => o c) (new_client chainID trustingPeriod primary witnesses trustedStore) options).

Definition NewClient (chainID : bytes) (trustOptions : TrustOptions) (primary : provider) (witnesses : list provider) (trustedStore : dbs)
    (options : list (Client -> Client)) : outcome client_error unit * Client :=
  if negb (TrustOptions_ValidateBasic trustOptions) then (Err ErrTrustOptions, new_client chainID (to_Period trustOptions) primary witnesses trustedStore)
  else
    match NewClientFromTrustedStore chainID (to_Period trustOptions) primary witnesses trustedStore options with
    | (Ok _, c) =>
        (c ← gget;
         (if bool_decide (lc_latestTrustedBlock c = None) then mret tt else checkTrustedHeaderUsingOptions trustOptions);;
         c ← gget;
         match lc_latestTrustedBlock c with
         | None => initializeWithTrustOptions trustOptions
         | Some latest =>
             height ← glift (lb_Height latest);
             if height <? to_Height trustOptions then initializeWithTrustOptions trustOptions else mret tt
         end) c
    | (r, c) => (r, c)
    end.
End client.
