(* ===== verification/LightClientProps.v ===== *)
(** * What the light client promises

    Which blocks a client comes to trust, that its loops end whatever the
    providers answer, and what its comparison with the witnesses shows; with the
    inputs for which it trusts a forged block. *)

From Stdlib Require Import ZArith Lia.
From stdpp Require Import prelude list gmap sorting.
From S2P Require Import Prelude SafeMath Crypto Validator ValidatorSet Proto Block VoterSet Merkle PartSet Header Light BlockProto Evidence ChainState StateStore BlockStore EvidencePool VerifyCommit LightStore LightClient.

Local Open Scope Z_scope.
Local Open Scope go_scope.

(** ** What the network leaves alone *)

(** Requests change the providers, the count of requests and the evidence sent. *)
Record same_trust (c c' : Client) : Prop := {
  sm_chainID : lc_chainID c' = lc_chainID c;
  sm_period : lc_trustingPeriod c' = lc_trustingPeriod c;
  sm_mode : lc_verificationMode c' = lc_verificationMode c;
  sm_level : lc_trustLevel c' = lc_trustLevel c;
  sm_drift : lc_maxClockDrift c' = lc_maxClockDrift c;
  sm_pruning : lc_pruningSize c' = lc_pruningSize c;
  sm_store : lc_trustedStore c' = lc_trustedStore c;
  sm_latest : lc_latestTrustedBlock c' = lc_latestTrustedBlock c
}.

#[global] Instance same_trust_preorder : PreOrder same_trust.
Proof. split; [by intros c|]. intros c1 c2 c3 [] []. constructor; congruence. Qed.

Section keeps.
  Context {S E : Type} (R : relation S) `{!PreOrder R}.

Lemma keeps_gtry {A} (m : GoM S E A) : keeps R m -> keeps R (gtry m).
Proof. intros Hm s. specialize (Hm s). unfold gtry. by destruct (m s) as [[]]. Qed.

Lemma keeps_gmapM {A B} (f : A -> GoM S E B) l : (forall a, keeps R (f a)) -> keeps R (gmapM f l).
Proof. intros Hf. induction l as [|a l IH]; cbn [gmapM]; [kept_same|]. kept_bind; [apply Hf|]. intros b. kept_bind; [exact IH|]. intros bs. kept_same. Qed.

End keeps.

Section frame.
  Context {crypto : CryptoLib} {codec : TimeCodec} {wrappers : WrapperLib} (net : Network).

Notation kept m := (keeps same_trust m).

(** Opens binds and branches until the parts are known to be kept. *)
Ltac kept_step :=
  match goal with
  | |- keeps _ (glift _) => kept_same
  | |- keeps _ gget => kept_same
  | |- keeps _ (mret _) => kept_same
  | |- keeps _ (gfail _) => kept_same
  | |- keeps _ gpanic => kept_same
  | |- keeps _ (gtry _) => apply keeps_gtry
  | |- keeps _ (_ ≫= _) => kept_bind; [|intros ?]
  | |- keeps _ (if ?b then _ else _) => destruct b
  | |- keeps _ (match ?x with _ => _ end) => destruct x
  end.

Lemma kept_request p h : kept (request net p h).
Proof. by intros c. Qed.
Lemma kept_schedule : kept (schedule net).
Proof. by intros c. Qed.
Lemma kept_providers p ws c : same_trust c (set_providers c p ws).
Proof. by constructor. Qed.

Lemma kept_removeWitnesses l : kept (removeWitnesses l).
Proof.
  intros c. unfold removeWitnesses, mbind, gom_bind, gget. destruct (bool_decide _); [done|]. unfold glift.
  destruct (swap_remove_all _ _); cbn; [apply kept_providers|done..].
Qed.

Lemma kept_promote rs remove l e : kept (promote rs remove l e).
Proof.
  revert l e. induction rs as [|[i [lb|e']] rs IH]; intros l e; cbn [promote].
  - kept_bind; [apply keeps_gtry, kept_removeWitnesses|]. intros ?. kept_same.
  - intros c. unfold mbind at 1, gom_bind at 1, gget. destruct ((if remove then _ else _) !! i) as [w|]; [|done].
    unfold mbind, gom_bind, gput. set (c1 := set_providers _ _ _). assert (Hc : same_trust c c1) by apply kept_providers. etrans; [exact Hc|].
    pose proof (kept_removeWitnesses (l ++ [i]) c1) as Hr. by destruct (removeWitnesses (l ++ [i]) c1) as [[]].
  - apply IH.
Qed.

Lemma kept_findNewPrimary h remove : kept (findNewPrimary net h remove).
Proof.
  unfold findNewPrimary. kept_step; [kept_same|]. kept_step; [kept_same|]. kept_bind; [apply keeps_gmapM; [apply _|]; intros; apply kept_request|].
  intros ?. kept_bind; [apply kept_schedule|]. intros ?. apply kept_promote.
Qed.

Lemma kept_lightBlockFromPrimary h : kept (lightBlockFromPrimary net h).
Proof.
  unfold lightBlockFromPrimary. kept_step; [kept_same|]. kept_bind; [apply kept_request|]. intros [l|e]; [kept_same|].
  destruct e; try kept_same; apply kept_findNewPrimary.
Qed.

Lemma kept_getTarget h w : kept (getTargetBlockOrLatest net h w).
Proof.
  unfold getTargetBlockOrLatest. kept_bind; [apply kept_request|]. intros [lb|e]; [|kept_same]. kept_step; [kept_same|]. kept_step; [kept_same|]. kept_step; [|kept_same].
  kept_bind; [apply kept_request|]. intros [|]; kept_same.
Qed.

Lemma kept_compare_hashes h lb i : kept (compare_hashes h lb i).
Proof. unfold compare_hashes. kept_step; kept_same. Qed.

Lemma kept_compare h w i : kept (compareNewHeaderWithWitness net h w i).
Proof.
  unfold compareNewHeaderWithWitness. kept_bind; [apply kept_request|]. intros [lb|e]; [apply kept_compare_hashes|]. destruct e; try kept_same.
  kept_bind; [apply kept_getTarget|]. intros [[[] lb]|e]; [apply kept_compare_hashes| |kept_same]. kept_step; [kept_same|]. kept_step; [kept_same|].
  kept_bind; [apply kept_getTarget|]. intros [[[] lb']|e]; [apply kept_compare_hashes| |destruct e; kept_same]. kept_step; [kept_same|]. kept_step; kept_same.
Qed.

Lemma kept_comparisons h : kept (comparisons net h).
Proof.
  unfold comparisons. kept_step; [kept_same|]. kept_bind; [apply keeps_gmapM; [apply _|]; intros [i w]; apply kept_compare|]. intros ?. kept_bind; [apply kept_schedule|]. intros ?. kept_same.
Qed.

Lemma kept_skip source a b now : kept (skip_with net source a b now).
Proof. intros c. unfold skip_with. destruct (lb_Height (E:=client_error) a), (lb_Height (E:=client_error) b); try done. destruct (verifySkipping _ _ _ _ _) as [[]|]; done. Qed.

Lemma kept_skip_or_fail source a b now : kept (skip_or_fail net source a b now).
Proof. unfold skip_or_fail. kept_bind; [apply kept_skip|]. intros [|]; kept_same. Qed.

Lemma kept_examine_loop trace target source now prev st : kept (examine_loop net trace target source now prev st).
Proof.
  revert prev st. induction trace as [|tb trace IH]; intros prev st; cbn [examine_loop]; [kept_same|]. do 2 (kept_step; [kept_same|]). kept_step.
  - kept_step; [kept_same|]. do 2 (kept_step; [kept_same|]). kept_step; [|kept_same]. kept_bind; [apply kept_skip_or_fail|]. intros ?. kept_same.
  - kept_step; [kept_step; [kept_same|]; kept_bind; [apply kept_request|]; intros [|]; kept_same|]. kept_step; [kept_same|]. destruct prev.
    + kept_bind; [apply kept_skip_or_fail|]. intros ?. kept_step; [kept_same|apply IH].
    + kept_step; [kept_same|apply IH].
Qed.

Lemma kept_examine trace target source now : kept (examineConflictingHeaderAgainstTrace net trace target source now).
Proof. unfold examineConflictingHeaderAgainstTrace. do 3 (kept_step; [kept_same|]). kept_step; [kept_same|apply kept_examine_loop]. Qed.

Lemma kept_send ev p : kept (sendEvidence ev p).
Proof. by intros c. Qed.

Lemma kept_handle trace lb i now : kept (handleConflictingHeaders net trace lb i now).
Proof.
  unfold handleConflictingHeaders. do 2 (kept_step; [kept_same|]). kept_bind; [apply keeps_gtry, kept_examine|]. intros [[wt pb]|e]; [|destruct e; kept_same].
  kept_step; [kept_same|]. kept_bind; [apply kept_send|]. intros _. do 3 (kept_step; [kept_same|]). kept_bind; [apply keeps_gtry, kept_examine|].
  intros [[pt wb]|e]; [|destruct e; kept_same]. kept_step; [kept_same|]. kept_bind; [apply kept_send|]. intros _. kept_same.
Qed.

Lemma kept_detect_loop errs trace now b l : kept (detect_loop net errs trace now b l).
Proof.
  revert b l. induction errs as [|[|lb i|i|e] errs IH]; intros b l; cbn [detect_loop]; try apply IH.
  - kept_bind; [apply kept_removeWitnesses|]. intros _. kept_step; kept_same.
  - kept_bind; [apply kept_handle|]. intros _. apply IH.
  - destruct e; try apply IH. kept_same.
Qed.

Lemma kept_detect trace now : kept (detectDivergence net trace now).
Proof.
  unfold detectDivergence. kept_step; [kept_same|]. do 3 (kept_step; [kept_same|]). kept_step; [kept_same|]. kept_bind; [apply kept_comparisons|]. intros ?. apply kept_detect_loop.
Qed.

Lemma kept_first_loop errs l : kept (first_loop errs l).
Proof.
  revert l. induction errs as [|[|lb i|i|e] errs IH]; intros l; cbn [first_loop]; try apply IH; try kept_same.
  - kept_bind; [apply keeps_gtry, kept_removeWitnesses|]. intros ?. kept_same.
  - destruct e; try apply IH. kept_same.
Qed.

Lemma kept_compareFirst h : kept (compareFirstHeaderWithWitnesses net h).
Proof.
  unfold compareFirstHeaderWithWitnesses. kept_step; [kept_same|]. kept_step; [kept_same|]. kept_bind; [apply kept_comparisons|]. intros ?. apply kept_first_loop.
Qed.

Lemma kept_replace h hash e : kept (replace_primary net h hash e).
Proof.
  unfold replace_primary. kept_bind; [apply keeps_gtry, kept_findNewPrimary|]. intros [|]; [|kept_same]. kept_step; [kept_same|]. kept_step; kept_same.
Qed.

Lemma kept_sequential fuel a b h now trace : kept (sequential_loop net fuel a b h now trace).
Proof.
  revert a h trace. induction fuel as [|fuel IH]; intros a h trace; cbn [sequential_loop]; do 3 (kept_step; [kept_same|]); kept_step; try kept_same.
  kept_bind; [kept_step; [kept_same|apply keeps_gtry, kept_lightBlockFromPrimary]|]. intros [ib|e]; [|kept_same].
  do 2 (kept_step; [kept_same|]). destruct (adjacent _ _ _ _); [apply IH| |kept_same]. cbv zeta. kept_step; [|kept_same]. kept_bind; [apply kept_replace|]. intros _. apply IH.
Qed.

Lemma kept_verifySequential a b now : kept (verifySequential net a b now).
Proof. unfold verifySequential. do 3 (kept_step; [kept_same|]). kept_bind; [apply kept_sequential|]. intros ?. apply kept_detect. Qed.

Lemma kept_skipping fuel a b now : kept (skipping_loop net fuel a b now).
Proof.
  revert b. induction fuel as [|fuel IH]; intros b; cbn [skipping_loop]; do 3 (kept_step; [kept_same|]); (kept_bind; [apply kept_skip|]); intros [t|[|f t r]]; try apply kept_detect;
    (kept_step; [|kept_same]); (kept_bind; [apply kept_replace|]); intros ?; [kept_same|apply IH].
Qed.

Lemma kept_backwards fuel a b : kept (backwards net fuel a b).
Proof.
  revert a b. induction fuel as [|fuel IH]; intros a b; cbn [backwards]; kept_step; try kept_same.
  kept_bind; [apply kept_lightBlockFromPrimary|]. intros ib. kept_step; [kept_same|]. destruct (VerifyBackwards _ _); [apply IH| |kept_same].
  kept_bind; [apply kept_replace|]. intros nb. kept_step; [kept_same|]. apply IH.
Qed.

End frame.

(** ** What providers answer *)

(** What [http_LightBlock] makes sure of; heights are of type int64. *)
Record provider_laws {crypto : CryptoLib} {codec : TimeCodec} {wrappers : WrapperLib} (chainID : bytes) (net : Network) : Prop := {
  pl_valid n p h lb : net_LightBlock net n p h = inl lb -> LightBlock_ValidateBasic chainID lb = Ok tt;
  pl_height n p h lb : net_LightBlock net n p h = inl lb -> h <> 0 -> lb_Height (E := client_error) lb = Ok h;
  pl_int64 n p h lb hd : net_LightBlock net n p h = inl lb -> lb_Header (E := client_error) lb = Ok hd -> int64 (h_Height hd)
}.

Lemma receive_elem {A} n (queues : list (list A)) schedule m : m ∈ receive n queues schedule -> exists q, q ∈ queues /\ m ∈ q.
Proof.
  revert queues schedule. induction n as [|n IH]; intros queues schedule; cbn [receive]; [by intros ?%elem_of_nil|].
  destruct (next_sender queues schedule) as [i|]; [|by intros ?%elem_of_nil]. destruct (queues !! i) as [[|x q]|] eqn:Hq; try (by intros ?%elem_of_nil).
  intros [-> |Hin]%elem_of_cons; [exists (x :: q); split; [by eapply list_elem_of_lookup_2|apply list_elem_of_here]|].
  destruct (IH _ _ Hin) as (q' & Hq' & Hm). apply list_elem_of_lookup in Hq' as [j Hj]. apply list_lookup_insert_Some in Hj as [(-> & Hq' & _)|[_ Hj]].
  - exists (x :: q). split; [by eapply list_elem_of_lookup_2|]. subst q'. by apply list_elem_of_further.
  - exists q'. split; [by eapply list_elem_of_lookup_2|done].
Qed.

Lemma gmapM_Forall {S E A B} (f : A -> GoM S E B) (P : B -> Prop) l s r s' :
  (forall a s b s', f a s = (Ok b, s') -> P b) -> gmapM f l s = (Ok r, s') -> Forall P r.
Proof.
  intros Hf. revert s r s'. induction l as [|a l IH]; intros s r s'; cbn [gmapM]; [intros [= <- _]; constructor|].
  intros (b & s1 & Hb & (bs & s2 & Hbs & Hr)%gbind_Ok)%gbind_Ok. injection Hr as <- _. constructor; [by eapply Hf|by eapply IH].
Qed.

Lemma gtry_Ok {S E A} (m : GoM S E A) s a s' : gtry m s = (Ok (inl a), s') -> m s = (Ok a, s').
Proof. unfold gtry. destruct (m s) as [[]]; congruence. Qed.

Section answers.
  Context {crypto : CryptoLib} {codec : TimeCodec} {wrappers : WrapperLib} (net : Network).

Definition answered (h : Z) (lb : LightBlock) : Prop := exists n p, net_LightBlock net n p h = inl lb.

Lemma promote_answer h rs remove l e c lb c' :
  Forall (fun r => forall lb, snd r = inl lb -> answered h lb) rs -> promote rs remove l e c = (Ok lb, c') -> answered h lb.
Proof.
  intros Hrs. revert l e c. induction Hrs as [|[i [lb0|e']] rs Ha _ IH]; intros l e c; cbn [promote].
  - intros (x & c1 & _ & Hr)%gbind_Ok. discriminate.
  - intros (c0 & c1 & _ & Hr)%gbind_Ok. cbv zeta in Hr. destruct ((if remove then _ else _) !! i); [|done].
    apply gbind_Ok in Hr as (? & c2 & _ & Hr). apply gbind_Ok in Hr as (? & c3 & _ & Hr). injection Hr as <- _. by apply Ha.
  - apply IH.
Qed.

Lemma findNewPrimary_answer h remove c lb c' : findNewPrimary net h remove c = (Ok lb, c') -> answered h lb.
Proof.
  unfold findNewPrimary. intros (c0 & c1 & _ & Hr)%gbind_Ok. destruct (bool_decide _); [done|]. apply gbind_Ok in Hr as (rs & c2 & Hrs & Hr).
  apply gbind_Ok in Hr as (order & c3 & _ & Hr). refine (promote_answer _ _ _ _ _ _ _ _ _ Hr). clear Hr.
  apply (gmapM_Forall _ (fun r => forall lb, r = inl lb -> answered h lb)) in Hrs; [|intros w s b s' Hb lb0 ->; unfold request in Hb; by injection Hb as Hb _; exists (lc_turn s), w].
  apply Forall_forall. intros [i r] Hin lb0 Hl. apply receive_elem in Hin as (q & Hq & Hin). apply elem_of_lookup_imap in Hq as (j & r' & -> & Hj).
  apply list_elem_of_singleton in Hin. injection Hin as -> ->. exact (proj1 (Forall_lookup _ _) Hrs j r' Hj lb0 Hl).
Qed.

Lemma fromPrimary_answer h c lb c' : lightBlockFromPrimary net h c = (Ok lb, c') -> answered h lb.
Proof.
  unfold lightBlockFromPrimary. intros (c0 & c1 & _ & (r & c2 & Hq & Hr)%gbind_Ok)%gbind_Ok. unfold request in Hq. injection Hq as Hq _.
  destruct r as [lb0|e]; [injection Hr as <- _; by eexists _, _|]. destruct e; try discriminate; by apply findNewPrimary_answer in Hr.
Qed.

Lemma replace_answer h hash e c lb c' : replace_primary net h hash e c = (Ok lb, c') -> answered h lb /\ lb_Hash (E := client_error) lb = Ok hash.
Proof.
  unfold replace_primary. intros (r & c1 & Hq & Hr)%gbind_Ok. destruct r as [lb0|]; [|done]. apply gtry_Ok, findNewPrimary_answer in Hq.
  apply gbind_Ok in Hr as (hash' & c2 & Hh & Hr). apply glift_Ok in Hh as [Hh _]. destruct (bytes_eqb hash' hash) eqn:He; [|done]. injection Hr as <- _.
  apply bytes_eqb_true in He. by subst.
Qed.

End answers.

(** ** Trust *)

Section trust.
  Context {crypto : CryptoLib} {codec : TimeCodec} {wrappers : WrapperLib} (net : Network).
  (** The client, for its parameters; and the blocks trusted at first. *)
  Context (c0 : Client) (root : LightBlock -> Prop).

(** A header whose hash is in the one above it. *)
Definition below (upper lower : Header) : Prop := VerifyBackwards lower upper = Ok tt.

(** How a block comes to be trusted.  Of an older block, asked for when [older]
    holds, only this is known: there is a header of its height linked to a trusted one by
    hashes. *)
Inductive vouched (older : Prop) : LightBlock -> Prop :=
| vouched_root lb : root lb -> vouched older lb
| vouched_next a b now : vouched older a -> adjacent c0 a b now = Ok tt -> vouched older b
| vouched_stored a pb b : vouched older a -> LightBlock_ToProto a = Ok pb -> LightBlock_FromProto pb = Ok b -> vouched older b
| vouched_older a b ha h hb :
    older -> vouched older a -> lb_Header (E := client_error) a = Ok ha -> rtc below ha h -> lb_Header (E := client_error) b = Ok hb -> h_Height hb = h_Height h ->
    vouched older b.

Record client_ok (older : Prop) (c : Client) : Prop := {
  ok_chainID : lc_chainID c = lc_chainID c0;
  ok_period : lc_trustingPeriod c = lc_trustingPeriod c0;
  ok_drift : lc_maxClockDrift c = lc_maxClockDrift c0;
  ok_mode : lc_verificationMode c = sequential;
  ok_store h pb : ld_blocks (ls_db (lc_trustedStore c)) !! (ls_prefix (lc_trustedStore c), h) = Some pb ->
    exists lb, vouched older lb /\ LightBlock_ToProto lb = Ok pb /\ lb_Height (E := client_error) lb = Ok h;
  ok_latest l : lc_latestTrustedBlock c = Some l -> vouched older l
}.

Context (laws : provider_laws (lc_chainID c0) net) (older : Prop).

Lemma client_ok_same c c' : same_trust c c' -> client_ok older c -> client_ok older c'.
Proof. intros [S1 S2 S3 S4 S5 S6 S7 S8] [K1 K2 K3 K4 K5 K6]. constructor; rewrite ?S7, ?S8; try congruence; auto. Qed.

Lemma adjacent_same c a b now : client_ok older c -> adjacent c a b now = adjacent c0 a b now.
Proof. intros [_ K2 K3 _ _ _]. unfold adjacent. by rewrite K2, K3. Qed.

Lemma loaded_vouched c h lb : client_ok older c -> LoadLightBlock (lc_trustedStore c) h = Ok lb -> vouched older lb.
Proof.
  intros Hc. unfold LoadLightBlock. destruct (h <=? 0); [done|]. destruct (_ !! _) as [pb|] eqn:Hp; [|done]. intros Hf.
  destruct (ok_store _ _ Hc _ _ Hp) as (a & Ha & Ht & _). by eapply vouched_stored.
Qed.

(** ** Forwards *)

Lemma sequential_vouched fuel new nh now : lb_Height (E := client_error) new = Ok nh -> int64 nh ->
  forall a h trace c t c', client_ok older c -> vouched older a -> int64_min <= h <= nh -> sequential_loop net fuel a new h now trace c = (Ok t, c') -> vouched older new.
Proof.
  intros Hnh Hi. induction fuel as [|fuel IH]; intros a h trace c t c' Hc Ha Hle; cbn [sequential_loop].
  all: intros (x & c1 & [Hx ->]%glift_Ok & (y & c2 & [Hy ->]%glift_Ok & (z & c3 & [Hz ->]%glift_Ok & Hr)%gbind_Ok)%gbind_Ok)%gbind_Ok.
  all: rewrite Hnh in Hx; injection Hx as <-; destruct (Z.ltb_spec nh h); [lia|].
  { done. }
  apply gbind_Ok in Hr as (r & c4 & Hq & Hr). destruct r as [ib|e]; [|done].
  assert (Hc4 : client_ok older c4 /\ (h = nh -> ib = new)).
  { destruct (Z.eqb_spec h nh) as [->|Hne]; [injection Hq as -> <-; done|]. split; [|done]. apply gtry_Ok in Hq.
    refine (client_ok_same c c4 _ Hc). pose proof (kept_lightBlockFromPrimary net h c) as Hk. by rewrite Hq in Hk. }
  destruct Hc4 as [Hc4 Hnew]. apply gbind_Ok in Hr as (ih & c5 & [Hih ->]%glift_Ok & Hr). apply gbind_Ok in Hr as (c6 & c7 & Hg & Hr). injection Hg as <- <-.
  rewrite (adjacent_same c4) in Hr by done. destruct (adjacent c0 a ib now) as [[]|e|] eqn:Hadj; [|cbv zeta in Hr|done].
  - assert (Hib : vouched older ib) by (by eapply vouched_next). destruct (decide (h = nh)) as [->|Hne]; [by rewrite <- Hnew|].
    apply (IH ib _ _ c4 t c' Hc4 Hib) in Hr; [done|]. rewrite wrap64_id by (unfold int64 in Hi; unfold_ints; lia). lia.
  - destruct (is_invalid_header e && _); [|done]. apply gbind_Ok in Hr as (rb & c8 & Hrep & Hr). apply (IH a h trace c8 t c'); try done.
    refine (client_ok_same c4 c8 _ Hc4). pose proof (kept_replace net nh y (ErrVerification z ih (ErrVerifier e)) c4) as Hk. by rewrite Hrep in Hk.
Qed.

(** A result says what the state it came with is related to. *)
Lemma keeps_run {A} (m : GoM Client client_error A) c r c' : keeps same_trust m -> m c = (r, c') -> same_trust c c'.
Proof. intros Hk Hm. specialize (Hk c). by rewrite Hm in Hk. Qed.

Lemma verifySequential_vouched a new nh now c c' :
  lb_Height (E := client_error) new = Ok nh -> int64 nh ->
  client_ok older c -> vouched older a -> verifySequential net a new now c = (Ok tt, c') -> vouched older new.
Proof.
  intros Hnh Hi Hc Ha. unfold verifySequential.
  intros (low & c1 & [Hlow ->]%glift_Ok & (high & c2 & [Hhigh ->]%glift_Ok & (c3 & c4 & Hg & (t & c5 & Hl & Hd)%gbind_Ok)%gbind_Ok)%gbind_Ok)%gbind_Ok.
  injection Hg as <- <-. rewrite Hnh in Hhigh. injection Hhigh as <-.
  destruct (decide (low +i64 1 <= nh)) as [Hle|Hgt].
  - refine (sequential_vouched _ new nh now Hnh Hi a _ _ c t c5 Hc Ha _ Hl). split; [|done]. apply wrap64_range.
  - exfalso. assert (Ht : t = [a]); [|by subst t].
    revert Hl. destruct (loop_fuel _ c); cbn [sequential_loop];
      intros (x & d1 & [Hx ->]%glift_Ok & (y & d2 & [Hy ->]%glift_Ok & (z & d3 & [Hz ->]%glift_Ok & Hr)%gbind_Ok)%gbind_Ok)%gbind_Ok;
      rewrite Hnh in Hx; injection Hx as <-; destruct (Z.ltb_spec nh (low +i64 1)); [by injection Hr|lia|by injection Hr|lia].
Qed.

(** ** Backwards *)

Lemma header_height lb hd h : lb_Header (E := client_error) lb = Ok hd -> lb_Height (E := client_error) lb = Ok h -> h_Height hd = h.
Proof. unfold lb_Height. intros -> [= <-]. done. Qed.

Lemma backwards_linked fuel v new c c' :
  1 <= h_Height new <= h_Height v -> int64 (h_Height v) -> backwards net fuel v new c = (Ok tt, c') ->
  exists h, rtc below v h /\ h_Height h = h_Height new.
Proof.
  revert v new c. induction fuel as [|fuel IH]; intros v new c Hle Hi; cbn [backwards]; (destruct (Z.leb_spec (h_Height v) (h_Height new)); [intros _; exists v; split; [done|lia]|]); [done|].
  intros (ib & c1 & Hq & (ih & c2 & [Hih ->]%glift_Ok & Hr)%gbind_Ok)%gbind_Ok. apply fromPrimary_answer in Hq as (n & p & Hq).
  assert (Hsub : h_Height v -i64 1 = h_Height v - 1) by (apply wrap64_id; unfold int64 in *; unfold_ints; lia). rewrite Hsub in Hq.
  pose proof (header_height _ _ _ Hih (pl_height _ _ laws _ _ _ _ Hq ltac:(lia))) as Hh.
  destruct (VerifyBackwards ih v) as [[]|e|] eqn:Hv; [| |done].
  - destruct (IH ih new c1) as (h & Hb & Hhh); [lia|rewrite Hh; unfold int64 in *; unfold_ints; lia|done|]. exists h. split; [|done]. by eapply rtc_l.
  - apply gbind_Ok in Hr as (nb & c3 & [(n' & p' & Hn) _]%replace_answer & Hr). apply gbind_Ok in Hr as (hd & c4 & [Hhd ->]%glift_Ok & Hr).
    pose proof (header_height _ _ _ Hhd (pl_height _ _ laws _ _ _ _ Hn ltac:(lia))) as Hnh.
    destruct (IH v hd c3) as (h & Hb & Hhh); [lia|done|done|]. exists h. split; [done|lia].
Qed.

(** ** Loading *)

Lemma loaded_height c h b : client_ok older c -> LoadLightBlock (lc_trustedStore c) h = Ok b -> lb_Height (E := client_error) b = Ok h.
Proof.
  intros Hc. unfold LoadLightBlock. destruct (h <=? 0); [done|]. destruct (_ !! _) as [pb|] eqn:Hp; [|done]. intros Hf.
  destruct (ok_store _ _ Hc _ _ Hp) as (a & _ & Ht & Hh). unfold LightBlock_ToProto in Ht. apply obind_Ok in Ht as (v & _ & Ht). apply obind_Ok in Ht as (w & _ & [= <-]).
  unfold LightBlock_FromProto in Hf. apply obind_Ok in Hf as (sh & Hsh & Hf). apply obind_Ok in Hf as (v' & _ & Hf). apply obind_Ok in Hf as (w' & _ & [= <-]).
  unfold lb_Height, lb_Header in *. cbn [pl_SignedHeader lb_SignedHeader] in *. destruct (lb_SignedHeader a) as [s|]; [|done]. cbn in Hsh, Hh.
  destruct (SignedHeaderFromProto s) as [s'| |] eqn:Hs; try done. injection Hsh as <-. cbn. destruct (sh_Header s) as [hd|] eqn:Hhd; [|done]. cbn in Hh. injection Hh as <-.
  unfold SignedHeaderFromProto in Hs. rewrite Hhd in Hs. apply obind_Ok in Hs as (o & Ho & Hs). apply obind_Ok in Hs as (k & _ & [= <-]). cbn.
  apply obind_Ok in Ho as (h' & Hh' & [= <-]). cbn. destruct (HeaderFromProto hd) as [x| |] eqn:Hx; try done. injection Hh' as <-.
  unfold HeaderFromProto in Hx. apply obind_Ok in Hx as (? & _ & Hx). apply obind_Ok in Hx as (? & _ & [= <-]). done.
Qed.

Lemma stored_range s h : h ∈ stored_heights s -> 1 <= h <= int64_max.
Proof.
  unfold stored_heights. destruct (bool_decide _); [by intros ?%elem_of_nil|]. rewrite merge_sort_Permutation.
  intros ([p k] & -> & [[_ Hk] _]%list_elem_of_filter)%list_elem_of_fmap. exact Hk.
Qed.

Lemma before_loaded s h lb : LightBlockBefore s h = Ok lb -> exists k, LoadLightBlock s k = Ok lb.
Proof. unfold LightBlockBefore. destruct (h <=? 0); [done|]. destruct (last _) as [k|]; [|done]. by exists k. Qed.

(** ** Saving *)

Lemma prune_lookup n s h pb :
  ld_blocks (ls_db (Prune n s)) !! (ls_prefix (Prune n s), h) = Some pb -> ld_blocks (ls_db s) !! (ls_prefix s, h) = Some pb.
Proof.
  unfold Prune. destruct (ls_size s <=? n); [done|]. cbn. generalize (take (Z.to_nat (ls_size s - n)) (stored_heights s)). intros l.
  induction l as [|x l IH]; cbn; [done|]. intros [_ Hl]%lookup_delete_Some. by apply IH.
Qed.

Lemma prune_ok n c : client_ok older c -> client_ok older (set_store c (Prune n (lc_trustedStore c))).
Proof. intros [K1 K2 K3 K4 K5 K6]. constructor; try done. intros h pb Hl. apply (K5 h pb). exact (prune_lookup n _ _ _ Hl). Qed.

Lemma latest_ok l c : client_ok older c -> (forall lb, l = Some lb -> vouched older lb) -> client_ok older (set_latest c l).
Proof. by intros [K1 K2 K3 K4 K5 K6] Hl. Qed.

Lemma save_ok lb c : client_ok older c -> vouched older lb -> client_ok older (snd (on_store (SaveLightBlock lb) c)).
Proof.
  intros Hc Hv. unfold on_store. destruct (SaveLightBlock lb (lc_trustedStore c)) as [r s] eqn:Hs. cbn [snd].
  revert Hs. unfold SaveLightBlock, mbind, gom_bind, glift. destruct (lb_Header lb) as [h| |] eqn:Hh; [|intros [= _ <-]; by destruct Hc..].
  destruct (h_Height h <=? 0); [intros [= _ <-]; by destruct Hc|]. destruct (LightBlock_ToProto lb) as [pb| |] eqn:Hp; [|intros [= _ <-]; by destruct Hc..].
  intros [= _ <-]. destruct Hc as [K1 K2 K3 K4 K5 K6]. constructor; try done. cbn. intros k pb' [[[= <-] <-]|[_ Hl]]%lookup_insert_Some; [|by apply K5].
  exists lb. split_and!; [done|done|]. unfold lb_Height. unfold lb_Header in *. destruct (lb_SignedHeader lb) as [sh|]; [|done]. cbn in *. by destruct (sh_Header sh); simplify_eq/=.
Qed.

Lemma update_ok lb c : client_ok older c -> vouched older lb -> client_ok older (snd (updateTrustedLightBlock lb c)).
Proof.
  intros Hc Hv. unfold updateTrustedLightBlock. unfold mbind at 1, gom_bind at 1. pose proof (save_ok lb c Hc Hv) as H1.
  destruct (on_store (SaveLightBlock lb) c) as [[[]| |] c1]; [|done..]. cbn [snd] in H1. unfold mbind at 1, gom_bind at 1, gget.
  unfold mbind at 1, gom_bind at 1. assert (Hp : exists c2, (if 0 <? lc_pruningSize c1 then on_store (gmodify (Prune (lc_pruningSize c1))) else mret tt) c1 = (Ok tt, c2) /\ client_ok older c2).
  { destruct (0 <? lc_pruningSize c1); [|by exists c1]. eexists. split; [done|]. by apply prune_ok. }
  destruct Hp as (c2 & -> & H2). unfold mbind at 1, gom_bind at 1, glift. destruct (lb_Height lb) as [h| |]; [|done..].
  assert (Hset : client_ok older (set_latest c2 (Some lb))) by (apply latest_ok; [done|]; by intros ? [= <-]).
  destruct (lc_latestTrustedBlock c1) as [l|]; [|done]. unfold mbind, gom_bind, glift. destruct (lb_Height l); [|done..]. by destruct (_ <? _).
Qed.

Lemma guarded_ok (m : GoM Client client_error unit) new c :
  keeps same_trust m -> (forall c1, m c = (Ok tt, c1) -> vouched older new) -> client_ok older c -> client_ok older (snd ((m;; updateTrustedLightBlock new) c)).
Proof.
  intros Hk Hm Hc. specialize (Hk c). unfold mbind, gom_bind. destruct (m c) as [[[]| |] c1] eqn:Hr; cbn in Hk; [|by eapply client_ok_same..].
  apply update_ok; [by eapply client_ok_same|by eapply Hm].
Qed.

Lemma from_store_run {A} (f : dbs -> outcome light_store_error A) c a c' : from_store f c = (Ok a, c') -> f (lc_trustedStore c) = Ok a /\ c' = c.
Proof. unfold from_store, mbind, gom_bind, gget, glift. intros Hr. injection Hr as Hr <-. by destruct (f (lc_trustedStore c)); simplify_eq/=. Qed.

Lemma kept_from_store {A} (f : dbs -> outcome light_store_error A) : keeps same_trust (from_store f).
Proof. intros c. unfold from_store, mbind, gom_bind, gget, glift. done. Qed.

(** What verifying a block of a provider leaves is trusted, if it is not below the
    first one or older blocks are trusted too. *)
Lemma verifyLightBlock_ok new hd now c :
  client_ok older c -> lb_Header (E := client_error) new = Ok hd -> 1 <= h_Height hd <= int64_max ->
  older \/ FirstLightBlockHeight (lc_trustedStore c) <= h_Height hd ->
  client_ok older (snd (verifyLightBlock net new now c)).
Proof.
  intros Hc Hhd Hr Hold. unfold verifyLightBlock. unfold mbind at 1, gom_bind at 1, gget at 1. cbv zeta. rewrite (ok_mode _ _ Hc).
  unfold mbind at 1, gom_bind at 1, glift at 1. rewrite Hhd. unfold mbind at 1, gom_bind at 1, glift at 1.
  destruct (lc_latestTrustedBlock c) as [l|] eqn:Hl; [|done]. cbn [deref]. unfold mbind at 1, gom_bind at 1, glift at 1.
  destruct (lb_Height l) as [lh| |] eqn:Hlh; [|done..].
  assert (Hnh : lb_Height (E := client_error) new = Ok (h_Height hd)) by (unfold lb_Height; by rewrite Hhd).
  assert (Hi : int64 (h_Height hd)) by (unfold_ints; unfold int64_max in *; lia).
  destruct (Z.leb_spec lh (h_Height hd)); [|destruct (Z.ltb_spec (h_Height hd) (FirstLightBlockHeight (lc_trustedStore c)))].
  - apply guarded_ok; [apply kept_verifySequential| |done]. intros c1 Hv. refine (verifySequential_vouched l new _ now c c1 Hnh Hi Hc _ Hv). by apply (ok_latest _ _ Hc).
  - destruct Hold as [Hold|Hold]; [|lia]. apply guarded_ok; [| |done].
    { kept_bind; [apply kept_from_store|]. intros fb. kept_bind; [kept_same|]. intros f. apply kept_backwards. }
    intros c1 (fb & c2 & [Hfb ->]%from_store_run & (f & c3 & [Hf ->]%glift_Ok & Hb)%gbind_Ok)%gbind_Ok.
    assert (Hfr : 1 <= FirstLightBlockHeight (lc_trustedStore c) <= int64_max).
    { unfold FirstLightBlockHeight in *. destruct (stored_heights (lc_trustedStore c)) as [|k ks] eqn:Hs; [cbn in *; lia|]. apply (stored_range (lc_trustedStore c)). rewrite Hs. apply list_elem_of_here. }
    pose proof (header_height _ _ _ Hf (loaded_height c _ _ Hc Hfb)) as Hfh.
    destruct (backwards_linked (loop_fuel (h_Height f - h_Height hd) c) f hd c c1) as (h & Hbl & Hh); [lia|rewrite Hfh; unfold_ints; unfold int64_max in *; lia|exact Hb|].
    by eapply (vouched_older _ fb new f h hd); [|eapply loaded_vouched|..].
  - apply guarded_ok; [| |done].
    { kept_bind; [apply kept_from_store|]. intros cb. apply kept_verifySequential. }
    intros c1 (cb & c2 & [Hcb ->]%from_store_run & Hv)%gbind_Ok. apply before_loaded in Hcb as [k Hk].
    refine (verifySequential_vouched cb new _ now c c1 Hnh Hi Hc _ Hv). by eapply loaded_vouched.
Qed.

(** ** What users do *)

Lemma first_last s : FirstLightBlockHeight s <= LastLightBlockHeight s.
Proof.
  unfold FirstLightBlockHeight, LastLightBlockHeight, stored_heights. destruct (bool_decide _); [done|]. set (l := merge_sort Z.le _).
  assert (Hs : StronglySorted Z.le l) by (apply Sorted_StronglySorted, Sorted_merge_sort; [exact Z.le_trans|apply _]).
  destruct l as [|x l]; [done|]. apply StronglySorted_inv in Hs as [_ Hall]. cbn [head default]. destruct (last (x :: l)) as [y|] eqn:Hy; [|by apply last_None in Hy]. cbn.
  apply last_Some in Hy as [l' Hy]. destruct l' as [|z l']; injection Hy as -> ->; [done|]. apply (proj1 (Forall_forall _ _) Hall). apply elem_of_app. right. apply list_elem_of_here.
Qed.

Lemma last_range s : LastLightBlockHeight s = -1 \/ 1 <= LastLightBlockHeight s.
Proof.
  unfold LastLightBlockHeight. destruct (last (stored_heights s)) as [y|] eqn:Hy; [|by left]. right. cbn. apply (stored_range s). apply last_Some in Hy as [l ->]. apply elem_of_app. right. apply list_elem_of_here.
Qed.

Lemma answered_header h lb : answered net h lb -> exists hd, lb_Header (E := client_error) lb = Ok hd /\ int64 (h_Height hd) /\ (h <> 0 -> h_Height hd = h).
Proof.
  intros (n & p & Hn). pose proof (pl_valid _ _ laws _ _ _ _ Hn) as Hv. unfold LightBlock_ValidateBasic in Hv.
  destruct (lb_SignedHeader lb) as [sh|] eqn:Hsh; [|done]. destruct (lb_ValidatorSet lb); [|done]. destruct (lb_VoterSet lb); [|done].
  apply obind_Ok in Hv as (u & Hb & _). unfold SignedHeader_ValidateBasic in Hb. destruct (sh_Header sh) as [hd|] eqn:Hhd; [|done].
  assert (Hd : lb_Header (E := client_error) lb = Ok hd) by (unfold lb_Header; rewrite Hsh; cbn; by rewrite Hhd).
  exists hd. split_and!; [done|by eapply pl_int64|]. intros Hne. eapply header_height; [exact Hd|by eapply pl_height].
Qed.

Lemma kept_trusted h : keeps same_trust (TrustedLightBlock h).
Proof.
  unfold TrustedLightBlock. kept_bind; [|intros ?; apply kept_from_store]. intros c. unfold compareWithLatestHeight, mbind, gom_bind, gget. repeat (destruct (_ : bool); [done|]). done.
Qed.

Lemma Update_ok now c : client_ok older c -> client_ok older (snd (Update net now c)).
Proof.
  intros Hc. unfold Update. unfold mbind at 1, gom_bind at 1, gget at 1. cbv zeta. destruct (Z.eqb_spec (LastLightBlockHeight (lc_trustedStore c)) (-1)) as [|Hne]; [done|].
  unfold mbind at 1, gom_bind at 1. pose proof (kept_lightBlockFromPrimary net 0 c) as Hk. destruct (lightBlockFromPrimary net 0 c) as [[lb| |] c1] eqn:Hf; cbn in Hk; [|by eapply client_ok_same..].
  pose proof (client_ok_same _ _ Hk Hc) as Hc1. apply fromPrimary_answer, answered_header in Hf as (hd & Hhd & Hi & _).
  unfold mbind at 1, gom_bind at 1, glift at 1. unfold lb_Height at 1. rewrite Hhd. cbn [mbind outcome_bind]. rewrite <- (sm_store _ _ Hk) in *.
  destruct (Z.ltb_spec (LastLightBlockHeight (lc_trustedStore c1)) (h_Height hd)); [|done]. pose proof (last_range (lc_trustedStore c1)). pose proof (first_last (lc_trustedStore c1)).
  pose proof (verifyLightBlock_ok lb hd now c1 Hc1 Hhd) as Hv. unfold mbind, gom_bind. destruct (verifyLightBlock net lb now c1) as [[]]; apply Hv; unfold_ints; unfold int64_max; lia.
Qed.

Lemma verify_answer_ok h now c lb :
  older -> 0 < h -> client_ok older c -> answered net h lb -> client_ok older (snd (verifyLightBlock net lb now c)).
Proof.
  intros Ho Hh Hc Ha. destruct (answered_header _ _ Ha) as (hd & Hhd & Hi & He). apply (verifyLightBlock_ok lb hd now c Hc Hhd); [|by left]. rewrite He by lia.
  rewrite He in Hi by lia. unfold int64 in Hi. lia.
Qed.

Lemma AtHeight_ok height now c : older -> client_ok older c -> client_ok older (snd (VerifyLightBlockAtHeight net height now c)).
Proof.
  intros Ho Hc. unfold VerifyLightBlockAtHeight. destruct (Z.leb_spec height 0); [done|]. unfold mbind at 1, gom_bind at 1.
  pose proof (keeps_gtry _ _ (kept_trusted height) c) as Hk. destruct (gtry (TrustedLightBlock height) c) as [[[lb|e]| |] c1]; cbn in Hk; try (by eapply client_ok_same).
  unfold mbind at 1, gom_bind at 1. pose proof (kept_lightBlockFromPrimary net height c1) as Hk1.
  destruct (lightBlockFromPrimary net height c1) as [[lb| |] c2] eqn:Hf; cbn in Hk1; [|by eapply client_ok_same, client_ok_same..].
  apply fromPrimary_answer in Hf. pose proof (verify_answer_ok height now c2 lb Ho ltac:(lia)) as Hv.
  unfold mbind, gom_bind. destruct (verifyLightBlock net lb now c2) as [[]]; (apply Hv; [by eapply client_ok_same, client_ok_same|done]).
Qed.

Lemma VerifyHeader_ok newHeader now c : older -> client_ok older c -> client_ok older (snd (VerifyHeader net newHeader now c)).
Proof.
  intros Ho Hc. unfold VerifyHeader. destruct newHeader as [nh|]; [|done]. destruct (Z.leb_spec (h_Height nh) 0); [done|]. unfold mbind at 1, gom_bind at 1.
  pose proof (keeps_gtry _ _ (kept_trusted (h_Height nh)) c) as Hk. destruct (gtry (TrustedLightBlock (h_Height nh)) c) as [[[lb|e]| |] c1]; cbn in Hk; try (by eapply client_ok_same).
  { unfold mbind, gom_bind, glift. destruct (lb_Hash lb); [|by eapply client_ok_same..]. destruct (negb _); by eapply client_ok_same. }
  unfold mbind at 1, gom_bind at 1. pose proof (kept_lightBlockFromPrimary net (h_Height nh) c1) as Hk1.
  destruct (lightBlockFromPrimary net (h_Height nh) c1) as [[lb| |] c2] eqn:Hf; cbn in Hk1; [|by eapply client_ok_same, client_ok_same..].
  assert (Hc2 : client_ok older c2) by (by eapply client_ok_same, client_ok_same).
  unfold mbind, gom_bind, glift. destruct (lb_Hash lb); [|done..]. destruct (negb _); [done|].
  apply fromPrimary_answer in Hf. by apply (verify_answer_ok (h_Height nh) now c2 lb Ho ltac:(lia)).
Qed.

(** Whatever its outcome, what a user does leaves a state. *)
Inductive client_step : Client -> Client -> Prop :=
| did_update c now : client_step c (snd (Update net now c))
| did_cleanup c : client_step c (snd (Cleanup c))
| did_verify_at c height now : older -> client_step c (snd (VerifyLightBlockAtHeight net height now c))
| did_verify c newHeader now : older -> client_step c (snd (VerifyHeader net newHeader now c)).

Lemma client_step_ok c c' : client_step c c' -> client_ok older c -> client_ok older c'.
Proof.
  intros Hs Hc. destruct Hs; [by apply Update_ok| |by apply AtHeight_ok|by apply VerifyHeader_ok].
  unfold Cleanup, gmodify. cbn [snd]. apply (prune_ok 0 (set_latest c None)). by apply latest_ok.
Qed.

End trust.

(** ** The first block *)

Section first.
  Context {crypto : CryptoLib} {codec : TimeCodec} {wrappers : WrapperLib} (net : Network).

(** The block of the hash that the user gave, signed by its voters. *)
Definition trust_root (chainID : bytes) (options : TrustOptions) (lb : LightBlock) : Prop :=
  LightBlock_ValidateBasic chainID lb = Ok tt /\
  exists h commit voters, lb_Header (E := client_error) lb = Ok h /\ Header_Hash h = to_Hash options /\
    lb_Commit (E := client_error) lb = Ok commit /\ lb_VoterSet lb = Some voters /\
    fst (VerifyCommitLight chainID (c_BlockID commit) (h_Height h) (Some commit) voters) = Ok tt.

(** The options of clients set numbers. *)
Definition PruningSize (h : Z) (c : Client) : Client :=
  mkClient (lc_chainID c) (lc_trustingPeriod c) (lc_verificationMode c) (lc_trustLevel c) (lc_maxClockDrift c) h (lc_primary c) (lc_witnesses c)
    (lc_trustedStore c) (lc_latestTrustedBlock c) (lc_turn c) (lc_sent c).
Definition MaxClockDrift (d : Z) (c : Client) : Client :=
  mkClient (lc_chainID c) (lc_trustingPeriod c) (lc_verificationMode c) (lc_trustLevel c) d (lc_pruningSize c) (lc_primary c) (lc_witnesses c)
    (lc_trustedStore c) (lc_latestTrustedBlock c) (lc_turn c) (lc_sent c).

Inductive client_option : (Client -> Client) -> Prop :=
| is_pruning_size h : client_option (PruningSize h)
| is_max_clock_drift d : client_option (MaxClockDrift d).

Definition configured (chainID : bytes) (period : Z) (primary : provider) (witnesses : list provider) (store : dbs) (options : list (Client -> Client)) : Client :=
  foldl (fun c o => o c) (new_client chainID period primary witnesses store) options.

Lemma configured_fields chainID period primary witnesses store options :
  Forall client_option options ->
  let c := configured chainID period primary witnesses store options in
  lc_chainID c = chainID /\ lc_verificationMode c = sequential /\ lc_trustedStore c = store /\ lc_latestTrustedBlock c = None.
Proof.
  intros Ho. unfold configured. set (c := new_client _ _ _ _ _).
  assert (Hc : lc_chainID c = chainID /\ lc_verificationMode c = sequential /\ lc_trustedStore c = store /\ lc_latestTrustedBlock c = None) by done.
  clearbody c. revert c Hc. induction Ho as [|o os Ho _ IH]; intros c Hc; [done|]. cbn. apply IH. by destruct Ho.
Qed.

Lemma initialize_ok c0 options older c c' :
  client_ok c0 (trust_root (lc_chainID c0) options) older c -> initializeWithTrustOptions net options c = (Ok tt, c') ->
  client_ok c0 (trust_root (lc_chainID c0) options) older c'.
Proof.
  intros Hc. unfold initializeWithTrustOptions. intros (l & c1 & Hl & Hr)%gbind_Ok. pose proof (keeps_run _ _ _ _ (kept_lightBlockFromPrimary net _) Hl) as H1.
  pose proof (client_ok_same c0 _ older _ _ H1 Hc) as Hc1. apply gbind_Ok in Hr as (c2 & c3 & Hg & Hr). injection Hg as <- <-. rewrite (ok_chainID _ _ _ _ Hc1) in Hr.
  apply gbind_Ok in Hr as ([] & c4 & [Hv ->]%glift_Ok & Hr). apply gbind_Ok in Hr as (h & c5 & [Hh ->]%glift_Ok & Hr).
  destruct (bytes_eqb (Header_Hash h) (to_Hash options)) eqn:He; [|done]. apply bytes_eqb_true in He. cbn [negb] in Hr.
  apply gbind_Ok in Hr as (voters & c6 & [Hvo ->]%glift_Ok & Hr). apply gbind_Ok in Hr as (commit & c7 & [Hco ->]%glift_Ok & Hr).
  apply gbind_Ok in Hr as ([] & c8 & [Hvc ->]%glift_Ok & Hr). apply gbind_Ok in Hr as ([] & c9 & Hcf & Hr).
  pose proof (keeps_run _ _ _ _ (kept_compareFirst net _) Hcf) as H2. pose proof (client_ok_same c0 _ older _ _ H2 Hc1) as Hc9.
  pose proof (update_ok c0 (trust_root (lc_chainID c0) options) older l c9 Hc9) as Hu. rewrite Hr in Hu. apply Hu. apply vouched_root. split.
  - destruct (LightBlock_ValidateBasic (lc_chainID c0) l) as [[]| |]; done.
  - exists h, commit, voters. split_and!; [done|done|done|by destruct (lb_VoterSet l); simplify_eq/=|]. by destruct (fst _) as [[]| |].
Qed.

End first.

Lemma fresh_last store : (forall h, ld_blocks (ls_db store) !! (ls_prefix store, h) = None) -> LastLightBlockHeight store = -1.
Proof.
  intros Hfresh. unfold LastLightBlockHeight. destruct (last _) as [k|] eqn:Hk; [|done]. exfalso.
  assert (Hin : k ∈ stored_heights store) by (apply last_Some in Hk as [l ->]; apply elem_of_app; right; apply list_elem_of_here).
  unfold stored_heights in Hin. destruct (bool_decide _); [by apply elem_of_nil in Hin|]. rewrite merge_sort_Permutation in Hin.
  apply list_elem_of_fmap in Hin as ([p q] & -> & [[Hp _] ([[p' q'] v] & Hv & Hin)%list_elem_of_fmap]%list_elem_of_filter). cbn in Hp, Hv. injection Hv as <- <-. subst p.
  apply elem_of_map_to_list in Hin. by rewrite Hfresh in Hin.
Qed.

Lemma new_client_ok {crypto : CryptoLib} {codec : TimeCodec} {wrappers : WrapperLib} net chainID trustOptions primary witnesses store options older c :
  let c0 := configured chainID (to_Period trustOptions) primary witnesses store options in
  Forall client_option options -> (forall h, ld_blocks (ls_db store) !! (ls_prefix store, h) = None) ->
  client_ok c0 (trust_root (lc_chainID c0) trustOptions) older c0 -> NewClient net chainID trustOptions primary witnesses store options = (Ok tt, c) ->
  client_ok c0 (trust_root (lc_chainID c0) trustOptions) older c.
Proof.
  intros c0 Hopts Hfresh Hc0 Hnew. destruct (configured_fields chainID (to_Period trustOptions) primary witnesses store options Hopts) as (F1 & F2 & F3 & F4). fold c0 in F1, F2, F3, F4.
  unfold NewClient in Hnew. destruct (negb _); [done|]. unfold NewClientFromTrustedStore in Hnew. fold (configured chainID (to_Period trustOptions) primary witnesses store options) in Hnew. fold c0 in Hnew.
  unfold mbind at 1, gom_bind at 1, gget at 1 in Hnew. destruct (bool_decide _); [done|]. destruct (negb _); [done|]. destruct (negb _); [done|].
  unfold restoreTrustedLightBlock at 1, mbind at 1, gom_bind at 1, gget at 1 in Hnew. cbv zeta in Hnew. rewrite F3, fresh_last in Hnew by done. change (0 <? -1) with false in Hnew. cbv iota beta in Hnew.
  unfold mret at 1, gom_ret at 1 in Hnew. apply gbind_Ok in Hnew as (x & c1 & Hg & Hnew). injection Hg as <- <-. rewrite F4 in Hnew. rewrite bool_decide_true in Hnew by done.
  apply gbind_Ok in Hnew as ([] & c2 & Hg & Hnew). injection Hg as <-. apply gbind_Ok in Hnew as (y & c3 & Hg & Hnew). injection Hg as <- <-. rewrite F4 in Hnew.
  by eapply initialize_ok.
Qed.

(** C25: a client that starts with an empty store trusts the block of the hash it
    was given and, whatever its providers answer, only blocks that follow: after
    any run of [Update], every block in its store is linked to the first one by steps
    of [VerifyAdjacent], each of a header whose voters signed it.  When older blocks
    are asked for as well, a block may also be one of which only this is known: some header of its height is
    linked by hashes to a trusted one. *)
Theorem light_client_trust {crypto : CryptoLib} {codec : TimeCodec} {wrappers : WrapperLib} net chainID trustOptions primary witnesses store options older c c' h lb :
  let c0 := configured chainID (to_Period trustOptions) primary witnesses store options in
  provider_laws chainID net -> Forall client_option options -> (forall h, ld_blocks (ls_db store) !! (ls_prefix store, h) = None) ->
  NewClient net chainID trustOptions primary witnesses store options = (Ok tt, c) -> rtc (client_step net older) c c' ->
  LoadLightBlock (lc_trustedStore c') h = Ok lb -> vouched c0 (trust_root chainID trustOptions) older lb.
Proof.
  intros c0 laws Hopts Hfresh Hnew Hrun Hload. destruct (configured_fields chainID (to_Period trustOptions) primary witnesses store options Hopts) as (F1 & F2 & F3 & F4). fold c0 in F1, F2, F3, F4.
  assert (Hc0 : client_ok c0 (trust_root (lc_chainID c0) trustOptions) older c0).
  { constructor; try done; [|by rewrite F4]. intros k pb. by rewrite F3, Hfresh. }
  pose proof (new_client_ok net chainID trustOptions primary witnesses store options older c Hopts Hfresh Hc0 Hnew) as Hc.
  fold c0 in Hc. rewrite F1 in Hc. assert (laws0 : provider_laws (lc_chainID c0) net) by (by rewrite F1). clear Hnew.
  assert (Hc' : client_ok c0 (trust_root chainID trustOptions) older c').
  { revert Hrun. apply (rtc_ind_r (R := client_step net older) (fun c' => client_ok c0 (trust_root chainID trustOptions) older c')); [done|]. intros a b _ Hs Ha. by eapply client_step_ok. }
  by eapply loaded_vouched.
Qed.

Section runs.
  #[local] Existing Instances toy_crypto toy_time toy_wrappers.

(** Providers of a chain of six blocks. *)
Definition chain_net : Network := {|
  net_ChainID _ := [7];
  net_LightBlock _ _ h := if h =? 0 then inl (chain_block 6) else if (1 <=? h) && (h <=? 6) then inl (chain_block h) else inr ErrHeightTooHigh;
  net_schedule _ := [];
  net_confirm _ := true
|}.

Definition empty_store : dbs := New (mkLightDB ∅ None) [1].

Definition first_trust : TrustOptions := mkTrustOptions 1000 2 (ok_or [] (lb_Hash (E := client_error) (chain_block 2))).

Definition started : outcome client_error unit * Client := NewClient chain_net [7] first_trust 0%nat [1%nat; 2%nat] empty_store [].

Definition updated : outcome client_error (option LightBlock) * Client := Update chain_net 150 (snd started).

Lemma chain_laws : provider_laws [7] chain_net.
Proof.
  assert (Hb : Forall (fun h => LightBlock_ValidateBasic [7] (chain_block h) = Ok tt) (seqZ 1 6)).
  { cbn [seqZ]. apply Forall_forall. intros h Hh. apply list_elem_of_lookup in Hh as [i Hi]. do 6 (destruct i as [|i]; [injection Hi as <-; vm_compute; reflexivity|]). done. }
  rewrite Forall_forall in Hb. constructor; cbn; intros n p h lb; destruct (Z.eqb_spec h 0) as [->|Hne]; cbn.
  - intros [= <-]. apply Hb, elem_of_seqZ. lia.
  - destruct (Z.leb_spec 1 h), (Z.leb_spec h 6); cbn; try done. intros [= <-]. apply Hb, elem_of_seqZ. lia.
  - done.
  - destruct (Z.leb_spec 1 h), (Z.leb_spec h 6); cbn; try done. by intros [= <-].
  - intros hd [= <-] [= <-]. by vm_compute.
  - destruct (Z.leb_spec 1 h), (Z.leb_spec h 6); cbn; try done. intros hd [= <-] [= <-]. cbn. unfold_ints. lia.
Qed.

Lemma started_ok : started = (Ok tt, snd started).
Proof. by vm_compute. Qed.

Lemma updated_ok : is_ok (fst updated) = true /\ LoadLightBlock (lc_trustedStore (snd updated)) 6 = Ok (ok_or (chain_block 1) (LoadLightBlock (lc_trustedStore (snd updated)) 6)).
Proof. split; by vm_compute. Qed.

Lemma light_client_trust_witness :
  exists lb, LoadLightBlock (lc_trustedStore (snd updated)) 6 = Ok lb /\
    vouched (configured [7] 1000 0%nat [1%nat; 2%nat] empty_store []) (trust_root [7] first_trust) False lb.
Proof.
  exists (ok_or (chain_block 1) (LoadLightBlock (lc_trustedStore (snd updated)) 6)). split; [exact (proj2 updated_ok)|].
  refine (light_client_trust chain_net [7] first_trust 0%nat [1%nat; 2%nat] empty_store [] False (snd started) (snd updated) 6 _ chain_laws
    (Forall_nil_2 _) (fun h => lookup_empty _) started_ok _ (proj2 updated_ok)).
  apply rtc_once, did_update.
Defined.

(** ** Trusted without reason *)

(** A chain whose blocks name the one before. *)
Fixpoint linked_header (n : nat) : Header :=
  let h := header_at (Z.of_nat n) (100 + Z.of_nat n) repeat_voters real_validators real_validators in
  match n with
  | O | S O => h
  | S m => mkHeader (h_Version h) (h_ChainID h) (h_Height h) (h_Time h) (mkBlockID (Header_Hash (linked_header m)) (mkPartSetHeader 1 (replicate 32 2)))
             (h_LastCommitHash h) (h_DataHash h) (h_VotersHash h) (h_ValidatorsHash h) (h_NextValidatorsHash h) (h_ConsensusHash h) (h_AppHash h)
             (h_LastResultsHash h) (h_EvidenceHash h) (h_ProposerAddress h) 0 (h_Proof h)
  end.

Definition linked_block (n : nat) : LightBlock :=
  mkLightBlock (Some (signed_by (linked_header n) [Some 1; Some 2; Some 3])) (Some real_validators) (Some repeat_voters).

(** Signed by a voter of the attacker. *)
Definition forged_block (n : nat) : LightBlock :=
  mkLightBlock (Some (signed_by (header_at (Z.of_nat n) (100 + Z.of_nat n) my_voters real_validators real_validators) [Some 9])) (Some real_validators) (Some my_voters).

(** A network whose blocks are given by a function. *)
Definition net_of (answer : nat -> provider -> Z -> LightBlock + provider_error) (order : list nat) : Network := {|
  net_ChainID _ := [7]; net_LightBlock := answer; net_schedule _ := order; net_confirm _ := true
|}.

Definition linked_answer (h : Z) : LightBlock + provider_error :=
  if h =? 0 then inl (linked_block 3) else if h =? 1 then inl (linked_block 1) else if h =? 2 then inl (linked_block 2) else if h =? 3 then inl (linked_block 3) else inr ErrHeightTooHigh.

Definition linked_trust : TrustOptions := mkTrustOptions 1000 2 (Header_Hash (linked_header 2)).

(** The primary answers its request of number 4 with a forged block, and with the
    true one when it is asked again. *)
Definition fickle_net : Network :=
  net_of (fun n p h => if bool_decide (n = 4%nat) && (h =? 1) then inl (forged_block 1) else linked_answer h) [].

Definition fickle_start : outcome client_error unit * Client := NewClient fickle_net [7] linked_trust 0%nat [1%nat; 2%nat] empty_store [].

Definition fickle_run : outcome client_error LightBlock * Client := VerifyLightBlockAtHeight fickle_net 1 150 (snd fickle_start).

(** The laws hold for answers that are one of finitely many blocks. *)
Lemma finite_laws (answer : nat -> provider -> Z -> LightBlock + provider_error) order (blocks : list (Z * LightBlock)) :
  forallb (fun '(h, lb) => match LightBlock_ValidateBasic [7] lb, lb_Height (E := client_error) lb with
                           | Ok _, Ok k => (k =? h) && (1 <=? k) && (k <=? int64_max) | _, _ => false end) blocks = true ->
  (forall n p h lb, answer n p h = inl lb -> exists k, (k, lb) ∈ blocks /\ (h <> 0 -> k = h)) ->
  provider_laws [7] (net_of answer order).
Proof.
  intros Hb Ha. apply Is_true_eq_left, forallb_True in Hb. rewrite Forall_forall in Hb.
  assert (Hall : forall n p h lb, answer n p h = inl lb -> exists k, LightBlock_ValidateBasic [7] lb = Ok tt /\ lb_Height (E := client_error) lb = Ok k /\ (h <> 0 -> k = h) /\ 1 <= k <= int64_max).
  { intros n p h lb Hn. destruct (Ha _ _ _ _ Hn) as (k & Hin & Hk). specialize (Hb _ Hin). cbn in Hb. exists k.
    destruct (LightBlock_ValidateBasic [7] lb) as [[]| |]; try done. destruct (lb_Height lb) as [k'| |]; try done. apply Is_true_eq_true in Hb.
    apply andb_prop in Hb as [[Hb1%Z.eqb_eq Hb2%Z.leb_le]%andb_prop Hb3%Z.leb_le]. subst k'. split_and!; done. }
  constructor; cbn; intros n p h lb.
  - intros Hn. by destruct (Hall _ _ _ _ Hn) as (k & Hv & _).
  - intros Hn Hne. destruct (Hall _ _ _ _ Hn) as (k & _ & Hk & He & _). by rewrite Hk, He.
  - intros hd Hn Hhd. destruct (Hall _ _ _ _ Hn) as (k & _ & Hk & _ & Hr). rewrite (header_height _ _ _ Hhd Hk). unfold_ints. unfold int64_max in Hr. lia.
Qed.

Definition known_blocks : list (Z * LightBlock) :=
  [(1, forged_block 1); (1, linked_block 1); (2, linked_block 2); (3, linked_block 3); (3, forged_block 3); (3, chain_block 3)].

(** Computed: the blocks are valid, of the heights they are listed with. *)
Lemma known_valid : forallb (fun '(h, lb) => match LightBlock_ValidateBasic [7] lb, lb_Height (E := client_error) lb with
                           | Ok _, Ok k => (k =? h) && (1 <=? k) && (k <=? int64_max) | _, _ => false end) known_blocks = true.
Proof. by vm_compute. Qed.

Lemma known_at i k lb : known_blocks !! i = Some (k, lb) -> (k, lb) ∈ known_blocks.
Proof. apply list_elem_of_lookup_2. Qed.

Lemma linked_known h lb : linked_answer h = inl lb -> exists k, (k, lb) ∈ known_blocks /\ (h <> 0 -> k = h).
Proof.
  unfold linked_answer. destruct (Z.eqb_spec h 0) as [->|]; [intros [= <-]; exists 3; split; [by apply (known_at 3)|done]|].
  destruct (Z.eqb_spec h 1) as [->|]; [intros [= <-]; exists 1; split; [by apply (known_at 1)|done]|].
  destruct (Z.eqb_spec h 2) as [->|]; [intros [= <-]; exists 2; split; [by apply (known_at 2)|done]|].
  destruct (Z.eqb_spec h 3) as [->|]; [intros [= <-]; exists 3; split; [by apply (known_at 3)|done]|done].
Qed.

Lemma fickle_laws : provider_laws [7] fickle_net.
Proof.
  apply (finite_laws _ _ known_blocks known_valid). intros n p h lb. case_bool_decide; cbn [andb]; [|apply linked_known].
  destruct (Z.eqb_spec h 1) as [->|]; [|apply linked_known]. intros [= <-]. exists 1. split; [by apply (known_at 0)|done].
Qed.

(** C27: an older block is not verified at all.  The client asks for the block of height 1, below the one
    it trusts; then it follows the hashes down from the trusted header, asking for each height
    again, and stores the block of the first answer without comparing it with the header of
    the last.  A primary that answers differently the second time makes the client
    return and store a block signed by nobody of the chain, whose hash is not
    the one in the trusted header, with every witness honest. *)
Theorem backwards_forged :
  provider_laws [7] fickle_net /\ (forall n p h, n <> 4%nat -> net_LightBlock fickle_net n p h = linked_answer h) /\
  fst fickle_start = Ok tt /\ LastLightBlockHeight (lc_trustedStore (snd fickle_start)) = 2 /\
  fst fickle_run = Ok (forged_block 1) /\ is_ok (LoadLightBlock (lc_trustedStore (snd fickle_run)) 1) = true /\
  lb_Hash (E := client_error) (forged_block 1) <> Ok (bid_Hash (h_LastBlockID (linked_header 2))) /\
  lb_Hash (E := client_error) (linked_block 1) = Ok (bid_Hash (h_LastBlockID (linked_header 2))).
Proof.
  split; [exact fickle_laws|]. split; [intros n p h Hn; cbn; by rewrite bool_decide_false|]. split_and!; vm_compute; try reflexivity. discriminate.
Qed.

(** ** Divergence missed *)

(** The primary has a forged block 3.  Witness 1 does not answer for block 2 and has
    another wrong block 3; witness 2 is honest.  The messages of witness 1 arrive first. *)
Definition collusion_net : Network :=
  net_of (fun n p h => match p with
                       | O => if (h =? 0) || (h =? 3) then inl (forged_block 3) else linked_answer h
                       | S O => if h =? 3 then inl (chain_block 3) else inr ErrNoResponse
                       | _ => linked_answer h
                       end) [0%nat; 0%nat].

Definition collusion_start : outcome client_error unit * Client := NewClient collusion_net [7] linked_trust 0%nat [1%nat; 2%nat] empty_store [].

Definition collusion_run : outcome client_error (option LightBlock) * Client := Update collusion_net 150 (snd collusion_start).

(** A witness whose header differs sends the message of a match after that of the
    conflict, and only as many messages are read as there are witnesses.  A conflict that cannot be verified is
    dropped with its witness, and the message of a match that follows is taken for a witness that
    agrees; the honest witness, which has the true block, is never heard, and no
    evidence is sent. *)
Theorem divergence_missed :
  provider_laws [7] collusion_net /\ (forall n h, net_LightBlock collusion_net n 2%nat h = linked_answer h) /\
  fst collusion_start = Ok tt /\ fst collusion_run = Ok (Some (forged_block 3)) /\
  is_ok (LoadLightBlock (lc_trustedStore (snd collusion_run)) 3) = true /\ lc_sent (snd collusion_run) = [] /\
  lb_Hash (E := client_error) (forged_block 3) <> lb_Hash (linked_block 3).
Proof.
  split; [|split; [done|split_and!; vm_compute; try reflexivity; discriminate]].
  apply (finite_laws _ _ known_blocks known_valid). intros n [|[|p]] h lb; [|..|apply linked_known].
  - destruct (Z.eqb_spec h 0) as [->|]; cbn [orb]; [intros [= <-]; exists 3; split; [by apply (known_at 4)|done]|].
    destruct (Z.eqb_spec h 3) as [->|]; [|apply linked_known]. intros [= <-]. exists 3. split; [by apply (known_at 4)|done].
  - destruct (Z.eqb_spec h 3) as [->|]; [|done]. intros [= <-]. exists 3. split; [by apply (known_at 5)|done].
Qed.

(** ** Its own witness *)

(** The primary fails for good after the start; the witness then forges. *)
Definition alone_net : Network :=
  net_of (fun n p h => match p with O => if bool_decide (n < 3)%nat then linked_answer h else inr ErrBadLightBlock
                       | _ => if (h =? 0) || (h =? 3) then inl (forged_block 3) else linked_answer h end) [].

Definition alone_start : outcome client_error unit * Client := NewClient alone_net [7] linked_trust 0%nat [1%nat] empty_store [].

(** With one witness left, replacing the primary fails because no witness would
    remain; but the primary is already the witness then, which stays in the list
    of witnesses.  The next update compares its block with itself. *)
Theorem primary_own_witness :
  let c1 := snd (Update alone_net 150 (snd alone_start)) in
  let r := Update alone_net 150 c1 in
  fst alone_start = Ok tt /\ fst (Update alone_net 150 (snd alone_start)) = Err ErrNoWitnesses /\
  lc_primary c1 = 1%nat /\ lc_witnesses c1 = [1%nat] /\ fst r = Ok (Some (forged_block 3)).
Proof. by vm_compute. Qed.

(** ** Rolling back *)

(** A client at height 6 with the blocks 2 and 6 in its store rolls back to 4. *)
Definition rolled_back : outcome client_error unit * Client := cleanupAfter 4 (snd updated).

(** [cleanupAfter] keeps the latest block, the one block above the height. *)
Theorem cleanup_keeps_latest :
  fst rolled_back = Ok tt /\ stored_heights (lc_trustedStore (snd rolled_back)) = [2; 6].
Proof. by vm_compute. Qed.

(** A client made from an empty store panics when it is asked for a block. *)
Theorem empty_client_panics :
  let r := NewClientFromTrustedStore chain_net [7] 1000 0%nat [1%nat] empty_store [] in
  fst r = Ok tt /\ fst (VerifyLightBlockAtHeight chain_net 2 150 (snd r)) = Panic.
Proof. by vm_compute. Qed.

(** ** The count of the store *)

Definition saved (lb : LightBlock) (s : dbs) : dbs := snd (SaveLightBlock lb s).

(** The count is under one key for every prefix: reopened, a store counts the
    blocks of another and pruning it to one block leaves none. *)
Theorem store_size_shared :
  let a := saved (chain_block 2) empty_store in
  let b := saved (chain_block 3) (saved (chain_block 2) (New (ls_db a) [2])) in
  let a' := New (ls_db b) [1] in
  ls_size a' = 3 /\ stored_heights a' = [2] /\ stored_heights (Prune 1 a') = [].
Proof. by vm_compute. Qed.
End runs.

(** ** The provider *)

Section http.
  Context {crypto : CryptoLib} {codec : TimeCodec} {wrappers : WrapperLib} (client : RemoteClient).

(** Whatever the node answers, a block that the provider returns is valid, for the
    chain, and of the height asked for. *)
Theorem http_answers_valid chainID height n lb n' :
  http_LightBlock client chainID height n = (Ok lb, n') ->
  LightBlock_ValidateBasic chainID lb = Ok tt /\ (height <> 0 -> lb_Height (E := client_error) lb = Ok height).
Proof.
  unfold http_LightBlock. destruct (height <? 0); [done|]. intros (sh & n1 & _ & (h & n2 & [Hh ->]%glift_Ok & Hr)%gbind_Ok)%gbind_Ok.
  destruct (negb (height =? 0) && negb (h_Height h =? height)) eqn:He; [done|]. apply gbind_Ok in Hr as ([vals voters] & n3 & _ & Hr).
  apply gbind_Ok in Hr as ([] & n4 & [Hv ->]%glift_Ok & Hr). injection Hr as <- _. split.
  - by destruct (LightBlock_ValidateBasic chainID _) as [[]| |].
  - intros Hne. unfold lb_Height, lb_Header. cbn. destruct (sh_Header sh); [|done]. injection Hh as ->. cbn. apply andb_false_iff in He as [He|He]; apply negb_false_iff, Z.eqb_eq in He; [done|by rewrite He].
Qed.

End http.

Section crash.
  #[local] Existing Instances toy_crypto toy_time toy_wrappers.

(** A node that answers with no header, or with the index of a voter that is not
    among the validators, makes the client panic. *)
Theorem http_panics :
  let headless := {| rpc_Commit _ _ := inl (mkSignedHeader None None); rpc_ValidatorsWithVoters _ _ _ _ := inr RpcOther |} in
  let stray := {| rpc_Commit _ _ := inl (signed_by (linked_header 2) []); rpc_ValidatorsWithVoters _ _ _ _ := inl (mkResultValidators (Validators real_validators) [7] 3) |} in
  fst (http_LightBlock headless [7] 2 0%nat) = Panic /\ fst (http_LightBlock stray [7] 2 0%nat) = Panic.
Proof. by vm_compute. Qed.
End crash.
