(* ===== verification/LightClientEnds.v ===== *)
(** * The loops of the light client end

    Whatever the providers answer, as long as they answer with blocks of the height
    asked for, no operation of the light client runs out of the fuel its loops take
    in the model: [NotEnded] is never the result. *)

From Stdlib Require Import ZArith Lia.
From stdpp Require Import prelude list gmap sorting.
From S2P Require Import Prelude SafeMath Crypto Validator ValidatorSet Proto Block VoterSet Merkle PartSet Header Light BlockProto Evidence ChainState StateStore BlockStore EvidencePool VerifyCommit LightStore LightClient LightClientProps.

Local Open Scope Z_scope.
Local Open Scope go_scope.

(** A computation never runs out of fuel, and its results satisfy [Q]. *)
Definition safe {A} (Q : A -> Prop) (m : GoM Client client_error A) : Prop := forall c,
  match fst (m c) with Ok a => Q a | Err e => e <> NotEnded | Panic => True end.

Lemma safe_bind {A B} (Q : A -> Prop) (R : B -> Prop) m (f : A -> GoM Client client_error B) :
  safe Q m -> (forall a, Q a -> safe R (f a)) -> safe R (m ≫= f).
Proof.
  intros Hm Hf c. specialize (Hm c). unfold mbind, gom_bind. destruct (m c) as [[a|e|] c']; cbn in *; [|done..]. by apply Hf.
Qed.

Lemma safe_ret {A} (Q : A -> Prop) a : Q a -> safe Q (mret a).
Proof. by intros Ha c. Qed.

Lemma safe_fail {A} (Q : A -> Prop) e : e <> NotEnded -> safe Q (gfail e).
Proof. by intros He c. Qed.

Lemma safe_panic {A} (Q : A -> Prop) : safe Q gpanic.
Proof. by intros c. Qed.

Lemma safe_get (Q : Client -> Prop) : (forall c, Q c) -> safe Q gget.
Proof. intros HQ c. apply HQ. Qed.

Lemma safe_modify f : safe (fun _ => True) (gmodify f).
Proof. by intros c. Qed.

Lemma safe_try {A} (Q : A -> Prop) m : safe Q m -> safe (fun r => match r with inl a => Q a | inr e => e <> NotEnded end) (gtry m).
Proof. intros Hm c. specialize (Hm c). unfold gtry. by destruct (m c) as [[]]. Qed.

Lemma safe_weaken {A} (Q R : A -> Prop) m : safe Q m -> (forall a, Q a -> R a) -> safe R m.
Proof. intros Hm HQ c. specialize (Hm c). destruct (fst (m c)); auto. Qed.

Lemma safe_mapM {A B} (Q : B -> Prop) (f : A -> GoM Client client_error B) l : (forall a, safe Q (f a)) -> safe (Forall Q) (gmapM f l).
Proof.
  intros Hf. induction l as [|a l IH]; cbn [gmapM]; [by apply safe_ret|]. eapply safe_bind; [apply Hf|]. intros b Hb.
  eapply safe_bind; [exact IH|]. intros bs Hbs. apply safe_ret. by constructor.
Qed.

(** Reading a block fails by a panic only. *)
Lemma safe_header lb : safe (fun h => lb_Header (E := client_error) lb = Ok h) (glift (lb_Header lb)).
Proof.
  intros c. unfold glift. cbn. destruct (lb_Header lb) as [h|e|] eqn:Hh; [done| |done]. exfalso. revert Hh. unfold lb_Header. destruct (lb_SignedHeader lb) as [sh|]; [|done]. cbn. by destruct (sh_Header sh).
Qed.

Lemma safe_height lb : safe (fun h => lb_Height (E := client_error) lb = Ok h) (glift (lb_Height lb)).
Proof.
  intros c. pose proof (safe_header lb c) as Hh. unfold glift in *. cbn in *. unfold lb_Height. destruct (lb_Header lb); done.
Qed.

Lemma safe_commit lb : safe (fun _ => True) (glift (lb_Commit lb)).
Proof. intros c. unfold glift, lb_Commit. cbn. destruct (lb_SignedHeader lb) as [sh|]; [|done]. cbn. by destruct (sh_Commit sh). Qed.

Lemma safe_deref {A} (o : option A) : safe (fun a => o = Some a) (glift (deref o)).
Proof. intros c. by destruct o. Qed.

Lemma safe_idx {A} (l : list A) i : safe (fun a => a ∈ l) (glift (idx l i)).
Proof. intros c. unfold glift, idx. cbn. destruct (i <? 0); [done|]. destruct (l !! Z.to_nat i) eqn:Hl; [by eapply list_elem_of_lookup_2|done]. Qed.

Section ends.
  Context {crypto : CryptoLib} {codec : TimeCodec} {wrappers : WrapperLib} (net : Network).

Lemma safe_hash lb : safe (fun h => lb_Hash (E := client_error) lb = Ok h) (glift (lb_Hash lb)).
Proof. intros c. unfold glift, lb_Hash. cbn. by destruct (lb_SignedHeader lb). Qed.

(** A block of a height that a chain can have. *)
Definition sane (lb : LightBlock) : Prop := forall h, lb_Height (E := client_error) lb = Ok h -> 0 <= h < 2 ^ 59.

Context (chainID : bytes) (laws : provider_laws chainID net).
Context (sane_net : forall n p h lb, net_LightBlock net n p h = inl lb -> sane lb).

Lemma safe_request p h : safe (fun r => forall lb, r = inl lb -> sane lb) (request net p h).
Proof. intros c. cbn. intros lb. apply sane_net. Qed.

Lemma height_same lb h : block_height lb = Ok h <-> lb_Height (E := client_error) lb = Ok h.
Proof. unfold block_height, lb_Height, lb_Header. destruct (lb_SignedHeader lb) as [sh|]; [|done]. cbn. destruct (sh_Header sh); [|done]. cbn. split; congruence. Qed.

(** A block that is not higher is refused at once, for another reason than that
    its voters cannot be trusted. *)
Lemma not_higher o a b low high got needed :
  lb_Height (E := client_error) a = Ok low -> lb_Height (E := client_error) b = Ok high -> high <= low -> 0 <= low < 2 ^ 59 ->
  verify_blocks o a b <> Err (ErrNewValSetCantBeTrusted got needed).
Proof.
  intros Ha Hb Hle Hr Hv. unfold lb_Height, lb_Header, verify_blocks in *.
  destruct (lb_SignedHeader a) as [vsh|]; [|done]. destruct (lb_SignedHeader b) as [nsh|]; [|done].
  destruct (lb_VoterSet a) as [voters|]; [|done]. destruct (lb_ValidatorSet b) as [nvals|]; [|done].
  destruct (lb_VoterSet b) as [nvoters|]; [|done]. cbn [deref mbind outcome_bind] in *. unfold Verify in Hv.
  destruct (sh_Header vsh) as [th|] eqn:E1; [|done]. destruct (sh_Header nsh) as [uh|] eqn:E2; [|done].
  cbn [deref mbind outcome_bind] in *. injection Ha as <-. injection Hb as <-. rewrite wrap64_id, (proj2 (Z.eqb_neq _ _)) in Hv by (unfold_ints; lia).
  cbn [negb] in Hv. unfold VerifyNonAdjacent in Hv. rewrite E1, E2 in Hv. cbn [deref mbind outcome_bind] in Hv.
  rewrite wrap64_id, (proj2 (Z.eqb_neq _ _)) in Hv by (unfold_ints; lia). destruct (HeaderExpired _ _ _); [done|].
  destruct (verifyNewHeaderAndValsAndVoters _ _ _ _ _ _) as [u|e|] eqn:Ev; [| |done].
  - apply verifyNew_Ok in Ev as (Hu & _ & Hlt & _). rewrite E2 in Hu. injection Hu as <-. lia.
  - apply verifyNew_Err in Ev as [r ->]. done.
Qed.

(** A trace has the blocks it was called with and those of the provider. *)
Lemma skip_loop_from (P : LightBlock -> Prop) fuel o source new : P new -> (forall n h lb, source n h = Found lb -> P lb) ->
  forall turn cache depth verified trace t, Forall P cache -> P verified -> Forall P trace ->
  skip_loop fuel o source turn new cache depth verified trace = Some (Ok t) -> Forall P t.
Proof.
  intros Hnew Hs. induction fuel as [|fuel IH]; intros turn cache depth verified trace t Hc Hv Ht; cbn [skip_loop]; [done|].
  destruct (idx (E := unit) cache depth) as [cur| |] eqn:Hi; [|done..]. apply idx_Ok in Hi as [_ Hi]. pose proof (proj1 (Forall_lookup _ _) Hc _ _ Hi) as Hcur.
  destruct (verify_blocks o verified cur) as [[]|e|]; [| |done].
  - destruct (depth =? 0); [intros [= <-]; apply Forall_app; split; [done|by apply Forall_singleton]|].
    apply IH; [by apply Forall_take|done|apply Forall_app; split; [done|by apply Forall_singleton]].
  - destruct e; try (destruct (block_height verified), (block_height cur); done). destruct (block_height verified) as [low| |], (block_height cur) as [high| |]; try done.
    destruct (_ =? _); [|by apply IH]. destruct (source turn _) as [ib| |] eqn:Hq; [|done..]. apply Hs in Hq. apply IH; [|done|done].
    apply Forall_app; split; [done|]. apply Forall_cons_2; [done|by apply Forall_singleton].
Qed.

Lemma skip_ends source a b now : sane a -> sane b -> safe (fun r => forall t, r = inl t -> Forall sane t) (skip_with net source a b now).
Proof.
  intros Ha Hb c. pose proof Ha as Hsa. pose proof Hb as Hsb. unfold skip_with. destruct (lb_Height (E := client_error) a) as [low| |] eqn:Hl; [|done..]. destruct (lb_Height (E := client_error) b) as [high| |] eqn:Hh; [|done..].
  set (answers := fun n h => skip_answer _). specialize (Ha _ Hl). specialize (Hb _ Hh).
  assert (He : exists r, verifySkipping (skip_fuel low high) (client_options c now) answers a b = Some r).
  2: { destruct He as [[t|e|] He]; rewrite He; [|done..]. intros t' [= <-]. refine (skip_loop_from sane _ _ _ b Hsb _ _ _ _ a _ _ _ Hsa _ He); [|by apply Forall_singleton..].
    intros n h lb Hq. unfold answers, skip_answer in Hq. destruct (net_LightBlock net (lc_turn c + n) source h) as [lb'|e] eqn:Hn; [|by destruct (benign e)]. injection Hq as <-. by eapply sane_net. }
  destruct (decide (low < high)) as [Hlt|Hge].
  - destruct (skipping_fuel (client_options c now) answers a b low high (skip_fuel low high)) as (r & Hr & _); [..|by exists r]; try (by apply height_same); try lia.
    + intros n h lb Hne Hs. apply height_same. unfold answers, skip_answer in Hs. destruct (net_LightBlock net (lc_turn c + n) source h) as [lb'|e] eqn:Hn; [|by destruct (benign e)].
      injection Hs as <-. by eapply pl_height.
    + unfold skip_fuel. nia.
  - unfold skip_fuel, verifySkipping. cbn [skip_loop]. change (idx (E := unit) [b] 0) with (Ok (E := unit) b). cbv iota beta.
    destruct (verify_blocks (client_options c now) a b) as [[]|e|] eqn:Hv; [by eexists| |by eexists].
    apply height_same in Hl as Hl', Hh as Hh'. rewrite Hl', Hh'. destruct e; try (by eexists). exfalso. eapply not_higher; [exact Hl|exact Hh|lia|lia|exact Hv].
Qed.

Lemma skip_or_fail_ends source a b now : sane a -> sane b -> safe (fun _ => True) (skip_or_fail net source a b now).
Proof.
  intros Ha Hb. eapply safe_bind; [by apply skip_ends|]. intros [t|e] _; [by apply safe_ret|]. apply safe_fail. destruct e as [|f t [r|]]; discriminate.
Qed.

(** ** Providers *)

Definition ended {A} (m : GoM Client client_error A) : Prop := safe (fun _ => True) m.

Lemma ended_removeWitnesses l : ended (removeWitnesses l).
Proof.
  eapply safe_bind; [by apply (safe_get (fun _ => True))|]. intros c _. destruct (bool_decide _); [by apply safe_fail|].
  eapply (safe_bind (fun _ => True)); [|by intros ws _ c']. intros c'. unfold glift. cbn. generalize (reverse (merge_sort Nat.le l)) as is'. intros is'.
  generalize (lc_witnesses c) as ws. induction is' as [|i is' IH]; intros ws; cbn; [done|]. unfold swap_remove at 1. destruct (last ws), (ws !! i); cbn; try done. apply IH.
Qed.

Lemma promote_ends h rs remove l e : e <> NotEnded -> Forall (fun r => forall lb, snd r = inl lb -> answered net h lb) rs -> safe (answered net h) (promote rs remove l e).
Proof.
  intros He Hrs. revert l e He. induction Hrs as [|[i [lb|e']] rs Ha _ IH]; intros l e He; cbn [promote].
  - eapply safe_bind; [apply safe_try, ended_removeWitnesses|]. intros r _. by apply safe_fail.
  - eapply safe_bind; [by apply (safe_get (fun _ => True))|]. intros c _. cbv zeta. destruct ((if remove then _ else _) !! i); [|apply safe_panic].
    eapply (safe_bind (fun _ => True)); [by intros c'|]. intros _ _. eapply safe_bind; [apply ended_removeWitnesses|]. intros _ _. apply safe_ret. by apply Ha.
  - by apply IH.
Qed.

Lemma findNewPrimary_ends h remove : safe (answered net h) (findNewPrimary net h remove).
Proof.
  eapply safe_bind; [by apply (safe_get (fun _ => True))|]. intros c _. destruct (bool_decide _); [by apply safe_fail|].
  eapply safe_bind; [apply (safe_mapM (fun r => forall lb, r = inl lb -> answered net h lb)); intros w c' lb Hlb; by exists (lc_turn c'), w|]. intros rs Hrs.
  eapply (safe_bind (fun _ => True)); [by intros c'|]. intros order _. apply promote_ends; [done|].
  apply Forall_forall. intros [i r] Hin lb0 Hl. apply receive_elem in Hin as (q & Hq & Hin). apply elem_of_lookup_imap in Hq as (j & r' & -> & Hj).
  apply list_elem_of_singleton in Hin. injection Hin as -> ->. exact (proj1 (Forall_lookup _ _) Hrs j r' Hj lb0 Hl).
Qed.

Lemma fromPrimary_ends h : safe (answered net h) (lightBlockFromPrimary net h).
Proof.
  eapply safe_bind; [by apply (safe_get (fun _ => True))|]. intros c _.
  eapply (safe_bind (fun r => forall lb, r = inl lb -> answered net h lb)); [intros c' lb Hlb; by exists (lc_turn c'), (lc_primary c)|].
  intros [lb|e] Hr; [apply safe_ret; by apply Hr|]. destruct e; try (by apply safe_fail); apply findNewPrimary_ends.
Qed.

Lemma answered_sane h lb : answered net h lb -> sane lb.
Proof. intros (n & p & Hn). by eapply sane_net. Qed.

Lemma replace_ends h hash e : e <> NotEnded -> safe (answered net h) (replace_primary net h hash e).
Proof.
  intros He. eapply safe_bind; [apply safe_try, findNewPrimary_ends|]. intros [lb|e'] Hr; [|by apply safe_fail].
  eapply safe_bind; [apply safe_hash|]. intros hash' _. destruct (negb _); [by apply safe_fail|by apply safe_ret].
Qed.

(** ** The detector *)

Definition sane_message (m : comparison) : Prop := match m with Conflicting lb _ => sane lb | _ => True end.

Lemma compare_hashes_ends h lb i : sane lb -> safe (Forall sane_message) (compare_hashes h lb i).
Proof. intros Hs. eapply safe_bind; [apply safe_hash|]. intros hash _. apply safe_ret. destruct (negb _); [apply Forall_cons_2; [done|]|]; by apply Forall_singleton. Qed.

Lemma getTarget_ends h w : safe (fun r => forall b lb, r = inl (b, lb) -> sane lb) (getTargetBlockOrLatest net h w).
Proof.
  eapply safe_bind; [apply safe_request|]. intros [lb|e] Hr; [|by apply safe_ret]. eapply safe_bind; [apply safe_height|]. intros k _.
  destruct (k =? h); [apply safe_ret; intros b lb' [= <- <-]; by apply Hr|]. destruct (h <? k); [|apply safe_ret; intros b lb' [= <- <-]; by apply Hr].
  eapply safe_bind; [apply safe_request|]. intros [lb'|e] Hr'; apply safe_ret; [|done]. intros b lb'' [= <- <-]. by apply Hr'.
Qed.

Lemma compare_ends h w i : safe (Forall sane_message) (compareNewHeaderWithWitness net h w i).
Proof.
  assert (Hone : forall m, sane_message m -> safe (Forall sane_message) (mret [m])) by (intros m Hm; by apply safe_ret, Forall_singleton).
  eapply safe_bind; [apply safe_request|]. intros [lb|e] Hr; [by apply compare_hashes_ends, Hr|]. destruct e; try (by apply Hone).
  eapply safe_bind; [apply getTarget_ends|]. intros [[b lb]|e] Ht; [|by apply Hone]. specialize (Ht b lb eq_refl). destruct b; [by apply compare_hashes_ends|].
  eapply safe_bind; [apply safe_header|]. intros lh _. destruct (negb _); [by apply Hone|].
  eapply safe_bind; [apply getTarget_ends|]. intros [[b lb']|e] Ht'; [|destruct e; by apply Hone]. specialize (Ht' b lb' eq_refl). destruct b; [by apply compare_hashes_ends|].
  eapply safe_bind; [apply safe_header|]. intros lh' _. destruct (negb _); by apply Hone.
Qed.

Lemma comparisons_ends h : safe (Forall sane_message) (comparisons net h).
Proof.
  eapply safe_bind; [by apply (safe_get (fun _ => True))|]. intros c _. eapply safe_bind; [apply (safe_mapM (Forall sane_message)); intros [i w]; apply compare_ends|].
  intros qs Hqs. eapply (safe_bind (fun _ => True)); [by intros c'|]. intros order _. apply safe_ret. apply Forall_forall. intros m Hm.
  apply receive_elem in Hm as (q & Hq & Hm). rewrite Forall_forall in Hqs. specialize (Hqs q Hq). rewrite Forall_forall in Hqs. by apply Hqs.
Qed.

Lemma examine_loop_ends trace target source now prev st :
  sane target -> (forall p, prev = Some p -> sane p) -> safe (fun r => snd r ∈ trace) (examine_loop net trace target source now prev st).
Proof.
  intros Ht. revert prev st. induction trace as [|tb trace IH]; intros prev st Hp; cbn [examine_loop]; [by apply safe_fail|].
  assert (IH' : forall prev st, (forall p, prev = Some p -> sane p) -> safe (fun r => snd r ∈ tb :: trace) (examine_loop net trace target source now prev st)).
  { intros prev' st' Hp'. eapply safe_weaken; [by apply IH|]. intros r Hr. by apply list_elem_of_further. }
  assert (Hhere : forall t, safe (fun r : list LightBlock * LightBlock => snd r ∈ tb :: trace) (mret (t, tb))) by (intros t; apply safe_ret, list_elem_of_here).
  eapply safe_bind; [apply safe_header|]. intros th _. eapply safe_bind; [apply safe_header|]. intros gh _. destruct (h_Height gh <? h_Height th).
  - destruct (h_Time gh <? h_Time th); [by apply safe_fail|]. eapply safe_bind; [apply safe_deref|]. intros pb Hpb. eapply safe_bind; [apply safe_height|]. intros ph _.
    destruct (negb _); [|apply Hhere]. eapply safe_bind; [apply skip_or_fail_ends; [by apply Hp|done]|]. intros t _. apply Hhere.
  - eapply (safe_bind sane).
    { destruct (_ =? _); [by apply safe_ret|]. eapply safe_bind; [apply safe_request|]. intros [lb|e] Hr; [apply safe_ret; by apply Hr|by apply safe_fail]. }
    intros sb Hsb. eapply safe_bind; [apply safe_hash|]. intros sh _. destruct prev as [pb|].
    + eapply safe_bind; [apply skip_or_fail_ends; [by apply Hp|done]|]. intros t _. destruct (negb _); [apply Hhere|]. apply IH'. by intros p [= <-].
    + destruct (negb _); [by apply safe_fail|]. apply IH'. by intros p [= <-].
Qed.

Lemma examine_ends trace target source now : sane target -> safe (fun r => snd r ∈ trace) (examineConflictingHeaderAgainstTrace net trace target source now).
Proof.
  intros Ht. eapply safe_bind; [apply safe_idx|]. intros f _. eapply safe_bind; [apply safe_height|]. intros th _. eapply safe_bind; [apply safe_height|]. intros fh _.
  destruct (th <? fh); [by apply safe_fail|]. by apply examine_loop_ends.
Qed.

(** ** Evidence *)

Definition no_err {E A} (o : outcome E A) : Prop := forall e, o <> Err e.

Lemma no_err_bind {E A B} (m : outcome E A) (f : A -> outcome E B) : no_err m -> (forall a, no_err (f a)) -> no_err (m ≫= f).
Proof. intros Hm Hf e. destruct m as [a|e'|]; cbn; [apply Hf|by destruct (Hm e')|done]. Qed.

Lemma no_err_deref {E A} (o : option A) : no_err (deref (E := E) o).
Proof. by destruct o. Qed.

Lemma no_err_idx {E A} (l : list A) i : no_err (idx (E := E) l i).
Proof. intros e. unfold idx. destruct (_ <? _); [done|]. by destruct (_ !! _). Qed.

Lemma no_err_total {E} voters : no_err (TotalVotingWeight (E := E) voters).
Proof.
  unfold TotalVotingWeight. apply no_err_bind; [|done]. destruct (_ =? _); [|done]. unfold updateTotalVotingWeight. apply no_err_bind; [|done].
  generalize 0. induction (Voters voters) as [|v l IH]; intros z; cbn; [done|]. destruct (_ <? _); [done|apply IH].
Qed.

Lemma no_err_sort {E} l : no_err (sort_by_power (E := E) l).
Proof. intros e. unfold sort_by_power. destruct (mapM id l); [done|]. by destruct (bool_decide _). Qed.

Lemma no_err_equivocating {E} voters sigs trusted i : no_err (equivocating_voters (E := E) voters sigs trusted i).
Proof.
  revert i. induction sigs as [|a sigs IH]; intros i; cbn; [done|]. destruct (Absent a); [apply IH|]. apply no_err_bind; [apply no_err_idx|]. intros b.
  destruct (Absent b); [apply IH|]. by apply no_err_bind; [apply IH|].
Qed.

Lemma no_err_byzantine {E} l voters trusted : no_err (GetByzantineValidators (E := E) l voters trusted).
Proof.
  unfold GetByzantineValidators, conflicting_header, conflicting_commit. apply no_err_bind; [apply no_err_deref|]. intros th. apply no_err_bind; [apply no_err_bind; intros; apply no_err_deref|].
  intros h. apply no_err_bind; [apply no_err_bind; intros; apply no_err_deref|]. intros c. destruct (ConflictingHeaderIsInvalid th h); [apply no_err_sort|].
  apply no_err_bind; [apply no_err_deref|]. intros tc. destruct (_ =? _); [|done]. apply no_err_bind; [apply no_err_deref|]. intros v.
  apply no_err_bind; [apply no_err_equivocating|]. intros ?. apply no_err_sort.
Qed.

Lemma attack_evidence_ends conflicted trace : ended (glift (attack_evidence conflicted trace)).
Proof.
  enough (Hn : no_err (attack_evidence conflicted trace)) by (intros c; unfold glift; cbn [fst]; destruct (attack_evidence _ _) as [|e|]; [done|by destruct (Hn e)|done]).
  assert (Hh : forall lb, no_err (lb_Header (E := client_error) lb)) by (intros lb; unfold lb_Header; apply no_err_bind; intros; apply no_err_deref).
  unfold attack_evidence. apply no_err_bind; [apply no_err_idx|]. intros a. apply no_err_bind; [apply no_err_idx|]. intros b. unfold newLightClientAttackEvidence.
  apply no_err_bind; [apply Hh|]. intros h1. apply no_err_bind; [apply Hh|]. intros h2. cbv zeta. apply no_err_bind; [apply Hh|]. intros h3.
  apply no_err_bind; [apply no_err_deref|]. intros v. apply no_err_bind; [apply no_err_total|]. intros [t v']. apply no_err_bind; [apply no_err_deref|]. intros cv.
  apply no_err_bind; [apply no_err_deref|]. intros sh. apply no_err_bind; [apply no_err_byzantine|done].
Qed.

Lemma handle_ends trace lb i now : Forall sane trace -> sane lb -> ended (handleConflictingHeaders net trace lb i now).
Proof.
  intros Htr Hlb. eapply safe_bind; [by apply (safe_get (fun _ => True))|]. intros c _. eapply safe_bind; [apply safe_idx|]. intros w _.
  eapply safe_bind; [apply safe_try; by apply examine_ends|]. intros [[wt pb]|e] Hr; [|destruct e; try (by apply safe_ret); done]. cbn in Hr.
  assert (Hpb : sane pb) by (rewrite Forall_forall in Htr; by apply Htr).
  eapply safe_bind; [apply attack_evidence_ends|]. intros ev _. eapply safe_bind; [apply safe_modify|]. intros _ _. eapply safe_bind; [apply safe_commit|]. intros _ _.
  eapply safe_bind; [apply safe_idx|]. intros t _. eapply safe_bind; [apply safe_commit|]. intros _ _.
  eapply safe_bind; [apply safe_try; by apply examine_ends|]. intros [[pt wb]|e] Hr'; [|destruct e; try (by apply safe_fail); done].
  eapply safe_bind; [apply attack_evidence_ends|]. intros ev' _. eapply safe_bind; [apply safe_modify|]. intros _ _. by apply safe_fail.
Qed.

Lemma detect_loop_ends errs trace now b l : Forall sane trace -> Forall sane_message errs -> ended (detect_loop net errs trace now b l).
Proof.
  intros Htr Herrs. revert b l. induction Herrs as [|m errs Hm _ IH]; intros b l; cbn [detect_loop].
  - eapply safe_bind; [apply ended_removeWitnesses|]. intros _ _. destruct b; [by apply safe_ret|by apply safe_fail].
  - destruct m as [|lb i|i|e]; try apply IH; [|destruct e; try apply IH; by apply safe_fail]. eapply safe_bind; [by apply handle_ends|]. intros _ _. apply IH.
Qed.

Lemma detect_ends trace now : Forall sane trace -> ended (detectDivergence net trace now).
Proof.
  intros Htr. unfold detectDivergence. destruct (_ <? _); [by apply safe_fail|]. eapply safe_bind; [apply safe_idx|]. intros lb _. eapply safe_bind; [apply safe_header|]. intros h _.
  eapply safe_bind; [by apply (safe_get (fun _ => True))|]. intros c _. destruct (bool_decide _); [by apply safe_fail|].
  eapply safe_bind; [apply comparisons_ends|]. intros errs Herrs. by apply detect_loop_ends.
Qed.

(** ** The number of witnesses *)

Definition count (c : Client) : nat := length (lc_witnesses c).

Lemma swap_remove_all_count ws l ws' : swap_remove_all ws l = Ok ws' -> (length ws' + length l = length ws)%nat.
Proof.
  revert ws. induction l as [|i l IH]; intros ws; cbn [swap_remove_all]; [intros [= <-]; cbn; lia|]. intros (ws1 & H1 & H2)%obind_Ok. apply IH in H2. unfold swap_remove in H1.
  destruct (last ws) eqn:Hl; [|done]. destruct (ws !! i) eqn:Hi; [|done]. injection H1 as <-. apply lookup_lt_Some in Hi. rewrite length_take, length_insert in H2. cbn. lia.
Qed.

Lemma removeWitnesses_count l c c' : removeWitnesses l c = (Ok tt, c') -> (count c' + length l = count c)%nat.
Proof.
  unfold removeWitnesses. intros (c1 & c2 & Hg & Hr)%gbind_Ok. injection Hg as <- <-. destruct (bool_decide _); [done|]. apply gbind_Ok in Hr as (ws & c3 & [Hws ->]%glift_Ok & Hr).
  injection Hr as <-. apply swap_remove_all_count in Hws. rewrite length_reverse, merge_sort_Permutation in Hws. exact Hws.
Qed.

Lemma promote_count rs remove l e c lb c' : promote rs remove l e c = (Ok lb, c') -> (count c' + (if remove then 1 else 0) <= count c)%nat.
Proof.
  revert l e c. induction rs as [|[i [lb0|e']] rs IH]; intros l e c; cbn [promote].
  - intros (x & c1 & _ & Hr)%gbind_Ok. discriminate.
  - intros (c0 & c1 & Hg & Hr)%gbind_Ok. injection Hg as <- <-. cbv zeta in Hr. destruct ((if remove then _ else _) !! i); [|done].
    apply gbind_Ok in Hr as ([] & c2 & Hp & Hr). injection Hp as <-. apply gbind_Ok in Hr as ([] & c3 & Hrm%removeWitnesses_count & Hr). injection Hr as _ <-.
    unfold count in *. cbn [set_providers lc_witnesses] in Hrm. rewrite length_app in Hrm. destruct remove; rewrite ?length_app in Hrm; cbn in *; lia.
  - apply IH.
Qed.

Lemma request_count h l c rs c' : gmapM (fun w => request net w h) l c = (Ok rs, c') -> count c' = count c.
Proof.
  revert c rs. induction l as [|w l IH]; intros c rs; cbn [gmapM]; [by intros [= _ <-]|]. intros (b & c1 & Hb & (bs & c2 & Hbs & Hr)%gbind_Ok)%gbind_Ok.
  injection Hb as _ <-. injection Hr as _ <-. by rewrite (IH _ _ Hbs).
Qed.

Lemma findNewPrimary_count h remove c lb c' : findNewPrimary net h remove c = (Ok lb, c') -> (count c' + (if remove then 1 else 0) <= count c)%nat.
Proof.
  unfold findNewPrimary. intros (c0 & c1 & Hg & Hr)%gbind_Ok. injection Hg as <- <-. destruct (bool_decide _); [done|]. apply gbind_Ok in Hr as (rs & c2 & Hrs%request_count & Hr).
  apply gbind_Ok in Hr as (order & c3 & Hs & Hr). injection Hs as _ <-. apply promote_count in Hr. unfold count in *. cbn in Hr. lia.
Qed.

Lemma fromPrimary_count h c lb c' : lightBlockFromPrimary net h c = (Ok lb, c') -> (count c' <= count c)%nat.
Proof.
  unfold lightBlockFromPrimary. intros (c0 & c1 & Hg & (r & c2 & Hq & Hr)%gbind_Ok)%gbind_Ok. injection Hg as <- <-. unfold request in Hq. injection Hq as _ <-.
  destruct r as [lb0|e]; [by injection Hr as _ <-|]. destruct e; try discriminate; apply findNewPrimary_count in Hr; unfold count in *; cbn in Hr; lia.
Qed.

Lemma replace_count h hash e c lb c' : replace_primary net h hash e c = (Ok lb, c') -> (count c' < count c)%nat.
Proof.
  unfold replace_primary. intros (r & c1 & Hq & Hr)%gbind_Ok. destruct r as [lb0|]; [|done]. apply gtry_Ok, findNewPrimary_count in Hq.
  apply gbind_Ok in Hr as (hash' & c2 & [_ ->]%glift_Ok & Hr). destruct (negb _); [done|]. injection Hr as _ <-. lia.
Qed.

(** ** The loops *)

Definition safe_at (c : Client) {A} (Q : A -> Prop) (m : GoM Client client_error A) : Prop :=
  match fst (m c) with Ok a => Q a | Err e => e <> NotEnded | Panic => True end.

Lemma safe_at_step c {A B} (Q : A -> Prop) (R : B -> Prop) m (f : A -> GoM Client client_error B) :
  safe_at c Q m -> (forall a c', m c = (Ok a, c') -> Q a -> safe_at c' R (f a)) -> safe_at c R (m ≫= f).
Proof. intros Hm Hf. unfold safe_at, mbind, gom_bind in *. destruct (m c) as [[a|e|] c'] eqn:Hr; cbn in *; [|done..]. by apply Hf. Qed.

Lemma safe_at_bind c {A B} (Q : A -> Prop) (R : B -> Prop) m (f : A -> GoM Client client_error B) :
  safe Q m -> (forall a c', m c = (Ok a, c') -> Q a -> safe_at c' R (f a)) -> safe_at c R (m ≫= f).
Proof. intros Hm Hf. by apply (safe_at_step c Q); [apply Hm|]. Qed.

Lemma safe_at_bind' c {A B} (Q : A -> Prop) (R : B -> Prop) m (f : A -> GoM Client client_error B) :
  safe_at c Q m -> (forall a, Q a -> safe R (f a)) -> safe_at c R (m ≫= f).
Proof. intros Hm Hf. apply (safe_at_step c Q); [done|]. intros a c' _ Ha. by apply Hf. Qed.

Lemma sequential_ends fuel new nh now : lb_Height (E := client_error) new = Ok nh -> sane new ->
  forall a h trace c, 0 <= h -> (Z.to_nat (nh - h + 1) + count c <= fuel)%nat -> Forall sane trace ->
  safe_at c (Forall sane) (sequential_loop net fuel a new h now trace).
Proof.
  intros Hnh Hsane. pose proof (Hsane nh Hnh) as Hr. induction fuel as [|fuel IH]; intros a h trace c H0 Hf Htr; cbn [sequential_loop].
  all: (eapply safe_at_bind; [apply safe_height|]; intros x c1 [_ ->]%glift_Ok Hx); (eapply safe_at_bind; [apply safe_hash|]; intros y c2 [_ ->]%glift_Ok _);
    (eapply safe_at_bind; [apply safe_height|]; intros z c3 [_ ->]%glift_Ok _); rewrite Hnh in Hx; injection Hx as <-; destruct (Z.ltb_spec nh h); [exact Htr|].
  { exfalso. lia. }
  apply (safe_at_bind c (fun r => forall lb, r = inl lb -> sane lb)).
  { destruct (_ =? _); [apply safe_ret; by intros lb [= <-]|]. eapply safe_weaken; [apply safe_try, fromPrimary_ends|]. intros [lb|e] Hq; [|done]. intros lb' [= <-]. by eapply answered_sane. }
  intros r c4 Hq Hr4. assert (Hc : (count c4 <= count c)%nat \/ exists e, r = inr e).
  { destruct (_ =? _); [left; by injection Hq as _ <-|]. destruct r as [lb|e]; [left; by apply gtry_Ok, fromPrimary_count in Hq|right; by exists e]. }
  destruct r as [ib|e]; [|discriminate]. destruct Hc as [Hc|[e He]]; [|done]. specialize (Hr4 ib eq_refl).
  eapply safe_at_bind; [apply safe_height|]. intros ih c5 [_ ->]%glift_Ok _. eapply safe_at_bind; [by apply (safe_get (fun _ => True))|]. intros c6 c7 Hg _. injection Hg as <- <-.
  destruct (adjacent c4 a ib now) as [[]|e|]; [|cbv zeta|done].
  - rewrite wrap64_id by (unfold_ints; lia). apply IH; [lia|lia|]. apply Forall_app; split; [done|by apply Forall_singleton].
  - destruct (is_invalid_header e && _); [|discriminate]. eapply safe_at_bind; [by apply replace_ends|]. intros rb c8 Hc8%replace_count _. apply IH; [lia|lia|done].
Qed.

Lemma verifySequential_ends a new now : sane a -> sane new -> ended (verifySequential net a new now).
Proof.
  intros Ha Hnew. eapply safe_bind; [apply safe_height|]. intros low Hl. eapply safe_bind; [apply safe_height|]. intros high Hh.
  pose proof (Ha _ Hl). pose proof (Hnew _ Hh). intros c. change (safe_at c (fun _ => True) (c ← gget; trace ← sequential_loop net (loop_fuel (high - low) c) a new (low +i64 1) now [a]; detectDivergence net trace now)).
  eapply safe_at_bind; [by apply (safe_get (fun _ => True))|]. intros c1 c2 Hg _. injection Hg as <- <-. eapply safe_at_bind'; [|intros t Ht; by apply detect_ends].
  rewrite wrap64_id by (unfold_ints; lia). eapply (sequential_ends _ new high); [done|done|lia| |by apply Forall_singleton]. unfold loop_fuel, count. lia.
Qed.

Lemma skip_count source a b now c r c' : skip_with net source a b now c = (Ok r, c') -> count c' = count c.
Proof.
  unfold skip_with. destruct (lb_Height (E := client_error) a), (lb_Height (E := client_error) b); try done. destruct (verifySkipping _ _ _ _ _) as [[]|]; try done; by intros [= _ <-].
Qed.

Lemma skipping_loop_ends fuel a now : sane a -> forall new c, sane new -> (count c <= fuel)%nat -> safe_at c (fun _ => True) (skipping_loop net fuel a new now).
Proof.
  intros Ha. induction fuel as [|fuel IH]; intros new c Hnew Hf; cbn [skipping_loop].
  all: (eapply safe_at_bind; [by apply (safe_get (fun _ => True))|]; intros c1 c2 Hg _; injection Hg as <- <-);
    (eapply safe_at_bind; [apply safe_height|]; intros nh c3 [_ ->]%glift_Ok _); (eapply safe_at_bind; [apply safe_hash|]; intros hash c4 [_ ->]%glift_Ok _);
    (eapply safe_at_bind; [by apply skip_ends|]; intros r c5 Hc5%skip_count Ht); destruct r as [t|[got needed|f t r]]; try (by apply detect_ends).
  1,3: by apply detect_ends, Ht.
  all: destruct (_ && _); [|destruct r; discriminate]; (eapply safe_at_bind; [apply replace_ends; destruct r; discriminate|]); intros rb c6 Hc6%replace_count Hrb.
  { lia. }
  apply IH; [by eapply answered_sane|lia].
Qed.

Lemma backwards_ends fuel v new c :
  1 <= h_Height new -> h_Height v < 2 ^ 59 -> (Z.to_nat (h_Height v - h_Height new) + count c <= fuel)%nat -> safe_at c (fun _ => True) (backwards net fuel v new).
Proof.
  revert v new c. induction fuel as [|fuel IH]; intros v new c Hn Hv Hf; cbn [backwards]; destruct (Z.leb_spec (h_Height v) (h_Height new)); try done; [lia|].
  eapply safe_at_bind; [apply fromPrimary_ends|]. intros ib c1 Hc%fromPrimary_count (n & p & Ha). eapply safe_at_bind; [apply safe_header|]. intros ih c2 [_ ->]%glift_Ok Hih.
  rewrite wrap64_id in Ha by (unfold_ints; lia). pose proof (header_height _ _ _ Hih (pl_height _ _ laws _ _ _ _ Ha ltac:(lia))) as Hh.
  destruct (VerifyBackwards ih v) as [[]|e|]; [| |done].
  - apply IH; lia.
  - eapply safe_at_bind; [by apply replace_ends|]. intros nb c3 Hc3%replace_count (n' & p' & Hb). eapply safe_at_bind; [apply safe_header|]. intros hd c4 [_ ->]%glift_Ok Hhd.
    pose proof (header_height _ _ _ Hhd (pl_height _ _ laws _ _ _ _ Hb ltac:(lia))). apply IH; lia.
Qed.

(** ** What users call *)

Lemma from_store_ends {A} (f : dbs -> outcome light_store_error A) c : safe_at c (fun a => f (lc_trustedStore c) = Ok a) (from_store f).
Proof. unfold safe_at, from_store, mbind, gom_bind, gget, glift. cbn. by destruct (f (lc_trustedStore c)). Qed.

Lemma on_store_ends {A} (m : GoM dbs light_store_error A) : ended (on_store m).
Proof. intros c. unfold on_store. destruct (m (lc_trustedStore c)) as [[]]; done. Qed.

Lemma updateTrusted_ends l : ended (updateTrustedLightBlock l).
Proof.
  eapply safe_bind; [apply on_store_ends|]. intros _ _. eapply safe_bind; [by apply (safe_get (fun _ => True))|]. intros c _.
  eapply (safe_bind (fun _ => True)); [destruct (_ <? _); [apply on_store_ends|by apply safe_ret]|]. intros _ _. eapply safe_bind; [apply safe_height|]. intros h _.
  destruct (lc_latestTrustedBlock c); [|apply safe_modify]. eapply safe_bind; [apply safe_height|]. intros lh _. destruct (_ <? _); [apply safe_modify|by apply safe_ret].
Qed.

(** The blocks a client trusts have heights that a chain can have. *)
Record sane_client (c : Client) : Prop := {
  sc_latest l : lc_latestTrustedBlock c = Some l -> sane l;
  sc_store h lb : LoadLightBlock (lc_trustedStore c) h = Ok lb -> sane lb
}.

Lemma sane_client_same c c' : same_trust c c' -> sane_client c -> sane_client c'.
Proof. intros Hs [S1 S2]. constructor; [rewrite (sm_latest _ _ Hs)|rewrite (sm_store _ _ Hs)]; done. Qed.

Lemma verifyLightBlock_ends new now c : sane_client c -> sane new -> (forall h, lb_Height (E := client_error) new = Ok h -> 1 <= h) ->
  safe_at c (fun _ => True) (verifyLightBlock net new now).
Proof.
  intros [S1 S2] Hnew Hpos. unfold verifyLightBlock. eapply safe_at_bind; [by apply (safe_get (fun _ => True))|]. intros c1 c2 Hg _. injection Hg as <- <-. cbv zeta.
  eapply safe_at_bind; [apply safe_header|]. intros hd c3 [_ ->]%glift_Ok Hhd. eapply safe_at_bind; [apply safe_deref|]. intros l c4 [_ ->]%glift_Ok Hl.
  eapply safe_at_bind; [apply safe_height|]. intros lh c5 [_ ->]%glift_Ok _. eapply safe_at_bind'; [|intros _ _; apply updateTrusted_ends].
  assert (Hnh : lb_Height (E := client_error) new = Ok (h_Height hd)) by (unfold lb_Height; by rewrite Hhd).
  assert (Hvf : forall a, sane a -> ended (match lc_verificationMode c with sequential => verifySequential net | skipping => verifySkippingAgainstPrimary net end a new now)).
  { intros a Ha. destruct (lc_verificationMode c); [by apply verifySequential_ends|]. intros c'. change (safe_at c' (fun _ => True) (skipping_loop net (length (lc_witnesses c')) a new now)). by apply skipping_loop_ends. }
  destruct (_ <=? _); [by apply Hvf, S1|]. destruct (_ <? _).
  - eapply safe_at_step; [apply from_store_ends|]. intros fb c6 [_ ->]%from_store_run Hf. eapply safe_at_bind; [apply safe_header|]. intros f c7 [_ ->]%glift_Ok Hfh.
    apply (backwards_ends _ f hd c); [by apply Hpos| |unfold loop_fuel, count; lia]. destruct (S2 _ _ Hf (h_Height f)); [|done]. unfold lb_Height. by rewrite Hfh.
  - eapply safe_at_bind'; [apply from_store_ends|]. intros cb [k Hk]%before_loaded. by apply Hvf, (S2 k).
Qed.

Lemma try_ends {A} (m : GoM Client client_error A) : ended (gtry m).
Proof. intros c. unfold gtry. by destruct (m c) as [[]]. Qed.

Context (positive : forall n p h lb k, net_LightBlock net n p h = inl lb -> lb_Height (E := client_error) lb = Ok k -> 1 <= k).

Lemma verify_fetched_ends h now c lb c' : sane_client c -> same_trust c c' -> answered net h lb -> safe_at c' (fun _ => True) (verifyLightBlock net lb now).
Proof.
  intros Hc Hs (n & p & Hn). apply verifyLightBlock_ends; [by eapply sane_client_same|by eapply sane_net|]. intros k Hk. by eapply positive.
Qed.

Lemma Update_ends now c : sane_client c -> safe_at c (fun _ => True) (Update net now).
Proof.
  intros Hc. unfold Update. eapply safe_at_bind; [by apply (safe_get (fun _ => True))|]. intros c1 c2 Hg _. injection Hg as <- <-. cbv zeta. destruct (_ =? _); [done|].
  eapply safe_at_bind; [apply fromPrimary_ends|]. intros lb c3 Hq Ha. eapply safe_at_bind; [apply safe_height|]. intros h c4 [_ ->]%glift_Ok _. destruct (_ <? _); [|done].
  eapply safe_at_bind'; [|by intros _ _; apply safe_ret]. eapply verify_fetched_ends; [exact Hc| |exact Ha]. exact (keeps_run _ _ _ _ (kept_lightBlockFromPrimary net 0) Hq).
Qed.

Lemma AtHeight_ends height now c : sane_client c -> safe_at c (fun _ => True) (VerifyLightBlockAtHeight net height now).
Proof.
  intros Hc. unfold VerifyLightBlockAtHeight. destruct (height <=? 0); [discriminate|]. eapply safe_at_bind; [apply try_ends|]. intros r c1 Ht _. destruct r as [lb|e]; [done|].
  eapply safe_at_bind; [apply fromPrimary_ends|]. intros lb c2 Hq Ha. eapply safe_at_bind'; [|by intros _ _; apply safe_ret]. eapply verify_fetched_ends; [exact Hc| |exact Ha].
  etrans; [exact (keeps_run _ _ _ _ (keeps_gtry _ _ (kept_trusted height)) Ht)|exact (keeps_run _ _ _ _ (kept_lightBlockFromPrimary net height) Hq)].
Qed.

Lemma VerifyHeader_ends newHeader now c : sane_client c -> safe_at c (fun _ => True) (VerifyHeader net newHeader now).
Proof.
  intros Hc. unfold VerifyHeader. destruct newHeader as [nh|]; [|discriminate]. destruct (_ <=? _); [discriminate|]. eapply safe_at_bind; [apply try_ends|]. intros r c1 Ht _. destruct r as [lb|e].
  { eapply safe_at_bind; [apply safe_hash|]. intros hash c2 _ _. destruct (negb _); [discriminate|done]. }
  eapply safe_at_bind; [apply fromPrimary_ends|]. intros lb c2 Hq Ha. eapply safe_at_bind; [apply safe_hash|]. intros hash c3 [_ ->]%glift_Ok _. destruct (negb _); [discriminate|].
  eapply verify_fetched_ends; [exact Hc| |exact Ha].
  etrans; [exact (keeps_run _ _ _ _ (keeps_gtry _ _ (kept_trusted (h_Height nh))) Ht)|exact (keeps_run _ _ _ _ (kept_lightBlockFromPrimary net (h_Height nh)) Hq)].
Qed.

End ends.

Lemma safe_at_ended c {A} (m : GoM Client client_error A) : safe_at c (fun _ => True) m -> fst (m c) <> Err NotEnded.
Proof. unfold safe_at. destruct (fst (m c)); congruence. Qed.

(** C26: the loops of the light client end.  Providers answer as they like, differently each
    time, with valid blocks of the height they are asked for; every replaced primary leaves
    fewer providers, so that updating and verifying return: a block, or an error of the
    code, never that the fuel of a loop was not enough. *)
Theorem client_ends {crypto : CryptoLib} {codec : TimeCodec} {wrappers : WrapperLib} net chainID c now :
  provider_laws chainID net -> (forall n p h lb k, net_LightBlock net n p h = inl lb -> lb_Height (E := client_error) lb = Ok k -> 1 <= k < 2 ^ 59) -> sane_client c ->
  fst (Update net now c) <> Err NotEnded /\
  (forall height, fst (VerifyLightBlockAtHeight net height now c) <> Err NotEnded) /\
  (forall newHeader, fst (VerifyHeader net newHeader now c) <> Err NotEnded).
Proof.
  intros laws Hb Hc. assert (Hsane : forall n p h lb, net_LightBlock net n p h = inl lb -> sane lb) by (intros n p h lb Hn k Hk; specialize (Hb _ _ _ _ _ Hn Hk); lia).
  assert (Hpos : forall n p h lb k, net_LightBlock net n p h = inl lb -> lb_Height (E := client_error) lb = Ok k -> 1 <= k) by (intros n p h lb k Hn Hk; specialize (Hb _ _ _ _ _ Hn Hk); lia).
  split_and!; intros; apply safe_at_ended; [by eapply Update_ends|by eapply AtHeight_ends|by eapply VerifyHeader_ends].
Qed.

(** ** Rolling back *)

Section rollback.
  Context {crypto : CryptoLib} {codec : TimeCodec} {wrappers : WrapperLib}.

(** Blocks are stored under their heights. *)
Definition keyed (s : dbs) : Prop := forall k b, LoadLightBlock s k = Ok b -> lb_Height (E := client_error) b = Ok k.

Lemma stored_spec s h : h ∈ stored_heights s <-> 47 ∉ ls_prefix s /\ 1 <= h <= int64_max /\ is_Some (ld_blocks (ls_db s) !! (ls_prefix s, h)).
Proof.
  unfold stored_heights. case_bool_decide as Hs; [split; [by intros ?%elem_of_nil|by intros [? _]]|]. rewrite merge_sort_Permutation, list_elem_of_fmap. split.
  - intros ([p k] & -> & [[Hp Hk] ([[p' k'] pb] & Hv & Hin)%list_elem_of_fmap]%list_elem_of_filter). cbn in Hp, Hv. injection Hv as <- <-. subst p. apply elem_of_map_to_list in Hin. split; [done|]. split; [exact Hk|by exists pb].
  - intros (_ & Hh & [pb Hpb]). exists (ls_prefix s, h). split; [done|]. apply list_elem_of_filter. split; [done|]. apply list_elem_of_fmap. exists ((ls_prefix s, h), pb). split; [done|]. by apply elem_of_map_to_list.
Qed.

Lemma stored_NoDup s : NoDup (stored_heights s).
Proof.
  unfold stored_heights. destruct (bool_decide _); [apply NoDup_nil_2|]. rewrite merge_sort_Permutation. apply NoDup_fmap_2_strong.
  - intros [p k] [q j] [[Hp _] _]%list_elem_of_filter [[Hq _] _]%list_elem_of_filter He. cbn in *. congruence.
  - apply NoDup_filter, NoDup_fst_map_to_list.
Qed.

(** Every round deletes the highest block below the one before. *)
Lemma cleanup_loop_ends fuel height (prev : Z) c :
  keyed (lc_trustedStore c) -> (length (filter (fun h => (h < prev)%Z) (stored_heights (lc_trustedStore c))) <= fuel)%nat -> fst (cleanup_loop fuel height prev c) <> Err NotEnded.
Proof.
  revert prev c. induction fuel as [|fuel IH]; intros prev c Hk Hf; cbn [cleanup_loop]; unfold mbind at 1, gom_bind at 1, gget at 1; unfold LightBlockBefore in *.
  all: destruct (prev <=? 0); [done|]; destruct (last _) as [k|] eqn:Hl; [|done]; destruct (LoadLightBlock (lc_trustedStore c) k) as [b|e|] eqn:Hb; [|by destruct e|done].
  all: unfold mbind at 1, gom_bind at 1, glift; rewrite (Hk _ _ Hb); destruct (k <=? height); [done|].
  { apply Nat.le_0_r, nil_length_inv in Hf. by rewrite Hf in Hl. }
  apply last_Some in Hl as [l Hl]. assert (Hin : k ∈ filter (fun h => h < prev) (stored_heights (lc_trustedStore c))) by (rewrite Hl; apply elem_of_app; right; apply list_elem_of_here).
  apply list_elem_of_filter in Hin as [Hlt Hin]. pose proof Hin as (Hp & Hr & _)%stored_spec. unfold on_store, DeleteLightBlock. destruct (Z.leb_spec k 0); [lia|]. cbn [gmodify lift_err]. unfold mbind at 1, gom_bind at 1. cbn [lift_err].
  set (s := lc_trustedStore c) in *. set (s' := mkDbs _ _ _). apply IH; cbn [set_store lc_trustedStore].
  - intros j b'. unfold LoadLightBlock. destruct (j <=? 0) eqn:Hj; [done|]. cbn [s' ls_db ld_blocks ls_prefix]. destruct (delete _ _ !! _) as [pb|] eqn:Hd; [|done]. apply lookup_delete_Some in Hd as [_ Hd]. intros Hfp.
    apply (Hk j b'). unfold LoadLightBlock. rewrite Hj. by rewrite Hd.
  - enough (Hs : k :: filter (fun h => h < k) (stored_heights s') ⊆+ filter (fun h => h < prev) (stored_heights s)) by (apply submseteq_length in Hs; cbn in Hs; lia).
    apply NoDup_submseteq.
    + apply NoDup_cons. split; [intros [Hkk _]%list_elem_of_filter; lia|apply NoDup_filter, stored_NoDup].
    + intros j [-> |[Hjk Hj]%list_elem_of_filter]%elem_of_cons; [by apply list_elem_of_filter|].
      apply list_elem_of_filter. split; [lia|]. apply stored_spec in Hj as (_ & Hjr & [pb Hjp]). cbn in Hjp. apply lookup_delete_Some in Hjp as [_ Hjp]. apply stored_spec. split; [done|]. split; [done|by exists pb].
Qed.

(** [cleanupAfter] ends: one block is deleted in each round. *)
Theorem cleanup_ends height c : keyed (lc_trustedStore c) -> fst (cleanupAfter height c) <> Err NotEnded.
Proof.
  intros Hk. unfold cleanupAfter, mbind at 1, gom_bind at 1, gget at 1. unfold mbind at 1, gom_bind at 1, glift at 1. destruct (lc_latestTrustedBlock c) as [l|]; [|done]. cbn [deref].
  unfold mbind at 1, gom_bind at 1. pose proof (safe_height l c) as Hh. destruct (glift (lb_Height l) c) as [[h|e|] c1] eqn:Hg; cbn in Hh; [|cbn; congruence|done]. injection Hg as _ <-.
  unfold mbind at 1, gom_bind at 1. pose proof (cleanup_loop_ends (length (stored_heights (lc_trustedStore c))) height h c Hk (length_filter _ _)) as Hl.
  destruct (cleanup_loop _ height h c) as [[[]|e|] c2]; [|cbn in *; congruence|done]. unfold mbind at 1, gom_bind at 1, gmodify at 1.
  unfold restoreTrustedLightBlock, mbind at 1, gom_bind at 1, gget at 1. cbv zeta. destruct (0 <? _); [|done]. unfold from_store, mbind, gom_bind, gget, glift. cbn. by destruct (LoadLightBlock _ _).
Qed.

End rollback.

Section witness.
  #[local] Existing Instances toy_crypto toy_time toy_wrappers.

Definition stored2 : pbLightBlock := ok_or (mk_pbLightBlock None None None) (LightBlock_ToProto (chain_block 2)).
Definition loaded2 : LightBlock := ok_or (chain_block 1) (LightBlock_FromProto stored2).

Lemma started_blocks :
  lc_latestTrustedBlock (snd started) = Some (chain_block 2) /\ ld_blocks (ls_db (lc_trustedStore (snd started))) = {[ (ls_prefix (lc_trustedStore (snd started)), 2) := stored2 ]} /\
  LightBlock_FromProto stored2 = Ok loaded2 /\ lb_Height (E := client_error) loaded2 = Ok 2.
Proof. split_and!; by vm_compute. Qed.

(** The client that was started trusts the block 2. *)
Lemma started_sane : sane_client (snd started).
Proof.
  destruct started_blocks as (B1 & B2 & B3 & B4). constructor.
  - intros l Hl. rewrite B1 in Hl. injection Hl as <-. intros h [= <-]. lia.
  - intros h lb Hload k Hk. unfold LoadLightBlock in Hload. destruct (h <=? 0); [done|]. rewrite B2 in Hload. destruct ({[ _ := _ ]} !! _) as [pb|] eqn:Hp; [|done].
    apply lookup_singleton_Some in Hp as [_ <-]. rewrite B3 in Hload. injection Hload as <-. rewrite B4 in Hk. injection Hk as <-. lia.
Qed.

Lemma chain_heights n p h lb k : net_LightBlock chain_net n p h = inl lb -> lb_Height (E := client_error) lb = Ok k -> 1 <= k < 2 ^ 59.
Proof.
  cbn. destruct (h =? 0); [intros [= <-] [= <-]; lia|]. destruct (Z.leb_spec 1 h), (Z.leb_spec h 6); cbn; try done. intros [= <-] [= <-]. lia.
Qed.

Lemma client_ends_witness : is_ok (fst (Update chain_net 150 (snd started))) = true /\ fst (Update chain_net 150 (snd started)) <> Err NotEnded.
Proof. split; [by vm_compute|]. exact (proj1 (client_ends chain_net [7] (snd started) 150 chain_laws chain_heights started_sane)). Defined.

End witness.
