(* ===== verification/Handshake.v ===== *)
(** * Recovery after a crash: src/consensus/replay.go, src/consensus/replay_stubs.go

    When a node starts, [Handshaker] asks the application for its height and
    replays the blocks it has not seen, so that the state store, the block store
    and the application agree.  A block whose execution was interrupted is executed
    again, in the application or, if that has committed it, in a mock that gives
    the responses that were saved.

    The hash and the JSON state of the genesis document are parameters, and so is
    the generated decoder of blocks.  The evidence pool opens after the handshake;
    it is carried along. *)

From Stdlib Require Import ZArith Lia.
From stdpp Require Import prelude list gmap.
From S2P Require Import Prelude SafeMath Crypto Validator ValidatorSet Proto Block VoterSet Election Merkle PartSet Header Light BlockProto.
From S2P Require Import Evidence ChainState StateStore BlockStore EvidencePool BlockExec.

Local Open Scope Z_scope.
Local Open Scope go_scope.

(** ** The application *)

Record ResponseInfo := mkResponseInfo { in_AppVersion : Z; in_LastBlockHeight : Z; in_LastBlockAppHash : bytes }.

Record RequestInitChain := mkRequestInitChain {
  rq_Time : Time; rq_ChainId : bytes; rq_InitialHeight : Z; rq_ConsensusParams : ParamUpdates;
  rq_Validators : list (PublicKey * Z); rq_AppStateBytes : bytes
}.

Record ResponseInitChain := mkResponseInitChain {
  ic_ConsensusParams : option ParamUpdates; ic_Validators : list (PublicKey * Z); ic_AppHash : bytes
}.

(** The further calls of [proxy.AppConns] a handshake makes. *)
Class AppConns (app : Application) := {
  InfoSync : AppState -> outcome unit ResponseInfo;
  InitChainSync : RequestInitChain -> AppState -> outcome unit (ResponseInitChain * AppState)
}.

(** ** Stubs *)

Definition emptyMempool : MempoolLib := {|
  MempoolState := unit; ReapMaxBytesMaxGasMaxTxs _ _ _ _ := []; FlushAppConn _ := true; Mempool_Update _ _ _ m := Some m
|}.

Record mockProxyApp := mkMockProxyApp { mp_appHash : bytes; mp_txCount : Z; mp_abciResponses : ABCIResponses }.

Definition newMockProxyApp (appHash : bytes) (abciResponses : ABCIResponses) : mockProxyApp := mkMockProxyApp appHash 0 abciResponses.

Definition empty_DeliverTx : ResponseDeliverTx := mkDeliverTx 0 [] [] [] 0 0 [].

Definition mock_DeliverTx (tx : bytes) (mock : mockProxyApp) : outcome unit (ResponseDeliverTx * mockProxyApp) :=
  r ← idx (ar_DeliverTxs (mp_abciResponses mock)) (mp_txCount mock);
  Ok (default empty_DeliverTx r, mkMockProxyApp (mp_appHash mock) (mp_txCount mock + 1) (mp_abciResponses mock)).

Definition mock_EndBlock (height : Z) (mock : mockProxyApp) : outcome unit (EndBlockResponse * mockProxyApp) :=
  Ok (ar_EndBlock (mp_abciResponses mock), mkMockProxyApp (mp_appHash mock) 0 (mp_abciResponses mock)).

(** [BeginBlock] is the one of [BaseApplication]. *)
Definition mock_app : Application := {|
  AppState := mockProxyApp;
  BeginBlockSync _ mock := Ok mock;
  DeliverTxAsync := mock_DeliverTx;
  EndBlockSync := mock_EndBlock;
  CommitSync mock := Ok (mp_appHash mock, 0, mock)
|}.

(** ** Conversions: src/types/protobuf.go *)

(** [OC2PB.ValidatorUpdate] panics on a key it does not know. *)
Definition OC2PB_ValidatorUpdate {E} (val : Validator) : outcome E (PublicKey * Z) :=
  pubKey ← deref (vPubKey val);
  match PubKeyToProto pubKey with Ok pk => Ok (pk, VotingPower val) | _ => Panic end.

Fixpoint OC2PB_ValidatorUpdates {E} (vals : list Validator) : outcome E (list (PublicKey * Z)) :=
  match vals with
  | [] => Ok []
  | val :: vals => u ← OC2PB_ValidatorUpdate val; rest ← OC2PB_ValidatorUpdates vals; Ok (u :: rest)
  end.

Definition OC2PB_ConsensusParams (params : ConsensusParams) : ParamUpdates :=
  mkParamUpdates (Some (cp_MaxBytes params, cp_MaxGas params))
    (Some (cp_MaxAgeNumBlocks params, cp_MaxAgeDuration params, cp_EvidenceMaxBytes params)) (Some (cp_PubKeyTypes params)) None.

(** ** The handshake *)

Inductive handshake_error :=
| ErrCallingInfo | ErrNegativeAppHeight | ErrInitChain | ErrInitValidators (e : exec_error) | ErrNoValidators | ErrHandshakeStore
| ErrAppBlockHeightTooLow (appHeight storeBase : Z) | ErrAppBlockHeightTooHigh (coreHeight appHeight : Z) | ErrReplay (e : exec_error).

(** The states with a version, with parameters and with validators. *)
Definition with_Params (s : ChainState) (params : ConsensusParams) : ChainState :=
  mkChainState (mkVersion (ver_Block (st_Version s)) (cp_AppVersion params)) (st_ChainID s) (st_InitialHeight s) (st_VoterParams s)
    (st_LastBlockHeight s) (st_LastBlockID s) (st_LastBlockTime s) (st_LastProofHash s) (st_NextValidators s) (st_Validators s)
    (st_Voters s) (st_LastVoters s) (st_LastHeightValidatorsChanged s) params (st_LastHeightConsensusParamsChanged s)
    (st_LastResultsHash s) (st_AppHash s).

Definition with_Validators (s : ChainState) (vals next : ValidatorSet) (voters : VoterSet) : ChainState :=
  mkChainState (st_Version s) (st_ChainID s) (st_InitialHeight s) (st_VoterParams s)
    (st_LastBlockHeight s) (st_LastBlockID s) (st_LastBlockTime s) (st_LastProofHash s) next vals
    voters (st_LastVoters s) (st_LastHeightValidatorsChanged s) (st_ConsensusParams s) (st_LastHeightConsensusParamsChanged s)
    (st_LastResultsHash s) (st_AppHash s).

Definition with_ResultsHash (s : ChainState) (hash : bytes) : ChainState :=
  mkChainState (st_Version s) (st_ChainID s) (st_InitialHeight s) (st_VoterParams s)
    (st_LastBlockHeight s) (st_LastBlockID s) (st_LastBlockTime s) (st_LastProofHash s) (st_NextValidators s) (st_Validators s)
    (st_Voters s) (st_LastVoters s) (st_LastHeightValidatorsChanged s) (st_ConsensusParams s) (st_LastHeightConsensusParamsChanged s)
    hash (st_AppHash s).

Definition with_version (params : ConsensusParams) (v : Z) : ConsensusParams :=
  mkConsensusParams (cp_MaxBytes params) (cp_MaxGas params) (cp_TimeIotaMs params) (cp_MaxAgeNumBlocks params)
    (cp_MaxAgeDuration params) (cp_EvidenceMaxBytes params) (cp_PubKeyTypes params) v.

Section replay.
  Context {crypto : CryptoLib} {codec : TimeCodec} {wrappers : WrapperLib} {vrf : VrfLib} {decoder : EvidenceCodec}.
  Context (GenesisDoc_Hash GenesisDoc_AppState : GenesisDoc -> bytes) (decode : bytes -> option Block).

  #[local] Existing Instance emptyMempool.

(** The executor runs its own computations. *)
Definition replaying `{app : Application} {A} (m : GoM BlockExecutor exec_error A) : GoM BlockExecutor handshake_error A := fun e =>
  let '(r, e) := m e in (lift_err ErrReplay r, e).

(** [proxyApp] is the application of the executor. *)
Definition replayBlock `{app : Application} (state : ChainState) (height : Z) : GoM BlockExecutor handshake_error ChainState :=
  e ← gget;
  block ← glift (LoadBlock decode (be_blockStore e) height);
  meta ← glift (LoadBlockMeta (be_blockStore e) height);
  consensusParams ← glift (lift_err (fun _ => ErrHandshakeStore) (LoadConsensusParams (be_store e) height));
  let state := with_Params state consensusParams in
  meta ← glift (deref meta);
  block ← glift (deref block);
  '(state, _) ← replaying (ApplyBlock_with EmptyEvidencePool None state (bm_BlockID meta) block);
  mret state.

Definition assertAppHashEqualsOneFromBlock {E} (appHash : bytes) (block : Block) : outcome E unit :=
  if negb (bytes_eqb appHash (h_AppHash (b_Header block))) then Panic else Ok tt.

Definition assertAppHashEqualsOneFromState {E} (appHash : bytes) (state : ChainState) : outcome E unit :=
  if negb (bytes_eqb appHash (st_AppHash state)) then Panic else Ok tt.

Context {app : Application} {conns : AppConns app}.

Record Handshaker := mkHandshaker { hs_exec : BlockExecutor; hs_nBlocks : Z }.

Abbreviation HandshakeM := (GoM Handshaker handshake_error).

Definition counted (h : Handshaker) (e : BlockExecutor) : Handshaker := mkHandshaker e (hs_nBlocks h).

Definition on_exec {A} (m : GoM BlockExecutor handshake_error A) : HandshakeM A := fun h =>
  let '(r, e) := m (hs_exec h) in (r, counted h e).

(** The stores are shared with an executor over the mock. *)
Definition on_mock {A} (mock : mockProxyApp) (m : GoM (@BlockExecutor mock_app emptyMempool) handshake_error A)
  : GoM BlockExecutor handshake_error A := fun e =>
  let '(r, e') := m (@mkBlockExecutor mock_app emptyMempool (be_store e) (be_blockStore e) (be_evpool e) mock tt) in
  (r, mkBlockExecutor (be_store e') (be_blockStore e') (be_evpool e') (be_proxyApp e) (be_mempool e)).

Definition count_block : HandshakeM unit := gmodify (fun h => mkHandshaker (hs_exec h) (hs_nBlocks h + 1)).

(** The loop of [replayBlocks], [n] blocks from [i] on. *)
Fixpoint replay_loop (n : nat) (i initialHeight : Z) (voterParams : VoterParams) (appHash : bytes) : HandshakeM bytes :=
  match n with
  | O => mret appHash
  | S n =>
      h ← gget;
      block ← glift (LoadBlock decode (be_blockStore (hs_exec h)) i);
      _ ← glift (if bool_decide (appHash <> []) then block ← deref block; assertAppHashEqualsOneFromBlock appHash block else Ok tt);
      block ← glift (deref block);
      appHash ← on_exec (replaying (ExecCommitBlock block initialHeight voterParams));
      count_block;;
      replay_loop n (i + 1) initialHeight voterParams appHash
  end.

Definition replayBlocks (genDoc : GenesisDoc) (state : ChainState) (appBlockHeight storeBlockHeight : Z) (mutateState : bool) : HandshakeM bytes :=
  let finalBlock := if mutateState then storeBlockHeight -i64 1 else storeBlockHeight in
  let firstBlock := appBlockHeight +i64 1 in
  let firstBlock := if firstBlock =? 1 then st_InitialHeight state else firstBlock in
  appHash ← replay_loop (Z.to_nat (finalBlock - firstBlock + 1)) firstBlock (gd_InitialHeight genDoc) (st_VoterParams state) [];
  '(appHash, state) ←
    (if mutateState then
       state ← on_exec (replayBlock state storeBlockHeight);
       count_block;; mret (st_AppHash state, state)
     else mret (appHash, state));
  glift (assertAppHashEqualsOneFromState appHash state);;
  mret appHash.

(** The request of [InitChain]. *)
Definition init_request {E} (genDoc : GenesisDoc) : outcome E RequestInitChain :=
  validators ← genesis_validators (default [] (gd_Validators genDoc));
  validatorSet ← NewValidatorSet validators;
  nextVals ← OC2PB_ValidatorUpdates (Validators validatorSet);
  params ← deref (gd_ConsensusParams genDoc);
  Ok (mkRequestInitChain (gd_GenesisTime genDoc) (gd_ChainID genDoc) (gd_InitialHeight genDoc) (OC2PB_ConsensusParams params) nextVals
        (GenesisDoc_AppState genDoc)).

(** The initial state with what the application answered. *)
Definition init_state (genDoc : GenesisDoc) (res : ResponseInitChain) (state : ChainState) : outcome handshake_error ChainState :=
  let state := if bool_decide (ic_AppHash res <> []) then with_AppHash state (ic_AppHash res) else state in
  state ←
    (if bool_decide (ic_Validators res <> []) then
       vals ← lift_err ErrInitValidators (PB2OC_ValidatorUpdates (ic_Validators res));
       validators ← NewValidatorSet vals;
       voters ← SelectVoter validators (GenesisDoc_Hash genDoc) (st_VoterParams state);
       next ← NewValidatorSet vals;
       Ok (with_Validators state validators next voters)
     else if bool_decide (default [] (gd_Validators genDoc) = []) then Err ErrNoValidators
     else Ok state);
  let state := match ic_ConsensusParams res with
               | None => state
               | Some _ => with_Params state (UpdateConsensusParams (st_ConsensusParams state) (ic_ConsensusParams res))
               end in
  Ok (with_ResultsHash state (HashFromByteSlices [])).

Definition call_InitChain (req : RequestInitChain) : GoM BlockExecutor handshake_error ResponseInitChain := fun e =>
  match InitChainSync req (be_proxyApp e) with
  | Err _ => (Err ErrInitChain, e)
  | Panic => (Panic, e)
  | Ok (res, a) => (Ok res, mkBlockExecutor (be_store e) (be_blockStore e) (be_evpool e) a (be_mempool e))
  end.

Definition save_initial (state : ChainState) : GoM BlockExecutor handshake_error unit := fun e =>
  let '(r, db) := save state (be_store e) in
  (lift_err (fun _ => ErrHandshakeStore) r, mkBlockExecutor db (be_blockStore e) (be_evpool e) (be_proxyApp e) (be_mempool e)).

(** The first part of [ReplayBlocks]. *)
Definition init_chain (genDoc : GenesisDoc) (state : ChainState) : GoM BlockExecutor handshake_error (bytes * ChainState) :=
  req ← glift (init_request genDoc);
  res ← call_InitChain req;
  if st_LastBlockHeight state =? 0 then
    state ← glift (init_state genDoc res state);
    save_initial state;;
    mret (ic_AppHash res, state)
  else mret (ic_AppHash res, state).

(** The cases of the heights, with the application at its genesis or above. *)
Definition replay_cases (genDoc : GenesisDoc) (state : ChainState) (appHash : bytes) (appBlockHeight storeBlockBase storeBlockHeight stateBlockHeight : Z)
  : HandshakeM bytes :=
  if storeBlockHeight =? 0 then glift (assertAppHashEqualsOneFromState appHash state);; mret appHash
  else if (appBlockHeight =? 0) && (st_InitialHeight state <? storeBlockBase) then gfail (ErrAppBlockHeightTooLow appBlockHeight storeBlockBase)
  else if (0 <? appBlockHeight) && (appBlockHeight <? storeBlockBase -i64 1) then gfail (ErrAppBlockHeightTooLow appBlockHeight storeBlockBase)
  else if storeBlockHeight <? appBlockHeight then gfail (ErrAppBlockHeightTooHigh storeBlockHeight appBlockHeight)
  else if storeBlockHeight <? stateBlockHeight then gpanic
  else if stateBlockHeight +i64 1 <? storeBlockHeight then gpanic
  else if storeBlockHeight =? stateBlockHeight then
    if appBlockHeight <? storeBlockHeight then replayBlocks genDoc state appBlockHeight storeBlockHeight false
    else if appBlockHeight =? storeBlockHeight then glift (assertAppHashEqualsOneFromState appHash state);; mret appHash
    else gpanic
  else if storeBlockHeight =? stateBlockHeight +i64 1 then
    if appBlockHeight <? stateBlockHeight then replayBlocks genDoc state appBlockHeight storeBlockHeight true
    else if appBlockHeight =? stateBlockHeight then
      state ← on_exec (replayBlock state storeBlockHeight);
      count_block;; mret (st_AppHash state)
    else if appBlockHeight =? storeBlockHeight then
      h ← gget;
      abciResponses ← glift (lift_err (fun _ => ErrHandshakeStore) (LoadABCIResponses (be_store (hs_exec h)) storeBlockHeight));
      state ← on_exec (on_mock (newMockProxyApp appHash abciResponses) (@replayBlock mock_app state storeBlockHeight));
      count_block;; mret (st_AppHash state)
    else gpanic
  else gpanic.

Definition ReplayBlocks (genDoc : GenesisDoc) (state : ChainState) (appHash : bytes) (appBlockHeight : Z) : HandshakeM bytes :=
  h ← gget;
  let storeBlockBase := bs_base (be_blockStore (hs_exec h)) in
  let storeBlockHeight := bs_height (be_blockStore (hs_exec h)) in
  let stateBlockHeight := st_LastBlockHeight state in
  '(appHash, state) ← (if appBlockHeight =? 0 then on_exec (init_chain genDoc state) else mret (appHash, state));
  replay_cases genDoc state appHash appBlockHeight storeBlockBase storeBlockHeight stateBlockHeight.

Definition Handshake (genDoc : GenesisDoc) (initialState : ChainState) : HandshakeM unit :=
  h ← gget;
  res ← glift (lift_err (fun _ => ErrCallingInfo) (InfoSync (be_proxyApp (hs_exec h))));
  let blockHeight := in_LastBlockHeight res in
  if blockHeight <? 0 then gfail ErrNegativeAppHeight
  else
    let appHash := in_LastBlockAppHash res in
    let initialState := if st_LastBlockHeight initialState =? 0
                        then with_Params initialState (with_version (st_ConsensusParams initialState) (in_AppVersion res)) else initialState in
    _ ← ReplayBlocks genDoc initialState appHash blockHeight;
    mret tt.

Definition NewHandshaker (stateStore : dbStore) (store : BlockStore) (evpool : Pool) (proxyApp : AppState) : Handshaker :=
  mkHandshaker (mkBlockExecutor stateStore store evpool proxyApp tt) 0.

End replay.
