(* ===== verification/HandshakeProps.v ===== *)
(** * Crashes and the handshake

    What is left of a node that stops while it executes a block, and that the
    handshake of src/consensus/replay.go brings its stores and the application to
    where an undisturbed execution would have left them. *)

From Stdlib Require Import ZArith Lia.
From stdpp Require Import prelude list gmap.
From S2P Require Import Prelude SafeMath Crypto Validator ValidatorSet ValidatorLists ValidatorSetPriority Proto Block VoterSet VerifyCommit.
From S2P Require Import Election Merkle Header Light BlockProto Evidence EvidenceProps ChainState ChainProps StateStore BlockStore BlockStoreProps StateProps StoreHistory EvidencePool.
From S2P Require Import EvidencePoolProps BlockExec BlockExecProps Handshake.

Local Open Scope Z_scope.
Local Open Scope go_scope.

(** ** A block in an application *)

Section application.
  Context {crypto : CryptoLib} {codec : TimeCodec} {wrappers : WrapperLib} {vrf : VrfLib} {decoder : EvidenceCodec}.
  Context {app : Application} {mempool : MempoolLib}.

Fixpoint deliver_all (txs : list bytes) (a : AppState) : outcome unit (list ResponseDeliverTx * AppState) :=
  match txs with
  | [] => Ok ([], a)
  | tx :: txs => '(r, a) ← DeliverTxAsync tx a; '(rest, a) ← deliver_all txs a; Ok (r :: rest, a)
  end.

Definition app_block (req : RequestBeginBlock) (b : Block) (a : AppState) : outcome unit (ABCIResponses * AppState) :=
  a ← BeginBlockSync req a;
  '(rs, a) ← deliver_all (b_Txs b) a;
  '(end', a) ← EndBlockSync (h_Height (b_Header b)) a;
  Ok (mkABCIResponses (Some <$> rs) end', a).

Definition with_app (e : BlockExecutor) (a : AppState) : BlockExecutor :=
  mkBlockExecutor (be_store e) (be_blockStore e) (be_evpool e) a (be_mempool e).

Lemma on_app_Ok {A} err (f : AppState -> outcome unit (A * AppState)) e x e' :
  on_app err f e = (Ok x, e') <-> exists a, f (be_proxyApp e) = Ok (x, a) /\ e' = with_app e a.
Proof.
  unfold on_app, with_app. destruct (f (be_proxyApp e)) as [[y a]| |]; split; try done.
  - intros [= <- <-]. eauto.
  - intros (a' & [= <- <-] & ->). done.
  - by intros (? & ? & _).
  - by intros (? & ? & _).
Qed.

Lemma deliver_Ok txs : forall e rs e',
  deliver_txs txs e = (Ok rs, e') <-> exists a, deliver_all txs (be_proxyApp e) = Ok (rs, a) /\ e' = with_app e a.
Proof.
  induction txs as [|tx txs IH]; intros e rs e'; cbn [deliver_txs deliver_all].
  - split; [intros [= <- <-]; exists (be_proxyApp e); by destruct e|]. intros (a & [= <- <-] & ->). by destruct e.
  - split.
    + intros (r & e1 & (a1 & H1 & ->)%on_app_Ok & H2)%gbind_Ok. apply gbind_Ok in H2 as (rest & e2 & (a2 & H2 & ->)%IH & [= <- <-]).
      exists a2. rewrite H1. cbn [mbind outcome_bind]. cbn [with_app be_proxyApp] in H2. rewrite H2. done.
    + intros (a & Hd & ->). destruct (DeliverTxAsync tx (be_proxyApp e)) as [[r a1]| |] eqn:E1; [|done..]. cbn [mbind outcome_bind] in Hd.
      destruct (deliver_all txs a1) as [[rest a2]| |] eqn:E2; [|done..]. injection Hd as <- <-.
      rewrite (gbind_step _ _ e r (with_app e a1)) by (apply on_app_Ok; eauto).
      rewrite (gbind_step _ _ (with_app e a1) rest (with_app e a2)) by (apply IH; eauto). done.
Qed.

Lemma exec_Ok b initial params e r e' :
  execBlockOnProxyApp b initial params e = (Ok r, e') <->
  exists info byz hash a, getBeginBlockValidatorInfo (E:=exec_error) b (be_store e) initial params = Ok info /\
    byzantine_validators (E:=exec_error) (b_Evidence b) = Ok byz /\ Block_Hash (E:=exec_error) b = Ok hash /\
    app_block (mkRequestBeginBlock hash (b_Header b) info byz) b (be_proxyApp e) = Ok (r, a) /\ e' = with_app e a.
Proof.
  unfold execBlockOnProxyApp, app_block. split.
  - intros (e0 & e1 & [= <- <-] & Hr)%gbind_Ok. apply gbind_Ok in Hr as (info & e2 & [Hi ->]%glift_Ok & Hr).
    apply gbind_Ok in Hr as (byz & e3 & [Hb ->]%glift_Ok & Hr). apply gbind_Ok in Hr as (hash & e4 & [Hh ->]%glift_Ok & Hr).
    apply gbind_Ok in Hr as ([] & e5 & (a1 & H1 & ->)%on_app_Ok & Hr). apply gbind_Ok in Hr as (txs & e6 & (a2 & H2 & ->)%deliver_Ok & Hr).
    apply gbind_Ok in Hr as (en & e7 & (a3 & H3 & ->)%on_app_Ok & [= <- <-]). exists info, byz, hash, a3. split_and!; try done.
    apply obind_Ok in H1 as (a1' & H1 & [= ->]). rewrite H1. cbn [mbind outcome_bind]. cbn [with_app be_proxyApp] in H2, H3. rewrite H2. cbn [mbind outcome_bind].
    by rewrite H3.
  - intros (info & byz & hash & a & Hi & Hb & Hh & Ha & ->). rewrite (gbind_step gget _ _ _ _ eq_refl), (glift_step _ _ _ _ Hi), (glift_step _ _ _ _ Hb), (glift_step _ _ _ _ Hh).
    apply obind_Ok in Ha as (a1 & H1 & Ha). apply obind_Ok in Ha as ([rs a2] & H2 & Ha). apply obind_Ok in Ha as ([en a3] & H3 & [= <- <-]).
    rewrite (gbind_step _ _ e tt (with_app e a1)) by (apply on_app_Ok; exists a1; by rewrite H1).
    rewrite (gbind_step _ _ _ rs (with_app e a2)) by (apply deliver_Ok; eauto).
    rewrite (gbind_step _ _ _ en (with_app e a3)) by (apply on_app_Ok; eauto). done.
Qed.

(** What executing a block makes of a state and of an application. *)
Record block_run (s : ChainState) (a : AppState) (id : BlockID) (b : Block) (r : ABCIResponses) (a1 : AppState) (s' : ChainState) (a' : AppState) : Prop := {
  br_valid : validateBlock s (h_Round (b_Header b)) b = Ok tt;
  br_app : exists commit byz hash, b_LastCommit b = Some commit /\ byzantine_validators (E:=exec_error) (b_Evidence b) = Ok byz /\
    Block_Hash (E:=exec_error) b = Ok hash /\ app_block (mkRequestBeginBlock hash (b_Header b) (commit_info s commit) byz) b a = Ok (r, a1);
  br_commit : exists retain, CommitSync a1 = Ok (st_AppHash s', retain, a');
  br_state : exists updates s1,
    validateValidatorUpdates (eb_ValidatorUpdates (ar_EndBlock r)) (cp_PubKeyTypes (st_ConsensusParams s)) = Ok tt /\
    PB2OC_ValidatorUpdates (eb_ValidatorUpdates (ar_EndBlock r)) = Ok updates /\
    updateState s id (b_Header b) (delivered r) (eb_ParamUpdates (ar_EndBlock r)) updates = Ok s1 /\ s' = with_AppHash s1 (st_AppHash s')
}.

Lemma app_block_full req b a r a' : app_block req b a = Ok (r, a') -> strip_responses r = r.
Proof.
  unfold app_block. intros (a1 & _ & H)%obind_Ok. apply obind_Ok in H as ([rs a2] & _ & H). apply obind_Ok in H as ([en a3] & _ & [= <- <-]).
  unfold strip_responses. cbn. f_equal. f_equal. induction rs as [|x rs IH]; [done|]. cbn. by f_equal.
Qed.

Lemma exec_info s b e commit r e' :
  b_LastCommit b = Some commit ->
  getBeginBlockValidatorInfo (E:=exec_error) b (be_store e) (st_InitialHeight s) (st_VoterParams s) = Ok (commit_info s commit) ->
  execBlockOnProxyApp b (st_InitialHeight s) (st_VoterParams s) e = (Ok r, e') ->
  exists byz hash a, byzantine_validators (E:=exec_error) (b_Evidence b) = Ok byz /\ Block_Hash (E:=exec_error) b = Ok hash /\
    app_block (mkRequestBeginBlock hash (b_Header b) (commit_info s commit) byz) b (be_proxyApp e) = Ok (r, a) /\ e' = with_app e a.
Proof.
  intros Hc Hi (info & byz & hash & a & Hi' & H)%exec_Ok. rewrite Hi in Hi'. injection Hi' as <-. exists byz, hash, a. apply H.
Qed.

(** Where the calls of [Fail] are: what an execution that succeeds leaves when
    it ends at one of them. *)
Record stages (s : ChainState) (id : BlockID) (b : Block) (e : BlockExecutor) (s' : ChainState) (e' : BlockExecutor)
    (r : ABCIResponses) (a1 : AppState) : Prop := {
  sg_run : block_run s (be_proxyApp e) id b r a1 s' (be_proxyApp e');
  sg_save : save s' (snd (SaveABCIResponses (h_Height (b_Header b)) r (be_store e))) = (Ok tt, be_store e');
  sg_stop : forall k, (k < 4)%nat -> exists ek, ApplyBlock_with pool_evidence (Some k) s id b e = (Panic, ek) /\
    be_store ek = match k with
                  | 0%nat => be_store e
                  | 3%nat => be_store e'
                  | _ => snd (SaveABCIResponses (h_Height (b_Header b)) r (be_store e))
                  end /\
    be_proxyApp ek = if (k <? 2)%nat then a1 else be_proxyApp e'
}.

Lemma Fail_pass k i (e : BlockExecutor) : k <> i -> fail_Fail (Some k) i e = (Ok tt, e).
Proof. intros Hk. unfold fail_Fail. by rewrite bool_decide_eq_false_2 by congruence. Qed.

Lemma Fail_stop {B} k (f : unit -> GoM BlockExecutor exec_error B) e : (fail_Fail (Some k) k ≫= f) e = (Panic, e).
Proof. unfold mbind, gom_bind, fail_Fail. by rewrite bool_decide_eq_true_2. Qed.

Lemma commit_Ok s b txs e hash retain e' :
  BlockExecutor_Commit s b txs e = (Ok (hash, retain), e') ->
  exists a m, CommitSync (be_proxyApp e) = Ok (hash, retain, a) /\ e' = mkBlockExecutor (be_store e) (be_blockStore e) (be_evpool e) a m.
Proof.
  unfold BlockExecutor_Commit. intros (e0 & e1 & [= <- <-] & Hr)%gbind_Ok. destruct (negb _); [done|].
  apply gbind_Ok in Hr as ([hash' retain'] & e2 & (a & Ha & ->)%on_app_Ok & Hr). apply gbind_Ok in Hr as (e3 & e4 & [= <- <-] & Hr).
  destruct (Mempool_Update _ _ _ _) as [m|]; [|done]. apply gbind_Ok in Hr as ([] & e5 & [= <-] & [= <- <- <-]). exists a, m. split; [exact Ha|done].
Qed.

Lemma ApplyBlock_stages s id b e s' retain e' commit :
  b_LastCommit b = Some commit ->
  getBeginBlockValidatorInfo (E:=exec_error) b (be_store e) (st_InitialHeight s) (st_VoterParams s) = Ok (commit_info s commit) ->
  ApplyBlock s id b e = (Ok (s', retain), e') -> exists r a1, stages s id b e s' e' r a1.
Proof.
  intros Hc Hi Hr. unfold ApplyBlock, ApplyBlock_with in Hr.
  apply gbind_Ok in Hr as ([] & e1 & Hv & Hr). pose proof Hv as Hv'.
  unfold ValidateBlock in Hv'. apply gbind_Ok in Hv' as ([] & e1' & [Hvalid ->]%glift_Ok & Hck). apply lift_err_Ok in Hvalid.
  cbn [pool_evidence ep_CheckEvidence] in Hck. apply gbind_Ok in Hck as (e0 & e0' & [= <- <-] & (p & _ & ->)%on_evpool_Ok).
  apply gbind_Ok in Hr as (r & e2 & Hx & Hr). pose proof Hx as Hx'. apply (exec_info s b _ commit r e2 Hc) in Hx' as (byz & hash & a1 & Hbyz & Hhash & Happ & ->); [|exact Hi].
  cbn [be_proxyApp] in Happ. pose proof (app_block_full _ _ _ _ _ Happ) as Hfull.
  apply gbind_Ok in Hr as ([] & e3 & [= <-] & Hr). apply gbind_Ok in Hr as (r' & e4 & Hsr & Hr). pose proof Hsr as Hsr'.
  apply on_store_Ok in Hsr' as (db & [= <- <-] & ->). apply gbind_Ok in Hr as ([] & e5 & [= <-] & Hr). cbv zeta in Hr.
  apply gbind_Ok in Hr as ([] & e6 & Hvu & Hr). pose proof Hvu as Hvu'. apply glift_Ok in Hvu' as [Hvu' ->].
  apply gbind_Ok in Hr as (updates & e7 & Hup & Hr). pose proof Hup as Hup'. apply glift_Ok in Hup' as [Hup' ->].
  apply gbind_Ok in Hr as (s1 & e8 & Hus & Hr). pose proof Hus as Hus'. apply glift_Ok in Hus' as [Hus' ->].
  apply gbind_Ok in Hr as ([appHash ret] & e9 & Hcom & Hr). pose proof Hcom as Hcom'. apply commit_Ok in Hcom' as (a' & m & Hcs & ->).
  apply gbind_Ok in Hr as ([] & e10 & Hev & Hr). pose proof Hev as Hev'. cbn [pool_evidence ep_Update] in Hev'.
  apply gbind_Ok in Hev' as (e11 & e11' & [= <- <-] & (p' & _ & ->)%on_evpool_Ok).
  apply gbind_Ok in Hr as ([] & e12 & [= <-] & Hr). cbv zeta in Hr. apply gbind_Ok in Hr as ([] & e13 & Hsv & Hr). pose proof Hsv as Hsv'.
  apply on_store_Ok in Hsv' as (db' & Hsave & ->). apply gbind_Ok in Hr as ([] & e14 & [= <-] & [= <- <- <-]).
  cbn [with_app be_store be_blockStore be_evpool be_proxyApp be_mempool] in *. rewrite Hfull in Hvu', Hup', Hus'.
  exists r, a1. split.
  - split; [exact Hvalid|exists commit, byz, hash; done|exists ret; exact Hcs|exists updates, s1; done].
  - exact Hsave.
  - intros k Hk. unfold ApplyBlock_with. rewrite (gbind_step _ _ _ _ _ Hv), (gbind_step _ _ _ _ _ Hx).
    destruct k as [|k]; [eexists; split; [apply Fail_stop|done]|]. rewrite (gbind_step _ _ _ _ _ (Fail_pass (S k) 0 _ ltac:(lia))), (gbind_step _ _ _ _ _ Hsr).
    destruct k as [|k]; [eexists; split; [apply Fail_stop|done]|]. rewrite (gbind_step _ _ _ _ _ (Fail_pass (S (S k)) 1 _ ltac:(lia))). cbv zeta.
    rewrite (gbind_step _ _ _ _ _ Hvu), (gbind_step _ _ _ _ _ Hup), (gbind_step _ _ _ _ _ Hus), (gbind_step _ _ _ _ _ Hcom). cbv beta iota. rewrite (gbind_step _ _ _ _ _ Hev).
    destruct k as [|k]; [eexists; split; [apply Fail_stop|done]|]. rewrite (gbind_step _ _ _ _ _ (Fail_pass (S (S (S k))) 2 _ ltac:(lia))). cbv zeta.
    rewrite (gbind_step _ _ _ _ _ Hsv). assert (k = 0%nat) as -> by lia. eexists. split; [apply Fail_stop|done].
Qed.

End application.

(** ** Replaying a block *)

Section replaying.
  Context {crypto : CryptoLib} {codec : TimeCodec} {wrappers : WrapperLib} {vrf : VrfLib} {decoder : EvidenceCodec}.

  #[local] Existing Instance emptyMempool.

(** Executing a block again does the same. *)
Lemma replay_run `{app : Application} s id b r a1 s' a' commit (e : BlockExecutor) db' :
  block_run s (be_proxyApp e) id b r a1 s' a' -> b_LastCommit b = Some commit ->
  getBeginBlockValidatorInfo (E:=exec_error) b (be_store e) (st_InitialHeight s) (st_VoterParams s) = Ok (commit_info s commit) ->
  save s' (snd (SaveABCIResponses (h_Height (b_Header b)) r (be_store e))) = (Ok tt, db') ->
  exists retain, ApplyBlock_with EmptyEvidencePool None s id b e =
    (Ok (s', retain), mkBlockExecutor db' (be_blockStore e) (be_evpool e) a' (be_mempool e)).
Proof.
  intros [Hv (commit' & byz & hash & Hc' & Hbyz & Hhash & Happ) (retain & Hcs) (updates & s1 & Hvu & Hup & Hus & Hs')] Hc Hi Hsave.
  assert (commit' = commit) as -> by congruence. pose proof (app_block_full _ _ _ _ _ Happ) as Hfull.
  exists retain. unfold ApplyBlock_with, ValidateBlock. cbn [EmptyEvidencePool ep_CheckEvidence ep_Update].
  rewrite (gbind_step (_ ≫= _) _ e tt e) by (by rewrite (gbind_step (glift _) _ e tt e) by (unfold glift; by rewrite Hv)).
  rewrite (gbind_step _ _ e r (with_app e a1)) by (apply exec_Ok; exists (commit_info s commit), byz, hash, a1; done).
  rewrite (gbind_step (fail_Fail None 0) _ _ _ _ eq_refl).
  rewrite (gbind_step (on_store (SaveABCIResponses (h_Height (b_Header b)) r)) _ (with_app e a1) (strip_responses r)
    (mkBlockExecutor (snd (SaveABCIResponses (h_Height (b_Header b)) r (be_store e))) (be_blockStore e) (be_evpool e) a1 (be_mempool e)) eq_refl).
  rewrite (gbind_step (fail_Fail None 1) _ _ _ _ eq_refl). cbv zeta. rewrite Hfull.
  rewrite (glift_step _ _ _ _ Hvu), (glift_step _ _ _ _ Hup), (glift_step _ _ _ _ Hus).
  rewrite (gbind_step (BlockExecutor_Commit _ _ _) _ _ (st_AppHash s', retain)
    (mkBlockExecutor (snd (SaveABCIResponses (h_Height (b_Header b)) r (be_store e))) (be_blockStore e) (be_evpool e) a' (be_mempool e))).
  - cbv beta iota. rewrite (gbind_step (mret tt) _ _ _ _ eq_refl), (gbind_step (fail_Fail None 2) _ _ _ _ eq_refl). cbv zeta. rewrite <- Hs'.
    rewrite (gbind_step (on_store _) _ _ tt (mkBlockExecutor db' (be_blockStore e) (be_evpool e) a' (be_mempool e))); [done|].
    unfold on_store. cbn [be_store]. by rewrite Hsave.
  - unfold BlockExecutor_Commit. rewrite (gbind_step gget _ _ _ _ eq_refl). cbn [emptyMempool FlushAppConn negb].
    rewrite (gbind_step (on_app _ _) _ _ (st_AppHash s', retain)
      (mkBlockExecutor (snd (SaveABCIResponses (h_Height (b_Header b)) r (be_store e))) (be_blockStore e) (be_evpool e) a' (be_mempool e))); [done|].
    apply on_app_Ok. by exists a'.
Qed.

(** The mock answers as the application did. *)
Lemma mock_delivers hash r txs : forall pre rs,
  ar_DeliverTxs r = Some <$> (pre ++ rs) -> length rs = length txs ->
  @deliver_all mock_app txs (mkMockProxyApp hash (lenZ pre) r) = Ok (rs, mkMockProxyApp hash (lenZ (pre ++ rs)) r).
Proof.
  induction txs as [|tx txs IH]; intros pre rs Hr Hl; [apply nil_length_inv in Hl as ->; by rewrite app_nil_r|].
  destruct rs as [|x rs]; [done|]. cbn [deliver_all]. cbn [DeliverTxAsync mock_app]. unfold mock_DeliverTx. cbn [mp_abciResponses mp_txCount mp_appHash].
  rewrite Hr. unfold lenZ. rewrite idx_nat, list_lookup_fmap, list_lookup_middle by done. cbn [fmap option_fmap option_map mbind outcome_bind].
  replace (Z.of_nat (length pre) + 1) with (lenZ (pre ++ [x])) by (unfold lenZ; rewrite length_app; cbn; lia).
  cbn in Hl. rewrite IH with (rs := rs); [|by rewrite Hr, <- app_assoc|lia]. cbn [mbind outcome_bind]. unfold lenZ. by rewrite <- app_assoc.
Qed.

Lemma deliver_length `{app : Application} txs : forall a rs a', deliver_all txs a = Ok (rs, a') -> length rs = length txs.
Proof.
  induction txs as [|tx txs IH]; intros a rs a'; cbn [deliver_all]; [by intros [= <- _]|].
  intros ([x a1] & _ & H)%obind_Ok. apply obind_Ok in H as ([rest a2] & Hd & [= <- _]). cbn. f_equal. by eapply IH.
Qed.

Lemma mock_run `{app : Application} s a id b r a1 s' a' :
  block_run s a id b r a1 s' a' ->
  exists m m', @block_run crypto codec wrappers vrf mock_app s (newMockProxyApp (st_AppHash s') r) id b r m s' m'.
Proof.
  intros [Hv (commit & byz & hash & Hc & Hbyz & Hhash & Happ) (retain & Hcs) Hst].
  unfold app_block in Happ. apply obind_Ok in Happ as (a0 & _ & Happ). apply obind_Ok in Happ as ([rs a2] & Hd & Happ).
  apply obind_Ok in Happ as ([en a3] & _ & [= <- <-]). apply deliver_length in Hd. set (r := mkABCIResponses (Some <$> rs) en) in *.
  exists (newMockProxyApp (st_AppHash s') r), (newMockProxyApp (st_AppHash s') r). split; [done| |by exists 0|exact Hst].
  exists commit, byz, hash. split_and!; try done. unfold app_block. cbn [BeginBlockSync mock_app mbind outcome_bind].
  unfold newMockProxyApp. change 0 with (lenZ (@nil ResponseDeliverTx)). rewrite (mock_delivers _ r _ [] rs) by done. done.
Qed.

End replaying.

(** ** Writes that are not finished *)

(** Writes for heights the states so far say nothing about. *)
Definition above (n : Z) (op : db_op) : Prop :=
  match op with
  | SetValidators h _ => n + 1 < h
  | SetConsensusParams h _ | SetProofHash h _ => n < h
  | SetVoterParams _ _ | SetResponses _ _ => True
  | _ => False
  end.

Lemma linked_same lo top changed interval f g :
  lo <= top -> (forall h, lo <= h <= top -> g h = f h) -> linked_infos lo top changed interval f -> linked_infos lo top changed interval g.
Proof.
  intros Hle Hg [H1 H2 (b & Hb)]. constructor.
  - intros h Hh. rewrite Hg by done. by apply H1.
  - intros x y bx cx bY cy Hx Hxy Hy. rewrite !Hg by lia. by apply H2.
  - exists b. by rewrite Hg by lia.
Qed.

Lemma full_insert m sets h x g : g <> h -> full m sets g -> full (<[h := x]> m) sets g.
Proof. intros Hne (pb & c & v & Hm & H). exists pb, c, v. by rewrite lookup_insert_ne. Qed.

Lemma vals_above lo top changed m sets h x :
  top < h -> vals_stored lo top changed m sets -> vals_stored lo top changed (<[h := x]> m) sets.
Proof.
  intros Hlt [H1 H2 (H3 & H4 & H5) H6]. constructor.
  - intros g Hg. destruct (H1 g Hg) as [Hf|(c & Hm & Hc & Hl & Hd & Hf & Hs)]; [left; apply full_insert; [lia|done]|].
    right. exists c. cbn zeta in *. rewrite lookup_insert_ne by lia. split_and!; try done; try lia. apply full_insert; [lia|done].
  - intros g Hg Hr. apply full_insert; [lia|]. by apply H2.
  - split; [done|]. split; [|done]. apply full_insert; [lia|done].
  - eapply linked_same; [lia| |exact H6]. intros g Hg. by rewrite lookup_insert_ne by lia.
Qed.

Lemma params_above lo top changed m ps h x :
  top < h -> params_stored lo top changed m ps -> params_stored lo top changed (<[h := x]> m) ps.
Proof.
  assert (Hp : forall g, g <> h -> pfull m ps g -> pfull (<[h := x]> m) ps g).
  { intros g Hne [Hn (c & Hm)]. split; [done|]. exists c. by rewrite lookup_insert_ne. }
  intros Hlt [H1 (H2 & H3 & H4) H5]. constructor.
  - intros g Hg. destruct (H1 g Hg) as [Hf|(c & Hm & Hc & Hf & Hs)]; [left; apply Hp; [lia|done]|].
    right. exists c. rewrite lookup_insert_ne by lia. split_and!; try done. apply Hp; [lia|done].
  - split; [done|]. split; [|done]. apply Hp; [lia|done].
  - eapply linked_same; [lia| |exact H5]. intros g Hg. by rewrite lookup_insert_ne by lia.
Qed.

Section torn.
  Context {crypto : CryptoLib}.

Lemma remembered_op lo l s db op : remembered lo l s db -> above (next_height s) op -> remembered lo l s (db_apply op db).
Proof.
  intros [H1 H2 H3 H4 (sets & H5 & H5') (ps & H6 & H6') H7 H8] Ho. destruct db as [m vp pr cp rs st], op; cbn [above] in Ho; try done;
    constructor; try done; cbn [db_apply db_validators db_consensusParams db_proofHash] in *.
  - exists sets. split; [by apply vals_above|done].
  - by exists ps.
  - by exists sets.
  - by exists ps.
  - by exists sets.
  - by exists ps.
  - intros i si Hi. pose proof (snoc_bound _ _ _ _ Hi). rewrite lookup_insert_ne; [by apply H7|]. unfold lenZ in *. lia.
  - by exists sets.
  - exists ps. split; [by apply params_above|done].
  - by exists sets.
  - by exists ps.
Qed.

Lemma remembered_write lo l s ops : forall db, remembered lo l s db -> Forall (above (next_height s)) ops -> remembered lo l s (db_write ops db).
Proof.
  induction ops as [|op ops IH]; intros db Hr Ho; [done|]. apply Forall_cons in Ho as [Ho Hos]. cbn. apply IH; [by apply remembered_op|done].
Qed.

(** The writes of [save] after a block. *)
Definition save_writes (s : ChainState) (ops : list db_op) : Prop :=
  let n := st_LastBlockHeight s +i64 1 in
  exists info pb, State_ToProto s = Ok pb /\
    ops = [SetValidators (n +i64 1) info;
           SetConsensusParams n (mkConsensusParamsInfo
             (if st_LastHeightConsensusParamsChanged s =? n then st_ConsensusParams s else empty_params) (st_LastHeightConsensusParamsChanged s));
           SetVoterParams n (st_VoterParams s); SetProofHash n (st_LastProofHash s); SetState pb] /\
    forall db, saveValidatorsInfo (n +i64 1) (st_LastHeightValidatorsChanged s) (st_NextValidators s) db =
      (Ok tt, db_apply (SetValidators (n +i64 1) info) db).

Lemma saveInfo_any h changed V db db' :
  saveValidatorsInfo h changed V db = (Ok tt, db') ->
  exists info, forall d, saveValidatorsInfo h changed V d = (Ok tt, db_apply (SetValidators h info) d).
Proof.
  unfold saveValidatorsInfo. destruct (h <? changed); [done|]. intros (set & db1 & Hset & _)%gbind_Ok.
  exists (mkValidatorsInfo set changed). intros d.
  refine (eq_trans (gbind_step _ _ d set d _) eq_refl). destruct (_ || _).
  - apply gbind_Ok in Hset as (pb & db2 & Hpb & [= <- <-]). unfold glift in Hpb. injection Hpb as Hpb <-.
    refine (eq_trans (gbind_step _ _ d pb d _) eq_refl). unfold glift. by rewrite Hpb.
  - by injection Hset as <- <-.
Qed.

Lemma save_writes_Ok s db db' :
  save s db = (Ok tt, db') -> st_LastBlockHeight s +i64 1 <> 1 ->
  exists ops, save_writes s ops /\ forall d, save s d = (Ok tt, db_write ops d).
Proof.
  intros Hs Hn. destruct (save_Ok _ _ _ Hs Hn) as (db1 & H1 & Hr). cbn zeta in *. destruct (sr_state _ _ _ _ Hr) as (pb & Hpb & _).
  destruct (saveInfo_any _ _ _ _ _ H1) as [info Hinfo]. eexists. split; [exists info, pb; split; [done|]; split; [reflexivity|exact Hinfo]|].
  intros d. unfold save. rewrite (proj2 (Z.eqb_neq _ _) Hn).
  refine (eq_trans (gbind_step _ _ d tt _ (Hinfo d)) _). unfold save_rest, State_Bytes. by rewrite Hpb.
Qed.

End torn.
