(* ===== verification/Recovery.v ===== *)
(** * A node that crashes and starts again

    The life of a node: the handshake with a new application, blocks that are
    executed, crashes at any point of an execution, each followed by a handshake.
    The handshake ends, and the states, the store and the application are the ones
    of a node that never crashed. *)

From Stdlib Require Import ZArith Lia.
From stdpp Require Import prelude list gmap.
From S2P Require Import Prelude SafeMath Crypto Validator ValidatorSet ValidatorLists ValidatorSetPriority Proto Block VoterSet VerifyCommit.
From S2P Require Import Election Merkle MerkleProps PartSet PartSetProps Header Light BlockProto Evidence EvidenceProps ChainState ChainProps StateStore BlockStore BlockStoreProps StateProps StoreHistory EvidencePool.
From S2P Require Import EvidencePoolProps BlockExec BlockExecProps Handshake HandshakeProps.

Local Open Scope Z_scope.
Local Open Scope go_scope.

(** ** The application *)

(** What an application promises: [restart] is what is left of it when its
    process ends.  Only [Commit] makes changes last, and [Info] tells the last
    block that was committed. *)
Class AppLaws (app : Application) (conns : AppConns app) (restart : AppState -> AppState) : Prop := {
  al_begin req a a' : BeginBlockSync req a = Ok a' -> restart a' = restart a;
  al_deliver tx a r a' : DeliverTxAsync tx a = Ok (r, a') -> restart a' = restart a;
  al_end h a r a' : EndBlockSync h a = Ok (r, a') -> restart a' = restart a;
  al_init req a res a' : InitChainSync req a = Ok (res, a') -> restart a' = restart a;
  al_commit a hash retain a' : CommitSync a = Ok (hash, retain, a') -> restart a' = a';
  al_info h a r a1 hash retain a2 : EndBlockSync h a = Ok (r, a1) -> CommitSync a1 = Ok (hash, retain, a2) ->
    exists v, InfoSync a2 = Ok (mkResponseInfo v h hash)
}.

Section laws.
  Context `{laws : AppLaws}.

Lemma restart_block req b a r a1 : app_block req b a = Ok (r, a1) -> restart a1 = restart a.
Proof.
  assert (Hd : forall txs a rs a', deliver_all txs a = Ok (rs, a') -> restart a' = restart a).
  { induction txs as [|tx txs IH]; intros x rs x'; cbn [deliver_all]; [by intros [= _ <-]|].
    intros ([y a2] & H1%al_deliver & H2)%obind_Ok. apply obind_Ok in H2 as ([rest a3] & H2%IH & [= _ <-]). congruence. }
  unfold app_block. intros (a2 & H1%al_begin & H)%obind_Ok. apply obind_Ok in H as ([rs a3] & H2%Hd & H).
  apply obind_Ok in H as ([en a4] & H3%al_end & [= _ <-]). congruence.
Qed.

(** A committed block. *)
Lemma run_committed `{CryptoLib} `{TimeCodec} `{WrapperLib} `{VrfLib} s a id b r a1 s' a' :
  block_run s a id b r a1 s' a' -> restart a1 = restart a /\ restart a' = a' /\
  exists v, InfoSync a' = Ok (mkResponseInfo v (h_Height (b_Header b)) (st_AppHash s')).
Proof.
  intros [_ (commit & byz & hash & _ & _ & _ & Happ) (retain & Hc) _]. split; [by eapply restart_block|]. split; [by eapply al_commit|].
  unfold app_block in Happ. apply obind_Ok in Happ as (a2 & _ & Happ). apply obind_Ok in Happ as ([rs a3] & _ & Happ).
  apply obind_Ok in Happ as ([en a4] & He & [= _ <-]). by eapply al_info.
Qed.

End laws.

(** The version of the application in a state is the one of its parameters. *)
Definition aligned (s : ChainState) : Prop := ver_App (st_Version s) = cp_AppVersion (st_ConsensusParams s).

Lemma with_Params_same s : aligned s -> with_Params s (st_ConsensusParams s) = s.
Proof. destruct s as [[vb va] ????????????????]. unfold aligned, with_Params. cbn. by intros <-. Qed.

Lemma with_Params_twice s p q : with_Params (with_Params s p) q = with_Params s q.
Proof. done. Qed.

(** ** Initializing the chain again changes nothing *)

Section init.
  Context {crypto : CryptoLib} (GenesisDoc_Hash : GenesisDoc -> bytes).

Lemma init_aligned gd res s p s0 : init_state GenesisDoc_Hash gd res (with_Params s p) = Ok s0 -> aligned s0.
Proof.
  unfold init_state. intros (s1 & H1 & [= <-])%obind_Ok.
  assert (Ha : aligned s1).
  { destruct (bool_decide (ic_AppHash res <> [])), (bool_decide (ic_Validators res <> [])).
    all: repeat match goal with H : (_ ≫= _) = Ok _ |- _ => apply obind_Ok in H as (? & _ & ?) end.
    all: try (destruct (bool_decide (default [] _ = []))); simplify_eq; done. }
  by destruct (ic_ConsensusParams res).
Qed.

Lemma update_params_again v u p :
  UpdateConsensusParams (with_version (UpdateConsensusParams (with_version p v) (Some u)) v) (Some u) = UpdateConsensusParams (with_version p v) (Some u).
Proof. destruct u as [[[]|] [[[]]|] [|] [|]], p; done. Qed.

Lemma init_again gd res sg v s0 :
  init_state GenesisDoc_Hash gd res (with_Params sg (with_version (st_ConsensusParams sg) v)) = Ok s0 ->
  init_state GenesisDoc_Hash gd res (with_Params s0 (with_version (st_ConsensusParams s0) v)) = Ok s0.
Proof.
  destruct sg as [ver cid ih vp lh lid lt ph nv va vo lv hv cp hp rh ah]. unfold init_state. intros (s1 & H1 & [= <-])%obind_Ok.
  destruct (bool_decide (ic_AppHash res <> [])), (bool_decide (ic_Validators res <> [])).
  all: repeat match goal with H : (_ ≫= _) = Ok _ |- _ => let E := fresh "E" in apply obind_Ok in H as (? & E & H) end.
  all: try (destruct (bool_decide (default [] _ = [])); [done|]).
  all: try match goal with E : ?a = Ok ?x, F : ?a = Ok ?y |- _ => assert (y = x) as -> by congruence; clear F end.
  all: injection H1 as <-; destruct (ic_ConsensusParams res) as [u|].
  all: cbv [with_Params with_AppHash with_Validators with_ResultsHash st_Version st_ChainID st_InitialHeight st_VoterParams st_LastBlockHeight st_LastBlockID
    st_LastBlockTime st_LastProofHash st_NextValidators st_Validators st_Voters st_LastVoters st_LastHeightValidatorsChanged st_ConsensusParams
    st_LastHeightConsensusParamsChanged st_LastResultsHash st_AppHash] in *.
  all: repeat match goal with E : _ = Ok _ |- _ => rewrite E; clear E; cbn [mbind outcome_bind] end; cbn [mbind outcome_bind ver_Block].
  all: by rewrite ?update_params_again.
Qed.

End init.

(** ** The past of a node *)

Section life.
  Context {crypto : CryptoLib} {codec : TimeCodec} {wrappers : WrapperLib} {vrf : VrfLib} {decoder : EvidenceCodec} {vlaws : VrfLaws}.
  Context {app : Application}.

(** A state and the application with it, before and after a block. *)
Record stepped (x : ChainState * AppState) (blk : Block * BlockID) (y : ChainState * AppState) : Prop := {
  sp_run : exists r a1, block_run x.1 x.2 blk.2 blk.1 r a1 y.1 y.2;
  sp_follows : follows x.1 y.1;
  sp_height : h_Height (b_Header blk.1) = next_height x.1
}.

(** The states and applications so far, from the first to the present one. *)
Record life (s0 : ChainState) (a0 : AppState) (bs : list (Block * BlockID)) (hist : list (ChainState * AppState)) (now : ChainState * AppState) : Prop := {
  lf_steps : forall i x y blk, (hist ++ [now]) !! i = Some x -> (hist ++ [now]) !! S i = Some y -> bs !! i = Some blk -> stepped x blk y;
  lf_length : length bs = length hist;
  lf_first : (hist ++ [now]) !! 0%nat = Some (s0, a0);
  lf_start : st_LastBlockHeight s0 = 0;
  lf_states : Forall (fun x => chain_ok x.1 /\ state_storable x.1 /\ aligned x.1 /\ st_InitialHeight x.1 = st_InitialHeight s0 /\
    st_VoterParams x.1 = st_VoterParams s0) (hist ++ [now])
}.

(** The store of that life. *)
Definition keeps_life (s0 : ChainState) (hist : list (ChainState * AppState)) (now : ChainState * AppState) (db : dbStore) : Prop :=
  remembered (st_InitialHeight s0) (fst <$> hist) now.1 db.

Lemma life_states s0 a0 bs hist now x : life s0 a0 bs hist now -> x ∈ hist ++ [now] ->
  chain_ok x.1 /\ state_storable x.1 /\ aligned x.1 /\ st_InitialHeight x.1 = st_InitialHeight s0 /\ st_VoterParams x.1 = st_VoterParams s0.
Proof. intros [_ _ _ _ Hs] Hx. by apply (proj1 (Forall_forall _ _) Hs). Qed.

Lemma keeps_heights s0 hist now db (i : nat) x :
  keeps_life s0 hist now db -> (hist ++ [now]) !! i = Some x -> next_height x.1 = st_InitialHeight s0 + Z.of_nat i /\ answered db x.1.
Proof.
  intros Hr Hi. assert (Hi' : ((fst <$> hist) ++ [now.1]) !! i = Some x.1).
  { replace ((fst <$> hist) ++ [now.1]) with (fst <$> (hist ++ [now])) by (by rewrite fmap_app). by rewrite list_lookup_fmap, Hi. }
  split; [by apply (rm_hashes _ _ _ _ Hr i)|]. eapply remembered_answers; [exact Hr|]. by eapply list_elem_of_lookup_2.
Qed.

(** The application is told the same of the last commit, whenever a block is
    executed. *)
Lemma life_info s0 a0 bs hist now db (i : nat) x round b :
  life s0 a0 bs hist now -> keeps_life s0 hist now db -> (hist ++ [now]) !! i = Some x -> validateBlock x.1 round b = Ok tt ->
  exists commit, b_LastCommit b = Some commit /\
    getBeginBlockValidatorInfo (E:=exec_error) b db (st_InitialHeight s0) (st_VoterParams s0) = Ok (commit_info x.1 commit).
Proof.
  intros Hl Hk Hi Hv. destruct (life_states _ _ _ _ _ x Hl) as (Hok & Hst & _ & Hih & Hvp); [by eapply list_elem_of_lookup_2|].
  destruct (commit_info_at (E:=exec_error) x.1 round b db (match i with O => None | S j => fst <$> (hist ++ [now]) !! j end) Hok Hst Hv)
    as (commit & Hc & _ & Hinfo); [|exists commit; rewrite <- Hih, <- Hvp; done].
  destruct i as [|j]; [|destruct ((hist ++ [now]) !! j) as [y|] eqn:Ej].
  - rewrite (lf_first _ _ _ _ _ Hl) in Hi. injection Hi as <-. apply Hl.
  - cbn. destruct (lookup_lt_is_Some_2 bs j) as [blk Hblk].
    { rewrite (lf_length _ _ _ _ _ Hl). apply lookup_lt_Some in Hi. rewrite length_app in Hi. cbn in Hi. lia. }
    split; [eapply sp_follows, (lf_steps _ _ _ _ _ Hl j y x blk); done|]. by eapply keeps_heights.
  - exfalso. apply lookup_ge_None in Ej. apply lookup_lt_Some in Hi. lia.
Qed.

Lemma life_height s0 a0 bs hist now db (i : nat) x :
  life s0 a0 bs hist now -> keeps_life s0 hist now db -> (hist ++ [now]) !! i = Some x ->
  st_LastBlockHeight x.1 = match i with O => 0 | S j => st_InitialHeight s0 + Z.of_nat j end.
Proof.
  intros Hl Hk Hi. destruct i as [|j]; [rewrite (lf_first _ _ _ _ _ Hl) in Hi; injection Hi as <-; apply Hl|].
  destruct (lookup_lt_is_Some_2 (hist ++ [now]) j) as [y Hy]; [apply lookup_lt_Some in Hi; lia|].
  destruct (lookup_lt_is_Some_2 bs j) as [blk Hblk]; [rewrite (lf_length _ _ _ _ _ Hl); apply snoc_bound in Hi; lia|].
  destruct (lf_steps _ _ _ _ _ Hl j y x blk Hy Hi Hblk) as [_ [<- _ _] _]. by eapply keeps_heights.
Qed.

Lemma aligned_next s id h txs params updates s' hash : aligned s -> updateState s id h txs params updates = Ok s' -> aligned (with_AppHash s' hash).
Proof.
  unfold updateState, next_params. intros Ha ([nv c] & _ & Hr)%obind_Ok. apply obind_Ok in Hr as ([[np v] c'] & Hp & Hr).
  destruct (ProofToHash _); [|done]. apply obind_Ok in Hr as (voters & _ & [= <-]). unfold aligned. cbn.
  destruct params; [apply obind_Ok in Hp as (? & _ & [= <- <- _])|injection Hp as <- <- _]; done.
Qed.

Lemma life_step s0 a0 bs hist s a db b id r a1 s' a' db' :
  life s0 a0 bs hist (s, a) -> keeps_life s0 hist (s, a) db -> within_limits s b -> BlockIDFromProto id = Ok id ->
  block_run s a id b r a1 s' a' -> save s' db = (Ok tt, db') ->
  life s0 a0 (bs ++ [(b, id)]) (hist ++ [(s, a)]) (s', a') /\ keeps_life s0 (hist ++ [(s, a)]) (s', a') db'.
Proof.
  intros Hl Hk [Hmax Hlim] Hid Hrun Hsave. pose proof Hrun as [Hv (commit & byz & hash & _ & _ & _ & Happ) _ (updates & s1 & _ & Hup & Hus & Hs')].
  destruct (life_states _ _ _ _ _ (s, a) Hl) as (Hok & Hst & Hal & Hih & Hvp); [apply elem_of_app; right; left|]. cbn [fst] in *.
  assert (Hh : h_Height (b_Header b) = next_height s) by (by eapply accepted_next).
  assert (exists x x', EndBlockSync (h_Height (b_Header b)) x = Ok (ar_EndBlock r, x')) as (x & x' & Hend).
  { unfold app_block in Happ. apply obind_Ok in Happ as (a2 & _ & Happ). apply obind_Ok in Happ as ([rs a3] & _ & Happ).
    apply obind_Ok in Happ as ([en a4] & He & [= <- _]). eauto. }
  destruct (Hlim _ _ _ _ Hend Hup) as [Hfit Hsto]. rewrite Hs' in Hsave.
  assert (Hk' : keeps_life s0 (hist ++ [(s, a)]) (s', a') db').
  { unfold keeps_life. rewrite fmap_app. cbn [fst fmap list_fmap]. rewrite Hs'.
    eapply block_remembered; [exact Hk|done|lia|exact Hfit|done|done|exact Hus|by eapply updateState_proof|exact Hsave]. }
  split; [|exact Hk']. assert (Hf : follows s s') by (rewrite Hs'; by eapply updateState_follows).
  destruct Hl as [H1 H2 H3 H4 H5]. split.
  - intros i y z blk Hy Hz Hb. rewrite <- app_assoc in Hy, Hz. cbn [Datatypes.app] in Hy, Hz. destruct (lookup_snoc_two _ _ _ _ _ Hz) as [Hz'|[Hi ->]].
    + assert (Hlt : (i < length hist)%nat) by (apply snoc_bound in Hz'; lia).
      apply (H1 i); [|done|rewrite lookup_app_l in Hb by lia; done]. rewrite lookup_app_l in Hy by done. by rewrite lookup_app_l.
    + injection Hi as ->. rewrite list_lookup_middle in Hy by done. injection Hy as <-. rewrite <- H2, list_lookup_middle in Hb by done. injection Hb as <-.
      split; [by exists r, a1|exact Hf|exact Hh].
  - rewrite !length_app, H2. done.
  - rewrite <- app_assoc. cbn [Datatypes.app]. change [(s, a); (s', a')] with ([(s, a)] ++ [(s', a')]). rewrite app_assoc. by apply lookup_app_l_Some.
  - done.
  - apply Forall_app. split; [done|]. apply Forall_singleton. cbn [fst]. split; [apply Hk'|]. split; [apply Hk'|].
    split; [rewrite Hs'; by eapply aligned_next|]. split; [by apply (rm_lo _ _ _ _ Hk')|]. rewrite (fo_params _ _ Hf). done.
Qed.

Lemma life_last s0 a0 bs blk hist x now : life s0 a0 (bs ++ [blk]) (hist ++ [x]) now -> stepped x blk now.
Proof.
  intros [H1 H2 _ _ _]. rewrite !length_app in H2. cbn in H2. apply (H1 (length hist)).
  - rewrite <- app_assoc. by apply list_lookup_middle.
  - apply list_lookup_middle. rewrite length_app. cbn. lia.
  - apply list_lookup_middle. lia.
Qed.

End life.

(** ** Replaying from the block store *)

Section replaying.
  Context {crypto : CryptoLib} {codec : TimeCodec} {wrappers : WrapperLib} {vrf : VrfLib} {decoder : EvidenceCodec} {vlaws : VrfLaws} {sha : Sha256Length}.
  Context (decode : bytes -> option Block).

  #[local] Existing Instance emptyMempool.

(** The store has the blocks from [lo] on, and they decode. *)
Definition blocks_stored (blocks : BlockStore) (lo : Z) (bs : list (Block * BlockID)) : Prop :=
  exists entries, holds blocks lo entries /\
    Forall2 (fun en blk => en_block en = blk.1 /\ bm_BlockID (en_meta en) = blk.2 /\ Block_Marshal blk.1 ≫= decode = Some blk.1) entries bs.

(** Of the blocks [bs] from [lo] on the first [k] were pruned, but not all. *)
Definition blocks_kept (blocks : BlockStore) (lo : Z) (k : nat) (bs : list (Block * BlockID)) : Prop :=
  (k = 0 \/ k < length bs)%nat /\ blocks_stored blocks (lo + Z.of_nat k) (drop k bs).

Record has_blocks (blocks : BlockStore) (lo : Z) (k : nat) (bs : list (Block * BlockID)) : Prop := {
  hb_reopen : NewBlockStore (bs_db blocks) = blocks;
  hb_base : bs <> [] -> bs_base blocks = lo + Z.of_nat k /\ (k < length bs)%nat;
  hb_height : bs_height blocks = if bool_decide (bs = []) then 0 else lo + lenZ bs - 1;
  hb_load : forall (i : nat) blk, (k <= i)%nat -> bs !! i = Some blk ->
    LoadBlock (E:=handshake_error) decode blocks (lo + Z.of_nat i) = Ok (Some blk.1) /\
    exists meta, LoadBlockMeta (E:=handshake_error) blocks (lo + Z.of_nat i) = Ok (Some meta) /\ bm_BlockID meta = blk.2
}.

Lemma stored_has blocks lo k bs : blocks_kept blocks lo k bs -> has_blocks blocks lo k bs.
Proof.
  intros (Hk0 & entries & [H1 H2 H3 H4 H5 H6 H7 H8] & Hf). pose proof (Forall2_length _ _ _ Hf) as Hlen. rewrite length_drop in Hlen.
  assert (Hkl : bs <> [] -> (k < length bs)%nat) by (destruct bs; [done|cbn in *; lia]).
  assert (Hnil : bool_decide (entries = []) = bool_decide (bs = [])).
  { apply bool_decide_ext. rewrite <- !length_zero_iff_nil, Hlen. destruct bs; [cbn; lia|]. specialize (Hkl ltac:(done)). cbn in *. lia. }
  split.
  - unfold NewBlockStore. rewrite H1. by destruct blocks.
  - intros Hne. split; [done|auto].
  - rewrite H3, Hnil. repeat case_bool_decide; try done. specialize (Hkl ltac:(done)). unfold lenZ. lia.
  - intros i blk Hki Hi. replace i with (k + (i - k))%nat in Hi by lia. rewrite <- lookup_drop in Hi.
    destruct (Forall2_lookup_r _ _ _ _ _ Hf Hi) as (en & He & Hb & Hid & Hd). pose proof (H5 _ en He) as Hk.
    replace (lo + Z.of_nat k + Z.of_nat (i - k)) with (lo + Z.of_nat i) in Hk by lia.
    rewrite (load_kept_meta _ _ _ Hk). split; [|by exists (en_meta en)]. unfold LoadBlock. rewrite (load_kept_meta _ _ _ Hk). cbn [mbind outcome_bind].
    destruct (kp_storable _ _ _ Hk) as (bz & c & Hs). cbn [en_meta bm_BlockID bid_PartSetHeader PartSet_Header Total].
    rewrite (load_kept_parts _ _ _ _ _ Hk Hs). cbn [mbind outcome_bind]. pose proof (so_bytes _ _ _ Hs) as Hm. rewrite Hb in Hm.
    rewrite Hm in Hd. cbn in Hd. by rewrite Hd.
Qed.

Lemma stored_kept blocks lo bs : blocks_stored blocks lo bs -> blocks_kept blocks lo 0 bs.
Proof. intros H. split; [by left|]. by rewrite drop_0, Z.add_0_r. Qed.

(** One block, in any application. *)
Lemma replayBlock_run `{app : Application} st s height id b r a1 s' a' commit (e : BlockExecutor) db' meta :
  LoadBlock (E:=handshake_error) decode (be_blockStore e) height = Ok (Some b) ->
  LoadBlockMeta (E:=handshake_error) (be_blockStore e) height = Ok (Some meta) -> bm_BlockID meta = id ->
  LoadConsensusParams (be_store e) height = Ok (st_ConsensusParams s) -> with_Params st (st_ConsensusParams s) = s ->
  block_run s (be_proxyApp e) id b r a1 s' a' -> b_LastCommit b = Some commit ->
  getBeginBlockValidatorInfo (E:=exec_error) b (be_store e) (st_InitialHeight s) (st_VoterParams s) = Ok (commit_info s commit) ->
  save s' (snd (SaveABCIResponses (h_Height (b_Header b)) r (be_store e))) = (Ok tt, db') ->
  replayBlock decode st height e = (Ok s', mkBlockExecutor db' (be_blockStore e) (be_evpool e) a' (be_mempool e)).
Proof.
  intros Hb Hm Hid Hp Hal Hrun Hc Hi Hsave. destruct (replay_run _ _ _ _ _ _ _ _ _ _ Hrun Hc Hi Hsave) as [retain Ha].
  unfold replayBlock. rewrite (gbind_step gget _ _ _ _ eq_refl), (glift_step _ _ _ _ Hb), (glift_step _ _ _ _ Hm).
  rewrite (glift_step _ _ _ (st_ConsensusParams s)) by (by rewrite Hp). cbv zeta. rewrite Hal.
  rewrite (glift_step (deref (Some meta)) _ _ meta eq_refl), (glift_step (deref (Some b)) _ _ b eq_refl), Hid.
  rewrite (gbind_step _ _ e (s', retain) (mkBlockExecutor db' (be_blockStore e) (be_evpool e) a' (be_mempool e))); [done|].
  unfold replaying. by rewrite Ha.
Qed.

Context {app : Application} {conns : AppConns app}.

Lemma replay_loop_run s0 a0 bs hist now db blocks lo vp :
  life s0 a0 bs hist now -> keeps_life s0 hist now db -> has_blocks blocks lo 0 bs -> lo = st_InitialHeight s0 -> vp = st_VoterParams s0 ->
  forall (m j : nat) x y hash (h : @Handshaker app),
  (hist ++ [now]) !! j = Some x -> (hist ++ [now]) !! (j + m)%nat = Some y -> (hash = [] \/ hash = st_AppHash x.1) ->
  be_store (hs_exec h) = db -> be_blockStore (hs_exec h) = blocks -> be_proxyApp (hs_exec h) = x.2 ->
  replay_loop decode m (lo + Z.of_nat j) lo vp hash h =
    (Ok (if (m =? 0)%nat then hash else st_AppHash y.1), mkHandshaker (with_app (hs_exec h) y.2) (hs_nBlocks h + Z.of_nat m)).
Proof.
  intros Hl Hk Hb Hlo Hvp m. induction m as [|m IH]; intros j x y hash h Hx Hy Hh Hdb Hbl Ha.
  { rewrite Nat.add_0_r in Hy. assert (y = x) as -> by congruence. cbn. rewrite Z.add_0_r, <- Ha. by destruct h as [[] ?]. }
  assert (Hlt : (j < length hist)%nat).
  { apply lookup_lt_Some in Hy. rewrite length_app in Hy. cbn in Hy. lia. }
  destruct (lookup_lt_is_Some_2 bs j) as [[b id] Hblk]; [by rewrite (lf_length _ _ _ _ _ Hl)|].
  destruct (lookup_lt_is_Some_2 (hist ++ [now]) (S j)) as [z Hz]; [rewrite length_app; cbn; lia|].
  destruct (lf_steps _ _ _ _ _ Hl j x z (b, id) Hx Hz Hblk) as [(r & a1 & Hrun) _ _]. cbn [fst snd] in Hrun.
  destruct Hrun as [Hv (commit & byz & hh & Hc & Hbyz & Hhash & Happ) (retain & Hcs) _].
  destruct (life_info _ _ _ _ _ _ _ _ _ _ Hl Hk Hx Hv) as (commit' & Hc' & Hinfo). assert (commit' = commit) as -> by congruence.
  destruct (hb_load _ _ _ _ Hb j _ ltac:(lia) Hblk) as [Hload _]. cbn [fst] in Hload.
  cbn [replay_loop]. rewrite (gbind_step gget _ _ _ _ eq_refl), Hbl, (glift_step _ _ _ _ Hload).
  rewrite (glift_step _ _ _ tt).
  2:{ destruct (bool_decide_reflect (hash <> [])) as [Hne|]; [|done]. destruct Hh as [-> | ->]; [done|]. cbn [deref mbind outcome_bind].
      unfold assertAppHashEqualsOneFromBlock. apply validateBlock_iff in Hv as [c Hacc]. rewrite (hm_app _ _ (ac_header _ _ _ _ Hacc)), bytes_eqb_refl. done. }
  rewrite (glift_step (deref (Some b)) _ _ b eq_refl).
  rewrite (gbind_step (on_exec _) _ h (st_AppHash z.1) (mkHandshaker (with_app (hs_exec h) z.2) (hs_nBlocks h))).
  - rewrite (gbind_step count_block _ _ _ _ eq_refl). replace (lo + Z.of_nat j + 1) with (lo + Z.of_nat (S j)) by lia.
    rewrite (IH (S j) z y (st_AppHash z.1)); try done; [|by rewrite <- Hy; f_equal; lia|by right]. cbn [hs_exec hs_nBlocks].
    f_equal; [|f_equal; lia]. destruct m as [|m]; [|done]. replace (j + 1)%nat with (S j) in Hy by lia. by assert (y = z) as -> by congruence.
  - unfold on_exec, replaying, ExecCommitBlock.
    rewrite (gbind_step _ _ (hs_exec h) r (with_app (hs_exec h) a1)).
    2:{ apply exec_Ok. exists (commit_info x.1 commit), byz, hh, a1. rewrite Hdb, Hlo, Hvp, Ha. done. }
    rewrite (gbind_step (on_app _ _) _ _ (st_AppHash z.1, retain) (with_app (hs_exec h) z.2)); [done|]. apply on_app_Ok. exists z.2. done.
Qed.

End replaying.

(** ** The life of a node *)

Section node.
  Context {crypto : CryptoLib} {codec : TimeCodec} {wrappers : WrapperLib} {vrf : VrfLib} {decoder : EvidenceCodec} {vlaws : VrfLaws} {sha : Sha256Length}.
  Context {app : Application} {conns : AppConns app} {restart : AppState -> AppState} {alaws : AppLaws app conns restart} {mempool : MempoolLib}.
  Context (GenesisDoc_Hash GenesisDoc_AppState : GenesisDoc -> bytes) (decode : bytes -> option Block) (genDoc : GenesisDoc) (a_init : AppState).

(** The first start: [sg] is the state of the genesis document, and the new
    application is initialized.  The state that is saved has no blocks. *)
Record begins (sg s0 : ChainState) (a0 : AppState) : Prop := {
  bg_app : restart a_init = a_init;
  bg_genesis : st_LastBlockHeight sg = 0;
  bg_init : exists v hash req res, InfoSync a_init = Ok (mkResponseInfo v 0 hash) /\
    init_request (E:=handshake_error) GenesisDoc_AppState genDoc = Ok req /\ InitChainSync req a_init = Ok (res, a0) /\
    init_state GenesisDoc_Hash genDoc res (with_Params sg (with_version (st_ConsensusParams sg) v)) = Ok s0 /\ ic_AppHash res = st_AppHash s0;
  bg_fresh : fresh s0;
  bg_initial : gd_InitialHeight genDoc = st_InitialHeight s0
}.

(** What is left when the execution of a block stops at a call of [Fail], or
    between the writes of the new state. *)
Inductive interrupted (s : ChainState) (id : BlockID) (b : Block) (e : @BlockExecutor app mempool) (s' : ChainState) : dbStore -> AppState -> Prop :=
| stop_at k ek : (k < 4)%nat -> ApplyBlock_with pool_evidence (Some k) s id b e = (Panic, ek) ->
    interrupted s id b e s' (be_store ek) (restart (be_proxyApp ek))
| stop_saving ek ops j : ApplyBlock_with pool_evidence (Some 2%nat) s id b e = (Panic, ek) -> save_writes s' ops ->
    interrupted s id b e s' (db_write (take j ops) (be_store ek)) (restart (be_proxyApp ek)).

(** The handshake of a node that starts with these stores. *)
Definition started (db : dbStore) (blocks : BlockStore) (pool : Pool) (a : AppState) (h : @Handshaker app) : Prop :=
  exists s, Load db = Ok (Some s) /\
    Handshake GenesisDoc_Hash GenesisDoc_AppState decode genDoc s (NewHandshaker db (NewBlockStore (bs_db blocks)) pool a) = (Ok tt, h).

(** The blocks, the states with the application before the present ones, the
    present ones, and the state store. *)
Inductive lived (sg s0 : ChainState) (a0 : AppState) : list (Block * BlockID) -> list (ChainState * AppState) -> ChainState * AppState -> dbStore -> Prop :=
| lived_start db : begins sg s0 a0 -> save s0 empty_db = (Ok tt, db) -> lived sg s0 a0 [] [] (s0, a0) db
| lived_block bs hist s e b id s' retain e' :
    lived sg s0 a0 bs hist (s, be_proxyApp e) (be_store e) -> within_limits s b -> BlockIDFromProto id = Ok id ->
    ApplyBlock s id b e = (Ok (s', retain), e') ->
    lived sg s0 a0 (bs ++ [(b, id)]) (hist ++ [(s, be_proxyApp e)]) (s', be_proxyApp e') (be_store e')
| lived_crash k bs hist s e b id s' retain e' db a pool h :
    lived sg s0 a0 bs hist (s, be_proxyApp e) (be_store e) -> within_limits s b -> BlockIDFromProto id = Ok id ->
    ApplyBlock s id b e = (Ok (s', retain), e') -> blocks_kept decode (be_blockStore e) (st_InitialHeight s0) k (bs ++ [(b, id)]) ->
    bs <> [] \/ st_InitialHeight s0 = 1 ->
    interrupted s id b e s' db a -> started db (be_blockStore e) pool a h ->
    lived sg s0 a0 (bs ++ [(b, id)]) (hist ++ [(s, be_proxyApp e)]) (s', be_proxyApp (hs_exec h)) (be_store (hs_exec h)).

(** *** Where an interrupted execution is *)

Lemma life_execution s0 a0 bs hist s (e : @BlockExecutor app mempool) b id s' retain e' :
  life s0 a0 bs hist (s, be_proxyApp e) -> keeps_life s0 hist (s, be_proxyApp e) (be_store e) ->
  ApplyBlock s id b e = (Ok (s', retain), e') -> exists r a1, stages s id b e s' e' r a1.
Proof.
  intros Hl Hk Ha. destruct (life_states _ _ _ _ _ (s, be_proxyApp e) Hl) as (_ & _ & _ & Hih & Hvp); [apply elem_of_app; right; left|]. cbn [fst] in *.
  destruct (ApplyBlock_Ok _ _ _ _ _ _ _ Ha) as [Hv _ _ _].
  destruct (life_info s0 a0 bs hist (s, be_proxyApp e) (be_store e) (length hist) (s, be_proxyApp e) (h_Round (b_Header b)) b Hl Hk) as (commit & Hc & Hi);
    [by apply list_lookup_middle|done|]. rewrite <- Hih, <- Hvp in Hi. by eapply ApplyBlock_stages.
Qed.

(** The writes of a state leave what the states before it need. *)
Lemma torn_keeps s0 hist now db s' ops j :
  keeps_life s0 hist now db -> save_writes s' ops -> st_LastBlockHeight s' = next_height now.1 -> next_height now.1 + 2 <= int64_max -> (j < 5)%nat ->
  keeps_life s0 hist now (db_write (take j ops) db) /\ db_responses (db_write (take j ops) db) = db_responses db.
Proof.
  intros Hk (info & pb & _ & -> & _) Hh Hmax Hj. destruct (remembered_init _ _ _ _ Hk) as [_ Hpos]. rewrite Hh.
  rewrite (wrap64_id (next_height now.1 + 1)), (wrap64_id (_ + 1 + 1)) by (unfold_ints; lia). split.
  - apply remembered_write; [exact Hk|]. destruct j as [|[|[|[|[|j]]]]]; [..|lia]; cbn [take]; repeat constructor; cbn [above]; try done; lia.
  - destruct db. destruct j as [|[|[|[|[|j]]]]]; [..|lia]; done.
Qed.

Lemma save_writes_same s ops ops' : save_writes s ops -> save_writes s ops' -> ops' = ops.
Proof.
  intros (info & pb & Hpb & -> & Hsv) (info' & pb' & Hpb' & -> & Hsv'). specialize (Hsv empty_db). rewrite Hsv' in Hsv.
  apply (f_equal (fun x => db_validators (snd x) !! (st_LastBlockHeight s +i64 1 +i64 1))) in Hsv. cbn [snd empty_db db_apply db_validators] in Hsv.
  rewrite !lookup_insert_eq in Hsv. congruence.
Qed.

(** Three cases: nothing was committed; the application has committed and the
    responses are saved; all is saved. *)
Lemma interrupted_cases s0 a0 bs hist s (e : @BlockExecutor app mempool) b id s' retain e' db a :
  life s0 a0 bs hist (s, be_proxyApp e) -> keeps_life s0 hist (s, be_proxyApp e) (be_store e) -> within_limits s b -> BlockIDFromProto id = Ok id ->
  ApplyBlock s id b e = (Ok (s', retain), e') -> interrupted s id b e s' db a ->
  exists r a1, block_run s (be_proxyApp e) id b r a1 s' (be_proxyApp e') /\
    (forall d, exists d', save s' d = (Ok tt, d')) /\
    ((keeps_life s0 hist (s, be_proxyApp e) db /\
      (a = restart (be_proxyApp e) \/ a = be_proxyApp e' /\ LoadABCIResponses db (h_Height (b_Header b)) = Ok r)) \/
     (keeps_life s0 (hist ++ [(s, be_proxyApp e)]) (s', be_proxyApp e') db /\ a = be_proxyApp e')).
Proof.
  intros Hl Hk Hlim Hid Ha Hint. destruct (life_execution _ _ _ _ _ _ _ _ _ _ _ Hl Hk Ha) as (r & a1 & [Hrun Hsave Hstop]).
  destruct (run_committed _ _ _ _ _ _ _ _ Hrun) as (Hr1 & Hr2 & _). exists r, a1. split; [exact Hrun|].
  set (db1 := snd (SaveABCIResponses (h_Height (b_Header b)) r (be_store e))) in *.
  assert (Hk1 : keeps_life s0 hist (s, be_proxyApp e) db1) by (by apply remembered_responses).
  destruct (life_step _ _ _ _ _ _ _ _ _ _ _ _ _ _ Hl Hk1 Hlim Hid Hrun Hsave) as [Hl' Hk'].
  pose proof (sp_follows _ _ _ (life_last _ _ _ _ _ _ _ Hl')) as [Hh' _ _]. cbn [fst] in Hh'. pose proof (sp_height _ _ _ (life_last _ _ _ _ _ _ _ Hl')) as Hhb. cbn [fst] in Hhb.
  destruct Hlim as [Hmax _]. destruct (remembered_init _ _ _ _ Hk) as [_ Hpos]. cbn [fst] in Hpos.
  destruct (save_writes_Ok _ _ _ Hsave) as (ops & Hops & Hany); [rewrite <- Hh', wrap64_id by (unfold_ints; lia); lia|].
  split; [intros d; eexists; apply Hany|].
  assert (Hresp : LoadABCIResponses db1 (h_Height (b_Header b)) = Ok r).
  { destruct Hrun as [_ (? & ? & ? & _ & _ & _ & Happ) _ _]. apply app_block_full in Happ. unfold db1, LoadABCIResponses.
    change (snd _) with (db_apply (SetResponses (h_Height (b_Header b)) (strip_responses r)) (be_store e)). rewrite Happ. destruct (be_store e). cbn. by rewrite lookup_insert_eq. }
  destruct Hint as [k ek Hlt Hek|ek ops' j Hek Hops'].
  - destruct (Hstop k Hlt) as (ek' & Hek' & Hst & Hap). assert (ek' = ek) as -> by congruence. rewrite Hst, Hap.
    destruct k as [|[|[|[|k]]]]; cbn [Nat.ltb Nat.leb]; [left|left|left|right|lia]; (split; [done|]); rewrite ?Hr1, ?Hr2; auto.
  - destruct (Hstop 2%nat ltac:(lia)) as (ek' & Hek' & Hst & Hap). assert (ek' = ek) as -> by congruence. rewrite Hst, Hap. cbn [Nat.ltb Nat.leb]. rewrite Hr2.
    rewrite (save_writes_same _ _ _ Hops Hops') in *. destruct (Nat.le_gt_cases 5 j) as [Hj|Hj].
    + right. split; [|done]. replace (take j ops) with ops by (destruct Hops as (? & ? & _ & -> & _); by rewrite take_ge by (cbn; lia)).
      specialize (Hany db1). rewrite Hsave in Hany. by injection Hany as <-.
    + left. destruct (torn_keeps _ _ _ _ _ _ j Hk1 Hops) as [Hk2 Hrs]; [done|cbn [fst]; lia|lia|]. split; [done|]. right. split; [done|].
      unfold LoadABCIResponses. by rewrite Hrs.
Qed.

(** *** The start of a handshake *)

Lemma save_first_any s d d' : save s d = (Ok tt, d') -> st_LastBlockHeight s = 0 -> forall x, exists y, save s x = (Ok tt, y).
Proof.
  intros Hs Hz x. destruct (save_first_Ok _ _ _ Hs Hz) as (db0 & db1 & H0 & H1 & Hr). cbn zeta in *. destruct (sr_state _ _ _ _ Hr) as (pb & Hpb & _).
  destruct (saveInfo_any _ _ _ _ _ H0) as [i0 E0]. destruct (saveInfo_any _ _ _ _ _ H1) as [i1 E1]. eexists.
  unfold save. rewrite Hz. change (0 +i64 1) with 1. cbn [Z.eqb Pos.eqb].
  refine (eq_trans (gbind_step _ _ x (st_InitialHeight s) _ (eq_trans (gbind_step _ _ x tt _ (E0 x)) eq_refl)) _).
  refine (eq_trans (gbind_step _ _ _ tt _ (E1 _)) _). unfold save_rest, State_Bytes. rewrite Hpb. reflexivity.
Qed.

(** What is left of the application that was with a state of the past. *)
Lemma app_left sg s0 a0 bs hist now (j : nat) x :
  begins sg s0 a0 -> life s0 a0 bs hist now -> (hist ++ [now]) !! j = Some x ->
  match j with
  | O => restart x.2 = a_init
  | S _ => restart x.2 = x.2 /\ exists v, InfoSync x.2 = Ok (mkResponseInfo v (st_LastBlockHeight x.1) (st_AppHash x.1))
  end.
Proof.
  intros Hb Hl Hx. destruct j as [|j].
  - rewrite (lf_first _ _ _ _ _ Hl) in Hx. injection Hx as <-. cbn [snd]. destruct (bg_init _ _ _ Hb) as (v & hash & req & res & _ & _ & Hi & _).
    rewrite (al_init _ _ _ _ Hi). apply Hb.
  - destruct (lookup_lt_is_Some_2 (hist ++ [now]) j) as [y Hy]; [apply lookup_lt_Some in Hx; lia|].
    destruct (lookup_lt_is_Some_2 bs j) as [blk Hblk]; [rewrite (lf_length _ _ _ _ _ Hl); apply snoc_bound in Hx; lia|].
    destruct (lf_steps _ _ _ _ _ Hl j y x blk Hy Hx Hblk) as [(r & a1 & Hrun) [Hf _ _] Hh].
    destruct (run_committed _ _ _ _ _ _ _ _ Hrun) as (_ & Hr & v & Hi). split; [done|]. exists v. by rewrite Hi, Hh, Hf.
Qed.

#[local] Abbreviation handshake := (Handshake GenesisDoc_Hash GenesisDoc_AppState decode genDoc).
#[local] Abbreviation cases := (replay_cases decode genDoc).

(** An application with a height is not initialized. *)
Lemma handshake_known s (h : @Handshaker app) v height hash :
  InfoSync (be_proxyApp (hs_exec h)) = Ok (mkResponseInfo v height hash) -> 0 < height ->
  let st := if st_LastBlockHeight s =? 0 then with_Params s (with_version (st_ConsensusParams s) v) else s in
  handshake s h = (cases st hash height (bs_base (be_blockStore (hs_exec h))) (bs_height (be_blockStore (hs_exec h))) (st_LastBlockHeight s) ≫= fun _ => mret tt) h.
Proof.
  intros Hi Hh st. unfold Handshake. rewrite (gbind_step gget _ _ _ _ eq_refl), (glift_step _ _ _ (mkResponseInfo v height hash)) by (by rewrite Hi).
  cbn [in_LastBlockHeight in_LastBlockAppHash in_AppVersion]. zdecide. cbv zeta. fold st. unfold ReplayBlocks.
  assert (Hst : st_LastBlockHeight st = st_LastBlockHeight s) by (unfold st; by destruct (_ =? 0)).
  rewrite Hst. zdecide. unfold mbind, gom_bind, gget. done.
Qed.

(** One without is, and the state is the one it was. *)
Lemma handshake_new sg s0 a0 bs hist now db blocks pool d d' :
  begins sg s0 a0 -> life s0 a0 bs hist now -> keeps_life s0 hist now db -> save s0 d = (Ok tt, d') ->
  exists db', keeps_life s0 hist now db' /\
  handshake now.1 (NewHandshaker db blocks pool a_init) =
    (cases now.1 (st_AppHash s0) 0 (bs_base blocks) (bs_height blocks) (st_LastBlockHeight now.1) ≫= fun _ => mret tt) (NewHandshaker db' blocks pool a0).
Proof.
  intros Hb Hl Hk Hsave. destruct (bg_init _ _ _ Hb) as (v & hash & req & res & Hi & Hq & Hic & Hst & Hh).
  unfold Handshake. rewrite (gbind_step gget _ _ _ _ eq_refl), (glift_step _ _ _ (mkResponseInfo v 0 hash)) by (cbn; by rewrite Hi).
  cbn [in_LastBlockHeight in_LastBlockAppHash in_AppVersion]. zdecide. cbv zeta. unfold ReplayBlocks. cbn [Z.eqb].
  set (st := if st_LastBlockHeight now.1 =? 0 then _ else _).
  assert (Hsth : st_LastBlockHeight st = st_LastBlockHeight now.1) by (unfold st; by destruct (_ =? 0)).
  assert (Hinit : exists db', keeps_life s0 hist now db' /\
    on_exec (init_chain GenesisDoc_Hash GenesisDoc_AppState genDoc st) (NewHandshaker db blocks pool a_init) = (Ok (st_AppHash s0, now.1), NewHandshaker db' blocks pool a0)).
  { unfold on_exec, init_chain. cbn [hs_exec NewHandshaker]. rewrite (glift_step _ _ _ _ Hq).
    set (e := @mkBlockExecutor app emptyMempool db blocks pool a_init tt).
    rewrite (gbind_step (call_InitChain _) _ _ res (@mkBlockExecutor app emptyMempool db blocks pool a0 tt)) by (unfold call_InitChain, e; cbn; by rewrite Hic).
    rewrite Hsth. destruct (Z.eqb_spec (st_LastBlockHeight now.1) 0) as [Hz|Hz].
    - assert (Hnil : hist = []).
      { destruct hist as [|x hist]; [done|]. exfalso. pose proof (rm_next _ _ _ _ Hk) as [Hn _]. cbn [fst] in Hn. unfold next_height in Hn. rewrite Hz in Hn. cbn in Hn.
        pose proof (rm_lo _ _ _ _ Hk) as [_ Hlo]. rewrite Hlo in Hn. unfold lenZ in Hn. cbn in Hn. lia. }
      subst hist. pose proof (lf_first _ _ _ _ _ Hl) as Hf. cbn in Hf. injection Hf as ->. cbn [fst] in *.
      destruct (save_first_any _ _ _ Hsave Hz db) as [db' Hs']. exists db'. split; [by eapply start_remembered; [apply Hb|]|].
      unfold st. cbn [fst]. rewrite (glift_step _ _ _ _ (init_again _ _ _ _ _ _ Hst)).
      rewrite (gbind_step (save_initial _) _ _ tt (@mkBlockExecutor app emptyMempool db' blocks pool a0 tt)) by (unfold save_initial; cbn [be_store]; by rewrite Hs').
      by rewrite Hh.
    - exists db. split; [done|]. unfold st. by rewrite Hh. }
  destruct Hinit as (db' & Hk' & Hrun). exists db'. split; [done|].
  unfold mbind, gom_bind, gget. rewrite Hrun, Hsth. done.
Qed.

(** *** The cases of the heights *)

Lemma initial_pos s0 hist now db : keeps_life s0 hist now db -> 0 < st_InitialHeight s0 /\ st_InitialHeight s0 + lenZ hist + 1 <= int64_max.
Proof. intros Hk. pose proof (rm_lo _ _ _ _ Hk). pose proof (rm_next _ _ _ _ Hk) as [Hn Hm]. unfold lenZ in *. rewrite length_fmap in Hn. lia. Qed.

(** Heights when the store is one block ahead of the state. *)
Lemma ahead_heights s0 a0 bs hist now db blocks k b id :
  life s0 a0 bs hist now -> keeps_life s0 hist now db -> has_blocks decode blocks (st_InitialHeight s0) k (bs ++ [(b, id)]) ->
  bs <> [] \/ st_InitialHeight s0 = 1 ->
  (bs_base blocks = st_InitialHeight s0 + Z.of_nat k /\ Z.of_nat k <= lenZ hist) /\ bs_height blocks = st_InitialHeight s0 + lenZ hist /\
  st_LastBlockHeight now.1 = st_InitialHeight s0 + lenZ hist - 1.
Proof.
  intros Hl Hk Hb Hc. split.
  { destruct (hb_base _ _ _ _ _ Hb) as [Hbase Hlt]; [by destruct bs|]. split; [done|]. rewrite length_app, (lf_length _ _ _ _ _ Hl) in Hlt. cbn in Hlt. unfold lenZ. lia. }
  rewrite (hb_height _ _ _ _ _ Hb), bool_decide_eq_false_2 by (by destruct bs). unfold lenZ.
  rewrite length_app, (lf_length _ _ _ _ _ Hl). cbn [length]. split; [lia|].
  rewrite (life_height _ _ _ _ _ _ (length hist) now Hl Hk) by (by apply list_lookup_middle).
  pose proof (lf_length _ _ _ _ _ Hl) as Hlen. destruct (length hist); [|lia]. destruct Hc as [Hne|]; [by destruct bs|lia].
Qed.

Section redo.
  Context {s0 : ChainState} {a0 : AppState} {bs : list (Block * BlockID)} {hist : list (ChainState * AppState)} {now : ChainState * AppState}.
  Context {b : Block} {id : BlockID} {r : ABCIResponses} {a1 a' : AppState} {s' : ChainState} {blocks : BlockStore} {k : nat} {pool : Pool} {db : dbStore}.
  Context (Hl : life s0 a0 bs hist now) (Hk : keeps_life s0 hist now db) (Hb : has_blocks decode blocks (st_InitialHeight s0) k (bs ++ [(b, id)])).
  Context (Hc : bs <> [] \/ st_InitialHeight s0 = 1) (Hlim : within_limits now.1 b) (Hid : BlockIDFromProto id = Ok id).
  Context (Hrun : block_run now.1 now.2 id b r a1 s' a') (Hsave : forall d, exists d', save s' d = (Ok tt, d')).

(** [replayBlock] with the application or with the mock. *)
Lemma replayBlock_next {A : Application} st x x1 x' (e : @BlockExecutor A emptyMempool) :
  be_store e = db -> be_blockStore e = blocks -> be_proxyApp e = x ->
  with_Params st (st_ConsensusParams now.1) = now.1 -> @block_run _ _ _ _ A now.1 x id b r x1 s' x' ->
  exists db', replayBlock decode st (bs_height blocks) e = (Ok s', @mkBlockExecutor A emptyMempool db' blocks (be_evpool e) x' (be_mempool e)) /\
    keeps_life s0 (hist ++ [now]) (s', a') db' /\ life s0 a0 (bs ++ [(b, id)]) (hist ++ [now]) (s', a').
Proof.
  intros Hdb Hbl Hx Hst Hrun'. destruct (ahead_heights _ _ _ _ _ _ _ _ _ _ Hl Hk Hb Hc) as ([_ Hkb] & Hh & _).
  destruct (Hsave (snd (SaveABCIResponses (h_Height (b_Header b)) r db))) as [db' Hs]. exists db'.
  destruct (life_states _ _ _ _ _ now Hl) as (_ & _ & _ & Hih & Hvp); [apply elem_of_app; right; left|].
  destruct (life_info _ _ _ _ _ _ (length hist) now _ b Hl Hk ltac:(by apply list_lookup_middle) (br_valid _ _ _ _ _ _ _ _ Hrun)) as (commit & Hcm & Hi).
  destruct (hb_load _ _ _ _ _ Hb (length bs) (b, id)) as (Hload & meta & Hmeta & Hmid); [rewrite (lf_length _ _ _ _ _ Hl); unfold lenZ in Hkb; lia|by apply list_lookup_middle|].
  pose proof (keeps_heights _ _ _ _ (length hist) now Hk ltac:(by apply list_lookup_middle)) as [Hnext [_ _ Hpar]].
  rewrite (lf_length _ _ _ _ _ Hl) in Hload, Hmeta. unfold lenZ in Hh. rewrite <- Hh in Hload, Hmeta. rewrite Hnext, <- Hh in Hpar. cbn [fst snd] in *. split.
  - rewrite (replayBlock_run decode st now.1 (bs_height blocks) id b r x1 s' x' commit e db' meta); rewrite ?Hdb, ?Hbl, ?Hx, ?Hih, ?Hvp; done.
  - destruct now as [s a]. cbn [fst snd] in *. assert (Hk1 : keeps_life s0 hist (s, a) (snd (SaveABCIResponses (h_Height (b_Header b)) r db))) by (by apply remembered_responses).
    destruct (life_step _ _ _ _ _ _ _ _ _ _ _ _ _ _ Hl Hk1 Hlim Hid Hrun Hs) as [Hl' Hk']. done.
Qed.

Lemma cases_redo st hash :
  with_Params st (st_ConsensusParams now.1) = now.1 -> st_InitialHeight st = st_InitialHeight s0 ->
  exists h, cases st hash (st_LastBlockHeight now.1) (bs_base blocks) (bs_height blocks) (st_LastBlockHeight now.1) (NewHandshaker db blocks pool now.2) = (Ok (st_AppHash s'), h) /\
    be_proxyApp (hs_exec h) = a' /\ hs_nBlocks h = 1 /\ be_evpool (hs_exec h) = pool /\
    keeps_life s0 (hist ++ [now]) (s', a') (be_store (hs_exec h)) /\ life s0 a0 (bs ++ [(b, id)]) (hist ++ [now]) (s', a').
Proof.
  intros Hst Hih. destruct (ahead_heights _ _ _ _ _ _ _ _ _ _ Hl Hk Hb Hc) as ([Hbase Hkb] & Hh & Hs). destruct (initial_pos _ _ _ _ Hk) as [Hpos Hmax].
  assert (0 <= lenZ hist) by (unfold lenZ; lia).
  destruct (replayBlock_next st now.2 a1 a' (hs_exec (NewHandshaker db blocks pool now.2))) as (db' & Hrb & Hk' & Hl'); try done.
  exists (mkHandshaker (@mkBlockExecutor app emptyMempool db' blocks pool a' tt) 1). split_and!; try done. unfold replay_cases. rewrite Hbase, Hih, Hs, Hh in *.
  assert (Hf : (st_InitialHeight s0 + lenZ hist - 1 =? 0) && (st_InitialHeight s0 <? st_InitialHeight s0 + Z.of_nat k) = false)
    by (apply andb_false_iff; rewrite Z.eqb_neq, Z.ltb_ge; lia).
  wrapped. rewrite Hf. zdecide. rewrite ?andb_false_r.
    rewrite (gbind_step (on_exec _) _ _ s' (mkHandshaker (@mkBlockExecutor app emptyMempool db' blocks pool a' tt) 0)); [reflexivity|].
    unfold on_exec. cbn [hs_exec NewHandshaker] in *. by rewrite Hrb.
Qed.

Lemma cases_mock st :
  with_Params st (st_ConsensusParams now.1) = now.1 -> st_InitialHeight st = st_InitialHeight s0 ->
  LoadABCIResponses db (h_Height (b_Header b)) = Ok r ->
  exists h, cases st (st_AppHash s') (h_Height (b_Header b)) (bs_base blocks) (bs_height blocks) (st_LastBlockHeight now.1) (NewHandshaker db blocks pool a') = (Ok (st_AppHash s'), h) /\
    be_proxyApp (hs_exec h) = a' /\ hs_nBlocks h = 1 /\ be_evpool (hs_exec h) = pool /\
    keeps_life s0 (hist ++ [now]) (s', a') (be_store (hs_exec h)) /\ life s0 a0 (bs ++ [(b, id)]) (hist ++ [now]) (s', a').
Proof.
  intros Hst Hih Hresp. destruct (ahead_heights _ _ _ _ _ _ _ _ _ _ Hl Hk Hb Hc) as ([Hbase Hkb] & Hh & Hs). destruct (initial_pos _ _ _ _ Hk) as [Hpos Hmax].
  assert (0 <= lenZ hist) by (unfold lenZ; lia). destruct (mock_run _ _ _ _ _ _ _ _ Hrun) as (m & m' & Hmock).
  destruct (replayBlock_next (A := mock_app) st (newMockProxyApp (st_AppHash s') r) m m' (@mkBlockExecutor mock_app emptyMempool db blocks pool (newMockProxyApp (st_AppHash s') r) tt)) as (db' & Hrb & Hk' & Hl'); try done.
  pose proof (sp_height _ _ _ (life_last _ _ _ _ _ _ _ Hl')) as Hhb. cbn [fst] in Hhb.
  pose proof (keeps_heights _ _ _ _ (length hist) now Hk ltac:(by apply list_lookup_middle)) as [Hnext _]. rewrite Hnext in Hhb. fold (lenZ hist) in Hhb.
  exists (mkHandshaker (@mkBlockExecutor app emptyMempool db' blocks pool a' tt) 1). split_and!; try done. unfold replay_cases. rewrite Hbase, Hih, Hs, Hhb, Hh in *. wrapped. zdecide. rewrite ?andb_false_r.
    rewrite (gbind_step gget _ _ _ _ eq_refl), (glift_step _ _ _ r) by (cbn; by rewrite Hresp).
    rewrite (gbind_step (on_exec _) _ _ s' (mkHandshaker (@mkBlockExecutor app emptyMempool db' blocks pool a' tt) 0)); [reflexivity|].
    unfold on_exec, on_mock. cbn [hs_exec NewHandshaker be_store be_blockStore be_evpool be_proxyApp be_mempool] in *. by rewrite Hrb.
Qed.

End redo.

(** The store, the state and the application are at the same block. *)
Lemma assert_same {E} st : assertAppHashEqualsOneFromState (E:=E) (st_AppHash st) st = Ok tt.
Proof. unfold assertAppHashEqualsOneFromState. by rewrite bytes_eqb_refl. Qed.

Lemma synced_heights s0 a0 bs hist now db blocks k :
  life s0 a0 bs hist now -> keeps_life s0 hist now db -> has_blocks decode blocks (st_InitialHeight s0) k bs ->
  bs_height blocks = st_LastBlockHeight now.1 /\
  (bs <> [] -> (bs_base blocks = st_InitialHeight s0 + Z.of_nat k /\ Z.of_nat k < lenZ hist) /\ st_LastBlockHeight now.1 = st_InitialHeight s0 + lenZ hist - 1).
Proof.
  intros Hl Hk Hb. rewrite (hb_height _ _ _ _ _ Hb), (life_height _ _ _ _ _ _ (length hist) now Hl Hk) by (by apply list_lookup_middle).
  pose proof (lf_length _ _ _ _ _ Hl) as Hlen. pose proof (hb_base _ _ _ _ _ Hb) as Hbase. unfold lenZ. rewrite Hlen in Hbase |- *.
  destruct bs as [|blk bs]; cbn in Hlen; rewrite <- Hlen in Hbase |- *; [done|].
  rewrite bool_decide_eq_false_2 by done. split; [lia|]. intros Hne. destruct (Hbase Hne). split; [split; [done|lia]|lia].
Qed.

Lemma cases_synced s0 a0 bs hist now db blocks k h :
  life s0 a0 bs hist now -> keeps_life s0 hist now db -> has_blocks decode blocks (st_InitialHeight s0) k bs ->
  cases now.1 (st_AppHash now.1) (st_LastBlockHeight now.1) (bs_base blocks) (bs_height blocks) (st_LastBlockHeight now.1) h = (Ok (st_AppHash now.1), h).
Proof.
  intros Hl Hk Hb. destruct (initial_pos _ _ _ _ Hk) as [Hpos Hmax]. destruct (synced_heights _ _ _ _ _ _ _ _ Hl Hk Hb) as [Hh Hne]. rewrite Hh. unfold replay_cases.
  destruct (Z.eqb_spec (st_LastBlockHeight now.1) 0) as [Hz|Hz]; [by rewrite assert_same|].
  destruct Hne as [[Hbase Hkb] Hs]; [intros ->; pose proof (life_height _ _ _ _ _ _ (length hist) now Hl Hk ltac:(by apply list_lookup_middle)) as H0;
    rewrite <- (lf_length _ _ _ _ _ Hl) in H0; done|].
  rewrite Hbase, Hs in *. assert (0 <= lenZ hist) by (unfold lenZ; lia). wrapped. zdecide. rewrite ?andb_false_r. by rewrite assert_same.
Qed.

(** The application is behind. *)
Lemma cases_behind s0 a0 bs hist now db blocks pool (j : nat) x hash :
  life s0 a0 bs hist now -> keeps_life s0 hist now db -> has_blocks decode blocks (st_InitialHeight s0) 0 bs -> gd_InitialHeight genDoc = st_InitialHeight s0 ->
  (hist ++ [now]) !! j = Some x -> (j < length hist)%nat ->
  cases now.1 hash (st_LastBlockHeight x.1) (bs_base blocks) (bs_height blocks) (st_LastBlockHeight now.1) (NewHandshaker db blocks pool x.2) =
    (Ok (st_AppHash now.1), mkHandshaker (@mkBlockExecutor app emptyMempool db blocks pool now.2 tt) (lenZ hist - Z.of_nat j)).
Proof.
  intros Hl Hk Hb Hgd Hx Hj. destruct (initial_pos _ _ _ _ Hk) as [Hpos Hmax]. destruct (synced_heights _ _ _ _ _ _ _ _ Hl Hk Hb) as [Hh Hne].
  destruct Hne as [[Hbase _] Hs]; [intros ->; pose proof (lf_length _ _ _ _ _ Hl); cbn in *; lia|].
  destruct (life_states _ _ _ _ _ now Hl) as (_ & _ & _ & Hih & Hvp); [apply elem_of_app; right; left|].
  rewrite (life_height _ _ _ _ _ _ _ _ Hl Hk Hx). set (ah := match j with O => 0 | S i => st_InitialHeight s0 + Z.of_nat i end).
  assert (Hfirst : (if ah +i64 1 =? 1 then st_InitialHeight s0 else ah +i64 1) = st_InitialHeight s0 + Z.of_nat j /\ 0 <= ah /\
    (0 < ah -> st_InitialHeight s0 <= ah) /\ ah < st_InitialHeight s0 + lenZ hist - 1).
  { unfold ah, lenZ in *. destruct j as [|i]; [change (0 +i64 1) with 1; cbn [Z.eqb Pos.eqb]; lia|]. wrapped. zdecide. lia. }
  destruct Hfirst as (Hfirst & Hah & Hlo & Hlt). assert (0 <= lenZ hist) by (unfold lenZ; lia).
  rewrite Z.add_0_r in Hbase. unfold replay_cases. rewrite Hh, Hbase, Hs, Hih in *. wrapped. zdecide. rewrite ?andb_false_r.
  replace ((0 <? ah) && (ah <? st_InitialHeight s0 - 1)) with false by (destruct (Z.ltb_spec 0 ah); [zdecide|]; done).
  unfold replayBlocks. cbv zeta. rewrite Hih, Hfirst, Hgd, Hvp.
  replace (Z.to_nat (st_InitialHeight s0 + lenZ hist - 1 - (st_InitialHeight s0 + Z.of_nat j) + 1)) with (length hist - j)%nat by (unfold lenZ; lia).
  erewrite (gbind_step _ _ _ (st_AppHash now.1)).
  2:{ rewrite (replay_loop_run decode s0 a0 bs hist now db blocks (st_InitialHeight s0) (st_VoterParams s0) Hl Hk Hb eq_refl eq_refl
        (length hist - j) j x now []); [|done| |by left|done..].
      - replace (length hist - j =? 0)%nat with false by (symmetry; apply Nat.eqb_neq; lia). reflexivity.
      - replace (j + (length hist - j))%nat with (length hist) by lia. by apply list_lookup_middle. }
  rewrite (gbind_step (mret _) _ _ _ _ eq_refl). cbv beta iota. rewrite assert_same. cbn. f_equal. f_equal. unfold lenZ. lia.
Qed.

(** *** Starting again *)

Lemma recover k sg s0 a0 bs hist s (e : @BlockExecutor app mempool) b id s' retain e' db a pool d d' :
  begins sg s0 a0 -> save s0 d = (Ok tt, d') -> life s0 a0 bs hist (s, be_proxyApp e) -> keeps_life s0 hist (s, be_proxyApp e) (be_store e) ->
  within_limits s b -> BlockIDFromProto id = Ok id -> ApplyBlock s id b e = (Ok (s', retain), e') ->
  blocks_kept decode (be_blockStore e) (st_InitialHeight s0) k (bs ++ [(b, id)]) -> bs <> [] \/ st_InitialHeight s0 = 1 ->
  interrupted s id b e s' db a ->
  exists h, started db (be_blockStore e) pool a h /\ be_proxyApp (hs_exec h) = be_proxyApp e' /\ be_evpool (hs_exec h) = pool /\ 
    life s0 a0 (bs ++ [(b, id)]) (hist ++ [(s, be_proxyApp e)]) (s', be_proxyApp e') /\
    keeps_life s0 (hist ++ [(s, be_proxyApp e)]) (s', be_proxyApp e') (be_store (hs_exec h)).
Proof.
  intros Hbg Hsv Hl Hk Hlim Hid Ha Hbl Hc Hint. apply stored_has in Hbl. set (now := (s, be_proxyApp e)) in *.
  destruct (interrupted_cases _ _ _ _ _ _ _ _ _ _ _ _ _ Hl Hk Hlim Hid Ha Hint) as (r & a1 & Hrun & Hsave & Hcase). clear Hint.
  unfold started. rewrite (hb_reopen _ _ _ _ _ Hbl). destruct (run_committed _ _ _ _ _ _ _ _ Hrun) as (_ & Hr' & v' & Hinfo').
  destruct (life_states _ _ _ _ _ now Hl) as (_ & _ & Hal & Hih & _); [apply elem_of_app; right; left|].
  destruct Hcase as [[Hkd [->|[-> Hresp]]]|[Hkd ->]].
  - assert (Hnow : (hist ++ [now]) !! length hist = Some now) by (by apply list_lookup_middle).
    pose proof (app_left _ _ _ _ _ _ _ _ Hbg Hl Hnow) as Hleft. pose proof (life_height _ _ _ _ _ _ _ _ Hl Hkd Hnow) as Hheight.
    destruct (length hist) as [|n] eqn:En.
    + destruct hist; [|done]. cbn in Hnow. pose proof (lf_first _ _ _ _ _ Hl) as Hf. apply (inj Some) in Hf. change (be_proxyApp e) with now.2. rewrite Hleft.
      destruct (handshake_new sg s0 a0 bs [] now db (be_blockStore e) pool d d' Hbg Hl Hkd Hsv) as (db' & Hk' & Hrun').
      destruct (cases_redo (pool := pool) Hl Hk' Hbl Hc Hlim Hid Hrun Hsave now.1 (st_AppHash s0)) as (h & Hcases & H1 & _ & H2 & H3 & H4); [by apply with_Params_same|done|].
      exists h. split_and!; try done. exists now.1. split; [by eapply remembered_load|]. rewrite Hrun'. rewrite Hheight in *.
      replace a0 with now.2 by (by rewrite Hf). by rewrite (gbind_step _ _ _ _ _ Hcases).
    + destruct Hleft as [Hleft (v & Hinfo)]. change (be_proxyApp e) with now.2. rewrite Hleft. destruct (initial_pos _ _ _ _ Hk) as [Hpos _].
      destruct (cases_redo (pool := pool) Hl Hkd Hbl Hc Hlim Hid Hrun Hsave now.1 (st_AppHash now.1)) as (h & Hcases & H1 & _ & H2 & H3 & H4); [by apply with_Params_same|done|].
      exists h. split_and!; try done. exists now.1. split; [by eapply remembered_load|].
      rewrite (handshake_known _ (NewHandshaker db (be_blockStore e) pool now.2) _ _ _ Hinfo) by lia.
      rewrite (proj2 (Z.eqb_neq (st_LastBlockHeight now.1) 0)) by lia. by rewrite (gbind_step _ _ _ _ _ Hcases).
  - set (st := if st_LastBlockHeight s =? 0 then with_Params s (with_version (st_ConsensusParams s) v') else s).
    destruct (cases_mock (pool := pool) Hl Hkd Hbl Hc Hlim Hid Hrun Hsave st) as (h & Hcases & H1 & _ & H2 & H3 & H4).
    { unfold st. cbn [fst now]. destruct (_ =? 0); [rewrite with_Params_twice|]; by apply with_Params_same. }
    { unfold st. by destruct (_ =? 0). } { done. }
    exists h. split_and!; try done. exists now.1. split; [by eapply remembered_load|].
    rewrite (handshake_known _ (NewHandshaker db (be_blockStore e) pool (be_proxyApp e')) _ _ _ Hinfo').
    2:{ pose proof (sp_height _ _ _ (life_last _ _ _ _ _ _ _ H4)) as Hhb. cbn [fst] in Hhb. rewrite Hhb. by destruct (remembered_init _ _ _ _ Hkd). }
    fold st. by rewrite (gbind_step _ _ _ _ _ Hcases).
  - destruct (Hsave (snd (SaveABCIResponses (h_Height (b_Header b)) r (be_store e)))) as [d1 Hd1].
    assert (Hk1 : keeps_life s0 hist now (snd (SaveABCIResponses (h_Height (b_Header b)) r (be_store e)))) by (by apply remembered_responses).
    destruct (life_step _ _ _ _ _ _ _ _ _ _ _ _ _ _ Hl Hk1 Hlim Hid Hrun Hd1) as [Hl' _]. set (now' := (s', be_proxyApp e')) in *.
    exists (NewHandshaker db (be_blockStore e) pool (be_proxyApp e')). split_and!; try done. exists s'. split; [by eapply (remembered_load _ _ now'.1)|].
    pose proof (sp_height _ _ _ (life_last _ _ _ _ _ _ _ Hl')) as Hhb. pose proof (sp_follows _ _ _ (life_last _ _ _ _ _ _ _ Hl')) as [Hf _ _]. cbn [fst now'] in Hhb, Hf.
    destruct (remembered_init _ _ _ _ Hk) as [_ Hpos]. rewrite Hhb, Hf in Hinfo'. cbn [fst now] in Hf, Hinfo', Hpos.
    rewrite (handshake_known _ (NewHandshaker db (be_blockStore e) pool (be_proxyApp e')) _ _ _ Hinfo') by lia.
    rewrite (proj2 (Z.eqb_neq (st_LastBlockHeight s') 0)) by lia. 
    by rewrite (gbind_step _ _ _ _ _ (cases_synced _ _ _ _ _ _ _ _ (NewHandshaker db (be_blockStore e) pool (be_proxyApp e')) Hl' Hkd Hbl)).
Qed.

Lemma started_same db blocks pool a h h' : started db blocks pool a h -> started db blocks pool a h' -> h' = h.
Proof. intros (s & Hs & Hh) (s' & Hs' & Hh'). congruence. Qed.

Lemma life_start s0 a0 : aligned s0 -> fresh s0 -> life s0 a0 [] [] (s0, a0).
Proof.
  intros Ha Hf. split; try done.
  - apply Hf.
  - apply Forall_singleton. cbn. split; [apply Hf|]. split; [apply Hf|]. done.
Qed.

Lemma lived_life sg s0 a0 bs hist now db :
  lived sg s0 a0 bs hist now db ->
  begins sg s0 a0 /\ (exists d d', save s0 d = (Ok tt, d')) /\ life s0 a0 bs hist now /\ keeps_life s0 hist now db.
Proof.
  induction 1 as [db Hb Hs|bs hist s e b id s' retain e' _ (Hb & Hs & Hl & Hk) Hlim Hid Ha|
    k bs hist s e b id s' retain e' db a pool h _ (Hb & (d & d' & Hs) & Hl & Hk) Hlim Hid Ha Hbl Hc Hint Hst].
  - split; [done|]. split; [by exists empty_db, db|]. destruct (bg_init _ _ _ Hb) as (v & hash & req & res & _ & _ & _ & Hi & _).
    split; [apply life_start; [by eapply init_aligned|apply Hb]|]. eapply start_remembered; [apply Hb|exact Hs].
  - split; [done|]. split; [done|]. destruct (life_execution _ _ _ _ _ _ _ _ _ _ _ Hl Hk Ha) as (r & a1 & [Hrun Hsave _]).
    eapply life_step; [exact Hl|apply remembered_responses; exact Hk|done|done|exact Hrun|exact Hsave].
  - split; [done|]. split; [by exists d, d'|]. destruct (recover _ _ _ _ _ _ _ _ _ _ _ _ _ _ _ pool _ _ Hb Hs Hl Hk Hlim Hid Ha Hbl Hc Hint) as (h' & Hst' & Happ & _ & Hl' & Hk').
    rewrite (started_same _ _ _ _ _ _ Hst' Hst) in *. by rewrite Happ.
Qed.

Lemma catch_up sg s0 a0 bs hist now db blocks pool (j : nat) x d d' :
  begins sg s0 a0 -> save s0 d = (Ok tt, d') -> life s0 a0 bs hist now -> keeps_life s0 hist now db -> blocks_stored decode blocks (st_InitialHeight s0) bs ->
  (hist ++ [now]) !! j = Some x ->
  exists h, started db blocks pool (restart x.2) h /\ be_proxyApp (hs_exec h) = now.2 /\ hs_nBlocks h = lenZ hist - Z.of_nat j /\
    keeps_life s0 hist now (be_store (hs_exec h)).
Proof.
  intros Hbg Hsv Hl Hk Hbl%stored_kept Hx. apply stored_has in Hbl. unfold started. rewrite (hb_reopen _ _ _ _ _ Hbl). pose proof (app_left _ _ _ _ _ _ _ _ Hbg Hl Hx) as Hleft.
  pose proof (life_height _ _ _ _ _ _ _ _ Hl Hk Hx) as Hheight. pose proof (snoc_bound _ _ _ _ Hx) as Hj.
  assert (Hload : Load db = Ok (Some now.1)) by (by eapply remembered_load). pose proof (bg_initial _ _ _ Hbg) as Hgd.
  assert (Hsame : j = length hist -> x = now) by (intros ->; rewrite list_lookup_middle in Hx by done; congruence).
  destruct j as [|j].
  - rewrite Hleft. destruct (handshake_new sg s0 a0 bs hist now db blocks pool d d' Hbg Hl Hk Hsv) as (db' & Hk' & Hrun).
    assert (Hx0 : x = (s0, a0)) by (pose proof (lf_first _ _ _ _ _ Hl); congruence).
    destruct (decide (hist = [])) as [->|Hne].
    + rewrite (Hsame eq_refl) in *. exists (NewHandshaker db' blocks pool a0). split; [|split; [by rewrite Hx0|done]].
      exists now.1. split; [done|]. rewrite Hrun. pose proof (cases_synced _ _ _ _ _ _ blocks _ (NewHandshaker db' blocks pool a0) Hl Hk' Hbl) as Hc.
      rewrite Hheight in Hc |- *. replace (st_AppHash s0) with (st_AppHash now.1) by (by rewrite Hx0). by rewrite (gbind_step _ _ _ _ _ Hc).
    + assert (Hlt : (0 < length hist)%nat) by (destruct hist; [done|cbn; lia]).
      pose proof (cases_behind _ _ _ _ _ _ blocks pool _ _ (st_AppHash s0) Hl Hk' Hbl Hgd Hx Hlt) as Hc. rewrite Hheight, Hx0 in Hc.
      exists (mkHandshaker (@mkBlockExecutor app emptyMempool db' blocks pool now.2 tt) (lenZ hist - Z.of_nat 0)). split; [|done].
      exists now.1. split; [done|]. rewrite Hrun. by rewrite (gbind_step _ _ _ _ _ Hc).
  - destruct Hleft as [Hleft (v & Hinfo)]. rewrite Hleft. destruct (initial_pos _ _ _ _ Hk) as [Hpos _].
    destruct (synced_heights _ _ _ _ _ _ _ _ Hl Hk Hbl) as [_ Hne]. destruct Hne as [_ Hs]; [intros ->; pose proof (lf_length _ _ _ _ _ Hl); cbn in *; lia|].
    assert (Hknown := handshake_known now.1 (NewHandshaker db blocks pool x.2) _ _ _ Hinfo ltac:(lia)). cbv zeta in Hknown.
    rewrite (proj2 (Z.eqb_neq (st_LastBlockHeight now.1) 0)) in Hknown by (unfold lenZ in *; lia).
    destruct (decide (S j = length hist)) as [Heq|Hneq].
    + rewrite (Hsame Heq) in *. exists (NewHandshaker db blocks pool now.2). split; [|split; [done|split; [cbn; unfold lenZ; lia|done]]].
      exists now.1. split; [done|]. rewrite Hknown.
      by rewrite (gbind_step _ _ _ _ _ (cases_synced _ _ _ _ _ _ blocks _ (NewHandshaker db blocks pool now.2) Hl Hk Hbl)).
    + exists (mkHandshaker (@mkBlockExecutor app emptyMempool db blocks pool now.2 tt) (lenZ hist - Z.of_nat (S j))). split; [|done].
      exists now.1. split; [done|]. rewrite Hknown.
      by rewrite (gbind_step _ _ _ _ _ (cases_behind _ _ _ _ _ _ blocks pool _ _ (st_AppHash x.1) Hl Hk Hbl Hgd Hx ltac:(lia))).
Qed.

End node.
