(* ===== verification/RecoveryProps.v ===== *)
(** * What the handshake guarantees, and where it fails

    Theorems on the handshake of src/consensus/replay.go over the lives of nodes
    of Recovery.v, with a node of two blocks that crashes. *)

From Stdlib Require Import ZArith Lia.
From stdpp Require Import prelude list gmap.
From S2P Require Import Prelude SafeMath Crypto Validator ValidatorSet ValidatorLists ValidatorSetPriority Proto Block VoterSet VerifyCommit.
From S2P Require Import Election Merkle MerkleProps PartSet PartSetProps Header Light BlockProto Evidence EvidenceProps ChainState ChainProps StateStore BlockStore BlockStoreProps StateProps StoreHistory EvidencePool.
From S2P Require Import EvidencePoolProps BlockExec BlockExecProps Handshake HandshakeProps Recovery.

Local Open Scope Z_scope.
Local Open Scope go_scope.

(** ** The first handshake *)

Section genesis.
  Context {crypto : CryptoLib} (GenesisDoc_Hash : GenesisDoc -> bytes).

Lemma fresh_intro {E} s :
  st_LastBlockHeight s = 0 -> st_LastBlockID s = zero_BlockID -> st_LastVoters s = mkVoterSet [] 0 -> st_NextValidators s = st_Validators s ->
  valset_wf (st_Validators s) -> Validators (st_Validators s) <> [] -> fits (st_Validators s) -> Forall storable (Validators (st_Validators s)) ->
  SelectVoter (E:=E) (st_Validators s) (st_LastProofHash s) (st_VoterParams s) = Ok (st_Voters s) -> 0 <= MaxTolerableByzantinePercentage (st_VoterParams s) ->
  ValidateConsensusParams (st_ConsensusParams s) = Ok tt -> 0 < st_InitialHeight s <= int64_max -> st_LastProofHash s <> [] ->
  st_LastHeightValidatorsChanged s = st_InitialHeight s -> st_LastHeightConsensusParamsChanged s = st_InitialHeight s -> fresh s.
Proof.
  intros Hz Hid Hlv Hnv Hwf Hne Hf Hst Hv Hpct Hp Hi Hh Hc1 Hc2. assert (Hok : set_ok (st_Validators s)) by (by constructor).
  destruct (SelectVoter_wf (E:=E) _ (st_LastProofHash s) _ Hok Hpct) as (w & Hw & Hwwf & Hwne & Hch). assert (w = st_Voters s) as -> by congruence.
  pose proof (wf_power_nonneg _ Hwf) as Hpow. constructor; try done.
  - constructor; try done; [by rewrite Hnv| |lia..]. rewrite Hlv. constructor; cbn; [constructor|constructor|done|by left|done].
  - constructor; [done|by rewrite Hnv| |by rewrite Hz|by rewrite Hid].
    split; [by eapply chosen_Forall; [apply storable_set_weight|exact Hch|]|]. by eapply chosen_Forall; [|exact Hch|exact Hpow].
  - destruct (SelectVoter_same (E':=unit) _ _ _ _ _ (reflexivity _) Hv) as (w & Hw' & Hs). exists w. split; [exact Hw'|by symmetry].
  - by rewrite Hnv.
Qed.

(** The state an application was initialized with has no blocks. *)
Lemma init_fresh now gd0 gd sg res p s0 :
  MakeGenesisState GenesisDoc_Hash now gd0 = Ok sg -> ValidateAndComplete now gd0 = Ok gd -> int64 (gd_InitialHeight gd0) ->
  init_state GenesisDoc_Hash gd res (with_Params sg p) = Ok s0 -> GenesisDoc_Hash gd <> [] ->
  Validators (st_Validators s0) <> [] -> fits (st_Validators s0) -> Forall storable (Validators (st_Validators s0)) ->
  ValidateConsensusParams (st_ConsensusParams s0) = Ok tt -> fresh s0 /\ st_InitialHeight s0 = gd_InitialHeight gd.
Proof.
  intros Hg Hc Hi Hinit Hh Hne Hf Hst Hp. unfold MakeGenesisState in Hg. rewrite Hc in Hg. cbn [mbind outcome_bind] in Hg.
  apply obind_Ok in Hg as (vals & _ & Hg). apply obind_Ok in Hg as (set & Hset & Hg). apply obind_Ok in Hg as (voters & Hv & [= <-]).
  apply ValidateAndComplete_Ok in Hc as [[Hih _ (vp & Evp & Hvp)] Hmax]. rewrite Evp in *. change (default DefaultVoterParams (Some vp)) with vp in *.
  assert (Hpos : 0 < gd_InitialHeight gd <= int64_max) by (unfold int64, int64_min, int64_max, two63 in *; lia).
  apply NewValidatorSet_wf in Hset. unfold init_state in Hinit. apply obind_Ok in Hinit as (s1 & H1 & [= <-]).
  destruct (bool_decide (ic_Validators res <> [])).
  - apply obind_Ok in H1 as (vals' & _ & H1). apply obind_Ok in H1 as (set' & Hset' & H1). apply obind_Ok in H1 as (voters' & Hv' & H1).
    apply obind_Ok in H1 as (next & Hnext & [= <-]). assert (next = set') as -> by congruence. apply NewValidatorSet_wf in Hset'.
    split; [|by destruct (bool_decide (ic_AppHash res <> [])), (ic_ConsensusParams res)].
    by apply (fresh_intro (E:=handshake_error)); destruct (bool_decide (ic_AppHash res <> [])), (ic_ConsensusParams res).
  - destruct (bool_decide (default [] _ = [])); [done|]. injection H1 as <-.
    split; [|by destruct (bool_decide (ic_AppHash res <> [])), (ic_ConsensusParams res)].
    by apply (fresh_intro (E:=genesis_error)); destruct (bool_decide (ic_AppHash res <> [])), (ic_ConsensusParams res).
Qed.

(** It can be saved. *)
Lemma fresh_saves s d : fresh s -> st_InitialHeight s < int64_max -> exists d', save s d = (Ok tt, d').
Proof.
  intros [Hok Hst _ _ Hz _ [Hcv _]] Hmax. pose proof (co_initial _ Hok) as Hi. destruct (State_roundtrip s Hok Hst) as (pb & Hpb & _).
  destruct (ValidatorSet_roundtrip (st_Validators s)) as (pv & Hpv & _); [apply Hok|apply Hst|apply wf_power_nonneg, Hok|].
  destruct (ValidatorSet_roundtrip (st_NextValidators s)) as (pn & Hpn & _); [apply Hok|apply Hst|apply wf_power_nonneg, Hok|].
  assert (Hinfo : forall h changed V pv x, changed <= h -> ValidatorSet_ToProto V = Ok pv -> exists y, saveValidatorsInfo h changed V x = (Ok tt, y)).
  { intros h changed V pv' x Hle HV. unfold saveValidatorsInfo. zdecide. destruct ((h =? changed) || _).
    - eexists. refine (eq_trans (gbind_step _ _ x (Some pv') x _) eq_refl). refine (eq_trans (gbind_step _ _ x pv' x _) eq_refl). unfold glift. by rewrite HV.
    - by eexists. }
  unfold save. rewrite Hz. change (0 +i64 1) with 1. cbn [Z.eqb Pos.eqb].
  destruct (Hinfo (st_InitialHeight s) (st_InitialHeight s) _ _ d ltac:(lia) Hpv) as [d1 H1].
  destruct (Hinfo (st_InitialHeight s +i64 1) (st_LastHeightValidatorsChanged s) (st_NextValidators s) pn d1) as [d2 H2]; [rewrite Hcv, wrap64_id by (unfold_ints; lia); lia|exact Hpn|].
  eexists. refine (eq_trans (gbind_step _ _ d (st_InitialHeight s) d1 (eq_trans (gbind_step _ _ d tt d1 H1) eq_refl)) _).
  refine (eq_trans (gbind_step _ _ d1 tt d2 H2) _). unfold save_rest, State_Bytes. rewrite Hpb. reflexivity.
Qed.

End genesis.

(** The first handshake of a node initializes the application and saves the
    state: with a valid genesis document, validators and parameters that are in
    bounds, and the hash of the application that the state has, it succeeds, and
    the state that is loaded afterwards has no blocks and is well formed. *)
Theorem genesis_handshake `{CryptoLib} `{TimeCodec} `{WrapperLib} `{VrfLib} `{EvidenceCodec} `{app : Application} `{!AppConns app}
    GH GA decode now gd0 gd sg a v hash req res a0 s0 pool :
  MakeGenesisState GH now gd0 = Ok sg -> ValidateAndComplete now gd0 = Ok gd -> gd_InitialHeight gd < int64_max -> int64 (gd_InitialHeight gd0) -> GH gd <> [] ->
  InfoSync a = Ok (mkResponseInfo v 0 hash) -> init_request (E:=handshake_error) GA gd = Ok req -> InitChainSync req a = Ok (res, a0) ->
  init_state GH gd res (with_Params sg (with_version (st_ConsensusParams sg) v)) = Ok s0 -> ic_AppHash res = st_AppHash s0 ->
  Validators (st_Validators s0) <> [] -> fits (st_Validators s0) -> Forall storable (Validators (st_Validators s0)) ->
  ValidateConsensusParams (st_ConsensusParams s0) = Ok tt ->
  exists h, Handshake GH GA decode gd sg (NewHandshaker empty_db (NewBlockStore empty_blocks) pool a) = (Ok tt, h) /\
    be_proxyApp (hs_exec h) = a0 /\ Load (be_store (hs_exec h)) = Ok (Some s0) /\ fresh s0.
Proof.
  intros Hg Hc Hmax Hi Hh Hinfo Hreq Hinit Hst Hhash Hne Hf Hsto Hp.
  destruct (init_fresh _ _ _ _ _ _ _ _ Hg Hc Hi Hst Hh Hne Hf Hsto Hp) as [Hfr Hih]. destruct (fresh_saves s0 empty_db Hfr) as [db Hs]; [by rewrite Hih|].
  assert (Hz : st_LastBlockHeight sg = 0).
  { unfold MakeGenesisState in Hg. apply obind_Ok in Hg as (? & _ & Hg). apply obind_Ok in Hg as (? & _ & Hg). apply obind_Ok in Hg as (? & _ & Hg).
    by apply obind_Ok in Hg as (? & _ & [= <-]). }
  exists (NewHandshaker db (NewBlockStore empty_blocks) pool a0). split_and!; [|done|by eapply remembered_load, start_remembered|done].
  unfold Handshake. rewrite (gbind_step gget _ _ _ _ eq_refl), (glift_step _ _ _ (mkResponseInfo v 0 hash)) by (cbn; by rewrite Hinfo).
  cbn [in_LastBlockHeight in_LastBlockAppHash in_AppVersion Z.ltb Z.compare]. rewrite Hz. cbn [Z.eqb]. cbv zeta. unfold ReplayBlocks. cbn [Z.eqb].
  set (st := with_Params sg _) in *.
  assert (Hrun : on_exec (init_chain GH GA gd st) (NewHandshaker empty_db (NewBlockStore empty_blocks) pool a) =
    (Ok (st_AppHash s0, s0), NewHandshaker db (NewBlockStore empty_blocks) pool a0)).
  { unfold on_exec, init_chain. cbn [hs_exec NewHandshaker]. rewrite (glift_step _ _ _ _ Hreq).
    rewrite (gbind_step (call_InitChain _) _ _ res (@mkBlockExecutor app emptyMempool empty_db (NewBlockStore empty_blocks) pool a0 tt))
      by (unfold call_InitChain; cbn [be_proxyApp]; by rewrite Hinit).
    change (st_LastBlockHeight st) with (st_LastBlockHeight sg). rewrite Hz. cbn [Z.eqb]. rewrite (glift_step _ _ _ _ Hst).
    rewrite (gbind_step (save_initial _) _ _ tt (@mkBlockExecutor app emptyMempool db (NewBlockStore empty_blocks) pool a0 tt)) by (unfold save_initial; cbn [be_store]; by rewrite Hs).
    by rewrite Hhash. }
  unfold mbind, gom_bind, gget. rewrite Hrun. unfold replay_cases. change (bs_height _ =? 0) with true. cbn iota. by rewrite assert_same.
Qed.

(** ** Recovery *)

(** C10: a node recovers from a crash.  Take any life of a node: the first
    handshake, blocks that were executed, crashes that were recovered from.  Suppose
    it stops while it executes the next block, at any of the points between the steps
    of the execution or between the writes of the new state; the block store still
    has that block, and may have pruned the ones before it; the application makes
    changes last only with [Commit]; and the block is not the first one of a chain
    with an initial height above 1.  Then the next start succeeds: the handshake ends
    without an error, with the application where the execution would have left it,
    and the store gives back the state the execution would have reached and answers
    for all states so far.  In the case left out no start succeeds
    ([initial_height_crash]). *)
Theorem crash_recovery `{CryptoLib} `{TimeCodec} `{WrapperLib} `{VrfLib} `{EvidenceCodec} `{!VrfLaws} `{!Sha256Length}
    `{app : Application} `{conns : !AppConns app} restart `{!AppLaws app conns restart} `{MempoolLib} GH GA decode gd a_init
    sg s0 a0 k bs hist s (e : BlockExecutor) b id s' retain e' db a pool :
  lived (restart := restart) GH GA decode gd a_init sg s0 a0 bs hist (s, be_proxyApp e) (be_store e) -> within_limits s b -> BlockIDFromProto id = Ok id ->
  ApplyBlock s id b e = (Ok (s', retain), e') ->
  blocks_kept decode (be_blockStore e) (st_InitialHeight s0) k (bs ++ [(b, id)]) -> bs <> [] \/ st_InitialHeight s0 = 1 ->
  interrupted (restart := restart) s id b e s' db a ->
  exists h, started GH GA decode gd db (be_blockStore e) pool a h /\ be_proxyApp (hs_exec h) = be_proxyApp e' /\
    Load (be_store (hs_exec h)) = Ok (Some s') /\
    forall x, x ∈ (fst <$> hist) ++ [s; s'] -> answered (be_store (hs_exec h)) x.
Proof.
  intros (Hb & (d & d' & Hs) & Hl & Hk)%lived_life Hlim Hid Ha Hbl Hc Hint.
  destruct (recover GH GA decode gd a_init _ _ _ _ _ _ _ _ _ _ _ _ _ _ _ pool _ _ Hb Hs Hl Hk Hlim Hid Ha Hbl Hc Hint) as (h & Hst & Happ & _ & _ & Hk').
  exists h. split_and!; [done|done|by eapply (remembered_load _ _ s')|]. intros x Hx. eapply remembered_answers; [exact Hk'|].
  rewrite fmap_app. cbn. by rewrite <- app_assoc.
Qed.

(** C11: an application that was put back to any of its earlier commits, or to
    its genesis, catches up.  The handshake replays exactly the blocks it has not
    seen, from the block store, and leaves it as it was before; the state stays
    the one it was. *)
Theorem app_catches_up `{CryptoLib} `{TimeCodec} `{WrapperLib} `{VrfLib} `{EvidenceCodec} `{!VrfLaws} `{!Sha256Length}
    `{app : Application} `{conns : !AppConns app} restart `{!AppLaws app conns restart} `{MempoolLib} GH GA decode gd a_init
    sg s0 a0 bs hist now db blocks pool (j : nat) x :
  lived (restart := restart) GH GA decode gd a_init sg s0 a0 bs hist now db -> blocks_stored decode blocks (st_InitialHeight s0) bs ->
  (hist ++ [now]) !! j = Some x ->
  exists h, started GH GA decode gd db blocks pool (restart x.2) h /\ be_proxyApp (hs_exec h) = now.2 /\
    hs_nBlocks h = lenZ hist - Z.of_nat j /\ Load (be_store (hs_exec h)) = Ok (Some now.1).
Proof.
  intros (Hb & (d & d' & Hs) & Hl & Hk)%lived_life Hbl Hx.
  destruct (catch_up GH GA decode gd a_init _ _ _ _ _ _ _ _ pool _ _ _ _ Hb Hs Hl Hk Hbl Hx) as (h & Hst & Happ & Hn & Hk').
  exists h. split_and!; try done. by eapply remembered_load.
Qed.

(** ** Where the handshake fails *)

Section late.
  Context {crypto : CryptoLib} {codec : TimeCodec} {wrappers : WrapperLib} {vrf : VrfLib} {decoder : EvidenceCodec}.
  Context {app : Application} {conns : AppConns app}.

(** The store is more than one height above the state. *)
Lemma cases_far decode gd st hash ah lo h : 1 < lo <= int64_max -> st_InitialHeight st = lo -> ah = 0 \/ ah = lo ->
  (replay_cases decode gd st hash ah lo lo 0 ≫= fun _ => mret tt) h = (Panic, h).
Proof.
  intros Hlo Hih Hah. unfold replay_cases. rewrite Hih, (wrap64_id (lo - 1)) by (unfold_ints; lia). change (0 +i64 1) with 1.
  destruct Hah as [-> | ->]; zdecide; rewrite ?andb_false_r; done.
Qed.

End late.

(** A chain that starts above height 1 does not survive a crash in its first
    block.  The state of a chain without blocks has height 0, whatever the initial
    height; so when the first block is saved and its execution was interrupted, the
    block store is more than one height above the state, and every start of the
    node panics. *)
Theorem initial_height_crash `{CryptoLib} `{TimeCodec} `{WrapperLib} `{VrfLib} `{EvidenceCodec} `{!VrfLaws} `{!Sha256Length}
    `{app : Application} `{conns : !AppConns app} restart `{!AppLaws app conns restart} `{MempoolLib} GH GA decode gd a_init
    sg s0 a0 (e : BlockExecutor) b id s' retain e' db a pool :
  lived (restart := restart) GH GA decode gd a_init sg s0 a0 [] [] (s0, be_proxyApp e) (be_store e) -> within_limits s0 b -> BlockIDFromProto id = Ok id ->
  ApplyBlock s0 id b e = (Ok (s', retain), e') -> blocks_stored decode (be_blockStore e) (st_InitialHeight s0) [(b, id)] ->
  1 < st_InitialHeight s0 -> interrupted (restart := restart) s0 id b e s' db a -> Load db = Ok (Some s0) ->
  exists h, Handshake GH GA decode gd s0 (NewHandshaker db (NewBlockStore (bs_db (be_blockStore e))) pool a) = (Panic, h).
Proof.
  intros (Hb & (d & d' & Hs) & Hl & Hk)%lived_life Hlim Hid Ha Hbl Hlo Hint Hload. apply stored_kept, stored_has in Hbl. rewrite (hb_reopen _ _ _ _ _ Hbl).
  pose proof (hb_base _ _ _ _ _ Hbl ltac:(done)) as [Hbase _]. rewrite Z.add_0_r in Hbase. pose proof (hb_height _ _ _ _ _ Hbl) as Hheight. rewrite bool_decide_eq_false_2 in Hheight by done.
  replace (st_InitialHeight s0 + lenZ [(b, id)] - 1) with (st_InitialHeight s0) in Hheight by (unfold lenZ; cbn; lia).
  destruct (initial_pos _ _ _ _ Hk) as [_ Hmax]. unfold lenZ in Hmax. cbn in Hmax. pose proof (lf_start _ _ _ _ _ Hl) as Hz.
  destruct (interrupted_cases _ _ _ _ _ _ _ _ _ _ _ _ _ Hl Hk Hlim Hid Ha Hint) as (r & a1 & Hrun & _ & [[Hkd Hcase]|[Hkd _]]).
  - destruct Hcase as [->|[-> _]].
    + pose proof (app_left GH GA gd a_init _ _ _ _ _ _ 0%nat _ Hb Hl eq_refl) as Hleft. cbn [snd] in Hleft. rewrite Hleft.
      destruct (handshake_new GH GA decode gd a_init _ _ _ _ _ _ _ (be_blockStore e) pool _ _ Hb Hl Hkd Hs) as (db' & _ & Hrun'). cbn [fst] in Hrun'.
      eexists. rewrite Hrun', Hz, Hbase, Hheight. apply cases_far; [lia|done|by left].
    + destruct (run_committed _ _ _ _ _ _ _ _ Hrun) as (_ & _ & v & Hinfo). eexists.
      assert (Hh : h_Height (b_Header b) = st_InitialHeight s0).
      { rewrite (accepted_next _ _ _ (rm_ok _ _ _ _ Hk) (br_valid _ _ _ _ _ _ _ _ Hrun)). unfold next_height. cbn [fst]. by rewrite Hz. }
      rewrite (handshake_known GH GA decode gd s0 (NewHandshaker db (be_blockStore e) pool (be_proxyApp e')) _ _ _ Hinfo) by lia.
      rewrite Hz. cbn [Z.eqb hs_exec NewHandshaker be_blockStore]. rewrite Hbase, Hheight, Hh.
      apply cases_far; [lia|done|by right].
  - exfalso. apply remembered_load in Hkd. rewrite Hload in Hkd. injection Hkd as ->.
    destruct (ApplyBlock_Ok _ _ _ _ _ _ _ Ha) as [Hv _ (x & x' & en & updates & txs & s1 & hash & _ & _ & Hus & Heq) _].
    pose proof (updateState_follows _ _ _ _ _ _ _ hash (accepted_next _ _ _ (rm_ok _ _ _ _ Hk) Hv) Hus) as [Hf _ _]. cbn [fst] in *.
    rewrite <- Heq, Hz in Hf. unfold next_height in Hf. rewrite Hz in Hf. cbn in Hf. lia.
Qed.

(** The evidence of a block that is replayed is not marked as committed.  The
    handshake executes the block without the evidence pool; whatever was pending in
    it is pending after the recovery, although the state is past the block that has
    it, and the node proposes it again. *)
Theorem replay_forgets_evidence `{CryptoLib} `{TimeCodec} `{WrapperLib} `{VrfLib} `{EvidenceCodec} `{!VrfLaws} `{!Sha256Length}
    `{app : Application} `{conns : !AppConns app} restart `{!AppLaws app conns restart} `{MempoolLib} GH GA decode gd a_init
    sg s0 a0 k bs hist s (e : BlockExecutor) b id s' retain e' db a pool :
  lived (restart := restart) GH GA decode gd a_init sg s0 a0 bs hist (s, be_proxyApp e) (be_store e) -> within_limits s b -> BlockIDFromProto id = Ok id ->
  ApplyBlock s id b e = (Ok (s', retain), e') ->
  blocks_kept decode (be_blockStore e) (st_InitialHeight s0) k (bs ++ [(b, id)]) -> bs <> [] \/ st_InitialHeight s0 = 1 ->
  interrupted (restart := restart) s id b e s' db a ->
  exists h, started GH GA decode gd db (be_blockStore e) pool a h /\ Load (be_store (hs_exec h)) = Ok (Some s') /\ be_evpool (hs_exec h) = pool.
Proof.
  intros (Hb & (d & d' & Hs) & Hl & Hk)%lived_life Hlim Hid Ha Hbl Hc Hint.
  destruct (recover GH GA decode gd a_init _ _ _ _ _ _ _ _ _ _ _ _ _ _ _ pool _ _ Hb Hs Hl Hk Hlim Hid Ha Hbl Hc Hint) as (h & Hst & _ & Hp & _ & Hk').
  exists h. split_and!; [done|by eapply (remembered_load _ _ s')|done].
Qed.

(** A hash in the genesis document that the application does not repeat stops
    the node.  If the application answers [InitChain] with an empty hash, the state
    keeps the hash of the genesis document, as the comment in [ReplayBlocks] says;
    the check that follows compares the empty hash with it and panics, on the
    first start and on every later one. *)
Theorem genesis_hash_panics `{CryptoLib} `{TimeCodec} `{WrapperLib} `{VrfLib} `{EvidenceCodec} `{app : Application} `{conns : !AppConns app}
    GH GA decode gd sg a v hash req res a0 s0 db db' blocks pool :
  st_LastBlockHeight sg = 0 -> bs_height blocks = 0 -> st_AppHash sg <> [] ->
  InfoSync a = Ok (mkResponseInfo v 0 hash) -> init_request (E:=handshake_error) GA gd = Ok req -> InitChainSync req a = Ok (res, a0) ->
  ic_AppHash res = [] -> init_state GH gd res (with_Params sg (with_version (st_ConsensusParams sg) v)) = Ok s0 -> save s0 db = (Ok tt, db') ->
  st_AppHash s0 = st_AppHash sg /\
  exists h, Handshake GH GA decode gd sg (NewHandshaker db blocks pool a) = (Panic, h).
Proof.
  intros Hz Hbl Hne Hinfo Hreq Hinit Hnil Hst Hs.
  assert (Hsame : st_AppHash s0 = st_AppHash sg).
  { unfold init_state in Hst. rewrite Hnil in Hst. cbn in Hst. apply obind_Ok in Hst as (s1 & Hx & [= <-]). destruct (bool_decide (ic_Validators res <> [])).
    - apply obind_Ok in Hx as (? & _ & Hx). apply obind_Ok in Hx as (? & _ & Hx). apply obind_Ok in Hx as (? & _ & Hx).
      apply obind_Ok in Hx as (? & _ & [= <-]). by destruct (ic_ConsensusParams res).
    - destruct (bool_decide _); [done|]. injection Hx as <-. by destruct (ic_ConsensusParams res). }
  split; [done|]. exists (NewHandshaker db' blocks pool a0).
  unfold Handshake. rewrite (gbind_step gget _ _ _ _ eq_refl), (glift_step _ _ _ (mkResponseInfo v 0 hash)) by (cbn; by rewrite Hinfo).
  cbn [in_LastBlockHeight in_LastBlockAppHash in_AppVersion Z.ltb Z.compare]. rewrite Hz. cbn [Z.eqb]. cbv zeta. unfold ReplayBlocks. cbn [Z.eqb].
  set (st := with_Params sg _) in *.
  assert (Hrun : on_exec (init_chain GH GA gd st) (NewHandshaker db blocks pool a) = (Ok ([], s0), NewHandshaker db' blocks pool a0)).
  { unfold on_exec, init_chain. cbn [hs_exec NewHandshaker]. rewrite (glift_step _ _ _ _ Hreq).
    rewrite (gbind_step (call_InitChain _) _ _ res (@mkBlockExecutor app emptyMempool db blocks pool a0 tt))
      by (unfold call_InitChain; cbn [be_proxyApp]; by rewrite Hinit).
    change (st_LastBlockHeight st) with (st_LastBlockHeight sg). rewrite Hz. cbn [Z.eqb]. rewrite (glift_step _ _ _ _ Hst).
    rewrite (gbind_step (save_initial _) _ _ tt (@mkBlockExecutor app emptyMempool db' blocks pool a0 tt)) by (unfold save_initial; cbn [be_store]; by rewrite Hs).
    by rewrite Hnil. }
  unfold mbind, gom_bind, gget. rewrite Hrun. unfold replay_cases. cbn [hs_exec NewHandshaker be_blockStore]. rewrite Hbl. cbn [Z.eqb].
  unfold assertAppHashEqualsOneFromState. rewrite Hsame. by rewrite (proj2 (bytes_eqb_false _ _)) by congruence.
Qed.

(** ** A node of two blocks *)

(** An application that counts transactions: the height and the count of the last
    commit, and those it works on. *)
Definition ledger_app : Application := {|
  AppState := (Z * Z) * (Z * Z);
  BeginBlockSync _ a := Ok a;
  DeliverTxAsync _ '(c, (h, n)) := Ok (mkDeliverTx 0 [] [] [] 0 0 [], (c, (h, n + 1)));
  EndBlockSync height '(c, (h, n)) := Ok (mkEndBlock [] None, (c, (height, n)));
  CommitSync '(c, w) := Ok ([snd w], 0, (w, w))
|}.

Definition ledger_conns : AppConns ledger_app :=
  Build_AppConns ledger_app (fun a : (Z * Z) * (Z * Z) => Ok (mkResponseInfo 5 (fst (fst a)) [snd (fst a)]))
    (fun _ a => Ok (mkResponseInitChain None [] [], a)).

Definition ledger_restart (a : (Z * Z) * (Z * Z)) : (Z * Z) * (Z * Z) := (fst a, fst a).

Lemma ledger_laws : AppLaws ledger_app ledger_conns ledger_restart.
Proof.
  split.
  - by intros req a a' [= <-].
  - by intros tx [c [h n]] r a' [= <- <-].
  - by intros h' [c [h n]] r a' [= <- <-].
  - by intros req a res a' [= <- <-].
  - by intros [c w] hash retain a' [= <- <- <-].
  - intros h' [c [h n]] r a1 hash retain a2 [= <- <-] [= <- <- <-]. by exists 5.
Qed.

Section toy_node.
  #[local] Existing Instances toy_crypto toy_time toy_wrappers sized_vrf toy_decoder ledger_app ledger_conns toy_mempool.

Definition ledger_hash (gd : GenesisDoc) : bytes := replicate 32 0.
Definition ledger_doc : GenesisDoc := ok_or toy_genesis (ValidateAndComplete 100 toy_genesis).
Definition ledger0 : AppState := ((0, 0), (0, 0)).
Definition ledger_start : ChainState :=
  ok_or toy_start (init_state ledger_hash ledger_doc (mkResponseInitChain None [] []) (with_Params toy_start (with_version (st_ConsensusParams toy_start) 5))).
Definition ledger_block1 : Block := toy_block ledger_start (NewCommit 0 0 zero_BlockID []).
Definition ledger_exec0 : BlockExecutor := mkBlockExecutor (snd (save ledger_start empty_db)) (NewBlockStore empty_blocks) pool0 ledger0 tt.
Definition apply_ledger (s : ChainState) (b : Block) (e : BlockExecutor) : ChainState * BlockExecutor :=
  let '(r, e') := ApplyBlock s (toy_id b) b e in (match r with Ok (s', _) => s' | _ => s end, e').
Definition ledger_run1 : ChainState * BlockExecutor := apply_ledger ledger_start ledger_block1 ledger_exec0.
Definition ledger_block2 : Block := toy_block (fst ledger_run1) (toy_commit ledger_block1 named_entries).
Definition ledger_blocks1 : BlockStore := snd (run_call (SaveCall (toy_entry ledger_block1)) (NewBlockStore empty_blocks)).
Definition ledger_blocks : BlockStore := snd (run_call (SaveCall (toy_entry ledger_block2)) ledger_blocks1).

(** The first block was pruned when the second one is executed. *)
Definition ledger_pruned : BlockStore := snd (run_call (PruneCall 2) ledger_blocks).
Definition ledger_exec1 : BlockExecutor := with_blocks (snd ledger_run1) ledger_pruned.
Definition ledger_run2 : ChainState * BlockExecutor := apply_ledger (fst ledger_run1) ledger_block2 ledger_exec1.

Definition ledger_decode (bz : bytes) : option Block :=
  if bool_decide (Block_Marshal ledger_block1 = Some bz) then Some ledger_block1
  else if bool_decide (Block_Marshal ledger_block2 = Some bz) then Some ledger_block2 else None.

Lemma ledger_storable1 : exists bz c, BlockStoreProps.storable (toy_entry ledger_block1) bz c.
Proof.
  eexists _, (NewCommit 0 0 zero_BlockID []). constructor; try (vm_compute; reflexivity); try (by vm_compute).
  - split; [vm_compute; reflexivity|]. split; [eexists|]; vm_compute; reflexivity.
  - split; [eexists|]; vm_compute; reflexivity.
Qed.

Lemma ledger_storable2 : exists bz c, BlockStoreProps.storable (toy_entry ledger_block2) bz c.
Proof.
  eexists _, (toy_commit ledger_block1 named_entries). constructor; try (vm_compute; reflexivity); try (by vm_compute).
  - split; [vm_compute; reflexivity|]. split; [eexists|]; vm_compute; reflexivity.
  - split; [eexists|]; vm_compute; reflexivity.
Qed.

Lemma ledger_holds1 : holds ledger_blocks1 1 [toy_entry ledger_block1].
Proof.
  destruct (holds_save (laws := toy_sha256_length) _ _ _ (toy_entry ledger_block1) holds_empty) as (bs1 & H1 & Hb1).
  { split; [exact ledger_storable1|]. split; [done|]. apply not_elem_of_nil. }
  unfold ledger_blocks1. rewrite H1. exact Hb1.
Qed.

Lemma ledger_stored1 : blocks_stored ledger_decode ledger_blocks1 1 [(ledger_block1, toy_id ledger_block1)].
Proof.
  exists [toy_entry ledger_block1]. split; [exact ledger_holds1|]. apply Forall2_cons. split; [split_and!; vm_compute; reflexivity|done].
Qed.

Lemma ledger_holds : stores (Some (toy_entry ledger_block1)) ledger_blocks (1, [toy_entry ledger_block1; toy_entry ledger_block2]).
Proof.
  destruct (stores_calls (laws := toy_sha256_length) [SaveCall (toy_entry ledger_block1); SaveCall (toy_entry ledger_block2)] None _ _ stores_empty) as (bs2 & H2 & Hb2).
  - split; [split; [exact ledger_storable1|]; split; [done|]; apply not_elem_of_nil|]. split; [|done].
    split; [exact ledger_storable2|]. split; [intros _; by vm_compute|]. intros (x & Heq & Hx)%list_elem_of_fmap.
    apply list_elem_of_singleton in Hx. subst x. vm_compute in Heq. done.
  - assert (ledger_blocks = bs2) as ->; [|exact Hb2]. unfold ledger_blocks, ledger_blocks1. cbn [run_calls] in H2.
    destruct (run_call _ (NewBlockStore empty_blocks)) as [r1 b1]. cbn [snd]. destruct (run_call _ b1) as [r2 b2]. cbn [snd].
    apply (f_equal snd) in H2. exact H2.
Qed.

Lemma ledger_kept : blocks_kept ledger_decode ledger_pruned 1 1 [(ledger_block1, toy_id ledger_block1); (ledger_block2, toy_id ledger_block2)].
Proof.
  split; [right; cbn; lia|]. exists [toy_entry ledger_block2]. split.
  - destruct (stores_prune (laws := toy_sha256_length) _ _ _ _ 2 ledger_holds) as (bs3 & H3 & [Hb3 _]). unfold ledger_pruned. rewrite H3. exact Hb3.
  - apply Forall2_cons. split; [split_and!; vm_compute; reflexivity|done].
Qed.

Lemma ledger_begins : begins (restart := ledger_restart) ledger_hash (fun _ => []) ledger_doc ledger0 toy_start ledger_start ledger0.
Proof.
  assert (Hfr : fresh ledger_start /\ st_InitialHeight ledger_start = gd_InitialHeight ledger_doc).
  { eapply (init_fresh ledger_hash 100 toy_genesis ledger_doc toy_start (mkResponseInitChain None [] []) (with_version (st_ConsensusParams toy_start) 5));
      [exact toy_start_made|vm_compute; reflexivity|split; by vm_compute|vm_compute; reflexivity|done|by vm_compute|split; by vm_compute| |by vm_compute].
    vm_compute. repeat constructor; (eexists; split; reflexivity). }
  destruct Hfr as [Hfr Hih]. split; [done|by vm_compute| |done|done].
  eexists 5, [0], _, (mkResponseInitChain None [] []). split_and!; [done|vm_compute; reflexivity|done|vm_compute; reflexivity|by vm_compute].
Qed.

Lemma ledger_within s b : fits (updated_set s []) -> h_Height (b_Header b) + 2 <= int64_max -> within_limits s b.
Proof. intros Hf Hh. split; [done|]. by intros [c [h n]] end' a' updates [= <- _] [= <-]. Qed.

Lemma ledger_exec1_parts : be_proxyApp ledger_exec1 = be_proxyApp (snd ledger_run1) /\ be_store ledger_exec1 = be_store (snd ledger_run1).
Proof. vm_compute. split; reflexivity. Qed.

Lemma ledger_lived : lived (restart := ledger_restart) ledger_hash (fun _ => []) ledger_decode ledger_doc ledger0 toy_start ledger_start ledger0
  [(ledger_block1, toy_id ledger_block1)] [(ledger_start, ledger0)] (fst ledger_run1, be_proxyApp ledger_exec1) (be_store ledger_exec1).
Proof.
  destruct ledger_exec1_parts as [-> ->].
  refine (lived_block _ _ _ _ _ _ _ _ [] [] ledger_start ledger_exec0 ledger_block1 (toy_id ledger_block1) (fst ledger_run1) 0 (snd ledger_run1) _ _ _ _).
  - apply lived_start; [exact ledger_begins|by vm_compute].
  - apply ledger_within; [split; by vm_compute|by vm_compute].
  - by vm_compute.
  - by vm_compute.
Qed.

Lemma ledger_applied : ApplyBlock (fst ledger_run1) (toy_id ledger_block2) ledger_block2 ledger_exec1 = (Ok (fst ledger_run2, 0), snd ledger_run2).
Proof. by vm_compute. Qed.

(** The node stops after the application has committed the second block and
    before the state is saved. *)
Definition ledger_stopped : BlockExecutor :=
  snd (ApplyBlock_with pool_evidence (Some 2%nat) (fst ledger_run1) (toy_id ledger_block2) ledger_block2 ledger_exec1).

Lemma ledger_stops :
  ApplyBlock_with pool_evidence (Some 2%nat) (fst ledger_run1) (toy_id ledger_block2) ledger_block2 ledger_exec1 = (Panic, ledger_stopped).
Proof. by vm_compute. Qed.

Lemma ledger_limits : within_limits (fst ledger_run1) ledger_block2.
Proof. apply ledger_within; [split; by vm_compute|by vm_compute]. Qed.

Lemma crash_recovery_witness :
  exists h, started ledger_hash (fun _ => []) ledger_decode ledger_doc (be_store ledger_stopped) (be_blockStore ledger_exec1) pool0
      (ledger_restart (be_proxyApp ledger_stopped)) h /\
    be_proxyApp (hs_exec h) = be_proxyApp (snd ledger_run2) /\ Load (be_store (hs_exec h)) = Ok (Some (fst ledger_run2)).
Proof.
  destruct (@crash_recovery toy_crypto toy_time toy_wrappers sized_vrf toy_decoder sized_vrf_laws toy_sha256_length ledger_app ledger_conns ledger_restart ledger_laws
    toy_mempool ledger_hash (fun _ => []) ledger_decode ledger_doc ledger0 toy_start ledger_start ledger0 1%nat _ _ _ ledger_exec1 ledger_block2 (toy_id ledger_block2)
    (fst ledger_run2) 0 (snd ledger_run2) _ _ pool0 ledger_lived ledger_limits ltac:(by vm_compute)
    ledger_applied ledger_kept ltac:(by left) (stop_at _ _ _ _ _ 2%nat _ ltac:(lia) ledger_stops)) as (h & H1 & H2 & H3 & _).
  exact (ex_intro _ h (conj H1 (conj H2 H3))).
Defined.

(** The application was put back to its genesis. *)
Lemma app_catches_up_witness :
  exists h, started ledger_hash (fun _ => []) ledger_decode ledger_doc (be_store ledger_exec1) ledger_blocks1 pool0 ledger0 h /\
    be_proxyApp (hs_exec h) = be_proxyApp ledger_exec1 /\ hs_nBlocks h = 1.
Proof.
  destruct (@app_catches_up toy_crypto toy_time toy_wrappers sized_vrf toy_decoder sized_vrf_laws toy_sha256_length ledger_app ledger_conns ledger_restart ledger_laws
    toy_mempool ledger_hash (fun _ => []) ledger_decode ledger_doc ledger0 toy_start ledger_start ledger0 _ _ _ _ ledger_blocks1 pool0 0%nat _ ledger_lived ledger_stored1 eq_refl)
    as (h & H1 & H2 & H3 & _).
  exact (ex_intro _ h (conj H1 (conj H2 H3))).
Defined.

End toy_node.
