(* ===== verification/ConsensusMsgs.v ===== *)
(** * Messages of the consensus reactor and of its log

    - the messages of src/consensus/reactor.go with their [ValidateBasic];
    - their conversions of src/consensus/msgs.go;
    - the messages of the log of src/consensus/wal.go.

    A pointer in a message is an option.  The protobuf messages have the fields
    of the Go ones (see Block.v); what differs is written out: bit arrays, a vote
    that may be missing, the width of a step.  The generated marshaller is not
    part of this file. *)

From Stdlib Require Import ZArith Lia.
From stdpp Require Import prelude list.
From S2P Require Import Prelude SafeMath BitArray Crypto Proto Block Merkle PartSet Header BlockStore Consensus.

Local Open Scope Z_scope.

(** ** Messages *)

Record NewRoundStepMessage := mkNewRoundStep {
  nrs_Height : Z; nrs_Round : Z; nrs_Step : Z; nrs_SecondsSinceStartTime : Z; nrs_LastCommitRound : Z
}.

Record NewValidBlockMessage := mkNewValidBlock {
  nvb_Height : Z; nvb_Round : Z; nvb_BlockPartSetHeader : PartSetHeader; nvb_BlockParts : option BitArray; nvb_IsCommit : bool
}.

Record ProposalPOLMessage := mkProposalPOL {
  pol_Height : Z; pol_ProposalPOLRound : Z; pol_ProposalPOL : option BitArray
}.

Record HasVoteMessage := mkHasVote { hv_Height : Z; hv_Round : Z; hv_Type : Z; hv_Index : Z }.

Record VoteSetMaj23Message := mkVoteSetMaj23 { vsm_Height : Z; vsm_Round : Z; vsm_Type : Z; vsm_BlockID : BlockID }.

Record VoteSetBitsMessage := mkVoteSetBits {
  vsb_Height : Z; vsb_Round : Z; vsb_Type : Z; vsb_BlockID : BlockID; vsb_Votes : option BitArray
}.

Inductive ReactorMessage :=
| MNewRoundStep (m : NewRoundStepMessage)
| MNewValidBlock (m : NewValidBlockMessage)
| MProposal (p : option Proposal)
| MProposalPOL (m : ProposalPOLMessage)
| MBlockPart (height round : Z) (part : option Part)
| MVote (v : option Vote)
| MHasVote (m : HasVoteMessage)
| MVoteSetMaj23 (m : VoteSetMaj23Message)
| MVoteSetBits (m : VoteSetBitsMessage).

Inductive msg_error :=
| ErrMsgHeight | ErrMsgRound | ErrMsgStep | ErrMsgLastCommitRound | ErrMsgHeader (e : basic_error)
| ErrMsgEmptyParts | ErrMsgPartsSize | ErrMsgPartsTooBig | ErrMsgEmptyPOL | ErrMsgPOLTooBig | ErrMsgPart (e : part_error)
| ErrMsgType | ErrMsgIndex | ErrMsgBlockID (e : basic_error) | ErrMsgVotesTooBig | ErrMsgProposal (e : basic_error)
| ErrMsgVote (e : basic_error) | ErrMsgNil | ErrMsgNilPart | ErrMsgNilVote | ErrMsgUnknown | ErrMsgOverflow (e : math_error)
| ErrMsgInitialHeight.

Definition MaxVotesCount : Z := 10000.
Definition MaxBlockPartsCount : Z := 104857600 / 65536 + 1.

(** ** Validation *)

Section crypto.
  Context `{CryptoLib}.

Definition NewRoundStep_ValidateBasic (m : NewRoundStepMessage) : outcome msg_error unit :=
  if nrs_Height m <? 0 then Err ErrMsgHeight
  else if nrs_Round m <? 0 then Err ErrMsgRound
  else if negb (RoundStep_IsValid (nrs_Step m)) then Err ErrMsgStep
  else if nrs_LastCommitRound m <? -1 then Err ErrMsgLastCommitRound
  else Ok tt.

Definition ValidateHeight (m : NewRoundStepMessage) (initialHeight : Z) : outcome msg_error unit :=
  if nrs_Height m <? initialHeight then Err ErrMsgInitialHeight
  else if (nrs_Height m =? initialHeight) && negb (nrs_LastCommitRound m =? -1) then Err ErrMsgLastCommitRound
  else if (initialHeight <? nrs_Height m) && (nrs_LastCommitRound m <? 0) then Err ErrMsgLastCommitRound
  else Ok tt.

Definition NewValidBlock_ValidateBasic (m : NewValidBlockMessage) : outcome msg_error unit :=
  if nvb_Height m <? 0 then Err ErrMsgHeight
  else if nvb_Round m <? 0 then Err ErrMsgRound
  else
    _ ← lift_err ErrMsgHeader (PartSetHeader_ValidateBasic (nvb_BlockPartSetHeader m));
    if Size (nvb_BlockParts m) =? 0 then Err ErrMsgEmptyParts
    else if negb (Size (nvb_BlockParts m) =? Total (nvb_BlockPartSetHeader m)) then Err ErrMsgPartsSize
    else if MaxBlockPartsCount <? Size (nvb_BlockParts m) then Err ErrMsgPartsTooBig
    else Ok tt.

Definition ProposalPOL_ValidateBasic (m : ProposalPOLMessage) : outcome msg_error unit :=
  if pol_Height m <? 0 then Err ErrMsgHeight
  else if pol_ProposalPOLRound m <? 0 then Err ErrMsgRound
  else if Size (pol_ProposalPOL m) =? 0 then Err ErrMsgEmptyPOL
  else if MaxVotesCount <? Size (pol_ProposalPOL m) then Err ErrMsgPOLTooBig
  else Ok tt.

Definition BlockPart_ValidateBasic (height round : Z) (part : option Part) : outcome msg_error unit :=
  if height <? 0 then Err ErrMsgHeight
  else if round <? 0 then Err ErrMsgRound
  else match part with
       | None => Panic
       | Some part => lift_err ErrMsgPart (Part_ValidateBasic part)
       end.

Definition HasVote_ValidateBasic (m : HasVoteMessage) : outcome msg_error unit :=
  if hv_Height m <? 0 then Err ErrMsgHeight
  else if hv_Round m <? 0 then Err ErrMsgRound
  else if negb (IsVoteTypeValid (hv_Type m)) then Err ErrMsgType
  else if hv_Index m <? 0 then Err ErrMsgIndex
  else Ok tt.

Definition VoteSetMaj23_ValidateBasic (m : VoteSetMaj23Message) : outcome msg_error unit :=
  if vsm_Height m <? 0 then Err ErrMsgHeight
  else if vsm_Round m <? 0 then Err ErrMsgRound
  else if negb (IsVoteTypeValid (vsm_Type m)) then Err ErrMsgType
  else lift_err ErrMsgBlockID (BlockID_ValidateBasic (vsm_BlockID m)).

(** The round is not looked at. *)
Definition VoteSetBits_ValidateBasic (m : VoteSetBitsMessage) : outcome msg_error unit :=
  if vsb_Height m <? 0 then Err ErrMsgHeight
  else if negb (IsVoteTypeValid (vsb_Type m)) then Err ErrMsgType
  else
    _ ← lift_err ErrMsgBlockID (BlockID_ValidateBasic (vsb_BlockID m));
    if MaxVotesCount <? Size (vsb_Votes m) then Err ErrMsgVotesTooBig
    else Ok tt.

Definition ValidateBasic (msg : ReactorMessage) : outcome msg_error unit :=
  match msg with
  | MNewRoundStep m => NewRoundStep_ValidateBasic m
  | MNewValidBlock m => NewValidBlock_ValidateBasic m
  | MProposal p => match p with None => Panic | Some p => lift_err ErrMsgProposal (Proposal_ValidateBasic p) end
  | MProposalPOL m => ProposalPOL_ValidateBasic m
  | MBlockPart height round part => BlockPart_ValidateBasic height round part
  | MVote v => match v with None => Panic | Some v => lift_err ErrMsgVote (Vote_ValidateBasic v) end
  | MHasVote m => HasVote_ValidateBasic m
  | MVoteSetMaj23 m => VoteSetMaj23_ValidateBasic m
  | MVoteSetBits m => VoteSetBits_ValidateBasic m
  end.

(** ** Conversions

    The messages of the wire: [Sum] is one of these. *)

Inductive pbMessage :=
| PbNewRoundStep (m : NewRoundStepMessage)
| PbNewValidBlock (height round : Z) (header : PartSetHeader) (parts : option BitArrayProto) (isCommit : bool)
| PbProposal (p : Proposal)
| PbProposalPol (height round : Z) (pol : BitArrayProto)
| PbBlockPart (height round : Z) (part : Part)
| PbVote (v : option Vote)
| PbHasVote (m : HasVoteMessage)
| PbVoteSetMaj23 (m : VoteSetMaj23Message)
| PbVoteSetBits (height round typ : Z) (blockID : BlockID) (votes : BitArrayProto).

(** A nil proposal becomes an empty message. *)
Definition Proposal_ToProto (p : option Proposal) : Proposal := default (mkProposal 0 0 0 0 zero_BlockID 0 None) p.

Definition ProposalFromProto (pp : Proposal) : outcome basic_error Proposal :=
  _ ← BlockIDFromProto (p_BlockID pp); _ ← Proposal_ValidateBasic pp; Ok pp.

(** [new(bits.BitArray)] *)
Definition new_bits : BitArray := mkBitArray 0 [].

(** [*pbBits] of a nil pointer panics. *)
Definition MsgToProto (msg : option ReactorMessage) : outcome msg_error pbMessage :=
  match msg with
  | None => Err ErrMsgNil
  | Some (MNewRoundStep m) => Ok (PbNewRoundStep m)
  | Some (MNewValidBlock m) =>
      Ok (PbNewValidBlock (nvb_Height m) (nvb_Round m) (nvb_BlockPartSetHeader m) (ToProto (nvb_BlockParts m)) (nvb_IsCommit m))
  | Some (MProposal p) => Ok (PbProposal (Proposal_ToProto p))
  | Some (MProposalPOL m) =>
      match ToProto (pol_ProposalPOL m) with
      | None => Panic
      | Some pbBits => Ok (PbProposalPol (pol_Height m) (pol_ProposalPOLRound m) pbBits)
      end
  | Some (MBlockPart height round part) =>
      match part with None => Err ErrMsgNilPart | Some part => Ok (PbBlockPart height round part) end
  | Some (MVote v) => Ok (PbVote v)
  | Some (MHasVote m) => Ok (PbHasVote m)
  | Some (MVoteSetMaj23 m) => Ok (PbVoteSetMaj23 m)
  | Some (MVoteSetBits m) =>
      let bits := default (mkBitArrayProto 0 []) (ToProto (vsb_Votes m)) in
      Ok (PbVoteSetBits (vsb_Height m) (vsb_Round m) (vsb_Type m) (vsb_BlockID m) bits)
  end.

(** The switch of [MsgFromProto], on [msg.Sum]. *)
Definition convert (sum : option pbMessage) : outcome msg_error ReactorMessage :=
  match sum with
  | Some (PbNewRoundStep m) =>
      rs ← lift_err ErrMsgOverflow (SafeConvertUint8 (nrs_Step m));
      Ok (MNewRoundStep (mkNewRoundStep (nrs_Height m) (nrs_Round m) rs (nrs_SecondsSinceStartTime m) (nrs_LastCommitRound m)))
  | Some (PbNewValidBlock height round header parts isCommit) =>
      header ← lift_err ErrMsgHeader (PartSetHeaderFromProto header);
      Ok (MNewValidBlock (mkNewValidBlock height round header (Some (FromProto new_bits parts)) isCommit))
  | Some (PbProposal p) => p ← lift_err ErrMsgProposal (ProposalFromProto p); Ok (MProposal (Some p))
  | Some (PbProposalPol height round pol) =>
      Ok (MProposalPOL (mkProposalPOL height round (Some (FromProto new_bits (Some pol)))))
  | Some (PbBlockPart height round part) =>
      part ← lift_err ErrMsgPart (PartFromProto part); Ok (MBlockPart height round (Some part))
  | Some (PbVote v) =>
      match v with
      | None => Err ErrMsgNilVote
      | Some v => v ← lift_err ErrMsgVote (VoteFromProto v); Ok (MVote (Some v))
      end
  | Some (PbHasVote m) => Ok (MHasVote m)
  | Some (PbVoteSetMaj23 m) =>
      bi ← lift_err ErrMsgBlockID (BlockIDFromProto (vsm_BlockID m));
      Ok (MVoteSetMaj23 (mkVoteSetMaj23 (vsm_Height m) (vsm_Round m) (vsm_Type m) bi))
  | Some (PbVoteSetBits height round typ blockID votes) =>
      bi ← lift_err ErrMsgBlockID (BlockIDFromProto blockID);
      Ok (MVoteSetBits (mkVoteSetBits height round typ bi (Some (FromProto new_bits (Some votes)))))
  | None => Err ErrMsgUnknown
  end.

(** The outer option is the pointer, the inner one its [Sum]. *)
Definition MsgFromProto (msg : option (option pbMessage)) : outcome msg_error ReactorMessage :=
  match msg with
  | None => Err ErrMsgNil
  | Some sum => pb ← convert sum; _ ← ValidateBasic pb; Ok pb
  end.

(** ** Messages of the log

    [WOther] is a value of a type the log does not know. *)

Inductive WALMessage :=
| WEventDataRoundState (height round : Z) (step : bytes)
| WMsgInfo (msg : option ReactorMessage) (peerID : bytes)
| WTimeoutInfo (duration : Z) (ti : timeoutInfo)
| WEndHeight (height : Z)
| WOther.

Inductive pbWALMessage :=
| PbEventDataRoundState (height round : Z) (step : bytes)
| PbMsgInfo (msg : option pbMessage) (peerID : bytes)
| PbTimeoutInfo (duration height round step : Z)
| PbEndHeight (height : Z).

Inductive wal_msg_error := ErrWalMsg (e : msg_error) | ErrWalUnknown | ErrWalNil | ErrWalOverflow (e : math_error).

Definition WALToProto (msg : WALMessage) : outcome wal_msg_error pbWALMessage :=
  match msg with
  | WEventDataRoundState height round step => Ok (PbEventDataRoundState height round step)
  | WMsgInfo msg peerID => consMsg ← lift_err ErrWalMsg (MsgToProto msg); Ok (PbMsgInfo (Some consMsg) peerID)
  | WTimeoutInfo duration ti => Ok (PbTimeoutInfo duration (ti_Height ti) (ti_Round ti) (ti_Step ti))
  | WEndHeight height => Ok (PbEndHeight height)
  | WOther => Err ErrWalUnknown
  end.

(** The outer option is the pointer, the inner one its [Sum]. *)
Definition WALFromProto (msg : option (option pbWALMessage)) : outcome wal_msg_error WALMessage :=
  match msg with
  | None => Err ErrWalNil
  | Some (Some (PbEventDataRoundState height round step)) => Ok (WEventDataRoundState height round step)
  | Some (Some (PbMsgInfo msg peerID)) =>
      walMsg ← lift_err ErrWalMsg (MsgFromProto (Some msg)); Ok (WMsgInfo (Some walMsg) peerID)
  | Some (Some (PbTimeoutInfo duration height round step)) =>
      tis ← lift_err ErrWalOverflow (SafeConvertUint8 step); Ok (WTimeoutInfo duration (mkTimeoutInfo height round tis))
  | Some (Some (PbEndHeight height)) => Ok (WEndHeight height)
  | Some None => Err ErrWalUnknown
  end.

(** ** What arrives of a message *)

(** A nil array of votes arrives as an empty one. *)
Definition arrives (msg : ReactorMessage) : ReactorMessage :=
  match msg with
  | MVoteSetBits (mkVoteSetBits h r t b None) => MVoteSetBits (mkVoteSetBits h r t b (Some new_bits))
  | _ => msg
  end.

(** The bit arrays of a message are well-formed. *)
Definition bits_wf (msg : ReactorMessage) : Prop :=
  match msg with
  | MNewValidBlock m => forall b, nvb_BlockParts m = Some b -> wf b
  | MProposalPOL m => forall b, pol_ProposalPOL m = Some b -> wf b
  | MVoteSetBits m => forall b, vsb_Votes m = Some b -> wf b
  | _ => True
  end.

Lemma bits_roundtrip b : wf b -> exists p, ToProto (Some b) = Some p /\ FromProto new_bits (Some p) = b.
Proof.
  intros [H1 H2 _]. exists (mkBitArrayProto (Bits b) (Elems b)). unfold ToProto, FromProto, words in *. destruct b as [n [|e es]]; cbn in *.
  - assert (Hq : 1 <= Z.quot (n + 63) 64) by (apply (Z.quot_le_mono 64 (n + 63) 64); lia). lia.
  - done.
Qed.

Lemma header_from_proto h : PartSetHeader_ValidateBasic h = Ok tt -> PartSetHeaderFromProto h = Ok h.
Proof. intros Hh. unfold PartSetHeaderFromProto. by rewrite Hh. Qed.

Lemma block_id_from_proto b : BlockID_ValidateBasic b = Ok tt -> BlockIDFromProto b = Ok b.
Proof.
  intros Hb. pose proof Hb as (u & H1 & H2)%obind_Ok. unfold BlockIDFromProto. rewrite (header_from_proto _ H2). cbn.
  destruct b as [h ph]. cbn [bid_Hash bid_PartSetHeader]. by rewrite Hb.
Qed.

(** Conversion gives the message back. *)
Lemma convert_roundtrip m :
  ValidateBasic m = Ok tt -> bits_wf m -> exists pb, MsgToProto (Some m) = Ok pb /\ convert (Some pb) = Ok (arrives m).
Proof.
  destruct m as [m|m|p|m|h r part|v|m|m|m]; cbn [ValidateBasic bits_wf MsgToProto]; intros Hv Hb.
  - eexists. split; [done|]. cbn. unfold NewRoundStep_ValidateBasic, RoundStep_IsValid in Hv. zcase_in Hv; try done.
    unfold SafeConvertUint8. zdecide. cbn. by destruct m.
  - eexists. split; [done|]. cbn [convert]. unfold NewValidBlock_ValidateBasic in Hv. zcase_in Hv; try done.
    all: apply obind_Ok in Hv as ([] & Hh%lift_err_Ok & Hv); rewrite (header_from_proto _ Hh); cbn.
    all: destruct m as [h r hd [b|] c]; cbn in *; [|done].
    all: destruct (bits_roundtrip b (Hb b eq_refl)) as (p & Hp & Hf); unfold ToProto in Hp; rewrite Hp; by rewrite Hf.
  - destruct p as [p|]; [|done]. apply lift_err_Ok in Hv. eexists. split; [done|]. cbn [convert].
    change (Proposal_ToProto (Some p)) with p. unfold ProposalFromProto. assert (Hid : BlockID_ValidateBasic (p_BlockID p) = Ok tt).
    { unfold Proposal_ValidateBasic in Hv. zcase_in Hv; try done. all: apply obind_Ok in Hv as ([] & Hi & _); done. }
    rewrite (block_id_from_proto _ Hid). cbn. by rewrite Hv.
  - unfold ProposalPOL_ValidateBasic in Hv. destruct m as [h r [b|]]; cbn in Hv, Hb |- *; zcase_in Hv; try done.
    all: destruct (bits_roundtrip b (Hb b eq_refl)) as (p & Hp & Hf); unfold ToProto in Hp; rewrite Hp.
    all: eexists; split; [done|]; cbn; unfold FromProto in Hf; cbn in Hf; by rewrite Hf.
  - unfold BlockPart_ValidateBasic in Hv. destruct part as [part|]; zcase_in Hv; try done. all: eexists; split; [done|].
    all: apply lift_err_Ok in Hv; cbn; unfold PartFromProto; pose proof Hv as Hv'; unfold Part_ValidateBasic in Hv'.
    all: destruct (_ <? _); [done|]; destruct (Proof_ValidateBasic _); try done; cbn; by rewrite Hv.
  - destruct v as [v|]; [|done]. apply lift_err_Ok in Hv. eexists. split; [done|]. cbn. unfold VoteFromProto.
    assert (Hid : BlockID_ValidateBasic (v_BlockID v) = Ok tt).
    { unfold Vote_ValidateBasic in Hv. destruct (negb _); [done|]. zcase_in Hv; try done. all: apply obind_Ok in Hv as ([] & Hi & _); done. }
    rewrite (block_id_from_proto _ Hid). cbn. by rewrite Hv.
  - by eexists.
  - unfold VoteSetMaj23_ValidateBasic in Hv. destruct (IsVoteTypeValid _); cbn in Hv; zcase_in Hv; try done.
    all: apply lift_err_Ok in Hv; eexists; split; [done|]; cbn; rewrite (block_id_from_proto _ Hv); cbn; by destruct m.
  - unfold VoteSetBits_ValidateBasic in Hv. destruct (IsVoteTypeValid _); cbn in Hv; zcase_in Hv; try done.
    all: apply obind_Ok in Hv as ([] & Hid%lift_err_Ok & Hv); eexists; split; [done|]; cbn [convert].
    all: rewrite (block_id_from_proto _ Hid); cbn; destruct m as [h r t b [vs|]]; cbn in *; [|done].
    all: destruct (bits_roundtrip vs (Hb vs eq_refl)) as (p & Hp & Hf); unfold ToProto in Hp; rewrite Hp; cbn.
    all: unfold FromProto in Hf; cbn in Hf; by rewrite Hf.
Qed.

Lemma arrives_valid m : ValidateBasic m = Ok tt -> ValidateBasic (arrives m) = Ok tt.
Proof. by destruct m as [| | | | | | | |[h r t b [vs|]]]. Qed.

(** A valid message arrives as it was sent. *)
Theorem msg_roundtrip m :
  ValidateBasic m = Ok tt -> bits_wf m ->
  exists pb, MsgToProto (Some m) = Ok pb /\ MsgFromProto (Some (Some pb)) = Ok (arrives m).
Proof.
  intros Hv Hb. destruct (convert_roundtrip m Hv Hb) as (pb & H1 & H2). exists pb. split; [done|]. cbn [MsgFromProto]. rewrite H2. cbn.
  by rewrite (arrives_valid m Hv).
Qed.

(** What arrives is valid. *)
Lemma from_proto_valid sum m : MsgFromProto (Some sum) = Ok m -> ValidateBasic m = Ok tt.
Proof. cbn. intros (pb & _ & H')%obind_Ok. apply obind_Ok in H' as ([] & Hv & [= <-]). done. Qed.

(** *** Decoding does not panic *)

Lemma bind_calm {E A B} (m : outcome E A) (f : A -> outcome E B) : m <> Panic -> (forall a, m = Ok a -> f a <> Panic) -> m ≫= f <> Panic.
Proof. destruct m; cbn; auto. Qed.

Lemma lift_calm {E E' A} (f : E -> E') (o : outcome E A) : o <> Panic -> lift_err f o <> Panic.
Proof. by destruct o. Qed.

Ltac calm :=
  repeat first [simple apply bind_calm; [|intros ? ?] | simple apply lift_calm | match goal with |- (match ?x with _ => _ end) <> Panic => destruct x eqn:? end | done].

Lemma block_id_calm b : BlockID_ValidateBasic b <> Panic.
Proof. unfold BlockID_ValidateBasic, PartSetHeader_ValidateBasic, ValidateHash. calm. Qed.

Lemma block_id_proto_calm b : BlockIDFromProto b <> Panic.
Proof. unfold BlockIDFromProto, PartSetHeaderFromProto, PartSetHeader_ValidateBasic, ValidateHash. calm; apply block_id_calm. Qed.

Lemma vote_calm v : Vote_ValidateBasic v <> Panic.
Proof. unfold Vote_ValidateBasic. calm. apply block_id_calm. Qed.

Lemma proposal_calm p : Proposal_ValidateBasic p <> Panic.
Proof. unfold Proposal_ValidateBasic. calm. apply block_id_calm. Qed.

Lemma part_calm part : Part_ValidateBasic part <> Panic.
Proof. unfold Part_ValidateBasic, Proof_ValidateBasic. repeat case_match; done. Qed.

Lemma proof_calm pr : Proof_ValidateBasic pr <> Panic.
Proof. unfold Proof_ValidateBasic. calm. Qed.

(** A message is checked only once it has no nil pointer. *)
Lemma from_proto_calm sum : MsgFromProto (Some sum) <> Panic.
Proof.
  cbn. apply bind_calm.
  - unfold convert, SafeConvertUint8, PartSetHeaderFromProto, PartSetHeader_ValidateBasic, ValidateHash, ProposalFromProto, PartFromProto, VoteFromProto.
    calm; auto using block_id_proto_calm, vote_calm, proposal_calm, part_calm, proof_calm.
  - intros m Hm. apply bind_calm; [|done]. destruct m as [m|m|[p|]|m|h r [part|]|[v|]|m|m|m]; cbn [ValidateBasic];
      unfold NewRoundStep_ValidateBasic, NewValidBlock_ValidateBasic, PartSetHeader_ValidateBasic, ValidateHash, ProposalPOL_ValidateBasic,
        BlockPart_ValidateBasic, HasVote_ValidateBasic, VoteSetMaj23_ValidateBasic, VoteSetBits_ValidateBasic;
      try solve [calm; auto using block_id_calm, vote_calm, proposal_calm, part_calm].
    all: exfalso; destruct sum as [[]|]; cbn in Hm; try done; repeat (apply obind_Ok in Hm as (? & _ & Hm)); try done.
    all: destruct v; [|done]; by apply obind_Ok in Hm as (? & _ & Hm).
Qed.

End crypto.
