(* ===== verification/PeerState.v ===== *)
(** * What a node knows of a peer: [PeerState] of src/consensus/reactor.go

    [PeerRoundState] (src/consensus/types/peer_round_state.go) is the round a
    peer is in and, in bit arrays, the block parts and votes it has.  The code
    shares these arrays by pointers: the precommits of a round and the catch-up
    commit may be the same array, so a pointer is a location of a heap that is
    part of the state, and an array that comes with a message is put into it.
    Every method holds the mutex for its whole body and is one step; the round
    state a gossip routine copies holds the pointers, not the arrays.

    [VoteSetReader] is the interface of that name (src/types/vote_set.go), which
    vote sets and commits implement. *)

From Stdlib Require Import ZArith Lia.
From stdpp Require Import prelude list.
From S2P Require Import Prelude BitArray Crypto Proto Block VoterSet VoteSet PartSet Consensus ConsensusMsgs.

Local Open Scope Z_scope.
Local Open Scope go_scope.

(** ** State *)

Abbreviation loc := nat.

Record PeerRoundState := mkPRS {
  prs_Height : Z;
  prs_Round : Z;
  prs_Step : Z;
  prs_StartTime : Time;
  prs_Proposal : bool;
  prs_ProposalBlockPartSetHeader : PartSetHeader;
  prs_ProposalBlockParts : option loc;
  prs_ProposalPOLRound : Z;
  prs_ProposalPOL : option loc;
  prs_Prevotes : option loc;
  prs_Precommits : option loc;
  prs_LastCommitRound : Z;
  prs_LastCommit : option loc;
  prs_CatchupCommitRound : Z;
  prs_CatchupCommit : option loc
}.

(** The arrays the pointers lead to, the statistics, and the messages that were
    handed to the connection of the peer, newest first. *)
Record PeerState := mkPeerState {
  PRS : PeerRoundState;
  ps_heap : list BitArray;
  ps_Votes : Z;
  ps_BlockParts : Z;
  ps_sent : list ReactorMessage
}.

Definition NewPeerState : PeerState :=
  mkPeerState (mkPRS 0 (-1) 0 0 false zero_header None (-1) None None None (-1) None (-1) None) [] 0 0 [].

Definition PsM (A : Type) : Type := GoM PeerState msg_error A.

(** *** Assignments to fields *)

Definition set_PRS (prs : PeerRoundState) : PsM unit :=
  gmodify (fun ps => mkPeerState prs (ps_heap ps) (ps_Votes ps) (ps_BlockParts ps) (ps_sent ps)).

Definition prs_get : PsM PeerRoundState := ps ← gget; mret (PRS ps).

Definition put_step (p : PeerRoundState) (height round step : Z) (start : Time) : PeerRoundState :=
  mkPRS height round step start (prs_Proposal p) (prs_ProposalBlockPartSetHeader p) (prs_ProposalBlockParts p)
    (prs_ProposalPOLRound p) (prs_ProposalPOL p) (prs_Prevotes p) (prs_Precommits p) (prs_LastCommitRound p) (prs_LastCommit p)
    (prs_CatchupCommitRound p) (prs_CatchupCommit p).

Definition put_proposal (p : PeerRoundState) (has : bool) : PeerRoundState :=
  mkPRS (prs_Height p) (prs_Round p) (prs_Step p) (prs_StartTime p) has (prs_ProposalBlockPartSetHeader p) (prs_ProposalBlockParts p)
    (prs_ProposalPOLRound p) (prs_ProposalPOL p) (prs_Prevotes p) (prs_Precommits p) (prs_LastCommitRound p) (prs_LastCommit p)
    (prs_CatchupCommitRound p) (prs_CatchupCommit p).

Definition put_parts (p : PeerRoundState) (header : PartSetHeader) (parts : option loc) : PeerRoundState :=
  mkPRS (prs_Height p) (prs_Round p) (prs_Step p) (prs_StartTime p) (prs_Proposal p) header parts
    (prs_ProposalPOLRound p) (prs_ProposalPOL p) (prs_Prevotes p) (prs_Precommits p) (prs_LastCommitRound p) (prs_LastCommit p)
    (prs_CatchupCommitRound p) (prs_CatchupCommit p).

Definition put_pol (p : PeerRoundState) (round : Z) (pol : option loc) : PeerRoundState :=
  mkPRS (prs_Height p) (prs_Round p) (prs_Step p) (prs_StartTime p) (prs_Proposal p) (prs_ProposalBlockPartSetHeader p)
    (prs_ProposalBlockParts p) round pol (prs_Prevotes p) (prs_Precommits p) (prs_LastCommitRound p) (prs_LastCommit p)
    (prs_CatchupCommitRound p) (prs_CatchupCommit p).

Definition put_votes (p : PeerRoundState) (prevotes precommits : option loc) : PeerRoundState :=
  mkPRS (prs_Height p) (prs_Round p) (prs_Step p) (prs_StartTime p) (prs_Proposal p) (prs_ProposalBlockPartSetHeader p)
    (prs_ProposalBlockParts p) (prs_ProposalPOLRound p) (prs_ProposalPOL p) prevotes precommits (prs_LastCommitRound p)
    (prs_LastCommit p) (prs_CatchupCommitRound p) (prs_CatchupCommit p).

Definition put_last (p : PeerRoundState) (round : Z) (commit : option loc) : PeerRoundState :=
  mkPRS (prs_Height p) (prs_Round p) (prs_Step p) (prs_StartTime p) (prs_Proposal p) (prs_ProposalBlockPartSetHeader p)
    (prs_ProposalBlockParts p) (prs_ProposalPOLRound p) (prs_ProposalPOL p) (prs_Prevotes p) (prs_Precommits p) round commit
    (prs_CatchupCommitRound p) (prs_CatchupCommit p).

Definition put_catchup (p : PeerRoundState) (round : Z) (commit : option loc) : PeerRoundState :=
  mkPRS (prs_Height p) (prs_Round p) (prs_Step p) (prs_StartTime p) (prs_Proposal p) (prs_ProposalBlockPartSetHeader p)
    (prs_ProposalBlockParts p) (prs_ProposalPOLRound p) (prs_ProposalPOL p) (prs_Prevotes p) (prs_Precommits p)
    (prs_LastCommitRound p) (prs_LastCommit p) round commit.

(** *** The heap *)

Definition set_heap (h : list BitArray) : PsM unit :=
  gmodify (fun ps => mkPeerState (PRS ps) h (ps_Votes ps) (ps_BlockParts ps) (ps_sent ps)).

(** A new array has a new location; a nil one has none. *)
Definition alloc (b : option BitArray) : PsM (option loc) :=
  ps ← gget;
  match b with
  | None => mret None
  | Some b => set_heap (ps_heap ps ++ [b]);; mret (Some (length (ps_heap ps)))
  end.

Definition load (l : loc) : PsM BitArray :=
  ps ← gget; match ps_heap ps !! l with Some b => mret b | None => gpanic end.

Definition store (l : loc) (b : BitArray) : PsM unit := ps ← gget; set_heap (<[l := b]> (ps_heap ps)).

(** [bA.SetIndex(i, true)]; a nil receiver is left alone. *)
Definition set_true (l : option loc) (i : Z) : PsM unit :=
  match l with
  | None => mret tt
  | Some l => b ← load l; '(_, b) ← glift (setIndex b i true); store l b
  end.

(** ** Readers of votes *)

Record VoteSetReader := mkReader {
  vr_GetHeight : Z;
  vr_GetRound : Z;
  vr_Type : Z;
  vr_Size : Z;
  vr_BitArray : outcome msg_error (option BitArray);
  vr_GetByIndex : Z -> outcome msg_error (option Vote);
  vr_IsCommit : bool
}.

(** A vote set, or a nil pointer to one. *)
Definition vote_set_reader (s : option VoteSet) : VoteSetReader :=
  match s with
  | None => mkReader 0 (-1) 0 0 (Ok None) (fun _ => Ok None) false
  | Some s => mkReader (vs_height s) (vs_round s) (vs_signedMsgType s) (Voters_Size (vs_voterSet s)) (Ok (VoteSet_BitArray s))
                (VoteSet_GetByIndex s) (VoteSet_IsCommit s)
  end.

Definition commit_reader (c : Commit) : VoteSetReader :=
  mkReader (c_Height c) (c_Round c) PrecommitType (Commit_Size (Some c)) (Commit_BitArray c)
    (fun i => v ← GetVote c i; Ok (Some v)) (IsCommit c).

(** ** Proposals and block parts *)

Definition SetHasProposal (proposal : Proposal) : PsM unit :=
  p ← prs_get;
  if negb (prs_Height p =? p_Height proposal) || negb (prs_Round p =? p_Round proposal) then mret tt
  else if prs_Proposal p then mret tt
  else
    let p := put_proposal p true in
    match prs_ProposalBlockParts p with
    | Some _ => set_PRS p
    | None =>
        let header := bid_PartSetHeader (p_BlockID proposal) in
        parts ← alloc (NewBitArray (Total header));
        set_PRS (put_pol (put_parts p header parts) (p_POLRound proposal) None)
    end.

Definition InitProposalBlockParts (partSetHeader : PartSetHeader) : PsM unit :=
  p ← prs_get;
  match prs_ProposalBlockParts p with
  | Some _ => mret tt
  | None => parts ← alloc (NewBitArray (Total partSetHeader)); set_PRS (put_parts p partSetHeader parts)
  end.

Definition SetHasProposalBlockPart (height round index : Z) : PsM unit :=
  p ← prs_get;
  if negb (prs_Height p =? height) || negb (prs_Round p =? round) then mret tt
  else set_true (prs_ProposalBlockParts p) index.

(** ** Votes *)

Definition getVoteBitArray (p : PeerRoundState) (height round votesType : Z) : option loc :=
  if negb (IsVoteTypeValid votesType) then None
  else if prs_Height p =? height then
    if prs_Round p =? round then if votesType =? PrevoteType then prs_Prevotes p else prs_Precommits p
    else if prs_CatchupCommitRound p =? round then if votesType =? PrevoteType then None else prs_CatchupCommit p
    else if prs_ProposalPOLRound p =? round then if votesType =? PrevoteType then prs_ProposalPOL p else None
    else None
  else if prs_Height p =? height +i64 1 then
    if prs_LastCommitRound p =? round then if votesType =? PrevoteType then None else prs_LastCommit p
    else None
  else None.

(** The catch-up commit of the round the peer is in shares its precommits. *)
Definition ensureCatchupCommitRound (height round numVoters : Z) : PsM unit :=
  p ← prs_get;
  if negb (prs_Height p =? height) then mret tt
  else if prs_CatchupCommitRound p =? round then mret tt
  else if round =? prs_Round p then set_PRS (put_catchup p round (prs_Precommits p))
  else commit ← alloc (NewBitArray numVoters); set_PRS (put_catchup p round commit).

(** [if x == nil { x = bits.NewBitArray(numVoters) }] *)
Definition ensure (l : option loc) (numVoters : Z) : PsM (option loc) :=
  match l with Some _ => mret l | None => alloc (NewBitArray numVoters) end.

Definition ensureVoteBitArrays (height numVoters : Z) : PsM unit :=
  p ← prs_get;
  if prs_Height p =? height then
    prevotes ← ensure (prs_Prevotes p) numVoters;
    precommits ← ensure (prs_Precommits p) numVoters;
    catchup ← ensure (prs_CatchupCommit p) numVoters;
    pol ← ensure (prs_ProposalPOL p) numVoters;
    set_PRS (put_pol (put_catchup (put_votes p prevotes precommits) (prs_CatchupCommitRound p) catchup) (prs_ProposalPOLRound p) pol)
  else if prs_Height p =? height +i64 1 then
    commit ← ensure (prs_LastCommit p) numVoters;
    set_PRS (put_last p (prs_LastCommitRound p) commit)
  else mret tt.

Definition EnsureVoteBitArrays (height numVoters : Z) : PsM unit := ensureVoteBitArrays height numVoters.

Definition setHasVote (height round voteType index : Z) : PsM unit :=
  p ← prs_get; set_true (getVoteBitArray p height round voteType) index.

Definition SetHasVote (vote : Vote) : PsM unit :=
  setHasVote (v_Height vote) (v_Round vote) (v_Type vote) (v_ValidatorIndex vote).

(** [intn] is the random source of [PickRandom]. *)
Definition PickVoteToSend (intn : Z -> Z) (votes : VoteSetReader) : PsM (option Vote * bool) :=
  if vr_Size votes =? 0 then mret (None, false)
  else
    let height := vr_GetHeight votes in
    let round := vr_GetRound votes in
    (if vr_IsCommit votes then ensureCatchupCommitRound height round (vr_Size votes) else mret tt);;
    ensureVoteBitArrays height (vr_Size votes);;
    p ← prs_get;
    match getVoteBitArray p height round (vr_Type votes) with
    | None => mret (None, false)
    | Some l =>
        psVotes ← load l;
        bits ← glift (vr_BitArray votes);
        missing ← glift (Sub bits (Some psVotes));
        '(index, ok) ← glift (PickRandom intn missing);
        if ok : bool then vote ← glift (vr_GetByIndex votes (wrap32 index)); mret (vote, true) else mret (None, false)
    end.

(** [peer.Send]: the message is accepted or not. *)
Definition Send (accepted : bool) (msg : ReactorMessage) : PsM bool :=
  (if accepted then gmodify (fun ps => mkPeerState (PRS ps) (ps_heap ps) (ps_Votes ps) (ps_BlockParts ps) (msg :: ps_sent ps))
   else mret tt);;
  mret accepted.

Section send.
  Context {codec : TimeCodec}.

(** The generated [Marshal] fails only on a time it cannot write. *)
Definition marshals (pb : pbMessage) : bool :=
  match pb with
  | PbProposal p => bool_decide (is_Some (StdTimeMarshal (p_Timestamp p)))
  | PbVote (Some v) => bool_decide (is_Some (StdTimeMarshal (v_Timestamp v)))
  | _ => true
  end.

(** [MustEncode] panics on a message that does not convert or marshal. *)
Definition MustEncode (msg : ReactorMessage) : PsM unit :=
  match MsgToProto (Some msg) with
  | Ok pb => if marshals pb then mret tt else gpanic
  | _ => gpanic
  end.

Definition PickSendVote (intn : Z -> Z) (accepted : bool) (votes : VoteSetReader) : PsM bool :=
  '(vote, ok) ← PickVoteToSend intn votes;
  if ok : bool then
    MustEncode (MVote vote);;
    sent ← Send accepted (MVote vote);
    if sent : bool then match vote with None => gpanic | Some vote => SetHasVote vote;; mret true end
    else mret false
  else mret false.

End send.

(** ** Statistics *)

Definition RecordVote : PsM Z :=
  ps ← gget;
  gput (mkPeerState (PRS ps) (ps_heap ps) (ps_Votes ps +i64 1) (ps_BlockParts ps) (ps_sent ps));; mret (ps_Votes ps +i64 1).

Definition RecordBlockPart : PsM Z :=
  ps ← gget;
  gput (mkPeerState (PRS ps) (ps_heap ps) (ps_Votes ps) (ps_BlockParts ps +i64 1) (ps_sent ps));; mret (ps_BlockParts ps +i64 1).

(** ** Messages of the peer *)

Definition ApplyNewRoundStepMessage (now : Time) (msg : NewRoundStepMessage) : PsM unit :=
  p ← prs_get;
  if CompareHRS (nrs_Height msg) (nrs_Round msg) (nrs_Step msg) (prs_Height p) (prs_Round p) (prs_Step p) <=? 0 then mret tt
  else
    let psHeight := prs_Height p in
    let psRound := prs_Round p in
    let psCatchupCommitRound := prs_CatchupCommitRound p in
    let psCatchupCommit := prs_CatchupCommit p in
    let startTime := now + ((-1) *i64 nrs_SecondsSinceStartTime msg) *i64 1000000000 in
    let p := put_step p (nrs_Height msg) (nrs_Round msg) (nrs_Step msg) startTime in
    let p := if negb (psHeight =? nrs_Height msg) || negb (psRound =? nrs_Round msg)
             then put_votes (put_pol (put_parts (put_proposal p false) zero_header None) (-1) None) None None else p in
    let p := if (psHeight =? nrs_Height msg) && negb (psRound =? nrs_Round msg) && (nrs_Round msg =? psCatchupCommitRound)
             then put_votes p (prs_Prevotes p) psCatchupCommit else p in
    let p := if negb (psHeight =? nrs_Height msg) then
               let p := if (psHeight +i64 1 =? nrs_Height msg) && (psRound =? nrs_LastCommitRound msg)
                        then put_last p (nrs_LastCommitRound msg) (prs_Precommits p)
                        else put_last p (nrs_LastCommitRound msg) None in
               put_catchup p (-1) None
             else p in
    set_PRS p.

Definition ApplyNewValidBlockMessage (msg : NewValidBlockMessage) : PsM unit :=
  p ← prs_get;
  if negb (prs_Height p =? nvb_Height msg) then mret tt
  else if negb (prs_Round p =? nvb_Round msg) && negb (nvb_IsCommit msg) then mret tt
  else parts ← alloc (nvb_BlockParts msg); set_PRS (put_parts p (nvb_BlockPartSetHeader msg) parts).

Definition ApplyProposalPOLMessage (msg : ProposalPOLMessage) : PsM unit :=
  p ← prs_get;
  if negb (prs_Height p =? pol_Height msg) then mret tt
  else if negb (prs_ProposalPOLRound p =? pol_ProposalPOLRound msg) then mret tt
  else pol ← alloc (pol_ProposalPOL msg); set_PRS (put_pol p (prs_ProposalPOLRound p) pol).

Definition ApplyHasVoteMessage (msg : HasVoteMessage) : PsM unit :=
  p ← prs_get;
  if negb (prs_Height p =? hv_Height msg) then mret tt
  else setHasVote (hv_Height msg) (hv_Round msg) (hv_Type msg) (hv_Index msg).

Definition ApplyVoteSetBitsMessage (msg : VoteSetBitsMessage) (ourVotes : option BitArray) : PsM unit :=
  p ← prs_get;
  match getVoteBitArray p (vsb_Height msg) (vsb_Round msg) (vsb_Type msg) with
  | None => mret tt
  | Some l =>
      votes ← load l;
      match ourVotes with
      | None => match Update (Some votes) (vsb_Votes msg) with Some b => store l b | None => mret tt end
      | Some _ =>
          otherVotes ← glift (Sub (Some votes) ourVotes);
          hasVotes ← glift (Or otherVotes (vsb_Votes msg));
          match Update (Some votes) hasVotes with Some b => store l b | None => mret tt end
      end
  end.
