(* ===== verification/PeerStateProps.v ===== *)
(** * The state of a peer is safe to use

    [ps_ok]: every pointer of the round state leads to a well-formed bit array.
    Every method keeps this and returns, given well-formed arrays in messages and
    readers that answer for the votes they announce ([reader_ok]); and the votes
    of a reader reach the peer, each once. *)

From Stdlib Require Import ZArith Lia.
From stdpp Require Import prelude list gmap.
From S2P Require Import Prelude BitArray Crypto Validator ValidatorSet Proto Block VoterSet VerifyCommit Slots VoteSet VoteSetInv PartSet Consensus ConsensusMsgs PeerState.

Local Open Scope Z_scope.

(** ** Bit arrays whose size is not known to fit *)

Definition words64 (b : BitArray) : Prop := Forall uint64 (Elems b).

Lemma wf_words64 b : wf b -> words64 b.
Proof. by intros [_ _ H]. Qed.

(** [combine_upto] as the operations use it: the first operand has the words of
    its size. *)
Lemma combine_any {E} f n a b m :
  wf a -> words64 b -> 0 < m -> (n <= words m)%nat -> (n <= length (Elems b))%nat ->
  (forall x y, uint64 x -> uint64 y -> uint64 (f x y)) ->
  exists c, combine_upto (E:=E) f n (Elems (copyBits a m)) (Elems b) = Ok (Elems c) /\ wf c /\ Bits c = m /\
    forall k, word c k = if bool_decide (k < n)%nat then f (word (copyBits a m) k) (word b k) else word (copyBits a m) k.
Proof.
  intros Ha Hb Hm H1 H2 Hf. pose proof (copyBits_wf a m Ha Hm) as Hc.
  destruct (combine_upto_spec (E:=E) f n (Elems (copyBits a m)) (Elems b)) as (r & Hr & Hl & Hk & Hu);
    [by rewrite (wf_len _ Hc)|done|].
  exists (mkBitArray m r). split_and!; [done| |done|done].
  constructor; cbn [Bits Elems]; [done|rewrite Hl; apply Hc|]. by apply Hu; [apply Hc| |].
Qed.

Lemma sub_any {E} a b :
  wf a -> words64 b -> exists c, Sub (E:=E) (Some a) (Some b) = Ok (Some c) /\ wf c /\ Bits c = Bits a /\
    forall k, word c k = Z.ldiff (word a k) (word b k).
Proof.
  intros Ha Hb. pose proof (wf_bits _ Ha). pose proof (wf_len _ Ha) as Hl.
  destruct (combine_any (E:=E) Z.ldiff (Nat.min (length (Elems a)) (length (Elems b))) a b (Bits a)) as (c & Hc & Hw & HB & Hk);
    [done|done|done|lia|lia|intros; by apply uint64_ldiff|].
  exists c. unfold Sub. rewrite Hc. cbn [mbind outcome_bind copyBits Bits]. rewrite <- HB. split_and!; [by destruct c|done|done|].
  intros k. rewrite Hk, copyBits_word. repeat case_bool_decide; try lia; try done.
  - unfold word at 3. rewrite (lookup_ge_None_2 (Elems b)) by lia. by rewrite Z.ldiff_0_r.
  - rewrite (word_len a) by (done || lia). by rewrite Z.ldiff_0_l.
Qed.

Lemma or_any {E} a b : wf a -> words64 b -> exists c, Or (E:=E) (Some a) (Some b) = Ok (Some c) /\ wf c.
Proof.
  intros Ha Hb. pose proof (wf_bits _ Ha). pose proof (wf_len _ Ha) as Hl.
  pose proof (words_mono (Bits a) (Z.max (Bits a) (Bits b)) ltac:(lia) ltac:(lia)).
  destruct (combine_any (E:=E) Z.lor (Nat.min (length (Elems a)) (length (Elems b))) a b (Z.max (Bits a) (Bits b)))
    as (c & Hc & Hw & HB & _); [done|done|lia|lia|lia|intros; by apply uint64_lor|].
  exists c. unfold Or. rewrite Hc. cbn [mbind outcome_bind copyBits Bits]. rewrite <- HB. split; [by destruct c|done].
Qed.

Lemma update_wf a b : wf a -> words64 b -> exists c, Update (Some a) (Some b) = Some c /\ wf c.
Proof.
  intros Ha Hb. eexists. split; [done|]. constructor; cbn; [apply Ha| |].
  - unfold go_copy. rewrite length_app, length_take, length_drop, <- (wf_len _ Ha). lia.
  - apply Forall_app. split; [by apply Forall_take|apply Forall_drop, Ha].
Qed.

(** Setting a bit past the end does nothing. *)
Lemma set_any {E} b i v : wf b -> 0 <= i -> exists r b', setIndex (E:=E) b i v = Ok (r, b') /\ wf b' /\ Bits b' = Bits b.
Proof.
  intros Hb Hi. destruct (decide (i < Bits b)) as [Hlt|Hge].
  - destruct (setIndex_spec (E:=E) b i v Hb) as (b' & Hs & Hw & HB & _); [lia|]. by exists true, b'.
  - exists false, b. unfold setIndex. zdecide. done.
Qed.

(** ** The invariant *)

Definition pointers (p : PeerRoundState) : list (option loc) :=
  [prs_ProposalBlockParts p; prs_ProposalPOL p; prs_Prevotes p; prs_Precommits p; prs_LastCommit p; prs_CatchupCommit p].

Definition ptr_in (n : nat) (l : option loc) : Prop := match l with None => True | Some x => (x < n)%nat end.

Definition prs_in (n : nat) (p : PeerRoundState) : Prop := Forall (ptr_in n) (pointers p).

Record ps_ok (ps : PeerState) : Prop := {
  po_heap : Forall wf (ps_heap ps);
  po_prs : prs_in (length (ps_heap ps)) (PRS ps)
}.

Lemma ptr_in_mono n n' l : (n <= n')%nat -> ptr_in n l -> ptr_in n' l.
Proof. destruct l; cbn; lia. Qed.

Lemma prs_in_mono n n' p : (n <= n')%nat -> prs_in n p -> prs_in n' p.
Proof. intros Hn Hp. eapply Forall_impl; [exact Hp|]. intros l. by apply ptr_in_mono. Qed.

Lemma new_peer_ok : ps_ok NewPeerState.
Proof. constructor; [by constructor|]. by repeat constructor. Qed.

(** A computation returns, keeps the invariant and gives [Q]; pointers stay
    good because the heap only grows. *)
Definition runs {A} (m : PsM A) (Q : A -> PeerState -> Prop) (ps : PeerState) : Prop :=
  exists a ps', m ps = (Ok a, ps') /\ ps_ok ps' /\ (length (ps_heap ps) <= length (ps_heap ps'))%nat /\ Q a ps'.

Definition returns {A} (m : PsM A) : Prop := forall ps, ps_ok ps -> runs m (fun _ _ => True) ps.

Lemma runs_bind {A B} (m : PsM A) (f : A -> PsM B) Q R ps :
  runs m Q ps ->
  (forall a ps', ps_ok ps' -> (length (ps_heap ps) <= length (ps_heap ps'))%nat -> Q a ps' -> runs (f a) R ps') ->
  runs (m ≫= f) R ps.
Proof.
  intros (a & ps1 & Hm & Hok & Hl & HQ) Hf. destruct (Hf a ps1 Hok Hl HQ) as (b & ps2 & H2 & Hok2 & Hl2 & HR).
  exists b, ps2. split_and!; [|done|lia|done]. etrans; [by apply gbind_step|done].
Qed.

Lemma runs_ret {A} (a : A) (Q : A -> PeerState -> Prop) ps : ps_ok ps -> Q a ps -> runs (mret a) Q ps.
Proof. intros Hok HQ. by exists a, ps. Qed.

Lemma runs_mono {A} (m : PsM A) (Q R : A -> PeerState -> Prop) ps :
  (forall a ps', Q a ps' -> R a ps') -> runs m Q ps -> runs m R ps.
Proof. intros HQ (a & ps1 & Hm & Hok & Hl & H). exists a, ps1. by split_and!; auto. Qed.

(** A step whose result is known is taken. *)
Lemma runs_step {A B} (m : PsM A) (f : A -> PsM B) a R ps :
  m ps = (Ok a, ps) -> runs (f a) R ps -> runs (m ≫= f) R ps.
Proof. intros Hm (b & ps2 & H2 & Hr). exists b, ps2. split; [|done]. by etrans; [apply gbind_step|]. Qed.

Lemma runs_get {B} (f : PeerRoundState -> PsM B) R ps : runs (f (PRS ps)) R ps -> runs (prs_get ≫= f) R ps.
Proof. by apply runs_step. Qed.

Lemma runs_set_PRS p ps : ps_ok ps -> prs_in (length (ps_heap ps)) p -> runs (set_PRS p) (fun _ ps' => PRS ps' = p) ps.
Proof. intros [Hh _] Hp. eexists tt, _. split; [done|]. split_and!; [by constructor|done|done]. Qed.

(** What [alloc] returns is good from now on. *)
Lemma runs_alloc b ps :
  ps_ok ps -> (forall x, b = Some x -> wf x) ->
  runs (alloc b) (fun l ps' => ptr_in (length (ps_heap ps')) l /\ PRS ps' = PRS ps /\ ps_sent ps' = ps_sent ps /\
    ps_heap ps' = ps_heap ps ++ option_list b /\ l = (fun _ => length (ps_heap ps)) <$> b) ps.
Proof.
  intros Hok Hb. destruct b as [b|].
  - eexists _, _. split; [done|]. destruct Hok as [Hh Hp]. split_and!; [constructor|..]; cbn; try done.
    + apply Forall_app. split; [done|]. constructor; [by apply Hb|done].
    + eapply prs_in_mono; [|done]. rewrite length_app. lia.
    + rewrite length_app. lia.
    + rewrite length_app. cbn. lia.
  - exists None, ps. split; [done|]. split_and!; [done|done|done|done|done| |done]. cbn. by rewrite app_nil_r.
Qed.

Lemma runs_load l ps :
  ps_ok ps -> ptr_in (length (ps_heap ps)) (Some l) ->
  exists b, ps_heap ps !! l = Some b /\ wf b /\ load l ps = (Ok b, ps).
Proof.
  intros [Hh _] Hl. destruct (lookup_lt_is_Some_2 (ps_heap ps) l Hl) as [b Hb]. exists b. split_and!; [done| |].
  - by eapply Forall_lookup_1.
  - unfold load, mbind, gom_bind, gget. by rewrite Hb.
Qed.

Lemma runs_store l b ps :
  ps_ok ps -> wf b -> runs (store l b) (fun _ ps' => PRS ps' = PRS ps /\ ps_sent ps' = ps_sent ps /\ ps_heap ps' = <[l := b]> (ps_heap ps)) ps.
Proof.
  intros [Hh Hp] Hb. eexists tt, _. split; [done|]. split_and!; [constructor|..]; cbn; try done.
  - by apply Forall_insert.
  - by rewrite length_insert.
  - by rewrite length_insert.
Qed.

Lemma set_true_returns l i ps :
  ps_ok ps -> ptr_in (length (ps_heap ps)) l -> 0 <= i -> runs (set_true l i) (fun _ ps' => PRS ps' = PRS ps) ps.
Proof.
  intros Hok Hl Hi. destruct l as [l|]; [|by apply runs_ret]. destruct (runs_load l ps Hok Hl) as (b & Hb & Hw & Hload).
  eapply runs_step; [exact Hload|]. destruct (set_any (E:=msg_error) b i true Hw Hi) as (r & b' & Hs & Hw' & _).
  eapply runs_step; [unfold glift; by rewrite Hs|]. eapply runs_mono; [|by apply runs_store]. by intros _ ps' [? _].
Qed.

(** The pointers of an updated round state. *)
Ltac pointed :=
  unfold prs_in, pointers in *; cbn in *; repeat rewrite Forall_cons in *; destruct_and?; split_and?;
  solve [done | constructor | eapply ptr_in_mono; [|eassumption]; lia].

Lemma new_array_wf n b : NewBitArray n = Some b -> wf b.
Proof. by intros (H & _)%NewBitArray_spec. Qed.

(** ** Methods *)

Section methods.
  Context {ps : PeerState} (Hok : ps_ok ps).

Lemma prs_ok : prs_in (length (ps_heap ps)) (PRS ps).
Proof. apply Hok. Qed.

Lemma SetHasProposal_returns proposal : runs (SetHasProposal proposal) (fun _ _ => True) ps.
Proof.
  apply runs_get. pose proof prs_ok as Hp. destruct (_ || _); [by apply runs_ret|]. destruct (prs_Proposal _); [by apply runs_ret|].
  cbn zeta. destruct (prs_ProposalBlockParts (put_proposal _ _)) eqn:El.
  - eapply runs_mono; [|apply runs_set_PRS; [done|pointed]]. done.
  - eapply runs_bind; [apply runs_alloc; [done|apply new_array_wf]|]. intros l ps' Hok' Hl (Hin & _).
    eapply runs_mono; [|apply runs_set_PRS; [done|pointed]]. done.
Qed.

Lemma InitProposalBlockParts_returns header : runs (InitProposalBlockParts header) (fun _ _ => True) ps.
Proof.
  apply runs_get. pose proof prs_ok as Hp. destruct (prs_ProposalBlockParts _); [by apply runs_ret|].
  eapply runs_bind; [apply runs_alloc; [done|apply new_array_wf]|]. intros l ps' Hok' Hl (Hin & _).
  eapply runs_mono; [|apply runs_set_PRS; [done|pointed]]. done.
Qed.

Lemma SetHasProposalBlockPart_returns height round index :
  0 <= index -> runs (SetHasProposalBlockPart height round index) (fun _ _ => True) ps.
Proof.
  intros Hi. apply runs_get. pose proof prs_ok as Hp. destruct (_ || _); [by apply runs_ret|].
  eapply runs_mono; [|apply set_true_returns; [done|pointed|done]]. done.
Qed.

Lemma getVoteBitArray_in n p height round typ : prs_in n p -> ptr_in n (getVoteBitArray p height round typ).
Proof. intros Hp. unfold getVoteBitArray. repeat case_match; pointed. Qed.

Lemma setHasVote_returns height round typ index :
  0 <= index -> runs (setHasVote height round typ index) (fun _ ps' => PRS ps' = PRS ps) ps.
Proof. intros Hi. apply runs_get. apply set_true_returns; [done|by apply getVoteBitArray_in, prs_ok|done]. Qed.

Lemma ensureCatchupCommitRound_returns height round n : runs (ensureCatchupCommitRound height round n) (fun _ ps' => ps_sent ps' = ps_sent ps) ps.
Proof.
  apply runs_get. pose proof prs_ok as Hp. destruct (negb _); [by apply runs_ret|]. destruct (_ =? _); [by apply runs_ret|].
  destruct (_ =? _).
  - destruct Hok as [Hh _]. eexists tt, _. split; [done|]. split_and!; [constructor|..]; [done|pointed|done|done].
  - eapply runs_bind; [apply runs_alloc; [done|apply new_array_wf]|]. intros l ps' [Hh' Hp'] Hl (Hin & _ & Hs & _).
    eexists tt, _. split; [done|]. split_and!; [constructor|..]; [done|pointed|done|done].
Qed.

End methods.

Lemma ensure_returns l n ps :
  ps_ok ps -> ptr_in (length (ps_heap ps)) l ->
  runs (ensure l n) (fun l' ps' => ptr_in (length (ps_heap ps')) l' /\ PRS ps' = PRS ps /\ ps_sent ps' = ps_sent ps /\
    (ps_heap ps `prefix_of` ps_heap ps') /\
    (forall x, l = Some x -> l' = l) /\ (0 < n -> exists x, l' = Some x)) ps.
Proof.
  intros Hok Hl. destruct l as [l|].
  - apply runs_ret; [done|]. split_and!; [done..|by eexists].
  - eapply runs_mono; [|apply runs_alloc; [done|apply new_array_wf]]. cbn. intros l' ps' (H1 & H2 & H3 & H4 & H5). split_and!; [done..| |done|].
    + rewrite H4. by apply prefix_app_r.
    + intros Hn. rewrite H5. unfold NewBitArray. zdecide. by eexists.
Qed.

Lemma ensureVoteBitArrays_returns height n ps :
  ps_ok ps -> runs (ensureVoteBitArrays height n) (fun _ ps' => ps_sent ps' = ps_sent ps) ps.
Proof.
  intros Hok. apply runs_get. pose proof (prs_ok Hok) as Hp. destruct (_ =? _).
  - eapply runs_bind; [apply ensure_returns; [done|pointed]|]. intros l1 ps1 Hok1 Hl1 (I1 & E1 & S1 & _).
    eapply runs_bind; [apply ensure_returns; [done|pointed]|]. intros l2 ps2 Hok2 Hl2 (I2 & E2 & S2 & _).
    eapply runs_bind; [apply ensure_returns; [done|pointed]|]. intros l3 ps3 Hok3 Hl3 (I3 & E3 & S3 & _).
    eapply runs_bind; [apply ensure_returns; [done|pointed]|]. intros l4 ps4 Hok4 Hl4 (I4 & E4 & S4 & _).
    destruct Hok4 as [Hh4 _]. eexists tt, _. split; [done|]. split_and!; [constructor; [done|pointed]|done|cbn; congruence].
  - destruct (_ =? _); [|by apply runs_ret].
    eapply runs_bind; [apply ensure_returns; [done|pointed]|]. intros l1 ps1 [Hh1 _] Hl1 (I1 & E1 & S1 & _).
    eexists tt, _. split; [done|]. split_and!; [constructor; [done|pointed]|done|cbn; congruence].
Qed.

Section messages.
  Context {ps : PeerState} (Hok : ps_ok ps).

(** Step by step: the state of the peer is set once, at the end. *)
Lemma ApplyNewRoundStepMessage_returns now m : runs (ApplyNewRoundStepMessage now m) (fun _ _ => True) ps.
Proof.
  apply runs_get. pose proof (prs_ok Hok) as Hp. destruct (_ <=? _); [by apply runs_ret|]. cbn zeta.
  eapply runs_mono; [|apply runs_set_PRS; [done|]]; [done|]. repeat case_match; pointed.
Qed.

Lemma ApplyNewValidBlockMessage_returns m :
  (forall b, nvb_BlockParts m = Some b -> wf b) -> runs (ApplyNewValidBlockMessage m) (fun _ _ => True) ps.
Proof.
  intros Hb. apply runs_get. pose proof (prs_ok Hok) as Hp. destruct (negb _); [by apply runs_ret|]. destruct (_ && _); [by apply runs_ret|].
  eapply runs_bind; [by apply runs_alloc|]. intros l ps' Hok' Hl (Hin & _).
  eapply runs_mono; [|apply runs_set_PRS; [done|pointed]]. done.
Qed.

Lemma ApplyProposalPOLMessage_returns m :
  (forall b, pol_ProposalPOL m = Some b -> wf b) -> runs (ApplyProposalPOLMessage m) (fun _ _ => True) ps.
Proof.
  intros Hb. apply runs_get. pose proof (prs_ok Hok) as Hp. destruct (negb _); [by apply runs_ret|]. destruct (negb _); [by apply runs_ret|].
  eapply runs_bind; [by apply runs_alloc|]. intros l ps' Hok' Hl (Hin & _).
  eapply runs_mono; [|apply runs_set_PRS; [done|pointed]]. done.
Qed.

Lemma ApplyHasVoteMessage_returns m : 0 <= hv_Index m -> runs (ApplyHasVoteMessage m) (fun _ _ => True) ps.
Proof.
  intros Hi. apply runs_get. destruct (negb _); [by apply runs_ret|]. eapply runs_mono; [|by apply setHasVote_returns]. done.
Qed.

(** No array a peer sends makes this fail. *)
Lemma ApplyVoteSetBitsMessage_returns m ours :
  (forall b, vsb_Votes m = Some b -> words64 b) -> (forall b, ours = Some b -> words64 b) ->
  runs (ApplyVoteSetBitsMessage m ours) (fun _ _ => True) ps.
Proof.
  intros Hm Ho. apply runs_get. destruct (getVoteBitArray _ _ _ _) as [l|] eqn:El; [|by apply runs_ret].
  destruct (runs_load l ps Hok) as (b & Hb & Hw & Hload); [rewrite <- El; by apply getVoteBitArray_in, prs_ok|].
  eapply runs_step; [exact Hload|].
  assert (Hupd : forall x, (forall c, x = Some c -> words64 c) ->
    runs (match Update (Some b) x with Some c => store l c | None => mret tt end) (fun _ _ => True) ps).
  { intros [c|] Hc; cbn [Update]; [destruct (update_wf b c Hw (Hc c eq_refl)) as (d & [= <-] & Hd)|];
      (eapply runs_mono; [|by apply runs_store]); done. }
  destruct ours as [o|]; [|by apply Hupd].
  destruct (sub_any (E:=msg_error) b o Hw (Ho o eq_refl)) as (c & Hc & Hwc & _). eapply runs_step; [unfold glift; by rewrite Hc|].
  destruct (vsb_Votes m) as [v|].
  - destruct (or_any (E:=msg_error) c v Hwc (Hm v eq_refl)) as (d & Hd & Hwd). eapply runs_step; [unfold glift; by rewrite Hd|].
    apply Hupd. intros ? [= <-]. by apply wf_words64.
  - eapply runs_step; [done|]. apply Hupd. intros ? [= <-]. by apply wf_words64.
Qed.

End messages.

(** ** Sending votes *)

Section votes.
  Context {codec : TimeCodec}.

(** A vote whose time can be written. *)
Definition timed (v : Vote) : Prop := is_Some (StdTimeMarshal (v_Timestamp v)).

(** A reader answers for the votes it announces. *)
Record reader_ok (votes : VoteSetReader) : Prop := {
  ro_size : 0 <= vr_Size votes <= int32_max;
  ro_commit : vr_IsCommit votes = true -> vr_Type votes = PrecommitType;
  ro_bits : vr_Size votes <> 0 -> exists b, vr_BitArray votes = Ok (Some b) /\ wf b /\ Bits b = vr_Size votes /\
    forall i, bit b i = true -> exists v, vr_GetByIndex votes i = Ok (Some v) /\
      v_Height v = vr_GetHeight votes /\ v_Round v = vr_GetRound votes /\ v_Type v = vr_Type votes /\ v_ValidatorIndex v = i /\ timed v
}.

Definition rand_ok (intn : Z -> Z) : Prop := forall n, 0 < n -> 0 <= intn n < n.

(** What the first statements of [PickVoteToSend] set up. *)
Definition prepare (votes : VoteSetReader) : PsM unit :=
  (if vr_IsCommit votes then ensureCatchupCommitRound (vr_GetHeight votes) (vr_GetRound votes) (vr_Size votes) else mret tt);;
  ensureVoteBitArrays (vr_GetHeight votes) (vr_Size votes).

Lemma prepare_returns votes ps : ps_ok ps -> runs (prepare votes) (fun _ ps' => ps_sent ps' = ps_sent ps) ps.
Proof.
  intros Hok. eapply runs_bind with (Q := fun _ ps' => ps_sent ps' = ps_sent ps).
  - destruct (vr_IsCommit votes); [by apply ensureCatchupCommitRound_returns|by apply runs_ret].
  - intros _ ps' Hok' Hl Hs. eapply runs_mono; [|by apply ensureVoteBitArrays_returns]. cbn. intros _ ps'' ->. done.
Qed.

Definition bits_in (b : BitArray) (i : Z) : Prop := 0 <= i < Bits b.

Lemma bit_true_in b i : bit b i = true -> bits_in b i.
Proof. unfold bit, bits_in. zcase; intros; done || lia. Qed.

(** The choice of a vote, once the arrays are there. *)
Definition choose (intn : Z -> Z) (votes : VoteSetReader) : PsM (option Vote * bool) :=
  p ← prs_get;
  match getVoteBitArray p (vr_GetHeight votes) (vr_GetRound votes) (vr_Type votes) with
  | None => mret (None, false)
  | Some l =>
      psVotes ← load l;
      bits ← glift (vr_BitArray votes);
      missing ← glift (Sub bits (Some psVotes));
      '(index, ok) ← glift (PickRandom intn missing);
      if ok : bool then vote ← glift (vr_GetByIndex votes (wrap32 index)); mret (vote, true) else mret (None, false)
  end.

Lemma PickVoteToSend_eq intn votes ps :
  vr_Size votes <> 0 -> PickVoteToSend intn votes ps = (prepare votes ≫= fun _ => choose intn votes) ps.
Proof.
  intros Hs. unfold PickVoteToSend, prepare, choose. rewrite (proj2 (Z.eqb_neq _ _) Hs). cbn zeta.
  unfold mbind, gom_bind. destruct (vr_IsCommit votes); cbn [mret gom_ret].
  - destruct (ensureCatchupCommitRound _ _ _ ps) as [[]]; [|done..]. by destruct (ensureVoteBitArrays _ _ _) as [[]].
  - by destruct (ensureVoteBitArrays _ _ ps) as [[]].
Qed.

(** A message with a vote can be written. *)
Lemma encode_vote v ps : timed v -> MustEncode (MVote (Some v)) ps = (Ok tt, ps).
Proof. intros Ht. unfold MustEncode. cbn. by rewrite bool_decide_eq_true_2. Qed.

(** The vote that is chosen is one the peer is not known to have. *)
Lemma choose_spec intn votes ps :
  ps_ok ps -> reader_ok votes -> rand_ok intn -> vr_Size votes <> 0 ->
  exists r, choose intn votes ps = (Ok r, ps) /\
    match getVoteBitArray (PRS ps) (vr_GetHeight votes) (vr_GetRound votes) (vr_Type votes) with
    | None => r = (None, false)
    | Some l =>
        exists b known, vr_BitArray votes = Ok (Some b) /\ ps_heap ps !! l = Some known /\
          if snd r then
            exists i v, fst r = Some v /\ bit b i = true /\ Z.testbit (word known (Z.to_nat (i / 64))) (i mod 64) = false /\
              vr_GetByIndex votes i = Ok (Some v) /\ v_Height v = vr_GetHeight votes /\ v_Round v = vr_GetRound votes /\
              v_Type v = vr_Type votes /\ v_ValidatorIndex v = i /\ timed v
          else r = (None, false) /\ forall i, bit b i = true -> Z.testbit (word known (Z.to_nat (i / 64))) (i mod 64) = true
    end.
Proof.
  intros Hok [Hsz _ Hb] Hr Hne. destruct (Hb Hne) as (b & Hbits & Hw & HB & Hget). unfold choose.
  rewrite (gbind_step prs_get _ ps (PRS ps) ps) by done.
  destruct (getVoteBitArray _ _ _ _) as [l|] eqn:El; [|by eexists].
  destruct (runs_load l ps Hok) as (known & Hk & Hwk & Hload); [rewrite <- El; by apply getVoteBitArray_in, prs_ok|].
  rewrite (gbind_step _ _ ps known ps) by done. rewrite (glift_step _ _ ps (Some b)) by done.
  destruct (sub_any (E:=msg_error) b known Hw (wf_words64 _ Hwk)) as (c & Hc & Hwc & HBc & Hword).
  rewrite (glift_step _ _ ps (Some c)) by done.
  destruct (PickRandom_spec (E:=msg_error) intn c Hwc Hr) as (i & ok & Hp & Hbit). rewrite (glift_step _ _ ps (i, ok)) by done.
  assert (Hin : forall j, 0 <= j < Bits b -> bit c j = bit b j && negb (Z.testbit (word known (Z.to_nat (j / 64))) (j mod 64))).
  { intros j Hj. rewrite !bit_in_range by lia. rewrite Hword. by rewrite Z.ldiff_spec. }
  destruct ok.
  - pose proof (bit_true_in _ _ Hbit) as Hi. unfold bits_in in Hi. rewrite HBc in Hi. rewrite (Hin i Hi) in Hbit.
    apply andb_true_iff in Hbit as [H1 H2%negb_true_iff]. destruct (Hget i H1) as (v & Hv & V1 & V2 & V3 & V4 & V5).
    rewrite wrap32_id by (unfold_ints; lia). rewrite (glift_step _ _ ps (Some v)) by done.
    eexists. split; [done|]. exists b, known. split_and!; [done|done|]. exists i, v. by split_and!.
  - eexists. split; [done|]. exists b, known. split_and!; [done|done|]. split; [done|]. intros j Hj. pose proof (bit_true_in _ _ Hj) as Hji.
    specialize (Hbit j). rewrite (Hin j Hji), Hj in Hbit. by apply negb_false_iff in Hbit.
Qed.

Lemma runs_send accepted m ps :
  ps_ok ps -> runs (Send accepted m) (fun r ps' => r = accepted /\ PRS ps' = PRS ps /\ ps_heap ps' = ps_heap ps /\
    ps_sent ps' = if accepted then m :: ps_sent ps else ps_sent ps) ps.
Proof. intros [H1 H2]. destruct accepted; (eexists _, _; split; [done|]); by split_and!; [constructor|..]. Qed.

Lemma PickSendVote_returns intn accepted votes ps :
  ps_ok ps -> reader_ok votes -> rand_ok intn -> runs (PickSendVote intn accepted votes) (fun _ _ => True) ps.
Proof.
  intros Hok Hv Hr. destruct (decide (vr_Size votes = 0)) as [Hz|Hne].
  { eapply runs_step; [unfold PickVoteToSend; by rewrite Hz|]. by apply runs_ret. }
  eapply runs_bind with (Q := fun r _ => snd r = true -> exists v, fst r = Some v /\ 0 <= v_ValidatorIndex v /\ timed v).
  - destruct (prepare_returns votes ps Hok) as ([] & ps1 & Hp & Hok1 & Hl & _).
    destruct (choose_spec intn votes ps1 Hok1 Hv Hr Hne) as (r & Hc & Hspec). exists r, ps1. split_and!; [|done|done|].
    + rewrite PickVoteToSend_eq by done. etrans; [by apply gbind_step|done].
    + intros Ht. destruct (getVoteBitArray _ _ _ _); [|by subst r]. destruct Hspec as (b & known & _ & _ & Hspec).
      rewrite Ht in Hspec. destruct Hspec as (i & v & ? & Hb & _ & _ & _ & _ & _ & <- & Hv5). exists v. split; [done|].
      split; [by apply bit_true_in in Hb as []|done].
  - intros [vote ok] ps1 Hok1 _ Hq. destruct ok; [|by apply runs_ret]. destruct (Hq eq_refl) as (v & [= ->] & Hi & Htm). clear Hq.
    eapply runs_step; [by apply encode_vote|]. eapply runs_bind; [by apply runs_send|]. cbn. intros r ps2 Hok2 _ (-> & _).
    destruct accepted; [|by apply runs_ret]. eapply runs_bind; [by apply setHasVote_returns|]. intros [] ps3 Hok3 _ _. by apply runs_ret.
Qed.

(** *** Every vote is sent, and once *)

(** The peer has an array for the votes, of their number. *)
Definition tracked (ps : PeerState) (votes : VoteSetReader) (l : loc) (known : BitArray) : Prop :=
  getVoteBitArray (PRS ps) (vr_GetHeight votes) (vr_GetRound votes) (vr_Type votes) = Some l /\
  ps_heap ps !! l = Some known /\ Bits known = vr_Size votes.

Lemma prefix_lookup_loc (h h' : list BitArray) l b : h `prefix_of` h' -> h !! l = Some b -> h' !! l = Some b.
Proof. intros. by eapply prefix_lookup_Some. Qed.

(** The catch-up round is set only where no array was in use. *)
Lemma catchup_tracked votes ps l known :
  ps_ok ps -> tracked ps votes l known -> vr_Type votes = PrecommitType ->
  runs (ensureCatchupCommitRound (vr_GetHeight votes) (vr_GetRound votes) (vr_Size votes))
    (fun _ ps' => tracked ps' votes l known /\ ps_sent ps' = ps_sent ps) ps.
Proof.
  intros Hok (Hl & Hk & HB) Ht. apply runs_get. destruct (Z.eqb_spec (prs_Height (PRS ps)) (vr_GetHeight votes)) as [Hh|Hh]; cbn [negb]; [|by apply runs_ret].
  destruct (Z.eqb_spec (prs_CatchupCommitRound (PRS ps)) (vr_GetRound votes)) as [Hc|Hc]; [by apply runs_ret|].
  destruct (Z.eqb_spec (vr_GetRound votes) (prs_Round (PRS ps))) as [Hr|Hr].
  - destruct Hok as [Hh0 Hp]. eexists tt, _. split; [done|]. split_and!; [constructor|..]; [done|cbn; pointed|done| |done].
    split_and!; [|done|done]. revert Hl. unfold getVoteBitArray. cbn. rewrite Hr, Z.eqb_refl. done.
  - exfalso. revert Hl. unfold getVoteBitArray. rewrite Ht, Hh, Z.eqb_refl. cbn.
    rewrite (proj2 (Z.eqb_neq (prs_Round _) _)) by done. rewrite (proj2 (Z.eqb_neq (prs_CatchupCommitRound _) _)) by done.
    by destruct (_ =? _).
Qed.

Lemma ensure_tracked votes ps l known :
  ps_ok ps -> tracked ps votes l known ->
  runs (ensureVoteBitArrays (vr_GetHeight votes) (vr_Size votes))
    (fun _ ps' => tracked ps' votes l known /\ ps_sent ps' = ps_sent ps) ps.
Proof.
  intros Hok (Hl & Hk & HB). apply runs_get. pose proof (prs_ok Hok) as Hp. unfold tracked.
  destruct (Z.eqb_spec (prs_Height (PRS ps)) (vr_GetHeight votes)) as [Hh|Hh].
  - eapply runs_bind; [apply ensure_returns; [done|pointed]|]. intros l1 ps1 Hok1 Hl1 (I1 & E1 & S1 & P1 & K1 & _).
    eapply runs_bind; [apply ensure_returns; [done|pointed]|]. intros l2 ps2 Hok2 Hl2 (I2 & E2 & S2 & P2 & K2 & _).
    eapply runs_bind; [apply ensure_returns; [done|pointed]|]. intros l3 ps3 Hok3 Hl3 (I3 & E3 & S3 & P3 & K3 & _).
    eapply runs_bind; [apply ensure_returns; [done|pointed]|]. intros l4 ps4 Hok4 Hl4 (I4 & E4 & S4 & P4 & K4 & _).
    destruct Hok4 as [Hh4 _]. eexists tt, _. split; [done|]. split_and!; [constructor; [done|pointed]|done| | |done|cbn; congruence].
    + revert Hl. unfold getVoteBitArray. cbn. rewrite Hh, Z.eqb_refl. destruct (negb _); [done|].
      repeat (destruct (_ =? _); [repeat (destruct (_ =? _); [|done || idtac])|]); intros Hl; try done; eauto using eq_trans.
    + cbn. do 4 (eapply prefix_lookup_loc; [eassumption|]). done.
  - destruct (Z.eqb_spec (prs_Height (PRS ps)) (vr_GetHeight votes +i64 1)%go) as [Hn|Hn]; [|by apply runs_ret].
    eapply runs_bind; [apply ensure_returns; [done|pointed]|]. intros l1 ps1 [Hh1 _] Hl1 (I1 & E1 & S1 & P1 & K1 & _).
    eexists tt, _. split; [done|]. split_and!; [constructor; [done|pointed]|done| | |done|cbn; congruence].
    + revert Hl. unfold getVoteBitArray. cbn. rewrite (proj2 (Z.eqb_neq (prs_Height _) _)) by done. rewrite Hn, Z.eqb_refl.
      destruct (negb _); [done|]. destruct (_ =? _); [|done]. destruct (_ =? _); [done|]. eauto using eq_trans.
    + cbn. by eapply prefix_lookup_loc.
Qed.

Lemma prepare_tracked votes ps l known :
  ps_ok ps -> reader_ok votes -> tracked ps votes l known ->
  runs (prepare votes) (fun _ ps' => tracked ps' votes l known /\ ps_sent ps' = ps_sent ps) ps.
Proof.
  intros Hok Hv Ht. eapply runs_bind with (Q := fun _ ps' => tracked ps' votes l known /\ ps_sent ps' = ps_sent ps).
  - destruct (vr_IsCommit votes) eqn:Ec; [by apply catchup_tracked; [..|apply Hv]|by apply runs_ret].
  - intros _ ps' Hok' _ [Ht' Hs]. eapply runs_mono; [|by apply ensure_tracked]. cbn. intros _ ps'' [H1 ->]. done.
Qed.

(** The positions of the votes the peer lacks. *)
Definition lacking (b known : BitArray) : list Z :=
  filter (fun i => bit b i = true /\ bit known i = false) (seqZ 0 (Bits b)).

Lemma filter_without (P Q : Z -> Prop) `{!forall x, Decision (P x), !forall x, Decision (Q x)} (l : list Z) i :
  NoDup l -> i ∈ l -> P i -> (forall j, Q j <-> P j /\ j <> i) -> filter P l ≡ₚ i :: filter Q l.
Proof.
  intros Hnd Hin Hi HQ. apply NoDup_Permutation.
  - by apply NoDup_filter.
  - constructor; [|by apply NoDup_filter]. rewrite list_elem_of_filter, HQ. tauto.
  - intros j. rewrite elem_of_cons, !list_elem_of_filter, HQ. destruct (decide (j = i)) as [->|]; tauto.
Qed.

(** Sending a vote and noting it. *)
Lemma send_mark intn votes ps ps1 l known v known' :
  PickVoteToSend intn votes ps = (Ok (Some v, true), ps1) -> timed v -> ps_ok ps1 -> wf known' ->
  getVoteBitArray (PRS ps1) (v_Height v) (v_Round v) (v_Type v) = Some l -> ps_heap ps1 !! l = Some known ->
  setIndex (E:=msg_error) known (v_ValidatorIndex v) true = Ok (true, known') ->
  exists ps3, PickSendVote intn true votes ps = (Ok true, ps3) /\ ps_ok ps3 /\ PRS ps3 = PRS ps1 /\
    ps_heap ps3 = <[l := known']> (ps_heap ps1) /\ ps_sent ps3 = MVote (Some v) :: ps_sent ps1.
Proof.
  intros Hpick Htm Hok1 Hw' Hl Ek Hset.
  destruct (runs_send true (MVote (Some v)) ps1 Hok1) as (s & ps2 & Hsend & Hok2 & _ & -> & P2 & H2 & S2).
  destruct (runs_store l known' ps2 Hok2 Hw') as ([] & ps3 & Hst & Hok3 & _ & P3 & S3 & H3).
  exists ps3. split_and!; [|done|congruence|congruence|congruence].
  assert (Hmark : setHasVote (v_Height v) (v_Round v) (v_Type v) (v_ValidatorIndex v) ps2 = (Ok tt, ps3)).
  { unfold setHasVote. rewrite (gbind_step prs_get _ ps2 (PRS ps2) ps2) by done. rewrite P2, Hl. cbn [set_true].
    rewrite (gbind_step (load l) _ ps2 known ps2) by (unfold load, mbind, gom_bind, gget; by rewrite H2, Ek).
    by rewrite (glift_step _ _ ps2 (true, known') Hset). }
  unfold PickSendVote. rewrite (gbind_step _ _ ps (Some v, true) ps1 Hpick). cbv beta iota.
  rewrite (gbind_step (MustEncode _) _ ps1 tt ps1) by (by apply encode_vote). rewrite (gbind_step _ _ ps1 true ps2 Hsend). cbv beta iota.
  unfold SetHasVote. by rewrite (gbind_step _ _ ps2 tt ps3 Hmark).
Qed.

(** One call: a vote the peer lacks is sent and noted, or there is none. *)
Lemma send_step intn votes ps l known b :
  ps_ok ps -> reader_ok votes -> rand_ok intn -> vr_Size votes <> 0 -> vr_BitArray votes = Ok (Some b) -> tracked ps votes l known ->
  (lacking b known = [] /\ runs (PickSendVote intn true votes)
     (fun r ps' => r = false /\ tracked ps' votes l known /\ ps_sent ps' = ps_sent ps) ps) \/
  (exists i v known', lacking b known ≡ₚ i :: lacking b known' /\ vr_GetByIndex votes i = Ok (Some v) /\
     runs (PickSendVote intn true votes)
       (fun r ps' => r = true /\ tracked ps' votes l known' /\ ps_sent ps' = MVote (Some v) :: ps_sent ps) ps).
Proof.
  intros Hok Hv Hr Hne Hb Ht. destruct (prepare_tracked votes ps l known Hok Hv Ht) as ([] & ps1 & Hp & Hok1 & Hl1 & Ht1 & Hs1).
  destruct (choose_spec intn votes ps1 Hok1 Hv Hr Hne) as (r & Hc & Hspec). pose proof Ht1 as (El & Ek & EB). rewrite El in Hspec.
  destruct Hspec as (b' & known0 & Hb' & Ek' & Hspec). rewrite Hb in Hb'. injection Hb' as <-. rewrite Ek in Ek'. injection Ek' as <-.
  destruct (ro_bits _ Hv Hne) as (b' & Hb' & Hw & HB & _). rewrite Hb in Hb'. injection Hb' as <-.
  assert (Hpick : PickVoteToSend intn votes ps = (Ok r, ps1)).
  { rewrite PickVoteToSend_eq by done. etrans; [by apply gbind_step|done]. }
  assert (Hknown : forall i, bits_in b i -> Z.testbit (word known (Z.to_nat (i / 64))) (i mod 64) = bit known i).
  { intros i Hi. symmetry. apply bit_in_range. unfold bits_in in Hi. lia. }
  destruct r as [vote ok]. cbn [fst snd] in Hspec. destruct ok.
  - right. destruct Hspec as (i & v & [= ->] & Hi & Hk & Hget & V1 & V2 & V3 & V4 & V5). pose proof (bit_true_in _ _ Hi) as Hin.
    rewrite Hknown in Hk by done. assert (Hwk : wf known) by (destruct Hok1 as [Hh _]; by eapply Forall_lookup_1).
    destruct (setIndex_spec (E:=msg_error) known i true Hwk) as (known' & Hset & Hw' & HB' & _ & Hbit); [unfold bits_in in Hin; lia|].
    exists i, v, known'. split_and!; [|done|].
    + apply filter_without; [apply NoDup_seqZ|apply elem_of_seqZ; unfold bits_in in Hin; lia|done|]. intros j. rewrite Hbit.
      destruct (Z.eqb_spec j i); naive_solver.
    + destruct (send_mark intn votes ps ps1 l known v known' Hpick V5 Hok1 Hw') as (ps3 & H1 & H2 & H3 & H4 & H5);
        [by rewrite V1, V2, V3|done|by rewrite V4|].
      exists true, ps3. split_and!; [done|done|rewrite H4, length_insert; done|done| |congruence].
      split_and!; [by rewrite H3| |congruence]. rewrite H4. apply list_lookup_insert_eq. by eapply lookup_lt_Some.
  - left. destruct Hspec as [[= ->] Hall]. split.
    + unfold lacking. destruct (filter _ _) as [|i li] eqn:Ef; [done|]. exfalso.
      assert (Hin : i ∈ filter (fun i => bit b i = true /\ bit known i = false) (seqZ 0 (Bits b))) by (rewrite Ef; apply list_elem_of_here).
      apply list_elem_of_filter in Hin as [[H1 H2] _]. specialize (Hall i H1). rewrite Hknown in Hall by (by apply bit_true_in). congruence.
    + exists false, ps1. split_and!; [|done|done|done|done|done]. unfold PickSendVote. by rewrite (gbind_step _ _ ps (None, false) ps1 Hpick).
Qed.

(** One call per random source. *)
Fixpoint turns (rands : list (Z -> Z)) (votes : VoteSetReader) : PsM unit :=
  match rands with
  | [] => mret tt
  | intn :: rands => _ ← PickSendVote intn true votes; turns rands votes
  end.

(** [sent] are the votes at the positions [order]. *)
Definition votes_at (votes : VoteSetReader) (order : list Z) (sent : list Vote) : Prop :=
  Forall2 (fun i v => vr_GetByIndex votes i = Ok (Some v)) order sent.

Lemma turns_spec votes b rands : reader_ok votes -> vr_Size votes <> 0 -> vr_BitArray votes = Ok (Some b) -> Forall rand_ok rands ->
  forall ps l known, ps_ok ps -> tracked ps votes l known -> (length (lacking b known) <= length rands)%nat ->
  exists ps' known' order sent, turns rands votes ps = (Ok tt, ps') /\ ps_ok ps' /\ tracked ps' votes l known' /\ lacking b known' = [] /\
    order ≡ₚ lacking b known /\ votes_at votes order sent /\
    ps_sent ps' = reverse ((fun v => MVote (Some v)) <$> sent) ++ ps_sent ps.
Proof.
  intros Hv Hne Hb Hr. induction Hr as [|intn rands Hi Hr IH]; intros ps l known Hok Ht Hlen.
  - exists ps, known, [], []. cbn in Hlen. assert (lacking b known = []) as -> by (by apply nil_length_inv; lia). by split_and!; [..|constructor|].
  - destruct (send_step intn votes ps l known b Hok Hv Hi Hne Hb Ht) as [[Hnil (r & ps1 & H1 & Hok1 & _ & -> & Ht1 & Hs1)]|
      (i & v & known' & Hperm & Hget & (r & ps1 & H1 & Hok1 & _ & -> & Ht1 & Hs1))].
    + destruct (IH ps1 l known Hok1 Ht1) as (ps' & known' & order & sent & E1 & E2 & E3 & E4 & E5 & E6 & E7); [rewrite Hnil; cbn; lia|].
      exists ps', known', order, sent. split_and!; try done; [|by rewrite E7, Hs1]. cbn [turns]. by rewrite (gbind_step _ _ ps false ps1 H1).
    + destruct (IH ps1 l known' Hok1 Ht1) as (ps' & known2 & order & sent & E1 & E2 & E3 & E4 & E5 & E6 & E7).
      { apply Permutation_length in Hperm. cbn in *. lia. }
      exists ps', known2, (i :: order), (v :: sent). split_and!; try done.
      * cbn [turns]. by rewrite (gbind_step _ _ ps true ps1 H1).
      * by rewrite Hperm, E5.
      * by constructor.
      * rewrite E7, Hs1. rewrite fmap_cons, reverse_cons, <- (assoc_L (++)). done.
Qed.

(** *** The readers of the program *)

Lemma vote_set_reader_ok (P : bytes -> PubKey -> Vote -> Prop) s :
  (forall chain pk v, P chain pk v -> timed v) -> vs_inv P s -> reader_ok (vote_set_reader (Some s)).
Proof.
  intros HP [[Hw Hlen Hbits _ Hcast _ _] _]. constructor; cbn.
  - pose proof (vwf_size _ Hw). unfold Voters_Size, int32_max, lenZ in *. lia.
  - unfold VoteSet_IsCommit. intros [H _]%andb_true_iff. lia.
  - intros Hne. unfold VoteSet_BitArray, Copy, Voters_Size in *. destruct (vs_votesBitArray s) as [b|].
    + destruct Hbits as (Hwb & HB & Hbit). exists b. split_and!; [done|done|rewrite HB; unfold lenZ; by rewrite Hlen|].
      intros i Hi. pose proof (bit_true_in _ _ Hi) as Hin. unfold bits_in, lenZ in *. destruct (lookup_lt_is_Some_2 (vs_votes s) (Z.to_nat i)) as [o Ho]; [lia|].
      pose proof (Hbit _ _ Ho) as Hh. rewrite Z2Nat.id, Hi in Hh by lia. destruct o as [v|]; [|done]. exists v.
      destruct (Hcast _ _ Ho) as [(C1 & C2 & C3 & C4 & w & pk & _ & _ & _ & Hpv) _]. split_and!; [|done|done|done|lia|by eapply HP].
      unfold VoteSet_GetByIndex. apply idx_Ok. split; [lia|done].
    + cbn in Hbits. unfold lenZ in Hne. rewrite <- Hlen, Hbits in Hne. done.
Qed.

Lemma set_present_spec {E} sigs : forall (i : nat) b,
  wf b -> Z.of_nat i + lenZ sigs <= Bits b ->
  exists b', set_present (E:=E) sigs (Z.of_nat i) (Some b) = Ok (Some b') /\ wf b' /\ Bits b' = Bits b /\
    forall j, bit b' j = match (if Z.of_nat i <=? j then sigs !! Z.to_nat (j - Z.of_nat i) else None) with
                         | Some s => negb (Absent s) | None => bit b j end.
Proof.
  induction sigs as [|s sigs IH]; intros i b Hw Hlen.
  - exists b. split_and!; [done..|]. intros j. by destruct (_ <=? _).
  - unfold lenZ in *. cbn [length] in Hlen. destruct (setIndex_spec (E:=E) b (Z.of_nat i) (negb (Absent s)) Hw) as (b1 & H1 & Hw1 & HB1 & _ & Hb1); [lia|].
    destruct (IH (S i) b1 Hw1) as (b2 & H2 & Hw2 & HB2 & Hb2); [lia|]. exists b2. split_and!; [|done|congruence|].
    + cbn [set_present SetIndex]. rewrite H1. cbn [mbind outcome_bind]. replace (Z.of_nat i + 1) with (Z.of_nat (S i)) by lia. done.
    + intros j. rewrite Hb2, Hb1. destruct (Z.eqb_spec j (Z.of_nat i)) as [->|Hj].
      * zdecide. by rewrite Z.sub_diag.
      * destruct (Z.leb_spec (Z.of_nat i) j); zdecide; [|done].
        replace (Z.to_nat (j - Z.of_nat i)) with (S (Z.to_nat (j - Z.of_nat (S i)))) by lia. done.
Qed.

(** The flags of a commit are known ones. *)
Definition flags_known (c : Commit) : Prop :=
  Forall (fun s => cs_BlockIDFlag s = BlockIDFlagAbsent \/ cs_BlockIDFlag s = BlockIDFlagCommit \/ cs_BlockIDFlag s = BlockIDFlagNil) (c_Signatures c).

(** The times of its signatures can be written. *)
Definition commit_timed (c : Commit) : Prop :=
  Forall (fun s => Absent s = false -> is_Some (StdTimeMarshal (cs_Timestamp s))) (c_Signatures c).

Lemma commit_reader_ok c : flags_known c -> commit_timed c -> lenZ (c_Signatures c) <= int32_max -> reader_ok (commit_reader c).
Proof.
  intros Hf Htm Hlen. constructor; cbn; [unfold lenZ in *; lia|done|]. intros Hne. unfold Commit_BitArray.
  destruct (NewBitArray (lenZ (c_Signatures c))) as [b|] eqn:En; [|unfold NewBitArray in En; unfold lenZ in *; zcase_in En; [lia|done]].
  apply NewBitArray_spec in En as (Hw & _ & HB & Hz).
  destruct (set_present_spec (E:=msg_error) (c_Signatures c) 0 b Hw) as (b' & H1 & Hw' & HB' & Hb'); [lia|].
  exists b'. split_and!; [done|done|congruence|]. intros i Hi. pose proof (bit_true_in _ _ Hi) as Hin. unfold bits_in in Hin.
  destruct (lookup_lt_is_Some_2 (c_Signatures c) (Z.to_nat i)) as [s Hs]; [unfold lenZ in *; lia|].
  assert (Hidx : idx (E:=msg_error) (c_Signatures c) i = Ok s) by (apply idx_Ok; split; [lia|done]).
  assert (exists bid, CommitSig_BlockID (E:=msg_error) s (c_BlockID c) = Ok bid) as [bid Hbid].
  { eapply Forall_lookup_1 in Hf; [|exact Hs]. unfold CommitSig_BlockID. destruct Hf as [->|[->| ->]]; by eexists. }
  eexists. split; [unfold GetVote; rewrite Hidx; cbn; by rewrite Hbid|]. split_and!; try done.
  rewrite Hb', Z.sub_0_r, (proj2 (Z.leb_le _ _)), Hs in Hi by lia. apply negb_true_iff in Hi.
  eapply Forall_lookup_1 in Htm; [|exact Hs]. by apply Htm.
Qed.

(** C22: Votes reach a peer, each once.  Whatever votes a peer is known to have
    of a vote set or a commit, and whatever the random choices, as many calls as
    it lacks votes send it exactly those, none twice; after that there is nothing
    to send. *)
Theorem votes_gossiped votes ps l known b rands intn :
  ps_ok ps -> reader_ok votes -> vr_Size votes <> 0 -> vr_BitArray votes = Ok (Some b) -> tracked ps votes l known ->
  Forall rand_ok (intn :: rands) -> (length (lacking b known) <= length rands)%nat ->
  exists ps' order sent, turns rands votes ps = (Ok tt, ps') /\ order ≡ₚ lacking b known /\ votes_at votes order sent /\
    ps_sent ps' = reverse ((fun v => MVote (Some v)) <$> sent) ++ ps_sent ps /\ fst (PickSendVote intn true votes ps') = Ok false.
Proof.
  intros Hok Hv Hne Hb Ht [Hi Hr]%Forall_cons Hlen.
  destruct (turns_spec votes b rands Hv Hne Hb Hr ps l known Hok Ht Hlen) as (ps' & known' & order & sent & H1 & Hok' & Ht' & Hnil & H2 & H3 & H4).
  exists ps', order, sent. split_and!; try done.
  destruct (send_step intn votes ps' l known' b Hok' Hv Hi Hne Hb Ht') as [[_ (r & ps1 & -> & _ & _ & -> & _)]|(i & v & k & Hperm & _)]; [done|].
  rewrite Hnil in Hperm. by apply Permutation_nil_cons in Hperm.
Qed.

End votes.

(** ** The commit of the last height

    The comment of [ApplyNewRoundStepMessage] says that the precommits of a peer
    that moves to the next height become its last commit.  They were set to nil
    before, so the last commit is always forgotten. *)
Theorem last_commit_forgotten now m ps :
  CompareHRS (nrs_Height m) (nrs_Round m) (nrs_Step m) (prs_Height (PRS ps)) (prs_Round (PRS ps)) (prs_Step (PRS ps)) = 1 ->
  nrs_Height m <> prs_Height (PRS ps) ->
  let ps' := snd (ApplyNewRoundStepMessage now m ps) in
  prs_Height (PRS ps') = nrs_Height m /\ prs_LastCommitRound (PRS ps') = nrs_LastCommitRound m /\ prs_LastCommit (PRS ps') = None.
Proof.
  intros Hc Hh. unfold ApplyNewRoundStepMessage. rewrite (gbind_step prs_get _ ps (PRS ps) ps) by done. rewrite Hc. cbn zeta.
  rewrite (proj2 (Z.eqb_neq (prs_Height _) _)) by done. cbn [negb orb andb]. by destruct (_ && _).
Qed.

(** ** Witnesses *)

(** A commit with an absent signature, and a peer at its height. *)
Definition sample_commit : Commit :=
  NewCommit 5 0 sample_block_id
    [mkCommitSig BlockIDFlagCommit (replicate 20 1) 7 (Some [1]); NewCommitSigAbsent; mkCommitSig BlockIDFlagNil (replicate 20 3) 8 (Some [3])].

Definition sample_peer : PeerState :=
  snd (prepare (commit_reader sample_commit) (snd (ApplyNewRoundStepMessage 0 (mkNewRoundStep 5 2 4 0 1) NewPeerState))).

Lemma sample_peer_ok : ps_ok sample_peer.
Proof.
  unfold sample_peer. destruct (ApplyNewRoundStepMessage_returns new_peer_ok 0 (mkNewRoundStep 5 2 4 0 1)) as (a & ps & -> & Hok & _). cbn [snd].
  destruct (prepare_returns (commit_reader sample_commit) ps Hok) as (b & ps' & -> & Hok' & _). done.
Qed.

Lemma sample_commit_ok : @reader_ok toy_time (commit_reader sample_commit).
Proof.
  apply commit_reader_ok; [repeat (constructor; [cbn; tauto|]); constructor| |vm_compute; discriminate].
  apply Forall_true. intros s _. by eexists.
Qed.

Lemma votes_gossiped_witness :
  exists ps' sent, @turns toy_time [fun _ => 0; fun _ => 0] (commit_reader sample_commit) sample_peer = (Ok tt, ps') /\
    length sent = 2%nat /\ ps_sent ps' = reverse ((fun v => MVote (Some v)) <$> sent).
Proof.
  assert (Hb : exists b, vr_BitArray (commit_reader sample_commit) = Ok (Some b) /\ lacking b (mkBitArray 3 [0]) = [0; 2])
    by (eexists; split; vm_compute; reflexivity).
  destruct Hb as (b & Hb & Hl).
  destruct (@votes_gossiped toy_time (commit_reader sample_commit) sample_peer 0 (mkBitArray 3 [0]) b [fun _ => 0; fun _ => 0] (fun _ => 0))
    as (ps' & order & sent & H1 & H2 & H3 & H4 & _).
  - apply sample_peer_ok.
  - apply sample_commit_ok.
  - discriminate.
  - exact Hb.
  - unfold tracked. split_and!; vm_compute; reflexivity.
  - repeat (apply Forall_cons; split; [intros n Hn; lia|]). apply Forall_nil_2.
  - rewrite Hl. apply Nat.le_refl.
  - exists ps', sent. split; [exact H1|]. split.
    + rewrite <- (Forall2_length _ _ _ H3), (Permutation_length H2), Hl. reflexivity.
    + rewrite H4. assert (ps_sent sample_peer = []) as -> by (vm_compute; reflexivity). apply app_nil_r.
Defined.
