(* ===== verification/Gossip.v ===== *)
(** * The consensus reactor: src/consensus/reactor.go

    What a node does with the messages of a peer ([Receive]) and what it sends
    to it: the bodies of the loops of the gossip routines.  A routine takes a
    snapshot [rs] of the round state of the node and a copy [prs] of that of the
    peer, both of which may be old when it uses them; the arrays [prs] points to
    are those of the present.  The steps a routine makes are the methods of
    PeerState.v, and between two of them anything may happen to the peer state.

    The network is what the calls return: whether a message was accepted by the
    connection, and the random choices.  Sleeping has no effect. *)

From Stdlib Require Import ZArith Lia.
From stdpp Require Import prelude list gmap.
From S2P Require Import Prelude BitArray Crypto Validator ValidatorSet Proto ProtoDecode Block VoterSet VoteSet HeightVoteSet PrivVal PartSet Consensus ConsensusMsgs PeerState.

Local Open Scope Z_scope.
Local Open Scope go_scope.

Definition StateChannel : Z := 0x20.
Definition DataChannel : Z := 0x21.
Definition VoteChannel : Z := 0x22.
Definition VoteSetBitsChannel : Z := 0x23.

(** ** Receiving *)

Section receive.
  Context {crypto : CryptoLib} {codec : TimeCodec} {lib : BlockLib}.

(** The consensus state, the peer, the queue of messages to the state machine,
    newest first, and whether the peer was stopped for an error. *)
Record Conn := mkConn {
  cn_cs : State;
  cn_ps : PeerState;
  cn_queue : list (ReactorMessage * bytes);
  cn_stopped : bool
}.

Definition RM (A : Type) : Type := GoM Conn msg_error A.

Definition on_peer {A} (m : PsM A) : RM A := fun c =>
  let '(r, ps) := m (cn_ps c) in (r, mkConn (cn_cs c) ps (cn_queue c) (cn_stopped c)).

Definition StopPeerForError : RM unit := gmodify (fun c => mkConn (cn_cs c) (cn_ps c) (cn_queue c) true).

Definition to_peerMsgQueue (msg : ReactorMessage) (peerID : bytes) : RM unit :=
  gmodify (fun c => mkConn (cn_cs c) (cn_ps c) ((msg, peerID) :: cn_queue c) (cn_stopped c)).

Definition set_cs_Votes (votes : HeightVoteSet) : RM unit :=
  gmodify (fun c => mkConn (snd (set_Votes votes (cn_cs c))) (cn_ps c) (cn_queue c) (cn_stopped c)).

(** [votes.Prevotes(round).BitArrayByBlockID(blockID)], or of precommits; any
    other type panics. *)
Definition our_votes (votes : HeightVoteSet) (round typ : Z) (blockID : BlockID) : RM (option BitArray) :=
  o ← (if typ =? PrevoteType then glift (Prevotes votes round)
       else if typ =? PrecommitType then glift (Precommits votes round)
       else gpanic);
  mret (match o with Some s => BitArrayByBlockID s blockID | None => None end).

Definition cs_Votes : RM HeightVoteSet :=
  c ← gget; match rs_Votes (cs_rs (cn_cs c)) with Some v => mret v | None => gpanic end.

Section handlers.
  Context (now : Time) (waitSync accepted : bool) (peerID : bytes).

Definition receive_state (msg : ReactorMessage) : RM unit :=
  c ← gget;
  let rs := cs_rs (cn_cs c) in
  match msg with
  | MNewRoundStep m =>
      match ValidateHeight m (sm_InitialHeight (cs_state (cn_cs c))) with
      | Ok _ => on_peer (ApplyNewRoundStepMessage now m)
      | Err _ => StopPeerForError
      | Panic => gpanic
      end
  | MNewValidBlock m => on_peer (ApplyNewValidBlockMessage m)
  | MHasVote m => on_peer (ApplyHasVoteMessage m)
  | MVoteSetMaj23 m =>
      if negb (rs_Height rs =? vsm_Height m) then mret tt
      else
        votes ← cs_Votes;
        match HVS_SetPeerMaj23 votes (vsm_Round m) (vsm_Type m) peerID (vsm_BlockID m) with
        | Panic => gpanic
        | Err _ => StopPeerForError
        | Ok votes =>
            set_cs_Votes votes;;
            ourVotes ← our_votes votes (vsm_Round m) (vsm_Type m) (vsm_BlockID m);
            let reply := MVoteSetBits (mkVoteSetBits (vsm_Height m) (vsm_Round m) (vsm_Type m) (vsm_BlockID m) ourVotes) in
            on_peer (MustEncode reply);;
            _ ← on_peer (Send accepted reply); mret tt
        end
  | _ => mret tt
  end.

Definition receive_data (msg : ReactorMessage) : RM unit :=
  if waitSync then mret tt
  else match msg with
       | MProposal (Some p) => on_peer (SetHasProposal p);; to_peerMsgQueue msg peerID
       | MProposal None => gpanic
       | MProposalPOL m => on_peer (ApplyProposalPOLMessage m)
       | MBlockPart height round (Some part) =>
           on_peer (SetHasProposalBlockPart height round (pt_Index part));; to_peerMsgQueue msg peerID
       | MBlockPart _ _ None => gpanic
       | _ => mret tt
       end.

Definition receive_vote (msg : ReactorMessage) : RM unit :=
  if waitSync then mret tt
  else match msg with
       | MVote v =>
           c ← gget;
           let rs := cs_rs (cn_cs c) in
           on_peer (EnsureVoteBitArrays (rs_Height rs) (Voters_Size (rs_Voters rs)));;
           on_peer (EnsureVoteBitArrays (rs_Height rs -i64 1) (vr_Size (vote_set_reader (rs_LastCommit rs))));;
           match v with
           | None => gpanic
           | Some v => on_peer (SetHasVote v);; to_peerMsgQueue msg peerID
           end
       | _ => mret tt
       end.

Definition receive_bits (msg : ReactorMessage) : RM unit :=
  if waitSync then mret tt
  else match msg with
       | MVoteSetBits m =>
           c ← gget;
           if rs_Height (cs_rs (cn_cs c)) =? vsb_Height m then
             votes ← cs_Votes;
             ourVotes ← our_votes votes (vsb_Round m) (vsb_Type m) (vsb_BlockID m);
             on_peer (ApplyVoteSetBitsMessage m ourVotes)
           else on_peer (ApplyVoteSetBitsMessage m None)
       | _ => mret tt
       end.

(** [msg] is the message [proto.Unmarshal] gives, [None] if it fails; the
    reactor runs. *)
Definition Receive (chID : Z) (msg : option (option pbMessage)) : RM unit :=
  match msg with
  | None => StopPeerForError
  | Some sum =>
      match MsgFromProto (Some sum) with
      | Panic => gpanic
      | Err _ => StopPeerForError
      | Ok msg =>
          match ValidateBasic msg with
          | Panic => gpanic
          | Err _ => StopPeerForError
          | Ok _ =>
              if chID =? StateChannel then receive_state msg
              else if chID =? DataChannel then receive_data msg
              else if chID =? VoteChannel then receive_vote msg
              else if chID =? VoteSetBitsChannel then receive_bits msg
              else mret tt
          end
      end
  end.

End handlers.
End receive.

(** ** Sending *)

(** What the routines read of the block store. *)
Record BlockStoreReader := mkBlockStoreReader {
  bsr_Base : Z;
  bsr_Height : Z;
  (** [BlockID] of the meta data. *)
  bsr_LoadBlockMeta : Z -> option BlockID;
  bsr_LoadBlockPart : Z -> Z -> option Part;
  bsr_LoadSeenCommit : Z -> option Commit;
  bsr_LoadBlockCommit : Z -> option Commit
}.

Definition LoadCommit (store : BlockStoreReader) (height : Z) : option Commit :=
  if height =? bsr_Height store then bsr_LoadSeenCommit store height else bsr_LoadBlockCommit store height.

Section gossip.
  Context {codec : TimeCodec} {lib : BlockLib} (intn : Z -> Z) (accepted : bool) (store : BlockStoreReader).

(** The array a copied pointer leads to. *)
Definition load_opt (l : option loc) : PsM (option BitArray) :=
  match l with None => mret None | Some l => b ← load l; mret (Some b) end.

Definition gossipDataForCatchup (prs : PeerRoundState) : PsM unit :=
  parts ← load_opt (prs_ProposalBlockParts prs);
  '(index, ok) ← glift (PickRandom intn (Not parts));
  if ok : bool then
    match bsr_LoadBlockMeta store (prs_Height prs) with
    | None => mret tt
    | Some blockID =>
        if negb (PartSetHeader_Equals (bid_PartSetHeader blockID) (prs_ProposalBlockPartSetHeader prs)) then mret tt
        else match bsr_LoadBlockPart store (prs_Height prs) index with
             | None => mret tt
             | Some part =>
                 let msg := MBlockPart (prs_Height prs) (prs_Round prs) (Some part) in
                 MustEncode msg;;
                 sent ← Send accepted msg;
                 if sent : bool then SetHasProposalBlockPart (prs_Height prs) (prs_Round prs) index else mret tt
             end
    end
  else mret tt.

(** The proposal and the votes it refers to. *)
Definition gossip_proposal (rs : RoundState) (proposal : Proposal) : PsM unit :=
  MustEncode (MProposal (Some proposal));;
  sent ← Send accepted (MProposal (Some proposal));
  (if sent : bool then SetHasProposal proposal else mret tt);;
  if 0 <=? p_POLRound proposal then
    match rs_Votes rs with
    | None => gpanic
    | Some votes =>
        prevotes ← glift (Prevotes votes (p_POLRound proposal));
        bits ← glift (vr_BitArray (vote_set_reader prevotes));
        let msg := MProposalPOL (mkProposalPOL (rs_Height rs) (p_POLRound proposal) bits) in
        MustEncode msg;;
        _ ← Send accepted msg; mret tt
    end
  else mret tt.

(** The rest of a turn, when there is no block part to send. *)
Definition gossip_rest (rs : RoundState) (prs : PeerRoundState) : PsM unit :=
  if (0 <? bsr_Base store) && (0 <? prs_Height prs) && (prs_Height prs <? rs_Height rs) && (bsr_Base store <=? prs_Height prs)
  then match prs_ProposalBlockParts prs with
       | None =>
           match bsr_LoadBlockMeta store (prs_Height prs) with
           | None => mret tt
           | Some blockID => InitProposalBlockParts (bid_PartSetHeader blockID)
           end
       | Some _ => gossipDataForCatchup prs
       end
  else if negb (rs_Height rs =? prs_Height prs) || negb (rs_Round rs =? prs_Round prs) then mret tt
  else match rs_Proposal (rs_Proposed rs) with
       | Some proposal => if prs_Proposal prs then mret tt else gossip_proposal rs proposal
       | None => mret tt
       end.

(** A turn of [gossipDataRoutine]. *)
Definition gossipData (rs : RoundState) (prs : PeerRoundState) : PsM unit :=
  match rs_ProposalBlockParts (rs_Proposed rs) with
  | Some ps =>
      if HasHeader (Some ps) (prs_ProposalBlockPartSetHeader prs) then
        has ← load_opt (prs_ProposalBlockParts prs);
        missing ← glift (Sub (PartSet_BitArray ps) (Copy has));
        '(index, ok) ← glift (PickRandom intn missing);
        if ok : bool then
          part ← glift (GetPart ps index);
          let msg := MBlockPart (rs_Height rs) (rs_Round rs) part in
          MustEncode msg;;
          sent ← Send accepted msg;
          if sent : bool then SetHasProposalBlockPart (prs_Height prs) (prs_Round prs) index else mret tt
        else gossip_rest rs prs
      else gossip_rest rs prs
  | None => gossip_rest rs prs
  end.

(** [if cond && ps.PickSendVote(votes) { return true }], and on otherwise. *)
Definition or_else (first : PsM bool) (next : PsM bool) : PsM bool :=
  b ← first; if b : bool then mret true else next.

(** The votes of a type in a round. *)
Definition votes_of (rs : RoundState) (round typ : Z) : PsM (option VoteSet) :=
  match rs_Votes rs with
  | None => gpanic
  | Some votes => glift (if typ =? PrevoteType then Prevotes votes round else Precommits votes round)
  end.

Definition send_votes (rs : RoundState) (round typ : Z) : PsM bool :=
  s ← votes_of rs round typ; PickSendVote intn accepted (vote_set_reader s).

(** The same, if there are such votes. *)
Definition send_pol (rs : RoundState) (round : Z) : PsM bool :=
  s ← votes_of rs round PrevoteType;
  match s with None => mret false | Some s => PickSendVote intn accepted (vote_set_reader (Some s)) end.

Definition gossipVotesForHeight (rs : RoundState) (prs : PeerRoundState) : PsM bool :=
  let here := negb (prs_Round prs =? -1) && (prs_Round prs <=? rs_Round rs) in
  let pol := negb (prs_ProposalPOLRound prs =? -1) in
  or_else (if prs_Step prs =? RoundStepNewHeight then PickSendVote intn accepted (vote_set_reader (rs_LastCommit rs)) else mret false)
  (or_else (if (prs_Step prs <=? RoundStepPropose) && here && pol then send_pol rs (prs_ProposalPOLRound prs) else mret false)
  (or_else (if (prs_Step prs <=? RoundStepPrevoteWait) && here then send_votes rs (prs_Round prs) PrevoteType else mret false)
  (or_else (if (prs_Step prs <=? RoundStepPrecommitWait) && here then send_votes rs (prs_Round prs) PrecommitType else mret false)
  (or_else (if here then send_votes rs (prs_Round prs) PrevoteType else mret false)
  (if pol then send_pol rs (prs_ProposalPOLRound prs) else mret false))))).

(** A turn of [gossipVotesRoutine], whether a vote was sent; the log before it
    sleeps is left out. *)
Definition gossipVotes (rs : RoundState) (prs : PeerRoundState) : PsM bool :=
  let base := bsr_Base store in
  or_else (if rs_Height rs =? prs_Height prs then gossipVotesForHeight rs prs else mret false)
  (or_else (if negb (prs_Height prs =? 0) && (rs_Height rs =? prs_Height prs +i64 1)
            then PickSendVote intn accepted (vote_set_reader (rs_LastCommit rs)) else mret false)
  (if (0 <? base) && negb (prs_Height prs =? 0) && (prs_Height prs +i64 2 <=? rs_Height rs) && (base <=? prs_Height prs)
   then match bsr_LoadSeenCommit store (prs_Height prs) with
        | Some commit => PickSendVote intn accepted (commit_reader commit)
        | None => mret false
        end
   else mret false)).

Definition send_maj23 (height round typ : Z) (blockID : BlockID) : PsM unit :=
  let msg := MVoteSetMaj23 (mkVoteSetMaj23 height round typ blockID) in
  MustEncode msg;; _ ← Send accepted msg; mret tt.

Definition query_votes (rs : RoundState) (height round typ : Z) : PsM unit :=
  s ← votes_of rs round typ;
  let '(maj23, ok) := the_majority s in
  if ok : bool then send_maj23 height round typ maj23 else mret tt.

(** A turn of [queryMaj23Routine], with a snapshot of the node for each of its
    parts; the peer is copied before each. *)
Definition queryMaj23 (rs1 rs2 rs3 : RoundState) : PsM unit :=
  prs ← prs_get;
  (if rs_Height rs1 =? prs_Height prs then query_votes rs1 (prs_Height prs) (prs_Round prs) PrevoteType else mret tt);;
  prs ← prs_get;
  (if rs_Height rs2 =? prs_Height prs then query_votes rs2 (prs_Height prs) (prs_Round prs) PrecommitType else mret tt);;
  prs ← prs_get;
  (if (rs_Height rs3 =? prs_Height prs) && (0 <=? prs_ProposalPOLRound prs)
   then query_votes rs3 (prs_Height prs) (prs_ProposalPOLRound prs) PrevoteType else mret tt);;
  prs ← prs_get;
  if negb (prs_CatchupCommitRound prs =? -1) && (0 <? prs_Height prs) && (prs_Height prs <=? bsr_Height store) &&
     (bsr_Base store <=? prs_Height prs)
  then match LoadCommit store (prs_Height prs) with
       | Some commit => send_maj23 (prs_Height prs) (c_Round commit) PrecommitType (c_BlockID commit)
       | None => mret tt
       end
  else mret tt.

End gossip.

(** ** The state of the node in a message *)

(** [since] is [int64(time.Since(rs.StartTime).Seconds())]. *)
Definition makeRoundStepMessage {lib : BlockLib} (since : Z) (rs : RoundState) : NewRoundStepMessage :=
  mkNewRoundStep (rs_Height rs) (rs_Round rs) (rs_Step rs) since (vr_GetRound (vote_set_reader (rs_LastCommit rs))).

(** [BitArray] of a nil part set panics. *)
Definition broadcastNewValidBlockMessage {lib : BlockLib} (rs : RoundState) : outcome msg_error NewValidBlockMessage :=
  match rs_ProposalBlockParts (rs_Proposed rs) with
  | None => Panic
  | Some parts =>
      Ok (mkNewValidBlock (rs_Height rs) (rs_Round rs) (PartSet_Header (Some parts)) (PartSet_BitArray parts)
            (rs_Step rs =? RoundStepCommit))
  end.

Definition broadcastHasVoteMessage (vote : Vote) : HasVoteMessage :=
  mkHasVote (v_Height vote) (v_Round vote) (v_Type vote) (v_ValidatorIndex vote).
