(* ===== verification/GossipProps.v ===== *)
(** * The reactor does not panic, unless a peer sends a malformed array

    [reach] are the states of a connection to a peer: messages arrive on any
    channel, the gossip routines take their turns with copies of the peer's
    round state that may be old, and the node moves on.  With well-formed bit
    arrays every turn returns.  The code does not check that the arrays of a
    message are well-formed, and one that is not ends the process. *)

From Stdlib Require Import ZArith Lia.
From stdpp Require Import prelude list gmap.
From S2P Require Import Prelude BitArray Crypto Validator ValidatorSet Proto ProtoDecode Block VoterSet VerifyCommit Slots VoteSet VoteSetInv VoteSetProps HeightVoteSet HeightVotesInv PrivVal Merkle MerkleProps PartSet PartSetProps Consensus ConsensusMsgs PeerState PeerStateProps Gossip ConsensusToy.

Local Open Scope Z_scope.

(** ** Turns of the gossip routines *)

Section gossip.
  Context {crypto : CryptoLib} {codec : TimeCodec} {lib : BlockLib}.

(** A vote that was verified was written, with its time. *)
Lemma verified_timed chain pk v : verified chain pk v -> timed v.
Proof.
  intros [Hv _]. unfold Vote_Verify in Hv. apply obind_Ok in Hv as (addr & _ & Hv). destruct (negb _); [done|].
  apply obind_Ok in Hv as (msg & Hm & _). unfold VoteSignBytes in Hm. apply obind_Ok in Hm as (pb & Hc & Hm).
  assert (cv_Timestamp pb = v_Timestamp v) as Ht.
  { unfold CanonicalizeVote in Hc. apply obind_Ok in Hc as (? & _ & [= <-]). done. }
  unfold timed. rewrite <- Ht. unfold CanonicalVote_Marshal in Hm. by destruct (StdTimeMarshal (cv_Timestamp pb)); [eexists|].
Qed.

(** The votes of a node at a height. *)
Definition votes_ok (rs : RoundState) : Prop :=
  exists hvs chain vs, rs_Votes rs = Some hvs /\ voters_wf vs /\ hv_ok verified chain (rs_Height rs) vs hvs.

(** A round state of the node: its votes and parts are what the vote sets and
    part sets build, it has prevotes for the round its proposal refers to, and the
    time of the proposal can be written. *)
Record rs_ok (rs : RoundState) : Prop := {
  rk_votes : votes_ok rs;
  rk_last : forall s, rs_LastCommit rs = Some s -> vs_inv verified s;
  rk_parts : forall ps, rs_ProposalBlockParts (rs_Proposed rs) = Some ps -> exists total hash, ps_inv total hash ps;
  rk_pol : forall p hvs, rs_Proposal (rs_Proposed rs) = Some p -> 0 <= p_POLRound p -> rs_Votes rs = Some hvs ->
    exists s, set_of hvs (p_POLRound p) PrevoteType = Some s /\ Voters (vs_voterSet s) <> [];
  rk_time : forall p, rs_Proposal (rs_Proposed rs) = Some p -> is_Some (StdTimeMarshal (p_Timestamp p))
}.

(** The commits of a store are valid. *)
Definition store_ok (store : BlockStoreReader) : Prop :=
  forall h c, bsr_LoadSeenCommit store h = Some c -> flags_known c /\ commit_timed c /\ lenZ (c_Signatures c) <= int32_max.

Context (intn : Z -> Z) (accepted : bool) (store : BlockStoreReader) (Hr : rand_ok intn) (Hst : store_ok store).

Lemma load_opt_returns l ps :
  ps_ok ps -> ptr_in (length (ps_heap ps)) l ->
  exists b, load_opt l ps = (Ok b, ps) /\ forall x, b = Some x -> wf x.
Proof.
  intros Hok Hl. destruct l as [l|]; [|by exists None]. destruct (runs_load l ps Hok Hl) as (b & _ & Hw & Hload).
  exists (Some b). split; [|by intros ? [= <-]]. cbn [load_opt]. by rewrite (gbind_step _ _ ps b ps Hload).
Qed.

(** A part is sent and noted. *)
Lemma send_part_returns msg h r i pb ps :
  ps_ok ps -> MsgToProto (Some msg) = Ok pb -> marshals pb = true -> 0 <= i ->
  runs (MustEncode msg;; sent ← Send accepted msg; if sent : bool then SetHasProposalBlockPart h r i else mret tt) (fun _ _ => True) ps.
Proof.
  intros Hok Hm Hw Hi. eapply runs_step; [unfold MustEncode; by rewrite Hm, Hw|]. eapply runs_bind; [by apply runs_send|].
  cbn. intros s ps1 Hok1 _ (-> & _). destruct accepted; [by apply SetHasProposalBlockPart_returns|by apply runs_ret].
Qed.

Lemma catchup_returns prs ps : ps_ok ps -> prs_in (length (ps_heap ps)) prs -> runs (gossipDataForCatchup intn accepted store prs) (fun _ _ => True) ps.
Proof.
  intros Hok Hp. destruct (load_opt_returns (prs_ProposalBlockParts prs) ps Hok) as (b & Hl & Hb); [pointed|].
  eapply runs_step; [exact Hl|].
  assert (exists i ok, PickRandom (E:=msg_error) intn (Not b) = Ok (i, ok) /\ (ok = true -> 0 <= i)) as (i & ok & Hpick & Hi).
  { destruct b as [b|]; [|by exists 0, false]. destruct (Not_spec b (Hb b eq_refl)) as (c & Hc & Hw & _). rewrite Hc.
    destruct (PickRandom_spec (E:=msg_error) intn c Hw Hr) as (i & ok & H1 & H2). exists i, ok. split; [done|]. intros ->.
    by apply bit_true_in in H2 as []. }
  eapply runs_step; [unfold glift; by rewrite Hpick|]. destruct ok; [|by apply runs_ret]. specialize (Hi eq_refl).
  destruct (bsr_LoadBlockMeta _ _) as [id|]; [|by apply runs_ret]. destruct (negb _); [by apply runs_ret|].
  destruct (bsr_LoadBlockPart _ _ _) as [part|]; [|by apply runs_ret]. by eapply send_part_returns.
Qed.

Lemma votes_of_returns rs round typ ps :
  votes_ok rs -> IsVoteTypeValid typ = true ->
  exists hvs, rs_Votes rs = Some hvs /\ votes_of rs round typ ps = (Ok (set_of hvs round typ), ps) /\
    forall s, set_of hvs round typ = Some s -> vs_inv verified s.
Proof.
  intros (hvs & chain & vs & Hv & _ & Hok) Ht. exists hvs. split_and!; [done| |].
  - unfold votes_of. rewrite Hv. unfold IsVoteTypeValid in Ht. unfold glift, Prevotes, Precommits, getVoteSet, set_of.
    destruct (Z.eqb_spec typ PrevoteType) as [->|]; [by destruct (_ !! _)|]. destruct (Z.eqb_spec typ PrecommitType) as [->|]; [by destruct (_ !! _)|done].
  - intros s Hs. by apply (ho_sets _ _ _ _ _ Hok) in Hs as [].
Qed.

Lemma empty_reader_ok : reader_ok (vote_set_reader None).
Proof. by constructor. Qed.

Lemma reader_opt_ok s : (forall x, s = Some x -> vs_inv verified x) -> reader_ok (vote_set_reader s).
Proof. intros Hs. destruct s as [s|]; [by eapply (vote_set_reader_ok verified), Hs; [exact verified_timed|]|apply empty_reader_ok]. Qed.

Lemma gossip_proposal_returns rs p ps :
  ps_ok ps -> rs_ok rs -> rs_Proposal (rs_Proposed rs) = Some p -> runs (gossip_proposal accepted rs p) (fun _ _ => True) ps.
Proof.
  intros Hok Hrs Hp. eapply runs_step; [unfold MustEncode; cbn; by rewrite bool_decide_eq_true_2 by (by apply Hrs)|]. eapply runs_bind; [by apply runs_send|]. cbn. intros s ps1 Hok1 _ _.
  eapply runs_bind with (Q := fun _ _ => True); [destruct s; [by apply SetHasProposal_returns|by apply runs_ret]|].
  intros _ ps2 Hok2 _ _. destruct (Z.leb_spec 0 (p_POLRound p)) as [Hpol|]; [|by apply runs_ret].
  destruct (votes_of_returns rs (p_POLRound p) PrevoteType ps2 (rk_votes _ Hrs) eq_refl) as (hvs & Hv & Hof & Hinv).
  destruct (rk_pol _ Hrs p hvs Hp Hpol Hv) as (set & Hset & Hne). rewrite Hv. unfold votes_of in Hof. rewrite Hv in Hof. cbn in Hof.
  eapply runs_step; [exact Hof|]. rewrite Hset. specialize (Hinv set Hset). apply (vote_set_reader_ok verified _ verified_timed) in Hinv.
  destruct (ro_bits _ Hinv) as (b & Hb & Hw & _).
  { cbn. unfold Voters_Size, lenZ. destruct (Voters (vs_voterSet set)); [done|]. cbn. lia. }
  eapply runs_step; [unfold glift; by rewrite Hb|]. destruct (bits_roundtrip b Hw) as (q & Hq & _).
  eapply runs_step; [unfold MustEncode; cbn [MsgToProto pol_ProposalPOL]; by rewrite Hq|].
  eapply runs_bind; [by apply runs_send|]. intros. by apply runs_ret.
Qed.

Lemma gossip_rest_returns rs prs ps :
  ps_ok ps -> prs_in (length (ps_heap ps)) prs -> rs_ok rs -> runs (gossip_rest intn accepted store rs prs) (fun _ _ => True) ps.
Proof.
  intros Hok Hp Hrs. unfold gossip_rest. destruct (_ && _).
  - destruct (prs_ProposalBlockParts prs); [by apply catchup_returns|].
    destruct (bsr_LoadBlockMeta _ _); [by apply InitProposalBlockParts_returns|by apply runs_ret].
  - destruct (_ || _); [by apply runs_ret|]. destruct (rs_Proposal _) as [p|] eqn:Ep; [|by apply runs_ret].
    destruct (prs_Proposal prs); [by apply runs_ret|by apply gossip_proposal_returns].
Qed.

Lemma gossipData_returns rs prs ps :
  ps_ok ps -> prs_in (length (ps_heap ps)) prs -> rs_ok rs -> runs (gossipData intn accepted store rs prs) (fun _ _ => True) ps.
Proof.
  intros Hok Hp Hrs. unfold gossipData. destruct (rs_ProposalBlockParts _) as [parts|] eqn:Eparts; [|by apply gossip_rest_returns].
  destruct (HasHeader _ _); [|by apply gossip_rest_returns]. destruct (rk_parts _ Hrs parts Eparts) as (total & hash & Hi).
  destruct (load_opt_returns (prs_ProposalBlockParts prs) ps Hok) as (has & Hl & Hhas); [pointed|]. eapply runs_step; [exact Hl|].
  assert (exists missing, Sub (E:=msg_error) (PartSet_BitArray parts) (Copy has) = Ok missing /\
    forall c, missing = Some c -> wf c /\ forall i, bit c i = true -> exists p, idx (E:=msg_error) (ps_parts parts) i = Ok (Some p)) as (missing & Hsub & Hm).
  { unfold PartSet_BitArray, Copy. pose proof (pi_bits _ _ _ Hi) as Hbits. destruct (ps_partsBitArray parts) as [b|]; [|by exists None].
    destruct Hbits as (Hw & HB & Hbit). destruct has as [k|]; [|by exists None].
    destruct (sub_any (E:=msg_error) b k Hw (wf_words64 _ (Hhas k eq_refl))) as (c & Hc & Hwc & HBc & Hword). exists (Some c). split; [done|].
    intros ? [= <-]. split; [done|]. intros i Hci. pose proof (bit_true_in _ _ Hci) as Hin. unfold bits_in, lenZ in *.
    destruct (lookup_lt_is_Some_2 (ps_parts parts) (Z.to_nat i)) as [o Ho]; [lia|]. pose proof (Hbit _ _ Ho) as Hh. rewrite Z2Nat.id in Hh by lia.
    assert (bit b i = true) as Hbi.
    { rewrite bit_in_range in Hci by lia. rewrite Hword, Z.ldiff_spec in Hci. rewrite bit_in_range by lia. by apply andb_true_iff in Hci as []. }
    rewrite Hbi in Hh. destruct o as [p|]; [|done]. exists p. apply idx_Ok. split; [lia|done]. }
  eapply runs_step; [unfold glift; by rewrite Hsub|].
  assert (exists i ok, PickRandom (E:=msg_error) intn missing = Ok (i, ok) /\
    (ok = true -> 0 <= i /\ exists p, idx (E:=msg_error) (ps_parts parts) i = Ok (Some p))) as (i & ok & Hpick & Hpart).
  { destruct missing as [c|]; [|by exists 0, false]. destruct (Hm c eq_refl) as [Hwc Hc].
    destruct (PickRandom_spec (E:=msg_error) intn c Hwc Hr) as (i & ok & H1 & H2). exists i, ok. split; [done|]. intros ->.
    split; [by apply bit_true_in in H2 as []|by apply Hc]. }
  eapply runs_step; [unfold glift; by rewrite Hpick|]. destruct ok; [|by apply gossip_rest_returns].
  destruct (Hpart eq_refl) as (Hi0 & p & Hidx). eapply runs_step; [unfold glift, GetPart; by rewrite Hidx|]. by eapply send_part_returns.
Qed.

Lemma or_else_returns first next ps :
  runs first (fun _ _ => True) ps -> (forall ps', ps_ok ps' -> runs next (fun _ _ => True) ps') -> runs (or_else first next) (fun _ _ => True) ps.
Proof.
  intros H1 H2. eapply runs_bind; [exact H1|]. cbn. intros [] ps' Hok' _ _; [by apply runs_ret|by apply H2].
Qed.

Lemma send_votes_returns rs round typ ps :
  ps_ok ps -> votes_ok rs -> IsVoteTypeValid typ = true -> runs (send_votes intn accepted rs round typ) (fun _ _ => True) ps.
Proof.
  intros Hok Hv Ht. destruct (votes_of_returns rs round typ ps Hv Ht) as (hvs & _ & Hof & Hinv). eapply runs_step; [exact Hof|].
  apply PickSendVote_returns; [done|by apply reader_opt_ok|done].
Qed.

Lemma send_pol_returns rs round ps : ps_ok ps -> votes_ok rs -> runs (send_pol intn accepted rs round) (fun _ _ => True) ps.
Proof.
  intros Hok Hv. destruct (votes_of_returns rs round PrevoteType ps Hv eq_refl) as (hvs & _ & Hof & Hinv). eapply runs_step; [exact Hof|].
  destruct (set_of hvs round PrevoteType) as [s|]; [|by apply runs_ret]. apply PickSendVote_returns; [done|by apply reader_opt_ok|done].
Qed.

Lemma last_commit_returns rs ps : ps_ok ps -> rs_ok rs -> runs (PickSendVote intn accepted (vote_set_reader (rs_LastCommit rs))) (fun _ _ => True) ps.
Proof. intros Hok Hrs. apply PickSendVote_returns; [done| |done]. apply reader_opt_ok, Hrs. Qed.

Lemma gossipVotes_returns rs prs ps : ps_ok ps -> rs_ok rs -> runs (gossipVotes intn accepted store rs prs) (fun _ _ => True) ps.
Proof.
  intros Hok Hrs. pose proof (rk_votes _ Hrs) as Hv. unfold gossipVotes, gossipVotesForHeight. cbn zeta.
  apply or_else_returns; [|intros ps1 Hok1; apply or_else_returns; [|intros ps2 Hok2]].
  - destruct (_ =? _); [|by apply runs_ret].
    repeat (apply or_else_returns; [|intros ? ?]);
      match goal with |- runs (if ?b then _ else _) _ _ => destruct b end;
      eauto using runs_ret, last_commit_returns, send_votes_returns, send_pol_returns.
  - destruct (_ && _); [by apply last_commit_returns|by apply runs_ret].
  - destruct (_ && _); [|by apply runs_ret]. destruct (bsr_LoadSeenCommit _ _) as [c|] eqn:Ec; [|by apply runs_ret].
    destruct (Hst _ _ Ec) as (? & ? & ?). apply PickSendVote_returns; [done|by apply commit_reader_ok|done].
Qed.

Lemma send_maj23_returns h r t b ps : ps_ok ps -> runs (send_maj23 accepted h r t b) (fun _ _ => True) ps.
Proof. intros Hok. eapply runs_step; [done|]. eapply runs_bind; [by apply runs_send|]. intros. by apply runs_ret. Qed.

Lemma query_votes_returns rs h r typ ps :
  ps_ok ps -> votes_ok rs -> IsVoteTypeValid typ = true -> runs (query_votes accepted rs h r typ) (fun _ _ => True) ps.
Proof.
  intros Hok Hv Ht. destruct (votes_of_returns rs r typ ps Hv Ht) as (hvs & _ & Hof & _). eapply runs_step; [exact Hof|].
  destruct (the_majority _) as [b []]; [by apply send_maj23_returns|by apply runs_ret].
Qed.

Lemma queryMaj23_returns rs1 rs2 rs3 ps :
  ps_ok ps -> votes_ok rs1 -> votes_ok rs2 -> votes_ok rs3 -> runs (queryMaj23 accepted store rs1 rs2 rs3) (fun _ _ => True) ps.
Proof.
  intros Hok H1 H2 H3. apply runs_get.
  eapply runs_bind with (Q := fun _ _ => True); [destruct (_ =? _); [by apply query_votes_returns|by apply runs_ret]|]. intros _ ps1 Hok1 _ _.
  apply runs_get. eapply runs_bind with (Q := fun _ _ => True); [destruct (_ =? _); [by apply query_votes_returns|by apply runs_ret]|]. intros _ ps2 Hok2 _ _.
  apply runs_get. eapply runs_bind with (Q := fun _ _ => True); [destruct (_ && _); [by apply query_votes_returns|by apply runs_ret]|]. intros _ ps3 Hok3 _ _.
  apply runs_get. destruct (_ && _); [|by apply runs_ret]. destruct (LoadCommit _ _); [by apply send_maj23_returns|by apply runs_ret].
Qed.

End gossip.

(** ** Messages of the peer *)

Section receive.
  Context {crypto : CryptoLib} {codec : TimeCodec} {lib : BlockLib}.

(** The arrays of a message that arrived are well-formed; words and the index of
    a part are unsigned. *)
Definition msg_ok (m : ReactorMessage) : Prop :=
  match m with
  | MNewValidBlock m => forall b, nvb_BlockParts m = Some b -> wf b
  | MProposalPOL m => forall b, pol_ProposalPOL m = Some b -> wf b
  | MVoteSetBits m => forall b, vsb_Votes m = Some b -> words64 b
  | MBlockPart _ _ (Some part) => 0 <= pt_Index part
  | _ => True
  end.

Definition conn_ok (c : Conn) : Prop := ps_ok (cn_ps c) /\ votes_ok (cs_rs (cn_cs c)).

(** A handler returns, and keeps the connection in order. *)
Definition handled {A} (m : RM A) (c : Conn) : Prop :=
  exists a c', m c = (Ok a, c') /\ conn_ok c' /\ (length (ps_heap (cn_ps c)) <= length (ps_heap (cn_ps c')))%nat.

Lemma handled_bind {A B} (m : RM A) (f : A -> RM B) c :
  handled m c -> (forall a c', conn_ok c' -> handled (f a) c') -> handled (m ≫= f) c.
Proof.
  intros (a & c1 & Hm & Hok & Hl) Hf. destruct (Hf a c1 Hok) as (b & c2 & H2 & Hok2 & Hl2). exists b, c2.
  split_and!; [|done|lia]. by etrans; [apply gbind_step|].
Qed.

Lemma handled_step {A B} (m : RM A) (f : A -> RM B) a c : m c = (Ok a, c) -> handled (f a) c -> handled (m ≫= f) c.
Proof. intros Hm (b & c2 & H2 & Hr). exists b, c2. split; [|done]. by etrans; [apply gbind_step|]. Qed.

Lemma handled_ret {A} (a : A) c : conn_ok c -> handled (mret a) c.
Proof. intros Hc. by exists a, c. Qed.

Lemma handled_peer {A} (m : PsM A) Q c : conn_ok c -> runs m Q (cn_ps c) -> handled (on_peer m) c.
Proof.
  intros [_ Hv] (a & ps' & Hm & Hok & Hl & _). eexists a, _. split; [unfold on_peer; by rewrite Hm|]. done.
Qed.

Lemma handled_stop c : conn_ok c -> handled StopPeerForError c.
Proof. intros [Hp Hv]. eexists tt, _. by split_and!. Qed.

Lemma handled_queue m peer c : conn_ok c -> handled (to_peerMsgQueue m peer) c.
Proof. intros [Hp Hv]. eexists tt, _. by split_and!. Qed.

Lemma our_votes_spec hvs chain h vs round typ b c :
  hv_ok verified chain h vs hvs -> IsVoteTypeValid typ = true ->
  exists o, our_votes hvs round typ b c = (Ok o, c) /\ forall x, o = Some x -> words64 x.
Proof.
  intros Hok Ht.
  assert (Hg : ((if typ =? PrevoteType then glift (Prevotes hvs round)
      else if typ =? PrecommitType then glift (Precommits hvs round) else gpanic) : RM (option VoteSet)) c =
    (Ok (set_of hvs round typ), c)).
  { unfold IsVoteTypeValid in Ht. unfold glift, Prevotes, Precommits, getVoteSet, set_of.
    destruct (Z.eqb_spec typ PrevoteType) as [->|]; [by destruct (_ !! _)|]. destruct (Z.eqb_spec typ PrecommitType) as [->|]; [by destruct (_ !! _)|done]. }
  eexists. split; [unfold our_votes; etrans; [by apply gbind_step|done]|]. intros x. destruct (set_of hvs round typ) as [s|] eqn:Es; [|done].
  apply (ho_sets _ _ _ _ _ Hok) in Es as [[Hb _] _ _ _ _ _]. unfold BitArrayByBlockID, Copy. destruct (_ !! _) as [bv|] eqn:Eb; [|done].
  intros Hx. pose proof (bi_bits _ _ _ _ (vi_block _ _ Hb _ _ Eb)) as Hbits. rewrite Hx in Hbits. destruct Hbits as [Hw _]. by apply wf_words64.
Qed.

Context (now : Time) (waitSync accepted : bool) (peerID : bytes).

(** A claim of a majority: the claim is recorded and answered. *)
Lemma receive_maj23_handled m c :
  conn_ok c -> IsVoteTypeValid (vsm_Type m) = true -> handled (receive_state now accepted peerID (MVoteSetMaj23 m)) c.
Proof.
  intros [Hp Hv] Ht. unfold receive_state. eapply handled_step; [done|]. cbn zeta.
  destruct (Z.eqb_spec (rs_Height (cs_rs (cn_cs c))) (vsm_Height m)) as [Hh|]; cbn [negb]; [|by apply handled_ret].
  pose proof Hv as (hvs & chain & vs & Hvs & Hw & Hok). eapply handled_step; [unfold cs_Votes, mbind, gom_bind, gget; by rewrite Hvs|].
  destruct (HVS_SetPeerMaj23 hvs _ _ _ _) as [hvs'| |] eqn:Es.
  - destruct (hv_move_ok verified chain _ vs Hw (fun _ => False) hvs hvs' Hok) as [Hok' _]; [done|by eapply mv_peer|].
    apply handled_bind; [eexists tt, _; split; [done|]; split; [|done]; split; [done|]; by exists hvs', chain, vs|].
    intros [] c1 Hc1. destruct (our_votes_spec hvs' chain _ vs (vsm_Round m) (vsm_Type m) (vsm_BlockID m) c1 Hok' Ht) as (o & Ho & _).
    eapply handled_step; [exact Ho|]. cbn zeta.
    eapply handled_bind; [apply (handled_peer _ (fun _ _ => True)); [done|]; apply (runs_ret tt); [apply Hc1|done]|]. intros _ c2 Hc2.
    eapply handled_bind; [by eapply handled_peer; [|apply runs_send, Hc2]|]. intros. by apply handled_ret.
  - by apply handled_stop.
  - exfalso. unfold HVS_SetPeerMaj23 in Es. rewrite Ht in Es. cbn [negb] in Es. unfold IsVoteTypeValid in Ht. unfold getVoteSet in Es.
    destruct (_ !! _) as [rvs|]; [|done]. destruct (_ =? PrevoteType); [|destruct (_ =? PrecommitType); [|done]]; cbn in Es;
      unfold SetPeerMaj23 in Es; repeat case_match; done.
Qed.

Lemma receive_state_handled m c :
  conn_ok c -> msg_ok m -> ValidateBasic m = Ok tt -> handled (receive_state now accepted peerID m) c.
Proof.
  intros Hc Hm Hv. destruct m as [m|m|p|m|h r part|v|m|m|m]; try by apply handled_ret.
  - unfold receive_state. eapply handled_step; [done|]. cbn zeta. destruct (ValidateHeight _ _) as [[]| |] eqn:E.
    + eapply handled_peer; [done|]. apply ApplyNewRoundStepMessage_returns, Hc.
    + by apply handled_stop.
    + exfalso. unfold ValidateHeight in E. repeat case_match; done.
  - eapply handled_peer; [done|]. apply ApplyNewValidBlockMessage_returns; [apply Hc|done].
  - eapply handled_peer; [done|]. apply ApplyHasVoteMessage_returns; [apply Hc|]. cbn in Hv. unfold HasVote_ValidateBasic in Hv.
    destruct (IsVoteTypeValid _); cbn in Hv; zcase_in Hv; done || lia.
  - apply receive_maj23_handled; [done|]. cbn in Hv. unfold VoteSetMaj23_ValidateBasic in Hv.
    destruct (IsVoteTypeValid _); cbn in Hv; [done|]. zcase_in Hv; done.
Qed.

Lemma receive_data_handled m c :
  conn_ok c -> msg_ok m -> ValidateBasic m = Ok tt -> handled (receive_data waitSync peerID m) c.
Proof.
  intros Hc Hm Hv. unfold receive_data. destruct waitSync; [by apply handled_ret|].
  destruct m as [m|m|[p|]|m|h r [part|]|v|m|m|m]; try by apply handled_ret.
  - eapply handled_bind; [eapply handled_peer; [done|apply SetHasProposal_returns, Hc]|]. intros. by apply handled_queue.
  - done.
  - eapply handled_peer; [done|]. apply ApplyProposalPOLMessage_returns; [apply Hc|done].
  - eapply handled_bind; [eapply handled_peer; [done|apply SetHasProposalBlockPart_returns; [apply Hc|done]]|]. intros. by apply handled_queue.
  - cbn in Hv. unfold BlockPart_ValidateBasic in Hv. zcase_in Hv; done.
Qed.

Lemma vote_index v : Vote_ValidateBasic v = Ok tt -> 0 <= v_ValidatorIndex v.
Proof.
  unfold Vote_ValidateBasic. destruct (negb _); [done|]. destruct (_ <? _); [done|]. destruct (_ <? _); [done|].
  intros ([] & _ & Hv)%obind_Ok. destruct (_ && _); [done|]. case_bool_decide; [done|]. zcase_in Hv; done || lia.
Qed.

Lemma receive_vote_handled m c :
  conn_ok c -> ValidateBasic m = Ok tt -> handled (receive_vote waitSync peerID m) c.
Proof.
  intros Hc Hv. unfold receive_vote. destruct waitSync; [by apply handled_ret|]. destruct m as [m|m|p|m|h r part|v|m|m|m]; try by apply handled_ret.
  eapply handled_step; [done|]. cbn zeta.
  eapply handled_bind; [eapply handled_peer; [done|apply ensureVoteBitArrays_returns, Hc]|]. intros _ c1 Hc1.
  eapply handled_bind; [eapply handled_peer; [done|apply ensureVoteBitArrays_returns, Hc1]|]. intros _ c2 Hc2.
  destruct v as [v|]; [|done]. cbn in Hv. apply lift_err_Ok in Hv.
  eapply handled_bind; [eapply handled_peer; [done|apply setHasVote_returns; [apply Hc2|by apply vote_index]]|]. intros. by apply handled_queue.
Qed.

Lemma receive_bits_handled m c :
  conn_ok c -> msg_ok m -> ValidateBasic m = Ok tt -> handled (receive_bits waitSync m) c.
Proof.
  intros Hc Hm Hv. unfold receive_bits. destruct waitSync; [by apply handled_ret|]. destruct m as [m|m|p|m|h r part|v|m|m|m]; try by apply handled_ret.
  assert (Ht : IsVoteTypeValid (vsb_Type m) = true).
  { cbn in Hv. unfold VoteSetBits_ValidateBasic in Hv. destruct (IsVoteTypeValid _); cbn in Hv; [done|]. zcase_in Hv; done. }
  eapply handled_step; [done|]. destruct (_ =? _).
  - pose proof Hc as [Hp (hvs & chain & vs & Hvs & Hw & Hok)].
    eapply handled_step; [unfold cs_Votes, mbind, gom_bind, gget; by rewrite Hvs|].
    destruct (our_votes_spec hvs chain _ vs (vsb_Round m) (vsb_Type m) (vsb_BlockID m) c Hok Ht) as (o & Ho & Hwo).
    eapply handled_step; [exact Ho|]. eapply handled_peer; [done|]. by apply ApplyVoteSetBitsMessage_returns.
  - eapply handled_peer; [done|]. apply ApplyVoteSetBitsMessage_returns; [apply Hc|done|done].
Qed.

Lemma Receive_handled chID msg c :
  conn_ok c -> (forall sum m, msg = Some sum -> MsgFromProto (Some sum) = Ok m -> msg_ok m) ->
  handled (Receive now waitSync accepted peerID chID msg) c.
Proof.
  intros Hc Hm. unfold Receive. destruct msg as [sum|]; [|by apply handled_stop]. destruct (MsgFromProto (Some sum)) as [m| |] eqn:Em.
  - pose proof (from_proto_valid sum m Em) as Hv. rewrite Hv. specialize (Hm sum m eq_refl Em).
    destruct (_ =? _); [by apply receive_state_handled|]. destruct (_ =? _); [by apply receive_data_handled|].
    destruct (_ =? _); [by apply receive_vote_handled|]. destruct (_ =? _); [by apply receive_bits_handled|by apply handled_ret].
  - by apply handled_stop.
  - by destruct (from_proto_calm sum).
Qed.

End receive.

(** ** The connection to a peer *)

Section reach.
  Context {crypto : CryptoLib} {codec : TimeCodec} {lib : BlockLib}.

(** The message of the wire, if it decodes, has well-formed arrays. *)
Definition wire_ok (msg : option (option pbMessage)) : Prop :=
  forall sum m, msg = Some sum -> MsgFromProto (Some sum) = Ok m -> msg_ok m.

(** The turns of the routines of a peer, on copies they took. *)
Inductive turn (copies : list PeerRoundState) : forall {A}, PsM A -> Prop :=
| turn_data intn accepted store rs prs :
    rand_ok intn -> rs_ok rs -> prs ∈ copies -> turn copies (gossipData intn accepted store rs prs)
| turn_votes intn accepted store rs prs :
    rand_ok intn -> store_ok store -> rs_ok rs -> prs ∈ copies -> turn copies (gossipVotes intn accepted store rs prs)
| turn_query accepted store rs1 rs2 rs3 :
    votes_ok rs1 -> votes_ok rs2 -> votes_ok rs3 -> turn copies (queryMaj23 accepted store rs1 rs2 rs3)
| turn_vote : turn copies RecordVote
| turn_part : turn copies RecordBlockPart.

(** The connection and the copies of the peer's round state taken so far. *)
Inductive reach : Conn -> list PeerRoundState -> Prop :=
| reach_new cs : votes_ok (cs_rs cs) -> reach (mkConn cs NewPeerState [] false) []
| reach_node c copies cs :
    reach c copies -> votes_ok (cs_rs cs) -> reach (mkConn cs (cn_ps c) (cn_queue c) (cn_stopped c)) copies
| reach_copy c copies : reach c copies -> reach c (PRS (cn_ps c) :: copies)
| reach_receive c copies now waitSync accepted peerID chID msg :
    reach c copies -> wire_ok msg -> reach (snd (Receive now waitSync accepted peerID chID msg c)) copies
| reach_turn c copies {A} (m : PsM A) : reach c copies -> turn copies m -> reach (snd (on_peer m c)) copies.

Lemma turn_returns copies {A} (m : PsM A) ps :
  turn copies m -> ps_ok ps -> Forall (prs_in (length (ps_heap ps))) copies -> runs m (fun _ _ => True) ps.
Proof.
  intros Ht Hok Hcopies. destruct Ht as [intn accepted store rs prs Hr Hrs Hin|intn accepted store rs prs Hr Hst Hrs Hin| | |].
  - eapply gossipData_returns; [done|done| |done]. by eapply Forall_forall in Hcopies.
  - by eapply gossipVotes_returns.
  - by eapply queryMaj23_returns.
  - eexists _, _. split; [done|]. destruct Hok. by split_and!; [constructor|..].
  - eexists _, _. split; [done|]. destruct Hok. by split_and!; [constructor|..].
Qed.

Lemma copies_mono n n' copies : (n <= n')%nat -> Forall (prs_in n) copies -> Forall (prs_in n') copies.
Proof. intros Hn Hc. eapply Forall_impl; [exact Hc|]. intros p. by apply prs_in_mono. Qed.

Lemma reach_ok c copies : reach c copies -> conn_ok c /\ Forall (prs_in (length (ps_heap (cn_ps c)))) copies.
Proof.
  induction 1 as [cs Hv|c copies cs _ [[H1 H2] H3] Hv|c copies _ [[H1 H2] H3]|c copies now ws acc peer ch msg _ [Hc H3] Hm|c copies A m _ [Hc H3] Ht].
  - split; [split; [apply new_peer_ok|done]|done].
  - done.
  - split; [done|]. constructor; [apply H1|done].
  - destruct (Receive_handled now ws acc peer ch msg c Hc Hm) as (a & c' & -> & Hc' & Hl). split; [done|]. by eapply copies_mono.
  - destruct (turn_returns copies m _ Ht (proj1 Hc) H3) as (a & ps' & Hm & Hok & Hl & _). unfold on_peer. rewrite Hm. cbn.
    split; [split; [done|apply Hc]|by eapply copies_mono].
Qed.

(** C21: the reactor does not panic.  Suppose the round states of consensus, at
    any moments, are ones it builds: votes that were verified, with times that can
    be written, of a well-formed set of voters; a proposal and parts of a proposal
    that can be sent; and that stored commits are valid.  As long as the bit arrays
    in the messages of a peer are well formed, nothing else the peer sends, on any
    channel and in any order, and no turn of the gossip routines, however old the
    copy of the peer's state they use, makes the reactor panic. *)
Theorem reactor_safe c copies :
  reach c copies ->
  (forall now waitSync accepted peerID chID msg, wire_ok msg -> exists c', Receive now waitSync accepted peerID chID msg c = (Ok tt, c')) /\
  (forall A (m : PsM A), turn copies m -> exists a c', on_peer m c = (Ok a, c')).
Proof.
  intros [Hc H3]%reach_ok. split.
  - intros now ws acc peer ch msg Hm. destruct (Receive_handled now ws acc peer ch msg c Hc Hm) as ([] & c' & -> & _). by exists c'.
  - intros A m Ht. destruct (turn_returns copies m _ Ht (proj1 Hc) H3) as (a & ps' & Hm & _). unfold on_peer. rewrite Hm. by eexists _, _.
Qed.

(** ** A malformed array *)

(** A new valid block with the header of our parts and an array of the right
    size without any words. *)
Definition malformed (h r : Z) (parts : PartSet) : pbMessage :=
  PbNewValidBlock h r (PartSet_Header (Some parts)) (Some (mkBitArrayProto (ps_total parts) [])) false.

Lemma malformed_decodes h r parts :
  0 <= h -> 0 <= r -> ValidateHash (ps_hash parts) = Ok tt -> 0 < ps_total parts <= MaxBlockPartsCount ->
  MsgFromProto (Some (Some (malformed h r parts))) =
    Ok (MNewValidBlock (mkNewValidBlock h r (PartSet_Header (Some parts)) (Some (mkBitArray (ps_total parts) [])) false)).
Proof.
  intros Hh Hr Hv Ht. unfold MsgFromProto, malformed, convert. rewrite header_from_proto by exact Hv. cbn [lift_err mbind outcome_bind].
  cbn [ValidateBasic]. unfold NewValidBlock_ValidateBasic. cbn [nvb_Height nvb_Round nvb_BlockPartSetHeader nvb_BlockParts FromProto].
  unfold PartSetHeader_ValidateBasic. cbn [PartSet_Header psh_Hash Total BitArray.Size Bits pb_Bits]. rewrite Hv. cbn [lift_err mbind outcome_bind]. zdecide. done.
Qed.

Lemma valid_block_applied ps m b :
  prs_Height (PRS ps) = nvb_Height m -> prs_Round (PRS ps) = nvb_Round m -> nvb_BlockParts m = Some b ->
  ApplyNewValidBlockMessage m ps =
    (Ok tt, mkPeerState (put_parts (PRS ps) (nvb_BlockPartSetHeader m) (Some (length (ps_heap ps)))) (ps_heap ps ++ [b])
              (ps_Votes ps) (ps_BlockParts ps) (ps_sent ps)).
Proof.
  intros Hh Hr Hb. unfold ApplyNewValidBlockMessage, mbind, gom_bind. cbn [prs_get]. unfold prs_get, mbind, gom_bind, gget, mret, gom_ret.
  rewrite Hh, Hr, !Z.eqb_refl, Hb. done.
Qed.

Lemma load_new prs h b v n sent :
  load (length h) (mkPeerState prs (h ++ [b]) v n sent) = (Ok b, mkPeerState prs (h ++ [b]) v n sent).
Proof. unfold load, mbind, gom_bind, gget. cbn. by rewrite list_lookup_middle by done. Qed.

(** An array without words hides nothing: one of our parts is picked. *)
Lemma pick_from_parts parts bad intn (i : nat) p :
  bits_of (ps_partsBitArray parts) (ps_parts parts) -> Elems bad = [] -> rand_ok intn -> ps_parts parts !! i = Some (Some p) ->
  exists j c q, Sub (E:=msg_error) (PartSet_BitArray parts) (Copy (Some bad)) = Ok (Some c) /\ PickRandom (E:=msg_error) intn (Some c) = Ok (j, true) /\
    0 <= j < lenZ (ps_parts parts) /\ GetPart (E:=msg_error) parts j = Ok (Some q).
Proof.
  intros Hbits Hbad Hr Hp. unfold PartSet_BitArray, Copy. destruct (ps_partsBitArray parts) as [b|]; [|cbn in Hbits; by rewrite Hbits in Hp].
  destruct Hbits as (Hw & HB & Hbit). destruct (sub_any (E:=msg_error) b bad Hw) as (c & Hc & Hwc & HBc & Hword).
  { unfold words64. rewrite Hbad. constructor. }
  assert (Hsame : forall j, 0 <= j < Bits b -> bit c j = bit b j).
  { intros j Hj. rewrite !bit_in_range by lia. rewrite Hword. unfold word at 2. rewrite Hbad. cbn. by rewrite Z.ldiff_0_r. }
  destruct (PickRandom_spec (E:=msg_error) intn c Hwc Hr) as (j & ok & Hpick & Hj). unfold lenZ in *.
  assert (Hi : bit c (Z.of_nat i) = true).
  { rewrite Hsame by (apply lookup_lt_Some in Hp; lia). by rewrite (Hbit i _ Hp). }
  destruct ok; [|by rewrite Hj in Hi]. pose proof (bit_true_in _ _ Hj) as Hin. unfold bits_in in Hin.
  rewrite Hsame in Hj by lia. destruct (lookup_lt_is_Some_2 (ps_parts parts) (Z.to_nat j)) as [o Ho]; [lia|].
  pose proof (Hbit _ _ Ho) as Ho'. rewrite Z2Nat.id, Hj in Ho' by lia. destruct o as [q|]; [|done]. exists j, c, q.
  split_and!; [done|done|lia|lia|]. apply idx_Ok. split; [lia|done].
Qed.

(** C23: A peer in a round of the node sends a valid message whose array of
    block parts has a size but no words; it is accepted, and when the node next
    sends the peer a part of its block, the gossip routine indexes the missing
    words and the process ends. *)
Theorem malformed_array_crashes now waitSync accepted peerID intn store c rs parts total hash (i : nat) p :
  ps_ok (cn_ps c) -> rand_ok intn -> rs_ProposalBlockParts (rs_Proposed rs) = Some parts -> ps_inv total hash parts ->
  ps_parts parts !! i = Some (Some p) -> ValidateHash hash = Ok tt -> total <= MaxBlockPartsCount ->
  0 <= prs_Height (PRS (cn_ps c)) -> 0 <= prs_Round (PRS (cn_ps c)) ->
  exists c', Receive now waitSync accepted peerID StateChannel
      (Some (Some (malformed (prs_Height (PRS (cn_ps c))) (prs_Round (PRS (cn_ps c))) parts))) c = (Ok tt, c') /\
    fst (gossipData intn true store rs (PRS (cn_ps c')) (cn_ps c')) = Panic.
Proof.
  intros Hok Hr Hparts Hinv Hp Hhash Hmax Hh Hrd. destruct Hinv as [Ht Hha Hrange Hlen Hbits _ _ _].
  assert (Hpos : 0 < total) by (apply lookup_lt_Some in Hp; unfold lenZ in Hlen; lia).
  set (ps := cn_ps c) in *. set (bad := mkBitArray total []).
  set (prs' := put_parts (PRS ps) (PartSet_Header (Some parts)) (Some (length (ps_heap ps)))).
  set (ps' := mkPeerState prs' (ps_heap ps ++ [bad]) (ps_Votes ps) (ps_BlockParts ps) (ps_sent ps)).
  exists (mkConn (cn_cs c) ps' (cn_queue c) (cn_stopped c)). split.
  - unfold Receive. rewrite malformed_decodes by (rewrite ?Ht, ?Hha; done || lia).
    pose proof (malformed_decodes _ _ _ Hh Hrd ltac:(by rewrite Hha) ltac:(rewrite Ht; lia)) as Hv%from_proto_valid. rewrite Hv.
    change (on_peer (ApplyNewValidBlockMessage (mkNewValidBlock (prs_Height (PRS ps)) (prs_Round (PRS ps)) (PartSet_Header (Some parts))
      (Some (mkBitArray (ps_total parts) [])) false)) c = (Ok tt, mkConn (cn_cs c) ps' (cn_queue c) (cn_stopped c))).
    unfold on_peer. fold ps. by rewrite (valid_block_applied ps _ (mkBitArray (ps_total parts) [])), Ht by done.
  - cbn [cn_ps]. destruct (pick_from_parts parts bad intn i p) as (j & c0 & q & Hsub & Hpick & Hj & Hidx); [done|done|done|done|].
    unfold gossipData. rewrite Hparts. assert (HasHeader (Some parts) (prs_ProposalBlockPartSetHeader (PRS ps')) = true) as ->
      by (cbn; unfold PartSetHeader_Equals; by rewrite Z.eqb_refl, bytes_eqb_refl).
    assert (Hload : load (length (ps_heap ps)) ps' = (Ok bad, ps')) by (by apply load_new).
    rewrite (gbind_step (load_opt _) _ ps' (Some bad) ps') by (cbn; by rewrite (gbind_step _ _ ps' bad ps' Hload)).
    rewrite (glift_step _ _ ps' (Some c0) Hsub). rewrite (glift_step _ _ ps' (j, true) Hpick). cbv beta iota.
    rewrite (glift_step _ _ ps' (Some q) Hidx). cbn zeta. rewrite (gbind_step (MustEncode _) _ ps' tt ps') by done.
    match goal with |- context [Send true ?m] => set (msg := m) end.
    rewrite (gbind_step (Send true msg) _ ps' true (mkPeerState prs' (ps_heap ps') (ps_Votes ps') (ps_BlockParts ps') (msg :: ps_sent ps'))) by done.
    cbv beta iota. unfold SetHasProposalBlockPart. rewrite (gbind_step prs_get _ _ prs' _) by done. rewrite !Z.eqb_refl. cbn [negb orb].
    change (prs_ProposalBlockParts prs') with (Some (length (ps_heap ps))). cbn [set_true].
    rewrite (gbind_step (load _) _ _ bad _) by (by apply load_new).
    assert (Hset : setIndex (E:=msg_error) bad j true = Panic).
    { unfold setIndex, bad. cbn [Bits Elems]. rewrite Hlen in Hj. zdecide. unfold idx. by destruct (_ <? 0). }
    unfold mbind, gom_bind, glift. by rewrite Hset.
Qed.

End reach.

(** ** Witnesses *)

Definition node_votes : HeightVoteSet :=
  match NewHeightVoteSet (E:=unit) [7] 1 mixed_voters with Ok h => h | _ => mkHeightVoteSet [] 0 mixed_voters 0 ∅ ∅ end.

Definition node_conn : @Conn toy_blocks := mkConn (toy_node 0) NewPeerState [] false.

Lemma node_votes_ok : @votes_ok toy_crypto toy_time toy_blocks (cs_rs (toy_node 0)).
Proof.
  exists node_votes, [7], mixed_voters. split; [vm_compute; reflexivity|]. split; [apply mixed_voters_wf|].
  apply (new_height_ok (@verified toy_crypto toy_time) [7] 1 mixed_voters mixed_voters_wf (E:=unit)). vm_compute. reflexivity.
Qed.

Lemma node_rs_ok : @rs_ok toy_crypto toy_time toy_blocks (cs_rs (toy_node 0)).
Proof.
  constructor; [apply node_votes_ok|..].
  - assert (rs_LastCommit (cs_rs (toy_node 0)) = None) as -> by (vm_compute; reflexivity). discriminate.
  - assert (rs_ProposalBlockParts (rs_Proposed (cs_rs (toy_node 0))) = None) as -> by (vm_compute; reflexivity). discriminate.
  - assert (rs_Proposal (rs_Proposed (cs_rs (toy_node 0))) = None) as -> by (vm_compute; reflexivity). discriminate.
  - intros p _. by eexists.
Qed.

Definition no_blocks : BlockStoreReader := mkBlockStoreReader 0 0 (fun _ => None) (fun _ _ => None) (fun _ => None) (fun _ => None).

Lemma reactor_safe_witness :
  (exists c', @Receive toy_time toy_blocks 0 false true [3] StateChannel (Some (Some (PbHasVote (mkHasVote 1 0 PrevoteType 2)))) node_conn = (Ok tt, c')) /\
  (exists a c', on_peer (@gossipVotes toy_time toy_blocks (fun _ => 0) true no_blocks (cs_rs (toy_node 0)) (PRS NewPeerState)) node_conn = (Ok a, c')).
Proof.
  destruct (@reactor_safe toy_crypto toy_time toy_blocks node_conn [PRS NewPeerState]) as [H1 H2].
  - apply (reach_copy node_conn []), reach_new, node_votes_ok.
  - split.
    + apply H1. intros sum m [= <-] [= <-]. exact I.
    + apply H2, turn_votes; [intros n Hn; lia|discriminate|apply node_rs_ok|apply list_elem_of_here].
Defined.

(** The set of five parts with the third one. *)
Definition third_part : Part := default (mkPart 0 [] (mkMerkleProof 0 0 None [])) (sample_parts !! 2%nat).

Definition sample_root : bytes := @HashFromByteSlices toy_crypto sample_items.

Definition one_part : PartSet :=
  default (NewPartSetFromHeader zero_header)
    (snd (@AddPart toy_crypto third_part (Some (NewPartSetFromHeader (mkPartSetHeader 5 sample_root))))).

Lemma one_part_inv : @ps_inv toy_crypto 5 sample_root one_part.
Proof.
  assert (Hnew : @ps_inv toy_crypto 5 sample_root (NewPartSetFromHeader (mkPartSetHeader 5 sample_root))) by (by apply new_header_inv).
  pose proof (AddPart_spec 5 sample_root _ third_part Hnew ltac:(vm_compute; discriminate)) as Ha. unfold part_added in Ha.
  assert ((5 <=? pt_Index third_part) = false) as Hi by (vm_compute; reflexivity). rewrite Hi in Ha. destruct Ha as (o & Ho & Ha).
  assert (Hn : ps_parts (NewPartSetFromHeader (mkPartSetHeader 5 sample_root)) !! Z.to_nat (pt_Index third_part) = Some None)
    by (vm_compute; reflexivity).
  rewrite Hn in Ho. injection Ho as <-.
  assert (@Proof_Verify toy_crypto (pt_Proof third_part) sample_root (pt_Bytes third_part) = Ok tt) as Hv by (vm_compute; reflexivity).
  rewrite Hv in Ha. destruct Ha as (ps & Ha & Hinv & _). unfold one_part. rewrite Ha. exact Hinv.
Qed.

Definition node_with_part : @RoundState toy_blocks :=
  mkRoundState 5 2 4 0 None None mixed_voters None (mkProposed None None (Some one_part)) unset unset None (-1) None mixed_voters false.

Definition crash_conn : @Conn toy_blocks := mkConn (toy_node 0) sample_peer [] false.

Lemma malformed_array_crashes_witness :
  exists c', @Receive toy_time toy_blocks 0 false true [3] StateChannel (Some (Some (malformed 5 2 one_part))) crash_conn = (Ok tt, c') /\
    fst (@gossipData toy_time toy_blocks (fun _ => 0) true no_blocks node_with_part (PRS (cn_ps c')) (cn_ps c')) = Panic.
Proof.
  apply (@malformed_array_crashes toy_crypto toy_time toy_blocks 0 false true [3] (fun _ => 0) no_blocks crash_conn node_with_part one_part 5 sample_root 2 third_part).
  - apply sample_peer_ok.
  - intros n Hn. lia.
  - reflexivity.
  - apply one_part_inv.
  - vm_compute. reflexivity.
  - vm_compute. reflexivity.
  - vm_compute. discriminate.
  - vm_compute. discriminate.
  - vm_compute. discriminate.
Defined.
